(* ===== verification/_CoqProject ===== *)
-Q . S2P
Prelude.v
CoreError.v
Utf8.v
ByteBuffer.v
FrameCodec.v
Framing.v
BinaryIO.v
Envelopes.v
JobQueue.v
Completion.v
SessionRegistry.v
Dispatcher.v
Channel.v
SendQueue.v
RequestData.v
RoutePattern.v
RequestLimiter.v
Charconv.v
Json.v
Message.v
WebSocket.v
HttpParser.v
HttpWire.v
Multipart.v
MultipartForm.v
KeyedExecutor.v
KeyedRuns.v
Endpoint.v
PolicyInternal.v
TrustedProxy.v
ResponseHead.v
HttpResponse.v
DatagramTransport.v
HttpPolicy.v
OutboundQueue.v
OutboundRuns.v
Config.v
FileResponse.v
HttpStreaming.v
RequestInput.v
TimerScheduler.v
JobRunner.v
HostOptions.v
TaskExecutor.v
Periodic.v
TaskGroup.v
ParseWorkerPool.v
Prometheus.v
