(* ===== verification/Prelude.v ===== *)
(** * ServerCore: a verification development

    ServerCore (src/include/ServerCore, src/src) is a C++ library for network servers.  Bytes arrive
    on a connection, are cut into length-prefixed frames, parsed as JSON or binary messages and
    dispatched to handlers; answers go through bounded send queues under a budget shared by all
    connections.  A second front end speaks HTTP/1.1 and WebSocket: requests are parsed, checked by
    policies, routed, and answered whole, streamed, from files or as events.  The runtime runs the
    code of the handlers: executors, timers, ticks, groups, channels, completions, queues to slow
    peers, datagrams, a rate limiter.  This development models the parts that keep state or
    interpret untrusted input, and proves what their callers rely on.

    ** How the code is represented

    A component is a module whose record has the fields of the class and whose definitions are its
    member functions, under their source names; an operation takes the state and returns its
    result with the state it leaves.  Bytes are integers from 0 to 255 and texts are lists of them.
    Integers of a machine width are [Z], with the wrap-around written out where the code relies on
    it ([wrap8], [wrap32], [wrap64]) and the source's range checks kept.  [Status] and [Result] are
    the library's own error values.  A failed SERVERCORE_ASSERT ends the process: an operation with
    an assertion returns [option], [None] being the abort, and theorems show where it is excluded.
    The outcome of an allocation is a Boolean (or a list of them) given to the operation, so that
    the error paths are ordinary branches; where a failed allocation leaves no trace but its
    status, the file says that it is left out.  [std::map] is a list in key order where the order
    is visible and a [gmap] elsewhere.

    A mutex-protected section is one function.  Code that leaves its lock, or works on atomics, is
    a step relation over the positions of its threads, and a theorem about a run holds for every
    interleaving of the sections.  Clocks, sockets, jobs, callbacks and the answers of a component
    that is modelled elsewhere are arguments or choices of the environment.

    ** The files

    Core and protocol:
    - Prelude (this file): widths, byte lists, notations, tactics, the hint database [sc].
    - CoreError: ErrorCode, Status, Result (Core/Error).
    - Utf8: IsValidUtf8 (Core/Utf8.cpp) and AppendUtf8 (Protocol/Json.cpp).
    - ByteBuffer: the receive buffer (Core/ByteBuffer).
    - FrameCodec: the streaming reader and EncodeTo (Protocol/FrameCodec.h).
    - Framing: FrameReader and EncodeFrame on top of it (Protocol/Framing).
    - BinaryIO: binary reader, writer, protocol negotiation (Protocol/BinaryIO).
    - Envelopes: binary messages and datagrams (Protocol/BinaryMessage, Protocol/DatagramCodec.h).
    - JobQueue, Completion: the job queue and one-shot completions (Core/JobQueue,
      Core/CompletionSubscription).
    - SessionRegistry: sessions and process-wide session numbers (Session/SessionRegistry).
    - Dispatcher: types to handlers (Dispatch/Dispatcher), against the classes [DispatchMessage]
      and [DispatchWorld]; Message provides the instance of the first.
    - Charconv: from_chars and to_chars of the standard library, as Json.cpp uses them.
    - Json, Message: values, parser, writer, envelopes (Protocol/Json, Protocol/Message).
    - Endpoint: addresses, endpoints and networks (Core/Endpoint).
    - Config: the configuration reader (Core/Config).

    Network and runtime:
    - Channel: bounded channels and latest values (Runtime/Channel.h).
    - SendQueue: AtomicBudget, SendBudget, SendQueue, SendCapacity (Core/AtomicBudgetInternal.h,
      Net/SendBudgetInternal, Net/SendQueueInternal, Net/ConnectionFlowControl.cpp).
    - RequestLimiter: token buckets and concurrency (Runtime/RequestLimiter).
    - KeyedExecutor, KeyedRuns: tasks in order per key (Runtime/KeyedExecutor.cpp), and its runs.
    - TaskExecutor: workers and a coordinator (Runtime/TaskExecutor.cpp).
    - TaskGroup: CompletionSignal and TaskGroup (Runtime/CompletionSignalInternal.h,
      Runtime/TaskGroup.cpp), on the options of TaskExecutor.
    - TimerScheduler: timers (Runtime/TimerScheduler.cpp).
    - Periodic: PeriodicRunner and TickRunner (Runtime/PeriodicRunner.cpp, Runtime/TickRunner.cpp),
      the second scheduled on TimerScheduler.
    - JobRunner: the serial runner with its two lanes (Runtime/JobRunner.cpp).
    - ParseWorkerPool: the parse workers (Runtime/ParseWorkerPool.cpp).
    - HostOptions: the options of a host (Runtime/ServerHostOptions.cpp), on Config and JobRunner.
    - DatagramTransport: sessions over datagrams (Runtime/DatagramTransport.cpp).
    - OutboundQueue, OutboundRuns: messages staged before a transport takes them
      (Runtime/OutboundQueue.cpp), and the runs of its threads.
    - Prometheus: metrics and their text (Observability/Prometheus.cpp, MetricsInternal.h).

    Web:
    - RequestData, RoutePattern: percent coding, query, form, cookies; patterns and paths
      (Web/RequestData, Web/RoutePattern).
    - WebSocket, HttpParser: the two halves of Web/WebProtocol; HttpWire: requests on the wire.
    - Multipart, MultipartForm: the feed/pull parser (Web/Multipart) and forms on the wire.
    - PolicyInternal, TrustedProxy, HttpPolicy: shared helpers, proxies, the chain of policies
      (Web/PolicyInternal.h, Web/TrustedProxy.cpp, Web/HttpPolicy.cpp).
    - ResponseHead, HttpResponse: heads, chunks and dates (Web/ResponseEncoding,
      Web/WebProtocol.cpp), and the life of one response (Web/HttpResponseInternal).
    - RequestInput: the body of a streamed request (Web/RequestInputInternal.h).
    - FileResponse, HttpStreaming: conditional and range requests (Web/FileResponseInternal.h),
      file transfers and server-sent events (Web/HttpStreaming.cpp).

    ** What the theorems show

    Wire formats.  Whatever pieces a stream is received in, the codec delivers the frames that a
    one-shot cut of the whole stream gives ([codec_refines_cut]); what EncodeFrame wrote comes back
    from FrameReader ([framing_round_trip]).  Binary writes read back in either byte order
    ([binary_round_trip]).  The UTF-8 validator accepts exactly the encodings of Unicode scalar
    values ([utf8_valid_iff]).  Every printable JSON value is read back from its text, doubles
    included ([json_round_trip]); parsing ends on every text with a well-formed value or a
    documented error ([json_parse_sound]).  Messages, addresses and configurations round-trip
    ([message_round_trip], [address_round_trip], [config_round_trip]), and the options of a host
    are what its configuration says ([host_config_round_trip]).

    HTTP.  Any sequence of requests, received in any pieces, comes out of the parser
    ([http_stream_delivered]); an accepted head has one way to find the end of its body, one host
    and no control byte ([accepted_heads_unambiguous]).  A form comes back from its multipart body
    ([multipart_round_trip]).  A finished response decodes to what the handler wrote
    ([finished_response_decodes]).  Client frames of a WebSocket are accepted exactly when they are
    well formed ([client_frames_exact]).  Headers of an untrusted peer do not change the client
    address behind trusted proxies ([proxy_spoof_resistance]); policies fail closed and CORS never widens an answer
    ([policy_fails_closed], [cors_never_widens]).  Decoded paths contain no separator, dot segment
    or control byte ([decoded_path_safe]) and the most specific route is unique
    ([best_route_unique]).  A range request gets the bytes it asks for, and a transfer sends exactly
    the planned part, completes an error response or aborts ([file_range_exact], [file_transfer_exact]); an event is read as it was given
    ([sse_round_trip]); a streamed body is delivered in order, within its credit, and no wait for
    it is lost ([request_body_delivered], [request_body_bounded]).

    Concurrency.  A session number is held by at most one holder and is never issued again
    ([session_ids_never_reused]).  The send budget counts what the queues retain plus what is in
    flight ([send_budget_accounting]).  A completion delivers once and a finished Reset is final
    ([completion_once_and_quiescent]).  A subscriber of a channel that is still
    pending waits for a condition that does not hold, or a thread is about to complete it
    ([channel_no_lost_wakeup]).  Tasks of a key run one at a time in order, and the keyed executor
    drains ([keyed_serial_in_order], [keyed_drains]).  A task starts at most once, never after an
    accepted cancellation, and finishes once; the executor's counters are exact, and a stop wakes
    every sleeping thread and drains it ([task_lives], [task_accounting], [task_stop_drains],
    [task_order]).  The end of a group is
    signalled exactly when it has come and is not missed ([group_completion], [group_accounting],
    [signal_once]).  A timer never overlaps itself, ends once, and is not chosen again once its
    cancellation was accepted, so that only a dispatch under way can still be submitted ([timer_lives], [timer_scan_exact], [timer_stop_drains], [timer_grid]); ticks and periods are
    each executed or counted as left out ([tick_numbers], [periodic_grid]).  The job runner is
    serial and loses nothing ([job_runner_serial]), and neither does the parse pool before its stop
    ([pool_serves]).  The outbound queue keeps its order and its books and, with one exception, is
    always going to be woken while messages wait ([outbound_order_and_accounting],
    [outbound_no_lost_wakeup], [outbound_finishes_once]).  A datagram is never accepted twice
    ([datagram_no_replay]).

    Limits.  The limiter admits in any window at most a burst plus the refill of that window
    ([rate_bound]).  A host takes options over only within bounds that it can count on
    ([host_options_safe]).  A collector reads the metrics as they are ([prometheus_round_trip],
    [histogram_cumulative]).

    ** What the models showed

    - [outbound_deferred_wake_lost]: when two wake-ups of the outbound queue are deferred and the
      older registration is stored last, the end of the timer wakes nobody and messages stay
      (Runtime/OutboundQueue.cpp, Arm).
    - [preamble_depends_on_pieces]: a multipart body whose preamble begins like a delimiter is
      refused when fed at once and accepted in two pieces (Web/Multipart.cpp, Read).

    ** Bounds and fuel

    Recursion that is not structural runs on fuel which the theorems show to be enough.  The
    loops of the codec and of the UTF-8, field, path and header readers get the length of their
    input plus a constant, each round consuming a byte.  The JSON parser gets [Fuel], twice the
    length of the text plus two: a value and an element each consume a byte.  Its nesting limit,
    value limit and exponent limit are the source's.  Decimal digits are produced with the binary
    logarithm of the number as fuel; to_chars tries 1 to 17 significant digits, 17 being enough for
    every binary64.  Doubles are [spec_float] values at precision 53 and maximal exponent 1024.
    The limiter's and the transport's long double is a rational with a rounding function as
    parameter: accounting holds for every monotone rounding that keeps the integers it is given,
    the rate bound is stated for exact arithmetic, since rounding may add a fraction of a token per
    refill.  Threads need no fuel: runs are inductive, and the drain theorems
    bound every sequence of own steps by a measure that goes down ([keyed_drains],
    [task_stop_drains]) or give a path on which it does ([timer_stop_drains]).

    ** What is not modelled

    Operating-system I/O: sockets, acceptors, the IOCP and epoll loops, files, clocks, log lines
    (Net, Core/AtomicFile, Core/Logging, Observability/AsyncLogger); their outcomes are arguments
    where a modelled component meets them.  The connection handling of the HTTP server and the life
    cycle of the server host (Web/HttpServer.cpp, Runtime/ServerHostLifecycle.cpp,
    Runtime/ServerHostNetworkSession.h), which tie the modelled components to sockets and threads
    and have no state apart from them that a model without the operating system could keep;
    Runtime/SessionTask.cpp, the same between three components.  The C and Rust bindings.  Of the
    modelled components these parts are left out: the election of one dispatching thread in
    SendBudget::Notify, the blocking forms of channels and handles, the readiness monitor of the
    datagram transport, the batch calls and the two sinks of the outbound queue, and handing the
    transfer of a file to an executor. *)

From Stdlib Require Export ZArith Lia Bool.
From Stdlib Require Import Sorted.
From stdpp Require Export base list numbers option strings.
From Stdlib Require Export Ascii.
From Stdlib Require Export ZifyBool ZifyNat.
#[global] Open Scope Z_scope.

(** ** Machine widths *)

Definition UINT8_MAX : Z := 255.
Definition UINT32_MAX : Z := 4294967295.
Definition UINT64_MAX : Z := 18446744073709551615.

(** [std::size_t] of the 64-bit targets the library is built for. *)
Definition SIZE_MAX : Z := UINT64_MAX.

Definition wrap8 (z : Z) : Z := z mod 2 ^ 8.
Definition wrap32 (z : Z) : Z := z mod 2 ^ 32.
Definition wrap64 (z : Z) : Z := z mod 2 ^ 64.

(** [std::bit_cast<std::int64_t>] of an unsigned 64-bit pattern. *)
Definition to_signed64 (z : Z) : Z := if z <? 2 ^ 63 then z else z - 2 ^ 64.

(** ** Bytes and text *)

(** A byte is an integer in [0, 256); a [std::span<const std::byte>], a [std::vector<std::byte>] and
    a [std::string] are all lists of such integers (the source compares characters only after
    [static_cast<unsigned char>], or against ASCII constants). *)
Definition is_byte (z : Z) : Prop := 0 <= z < 256.
Definition is_bytes (l : list Z) : Prop := Forall is_byte l.

Definition byteb (z : Z) : bool := (0 <=? z) && (z <? 256).
Definition bytesb (l : list Z) : bool := forallb byteb l.

(** [size()] of a container, as a [std::size_t]. *)
Definition len {A : Type} (l : list A) : Z := Z.of_nat (length l).

(** The bytes of a string literal. *)
Definition char_code (c : ascii) : Z := Z.of_N (N_of_ascii c).

Fixpoint txt (s : string) : list Z :=
  match s with
  | EmptyString => []
  | String c s' => char_code c :: txt s'
  end.

(** Bytes as a string, for the text of a status. *)
Fixpoint str (l : list Z) : string :=
  match l with
  | [] => EmptyString
  | z :: l' => String (ascii_of_N (Z.to_N z)) (str l')
  end.

(** [n] elements of [l] from offset [off]: [subspan], [substr]. *)
Definition slice {A : Type} (off n : nat) (l : list A) : list A := take n (drop off l).

(** [memcpy]/[memmove] of [src] over [dst] at offset [off]. *)
Definition write_at {A : Type} (off : nat) (src dst : list A) : list A :=
  take off dst ++ src ++ drop (off + length src) dst.

(** Position of the first [x] in [l]: [std::string_view::find]. *)
Fixpoint find_index (x : Z) (l : list Z) : option nat :=
  match l with
  | [] => None
  | y :: l' => if y =? x then Some 0%nat else option_map S (find_index x l')
  end.

(** Equality of byte strings: [operator==] of [std::string_view]. *)
Fixpoint bytes_eqb (a b : list Z) : bool :=
  match a, b with
  | [], [] => true
  | x :: a', y :: b' => (x =? y) && bytes_eqb a' b'
  | _, _ => false
  end.

(** [std::string::operator<]: [char_traits<char>] compares characters as unsigned. *)
Fixpoint bytes_ltb (a b : list Z) : bool :=
  match a, b with
  | _, [] => false
  | [], _ :: _ => true
  | x :: a', y :: b' => if x <? y then true else if y <? x then false else bytes_ltb a' b'
  end.

(** Up to the first [c], and what follows it ([None]: [find] returned [npos]). *)
Fixpoint cut (c : Z) (l : list Z) : list Z * option (list Z) :=
  match l with
  | [] => ([], None)
  | x :: l' =>
      if x =? c then ([], Some l')
      else let (a, rest) := cut c l' in (x :: a, rest)
  end.

(** All the pieces between the [c]s of [l]; [join] puts them together again. *)
Fixpoint split_on (c : Z) (l : list Z) : list (list Z) :=
  match l with
  | [] => [[]]
  | x :: l' =>
      if x =? c then [] :: split_on c l'
      else match split_on c l' with
           | f :: fs => (x :: f) :: fs
           | [] => [[x]]
           end
  end.

Fixpoint join (c : Z) (fs : list (list Z)) : list Z :=
  match fs with
  | [] => []
  | [f] => f
  | f :: fs' => f ++ c :: join c fs'
  end.

(** [starts_with], and [find] of a substring: what lies before its first occurrence and what follows
    it ([None]: [npos]). *)
Fixpoint starts_with (pat l : list Z) : bool :=
  match pat, l with
  | [], _ => true
  | x :: pat', y :: l' => (x =? y) && starts_with pat' l'
  | _ :: _, [] => false
  end.

Fixpoint cut_sub (pat l : list Z) : list Z * option (list Z) :=
  if starts_with pat l then ([], Some (drop (length pat) l))
  else
    match l with
    | [] => ([], None)
    | x :: l' => let (a, rest) := cut_sub pat l' in (x :: a, rest)
    end.

Arguments char_code c%_char_scope.
Arguments len : simpl never.
Arguments slice : simpl never.
Arguments write_at : simpl never.

(** ** Tactics *)

(** Case on the scrutinee of the first boolean [if] of the goal, or of a hypothesis. *)
Ltac case_if :=
  match goal with
  | |- context [if ?b then _ else _] => let E := fresh "E" in destruct b eqn:E
  end.
Ltac case_if_in H :=
  match type of H with
  | context [if ?b then _ else _] => let E := fresh "E" in destruct b eqn:E
  end.
Ltac case_ifs := repeat case_if.

(** Split a match on anything in a hypothesis. *)
Ltac case_match_in H :=
  match type of H with
  | context [match ?x with _ => _ end] => let E := fresh "E" in destruct x eqn:E
  end.

(** [lia] with the equations of the divisions and remainders by constants. *)
Ltac dlia := Z.div_mod_to_equations; lia.

(** Evaluate the closed powers of two and shifts, in the goal and the hypotheses. *)
Ltac eval_pow_term t :=
  let v := eval vm_compute in t in
  lazymatch v with
  | Z0 => idtac | Zpos _ => idtac | Zneg _ => idtac
  end;
  change t with v in *.
Ltac eval_pow :=
  repeat match goal with
  | |- context [2 ^ ?e] => eval_pow_term (2 ^ e)
  | |- context [Z.shiftl 1 ?e] => eval_pow_term (Z.shiftl 1 e)
  | H : context [2 ^ ?e] |- _ => eval_pow_term (2 ^ e)
  | H : context [Z.shiftl 1 ?e] |- _ => eval_pow_term (Z.shiftl 1 e)
  end.

(** Evaluate the codes of character literals. *)
Ltac eval_chars :=
  repeat match goal with
  | |- context [char_code ?c] => eval_pow_term (char_code c)
  | H : context [char_code ?c] |- _ => eval_pow_term (char_code c)
  end.

(** Equality of two explicit lists of integers, element by element. *)
Ltac list_dlia := repeat (apply (f_equal2 cons); [dlia|]); reflexivity.

Create HintDb sc.
Create Rewrite HintDb sc.

(** ** Generic lemmas *)

Lemma bytes_eqb_eq a b : bytes_eqb a b = true <-> a = b.
Proof.
  revert b; induction a as [|x a IH]; intros [|y b]; simpl; split; intros H;
    try discriminate; try reflexivity.
  - apply andb_prop in H as [Hx Ha]. apply Z.eqb_eq in Hx. apply IH in Ha. by subst.
  - inv H. rewrite Z.eqb_refl. by apply IH.
Qed.

Lemma bytes_eqb_refl a : bytes_eqb a a = true.
Proof. by apply bytes_eqb_eq. Qed.

Lemma bytes_eqb_neq a b : bytes_eqb a b = false <-> a <> b.
Proof.
  rewrite <- (bytes_eqb_eq a b). destruct (bytes_eqb a b); naive_solver.
Qed.

Lemma bytes_eqb_sym a b : bytes_eqb a b = bytes_eqb b a.
Proof.
  destruct (bytes_eqb b a) eqn:E.
  - apply bytes_eqb_eq in E. subst. apply bytes_eqb_refl.
  - apply bytes_eqb_neq. apply bytes_eqb_neq in E. congruence.
Qed.

Lemma bytes_ltb_irrefl a : bytes_ltb a a = false.
Proof. induction a as [|x a IH]; simpl; [done|]. by rewrite Z.ltb_irrefl. Qed.

Lemma bytes_ltb_trans a b c : bytes_ltb a b = true -> bytes_ltb b c = true -> bytes_ltb a c = true.
Proof.
  revert b c; induction a as [|x a IH]; intros [|y b] [|z c]; simpl; try done.
  destruct (x <? y) eqn:Exy, (y <? z) eqn:Eyz, (x <? z) eqn:Exz; try done;
    destruct (y <? x) eqn:Eyx, (z <? y) eqn:Ezy, (z <? x) eqn:Ezx; try done; try lia.
  apply IH.
Qed.

Lemma bytes_ltb_trichotomy a b : bytes_ltb a b = true \/ a = b \/ bytes_ltb b a = true.
Proof.
  revert b; induction a as [|x a IH]; intros [|y b]; simpl; auto.
  destruct (x <? y) eqn:Exy, (y <? x) eqn:Eyx; auto.
  assert (x = y) as -> by lia. destruct (IH b) as [?|[->|?]]; auto.
Qed.

Lemma bytes_ltb_antisym a b : bytes_ltb a b = true -> bytes_ltb b a = false.
Proof.
  intros H. destruct (bytes_ltb b a) eqn:E; [|done].
  rewrite <- (bytes_ltb_irrefl a). symmetry. by eapply bytes_ltb_trans.
Qed.

Lemma byteb_iff z : byteb z = true <-> is_byte z.
Proof. unfold byteb, is_byte. lia. Qed.

Lemma bytesb_iff l : bytesb l = true <-> is_bytes l.
Proof.
  unfold bytesb, is_bytes. rewrite forallb_forall, Forall_forall.
  setoid_rewrite list_elem_of_In. setoid_rewrite byteb_iff. done.
Qed.

Lemma char_code_byte c : is_byte (char_code c).
Proof.
  unfold is_byte, char_code. pose proof (N_ascii_bounded c). lia.
Qed.

Lemma txt_bytes s : is_bytes (txt s).
Proof. induction s; simpl; constructor; auto using char_code_byte. Qed.

Lemma is_bytes_app a b : is_bytes (a ++ b) <-> is_bytes a /\ is_bytes b.
Proof. apply Forall_app. Qed.

Lemma is_bytes_take n l : is_bytes l -> is_bytes (take n l).
Proof. apply Forall_take. Qed.

Lemma is_bytes_drop n l : is_bytes l -> is_bytes (drop n l).
Proof. apply Forall_drop. Qed.

Lemma is_bytes_slice off n l : is_bytes l -> is_bytes (slice off n l).
Proof. intros H. by apply is_bytes_take, is_bytes_drop. Qed.

Lemma len_app {A} (a b : list A) : len (a ++ b) = len a + len b.
Proof. unfold len. rewrite length_app. lia. Qed.

Lemma len_nonneg {A} (l : list A) : 0 <= len l.
Proof. unfold len. lia. Qed.

Lemma length_write_at {A} off (src dst : list A) :
  (off + length src <= length dst)%nat -> length (write_at off src dst) = length dst.
Proof.
  intros H. unfold write_at. rewrite !length_app, length_take, length_drop. lia.
Qed.

Lemma length_slice {A} off n (l : list A) :
  (off + n <= length l)%nat -> length (slice off n l) = n.
Proof. intros H. unfold slice. rewrite length_take, length_drop. lia. Qed.

(** A write leaves what lies before it and is what is read back at its place. *)
Lemma slice_write_at_before {A} off n i (src dst : list A) :
  (i + n <= off)%nat -> (off + length src <= length dst)%nat ->
  slice i n (write_at off src dst) = slice i n dst.
Proof.
  intros H1 H2. unfold slice, write_at.
  rewrite drop_app_le by (rewrite length_take; lia).
  rewrite take_app_le by (rewrite length_drop, length_take; lia).
  rewrite skipn_firstn_comm, take_take. f_equal. lia.
Qed.

Lemma slice_write_at_same {A} off (src dst : list A) :
  (off + length src <= length dst)%nat -> slice off (length src) (write_at off src dst) = src.
Proof.
  intros H. unfold slice, write_at.
  rewrite drop_app_length' by (rewrite length_take; lia).
  by rewrite take_app_length.
Qed.

Lemma slice_app_split {A} i n m (l : list A) :
  slice i (n + m) l = slice i n l ++ slice (i + n) m l.
Proof.
  unfold slice. rewrite <- (drop_drop l n i).
  rewrite <- (take_drop n (take (n + m) (drop i l))) at 1.
  f_equal.
  - rewrite take_take. f_equal. lia.
  - rewrite skipn_firstn_comm. replace (n + m - n)%nat with m by lia. done.
Qed.

Lemma slice_extend {A} i n off (src dst : list A) :
  (i <= off)%nat -> (off + length src <= length dst)%nat -> n = (off - i)%nat ->
  slice i (n + length src) (write_at off src dst) = slice i n dst ++ src.
Proof.
  intros H1 H2 ->. rewrite slice_app_split. f_equal.
  - apply slice_write_at_before; lia.
  - replace (i + (off - i))%nat with off by lia. by apply slice_write_at_same.
Qed.

Lemma slice_slice {A} i n j m (l : list A) :
  (i + n <= m)%nat -> slice i n (slice j m l) = slice (j + i) n l.
Proof.
  intros H. unfold slice. rewrite skipn_firstn_comm, take_take, drop_drop. f_equal. lia.
Qed.

Lemma drop_slice {A} i j m (l : list A) : drop i (slice j m l) = slice (j + i) (m - i) l.
Proof. unfold slice. by rewrite skipn_firstn_comm, drop_drop. Qed.

Lemma slice_app_l {A} i n (s t : list A) :
  (i + n <= length s)%nat -> slice i n (s ++ t) = slice i n s.
Proof.
  intros H. unfold slice. rewrite drop_app_le by lia.
  by rewrite take_app_le by (rewrite length_drop; lia).
Qed.

Lemma is_bytes_write_at off src dst :
  is_bytes src -> is_bytes dst -> is_bytes (write_at off src dst).
Proof.
  intros Hs Hd. unfold write_at. rewrite !is_bytes_app. auto using is_bytes_take, is_bytes_drop.
Qed.

Lemma nth_map_seq (f : nat -> Z) n i : (i < n)%nat -> nth i (map f (seq 0 n)) 0 = f i.
Proof.
  intros Hi. rewrite (nth_indep _ 0 (f 0%nat)) by (by rewrite length_map, length_seq).
  by rewrite map_nth, seq_nth.
Qed.

Lemma nth_ext_z (a b : list Z) :
  length a = length b -> (forall i, (i < length a)%nat -> nth i a 0 = nth i b 0) -> a = b.
Proof. intros Hl H. by apply (List.nth_ext a b 0 0). Qed.

Lemma nth_slice i k m (l : list Z) :
  (i < m)%nat -> (k + m <= length l)%nat -> nth i (slice k m l) 0 = nth (k + i) l 0.
Proof.
  intros Hi Hk. unfold slice.
  rewrite (nth_lookup_Some (take m (drop k l)) i 0 (nth (k + i) l 0)); [done|].
  rewrite lookup_take_lt, lookup_drop by lia. rewrite nth_lookup.
  destruct (lookup_lt_is_Some_2 l (k + i)) as [x Hx]; [lia|]. by rewrite Hx.
Qed.

Lemma nth_bytes i l : is_bytes l -> is_byte (nth i l 0).
Proof.
  intros H. destruct (nth_in_or_default i l 0) as [Hin| ->]; [|unfold is_byte; lia].
  apply list_elem_of_In in Hin. unfold is_bytes in H. rewrite Forall_forall in H. auto.
Qed.

(** ** Splitting *)

Lemma split_on_cut c l :
  split_on c l = (cut c l).1 ::
    match (cut c l).2 with Some rest => split_on c rest | None => [] end.
Proof.
  induction l as [|x l IH]; [done|]. cbn [split_on cut]. destruct (x =? c); [done|].
  destruct (cut c l) as [a rest]. cbn [fst snd] in *. by rewrite IH.
Qed.

Lemma split_on_not_nil c l : split_on c l <> [].
Proof. by rewrite split_on_cut. Qed.

Lemma cut_inv c l :
  match cut c l with
  | (a, Some rest) => l = a ++ c :: rest
  | (a, None) => l = a
  end.
Proof.
  induction l as [|x l IH]; [done|]. cbn [cut]. destruct (x =? c) eqn:E.
  - apply Z.eqb_eq in E as ->. done.
  - destruct (cut c l) as [a [rest|]]; by rewrite IH.
Qed.

Lemma cut_length c l a rest : cut c l = (a, Some rest) -> length l = (length a + S (length rest))%nat.
Proof.
  revert a rest; induction l as [|x l IH]; intros a rest H; cbn [cut] in H; [done|].
  case_if_in H; [by injection H as <- <-|].
  destruct (cut c l) as [a' r'] eqn:E'. injection H as <- ->. cbn [length]. by rewrite (IH a' rest).
Qed.

Lemma cut_app c f rest : c ∉ f -> cut c (f ++ c :: rest) = (f, Some rest).
Proof.
  induction f as [|x f IH]; intros Hn; cbn [app cut].
  - by rewrite Z.eqb_refl.
  - apply not_elem_of_cons in Hn as [Hx Hn]. replace (x =? c) with false by lia. by rewrite IH.
Qed.

Lemma cut_none c f : c ∉ f -> cut c f = (f, None).
Proof.
  induction f as [|x f IH]; intros Hn; cbn [cut]; [done|].
  apply not_elem_of_cons in Hn as [Hx Hn]. replace (x =? c) with false by lia. by rewrite IH.
Qed.

Lemma split_on_join c fs :
  fs <> [] -> Forall (fun f => c ∉ f) fs -> split_on c (join c fs) = fs.
Proof.
  intros Hne H. induction H as [|f fs Hf H IH]; [done|]. destruct fs as [|g fs].
  - cbn [join]. by rewrite split_on_cut, cut_none.
  - change (join c (f :: g :: fs)) with (f ++ c :: join c (g :: fs)).
    rewrite split_on_cut, cut_app by done. cbn [fst snd]. by rewrite IH.
Qed.

Lemma join_split_on c l : join c (split_on c l) = l.
Proof.
  induction l as [|x l IH]; [done|]. cbn [split_on]. pose proof (split_on_not_nil c l) as Hn.
  destruct (split_on c l) as [|f fs]; [done|]. destruct (x =? c) eqn:E.
  - apply Z.eqb_eq in E as ->. by rewrite <- IH.
  - rewrite <- IH. by destruct fs.
Qed.

Lemma split_on_no_sep c l : Forall (fun f => c ∉ f) (split_on c l).
Proof.
  induction l as [|x l IH]; cbn [split_on].
  - constructor; [apply not_elem_of_nil|constructor].
  - destruct (x =? c) eqn:E; [by constructor; [apply not_elem_of_nil|]|].
    destruct (split_on c l) as [|f fs].
    + constructor; [|constructor]. apply not_elem_of_cons. split; [lia|apply not_elem_of_nil].
    + apply Forall_cons in IH as [Hf IH]. constructor; [|done]. apply not_elem_of_cons. split; [lia|done].
Qed.

(** ** Substrings *)

Lemma starts_with_app pat l : starts_with pat (pat ++ l) = true.
Proof. induction pat as [|x pat IH]; cbn; [done|]. by rewrite Z.eqb_refl. Qed.

Lemma starts_with_inv pat l : starts_with pat l = true -> l = pat ++ drop (length pat) l.
Proof.
  revert l; induction pat as [|x pat IH]; intros [|y l]; cbn; try done.
  intros [->%Z.eqb_eq H]%andb_prop. by rewrite <- IH.
Qed.

Lemma starts_with_iff pat l : starts_with pat l = true <-> exists r, l = pat ++ r.
Proof.
  split; [intros H%starts_with_inv; eauto|]. intros [r ->]. apply starts_with_app.
Qed.

Lemma cut_sub_nil pat : pat <> [] -> cut_sub pat [] = ([], None).
Proof. by destruct pat. Qed.

Lemma cut_sub_inv pat l :
  match cut_sub pat l with
  | (a, Some rest) => l = a ++ pat ++ rest
  | (a, None) => l = a
  end.
Proof.
  induction l as [|x l IH]; cbn [cut_sub].
  - destruct (starts_with pat []) eqn:E; [|done]. apply starts_with_inv in E.
    destruct pat; [done|]. by cbn in E.
  - destruct (starts_with pat (x :: l)) eqn:E; [by apply starts_with_inv in E|].
    destruct (cut_sub pat l) as [a [rest|]]; cbn; by f_equal.
Qed.

(** More text after it does not move an occurrence that has been found. *)
Lemma cut_sub_app pat l x a rest :
  cut_sub pat l = (a, Some rest) -> cut_sub pat (l ++ x) = (a, Some (rest ++ x)).
Proof.
  revert a rest; induction l as [|y l IH]; intros a rest; cbn [cut_sub app].
  - destruct (starts_with pat []) eqn:E; [|done]. destruct pat; [|done].
    intros [= <- <-]. cbn. by destruct x.
  - destruct (starts_with pat (y :: l)) eqn:E.
    + apply starts_with_inv in E. intros [= <- <-].
      change (y :: l ++ x) with ((y :: l) ++ x). rewrite E, <- app_assoc, starts_with_app.
      do 2 f_equal. by rewrite !drop_app_length.
    + destruct (cut_sub pat l) as [a' r'] eqn:Ec. intros [= <- ->].
      rewrite (IH a' rest eq_refl). destruct (starts_with pat (y :: l ++ x)) eqn:E'; [|done].
      exfalso. pose proof (cut_sub_inv pat l) as Hi. rewrite Ec in Hi.
      apply starts_with_iff in E' as [r Hr].
      assert (starts_with pat (y :: l) = true) as Hs; [|congruence].
      apply starts_with_iff. rewrite Hi in Hr |- *.
      exists (drop (length pat) (y :: a' ++ pat ++ rest)).
      rewrite <- (take_drop (length pat) (y :: a' ++ pat ++ rest)) at 1. f_equal.
      change (y :: (a' ++ pat ++ rest) ++ x) with ((y :: a' ++ pat ++ rest) ++ x) in Hr.
      rewrite <- (take_app_le _ x) by (cbn; rewrite !length_app; lia).
      by rewrite Hr, take_app_length.
Qed.

(** An occurrence that spans the end of a text is not within it. *)
Lemma cut_sub_late pat l x a b rest :
  cut_sub pat l = (a, None) -> cut_sub pat (l ++ x) = (b, Some rest) ->
  (length l < length b + length pat)%nat.
Proof.
  intros H1 H2. destruct (decide (length b + length pat <= length l)%nat) as [Hle|]; [|lia].
  exfalso. pose proof (cut_sub_inv pat (l ++ x)) as Hi. rewrite H2 in Hi.
  assert (l = b ++ pat ++ drop (length b + length pat) l) as Hl.
  { rewrite <- (take_drop (length b + length pat) l) at 1. rewrite app_assoc. f_equal.
    rewrite <- (take_app_le l x) by done. rewrite Hi, app_assoc.
    by rewrite <- length_app, take_app_length. }
  assert (forall b r a, cut_sub pat (b ++ pat ++ r) <> (a, None)) as Hf.
  { clear. induction b as [|y b IH]; intros r a.
    - rewrite app_nil_l. destruct (pat ++ r) as [|z l] eqn:E; cbn [cut_sub]; rewrite <- E.
      + by rewrite starts_with_app.
      + by rewrite starts_with_app.
    - cbn [app cut_sub]. case_if; [done|]. destruct (cut_sub pat (b ++ pat ++ r)) as [a' r'] eqn:E'.
      intros [= <- ->]. by apply IH in E'. }
  rewrite Hl in H1. by apply Hf in H1.
Qed.

Lemma cut_sub_length pat l a rest :
  cut_sub pat l = (a, Some rest) -> length l = (length a + length pat + length rest)%nat.
Proof.
  intros H. pose proof (cut_sub_inv pat l) as Hi. rewrite H in Hi. rewrite Hi, !length_app. lia.
Qed.

(** ** Sorted lists *)

Lemma sorted_append {A : Type} (R : A -> A -> Prop) (l : list A) (x : A) :
  StronglySorted R l -> Forall (fun y => R y x) l -> StronglySorted R (l ++ [x]).
Proof.
  induction 1 as [|y l H IH Hy]; cbn [app]; intros Hx; [by repeat constructor|].
  apply Forall_cons in Hx as [H1 H2]. constructor; [auto|]. apply Forall_app. split; [done|]. by constructor.
Qed.

Lemma sorted_middle {A : Type} (R : A -> A -> Prop) (a b : list A) (k : A) :
  StronglySorted R (a ++ k :: b) -> StronglySorted R (a ++ b) /\ Forall (R k) b.
Proof.
  induction a as [|x a IH]; cbn [app]; intros H; apply StronglySorted_inv in H as [H1 H2]; [done|].
  destruct (IH H1) as [H3 H4]. split; [|done]. constructor; [done|].
  apply Forall_app in H2 as [? [_ ?]%Forall_cons]. by apply Forall_app.
Qed.

Lemma increasing_nodup (l : list Z) : StronglySorted Z.lt l -> NoDup l.
Proof.
  induction 1 as [|x l H IH Hx]; [by apply NoDup_nil|]. apply NoDup_cons. split; [|done].
  intros Hin. rewrite Forall_forall in Hx. specialize (Hx x Hin). lia.
Qed.

Lemma Forall_mapped {A : Type} (P : A -> Prop) (f : A -> A) (l : list A) :
  (forall x, P x -> P (f x)) -> Forall P l -> Forall P (map f l).
Proof. intros H Hl. apply Forall_fmap. eapply Forall_impl; [exact Hl|]. exact H. Qed.

Lemma wrap64_add (a k : Z) : wrap64 (wrap64 a + k) = wrap64 (a + k).
Proof. unfold wrap64. by rewrite Zplus_mod_idemp_l. Qed.

(** ** Bits *)

(** Joining a shifted word with a value that fits under it is an addition. *)
Lemma lor_shiftl_add a b n : 0 <= n -> 0 <= b < 2 ^ n -> Z.lor (Z.shiftl a n) b = a * 2 ^ n + b.
Proof.
  intros Hn Hb.
  assert (Z.land (Z.shiftl a n) b = 0) as Hl.
  { apply Z.bits_inj'. intros i Hi. rewrite Z.land_spec, Z.bits_0.
    destruct (Z.lt_ge_cases i n) as [Hlt|Hge].
    - by rewrite Z.shiftl_spec_low.
    - destruct (Z.eq_dec b 0) as [->|Hb0]; [by rewrite Z.bits_0, andb_false_r|].
      assert (Z.log2 b < i).
      { apply Z.log2_lt_pow2; [lia|]. eapply Z.lt_le_trans; [apply Hb|].
        apply Z.pow_le_mono_r; lia. }
      rewrite (Z.bits_above_log2 b i) by lia. apply andb_false_r. }
  rewrite <- Z.lxor_lor by done. rewrite <- Z.add_nocarry_lxor by done.
  by rewrite Z.shiftl_mul_pow2.
Qed.

Lemma lor_add_shiftl a b n : 0 <= n -> 0 <= a < 2 ^ n -> Z.lor a (Z.shiftl b n) = a + b * 2 ^ n.
Proof. intros. rewrite Z.lor_comm, lor_shiftl_add by done. lia. Qed.

Lemma land_255 x : Z.land x 255 = x mod 256.
Proof. change 255 with (Z.ones 8). by rewrite Z.land_ones. Qed.

(** A boolean property of bytes holds of every byte when it holds of the 256 of them. *)
Lemma byte_cases (P : Z -> bool) :
  forallb P (map Z.of_nat (seq 0 256)) = true -> forall b, is_byte b -> P b = true.
Proof.
  intros H b Hb. rewrite forallb_forall in H. apply H. apply in_map_iff.
  exists (Z.to_nat b). unfold is_byte in Hb. split; [lia|]. apply in_seq. lia.
Qed.

#[export] Hint Resolve is_bytes_take is_bytes_drop is_bytes_slice is_bytes_write_at txt_bytes
  len_nonneg bytes_eqb_refl : sc.
#[export] Hint Rewrite @len_app @length_app @length_take @length_drop : sc.
