(* ===== verification/CoreError.v ===== *)
(** * Core: error codes, [Status] and [Result].

    [Core/Error.h] and [Core/Error.cpp].  [ErrorCode] has the source's enumerators with their
    numbers, a [Status] its code and its message, a [Result] a value or a failed status.  The
    message is human-readable text on which no caller may branch ([Error.h]); it is kept because
    the code builds it.  A [SERVERCORE_ASSERT] that fails ends the process: an operation that
    contains one returns an [option], [None] standing for the abort. *)

From S2P Require Import Prelude.

Inductive ErrorCode : Type :=
| ErrorCode_Ok
| InvalidArgument
| InvalidFormat
| TooLarge
| NotFound
| AlreadyExists
| Closed
| WouldBlock
| PlatformError
| UnimplementedCode
| UnknownType
| Timeout
| Cancelled.

#[export] Instance ErrorCode_eq_dec : EqDecision ErrorCode.
Proof. solve_decision. Defined.

(** The enumerators' numbers. *)
Definition ErrorCode_to_Z (c : ErrorCode) : Z :=
  match c with
  | ErrorCode_Ok => 0
  | InvalidArgument => 1
  | InvalidFormat => 2
  | TooLarge => 3
  | NotFound => 4
  | AlreadyExists => 5
  | Closed => 6
  | WouldBlock => 7
  | PlatformError => 8
  | UnimplementedCode => 9
  | UnknownType => 10
  | Timeout => 11
  | Cancelled => 12
  end.

Record Status : Type := MkStatus { mCode : ErrorCode; mMessage : string }.

Module Status.

Definition Ok : Status := MkStatus ErrorCode_Ok "".

(** [Fail] and [FailWithoutMessage] assert that the code is not [Ok]; every call of the source
    passes a constant that is not. *)
Definition Fail (code : ErrorCode) (message : string) : Status := MkStatus code message.

Definition FailWithoutMessage (code : ErrorCode) : Status := MkStatus code "".

Definition AllocationFailure : Status := FailWithoutMessage PlatformError.

Definition Unimplemented (what : string) : Status :=
  Fail UnimplementedCode ("not implemented: " +:+ what).

Definition Code (s : Status) : ErrorCode := mCode s.

Definition IsOk (s : Status) : bool := bool_decide (mCode s = ErrorCode_Ok).

Definition Message (s : Status) : string := mMessage s.

End Status.

(** [Result<T>]: [std::expected] of a value or a failed status. *)
Inductive Result (T : Type) : Type :=
| FromValue (value : T)
| FromStatus (status : Status).
Arguments FromValue {T} value.
Arguments FromStatus {T} status.

Module Result.

Definition IsOk {T} (r : Result T) : bool :=
  match r with FromValue _ => true | FromStatus _ => false end.

Definition GetStatus {T} (r : Result T) : Status :=
  match r with FromValue _ => Status.Ok | FromStatus s => s end.

(** [Value()] aborts on a failed result. *)
Definition Value {T} (r : Result T) : option T :=
  match r with FromValue v => Some v | FromStatus _ => None end.

(** [TakeStatus()] aborts on a successful one. *)
Definition TakeStatus {T} (r : Result T) : option Status :=
  match r with FromValue _ => None | FromStatus s => Some s end.

(** The error code of a result, for statements. *)
Definition code {T} (r : Result T) : ErrorCode := Status.Code (GetStatus r).

Definition bind {A B} (r : Result A) (k : A -> Result B) : Result B :=
  match r with FromValue v => k v | FromStatus s => FromStatus s end.

End Result.

Declare Scope result_scope.
Delimit Scope result_scope with result.
Notation "'let*' x := e 'in' k" := (Result.bind e (fun x => k))
  (at level 10, x pattern, e at level 100, k at level 200) : result_scope.

Lemma status_ok_code s : Status.IsOk s = true <-> Status.Code s = ErrorCode_Ok.
Proof. unfold Status.IsOk, Status.Code. by rewrite bool_decide_eq_true. Qed.

Lemma result_bind_value {A B} (r : Result A) (k : A -> Result B) v :
  Result.bind r k = FromValue v -> exists a, r = FromValue a /\ k a = FromValue v.
Proof. destruct r; simpl; [eauto|discriminate]. Qed.

Lemma ErrorCode_to_Z_inj : Inj (=) (=) ErrorCode_to_Z.
Proof. intros [] []; simpl; done. Qed.
