(* ===== verification/Utf8.v ===== *)
(** * Core: UTF-8 validation.

    [Core/Utf8.cpp] ([IsValidUtf8]), shared by the JSON parser, the binary reader, the route and the
    form decoders, and the UTF-8 encoder of a code point that the JSON parser uses for its escapes
    ([Protocol/Json.cpp], [AppendUtf8]).  The theorems show that the validator accepts exactly the
    concatenations of encoded Unicode scalar values. *)

From S2P Require Import Prelude.

Module Utf8.

Definition MaximumCodePoint : Z := 0x10FFFF.
Definition FirstSurrogate : Z := 0xD800.
Definition LastSurrogate : Z := 0xDFFF.

(** What the lead byte announces: the number of continuation bytes, the payload bits it carries and
    the smallest code point that needs that many bytes. *)
Definition ReadLead (lead : Z) : option (nat * Z * Z) :=
  if lead <? 0x80 then Some (0%nat, lead, 0)
  else if Z.land lead 0xE0 =? 0xC0 then Some (1%nat, Z.land lead 0x1F, 0x80)
  else if Z.land lead 0xF0 =? 0xE0 then Some (2%nat, Z.land lead 0x0F, 0x800)
  else if Z.land lead 0xF8 =? 0xF0 then Some (3%nat, Z.land lead 0x07, 0x10000)
  else None.

(** The inner loop over the continuation bytes. *)
Fixpoint ReadContinuations (count : nat) (codePoint : Z) (text : list Z) : option (Z * list Z) :=
  match count with
  | O => Some (codePoint, text)
  | S count' =>
      match text with
      | [] => None
      | continuation :: text' =>
          if negb (Z.land continuation 0xC0 =? 0x80) then None
          else ReadContinuations count'
                 (Z.lor (Z.shiftl codePoint 6) (Z.land continuation 0x3F)) text'
      end
  end.

(** One round of the outer loop: the code point at the front and what follows it. *)
Definition ReadCodePoint (text : list Z) : option (Z * list Z) :=
  match text with
  | [] => None
  | lead :: text' =>
      match ReadLead lead with
      | None => None
      | Some (continuationCount, bits, smallest) =>
          if ((0 <? continuationCount) && (length text' <? continuationCount))%nat then None
          else
            match ReadContinuations continuationCount bits text' with
            | None => None
            | Some (codePoint, rest) =>
                if (codePoint <? smallest) ||
                   ((FirstSurrogate <=? codePoint) && (codePoint <=? LastSurrogate)) ||
                   (MaximumCodePoint <? codePoint)
                then None else Some (codePoint, rest)
            end
      end
  end.

(** The outer loop; a round consumes at least one byte, so the length is enough fuel. *)
Fixpoint ValidFrom (fuel : nat) (text : list Z) : bool :=
  match text with
  | [] => true
  | _ =>
      match fuel with
      | O => false
      | S fuel' =>
          match ReadCodePoint text with
          | None => false
          | Some (_, rest) => ValidFrom fuel' rest
          end
      end
  end.

Definition IsValidUtf8 (text : list Z) : bool := ValidFrom (length text) text.

(** [AppendUtf8]: the bytes pushed for one code point. *)
Definition AppendUtf8 (codePoint : Z) : list Z :=
  if codePoint <=? 0x7F then [codePoint]
  else if codePoint <=? 0x7FF then
    [wrap8 (Z.lor 0xC0 (Z.shiftr codePoint 6)); wrap8 (Z.lor 0x80 (Z.land codePoint 0x3F))]
  else if codePoint <=? 0xFFFF then
    [wrap8 (Z.lor 0xE0 (Z.shiftr codePoint 12));
     wrap8 (Z.lor 0x80 (Z.land (Z.shiftr codePoint 6) 0x3F));
     wrap8 (Z.lor 0x80 (Z.land codePoint 0x3F))]
  else
    [wrap8 (Z.lor 0xF0 (Z.shiftr codePoint 18));
     wrap8 (Z.lor 0x80 (Z.land (Z.shiftr codePoint 12) 0x3F));
     wrap8 (Z.lor 0x80 (Z.land (Z.shiftr codePoint 6) 0x3F));
     wrap8 (Z.lor 0x80 (Z.land codePoint 0x3F))].

End Utf8.
Import Utf8.

(** ** The specification: encoded Unicode scalar values *)

(** A Unicode scalar value: a code point that is not a surrogate. *)
Definition is_scalar (c : Z) : Prop := 0 <= c <= MaximumCodePoint /\ ~ (FirstSurrogate <= c <= LastSurrogate).

Definition encode_utf8 (cps : list Z) : list Z := concat (map AppendUtf8 cps).

(** Arithmetic form of the encoder's bit operations. *)
Lemma lor_high c b n :
  0 <= n -> 0 <= b < 2 ^ n -> Z.lor (c * 2 ^ n) b = c * 2 ^ n + b.
Proof. intros Hn Hb. rewrite <- Z.shiftl_mul_pow2 by done. rewrite lor_shiftl_add by done.
  by rewrite Z.shiftl_mul_pow2. Qed.

Lemma utf8_tail_byte x : wrap8 (Z.lor 0x80 (Z.land x 0x3F)) = 128 + x mod 64.
Proof.
  change 0x3F with (Z.ones 6). rewrite Z.land_ones by lia. change (2 ^ 6) with 64.
  pose proof (Z.mod_pos_bound x 64 ltac:(lia)).
  change 0x80 with (2 * 2 ^ 6). rewrite lor_high by (change (2 ^ 6) with 64; lia).
  unfold wrap8. rewrite Z.mod_small; [lia|]. change (2 ^ 6) with 64. change (2 ^ 8) with 256. lia.
Qed.

Lemma utf8_lead_byte k n x :
  0 <= n -> 0 <= k -> 0 <= x < 2 ^ n -> k * 2 ^ n + 2 ^ n <= 256 ->
  wrap8 (Z.lor (k * 2 ^ n) x) = k * 2 ^ n + x.
Proof.
  intros Hn Hk Hx Hb. rewrite lor_high by done. unfold wrap8. apply Z.mod_small.
  change (2 ^ 8) with 256. nia.
Qed.

Lemma append_utf8_arith c :
  0 <= c <= MaximumCodePoint ->
  AppendUtf8 c =
    if c <=? 0x7F then [c]
    else if c <=? 0x7FF then [192 + c / 64; 128 + c mod 64]
    else if c <=? 0xFFFF then [224 + c / 4096; 128 + (c / 64) mod 64; 128 + c mod 64]
    else [240 + c / 262144; 128 + (c / 4096) mod 64; 128 + (c / 64) mod 64; 128 + c mod 64].
Proof.
  unfold AppendUtf8, MaximumCodePoint. intros Hc. rewrite !utf8_tail_byte.
  rewrite !Z.shiftr_div_pow2 by lia.
  change (2 ^ 6) with 64. change (2 ^ 12) with 4096. change (2 ^ 18) with 262144.
  case_ifs; f_equal.
  - change 0xC0 with (6 * 2 ^ 5). apply utf8_lead_byte; dlia.
  - change 0xE0 with (14 * 2 ^ 4). apply utf8_lead_byte; dlia.
  - change 0xF0 with (30 * 2 ^ 3). apply utf8_lead_byte; dlia.
Qed.

Lemma read_lead_arith b :
  is_byte b ->
  ReadLead b =
    if b <? 128 then Some (0%nat, b, 0)
    else if (192 <=? b) && (b <? 224) then Some (1%nat, b - 192, 0x80)
    else if (224 <=? b) && (b <? 240) then Some (2%nat, b - 224, 0x800)
    else if (240 <=? b) && (b <? 248) then Some (3%nat, b - 240, 0x10000)
    else None.
Proof.
  intros Hb. apply (bool_decide_unpack (ReadLead b = _)). apply Is_true_true.
  revert b Hb. apply (byte_cases (fun b => bool_decide (ReadLead b = _))).
  vm_compute. reflexivity.
Qed.

Lemma read_continuation_step count cp c text :
  is_byte c ->
  ReadContinuations (S count) cp (c :: text) =
    if (128 <=? c) && (c <? 192) then ReadContinuations count (cp * 64 + (c - 128)) text else None.
Proof.
  intros Hc. cbn [ReadContinuations].
  assert ((Z.land c 0xC0 =? 0x80) = (128 <=? c) && (c <? 192)) as ->.
  { apply (bool_decide_unpack (_ = _)), Is_true_true. revert c Hc.
    apply (byte_cases (fun c => bool_decide ((Z.land c 0xC0 =? 0x80) = _))). vm_compute. done. }
  destruct (_ && _) eqn:E; [|done]. cbn [negb].
  change 0x3F with (Z.ones 6). rewrite Z.land_ones by lia.
  rewrite lor_shiftl_add by (lia || (apply Z.mod_pos_bound; lia)).
  do 2 f_equal. change (2 ^ 6) with 64. unfold is_byte in Hc. dlia.
Qed.

Lemma append_utf8_bytes c : 0 <= c <= MaximumCodePoint -> is_bytes (AppendUtf8 c).
Proof.
  intros Hc. rewrite append_utf8_arith by done. unfold MaximumCodePoint in Hc.
  case_ifs; repeat constructor; unfold is_byte; dlia.
Qed.

Lemma encode_utf8_bytes cps : Forall is_scalar cps -> is_bytes (encode_utf8 cps).
Proof.
  induction 1 as [|c cps [Hc _] _ IH]; [constructor|].
  apply is_bytes_app. split; [by apply append_utf8_bytes|done].
Qed.

(** Reading an encoded scalar value gives it back. *)
Lemma read_code_point_append c rest :
  is_scalar c -> ReadCodePoint (AppendUtf8 c ++ rest) = Some (c, rest).
Proof.
  intros [Hc Hs]. rewrite append_utf8_arith by done.
  unfold MaximumCodePoint, FirstSurrogate, LastSurrogate in *.
  case_ifs; cbn [app]; unfold ReadCodePoint; rewrite read_lead_arith by (unfold is_byte; dlia).
  - rewrite (proj2 (Z.ltb_lt c 128)) by lia. cbn.
    rewrite (proj2 (Z.ltb_ge c 0)) by lia. cbn.
    unfold FirstSurrogate, LastSurrogate, MaximumCodePoint. case_if; [dlia|done].
  - rewrite (proj2 (Z.ltb_ge _ 128)) by dlia. case_if; [|dlia]. cbn [Nat.ltb Nat.leb length andb].
    rewrite read_continuation_step by (unfold is_byte; dlia).
    case_if; [|dlia]. cbn [ReadContinuations].
    replace ((192 + c / 64 - 192) * 64 + (128 + c mod 64 - 128)) with c by dlia.
    unfold FirstSurrogate, LastSurrogate, MaximumCodePoint. case_if; [dlia|done].
  - rewrite (proj2 (Z.ltb_ge _ 128)) by dlia. do 2 (case_if; try dlia). cbn [Nat.ltb Nat.leb length andb].
    do 2 (rewrite read_continuation_step by (unfold is_byte; dlia); case_if; [|dlia]).
    cbn [ReadContinuations].
    replace (((224 + c / 4096 - 224) * 64 + (128 + (c / 64) mod 64 - 128)) * 64 +
             (128 + c mod 64 - 128)) with c by dlia.
    unfold FirstSurrogate, LastSurrogate, MaximumCodePoint. case_if; [dlia|done].
  - rewrite (proj2 (Z.ltb_ge _ 128)) by dlia. do 3 (case_if; try dlia). cbn [Nat.ltb Nat.leb length andb].
    do 3 (rewrite read_continuation_step by (unfold is_byte; dlia); case_if; [|dlia]).
    cbn [ReadContinuations].
    replace ((((240 + c / 262144 - 240) * 64 + (128 + (c / 4096) mod 64 - 128)) * 64 +
              (128 + (c / 64) mod 64 - 128)) * 64 + (128 + c mod 64 - 128)) with c by dlia.
    unfold FirstSurrogate, LastSurrogate, MaximumCodePoint. case_if; [dlia|done].
Qed.

Ltac read_finish H :=
  cbn [ReadContinuations] in H; repeat ((case_if_in H; [|done]) || (case_if_in H; [done|])); inv H;
  unfold is_scalar, FirstSurrogate, LastSurrogate, MaximumCodePoint in *;
  split; [lia|]; rewrite append_utf8_arith by (unfold MaximumCodePoint; lia);
  repeat (case_if; try lia); cbn [app]; list_dlia.

(** What is read is a scalar value, and its encoding is what was consumed. *)
Lemma read_code_point_inv text c rest :
  is_bytes text -> ReadCodePoint text = Some (c, rest) ->
  is_scalar c /\ text = AppendUtf8 c ++ rest.
Proof.
  intros Hb H. destruct text as [|b text]; [done|]. cbn in H.
  apply Forall_cons in Hb as [Hb Ht]. rewrite read_lead_arith in H by done.
  unfold is_byte in Hb.
  destruct (b <? 128) eqn:E1; [|destruct (_ && _) eqn:E2; [|destruct ((224 <=? b) && _) eqn:E3;
    [|destruct ((240 <=? b) && _) eqn:E4; [|done]]]]; cbn [Nat.ltb Nat.leb andb] in H.
  - read_finish H.
  - destruct text as [|c1 text]; [done|].
    apply Forall_cons in Ht as [Hc1 Ht]. cbn [length Nat.ltb Nat.leb] in H.
    rewrite read_continuation_step in H by done. read_finish H.
  - destruct text as [|c1 [|c2 text]]; [done..|].
    apply Forall_cons in Ht as [Hc1 Ht]. apply Forall_cons in Ht as [Hc2 Ht].
    cbn [length Nat.ltb Nat.leb] in H.
    do 2 (rewrite read_continuation_step in H by done; case_if_in H; [|done]). read_finish H.
  - destruct text as [|c1 [|c2 [|c3 text]]]; [done..|].
    apply Forall_cons in Ht as [Hc1 Ht]. apply Forall_cons in Ht as [Hc2 Ht].
    apply Forall_cons in Ht as [Hc3 Ht]. cbn [length Nat.ltb Nat.leb] in H.
    do 3 (rewrite read_continuation_step in H by done; case_if_in H; [|done]). read_finish H.
Qed.

Lemma read_code_point_shorter text c rest :
  ReadCodePoint text = Some (c, rest) -> (length rest < length text)%nat.
Proof.
  destruct text as [|b text]; [done|]. cbn. intros H.
  destruct (ReadLead b) as [[[n bits] sm]|]; [|done]. case_if_in H; [done|].
  assert (forall n cp t cp' t', ReadContinuations n cp t = Some (cp', t') ->
            (length t' <= length t)%nat) as Hlen.
  { clear. induction n as [|n IH]; intros cp [|b t] cp' t' H; cbn in H; try by inv H.
    case_if_in H; [done|]. apply IH in H. cbn. lia. }
  destruct (ReadContinuations n bits text) as [[cp t]|] eqn:E2; [|done].
  case_if_in H; [done|]. inv H. apply Hlen in E2. lia.
Qed.

(** Enough fuel: more of it changes nothing. *)
Lemma valid_from_fuel n m text :
  (length text <= n)%nat -> (length text <= m)%nat -> ValidFrom n text = ValidFrom m text.
Proof.
  revert m text. induction n as [|n IH]; intros m [|b text] Hn Hm; try by destruct m.
  - cbn in Hn. lia.
  - destruct m as [|m]; [cbn in Hm; lia|]. cbn [ValidFrom].
    destruct (ReadCodePoint (b :: text)) as [[c rest]|] eqn:E; [|done].
    apply read_code_point_shorter in E. cbn in *. apply IH; lia.
Qed.

Lemma is_valid_utf8_step b text :
  IsValidUtf8 (b :: text) =
    match ReadCodePoint (b :: text) with
    | None => false
    | Some (_, rest) => IsValidUtf8 rest
    end.
Proof.
  unfold IsValidUtf8. cbn [length ValidFrom].
  destruct (ReadCodePoint (b :: text)) as [[c rest]|] eqn:E; [|done].
  apply read_code_point_shorter in E. cbn in E. apply valid_from_fuel; lia.
Qed.

Lemma append_utf8_nonempty c : exists b l, AppendUtf8 c = b :: l.
Proof. unfold AppendUtf8. case_ifs; eauto. Qed.

Lemma is_valid_utf8_append c rest :
  is_scalar c -> IsValidUtf8 (AppendUtf8 c ++ rest) = IsValidUtf8 rest.
Proof.
  intros Hc. pose proof (read_code_point_append c rest Hc) as Hr.
  destruct (append_utf8_nonempty c) as (b & l & E). rewrite E in *. cbn [app] in *.
  by rewrite is_valid_utf8_step, Hr.
Qed.

Lemma is_valid_utf8_encode cps : Forall is_scalar cps -> IsValidUtf8 (encode_utf8 cps) = true.
Proof.
  induction 1 as [|c cps Hc _ IH]; [done|].
  unfold encode_utf8; cbn [map concat]. by rewrite is_valid_utf8_append.
Qed.

Lemma is_valid_utf8_decode text :
  is_bytes text -> IsValidUtf8 text = true ->
  exists cps, Forall is_scalar cps /\ text = encode_utf8 cps.
Proof.
  induction text as [text IH] using (induction_ltof1 _ (@length Z)). unfold ltof in IH.
  destruct text as [|b text]; intros Hb H; [by exists []|].
  rewrite is_valid_utf8_step in H.
  destruct (ReadCodePoint (b :: text)) as [[c rest]|] eqn:E; [|done].
  pose proof (read_code_point_shorter _ _ _ E) as Hlt.
  apply read_code_point_inv in E as [Hc E]; [|done]. rewrite E in Hb.
  apply is_bytes_app in Hb as [_ Hrest].
  destruct (IH rest Hlt Hrest H) as (cps & Hs & ->).
  exists (c :: cps). split; [by constructor|]. by rewrite E.
Qed.

Lemma encode_utf8_app a b : encode_utf8 (a ++ b) = encode_utf8 a ++ encode_utf8 b.
Proof. unfold encode_utf8. by rewrite map_app, concat_app. Qed.

Lemma encode_utf8_inj cps1 cps2 :
  Forall is_scalar cps1 -> Forall is_scalar cps2 ->
  encode_utf8 cps1 = encode_utf8 cps2 -> cps1 = cps2.
Proof.
  intros H1. revert cps2. induction H1 as [|c cps Hc _ IH]; intros cps2 H2 E.
  - destruct H2 as [|c2 cps2 Hc2 _]; [done|]. destruct (append_utf8_nonempty c2) as (b & l & F).
    unfold encode_utf8 in E; cbn in E. rewrite F in E. discriminate.
  - destruct H2 as [|c2 cps2 Hc2 H2].
    + destruct (append_utf8_nonempty c) as (b & l & F).
      unfold encode_utf8 in E; cbn in E. rewrite F in E. discriminate.
    + unfold encode_utf8 in E; cbn in E. fold (encode_utf8 cps) (encode_utf8 cps2) in E.
      pose proof (read_code_point_append c (encode_utf8 cps) Hc) as R1.
      rewrite E, (read_code_point_append c2 _ Hc2) in R1. inv R1. f_equal. by apply IH.
Qed.

(** Bytes that are valid UTF-8, for the users of the validator. *)
Definition utf8 (text : list Z) : Prop := is_bytes text /\ IsValidUtf8 text = true.

Lemma utf8_scalar c rest : is_scalar c -> utf8 (AppendUtf8 c ++ rest) <-> utf8 rest.
Proof.
  intros Hc. unfold utf8. rewrite is_valid_utf8_append, is_bytes_app by done.
  pose proof (append_utf8_bytes c (proj1 Hc)). naive_solver.
Qed.

(** Induction on the scalar values of a text. *)
Lemma utf8_induction (P : list Z -> Prop) :
  P [] -> (forall c rest, is_scalar c -> utf8 rest -> P rest -> P (AppendUtf8 c ++ rest)) ->
  forall text, utf8 text -> P text.
Proof.
  intros H0 H1 text [Hb Hv]. destruct (is_valid_utf8_decode text Hb Hv) as (cps & Hs & ->).
  clear Hb Hv. induction Hs as [|c cps Hc Hs IH]; [done|].
  apply (H1 c (encode_utf8 cps)); [done| |done].
  split; [by apply encode_utf8_bytes|by apply is_valid_utf8_encode].
Qed.

Lemma utf8_app a b : utf8 a -> utf8 b -> utf8 (a ++ b).
Proof.
  intros Ha Hb. induction Ha as [|c rest Hc Hr IH] using utf8_induction; [done|].
  rewrite <- app_assoc. by apply utf8_scalar.
Qed.

Lemma utf8_app_inv a b : utf8 a -> utf8 (a ++ b) -> utf8 b.
Proof.
  intros Ha. induction Ha as [|c rest Hc Hr IH] using utf8_induction; [done|].
  rewrite <- app_assoc, utf8_scalar by done. done.
Qed.

Lemma append_utf8_ascii c : c < 128 -> AppendUtf8 c = [c].
Proof. intros H. unfold AppendUtf8. by replace (c <=? 127) with true by lia. Qed.

(** No byte of a longer encoding is ASCII. *)
Lemma append_utf8_high c :
  128 <= c <= MaximumCodePoint -> Forall (fun b => 128 <= b < 256) (AppendUtf8 c).
Proof.
  unfold MaximumCodePoint. intros H. rewrite append_utf8_arith by (unfold MaximumCodePoint; lia).
  case_ifs; [lia|..]; repeat constructor; dlia.
Qed.

Definition ascii_byte (c : Z) : Prop := 0 <= c < 128.

Lemma utf8_ascii_cons c rest : ascii_byte c -> utf8 (c :: rest) <-> utf8 rest.
Proof.
  unfold ascii_byte. intros Hc. rewrite <- (utf8_scalar c rest).
  - by rewrite append_utf8_ascii by lia.
  - unfold is_scalar, MaximumCodePoint, FirstSurrogate, LastSurrogate. lia.
Qed.

Lemma utf8_nil : utf8 [].
Proof. split; [constructor|done]. Qed.

Lemma utf8_ascii l : Forall ascii_byte l -> utf8 l.
Proof.
  induction 1 as [|c l Hc _ IH]; [apply utf8_nil|]. by apply utf8_ascii_cons.
Qed.

(** ** Properties *)

(** C38. The UTF-8 validator accepts exactly the byte strings that are the encodings of sequences of
    Unicode scalar values (no surrogates, nothing above U+10FFFF, no overlong forms), as written by
    the encoder of the JSON parser, and such a sequence is unique. *)
Theorem utf8_valid_iff text :
  is_bytes text ->
  (IsValidUtf8 text = true <-> exists cps, Forall is_scalar cps /\ encode_utf8 cps = text) /\
  forall cps1 cps2, Forall is_scalar cps1 -> Forall is_scalar cps2 ->
    encode_utf8 cps1 = text -> encode_utf8 cps2 = text -> cps1 = cps2.
Proof.
  intros Hb. split.
  - split.
    + intros H. destruct (is_valid_utf8_decode text Hb H) as (cps & Hs & ->). eauto.
    + intros (cps & Hs & <-). by apply is_valid_utf8_encode.
  - intros cps1 cps2 H1 H2 E1 E2. apply encode_utf8_inj; congruence.
Qed.

Lemma utf8_valid_iff_witness :
  IsValidUtf8 [0xED; 0x95; 0x9C; 0x41] = true /\
  exists cps, Forall is_scalar cps /\ encode_utf8 cps = [0xED; 0x95; 0x9C; 0x41].
Proof.
  assert (is_bytes [0xED; 0x95; 0x9C; 0x41]) as Hb by (apply bytesb_iff; reflexivity).
  split; [reflexivity|]. apply (proj1 (utf8_valid_iff _ Hb)). reflexivity.
Defined.
