(* ===== verification/ByteBuffer.v ===== *)
(** * Core: [ByteBuffer].

    [Core/ByteBuffer.cpp]: the contiguous receive buffer.  The bytes held live in
    [mReadPos, mWritePos) of a storage of fixed size; [Write] slides them to the front only when
    the room behind them is too small.  [Fifo] is what the buffer promises (a bounded FIFO of
    bytes) and the theorems show that every operation implements it. *)

From S2P Require Import Prelude CoreError.

Module ByteBuffer.

Record ByteBuffer : Type := MkByteBuffer {
  mStorage : list Z;
  mReadPos : nat;
  mWritePos : nat
}.

(** The constructor asserts a capacity that is not zero and zero-fills the storage. *)
Definition New (capacity : nat) : option ByteBuffer :=
  if (capacity =? 0)%nat then None else Some (MkByteBuffer (replicate capacity 0) 0 0).

(** The part of [Write] that slides the live bytes to the front when the room behind is too small. *)
Definition MakeRoom (b : ByteBuffer) (wanted : nat) : ByteBuffer :=
  if ((length (mStorage b) - mWritePos b <? wanted) && negb (mReadPos b =? 0))%nat then
    let liveCount := (mWritePos b - mReadPos b)%nat in
    let storage :=
      if (liveCount =? 0)%nat then mStorage b
      else write_at 0 (slice (mReadPos b) liveCount (mStorage b)) (mStorage b) in
    MkByteBuffer storage 0 liveCount
  else b.

Definition Write (b : ByteBuffer) (bytes : list Z) : nat * ByteBuffer :=
  if (length bytes =? 0)%nat then (0%nat, b)
  else
    let b1 := MakeRoom b (length bytes) in
    let writableCount := Nat.min (length bytes) (length (mStorage b1) - mWritePos b1) in
    if (writableCount =? 0)%nat then (0%nat, b1)
    else
      (writableCount,
       MkByteBuffer (write_at (mWritePos b1) (take writableCount bytes) (mStorage b1))
         (mReadPos b1) (mWritePos b1 + writableCount)).

Definition Peek (b : ByteBuffer) : list Z :=
  slice (mReadPos b) (mWritePos b - mReadPos b) (mStorage b).

Definition Size (b : ByteBuffer) : nat := mWritePos b - mReadPos b.

Definition Empty (b : ByteBuffer) : bool := (mWritePos b =? mReadPos b)%nat.

Definition Capacity (b : ByteBuffer) : nat := length (mStorage b).

(** [Consume] asserts that it is not asked for more than is held. *)
Definition Consume (b : ByteBuffer) (byteCount : nat) : option ByteBuffer :=
  if (byteCount <=? Size b)%nat then
    let readPos := (mReadPos b + byteCount)%nat in
    if (readPos =? mWritePos b)%nat then Some (MkByteBuffer (mStorage b) 0 0)
    else Some (MkByteBuffer (mStorage b) readPos (mWritePos b))
  else None.

Arguments Write : simpl never.
Arguments Peek : simpl never.
Arguments Size : simpl never.
Arguments Capacity : simpl never.

End ByteBuffer.
Import ByteBuffer.

(** ** The contract: a bounded FIFO of bytes *)
Module Fifo.

Record state : Type := MkState { capacity : nat; held : list Z }.

Definition write (q : state) (bytes : list Z) : nat * state :=
  let n := Nat.min (length bytes) (capacity q - length (held q)) in
  (n, MkState (capacity q) (held q ++ take n bytes)).

Definition consume (q : state) (n : nat) : option state :=
  if (n <=? length (held q))%nat then Some (MkState (capacity q) (drop n (held q))) else None.

End Fifo.

(** The positions are ordered and lie in the storage. *)
Definition bb_inv (b : ByteBuffer) : Prop :=
  (mReadPos b <= mWritePos b)%nat /\ (mWritePos b <= length (mStorage b))%nat.

Definition bb_abs (b : ByteBuffer) : Fifo.state := Fifo.MkState (Capacity b) (Peek b).

Lemma bb_peek_size b : bb_inv b -> length (Peek b) = Size b.
Proof. intros [H1 H2]. unfold Peek, Size. apply length_slice. lia. Qed.

(** Sliding the live bytes to the front keeps what is held. *)
Lemma bb_compact_peek b :
  bb_inv b ->
  slice 0 (mWritePos b - mReadPos b)
    (write_at 0 (slice (mReadPos b) (mWritePos b - mReadPos b) (mStorage b)) (mStorage b))
  = Peek b.
Proof.
  intros Hinv. pose proof (bb_peek_size b Hinv) as Hlen. destruct Hinv as [H1 H2].
  fold (Peek b). unfold Size in Hlen. rewrite <- Hlen at 1.
  apply slice_write_at_same. lia.
Qed.

Lemma bb_write_from b bytes :
  bb_inv b ->
  let n := Nat.min (length bytes) (length (mStorage b) - mWritePos b) in
  let b' := MkByteBuffer (write_at (mWritePos b) (take n bytes) (mStorage b))
              (mReadPos b) (mWritePos b + n) in
  bb_inv b' /\ Peek b' = Peek b ++ take n bytes /\ Capacity b' = Capacity b.
Proof.
  intros [H1 H2] n b'.
  assert (length (take n bytes) = n) as Hn by (rewrite length_take; lia).
  assert (length (mStorage b') = length (mStorage b)) as Hs
    by (apply length_write_at; lia).
  split; [|split].
  - unfold bb_inv. rewrite Hs. unfold b'; cbn. lia.
  - unfold Peek, b'; cbn.
    replace (mWritePos b + n - mReadPos b)%nat
      with ((mWritePos b - mReadPos b) + length (take n bytes))%nat by lia.
    apply slice_extend; lia.
  - exact Hs.
Qed.

Lemma bb_make_room b wanted :
  bb_inv b ->
  let b1 := MakeRoom b wanted in
  bb_inv b1 /\ Peek b1 = Peek b /\ Capacity b1 = Capacity b /\
  (Nat.min wanted (length (mStorage b1) - mWritePos b1) =
   Nat.min wanted (Capacity b - length (Peek b)))%nat.
Proof.
  intros Hinv. pose proof (bb_peek_size b Hinv) as Hlen. cbv zeta. unfold MakeRoom.
  unfold Size, Capacity in *. destruct (_ && _) eqn:Ec.
  - apply andb_prop in Ec as [_ Er]. rewrite negb_true_iff in Er. apply Nat.eqb_neq in Er.
    pose proof (bb_compact_peek b Hinv) as Hcp.
    destruct Hinv as [H1 H2].
    assert (length (write_at 0 (slice (mReadPos b) (mWritePos b - mReadPos b) (mStorage b))
             (mStorage b)) = length (mStorage b)) as Hs.
    { apply length_write_at. rewrite length_slice; lia. }
    unfold bb_inv. cbn [mStorage mReadPos mWritePos]. destruct (_ =? 0)%nat eqn:El.
    + apply Nat.eqb_eq in El. unfold Peek in *. cbn [mStorage mReadPos mWritePos] in *.
      rewrite El in *. repeat split; lia.
    + unfold Peek at 1. cbn [mStorage mReadPos mWritePos]. rewrite Hs, Nat.sub_0_r, Hcp.
      repeat split; lia.
  - destruct Hinv as [H1 H2]. repeat split; [done..|].
    apply andb_false_iff in Ec as [Ec|Ec].
    + apply Nat.ltb_ge in Ec. lia.
    + rewrite negb_false_iff in Ec. apply Nat.eqb_eq in Ec. lia.
Qed.

Lemma bb_write_refines b bytes :
  bb_inv b ->
  bb_inv (Write b bytes).2 /\
  (Write b bytes).1 = (Fifo.write (bb_abs b) bytes).1 /\
  bb_abs (Write b bytes).2 = (Fifo.write (bb_abs b) bytes).2.
Proof.
  intros Hinv. unfold Write. case_if.
  { apply Nat.eqb_eq in E. unfold Fifo.write, bb_abs; cbn. rewrite E. cbn. by rewrite app_nil_r. }
  pose proof (bb_make_room b (length bytes) Hinv) as (Hi1 & Hp1 & Hc1 & Hm).
  cbv zeta in *. set (b1 := MakeRoom b (length bytes)) in *.
  pose proof (bb_write_from b1 bytes Hi1) as (Hi2 & Hp2 & Hc2). cbv zeta in Hi2, Hp2, Hc2.
  unfold Fifo.write, bb_abs; cbn. rewrite <- Hm.
  case_if; cbn.
  - apply Nat.eqb_eq in E0. rewrite E0. cbn. rewrite app_nil_r. by rewrite Hp1, Hc1.
  - split; [done|]. split; [done|]. rewrite Hp2, Hc2, Hp1, Hc1. done.
Qed.

Lemma bb_consume_refines b n :
  bb_inv b ->
  match Consume b n with
  | Some b' => bb_inv b' /\ Fifo.consume (bb_abs b) n = Some (bb_abs b')
  | None => Fifo.consume (bb_abs b) n = None
  end.
Proof.
  intros Hinv. pose proof (bb_peek_size b Hinv) as Hlen.
  unfold Consume, Fifo.consume, bb_abs; cbn. rewrite Hlen.
  destruct (n <=? Size b)%nat eqn:E; [|done].
  apply Nat.leb_le in E. destruct Hinv as [H1 H2]. unfold Size in *.
  destruct (_ =? _)%nat eqn:E2.
  - apply Nat.eqb_eq in E2. split; [split; cbn; lia|].
    f_equal. f_equal. rewrite drop_ge by (rewrite Hlen; lia). done.
  - apply Nat.eqb_neq in E2. split; [split; cbn; lia|].
    f_equal. f_equal. unfold Peek, slice; cbn. rewrite skipn_firstn_comm, drop_drop.
    f_equal. lia.
Qed.

(** ** Runs of the buffer *)

Inductive bb_op : Type :=
| OpWrite (bytes : list Z)
| OpConsume (n : nat).

(** A run collects the bytes accepted by the writes and the bytes dropped by [Consume]; [None] is an
    abort. *)
Fixpoint bb_run (b : ByteBuffer) (ops : list bb_op) : option (list Z * list Z * ByteBuffer) :=
  match ops with
  | [] => Some ([], [], b)
  | OpWrite bytes :: ops' =>
      let (n, b') := Write b bytes in
      match bb_run b' ops' with
      | Some (inn, out, b'') => Some (take n bytes ++ inn, out, b'')
      | None => None
      end
  | OpConsume n :: ops' =>
      match Consume b n with
      | Some b' =>
          match bb_run b' ops' with
          | Some (inn, out, b'') => Some (inn, take n (Peek b) ++ out, b'')
          | None => None
          end
      | None => None
      end
  end.

Lemma bb_run_fifo b ops inn out b' :
  bb_inv b -> bb_run b ops = Some (inn, out, b') ->
  bb_inv b' /\ Capacity b' = Capacity b /\ Peek b ++ inn = out ++ Peek b'.
Proof.
  revert b inn out. induction ops as [|[bytes|n] ops IH]; intros b inn out Hinv H; cbn in H.
  - inv H. by rewrite app_nil_r.
  - pose proof (bb_write_refines b bytes Hinv) as (Hi & Hn & Ha).
    destruct (Write b bytes) as [n b1]; cbn in *.
    destruct (bb_run b1 ops) as [[[inn1 out1] b2]|] eqn:E; [|done]. inv H.
    destruct (IH _ _ _ Hi E) as (Hi2 & Hc & Heq).
    unfold bb_abs, Fifo.write in Ha; cbn in Ha. inv Ha.
    split; [done|]. split; [congruence|]. rewrite <- Heq. rewrite app_assoc. congruence.
  - pose proof (bb_consume_refines b n Hinv) as Hc.
    destruct (Consume b n) as [b1|]; [|done]. destruct Hc as [Hi Hc].
    destruct (bb_run b1 ops) as [[[inn1 out1] b2]|] eqn:E; [|done]. inv H.
    destruct (IH _ _ _ Hi E) as (Hi2 & Hcap & Heq).
    unfold Fifo.consume, bb_abs in Hc; cbn in Hc. case_if_in Hc; [|done]. inv Hc.
    split; [done|]. split; [congruence|].
    rewrite <- app_assoc, <- Heq, app_assoc.
    f_equal. rewrite <- (take_drop n (Peek b)) at 1. congruence.
Qed.

(** ** Properties *)

(** The receive buffer is a bounded FIFO of bytes: from a fresh buffer, after any sequence of
    writes and consumes that does not abort, the bytes accepted are the bytes consumed followed by
    what [Peek] shows, the capacity is unchanged, and each [Write] accepts as many bytes as fit. *)
Theorem byte_buffer_fifo capacity b0 ops inn out b :
  New capacity = Some b0 -> bb_run b0 ops = Some (inn, out, b) ->
  inn = out ++ Peek b /\ Capacity b = capacity /\ (length (Peek b) <= capacity)%nat /\
  forall bytes, (Write b bytes).1 = Nat.min (length bytes) (capacity - length (Peek b)).
Proof.
  unfold New. intros HN H. case_if_in HN; [done|]. inv HN.
  assert (bb_inv (MkByteBuffer (replicate capacity 0) 0 0)) as Hinv by (split; cbn; lia).
  destruct (bb_run_fifo _ _ _ _ _ Hinv H) as (Hi & Hc & Heq).
  assert (Capacity b = capacity) as Hcap.
  { rewrite Hc. unfold Capacity; cbn. apply length_replicate. }
  assert (length (Peek b) <= capacity)%nat.
  { rewrite bb_peek_size by done. destruct Hi. unfold Size. unfold Capacity in Hcap. lia. }
  split_and!; try done. intros bytes.
  destruct (bb_write_refines b bytes Hi) as (_ & -> & _). cbn. by rewrite Hcap.
Qed.

Lemma byte_buffer_fifo_witness :
  exists b, [1; 2; 3; 4; 5] = [1; 2; 3] ++ Peek b /\ Capacity b = 4%nat.
Proof.
  destruct (New 4) as [b0|] eqn:HN; [|discriminate].
  destruct (bb_run b0 [OpWrite [1; 2; 3]; OpConsume 2; OpWrite [4; 5]; OpConsume 1])
    as [[[inn out] b]|] eqn:HR; [|inv HN; vm_compute in HR; discriminate].
  destruct (byte_buffer_fifo 4 b0 _ inn out b HN HR) as (H1 & H2 & _).
  assert (inn = [1; 2; 3; 4; 5] /\ out = [1; 2; 3]) as [-> ->]
    by (inv HN; vm_compute in HR; inv HR; done).
  exists b. split; [exact H1|exact H2].
Defined.
