(* ===== verification/FrameCodec.v ===== *)
(** * Protocol: the length-prefixed framing codec.

    [Protocol/FrameCodec.h]: [Reader] cuts a TCP byte stream into frames
    [uint32 little-endian length][body] inside a caller-provided storage, [EncodeTo] writes one
    frame.  The reference [frames_of] cuts a whole stream at once; the theorems show that [Append]
    delivers exactly those frames however the stream is cut into pieces, that it never runs out
    of storage, and that an oversized header is refused before its body is received. *)

From S2P Require Import Prelude CoreError.

Module FrameCodec.

Definition HeaderSize : nat := 4.
Definition DefaultMaxBodySize : Z := 64 * 1024.

Inductive Error : Type :=
| Error_None
| Error_WouldBlock
| Error_TooLarge
| Error_InvalidFormat
| Error_InvalidArgument
| Error_InsufficientStorage.

#[export] Instance Error_eq_dec : EqDecision Error.
Proof. solve_decision. Defined.

Definition is_none (e : Error) : bool :=
  match e with Error_None => true | _ => false end.

Record AppendResult : Type := MkAppendResult { append_error : Error; consumed : nat }.

Record EncodeResult : Type := MkEncodeResult { encode_error : Error; required : nat; written : nat }.

Record Reader : Type := MkReader {
  mStorage : list Z;
  mMaxBodySize : Z;
  mStart : nat;
  mEnd : nat;
  mTerminalError : Error;
  mInvokingCallback : bool
}.

Definition set_terminal (r : Reader) (e : Error) : Reader :=
  MkReader (mStorage r) (mMaxBodySize r) (mStart r) (mEnd r) e (mInvokingCallback r).

Definition set_invoking (r : Reader) (b : bool) : Reader :=
  MkReader (mStorage r) (mMaxBodySize r) (mStart r) (mEnd r) (mTerminalError r) b.

Definition set_start (r : Reader) (start : nat) : Reader :=
  MkReader (mStorage r) (mMaxBodySize r) start (mEnd r) (mTerminalError r) (mInvokingCallback r).

Definition RequiredStorageSize (maxBodySize : Z) : Z :=
  if SIZE_MAX - Z.of_nat HeaderSize <? maxBodySize then 0 else Z.of_nat HeaderSize + maxBodySize.

Definition New (storage : list Z) (maxBodySize : Z) : Reader :=
  let required := RequiredStorageSize maxBodySize in
  MkReader storage maxBodySize 0 0
    (if (required =? 0) || (len storage <? required) then Error_InsufficientStorage else Error_None)
    false.

(** [bytes[0] | bytes[1] << 8 | bytes[2] << 16 | bytes[3] << 24] on [uint32]. *)
Definition LittleEndianLength (bytes : list Z) : Z :=
  let b i := nth i bytes 0 in
  Z.lor (Z.lor (Z.lor (b 0%nat) (wrap32 (Z.shiftl (b 1%nat) 8)))
                       (wrap32 (Z.shiftl (b 2%nat) 16))) (wrap32 (Z.shiftl (b 3%nat) 24)).

Definition ReadLittleEndianLength (r : Reader) : Z :=
  LittleEndianLength (drop (mStart r) (mStorage r)).

Definition CompactUnreadBytes (r : Reader) : Reader :=
  if (mStart r =? 0)%nat then r
  else
    let unread := (mEnd r - mStart r)%nat in
    let storage :=
      if (unread =? 0)%nat then mStorage r
      else write_at 0 (slice (mStart r) unread (mStorage r)) (mStorage r) in
    MkReader storage (mMaxBodySize r) 0 unread (mTerminalError r) (mInvokingCallback r).

Section Append.

(** The callback's context; a callback returns its new context and whether it re-entered [Append] on
    the same reader, whose only effect while [mInvokingCallback] holds is the terminal error. *)
Context {C : Type} (callback : C -> list Z -> C * bool).

(** One call of the callback, [mInvokingCallback] raised around it. *)
Definition InvokeCallback (r : Reader) (context : C) (body : list Z) : Reader * C :=
  let r1 := set_invoking r true in
  let (context', reentered) := callback context body in
  let r2 := if reentered && mInvokingCallback r1 then set_terminal r1 Error_InvalidFormat else r1 in
  (set_invoking r2 false, context').

Fixpoint PumpCompletedFrames (fuel : nat) (r : Reader) (context : C) : Error * Reader * C :=
  match fuel with
  | O => (Error_None, r, context)
  | S fuel' =>
      if (HeaderSize <=? mEnd r - mStart r)%nat then
        let bodyLength := ReadLittleEndianLength r in
        if mMaxBodySize r <? bodyLength then
          (Error_TooLarge, set_terminal r Error_TooLarge, context)
        else
          let frameSize := (HeaderSize + Z.to_nat bodyLength)%nat in
          if (mEnd r - mStart r <? frameSize)%nat then (Error_None, r, context)
          else
            let body := slice (mStart r + HeaderSize) (Z.to_nat bodyLength) (mStorage r) in
            let (r1, context1) := InvokeCallback r context body in
            if negb (is_none (mTerminalError r1)) then (mTerminalError r1, r1, context1)
            else PumpCompletedFrames fuel' (set_start r1 (mStart r1 + frameSize)%nat) context1
      else (Error_None, r, context)
  end.

(** The frames held are at least four bytes each: the unread count bounds the rounds. *)
Definition Pump (r : Reader) (context : C) : Error * Reader * C :=
  PumpCompletedFrames (mEnd r - mStart r) r context.

(** The [for (;;)] of [Append]; [done] is [consumed]. *)
Fixpoint AppendLoop (fuel : nat) (r : Reader) (bytes : list Z) (done : nat) (context : C)
  : AppendResult * Reader * C :=
  match fuel with
  | O => (MkAppendResult Error_None done, r, context)
  | S fuel' =>
      match Pump r context with
      | (pumped, r1, context1) =>
          if negb (is_none pumped) then (MkAppendResult pumped done, r1, context1)
          else if (length bytes =? 0)%nat then (MkAppendResult Error_None done, r1, context1)
          else
            let r2 := if (mEnd r1 =? length (mStorage r1))%nat then CompactUnreadBytes r1 else r1 in
            if (mEnd r2 =? length (mStorage r2))%nat then
              (MkAppendResult Error_InvalidFormat done, set_terminal r2 Error_InvalidFormat, context1)
            else
              let writable := (length (mStorage r2) - mEnd r2)%nat in
              let count := if (writable <? length bytes)%nat then writable else length bytes in
              let r3 := MkReader (write_at (mEnd r2) (take count bytes) (mStorage r2))
                          (mMaxBodySize r2) (mStart r2) (mEnd r2 + count)
                          (mTerminalError r2) (mInvokingCallback r2) in
              AppendLoop fuel' r3 (drop count bytes) (done + count) context1
      end
  end.

(** [Append] with a callback; every round but the last copies a byte or more. *)
Definition Append (r : Reader) (bytes : list Z) (context : C) : AppendResult * Reader * C :=
  if negb (is_none (mTerminalError r)) then (MkAppendResult (mTerminalError r) 0, r, context)
  else if mInvokingCallback r then
    (MkAppendResult Error_InvalidFormat 0, set_terminal r Error_InvalidFormat, context)
  else AppendLoop (S (length bytes)) r bytes 0 context.

End Append.

(** [Append] with a null callback. *)
Definition AppendNull (r : Reader) : AppendResult :=
  if negb (is_none (mTerminalError r)) then MkAppendResult (mTerminalError r) 0
  else MkAppendResult Error_InvalidArgument 0.

Definition Finish (r : Reader) : Error :=
  if negb (is_none (mTerminalError r)) then mTerminalError r
  else if (mStart r =? mEnd r)%nat then Error_None else Error_InvalidFormat.

Definition HasIncompleteFrame (r : Reader) : bool := negb (mStart r =? mEnd r)%nat.

(** The four length bytes. *)
Definition LengthBytes (length : Z) : list Z :=
  [Z.land length 0xFF; Z.land (Z.shiftr length 8) 0xFF;
   Z.land (Z.shiftr length 16) 0xFF; Z.land (Z.shiftr length 24) 0xFF].

Definition EncodeTo (body output : list Z) (maxBodySize : Z) : EncodeResult * list Z :=
  if maxBodySize <? len body then (MkEncodeResult Error_TooLarge 0 0, output)
  else if SIZE_MAX - Z.of_nat HeaderSize <? len body then
    (MkEncodeResult Error_TooLarge 0 0, output)
  else
    let required := (HeaderSize + length body)%nat in
    if (length output <? required)%nat then
      (MkEncodeResult Error_InsufficientStorage required 0, output)
    else
      let output1 := if (length body =? 0)%nat then output else write_at HeaderSize body output in
      (MkEncodeResult Error_None required required,
       write_at 0 (LengthBytes (wrap32 (len body))) output1).

End FrameCodec.
Import FrameCodec.

(** ** The reference: cutting a whole stream *)

(** The frames at the front of a stream, what is left, and whether what is left starts with a header
    that announces too much. *)
Fixpoint cut_frames (fuel : nat) (max : Z) (s : list Z) : list (list Z) * list Z * bool :=
  match fuel with
  | O => ([], s, false)
  | S fuel' =>
      if (length s <? HeaderSize)%nat then ([], s, false)
      else
        let n := LittleEndianLength s in
        if max <? n then ([], s, true)
        else if (length s <? HeaderSize + Z.to_nat n)%nat then ([], s, false)
        else
          match cut_frames fuel' max (drop (HeaderSize + Z.to_nat n) s) with
          | (fs, rest, big) => (slice HeaderSize (Z.to_nat n) s :: fs, rest, big)
          end
  end.

Definition frames_of (max : Z) (s : list Z) : list (list Z) * list Z * bool :=
  cut_frames (length s) max s.

Lemma length_prefix s t :
  (HeaderSize <= length s)%nat -> LittleEndianLength (s ++ t) = LittleEndianLength s.
Proof.
  unfold HeaderSize, LittleEndianLength. intros H. by rewrite !app_nth1 by lia.
Qed.

Lemma cut_frames_fuel n m max s :
  (length s <= n)%nat -> (length s <= m)%nat -> cut_frames n max s = cut_frames m max s.
Proof.
  revert m s. induction n as [|n IH]; intros m s Hn Hm.
  - destruct s; [|cbn in Hn; lia]. destruct m; done.
  - destruct m as [|m]; [destruct s; [done|cbn in Hm; lia]|].
    cbn [cut_frames]. case_ifs; try done.
    rewrite (IH m); [done|..]; rewrite length_drop; unfold HeaderSize in *;
      apply Nat.ltb_ge in E1; lia.
Qed.

(** The defining equation of the reference. *)
Lemma frames_of_eq max s :
  frames_of max s =
    if (length s <? HeaderSize)%nat then ([], s, false)
    else
      let n := LittleEndianLength s in
      if max <? n then ([], s, true)
      else if (length s <? HeaderSize + Z.to_nat n)%nat then ([], s, false)
      else
        match frames_of max (drop (HeaderSize + Z.to_nat n) s) with
        | (fs, rest, big) => (slice HeaderSize (Z.to_nat n) s :: fs, rest, big)
        end.
Proof.
  unfold frames_of. destruct (length s) as [|n] eqn:El.
  - destruct s; [done|discriminate].
  - cbn [cut_frames]. rewrite <- El. case_ifs; try done.
    rewrite (cut_frames_fuel n (length (drop (HeaderSize + Z.to_nat (LittleEndianLength s)) s)));
      [done|..]; rewrite ?length_drop; unfold HeaderSize in *; lia.
Qed.

Lemma frames_of_app max s t fs rest big :
  frames_of max s = (fs, rest, big) ->
  frames_of max (s ++ t) =
    if big then (fs, rest ++ t, true)
    else match frames_of max (rest ++ t) with
         | (fs', rest', big') => (fs ++ fs', rest', big')
         end.
Proof.
  revert fs rest big. induction s as [s IH] using (induction_ltof1 _ (@length Z)).
  unfold ltof in IH. intros fs rest big H. rewrite frames_of_eq in H. cbv zeta in H.
  destruct (length s <? HeaderSize)%nat eqn:E1.
  { inv H. by destruct (frames_of max (rest ++ t)) as [[??]?]. }
  apply Nat.ltb_ge in E1. pose proof (length_prefix s t E1) as Hn.
  destruct (max <? LittleEndianLength s) eqn:E2.
  { inv H. rewrite frames_of_eq. cbv zeta. rewrite Hn, E2, length_app.
    rewrite (proj2 (Nat.ltb_ge _ _)) by lia. done. }
  destruct (length s <? _)%nat eqn:E3.
  { inv H. by destruct (frames_of max (rest ++ t)) as [[??]?]. }
  apply Nat.ltb_ge in E3.
  destruct (frames_of max (drop _ s)) as [[fs1 rest1] big1] eqn:Hr. inv H.
  rewrite frames_of_eq. cbv zeta. rewrite Hn, E2, length_app.
  rewrite !(proj2 (Nat.ltb_ge _ _)) by lia.
  rewrite drop_app_le by lia. rewrite slice_app_l by lia.
  erewrite IH; [|rewrite length_drop; unfold HeaderSize in *; lia|exact Hr].
  destruct big; [done|]. by destruct (frames_of max (rest ++ t)) as [[??]?].
Qed.

(** ** The reader *)

(** Projections of the updated records. *)
Ltac reader_fields :=
  cbn [mStorage mMaxBodySize mStart mEnd mTerminalError mInvokingCallback
       set_terminal set_invoking set_start].

Definition unread (r : Reader) : list Z := slice (mStart r) (mEnd r - mStart r) (mStorage r).

(** What holds of a reader between two calls: positions in range, storage for one whole frame, no
    terminal error, no callback running. *)
Record reader_ok (r : Reader) : Prop := {
  ro_start : (mStart r <= mEnd r)%nat;
  ro_end : (mEnd r <= length (mStorage r))%nat;
  ro_room : Z.of_nat HeaderSize + mMaxBodySize r <= len (mStorage r);
  ro_max : 0 <= mMaxBodySize r;
  ro_error : mTerminalError r = Error_None;
  ro_idle : mInvokingCallback r = false
}.

Lemma reader_new_ok storage max :
  0 <= max <= UINT32_MAX -> Z.of_nat HeaderSize + max <= len storage ->
  reader_ok (New storage max) /\ unread (New storage max) = [].
Proof.
  intros Hm Hs. split; [|done].
  assert (RequiredStorageSize max = Z.of_nat HeaderSize + max) as Hreq.
  { unfold RequiredStorageSize, SIZE_MAX, UINT64_MAX, UINT32_MAX, HeaderSize in *.
    case_if; lia. }
  unfold New. cbv zeta. rewrite Hreq. unfold HeaderSize in *.
  destruct (_ || _) eqn:E; [lia|]. split; cbn [mStart mEnd mStorage mMaxBodySize]; (lia || done).
Qed.

Lemma length_unread r : reader_ok r -> length (unread r) = (mEnd r - mStart r)%nat.
Proof. intros [H1 H2 _ _ _ _]. unfold unread. apply length_slice. lia. Qed.

Lemma read_length_unread r :
  reader_ok r -> (HeaderSize <= mEnd r - mStart r)%nat ->
  ReadLittleEndianLength r = LittleEndianLength (unread r).
Proof.
  intros Hr H. unfold ReadLittleEndianLength.
  rewrite <- (take_drop (mEnd r - mStart r) (drop (mStart r) (mStorage r))).
  apply length_prefix. fold (slice (mStart r) (mEnd r - mStart r) (mStorage r)).
  fold (unread r). rewrite length_unread by done. done.
Qed.

Lemma compact_ok r :
  reader_ok r ->
  reader_ok (CompactUnreadBytes r) /\ unread (CompactUnreadBytes r) = unread r /\
  mMaxBodySize (CompactUnreadBytes r) = mMaxBodySize r /\
  mStart (CompactUnreadBytes r) = 0%nat.
Proof.
  intros Hr. unfold CompactUnreadBytes.
  destruct (mStart r =? 0)%nat eqn:E; [apply Nat.eqb_eq in E; done|].
  pose proof (length_unread r Hr) as Hlen. destruct Hr as [H1 H2 H3 H4 H5 H6].
  assert (length (write_at 0 (unread r) (mStorage r)) = length (mStorage r)) as Hs
    by (apply length_write_at; lia).
  fold (unread r). destruct (_ - _ =? 0)%nat eqn:E2.
  - split; [split; reader_fields; (lia || done)|]. split; [|done].
    unfold unread in *; reader_fields. apply Nat.eqb_eq in E2. by rewrite E2.
  - split; [split; reader_fields; unfold len in *; rewrite ?Hs; (lia || done)|]. split; [|done].
    unfold unread at 1; reader_fields. rewrite <- Hlen, Nat.sub_0_r.
    apply slice_write_at_same. lia.
Qed.

(** A pumped reader holds less than one largest frame, so compacting always makes room. *)
Lemma pumped_room r :
  reader_ok r -> frames_of (mMaxBodySize r) (unread r) = ([], unread r, false) ->
  (length (unread r) < length (mStorage r))%nat.
Proof.
  intros Hr H. rewrite frames_of_eq in H. cbv zeta in H. destruct Hr as [H1 H2 H3 H4 H5 H6].
  unfold len, HeaderSize in *. case_if_in H; [lia|]. case_if_in H; [done|]. case_if_in H; [lia|].
  destruct (frames_of _ _) as [[??]?]. done.
Qed.

Lemma frames_of_rest max s fs rest :
  frames_of max s = (fs, rest, false) -> frames_of max rest = ([], rest, false).
Proof.
  intros H. pose proof (frames_of_app max s [] fs rest false H) as H2.
  rewrite !app_nil_r in H2. rewrite H in H2.
  destruct (frames_of max rest) as [[fs' rest'] big']. inv H2.
  assert (fs' = []) as ->; [|done].
  destruct fs'; [done|]. match goal with E : fs = fs ++ _ |- _ => apply (f_equal length) in E; rewrite length_app in E; cbn in E; lia end.
Qed.

Section Reading.

(** A callback that does not re-enter its reader. *)
Context {C : Type} (deliver : C -> list Z -> C).
Let callback (c : C) (body : list Z) : C * bool := (deliver c body, false).

Lemma pump_frames fuel r c fs rest big :
  reader_ok r -> (mEnd r - mStart r <= fuel)%nat ->
  frames_of (mMaxBodySize r) (unread r) = (fs, rest, big) ->
  exists r', PumpCompletedFrames callback fuel r c =
      (if big then Error_TooLarge else Error_None, r', fold_left deliver fs c) /\
    unread r' = rest /\ mStorage r' = mStorage r /\ mMaxBodySize r' = mMaxBodySize r /\
    mEnd r' = mEnd r /\
    (if big then mTerminalError r' = Error_TooLarge else reader_ok r').
Proof.
  revert r c fs rest. induction fuel as [|fuel IH]; intros r c fs rest Hr Hf H.
  - assert (unread r = []) as Hu by (apply nil_length_inv; rewrite length_unread by done; lia).
    rewrite Hu in H. inv H. exists r. by rewrite Hu.
  - rewrite frames_of_eq in H. cbv zeta in H. rewrite length_unread in H by done.
    cbn [PumpCompletedFrames].
    destruct (mEnd r - mStart r <? HeaderSize)%nat eqn:E1.
    { inv H. exists r. apply Nat.ltb_lt in E1. rewrite (proj2 (Nat.leb_gt _ _)) by lia. done. }
    apply Nat.ltb_ge in E1. rewrite (proj2 (Nat.leb_le _ _)) by done. cbv zeta.
    rewrite read_length_unread by done.
    set (n := LittleEndianLength (unread r)) in *.
    destruct (mMaxBodySize r <? n) eqn:E2.
    { inv H. eexists. split; [reflexivity|]. by cbn. }
    destruct (mEnd r - mStart r <? HeaderSize + Z.to_nat n)%nat eqn:E3.
    { inv H. by exists r. }
    apply Nat.ltb_ge in E3.
    destruct (frames_of _ (drop _ (unread r))) as [[fs1 rest1] big1] eqn:Hrec. inv H.
    unfold InvokeCallback, callback at 1. cbn [andb]. reader_fields.
    destruct Hr as [H1 H2 H3 H4 H5 H6]. rewrite H5. cbn [negb is_none].
    set (r1 := set_start _ _).
    assert (reader_ok r1) as Hr1 by (unfold r1; split; reader_fields; (lia || done)).
    assert (unread r1 = drop (HeaderSize + Z.to_nat n) (unread r)) as Hu1.
    { unfold unread, r1; reader_fields. rewrite drop_slice. f_equal. lia. }
    rewrite <- Hu1 in Hrec.
    destruct (IH r1 (deliver c (slice (mStart r + HeaderSize) (Z.to_nat n) (mStorage r))) fs1 rest)
      as (r' & HP & Hrest & Hs & Hm & He & Hok); [done| |exact Hrec|].
    { unfold r1, HeaderSize in *; reader_fields. lia. }
    exists r'. rewrite HP. split_and!; try done.
    unfold unread. by rewrite slice_slice by done.
Qed.

Lemma append_loop_frames fuel r bytes d c fs rest big :
  reader_ok r -> (length bytes < fuel)%nat ->
  frames_of (mMaxBodySize r) (unread r ++ bytes) = (fs, rest, big) ->
  exists k r', AppendLoop callback fuel r bytes d c =
      (MkAppendResult (if big then Error_TooLarge else Error_None) (d + k),
       r', fold_left deliver fs c) /\
    (k <= length bytes)%nat /\ rest = unread r' ++ drop k bytes /\
    mMaxBodySize r' = mMaxBodySize r /\ length (mStorage r') = length (mStorage r) /\
    (if big then mTerminalError r' = Error_TooLarge
     else reader_ok r' /\ k = length bytes).
Proof.
  revert r bytes d c fs rest. induction fuel as [|fuel IH]; intros r bytes d c fs rest Hr Hf H;
    [lia|].
  cbn [AppendLoop]. unfold Pump.
  destruct (frames_of (mMaxBodySize r) (unread r)) as [[fs0 rest0] big0] eqn:H0.
  destruct (pump_frames (mEnd r - mStart r) r c fs0 rest0 big0 Hr ltac:(lia) H0)
    as (r1 & HP & Hu1 & Hs1 & Hm1 & He1 & Hok1).
  rewrite HP. rewrite (frames_of_app _ _ bytes _ _ _ H0) in H.
  destruct big0; cbn [negb is_none].
  { inv H. exists 0%nat, r1. rewrite Nat.add_0_r, drop_0. rewrite Hs1. split_and!; (lia || done). }
  destruct (length bytes =? 0)%nat eqn:Eb.
  { apply Nat.eqb_eq in Eb. apply nil_length_inv in Eb. subst bytes.
    rewrite app_nil_r, (frames_of_rest _ _ _ _ H0) in H. inv H. rewrite app_nil_r.
    exists 0%nat, r1. rewrite Nat.add_0_r, app_nil_r, Hs1. split_and!; try done. }
  apply Nat.eqb_neq in Eb.
  pose proof (frames_of_rest _ _ _ _ H0) as Hrest0. rewrite <- Hu1, <- Hm1 in Hrest0.
  pose proof (pumped_room r1 Hok1 Hrest0) as Hroom.
  set (r2 := if (mEnd r1 =? length (mStorage r1))%nat then CompactUnreadBytes r1 else r1).
  assert (reader_ok r2 /\ unread r2 = unread r1 /\ mMaxBodySize r2 = mMaxBodySize r1 /\
          (mEnd r2 < length (mStorage r2))%nat /\
          length (mStorage r2) = length (mStorage r1)) as (Hok2 & Hu2 & Hm2 & Hend2 & Hl2).
  { pose proof (compact_ok r1 Hok1) as (Hc1 & Hc2 & Hc3 & Hc4).
    unfold r2. destruct (_ =? _)%nat eqn:Ee.
    - assert (length (mStorage (CompactUnreadBytes r1)) = length (mStorage r1)) as Hl.
      { unfold CompactUnreadBytes. case_ifs; reader_fields; try done.
        apply length_write_at. fold (unread r1). lia. }
      split_and!; try done.
      pose proof (length_unread _ Hc1) as Hl2. rewrite Hc2, Hc4 in Hl2. lia.
    - apply Nat.eqb_neq in Ee. pose proof (ro_end _ Hok1). split_and!; try done. lia. }
  rewrite (proj2 (Nat.eqb_neq _ _)) by lia. cbv zeta.
  set (cnt := if (_ <? _)%nat then _ else _).
  assert (0 < cnt /\ cnt <= length bytes /\ mEnd r2 + cnt <= length (mStorage r2))%nat
    as (Hc1 & Hc2 & Hc3) by (unfold cnt; case_if; lia).
  set (r3 := MkReader _ _ _ _ _ _).
  assert (length (take cnt bytes) = cnt) as Htk by (rewrite length_take; lia).
  assert (length (mStorage r3) = length (mStorage r2)) as Hl3
    by (unfold r3; reader_fields; apply length_write_at; lia).
  assert (unread r3 = unread r1 ++ take cnt bytes) as Hu3.
  { rewrite <- Hu2. unfold unread, r3; reader_fields. pose proof (ro_start _ Hok2).
    replace (mEnd r2 + cnt - mStart r2)%nat
      with ((mEnd r2 - mStart r2) + length (take cnt bytes))%nat by lia.
    apply slice_extend; lia. }
  assert (reader_ok r3) as Hok3.
  { destruct Hok2 as [P1 P2 P3 P4 P5 P6].
    split; rewrite ?Hl3; unfold r3, len in *; reader_fields; rewrite ?length_write_at by lia;
      (lia || done). }
  destruct (frames_of (mMaxBodySize r) (rest0 ++ bytes)) as [[fs' rest'] big'] eqn:Hnext.
  injection H as <- <- <-.
  destruct (IH r3 (drop cnt bytes) (d + cnt)%nat (fold_left deliver fs0 c) fs' rest')
    as (k & r' & HL & Hk & Hrest & Hm' & Hlen' & Hok'); [done|rewrite length_drop; lia| |].
  { rewrite Hu3, <- app_assoc, take_drop. unfold r3; reader_fields. by rewrite Hm2, Hm1, Hu1. }
  exists (cnt + k)%nat, r'. rewrite HL, fold_left_app, Nat.add_assoc.
  rewrite drop_drop in Hrest. rewrite length_drop in Hk, Hok'. rewrite Hm', Hlen', Hl3, Hl2, Hs1.
  unfold r3; reader_fields. rewrite Hm2, Hm1.
  split_and!; try done; [lia|]. destruct big'; [done|]. destruct Hok'. split; [done|lia].
Qed.

(** [Append] on a reader that is between two calls. *)
Lemma append_frames r bytes c fs rest big :
  reader_ok r ->
  frames_of (mMaxBodySize r) (unread r ++ bytes) = (fs, rest, big) ->
  exists k r', Append callback r bytes c =
      (MkAppendResult (if big then Error_TooLarge else Error_None) k,
       r', fold_left deliver fs c) /\
    (k <= length bytes)%nat /\ rest = unread r' ++ drop k bytes /\
    mMaxBodySize r' = mMaxBodySize r /\ length (mStorage r') = length (mStorage r) /\
    (if big then mTerminalError r' = Error_TooLarge
     else reader_ok r' /\ k = length bytes).
Proof.
  intros Hr H. unfold Append. rewrite (ro_error _ Hr), (ro_idle _ Hr). cbn [negb is_none].
  apply (append_loop_frames (S (length bytes)) r bytes 0 c fs rest big Hr ltac:(lia) H).
Qed.

(** Feeding a stream piece by piece, stopping at the first error. *)
Fixpoint feed (r : Reader) (chunks : list (list Z)) (c : C) : Error * Reader * C :=
  match chunks with
  | [] => (Error_None, r, c)
  | bytes :: chunks' =>
      match Append callback r bytes c with
      | (res, r1, c1) =>
          if is_none (append_error res) then feed r1 chunks' c1 else (append_error res, r1, c1)
      end
  end.

Lemma feed_frames r chunks c fs rest big :
  reader_ok r ->
  frames_of (mMaxBodySize r) (unread r ++ concat chunks) = (fs, rest, big) ->
  frames_of (mMaxBodySize r) (unread r) = ([], unread r, false) ->
  exists r', feed r chunks c =
      (if big then Error_TooLarge else Error_None, r', fold_left deliver fs c) /\
    (if big then mTerminalError r' = Error_TooLarge
     else reader_ok r' /\ unread r' = rest).
Proof.
  revert r c fs rest. induction chunks as [|bytes chunks IH]; intros r c fs rest Hr H Hpump.
  - cbn [concat] in H. rewrite app_nil_r, Hpump in H. inv H. by exists r.
  - cbn [concat] in H. rewrite app_assoc in H.
    destruct (frames_of (mMaxBodySize r) (unread r ++ bytes)) as [[fs0 rest0] big0] eqn:H0.
    destruct (append_frames r bytes c fs0 rest0 big0 Hr H0)
      as (k & r1 & HA & Hk & Hrest & Hm & Hlen & Hok).
    rewrite (frames_of_app _ _ _ _ _ _ H0) in H. cbn [feed]. rewrite HA. cbn [append_error].
    destruct big0; cbn [is_none].
    { inv H. by exists r1. }
    destruct Hok as [Hok1 ->]. rewrite drop_ge, app_nil_r in Hrest by done. subst rest0.
    destruct (frames_of _ (unread r1 ++ concat chunks)) as [[fs' rest'] big'] eqn:Hn. inv H.
    rewrite fold_left_app. apply IH; [done|congruence|].
    rewrite Hm. by eapply frames_of_rest.
Qed.

End Reading.

(** ** Encoding *)

Lemma little_endian_arith b0 b1 b2 b3 t :
  is_byte b0 -> is_byte b1 -> is_byte b2 -> is_byte b3 ->
  LittleEndianLength (b0 :: b1 :: b2 :: b3 :: t) = b0 + b1 * 256 + b2 * 65536 + b3 * 16777216.
Proof.
  unfold is_byte, LittleEndianLength, wrap32. cbn [nth]. intros H0 H1 H2 H3.
  rewrite !Z.shiftl_mul_pow2 by lia.
  rewrite !Z.mod_small by (change (2 ^ 32) with 4294967296; change (2 ^ 8) with 256;
    change (2 ^ 16) with 65536; change (2 ^ 24) with 16777216; lia).
  rewrite <- !Z.shiftl_mul_pow2 by lia.
  rewrite (lor_add_shiftl b0 b1 8) by (change (2 ^ 8) with 256; lia).
  change (2 ^ 8) with 256.
  rewrite (lor_add_shiftl _ b2 16) by (change (2 ^ 16) with 65536; lia).
  change (2 ^ 16) with 65536.
  rewrite (lor_add_shiftl _ b3 24) by (change (2 ^ 24) with 16777216; lia). done.
Qed.

Lemma length_bytes_arith n :
  LengthBytes n = [n mod 256; (n / 256) mod 256; (n / 65536) mod 256; (n / 16777216) mod 256].
Proof.
  unfold LengthBytes. change 0xFF with 255. rewrite !land_255, !Z.shiftr_div_pow2 by lia. done.
Qed.

Lemma length_bytes_is_bytes n : is_bytes (LengthBytes n).
Proof. rewrite length_bytes_arith. repeat constructor; unfold is_byte; dlia. Qed.

Lemma length_round_trip n t :
  0 <= n <= UINT32_MAX -> LittleEndianLength (LengthBytes n ++ t) = n.
Proof.
  unfold UINT32_MAX. intros H. rewrite length_bytes_arith. cbn [app].
  rewrite little_endian_arith by (unfold is_byte; dlia). dlia.
Qed.

Lemma little_endian_bound s :
  is_bytes s -> (HeaderSize <= length s)%nat -> 0 <= LittleEndianLength s <= UINT32_MAX.
Proof.
  intros Hb H. destruct s as [|b0 [|b1 [|b2 [|b3 s]]]]; unfold HeaderSize in H; cbn in H; try lia.
  do 4 (apply Forall_cons in Hb as [? Hb]). rewrite little_endian_arith by done.
  unfold is_byte, UINT32_MAX in *. lia.
Qed.

(** One frame on the wire. *)
Definition frame_bytes (body : list Z) : list Z := LengthBytes (len body) ++ body.

Lemma encode_to_spec body output max :
  0 <= max <= UINT32_MAX ->
  EncodeTo body output max =
    if max <? len body then (MkEncodeResult Error_TooLarge 0 0, output)
    else if (length output <? length (frame_bytes body))%nat then
      (MkEncodeResult Error_InsufficientStorage (length (frame_bytes body)) 0, output)
    else (MkEncodeResult Error_None (length (frame_bytes body)) (length (frame_bytes body)),
          frame_bytes body ++ drop (length (frame_bytes body)) output).
Proof.
  intros Hm. assert (length (frame_bytes body) = HeaderSize + length body)%nat as Hl by done.
  unfold EncodeTo. rewrite Hl. cbv zeta. destruct (max <? len body) eqn:E1; [done|].
  unfold SIZE_MAX, UINT64_MAX, UINT32_MAX, HeaderSize, len in *.
  destruct (_ - _ <? Z.of_nat (length body)) eqn:E2; [lia|].
  destruct (length output <? _)%nat eqn:E3; [done|]. apply Nat.ltb_ge in E3.
  do 2 f_equal. unfold wrap32. rewrite Z.mod_small by lia.
  unfold frame_bytes, len, write_at. cbn [take app]. rewrite !length_bytes_arith.
  destruct (length body =? 0)%nat eqn:E4.
  - apply Nat.eqb_eq in E4. rewrite E4. cbn [length Nat.add app].
    apply nil_length_inv in E4. by subst body.
  - cbn [length Nat.add app]. repeat f_equal.
    rewrite drop_app_length' by (rewrite length_take; lia). done.
Qed.

Lemma frames_of_frame max body t :
  0 <= max <= UINT32_MAX -> len body <= max ->
  frames_of max (frame_bytes body ++ t) =
    match frames_of max t with (fs, rest, big) => (body :: fs, rest, big) end.
Proof.
  intros Hm Hb. rewrite frames_of_eq. cbv zeta. unfold frame_bytes. rewrite <- app_assoc.
  pose proof (len_nonneg body).
  rewrite length_round_trip by lia. rewrite (proj2 (Z.ltb_ge _ _)) by done.
  assert (Z.to_nat (len body) = length body) as -> by (unfold len; lia).
  rewrite !length_app. change (length (LengthBytes (len body))) with HeaderSize.
  rewrite !(proj2 (Nat.ltb_ge _ _)) by lia.
  rewrite <- drop_drop. rewrite drop_app_length' by done. rewrite drop_app_length.
  destruct (frames_of max t) as [[fs rest] big]. do 3 f_equal.
  unfold slice. rewrite drop_app_length' by done. apply take_app_length.
Qed.

Lemma frames_of_encoded max bodies t :
  0 <= max <= UINT32_MAX -> Forall (fun body => len body <= max) bodies ->
  frames_of max (concat (map frame_bytes bodies) ++ t) =
    match frames_of max t with (fs, rest, big) => (bodies ++ fs, rest, big) end.
Proof.
  intros Hm. induction 1 as [|body bodies Hb _ IH]; cbn [map concat app].
  - by destruct (frames_of max t) as [[??]?].
  - rewrite <- app_assoc, frames_of_frame, IH by done.
    by destruct (frames_of max t) as [[??]?].
Qed.

(** ** Properties *)

(** C16. The streaming reader refines the reference cut: whatever pieces a stream arrives in, a fresh
    reader with storage for one largest frame delivers exactly the frames that cutting the whole
    stream gives, keeps exactly the incomplete rest, and fails only with [TooLarge], and only when
    the rest starts with a header above the limit (it never runs out of storage). *)
Theorem codec_refines_cut {C} (deliver : C -> list Z -> C) storage max chunks c fs rest big :
  0 <= max <= UINT32_MAX -> Z.of_nat HeaderSize + max <= len storage ->
  frames_of max (concat chunks) = (fs, rest, big) ->
  exists r', feed deliver (New storage max) chunks c =
      (if big then Error_TooLarge else Error_None, r', fold_left deliver fs c) /\
    (if big then mTerminalError r' = Error_TooLarge
     else reader_ok r' /\ unread r' = rest).
Proof.
  intros Hm Hs H. destruct (reader_new_ok storage max Hm Hs) as [Hr Hu].
  apply (feed_frames deliver (New storage max) chunks c fs rest big Hr);
    rewrite Hu; cbn [app]; done.
Qed.

Lemma codec_refines_cut_witness :
  exists r', feed (fun (l : list (list Z)) b => l ++ [b]) (New (replicate 6 0) 2)
      [[1; 0; 0]; [0; 7; 2]; [0; 0; 0; 8; 9; 9; 0; 0]; [0; 5]] [] =
      (Error_TooLarge, r', [[7]; [8; 9]]) /\ mTerminalError r' = Error_TooLarge.
Proof.
  apply (codec_refines_cut (fun (l : list (list Z)) b => l ++ [b]) (replicate 6 0) 2
    [[1; 0; 0]; [0; 7; 2]; [0; 0; 0; 8; 9; 9; 0; 0]; [0; 5]] [] [[7]; [8; 9]] [9; 0; 0; 0; 5] true).
  - unfold UINT32_MAX. lia.
  - vm_compute. discriminate.
  - vm_compute. reflexivity.
Defined.

(** [EncodeTo] on every branch: a body above the limit is refused without a write, an output that
    is too small is reported with the size it needs and left as it was, and otherwise exactly the
    frame is written at the front of the output, whose header reads back as the body's length. *)
Theorem encode_to_branches body output max :
  0 <= max <= UINT32_MAX ->
  EncodeTo body output max =
    (if max <? len body then (MkEncodeResult Error_TooLarge 0 0, output)
     else if (length output <? length (frame_bytes body))%nat then
       (MkEncodeResult Error_InsufficientStorage (length (frame_bytes body)) 0, output)
     else (MkEncodeResult Error_None (length (frame_bytes body)) (length (frame_bytes body)),
           frame_bytes body ++ drop (length (frame_bytes body)) output)) /\
  (len body <= max -> LittleEndianLength (frame_bytes body) = len body).
Proof.
  intros Hm. split; [by apply encode_to_spec|]. intros Hb. unfold frame_bytes.
  apply length_round_trip. pose proof (len_nonneg body). lia.
Qed.

Lemma encode_to_branches_witness :
  EncodeTo [7; 8] [0; 0; 0; 0; 0; 0; 5] 2 = (MkEncodeResult Error_None 6 6, [2; 0; 0; 0; 7; 8; 5]).
Proof.
  apply (proj1 (encode_to_branches [7; 8] [0; 0; 0; 0; 0; 0; 5] 2 ltac:(unfold UINT32_MAX; lia))).
Defined.
