(* ===== verification/Framing.v ===== *)
(** * Protocol: [FrameReader] and [EncodeFrame].

    [Protocol/Framing.cpp]: the owning wrapper of the framing codec.  It allocates the codec's
    storage on first use, copies every completed body into a queue (after an optional admission
    decision) and hands the bodies out in order.  Allocation outcomes are arguments of the
    operations that allocate: [allocOk] for the storage, a list of outcomes for the copies of the
    bodies (an exhausted list means success). *)

From S2P Require Import Prelude CoreError FrameCodec.
Import FrameCodec.

Module FrameReader.

Definition ToStatus (error : FrameCodec.Error) : Status :=
  match error with
  | Error_None => Status.Ok
  | Error_WouldBlock => Status.Fail WouldBlock "a complete frame is not available"
  | Error_TooLarge => Status.Fail TooLarge "the frame body exceeds the configured maximum"
  | Error_InvalidFormat => Status.Fail InvalidFormat "the frame stream is incomplete"
  | Error_InvalidArgument => Status.Fail InvalidArgument "the frame codec was called incorrectly"
  | Error_InsufficientStorage =>
      Status.Fail PlatformError "the frame codec could not obtain its required storage"
  end.

(** [mStorage] is the storage inside [mReader] (the codec borrows it as a span). *)
Record FrameReader : Type := MkFrameReader {
  mMaxBodySize : Z;
  mReader : option Reader;
  mCompleted : list (list Z);
  mCompletedBodyBytes : Z;
  mCurrent : list Z;
  mCallbackAllocationFailed : bool;
  mCallbackAdmissionRejected : bool;
  mAdmissionTerminal : bool
}.

Definition New (maxBodySize : Z) : FrameReader :=
  MkFrameReader maxBodySize None [] 0 [] false false false.

Definition EnsureReader (f : FrameReader) (allocOk : bool) : Status * FrameReader :=
  match mReader f with
  | Some _ => (Status.Ok, f)
  | None =>
      let bodySize := mMaxBodySize f in
      if SIZE_MAX - Z.of_nat HeaderSize <? bodySize then
        (Status.Fail TooLarge "the frame body limit cannot fit in the platform address space", f)
      else if negb allocOk then (Status.AllocationFailure, f)
      else
        let reader := FrameCodec.New (replicate (HeaderSize + Z.to_nat bodySize) 0) bodySize in
        (ToStatus (FrameCodec.Finish reader),
         MkFrameReader (mMaxBodySize f) (Some reader) (mCompleted f) (mCompletedBodyBytes f)
           (mCurrent f) (mCallbackAllocationFailed f) (mCallbackAdmissionRejected f)
           (mAdmissionTerminal f))
  end.

Section Admission.

(** The admission callback's context and the callback; [None] is a null pointer. *)
Context {A : Type} (admission : option (A -> Z -> bool * A)).

(** What [CopyCompletedFrame] reads and writes: the completed queue and its byte counter, the two
    failure flags, the admission context and the allocation outcomes still to come. *)
Record CallbackState : Type := MkCallbackState {
  cb_completed : list (list Z);
  cb_bytes : Z;
  cb_allocFailed : bool;
  cb_rejected : bool;
  cb_context : A;
  cb_allocs : list bool
}.

Definition Admit (context : A) (bodySize : Z) : bool * A :=
  match admission with
  | None => (true, context)
  | Some accept => accept context bodySize
  end.

Definition CopyCompletedFrame (s : CallbackState) (body : list Z) : CallbackState :=
  if cb_allocFailed s || cb_rejected s then s
  else if SIZE_MAX - cb_bytes s <? len body then
    MkCallbackState (cb_completed s) (cb_bytes s) true (cb_rejected s) (cb_context s) (cb_allocs s)
  else
    let (admitted, context) := Admit (cb_context s) (len body) in
    if negb admitted then
      MkCallbackState (cb_completed s) (cb_bytes s) (cb_allocFailed s) true context (cb_allocs s)
    else if hd true (cb_allocs s) then
      MkCallbackState (cb_completed s ++ [body]) (cb_bytes s + len body) (cb_allocFailed s)
        (cb_rejected s) context (tl (cb_allocs s))
    else
      MkCallbackState (cb_completed s) (cb_bytes s) true (cb_rejected s) context (tl (cb_allocs s)).

Definition Append (f : FrameReader) (bytes : list Z) (admissionContext : A)
    (allocOk : bool) (allocs : list bool) : Status * FrameReader * A :=
  if mAdmissionTerminal f then (ToStatus Error_TooLarge, f, admissionContext)
  else
    let (prepared, f1) := EnsureReader f allocOk in
    if negb (Status.IsOk prepared) then (prepared, f1, admissionContext)
    else
      match mReader f1 with
      | None => (prepared, f1, admissionContext)  (* not reached: EnsureReader succeeded *)
      | Some reader =>
          let s0 := MkCallbackState (mCompleted f1) (mCompletedBodyBytes f1) false false
                      admissionContext allocs in
          match FrameCodec.Append (fun s body => (CopyCompletedFrame s body, false))
                  reader bytes s0 with
          | (appended, reader', s) =>
              let f2 terminal :=
                MkFrameReader (mMaxBodySize f1) (Some reader') (cb_completed s) (cb_bytes s)
                  (mCurrent f1) (cb_allocFailed s) (cb_rejected s) terminal in
              if cb_rejected s then (ToStatus Error_TooLarge, f2 true, cb_context s)
              else if cb_allocFailed s then
                (Status.AllocationFailure, f2 (mAdmissionTerminal f1), cb_context s)
              else (ToStatus (append_error appended), f2 (mAdmissionTerminal f1), cb_context s)
          end
      end.

End Admission.

(** [Append(bytes)]: no admission. *)
Definition AppendPlain (f : FrameReader) (bytes : list Z) (allocOk : bool) (allocs : list bool)
  : Status * FrameReader :=
  let '(status, f', _) := Append (A := unit) None f bytes tt allocOk allocs in (status, f').

Definition with_queue (f : FrameReader) (completed : list (list Z)) (bytes : Z) (current : list Z)
  : FrameReader :=
  MkFrameReader (mMaxBodySize f) (mReader f) completed bytes current
    (mCallbackAllocationFailed f) (mCallbackAdmissionRejected f) (mAdmissionTerminal f).

(** [NextFrame]: the body stays in [mCurrent] until the next call; the counter is asserted not to
    underflow. *)
Definition NextFrame (f : FrameReader) : option (Result (list Z) * FrameReader) :=
  match mCompleted f with
  | [] => Some (FromStatus (Status.FailWithoutMessage WouldBlock),
                with_queue f [] (mCompletedBodyBytes f) [])
  | body :: rest =>
      if len body <=? mCompletedBodyBytes f then
        Some (FromValue body, with_queue f rest (mCompletedBodyBytes f - len body) body)
      else None
  end.

Definition TakeNextFrame (f : FrameReader) : option (Result (list Z) * FrameReader) :=
  match mCompleted f with
  | [] => Some (FromStatus (Status.FailWithoutMessage WouldBlock),
                with_queue f [] (mCompletedBodyBytes f) [])
  | body :: rest =>
      if len body <=? mCompletedBodyBytes f then
        Some (FromValue body, with_queue f rest (mCompletedBodyBytes f - len body) [])
      else None
  end.

Definition CompletedFrameCount (f : FrameReader) : Z := len (mCompleted f).

Definition CompletedBodyBytes (f : FrameReader) : Z := mCompletedBodyBytes f.

Definition DiscardCompletedFrames (f : FrameReader) : FrameReader :=
  with_queue f [] 0 (mCurrent f).

Definition ReleaseStorage (f : FrameReader) : FrameReader :=
  MkFrameReader (mMaxBodySize f) None [] 0 [] false false false.

Definition Finish (f : FrameReader) : Status :=
  if mAdmissionTerminal f then ToStatus Error_TooLarge
  else match mReader f with
       | Some reader => ToStatus (FrameCodec.Finish reader)
       | None => Status.Ok
       end.

Definition HasIncompleteFrame (f : FrameReader) : bool :=
  match mReader f with Some reader => FrameCodec.HasIncompleteFrame reader | None => false end.

(** [EncodeFrame] allocates the vector and encodes into it. *)
Definition EncodeFrame (jsonBody : list Z) (maxBodySize : Z) (allocOk : bool) : Result (list Z) :=
  if maxBodySize <? len jsonBody then FromStatus (ToStatus Error_TooLarge)
  else if SIZE_MAX - Z.of_nat HeaderSize <? len jsonBody then FromStatus (ToStatus Error_TooLarge)
  else if negb allocOk then FromStatus Status.AllocationFailure
  else
    let (encoded, framed) :=
      EncodeTo jsonBody (replicate (HeaderSize + length jsonBody) 0) maxBodySize in
    if negb (is_none (encode_error encoded)) then FromStatus (ToStatus (encode_error encoded))
    else FromValue framed.

End FrameReader.
Import FrameReader.

(** ** The invariant of a [FrameReader] *)

Definition body_bytes (bodies : list (list Z)) : Z := fold_right Z.add 0 (map len bodies).

Arguments body_bytes : simpl never.

(** The counter is the sum of the queued sizes, and the codec is usable or has failed for good. *)
Record frame_reader_ok (f : FrameReader) : Prop := {
  fr_max : 0 <= FrameReader.mMaxBodySize f <= UINT32_MAX;
  fr_bytes : mCompletedBodyBytes f = body_bytes (mCompleted f);
  fr_reader : forall r, mReader f = Some r ->
    FrameCodec.mMaxBodySize r = FrameReader.mMaxBodySize f /\
    (reader_ok r \/ mTerminalError r = Error_TooLarge)
}.

Lemma body_bytes_app a b : body_bytes (a ++ b) = body_bytes a + body_bytes b.
Proof. unfold body_bytes. induction a as [|x a IH]; cbn; [done|]. lia. Qed.

Lemma body_bytes_cons x a : body_bytes (x :: a) = len x + body_bytes a.
Proof. done. Qed.

Lemma body_bytes_nonneg a : 0 <= body_bytes a.
Proof. induction a as [|x a IH]; [done|]. rewrite body_bytes_cons. pose proof (len_nonneg x). lia. Qed.

Lemma codec_append_terminal {C} (cb : C -> list Z -> C * bool) r bytes c :
  mTerminalError r <> Error_None ->
  FrameCodec.Append cb r bytes c = (MkAppendResult (mTerminalError r) 0, r, c).
Proof. intros H. unfold FrameCodec.Append. by destruct (mTerminalError r). Qed.

Section CopyFrames.
Context {A : Type} (admission : option (A -> Z -> bool * A)).

(** Feeding sizes to the admission callback, all of them accepted. *)
Fixpoint admit_all (context : A) (bodies : list (list Z)) : option A :=
  match bodies with
  | [] => Some context
  | body :: bodies' =>
      match Admit admission context (len body) with
      | (true, context') => admit_all context' bodies'
      | (false, _) => None
      end
  end.

(** The bodies that completed are a prefix kept, all admitted, and a tail dropped because of one
    refusal or one failed allocation. *)
Lemma copy_frames fs s :
  cb_allocFailed s = false -> cb_rejected s = false -> cb_bytes s = body_bytes (cb_completed s) ->
  let s' := fold_left (CopyCompletedFrame admission) fs s in
  exists kept dropped, fs = kept ++ dropped /\
    cb_completed s' = cb_completed s ++ kept /\
    cb_bytes s' = body_bytes (cb_completed s') /\
    is_Some (admit_all (cb_context s) kept) /\
    ((dropped = [] /\ cb_allocFailed s' = false /\ cb_rejected s' = false /\
      admit_all (cb_context s) kept = Some (cb_context s')) \/
     (dropped <> [] /\ (cb_allocFailed s' || cb_rejected s') = true)) /\
    (cb_rejected s' = true ->
     exists body dropped' context, dropped = body :: dropped' /\
       admit_all (cb_context s) kept = Some context /\
       (Admit admission context (len body)).1 = false).
Proof.
  assert (forall fs s, cb_allocFailed s || cb_rejected s = true ->
            fold_left (CopyCompletedFrame admission) fs s = s) as Hstop.
  { clear. induction fs as [|b fs IH]; intros s H; [done|]. cbn [fold_left].
    unfold CopyCompletedFrame at 2. rewrite H. by apply IH. }
  revert s. induction fs as [|body fs IH]; intros s Ha Hr Hb; cbv zeta in *; cbn [fold_left].
  - exists [], []. rewrite !app_nil_r. split_and!; (done || by left || congruence).
  - remember (CopyCompletedFrame admission s body) as s1 eqn:Es1.
    unfold CopyCompletedFrame in Es1. rewrite Ha, Hr in Es1. cbn [orb] in Es1.
    destruct (_ <? len body) eqn:E1.
    { rewrite Hstop by (by rewrite Es1). exists [], (body :: fs). subst s1; cbn. rewrite app_nil_r.
      split_and!; (done || by right || congruence). }
    destruct (Admit admission (cb_context s) (len body)) as [[] context] eqn:Ead; cbn [negb] in Es1.
    + destruct (hd true (cb_allocs s)) eqn:Eal.
      * destruct (IH s1) as (kept & dropped & -> & H1 & H2 & H3 & H4 & H5);
          [by subst s1..| |].
        { subst s1; cbn. rewrite body_bytes_app, body_bytes_cons, Hb. change (body_bytes []) with 0. lia. }
        exists (body :: kept), dropped. cbn [app admit_all]. rewrite Ead.
        assert (cb_context s1 = context) as Hc by (by subst s1). rewrite Hc in *.
        split_and!; try done. rewrite H1. subst s1; cbn. by rewrite <- app_assoc.
      * rewrite Hstop by (by rewrite Es1). exists [], (body :: fs). subst s1; cbn.
        rewrite app_nil_r. split_and!; (done || by right || congruence).
    + rewrite Hstop by (rewrite Es1; cbn; by destruct (cb_allocFailed s)). exists [], (body :: fs).
      subst s1; cbn. rewrite app_nil_r.
      split_and!; try done; [right; split; [done|by destruct (cb_allocFailed s)]|].
      intros _. exists body, fs, (cb_context s). by rewrite Ead.
Qed.

(** Without a refusal, a failed allocation or a counter that would overflow, all are kept. *)
Lemma copy_frames_all fs s :
  cb_allocFailed s = false -> cb_rejected s = false -> cb_allocs s = [] ->
  admission = None -> cb_bytes s + body_bytes fs <= SIZE_MAX ->
  fold_left (CopyCompletedFrame admission) fs s =
    MkCallbackState (cb_completed s ++ fs) (cb_bytes s + body_bytes fs) false false (cb_context s) [].
Proof.
  revert s. induction fs as [|body fs IH]; intros s Ha Hr Hal Hadm Hb.
  - cbn. rewrite app_nil_r. change (body_bytes []) with 0. rewrite Z.add_0_r.
    destruct s; cbn in *. by subst.
  - cbn [fold_left]. rewrite body_bytes_cons in Hb. pose proof (body_bytes_nonneg fs).
    unfold CopyCompletedFrame at 2. rewrite Ha, Hr, Hal, Hadm. cbn [orb Admit negb hd tl].
    rewrite (proj2 (Z.ltb_ge _ _)) by lia.
    rewrite <- Hadm, IH by (done || (cbn; lia)). cbn. by rewrite <- app_assoc, body_bytes_cons, Z.add_assoc.
Qed.
End CopyFrames.

Lemma ensure_reader_ok f allocOk :
  frame_reader_ok f ->
  match EnsureReader f allocOk with
  | (st, f1) =>
      frame_reader_ok f1 /\ mCompleted f1 = mCompleted f /\
      FrameReader.mMaxBodySize f1 = FrameReader.mMaxBodySize f /\
      mAdmissionTerminal f1 = mAdmissionTerminal f /\
      (Status.IsOk st = true -> exists r, mReader f1 = Some r /\
         (mReader f = Some r \/ (mReader f = None /\ reader_ok r /\ unread r = []))) /\
      (allocOk = true -> Status.IsOk st = true)
  end.
Proof.
  intros Hf. pose proof Hf as [Hm Hb Hr]. unfold EnsureReader. destruct (mReader f) as [r|] eqn:E.
  { split_and!; eauto. }
  unfold SIZE_MAX, UINT64_MAX, UINT32_MAX, HeaderSize in *.
  destruct (_ <? _) eqn:E1; [lia|]. destruct allocOk; cbn [negb].
  2: { by split_and!. }
  pose proof (reader_new_ok (replicate (4 + Z.to_nat (FrameReader.mMaxBodySize f)) 0)
                (FrameReader.mMaxBodySize f)) as Hnew.
  destruct Hnew as [Hok Hu].
  { unfold UINT32_MAX. lia. }
  { unfold len. rewrite length_replicate. unfold HeaderSize. lia. }
  set (r := FrameCodec.New _ _) in *.
  assert (FrameCodec.Finish r = Error_None) as HF.
  { unfold FrameCodec.Finish. by rewrite (ro_error _ Hok). }
  rewrite HF. split_and!; try done.
  - split; cbn; [unfold UINT32_MAX; lia|done|]. intros r' [= <-]. auto.
  - intros _. exists r. auto.
Qed.

(** The bytes received of a frame that is not complete yet. *)
Definition pending (f : FrameReader) : list Z :=
  match mReader f with Some r => unread r | None => [] end.

(** A reader that has not failed. *)
Definition healthy (f : FrameReader) : Prop :=
  frame_reader_ok f /\ mAdmissionTerminal f = false /\
  (forall r, mReader f = Some r -> reader_ok r).

Lemma healthy_new max : 0 <= max <= UINT32_MAX -> healthy (FrameReader.New max).
Proof. intros H. split; [by split|]. done. Qed.

Section AppendFacts.
Context {A : Type} (admission : option (A -> Z -> bool * A)).

Lemma append_healthy f bytes ctx allocs fs rest big :
  healthy f ->
  frames_of (FrameReader.mMaxBodySize f) (pending f ++ bytes) = (fs, rest, big) ->
  let s := fold_left (CopyCompletedFrame admission) fs
             (MkCallbackState (mCompleted f) (mCompletedBodyBytes f) false false ctx allocs) in
  exists r' f',
    FrameReader.Append admission f bytes ctx true allocs =
      (if cb_rejected s then ToStatus Error_TooLarge
       else if cb_allocFailed s then Status.AllocationFailure
       else ToStatus (if big then Error_TooLarge else Error_None), f', cb_context s) /\
    mReader f' = Some r' /\ mCompleted f' = cb_completed s /\ mCompletedBodyBytes f' = cb_bytes s /\
    FrameReader.mMaxBodySize f' = FrameReader.mMaxBodySize f /\
    FrameCodec.mMaxBodySize r' = FrameReader.mMaxBodySize f /\
    mAdmissionTerminal f' = cb_rejected s /\
    (if big then mTerminalError r' = Error_TooLarge else reader_ok r' /\ unread r' = rest).
Proof.
  intros (Hok & Hat & Hrd) H. cbv zeta.
  pose proof (ensure_reader_ok f true Hok) as He.
  unfold FrameReader.Append. rewrite Hat.
  destruct (EnsureReader f true) as [st f1] eqn:Eens.
  destruct He as (Hok1 & Hc1 & Hm1 & Hat1 & Hr1 & Hst). specialize (Hst eq_refl).
  rewrite Hst. cbn [negb]. destruct (Hr1 Hst) as (r & Er & Hr).
  assert (reader_ok r /\ unread r = pending f) as [Hrok Hu].
  { unfold pending. destruct Hr as [Hr|(Hr & ? & ?)]; rewrite Hr; [|done]. auto. }
  rewrite Er. destruct (fr_reader _ Hok1 _ Er) as [Hmr _].
  rewrite <- Hm1, <- Hmr, <- Hu in H.
  assert (mCompletedBodyBytes f1 = mCompletedBodyBytes f) as Hb1.
  { rewrite (fr_bytes _ Hok1), (fr_bytes _ Hok), Hc1. done. }
  rewrite Hc1, Hb1.
  destruct (append_frames (CopyCompletedFrame admission) r bytes
              (MkCallbackState (mCompleted f) (mCompletedBodyBytes f) false false ctx allocs)
              fs rest big Hrok H)
    as (k & r' & HA & Hk & Hrest & Hmr' & Hl & Hfin).
  rewrite HA. set (s := fold_left _ _ _).
  exists r', (MkFrameReader (FrameReader.mMaxBodySize f1) (Some r') (cb_completed s) (cb_bytes s)
                (mCurrent f1) (cb_allocFailed s) (cb_rejected s) (cb_rejected s)).
  rewrite Hat1, Hat. cbn [append_error]. split.
  { destruct (cb_rejected s), (cb_allocFailed s), big; done. }
  cbn [mReader mCompleted mCompletedBodyBytes FrameReader.mMaxBodySize mAdmissionTerminal].
  split_and!; try congruence.
  destruct big; [done|]. destruct Hfin as [Hr' ->]. split; [done|].
  by rewrite drop_ge, app_nil_r in Hrest.
Qed.

(** [Append] preserves the invariant whatever happens, and only adds to the queue. *)
Lemma append_invariant f bytes ctx allocOk allocs :
  frame_reader_ok f ->
  match FrameReader.Append admission f bytes ctx allocOk allocs with
  | (st, f', _) => frame_reader_ok f' /\ exists kept, mCompleted f' = mCompleted f ++ kept
  end.
Proof.
  intros Hok. unfold FrameReader.Append.
  destruct (mAdmissionTerminal f) eqn:Hat; [split; [done|exists []; by rewrite app_nil_r]|].
  pose proof (ensure_reader_ok f allocOk Hok) as He.
  destruct (EnsureReader f allocOk) as [st f1].
  destruct He as (Hok1 & Hc1 & Hm1 & Hat1 & Hr1 & _).
  destruct (Status.IsOk st) eqn:Est; cbn [negb]; [|split; [done|exists []; by rewrite app_nil_r]].
  destruct (Hr1 eq_refl) as (r & Er & _). rewrite Er.
  destruct (fr_reader _ Hok1 _ Er) as [Hmr Hrok].
  set (s0 := MkCallbackState _ _ _ _ _ _).
  assert (exists fs r' res, FrameCodec.Append (fun s body => (CopyCompletedFrame admission s body, false))
            r bytes s0 = (res, r', fold_left (CopyCompletedFrame admission) fs s0) /\
            FrameCodec.mMaxBodySize r' = FrameReader.mMaxBodySize f1 /\
            (reader_ok r' \/ mTerminalError r' = Error_TooLarge)) as (fs & r' & res & HA & Hm' & Hok').
  { destruct Hrok as [Hrok|Hterm].
    - destruct (frames_of (FrameCodec.mMaxBodySize r) (unread r ++ bytes)) as [[fs rest] big] eqn:H.
      destruct (append_frames (CopyCompletedFrame admission) r bytes s0 fs rest big Hrok H)
        as (k & r' & HA & Hk & Hrest & Hmr' & Hl & Hfin).
      exists fs, r'. eexists. split; [exact HA|]. split; [congruence|]. destruct big; tauto.
    - exists [], r. eexists. rewrite codec_append_terminal by congruence.
      split; [reflexivity|]. auto. }
  rewrite HA.
  destruct (copy_frames admission fs s0) as (kept & dropped & Hfs & H1 & H2 & _); [done..| |].
  { unfold s0; cbn. by rewrite (fr_bytes _ Hok1). }
  set (s := fold_left _ _ _) in *.
  assert (forall t, frame_reader_ok (MkFrameReader (FrameReader.mMaxBodySize f1) (Some r')
            (cb_completed s) (cb_bytes s) (mCurrent f1) (cb_allocFailed s) (cb_rejected s) t)) as Hok2.
  { intros t. split; cbn; [apply Hok1|done|]. intros r0 [= <-]. done. }
  assert (exists kept, cb_completed s = mCompleted f ++ kept) as Hkept.
  { exists kept. rewrite H1. unfold s0; cbn. by rewrite Hc1. }
  case_ifs; split; auto.
Qed.
End AppendFacts.

(** ** Runs: appends and takes in any order *)

Inductive fr_op : Type :=
| OpAppend (bytes : list Z)
| OpTake
| OpNext.

(** The bytes appended by a sequence of operations. *)
Definition appended (ops : list fr_op) : list Z :=
  concat (map (fun op => match op with OpAppend bytes => bytes | _ => [] end) ops).

(** Runs the operations with allocations that succeed, and collects the bodies handed out; [None]
    for a failed [Append] or an abort. *)
Fixpoint fr_run (f : FrameReader) (ops : list fr_op) : option (list (list Z) * FrameReader) :=
  match ops with
  | [] => Some ([], f)
  | OpAppend bytes :: ops' =>
      let (status, f1) := AppendPlain f bytes true [] in
      if Status.IsOk status then fr_run f1 ops' else None
  | op :: ops' =>
      match (match op with OpTake => TakeNextFrame f | _ => NextFrame f end) with
      | None => None
      | Some (FromStatus _, f1) => fr_run f1 ops'
      | Some (FromValue body, f1) =>
          match fr_run f1 ops' with
          | Some (taken, f') => Some (body :: taken, f')
          | None => None
          end
      end
  end.

Lemma next_frame_healthy f op :
  healthy f -> op = OpTake \/ op = OpNext ->
  exists f1, (match op with OpTake => TakeNextFrame f | _ => NextFrame f end) =
      Some (match mCompleted f with
            | [] => FromStatus (Status.FailWithoutMessage WouldBlock)
            | body :: _ => FromValue body
            end, f1) /\
    healthy f1 /\ pending f1 = pending f /\ mCompleted f1 = tl (mCompleted f) /\
    FrameReader.mMaxBodySize f1 = FrameReader.mMaxBodySize f.
Proof.
  intros (Hok & Hat & Hr) Hop. pose proof Hok as [Hm Hb Hrd].
  unfold TakeNextFrame, NextFrame.
  destruct (mCompleted f) as [|body rest] eqn:Ec.
  - destruct Hop as [-> | ->]; eexists; (split; [reflexivity|]);
      (split; [split; [split; cbn; [done|by rewrite Hb|done]|done]|done]).
  - rewrite body_bytes_cons in Hb. pose proof (body_bytes_nonneg rest).
    rewrite (proj2 (Z.leb_le _ _)) by lia.
    destruct Hop as [-> | ->]; eexists; (split; [reflexivity|]);
      (split; [split; [split; cbn; [done|lia|done]|done]|done]).
Qed.

Lemma append_plain_healthy f bytes fs rest :
  healthy f ->
  frames_of (FrameReader.mMaxBodySize f) (pending f ++ bytes) = (fs, rest, false) ->
  body_bytes (mCompleted f) + body_bytes fs <= SIZE_MAX ->
  exists f', AppendPlain f bytes true [] = (Status.Ok, f') /\ healthy f' /\ pending f' = rest /\
    mCompleted f' = mCompleted f ++ fs /\ FrameReader.mMaxBodySize f' = FrameReader.mMaxBodySize f.
Proof.
  intros Hh H Hsz. pose proof Hh as (Hok & Hat & Hrd).
  destruct (append_healthy (A := unit) None f bytes tt [] fs rest false Hh H)
    as (r' & f' & HA & Hr' & Hc & Hb & Hm & Hmr & Hterm & Hrok & Hu).
  cbv zeta in *. rewrite copy_frames_all in * by (done || (cbn; rewrite (fr_bytes _ Hok); lia)).
  cbn in *. exists f'. unfold AppendPlain. rewrite HA. split; [done|].
  split; [|split; [by unfold pending; rewrite Hr'|done]].
  split; [|split; [done|by intros r; rewrite Hr'; intros [= <-]]].
  split; [rewrite Hm; apply Hok|rewrite Hb, Hc, body_bytes_app, (fr_bytes _ Hok); done|].
  intros r. rewrite Hr'. intros [= <-]. split; [congruence|by left].
Qed.

Lemma fr_run_frames f ops fs rest :
  healthy f ->
  frames_of (FrameReader.mMaxBodySize f) (pending f ++ appended ops) = (fs, rest, false) ->
  frames_of (FrameReader.mMaxBodySize f) (pending f) = ([], pending f, false) ->
  body_bytes (mCompleted f) + body_bytes fs <= SIZE_MAX ->
  exists taken f', fr_run f ops = Some (taken, f') /\
    taken ++ mCompleted f' = mCompleted f ++ fs /\ pending f' = rest /\ healthy f'.
Proof.
  revert f fs rest. induction ops as [|op ops IH]; intros f fs rest Hh H Hp Hsz.
  - unfold appended in H; cbn in H. rewrite app_nil_r, Hp in H. inv H.
    exists [], f. by rewrite app_nil_r.
  - assert ((op = OpTake \/ op = OpNext) \/ exists bytes, op = OpAppend bytes)
      as [Hop|[bytes ->]] by (destruct op; eauto).
    + destruct (next_frame_healthy f op Hh Hop) as (f1 & HN & Hh1 & Hp1 & Hc1 & Hm1).
      assert (appended (op :: ops) = appended ops) as Happ by (by destruct Hop as [-> | ->]).
      rewrite Happ, <- Hp1, <- Hm1 in H. rewrite <- Hp1, <- Hm1 in Hp.
      assert (body_bytes (mCompleted f1) + body_bytes fs <= SIZE_MAX) as Hsz1.
      { rewrite Hc1. destruct (mCompleted f) as [|b l]; [done|]. cbn [tl].
        rewrite body_bytes_cons in Hsz. pose proof (len_nonneg b). lia. }
      destruct (IH f1 fs rest Hh1 H Hp Hsz1) as (taken & f' & HR & Heq & Hpe & Hh').
      rewrite Hc1 in Heq.
      destruct Hop as [-> | ->]; cbn [fr_run]; rewrite HN; clear HN;
        (destruct (mCompleted f) as [|body l]; cbn [tl] in *;
           [by exists taken, f' | exists (body :: taken), f'; rewrite HR; cbn; by rewrite Heq]).
    + unfold appended in H; cbn in H. fold (appended ops) in H. rewrite app_assoc in H.
      destruct (frames_of (FrameReader.mMaxBodySize f) (pending f ++ bytes))
        as [[fs0 rest0] big0] eqn:H0.
      rewrite (frames_of_app _ _ _ _ _ _ H0) in H. destruct big0; [done|].
      destruct (frames_of _ (rest0 ++ appended ops)) as [[fs1 rest1] big1] eqn:H1. inv H.
      rewrite body_bytes_app in Hsz. pose proof (body_bytes_nonneg fs1).
      destruct (append_plain_healthy f bytes fs0 rest0 Hh H0) as (f1 & HA & Hh1 & Hp1 & Hc1 & Hm1);
        [lia|].
      cbn [fr_run]. rewrite HA. cbn.
      destruct (IH f1 fs1 rest Hh1) as (taken & f' & HR & Heq & Hpe & Hh').
      * by rewrite Hp1, Hm1.
      * rewrite Hp1, Hm1. exact (frames_of_rest _ _ _ _ H0).
      * rewrite Hc1, body_bytes_app. lia.
      * exists taken, f'. split_and!; try done. by rewrite Heq, Hc1, app_assoc.
Qed.

Lemma encode_frame_value body max :
  0 <= max <= UINT32_MAX -> len body <= max ->
  EncodeFrame body max true = FromValue (frame_bytes body).
Proof.
  intros Hm Hb. unfold EncodeFrame. rewrite (proj2 (Z.ltb_ge _ _)) by done.
  unfold SIZE_MAX, UINT64_MAX, UINT32_MAX, HeaderSize in *.
  rewrite (proj2 (Z.ltb_ge _ _)) by lia. cbn [negb].
  rewrite encode_to_spec by (unfold UINT32_MAX; lia).
  rewrite (proj2 (Z.ltb_ge _ _)) by done. rewrite length_replicate.
  assert (length (frame_bytes body) = 4 + length body)%nat as -> by done.
  rewrite (proj2 (Nat.ltb_ge _ _)) by lia. cbn [encode_error is_none negb].
  rewrite drop_ge by (rewrite length_replicate; lia). by rewrite app_nil_r.
Qed.

(** ** Properties *)

(** C1. Framing round trip: the frames that [EncodeFrame] produces for any bodies within the limit,
    sent back to back and cut into pieces in any way, with the pieces appended and the completed
    bodies taken in any interleaving, are handed out by a fresh [FrameReader] exactly as the
    bodies, in order, with no failed call and no abort; the rest are still queued and nothing is
    left half-read. *)
Theorem framing_round_trip max bodies ops :
  0 <= max <= UINT32_MAX ->
  Forall (fun body => len body <= max) bodies ->
  body_bytes bodies <= SIZE_MAX ->
  Forall2 (fun body frame => EncodeFrame body max true = FromValue frame)
    bodies (map frame_bytes bodies) /\
  (appended ops = concat (map frame_bytes bodies) ->
   exists taken f', fr_run (FrameReader.New max) ops = Some (taken, f') /\
     taken ++ mCompleted f' = bodies /\ FrameReader.HasIncompleteFrame f' = false).
Proof.
  intros Hm Hb Hsz. split.
  { induction Hb; constructor; [by apply encode_frame_value|].
    apply IHHb. rewrite body_bytes_cons in Hsz. pose proof (len_nonneg x). lia. }
  intros Ha. pose proof (frames_of_encoded max bodies [] Hm Hb) as HF.
  rewrite app_nil_r in HF. cbn in HF. rewrite app_nil_r in HF.
  destruct (fr_run_frames (FrameReader.New max) ops bodies [])
    as (taken & f' & HR & Heq & Hp & Hh); [by apply healthy_new|cbn; by rewrite Ha|done|done|].
  exists taken, f'. split_and!; try done.
  unfold FrameReader.HasIncompleteFrame. unfold pending in Hp. destruct Hh as (_ & _ & Hr).
  destruct (mReader f') as [r|]; [|done]. specialize (Hr r eq_refl).
  unfold FrameCodec.HasIncompleteFrame. pose proof (length_unread r Hr) as Hl. rewrite Hp in Hl.
  cbn in Hl. pose proof (ro_start _ Hr). rewrite negb_false_iff. apply Nat.eqb_eq. lia.
Qed.

Lemma framing_round_trip_witness :
  exists taken f',
    fr_run (FrameReader.New 8)
      [OpAppend [2; 0]; OpTake; OpAppend [0; 0; 65; 66; 0; 0; 0]; OpTake; OpAppend [0]; OpNext; OpTake]
      = Some (taken, f') /\
    taken ++ mCompleted f' = [[65; 66]; []] /\ FrameReader.HasIncompleteFrame f' = false.
Proof.
  apply (proj2 (framing_round_trip 8 [[65; 66]; []] _ ltac:(unfold UINT32_MAX; lia)
    ltac:(repeat constructor; done) ltac:(vm_compute; done))).
  vm_compute. reflexivity.
Defined.

(** One operation of a [FrameReader], with the outcome of its allocations. *)
Inductive fr_call {A : Type} : Type :=
| CallAppend (admission : option (A -> Z -> bool * A)) (bytes : list Z) (context : A)
    (allocOk : bool) (allocs : list bool)
| CallNext
| CallTake
| CallDiscard
| CallRelease.
Arguments fr_call : clear implicits.

(** The reader after a call; [None] is an abort. *)
Definition fr_step {A} (f : FrameReader) (call : fr_call A) : option FrameReader :=
  match call with
  | CallAppend admission bytes context allocOk allocs =>
      let '(_, f', _) := FrameReader.Append admission f bytes context allocOk allocs in Some f'
  | CallNext => option_map snd (NextFrame f)
  | CallTake => option_map snd (TakeNextFrame f)
  | CallDiscard => Some (DiscardCompletedFrames f)
  | CallRelease => Some (ReleaseStorage f)
  end.

Fixpoint fr_steps {A} (f : FrameReader) (calls : list (fr_call A)) : option FrameReader :=
  match calls with
  | [] => Some f
  | call :: calls' => match fr_step f call with Some f' => fr_steps f' calls' | None => None end
  end.

Lemma fr_step_ok {A} f (call : fr_call A) :
  frame_reader_ok f -> exists f', fr_step f call = Some f' /\ frame_reader_ok f'.
Proof.
  intros Hok. pose proof Hok as [Hm Hb Hr]. destruct call; cbn [fr_step].
  - pose proof (append_invariant admission f bytes context allocOk allocs Hok) as HA.
    destruct (FrameReader.Append _ _ _ _ _ _) as [[st f'] ctx]. destruct HA as [HA _]. eauto.
  - unfold NextFrame. destruct (mCompleted f) as [|body rest] eqn:Ec.
    + eexists. split; [reflexivity|]. split; cbn; [done|by rewrite Hb|done].
    + rewrite body_bytes_cons in Hb. pose proof (body_bytes_nonneg rest).
      rewrite (proj2 (Z.leb_le _ _)) by lia. eexists. split; [reflexivity|].
      split; cbn; [done|lia|done].
  - unfold TakeNextFrame. destruct (mCompleted f) as [|body rest] eqn:Ec.
    + eexists. split; [reflexivity|]. split; cbn; [done|by rewrite Hb|done].
    + rewrite body_bytes_cons in Hb. pose proof (body_bytes_nonneg rest).
      rewrite (proj2 (Z.leb_le _ _)) by lia. eexists. split; [reflexivity|].
      split; cbn; [done|lia|done].
  - eexists. split; [reflexivity|]. by split.
  - eexists. split; [reflexivity|]. split; cbn; done.
Qed.

(** The completed-byte counter of a [FrameReader] is the sum of the sizes of the queued bodies
    after every sequence of calls (appends with any admission policy and any failing allocations,
    takes, discards, storage releases), so that no call ever trips its underflow assertion. *)
Theorem frame_reader_accounting {A} max (calls : list (fr_call A)) :
  0 <= max <= UINT32_MAX ->
  exists f, fr_steps (FrameReader.New max) calls = Some f /\
    CompletedBodyBytes f = body_bytes (mCompleted f).
Proof.
  intros Hm. assert (frame_reader_ok (FrameReader.New max)) as Hok by (apply healthy_new, Hm).
  revert Hok. generalize (FrameReader.New max) as f. induction calls as [|call calls IH]; intros f Hok.
  - exists f. split; [done|]. apply Hok.
  - destruct (fr_step_ok f call Hok) as (f1 & Hs & Hok1). cbn [fr_steps]. rewrite Hs. by apply IH.
Qed.

Lemma frame_reader_accounting_witness :
  exists f, fr_steps (A := unit) (FrameReader.New 3)
      [CallAppend None [1; 0; 0; 0; 9; 2; 0; 0; 0; 7; 7] tt true [true; false]; CallTake; CallTake;
       CallAppend None [0; 0; 0; 0] tt true []; CallDiscard] = Some f /\
    CompletedBodyBytes f = body_bytes (mCompleted f).
Proof. apply frame_reader_accounting. unfold UINT32_MAX. lia. Defined.

(** Admission is decided before a body is copied: what one [Append] adds to the queue is a prefix
    of the frames it completed, every one of them admitted; a refusal answers [TooLarge] for the
    first body refused, and makes the reader refuse every later [Append] and [Finish] without
    touching the queue. *)
Theorem append_admission {A} (admission : option (A -> Z -> bool * A)) f bytes ctx allocs fs rest big :
  healthy f ->
  frames_of (FrameReader.mMaxBodySize f) (pending f ++ bytes) = (fs, rest, big) ->
  exists kept dropped st f' ctx', fs = kept ++ dropped /\
    FrameReader.Append admission f bytes ctx true allocs = (st, f', ctx') /\
    mCompleted f' = mCompleted f ++ kept /\
    is_Some (admit_all admission ctx kept) /\
    (dropped <> [] -> Status.IsOk st = false) /\
    (mAdmissionTerminal f' = true ->
     Status.Code st = TooLarge /\
     (exists body dropped' c, dropped = body :: dropped' /\ admit_all admission ctx kept = Some c /\
        (Admit admission c (len body)).1 = false) /\
     Status.Code (FrameReader.Finish f') = TooLarge /\
     forall bytes2 ctx2 allocOk allocs2,
       FrameReader.Append admission f' bytes2 ctx2 allocOk allocs2 = (ToStatus Error_TooLarge, f', ctx2)).
Proof.
  intros Hh H. pose proof Hh as (Hok & _ & _).
  destruct (append_healthy admission f bytes ctx allocs fs rest big Hh H)
    as (r' & f' & HA & Hr' & Hc & Hb & Hm & Hmr & Hterm & _).
  cbv zeta in *. set (s0 := MkCallbackState _ _ _ _ _ _) in *.
  destruct (copy_frames admission fs s0) as (kept & dropped & -> & H1 & H2 & H3 & H4 & H5);
    [done..|by unfold s0; cbn; rewrite (fr_bytes _ Hok)|].
  set (s := fold_left _ _ _) in *.
  exists kept, dropped. do 2 eexists. exists (cb_context s).
  split; [done|]. split; [exact HA|]. split; [by rewrite Hc, H1|]. split; [done|]. split.
  - intros Hd. destruct H4 as [[? _]|[_ Hf]]; [done|].
    destruct (cb_rejected s), (cb_allocFailed s); done.
  - intros Ht. rewrite Hterm in Ht. rewrite Ht. split; [done|]. split; [by apply H5|].
    unfold FrameReader.Finish, FrameReader.Append. rewrite Hterm, Ht. done.
Qed.

(** A byte budget as an admission policy: at most four bytes of bodies. *)
Definition budget4 (used n : Z) : bool * Z :=
  if used + n <=? 4 then (true, used + n) else (false, used).

Lemma append_admission_witness :
  exists kept dropped st f' ctx', [[7; 7]; [8; 8; 8]; [9]] = kept ++ dropped /\
    FrameReader.Append (Some budget4) (FrameReader.New 3)
      [2; 0; 0; 0; 7; 7; 3; 0; 0; 0; 8; 8; 8; 1; 0; 0; 0; 9] 0 true [] = (st, f', ctx') /\
    mCompleted f' = [] ++ kept.
Proof.
  destruct (append_admission (Some budget4) (FrameReader.New 3)
    [2; 0; 0; 0; 7; 7; 3; 0; 0; 0; 8; 8; 8; 1; 0; 0; 0; 9] 0 [] [[7; 7]; [8; 8; 8]; [9]] [] false)
    as (kept & dropped & st & f' & ctx' & H1 & H2 & H3 & _).
  - apply healthy_new. unfold UINT32_MAX. lia.
  - vm_compute. reflexivity.
  - exists kept, dropped, st, f', ctx'. split; [exact H1|]. split; [exact H2|exact H3].
Defined.
