(* ===== verification/BinaryIO.v ===== *)
(** * Protocol: the bounded binary reader and writer, and protocol negotiation.

    [Protocol/BinaryIO.h] and [Protocol/BinaryIO.cpp].  A reader is its input span, its byte order
    and its position; every read returns its result and the reader it leaves.  A writer is its
    bytes, its limit and its order; every write takes the outcome of the one allocation it can
    make ([mBytes.resize]) and returns its status and the writer it leaves.  [float] and [double]
    values are their IEEE bit patterns, which is all [std::bit_cast] exposes of them. *)

From S2P Require Import Prelude CoreError Utf8.

Module BinaryIO.

(** A value cast to the enum that is none of its enumerators is [ByteOrder_Other]. *)
Inductive ByteOrder : Type :=
| BigEndian
| LittleEndian
| ByteOrder_Other.

#[export] Instance ByteOrder_eq_dec : EqDecision ByteOrder.
Proof. solve_decision. Defined.

Definition MaximumBinaryBuffer : Z := 64 * 1024 * 1024.

Definition Fail (code : ErrorCode) : Status := Status.FailWithoutMessage code.

Definition Error {T : Type} (code : ErrorCode) : Result T := FromStatus (Fail code).

Definition Width (width : Z) : bool :=
  (width =? 1) || (width =? 2) || (width =? 4) || (width =? 8).

Definition Order (order : ByteOrder) : bool :=
  match order with BigEndian | LittleEndian => true | ByteOrder_Other => false end.

(** The bit offset of the byte at index [i] of a [width]-byte integer. *)
Definition ByteShift (order : ByteOrder) (width i : nat) : Z :=
  8 * Z.of_nat (match order with BigEndian => width - i - 1 | _ => i end)%nat.

(** The [width] bytes [Store] writes at [dest]. *)
Definition Store (value : Z) (width : nat) (order : ByteOrder) : list Z :=
  map (fun i => Z.land (Z.shiftr value (ByteShift order width i)) 255) (seq 0 width).

(** The loop of [ReadUnsigned]: the integer whose bytes are [bytes]. *)
Definition Gather (bytes : list Z) (width : nat) (order : ByteOrder) : Z :=
  fold_left (fun value i =>
    Z.lor value (wrap64 (Z.shiftl (nth i bytes 0) (ByteShift order width i)))) (seq 0 width) 0.

(** ** The reader *)

Record BinaryReader : Type := MkReader {
  mInput : list Z;
  mOrder : ByteOrder;
  mPosition : nat
}.

Definition Position (r : BinaryReader) : Z := Z.of_nat (mPosition r).
Definition Remaining (r : BinaryReader) : Z := len (mInput r) - Position r.

(** [mPosition += n]. *)
Definition advance (r : BinaryReader) (n : nat) : BinaryReader :=
  MkReader (mInput r) (mOrder r) (mPosition r + n).

Definition CreateReader (input : list Z) (order : ByteOrder) (maximumBytes : Z)
    : Result BinaryReader :=
  if negb (Order order) || (maximumBytes =? 0) || (MaximumBinaryBuffer <? maximumBytes) then
    Error InvalidArgument
  else if maximumBytes <? len input then Error TooLarge
  else FromValue (MkReader input order 0).

Definition ReadUnsigned (width : Z) (r : BinaryReader) : Result Z * BinaryReader :=
  if negb (Width width) then (Error InvalidArgument, r)
  else if Remaining r <? width then (Error InvalidFormat, r)
  else
    let n := Z.to_nat width in
    (FromValue (Gather (slice (mPosition r) n (mInput r)) n (mOrder r)), advance r n).

Definition ReadSigned (width : Z) (r : BinaryReader) : Result Z * BinaryReader :=
  match ReadUnsigned width r with
  | (FromStatus s, r') => (FromStatus s, r')
  | (FromValue bits, r') =>
      let bits' :=
        if (width <? 8) && negb (Z.land bits (Z.shiftl 1 (width * 8 - 1)) =? 0)
        then Z.lor bits (Z.lxor (2 ^ 64 - 1) (Z.shiftl 1 (width * 8) - 1))
        else bits in
      (FromValue (to_signed64 bits'), r')
  end.

Definition ReadBool (r : BinaryReader) : Result bool * BinaryReader :=
  let byte := nth (mPosition r) (mInput r) 0 in
  if (Remaining r =? 0) || (1 <? byte) then (Error InvalidFormat, r)
  else (FromValue (byte =? 1), advance r 1).

Definition ReadFloat32 (r : BinaryReader) : Result Z * BinaryReader :=
  match ReadUnsigned 4 r with
  | (FromStatus s, r') => (FromStatus s, r')
  | (FromValue bits, r') => (FromValue (wrap32 bits), r')
  end.

Definition ReadFloat64 (r : BinaryReader) : Result Z * BinaryReader :=
  match ReadUnsigned 8 r with
  | (FromStatus s, r') => (FromStatus s, r')
  | (FromValue bits, r') => (FromValue bits, r')
  end.

Definition ReadBytes (length : Z) (r : BinaryReader) : Result (list Z) * BinaryReader :=
  if Remaining r <? length then (Error InvalidFormat, r)
  else
    (FromValue (slice (mPosition r) (Z.to_nat length) (mInput r)), advance r (Z.to_nat length)).

Definition ReadLengthPrefixed (maximumLength : Z) (r : BinaryReader)
    : Result (list Z) * BinaryReader :=
  let saved := r in
  match ReadUnsigned 4 saved with
  | (FromStatus s, _) => (Error (Status.Code s), r)
  | (FromValue length, saved) =>
      if maximumLength <? length then (Error TooLarge, r)
      else
        match ReadBytes length saved with
        | (FromValue bytes, saved) => (FromValue bytes, saved)
        | (bytes, _) => (bytes, r)
        end
  end.

Definition ReadUtf8 (maximumLength : Z) (r : BinaryReader) : Result (list Z) * BinaryReader :=
  let saved := r in
  match ReadLengthPrefixed maximumLength saved with
  | (FromStatus s, _) => (Error (Status.Code s), r)
  | (FromValue view, saved) =>
      if negb (Utf8.IsValidUtf8 view) then (Error InvalidFormat, r)
      else (FromValue view, saved)
  end.

Definition Skip (length : Z) (r : BinaryReader) : Status * BinaryReader :=
  if Remaining r <? length then (Fail InvalidFormat, r)
  else (Status.Ok, advance r (Z.to_nat length)).

(** ** The writer *)

Record BinaryWriter : Type := MkWriter {
  mBytes : list Z;
  mLimit : Z;
  mWriterOrder : ByteOrder
}.

Definition CreateWriter (maximumBytes : Z) (order : ByteOrder) : Result BinaryWriter :=
  if negb (Order order) || (maximumBytes =? 0) || (MaximumBinaryBuffer <? maximumBytes) then
    Error InvalidArgument
  else FromValue (MkWriter [] maximumBytes order).

(** The span a write takes: memory of the caller, or a view into the writer's own [mBytes], which
    the growth of the vector moves. *)
Inductive ByteView : Type :=
| External (bytes : list Z)
| SelfView (offset length : nat).

Definition view_size (v : ByteView) : nat :=
  match v with External bytes => length bytes | SelfView _ n => n end.

(** The bytes the view shows before the write. *)
Definition view_bytes (w : BinaryWriter) (v : ByteView) : list Z :=
  match v with External bytes => bytes | SelfView offset n => slice offset n (mBytes w) end.

(** [aliases]: the view starts inside [mBytes]; its offset there. *)
Definition Aliases (w : BinaryWriter) (v : ByteView) : option nat :=
  match v with
  | External _ => None
  | SelfView offset n =>
      if (0 <? n)%nat && (offset <? length (mBytes w))%nat then Some offset else None
  end.

Definition Append (alloc : bool) (value : ByteView) (prefix : bool) (w : BinaryWriter)
    : Status * BinaryWriter :=
  let size := view_size value in
  let header := if prefix then 4%nat else 0%nat in
  let room := mLimit w - len (mBytes w) in
  if (room <? Z.of_nat header) || (room - Z.of_nat header <? Z.of_nat size) then (Fail TooLarge, w)
  else
    let aliases := Aliases w value in
    if match aliases with
       | Some offset => (length (mBytes w) - offset <? size)%nat
       | None => false
       end then (Fail InvalidArgument, w)
    else if negb alloc then (Status.AllocationFailure, w)
    else
      let old := length (mBytes w) in
      let resized := mBytes w ++ repeat 0 (header + size) in
      let prefixed :=
        if prefix then write_at old (Store (Z.of_nat size) 4 (mWriterOrder w)) resized
        else resized in
      let source :=
        match aliases with
        | Some offset => slice offset size prefixed
        | None => view_bytes w value
        end in
      let moved :=
        if (size =? 0)%nat then prefixed else write_at (old + header) source prefixed in
      (Status.Ok, MkWriter moved (mLimit w) (mWriterOrder w)).

Definition WriteUnsigned (alloc : bool) (value width : Z) (w : BinaryWriter)
    : Status * BinaryWriter :=
  if negb (Width width) || ((width <? 8) && (Z.shiftl 1 (width * 8) <=? value)) then
    (Fail InvalidArgument, w)
  else Append alloc (External (Store value (Z.to_nat width) (mWriterOrder w))) false w.

Definition WriteSigned (alloc : bool) (value width : Z) (w : BinaryWriter)
    : Status * BinaryWriter :=
  if negb (Width width) then (Fail InvalidArgument, w)
  else
    let upper := Z.shiftl 1 (width * 8 - 1) in
    if (width <? 8) && ((value <? - upper) || (upper <=? value)) then (Fail InvalidArgument, w)
    else
      Append alloc (External (Store (wrap64 value) (Z.to_nat width) (mWriterOrder w))) false w.

Definition WriteBool (alloc value : bool) (w : BinaryWriter) : Status * BinaryWriter :=
  WriteUnsigned alloc (if value then 1 else 0) 1 w.

Definition WriteFloat32 (alloc : bool) (bits : Z) (w : BinaryWriter) : Status * BinaryWriter :=
  WriteUnsigned alloc bits 4 w.

Definition WriteFloat64 (alloc : bool) (bits : Z) (w : BinaryWriter) : Status * BinaryWriter :=
  WriteUnsigned alloc bits 8 w.

Definition WriteBytes (alloc : bool) (value : ByteView) (w : BinaryWriter)
    : Status * BinaryWriter :=
  Append alloc value false w.

Definition WriteLengthPrefixed (alloc : bool) (value : ByteView) (maximumLength : Z)
    (w : BinaryWriter) : Status * BinaryWriter :=
  let size := Z.of_nat (view_size value) in
  if (maximumLength <? size) || (UINT32_MAX <? size) then (Fail TooLarge, w)
  else Append alloc value true w.

Definition WriteUtf8 (alloc : bool) (value : ByteView) (maximumLength : Z) (w : BinaryWriter)
    : Status * BinaryWriter :=
  if maximumLength <? Z.of_nat (view_size value) then (Fail TooLarge, w)
  else if negb (Utf8.IsValidUtf8 (view_bytes w value)) then (Fail InvalidArgument, w)
  else WriteLengthPrefixed alloc value maximumLength w.

Definition Clear (w : BinaryWriter) : BinaryWriter := MkWriter [] (mLimit w) (mWriterOrder w).

(** ** Negotiation *)

Record ProtocolOffer : Type := MkOffer { version : Z; features : Z }.

(** The lambda [valid]: 1..64 offers of distinct nonzero versions. *)
Fixpoint ValidFrom (seen offers : list ProtocolOffer) : bool :=
  match offers with
  | [] => true
  | o :: offers' =>
      negb (version o =? 0) &&
      negb (existsb (fun p => version p =? version o) seen) &&
      ValidFrom (seen ++ [o]) offers'
  end.

Definition ValidOffers (offers : list ProtocolOffer) : bool :=
  negb ((len offers =? 0) || (64 <? len offers)) && ValidFrom [] offers.

(** The inner loop: the first offer of the peer [local] agrees with. *)
Fixpoint MatchPeer (required : Z) (local : ProtocolOffer) (peer : list ProtocolOffer)
    : option ProtocolOffer :=
  match peer with
  | [] => None
  | remote :: peer' =>
      let common := Z.land (features local) (features remote) in
      if (version local =? version remote) && (Z.land common required =? required)
      then Some (MkOffer (version local) common)
      else MatchPeer required local peer'
  end.

Fixpoint MatchServer (required : Z) (server peer : list ProtocolOffer) : option ProtocolOffer :=
  match server with
  | [] => None
  | local :: server' =>
      match MatchPeer required local peer with
      | Some offer => Some offer
      | None => MatchServer required server' peer
      end
  end.

Definition NegotiateProtocol (server peer : list ProtocolOffer) (requiredFeatures : Z)
    : Result ProtocolOffer :=
  if negb (ValidOffers server) || negb (ValidOffers peer) then Error InvalidArgument
  else
    match MatchServer requiredFeatures server peer with
    | Some offer => FromValue offer
    | None => Error UnimplementedCode
    end.

End BinaryIO.

Import BinaryIO.

(** ** The operations as data *)

Inductive ReadOp : Type :=
| OpUnsigned (width : Z)
| OpSigned (width : Z)
| OpBool
| OpFloat32
| OpFloat64
| OpBytes (length : Z)
| OpLengthPrefixed (maximumLength : Z)
| OpUtf8 (maximumLength : Z)
| OpSkip (length : Z).

(** What a read returns. *)
Inductive Datum : Type :=
| DInt (value : Z)
| DBool (value : bool)
| DBytes (bytes : list Z)
| DUnit.

Definition datum {A} (wrap : A -> Datum) (p : Result A * BinaryReader)
    : Result Datum * BinaryReader :=
  match p with
  | (FromValue v, r) => (FromValue (wrap v), r)
  | (FromStatus s, r) => (FromStatus s, r)
  end.

Definition run_read (op : ReadOp) (r : BinaryReader) : Result Datum * BinaryReader :=
  match op with
  | OpUnsigned width => datum DInt (ReadUnsigned width r)
  | OpSigned width => datum DInt (ReadSigned width r)
  | OpBool => datum DBool (ReadBool r)
  | OpFloat32 => datum DInt (ReadFloat32 r)
  | OpFloat64 => datum DInt (ReadFloat64 r)
  | OpBytes n => datum DBytes (ReadBytes n r)
  | OpLengthPrefixed m => datum DBytes (ReadLengthPrefixed m r)
  | OpUtf8 m => datum DBytes (ReadUtf8 m r)
  | OpSkip n =>
      let (s, r') := Skip n r in
      (if Status.IsOk s then FromValue DUnit else FromStatus s, r')
  end.

(** The bytes a successful read passes over. *)
Definition consumed (op : ReadOp) (v : Datum) : Z :=
  match op, v with
  | OpUnsigned width, _ | OpSigned width, _ => width
  | OpBool, _ => 1
  | OpFloat32, _ => 4
  | OpFloat64, _ => 8
  | OpBytes n, _ | OpSkip n, _ => n
  | (OpLengthPrefixed _ | OpUtf8 _), DBytes bytes => 4 + len bytes
  | _, _ => 0
  end.

(** Arguments of type [std::size_t]. *)
Definition read_arg_ok (op : ReadOp) : Prop :=
  match op with
  | OpUnsigned n | OpSigned n | OpBytes n | OpLengthPrefixed n | OpUtf8 n | OpSkip n => 0 <= n
  | _ => True
  end.

Inductive WriteOp : Type :=
| WUnsigned (value width : Z)
| WSigned (value width : Z)
| WBool (value : bool)
| WFloat32 (bits : Z)
| WFloat64 (bits : Z)
| WBytes (value : ByteView)
| WLengthPrefixed (value : ByteView) (maximumLength : Z)
| WUtf8 (value : ByteView) (maximumLength : Z).

Definition run_write (alloc : bool) (op : WriteOp) (w : BinaryWriter) : Status * BinaryWriter :=
  match op with
  | WUnsigned v n => WriteUnsigned alloc v n w
  | WSigned v n => WriteSigned alloc v n w
  | WBool b => WriteBool alloc b w
  | WFloat32 v => WriteFloat32 alloc v w
  | WFloat64 v => WriteFloat64 alloc v w
  | WBytes v => WriteBytes alloc v w
  | WLengthPrefixed v m => WriteLengthPrefixed alloc v m w
  | WUtf8 v m => WriteUtf8 alloc v m w
  end.

(** The encoding a successful write appends. *)
Definition encoding (w : BinaryWriter) (op : WriteOp) : list Z :=
  let o := mWriterOrder w in
  match op with
  | WUnsigned v n => Store v (Z.to_nat n) o
  | WSigned v n => Store (wrap64 v) (Z.to_nat n) o
  | WBool b => Store (if b then 1 else 0) 1 o
  | WFloat32 v => Store v 4 o
  | WFloat64 v => Store v 8 o
  | WBytes v => view_bytes w v
  | WLengthPrefixed v _ | WUtf8 v _ => Store (Z.of_nat (view_size v)) 4 o ++ view_bytes w v
  end.

(** Arguments of their machine types, and a view that names memory that exists. *)
Definition view_ok (w : BinaryWriter) (v : ByteView) : Prop :=
  match v with
  | External _ => True
  | SelfView offset n => (offset + n <= length (mBytes w))%nat
  end.

Definition write_arg_ok (w : BinaryWriter) (op : WriteOp) : Prop :=
  match op with
  | WUnsigned v _ => 0 <= v <= UINT64_MAX
  | WSigned v _ => - 2 ^ 63 <= v < 2 ^ 63
  | WBool _ => True
  | WFloat32 v => 0 <= v <= UINT32_MAX
  | WFloat64 v => 0 <= v <= UINT64_MAX
  | WBytes v | WLengthPrefixed v _ | WUtf8 v _ => view_ok w v
  end.

(** The read that takes back what a write wrote, and the value it must return. *)
Definition read_back (op : WriteOp) : ReadOp :=
  match op with
  | WUnsigned _ n => OpUnsigned n
  | WSigned _ n => OpSigned n
  | WBool _ => OpBool
  | WFloat32 _ => OpFloat32
  | WFloat64 _ => OpFloat64
  | WBytes v => OpBytes (Z.of_nat (view_size v))
  | WLengthPrefixed _ m => OpLengthPrefixed m
  | WUtf8 _ m => OpUtf8 m
  end.

Definition written (w : BinaryWriter) (op : WriteOp) : Datum :=
  match op with
  | WUnsigned v _ | WSigned v _ | WFloat32 v | WFloat64 v => DInt v
  | WBool b => DBool b
  | WBytes v | WLengthPrefixed v _ | WUtf8 v _ => DBytes (view_bytes w v)
  end.

(** Writing a sequence, every write expected to succeed; the values written are recorded. *)
Fixpoint write_all (ops : list WriteOp) (w : BinaryWriter) : option (list Datum * BinaryWriter) :=
  match ops with
  | [] => Some ([], w)
  | op :: ops' =>
      let (s, w') := run_write true op w in
      if Status.IsOk s then
        match write_all ops' w' with
        | Some (vs, w'') => Some (written w op :: vs, w'')
        | None => None
        end
      else None
  end.

Fixpoint read_all (ops : list ReadOp) (r : BinaryReader) : option (list Datum * BinaryReader) :=
  match ops with
  | [] => Some ([], r)
  | op :: ops' =>
      match run_read op r with
      | (FromValue v, r') =>
          match read_all ops' r' with
          | Some (vs, r'') => Some (v :: vs, r'')
          | None => None
          end
      | (FromStatus _, _) => None
      end
  end.

(** The arguments of every write are of their types when the write is reached. *)
Fixpoint write_args_ok (ops : list WriteOp) (w : BinaryWriter) : Prop :=
  match ops with
  | [] => True
  | op :: ops' => write_arg_ok w op /\ write_args_ok ops' (run_write true op w).2
  end.

(** ** Integers in bytes *)

Lemma testbit_fold_lor (f : nat -> Z) l a j :
  Z.testbit (fold_left (fun acc i => Z.lor acc (f i)) l a) j =
  Z.testbit a j || existsb (fun i => Z.testbit (f i) j) l.
Proof.
  revert a; induction l as [|i l IH]; intros a; simpl; [by rewrite orb_false_r|].
  by rewrite IH, Z.lor_spec, orb_assoc.
Qed.

Lemma length_Store v n o : length (Store v n o) = n.
Proof. unfold Store. by rewrite length_map, length_seq. Qed.

Lemma nth_Store v n o i :
  (i < n)%nat -> nth i (Store v n o) 0 = Z.land (Z.shiftr v (ByteShift o n i)) 255.
Proof.
  intros Hi. unfold Store.
  rewrite (nth_indep _ 0 (Z.land (Z.shiftr v (ByteShift o n 0)) 255))
    by (rewrite length_map, length_seq; done).
  rewrite (map_nth (fun i => Z.land (Z.shiftr v (ByteShift o n i)) 255)).
  by rewrite seq_nth.
Qed.

Lemma Store_bytes v n o : is_bytes (Store v n o).
Proof.
  unfold Store, is_bytes. apply Forall_map, Forall_forall. intros i _. simpl.
  rewrite land_255. unfold is_byte. apply Z.mod_pos_bound. lia.
Qed.

(** Bit [j] of the stored and regathered byte at a shift [s]. *)
Lemma testbit_stored v s j :
  0 <= s -> s + 8 <= 64 -> 0 <= j ->
  Z.testbit (wrap64 (Z.shiftl (Z.land (Z.shiftr v s) 255) s)) j =
  (s <=? j) && (j <? s + 8) && Z.testbit v j.
Proof.
  intros Hs Hs8 Hj. unfold wrap64. rewrite <- Z.land_ones by lia.
  rewrite Z.land_spec, Z.testbit_ones by lia.
  destruct (Z.leb_spec s j) as [Hsj|Hsj].
  - rewrite Z.shiftl_spec_high by lia. rewrite Z.land_spec, Z.shiftr_spec by lia.
    change 255 with (Z.ones 8). rewrite Z.testbit_ones by lia.
    replace (j - s + s) with j by lia.
    destruct (Z.testbit v j); [|by rewrite !andb_false_r]. lia.
  - by rewrite Z.shiftl_spec_low by lia.
Qed.

Lemma existsb_seq_shift o n j (b : bool) :
  0 <= j ->
  existsb (fun i => (ByteShift o n i <=? j) && (j <? ByteShift o n i + 8) && b) (seq 0 n) =
  (j <? 8 * Z.of_nat n) && b.
Proof.
  intros Hj. apply eq_bool_prop_intro. split; intros H; apply Is_true_true in H;
    apply Is_true_true.
  - apply existsb_exists in H as (i & Hi & H). apply in_seq in Hi.
    unfold ByteShift in H. destruct o, b; rewrite ?andb_false_r in H; try done; lia.
  - apply andb_prop in H as [H ->]. apply existsb_exists.
    exists (match o with BigEndian => n - Z.to_nat (j / 8) - 1 | _ => Z.to_nat (j / 8) end)%nat.
    rewrite in_seq. unfold ByteShift.
    assert (0 <= j / 8 < Z.of_nat n) by dlia.
    split; destruct o; try lia; rewrite andb_true_r; dlia.
Qed.

Lemma existsb_ext_seq (f g : nat -> bool) n :
  (forall i, (i < n)%nat -> f i = g i) -> existsb f (seq 0 n) = existsb g (seq 0 n).
Proof.
  intros H. assert (forall i, In i (seq 0 n) -> f i = g i) as Hl.
  { intros i Hi. apply in_seq in Hi. apply H. lia. }
  clear H. induction (seq 0 n) as [|i l IH]; [done|]. simpl.
  rewrite (Hl i) by (by left). f_equal. apply IH. intros k Hk. apply Hl. by right.
Qed.

(** An integer stored in [n <= 8] bytes and gathered again is itself, modulo its width. *)
Lemma gather_store v n o rest :
  (n <= 8)%nat -> Gather (Store v n o ++ rest) n o = v mod 2 ^ (8 * Z.of_nat n).
Proof.
  intros Hn. apply Z.bits_inj'. intros j Hj. unfold Gather.
  rewrite testbit_fold_lor, Z.bits_0. cbn [orb].
  rewrite <- Z.land_ones, Z.land_spec, Z.testbit_ones by lia.
  transitivity (existsb (fun i => (ByteShift o n i <=? j) && (j <? ByteShift o n i + 8)
    && Z.testbit v j) (seq 0 n)).
  - apply existsb_ext_seq. intros i Hi.
    rewrite app_nth1 by (rewrite length_Store; lia). rewrite nth_Store by lia.
    apply testbit_stored; [unfold ByteShift; destruct o; lia..|done].
  - rewrite existsb_seq_shift by done. destruct (Z.testbit v j); lia.
Qed.

Lemma width_cases w : Width w = true -> w = 1 \/ w = 2 \/ w = 4 \/ w = 8.
Proof. unfold Width. lia. Qed.

(** The sign bit of a [k+1]-bit pattern. *)
Lemma sign_bit b k : 0 <= k -> 0 <= b < 2 ^ (k + 1) -> (Z.land b (Z.shiftl 1 k) =? 0) = (b <? 2 ^ k).
Proof.
  intros Hk Hb. rewrite Z.shiftl_mul_pow2, Z.mul_1_l by lia.
  assert (Z.testbit b k = negb (b <? 2 ^ k)) as Ht.
  { apply eq_true_iff_eq. rewrite Z.testbit_true by done.
    rewrite Z.pow_add_r in Hb by lia. change (2 ^ 1) with 2 in Hb.
    assert (0 < 2 ^ k) by lia.
    destruct (Z.ltb_spec b (2 ^ k)) as [H1|H1]; simpl.
    - rewrite Z.div_small by lia. done.
    - replace (b / 2 ^ k) with 1; [done|]. apply Z.div_unique with (b - 2 ^ k); lia. }
  destruct (b <? 2 ^ k); simpl in Ht.
  - apply Z.eqb_eq, Z.bits_inj'. intros i Hi.
    rewrite Z.land_spec, Z.pow2_bits_eqb, Z.bits_0 by lia.
    destruct (Z.eqb_spec k i) as [<-|]; [by rewrite Ht|apply andb_false_r].
  - apply Z.eqb_neq. intros H0. assert (Z.testbit (Z.land b (2 ^ k)) k = false) as Hf
      by (by rewrite H0, Z.bits_0).
    rewrite Z.land_spec, Ht, Z.pow2_bits_true in Hf by lia. done.
Qed.

(** The sign extension [bits |= ~((1 << k) - 1)]. *)
Lemma sign_extend b k :
  0 <= k < 64 -> 0 <= b < 2 ^ k ->
  Z.lor b (Z.lxor (2 ^ 64 - 1) (Z.shiftl 1 k - 1)) = b + (2 ^ 64 - 2 ^ k).
Proof.
  intros Hk Hb.
  assert (Z.lxor (2 ^ 64 - 1) (Z.shiftl 1 k - 1) = Z.shiftl (2 ^ (64 - k) - 1) k) as ->.
  { rewrite Z.shiftl_mul_pow2, Z.mul_1_l by lia.
    rewrite !Z.sub_1_r, <- !Z.ones_equiv. apply Z.bits_inj'. intros j Hj.
    rewrite Z.lxor_spec, !Z.testbit_ones_nonneg by lia.
    destruct (Z.lt_ge_cases j k) as [H|H].
    - rewrite Z.shiftl_spec_low by lia. lia.
    - rewrite Z.shiftl_spec_high, Z.testbit_ones by lia. lia. }
  rewrite lor_add_shiftl by lia.
  rewrite Z.mul_sub_distr_r, <- Z.pow_add_r by lia.
  replace (64 - k + k) with 64 by lia. lia.
Qed.

(** Two's complement: the bits of a signed value of [8 * n] bits, sign-extended. *)
Lemma signed_bits v width :
  Width width = true ->
  - 2 ^ (width * 8 - 1) <= v < 2 ^ (width * 8 - 1) ->
  let bits := wrap64 v mod 2 ^ (8 * width) in
  to_signed64 (if (width <? 8) && negb (Z.land bits (Z.shiftl 1 (width * 8 - 1)) =? 0)
    then Z.lor bits (Z.lxor (2 ^ 64 - 1) (Z.shiftl 1 (width * 8) - 1)) else bits) = v.
Proof.
  intros Hw Hv bits.
  assert (bits = v mod 2 ^ (8 * width)) as Hbits.
  { unfold bits, wrap64. apply Z.mod_mod_divide.
    exists (2 ^ (64 - 8 * width)). rewrite <- Z.pow_add_r by (apply width_cases in Hw; lia).
    f_equal. lia. }
  assert (0 <= bits < 2 ^ (8 * width)) as Hrange
    by (rewrite Hbits; apply Z.mod_pos_bound, Z.pow_pos_nonneg; apply width_cases in Hw; lia).
  rewrite sign_bit by (replace (width * 8 - 1 + 1) with (8 * width) by lia;
    apply width_cases in Hw; lia).
  apply width_cases in Hw as [-> | [-> | [-> | ->]]]; cbn [Z.ltb Z.compare Pos.compare
    Pos.compare_cont andb]; try rewrite sign_extend by (cbn in Hrange |- *; lia).
  all: revert Hbits Hv Hrange; generalize bits; clear bits; intros bits;
    unfold to_signed64; cbn -[Z.modulo Z.ltb]; intros; case_ifs; dlia.
Qed.

(** ** The writer *)

Definition writer_ok (w : BinaryWriter) : Prop := len (mBytes w) <= mLimit w.

Lemma write_at_end (l src : list Z) n :
  length src = n -> write_at (length l) src (l ++ repeat 0 n) = l ++ src.
Proof.
  intros Hn. unfold write_at. rewrite take_app_length, drop_ge; [by rewrite app_nil_r|].
  rewrite length_app, repeat_length. lia.
Qed.

Lemma length_view_bytes w v : view_ok w v -> length (view_bytes w v) = view_size v.
Proof. destruct v; simpl; [done|]. intros. by apply length_slice. Qed.

(** What [Append] does to a writer within its limit: nothing, or it appends the prefix and the
    bytes the view showed before the call, aliasing or not. *)
Lemma append_spec (alloc : bool) (v : ByteView) (prefix : bool) (w : BinaryWriter) :
  writer_ok w -> view_ok w v ->
  let enc := (if prefix then Store (Z.of_nat (view_size v)) 4 (mWriterOrder w) else [])
    ++ view_bytes w v in
  let fits := len (mBytes w) + len enc <=? mLimit w in
  Append alloc v prefix w =
    if negb fits then (Fail TooLarge, w)
    else if negb alloc then (Status.AllocationFailure, w)
    else (Status.Ok, MkWriter (mBytes w ++ enc) (mLimit w) (mWriterOrder w)).
Proof.
  intros Hw Hv enc fits. unfold Append, writer_ok in *.
  assert (len enc = (if prefix then 4 else 0) + Z.of_nat (view_size v)) as Hlen.
  { unfold enc. rewrite len_app. unfold len at 2. rewrite length_view_bytes by done.
    f_equal. destruct prefix; [|done]. unfold len. by rewrite length_Store. }
  set (header := if prefix then 4%nat else 0%nat).
  assert (((mLimit w - len (mBytes w) <? Z.of_nat header)
    || (mLimit w - len (mBytes w) - Z.of_nat header <? Z.of_nat (view_size v))) = negb fits) as ->.
  { unfold fits, header. destruct prefix; lia. }
  destruct fits eqn:Efits; [|done]. cbn [negb].
  assert (match Aliases w v with
          | Some offset => (length (mBytes w) - offset <? view_size v)%nat
          | None => false end = false) as ->.
  { destruct v as [|offset n]; simpl in *; [done|]. case_if; [|done]. lia. }
  destruct alloc; [|done]. cbn [negb]. f_equal. f_equal.
  set (pre := if prefix then Store (Z.of_nat (view_size v)) 4 (mWriterOrder w) else []).
  assert (length pre = header) as Hpre by (unfold pre, header; destruct prefix; done).
  replace (if prefix then _ else _) with (mBytes w ++ pre ++ repeat 0 (view_size v)).
  2:{ unfold pre, header. destruct prefix; [|done].
      rewrite repeat_app. unfold write_at. rewrite take_app_length, length_Store.
      f_equal. f_equal. rewrite drop_app_ge by lia.
      replace (length (mBytes w) + 4 - length (mBytes w))%nat with 4%nat by lia. done. }
  replace (match Aliases w v with Some _ => _ | None => _ end) with (view_bytes w v).
  2:{ destruct v as [bytes|offset n]; [done|]. simpl in *. case_if; [|done].
      by rewrite slice_app_l by lia. }
  destruct (view_size v =? 0)%nat eqn:E0.
  - apply Nat.eqb_eq in E0. rewrite E0. simpl. unfold enc. fold pre. f_equal. f_equal.
    pose proof (length_view_bytes w v Hv) as Hl. rewrite E0 in Hl.
    by apply nil_length_inv in Hl.
  - rewrite app_assoc. rewrite <- Hpre, <- length_app.
    rewrite write_at_end by (by apply length_view_bytes). unfold enc. by rewrite app_assoc.
Qed.

(** Which writes are accepted before the space is looked at, with the code of the others. *)
Definition write_check (w : BinaryWriter) (op : WriteOp) : option ErrorCode :=
  match op with
  | WUnsigned v n =>
      if negb (Width n) || negb (v <? 2 ^ (8 * n)) then Some InvalidArgument else None
  | WSigned v n =>
      if negb (Width n) || negb ((- 2 ^ (8 * n - 1) <=? v) && (v <? 2 ^ (8 * n - 1)))
      then Some InvalidArgument else None
  | WBool _ | WFloat32 _ | WFloat64 _ | WBytes _ => None
  | WLengthPrefixed v m =>
      if (m <? Z.of_nat (view_size v)) || (UINT32_MAX <? Z.of_nat (view_size v))
      then Some TooLarge else None
  | WUtf8 v m =>
      if m <? Z.of_nat (view_size v) then Some TooLarge
      else if negb (Utf8.IsValidUtf8 (view_bytes w v)) then Some InvalidArgument
      else if UINT32_MAX <? Z.of_nat (view_size v) then Some TooLarge else None
  end.

Lemma append_external_spec alloc bytes w :
  writer_ok w ->
  Append alloc (External bytes) false w =
    if negb (len (mBytes w) + len bytes <=? mLimit w) then (Fail TooLarge, w)
    else if negb alloc then (Status.AllocationFailure, w)
    else (Status.Ok, MkWriter (mBytes w ++ bytes) (mLimit w) (mWriterOrder w)).
Proof. intros Hw. by rewrite append_spec. Qed.

Lemma run_write_spec alloc op w :
  writer_ok w -> write_arg_ok w op ->
  run_write alloc op w =
    match write_check w op with
    | Some code => (Fail code, w)
    | None =>
        if negb (len (mBytes w) + len (encoding w op) <=? mLimit w) then (Fail TooLarge, w)
        else if negb alloc then (Status.AllocationFailure, w)
        else (Status.Ok, MkWriter (mBytes w ++ encoding w op) (mLimit w) (mWriterOrder w))
    end.
Proof.
  intros Hw Hop. destruct op as [v n|v n|b|v|v|v|v m|v m]; cbn [run_write write_check encoding].
  - unfold WriteUnsigned. cbn in Hop. destruct (Width n) eqn:Ew; cbn [negb orb]; [|done].
    replace ((n <? 8) && (Z.shiftl 1 (n * 8) <=? v)) with (negb (v <? 2 ^ (8 * n))).
    + case_if; [done|]. by apply append_external_spec.
    + unfold UINT64_MAX in Hop.
      apply width_cases in Ew as [->|[->|[->| ->]]]; eval_pow; lia.
  - unfold WriteSigned. cbn in Hop. destruct (Width n) eqn:Ew; cbn [negb orb]; [|done].
    replace ((n <? 8) && _) with
      (negb ((- 2 ^ (8 * n - 1) <=? v) && (v <? 2 ^ (8 * n - 1)))).
    + case_if; [done|]. by apply append_external_spec.
    + apply width_cases in Ew as [->|[->|[->| ->]]]; eval_pow; lia.
  - unfold WriteBool, WriteUnsigned. destruct b; cbn -[Append Store]; by apply append_external_spec.
  - unfold WriteFloat32, WriteUnsigned. cbn in Hop.
    replace (negb (Width 4) || _) with false
      by (unfold UINT32_MAX in Hop; unfold Width; eval_pow; lia).
    by apply append_external_spec.
  - unfold WriteFloat64, WriteUnsigned. by apply append_external_spec.
  - by apply append_spec.
  - unfold WriteLengthPrefixed. case_if; [done|]. by apply append_spec.
  - unfold WriteUtf8, WriteLengthPrefixed. case_if; [done|]. case_if; [done|]. cbn [orb].
    case_if; [done|]. by apply append_spec.
Qed.

(** ** The reader *)

Definition reader_ok (r : BinaryReader) : Prop := (mPosition r <= length (mInput r))%nat.

(** The bytes not read yet. *)
Definition rest_of (r : BinaryReader) : list Z := drop (mPosition r) (mInput r).

Lemma remaining_rest r : reader_ok r -> Remaining r = len (rest_of r).
Proof.
  unfold reader_ok, Remaining, Position, rest_of, len. intros. rewrite length_drop. lia.
Qed.

Lemma rest_reader_ok r l rest : l <> [] -> rest_of r = l ++ rest -> reader_ok r.
Proof.
  unfold reader_ok, rest_of. intros Hl H. apply (f_equal length) in H.
  rewrite length_drop, length_app in H. destruct l; [done|]. simpl in H. lia.
Qed.

Lemma rest_advance r l rest : rest_of r = l ++ rest -> rest_of (advance r (length l)) = rest.
Proof.
  unfold rest_of, advance. cbn [mPosition mInput]. intros H.
  rewrite <- drop_drop, H. by rewrite drop_app_length.
Qed.

Lemma advance_ok r l rest :
  l <> [] -> rest_of r = l ++ rest -> reader_ok (advance r (length l)).
Proof.
  intros Hl Hr. pose proof (rest_reader_ok _ _ _ Hl Hr) as Hok.
  unfold reader_ok, advance, rest_of in *. cbn [mPosition mInput].
  apply (f_equal length) in Hr. rewrite length_drop, length_app in Hr. lia.
Qed.

Lemma slice_rest r l rest :
  rest_of r = l ++ rest -> slice (mPosition r) (length l) (mInput r) = l.
Proof. unfold slice, rest_of. intros ->. by rewrite take_app_length. Qed.

Lemma read_unsigned_spec r v width rest :
  Width width = true -> rest_of r = Store v (Z.to_nat width) (mOrder r) ++ rest ->
  ReadUnsigned width r = (FromValue (v mod 2 ^ (8 * width)), advance r (Z.to_nat width)).
Proof.
  intros Hw Hr. pose proof (width_cases _ Hw) as Hc.
  assert (reader_ok r) as Hok.
  { eapply rest_reader_ok, Hr. intros H. apply (f_equal length) in H.
    rewrite length_Store in H. simpl in H. lia. }
  unfold ReadUnsigned. rewrite Hw. cbn [negb].
  rewrite remaining_rest by done. rewrite Hr, len_app. unfold len at 1.
  rewrite length_Store. pose proof (len_nonneg rest).
  replace (_ <? width) with false by lia. f_equal. f_equal.
  pose proof (slice_rest _ _ _ Hr) as Hs. rewrite length_Store in Hs. rewrite Hs.
  rewrite <- (app_nil_r (Store _ _ _)), gather_store by lia. f_equal. f_equal. lia.
Qed.

Lemma read_bytes_spec r l rest :
  reader_ok r -> rest_of r = l ++ rest ->
  ReadBytes (len l) r = (FromValue l, advance r (length l)).
Proof.
  intros Hok Hr. unfold ReadBytes. rewrite remaining_rest, Hr, len_app by done.
  pose proof (len_nonneg rest). replace (_ <? len l) with false by lia.
  unfold len. rewrite Nat2Z.id. by rewrite (slice_rest _ _ _ Hr).
Qed.

Lemma advance_advance r n m : advance (advance r n) m = advance r (n + m).
Proof. unfold advance. cbn [mInput mOrder mPosition]. f_equal. lia. Qed.

Lemma read_length_prefixed_spec r l m rest :
  len l <= UINT32_MAX -> len l <= m ->
  rest_of r = Store (len l) 4 (mOrder r) ++ l ++ rest ->
  ReadLengthPrefixed m r = (FromValue l, advance r (4 + length l)).
Proof.
  intros H32 Hm Hr. unfold ReadLengthPrefixed.
  rewrite (read_unsigned_spec r (len l) 4 (l ++ rest)) by done.
  pose proof (len_nonneg l). unfold UINT32_MAX in H32.
  rewrite Z.mod_small by (eval_pow; lia). replace (m <? len l) with false by lia.
  apply rest_advance in Hr as Hr'. rewrite length_Store in Hr'.
  rewrite (read_bytes_spec _ l rest); [|by apply (advance_ok _ _ _) in Hr |done].
  by rewrite advance_advance.
Qed.

(** A read of the matching kind takes back what an accepted write encodes. *)
Lemma read_back_spec op w r rest :
  write_arg_ok w op -> write_check w op = None -> reader_ok r ->
  mOrder r = mWriterOrder w -> rest_of r = encoding w op ++ rest ->
  run_read (read_back op) r = (FromValue (written w op), advance r (length (encoding w op))).
Proof.
  intros Harg Hc Hok Ho Hr.
  destruct op as [v n|v n|b|v|v|v|v m|v m]; cbn [write_check encoding] in Hc, Hr;
    cbn [run_read read_back written encoding]; try rewrite <- Ho in Hr; try rewrite <- Ho.
  - case_if_in Hc; [done|]. cbn in Harg. rewrite length_Store.
    rewrite (read_unsigned_spec _ v n rest) by (try done; lia).
    rewrite Z.mod_small by lia. done.
  - case_if_in Hc; [done|]. unfold ReadSigned. rewrite length_Store.
    rewrite (read_unsigned_spec _ (wrap64 v) n rest) by (try done; lia). cbn [datum].
    by rewrite signed_bits by (rewrite ?(Z.mul_comm n 8); lia).
  - rewrite length_Store. unfold ReadBool.
    rewrite (remaining_rest _ Hok), Hr, len_app. pose proof (len_nonneg rest).
    assert (nth (mPosition r) (mInput r) 0 = if b then 1 else 0) as ->.
    { apply (f_equal (fun l => nth 0 l 0)) in Hr. unfold rest_of in Hr.
      rewrite nth_skipn, Nat.add_0_r in Hr. rewrite Hr. by destruct b, (mOrder r). }
    unfold len at 1. rewrite length_Store.
    replace (_ =? 0) with false by lia. by destruct b.
  - unfold ReadFloat32. cbn in Harg. rewrite (read_unsigned_spec _ v 4 rest) by done.
    cbn [datum]. unfold wrap32, UINT32_MAX in *. rewrite !Z.mod_small by (eval_pow; try lia).
    by rewrite length_Store.
  - unfold ReadFloat64. cbn in Harg. rewrite (read_unsigned_spec _ v 8 rest) by done.
    cbn [datum]. unfold UINT64_MAX in *. rewrite !Z.mod_small by (eval_pow; lia).
    by rewrite length_Store.
  - cbn in Harg. rewrite <- (length_view_bytes w v) by done.
    change (Z.of_nat (length (view_bytes w v))) with (len (view_bytes w v)).
    by rewrite (read_bytes_spec _ _ rest).
  - cbn in Harg. case_if_in Hc; [done|]. rewrite length_app, length_Store.
    rewrite <- (length_view_bytes w v) in * by done. rewrite <- app_assoc in Hr.
    by rewrite (read_length_prefixed_spec r (view_bytes w v) m rest) by (unfold len in *; try lia; done).
  - cbn in Harg. repeat (case_if_in Hc; [done|]). rewrite length_app, length_Store.
    rewrite <- (length_view_bytes w v) in * by done. rewrite <- app_assoc in Hr.
    unfold ReadUtf8.
    rewrite (read_length_prefixed_spec r (view_bytes w v) m rest) by (unfold len in *; try lia; done).
    by destruct (Utf8.IsValidUtf8 (view_bytes w v)).
Qed.

Lemma run_write_ok op w s w' :
  writer_ok w -> write_arg_ok w op -> run_write true op w = (s, w') -> Status.IsOk s = true ->
  write_check w op = None /\ writer_ok w' /\
  w' = MkWriter (mBytes w ++ encoding w op) (mLimit w) (mWriterOrder w).
Proof.
  intros Hw Harg Hrun Hs. rewrite run_write_spec in Hrun by done.
  destruct (write_check w op) as [c|] eqn:Ec.
  { injection Hrun as <- <-. exfalso. revert Hs.
    destruct op; cbn in Ec; repeat case_if_in Ec; try done; by injection Ec as <-. }
  case_if_in Hrun; [by injection Hrun as <- <-|]. injection Hrun as <- <-.
  split_and!; [done| |done]. unfold writer_ok. cbn [mBytes mLimit]. rewrite len_app. lia.
Qed.

Lemma write_all_spec ops w vs w' r rest :
  writer_ok w -> write_args_ok ops w -> write_all ops w = Some (vs, w') ->
  exists enc, mBytes w' = mBytes w ++ enc /\ writer_ok w' /\
    mLimit w' = mLimit w /\
    (reader_ok r -> mOrder r = mWriterOrder w -> rest_of r = enc ++ rest ->
     exists r', read_all (map read_back ops) r = Some (vs, r') /\ rest_of r' = rest /\ reader_ok r').
Proof.
  revert w vs r. induction ops as [|op ops IH]; intros w vs r Hw Hargs Hall.
  { injection Hall as <- <-. exists []. rewrite app_nil_r. split_and!; [done..|]. eauto. }
  destruct Hargs as [Harg Hargs]. cbn [write_all] in Hall.
  destruct (run_write true op w) as [s w1] eqn:Hrun. cbn [snd] in Hargs.
  destruct (Status.IsOk s) eqn:Hs; [|done].
  destruct (write_all ops w1) as [[vs1 w2]|] eqn:Hall1; [|done]. injection Hall as <- <-.
  destruct (run_write_ok op w s w1 Hw Harg Hrun Hs) as (Hc & Hw1 & Hw1').
  destruct (IH w1 vs1 (advance r (length (encoding w op))) Hw1 Hargs Hall1)
    as (enc & Henc & Hw2 & Hlim & Hread).
  rewrite Hw1' in Henc, Hlim, Hread. cbn [mBytes mLimit mWriterOrder] in *.
  exists (encoding w op ++ enc). rewrite app_assoc. split_and!; [done..|].
  intros Hok Ho Hr. rewrite <- app_assoc in Hr. cbn [read_all map].
  rewrite (read_back_spec op w r (enc ++ rest)) by done.
  destruct Hread as (r' & Hall' & Hr'); [|done|by apply rest_advance|].
  - unfold reader_ok, advance, rest_of in *. cbn [mPosition mInput].
    apply (f_equal length) in Hr. rewrite length_drop, !length_app in Hr. lia.
  - rewrite Hall'. eauto.
Qed.

Lemma create_writer_inv limit order w :
  CreateWriter limit order = FromValue w ->
  w = MkWriter [] limit order /\ Order order = true /\ limit <> 0 /\ limit <= MaximumBinaryBuffer.
Proof.
  unfold CreateWriter. case_if; [done|]. intros H. injection H as <-. split_and!; [done|..]; lia.
Qed.

(** C8. What a [BinaryWriter] writes, a [BinaryReader] of the same byte order reads back: when every
    write of a sequence (integers of 1, 2, 4 or 8 bytes, signed or not, booleans, floats, raw and
    length-prefixed bytes, UTF-8 text, spans of the caller or of the writer's own buffer) succeeds,
    [Create] accepts the bytes under the writer's limit, the matching reads all succeed with the
    values written, and nothing remains. *)
Theorem binary_round_trip limit order w0 ops vs w :
  0 <= limit ->
  CreateWriter limit order = FromValue w0 ->
  write_args_ok ops w0 ->
  write_all ops w0 = Some (vs, w) ->
  exists r0 r, CreateReader (mBytes w) order limit = FromValue r0 /\
    read_all (map read_back ops) r0 = Some (vs, r) /\ Remaining r = 0.
Proof.
  intros Hl Hc Hargs Hall. destruct (create_writer_inv _ _ _ Hc) as (-> & Ho & Hl0 & Hmax).
  assert (writer_ok (MkWriter [] limit order)) as Hw by (unfold writer_ok; by cbn).
  destruct (write_all_spec ops _ vs w (MkReader (mBytes w) order 0) [] Hw Hargs Hall)
    as (enc & Henc & Hw' & Hlim & Hread).
  unfold writer_ok in Hw'. cbn [mLimit] in Hlim. rewrite Hlim in Hw'.
  destruct Hread as (r' & Hr' & Hrest & Hok').
  { unfold reader_ok. cbn. lia. }
  { done. }
  { unfold rest_of. cbn [mPosition mInput]. by rewrite app_nil_r, drop_0, Henc. }
  exists (MkReader (mBytes w) order 0), r'. split_and!; [|done|].
  - unfold CreateReader. rewrite Ho. replace (limit <? len (mBytes w)) with false by lia.
    by replace (negb true || _ || _) with false by lia.
  - by rewrite remaining_rest, Hrest.
Qed.

Definition sample_writes : list WriteOp :=
  [WUnsigned 258 2; WSigned (-5) 4; WBool true; WUtf8 (External [104; 105]) 16;
   WBytes (SelfView 0 3); WFloat32 1065353216].

Lemma binary_round_trip_witness : exists vs w r0 r,
  write_all sample_writes (MkWriter [] 64 LittleEndian) = Some (vs, w) /\
  CreateReader (mBytes w) LittleEndian 64 = FromValue r0 /\
  read_all (map read_back sample_writes) r0 = Some (vs, r) /\ Remaining r = 0.
Proof.
  destruct (write_all sample_writes (MkWriter [] 64 LittleEndian)) as [[vs w]|] eqn:E;
    [|vm_compute in E; discriminate].
  exists vs, w.
  destruct (binary_round_trip 64 LittleEndian (MkWriter [] 64 LittleEndian) sample_writes vs w)
    as (r0 & r & H1 & H2 & H3); [lia|reflexivity| |exact E|].
  - vm_compute. intuition (try lia; try discriminate).
  - exists r0, r. split_and!; [reflexivity|exact H1|exact H2|exact H3].
Defined.

(** ** Failures *)

(** What every read guarantees of the reader it leaves. *)
Definition read_safe (op : ReadOp) (r : BinaryReader) (p : Result Datum * BinaryReader) : Prop :=
  match p with
  | (FromStatus _, r') => r' = r
  | (FromValue v, r') =>
      0 <= consumed op v <= Remaining r /\ r' = advance r (Z.to_nat (consumed op v))
  end.

Lemma read_unsigned_safe width r :
  match ReadUnsigned width r with
  | (FromStatus s, r') => r' = r /\
      Status.Code s = if Width width then InvalidFormat else InvalidArgument
  | (FromValue v, r') => Width width = true /\ 0 <= width <= Remaining r /\
      r' = advance r (Z.to_nat width)
  end.
Proof.
  unfold ReadUnsigned. destruct (Width width) eqn:E; cbn [negb]; [|done].
  apply width_cases in E as Hc. case_if; [done|]. split_and!; [done|lia..|done].
Qed.

Lemma gather_length_prefix r n : 0 <= n -> n <= Remaining r -> 
  len (slice (mPosition r) (Z.to_nat n) (mInput r)) = n.
Proof.
  unfold Remaining, Position, len. intros. rewrite length_slice by lia. lia.
Qed.

Lemma gather_nonneg bytes n o : is_bytes bytes -> 0 <= Gather bytes n o.
Proof.
  intros Hb. unfold Gather.
  assert (forall l a, 0 <= a -> 0 <= fold_left (fun value i =>
    Z.lor value (wrap64 (Z.shiftl (nth i bytes 0) (ByteShift o n i)))) l a) as H; [|by apply H].
  induction l as [|i l IH]; intros a Ha; cbn [fold_left]; [done|].
  apply IH, Z.lor_nonneg. split; [done|]. unfold wrap64. apply Z.mod_pos_bound. lia.
Qed.

Lemma read_length_prefixed_safe m r :
  is_bytes (mInput r) ->
  match ReadLengthPrefixed m r with
  | (FromStatus _, r') => r' = r
  | (FromValue bytes, r') => len bytes <= m /\ 4 + len bytes <= Remaining r /\
      r' = advance r (Z.to_nat (4 + len bytes))
  end.
Proof.
  intros Hb. unfold ReadLengthPrefixed. pose proof (read_unsigned_safe 4 r) as H4.
  destruct (ReadUnsigned 4 r) as [[n|s] r1] eqn:E4; [|done]. destruct H4 as (_ & H4 & ->).
  assert (0 <= n) as Hn.
  { unfold ReadUnsigned in E4. case_if_in E4; [done|]. case_if_in E4; [done|].
    injection E4 as <-. auto using gather_nonneg, is_bytes_slice. }
  case_if; [done|]. unfold ReadBytes. case_if; [done|].
  rewrite gather_length_prefix by lia. rewrite advance_advance.
  unfold Remaining, Position, advance in *. cbn [mInput mPosition] in *.
  split_and!; [lia..|]. f_equal. lia.
Qed.

Lemma datum_read_safe {A} op wrap (p : Result A * BinaryReader) r :
  (match p with
   | (FromStatus _, r') => r' = r
   | (FromValue v, r') => 0 <= consumed op (wrap v) <= Remaining r /\
       r' = advance r (Z.to_nat (consumed op (wrap v)))
   end) -> read_safe op r (datum wrap p).
Proof. by destruct p as [[]]. Qed.

(** Reading is safe on any input: a failed read of any kind leaves the reader exactly as it was
    (its position included); a successful one consumes precisely the bytes of the value it returns
    (a prefix's four bytes included), never more than remained, so the position never passes the
    end of the input. *)
Theorem binary_reader_safe op r r' res :
  is_bytes (mInput r) -> reader_ok r -> read_arg_ok op -> run_read op r = (res, r') ->
  read_safe op r (res, r') /\ reader_ok r' /\ mInput r' = mInput r.
Proof.
  intros Hb Hok Harg Hrun.
  assert (read_safe op r (res, r')) as Hs.
  2:{ split; [done|]. destruct res as [v|s]; cbn in Hs; [|by subst].
      destruct Hs as [H ->]. split; [|done].
      unfold reader_ok, advance, Remaining, Position, len in *. cbn [mPosition mInput]. lia. }
  rewrite <- Hrun. clear Hrun res r'.
  pose proof (read_unsigned_safe 4 r) as H4. pose proof (read_unsigned_safe 8 r) as H8.
  destruct op as [n|n| | | |n|m|m|n]; cbn [run_read]; try apply datum_read_safe; cbn [consumed].
  - pose proof (read_unsigned_safe n r). destruct (ReadUnsigned n r) as [[]]; naive_solver.
  - pose proof (read_unsigned_safe n r). unfold ReadSigned.
    destruct (ReadUnsigned n r) as [[]]; naive_solver.
  - unfold ReadBool. case_if; [done|]. split; [|done].
    unfold reader_ok, Remaining, Position, len in *. lia.
  - unfold ReadFloat32. destruct (ReadUnsigned 4 r) as [[]]; naive_solver.
  - unfold ReadFloat64. destruct (ReadUnsigned 8 r) as [[]]; naive_solver.
  - cbn in Harg. unfold ReadBytes. case_if; [done|]. split; [lia|done].
  - pose proof (read_length_prefixed_safe m r Hb).
    destruct (ReadLengthPrefixed m r) as [[bytes|]]; [|done].
    pose proof (len_nonneg bytes). split_and!; [lia..|naive_solver].
  - pose proof (read_length_prefixed_safe m r Hb). unfold ReadUtf8.
    destruct (ReadLengthPrefixed m r) as [[bytes|]]; [|done]. case_if; [done|].
    pose proof (len_nonneg bytes). split_and!; [lia..|naive_solver].
  - cbn in Harg. unfold Skip. case_if; [done|]. cbn. split; [lia|done].
Qed.

Lemma binary_reader_safe_witness :
  read_safe (OpLengthPrefixed 8) (MkReader [0; 0; 0; 2; 104; 105] BigEndian 0)
    (run_read (OpLengthPrefixed 8) (MkReader [0; 0; 0; 2; 104; 105] BigEndian 0)) /\
  run_read (OpLengthPrefixed 8) (MkReader [0; 0; 0; 2; 104; 105] BigEndian 0) =
    (FromValue (DBytes [104; 105]), MkReader [0; 0; 0; 2; 104; 105] BigEndian 6) /\
  run_read (OpLengthPrefixed 8) (MkReader [0; 0; 0; 3; 104; 105] BigEndian 0) =
    (FromStatus (Fail InvalidFormat), MkReader [0; 0; 0; 3; 104; 105] BigEndian 0).
Proof.
  split; [|split; reflexivity].
  destruct (run_read (OpLengthPrefixed 8) (MkReader [0; 0; 0; 2; 104; 105] BigEndian 0))
    as [res r'] eqn:E.
  apply (binary_reader_safe (OpLengthPrefixed 8) (MkReader [0; 0; 0; 2; 104; 105] BigEndian 0) r'
    res); [by apply bytesb_iff|unfold reader_ok; cbn; lia|cbn; lia|exact E].
Defined.

(** A write on any branch: an argument outside its width, an over-long or malformed text, a
    value that does not fit under the writer's limit or a failed allocation leave every byte
    written so far; otherwise exactly the value's encoding is appended - also when the span
    written is a view into the writer's own buffer, which growing it moves - and the limit holds. *)
Theorem binary_writer_branches alloc op w s w' :
  writer_ok w -> write_arg_ok w op -> run_write alloc op w = (s, w') ->
  (s = Status.Ok /\ alloc = true /\ write_check w op = None /\
     mBytes w' = mBytes w ++ encoding w op /\ len (mBytes w') <= mLimit w) \/
  (w' = w /\ Status.IsOk s = false /\
     (write_check w op = Some (Status.Code s) \/
      (write_check w op = None /\ mLimit w < len (mBytes w) + len (encoding w op) /\
         Status.Code s = TooLarge) \/
      (write_check w op = None /\ alloc = false /\ Status.Code s = PlatformError))).
Proof.
  intros Hw Harg Hrun. rewrite run_write_spec in Hrun by done.
  destruct (write_check w op) as [c|] eqn:Ec.
  { injection Hrun as <- <-. right. split_and!; [done| |by left].
    destruct op; cbn in Ec; repeat case_if_in Ec; try done; by injection Ec as <-. }
  case_if_in Hrun.
  { injection Hrun as <- <-. right. split_and!; [done..|]. right. left. split_and!; [done|lia|done]. }
  destruct alloc; injection Hrun as <- <-.
  - left. cbn [mBytes]. rewrite len_app. split_and!; [done..|lia].
  - right. split_and!; [done..|]. by right; right.
Qed.

Lemma binary_writer_branches_witness :
  mBytes (run_write true (WLengthPrefixed (SelfView 1 2) 8) (MkWriter [7; 8; 9] 9 BigEndian)).2 =
    [7; 8; 9; 0; 0; 0; 2; 8; 9] /\
  (run_write true (WLengthPrefixed (SelfView 1 2) 8) (MkWriter [7; 8; 9] 8 BigEndian)).2 =
    MkWriter [7; 8; 9] 8 BigEndian.
Proof.
  split.
  - destruct (run_write true (WLengthPrefixed (SelfView 1 2) 8) (MkWriter [7; 8; 9] 9 BigEndian))
      as [s w'] eqn:E.
    destruct (binary_writer_branches true (WLengthPrefixed (SelfView 1 2) 8)
      (MkWriter [7; 8; 9] 9 BigEndian) s w') as [(_ & _ & _ & H & _)|(_ & Hf & _)].
    + unfold writer_ok. vm_compute. discriminate.
    + cbn. lia.
    + exact E.
    + exact H.
    + exfalso. vm_compute in E. injection E as <- <-. vm_compute in Hf. discriminate.
  - destruct (run_write true (WLengthPrefixed (SelfView 1 2) 8) (MkWriter [7; 8; 9] 8 BigEndian))
      as [s w'] eqn:E.
    destruct (binary_writer_branches true (WLengthPrefixed (SelfView 1 2) 8)
      (MkWriter [7; 8; 9] 8 BigEndian) s w') as [(Hs & _)|(H & _)].
    + unfold writer_ok. vm_compute. discriminate.
    + cbn. lia.
    + exact E.
    + exfalso. vm_compute in E. injection E as <- <-. vm_compute in Hs. discriminate.
    + exact H.
Defined.

(** ** Negotiation *)

(** Two offers agree: the same version, and every required feature in both. *)
Definition agree (required : Z) (local remote : ProtocolOffer) : Prop :=
  version local = version remote /\
  Z.land (Z.land (features local) (features remote)) required = required.

Definition distinct_versions (offers : list ProtocolOffer) : Prop :=
  1 <= len offers <= 64 /\ Forall (fun o => version o <> 0) offers /\
  NoDup (map version offers).

Lemma valid_from_spec seen offers :
  ValidFrom seen offers = true <->
  Forall (fun o => version o <> 0) offers /\ NoDup (map version offers) /\
  (forall o, o ∈ offers -> version o ∉ map version seen).
Proof.
  revert seen; induction offers as [|o offers IH]; intros seen; cbn [ValidFrom map].
  { split; [|done]. intros _. split_and!; [constructor..|]. intros o Ho. by apply elem_of_nil in Ho. }
  rewrite !andb_true_iff, IH, map_app. cbn [map].
  assert (negb (existsb (fun p => version p =? version o) seen) = true <->
    version o ∉ map version seen) as ->.
  { rewrite negb_true_iff, <- not_true_iff_false, existsb_exists.
    rewrite list_elem_of_In, in_map_iff. setoid_rewrite Z.eqb_eq. naive_solver. }
  rewrite Forall_cons, NoDup_cons. setoid_rewrite elem_of_app. setoid_rewrite elem_of_cons.
  assert (negb (version o =? 0) = true <-> version o <> 0) as -> by lia.
  split.
  - intros ((H0 & Hs) & Hf & Hn & Hd). split_and!; [done..| |done|].
    + rewrite list_elem_of_In, in_map_iff. intros (p & Hp & Hin).
      apply list_elem_of_In in Hin. apply (Hd p Hin). auto.
    + intros p [->|Hp]; [done|]. intros Hin. apply (Hd p Hp). auto.
  - intros ((H0 & Hf) & (Hn1 & Hn) & Hd). split_and!; [done|by apply Hd; left|done..|].
    intros p Hp [Hin|[Heq|Hnil%elem_of_nil]]; [by apply (Hd p); [right|]| |done].
    apply Hn1. rewrite <- Heq. apply list_elem_of_In, in_map, list_elem_of_In, Hp.
Qed.

Lemma valid_offers_spec offers : ValidOffers offers = true <-> distinct_versions offers.
Proof.
  unfold ValidOffers, distinct_versions. rewrite andb_true_iff, valid_from_spec. cbn [map].
  setoid_rewrite elem_of_nil. pose proof (len_nonneg offers). split.
  - intros (H1 & ? & ? & _). split_and!; [lia..|done|done].
  - intros (H1 & ? & ?). split_and!; [lia|done|done|tauto].
Qed.

Lemma match_peer_spec required local peer :
  match MatchPeer required local peer with
  | Some offer => exists remote, remote ∈ peer /\ agree required local remote /\
      offer = MkOffer (version local) (Z.land (features local) (features remote))
  | None => forall remote, remote ∈ peer -> ~ agree required local remote
  end.
Proof.
  induction peer as [|remote peer IH]; cbn [MatchPeer].
  { intros ? H. by apply elem_of_nil in H. }
  case_if.
  - exists remote. unfold agree. split_and!; [by left|lia..|done].
  - destruct (MatchPeer required local peer) as [offer|].
    + destruct IH as (remote' & Hin & H). exists remote'. split; [by right|done].
    + intros remote' [->|Hin]%elem_of_cons; [|by apply IH]. unfold agree. lia.
Qed.

Lemma match_server_spec required server peer :
  match MatchServer required server peer with
  | Some offer => exists before local after remote, server = before ++ local :: after /\
      (forall l r, l ∈ before -> r ∈ peer -> ~ agree required l r) /\
      remote ∈ peer /\ agree required local remote /\
      offer = MkOffer (version local) (Z.land (features local) (features remote))
  | None => forall l r, l ∈ server -> r ∈ peer -> ~ agree required l r
  end.
Proof.
  induction server as [|local server IH]; cbn [MatchServer].
  { intros ? ? H. by apply elem_of_nil in H. }
  pose proof (match_peer_spec required local peer) as Hp.
  destruct (MatchPeer required local peer) as [offer|].
  { destruct Hp as (remote & H). exists [], local, server, remote. split_and!; [done| |apply H..].
    intros ? ? Hin. by apply elem_of_nil in Hin. }
  destruct (MatchServer required server peer) as [offer|].
  - destruct IH as (before & local' & after & remote & -> & Hb & H).
    exists (local :: before), local', after, remote. split_and!; [done| |apply H..].
    intros l r [->|Hin]%elem_of_cons; [by apply Hp|by apply Hb].
  - intros l r [->|Hin]%elem_of_cons; [by apply Hp|by apply IH].
Qed.

(** Negotiation refuses exactly the offer lists that are not 1..64 distinct nonzero versions;
    on valid ones it answers with the server's first version that the peer also offers with every
    required feature, and with the features both have; and it answers Unimplemented exactly when no
    such version exists. *)
Theorem negotiate_correct server peer required :
  match NegotiateProtocol server peer required with
  | FromValue offer => distinct_versions server /\ distinct_versions peer /\
      exists before local after remote, server = before ++ local :: after /\
        (forall l r, l ∈ before -> r ∈ peer -> ~ agree required l r) /\
        remote ∈ peer /\ agree required local remote /\
        offer = MkOffer (version local) (Z.land (features local) (features remote))
  | FromStatus s =>
      (Status.Code s = InvalidArgument /\ ~ (distinct_versions server /\ distinct_versions peer)) \/
      (Status.Code s = UnimplementedCode /\ distinct_versions server /\ distinct_versions peer /\
        forall l r, l ∈ server -> r ∈ peer -> ~ agree required l r)
  end.
Proof.
  unfold NegotiateProtocol.
  pose proof (valid_offers_spec server) as Hs. pose proof (valid_offers_spec peer) as Hp.
  destruct (ValidOffers server), (ValidOffers peer); cbn [negb orb];
    try (left; split; [done|]; by intros [?%Hs ?%Hp]).
  apply proj1 in Hs, Hp. specialize (Hs eq_refl). specialize (Hp eq_refl).
  pose proof (match_server_spec required server peer) as H.
  destruct (MatchServer required server peer); [by split_and!|]. by right.
Qed.
