(* ===== verification/Envelopes.v ===== *)
(** * Protocol: the binary message envelope and the datagram codec.

    [Protocol/BinaryMessage.h|cpp] (module [BinaryMessage]) and [Protocol/DatagramCodec.h] (module
    [DatagramCodec]).  The first is the body of a TCP frame in binary mode, the second one UDP
    datagram: a magic, an opaque token, a big-endian sequence number and a payload. *)

From S2P Require Import Prelude CoreError.

Module BinaryMessage.

Definition BinaryMessageHeaderSize : Z := 4.

Record BinaryMessageView : Type := MkView { type : Z; payload : list Z }.

(** The four type bytes, least significant first. *)
Definition GatherType (bytes : list Z) : Z :=
  fold_left (fun type i =>
    Z.lor type (wrap32 (Z.shiftl (nth i bytes 0) (Z.of_nat i * 8)))) (seq 0 4) 0.

Definition DecodeBinaryMessage (bytes : list Z) : Result BinaryMessageView :=
  if len bytes <? BinaryMessageHeaderSize then
    FromStatus (Status.FailWithoutMessage InvalidFormat)
  else
    let type := GatherType bytes in
    if type =? 0 then FromStatus (Status.FailWithoutMessage InvalidFormat)
    else FromValue (MkView type (drop (Z.to_nat BinaryMessageHeaderSize) bytes)).

Definition StoreType (type : Z) : list Z :=
  map (fun i => Z.land (Z.shiftr type (Z.of_nat i * 8)) 255) (seq 0 4).

(** [alloc]: whether the result vector could be allocated. *)
Definition EncodeBinaryMessage (alloc : bool) (type : Z) (payload : list Z) (maximumBytes : Z)
    : Result (list Z) :=
  if type =? 0 then FromStatus (Status.FailWithoutMessage InvalidArgument)
  else if (maximumBytes <? BinaryMessageHeaderSize)
       || (maximumBytes - BinaryMessageHeaderSize <? len payload)
  then FromStatus (Status.FailWithoutMessage TooLarge)
  else if negb alloc then FromStatus Status.AllocationFailure
  else
    let bytes := repeat 0 (Z.to_nat (BinaryMessageHeaderSize + len payload)) in
    let bytes := write_at 0 (StoreType type) bytes in
    FromValue (write_at (Z.to_nat BinaryMessageHeaderSize) payload bytes).

End BinaryMessage.

Module DatagramCodec.

Definition HeaderBytes : Z := 28.
Definition MaximumDatagramBytes : Z := 1200.
Definition MaximumPayloadBytes : Z := MaximumDatagramBytes - HeaderBytes.

(** [Token] is an array of 16 bytes. *)
Definition TokenSize : nat := 16.

Record PacketView : Type := MkPacket { token : list Z; sequence : Z; packet_payload : list Z }.

(** The table of hexadecimal digits. *)
Definition Hex : list Z := txt "0123456789abcdef".

Definition TokenToHex (token : list Z) : list Z :=
  flat_map (fun value => [nth (Z.to_nat (Z.shiftr value 4)) Hex 0;
                          nth (Z.to_nat (Z.land value 15)) Hex 0]) token.

(** The lambda [nibble]: the value of a hexadecimal digit, -1 for any other character. *)
Definition nibble (ch : Z) : Z :=
  if (char_code "0" <=? ch) && (ch <=? char_code "9") then ch - char_code "0"
  else if (char_code "a" <=? ch) && (ch <=? char_code "f") then ch - char_code "a" + 10
  else if (char_code "A" <=? ch) && (ch <=? char_code "F") then ch - char_code "A" + 10
  else -1.

(** The loop over the token's bytes, two characters each. *)
Fixpoint TokenBytes (text : list Z) : option (list Z) :=
  match text with
  | c1 :: c2 :: text' =>
      let high := nibble c1 in
      let low := nibble c2 in
      if (high <? 0) || (low <? 0) then None
      else
        match TokenBytes text' with
        | Some token => Some (Z.lor (Z.shiftl high 4) low :: token)
        | None => None
        end
  | _ => Some []
  end.

Definition TokenFromHex (text : list Z) : option (list Z) :=
  if negb (len text =? 32) then None else TokenBytes text.

Definition Magic : list Z := txt "SMU1".

Definition SequenceBytes (sequence : Z) : list Z :=
  map (fun index => Z.land (Z.shiftr sequence (Z.of_nat (7 - index) * 8)) 255) (seq 0 8).

(** The number of bytes written, and the destination as the call leaves it. *)
Definition Encode (destination token : list Z) (sequence : Z) (payload : list Z) : Z * list Z :=
  if (sequence =? 0) || (len payload =? 0) || (MaximumPayloadBytes <? len payload)
     || (len destination <? HeaderBytes + len payload)
  then (0, destination)
  else
    let d := write_at 0 Magic destination in
    let d := write_at 4 token d in
    let d := write_at 20 (SequenceBytes sequence) d in
    let d := write_at (Z.to_nat HeaderBytes) payload d in
    (HeaderBytes + len payload, d).

(** One step of the loop that gathers the sequence number. *)
Definition SequenceStep (sequence byte : Z) : Z := Z.lor (wrap64 (Z.shiftl sequence 8)) byte.

Definition Decode (datagram : list Z) : option PacketView :=
  if (len datagram <=? HeaderBytes) || (MaximumDatagramBytes <? len datagram)
     || negb (bytes_eqb (take 4 datagram) Magic)
  then None
  else
    let sequence := fold_left SequenceStep (slice 20 8 datagram) 0 in
    if sequence =? 0 then None
    else Some (MkPacket (slice 4 TokenSize datagram) sequence
                 (drop (Z.to_nat HeaderBytes) datagram)).

End DatagramCodec.

Import BinaryMessage DatagramCodec.

(** ** The type field *)

Lemma gather_type_4 a b c d rest :
  is_bytes [a; b; c; d] ->
  GatherType (a :: b :: c :: d :: rest) = a + b * 2 ^ 8 + c * 2 ^ 16 + d * 2 ^ 24.
Proof.
  intros H. unfold is_bytes, is_byte in H. rewrite !Forall_cons in H.
  destruct H as (Ha & Hb & Hc & Hd & _).
  unfold GatherType. cbn [fold_left seq nth]. unfold wrap32.
  rewrite !Z.shiftl_mul_pow2 by lia. eval_pow.
  change (2 ^ (Z.of_nat 0 * 8)) with 1. rewrite !Z.mod_small by lia.
  rewrite Z.lor_0_l.
  change (b * 256) with (b * 2 ^ 8). change (c * 65536) with (c * 2 ^ 16).
  change (d * 16777216) with (d * 2 ^ 24).
  rewrite <- !Z.shiftl_mul_pow2 by lia.
  rewrite (lor_add_shiftl _ b) by (eval_pow; lia).
  rewrite (lor_add_shiftl _ c) by (eval_pow; lia).
  rewrite (lor_add_shiftl _ d) by (eval_pow; lia).
  rewrite !Z.shiftl_mul_pow2 by lia. lia.
Qed.

Lemma store_type_4 t :
  StoreType t = [t mod 2 ^ 8; t / 2 ^ 8 mod 2 ^ 8; t / 2 ^ 16 mod 2 ^ 8; t / 2 ^ 24 mod 2 ^ 8].
Proof.
  unfold StoreType. cbn [map seq]. rewrite !land_255, !Z.shiftr_div_pow2 by lia.
  change (2 ^ (Z.of_nat 0 * 8)) with 1. rewrite Z.div_1_r. done.
Qed.

Lemma gather_store_type t rest : 0 <= t <= UINT32_MAX -> GatherType (StoreType t ++ rest) = t.
Proof.
  unfold UINT32_MAX. intros Ht. rewrite store_type_4. cbn [app]. rewrite gather_type_4.
  - eval_pow. dlia.
  - unfold is_bytes, is_byte. rewrite !Forall_cons. eval_pow.
    split_and!; [apply Z.mod_pos_bound; lia..|constructor].
Qed.

Lemma encode_binary_message_bytes t p limit :
  t <> 0 -> 4 + len p <= limit ->
  EncodeBinaryMessage true t p limit = FromValue (StoreType t ++ p).
Proof.
  intros Ht Hp. pose proof (len_nonneg p). unfold EncodeBinaryMessage, BinaryMessageHeaderSize.
  replace (t =? 0) with false by lia. replace (_ || _) with false by lia.
  cbn [negb]. f_equal.
  replace (Z.to_nat (4 + len p)) with (length (StoreType t) + length p)%nat
    by (unfold len; simpl; lia).
  rewrite repeat_app. unfold write_at at 2. rewrite drop_app_length'.
  2:{ by rewrite repeat_length. }
  rewrite take_0. cbn [app]. unfold write_at.
  rewrite take_app_length' by done. rewrite drop_ge; [by rewrite app_nil_r|].
  rewrite length_app, repeat_length. done.
Qed.

(** The binary envelope is a bijection between nonzero 32-bit types with a payload and byte
    strings of at least four bytes that do not start with four zeros: decoding what was encoded
    gives back the type and the payload, encoding what was decoded gives back the bytes, and a
    message is encoded exactly when it has a type and fits the limit. *)
Theorem binary_message_bijection bytes t p limit :
  is_bytes bytes -> 0 <= t <= UINT32_MAX -> 0 <= limit ->
  (EncodeBinaryMessage true t p limit = FromValue bytes <->
   4 + len p <= limit /\ DecodeBinaryMessage bytes = FromValue (MkView t p)).
Proof.
  intros Hb Ht Hlim. unfold DecodeBinaryMessage, BinaryMessageHeaderSize.
  change (Z.to_nat 4) with 4%nat. split.
  - intros He. assert (t <> 0 /\ 4 + len p <= limit) as [Ht0 Hp].
    { unfold EncodeBinaryMessage, BinaryMessageHeaderSize in He.
      case_if_in He; [done|]. case_if_in He; [done|]. lia. }
    rewrite encode_binary_message_bytes in He by done.
    assert (bytes = StoreType t ++ p) as -> by congruence. split; [done|]. rewrite len_app. change (len (StoreType t)) with 4.
    pose proof (len_nonneg p). replace (_ <? 4) with false by lia.
    rewrite gather_store_type by done. replace (t =? 0) with false by lia. done.
  - intros [Hp Hd]. case_if_in Hd; [done|]. case_if_in Hd; [done|].
    injection Hd as Htype <-.
    destruct bytes as [|a [|b [|c [|d rest]]]]; try (unfold len in E; simpl in E; lia).
    cbn [drop] in Hp |- *.
    assert (is_bytes [a; b; c; d]) as H4 by (by eapply (is_bytes_take 4) in Hb).
    rewrite gather_type_4 in Htype, E0 by done.
    rewrite encode_binary_message_bytes by lia. f_equal. rewrite store_type_4, <- Htype.
    unfold is_bytes, is_byte in H4. rewrite !Forall_cons in H4.
    destruct H4 as (Ha & Hb' & Hc & Hd & _). cbn [app].
    eval_pow. repeat (apply (f_equal2 cons); [dlia|]). done.
Qed.

Lemma binary_message_bijection_witness :
  DecodeBinaryMessage [44; 1; 0; 0; 104; 105] = FromValue (MkView 300 [104; 105]).
Proof.
  apply (binary_message_bijection [44; 1; 0; 0; 104; 105] 300 [104; 105] 6);
    [by apply bytesb_iff|unfold UINT32_MAX; lia|lia|reflexivity].
Defined.

(** ** Tokens in hexadecimal *)

Definition is_token (t : list Z) : Prop := is_bytes t /\ length t = TokenSize.

Lemma nibble_hex v :
  0 <= v < 16 -> nibble (nth (Z.to_nat v) Hex 0) = v.
Proof.
  intros Hv. assert (forallb (fun v => nibble (nth (Z.to_nat v) Hex 0) =? v)
    (map Z.of_nat (seq 0 16)) = true) as H by reflexivity.
  rewrite forallb_forall in H. apply Z.eqb_eq, H, in_map_iff. exists (Z.to_nat v).
  rewrite in_seq. lia.
Qed.

Lemma nibbles_join v : is_byte v -> Z.lor (Z.shiftl (Z.shiftr v 4) 4) (Z.land v 15) = v.
Proof.
  unfold is_byte. intros Hv. change 15 with (Z.ones 4). rewrite Z.land_ones by lia.
  rewrite lor_shiftl_add by (try lia; apply Z.mod_pos_bound; lia).
  rewrite Z.shiftr_div_pow2 by lia. eval_pow. dlia.
Qed.

Lemma length_token_to_hex t : length (TokenToHex t) = (2 * length t)%nat.
Proof. induction t; simpl in *; [done|]. lia. Qed.

Lemma token_bytes_hex t : is_bytes t -> TokenBytes (TokenToHex t) = Some t.
Proof.
  induction 1 as [|v t Hv Ht IH]; [done|]. cbn [TokenToHex flat_map app TokenBytes].
  unfold is_byte in Hv. rewrite !nibble_hex.
  - replace ((Z.shiftr v 4 <? 0) || (Z.land v 15 <? 0)) with false.
    + change (flat_map _ t) with (TokenToHex t). rewrite IH. by rewrite nibbles_join.
    + rewrite Z.shiftr_div_pow2 by lia. change 15 with (Z.ones 4). rewrite Z.land_ones by lia.
      eval_pow. dlia.
  - change 15 with (Z.ones 4). rewrite Z.land_ones by lia. apply Z.mod_pos_bound. lia.
  - rewrite Z.shiftr_div_pow2 by lia. eval_pow. dlia.
Qed.

Lemma token_bytes_inv n text t :
  length text = (2 * n)%nat -> is_bytes text -> TokenBytes text = Some t -> 
  is_bytes t /\ length t = n.
Proof.
  revert text t; induction n as [|n IH]; intros [|c1 [|c2 text]] t Hl Hb Ht; simpl in Hl; try lia.
  { injection Ht as <-. split; [constructor|done]. }
  cbn [TokenBytes] in Ht. case_if_in Ht; [done|].
  destruct (TokenBytes text) as [t'|] eqn:E'; [|done]. injection Ht as <-.
  unfold is_bytes in Hb. rewrite !Forall_cons in Hb. destruct Hb as (H1 & H2 & Hb).
  destruct (IH text t') as [Hb' Hl']; [lia|done|done|].
  split; [|simpl; lia]. constructor; [|done].
  assert (forall c, nibble c < 16) as Hn.
  { intros c. unfold nibble. eval_chars. case_ifs; lia. }
  pose proof (Hn c1). pose proof (Hn c2).
  rewrite lor_shiftl_add by (eval_pow; lia). unfold is_byte. eval_pow. lia.
Qed.

(** A session token survives its hexadecimal text: [TokenFromHex] gives back every token that
    [TokenToHex] printed, and whatever text it accepts (of either case) is 32 characters long and
    yields a 16-byte token, which printed and read again is the same. *)
Theorem token_hex_round_trip token :
  is_token token ->
  TokenFromHex (TokenToHex token) = Some token /\
  forall text t, is_bytes text -> TokenFromHex text = Some t ->
    len text = 32 /\ is_token t /\ TokenFromHex (TokenToHex t) = Some t.
Proof.
  assert (forall t, is_token t -> TokenFromHex (TokenToHex t) = Some t) as Hrt.
  { intros t [Hb Hl]. unfold TokenFromHex, len. rewrite length_token_to_hex, Hl. cbn.
    by apply token_bytes_hex. }
  intros Ht. split; [by apply Hrt|]. intros text t Hb H. unfold TokenFromHex in H.
  case_if_in H; [done|]. assert (is_token t) as Htok.
  { eapply token_bytes_inv; [|done|done]. unfold len, TokenSize in *. lia. }
  split_and!; [lia|apply Htok..|by apply Hrt].
Qed.

Lemma token_hex_round_trip_witness :
  TokenFromHex (TokenToHex (map Z.of_nat (seq 240 16))) = Some (map Z.of_nat (seq 240 16)).
Proof.
  apply (token_hex_round_trip (map Z.of_nat (seq 240 16))).
  split; [by apply bytesb_iff|reflexivity].
Defined.

(** ** Datagrams *)

(** A byte joined below a word: both come back. *)
Lemma sequence_step_shift v k :
  0 <= v <= UINT64_MAX -> 0 <= k ->
  SequenceStep (Z.shiftr v (k + 8)) (Z.land (Z.shiftr v k) 255) = Z.shiftr v k.
Proof.
  unfold UINT64_MAX. intros Hv Hk. unfold SequenceStep.
  rewrite <- Z.shiftr_shiftr by lia. set (w := Z.shiftr v k).
  assert (0 <= w <= v) as Hw.
  { unfold w. rewrite Z.shiftr_div_pow2 by lia. split.
    - apply Z.div_pos; lia.
    - apply Z.div_le_upper_bound; [lia|]. assert (1 <= 2 ^ k) by lia. nia. }
  rewrite land_255, (Z.shiftr_div_pow2 w 8), Z.shiftl_mul_pow2 by lia.
  unfold wrap64. rewrite Z.mod_small by (eval_pow; dlia).
  rewrite <- Z.shiftl_mul_pow2, lor_shiftl_add by (eval_pow; try lia; apply Z.mod_pos_bound; lia).
  eval_pow. dlia.
Qed.

Lemma sequence_round_trip v :
  0 <= v <= UINT64_MAX -> fold_left SequenceStep (SequenceBytes v) 0 = v.
Proof.
  intros Hv. unfold SequenceBytes. cbn [map seq fold_left Nat.sub].
  assert (0 = Z.shiftr v (56 + 8)) as H0.
  { rewrite Z.shiftr_div_pow2 by lia. rewrite Z.div_small; [done|]. unfold UINT64_MAX in Hv.
    eval_pow. lia. }
  rewrite H0 at 1.
  change (Z.of_nat 7 * 8) with 56. rewrite sequence_step_shift by (done || lia).
  change 56 with (48 + 8). change (Z.of_nat 6 * 8) with 48. rewrite sequence_step_shift by (done || lia).
  change 48 with (40 + 8). change (Z.of_nat 5 * 8) with 40. rewrite sequence_step_shift by (done || lia).
  change 40 with (32 + 8). change (Z.of_nat 4 * 8) with 32. rewrite sequence_step_shift by (done || lia).
  change 32 with (24 + 8). change (Z.of_nat 3 * 8) with 24. rewrite sequence_step_shift by (done || lia).
  change 24 with (16 + 8). change (Z.of_nat 2 * 8) with 16. rewrite sequence_step_shift by (done || lia).
  change 16 with (8 + 8). change (Z.of_nat 1 * 8) with 8. rewrite sequence_step_shift by (done || lia).
  change 8 with (0 + 8) at 1. change (Z.of_nat 0 * 8) with 0. rewrite sequence_step_shift by (done || lia).
  apply Z.shiftr_0_r.
Qed.

(** The bytes of a datagram. *)
Definition datagram_bytes (token : list Z) (sequence : Z) (payload : list Z) : list Z :=
  Magic ++ token ++ SequenceBytes sequence ++ payload.

(** Writes that follow one another from the front of a buffer. *)
Lemma write_at_next {A} n (filled src dst : list A) :
  n = length filled ->
  write_at n src (filled ++ drop n dst) = (filled ++ src) ++ drop (n + length src) dst.
Proof.
  intros ->. unfold write_at. rewrite take_app_length, drop_app_ge by lia.
  rewrite drop_drop, <- app_assoc. do 3 f_equal. lia.
Qed.

Lemma encode_datagram_bytes dst t q p :
  is_token t -> q <> 0 -> p <> [] -> len p <= MaximumPayloadBytes ->
  HeaderBytes + len p <= len dst ->
  Encode dst t q p =
    (HeaderBytes + len p, datagram_bytes t q p ++ drop (28 + length p) dst).
Proof.
  intros [Hb Hl] Hq Hp Hmax Hdst. unfold Encode.
  assert (0 < len p) by (destruct p; [done|unfold len; simpl; lia]).
  replace (_ || _) with false by lia. f_equal. unfold HeaderBytes.
  change (Z.to_nat 28) with 28%nat. unfold TokenSize in Hl.
  pose proof (write_at_next 0 [] Magic dst eq_refl) as H1. rewrite drop_0 in H1.
  cbn [app] in H1. rewrite H1. change (0 + length Magic)%nat with 4%nat.
  rewrite (write_at_next 4) by done. rewrite Hl.
  rewrite (write_at_next (4 + 16)) by (rewrite length_app, Hl; done).
  change (4 + 16 + length (SequenceBytes q))%nat with 28%nat.
  rewrite (write_at_next 28) by (rewrite !length_app, Hl; done).
  unfold datagram_bytes. by rewrite <- !app_assoc.
Qed.

Lemma decode_datagram_bytes t q p :
  is_token t -> 0 < q <= UINT64_MAX -> p <> [] -> len p <= MaximumPayloadBytes ->
  Decode (datagram_bytes t q p) = Some (MkPacket t q p).
Proof.
  intros [Hb Hl] Hq Hp Hmax. unfold Decode, datagram_bytes.
  assert (0 < len p) by (destruct p; [done|unfold len; simpl; lia]).
  assert (len (Magic ++ t ++ SequenceBytes q ++ p) = 28 + len p) as Hlen.
  { rewrite !len_app. unfold len at 2. rewrite Hl. change (len Magic) with 4.
    change (len (SequenceBytes q)) with 8. unfold TokenSize. lia. }
  rewrite Hlen. change (take 4 (Magic ++ _)) with Magic. rewrite bytes_eqb_refl.
  unfold MaximumPayloadBytes in Hmax. replace (_ || _) with false by (unfold HeaderBytes in *; lia).
  assert (slice 20 8 (Magic ++ t ++ SequenceBytes q ++ p) = SequenceBytes q) as ->.
  { unfold slice. rewrite app_assoc, drop_app_length' by (rewrite length_app, Hl; done).
    by rewrite take_app_length'. }
  rewrite sequence_round_trip by lia. replace (q =? 0) with false by lia. do 2 f_equal.
  - unfold slice. change (drop 4 (Magic ++ ?l)) with l. by rewrite take_app_length'.
  - unfold HeaderBytes. change (Z.to_nat 28) with 28%nat. rewrite !app_assoc.
    by rewrite drop_app_length' by (rewrite !length_app, Hl; done).
Qed.

Lemma sequence_step_inv s b :
  0 <= s < 2 ^ 56 -> is_byte b ->
  0 <= SequenceStep s b < 2 ^ 64 /\ SequenceStep s b = s * 256 + b.
Proof.
  unfold is_byte, SequenceStep, wrap64. intros Hs Hb.
  rewrite Z.shiftl_mul_pow2, Z.mod_small by (eval_pow; lia).
  rewrite <- Z.shiftl_mul_pow2, lor_shiftl_add by (eval_pow; lia). eval_pow. lia.
Qed.

(** The eight bytes of a gathered sequence number. *)
Lemma sequence_bytes_fold l :
  is_bytes l -> length l = 8%nat ->
  0 <= fold_left SequenceStep l 0 <= UINT64_MAX /\ SequenceBytes (fold_left SequenceStep l 0) = l.
Proof.
  intros Hb Hl.
  destruct l as [|b0 [|b1 [|b2 [|b3 [|b4 [|b5 [|b6 [|b7 [|]]]]]]]]]; try done. clear Hl.
  unfold is_bytes in Hb. rewrite !Forall_cons in Hb.
  destruct Hb as (H0 & H1 & H2 & H3 & H4 & H5 & H6 & H7 & _).
  assert (forall s b k, 0 <= s < 2 ^ k -> 0 <= k <= 56 -> is_byte b ->
    0 <= SequenceStep s b < 2 ^ (k + 8) /\ SequenceStep s b mod 256 = b /\ SequenceStep s b / 256 = s)
    as Hstep.
  { intros s b k Hs Hk Hb. assert (2 ^ k <= 2 ^ 56) by (apply Z.pow_le_mono_r; lia).
    destruct (sequence_step_inv s b) as [_ Heq]; [lia|done|]. rewrite Heq.
    unfold is_byte in Hb. rewrite Z.pow_add_r by lia. change (2 ^ 8) with 256.
    split_and!; [lia..|dlia|dlia]. }
  cbn [fold_left].
  set (s1 := SequenceStep 0 b0). set (s2 := SequenceStep s1 b1). set (s3 := SequenceStep s2 b2).
  set (s4 := SequenceStep s3 b3). set (s5 := SequenceStep s4 b4). set (s6 := SequenceStep s5 b5).
  set (s7 := SequenceStep s6 b6). set (s8 := SequenceStep s7 b7).
  destruct (Hstep 0 b0 0) as (R1 & M1 & D1); [lia|lia|done|]. fold s1 in R1, M1, D1.
  destruct (Hstep s1 b1 8) as (R2 & M2 & D2); [done|lia|done|]. fold s2 in R2, M2, D2.
  destruct (Hstep s2 b2 16) as (R3 & M3 & D3); [done|lia|done|]. fold s3 in R3, M3, D3.
  destruct (Hstep s3 b3 24) as (R4 & M4 & D4); [done|lia|done|]. fold s4 in R4, M4, D4.
  destruct (Hstep s4 b4 32) as (R5 & M5 & D5); [done|lia|done|]. fold s5 in R5, M5, D5.
  destruct (Hstep s5 b5 40) as (R6 & M6 & D6); [done|lia|done|]. fold s6 in R6, M6, D6.
  destruct (Hstep s6 b6 48) as (R7 & M7 & D7); [done|lia|done|]. fold s7 in R7, M7, D7.
  destruct (Hstep s7 b7 56) as (R8 & M8 & D8); [done|lia|done|]. fold s8 in R8, M8, D8.
  split; [unfold UINT64_MAX; change (2 ^ (56 + 8)) with 18446744073709551616 in R8; lia|].
  unfold SequenceBytes. cbn [map seq Nat.sub]. rewrite !land_255.
  assert (forall s t k, 0 <= k -> s / 256 = t -> Z.shiftr s (k + 8) = Z.shiftr t k) as Hsh.
  { intros s t k Hk <-. rewrite Z.add_comm, <- Z.shiftr_shiftr by lia.
    by rewrite (Z.shiftr_div_pow2 s 8). }
  change (Z.of_nat 7 * 8) with (0+8+8+8+8+8+8+8). change (Z.of_nat 6 * 8) with (0+8+8+8+8+8+8).
  change (Z.of_nat 5 * 8) with (0+8+8+8+8+8). change (Z.of_nat 4 * 8) with (0+8+8+8+8).
  change (Z.of_nat 3 * 8) with (0+8+8+8). change (Z.of_nat 2 * 8) with (0+8+8).
  change (Z.of_nat 1 * 8) with (0+8). change (Z.of_nat 0 * 8) with 0.
  rewrite !(Hsh s8 s7), !(Hsh s7 s6), !(Hsh s6 s5), !(Hsh s5 s4), !(Hsh s4 s3), !(Hsh s3 s2),
    (Hsh s2 s1) by (done || lia).
  rewrite !Z.shiftr_0_r. congruence.
Qed.

(** The datagram codec is a bijection between packets (a 16-byte token, a nonzero 64-bit
    sequence and 1..1172 payload bytes) and the datagrams [Decode] accepts: [Encode] writes exactly
    the packet's bytes at the front of a destination that holds them and leaves the rest, [Decode]
    of those bytes gives the packet back, and a decoded packet encodes to the datagram it came
    from. *)
Theorem datagram_bijection dst datagram t q p :
  is_bytes datagram -> len dst = len datagram ->
  is_token t -> 0 <= q <= UINT64_MAX ->
  (Encode dst t q p = (len datagram, datagram) /\ datagram <> [] <->
   Decode datagram = Some (MkPacket t q p)).
Proof.
  intros Hb Hdst Ht Hq. split.
  - intros [He Hne]. pose proof He as He'. unfold Encode in He'. case_if_in He'.
    { injection He' as H0 _. destruct datagram; [done|]. unfold len in H0. simpl in H0. lia. }
    clear He'. assert (p <> []) as Hp by (intros ->; change (len (@nil Z)) with 0 in E; lia).
    rewrite encode_datagram_bytes in He by (done || lia).
    injection He as Hlen Hd. rewrite drop_ge in Hd.
    + rewrite app_nil_r in Hd. rewrite <- Hd. apply decode_datagram_bytes; (done || lia).
    + unfold HeaderBytes, len in *. lia.
  - intros Hd. pose proof Hd as Hd'. unfold Decode in Hd'. case_if_in Hd'; [done|].
    case_if_in Hd'; [done|]. injection Hd' as Et Eq Ep.
    unfold HeaderBytes, MaximumDatagramBytes in E. change (Z.to_nat HeaderBytes) with 28%nat in Ep.
    assert (length datagram > 28)%nat by (unfold len in *; lia).
    assert (take 4 datagram = Magic) as Em by (apply bytes_eqb_eq; lia).
    destruct (sequence_bytes_fold (slice 20 8 datagram)) as [_ Hsb];
      [by apply is_bytes_slice|apply length_slice; lia|]. rewrite Eq in Hsb.
    assert (datagram = datagram_bytes t q p) as Hdd.
    { unfold datagram_bytes. rewrite <- Em, <- Et, Hsb, <- Ep. unfold slice, TokenSize.
      rewrite <- (take_drop 4 datagram) at 1. f_equal.
      rewrite <- (take_drop 16 (drop 4 datagram)) at 1. f_equal. rewrite drop_drop.
      rewrite <- (take_drop 8 (drop (4 + 16) datagram)) at 1. f_equal. by rewrite drop_drop. }
    assert (len p = len datagram - 28) as Hlp by (rewrite <- Ep; unfold len; rewrite length_drop; lia).
    split; [|destruct datagram; [simpl in *; lia|done]].
    rewrite encode_datagram_bytes; [|done|lia| | |].
    + rewrite <- Hdd, drop_ge, app_nil_r by (unfold len in *; lia). f_equal.
      unfold HeaderBytes. lia.
    + intros ->. change (len (@nil Z)) with 0 in Hlp. lia.
    + unfold MaximumPayloadBytes, MaximumDatagramBytes, HeaderBytes. lia.
    + unfold HeaderBytes. lia.
Qed.

Definition sample_datagram : list Z :=
  datagram_bytes (map Z.of_nat (seq 0 16)) 72623859790382856 [104; 105].

Lemma datagram_bijection_witness :
  Decode sample_datagram = Some (MkPacket (map Z.of_nat (seq 0 16)) 72623859790382856 [104; 105]).
Proof.
  apply (datagram_bijection (repeat 0 30) sample_datagram).
  - by apply bytesb_iff.
  - reflexivity.
  - split; [by apply bytesb_iff|reflexivity].
  - unfold UINT64_MAX. lia.
  - split; [reflexivity|discriminate].
Defined.
