(* ===== verification/JobQueue.v ===== *)
(** * Core: the job queue.

    [Core/JobQueue.h|cpp].  A job is named by an element of [Job]; running it may post further jobs
    to the same queue, or throw.  [std::list<Job>] is the list of jobs in order.  Posting and
    swapping the batch out are atomic under [mMutex]; the jobs of a batch run outside it, so that
    posts of other threads fall between them. *)

From S2P Require Import Prelude CoreError.

Module JobQueue.

Section JobQueue.

Context {Job : Type}.

Record JobQueue : Type := MkQueue { mJobs : list Job }.

Definition New : JobQueue := MkQueue [].

(** What goes wrong while the node is built and the mutex taken: nothing, [std::bad_alloc], or
    [std::system_error] (whose text may itself fail to be copied). *)
Inductive PostOutcome : Type :=
| Posted
| PostBadAlloc
| PostSystemError (what : option string).

(** An empty [std::function] is [None]. *)
Definition Post (outcome : PostOutcome) (job : option Job) (q : JobQueue) : Status * JobQueue :=
  match job with
  | None => (Status.Fail InvalidArgument "JobQueue cannot post an empty job", q)
  | Some job =>
      match outcome with
      | Posted => (Status.Ok, MkQueue (mJobs q ++ [job]))
      | PostBadAlloc => (Status.AllocationFailure, q)
      | PostSystemError (Some what) => (Status.Fail PlatformError what, q)
      | PostSystemError None => (Status.AllocationFailure, q)
      end
  end.

Definition PendingCount (q : JobQueue) : Z := len (mJobs q).

(** The jobs posted while a job runs, by it or by other threads, with their outcomes; [None] when
    the job throws. *)
Variable run : Job -> option (list (PostOutcome * option Job)).

Definition PostAll (posts : list (PostOutcome * option Job)) (q : JobQueue) : JobQueue :=
  fold_left (fun q p => (Post p.1 p.2 q).2) posts q.

(** The loop over the batch; [None]: [ReportAssertFailure] ended the process. *)
Fixpoint RunBatch (pending : list Job) (q : JobQueue) : option JobQueue :=
  match pending with
  | [] => Some q
  | job :: pending' =>
      match run job with
      | None => None
      | Some posts => RunBatch pending' (PostAll posts q)
      end
  end.

Definition DrainOnce (q : JobQueue) : option (Z * JobQueue) :=
  let pending := mJobs q in
  match RunBatch pending (MkQueue []) with
  | Some q' => Some (len pending, q')
  | None => None
  end.

End JobQueue.

End JobQueue.

Import JobQueue.

Section Fifo.

Context {Job : Type} (run : Job -> option (list (PostOutcome * option Job))).

(** The jobs of a list of posts that enter the queue. *)
Definition accepted (posts : list (@PostOutcome * option Job)) : list Job :=
  omap (fun p => match p with (Posted, Some job) => Some job | _ => None end) posts.

(** What a thread does with a queue. *)
Inductive QueueOp : Type :=
| OpPost (outcome : PostOutcome) (job : option Job)
| OpDrain.

(** A run of operations, with every accepted job in the order of acceptance and every executed job
    in the order of execution. *)
Record Trace : Type := MkTrace { queue : @JobQueue Job; posted : list Job; executed : list Job }.

Definition batch_posts (batch : list Job) : list Job :=
  flat_map (fun job => match run job with Some posts => accepted posts | None => [] end) batch.

Definition queue_step (op : QueueOp) (t : Trace) : option Trace :=
  match op with
  | OpPost outcome job =>
      Some (MkTrace (Post outcome job (queue t)).2 (posted t ++ accepted [(outcome, job)])
              (executed t))
  | OpDrain =>
      match DrainOnce run (queue t) with
      | Some (n, q') =>
          Some (MkTrace q' (posted t ++ batch_posts (mJobs (queue t)))
                  (executed t ++ take (Z.to_nat n) (mJobs (queue t))))
      | None => None
      end
  end.

Fixpoint queue_run (ops : list QueueOp) (t : Trace) : option Trace :=
  match ops with
  | [] => Some t
  | op :: ops' => match queue_step op t with Some t' => queue_run ops' t' | None => None end
  end.

Lemma post_all_jobs posts q : mJobs (PostAll posts q) = mJobs q ++ accepted posts.
Proof.
  revert q; induction posts as [|[outcome job] posts IH]; intros q; cbn [PostAll fold_left].
  { by rewrite app_nil_r. }
  change (fold_left _ posts ?q) with (PostAll posts q). rewrite IH.
  destruct job as [job|], outcome as [| |[]]; cbn; by rewrite <- ?app_assoc.
Qed.

Lemma run_batch_jobs batch q q' :
  RunBatch run batch q = Some q' -> mJobs q' = mJobs q ++ batch_posts batch.
Proof.
  revert q; induction batch as [|job batch IH]; intros q; cbn [RunBatch batch_posts flat_map].
  { intros H. injection H as <-. by rewrite app_nil_r. }
  destruct (run job) as [posts|]; [|done]. intros H%IH. rewrite H, post_all_jobs.
  by rewrite <- app_assoc.
Qed.

Lemma queue_step_fifo op t t' :
  executed t ++ mJobs (queue t) = posted t -> queue_step op t = Some t' ->
  executed t' ++ mJobs (queue t') = posted t'.
Proof.
  intros Ht. destruct op as [outcome job|]; cbn [queue_step].
  - intros H. injection H as <-. cbn [executed queue posted]. rewrite <- Ht, <- app_assoc. f_equal.
    destruct job as [job|], outcome as [| |[]]; cbn; by rewrite ?app_nil_r.
  - unfold DrainOnce. destruct (RunBatch run (mJobs (queue t)) (MkQueue [])) as [q'|] eqn:E; [|done].
    intros H. injection H as <-. cbn [executed queue posted].
    rewrite (run_batch_jobs _ _ _ E). cbn [mJobs app]. rewrite <- Ht, take_ge.
    + done.
    + unfold len. lia.
Qed.

(** The queue is first-in first-out and loses nothing: after any sequence of posts and drains
    that no throwing job ends, the jobs executed so far followed by the jobs still pending are
    exactly the jobs accepted so far, in the order of acceptance; a drain executes just the batch
    that was pending when it started, so that what a job posts waits for the next drain. *)
Theorem job_queue_fifo ops t :
  queue_run ops (MkTrace New [] []) = Some t ->
  executed t ++ mJobs (queue t) = posted t /\
  forall n q', DrainOnce run (queue t) = Some (n, q') ->
    n = PendingCount (queue t) /\ mJobs q' = batch_posts (mJobs (queue t)).
Proof.
  intros H. split.
  - assert (forall ops t0, executed t0 ++ mJobs (queue t0) = posted t0 ->
      queue_run ops t0 = Some t -> executed t ++ mJobs (queue t) = posted t) as Hind; [|by apply (Hind ops (MkTrace New [] []))].
    clear ops H. induction ops as [|op ops IH]; intros t0 Ht0; cbn [queue_run].
    + intros H. by injection H as <-.
    + destruct (queue_step op t0) as [t1|] eqn:E; [|done]. apply IH. by apply (queue_step_fifo op t0).
  - intros n q' Hd. unfold DrainOnce in Hd.
    destruct (RunBatch run _ _) as [q1|] eqn:E; [|done]. injection Hd as <- <-.
    split; [done|]. by rewrite (run_batch_jobs _ _ _ E).
Qed.

End Fifo.

(** Job 1 posts job 3 (accepted) and an empty job (refused); the other jobs post nothing. *)
Definition sample_run (job : Z) : option (list (PostOutcome * option Z)) :=
  Some (if job =? 1 then [(Posted, Some 3); (Posted, None)] else []).

Lemma job_queue_fifo_witness : exists t,
  queue_run sample_run [OpPost Posted (Some 1); OpPost Posted (Some 2); OpDrain]
    (MkTrace New [] []) = Some t /\
  executed t ++ mJobs (queue t) = [1; 2; 3] /\ executed t = [1; 2].
Proof.
  destruct (queue_run sample_run [OpPost Posted (Some 1); OpPost Posted (Some 2); OpDrain]
    (MkTrace New [] [])) as [t|] eqn:E; [|discriminate].
  exists t. split; [reflexivity|].
  destruct (job_queue_fifo sample_run
    [OpPost Posted (Some 1); OpPost Posted (Some 2); OpDrain] t E) as [H _].
  rewrite H. vm_compute in E. injection E as <-. split; reflexivity.
Defined.
