(* ===== verification/Completion.v ===== *)
(** * Core: one-shot completions.

    [Core/CompletionSubscription.h|cpp].  [State] is the shared state of one subscription.  Its two
    operations take the mutex more than once: [Complete] claims the callback, runs it outside the
    lock and publishes that it has returned; [Reset] discards the callback and then waits for a
    running one.  Each critical section is a function on the state, and [completion_step]
    interleaves the sections of any number of threads.  [Sources] is the view of the components
    that hold weak ends of many subscriptions ([Channel.v], [SendQueue.v]): a source is pending,
    has been delivered a code, or is gone. *)

From S2P Require Import Prelude CoreError.
From stdpp Require Import gmap.
#[local] Open Scope Z_scope.

Module Completion.

(** [mThread] is [None] for the default [std::thread::id]. *)
Record State : Type := MkState {
  mCallback : bool; (* whether the callback is still owned *)
  mDone : bool;
  mInvoking : bool;
  mThread : option Z
}.

Definition Create (hasCallback alloc : bool) : Result State :=
  if negb hasCallback then FromStatus (Status.FailWithoutMessage InvalidArgument)
  else if negb alloc then FromStatus Status.AllocationFailure
  else FromValue (MkState true false false None).

(** The first critical section of [Complete]: [true] when this call runs the callback. *)
Definition CompleteClaim (thread : Z) (st : State) : bool * State :=
  if mDone st then (false, st) else (true, MkState false true true (Some thread)).

(** The second one, after the callback. *)
Definition CompleteReturn (st : State) : State :=
  MkState (mCallback st) (mDone st) false None.

(** The status the callback receives. *)
Definition CompletionStatus (code : ErrorCode) : Status :=
  if bool_decide (code = ErrorCode_Ok) then Status.Ok else Status.FailWithoutMessage code.

(** The critical section of [Reset] up to the wait. *)
Definition ResetDiscard (st : State) : State :=
  MkState false true (mInvoking st) (mThread st).

(** Whether [Reset] has to wait for a running callback. *)
Definition ResetWaits (thread : Z) (st : State) : bool :=
  negb (bool_decide (mThread st = Some thread)).

Definition IsPending (st : State) : bool := negb (mDone st).

(** ** Sources, as their holders see them *)

(** [None]: pending; [Some code]: delivered.  A source that is not in the map is expired. *)
Notation Sources := (gmap Z (option ErrorCode)).

(** [CompletionSource::IsPending]; an empty source is [None]. *)
Definition SourceIsPending (s : Sources) (source : option Z) : bool :=
  match source with
  | Some ref => match s !! ref with Some None => true | _ => false end
  | None => false
  end.

(** [CompletionSource::Complete]: the first completion of a living source wins. *)
Definition SourceComplete (source : option Z) (code : ErrorCode) (s : Sources) : Sources :=
  match source with
  | Some ref => match s !! ref with Some None => <[ref := Some code]> s | _ => s end
  | None => s
  end.

(** [CompletionSubscription::BindCancellation]: a token that is already stopped completes inline. *)
Definition BindCancellation (source : Z) (stopped : bool) (s : Sources) : Sources :=
  if stopped then SourceComplete (Some source) Cancelled s else s.

End Completion.

Import Completion.

(** ** Interleavings *)

(** A subscription with the threads inside its operations: who runs the callback, with which code,
    what has been delivered, and which resets have returned. *)
Record Shared : Type := MkShared {
  cell : State;
  running : option (Z * ErrorCode);
  delivered : list Status;
  waiting : gmap Z bool; (* threads inside [Reset], whether each decided to wait *)
  returned : list Z
}.

Definition shared_start : Shared := MkShared (MkState true false false None) None [] ∅ [].

Inductive completion_step (c : Shared) : Shared -> Prop :=
| Step_Claim t code st' :
    CompleteClaim t (cell c) = (true, st') ->
    completion_step c (MkShared st' (Some (t, code)) (delivered c ++ [CompletionStatus code])
      (waiting c) (returned c))
| Step_ClaimFails t st' :
    CompleteClaim t (cell c) = (false, st') ->
    completion_step c (MkShared st' (running c) (delivered c) (waiting c) (returned c))
| Step_CallbackReturns t code :
    running c = Some (t, code) -> waiting c !! t = None ->
    completion_step c (MkShared (CompleteReturn (cell c)) None (delivered c) (waiting c) (returned c))
| Step_ResetBegins t :
    waiting c !! t = None ->
    completion_step c (MkShared (ResetDiscard (cell c)) (running c) (delivered c)
      (<[t := ResetWaits t (cell c)]> (waiting c)) (returned c))
| Step_ResetReturns t waits :
    waiting c !! t = Some waits -> (waits = true -> mInvoking (cell c) = false) ->
    completion_step c (MkShared (cell c) (running c) (delivered c)
      (delete t (waiting c)) (t :: returned c)).

(** The callback is owned while pending, running while [mInvoking], delivered at most once. *)
Record shared_ok (c : Shared) : Prop := MkSharedOk {
  ok_callback : mCallback (cell c) = negb (mDone (cell c)) \/
                (mCallback (cell c) = false /\ mDone (cell c) = true);
  ok_running : match running c with
    | Some (t, _) => mInvoking (cell c) = true /\ mThread (cell c) = Some t /\ mDone (cell c) = true
    | None => mInvoking (cell c) = false /\ mThread (cell c) = None
    end;
  ok_once : length (delivered c) = 0%nat \/ (length (delivered c) = 1%nat /\ mDone (cell c) = true);
  ok_waiting : forall t b, waiting c !! t = Some b -> mDone (cell c) = true /\
    (b = false -> match running c with Some (t', _) => t' = t | None => False end);
  ok_returned : forall t, t ∈ returned c -> mDone (cell c) = true
}.

Lemma shared_ok_start : shared_ok shared_start.
Proof.
  constructor; cbn; auto.
  - intros t b H. by rewrite lookup_empty in H.
  - intros t H. by apply elem_of_nil in H.
Qed.

Lemma shared_ok_step c c' : shared_ok c -> completion_step c c' -> shared_ok c'.
Proof.
  intros [Hcb Hrun Honce Hwait Hret] Hstep.
  destruct Hstep as [t code st' Hc|t st' Hc|t code Hr Hw|t Hw|t waits Hw Hi].
  - unfold CompleteClaim in Hc. destruct (mDone (cell c)) eqn:Ed; [done|]. injection Hc as <-.
    constructor; cbn; auto.
    + right. rewrite length_app. cbn. destruct Honce as [->|[_ ?]]; [lia|done].
    + intros t' b Hb. destruct (Hwait t' b Hb). done.
  - unfold CompleteClaim in Hc. destruct (mDone (cell c)) eqn:Ed; [|done]. injection Hc as <-.
    by constructor; cbn [cell running delivered waiting returned]; rewrite ?Ed.
  - rewrite Hr in *. destruct Hrun as (Hi & Ht & Hd). constructor; cbn; auto.
    intros t' b Hb. destruct (Hwait t' b Hb) as [H1 H2]. split; [done|].
    intros Hf. specialize (H2 Hf). subst. by rewrite Hw in Hb.
  - constructor; cbn; auto.
    + by destruct (running c) as [[t' code]|]; naive_solver.
    + naive_solver.
    + intros t' b Hb. split; [done|]. apply lookup_insert_Some in Hb as [[<- <-]|[_ Hb]].
      * unfold ResetWaits. rewrite negb_false_iff, bool_decide_eq_true. intros Hth.
        destruct (running c) as [[t' code]|]; destruct Hrun as (_ & Hrun); [|congruence].
        destruct Hrun as [Hrun _]. congruence.
      * by apply Hwait.
  - assert (mDone (cell c) = true) as Hd by (by destruct (Hwait t waits Hw)).
    constructor; cbn; auto. intros t' b Hb. apply lookup_delete_Some in Hb as [_ Hb].
    by apply Hwait.
Qed.

Lemma shared_ok_steps c : rtc completion_step shared_start c -> shared_ok c.
Proof.
  assert (forall d, shared_ok d -> rtc completion_step d c -> shared_ok c) as H.
  { induction 2; eauto using shared_ok_step. }
  apply H, shared_ok_start.
Qed.

Lemma returned_stays c c' t :
  rtc completion_step c c' -> t ∈ returned c -> t ∈ returned c'.
Proof.
  induction 1 as [c|c d c' Hstep _ IH]; [done|]. intros Ht. apply IH.
  destruct Hstep; cbn; try done. by right.
Qed.

Lemma done_delivers_no_more c c' :
  mDone (cell c) = true -> rtc completion_step c c' ->
  delivered c' = delivered c /\ (running c = None -> running c' = None).
Proof.
  intros Hd Hsteps. induction Hsteps as [c|c d c' Hstep Hsteps IH]; [done|].
  assert (mDone (cell d) = true /\ delivered d = delivered c /\ (running c = None -> running d = None))
    as (Hd' & Hdel & Hrun).
  { destruct Hstep as [t code st' Hc|t st' Hc|t code Hr Hw|t Hw|t waits Hw Hi]; cbn; try done.
    - unfold CompleteClaim in Hc. by rewrite Hd in Hc.
    - unfold CompleteClaim in Hc. rewrite Hd in Hc. by injection Hc as <-. }
  destruct (IH Hd') as [H1 H2]. split; [congruence|auto].
Qed.

(** C22. A completion delivers its callback at most once, and [Reset] quiesces it: in any
    interleaving of completing, cancelling and resetting threads, at most one status is ever
    delivered; when a reset by a thread other than the one inside the callback returns, no callback
    is running, and from then on none ever runs and nothing more is delivered. *)
Theorem completion_once_and_quiescent c c1 t waits :
  rtc completion_step shared_start c ->
  waiting c !! t = Some waits ->
  (forall code, running c <> Some (t, code)) ->
  completion_step c c1 -> returned c1 = t :: returned c ->
  (length (delivered c1) <= 1)%nat /\ running c1 = None /\
  forall c2, rtc completion_step c1 c2 -> running c2 = None /\ delivered c2 = delivered c1.
Proof.
  intros Hsteps Hw Hnot Hstep Hret. apply shared_ok_steps in Hsteps as Hok.
  pose proof (shared_ok_step c c1 Hok Hstep) as Hok1.
  assert (running c1 = None) as Hrun.
  { destruct Hstep as [t' code st' Hc|t' st' Hc|t' code Hr Hw'|t' Hw'|t' waits' Hw' Hi];
      cbn in Hret;
      try (exfalso; apply (f_equal length) in Hret; cbn in Hret; lia).
    injection Hret as ->. rewrite Hw' in Hw. injection Hw as ->. cbn.
    destruct (ok_waiting c Hok t waits Hw') as [_ Hf]. pose proof (ok_running c Hok) as Hr.
    destruct (running c) as [[t' code]|]; [|done]. exfalso. destruct waits.
    - destruct Hr as [Hr _]. rewrite Hi in Hr by done. done.
    - specialize (Hf eq_refl). subst. by apply (Hnot code). }
  assert (mDone (cell c1) = true) as Hd.
  { apply (ok_returned c1 Hok1 t). rewrite Hret. by left. }
  split_and!; [|done|].
  - destruct (ok_once c1 Hok1) as [H|[H _]]; lia.
  - intros c2 Hs. destruct (done_delivers_no_more c1 c2 Hd Hs). auto.
Qed.

(** Thread 1 completes while thread 2 resets: the reset waits for the callback. *)
Lemma completion_once_and_quiescent_witness : exists c1,
  running c1 = None /\ length (delivered c1) = 1%nat /\
  forall c2, rtc completion_step c1 c2 -> running c2 = None /\ delivered c2 = delivered c1.
Proof.
  set (c := MkShared (MkState false true false None) None [Status.Ok] {[2 := true]} []).
  set (c1 := MkShared (MkState false true false None) None [Status.Ok] ∅ [2]).
  exists c1. split_and!; [reflexivity|reflexivity|].
  eapply (completion_once_and_quiescent c c1 2 true).
  - eapply rtc_l; [apply (Step_Claim _ 1 ErrorCode_Ok); reflexivity|].
    eapply rtc_l; [apply (Step_ResetBegins _ 2); reflexivity|].
    eapply rtc_l; [apply (Step_CallbackReturns _ 1 ErrorCode_Ok); reflexivity|].
    apply rtc_refl.
  - reflexivity.
  - intros code. discriminate.
  - apply (Step_ResetReturns c 2 true); reflexivity.
  - reflexivity.
Defined.

(** ** Lemmas on sources *)

Lemma source_complete_pending source code s x :
  SourceIsPending (SourceComplete source code s) x = true ->
  SourceIsPending s x = true /\ (x <> source \/ source = None).
Proof.
  destruct x as [r|]; [|done]. destruct source as [ref|]; cbn [SourceComplete]; [|by auto].
  destruct (s !! ref) as [[c|]|] eqn:E; cbn [SourceIsPending]; intros H;
    try (split; [done|]; left; intros [= ->]; by rewrite E in H).
  destruct (decide (ref = r)) as [->|Hne].
  - by rewrite lookup_insert_eq in H.
  - rewrite lookup_insert_ne in H by done. split; [done|]. left. congruence.
Qed.

Lemma source_complete_not_pending source code s :
  SourceIsPending (SourceComplete source code s) source = false.
Proof.
  destruct (SourceIsPending (SourceComplete source code s) source) eqn:E; [|done].
  apply source_complete_pending in E as [H1 [H2| ->]]; done.
Qed.

Lemma bind_cancellation_pending source stopped s x :
  SourceIsPending (BindCancellation source stopped s) x = true -> SourceIsPending s x = true.
Proof.
  unfold BindCancellation. destruct stopped; [|done]. intros H.
  by apply source_complete_pending in H as [H _].
Qed.

#[export] Hint Resolve bind_cancellation_pending : sc.
