(* ===== verification/SessionRegistry.v ===== *)
(** * Session: the session registry and the process-wide session numbers.

    [Session/SessionRegistry.h|cpp].  [State] is the hidden state of one registry; a process has any
    number of registries that draw their numbers from one atomic counter.  Operations that hold
    their locks from the first access to the last are functions on the state; [IssueId], which
    first draws a number by compare-and-exchange and reserves it afterwards, is a sequence of steps
    that other threads' steps interleave with ([process_step]).  A failed [SERVERCORE_ASSERT] is
    [None]. *)

From S2P Require Import Prelude CoreError.
From stdpp Require Import gmap.
#[local] Open Scope Z_scope.

Module SessionRegistry.

(** A session is identified by its number; [object] tells two session objects apart. *)
Record Session : Type := MkSession { Id : Z; object : Z }.

(** [SessionId::Invalid] is 0. *)
Definition IsValid (id : Z) : bool := negb (id =? 0).

Record State : Type := MkState {
  sessions : gmap Z Session;
  issuedIds : gset Z;
  mutationThread : Z;
  isBound : bool
}.

Definition New : State := MkState ∅ ∅ 0 false.

Definition BindToCurrentThread (currentThread : Z) (st : State) : Status * State :=
  if negb (isBound st) then
    (Status.Ok, MkState (sessions st) (issuedIds st) currentThread true)
  else if mutationThread st =? currentThread then (Status.Ok, st)
  else (Status.Fail AlreadyExists "SessionRegistry is already bound to a different thread", st).

(** [RequireMutationThread]: whether both assertions hold. *)
Definition RequireMutationThread (currentThread : Z) (st : State) : bool :=
  isBound st && (mutationThread st =? currentThread).

(** The number after [current]; 0 marks the exhausted space. *)
Definition NextSessionId (current : Z) : Z :=
  if current =? UINT64_MAX then 0 else current + 1.

(** What becomes of a reservation's storage: it is made, [std::bad_alloc], another exception. *)
Inductive StoreOutcome : Type :=
| Stored
| StoreBadAlloc
| StoreException (what : string).

Definition ExhaustedStatus : Status :=
  Status.Fail TooLarge "the process has exhausted the SessionId space".

(** The part of [IssueId] after the exchange: the number [current] is reserved here. *)
Definition ReserveIssued (outcome : StoreOutcome) (current : Z) (st : State)
    : option (Result Z * State) :=
  match outcome with
  | Stored =>
      if bool_decide (current ∈ issuedIds st) then None
      else Some (FromValue current,
        MkState (sessions st) ({[current]} ∪ issuedIds st) (mutationThread st) (isBound st))
  | StoreBadAlloc => Some (FromStatus Status.AllocationFailure, st)
  | StoreException what => Some (FromStatus (Status.Fail PlatformError what), st)
  end.

(** [IssueId] with no other thread in between: [gNextSessionId] is [counter]. *)
Definition IssueId (outcome : StoreOutcome) (counter : Z) (st : State)
    : option (Result Z * Z * State) :=
  if counter =? 0 then Some (FromStatus ExhaustedStatus, counter, st)
  else
    match ReserveIssued outcome counter st with
    | Some (r, st') => Some (r, NextSessionId counter, st')
    | None => None
    end.

Definition DiscardIssuedId (id : Z) (st : State) : Status * State :=
  if negb (IsValid id) then
    (Status.Fail InvalidArgument "SessionRegistry::DiscardIssuedId() was given SessionId::Invalid",
      st)
  else if bool_decide (id ∉ issuedIds st) then
    (Status.Fail InvalidArgument
      "SessionRegistry::DiscardIssuedId() was given a SessionId without a pending reservation", st)
  else
    (Status.Ok,
      MkState (sessions st) (issuedIds st ∖ {[id]}) (mutationThread st) (isBound st)).

Definition Register (currentThread : Z) (outcome : StoreOutcome) (session : option Session)
    (st : State) : option (Status * State) :=
  if negb (RequireMutationThread currentThread st) then None
  else
    Some match session with
    | None =>
        (Status.Fail InvalidArgument "SessionRegistry::Register() was given a null session", st)
    | Some session =>
        let id := Id session in
        if negb (IsValid id) then
          (Status.Fail InvalidArgument
            "SessionRegistry::Register() was given a session with SessionId::Invalid", st)
        else if bool_decide (is_Some (sessions st !! id)) then
          (Status.Fail AlreadyExists
            "SessionRegistry::Register() was given a SessionId that is already registered", st)
        else if bool_decide (id ∉ issuedIds st) then
          (Status.Fail InvalidArgument
            "SessionRegistry::Register() was given a SessionId not issued by this registry", st)
        else
          match outcome with
          | Stored =>
              (Status.Ok,
                MkState (<[id := session]> (sessions st)) (issuedIds st ∖ {[id]})
                  (mutationThread st) (isBound st))
          | StoreBadAlloc => (Status.AllocationFailure, st)
          | StoreException what => (Status.Fail PlatformError what, st)
          end
    end.

Definition Unregister (id : Z) (st : State) : Status * State :=
  if negb (IsValid id) then
    (Status.Fail InvalidArgument "SessionRegistry::Unregister() was given SessionId::Invalid", st)
  else
    match sessions st !! id with
    | None =>
        (Status.Fail NotFound "SessionRegistry::Unregister() could not find the SessionId", st)
    | Some removed =>
        (Status.Ok,
          MkState (delete id (sessions st)) (issuedIds st) (mutationThread st) (isBound st))
    end.

Definition Find (currentThread id : Z) (st : State) : option (option Session) :=
  if negb (RequireMutationThread currentThread st) then None
  else if negb (IsValid id) then Some None
  else Some (sessions st !! id).

Definition Count (currentThread : Z) (st : State) : option Z :=
  if negb (RequireMutationThread currentThread st) then None
  else Some (Z.of_nat (size (sessions st))).

(** [ForEach] copies the sessions (in the map's order) and then calls the visitor on each, outside
    the lock: the visitor acts on the whole world, this registry ([st]) included. *)
Definition Snapshot (st : State) : list Session := (map_to_list (sessions st)).*2.

Definition ForEach {W : Type} (alloc : bool) (currentThread : Z) (registry : W -> State)
    (visitor : option (Session -> W -> W)) (world : W) : option (Status * W) :=
  if negb (RequireMutationThread currentThread (registry world)) then None
  else
    match visitor with
    | None => None
    | Some visit =>
        if negb alloc then Some (Status.AllocationFailure, world)
        else
          let snapshot := Snapshot (registry world) in
          Some (Status.Ok, fold_left (fun w session => visit session w) snapshot world)
    end.

End SessionRegistry.

Import SessionRegistry.

(** ** The process: threads, registries and the counter *)

(** Where a thread is inside [IssueId] of the registry [r]. *)
Inductive IssuePoint : Type :=
| AtExchange (r : Z) (current : Z)
| AtReserve (r : Z) (current : Z).

Record Process : Type := MkProcess {
  gNextSessionId : Z;
  registries : gmap Z State;
  threads : gmap Z IssuePoint
}.

Definition set_registry (r : Z) (st : State) (p : Process) : Process :=
  MkProcess (gNextSessionId p) (<[r := st]> (registries p)) (threads p).

Definition set_thread (t : Z) (pc : option IssuePoint) (p : Process) : Process :=
  MkProcess (gNextSessionId p) (registries p)
    (match pc with Some pc => <[t := pc]> (threads p) | None => delete t (threads p) end).

(** The operations that are atomic under the registry's locks. *)
Inductive locked_step (st : State) : State -> Prop :=
| Locked_Bind t : locked_step st (BindToCurrentThread t st).2
| Locked_Discard id : locked_step st (DiscardIssuedId id st).2
| Locked_Register t outcome session s st' :
    Register t outcome session st = Some (s, st') -> locked_step st st'
| Locked_Unregister id : locked_step st (Unregister id st).2.

(** One step of one thread. *)
Inductive process_step (p : Process) : Process -> Prop :=
| Step_Create r : registries p !! r = None -> process_step p (set_registry r New p)
| Step_Locked r st st' :
    registries p !! r = Some st -> locked_step st st' -> process_step p (set_registry r st' p)
| Step_Load t r st : (* [gNextSessionId.load] *)
    threads p !! t = None -> registries p !! r = Some st ->
    process_step p (set_thread t (Some (AtExchange r (gNextSessionId p))) p)
| Step_Exhausted t r :
    threads p !! t = Some (AtExchange r 0) -> process_step p (set_thread t None p)
| Step_ExchangeFails t r current : (* another thread's value, or a spurious failure *)
    threads p !! t = Some (AtExchange r current) -> current <> 0 ->
    process_step p (set_thread t (Some (AtExchange r (gNextSessionId p))) p)
| Step_Exchange t r current :
    threads p !! t = Some (AtExchange r current) -> current <> 0 ->
    gNextSessionId p = current ->
    process_step p
      (MkProcess (NextSessionId current) (registries p)
        (<[t := AtReserve r current]> (threads p)))
| Step_Reserve t r current outcome st res st' :
    threads p !! t = Some (AtReserve r current) -> registries p !! r = Some st ->
    ReserveIssued outcome current st = Some (res, st') ->
    process_step p (set_thread t None (set_registry r st' p)).

Definition process_start : Process := MkProcess 1 ∅ ∅.

Definition reachable : Process -> Prop := rtc process_step process_start.

(** Who holds a session number: a thread between the exchange and the reservation, a registry's
    reservations, a registry's sessions. *)
Inductive Holder : Type :=
| HeldByThread (t : Z) (r : Z)
| HeldByReservation (r : Z)
| HeldBySession (r : Z).

Definition holds (p : Process) (h : Holder) (id : Z) : Prop :=
  match h with
  | HeldByThread t r => threads p !! t = Some (AtReserve r id)
  | HeldByReservation r => exists st, registries p !! r = Some st /\ id ∈ issuedIds st
  | HeldBySession r => exists st, registries p !! r = Some st /\ is_Some (sessions st !! id)
  end.

(** The numbers the counter has passed. *)
Definition drawn (p : Process) (id : Z) : Prop :=
  1 <= id <= UINT64_MAX /\ (gNextSessionId p = 0 \/ id < gNextSessionId p).

(** How a number comes to a holder: from the counter, from a thread that drew it for that registry,
    from that registry's reservations. *)
Definition comes_from (p : Process) (h : Holder) (id : Z) : Prop :=
  match h with
  | HeldByThread _ _ => ~ drawn p id
  | HeldByReservation r => exists t, holds p (HeldByThread t r) id
  | HeldBySession r => holds p (HeldByReservation r) id
  end.

Definition point_registry (pc : IssuePoint) : Z :=
  match pc with AtExchange r _ | AtReserve r _ => r end.

Record process_ok (p : Process) : Prop := MkProcessOk {
  ok_counter : 0 <= gNextSessionId p <= UINT64_MAX;
  ok_loaded : forall t r c, threads p !! t = Some (AtExchange r c) -> 0 <= c <= UINT64_MAX;
  ok_drawn : forall h id, holds p h id -> drawn p id;
  ok_unique : forall h h' id, holds p h id -> holds p h' id -> h = h';
  ok_registry : forall t pc, threads p !! t = Some pc -> is_Some (registries p !! point_registry pc);
  ok_keys : forall r st id s, registries p !! r = Some st -> sessions st !! id = Some s -> Id s = id
}.

(** ** One registry under its locks *)

(** A locked operation drops reservations and sessions, or turns one reservation into a session. *)
Inductive locked_effect (st st' : State) : Prop :=
| Effect_Drop :
    issuedIds st' ⊆ issuedIds st -> sessions st' ⊆ sessions st -> locked_effect st st'
| Effect_Register s :
    Id s ∈ issuedIds st -> issuedIds st' = issuedIds st ∖ {[Id s]} ->
    sessions st' = <[Id s := s]> (sessions st) -> locked_effect st st'.

Lemma register_ok t outcome session st s st' :
  Register t outcome session st = Some (s, st') ->
  st' = st \/ exists x, session = Some x /\ s = Status.Ok /\ outcome = Stored /\
    sessions st !! Id x = None /\ Id x ∈ issuedIds st /\ Id x <> 0 /\
    st' = MkState (<[Id x := x]> (sessions st)) (issuedIds st ∖ {[Id x]})
            (mutationThread st) (isBound st).
Proof.
  unfold Register. case_if; [done|]. intros H. injection H as H.
  destruct session as [x|]; [|injection H as <- <-; by left].
  destruct (IsValid (Id x)) eqn:Ev; cbn [negb] in H; [|injection H as <- <-; by left].
  case_bool_decide as Hs; [injection H as <- <-; by left|].
  case_bool_decide as Hi; [injection H as <- <-; by left|].
  destruct outcome; injection H as <- <-; [right|by left..].
  exists x. apply eq_None_not_Some in Hs. unfold IsValid in Ev.
  split_and!; try done; first [by apply dec_stable|lia].
Qed.

Lemma locked_step_effect st st' : locked_step st st' -> locked_effect st st'.
Proof.
  intros [t|id|t outcome session s st1 Hr|id].
  - apply Effect_Drop; unfold BindToCurrentThread; case_ifs; done.
  - apply Effect_Drop; unfold DiscardIssuedId; case_ifs; try done. cbn. set_solver.
  - apply register_ok in Hr as [->|(x & _ & _ & _ & Hn & Hi & _ & ->)]; [by apply Effect_Drop|].
    by apply (Effect_Register _ _ x).
  - apply Effect_Drop; unfold Unregister; case_if; try done; destruct (_ !! _); try done.
    apply delete_subseteq.
Qed.

Lemma locked_effect_issued st st' id :
  locked_effect st st' -> id ∈ issuedIds st' -> id ∈ issuedIds st.
Proof. intros [H _|s Hs -> _] Hid; set_solver. Qed.

Lemma locked_effect_session st st' id :
  locked_effect st st' -> is_Some (sessions st' !! id) ->
  is_Some (sessions st !! id) \/ (id ∈ issuedIds st /\ id ∉ issuedIds st').
Proof.
  intros [_ H|s Hs Hi ->] Hid.
  - left. destruct Hid as [x Hx]. exists x. by eapply lookup_weaken.
  - destruct (decide (id = Id s)) as [->|Hne]; [right; rewrite Hi; set_solver|].
    rewrite lookup_insert_ne in Hid by done. by left.
Qed.

(** ** The invariant *)

Lemma next_session_id_range c : 1 <= c <= UINT64_MAX ->
  0 <= NextSessionId c <= UINT64_MAX /\ (NextSessionId c = 0 /\ c = UINT64_MAX \/ NextSessionId c = c + 1).
Proof. unfold NextSessionId. intros H. case_if; lia. Qed.

Lemma drawn_exchange p c r t id :
  gNextSessionId p = c -> 1 <= c <= UINT64_MAX ->
  (drawn (MkProcess (NextSessionId c) r t) id <-> drawn p id \/ id = c).
Proof.
  intros Hc Hr. unfold drawn. cbn [gNextSessionId]. rewrite Hc.
  destruct (next_session_id_range c Hr) as [_ [[-> ->]| ->]]; lia.
Qed.

Lemma not_drawn_counter p : 1 <= gNextSessionId p -> ~ drawn p (gNextSessionId p).
Proof. unfold drawn. lia. Qed.

(** Holders are determined by the three components. *)
Lemma holds_set_registry r st st' p h id :
  registries p !! r = Some st ->
  holds (set_registry r st' p) h id ->
  match h with
  | HeldByThread _ _ => holds p h id
  | HeldByReservation r' => if decide (r' = r) then id ∈ issuedIds st' else holds p h id
  | HeldBySession r' => if decide (r' = r) then is_Some (sessions st' !! id) else holds p h id
  end.
Proof.
  intros Hr. destruct h as [t r'|r'|r']; cbn; [done|..]; intros (x & Hx & Hid);
    destruct (decide (r' = r)) as [->|Hne].
  1,3: by rewrite lookup_insert_eq in Hx; injection Hx as <-.
  all: rewrite lookup_insert_ne in Hx by done; eauto.
Qed.

Lemma holds_locked r st st' p h id :
  registries p !! r = Some st -> locked_effect st st' ->
  holds (set_registry r st' p) h id ->
  holds p h id \/
  (h = HeldBySession r /\ holds p (HeldByReservation r) id /\
   ~ holds (set_registry r st' p) (HeldByReservation r) id).
Proof.
  intros Hr He Hh. apply (holds_set_registry _ _ _ _ _ _ Hr) in Hh as Hh'.
  destruct h as [t r'|r'|r']; [by left|..]; (destruct (decide (r' = r)) as [->|Hne]; [|by left]).
  - left. exists st. eauto using locked_effect_issued.
  - apply (locked_effect_session st) in Hh' as [Hs|[Hi Hn]]; [left; by exists st| |done].
    right. split_and!; [done|by exists st|]. intros H.
    apply (holds_set_registry _ _ _ _ _ _ Hr) in H.
    cbv beta iota in H. by destruct (decide (r = r)).
Qed.

(** What one step can do to the holder of a number. *)
Lemma step_holds p p' h id :
  process_ok p -> process_step p p' -> holds p' h id -> holds p h id \/
  match h with
  | HeldByThread t _ => id = gNextSessionId p /\ 1 <= id /\ gNextSessionId p' = NextSessionId id
      /\ forall h', holds p' h' id -> h' = h
  | HeldByReservation r =>
      exists t, holds p (HeldByThread t r) id /\ ~ holds p' (HeldByThread t r) id
  | HeldBySession r => holds p (HeldByReservation r) id /\ ~ holds p' (HeldByReservation r) id
  end.
Proof.
  intros Hok Hstep Hh. destruct Hstep as [r Hr|r st st' Hr Hl|t r st Ht Hr|t r Ht|t r c Ht Hc
    |t r c Ht Hc Hg|t r c outcome st res st' Ht Hr Hres].
  - left. destruct h as [t r'|r'|r']; [done|..]; destruct Hh as (x & Hx & Hid); cbn in Hx;
      (destruct (decide (r' = r)) as [->|Hne];
       [rewrite lookup_insert_eq in Hx; injection Hx as <-|
        rewrite lookup_insert_ne in Hx by done; by exists x]); cbn in Hid.
    + set_solver.
    + rewrite lookup_empty in Hid. by destruct Hid.
  - apply locked_step_effect in Hl.
    destruct (holds_locked r st st' p h id Hr Hl Hh) as [H|(-> & H1 & H2)]; [by left|by right].
  - left. destruct h as [t' r'|r'|r']; [|done..]. cbn in Hh |- *.
    destruct (decide (t' = t)) as [->|]; [by rewrite lookup_insert_eq in Hh|
      by rewrite lookup_insert_ne in Hh].
  - left. destruct h as [t' r'|r'|r']; [|done..]. cbn in Hh |- *.
    apply lookup_delete_Some in Hh. by destruct Hh.
  - left. destruct h as [t' r'|r'|r']; [|done..]. cbn in Hh |- *.
    destruct (decide (t' = t)) as [->|]; [by rewrite lookup_insert_eq in Hh|
      by rewrite lookup_insert_ne in Hh].
  - destruct h as [t' r'|r'|r']; [|by left..]. cbn in Hh |- *.
    destruct (decide (t' = t)) as [->|]; [|left; by rewrite lookup_insert_ne in Hh].
    rewrite lookup_insert_eq in Hh. injection Hh as <- <-.
    pose proof (ok_loaded p Hok _ _ _ Ht).
    right. split_and!; [done|lia|done|]. intros h' Hh'.
    assert (~ drawn p c) as Hnd by (rewrite <- Hg; apply not_drawn_counter; lia).
    destruct h' as [t' r'|r'|r']; 
      [|exfalso; by apply Hnd, (ok_drawn p Hok (HeldByReservation r'))
       |exfalso; by apply Hnd, (ok_drawn p Hok (HeldBySession r'))].
    cbn in Hh'. destruct (decide (t' = t)) as [->|].
    + rewrite lookup_insert_eq in Hh'. by injection Hh' as ->.
    + rewrite lookup_insert_ne in Hh' by done. exfalso. apply Hnd.
      by apply (ok_drawn p Hok (HeldByThread t' r') c).
  - assert (issuedIds st' ⊆ {[c]} ∪ issuedIds st /\ sessions st' = sessions st) as [Hi Hs].
    { destruct outcome; cbn in Hres; [case_if_in Hres; [done|]|..]; injection Hres as _ <-;
        split; try done; set_solver. }
    destruct h as [t' r'|r'|r'].
    + left. cbn in Hh |- *. apply lookup_delete_Some in Hh. by destruct Hh.
    + change (holds (set_registry r st' p) (HeldByReservation r') id) in Hh.
      apply (holds_set_registry _ _ _ _ _ _ Hr) in Hh. cbv beta iota in Hh.
      destruct (decide (r' = r)) as [->|]; [|by left]. apply Hi in Hh.
      apply elem_of_union in Hh as [->%elem_of_singleton|Hh]; [|left; by exists st].
      right. exists t. split; [done|]. cbn. by rewrite lookup_delete_eq.
    + change (holds (set_registry r st' p) (HeldBySession r') id) in Hh.
      apply (holds_set_registry _ _ _ _ _ _ Hr) in Hh. cbv beta iota in Hh.
      destruct (decide (r' = r)) as [->|]; [|by left]. left. rewrite Hs in Hh. by exists st.
Qed.

Lemma step_counter p p' :
  process_ok p -> process_step p p' ->
  0 <= gNextSessionId p' <= UINT64_MAX /\ (forall id, drawn p id -> drawn p' id).
Proof.
  intros Hok Hstep. pose proof (ok_counter p Hok) as Hc.
  destruct Hstep as [| | | | |t r c Ht Hc0 Hg|]; try done. cbn [gNextSessionId].
  rewrite Hg in Hc. destruct (next_session_id_range c ltac:(lia)) as [H _].
  split; [done|]. intros id Hid. rewrite (drawn_exchange p c) by (done || lia). by left.
Qed.

Lemma step_drawn p p' h id :
  process_ok p -> process_step p p' -> holds p' h id -> drawn p' id.
Proof.
  intros Hok Hstep Hh. destruct (step_counter p p' Hok Hstep) as [Hc' Hmono].
  destruct (step_holds p p' h id Hok Hstep Hh) as [H|H].
  - apply Hmono. by apply (ok_drawn p Hok h).
  - destruct h as [t r|r|r].
    + destruct H as (-> & H1 & Hn & _). pose proof (ok_counter p Hok). unfold drawn. split; [lia|].
      rewrite Hn. destruct (next_session_id_range (gNextSessionId p) ltac:(lia)) as [_ [[-> _]| ->]]; lia.
    + destruct H as (t & H & _). apply Hmono. by apply (ok_drawn p Hok _ _ H).
    + destruct H as [H _]. apply Hmono. by apply (ok_drawn p Hok _ _ H).
Qed.

Lemma step_unique p p' h h' id :
  process_ok p -> process_step p p' -> holds p' h id -> holds p' h' id -> h = h'.
Proof.
  intros Hok Hstep H1 H2.
  pose proof (ok_unique p Hok) as Hu. pose proof (not_drawn_counter p) as Hnd.
  assert (forall g, 1 <= id -> id = gNextSessionId p -> ~ holds p g id) as Hfresh.
  { intros g Hg -> Hg'. apply Hnd; [done|]. by apply (ok_drawn p Hok g). }
  destruct (step_holds p p' h id Hok Hstep H1) as [O1|O1];
    destruct (step_holds p p' h' id Hok Hstep H2) as [O2|O2]; [by apply (Hu _ _ id)|..].
  - destruct h' as [t r|r|r].
    + destruct O2 as (_ & _ & _ & O2). by apply O2.
    + destruct O2 as (t & O2 & Hn). by rewrite (Hu _ _ _ O1 O2) in H1.
    + destruct O2 as (O2 & Hn). by rewrite (Hu _ _ _ O1 O2) in H1.
  - destruct h as [t r|r|r].
    + destruct O1 as (_ & _ & _ & O1). symmetry. by apply O1.
    + destruct O1 as (t & O1 & Hn). by rewrite (Hu _ _ _ O2 O1) in H2.
    + destruct O1 as (O1 & Hn). by rewrite (Hu _ _ _ O2 O1) in H2.
  - destruct h as [t r|r|r], h' as [t' r'|r'|r'];
      try (destruct O1 as (_ & _ & _ & O1); symmetry; by apply O1);
      try (destruct O2 as (_ & _ & _ & O2); by apply O2).
    + destruct O1 as (t1 & O1 & _), O2 as (t2 & O2 & _). pose proof (Hu _ _ _ O1 O2). congruence.
    + destruct O1 as (t1 & O1 & _), O2 as (O2 & _). by pose proof (Hu _ _ _ O1 O2).
    + destruct O1 as (O1 & _), O2 as (t2 & O2 & _). by pose proof (Hu _ _ _ O1 O2).
    + destruct O1 as (O1 & _), O2 as (O2 & _). pose proof (Hu _ _ _ O1 O2). congruence.
Qed.

(** A thread's point after a step: unchanged, or the step's own. *)
Lemma step_thread p p' t pc :
  process_step p p' -> threads p' !! t = Some pc ->
  threads p !! t = Some pc \/
  (is_Some (registries p !! point_registry pc) /\ pc = AtExchange (point_registry pc) (gNextSessionId p)) \/
  (exists pc', threads p !! t = Some pc' /\ point_registry pc' = point_registry pc /\
    (pc = AtExchange (point_registry pc) (gNextSessionId p) \/
     exists c, pc = AtReserve (point_registry pc) c)).
Proof.
  intros Hstep Ht.
  destruct Hstep as [r Hr|r st st' Hr Hl|t' r st Ht' Hr|t' r Ht'|t' r c Ht' Hc
    |t' r c Ht' Hc Hg|t' r c outcome st res st' Ht' Hr Hres]; cbn in Ht; auto;
    try (apply lookup_delete_Some in Ht as [_ Ht]; by auto);
    (destruct (decide (t = t')) as [->|];
     [rewrite lookup_insert_eq in Ht; injection Ht as <-|rewrite lookup_insert_ne in Ht by done; auto]).
  - right; left. cbn. eauto.
  - right; right. eauto.
  - right; right. eexists. split_and!; [done|done|]. right. by exists c.
Qed.

Lemma step_registries p p' r :
  process_step p p' -> is_Some (registries p !! r) -> is_Some (registries p' !! r).
Proof.
  intros Hstep Hr. destruct Hstep; cbn; try done; apply lookup_insert_is_Some;
    match goal with |- ?x = r \/ _ => destruct (decide (x = r)); auto end.
Qed.

Lemma step_keys p p' r st id s :
  process_ok p -> process_step p p' ->
  registries p' !! r = Some st -> sessions st !! id = Some s -> Id s = id.
Proof.
  intros Hok Hstep Hr Hs. pose proof (ok_keys p Hok) as Hk.
  assert (forall r' st1 st', registries p !! r' = Some st1 ->
    (forall i x, sessions st' !! i = Some x -> sessions st1 !! i = Some x \/ Id x = i) ->
    <[r' := st']> (registries p) !! r = Some st -> Id s = id) as Hins.
  { intros r' st1 st' H1 Hx Hl. destruct (decide (r = r')) as [->|].
    - rewrite lookup_insert_eq in Hl. injection Hl as ->.
      destruct (Hx id s Hs) as [H|]; [by apply (Hk r' st1)|done].
    - rewrite lookup_insert_ne in Hl by done. by apply (Hk r st). }
  destruct Hstep as [r' Hr'|r' st1 st' Hr' Hl| | | | |t r' c outcome st1 res st' Ht Hr' Hres];
    cbn in Hr; eauto.
  - destruct (decide (r = r')) as [->|]; [|rewrite lookup_insert_ne in Hr by done; eauto].
    rewrite lookup_insert_eq in Hr. injection Hr as <-. cbn in Hs. by rewrite lookup_empty in Hs.
  - apply (Hins r' st1 st'); [done| |done]. intros i x Hx.
    destruct (locked_step_effect _ _ Hl) as [_ Hsub|x' _ _ Hse].
    + left. by eapply lookup_weaken.
    + rewrite Hse in Hx. apply lookup_insert_Some in Hx as [[? ->]|[_ Hx]]; auto.
  - apply (Hins r' st1 st'); [done| |done]. intros i x Hx. left.
    destruct outcome; cbn in Hres; [case_if_in Hres; [done|]|..]; by injection Hres as _ <-.
Qed.

Lemma process_ok_step p p' : process_ok p -> process_step p p' -> process_ok p'.
Proof.
  intros Hok Hstep. constructor.
  - by apply (step_counter p).
  - intros t r c Ht. pose proof (ok_counter p Hok). pose proof (ok_loaded p Hok t r c).
    destruct (step_thread p p' t _ Hstep Ht) as [H1|[[_ H1]|(pc & _ & _ & [H1|[c' H1]])]];
      [auto|by injection H1 as ->..|done].
  - intros h id. by apply step_drawn with (p := p).
  - intros h h' id. by apply step_unique with (p := p).
  - intros t pc Ht. apply (step_registries p); [done|].
    destruct (step_thread p p' t _ Hstep Ht) as [H1|[[H1 _]|(pc' & H1 & H2 & _)]]; [|done|].
    + by apply (ok_registry p Hok t).
    + rewrite <- H2. by apply (ok_registry p Hok t).
  - intros. by eapply step_keys.
Qed.

Lemma process_ok_start : process_ok process_start.
Proof.
  assert (forall h id, ~ holds process_start h id) as Hn.
  { intros [t r|r|r] id; cbn.
    - by rewrite lookup_empty.
    - intros (st & Hst & _). by rewrite lookup_empty in Hst.
    - intros (st & Hst & _). by rewrite lookup_empty in Hst. }
  constructor; cbn.
  - unfold UINT64_MAX. lia.
  - intros ? ? ? H. by rewrite lookup_empty in H.
  - intros h id H. by apply Hn in H.
  - intros h h' id H. by apply Hn in H.
  - intros ? ? H. by rewrite lookup_empty in H.
  - intros ? ? ? ? H. by rewrite lookup_empty in H.
Qed.

Lemma process_ok_steps p p' : process_ok p -> rtc process_step p p' -> process_ok p'.
Proof. induction 2; eauto using process_ok_step. Qed.

Lemma reachable_ok p : reachable p -> process_ok p.
Proof. apply process_ok_steps, process_ok_start. Qed.

Lemma not_held_stays p p' id :
  process_ok p -> rtc process_step p p' -> drawn p id -> (forall h, ~ holds p h id) ->
  drawn p' id /\ forall h, ~ holds p' h id.
Proof.
  intros Hok Hsteps. revert Hok. induction Hsteps as [p|p q p' Hstep Hsteps IH]; [done|].
  intros Hok Hd Hn. apply IH; [by eapply process_ok_step|by apply (step_counter p q)|].
  intros h Hh. destruct (step_holds p q h id Hok Hstep Hh) as [H|H]; [by apply (Hn h)|].
  destruct h as [t r|r|r].
  - destruct H as (-> & H1 & _). by apply (not_drawn_counter p).
  - destruct H as (t & H & _). by apply Hn in H.
  - destruct H as (H & _). by apply Hn in H.
Qed.

(** C5. Session numbers are unique and never reused, whatever threads and registries interleave:
    in every reachable process a number is held by at most one thread, reservation or session; one
    step moves it only from the counter to a thread, from that thread to the reservations of the
    registry it issues for, and from there to that registry's sessions; and a number that has been
    drawn and is held by nobody (discarded, unregistered, or lost to a failed allocation) is never
    held again. *)
Theorem session_ids_never_reused p :
  reachable p ->
  (forall h h' id, holds p h id -> holds p h' id -> h = h') /\
  (forall p' h id, process_step p p' -> holds p' h id -> holds p h id \/ comes_from p h id) /\
  (forall p' id, rtc process_step p p' -> drawn p id -> (forall h, ~ holds p h id) ->
    forall h, ~ holds p' h id).
Proof.
  intros Hr. apply reachable_ok in Hr as Hok. split_and!.
  - apply (ok_unique p Hok).
  - intros p' h id Hstep Hh. destruct (step_holds p p' h id Hok Hstep Hh) as [H|H]; [by left|].
    right. destruct h as [t r|r|r]; cbn [comes_from].
    + destruct H as (-> & H1 & _). by apply not_drawn_counter.
    + destruct H as (t & H & _). by exists t.
    + by destruct H.
  - intros p' id Hsteps Hd Hn. by apply (not_held_stays p p' id).
Qed.

(** [IssueId] never aborts and never fails for a number already reserved: a thread that drew a
    number for a registry finds that registry, the assertion that the number is fresh there holds,
    and the number is neither registered nor reserved in any registry of the process. *)
Theorem issue_assertion_holds p t r c :
  reachable p -> threads p !! t = Some (AtReserve r c) ->
  1 <= c <= UINT64_MAX /\
  exists st, registries p !! r = Some st /\
    ReserveIssued Stored c st = Some (FromValue c,
      MkState (sessions st) ({[c]} ∪ issuedIds st) (mutationThread st) (isBound st)) /\
    forall r' st', registries p !! r' = Some st' -> c ∉ issuedIds st' /\ sessions st' !! c = None.
Proof.
  intros Hr Ht. apply reachable_ok in Hr as Hok.
  assert (holds p (HeldByThread t r) c) as Hh by done.
  assert (forall r' st', registries p !! r' = Some st' ->
    c ∉ issuedIds st' /\ sessions st' !! c = None) as Hfree.
  { intros r' st' Hst. split.
    - intros Hin. assert (holds p (HeldByReservation r') c) as H' by (by exists st').
      by pose proof (ok_unique p Hok _ _ _ Hh H').
    - apply eq_None_not_Some. intros Hin.
      assert (holds p (HeldBySession r') c) as H' by (by exists st').
      by pose proof (ok_unique p Hok _ _ _ Hh H'). }
  split; [apply (ok_drawn p Hok _ _ Hh)|].
  destruct (ok_registry p Hok t _ Ht) as [st Hst]. exists st. split_and!; [done| |done].
  cbn. by rewrite bool_decide_false by (apply (Hfree r st Hst)).
Qed.

(** A process in which thread 7 has drawn number 1 for registry 0 while thread 8, which had loaded
    the same number, still holds the stale value. *)
Definition sample_process : Process :=
  MkProcess 2 {[0 := New]} (<[7 := AtReserve 0 1]> {[8 := AtExchange 0 1]}).

Lemma sample_process_reachable : reachable sample_process.
Proof.
  unfold reachable.
  eapply rtc_l; [apply (Step_Create _ 0); reflexivity|].
  eapply rtc_l; [eapply (Step_Load _ 8 0); reflexivity|].
  eapply rtc_l; [eapply (Step_Load _ 7 0); reflexivity|].
  eapply rtc_l; [eapply (Step_Exchange _ 7 0 1); [reflexivity|lia|reflexivity]|].
  match goal with |- rtc _ ?a ?b => replace a with b; [apply rtc_refl|] end.
  unfold sample_process. f_equal.
Qed.

Lemma session_ids_never_reused_witness :
  holds sample_process (HeldByThread 7 0) 1 /\
  ~ holds sample_process (HeldBySession 0) 1 /\ ~ holds sample_process (HeldByReservation 0) 1.
Proof.
  destruct (session_ids_never_reused sample_process sample_process_reachable) as (H & _).
  assert (holds sample_process (HeldByThread 7 0) 1) as Hh by reflexivity.
  split; [exact Hh|]. split; intros H'; discriminate (H _ _ _ Hh H').
Defined.

Lemma issue_assertion_holds_witness :
  exists st, registries sample_process !! 0 = Some st /\ 1 ∉ issuedIds st.
Proof.
  destruct (issue_assertion_holds sample_process 7 0 1) as (_ & st & Hst & _ & Hall).
  - apply sample_process_reachable.
  - reflexivity.
  - exists st. split; [exact Hst|]. apply (Hall 0 st Hst).
Defined.

(** ** The functions of one registry *)

Lemma require_same t st st' :
  mutationThread st' = mutationThread st -> isBound st' = isBound st ->
  RequireMutationThread t st' = RequireMutationThread t st.
Proof. unfold RequireMutationThread. by intros -> ->. Qed.

(** On the bound thread [Register] succeeds exactly for a session whose valid number is reserved
    in this registry and not registered; the session is then the one [Find] returns for its number,
    every other number is found as before, the count grows by one and the reservation is spent: the
    number can be registered again neither now nor after [Unregister], which makes [Find] return
    nothing. *)
Theorem register_life_cycle t x st :
  RequireMutationThread t st = true ->
  let ok := IsValid (Id x) && bool_decide (Id x ∈ issuedIds st)
            && bool_decide (sessions st !! Id x = None) in
  exists s st', Register t Stored (Some x) st = Some (s, st') /\
    Status.IsOk s = ok /\ (ok = false -> st' = st) /\
    (ok = true ->
      Find t (Id x) st' = Some (Some x) /\
      (forall id, id <> Id x -> Find t id st' = Find t id st) /\
      Count t st' = option_map (Z.add 1) (Count t st) /\
      (exists e, Register t Stored (Some x) st' = Some (Status.Fail AlreadyExists e, st')) /\
      let st'' := (Unregister (Id x) st').2 in
      Status.IsOk (Unregister (Id x) st').1 = true /\
      Find t (Id x) st'' = Some None /\
      exists e, Register t Stored (Some x) st'' = Some (Status.Fail InvalidArgument e, st'')).
Proof.
  intros Ht ok. destruct st as [ss iss mt b].
  unfold Register, ok. rewrite Ht. cbn [negb sessions issuedIds].
  destruct (IsValid (Id x)) eqn:Ev; cbn [negb andb].
  2:{ eexists _, _. split_and!; done. }
  destruct (decide (is_Some (ss !! Id x))) as [Hs|Hs].
  { rewrite bool_decide_true by done. rewrite (bool_decide_false (ss !! Id x = None)).
    2:{ intros Hn. rewrite Hn in Hs. by destruct Hs. }
    rewrite andb_false_r. eexists _, _. split_and!; done. }
  rewrite bool_decide_false by done. apply eq_None_not_Some in Hs as Hn.
  rewrite (bool_decide_true (ss !! Id x = None)) by done. rewrite andb_true_r.
  destruct (decide (Id x ∈ iss)) as [Hi|Hi].
  2:{ rewrite (bool_decide_true (Id x ∉ iss)), (bool_decide_false (Id x ∈ iss)) by done.
      eexists _, _. split_and!; done. }
  rewrite (bool_decide_false (Id x ∉ iss)), (bool_decide_true (Id x ∈ iss)) by naive_solver.
  eexists _, _. split_and!; [done..|]. intros _.
  assert (forall ss' iss', RequireMutationThread t (MkState ss' iss' mt b) = true) as Ht'.
  { intros. rewrite <- Ht. by apply require_same. }
  unfold Find, Count, Unregister. rewrite !Ht', ?Ev. cbn [sessions issuedIds negb].
  rewrite !lookup_insert_eq. cbn [negb fst snd sessions issuedIds]. rewrite ?Ht', ?Ev.
  cbn [negb sessions issuedIds]. split_and!.
  - done.
  - intros id Hid. by rewrite lookup_insert_ne.
  - rewrite map_size_insert_None by done. cbn. f_equal. lia.
  - rewrite bool_decide_true by eauto. by eexists.
  - done.
  - by rewrite lookup_delete_eq.
  - rewrite lookup_delete_eq. rewrite bool_decide_false by (by intros [? ?]).
    rewrite bool_decide_true by set_solver. by eexists.
Qed.

Lemma register_life_cycle_witness :
  exists st', Register 3 Stored (Some (MkSession 5 1)) (MkState ∅ {[5]} 3 true)
    = Some (Status.Ok, st') /\ Find 3 5 st' = Some (Some (MkSession 5 1)).
Proof.
  destruct (register_life_cycle 3 (MkSession 5 1) (MkState ∅ {[5]} 3 true))
    as (s & st' & Hr & _ & _ & Hok); [reflexivity|].
  exists st'. split; [|apply Hok; reflexivity].
  rewrite Hr. vm_compute in Hr. injection Hr as <- <-. reflexivity.
Defined.
