(* ===== verification/Dispatcher.v ===== *)
(** * Dispatch: from message types to handlers.

    [Dispatch/Dispatcher.h|cpp].  The dispatcher sees of a message its type, whether it has a body and
    the size of the raw body ([DispatchMessage], implemented by the parsed message of [Message.v]);
    sessions, handlers and the logger act on a world [W].  [Register] and [Freeze] hold the
    registration lock throughout and [Dispatch] reads the table in one go, so that any
    interleaving of calls is a sequence of these functions.  A Boolean argument says whether the
    allocations on the path succeed. *)

From S2P Require Import Prelude CoreError.
From stdpp Require Import gmap.
#[local] Open Scope Z_scope.

(** What the dispatcher asks of a message. *)
Class DispatchMessage (M : Type) : Type := {
  MessageType : M -> list Z;
  HasBody : M -> bool;
  RawBodySize : M -> Z
}.

(** What it asks of a session and of a logger: [Disconnect] does not fail; [LogWrite] returns [None]
    when the sink throws. *)
Class DispatchWorld (Session W : Type) : Type := {
  Disconnect : Session -> Status -> W -> W;
  LogWrite : list Z -> W -> option W
}.

Module Dispatcher.

(** [(std::numeric_limits<std::size_t>::max)()]. *)
Definition UnlimitedRawBodySize : Z := SIZE_MAX.

Inductive UnknownTypePolicy : Type :=
| LogAndIgnore
| PolicyDisconnect.

Section Dispatcher.

Context {M Session W : Type} `{DispatchMessage M} `{DispatchWorld Session W}.

Definition MessageHandler : Type := Session -> M -> W -> Status * W.

Record RegisteredHandler : Type := MkRegistered {
  handler : MessageHandler;
  maximumRawBodySize : Z
}.

Record Dispatcher : Type := MkDispatcher {
  mHandlers : gmap (list Z) RegisteredHandler;
  mFrozen : bool;
  mUnknownTypePolicy : UnknownTypePolicy;
  mLogger : bool (* whether a logger is set *)
}.

Definition New : Dispatcher := MkDispatcher ∅ false LogAndIgnore false.

Definition SetLogger (logger : bool) (d : Dispatcher) : Dispatcher :=
  MkDispatcher (mHandlers d) (mFrozen d) (mUnknownTypePolicy d) logger.

(** The status when its text can be stored, else [AllocationFailure]. *)
Definition Prepared (alloc : bool) (s : Status) : Status :=
  if alloc then s else Status.AllocationFailure.

Definition Register (alloc : bool) (type : list Z) (h : option MessageHandler) (maximum : Z)
    (d : Dispatcher) : Status * Dispatcher :=
  if mFrozen d then
    (Prepared alloc (Status.Fail Closed "the dispatcher registration table is frozen"), d)
  else if len type =? 0 then
    (Prepared alloc (Status.Fail InvalidArgument "a message type must not be empty"), d)
  else
    match h with
    | None =>
        (Prepared alloc (Status.Fail InvalidArgument "a message handler must not be empty"), d)
    | Some h =>
        match mHandlers d !! type with
        | Some _ =>
            (Prepared alloc
              (Status.Fail AlreadyExists
                ("a handler is already registered for message type: " +:+ str type)), d)
        | None =>
            if negb alloc then (Status.AllocationFailure, d)
            else
              (Status.Ok,
                MkDispatcher (<[type := MkRegistered h maximum]> (mHandlers d)) (mFrozen d)
                  (mUnknownTypePolicy d) (mLogger d))
        end
    end.

Definition Freeze (d : Dispatcher) : Dispatcher :=
  MkDispatcher (mHandlers d) true (mUnknownTypePolicy d) (mLogger d).

Definition IsFrozen (d : Dispatcher) : bool := mFrozen d.

Definition SetUnknownTypePolicy (policy : UnknownTypePolicy) (d : Dispatcher) : Dispatcher :=
  MkDispatcher (mHandlers d) (mFrozen d) policy (mLogger d).

Definition GetUnknownTypePolicy (d : Dispatcher) : UnknownTypePolicy := mUnknownTypePolicy d.

Definition UnknownTypeStatus (type : list Z) : Status :=
  Status.Fail UnknownType ("no handler is registered for message type: " +:+ str type).

Definition UnknownReason : Status := Status.FailWithoutMessage UnknownType.

(** The lambda [failUnknownPreparation]. *)
Definition FailUnknownPreparation (session : Session) (policy : UnknownTypePolicy) (w : W)
    : Status * W :=
  match policy with
  | PolicyDisconnect => (Status.AllocationFailure, Disconnect session UnknownReason w)
  | LogAndIgnore => (Status.AllocationFailure, w)
  end.

(** The branch of a type without handler. [allocLog]: the log line can be built; [allocStatus]: the
    detailed status can. *)
Definition DispatchUnknown (allocLog allocStatus : bool) (session : Session) (message : M)
    (d : Dispatcher) (w : W) : Status * W :=
  let policy := GetUnknownTypePolicy d in
  let logged :=
    if mLogger d then
      if allocLog then LogWrite (txt "unregistered message type: " ++ MessageType message) w
      else None
    else Some w in
  match logged with
  | None => FailUnknownPreparation session policy w
  | Some w' =>
      match policy with
      | LogAndIgnore => (Status.Ok, w')
      | PolicyDisconnect =>
          if negb allocStatus then FailUnknownPreparation session policy w'
          else (UnknownTypeStatus (MessageType message), Disconnect session UnknownReason w')
      end
  end.

Definition Dispatch (alloc allocLog allocStatus : bool) (session : option Session) (message : M)
    (d : Dispatcher) (w : W) : Status * W :=
  match session with
  | None => (Prepared alloc (Status.Fail InvalidArgument "a dispatch requires a session"), w)
  | Some session =>
      match mHandlers d !! MessageType message with
      | Some h =>
          if negb (HasBody message) then
            (Prepared alloc (Status.Fail InvalidFormat
              "a message without body cannot be routed to a body handler"), w)
          else if maximumRawBodySize h <? RawBodySize message then
            (Prepared alloc (Status.Fail TooLarge
              ("message body exceeds the registered byte limit for type: "
                +:+ str (MessageType message))), w)
          else handler h session message w
      | None => DispatchUnknown allocLog allocStatus session message d w
      end
  end.

End Dispatcher.

End Dispatcher.

Import Dispatcher.

Section Routing.

Context {M Session W : Type} `{DispatchMessage M} `{DispatchWorld Session W}.

Notation Handler := (@MessageHandler M Session W).
Notation Table := (@Dispatcher M Session W).

(** Calls that change a dispatcher. *)
Inductive DispatcherOp : Type :=
| OpRegister (alloc : bool) (type : list Z) (h : option Handler) (maximum : Z)
| OpFreeze
| OpSetPolicy (policy : UnknownTypePolicy)
| OpSetLogger (logger : bool).

Definition apply_op (d : Table) (op : DispatcherOp) : Table :=
  match op with
  | OpRegister alloc type h maximum => (Register alloc type h maximum d).2
  | OpFreeze => Freeze d
  | OpSetPolicy policy => SetUnknownTypePolicy policy d
  | OpSetLogger logger => SetLogger logger d
  end.

Definition run_ops (ops : list DispatcherOp) : Table := fold_left apply_op ops New.

(** The handler a type is promised: that of the first registration of the type, among the calls
    before the first [Freeze], that names a handler and finds the memory. *)
Fixpoint first_registration (type : list Z) (ops : list DispatcherOp)
    : option RegisteredHandler :=
  match ops with
  | [] => None
  | OpFreeze :: _ => None
  | OpRegister true type' (Some h) maximum :: ops' =>
      if bool_decide (type' = type) && negb (len type' =? 0) then Some (MkRegistered h maximum)
      else first_registration type ops'
  | _ :: ops' => first_registration type ops'
  end.

(** An existing entry, or one the open table may still take, of a type. *)
Definition promised (d : Table) (type : list Z) (ops : list DispatcherOp)
    : option RegisteredHandler :=
  match mHandlers d !! type with
  | Some h => Some h
  | None => if mFrozen d then None else first_registration type ops
  end.

Lemma register_table alloc type (h : option Handler) maximum (d : Table) :
  (Register alloc type h maximum d).2 =
    match h with
    | Some h' =>
        if alloc && negb (mFrozen d) && negb (len type =? 0)
           && bool_decide (mHandlers d !! type = None)
        then MkDispatcher (<[type := MkRegistered h' maximum]> (mHandlers d)) (mFrozen d)
               (mUnknownTypePolicy d) (mLogger d)
        else d
    | None => d
    end.
Proof.
  unfold Register. destruct (mFrozen d) eqn:Ef; [by destruct h, alloc|].
  destruct (len type =? 0); [by destruct h, alloc|]. destruct h as [h|]; [|done].
  destruct (mHandlers d !! type) eqn:El; cbn [negb andb].
  - rewrite bool_decide_false by done. by rewrite andb_false_r.
  - rewrite bool_decide_true by done. by destruct alloc.
Qed.

Lemma promised_step (d : Table) type op ops : promised (apply_op d op) type ops = promised d type (op :: ops).
Proof.
  unfold promised. destruct op as [alloc type' h maximum| | |]; cbn [apply_op].
  - rewrite register_table. destruct h as [h|]; [|by destruct alloc].
    destruct alloc; cbn [andb first_registration]; [|done].
    destruct (mFrozen d) eqn:Ef; cbn [negb andb]; [by rewrite ?Ef|].
    destruct (len type' =? 0) eqn:El; cbn [negb andb]; [by rewrite ?Ef, ?andb_false_r|].
    rewrite andb_true_r. destruct (decide (mHandlers d !! type' = None)) as [Hn|Hn].
    + rewrite (bool_decide_true (_ !! type' = None)) by done. cbn [mHandlers mFrozen]. rewrite ?Ef.
      destruct (decide (type' = type)) as [->|Hne].
      * rewrite lookup_insert_eq, Hn. by rewrite bool_decide_true.
      * rewrite lookup_insert_ne by done. by rewrite bool_decide_false.
    + rewrite (bool_decide_false (_ !! type' = None)) by done. rewrite Ef.
      destruct (mHandlers d !! type) eqn:Et; [done|].
      rewrite bool_decide_false; [done|]. by intros ->.
  - cbn [mHandlers mFrozen Freeze]. destruct (_ !! type), (mFrozen d); done.
  - done.
  - done.
Qed.

Lemma run_ops_table ops type (d : Table) :
  mHandlers (fold_left apply_op ops d) !! type = promised d type ops.
Proof.
  revert d; induction ops as [|op ops IH]; intros d; cbn [fold_left].
  - unfold promised. cbn. by destruct (_ !! _), (mFrozen d).
  - by rewrite IH, promised_step.
Qed.

(** After any sequence of registrations, freezes and settings, a message of a session reaches
    precisely the handler of the first successful registration of its type before the table was
    frozen, and only with a body whose raw size is within that registration's limit; without body
    it is InvalidFormat, beyond the limit TooLarge, and neither touches the world; with no such
    registration no handler runs at all. *)
Theorem dispatch_routes ops alloc allocLog allocStatus session message w :
  let d := run_ops ops in
  Dispatch alloc allocLog allocStatus (Some session) message d w =
    match first_registration (MessageType message) ops with
    | Some h =>
        if HasBody message && (RawBodySize message <=? maximumRawBodySize h)
        then handler h session message w
        else (Prepared alloc (if HasBody message
            then Status.Fail TooLarge ("message body exceeds the registered byte limit for type: "
              +:+ str (MessageType message))
            else Status.Fail InvalidFormat
              "a message without body cannot be routed to a body handler"), w)
    | None => DispatchUnknown allocLog allocStatus session message d w
    end.
Proof.
  intros d. unfold Dispatch, d, run_ops. rewrite run_ops_table.
  unfold promised. cbn [New mHandlers mFrozen]. rewrite lookup_empty.
  destruct (first_registration _ _) as [h|]; [|done].
  destruct (HasBody message); cbn [negb andb]; [|done].
  rewrite Z.leb_antisym. by destruct (_ <? _).
Qed.

(** The policy for unknown types is kept under every failure: under Disconnect the session is
    disconnected exactly once and no status is Ok, whether the log line, the sink or the detailed
    status fails or not; under LogAndIgnore it never is, and the call is Ok unless the diagnostic
    failed. *)
Theorem unknown_type_policy allocLog allocStatus session message (d : Table) w s w' :
  DispatchUnknown allocLog allocStatus session message d w = (s, w') ->
  exists w1,
    (w1 = w \/ LogWrite (txt "unregistered message type: " ++ MessageType message) w = Some w1) /\
    match GetUnknownTypePolicy d with
    | PolicyDisconnect => w' = Disconnect session UnknownReason w1 /\ Status.IsOk s = false
    | LogAndIgnore => w' = w1 /\ (Status.IsOk s = true \/ (s = Status.AllocationFailure /\ w1 = w))
    end.
Proof.
  unfold DispatchUnknown, FailUnknownPreparation. intros Hd.
  destruct (if mLogger d then _ else Some w) as [w1|] eqn:El.
  - exists w1. split.
    { destruct (mLogger d), allocLog; try done; [by right|left; congruence..]. }
    destruct (GetUnknownTypePolicy d); [|destruct allocStatus]; injection Hd as <- <-; auto.
  - exists w. split; [by left|].
    destruct (GetUnknownTypePolicy d); injection Hd as <- <-; auto.
Qed.

End Routing.

(** A world that records the reasons of its disconnections and its log lines. *)
#[local] Instance sample_world : DispatchWorld Z (list Status * list (list Z)) := {
  Disconnect _ reason w := (w.1 ++ [reason], w.2);
  LogWrite line w := Some (w.1, w.2 ++ [line])
}.

#[local] Instance sample_message : DispatchMessage (list Z) := {
  MessageType m := m;
  HasBody _ := true;
  RawBodySize _ := 4
}.

Lemma unknown_type_policy_witness : exists s w',
  DispatchUnknown true false 9 (txt "chat")
    (SetUnknownTypePolicy PolicyDisconnect (SetLogger true New)) ([], []) = (s, w') /\
  w'.1 = [UnknownReason] /\ Status.IsOk s = false.
Proof.
  destruct (DispatchUnknown true false 9 (txt "chat")
    (SetUnknownTypePolicy PolicyDisconnect (SetLogger true New)) ([], [])) as [s w'] eqn:E.
  exists s, w'. split; [reflexivity|].
  destruct (unknown_type_policy true false 9 (txt "chat")
    (SetUnknownTypePolicy PolicyDisconnect (SetLogger true New)) ([], []) s w' E)
    as (w1 & Hw1 & -> & Hs).
  split; [|exact Hs]. destruct Hw1 as [->|Hw1]; [reflexivity|].
  cbn in Hw1. injection Hw1 as <-. reflexivity.
Defined.
