(* ===== verification/Channel.v ===== *)
(** * Runtime: bounded channels and latest values.

    [Runtime/Channel.h].  A channel's [State] is changed only under its mutex; each operation is a
    function on the state that also gives the calls it makes after it has released the mutex, which
    complete the sources ([Completion.Sources]) it took from the state.  A handle without state is
    [None].  A blocking wait is represented by the result of its predicate
    when it returned; [stop] is [cancellation.stop_requested()].  Values are [option T], [None]
    being the null [std::shared_ptr]. *)

From S2P Require Import Prelude CoreError Completion.
From stdpp Require Import gmap.
#[local] Open Scope Z_scope.
Import Completion.

(** ** Calls made after unlocking

    An operation changes the state under the mutex and completes the sources it took from it only
    after the mutex is released; the calls it still has to make are a list, in the order of the
    source, and other threads run between them. *)

Inductive Call : Type :=
| CallComplete (source : option Z) (code : ErrorCode)
| CallBindCancellation (source : Z)
| CallDestroy (source : Z).

(** [stopped]: whether the bound token was already stopped.  A subscription that is destroyed takes
    its source with it. *)
Definition Perform (stopped : bool) (call : Call) (s : Sources) : Sources :=
  match call with
  | CallComplete source code => SourceComplete source code s
  | CallBindCancellation ref => BindCancellation ref stopped s
  | CallDestroy ref => delete ref s
  end.

Definition PerformAll (stopped : bool) (calls : list Call) (s : Sources) : Sources :=
  fold_left (fun s call => Perform stopped call s) calls s.

(** The call takes the source [ref] out of the pending ones. *)
Definition settles (ref : Z) (call : Call) : Prop :=
  (exists code, call = CallComplete (Some ref) code) \/ call = CallDestroy ref.

(** The call is about the source [ref]. *)
Definition mentions (ref : Z) (call : Call) : Prop :=
  settles ref call \/ call = CallBindCancellation ref.

Lemma delete_pending ref (s : Sources) x :
  SourceIsPending (delete ref s) x = true -> SourceIsPending s x = true /\ x <> Some ref.
Proof.
  destruct x as [r|]; [|done]. cbn. destruct (decide (ref = r)) as [->|Hne]; [by rewrite lookup_delete_eq|].
  rewrite lookup_delete_ne by done. intros H. split; [done|congruence].
Qed.

Lemma perform_pending stopped call s x :
  SourceIsPending (Perform stopped call s) (Some x) = true ->
  SourceIsPending s (Some x) = true /\ ~ settles x call.
Proof.
  destruct call as [source code|ref|ref]; cbn [Perform].
  - intros [H [Hne| ->]]%source_complete_pending; (split; [done|]); intros [[? [=]]|?]; congruence.
  - intros H%bind_cancellation_pending. split; [done|]. by intros [[]|].
  - intros [H Hne]%delete_pending. split; [done|]. intros [[]|[= ->]]; done.
Qed.

Lemma perform_all_pending stopped calls s x :
  SourceIsPending (PerformAll stopped calls s) (Some x) = true ->
  SourceIsPending s (Some x) = true /\ Forall (fun call => ~ settles x call) calls.
Proof.
  revert s. induction calls as [|call calls IH]; intros s H; [done|].
  apply IH in H as [H Hc]. apply perform_pending in H as [H Hn]. split; [done|]. by constructor.
Qed.

(** Once a thread has made its calls, the sources it settles are no longer pending. *)
Lemma settled_not_pending calls x :
  Exists (settles x) calls -> forall stopped s, SourceIsPending (PerformAll stopped calls s) (Some x) = false.
Proof.
  intros Hc stopped s. destruct (SourceIsPending _ _) eqn:E; [|done].
  apply perform_all_pending in E as [_ Hn].
  apply Exists_exists in Hc as (call & Hin & Hs). rewrite Forall_forall in Hn. by destruct (Hn call Hin).
Qed.

Module BoundedChannel.

Section BoundedChannel.

Context {T : Type}.

Record ChannelOptions : Type := MkOptions { maxMessages : Z; maxRetainedBytes : Z }.

Record Entry : Type := MkEntry { value : T; entryBytes : Z }.

Record State : Type := MkState {
  options : ChannelOptions;
  queue : list Entry;
  bytes : Z;
  writeBytes : Z;
  closed : bool;
  read : option Z;
  write : option Z
}.

Definition Fail (code : ErrorCode) : Status := Status.FailWithoutMessage code.

Definition CanSend (st : State) (amount : Z) : bool :=
  (len (queue st) <? maxMessages (options st))
  && (amount <=? maxRetainedBytes (options st) - bytes st).

Definition Create (alloc : bool) (opts : ChannelOptions) : Result State :=
  if (maxMessages opts =? 0) || (maxRetainedBytes opts =? 0) then
    FromStatus (Fail InvalidArgument)
  else if negb alloc then FromStatus Status.AllocationFailure
  else FromValue (MkState opts [] 0 0 false None None).

(** The result, the state when the mutex is released and the calls made after that. *)
Definition TrySend (alloc : bool) (v : option T) (retainedBytes : Z) (h : option State)
    : Status * option State * list Call :=
  match h, v with
  | Some st, Some v =>
      if maxRetainedBytes (options st) <? retainedBytes then (Fail TooLarge, h, [])
      else if negb alloc then (Status.AllocationFailure, h, [])
      else if closed st then (Fail Closed, h, [])
      else if negb (CanSend st retainedBytes) then (Fail WouldBlock, h, [])
      else
        let st' := MkState (options st) (queue st ++ [MkEntry v retainedBytes])
          (bytes st + retainedBytes) (writeBytes st) (closed st) None (write st) in
        (Status.Ok, Some st', [CallComplete (read st) ErrorCode_Ok])
  | _, _ => (Fail InvalidArgument, h, [])
  end.

(** [wait]: [None] for [TryReceive], else what the wait returned. *)
Definition ReceiveImpl (wait : option bool) (stop : bool) (h : option State)
    : Result T * option State * list Call :=
  match h with
  | None => (FromStatus (Fail InvalidArgument), h, [])
  | Some st =>
      if match wait with Some false => true | _ => false end then
        (FromStatus (Fail (if stop then Cancelled else Timeout)), h, [])
      else if stop then (FromStatus (Fail Cancelled), h, [])
      else
        match queue st with
        | [] => (FromStatus (Fail (if closed st then Closed else WouldBlock)), h, [])
        | front :: rest =>
            let st1 := MkState (options st) rest (bytes st - entryBytes front) (writeBytes st)
              (closed st) (read st) (write st) in
            if CanSend st1 (writeBytes st1) then
              (FromValue (value front),
                Some (MkState (options st1) (queue st1) (bytes st1) (writeBytes st1) (closed st1)
                  (read st1) None),
                [CallComplete (write st1) ErrorCode_Ok])
            else (FromValue (value front), Some st1, [CallComplete None ErrorCode_Ok])
        end
  end.

Definition TryReceive (h : option State) : Result T * option State * list Call :=
  ReceiveImpl None false h.

(** The checks of [Subscribe] before the subscription is created. *)
Definition SubscribeRefused (writing : bool) (amount : Z) (h : option State) : option Status :=
  match h with
  | None => Some (Fail InvalidArgument)
  | Some st =>
      if writing && (maxRetainedBytes (options st) <? amount) then Some (Fail TooLarge) else None
  end.

(** The [status] of [Subscribe]: WouldBlock when the source is to be kept. *)
Definition SubscribeStatus (writing : bool) (amount : Z) (st : State) : ErrorCode :=
  if writing then
    if closed st then Closed
    else if CanSend st amount then ErrorCode_Ok else WouldBlock
  else if negb (len (queue st) =? 0) then ErrorCode_Ok
  else if closed st then Closed else WouldBlock.

(** The critical section of [Subscribe], with [ref] the subscription it has created, and the calls
    that follow it; [s] are the sources at that time.  A subscription that is not returned is
    destroyed. *)
Definition SubscribeLocked (writing : bool) (amount ref : Z) (st : State) (s : Sources)
    : Result Z * State * list Call :=
  if SourceIsPending s (if writing then write st else read st) then
    (FromStatus (Fail AlreadyExists), st, [CallDestroy ref])
  else
    let status := SubscribeStatus writing amount st in
    let blocked := bool_decide (status = WouldBlock) in
    let st' := MkState (options st) (queue st) (bytes st)
      (if writing then amount else writeBytes st) (closed st)
      (if blocked && negb writing then Some ref else read st)
      (if blocked && writing then Some ref else write st) in
    (FromValue ref, st',
      CallBindCancellation ref :: (if blocked then [] else [CallComplete (Some ref) status])).

(** [Subscribe] up to its critical section and through it; [created] is what
    [CompletionSubscription::Create] returned. *)
Definition Subscribe (created : Result Z) (writing : bool) (amount : Z) (h : option State)
    (s : Sources) : Result Z * option State * list Call :=
  match SubscribeRefused writing amount h, h with
  | Some e, _ => (FromStatus e, h, [])
  | None, None => (FromStatus (Fail InvalidArgument), h, [])
  | None, Some st =>
      match created with
      | FromStatus e => (FromStatus e, h, [])
      | FromValue ref =>
          let '(r, st', calls) := SubscribeLocked writing amount ref st s in (r, Some st', calls)
      end
  end.

Definition WaitForReadReady (created : Result Z) (h : option State) (s : Sources)
    : Result Z * option State * list Call := Subscribe created false 0 h s.

Definition WaitForWriteReady (created : Result Z) (retainedBytes : Z) (h : option State)
    (s : Sources) : Result Z * option State * list Call := Subscribe created true retainedBytes h s.

Definition Close (h : option State) : option State * list Call :=
  match h with
  | None => (h, [])
  | Some st =>
      let empty := len (queue st) =? 0 in
      let st' := MkState (options st) (queue st) (bytes st) (writeBytes st) true None None in
      (Some st', [CallComplete (read st) (if empty then Closed else ErrorCode_Ok);
                  CallComplete (write st) Closed])
  end.

(** The destructor of the state, run by the last handle. *)
Definition Destroy (st : State) : list Call :=
  [CallComplete (read st) Closed; CallComplete (write st) Closed].

Definition Size (h : option State) : Z :=
  match h with Some st => len (queue st) | None => 0 end.

Definition RetainedBytes (h : option State) : Z :=
  match h with Some st => bytes st | None => 0 end.

End BoundedChannel.

Arguments ChannelOptions : clear implicits.
Arguments Entry : clear implicits.
Arguments State : clear implicits.

End BoundedChannel.

Import BoundedChannel.

Section Channel.

Context {T : Type}.

(** A thread inside an operation: it has created its subscription and waits for the mutex, or it has
    released the mutex and has calls left to make. *)
Inductive Thread : Type :=
| Subscribing (writing : bool) (amount ref : Z)
| Leaving (calls : list Call).

(** A channel, the sources of the process, what was accepted and received so far, and the threads
    inside an operation of the channel. *)
Record System : Type := MkSystem {
  chan : State T;
  sources : Sources;
  sent : list T;
  received : list T;
  threads : list Thread
}.

Definition thread_mentions (ref : Z) (t : Thread) : Prop :=
  match t with
  | Subscribing _ _ ref' => ref' = ref
  | Leaving calls => Exists (mentions ref) calls
  end.

(** A source nobody knows of. *)
Definition fresh (ref : Z) (c : System) : Prop :=
  sources c !! ref = None /\ read (chan c) <> Some ref /\ write (chan c) <> Some ref
  /\ Forall (fun t => ~ thread_mentions ref t) (threads c).

(** One critical section or one call after it, of one thread.  Any source may be completed or expire
    by its owner's doing (cancellation, reset) at any time. *)
Inductive channel_step (c : System) : System -> Prop :=
| Step_Send alloc v n st' calls status :
    0 <= n ->
    TrySend alloc (Some v) n (Some (chan c)) = (status, Some st', calls) ->
    channel_step c (MkSystem st' (sources c)
      (if Status.IsOk status then sent c ++ [v] else sent c) (received c)
      (Leaving calls :: threads c))
| Step_Receive wait stop st' calls r :
    ReceiveImpl wait stop (Some (chan c)) = (r, Some st', calls) ->
    channel_step c (MkSystem st' (sources c) (sent c)
      (match r with FromValue v => received c ++ [v] | FromStatus _ => received c end)
      (Leaving calls :: threads c))
| Step_Create writing amount ref :
    0 <= amount -> SubscribeRefused writing amount (Some (chan c)) = None -> fresh ref c ->
    channel_step c (MkSystem (chan c) (<[ref := None]> (sources c)) (sent c) (received c)
      (Subscribing writing amount ref :: threads c))
| Step_Subscribe a b writing amount ref st' calls r :
    threads c = a ++ Subscribing writing amount ref :: b ->
    SubscribeLocked writing amount ref (chan c) (sources c) = (r, st', calls) ->
    channel_step c (MkSystem st' (sources c) (sent c) (received c) (a ++ Leaving calls :: b))
| Step_Close st' calls :
    Close (Some (chan c)) = (Some st', calls) ->
    channel_step c (MkSystem st' (sources c) (sent c) (received c) (Leaving calls :: threads c))
| Step_Call a b stopped call calls :
    threads c = a ++ Leaving (call :: calls) :: b ->
    channel_step c (MkSystem (chan c) (Perform stopped call (sources c)) (sent c) (received c)
      (a ++ Leaving calls :: b))
| Step_Return a b :
    threads c = a ++ Leaving [] :: b ->
    channel_step c (MkSystem (chan c) (sources c) (sent c) (received c) (a ++ b))
| Step_Cancel ref :
    channel_step c (MkSystem (chan c) (SourceComplete (Some ref) Cancelled (sources c))
      (sent c) (received c) (threads c))
| Step_Expire ref :
    channel_step c (MkSystem (chan c) (delete ref (sources c)) (sent c) (received c) (threads c)).

Definition system_start (opts : ChannelOptions) (st : State T) (c : System) : Prop :=
  0 <= maxMessages opts /\ 0 <= maxRetainedBytes opts /\
  Create true opts = FromValue st /\ c = MkSystem st ∅ [] [] [].

Definition queue_bytes (q : list (Entry T)) : Z := foldr (fun e n => entryBytes e + n) 0 q.

Record channel_ok (c : System) : Prop := MkChannelOk {
  ok_order : received c ++ map value (queue (chan c)) = sent c;
  ok_amounts : Forall (fun e => 0 <= entryBytes e) (queue (chan c));
  ok_bytes : bytes (chan c) = queue_bytes (queue (chan c));
  ok_limit : bytes (chan c) <= maxRetainedBytes (options (chan c));
  ok_size : len (queue (chan c)) <= maxMessages (options (chan c));
  ok_read : SourceIsPending (sources c) (read (chan c)) = true ->
    queue (chan c) = [] /\ closed (chan c) = false;
  ok_write : SourceIsPending (sources c) (write (chan c)) = true ->
    closed (chan c) = false /\ CanSend (chan c) (writeBytes (chan c)) = false
}.

Lemma queue_bytes_app q e : queue_bytes (q ++ [e]) = queue_bytes q + entryBytes e.
Proof. induction q as [|e' q IH]; cbn; [lia|]. unfold queue_bytes in IH. cbn in IH. lia. Qed.

Lemma queue_bytes_nonneg q : Forall (fun e => 0 <= entryBytes e) q -> 0 <= queue_bytes q.
Proof. induction 1; cbn; [lia|]. unfold queue_bytes in *. lia. Qed.

(** Anything that only takes pending sources away keeps the invariant, whatever the threads. *)
Lemma channel_ok_sources c s ts :
  (forall x, SourceIsPending s x = true -> x = read (chan c) \/ x = write (chan c) ->
     SourceIsPending (sources c) x = true) ->
  channel_ok c -> channel_ok (MkSystem (chan c) s (sent c) (received c) ts).
Proof. intros Hs [H1 H2 H3 H4 H5 H6 H7]. constructor; cbn; auto. Qed.

Lemma channel_ok_send c alloc v n st' calls status ts :
  0 <= n -> channel_ok c ->
  TrySend alloc (Some v) n (Some (chan c)) = (status, Some st', calls) ->
  channel_ok (MkSystem st' (sources c) (if Status.IsOk status then sent c ++ [v] else sent c)
    (received c) ts).
Proof.
  intros Hn Hok H. pose proof Hok as [H1 H2 H3 H4 H5 H6 H7]. unfold TrySend in H.
  destruct (maxRetainedBytes _ <? n); [by injection H as <- <- <-|].
  destruct alloc; cbn [negb] in H; [|by injection H as <- <- <-].
  destruct (closed (chan c)) eqn:Ec; [injection H as <- <- <-; by apply channel_ok_sources|].
  destruct (CanSend (chan c) n) eqn:Es; cbn [negb] in H;
    [|injection H as <- <- <-; by apply channel_ok_sources].
  injection H as <- <- <-. cbn [Status.IsOk]. unfold CanSend in Es.
  constructor; cbn [chan sources sent received queue bytes options read write writeBytes closed].
  - rewrite map_app, app_assoc, H1. done.
  - rewrite Forall_app. split; [done|]. by constructor.
  - rewrite queue_bytes_app. cbn. lia.
  - lia.
  - rewrite len_app. change (len [_]) with 1. lia.
  - done.
  - intros Hp. destruct (H7 Hp) as [_ Hc]. split; [done|].
    unfold CanSend in *. cbn. rewrite len_app. change (len [_]) with 1. lia.
Qed.

Lemma channel_ok_receive c wait stop st' calls r ts :
  channel_ok c -> ReceiveImpl wait stop (Some (chan c)) = (r, Some st', calls) ->
  channel_ok (MkSystem st' (sources c) (sent c)
    (match r with FromValue v => received c ++ [v] | FromStatus _ => received c end) ts).
Proof.
  intros Hok H. pose proof Hok as [H1 H2 H3 H4 H5 H6 H7]. unfold ReceiveImpl in H.
  destruct (match wait with Some false => true | _ => false end); [by injection H as <- <- <-|].
  destruct stop; [by injection H as <- <- <-|].
  destruct (queue (chan c)) as [|e q] eqn:Eq;
    [injection H as <- <- <-; by apply channel_ok_sources|].
  apply Forall_cons in H2 as [He H2]. pose proof (queue_bytes_nonneg q H2).
  cbn [map] in H1. cbn in H3. fold (queue_bytes q) in H3.
  assert (len (e :: q) = 1 + len q) as Hl by (unfold len; cbn [length]; lia).
  destruct (CanSend _ _) eqn:Es in H; injection H as <- <- <-;
    constructor; cbn [chan sources sent received queue bytes options read write writeBytes closed];
    try (rewrite <- app_assoc; exact H1); try done; try lia.
  - intros Hp. by destruct (H6 Hp).
  - intros Hp. by destruct (H6 Hp).
  - intros Hp. destruct (H7 Hp) as [Hc _]. split; [done|exact Es].
Qed.

Lemma insert_pending (s : Sources) ref x :
  x <> Some ref -> SourceIsPending (<[ref := None]> s) x = true -> SourceIsPending s x = true.
Proof.
  destruct x as [r|]; [|done]. cbn. intros Hne. by rewrite lookup_insert_ne by congruence.
Qed.

Lemma subscribe_blocked_read amount (st : State T) :
  SubscribeStatus false amount st = WouldBlock -> queue st = [] /\ closed st = false.
Proof.
  unfold SubscribeStatus. destruct (queue st) as [|e q], (closed st); try done.
Qed.

Lemma subscribe_blocked_write amount (st : State T) :
  SubscribeStatus true amount st = WouldBlock ->
  closed st = false /\ CanSend st amount = false.
Proof. unfold SubscribeStatus. by destruct (closed st), (CanSend st amount). Qed.

Lemma channel_ok_subscribe c ref writing amount st' calls r ts :
  channel_ok c ->
  SubscribeLocked writing amount ref (chan c) (sources c) = (r, st', calls) ->
  channel_ok (MkSystem st' (sources c) (sent c) (received c) ts).
Proof.
  intros Hok H. pose proof Hok as [H1 H2 H3 H4 H5 H6 H7]. unfold SubscribeLocked in H.
  destruct (SourceIsPending (sources c) _) eqn:Ep; [by injection H as <- <- <-|].
  cbv zeta in H. injection H as <- <- <-.
  constructor; cbn [chan sources sent received queue bytes options read write writeBytes closed]; auto.
  - intros Hp. destruct writing; [rewrite andb_false_r in Hp; by apply H6|].
    case_bool_decide as Hb; cbn in Hp; [by apply (subscribe_blocked_read amount)|congruence].
  - intros Hp. destruct writing; [|rewrite andb_false_r in Hp; by apply H7].
    case_bool_decide as Hb; cbn in Hp; [|congruence].
    destruct (subscribe_blocked_write amount (chan c) Hb) as [Hc Hs]. split; [exact Hc|exact Hs].
Qed.

Lemma channel_ok_step c c' : channel_ok c -> channel_step c c' -> channel_ok c'.
Proof.
  intros Hok Hstep. destruct Hstep as [| |writing amount ref Ha Hr (Hf & Hrd & Hwr & Ht)| |st' calls H| | | |].
  - by eapply channel_ok_send.
  - by eapply channel_ok_receive.
  - apply channel_ok_sources; [|done]. intros x Hp Hx. apply (insert_pending _ ref); [|done].
    destruct Hx; congruence.
  - by eapply channel_ok_subscribe.
  - pose proof Hok as [H1 H2 H3 H4 H5 H6 H7]. cbn in H. injection H as <- <-. by constructor.
  - apply channel_ok_sources; [|done]. intros [x|] Hp _; [|done]. by apply perform_pending in Hp as [Hp _].
  - by apply channel_ok_sources.
  - apply channel_ok_sources; [|done]. by intros x [Hp _]%source_complete_pending _.
  - apply channel_ok_sources; [|done]. by intros x [Hp _]%delete_pending _.
Qed.

Lemma channel_ok_start opts st c : system_start opts st c -> channel_ok c.
Proof.
  intros (Hm & Hb & Hc & ->). unfold Create in Hc. case_if_in Hc; [done|].
  injection Hc as <-. constructor; cbn; auto; lia.
Qed.

Lemma channel_ok_steps c c' : channel_ok c -> rtc channel_step c c' -> channel_ok c'.
Proof. induction 2; eauto using channel_ok_step. Qed.

(** Options never change. *)
Lemma channel_step_options c c' : channel_step c c' -> options (chan c') = options (chan c).
Proof.
  intros Hstep; destruct Hstep as [alloc v n st' calls status Hn H|wait stop st' calls r H|
    |a b writing amount ref st' calls r Ht H|st' calls H| | | |]; cbn [chan]; try done.
  - unfold TrySend in H. repeat case_if_in H; by injection H as <- <- <-.
  - unfold ReceiveImpl in H. repeat (case_if_in H; [by injection H as <- <- <-|]).
    destruct (queue (chan c)); [by injection H as <- <- <-|].
    case_if_in H; by injection H as <- <- <-.
  - unfold SubscribeLocked in H. case_if_in H; by injection H as <- <- <-.
  - cbn in H. by injection H as <- <-.
Qed.

Lemma channel_steps_options c c' : rtc channel_step c c' -> options (chan c') = options (chan c).
Proof. induction 1 as [|c d c' H _ IH]; [done|]. by rewrite IH, (channel_step_options c d). Qed.

(** [n] receives without waiting, in a row. *)
Fixpoint receive_all (n : nat) (st : State T) : list (Result T) :=
  match n with
  | O => []
  | S n' =>
      match TryReceive (Some st) with
      | (r, Some st', _) => r :: receive_all n' st'
      | (r, None, _) => [r]
      end
  end.

Lemma receive_all_closed st :
  closed st = true ->
  receive_all (S (length (queue st))) st =
    map FromValue (map value (queue st)) ++ [FromStatus (Fail Closed)].
Proof.
  destruct st as [o q b wb cl rd wr]. cbn [closed queue]. intros ->.
  revert b rd wr. induction q as [|e q IH]; intros b rd wr; [done|].
  cbn [length]. remember (S (length q)) as n eqn:En. cbn [receive_all map app].
  unfold TryReceive, ReceiveImpl. cbn [queue].
  case_if; cbn [options queue bytes writeBytes closed read write]; subst n; f_equal; apply IH.
Qed.

(** A bounded channel is a first-in first-out queue within its two limits: in any interleaving of
    sends, receives, subscriptions, cancellations and closings the values received, followed by
    those queued, are the values accepted, in order; the retained bytes are the sum of the queued
    values' and never exceed [maxRetainedBytes], nor their number [maxMessages]; and a closed channel
    hands out everything it accepted before it answers Closed. *)
Theorem channel_fifo_bounded opts st c0 c :
  system_start opts st c0 -> rtc channel_step c0 c ->
  received c ++ map value (queue (chan c)) = sent c /\
  RetainedBytes (Some (chan c)) = queue_bytes (queue (chan c)) /\
  RetainedBytes (Some (chan c)) <= maxRetainedBytes opts /\
  Size (Some (chan c)) <= maxMessages opts /\
  (closed (chan c) = true ->
    receive_all (S (length (queue (chan c)))) (chan c) =
      map FromValue (map value (queue (chan c))) ++ [FromStatus (Fail Closed)]).
Proof.
  intros Hstart Hsteps. pose proof (channel_ok_steps _ _ (channel_ok_start _ _ _ Hstart) Hsteps) as Hok.
  pose proof (channel_steps_options _ _ Hsteps) as Ho.
  assert (options (chan c0) = opts) as Ho0.
  { destruct Hstart as (_ & _ & Hc & ->). unfold Create in Hc. case_if_in Hc; [done|].
    by injection Hc as <-. }
  destruct Hok as [H1 H2 H3 H4 H5 _ _]. rewrite <- Ho0, <- Ho.
  split_and!; [done..|]. apply receive_all_closed.
Qed.

(** The thread has the source [ref] in hand: it has yet to register it, or it has a call left that
    completes or destroys it. *)
Definition has_in_hand (ref : Z) (t : Thread) : Prop :=
  match t with
  | Subscribing _ _ ref' => ref' = ref
  | Leaving calls => Exists (settles ref) calls
  end.

(** Every subscription that is still pending is in a slot or in the hands of a thread. *)
Definition pending_held (c : System) : Prop :=
  forall ref, SourceIsPending (sources c) (Some ref) = true ->
    read (chan c) = Some ref \/ write (chan c) = Some ref \/ Exists (has_in_hand ref) (threads c).

Lemma pending_held_subscribe c a b writing amount ref st' calls r :
  pending_held c -> threads c = a ++ Subscribing writing amount ref :: b ->
  SubscribeLocked writing amount ref (chan c) (sources c) = (r, st', calls) ->
  pending_held (MkSystem st' (sources c) (sent c) (received c) (a ++ Leaving calls :: b)).
Proof.
  intros Hh Ht H x Hp. specialize (Hh x Hp). cbn [chan sources threads] in *.
  rewrite Ht, Exists_app, Exists_cons in Hh. rewrite Exists_app, Exists_cons. cbn [has_in_hand] in *.
  unfold SubscribeLocked in H. destruct (SourceIsPending (sources c) (if writing then _ else _)) eqn:Ep.
  { injection H as <- <- <-. rewrite Exists_cons. unfold settles. destruct Hh as [?|[?|[?|[->|?]]]]; auto 10. }
  cbv zeta in H. injection H as <- <- <-. cbn [read write]. rewrite Exists_cons. unfold settles.
  destruct writing; rewrite ?andb_false_r; case_bool_decide; cbn [andb negb];
    rewrite ?Exists_cons; destruct Hh as [Hs|[Hs|[?|[->|?]]]]; eauto 10; rewrite Hs in Ep; congruence.
Qed.

Lemma pending_held_step c c' : pending_held c -> channel_step c c' -> pending_held c'.
Proof.
  intros Hh Hstep. destruct Hstep as [alloc v n st' calls status Hn H|wait stop st' calls r H
    |writing amount ref Ha Hr Hf|a b writing amount ref st' calls r Ht H|st' calls H
    |a b stopped call calls Ht|a b Ht|ref|ref]; [| | |by eapply pending_held_subscribe|..];
    intros x Hp; cbn [chan sources threads] in *; rewrite ?Exists_cons; cbn [has_in_hand].
  - specialize (Hh x Hp). unfold TrySend in H. repeat (case_if_in H; [injection H as <- <- <-; tauto|]).
    injection H as <- <- <-. cbn [read write]. rewrite Exists_cons. unfold settles.
    destruct Hh as [->|[->|?]]; eauto 8.
  - specialize (Hh x Hp). unfold ReceiveImpl in H. repeat (case_if_in H; [injection H as <- <- <-; tauto|]).
    destruct (queue (chan c)); [injection H as <- <- <-; tauto|].
    case_if_in H; injection H as <- <- <-; cbn [read write] in *; [|tauto].
    rewrite Exists_cons. unfold settles. destruct Hh as [->|[->|?]]; eauto 8.
  - destruct (decide (x = ref)) as [->|Hne]; [by auto|].
    apply insert_pending in Hp; [|congruence]. specialize (Hh x Hp). tauto.
  - specialize (Hh x Hp). cbn in H. injection H as <- <-. cbn [read write]. rewrite !Exists_cons.
    unfold settles. destruct Hh as [->|[->|?]]; eauto 10.
  - apply perform_pending in Hp as [Hp Hn]. specialize (Hh x Hp).
    rewrite Ht, Exists_app, Exists_cons in Hh. rewrite Exists_app, Exists_cons. cbn [has_in_hand] in *.
    rewrite Exists_cons in Hh. tauto.
  - specialize (Hh x Hp). rewrite Ht, Exists_app, Exists_cons in Hh. rewrite Exists_app. cbn [has_in_hand] in *.
    rewrite Exists_nil in Hh. tauto.
  - apply source_complete_pending in Hp as [Hp _]. by apply Hh.
  - apply delete_pending in Hp as [Hp _]. by apply Hh.
Qed.

Lemma pending_held_steps c c' : pending_held c -> rtc channel_step c c' -> pending_held c'.
Proof. induction 2; eauto using pending_held_step. Qed.

(** C20. No wake-up of a readiness subscription is lost, with the completions made after the mutex is
    released and any interleaving of the threads: a subscription that is still pending
    is the registered reader of an open and empty channel, or the registered writer of an open
    channel without room for the bytes asked for, or a thread has it in hand: its own [Subscribe] has
    not yet reached the mutex, or an operation has left the mutex with calls still to make, after
    which the subscription is no longer pending.  So when no operation is under way, every pending
    subscription waits for a condition that does not hold. *)
Theorem channel_no_lost_wakeup opts st c0 c ref :
  system_start opts st c0 -> rtc channel_step c0 c ->
  SourceIsPending (sources c) (Some ref) = true ->
  (read (chan c) = Some ref /\ closed (chan c) = false /\ Size (Some (chan c)) = 0) \/
  (write (chan c) = Some ref /\ closed (chan c) = false
    /\ CanSend (chan c) (writeBytes (chan c)) = false) \/
  (exists writing amount, Subscribing writing amount ref ∈ threads c) \/
  (exists calls, Leaving calls ∈ threads c
    /\ forall stopped s, SourceIsPending (PerformAll stopped calls s) (Some ref) = false).
Proof.
  intros Hstart Hsteps Hp.
  destruct (channel_ok_steps _ _ (channel_ok_start _ _ _ Hstart) Hsteps) as [_ _ _ _ _ H6 H7].
  assert (pending_held c) as Hh.
  { apply (pending_held_steps c0 c); [|done]. by destruct Hstart as (_ & _ & _ & ->). }
  destruct (Hh ref Hp) as [Hs|[Hs|Ht]].
  - left. rewrite <- Hs in Hp. destruct (H6 Hp) as [Hq Hc]. cbn. by rewrite Hq.
  - right. left. rewrite <- Hs in Hp. by destruct (H7 Hp).
  - right. right. apply Exists_exists in Ht as ([writing amount ref'|calls] & Hin & Ht).
    + cbn in Ht. subst ref'. eauto.
    + right. exists calls. split; [done|]. by apply settled_not_pending.
Qed.

End Channel.

Arguments System : clear implicits.

(** A channel of one message: 10 is sent, a reader of room waits, 10 is received. *)
Definition sample_channel : State Z := MkState (MkOptions 1 8) [] 0 0 false None None.

(** The channel while the reader of room is waiting. *)
Definition waiting_system : System Z :=
  MkSystem (MkState (MkOptions 1 8) [MkEntry 10 3] 3 4 false None (Some 5)) {[5 := None]} [10] [] [].

(** The message is received: the thread that took it has the source of the reader of room in hand. *)
Definition waking_system : System Z :=
  MkSystem (MkState (MkOptions 1 8) [] 0 4 false None None) {[5 := None]} [10] [10]
    [Leaving [CallComplete (Some 5) ErrorCode_Ok]].

Definition sample_system : System Z :=
  MkSystem (MkState (MkOptions 1 8) [] 0 4 false None None) {[5 := Some ErrorCode_Ok]} [10] [10] [].

Ltac end_of_steps := match goal with |- rtc _ ?a ?b => replace a with b; [apply rtc_refl|reflexivity] end.

Lemma waiting_system_steps : rtc channel_step (MkSystem sample_channel ∅ [] [] []) waiting_system.
Proof.
  eapply rtc_l; [eapply (Step_Send _ true 10 3); [lia|reflexivity]|].
  eapply rtc_l; [eapply (Step_Call _ [] [] false); reflexivity|].
  eapply rtc_l; [eapply (Step_Return _ [] []); reflexivity|].
  eapply rtc_l; [eapply (Step_Create _ true 4 5); [lia|reflexivity|by repeat split]|].
  eapply rtc_l; [eapply (Step_Subscribe _ [] []); reflexivity|].
  eapply rtc_l; [eapply (Step_Call _ [] [] false); reflexivity|].
  eapply rtc_l; [eapply (Step_Return _ [] []); reflexivity|]. end_of_steps.
Qed.

Lemma waking_system_steps : rtc channel_step (MkSystem sample_channel ∅ [] [] []) waking_system.
Proof.
  etrans; [apply waiting_system_steps|].
  eapply rtc_l; [eapply (Step_Receive _ None false); reflexivity|]. end_of_steps.
Qed.

Lemma sample_system_steps : rtc channel_step (MkSystem sample_channel ∅ [] [] []) sample_system.
Proof.
  etrans; [apply waking_system_steps|].
  eapply rtc_l; [eapply (Step_Call _ [] [] false); reflexivity|].
  eapply rtc_l; [eapply (Step_Return _ [] []); reflexivity|]. end_of_steps.
Qed.

Lemma channel_fifo_bounded_witness :
  received sample_system ++ map value (queue (chan sample_system)) = sent sample_system.
Proof.
  apply (channel_fifo_bounded (MkOptions 1 8) sample_channel (MkSystem sample_channel ∅ [] [] [])).
  - by repeat split.
  - apply sample_system_steps.
Defined.

Lemma channel_no_lost_wakeup_witness :
  CanSend (chan waiting_system) (writeBytes (chan waiting_system)) = false /\
  CanSend (chan waking_system) (writeBytes (chan waking_system)) = true /\
  exists calls, Leaving calls ∈ threads waking_system
    /\ forall stopped s, SourceIsPending (PerformAll stopped calls s) (Some 5) = false.
Proof.
  split; [reflexivity|]. split; [reflexivity|].
  destruct (channel_no_lost_wakeup (MkOptions 1 8) sample_channel
    (MkSystem sample_channel ∅ [] [] []) waking_system 5) as [(?&_)|[(?&_)|[(w & n & H)|H]]].
  - by repeat split.
  - apply waking_system_steps.
  - reflexivity.
  - discriminate.
  - discriminate.
  - apply list_elem_of_singleton in H. discriminate.
  - exact H.
Defined.

Module LatestValue.

Section LatestValue.

Context {T : Type}.

Record LatestValueOptions : Type := MkLatestOptions {
  latestMaxRetainedBytes : Z;
  maxSubscriptions : Z
}.

Record Snapshot : Type := MkSnapshot { snapshotVersion : Z; snapshotValue : option T }.

(** [watchers] is [None] when the [std::unique_ptr] is null. *)
Record LatestState : Type := MkLatest {
  latestOptions : LatestValueOptions;
  latestBytes : Z;
  latest : option T;
  version : Z;
  latestClosed : bool;
  watchers : option (list Z)
}.

Definition CreateLatest (alloc : bool) (opts : LatestValueOptions) : Result LatestState :=
  if (latestMaxRetainedBytes opts =? 0) || (maxSubscriptions opts =? 0) then
    FromStatus (Fail InvalidArgument)
  else if negb alloc then FromStatus Status.AllocationFailure
  else FromValue (MkLatest opts 0 None 0 false (Some [])).

(** Completing every source of a list, in order. *)
Definition CompleteAll (refs : list Z) (code : ErrorCode) : list Call :=
  map (fun ref => CallComplete (Some ref) code) refs.

(** [None]: the null list of watchers was dereferenced. *)
Definition Publish (alloc : bool) (v : option T) (retainedBytes : Z) (h : option LatestState)
    : option (Status * option LatestState * list Call) :=
  match h, v with
  | Some st, Some v =>
      if latestMaxRetainedBytes (latestOptions st) <? retainedBytes then
        Some (Fail TooLarge, h, [])
      else if negb alloc then Some (Status.AllocationFailure, h, [])
      else if latestClosed st then Some (Fail Closed, h, [])
      else if version st =? UINT64_MAX then Some (Fail TooLarge, h, [])
      else
        let st' := MkLatest (latestOptions st) retainedBytes (Some v) (version st + 1)
          (latestClosed st) (Some []) in
        match watchers st with
        | None => None
        | Some ready => Some (Status.Ok, Some st', CompleteAll ready ErrorCode_Ok)
        end
  | _, _ => Some (Fail InvalidArgument, h, [])
  end.

Definition ReadImpl (after : Z) (wait : option bool) (stop : bool) (h : option LatestState)
    : Result Snapshot :=
  match h with
  | None => FromStatus (Fail InvalidArgument)
  | Some st =>
      if version st <? after then FromStatus (Fail InvalidArgument)
      else if match wait with Some false => true | _ => false end then
        FromStatus (Fail (if stop then Cancelled else Timeout))
      else if stop then FromStatus (Fail Cancelled)
      else if version st =? after then
        FromStatus (Fail (if latestClosed st then Closed else WouldBlock))
      else FromValue (MkSnapshot (version st) (latest st))
  end.

Definition ReadAfter (after : Z) (h : option LatestState) : Result Snapshot :=
  ReadImpl after None false h.

(** The critical section of [WaitForChange], with [ref] the subscription it has created, and the
    calls that follow it; [s] are the sources at that time. *)
Definition WaitLocked (after ref : Z) (st : LatestState) (s : Sources)
    : option (Result Z * LatestState * list Call) :=
  if version st <? after then Some (FromStatus (Fail InvalidArgument), st, [CallDestroy ref])
  else if negb (version st =? after) then
    Some (FromValue ref, st, [CallBindCancellation ref; CallComplete (Some ref) ErrorCode_Ok])
  else if latestClosed st then
    Some (FromValue ref, st, [CallBindCancellation ref; CallComplete (Some ref) Closed])
  else
    match watchers st with
    | None => None
    | Some ws =>
        let live := List.filter (fun w => SourceIsPending s (Some w)) ws in
        let with_watchers ws' := MkLatest (latestOptions st) (latestBytes st) (latest st)
          (version st) (latestClosed st) (Some ws') in
        if maxSubscriptions (latestOptions st) <=? len live then
          Some (FromStatus (Fail WouldBlock), with_watchers live, [CallDestroy ref])
        else Some (FromValue ref, with_watchers (live ++ [ref]), [CallBindCancellation ref])
    end.

(** [created] and [allocNode]: the outcomes of creating the subscription and its list node. *)
Definition WaitForChange (created : Result Z) (allocNode : bool) (after : Z)
    (h : option LatestState) (s : Sources) : option (Result Z * option LatestState * list Call) :=
  match h with
  | None => Some (FromStatus (Fail InvalidArgument), h, [])
  | Some st =>
      match created with
      | FromStatus e => Some (FromStatus e, h, [])
      | FromValue ref =>
          if negb allocNode then Some (FromStatus Status.AllocationFailure, h, [CallDestroy ref])
          else
            match WaitLocked after ref st s with
            | Some (r, st', calls) => Some (r, Some st', calls)
            | None => None
            end
      end
  end.

Definition CloseLatest (h : option LatestState) : option LatestState * list Call :=
  match h with
  | None => (h, [])
  | Some st =>
      (Some (MkLatest (latestOptions st) (latestBytes st) (latest st) (version st) true None),
       match watchers st with Some ready => CompleteAll ready Closed | None => [] end)
  end.

(** The destructor of the state, run by the last handle. *)
Definition DestroyLatest (st : LatestState) : list Call :=
  match watchers st with Some ready => CompleteAll ready Closed | None => [] end.

Definition LatestRetainedBytes (h : option LatestState) : Z :=
  match h with Some st => latestBytes st | None => 0 end.

End LatestValue.

Arguments LatestState : clear implicits.
Arguments Snapshot : clear implicits.

End LatestValue.

Import LatestValue.

Section Latest.

Context {T : Type}.

(** A thread inside an operation: it has created its subscription for changes after a generation and
    waits for the mutex, or it has released the mutex and has calls left to make. *)
Inductive LatestThread : Type :=
| Watching (after ref : Z)
| LeavingLatest (calls : list Call).

(** A latest value with the sources, the values published so far, the generation each registered
    subscription waits to pass and the threads inside an operation. *)
Record Publication : Type := MkPublication {
  current : LatestState T;
  signals : Sources;
  published : list T;
  awaiting : gmap Z Z;
  workers : list LatestThread
}.

Definition latest_mentions (ref : Z) (t : LatestThread) : Prop :=
  match t with
  | Watching _ ref' => ref' = ref
  | LeavingLatest calls => Exists (mentions ref) calls
  end.

Inductive latest_step (p : Publication) : Publication -> Prop :=
| Latest_Publish alloc v n status st' calls :
    0 <= n -> Publish alloc (Some v) n (Some (current p)) = Some (status, Some st', calls) ->
    latest_step p (MkPublication st' (signals p)
      (if Status.IsOk status then published p ++ [v] else published p) (awaiting p)
      (LeavingLatest calls :: workers p))
| Latest_Create ref after :
    signals p !! ref = None -> awaiting p !! ref = None ->
    Forall (fun t => ~ latest_mentions ref t) (workers p) ->
    latest_step p (MkPublication (current p) (<[ref := None]> (signals p)) (published p)
      (<[ref := after]> (awaiting p)) (Watching after ref :: workers p))
| Latest_Wait a b after ref r st' calls :
    workers p = a ++ Watching after ref :: b ->
    WaitLocked after ref (current p) (signals p) = Some (r, st', calls) ->
    latest_step p (MkPublication st' (signals p) (published p) (awaiting p)
      (a ++ LeavingLatest calls :: b))
| Latest_Close st' calls :
    CloseLatest (Some (current p)) = (Some st', calls) ->
    latest_step p (MkPublication st' (signals p) (published p) (awaiting p)
      (LeavingLatest calls :: workers p))
| Latest_Call a b stopped call calls :
    workers p = a ++ LeavingLatest (call :: calls) :: b ->
    latest_step p (MkPublication (current p) (Perform stopped call (signals p)) (published p)
      (awaiting p) (a ++ LeavingLatest calls :: b))
| Latest_Return a b :
    workers p = a ++ LeavingLatest [] :: b ->
    latest_step p (MkPublication (current p) (signals p) (published p) (awaiting p) (a ++ b))
| Latest_Cancel ref :
    latest_step p (MkPublication (current p) (SourceComplete (Some ref) Cancelled (signals p))
      (published p) (awaiting p) (workers p))
| Latest_Expire ref :
    latest_step p (MkPublication (current p) (delete ref (signals p)) (published p) (awaiting p)
      (workers p)).

(** The thread has the source [ref] in hand: it has yet to register it, or it has a call left that
    completes or destroys it. *)
Definition latest_in_hand (ref : Z) (t : LatestThread) : Prop :=
  match t with
  | Watching _ ref' => ref' = ref
  | LeavingLatest calls => Exists (settles ref) calls
  end.

(** What a pending subscription waits for. *)
Definition watched (st : LatestState T) (ref after : Z) : Prop :=
  after = version st /\ exists ws, watchers st = Some ws /\ ref ∈ ws.

Record latest_ok (p : Publication) : Prop := MkLatestOk {
  latest_watchers : match watchers (current p) with
    | Some ws => latestClosed (current p) = false /\
        len ws <= maxSubscriptions (latestOptions (current p))
    | None => latestClosed (current p) = true
    end;
  latest_version : version (current p) = len (published p) /\ version (current p) <= UINT64_MAX;
  latest_value : latest (current p) = last (published p);
  latest_bytes : latestBytes (current p) <= latestMaxRetainedBytes (latestOptions (current p));
  latest_own : forall after ref, Watching after ref ∈ workers p -> awaiting p !! ref = Some after;
  latest_waits : forall ref after, awaiting p !! ref = Some after ->
    SourceIsPending (signals p) (Some ref) = true ->
    watched (current p) ref after \/ Exists (latest_in_hand ref) (workers p)
}.

Lemma complete_all_settles refs code x : x ∈ refs -> Exists (settles x) (CompleteAll refs code).
Proof.
  intros Hx. apply Exists_exists. exists (CallComplete (Some x) code). split.
  - unfold CompleteAll. apply list_elem_of_fmap. eauto.
  - left. eauto.
Qed.

Lemma len_filter_le {A} (f : A -> bool) l : len (List.filter f l) <= len l.
Proof.
  unfold len. induction l as [|a l IH]; [done|]. cbn. destruct (f a); cbn [length]; lia.
Qed.

(** Only the sources, and the threads, change: what was pending and in hand before is in hand now. *)
Lemma latest_ok_sources p s ts :
  latest_ok p ->
  (forall after ref, Watching after ref ∈ ts -> Watching after ref ∈ workers p) ->
  (forall ref, SourceIsPending s (Some ref) = true ->
     SourceIsPending (signals p) (Some ref) = true /\
     (Exists (latest_in_hand ref) (workers p) -> Exists (latest_in_hand ref) ts)) ->
  latest_ok (MkPublication (current p) s (published p) (awaiting p) ts).
Proof.
  intros [H1 H2 H3 H4 H5 H6] Hw Hs. constructor; cbn; auto.
  intros ref after Ha Hp. destruct (Hs ref Hp) as [Hp' Ht]. destruct (H6 ref after Ha Hp'); auto.
Qed.

Lemma own_cons p calls after ref :
  (forall after ref, Watching after ref ∈ workers p -> awaiting p !! ref = Some after) ->
  Watching after ref ∈ LeavingLatest calls :: workers p -> awaiting p !! ref = Some after.
Proof. intros H [|?]%elem_of_cons; [done|auto]. Qed.

Lemma latest_ok_publish p alloc v n status st' calls :
  latest_ok p -> Publish alloc (Some v) n (Some (current p)) = Some (status, Some st', calls) ->
  latest_ok (MkPublication st' (signals p)
    (if Status.IsOk status then published p ++ [v] else published p) (awaiting p)
    (LeavingLatest calls :: workers p)).
Proof.
  intros Hok H. pose proof Hok as [H1 [H2 H2'] H3 H4 H5 H6]. unfold Publish in H.
  assert (latest_ok (MkPublication (current p) (signals p) (published p) (awaiting p)
    (LeavingLatest [] :: workers p))) as Hsame.
  { apply latest_ok_sources; [done| |].
    - intros after ref [|?]%elem_of_cons; done.
    - intros ref Hp. rewrite Exists_cons. auto. }
  destruct (_ <? n) eqn:En; [by injection H as <- <- <-|].
  destruct alloc; cbn [negb] in H; [|by injection H as <- <- <-].
  destruct (latestClosed (current p)) eqn:Ec; [by injection H as <- <- <-|].
  destruct (version (current p) =? UINT64_MAX) eqn:Ev; [by injection H as <- <- <-|].
  destruct (watchers (current p)) as [ws|] eqn:Ew; [|done]. injection H as <- <- <-.
  change (Status.IsOk Status.Ok) with true. cbv iota.
  constructor; cbn [current signals published awaiting workers watchers latestClosed version
    latest latestBytes latestOptions].
  - split; [done|]. change (len (@nil Z)) with 0. destruct H1 as [_ H1]. pose proof (len_nonneg ws). lia.
  - rewrite len_app. change (len [v]) with 1. lia.
  - by rewrite last_snoc.
  - lia.
  - intros after ref. by apply own_cons.
  - intros ref w Hw Hp. right. rewrite Exists_cons. cbn [latest_in_hand].
    destruct (H6 ref w Hw Hp) as [(_ & ws' & [= <-]%(eq_trans (eq_sym Ew)) & Hin)|?]; [|auto].
    left. by apply complete_all_settles.
Qed.

Lemma own_middle p a b t calls after ref :
  (forall after ref, Watching after ref ∈ workers p -> awaiting p !! ref = Some after) ->
  workers p = a ++ t :: b ->
  Watching after ref ∈ a ++ LeavingLatest calls :: b -> awaiting p !! ref = Some after.
Proof. intros H Ht [?|[|?]%elem_of_cons]%elem_of_app; [|done|]; apply H; rewrite Ht; set_solver. Qed.

Lemma latest_ok_wait p a b after ref r st' calls :
  latest_ok p -> workers p = a ++ Watching after ref :: b ->
  WaitLocked after ref (current p) (signals p) = Some (r, st', calls) ->
  latest_ok (MkPublication st' (signals p) (published p) (awaiting p) (a ++ LeavingLatest calls :: b)).
Proof.
  intros Hok Ht H. pose proof Hok as [H1 H2 H3 H4 H5 H6]. unfold WaitLocked in H.
  assert (awaiting p !! ref = Some after) as Haw by (apply H5; rewrite Ht; set_solver).
  assert (forall calls, Exists (settles ref) calls -> latest_ok (MkPublication (current p) (signals p)
    (published p) (awaiting p) (a ++ LeavingLatest calls :: b))) as Hsame.
  { intros cs Hc. apply latest_ok_sources; [done| |].
    - intros after' ref'. rewrite Ht. set_solver.
    - intros x Hp. rewrite Ht, !Exists_app, !Exists_cons. cbn [latest_in_hand]. split; [done|].
      intros [?|[<-|?]]; auto. }
  destruct (version (current p) <? after) eqn:Ea.
  { injection H as <- <- <-. apply Hsame. left. by right. }
  destruct (version (current p) =? after) eqn:Ee; cbn [negb] in H.
  2:{ injection H as <- <- <-. apply Hsame. right. left. left. eauto. }
  destruct (latestClosed (current p)) eqn:Ec.
  { injection H as <- <- <-. apply Hsame. right. left. left. eauto. }
  destruct (watchers (current p)) as [ws|] eqn:Ew; [|done]. destruct H1 as [_ Hlen].
  cbv zeta in H. set (live := List.filter _ ws) in H.
  pose proof (len_filter_le (fun w => SourceIsPending (signals p) (Some w)) ws) as Hll. fold live in Hll.
  assert (forall x w, awaiting p !! x = Some w -> SourceIsPending (signals p) (Some x) = true ->
    (w = version (current p) /\ x ∈ live) \/ x = ref \/ Exists (latest_in_hand x) a \/ Exists (latest_in_hand x) b)
    as Hlive.
  { intros x w Hw Hp. destruct (H6 x w Hw Hp) as [(-> & ws' & [= <-]%(eq_trans (eq_sym Ew)) & Hin)|Hx].
    - left. split; [done|]. apply list_elem_of_In, filter_In. split; [by apply list_elem_of_In|done].
    - rewrite Ht, Exists_app, Exists_cons in Hx. cbn [latest_in_hand] in Hx. destruct Hx as [?|[<-|?]]; auto. }
  destruct (maxSubscriptions _ <=? len live) eqn:Em; injection H as <- <- <-;
    constructor; cbn [current signals published awaiting workers watchers latestClosed version latest
      latestBytes latestOptions]; try done; try (intros ?? Hin; by eapply own_middle).
  - split; [done|]. lia.
  - intros x w Hw Hp. rewrite Exists_app, Exists_cons. cbn [latest_in_hand]. rewrite Exists_cons.
    destruct (Hlive x w Hw Hp) as [[-> Hin]|[->|Hx]]; [|right; right; left; left; by right|tauto].
    left. split; [done|]. eauto.
  - split; [done|]. rewrite len_app. change (len [ref]) with 1. lia.
  - intros x w Hw Hp. rewrite Exists_app, Exists_cons.
    destruct (Hlive x w Hw Hp) as [[-> Hin]|[->|Hx]]; [| |tauto]; left; (split; [|eexists; split; [done|]]).
    + done.
    + apply elem_of_app. auto.
    + rewrite Haw in Hw. injection Hw as <-. cbn. lia.
    + apply elem_of_app. right. by left.
Qed.

Lemma latest_ok_create p ref after :
  latest_ok p -> awaiting p !! ref = None -> Forall (fun t => ~ latest_mentions ref t) (workers p) ->
  latest_ok (MkPublication (current p) (<[ref := None]> (signals p)) (published p)
    (<[ref := after]> (awaiting p)) (Watching after ref :: workers p)).
Proof.
  intros [H1 H2 H3 H4 H5 H6] Hnew Hf. constructor; cbn [current signals published awaiting workers]; auto.
  - intros after' ref' [[= -> ->]|Hin]%elem_of_cons; [by rewrite lookup_insert_eq|].
    rewrite lookup_insert_ne; [by apply H5|]. intros ->. rewrite Forall_forall in Hf.
    by destruct (Hf _ Hin).
  - intros x w Hw Hp. rewrite Exists_cons. destruct (decide (x = ref)) as [->|Hne]; [by right; left|].
    rewrite lookup_insert_ne in Hw by done. apply insert_pending in Hp; [|congruence].
    destruct (H6 x w Hw Hp); auto.
Qed.

Lemma latest_ok_close p st' calls :
  latest_ok p -> CloseLatest (Some (current p)) = (Some st', calls) ->
  latest_ok (MkPublication st' (signals p) (published p) (awaiting p) (LeavingLatest calls :: workers p)).
Proof.
  intros [H1 H2 H3 H4 H5 H6] H. cbn in H. injection H as <- <-.
  constructor; cbn [current signals published awaiting workers watchers latestClosed version latest
    latestBytes latestOptions]; try done.
  - intros after ref. by apply own_cons.
  - intros x w Hw Hp. right. rewrite Exists_cons. cbn [latest_in_hand].
    destruct (H6 x w Hw Hp) as [(_ & ws & -> & Hin)|?]; [|auto]. left. by apply complete_all_settles.
Qed.

Lemma latest_ok_step p p' : latest_ok p -> latest_step p p' -> latest_ok p'.
Proof.
  intros Hok Hstep. destruct Hstep as [| | | |a b stopped call calls Ht|a b Ht|ref|ref].
  - by eapply latest_ok_publish.
  - by apply latest_ok_create.
  - by eapply latest_ok_wait.
  - by apply latest_ok_close.
  - apply latest_ok_sources; [done|intros ??; rewrite Ht; set_solver|].
    intros x [Hp Hn]%perform_pending. rewrite Ht, !Exists_app, !Exists_cons. cbn [latest_in_hand].
    rewrite Exists_cons. tauto.
  - apply latest_ok_sources; [done|intros ??; rewrite Ht; set_solver|].
    intros x Hp. rewrite Ht, !Exists_app, !Exists_cons. cbn [latest_in_hand]. rewrite Exists_nil. tauto.
  - apply latest_ok_sources; [done..|]. by intros x [Hp _]%source_complete_pending.
  - apply latest_ok_sources; [done..|]. by intros x [Hp _]%delete_pending.
Qed.

Definition publication_start (opts : LatestValueOptions) (p : Publication) : Prop :=
  0 <= latestMaxRetainedBytes opts /\ 0 <= maxSubscriptions opts /\
  exists st, CreateLatest true opts = FromValue st /\ p = MkPublication st ∅ [] ∅ [].

Lemma latest_ok_steps opts p0 p :
  publication_start opts p0 -> rtc latest_step p0 p -> latest_ok p.
Proof.
  intros (Hb & Hs & st & Hc & ->) Hsteps. unfold CreateLatest in Hc. case_if_in Hc; [done|].
  injection Hc as <-. assert (forall p0, latest_ok p0 -> rtc latest_step p0 p -> latest_ok p) as Hind.
  { induction 2; eauto using latest_ok_step. }
  eapply Hind, Hsteps. constructor; cbn.
  - split; [done|]. by change (len (@nil Z)) with 0.
  - unfold UINT64_MAX. by change (len (@nil T)) with 0.
  - done.
  - lia.
  - intros after ref H. by apply elem_of_nil in H.
  - intros ref v H. by rewrite lookup_empty in H.
Qed.

(** A latest value is read at its newest generation and loses no watcher: in any interleaving of
    publications, subscriptions, cancellations and closing, the generation counts the accepted
    publications and never wraps, a read after an older generation returns the last value
    published, no operation dereferences the list of watchers after it was moved away, that list
    stays within the subscription limit, and a subscription still pending waits for the current
    generation of an open value, or a thread has it in hand: its own [WaitForChange] has not yet
    reached the mutex, or an operation has left the mutex with calls to make that complete it. *)
Theorem latest_value_correct opts p0 p :
  publication_start opts p0 -> rtc latest_step p0 p ->
  version (current p) = len (published p) /\ version (current p) <= UINT64_MAX /\
  (forall v, 0 <= v < len (published p) ->
    ReadAfter v (Some (current p)) = FromValue (MkSnapshot (len (published p)) (last (published p)))) /\
  (forall alloc v n, Publish alloc v n (Some (current p)) <> None) /\
  (forall r a v, WaitForChange r a v (Some (current p)) (signals p) <> None) /\
  (forall ref v, awaiting p !! ref = Some v -> SourceIsPending (signals p) (Some ref) = true ->
    (v = len (published p) /\ latestClosed (current p) = false) \/
    Exists (latest_in_hand ref) (workers p)).
Proof.
  intros Hstart Hsteps. destruct (latest_ok_steps opts p0 p Hstart Hsteps) as [H1 [H2 H2'] H3 H4 _ H5].
  split_and!; [done..| | | |].
  - intros v Hv. unfold ReadAfter, ReadImpl. rewrite H2, H3.
    replace (len (published p) <? v) with false by lia.
    by replace (len (published p) =? v) with false by lia.
  - intros alloc v n. unfold Publish. destruct v as [v|]; [|done].
    repeat (case_if; [done|]). destruct (watchers (current p)); [done|]. congruence.
  - intros r a v. unfold WaitForChange, WaitLocked. destruct r as [ref|]; [|done].
    repeat (case_if; [done|]). destruct (watchers (current p)); [by case_if|]. congruence.
  - intros ref v Hw Hp. destruct (H5 ref v Hw Hp) as [(-> & ws & Hws & _)|?]; [|by right].
    left. split; [done|]. rewrite Hws in H1. by destruct H1.
Qed.

End Latest.

Arguments Publication : clear implicits.

Definition sample_latest : LatestState Z := MkLatest (MkLatestOptions 8 1) 0 None 0 false (Some []).

(** A watcher of generation 0, then one publication. *)
Definition sample_publication : Publication Z :=
  MkPublication (MkLatest (MkLatestOptions 8 1) 3 (Some 42) 1 false (Some []))
    {[5 := Some ErrorCode_Ok]} [42] {[5 := 0]} [LeavingLatest [CallBindCancellation 5]].

Lemma sample_publication_steps :
  rtc latest_step (MkPublication sample_latest ∅ [] ∅ []) sample_publication.
Proof.
  eapply rtc_l; [eapply (Latest_Create _ 5 0); [reflexivity|reflexivity|constructor]|].
  eapply rtc_l; [eapply (Latest_Wait _ [] []); reflexivity|].
  eapply rtc_l; [eapply (Latest_Publish _ true 42 3); [lia|reflexivity]|].
  eapply rtc_l; [eapply (Latest_Call _ [] _ false); reflexivity|].
  eapply rtc_l; [eapply (Latest_Return _ [] _); reflexivity|]. end_of_steps.
Qed.

Lemma latest_value_correct_witness :
  ReadAfter 0 (Some (current sample_publication)) = FromValue (MkSnapshot 1 (Some 42)).
Proof.
  destruct (latest_value_correct (MkLatestOptions 8 1) (MkPublication sample_latest ∅ [] ∅ [])
    sample_publication) as (_ & _ & Hr & _).
  - split; [cbn; lia|]. split; [cbn; lia|]. exists sample_latest. split; reflexivity.
  - apply sample_publication_steps.
  - apply (Hr 0). change (len (published sample_publication)) with 1. lia.
Defined.
