(* ===== verification/SendQueue.v ===== *)
(** * Net: shared budgets, the send queue and waiting for capacity.

    [Core/AtomicBudgetInternal.h] (module [AtomicBudget]), [Net/SendBudgetInternal.h|cpp]
    ([SendBudget]), [Net/SendQueueInternal.h|cpp] ([SendQueue]) and the [SendCapacityState] of
    [Net/ConnectionFlowControl.cpp] ([SendCapacity]).  One budget is shared by the queues of all
    connections of a host; a connection's mutex serializes the operations of its own queue, and the
    operations of different queues interleave at the budget ([net_step]).  The compare-and-exchange
    loops act on the counter only in the exchange that succeeds, on the value it then has. *)

From S2P Require Import Prelude CoreError Completion.
From stdpp Require Import gmap.
#[local] Open Scope Z_scope.
Import Completion.

Module AtomicBudget.

(** The reservation and the counter after it. *)
Definition TryReserveBudget (used limit amount : Z) : bool * Z :=
  if amount =? 0 then (true, used)
  else if (limit <? used) || (limit - used <? amount) then (false, used)
  else (true, used + amount).

(** [None]: the assertion fails. *)
Definition ReleaseBudget (used amount : Z) : option Z :=
  if amount =? 0 then Some used
  else if used <? amount then None
  else Some (used - amount).

End AtomicBudget.

Module SendBudget.

Record SendBudget : Type := MkBudget {
  mLimitBytes : Z;
  mConnectionLimitBytes : Z;
  mUsedBytes : Z;
  mWaiters : gmap Z Z; (* registration -> capacity state *)
  mNextId : Z;
  mChanged : bool
}.

(** [None]: an assertion of the constructor fails. *)
Definition New (limitBytes connectionLimitBytes : Z) : option SendBudget :=
  if (limitBytes =? 0) || (connectionLimitBytes =? 0) then None
  else Some (MkBudget limitBytes connectionLimitBytes 0 ∅ 1 false).

Definition with_used (used : Z) (b : SendBudget) : SendBudget :=
  MkBudget (mLimitBytes b) (mConnectionLimitBytes b) used (mWaiters b) (mNextId b) (mChanged b).

Definition TryReserve (byteCount : Z) (b : SendBudget) : bool * SendBudget :=
  let (ok, used) := AtomicBudget.TryReserveBudget (mUsedBytes b) (mLimitBytes b) byteCount in
  (ok, with_used used b).

Definition MarkChanged (b : SendBudget) : SendBudget :=
  MkBudget (mLimitBytes b) (mConnectionLimitBytes b) (mUsedBytes b) (mWaiters b) (mNextId b) true.

Definition Release (byteCount : Z) (b : SendBudget) : option SendBudget :=
  match AtomicBudget.ReleaseBudget (mUsedBytes b) byteCount with
  | None => None
  | Some used =>
      let b' := with_used used b in
      Some (if byteCount =? 0 then b' else MarkChanged b')
  end.

(** [None]: the registration numbers are exhausted. *)
Definition Register (state : Z) (b : SendBudget) : option (Z * SendBudget) :=
  if mNextId b =? 0 then None
  else
    Some (mNextId b,
      MkBudget (mLimitBytes b) (mConnectionLimitBytes b) (mUsedBytes b)
        (<[mNextId b := state]> (mWaiters b)) (wrap64 (mNextId b + 1)) (mChanged b)).

Definition Unregister (id : Z) (b : SendBudget) : SendBudget :=
  MkBudget (mLimitBytes b) (mConnectionLimitBytes b) (mUsedBytes b)
    (delete id (mWaiters b)) (mNextId b) (mChanged b).

End SendBudget.

Import SendBudget.

Module SendQueue.

Record SendQueue : Type := MkQueue {
  mPayloads : list (list Z);
  mOffset : nat;
  mQueuedBytes : Z;
  mRetainedBytes : Z;
  mCapacityRetained : Z (* the copy published to the capacity state *)
}.

Definition NewQueue : SendQueue := MkQueue [] 0 0 0 0.

(** The check against the connection's own limit. *)
Definition FitsConnection (b : SendBudget) (bytes : list Z) (q : SendQueue) : bool :=
  negb ((mConnectionLimitBytes b <? mRetainedBytes q)
        || (mConnectionLimitBytes b - mRetainedBytes q <? len bytes)).

(** The part of [Enqueue] after the payload is stored. *)
Definition StorePayload (bytes : list Z) (q : SendQueue) : SendQueue :=
  let retained := mRetainedBytes q + len bytes in
  MkQueue (mPayloads q ++ [bytes]) (mOffset q) (mQueuedBytes q + len bytes) retained retained.

Definition WouldBlockStatus : Status := Status.FailWithoutMessage WouldBlock.

(** [None]: the assertion of [Release] fails. *)
Definition Enqueue (alloc : bool) (bytes : list Z) (q : SendQueue) (b : SendBudget)
    : option (Status * SendQueue * SendBudget) :=
  if len bytes =? 0 then Some (Status.Ok, q, b)
  else if negb (FitsConnection b bytes q) then Some (WouldBlockStatus, q, b)
  else
    let (reserved, b') := TryReserve (len bytes) b in
    if negb reserved then Some (WouldBlockStatus, q, b')
    else if negb alloc then
      match Release (len bytes) b' with
      | Some b'' => Some (Status.AllocationFailure, q, b'')
      | None => None
      end
    else Some (Status.Ok, StorePayload bytes q, b').

Definition Empty (q : SendQueue) : bool := len (mPayloads q) =? 0.

(** [None]: the assertion fails. *)
Definition Front (q : SendQueue) : option (list Z) :=
  match mPayloads q with
  | [] => None
  | front :: _ => Some (drop (mOffset q) front)
  end.

(** The part of [Consume] on the queue itself, with the bytes to release. *)
Definition ConsumeLocal (bytes : nat) (q : SendQueue) : option (SendQueue * Z) :=
  match mPayloads q with
  | [] => None
  | front :: rest =>
      if (length front - mOffset q <? bytes)%nat then None
      else
        let offset := (mOffset q + bytes)%nat in
        let queued := mQueuedBytes q - Z.of_nat bytes in
        if (offset =? length front)%nat then
          let retained := mRetainedBytes q - len front in
          Some (MkQueue rest 0 queued retained retained, len front)
        else
          Some (MkQueue (front :: rest) offset queued (mRetainedBytes q) (mCapacityRetained q), 0)
  end.

Definition Consume (bytes : nat) (q : SendQueue) (b : SendBudget)
    : option (SendQueue * SendBudget) :=
  match ConsumeLocal bytes q with
  | None => None
  | Some (q', released) =>
      match Release released b with Some b' => Some (q', b') | None => None end
  end.

Definition ClearLocal (q : SendQueue) : SendQueue * Z := (MkQueue [] 0 0 0 0, mRetainedBytes q).

Definition Clear (q : SendQueue) (b : SendBudget) : option (SendQueue * SendBudget) :=
  let (q', released) := ClearLocal q in
  match Release released b with Some b' => Some (q', b') | None => None end.

Definition QueuedBytes (q : SendQueue) : Z := mQueuedBytes q.
Definition RetainedBytes (q : SendQueue) : Z := mRetainedBytes q.

End SendQueue.

Import SendQueue.

Module SendCapacity.

(** [SendCapacityState]; its [mRetainedBytes] is the queue's [mCapacityRetained]. *)
Record SendCapacityState : Type := MkCapacity {
  capacityRetained : Z;
  mClosed : bool;
  mPending : option Z;
  mRequiredBytes : Z;
  mRegistration : Z
}.

Definition SetRetainedBytes (bytes : Z) (c : SendCapacityState) : SendCapacityState :=
  MkCapacity bytes (mClosed c) (mPending c) (mRequiredBytes c) (mRegistration c).

Definition CloseCapacity (c : SendCapacityState) (b : SendBudget)
    : SendCapacityState * SendBudget :=
  (MkCapacity (capacityRetained c) true (mPending c) (mRequiredBytes c) (mRegistration c),
   MarkChanged b).

(** The condition of [Notify]: both the connection and the shared budget have room. *)
Definition HasRoom (required shared local : Z) (b : SendBudget) : bool :=
  (local <=? mConnectionLimitBytes b) && (required <=? mConnectionLimitBytes b - local)
  && (shared <=? mLimitBytes b) && (required <=? mLimitBytes b - shared).

Definition Notify (c : SendCapacityState) (b : SendBudget) (s : Sources) : Sources :=
  if negb (SourceIsPending s (mPending c)) then s
  else if mClosed c then SourceComplete (mPending c) Closed s
  else if HasRoom (mRequiredBytes c) (mUsedBytes b) (capacityRetained c) b then
    SourceComplete (mPending c) ErrorCode_Ok s
  else s.

(** [created]: the outcome of [CompletionSubscription::Create]; [self] names this state.  [None]: the
    assertion of [Register] fails. *)
Definition Wait (self bytes : Z) (hasCallback : bool) (created : Result Z) (stopped : bool)
    (c : SendCapacityState) (b : SendBudget) (s : Sources)
    : option (Result Z * SendCapacityState * SendBudget * Sources) :=
  if negb hasCallback || (bytes =? 0) then
    Some (FromStatus (Status.FailWithoutMessage InvalidArgument), c, b, s)
  else if (mConnectionLimitBytes b <? bytes) || (mLimitBytes b <? bytes) then
    Some (FromStatus (Status.FailWithoutMessage TooLarge), c, b, s)
  else
    match created with
    | FromStatus e => Some (FromStatus e, c, b, s)
    | FromValue source =>
        if mClosed c then Some (FromStatus (Status.FailWithoutMessage Closed), c, b, s)
        else if SourceIsPending s (mPending c) then
          Some (FromStatus (Status.FailWithoutMessage AlreadyExists), c, b, s)
        else
          match (if mRegistration c =? 0 then Register self b else Some (mRegistration c, b)) with
          | None => None
          | Some (registration, b') =>
              let c' := MkCapacity (capacityRetained c) (mClosed c) (Some source) bytes
                registration in
              let s1 := BindCancellation source stopped (<[source := None]> s) in
              Some (FromValue source, c', b', Notify c' b' s1)
          end
    end.

End SendCapacity.

Import SendCapacity.

(** ** Budgets *)

Lemma try_reserve_budget_spec used limit amount ok used' :
  0 <= amount -> used <= limit -> AtomicBudget.TryReserveBudget used limit amount = (ok, used') ->
  used' <= limit /\ (ok = true -> used' = used + amount) /\
  (ok = false -> used' = used /\ limit < used + amount).
Proof.
  unfold AtomicBudget.TryReserveBudget. intros Ha Hu H.
  repeat case_if_in H; injection H as <- <-; split_and!; intros; try done; lia.
Qed.

Lemma try_reserve_spec n b ok b' :
  0 <= n -> mUsedBytes b <= mLimitBytes b -> TryReserve n b = (ok, b') ->
  mLimitBytes b' = mLimitBytes b /\ mConnectionLimitBytes b' = mConnectionLimitBytes b /\
  mUsedBytes b' <= mLimitBytes b /\
  mUsedBytes b' = if ok then mUsedBytes b + n else mUsedBytes b.
Proof.
  intros Hn Hb H. unfold TryReserve in H.
  destruct (AtomicBudget.TryReserveBudget _ _ _) as [ok' used] eqn:E. injection H as <- <-.
  apply try_reserve_budget_spec in E as (H1 & H2 & H3); [|done..]. cbn.
  split_and!; [done..|]. destruct ok'; [auto|by apply H3].
Qed.

Lemma release_spec n b :
  0 <= n <= mUsedBytes b ->
  exists b', Release n b = Some b' /\ mUsedBytes b' = mUsedBytes b - n /\
    mLimitBytes b' = mLimitBytes b /\ mConnectionLimitBytes b' = mConnectionLimitBytes b.
Proof.
  intros Hn. unfold Release, AtomicBudget.ReleaseBudget.
  destruct (n =? 0) eqn:E0; [eexists; split_and!; [done|cbn; lia|done..]|].
  replace (mUsedBytes b <? n) with false by lia. by eexists.
Qed.

Lemma release_used n b b' :
  Release n b = Some b' -> mUsedBytes b' = mUsedBytes b - n /\
    mLimitBytes b' = mLimitBytes b /\ mConnectionLimitBytes b' = mConnectionLimitBytes b.
Proof.
  unfold Release, AtomicBudget.ReleaseBudget. intros H.
  destruct (n =? 0) eqn:E0; [injection H as <-; cbn; split_and!; (done || lia)|].
  destruct (mUsedBytes b <? n); [done|]. injection H as <-. done.
Qed.

(** ** One queue *)

(** The bytes not sent yet, in order. *)
Definition content (q : SendQueue) : list Z := drop (mOffset q) (concat (mPayloads q)).

Record queue_ok (q : SendQueue) : Prop := MkQueueOk {
  ok_payloads : Forall (fun p => p <> []) (mPayloads q);
  ok_offset : match mPayloads q with
    | [] => mOffset q = 0%nat
    | front :: _ => (mOffset q < length front)%nat
    end;
  ok_queued : mQueuedBytes q = len (content q);
  ok_retained : mRetainedBytes q = len (concat (mPayloads q));
  ok_published : mCapacityRetained q = mRetainedBytes q
}.

Lemma queue_ok_new : queue_ok NewQueue.
Proof. by constructor. Qed.

Lemma content_store bytes q :
  queue_ok q -> content (StorePayload bytes q) = content q ++ bytes.
Proof.
  intros [_ Ho _ _ _]. unfold content, StorePayload. cbn [mPayloads mOffset].
  rewrite concat_app. cbn [concat]. rewrite app_nil_r. apply drop_app_le.
  destruct (mPayloads q) as [|front rest]; cbn; [lia|]. rewrite length_app. lia.
Qed.

Lemma queue_ok_store bytes q : bytes <> [] -> queue_ok q -> queue_ok (StorePayload bytes q).
Proof.
  intros Hb Hq. pose proof (content_store bytes q Hq) as Hc. destruct Hq as [H1 H2 H3 H4 H5].
  constructor; [..|done].
  - cbn. apply Forall_app. split; [done|]. by constructor.
  - cbn. destruct (mPayloads q) as [|front rest]; cbn; [|done].
    destruct bytes; [done|]. cbn. lia.
  - rewrite Hc, len_app, <- H3. done.
  - cbn [mRetainedBytes mPayloads StorePayload]. rewrite concat_app, len_app, <- H4. cbn.
    by rewrite app_nil_r.
Qed.

Lemma consume_local_spec n q q' released :
  queue_ok q -> ConsumeLocal n q = Some (q', released) ->
  queue_ok q' /\ exists taken, length taken = n /\ content q = taken ++ content q' /\
    0 <= released /\ mRetainedBytes q = mRetainedBytes q' + released.
Proof.
  intros [H1 H2 H3 H4 H5] H. unfold ConsumeLocal in H. unfold content in *.
  destruct (mPayloads q) as [|front rest] eqn:Ep; [done|]. case_if_in H; [done|].
  cbn [concat] in *. rewrite len_app in H4.
  assert (drop (mOffset q) (front ++ concat rest) =
    slice (mOffset q) n front ++ drop (mOffset q + n) (front ++ concat rest)) as Hd.
  { rewrite !drop_app_le by lia. rewrite app_assoc. f_equal. unfold slice.
    rewrite <- drop_drop. by rewrite take_drop. }
  assert (length (slice (mOffset q) n front) = n) as Hl by (apply length_slice; lia).
  rewrite Hd, len_app in H3. unfold len at 1 in H3. rewrite Hl in H3.
  pose proof (len_nonneg front).
  destruct (mOffset q + n =? length front)%nat eqn:En; injection H as <- <-.
  - apply Nat.eqb_eq in En. rewrite En, drop_app_length in H3, Hd.
    split; [|exists (slice (mOffset q) n front); cbn; split_and!; (done || lia)].
    apply Forall_cons in H1 as [_ H1].
    constructor; cbn; [done| |unfold content; cbn [mOffset mPayloads]; rewrite ?drop_0; lia|lia|done].
    destruct rest as [|front' rest']; [done|]. apply Forall_cons in H1 as [H1 _].
    destruct front'; [done|]. cbn. lia.
  - apply Nat.eqb_neq in En.
    split; [|exists (slice (mOffset q) n front); cbn; split_and!; (done || lia)].
    constructor; cbn; [done|lia|unfold content; cbn [mOffset mPayloads concat]; lia| |done].
    rewrite len_app. lia.
Qed.

(** A sequence of operations on one queue, with the bytes accepted and the bytes sent or dropped. *)
Inductive SendOp : Type :=
| OpEnqueue (alloc : bool) (bytes : list Z)
| OpConsume (n : nat)
| OpClear.

Record SendTrace : Type := MkSendTrace {
  sq : SendQueue;
  sb : SendBudget;
  acceptedBytes : list Z;
  goneBytes : list Z
}.

Definition send_step (op : SendOp) (t : SendTrace) : option SendTrace :=
  match op with
  | OpEnqueue alloc bytes =>
      match Enqueue alloc bytes (sq t) (sb t) with
      | Some (s, q, b) =>
          Some (MkSendTrace q b
            (if Status.IsOk s then acceptedBytes t ++ bytes else acceptedBytes t) (goneBytes t))
      | None => None
      end
  | OpConsume n =>
      match Consume n (sq t) (sb t) with
      | Some (q, b) => Some (MkSendTrace q b (acceptedBytes t)
          (goneBytes t ++ take n (content (sq t))))
      | None => None
      end
  | OpClear =>
      match Clear (sq t) (sb t) with
      | Some (q, b) => Some (MkSendTrace q b (acceptedBytes t) (goneBytes t ++ content (sq t)))
      | None => None
      end
  end.

Fixpoint send_run (ops : list SendOp) (t : SendTrace) : option SendTrace :=
  match ops with
  | [] => Some t
  | op :: ops' => match send_step op t with Some t' => send_run ops' t' | None => None end
  end.

Definition send_ok (t : SendTrace) : Prop :=
  queue_ok (sq t) /\ goneBytes t ++ content (sq t) = acceptedBytes t.

Lemma send_ok_step op t t' : send_ok t -> send_step op t = Some t' -> send_ok t'.
Proof.
  intros [Hq Ha] H. destruct op as [alloc bytes|n|]; cbn [send_step] in H.
  - unfold Enqueue in H.
    destruct (len bytes =? 0) eqn:E0.
    { injection H as <-. split; [done|]. cbn. destruct bytes; [by rewrite app_nil_r|].
      unfold len in E0. cbn in E0. lia. }
    destruct (FitsConnection _ _ _); cbn [negb] in H; [|by injection H as <-].
    destruct (TryReserve _ _) as [[] b'] eqn:Er; cbn [negb] in H; [|by injection H as <-].
    destruct alloc; cbn [negb] in H.
    + injection H as <-. split; cbn [sq goneBytes acceptedBytes].
      * apply queue_ok_store; [|done]. by intros ->.
      * change (Status.IsOk Status.Ok) with true. cbv iota.
        by rewrite content_store, app_assoc, Ha.
    + destruct (Release _ _); [|done]. by injection H as <-.
  - unfold Consume in H. destruct (ConsumeLocal n (sq t)) as [[q' rel]|] eqn:Ec; [|done].
    destruct (Release rel (sb t)); [|done]. injection H as <-.
    destruct (consume_local_spec _ _ _ _ Hq Ec) as (Hq' & taken & Hl & Hc & _).
    split; [done|]. cbn [sq goneBytes acceptedBytes].
    rewrite <- Ha, Hc, take_app_length' by done. by rewrite <- app_assoc.
  - unfold Clear in H. cbn in H. destruct (Release _ _); [|done]. injection H as <-.
    split; [apply queue_ok_new|]. cbn. by rewrite app_nil_r.
Qed.

(** A send queue is a byte stream: whatever payloads are enqueued, consumed in arbitrary pieces
    and cleared, the bytes sent or dropped followed by the bytes still queued are the bytes
    accepted, in order; [Front] is a non-empty prefix of what is queued whenever the queue is not
    empty; [QueuedBytes] counts the unsent bytes and [RetainedBytes] the stored ones, sent prefix
    included. *)
Theorem send_queue_stream ops b t :
  send_run ops (MkSendTrace NewQueue b [] []) = Some t ->
  goneBytes t ++ content (sq t) = acceptedBytes t /\
  QueuedBytes (sq t) = len (content (sq t)) /\
  RetainedBytes (sq t) = len (concat (mPayloads (sq t))) /\
  match Front (sq t) with
  | Some front => Empty (sq t) = false /\ front <> [] /\ exists rest, content (sq t) = front ++ rest
  | None => Empty (sq t) = true /\ content (sq t) = []
  end.
Proof.
  intros H. assert (send_ok t) as [[H1 H2 H3 H4 H5] Ha].
  { revert H. assert (send_ok (MkSendTrace NewQueue b [] [])) as H0 by (split; [apply queue_ok_new|done]).
    revert H0. generalize (MkSendTrace NewQueue b [] []).
    induction ops as [|op ops IH]; intros t0 H0 H; cbn in H; [by injection H as <-|].
    destruct (send_step op t0) eqn:E; [|done]. eapply IH; [|done]. by eapply send_ok_step. }
  split_and!; [done..|]. unfold Front, Empty, content.
  destruct (mPayloads (sq t)) as [|front rest]; [by cbn [concat]; rewrite drop_nil|].
  split_and!.
  - unfold len. cbn [length]. lia.
  - intros Hn. apply (f_equal length) in Hn. rewrite length_drop in Hn. cbn in Hn. lia.
  - exists (concat rest). cbn [concat]. apply drop_app_le. lia.
Qed.

Lemma send_queue_stream_witness : exists t,
  send_run [OpEnqueue true [1; 2; 3]; OpEnqueue true [4; 5]; OpConsume 2]
    (MkSendTrace NewQueue (MkBudget 100 50 0 ∅ 1 false) [] []) = Some t /\
  content (sq t) = [3; 4; 5] /\ QueuedBytes (sq t) = len (content (sq t)) /\ RetainedBytes (sq t) = 5.
Proof.
  destruct (send_run [OpEnqueue true [1; 2; 3]; OpEnqueue true [4; 5]; OpConsume 2]
    (MkSendTrace NewQueue (MkBudget 100 50 0 ∅ 1 false) [] [])) as [t|] eqn:E; [|discriminate].
  exists t. split; [reflexivity|].
  destruct (send_queue_stream [OpEnqueue true [1; 2; 3]; OpEnqueue true [4; 5]; OpConsume 2]
    (MkBudget 100 50 0 ∅ 1 false) t E) as (_ & Hq & _ & _).
  split; [|split; [exact Hq|]]; vm_compute in E; injection E as <-; reflexivity.
Defined.

(** ** Many queues, one budget *)

(** Where a connection is inside an operation on its queue. *)
Inductive SendPoint : Type :=
| Idle
| Reserved (bytes : list Z) (* between [TryReserve] and the store *)
| Releasing (amount : Z). (* before [mBudget->Release] *)

Record Conn : Type := MkConn { connQueue : SendQueue; point : SendPoint }.

Record Net : Type := MkNet { budget : SendBudget; conns : list Conn }.

(** What a connection has reserved of the budget. *)
Definition held (c : Conn) : Z :=
  mRetainedBytes (connQueue c) +
  match point c with Idle => 0 | Reserved bytes => len bytes | Releasing n => n end.

Definition total (cs : list Conn) : Z := foldr (fun c n => held c + n) 0 cs.

(** One step of one connection: the pieces of [Enqueue], [Consume] and [Clear] between accesses to
    the shared budget.  [abort] is the failed assertion of [Release]. *)
Inductive net_step (n : Net) : option Net -> Prop :=
| Net_Reserve i q bytes b' :
    conns n !! i = Some (MkConn q Idle) -> bytes <> [] ->
    FitsConnection (budget n) bytes q = true -> TryReserve (len bytes) (budget n) = (true, b') ->
    net_step n (Some (MkNet b' (<[i := MkConn q (Reserved bytes)]> (conns n))))
| Net_Store i q bytes :
    conns n !! i = Some (MkConn q (Reserved bytes)) ->
    net_step n (Some (MkNet (budget n) (<[i := MkConn (StorePayload bytes q) Idle]> (conns n))))
| Net_StoreFails i q bytes :
    conns n !! i = Some (MkConn q (Reserved bytes)) ->
    net_step n (Some (MkNet (budget n) (<[i := MkConn q (Releasing (len bytes))]> (conns n))))
| Net_Consume i q k q' released :
    conns n !! i = Some (MkConn q Idle) -> ConsumeLocal k q = Some (q', released) ->
    net_step n (Some (MkNet (budget n) (<[i := MkConn q' (Releasing released)]> (conns n))))
| Net_Clear i q :
    conns n !! i = Some (MkConn q Idle) ->
    net_step n (Some (MkNet (budget n)
      (<[i := MkConn (ClearLocal q).1 (Releasing (ClearLocal q).2)]> (conns n))))
| Net_Release i q amount :
    conns n !! i = Some (MkConn q (Releasing amount)) ->
    net_step n (match Release amount (budget n) with
      | Some b' => Some (MkNet b' (<[i := MkConn q Idle]> (conns n)))
      | None => None
      end).

Record net_ok (n : Net) : Prop := MkNetOk {
  net_used : mUsedBytes (budget n) = total (conns n);
  net_limit : mUsedBytes (budget n) <= mLimitBytes (budget n);
  net_conns : Forall (fun c => queue_ok (connQueue c) /\ 0 <= held c - mRetainedBytes (connQueue c) /\
    mRetainedBytes (connQueue c) + (match point c with Reserved bytes => len bytes | _ => 0 end)
      <= mConnectionLimitBytes (budget n) /\
    match point c with Reserved bytes => bytes <> [] | _ => True end) (conns n)
}.

Lemma total_insert i c c' cs :
  cs !! i = Some c -> total (<[i := c']> cs) = total cs - held c + held c'.
Proof.
  revert i; induction cs as [|d cs IH]; intros [|i] H; try done.
  - injection H as ->. cbn. lia.
  - specialize (IH i H). change (held d + total (<[i := c']> cs) = held d + total cs - held c + held c').
    lia.
Qed.

Lemma queue_retained_nonneg q : queue_ok q -> 0 <= mRetainedBytes q.
Proof. intros [_ _ _ -> _]. apply len_nonneg. Qed.

Lemma total_held i c (cs : list Conn) :
  Forall (fun c => 0 <= held c) cs -> cs !! i = Some c -> held c <= total cs.
Proof.
  intros H. revert i; induction H as [|d cs Hd H IH]; intros [|i] Hi; cbn in *; try done.
  - injection Hi as ->. assert (0 <= foldr (fun c n => held c + n) 0 cs); [|lia].
    clear -H. induction H; cbn; lia.
  - specialize (IH i Hi). unfold total in IH. lia.
Qed.

(** The limits of a budget do not change: what one connection knows of them stays true. *)
Lemma net_ok_update n i c c' b' :
  net_ok n -> conns n !! i = Some c ->
  mUsedBytes b' = mUsedBytes (budget n) - held c + held c' -> mUsedBytes b' <= mLimitBytes b' ->
  mConnectionLimitBytes b' = mConnectionLimitBytes (budget n) ->
  queue_ok (connQueue c') -> 0 <= held c' - mRetainedBytes (connQueue c') ->
  mRetainedBytes (connQueue c') + (match point c' with Reserved bytes => len bytes | _ => 0 end)
      <= mConnectionLimitBytes (budget n) ->
  match point c' with Reserved bytes => bytes <> [] | _ => True end ->
  net_ok (MkNet b' (<[i := c']> (conns n))).
Proof.
  intros [H1 H2 H3] Hi Hu Hl Hc Hq Hh Hr Hne. constructor; cbn [budget conns].
  - rewrite (total_insert i c) by done. lia.
  - done.
  - apply Forall_insert; rewrite Hc; auto.
Qed.

Lemma net_ok_step n o :
  net_ok n -> net_step n o -> exists n', o = Some n' /\ net_ok n'.
Proof.
  intros Hok Hstep. pose proof Hok as [Hu Hl Hf].
  assert (Forall (fun c => 0 <= held c) (conns n)) as Hheld.
  { eapply Forall_impl; [exact Hf|]. intros c (Hq & Hh & _).
    pose proof (queue_retained_nonneg _ Hq). cbn beta in *. lia. }
  destruct Hstep as [i q bytes b' Hi Hne Hfit Hr|i q bytes Hi|i q bytes Hi|i q k q' rel Hi Hc|i q Hi
    |i q amount Hi]; pose proof (Forall_lookup_1 _ _ _ _ Hf Hi) as (Hq & Hh & Hlim & Hp);
    cbn [connQueue point held] in Hq, Hh, Hlim, Hp; unfold held in Hh; cbn [connQueue point] in Hh.
  - eexists. split; [done|]. pose proof (len_nonneg bytes).
    apply try_reserve_spec in Hr as (Hb & Hb' & Hl' & Hu'); [|done..].
    unfold FitsConnection in Hfit.
    eapply net_ok_update; [done..| | | | | | |done]; unfold held;
      cbn [connQueue point]; try done; lia.
  - eexists. split; [done|]. pose proof (len_nonneg bytes).
    eapply net_ok_update; [done..| | | | | | |done]; unfold held; cbn [connQueue point];
      try done; try (apply queue_ok_store; done); cbn [StorePayload mRetainedBytes]; lia.
  - eexists. split; [done|]. pose proof (len_nonneg bytes).
    eapply net_ok_update; [done..| | | | | | |done]; unfold held; cbn [connQueue point];
      try done; lia.
  - eexists. split; [done|].
    destruct (consume_local_spec _ _ _ _ Hq Hc) as (Hq' & _ & _ & _ & Hrel & Hret).
    eapply net_ok_update; [done..| | | | | | |done]; unfold held; cbn [connQueue point];
      try done; lia.
  - eexists. split; [done|]. pose proof (queue_retained_nonneg _ Hq).
    eapply net_ok_update; [done..| | | | | | |done]; unfold held; cbn [connQueue point ClearLocal fst snd];
      try done; try apply queue_ok_new; cbn [mRetainedBytes]; lia.
  - pose proof (total_held i _ _ Hheld Hi) as Ht. pose proof (queue_retained_nonneg _ Hq).
    unfold held in Ht. cbn [connQueue point] in Ht.
    destruct (release_spec amount (budget n)) as (b' & Hb' & Hu' & Hl' & Hc'); [lia|].
    rewrite Hb'. eexists. split; [done|].
    eapply net_ok_update; [done..| | | | | | |done]; unfold held; cbn [connQueue point];
      try done; lia.
Qed.

(** Reachability through steps that do not abort. *)
Inductive net_reach (n0 : Net) : Net -> Prop :=
| Reach_refl : net_reach n0 n0
| Reach_step n n' : net_reach n0 n -> net_step n (Some n') -> net_reach n0 n'.

(** C7. Shared send accounting holds under every interleaving of the connections of a host: the
    budget's counter is exactly the bytes the queues retain plus those in flight between a
    reservation and its store or a release; it never exceeds the host's limit, no connection
    retains more than its own, and the assertion in [Release] never fails, so that nothing is
    returned twice. *)
Theorem send_budget_accounting limit connLimit b k n :
  0 <= limit -> 0 <= connLimit -> SendBudget.New limit connLimit = Some b ->
  net_reach (MkNet b (replicate k (MkConn NewQueue Idle))) n ->
  mUsedBytes (budget n) = total (conns n) /\ mUsedBytes (budget n) <= limit /\
  Forall (fun c => mRetainedBytes (connQueue c) <= connLimit) (conns n) /\
  ~ net_step n None.
Proof.
  intros Hl Hc Hb Hr. unfold SendBudget.New in Hb. case_if_in Hb; [done|]. injection Hb as <-.
  assert (net_ok n /\ mLimitBytes (budget n) = limit /\ mConnectionLimitBytes (budget n) = connLimit)
    as (Hok & Hlim & Hcl).
  { induction Hr as [|n n' Hr (IH & IH1 & IH2) Hstep].
    - split_and!; [|done..]. constructor; cbn.
      + clear. symmetry. induction k as [|k IH]; [done|].
        change (0 + total (replicate k (MkConn NewQueue Idle)) = 0). unfold total. lia.
      + lia.
      + apply Forall_replicate. unfold held. cbn. split_and!; [apply queue_ok_new|lia..|done].
    - destruct (net_ok_step n _ IH Hstep) as (m & [= <-] & Hok).
      split; [done|]. inversion Hstep as [i q bytes b' Hi Hne Hfit Htr| | | | |i q amount Hi Hrel];
        subst; try done; cbn.
      + unfold TryReserve in Htr. destruct (AtomicBudget.TryReserveBudget _ _ _).
        by injection Htr as _ <-.
      + destruct (Release amount (budget n)) eqn:Erel; [|done]. injection Hrel as <-. cbn.
        destruct (release_used _ _ _ Erel) as (_ & ? & ?). split; congruence. }
  pose proof Hok as [H1 H2 H3]. rewrite <- Hlim, <- Hcl. split_and!; [done..| |].
  - eapply Forall_impl; [exact H3|]. intros c (_ & _ & H & _). cbn beta in *.
    destruct (point c); pose proof (len_nonneg (@nil Z)); try lia.
    pose proof (len_nonneg bytes). lia.
  - intros Hstep. destruct (net_ok_step n None) as (m & ? & _); done.
Qed.

(** Two connections under a limit of 4: the first has reserved 3 bytes and not stored them yet. *)
Definition sample_net : Net :=
  MkNet (MkBudget 4 8 3 ∅ 1 false) [MkConn NewQueue (Reserved [1; 2; 3]); MkConn NewQueue Idle].

Lemma send_budget_accounting_witness :
  mUsedBytes (budget sample_net) = total (conns sample_net) /\ ~ net_step sample_net None.
Proof.
  destruct (send_budget_accounting 4 8 (MkBudget 4 8 0 ∅ 1 false) 2 sample_net) as (H1 & _ & _ & H2).
  - lia.
  - lia.
  - reflexivity.
  - eapply Reach_step; [apply Reach_refl|].
    apply (Net_Reserve (MkNet (MkBudget 4 8 0 ∅ 1 false) (replicate 2 (MkConn NewQueue Idle)))
      0%nat NewQueue [1; 2; 3]); [reflexivity|discriminate|reflexivity|reflexivity].
  - split; [exact H1|exact H2].
Defined.

(** ** Waiting for capacity *)

Lemma has_room_enqueue bytes q b :
  bytes <> [] -> 0 <= mUsedBytes b <= mLimitBytes b -> mRetainedBytes q <= mConnectionLimitBytes b ->
  HasRoom (len bytes) (mUsedBytes b) (mRetainedBytes q) b =
  FitsConnection b bytes q && (TryReserve (len bytes) b).1.
Proof.
  intros Hne Hu Hr. assert (0 < len bytes) as Hl by (destruct bytes; [done|unfold len; cbn; lia]).
  unfold HasRoom, FitsConnection, TryReserve, AtomicBudget.TryReserveBudget.
  replace (len bytes =? 0) with false by lia.
  destruct ((mLimitBytes b <? mUsedBytes b) || _) eqn:E; cbn [fst]; lia.
Qed.

(** Waiting for capacity agrees with sending: with the counters of the queue and the budget as
    they are, [Enqueue] of a payload is refused with WouldBlock exactly when a waiter for that many
    bytes would not be notified; and a successful [Wait] leaves its subscription pending only while
    there is no such room in an open queue (otherwise it is completed at once, as it is by an
    already stopped token). *)
Theorem capacity_agrees_with_enqueue bytes q b c self source stopped s :
  queue_ok q -> bytes <> [] -> 0 <= mUsedBytes b <= mLimitBytes b ->
  mRetainedBytes q <= mConnectionLimitBytes b ->
  capacityRetained c = mCapacityRetained q ->
  (Enqueue true bytes q b =
    if HasRoom (len bytes) (mUsedBytes b) (capacityRetained c) b
    then Some (Status.Ok, StorePayload bytes q, (TryReserve (len bytes) b).2)
    else Some (WouldBlockStatus, q, b)) /\
  (forall r c' b' s', Wait self (len bytes) true (FromValue source) stopped c b s
      = Some (FromValue r, c', b', s') ->
    r = source /\ mPending c' = Some source /\
    (SourceIsPending s' (mPending c') = true ->
      mClosed c' = false /\ stopped = false /\
      HasRoom (len bytes) (mUsedBytes b') (capacityRetained c') b' = false)).
Proof.
  intros [_ _ _ _ Hpub] Hne Hu Hr Hc. rewrite Hc, Hpub. split.
  - rewrite has_room_enqueue by done. unfold Enqueue.
    replace (len bytes =? 0) with false by (destruct bytes; [done|unfold len; cbn; lia]).
    destruct (FitsConnection b bytes q); cbn [negb andb]; [|done].
    destruct (TryReserve (len bytes) b) as [ok b'] eqn:Er. cbn [fst snd].
    destruct ok; cbn [negb]; [done|].
    unfold TryReserve, AtomicBudget.TryReserveBudget in Er. repeat case_if_in Er; try done.
    injection Er as <-. by destruct b.
  - intros r c' b' s' Hw. unfold Wait in Hw. case_if_in Hw; [done|]. case_if_in Hw; [done|].
    destruct (mClosed c) eqn:Ec; [done|].
    destruct (SourceIsPending s (mPending c)); [done|].
    destruct (if mRegistration c =? 0 then _ else _) as [[reg b1]|]; [|done].
    injection Hw as <- <- <- <-. cbn [mPending]. split_and!; [done..|].
    set (s1 := BindCancellation source stopped (<[source:=None]> s)).
    unfold Notify. cbn [mPending mClosed mRequiredBytes capacityRetained].
    destruct (SourceIsPending s1 (Some source)) eqn:Ep; cbn [negb]; [|by rewrite Ep].
    assert (stopped = false) as ->.
    { destruct stopped; [|done]. unfold s1, BindCancellation in Ep.
      by rewrite source_complete_not_pending in Ep. }
    destruct (HasRoom _ _ _ _) eqn:Eh; [by rewrite source_complete_not_pending|done].
Qed.

Lemma capacity_agrees_with_enqueue_witness :
  Enqueue true [1; 2] NewQueue (MkBudget 3 8 2 ∅ 1 false) =
    Some (WouldBlockStatus, NewQueue, MkBudget 3 8 2 ∅ 1 false).
Proof.
  destruct (capacity_agrees_with_enqueue [1; 2] NewQueue (MkBudget 3 8 2 ∅ 1 false)
    (MkCapacity 0 false None 0 0) 0 7 false ∅) as [H _].
  - apply queue_ok_new.
  - discriminate.
  - cbn; lia.
  - cbn; lia.
  - reflexivity.
  - exact H.
Defined.
