(* ===== verification/RequestData.v ===== *)
(** * Web: percent encoding, query and form fields, cookies.

    [Web/RequestData.h|cpp] and the token test of [Web/WebProtocol.cpp].  Every function is pure;
    the [catch] clauses that turn a failed allocation into [AllocationFailure] have no other effect
    and are not represented.  A loop over a [std::string_view] that is shortened from the front runs
    with a fuel of its length plus one, which the lemmas show to be enough. *)

From S2P Require Import Prelude CoreError Utf8.

Module RequestData.

Open Scope result_scope.

Definition FormFields : Type := list (list Z * list Z).

Record FieldLimits : Type := MkLimits {
  maxBytes : Z;
  maxFields : Z;
  maxNameBytes : Z;
  maxValueBytes : Z
}.

Definition Fail {T : Type} (code : ErrorCode) : Result T :=
  FromStatus (Status.FailWithoutMessage code).

Definition Valid (limits : FieldLimits) : bool :=
  negb (maxBytes limits =? 0) && negb (maxFields limits =? 0)
  && negb (maxNameBytes limits =? 0) && negb (maxValueBytes limits =? 0).

Definition Text (value : list Z) : bool :=
  negb (existsb (Z.eqb 0) value) && Utf8.IsValidUtf8 value.

Definition between (low high : ascii) (ch : Z) : bool :=
  (char_code low <=? ch) && (ch <=? char_code high).
Arguments between low%_char_scope high%_char_scope ch.

Definition Hex (value : Z) : Z :=
  if between "0" "9" value then value - char_code "0"
  else if between "A" "F" value then value - char_code "A" + 10
  else if between "a" "f" value then value - char_code "a" + 10
  else -1.

Definition Blank (ch : Z) : bool := (ch =? char_code " ") || (ch =? 9).

(** The first loop of [Trim]. *)
Fixpoint TrimFront (value : list Z) : list Z :=
  match value with
  | ch :: rest => if Blank ch then TrimFront rest else value
  | [] => []
  end.

Definition Trim (value : list Z) : list Z := rev (TrimFront (rev (TrimFront value))).

(** The cookie octets of RFC 6265. *)
Definition CookieOctet (ch : Z) : bool :=
  (ch =? 33) || ((35 <=? ch) && (ch <=? 43)) || ((45 <=? ch) && (ch <=? 58))
  || ((60 <=? ch) && (ch <=? 91)) || ((93 <=? ch) && (ch <=? 126)).

Definition CookieValue (value : list Z) : bool := forallb CookieOctet value.

Definition Letter (ch : Z) : bool := between "a" "z" ch || between "A" "Z" ch.
Definition Digit (ch : Z) : bool := between "0" "9" ch.

(** [WebProtocol.cpp]: the token characters of RFC 9110. *)
Definition TokenChar (ch : Z) : bool :=
  Letter ch || Digit ch || existsb (Z.eqb ch) (txt "!#$%&'*+-.^_`|~").

Definition IsToken (value : list Z) : bool :=
  negb (len value =? 0) && forallb TokenChar value.

(** ** Percent encoding *)

(** The loop of [PercentDecodeComponent]; [result] is what was decoded so far. *)
Fixpoint DecodeLoop (plusAsSpace : bool) (limit : Z) (input result : list Z) : Result (list Z) :=
  match input with
  | [] => FromValue result
  | ch :: rest =>
      if ch =? char_code "%" then
        match rest with
        | h :: l :: rest' =>
            if (Hex h <? 0) || (Hex l <? 0) then Fail InvalidFormat
            else if len result =? limit then Fail TooLarge
            else DecodeLoop plusAsSpace limit rest' (result ++ [Hex h * 16 + Hex l])
        | _ => Fail InvalidFormat
        end
      else
        let ch := if (ch =? char_code "+") && plusAsSpace then char_code " " else ch in
        if len result =? limit then Fail TooLarge
        else DecodeLoop plusAsSpace limit rest (result ++ [ch])
  end.

Definition PercentDecodeComponent (input : list Z) (plusAsSpace : bool) (limit : Z)
    : Result (list Z) :=
  if limit =? 0 then Fail InvalidArgument
  else
    let* result := DecodeLoop plusAsSpace limit input [] in
    if negb (Text result) then Fail InvalidFormat else FromValue result.

Definition HexUpper : list Z := txt "0123456789ABCDEF".

(** The bytes kept as they are. *)
Definition Literal (formMode : bool) (ch : Z) : bool :=
  Letter ch || Digit ch || (ch =? char_code "-") || (ch =? char_code ".") || (ch =? char_code "_")
  || (if formMode then ch =? char_code "*" else ch =? char_code "~").

(** What one byte is encoded as. *)
Definition EncodeByte (formMode : bool) (ch : Z) : list Z :=
  if Literal formMode ch then [ch]
  else if formMode && (ch =? char_code " ") then [char_code "+"]
  else [char_code "%"; nth (Z.to_nat (Z.shiftr ch 4)) HexUpper 0;
        nth (Z.to_nat (Z.land ch 15)) HexUpper 0].

Fixpoint EncodeLoop (formMode : bool) (limit : Z) (input result : list Z) : Result (list Z) :=
  match input with
  | [] => FromValue result
  | ch :: rest =>
      let count := if Literal formMode ch || (formMode && (ch =? char_code " ")) then 1 else 3 in
      if limit - len result <? count then Fail TooLarge
      else EncodeLoop formMode limit rest (result ++ EncodeByte formMode ch)
  end.

Definition PercentEncodeComponent (input : list Z) (formMode : bool) (limit : Z)
    : Result (list Z) :=
  if (limit =? 0) || negb (Text input) then Fail InvalidArgument
  else EncodeLoop formMode limit input [].

(** ** Fields *)

(** One non-empty field of [ParseFields]. *)
Definition ParseField (form : bool) (limits : FieldLimits) (field : list Z)
    : Result (list Z * list Z) :=
  let (rawName, rawValue) := cut (char_code "=") field in
  let* name := PercentDecodeComponent rawName form (maxNameBytes limits) in
  let* value := PercentDecodeComponent (match rawValue with Some v => v | None => [] end) form
    (maxValueBytes limits) in
  FromValue (name, value).

Fixpoint ParseFieldsLoop (fuel : nat) (form : bool) (limits : FieldLimits) (input : list Z)
    (result : FormFields) : Result FormFields :=
  match fuel with
  | O => FromValue result
  | S fuel' =>
      if len input =? 0 then FromValue result
      else
        let (field, next) := cut (char_code "&") input in
        let input' := match next with Some rest => rest | None => [] end in
        if len field =? 0 then ParseFieldsLoop fuel' form limits input' result
        else if len result =? maxFields limits then Fail TooLarge
        else
          let* entry := ParseField form limits field in
          ParseFieldsLoop fuel' form limits input' (result ++ [entry])
  end.

Definition ParseFields (input : list Z) (form : bool) (limits : FieldLimits) : Result FormFields :=
  if negb (Valid limits) then Fail InvalidArgument
  else if maxBytes limits <? len input then Fail TooLarge
  else ParseFieldsLoop (S (length input)) form limits input [].

Definition ParseQueryParameters (target : list Z) (limits : FieldLimits) : Result FormFields :=
  if existsb (Z.eqb (char_code "#")) target then Fail InvalidFormat
  else
    ParseFields (match (cut (char_code "?") target).2 with Some query => query | None => [] end)
      false limits.

Definition ParseFormUrlEncoded (body : list Z) (limits : FieldLimits) : Result FormFields :=
  ParseFields body true limits.

(** ** Cookies *)

(** Removing one pair of surrounding double quotes (34). *)
Definition Unquote (value : list Z) : list Z :=
  if (2 <=? len value) && (hd 0 value =? 34) && (List.last value 0 =? 34)
  then removelast (tl value) else value.

Definition ParseCookie (limits : FieldLimits) (field : list Z) (result : FormFields)
    : Result FormFields :=
  match cut (char_code "=") field with
  | (_, None) => Fail InvalidFormat
  | (name, Some raw) =>
      let value := Unquote raw in
      if negb (IsToken name) || negb (CookieValue value) then Fail InvalidFormat
      else if (len result =? maxFields limits) || (maxNameBytes limits <? len name)
           || (maxValueBytes limits <? len value)
      then Fail TooLarge
      else FromValue (result ++ [(name, value)])
  end.

Fixpoint ParseCookieLoop (fuel : nat) (limits : FieldLimits) (input : list Z)
    (result : FormFields) : Result FormFields :=
  match fuel with
  | O => FromValue result
  | S fuel' =>
      if len input =? 0 then FromValue result
      else
        let (raw, next) := cut (char_code ";") input in
        let field := Trim raw in
        let input' := match next with Some rest => rest | None => [] end in
        if len field =? 0 then ParseCookieLoop fuel' limits input' result
        else
          let* result' := ParseCookie limits field result in
          ParseCookieLoop fuel' limits input' result'
  end.

Definition ParseCookieHeader (input : list Z) (limits : FieldLimits) : Result FormFields :=
  if negb (Valid limits) then Fail InvalidArgument
  else if maxBytes limits <? len input then Fail TooLarge
  else ParseCookieLoop (S (length input)) limits input [].

Definition DomainLabel (label : list Z) : bool :=
  negb ((len label =? 0) || (63 <? len label) || (hd 0 label =? char_code "-")
        || (List.last label 0 =? char_code "-"))
  && forallb (fun ch => Letter ch || Digit ch || (ch =? char_code "-")) label.

Fixpoint DomainLoop (fuel : nat) (value : list Z) : bool :=
  match fuel with
  | O => false
  | S fuel' =>
      let (label, rest) := cut (char_code ".") value in
      if negb (DomainLabel label) then false
      else
        match rest with
        | None => true
        | Some rest => if len rest =? 0 then false else DomainLoop fuel' rest
        end
  end.

Definition Domain (value : list Z) : bool :=
  if len value =? 0 then true
  else
    let value := if hd 0 value =? char_code "." then tl value else value in
    if (len value =? 0) || (253 <? len value) then false
    else DomainLoop (S (length value)) value.

(** A value cast to the enum that is none of its enumerators is [SameSite_Other]. *)
Inductive CookieSameSite : Type :=
| SameSite_Unspecified
| SameSite_Lax
| SameSite_Strict
| SameSite_None
| SameSite_Other.

#[export] Instance CookieSameSite_eq_dec : EqDecision CookieSameSite.
Proof. solve_decision. Defined.

Record CookieOptions : Type := MkCookieOptions {
  domain : list Z;
  path : list Z;
  maxAgeSeconds : option Z;
  sameSite : CookieSameSite;
  secure : bool;
  httpOnly : bool;
  cookieMaxBytes : Z
}.

(** [std::to_string] of a non-negative integer, least significant digit last. *)
Fixpoint DecimalLoop (fuel : nat) (n : Z) (digits : list Z) : list Z :=
  match fuel with
  | O => digits
  | S fuel' =>
      let digits' := (char_code "0" + n mod 10) :: digits in
      if n <? 10 then digits' else DecimalLoop fuel' (n / 10) digits'
  end.

(** 20 digits hold every unsigned 64-bit integer. *)
Definition Decimal (n : Z) : list Z := DecimalLoop 20 n [].

Definition StartsWith (prefix value : list Z) : bool :=
  bytes_eqb (take (length prefix) value) prefix.

Definition CookieArgumentsOk (name value : list Z) (options : CookieOptions) : bool :=
  negb (cookieMaxBytes options =? 0) && IsToken name && CookieValue value
  && Domain (domain options)
  && ((len (path options) =? 0) || (hd 0 (path options) =? char_code "/"))
  && negb (bool_decide (sameSite options = SameSite_Other))
  && negb (bool_decide (sameSite options = SameSite_None) && negb (secure options))
  && negb (StartsWith (txt "__Secure-") name && negb (secure options))
  && negb (StartsWith (txt "__Host-") name
           && (negb (secure options) || negb (len (domain options) =? 0)
               || negb (bytes_eqb (path options) (txt "/")))).

Definition PathChar (ch : Z) : bool := negb ((ch <? 32) || (126 <? ch) || (ch =? char_code ";")).

(** The lambda [append]. *)
Definition AppendBounded (limit : Z) (text result : list Z) : Result (list Z) :=
  if limit - len result <? len text then Fail TooLarge else FromValue (result ++ text).

Definition AppendIf (condition : bool) (limit : Z) (texts : list (list Z)) (result : list Z)
    : Result (list Z) :=
  if condition then
    fold_left (fun r text => let* result := r in AppendBounded limit text result) texts
      (FromValue result)
  else FromValue result.

Definition SameSiteText (s : CookieSameSite) : list Z :=
  match s with
  | SameSite_Lax => txt "; SameSite=Lax"
  | SameSite_Strict => txt "; SameSite=Strict"
  | SameSite_None => txt "; SameSite=None"
  | _ => []
  end.

Definition SerializeSetCookie (name value : list Z) (options : CookieOptions) : Result (list Z) :=
  if negb (CookieArgumentsOk name value options) then Fail InvalidArgument
  else if negb (forallb PathChar (path options)) then Fail InvalidArgument
  else
    let limit := cookieMaxBytes options in
    let* r := AppendIf true limit [name; txt "="; value] [] in
    let* r := AppendIf (negb (len (domain options) =? 0)) limit
      [txt "; Domain="; domain options] r in
    let* r := AppendIf (negb (len (path options) =? 0)) limit [txt "; Path="; path options] r in
    let* r := AppendIf (match maxAgeSeconds options with Some _ => true | None => false end) limit
      [txt "; Max-Age=";
       Decimal (Z.max 0 (match maxAgeSeconds options with Some s => s | None => 0 end))] r in
    let* r := AppendIf (secure options) limit [txt "; Secure"] r in
    let* r := AppendIf (httpOnly options) limit [txt "; HttpOnly"] r in
    AppendIf true limit [SameSiteText (sameSite options)] r.

End RequestData.

Import RequestData.

(** ** Percent encoding *)

Definition encode_all (form : bool) (input : list Z) : list Z := flat_map (EncodeByte form) input.

(** The bytes an encoded component can contain. *)
Definition encoded_char (ch : Z) : bool :=
  Letter ch || Digit ch || existsb (Z.eqb ch) (txt "-._*~%+").

Lemma encode_byte_length form ch :
  len (EncodeByte form ch) =
    if Literal form ch || (form && (ch =? char_code " ")) then 1 else 3.
Proof. unfold EncodeByte. destruct (Literal form ch), (form && (ch =? _)); done. Qed.

Lemma encode_loop_spec form limit input result :
  len result <= limit ->
  EncodeLoop form limit input result =
    if len result + len (encode_all form input) <=? limit
    then FromValue (result ++ encode_all form input) else Fail TooLarge.
Proof.
  revert result; induction input as [|ch input IH]; intros result Hr;
    cbn [EncodeLoop encode_all flat_map].
  - change (len []) with 0. replace (_ <=? limit) with true by lia. by rewrite app_nil_r.
  - rewrite <- encode_byte_length, len_app. fold (encode_all form input).
    pose proof (len_nonneg (encode_all form input)).
    destruct (limit - len result <? len (EncodeByte form ch)) eqn:E.
    + by replace (_ <=? limit) with false by lia.
    + rewrite IH by (rewrite len_app; lia). rewrite len_app, <- app_assoc.
      by replace (len result + len (EncodeByte form ch) + len (encode_all form input)) with
        (len result + (len (EncodeByte form ch) + len (encode_all form input))) by lia.
Qed.

Lemma encode_byte_chars form ch : is_byte ch -> forallb encoded_char (EncodeByte form ch) = true.
Proof.
  intros Hb. destruct form.
  - apply (byte_cases (fun ch => forallb encoded_char (EncodeByte true ch))); [|done]. reflexivity.
  - apply (byte_cases (fun ch => forallb encoded_char (EncodeByte false ch))); [|done]. reflexivity.
Qed.

Lemma encode_all_chars form input :
  is_bytes input -> Forall (fun ch => encoded_char ch = true) (encode_all form input).
Proof.
  induction 1 as [|ch input Hc H IH]; [constructor|]. cbn [encode_all flat_map].
  apply Forall_app. split; [|done]. apply Forall_forall. intros x Hx.
  pose proof (encode_byte_chars form ch Hc) as Hf. rewrite forallb_forall in Hf.
  by apply Hf, list_elem_of_In.
Qed.

Lemma not_in_encoded c form input :
  is_bytes input -> encoded_char c = false -> c ∉ encode_all form input.
Proof.
  intros Hb Hc Hin. pose proof (encode_all_chars form input Hb) as H.
  rewrite Forall_forall in H. by rewrite (H c Hin) in Hc.
Qed.

(** How one byte of input is taken by the decoder, as a Boolean over all bytes. *)
Definition decodes_to (form : bool) (ch : Z) : bool :=
  match EncodeByte form ch with
  | [x] => negb (x =? char_code "%")
      && ((if (x =? char_code "+") && form then char_code " " else x) =? ch)
  | [p; h; l] => (p =? char_code "%") && negb (Hex h <? 0) && negb (Hex l <? 0)
      && (Hex h * 16 + Hex l =? ch)
  | _ => false
  end.

Lemma encode_byte_decodes form ch : is_byte ch -> decodes_to form ch = true.
Proof.
  intros Hb. destruct form.
  - apply (byte_cases (decodes_to true)); [reflexivity|done].
  - apply (byte_cases (decodes_to false)); [reflexivity|done].
Qed.

Lemma decode_encode_byte form limit ch rest result :
  is_byte ch ->
  DecodeLoop form limit (EncodeByte form ch ++ rest) result =
    if len result =? limit then Fail TooLarge else DecodeLoop form limit rest (result ++ [ch]).
Proof.
  intros Hb. pose proof (encode_byte_decodes form ch Hb) as H. unfold decodes_to in H.
  destruct (EncodeByte form ch) as [|x [|h [|l [|]]]]; try done; cbn [app DecodeLoop].
  - destruct (x =? char_code "%"); [done|]. cbn [negb andb] in H. cbv zeta.
    assert ((if (x =? char_code "+") && form then char_code " " else x) = ch) as -> by lia. done.
  - destruct (x =? char_code "%"); [|done]. cbn [andb] in H.
    replace (Hex h * 16 + Hex l) with ch by lia.
    by replace ((Hex h <? 0) || (Hex l <? 0)) with false by lia.
Qed.

Lemma decode_encode_all form limit input result :
  is_bytes input -> len result <= limit ->
  DecodeLoop form limit (encode_all form input) result =
    if len result + len input <=? limit then FromValue (result ++ input) else Fail TooLarge.
Proof.
  intros Hb. revert result; induction Hb as [|ch input Hc Hb IH]; intros result Hr;
    cbn [encode_all flat_map].
  - cbn [DecodeLoop]. change (len []) with 0. replace (_ <=? limit) with true by lia.
    by rewrite app_nil_r.
  - rewrite decode_encode_byte by done. fold (encode_all form input).
    assert (len (ch :: input) = 1 + len input) as Hl by (unfold len; cbn [length]; lia).
    pose proof (len_nonneg input). destruct (len result =? limit) eqn:E.
    + by replace (_ <=? limit) with false by lia.
    + rewrite IH by (rewrite len_app; change (len [ch]) with 1; lia).
      rewrite len_app, <- app_assoc. change (len [ch]) with 1.
      by replace (len result + 1 + len input) with (len result + len (ch :: input)) by lia.
Qed.

Lemma percent_encode_ok form limit input enc :
  0 <= limit -> PercentEncodeComponent input form limit = FromValue enc ->
  Text input = true /\ enc = encode_all form input /\ len enc <= limit.
Proof.
  intros Hl H. unfold PercentEncodeComponent in H.
  destruct (limit =? 0), (Text input); try done. cbn [negb orb] in H.
  rewrite encode_loop_spec in H by done. change (len []) with 0 in H.
  case_if_in H; [|done]. injection H as <-. cbn [app]. split_and!; [done..|lia].
Qed.

Lemma percent_decode_encode form limit input :
  is_bytes input -> Text input = true -> 0 < limit ->
  PercentDecodeComponent (encode_all form input) form limit =
    if len input <=? limit then FromValue input else Fail TooLarge.
Proof.
  intros Hb Ht Hl. unfold PercentDecodeComponent. replace (limit =? 0) with false by lia.
  rewrite decode_encode_all by (done || (change (len []) with 0; lia)).
  change (len []) with 0. rewrite Z.add_0_l. cbn [app]. case_if; [|done].
  cbn [Result.bind]. by rewrite Ht.
Qed.

(** Percent encoding round-trips: encoding text succeeds exactly when it is valid UTF-8 without
    NUL and its encoding fits the limit; the encoding has only unreserved characters, percent
    signs and plus signs, so no separator of a URL or a form survives; and decoding it in the same mode
    gives the text back, or TooLarge when the text is longer than the decoder's limit. *)
Theorem percent_round_trip form limit limit' input :
  is_bytes input -> 0 < limit -> 0 < limit' ->
  match PercentEncodeComponent input form limit with
  | FromValue enc =>
      Text input = true /\ len enc <= limit /\
      Forall (fun ch => encoded_char ch = true) enc /\
      PercentDecodeComponent enc form limit' =
        (if len input <=? limit' then FromValue input else Fail TooLarge)
  | FromStatus s =>
      (Text input = false /\ Status.Code s = InvalidArgument) \/
      (Text input = true /\ Status.Code s = TooLarge /\ limit < len (encode_all form input))
  end.
Proof.
  intros Hb Hl Hl'. destruct (PercentEncodeComponent input form limit) as [enc|s] eqn:E.
  - apply percent_encode_ok in E as (Ht & -> & Hlen); [|lia].
    split_and!; [done..|by apply encode_all_chars|by apply percent_decode_encode].
  - unfold PercentEncodeComponent in E. replace (limit =? 0) with false in E by lia.
    destruct (Text input); cbn [negb orb] in E; [|left; by injection E as <-].
    right. rewrite encode_loop_spec in E by (change (len []) with 0; lia).
    change (len []) with 0 in E. case_if_in E; [done|]. injection E as <-. split_and!; [done..|lia].
Qed.

Lemma percent_round_trip_witness :
  PercentEncodeComponent (txt "a b/c") true 64 = FromValue (txt "a+b%2Fc") /\
  PercentDecodeComponent (txt "a+b%2Fc") true 8 = FromValue (txt "a b/c").
Proof.
  split; [reflexivity|].
  pose proof (percent_round_trip true 64 8 (txt "a b/c") (txt_bytes _) ltac:(lia) ltac:(lia)) as H.
  destruct H as (_ & _ & _ & H). exact H.
Defined.

(** ** Fields *)

(** The loop of [ParseFields], over the pieces between the ampersands. *)
Fixpoint parse_pieces (form : bool) (limits : FieldLimits) (pieces : list (list Z))
    (result : FormFields) : Result FormFields :=
  match pieces with
  | [] => FromValue result
  | f :: fs =>
      if len f =? 0 then parse_pieces form limits fs result
      else if len result =? maxFields limits then Fail TooLarge
      else Result.bind (ParseField form limits f)
             (fun entry => parse_pieces form limits fs (result ++ [entry]))
  end.

Lemma parse_fields_loop_pieces fuel form limits input result :
  (length input < fuel)%nat ->
  ParseFieldsLoop fuel form limits input result =
  parse_pieces form limits (split_on (char_code "&") input) result.
Proof.
  revert input result; induction fuel as [|fuel IH]; intros input result Hf; [lia|].
  cbn [ParseFieldsLoop]. rewrite split_on_cut. destruct (len input =? 0) eqn:E0.
  { destruct input; [done|]. unfold len in E0. cbn in E0. lia. }
  pose proof (cut_length (char_code "&") input) as Hlen.
  destruct (cut (char_code "&") input) as [f next]. cbn [fst snd parse_pieces].
  assert (forall result', ParseFieldsLoop fuel form limits
      (match next with Some rest => rest | None => [] end) result' =
    parse_pieces form limits
      (match next with Some rest => split_on (char_code "&") rest | None => [] end) result') as Hnext.
  { intros result'. destruct next as [rest|].
    - apply IH. rewrite (Hlen f rest eq_refl) in Hf. lia.
    - destruct fuel; [done|]. done. }
  destruct (len f =? 0); [apply Hnext|].
  destruct (len result =? maxFields limits); [done|].
  destruct (ParseField form limits f); cbn [Result.bind]; [apply Hnext|done].
Qed.

(** A component within its limits and of valid text. *)
Definition component_ok (limit : Z) (value : list Z) : Prop :=
  Text value = true /\ len value <= limit.

Definition field_ok (limits : FieldLimits) (entry : list Z * list Z) : Prop :=
  component_ok (maxNameBytes limits) entry.1 /\ component_ok (maxValueBytes limits) entry.2.

Lemma decode_loop_length form limit input result r :
  len result <= limit -> DecodeLoop form limit input result = FromValue r -> len r <= limit.
Proof.
  remember (length input) as n eqn:Hn. assert (length input <= n)%nat as Hle by lia. clear Hn.
  revert input result Hle; induction n as [|n IH]; intros input result Hle Hr H.
  { destruct input; [|cbn in Hle; lia]. cbn in H. by injection H as <-. }
  destruct input as [|ch rest]; cbn [DecodeLoop] in H; [by injection H as <-|]. cbn in Hle.
  assert (forall x, len result <> limit -> len (result ++ [x]) <= limit) as Hx.
  { intros x Hx. rewrite len_app. change (len [x]) with 1. lia. }
  case_if_in H.
  - destruct rest as [|h [|l rest']]; [done..|]. case_if_in H; [done|]. case_if_in H; [done|].
    cbn in Hle. eapply IH; [|apply Hx|exact H]; lia.
  - cbv zeta in H. destruct (len result =? limit) eqn:El; [done|].
    eapply IH; [|apply Hx|exact H]; lia.
Qed.

Lemma percent_decode_ok input form limit r :
  0 < limit -> PercentDecodeComponent input form limit = FromValue r -> component_ok limit r.
Proof.
  intros Hl H. unfold PercentDecodeComponent in H. replace (limit =? 0) with false in H by lia.
  destruct (DecodeLoop form limit input []) as [r'|] eqn:E; cbn [Result.bind] in H; [|done].
  destruct (Text r') eqn:Et; [|done]. injection H as <-. split; [done|].
  eapply decode_loop_length, E. change (len []) with 0. lia.
Qed.

Lemma parse_pieces_ok form limits pieces result fields :
  0 < maxNameBytes limits -> 0 < maxValueBytes limits ->
  Forall (field_ok limits) result -> len result <= maxFields limits ->
  parse_pieces form limits pieces result = FromValue fields ->
  Forall (field_ok limits) fields /\ len fields <= maxFields limits.
Proof.
  intros Hn Hv. revert result; induction pieces as [|f fs IH]; intros result Hr Hl H;
    cbn [parse_pieces] in H; [by injection H as <-|].
  destruct (len f =? 0); [by apply (IH result)|].
  destruct (len result =? maxFields limits) eqn:Em; [done|].
  destruct (ParseField form limits f) as [entry|] eqn:Ef; cbn [Result.bind] in H; [|done].
  apply (IH (result ++ [entry])); [|rewrite len_app; change (len [entry]) with 1; lia|done].
  apply Forall_app. split; [done|]. constructor; [|constructor]. unfold ParseField in Ef.
  destruct (cut (char_code "=") f) as [rawName rawValue].
  apply result_bind_value in Ef as (name & Hname & Ef).
  apply result_bind_value in Ef as (value & Hvalue & Ef). injection Ef as <-.
  split; eapply percent_decode_ok; eauto.
Qed.

(** The limits of query and form parsing hold for every input: fields that are returned are at
    most [maxFields], each name and value within its own limit, and all of them valid UTF-8 without
    NUL; an input longer than [maxBytes] is TooLarge before anything is decoded. *)
Theorem parsed_fields_bounded form input limits :
  0 <= maxFields limits -> 0 <= maxNameBytes limits -> 0 <= maxValueBytes limits ->
  match ParseFields input form limits with
  | FromValue fields => len input <= maxBytes limits /\ len fields <= maxFields limits /\
      Forall (field_ok limits) fields
  | FromStatus s => Valid limits = true -> maxBytes limits < len input -> Status.Code s = TooLarge
  end.
Proof.
  intros Hf Hn Hv. unfold ParseFields. destruct (Valid limits) eqn:Ev; cbn [negb]; [|done].
  unfold Valid in Ev. case_if; [done|].
  rewrite parse_fields_loop_pieces by lia.
  destruct (parse_pieces _ _ _ _) as [fields|s] eqn:Ep; [|lia].
  apply parse_pieces_ok in Ep as [H1 H2]; [split_and!; [lia|done|done]|lia|lia|constructor|].
  change (len []) with 0. lia.
Qed.

Lemma parsed_fields_bounded_witness :
  ParseFields (txt "a=1&&b") true (MkLimits 16 2 4 4) =
    FromValue [(txt "a", txt "1"); (txt "b", [])] /\
  len [(txt "a", txt "1"); (txt "b", [])] <= 2.
Proof.
  split; [reflexivity|].
  apply (parsed_fields_bounded true (txt "a=1&&b") (MkLimits 16 2 4 4)); cbn; lia.
Defined.

(** The serialization of fields as a form body or a query: every component percent-encoded. *)
Definition encode_field (form : bool) (entry : list Z * list Z) : list Z :=
  encode_all form entry.1 ++ char_code "=" :: encode_all form entry.2.

Definition encode_fields (form : bool) (fields : FormFields) : list Z :=
  join (char_code "&") (map (encode_field form) fields).

Lemma parse_encoded_field form limits entry :
  is_bytes entry.1 -> is_bytes entry.2 -> field_ok limits entry ->
  0 < maxNameBytes limits -> 0 < maxValueBytes limits ->
  ParseField form limits (encode_field form entry) = FromValue entry.
Proof.
  intros Hb1 Hb2 [[Ht1 Hl1] [Ht2 Hl2]] Hn Hv. unfold ParseField, encode_field.
  rewrite cut_app by (by apply not_in_encoded).
  rewrite percent_decode_encode by done. replace (len entry.1 <=? _) with true by lia.
  cbn [Result.bind]. rewrite percent_decode_encode by done.
  replace (len entry.2 <=? _) with true by lia. cbn [Result.bind]. by destruct entry.
Qed.

Lemma parse_encoded_pieces form limits fields result :
  Forall (fun e => is_bytes e.1 /\ is_bytes e.2 /\ field_ok limits e) fields ->
  0 < maxNameBytes limits -> 0 < maxValueBytes limits ->
  len result + len fields <= maxFields limits ->
  parse_pieces form limits (map (encode_field form) fields) result = FromValue (result ++ fields).
Proof.
  intros H Hn Hv. revert result; induction H as [|e fields (Hb1 & Hb2 & He) H IH]; intros result Hl.
  { by rewrite app_nil_r. }
  assert (len (e :: fields) = 1 + len fields) as Hc by (unfold len; cbn [length]; lia).
  pose proof (len_nonneg fields). pose proof (len_nonneg result).
  cbn [map parse_pieces].
  replace (len (encode_field form e) =? 0) with false.
  2:{ unfold encode_field. rewrite len_app. pose proof (len_nonneg (encode_all form e.1)).
      unfold len at 2. cbn [length]. lia. }
  replace (len result =? maxFields limits) with false by lia.
  rewrite parse_encoded_field by done. cbn [Result.bind].
  rewrite IH by (rewrite len_app; change (len [e]) with 1; lia). by rewrite <- app_assoc.
Qed.

Lemma encode_fields_no_sep form fields :
  Forall (fun e => is_bytes e.1 /\ is_bytes e.2) fields ->
  Forall (fun f => char_code "&" ∉ f) (map (encode_field form) fields).
Proof.
  intros H. apply Forall_map. eapply Forall_impl; [exact H|]. intros e [H1 H2]. unfold encode_field.
  rewrite not_elem_of_app, not_elem_of_cons. split_and!; [by apply not_in_encoded|done|by apply not_in_encoded].
Qed.

(** Fields round-trip through their encodings: fields within the limits, percent-encoded
    component by component and joined with equals and ampersand signs, parse back to exactly the same ordered
    pairs (duplicates, empty names and empty values included), as a form body and as the query of a
    request target. *)
Theorem fields_round_trip fields limits target :
  Valid limits = true -> 0 <= maxFields limits -> 0 <= maxNameBytes limits ->
  0 <= maxValueBytes limits -> fields <> [] -> len fields <= maxFields limits ->
  Forall (fun e => is_bytes e.1 /\ is_bytes e.2 /\ field_ok limits e) fields ->
  char_code "?" ∉ target -> char_code "#" ∉ target ->
  (len (encode_fields true fields) <= maxBytes limits ->
    ParseFormUrlEncoded (encode_fields true fields) limits = FromValue fields) /\
  (len (encode_fields false fields) <= maxBytes limits ->
    ParseQueryParameters (target ++ char_code "?" :: encode_fields false fields) limits
      = FromValue fields).
Proof.
  intros Hvalid Hf Hn Hv Hne Hlen H Hq Hh.
  assert (Forall (fun e => is_bytes e.1 /\ is_bytes e.2) fields) as Hb
    by (eapply Forall_impl; [exact H|]; naive_solver).
  assert (forall form, len (encode_fields form fields) <= maxBytes limits ->
    ParseFields (encode_fields form fields) form limits = FromValue fields) as Hparse.
  { intros form Hl. unfold ParseFields. rewrite Hvalid. cbn [negb].
    replace (_ <? _) with false by lia. rewrite parse_fields_loop_pieces by lia.
    unfold encode_fields. rewrite split_on_join.
    - unfold Valid in Hvalid. by rewrite parse_encoded_pieces by (done || lia || (change (len []) with 0; lia)).
    - by destruct fields.
    - by apply encode_fields_no_sep. }
  split; [apply Hparse|]. intros Hl. unfold ParseQueryParameters.
  rewrite cut_app by done. cbn [snd].
  replace (existsb _ _) with false; [by apply Hparse|]. symmetry. apply not_true_iff_false.
  rewrite existsb_exists. intros (x & Hx & Heq). apply Z.eqb_eq in Heq as <-.
  apply list_elem_of_In, elem_of_app in Hx as [Hx|Hx]; [done|].
  apply elem_of_cons in Hx as [Hx|Hx]; [done|].
  assert (forall fs : FormFields, Forall (fun e => is_bytes e.1 /\ is_bytes e.2) fs ->
    char_code "#" ∉ encode_fields false fs) as Hno; [|by apply (Hno fields)].
  clear. unfold encode_fields. induction 1 as [|e fs [H1 H2] H IH]; [apply not_elem_of_nil|].
  assert (char_code "#" ∉ encode_field false e) as He.
  { unfold encode_field. rewrite not_elem_of_app, not_elem_of_cons.
    split_and!; [by apply not_in_encoded|done|by apply not_in_encoded]. }
  destruct fs as [|e' fs]; [done|]. cbn [map] in *.
  change (join (char_code "&") (encode_field false e :: ?l)) with
    (encode_field false e ++ char_code "&" :: join (char_code "&") l).
  rewrite not_elem_of_app, not_elem_of_cons. by split_and!.
Qed.

Lemma fields_round_trip_witness :
  ParseFormUrlEncoded (encode_fields true [(txt "q", txt "a&b"); ([], [])]) (MkLimits 64 4 8 8)
    = FromValue [(txt "q", txt "a&b"); ([], [])].
Proof.
  destruct (fields_round_trip [(txt "q", txt "a&b"); ([], [])] (MkLimits 64 4 8 8) (txt "/x"))
    as [H _].
  - reflexivity.
  - cbn; lia.
  - cbn; lia.
  - cbn; lia.
  - discriminate.
  - vm_compute. discriminate.
  - assert (forall a b : list Z, is_bytes a -> is_bytes b -> component_ok 8 a -> component_ok 8 b ->
      is_bytes (a, b).1 /\ is_bytes (a, b).2 /\ field_ok (MkLimits 64 4 8 8) (a, b)) as Hf
      by (intros; split; [done|]; split; [done|]; split; done).
    constructor; [|constructor; [|constructor]]; apply Hf;
      try apply txt_bytes; try constructor; try reflexivity; vm_compute; discriminate.
  - intros Hin%list_elem_of_In. vm_compute in Hin. intuition discriminate.
  - intros Hin%list_elem_of_In. vm_compute in Hin. intuition discriminate.
  - apply H. vm_compute. discriminate.
Defined.

(** ** Cookies *)

(** A printable ASCII character that is no semicolon. *)
Definition attribute_char (ch : Z) : Prop := 32 <= ch <= 126 /\ ch <> char_code ";".

Lemma attribute_char_txt s :
  forallb (fun ch => (32 <=? ch) && (ch <=? 126) && negb (ch =? char_code ";")) (txt s) = true ->
  Forall attribute_char (txt s).
Proof.
  rewrite forallb_forall, Forall_forall. intros H x Hx%list_elem_of_In.
  specialize (H x Hx). unfold attribute_char. lia.
Qed.

Lemma forallb_attribute (f : Z -> bool) l :
  (forall ch, f ch = true -> attribute_char ch) -> forallb f l = true -> Forall attribute_char l.
Proof.
  intros Hf H. rewrite forallb_forall in H. apply Forall_forall. intros x Hx%list_elem_of_In. auto.
Qed.

Lemma alnum_attribute ch : Letter ch || Digit ch = true -> attribute_char ch.
Proof. unfold Letter, Digit, between, attribute_char. eval_chars. lia. Qed.

Lemma token_attribute name : IsToken name = true -> Forall attribute_char name.
Proof.
  unfold IsToken. intros [_ H]%andb_prop. revert H. apply forallb_attribute. intros ch.
  unfold TokenChar. intros [H|H]%orb_prop; [by apply alnum_attribute|].
  apply existsb_exists in H as (x & Hx & Heq). apply Z.eqb_eq in Heq as ->.
  assert (Forall attribute_char (txt "!#$%&'*+-.^_`|~")) as Hall by (by apply attribute_char_txt).
  rewrite Forall_forall in Hall. by apply Hall, list_elem_of_In.
Qed.

Lemma cookie_value_attribute value : CookieValue value = true -> Forall attribute_char value.
Proof.
  apply forallb_attribute. intros ch. unfold CookieOctet, attribute_char. eval_chars. lia.
Qed.

Lemma path_attribute p : forallb PathChar p = true -> Forall attribute_char p.
Proof. apply forallb_attribute. intros ch. unfold PathChar, attribute_char. eval_chars. lia. Qed.

Lemma label_attribute label : DomainLabel label = true -> Forall attribute_char label.
Proof.
  unfold DomainLabel. intros [_ H]%andb_prop. revert H. apply forallb_attribute.
  intros ch. unfold Letter, Digit, between, attribute_char. eval_chars. lia.
Qed.

Lemma domain_loop_attribute fuel value : DomainLoop fuel value = true -> Forall attribute_char value.
Proof.
  revert value; induction fuel as [|fuel IH]; intros value H; cbn [DomainLoop] in H; [done|].
  pose proof (cut_inv (char_code ".") value) as Hc.
  destruct (cut (char_code ".") value) as [label rest].
  destruct (DomainLabel label) eqn:El; [|done]. cbn [negb] in H. apply label_attribute in El.
  destruct rest as [rest|]; [|by rewrite Hc]. case_if_in H; [done|].
  rewrite Hc. apply Forall_app. split; [done|]. constructor; [|by apply IH].
  unfold attribute_char. eval_chars. lia.
Qed.

Lemma domain_attribute value : Domain value = true -> Forall attribute_char value.
Proof.
  unfold Domain. destruct value as [|x value]; [constructor|].
  replace (len (x :: value) =? 0) with false by (unfold len; cbn [length]; lia). cbn [hd tl].
  intros H. cbv zeta in H. case_if_in H; [done|]. apply domain_loop_attribute in H.
  case_if_in H; [|done]. constructor; [|done]. unfold attribute_char.
  revert E0. eval_chars. lia.
Qed.

Lemma decimal_loop_attribute fuel n digits :
  Forall attribute_char digits -> Forall attribute_char (DecimalLoop fuel n digits).
Proof.
  revert n digits; induction fuel as [|fuel IH]; intros n digits H; cbn [DecimalLoop]; [done|].
  assert (Forall attribute_char ((char_code "0" + n mod 10) :: digits)) as Hd.
  { constructor; [|done]. pose proof (Z.mod_pos_bound n 10 ltac:(lia)).
    unfold attribute_char. eval_chars. lia. }
  case_if; auto.
Qed.

(** The attributes of a cookie, as the pieces between its semicolons. *)
Definition cookie_attributes (options : CookieOptions) : list (list Z) :=
  (if negb (len (domain options) =? 0) then [txt " Domain=" ++ domain options] else []) ++
  (if negb (len (path options) =? 0) then [txt " Path=" ++ path options] else []) ++
  match maxAgeSeconds options with
  | Some s => [txt " Max-Age=" ++ Decimal (Z.max 0 s)]
  | None => []
  end ++
  (if secure options then [txt " Secure"] else []) ++
  (if httpOnly options then [txt " HttpOnly"] else []) ++
  match sameSite options with
  | SameSite_Lax => [txt " SameSite=Lax"]
  | SameSite_Strict => [txt " SameSite=Strict"]
  | SameSite_None => [txt " SameSite=None"]
  | _ => []
  end.

Lemma append_if_spec c limit texts r r' :
  len r <= limit -> AppendIf c limit texts r = FromValue r' ->
  r' = r ++ (if c then concat texts else []) /\ len r' <= limit.
Proof.
  intros Hr. unfold AppendIf. destruct c; [|intros H; injection H as <-; by rewrite app_nil_r].
  revert r Hr; induction texts as [|t texts IH]; intros r Hr; cbn [fold_left concat].
  { intros H. injection H as <-. by rewrite app_nil_r. }
  change (Result.bind (FromValue r) _) with (AppendBounded limit t r).
  destruct (AppendBounded limit t r) as [r1|e] eqn:E; unfold AppendBounded in E; case_if_in E; try done.
  - injection E as <-. intros H. apply IH in H as [-> H]; [|rewrite len_app; lia].
    split; [by rewrite <- app_assoc|done].
  - intros H. exfalso. revert H. clear. induction texts as [|t' texts IH]; [done|]. exact IH.
Qed.

Lemma join_cons c f fs : join c (f :: fs) = f ++ flat_map (fun g => c :: g) fs.
Proof.
  revert f; induction fs as [|g fs IH]; intros f; [cbn; by rewrite app_nil_r|].
  change (join c (f :: g :: fs)) with (f ++ c :: join c (g :: fs)). by rewrite IH.
Qed.

Lemma serialize_set_cookie_ok name value options out :
  0 <= cookieMaxBytes options -> SerializeSetCookie name value options = FromValue out ->
  CookieArgumentsOk name value options = true /\ forallb PathChar (path options) = true /\
  len out <= cookieMaxBytes options /\
  out = join (char_code ";") ((name ++ txt "=" ++ value) :: cookie_attributes options).
Proof.
  intros Hl H. unfold SerializeSetCookie in H.
  destruct (CookieArgumentsOk name value options); [|done]. cbn [negb] in H.
  destruct (forallb PathChar (path options)); [|done]. cbn [negb] in H. cbv zeta in H.
  split; [done|]. split; [done|].
  repeat match type of H with
  | Result.bind _ _ = FromValue _ =>
      let r := fresh "r" in let Hr := fresh "Hr" in apply result_bind_value in H as (r & Hr & H)
  end.
  apply append_if_spec in Hr as [-> L1]; [|done].
  apply append_if_spec in Hr0 as [-> L2]; [|done].
  apply append_if_spec in Hr1 as [-> L3]; [|done].
  apply append_if_spec in Hr2 as [-> L4]; [|done].
  apply append_if_spec in Hr3 as [-> L5]; [|done].
  apply append_if_spec in Hr4 as [-> L6]; [|done].
  apply append_if_spec in H as [-> L7]; [|done].
  split; [done|]. rewrite join_cons. unfold cookie_attributes.
  rewrite !flat_map_app, <- !app_assoc. cbn [concat app]. rewrite !app_nil_r, <- !app_assoc.
  do 3 f_equal. destruct (negb (len (domain options) =? 0)), (negb (len (path options) =? 0)),
    (maxAgeSeconds options), (secure options), (httpOnly options), (sameSite options);
    cbn [flat_map app concat]; rewrite ?app_nil_r, <- ?app_assoc; done.
Qed.

Lemma cookie_attributes_chars name value options :
  CookieArgumentsOk name value options = true -> forallb PathChar (path options) = true ->
  Forall attribute_char (name ++ txt "=" ++ value) /\
  Forall (Forall attribute_char) (cookie_attributes options).
Proof.
  unfold CookieArgumentsOk. rewrite !andb_true_iff.
  intros ((((((((_ & Hn) & Hv) & Hd) & _) & _) & _) & _) & _) Hp.
  apply token_attribute in Hn. apply cookie_value_attribute in Hv.
  apply domain_attribute in Hd. apply path_attribute in Hp.
  assert (forall s l, forallb (fun ch => (32 <=? ch) && (ch <=? 126) && negb (ch =? char_code ";"))
    (txt s) = true -> Forall attribute_char l -> Forall attribute_char (txt s ++ l)) as Htxt.
  { intros s l Hs Hl. apply Forall_app. split; [by apply attribute_char_txt|done]. }
  split; [apply Forall_app; split; [done|by apply Htxt]|].
  unfold cookie_attributes. rewrite !Forall_app. split_and!.
  - case_if; [|constructor]. constructor; [by apply Htxt|constructor].
  - case_if; [|constructor]. constructor; [by apply Htxt|constructor].
  - destruct (maxAgeSeconds options); [|constructor]. constructor; [|constructor].
    apply Htxt; [done|]. apply decimal_loop_attribute. constructor.
  - case_if; [|constructor]. constructor; [by apply attribute_char_txt|constructor].
  - case_if; [|constructor]. constructor; [by apply attribute_char_txt|constructor].
  - destruct (sameSite options); first [by apply Forall_nil_2|apply Forall_singleton;
      by apply attribute_char_txt].
Qed.

Lemma attribute_no_semicolon l : Forall attribute_char l -> char_code ";" ∉ l.
Proof. intros H Hin. rewrite Forall_forall in H. by destruct (H _ Hin). Qed.

(** [SerializeSetCookie] cannot be made to inject: when it succeeds, its text is within
    [maxBytes], every byte is printable ASCII, and splitting it at the semicolons gives exactly
    name=value followed by the attributes of the options, whatever bytes name, value, domain and
    path held; SameSite=None and the __Secure- and __Host- prefixes are only emitted with Secure,
    and __Host- only with Path=/ and no Domain. *)
Theorem set_cookie_no_injection name value options out :
  0 <= cookieMaxBytes options -> SerializeSetCookie name value options = FromValue out ->
  len out <= cookieMaxBytes options /\
  Forall (fun ch => 32 <= ch <= 126) out /\
  split_on (char_code ";") out = (name ++ txt "=" ++ value) :: cookie_attributes options /\
  (sameSite options = SameSite_None \/ StartsWith (txt "__Secure-") name = true \/
   StartsWith (txt "__Host-") name = true -> secure options = true) /\
  (StartsWith (txt "__Host-") name = true -> domain options = [] /\ path options = txt "/").
Proof.
  intros Hl H. apply serialize_set_cookie_ok in H as (Ha & Hp & Hlen & Hout); [|done].
  destruct (cookie_attributes_chars _ _ _ Ha Hp) as [H1 H2].
  assert (Forall (Forall attribute_char) ((name ++ txt "=" ++ value) :: cookie_attributes options))
    as Hall by (by constructor).
  split; [done|]. split; [|split].
  - rewrite Hout, join_cons. apply Forall_app. split.
    + eapply Forall_impl; [exact H1|]. by intros ch [? _].
    + clear -H2. induction H2 as [|a l Ha H IH]; cbn [flat_map]; [constructor|].
      constructor; [eval_chars; lia|]. apply Forall_app. split; [|done].
      eapply Forall_impl; [exact Ha|]. by intros ch [? _].
  - rewrite Hout. apply split_on_join; [done|]. eapply Forall_impl; [exact Hall|].
    intros l. apply attribute_no_semicolon.
  - unfold CookieArgumentsOk in Ha. rewrite !andb_true_iff in Ha.
    destruct Ha as ((((_ & _) & Hs) & Hse) & Hho).
    split.
    + intros [E|[E|E]].
      * rewrite bool_decide_true in Hs by done. by destruct (secure options).
      * rewrite E in Hse. by destruct (secure options).
      * rewrite E in Hho. by destruct (secure options).
    + intros E. rewrite E in Hho. destruct (secure options); [|done].
      destruct (domain options); [|done].
      destruct (bytes_eqb (path options) (txt "/")) eqn:Eb; [|done].
      split; [done|]. by apply bytes_eqb_eq.
Qed.

Definition sample_cookie_options : CookieOptions :=
  MkCookieOptions (txt "example.com") (txt "/app") (Some 3600) SameSite_Lax true true 4096.

Lemma set_cookie_no_injection_witness :
  split_on (char_code ";")
    (txt "id=abc; Domain=example.com; Path=/app; Max-Age=3600; Secure; HttpOnly; SameSite=Lax") =
  (txt "id=abc") :: cookie_attributes sample_cookie_options.
Proof.
  eapply (set_cookie_no_injection (txt "id") (txt "abc") sample_cookie_options); [cbn; lia|].
  vm_compute. reflexivity.
Defined.
