(* ===== verification/RoutePattern.v ===== *)
(** * Web: route patterns and request paths.

    [Web/RoutePattern.h|cpp].  A pattern and a path are lists of segments; the functions that leave
    [output] unchanged on failure return [None] there.  [VisitSegments] runs its visitor on a state
    (the segments pushed so far, the parameter names seen). *)

From stdpp Require Import sets.
From S2P Require Import Prelude CoreError Utf8 RequestData.
#[local] Open Scope Z_scope.
Import RequestData.

Module RoutePattern.

Record RouteSegment : Type := MkSegment { segment_value : list Z; parameter : bool }.

(** [RoutePattern] is its vector of segments, [RoutePath] a vector of strings. *)
Definition RoutePattern : Type := list RouteSegment.
Definition RoutePath : Type := list (list Z).

Definition HexDigit (value : Z) : Z :=
  if between "0" "9" value then value - char_code "0"
  else if between "a" "f" value then value - char_code "a" + 10
  else if between "A" "F" value then value - char_code "A" + 10
  else -1.

(** A raw byte that may appear in a segment, and a decoded one. *)
Definition RawSegmentByte (value : Z) : bool :=
  negb ((value <? 33) || (127 <=? value) || (value =? char_code "?") || (value =? char_code "#")).
Definition DecodedSegmentByte (value : Z) : bool :=
  negb ((value <? 32) || (value =? 127) || (value =? char_code "/") || (value =? 92)).

Fixpoint DecodeSegmentLoop (raw decoded : list Z) : option (list Z) :=
  match raw with
  | [] => Some decoded
  | value :: rest =>
      if negb (RawSegmentByte value) then None
      else if value =? char_code "%" then
        match rest with
        | h :: l :: rest' =>
            if (HexDigit h <? 0) || (HexDigit l <? 0) then None
            else
              let value := HexDigit h * 16 + HexDigit l in
              if negb (DecodedSegmentByte value) then None
              else DecodeSegmentLoop rest' (decoded ++ [value])
        | _ => None
        end
      else if negb (DecodedSegmentByte value) then None
      else DecodeSegmentLoop rest (decoded ++ [value])
  end.

Definition DecodeSegment (raw : list Z) : option (list Z) :=
  match DecodeSegmentLoop raw [] with
  | None => None
  | Some decoded =>
      if bytes_eqb decoded (txt ".") || bytes_eqb decoded (txt "..")
         || negb (Utf8.IsValidUtf8 decoded)
      then None else Some decoded
  end.

(** The loop of [VisitSegments]. *)
Fixpoint VisitLoop {S : Type} (fuel : nat) (visit : list Z -> S -> option S) (path : list Z) (s : S)
    : option S :=
  match fuel with
  | O => None
  | S fuel' =>
      let (raw, rest) := cut (char_code "/") path in
      match visit raw s with
      | None => None
      | Some s' =>
          match rest with
          | None => Some s'
          | Some rest => VisitLoop fuel' visit rest s'
          end
      end
  end.

Definition VisitSegments {S : Type} (path : list Z) (visit : list Z -> S -> option S) (s : S)
    : option S :=
  match path with
  | slash :: rest =>
      if slash =? char_code "/" then VisitLoop (Datatypes.S (length rest)) visit rest s else None
  | [] => None
  end.

Definition IdentifierStart (value : Z) : bool := Letter value || (value =? char_code "_").

Definition ValidParameterName (name : list Z) : bool :=
  match name with
  | [] => false
  | first :: _ =>
      IdentifierStart first && forallb (fun value => IdentifierStart value || Digit value) name
  end.

(** The visitor of [CompileRoutePattern]: the segments and the names so far. *)
Definition CompileSegment (raw : list Z) (s : RoutePattern * list (list Z))
    : option (RoutePattern * list (list Z)) :=
  let (compiled, names) := s in
  if existsb (fun ch => (ch =? char_code "{") || (ch =? char_code "}")) raw then
    if (len raw <? 3) || negb (hd 0 raw =? char_code "{")
       || negb (List.last raw 0 =? char_code "}")
    then None
    else
      let name := removelast (tl raw) in
      if negb (ValidParameterName name) || existsb (bytes_eqb name) names then None
      else Some (compiled ++ [MkSegment name true], names ++ [name])
  else
    match DecodeSegment raw with
    | None => None
    | Some value => Some (compiled ++ [MkSegment value false], names)
    end.

Definition CompileRoutePattern (pattern : list Z) : option RoutePattern :=
  match VisitSegments pattern CompileSegment ([], []) with
  | Some (compiled, _) => Some compiled
  | None => None
  end.

Definition DecodePathSegment (raw : list Z) (decoded : RoutePath) : option RoutePath :=
  match DecodeSegment raw with
  | None => None
  | Some segment => Some (decoded ++ [segment])
  end.

Definition DecodeRoutePath (rawPath : list Z) : option RoutePath :=
  VisitSegments rawPath DecodePathSegment [].

Definition SegmentMatches (segment : RouteSegment) (value : list Z) : bool :=
  if parameter segment then negb (len value =? 0) else bytes_eqb (segment_value segment) value.

Fixpoint MatchesRoutePattern (pattern : RoutePattern) (path : RoutePath) : bool :=
  match pattern, path with
  | [], [] => true
  | segment :: pattern', value :: path' =>
      SegmentMatches segment value && MatchesRoutePattern pattern' path'
  | _, _ => false
  end.

Definition SameSegmentShape (l r : RouteSegment) : bool :=
  negb (negb (Bool.eqb (parameter l) (parameter r))
        || (negb (parameter l) && negb (bytes_eqb (segment_value l) (segment_value r)))).

Fixpoint SameRouteShape (left right : RoutePattern) : bool :=
  match left, right with
  | [], [] => true
  | l :: left', r :: right' => SameSegmentShape l r && SameRouteShape left' right'
  | _, _ => false
  end.

(** The loop of [MoreSpecificRoutePattern], over patterns of equal length. *)
Fixpoint MoreSpecificLoop (left right : RoutePattern) : bool :=
  match left, right with
  | l :: left', r :: right' =>
      if negb (Bool.eqb (parameter l) (parameter r)) then negb (parameter l)
      else MoreSpecificLoop left' right'
  | _, _ => false
  end.

Definition MoreSpecificRoutePattern (left right : RoutePattern) : bool :=
  if negb (length left =? length right)%nat then false else MoreSpecificLoop left right.

Fixpoint CaptureLoop (pattern : RoutePattern) (path : RoutePath) : list (list Z * list Z) :=
  match pattern, path with
  | segment :: pattern', value :: path' =>
      (if parameter segment then [(segment_value segment, value)] else [])
      ++ CaptureLoop pattern' path'
  | _, _ => []
  end.

(** [None]: the assertion fails. *)
Definition CaptureRouteParameters (pattern : RoutePattern) (path : RoutePath)
    : option (list (list Z * list Z)) :=
  if negb (MatchesRoutePattern pattern path) then None else Some (CaptureLoop pattern path).

(** [HttpRequest::PathParameter] of [WebProtocol.cpp]: the first parameter of a name, else empty. *)
Fixpoint PathParameter (parameters : list (list Z * list Z)) (name : list Z) : list Z :=
  match parameters with
  | [] => []
  | (n, v) :: rest => if bytes_eqb n name then v else PathParameter rest name
  end.

End RoutePattern.

Import RoutePattern.

(** ** Visiting *)

(** Visiting the pieces between the slashes one after the other. *)
Fixpoint visit_pieces {S : Type} (visit : list Z -> S -> option S) (pieces : list (list Z)) (s : S)
    : option S :=
  match pieces with
  | [] => Some s
  | p :: ps => match visit p s with Some s' => visit_pieces visit ps s' | None => None end
  end.

Lemma visit_loop_pieces {S} fuel (visit : list Z -> S -> option S) path s :
  (length path < fuel)%nat ->
  VisitLoop fuel visit path s = visit_pieces visit (split_on (char_code "/") path) s.
Proof.
  revert path s; induction fuel as [|fuel IH]; intros path s Hf; [lia|].
  cbn [VisitLoop]. rewrite split_on_cut. pose proof (cut_length (char_code "/") path) as Hl.
  destruct (cut (char_code "/") path) as [raw rest]. cbn [fst snd visit_pieces].
  destruct (visit raw s) as [s'|]; [|done]. destruct rest as [rest|]; [|done].
  apply IH. rewrite (Hl raw rest eq_refl) in Hf. lia.
Qed.

Lemma visit_segments_pieces {S} rest (visit : list Z -> S -> option S) s :
  VisitSegments (char_code "/" :: rest) visit s =
  visit_pieces visit (split_on (char_code "/") rest) s.
Proof. cbn [VisitSegments]. rewrite Z.eqb_refl. apply visit_loop_pieces. lia. Qed.

Lemma visit_segments_inv {S} path (visit : list Z -> S -> option S) s s' :
  VisitSegments path visit s = Some s' ->
  exists rest, path = char_code "/" :: rest /\
    visit_pieces visit (split_on (char_code "/") rest) s = Some s'.
Proof.
  destruct path as [|x rest]; [done|]. cbn [VisitSegments]. destruct (x =? char_code "/") eqn:E; [|done].
  apply Z.eqb_eq in E as ->. rewrite visit_loop_pieces by lia. eauto.
Qed.

(** ** Decoded paths are safe *)

(** A decoded segment: no separator of any kind, no control byte, no dot segment, valid UTF-8. *)
Definition safe_segment (segment : list Z) : Prop :=
  Forall (fun ch => DecodedSegmentByte ch = true) segment /\
  segment <> txt "." /\ segment <> txt ".." /\ Utf8.IsValidUtf8 segment = true.

Lemma decode_segment_loop_safe raw decoded r :
  Forall (fun ch => DecodedSegmentByte ch = true) decoded ->
  DecodeSegmentLoop raw decoded = Some r -> Forall (fun ch => DecodedSegmentByte ch = true) r.
Proof.
  remember (length raw) as n eqn:Hn. assert (length raw <= n)%nat as Hle by lia. clear Hn.
  revert raw decoded Hle; induction n as [|n IH]; intros raw decoded Hle Hd H.
  { destruct raw; [|cbn in Hle; lia]. cbn in H. by injection H as <-. }
  destruct raw as [|v rest]; cbn [DecodeSegmentLoop] in H; [by injection H as <-|]. cbn in Hle.
  assert (forall x, DecodedSegmentByte x = true ->
    Forall (fun ch => DecodedSegmentByte ch = true) (decoded ++ [x])) as Hx.
  { intros x Hx. apply Forall_app. split; [done|]. by constructor. }
  case_if_in H; [done|]. case_if_in H.
  - destruct rest as [|h [|l rest']]; [done..|]. case_if_in H; [done|]. cbv zeta in H.
    destruct (DecodedSegmentByte (HexDigit h * 16 + HexDigit l)) eqn:Ed; [|done]. cbn in Hle.
    eapply IH; [|by apply Hx|exact H]. lia.
  - destruct (DecodedSegmentByte v) eqn:Ed; [|done]. eapply IH; [|by apply Hx|exact H]. lia.
Qed.

Lemma decode_segment_safe raw r : DecodeSegment raw = Some r -> safe_segment r.
Proof.
  unfold DecodeSegment. destruct (DecodeSegmentLoop raw []) as [d|] eqn:E; [|done].
  case_if; [done|]. intros H. injection H as <-.
  apply orb_false_iff in E0 as [[E1 E2]%orb_false_iff E3].
  split_and!; [by eapply decode_segment_loop_safe, E|by apply bytes_eqb_neq..|].
  by destruct (Utf8.IsValidUtf8 d).
Qed.

Lemma visit_decode_pieces pieces acc path :
  visit_pieces DecodePathSegment pieces acc = Some path ->
  exists decoded, path = acc ++ decoded /\ Forall2 (fun p d => DecodeSegment p = Some d) pieces decoded.
Proof.
  revert acc; induction pieces as [|p ps IH]; intros acc H; cbn [visit_pieces] in H.
  { injection H as <-. exists []. by rewrite app_nil_r. }
  unfold DecodePathSegment in H at 1. destruct (DecodeSegment p) as [d|] eqn:Ed; [|done].
  apply IH in H as (decoded & -> & Hf). exists (d :: decoded). rewrite <- app_assoc.
  split; [done|]. by constructor.
Qed.

Lemma visit_decode_pieces_ok pieces acc decoded :
  Forall2 (fun p d => DecodeSegment p = Some d) pieces decoded ->
  visit_pieces DecodePathSegment pieces acc = Some (acc ++ decoded).
Proof.
  intros H. revert acc; induction H as [|p d ps ds Hp H IH]; intros acc; cbn [visit_pieces].
  { by rewrite app_nil_r. }
  unfold DecodePathSegment at 1. rewrite Hp. by rewrite IH, <- app_assoc.
Qed.

(** A decoded request path can neither climb nor smuggle: a path that [DecodeRoutePath] accepts
    starts with a slash, has one decoded segment for each raw piece between slashes, and no
    segment contains a slash, a backslash, a control byte or DEL (however it was escaped), is a
    dot segment, or is invalid UTF-8. *)
Theorem decoded_path_safe raw path :
  DecodeRoutePath raw = Some path ->
  exists rest, raw = char_code "/" :: rest /\
    length path = length (split_on (char_code "/") rest) /\
    Forall2 (fun piece segment => DecodeSegment piece = Some segment)
      (split_on (char_code "/") rest) path /\
    Forall safe_segment path.
Proof.
  intros H. apply visit_segments_inv in H as (rest & -> & H).
  apply visit_decode_pieces in H as (decoded & -> & Hf). cbn [app].
  exists rest. split_and!; [done|by apply Forall2_length in Hf|done|].
  clear -Hf. induction Hf; constructor; eauto using decode_segment_safe.
Qed.

Lemma decoded_path_safe_witness :
  Forall safe_segment [txt "a b"; []; txt "c"].
Proof.
  destruct (decoded_path_safe (txt "/a%20b//c") [txt "a b"; []; txt "c"]) as (rest & _ & _ & _ & H).
  - vm_compute. reflexivity.
  - exact H.
Defined.

(** ** Building a path *)

(** A byte encoded generically, taken by the segment decoder. *)
Definition segment_decodes (ch : Z) : bool :=
  negb (DecodedSegmentByte ch) ||
  match EncodeByte false ch with
  | [x] => RawSegmentByte x && negb (x =? char_code "%") && (x =? ch)
  | [p; h; l] => RawSegmentByte p && (p =? char_code "%") && negb (HexDigit h <? 0)
      && negb (HexDigit l <? 0) && (HexDigit h * 16 + HexDigit l =? ch)
  | _ => false
  end.

Lemma decode_segment_encode_byte ch rest decoded :
  is_byte ch -> DecodedSegmentByte ch = true ->
  DecodeSegmentLoop (EncodeByte false ch ++ rest) decoded =
  DecodeSegmentLoop rest (decoded ++ [ch]).
Proof.
  intros Hb Hd. assert (segment_decodes ch = true) as H
    by (apply (byte_cases segment_decodes); [vm_compute; reflexivity|done]).
  unfold segment_decodes in H. rewrite Hd in H. cbn [negb orb] in H.
  destruct (EncodeByte false ch) as [|x [|h [|l [|]]]]; try done; cbn [app DecodeSegmentLoop].
  - destruct (RawSegmentByte x), (x =? char_code "%"); try done. cbn [negb andb] in *.
    assert (x = ch) as -> by lia. by rewrite Hd.
  - destruct (RawSegmentByte x), (x =? char_code "%"); try done. cbn [negb andb] in *.
    replace ((HexDigit h <? 0) || (HexDigit l <? 0)) with false by lia. cbv zeta.
    assert (HexDigit h * 16 + HexDigit l = ch) as -> by lia. by rewrite Hd.
Qed.

Lemma decode_segment_encode_all segment decoded :
  is_bytes segment -> Forall (fun ch => DecodedSegmentByte ch = true) segment ->
  DecodeSegmentLoop (encode_all false segment) decoded = Some (decoded ++ segment).
Proof.
  intros Hb. revert decoded; induction Hb as [|ch segment Hc Hb IH]; intros decoded Hd.
  { cbn. by rewrite app_nil_r. }
  apply Forall_cons in Hd as [Hch Hd]. cbn [encode_all flat_map].
  rewrite decode_segment_encode_byte by done. fold (encode_all false segment).
  rewrite IH by done. by rewrite <- app_assoc.
Qed.

Lemma decode_encoded_segment segment :
  is_bytes segment -> safe_segment segment -> DecodeSegment (encode_all false segment) = Some segment.
Proof.
  intros Hb (Hd & H1 & H2 & H3). unfold DecodeSegment.
  rewrite decode_segment_encode_all by done. cbn [app].
  apply bytes_eqb_neq in H1 as ->. apply bytes_eqb_neq in H2 as ->. by rewrite H3.
Qed.

(** The request path of a list of segments, each percent-encoded. *)
Definition encode_path (path : RoutePath) : list Z :=
  char_code "/" :: join (char_code "/") (map (encode_all false) path).

(** Paths round-trip: a non-empty list of safe segments, percent-encoded segment by segment and
    joined with slashes, decodes to exactly those segments, empty ones included. *)
Theorem path_round_trip path :
  path <> [] -> Forall is_bytes path -> Forall safe_segment path ->
  DecodeRoutePath (encode_path path) = Some path.
Proof.
  intros Hne Hb Hs. unfold DecodeRoutePath, encode_path.
  rewrite visit_segments_pieces, split_on_join.
  - apply (visit_decode_pieces_ok _ []). clear Hne.
    induction Hs as [|s path Hs Hss IH]; [constructor|].
    apply Forall_cons in Hb as [Hb Hbs]. constructor; [by apply decode_encoded_segment|auto].
  - by destruct path.
  - apply Forall_map. eapply Forall_impl; [exact Hb|]. intros s Hsb. by apply not_in_encoded.
Qed.

Lemma path_round_trip_witness :
  DecodeRoutePath (encode_path [txt "user files"; txt "50%"; []]) =
    Some [txt "user files"; txt "50%"; []].
Proof.
  apply (path_round_trip [txt "user files"; txt "50%"; []]).
  - discriminate.
  - constructor; [apply txt_bytes|constructor; [apply txt_bytes|constructor; [constructor|constructor]]].
  - assert (forall s, forallb DecodedSegmentByte s = true -> bytes_eqb s (txt ".") = false ->
      bytes_eqb s (txt "..") = false -> Utf8.IsValidUtf8 s = true -> safe_segment s) as Hs.
    { intros s H1 H2 H3 H4. split; [|split; [by apply bytes_eqb_neq|split; [by apply bytes_eqb_neq|done]]].
      rewrite forallb_forall in H1. apply Forall_forall. intros x Hx. by apply H1, list_elem_of_In. }
    constructor; [|constructor; [|constructor; [|constructor]]]; apply Hs; reflexivity.
Defined.

(** ** Choosing among matching routes *)

Lemma matches_length pattern path : MatchesRoutePattern pattern path = true -> length pattern = length path.
Proof.
  revert path; induction pattern as [|s pattern IH]; intros [|v path]; cbn; try done.
  intros [_ H]%andb_prop. f_equal. by apply IH.
Qed.

Lemma more_specific_matching l r path :
  MatchesRoutePattern l path = true -> MatchesRoutePattern r path = true ->
  MoreSpecificRoutePattern l r = MoreSpecificLoop l r.
Proof.
  intros Hl%matches_length Hr%matches_length. unfold MoreSpecificRoutePattern.
  rewrite Hl, Hr. by rewrite Nat.eqb_refl.
Qed.

(** Two routes that match the same path are ordered, or have the same shape. *)
Lemma specificity_total l r path :
  MatchesRoutePattern l path = true -> MatchesRoutePattern r path = true ->
  SameRouteShape l r = false ->
  MoreSpecificLoop l r = true \/ MoreSpecificLoop r l = true.
Proof.
  revert r path; induction l as [|sl l IH]; intros [|sr r] [|v path]; cbn; try done.
  intros [Hl1 Hl2]%andb_prop [Hr1 Hr2]%andb_prop Hs. unfold SegmentMatches, SameSegmentShape in *.
  destruct (parameter sl), (parameter sr); cbn in *; auto.
  - by apply (IH r path).
  - apply bytes_eqb_eq in Hl1, Hr1. rewrite Hl1, Hr1, bytes_eqb_refl in Hs. cbn in Hs.
    by apply (IH r path).
Qed.

Lemma specificity_trans a b c :
  length a = length b -> length b = length c ->
  MoreSpecificLoop a b = true -> MoreSpecificLoop b c = true -> MoreSpecificLoop a c = true.
Proof.
  revert b c; induction a as [|sa a IH]; intros [|sb b] [|sc c]; cbn; try done.
  intros [= Hab] [= Hbc]. destruct (parameter sa), (parameter sb), (parameter sc); cbn; try done; eauto.
Qed.

(** Routing is unambiguous: among routes of pairwise different shape of which some match a
    path, there is exactly one that is more specific than every other one that matches. *)
Theorem best_route_unique routes path :
  ForallOrdPairs (fun l r => SameRouteShape l r = false /\ SameRouteShape r l = false) routes ->
  Exists (fun r => MatchesRoutePattern r path = true) routes ->
  exists before best after, routes = before ++ best :: after /\
    MatchesRoutePattern best path = true /\
    forall r, r ∈ before ++ after -> MatchesRoutePattern r path = true ->
      MoreSpecificRoutePattern best r = true.
Proof.
  intros Hpairs. induction Hpairs as [|p routes Hp Hpairs IH]; intros Hex; [by apply Exists_nil in Hex|].
  rewrite Forall_forall in Hp. destruct (MatchesRoutePattern p path) eqn:Ep.
  2:{ apply Exists_cons in Hex as [Hex|Hex]; [congruence|].
      destruct (IH Hex) as (before & best & after & -> & Hb & Hall).
      exists (p :: before), best, after. split_and!; [done..|].
      intros r Hr Hm. cbn [app] in Hr. apply elem_of_cons in Hr as [->|Hr]; [congruence|auto]. }
  destruct (decide (Exists (fun r => MatchesRoutePattern r path = true) routes)) as [He|Hn].
  - destruct (IH He) as (before & best & after & -> & Hb & Hall).
    destruct (Hp best ltac:(set_solver)) as [Hs1 Hs2].
    destruct (specificity_total p best path Ep Hb Hs1) as [Hmore|Hmore].
    + exists [], p, (before ++ best :: after). split_and!; [done..|]. cbn [app]. intros r Hr Hm.
      rewrite (more_specific_matching p r path) by done.
      assert (r = best \/ r ∈ before ++ after) as [->|Hr'] by set_solver; [done|].
      pose proof (Hall r Hr' Hm) as Hbr. rewrite (more_specific_matching best r path) in Hbr by done.
      apply matches_length in Ep, Hb, Hm. eapply specificity_trans, Hbr; [congruence..|done].
    + exists (p :: before), best, after. split_and!; [done..|]. intros r Hr Hm. cbn [app] in Hr.
      apply elem_of_cons in Hr as [->|Hr]; [|auto]. by rewrite (more_specific_matching best p path).
  - exists [], p, routes. split_and!; [done..|]. cbn [app]. intros r Hr Hm. exfalso. apply Hn.
    apply Exists_exists. eauto.
Qed.

Definition sample_routes : list RoutePattern :=
  [[MkSegment (txt "users") false; MkSegment (txt "id") true];
   [MkSegment (txt "users") false; MkSegment (txt "me") false];
   [MkSegment (txt "kind") true; MkSegment (txt "me") false]].

Lemma best_route_unique_witness : exists before best after,
  sample_routes = before ++ best :: after /\
  MatchesRoutePattern best [txt "users"; txt "me"] = true /\
  forall r, r ∈ before ++ after -> MatchesRoutePattern r [txt "users"; txt "me"] = true ->
    MoreSpecificRoutePattern best r = true.
Proof.
  apply (best_route_unique sample_routes [txt "users"; txt "me"]).
  - repeat (constructor; [repeat (constructor; [split; reflexivity|]); constructor|]). constructor.
  - apply Exists_cons. left. reflexivity.
Defined.

(** ** Captured parameters *)

Definition parameter_names (pattern : RoutePattern) : list (list Z) :=
  map segment_value (List.filter parameter pattern).

Lemma compile_pieces_names pieces compiled names result names' :
  names = parameter_names compiled -> NoDup names ->
  visit_pieces CompileSegment pieces (compiled, names) = Some (result, names') ->
  NoDup (parameter_names result).
Proof.
  revert compiled names; induction pieces as [|p ps IH]; intros compiled names Hn Hd H;
    cbn [visit_pieces] in H.
  { injection H as <- <-. by subst. }
  destruct (CompileSegment p (compiled, names)) as [[compiled1 names1]|] eqn:E; [|done].
  eapply IH; [| |exact H]; unfold CompileSegment in E; case_if_in E;
    repeat (case_if_in E; [done|]).
  - injection E as <- <-. unfold parameter_names in *. rewrite List.filter_app, map_app, <- Hn. done.
  - destruct (DecodeSegment p); [|done]. injection E as <- <-. unfold parameter_names in *.
    rewrite List.filter_app, map_app, <- Hn. by rewrite app_nil_r.
  - injection E as <- <-. apply NoDup_app. split_and!; [done| |apply NoDup_singleton].
    intros x Hx Hs. apply list_elem_of_singleton in Hs as ->.
    apply orb_false_iff in E2 as [_ E2]. apply not_true_iff_false in E2. apply E2.
    apply existsb_exists. exists (removelast (tl p)). split; [by apply list_elem_of_In|].
    apply bytes_eqb_refl.
  - destruct (DecodeSegment p); [|done]. by injection E as <- <-.
Qed.

Lemma capture_names pattern path :
  MatchesRoutePattern pattern path = true -> map fst (CaptureLoop pattern path) = parameter_names pattern.
Proof.
  revert path; induction pattern as [|s pattern IH]; intros [|v path]; cbn; try done.
  intros [_ H]%andb_prop. rewrite map_app, IH by done. unfold parameter_names. cbn.
  by destruct (parameter s).
Qed.

Lemma path_parameter_in caps n v :
  NoDup (map fst caps) -> (n, v) ∈ caps -> PathParameter caps n = v.
Proof.
  induction caps as [|[n' v'] caps IH]; cbn [map fst PathParameter]; intros Hd Hin;
    [by apply elem_of_nil in Hin|].
  apply NoDup_cons in Hd as [Hn Hd]. apply elem_of_cons in Hin as [[= -> ->]|Hin].
  - by rewrite bytes_eqb_refl.
  - destruct (bytes_eqb n' n) eqn:E; [|by apply IH]. apply bytes_eqb_eq in E as ->.
    exfalso. apply Hn. apply list_elem_of_fmap. by exists (n, v).
Qed.

(** The path a pattern stands for once its parameters are known. *)
Definition substitute (pattern : RoutePattern) (caps : list (list Z * list Z)) : RoutePath :=
  map (fun s => if parameter s then PathParameter caps (segment_value s) else segment_value s) pattern.

Lemma substitute_capture caps pattern path :
  NoDup (map fst caps) -> (forall x, x ∈ CaptureLoop pattern path -> x ∈ caps) ->
  MatchesRoutePattern pattern path = true -> substitute pattern caps = path.
Proof.
  intros Hd. revert path; induction pattern as [|s pattern IH]; intros [|v path] Hin; cbn; try done.
  intros [Hs Hm]%andb_prop. cbn [CaptureLoop] in Hin. unfold SegmentMatches in Hs. f_equal.
  - destruct (parameter s); [|by apply bytes_eqb_eq]. apply path_parameter_in; [done|].
    apply Hin, elem_of_app. left. by left.
  - apply IH; [|done]. intros x Hx. apply Hin, elem_of_app. by right.
Qed.

(** Captured parameters determine the path: for a compiled pattern that matches a path, the
    capture succeeds, each parameter name occurs once with a non-empty value, and reading every
    parameter of the pattern back by its name gives the path again. *)
Theorem capture_reconstructs raw pattern path :
  CompileRoutePattern raw = Some pattern -> MatchesRoutePattern pattern path = true ->
  exists caps, CaptureRouteParameters pattern path = Some caps /\
    NoDup (map fst caps) /\ Forall (fun c => c.2 <> []) caps /\ substitute pattern caps = path.
Proof.
  intros Hc Hm. unfold CaptureRouteParameters. rewrite Hm. cbn [negb].
  assert (NoDup (map fst (CaptureLoop pattern path))) as Hd.
  { rewrite capture_names by done. unfold CompileRoutePattern in Hc.
    destruct (VisitSegments raw CompileSegment ([], [])) as [[compiled names]|] eqn:Ev; [|done].
    injection Hc as <-. apply visit_segments_inv in Ev as (rest & _ & Ev).
    eapply compile_pieces_names, Ev; [done|constructor]. }
  eexists. split_and!; [done..| |by apply substitute_capture].
  clear -Hm. revert path Hm; induction pattern as [|s pattern IH]; intros [|v path]; cbn; try done.
  intros [Hs Hm]%andb_prop. apply Forall_app. split; [|by apply IH].
  unfold SegmentMatches in Hs. destruct (parameter s); [|constructor]. constructor; [|constructor].
  cbn. intros ->. done.
Qed.

Lemma capture_reconstructs_witness : exists pattern caps,
  CompileRoutePattern (txt "/users/{id}/files/{name}") = Some pattern /\
  CaptureRouteParameters pattern [txt "users"; txt "7"; txt "files"; txt "a"] = Some caps /\
  PathParameter caps (txt "name") = txt "a" /\ NoDup (map fst caps).
Proof.
  destruct (CompileRoutePattern (txt "/users/{id}/files/{name}")) as [pattern|] eqn:E;
    [|vm_compute in E; discriminate].
  destruct (capture_reconstructs (txt "/users/{id}/files/{name}") pattern
    [txt "users"; txt "7"; txt "files"; txt "a"]) as (caps & Hc & Hd & _ & _).
  - exact E.
  - vm_compute in E. injection E as <-. vm_compute. reflexivity.
  - exists pattern, caps. split_and!; [reflexivity|exact Hc| |exact Hd].
    vm_compute in E. injection E as <-. vm_compute in Hc. injection Hc as <-. vm_compute. reflexivity.
Defined.
