(* ===== verification/RequestLimiter.v ===== *)
(** * Runtime: the request limiter.

    [Runtime/RequestLimiter.h|cpp]: token buckets and concurrency admission per key.  Times are
    [steady_clock] nanoseconds; token counts are [long double] values, represented as rationals, every
    arithmetic operation on them being followed by the rounding [rnd] of the format (a parameter:
    x87 extended, binary64 or binary128, by platform).  [std::map<std::string, ...>] is an
    association list in key order.  A permit holds a pointer to its entry; it is represented by the
    entry's key, and the accounting theorem shows that the entry outlives it.  Every operation runs
    under the state's mutex. *)

From Stdlib Require Import QArith Qminmax Qround Lqa.
From S2P Require Import Prelude CoreError.
#[local] Open Scope Z_scope.

Module RequestLimiter.

Record RequestLimiterOptions : Type := MkOptions {
  maxKeys : Z;
  maxKeyBytes : Z;
  maxRetainedKeyBytes : Z;
  refillTokens : Z;
  burstTokens : Z;
  refillInterval : Z; (* milliseconds *)
  maxConcurrentPerKey : Z;
  maxConcurrentTotal : Z;
  idleExpiry : Z (* milliseconds *)
}.

Record RequestLimitEntry : Type := MkEntry {
  tokens : Q;
  entryActive : Z;
  refill : Z;
  seen : Z
}.

Record RequestLimitState : Type := MkState {
  options : RequestLimiterOptions;
  entries : list (list Z * RequestLimitEntry);
  keyBytes : Z;
  active : Z;
  pressureRetry : Z;
  closed : bool
}.

(** [Clock::time_point::max()]. *)
Definition TimeMax : Z := 2 ^ 63 - 1.
(** Nanoseconds in a millisecond. *)
Definition NsPerMs : Z := 1000000.

Inductive RequestLimitReason : Type :=
| Reason_None
| Reason_Rate
| Reason_KeyConcurrency
| Reason_TotalConcurrency
| Reason_KeyCapacity.

(** [permit] is the key whose entry the permit points to. *)
Record RequestAdmission : Type := MkAdmission {
  permit : option (list Z);
  reason : RequestLimitReason;
  retryAfter : Z
}.

Definition Allowed (a : RequestAdmission) : bool :=
  match permit a with Some _ => true | None => false end.

Record RequestLimiterSnapshot : Type := MkSnapshot {
  keys : Z;
  retainedKeyBytes : Z;
  snapshotActive : Z
}.

Section Arithmetic.

(** The rounding of [long double]. *)
Context (rnd : Q -> Q).

(** [static_cast<long double>] of an integer. *)
Definition ToLongDouble (z : Z) : Q := rnd (inject_Z z).

Definition Refill (o : RequestLimiterOptions) (now : Z) (e : RequestLimitEntry)
    : RequestLimitEntry :=
  if now <=? refill e then e
  else
    let elapsed := rnd (ToLongDouble (now - refill e) / inject_Z NsPerMs) in
    let added := rnd (rnd (elapsed * ToLongDouble (refillTokens o))
                      / ToLongDouble (refillInterval o)) in
    MkEntry (Qmin (ToLongDouble (burstTokens o)) (rnd (tokens e + added)))
      (entryActive e) now (seen e).

(** 24 hours in milliseconds. *)
Definition FullAtCap : Q := inject_Z (24 * 60 * 60 * 1000).

Definition FullAt (o : RequestLimiterOptions) (e : RequestLimitEntry) : Z :=
  let missing := rnd (ToLongDouble (burstTokens o) - tokens e) in
  let milliseconds := rnd (rnd (missing * ToLongDouble (refillInterval o))
                           / ToLongDouble (refillTokens o)) in
  refill e + Qfloor (rnd (Qmin FullAtCap (Qmax 0 milliseconds) * inject_Z NsPerMs)).

(** Whether [Prune] removes an entry it has just refilled. *)
Definition Prunable (o : RequestLimiterOptions) (isClosed pressure : bool) (now : Z)
    (e : RequestLimitEntry) : bool :=
  let full := Qle_bool (ToLongDouble (burstTokens o)) (tokens e) in
  (entryActive e =? 0)
  && (isClosed || (full && (pressure || (idleExpiry o * NsPerMs <=? now - seen e)))).

(** The loop of [Prune]: the entries kept, the entries removed, their key bytes, the retry time. *)
Fixpoint PruneLoop (o : RequestLimiterOptions) (isClosed pressure : bool) (now : Z)
    (es : list (list Z * RequestLimitEntry)) : list (list Z * RequestLimitEntry) * Z * Z * Z :=
  match es with
  | [] => ([], 0, 0, TimeMax)
  | (key, e) :: es' =>
      let e := Refill o now e in
      let '(kept, removed, bytes, retry) := PruneLoop o isClosed pressure now es' in
      if Prunable o isClosed pressure now e then (kept, removed + 1, bytes + len key, retry)
      else ((key, e) :: kept, removed, bytes,
            if entryActive e =? 0 then Z.min (FullAt o e) retry else retry)
  end.

Definition Prune (now : Z) (pressure : bool) (st : RequestLimitState) : Z * RequestLimitState :=
  let '(kept, removed, bytes, retry) :=
    PruneLoop (options st) (closed st) pressure now (entries st) in
  (removed,
   MkState (options st) kept (keyBytes st - bytes) (active st)
     (if pressure then retry else pressureRetry st) (closed st)).

Definition OptionsValid (o : RequestLimiterOptions) : bool :=
  negb ((maxKeys o =? 0) || (65536 <? maxKeys o) || (maxKeyBytes o =? 0) || (4096 <? maxKeyBytes o)
        || (maxRetainedKeyBytes o <? maxKeyBytes o)
        || (256 * 1024 * 1024 <? maxRetainedKeyBytes o) || (refillTokens o =? 0)
        || (1000000000 <? refillTokens o) || (burstTokens o =? 0) || (1000000000 <? burstTokens o)
        || (refillInterval o <=? 0) || (24 * 3600000 <? refillInterval o) || (idleExpiry o <=? 0)
        || (24 * 7 * 3600000 <? idleExpiry o) || (maxConcurrentPerKey o =? 0)
        || (maxConcurrentTotal o =? 0) || (maxConcurrentTotal o <? maxConcurrentPerKey o)
        || (1000000 <? maxConcurrentTotal o)).

Definition Create (alloc : bool) (o : RequestLimiterOptions) : Result RequestLimitState :=
  if negb (OptionsValid o) then FromStatus (Status.FailWithoutMessage InvalidArgument)
  else if negb alloc then FromStatus (Status.FailWithoutMessage PlatformError)
  else FromValue (MkState o [] 0 0 0 false).

(** [entries.find]. *)
Fixpoint FindEntry (key : list Z) (es : list (list Z * RequestLimitEntry))
    : option RequestLimitEntry :=
  match es with
  | [] => None
  | (k, e) :: es' => if bytes_eqb k key then Some e else FindEntry key es'
  end.

(** A write through the iterator or the pointer. *)
Fixpoint SetEntry (key : list Z) (e : RequestLimitEntry) (es : list (list Z * RequestLimitEntry))
    : list (list Z * RequestLimitEntry) :=
  match es with
  | [] => []
  | (k, e') :: es' => if bytes_eqb k key then (k, e) :: es' else (k, e') :: SetEntry key e es'
  end.

(** [entries.emplace] of a key that is not there. *)
Fixpoint EmplaceEntry (key : list Z) (e : RequestLimitEntry)
    (es : list (list Z * RequestLimitEntry)) : list (list Z * RequestLimitEntry) :=
  match es with
  | [] => [(key, e)]
  | (k, e') :: es' =>
      if bytes_ltb key k then (key, e) :: (k, e') :: es'
      else (k, e') :: EmplaceEntry key e es'
  end.

(** No room for a new key. *)
Definition KeyTableFull (key : list Z) (st : RequestLimitState) : bool :=
  (maxKeys (options st) <=? len (entries st))
  || (maxRetainedKeyBytes (options st) - keyBytes st <? len key).

Definition Denied (r : RequestLimitReason) (retry : Z) : RequestAdmission := MkAdmission None r retry.

(** The last part of [TryAcquire], on the entry of the key. *)
Definition AdmitEntry (now cost : Z) (key : list Z) (e0 : RequestLimitEntry)
    (st : RequestLimitState) : RequestAdmission * RequestLimitState :=
  let o := options st in
  let e1 := Refill o now e0 in
  let e := MkEntry (tokens e1) (entryActive e1) (refill e1) now in
  let with_entry e' act :=
    MkState o (SetEntry key e' (entries st)) (keyBytes st) act (pressureRetry st) (closed st) in
  if maxConcurrentPerKey o <=? entryActive e then
    (Denied Reason_KeyConcurrency 0, with_entry e (active st))
  else if negb (Qle_bool (ToLongDouble cost) (tokens e)) then
    let delay := Qceiling (rnd (rnd (rnd (ToLongDouble cost - tokens e)
                                     * ToLongDouble (refillInterval o))
                                / ToLongDouble (refillTokens o))) in
    (Denied Reason_Rate (Z.max 1 delay), with_entry e (active st))
  else
    (MkAdmission (Some key) Reason_None 0,
     with_entry (MkEntry (rnd (tokens e - ToLongDouble cost)) (entryActive e + 1) (refill e) (seen e))
       (active st + 1)).

(** [alloc]: whether the new entry can be allocated. *)
Definition TryAcquire (alloc : bool) (now : Z) (key : list Z) (cost : Z) (st : RequestLimitState)
    : Result RequestAdmission * RequestLimitState :=
  let o := options st in
  if (len key =? 0) || (cost =? 0) then
    (FromStatus (Status.FailWithoutMessage InvalidArgument), st)
  else if (maxKeyBytes o <? len key) || (burstTokens o <? cost) then
    (FromStatus (Status.FailWithoutMessage TooLarge), st)
  else if closed st then (FromStatus (Status.FailWithoutMessage Closed), st)
  else if maxConcurrentTotal o <=? active st then
    (FromValue (Denied Reason_TotalConcurrency 0), st)
  else
    match FindEntry key (entries st) with
    | Some e =>
        let (a, st') := AdmitEntry now cost key e st in (FromValue a, st')
    | None =>
        let st1 :=
          if KeyTableFull key st && (pressureRetry st <=? now) then (Prune now true st).2 else st in
        if KeyTableFull key st1 then (FromValue (Denied Reason_KeyCapacity 0), st1)
        else if negb alloc then (FromStatus (Status.FailWithoutMessage PlatformError), st1)
        else
          let e := MkEntry (ToLongDouble (burstTokens o)) 0 now now in
          let st2 := MkState o (EmplaceEntry key e (entries st1)) (keyBytes st1 + len key)
            (active st1) (pressureRetry st1) (closed st1) in
          let (a, st') := AdmitEntry now cost key e st2 in (FromValue a, st')
    end.

(** [RequestPermit::Reset] of a permit of [key]; [None]: the entry it points to is gone. *)
Definition ResetPermit (now : Z) (key : list Z) (st : RequestLimitState) : option RequestLimitState :=
  match FindEntry key (entries st) with
  | None => None
  | Some e =>
      let e' := MkEntry (tokens e) (entryActive e - 1) (refill e) now in
      let st' := MkState (options st) (SetEntry key e' (entries st)) (keyBytes st) (active st - 1) 0
        (closed st) in
      Some (if closed st then (Prune now false st').2 else st')
  end.

Definition PruneExpired (now : Z) (st : RequestLimitState) : Z * RequestLimitState :=
  Prune now false st.

Definition Close (now : Z) (st : RequestLimitState) : RequestLimitState :=
  (Prune now false
    (MkState (options st) (entries st) (keyBytes st) (active st) (pressureRetry st) true)).2.

Definition Snapshot (st : RequestLimitState) : RequestLimiterSnapshot :=
  MkSnapshot (len (entries st)) (keyBytes st) (active st).

End Arithmetic.

End RequestLimiter.

Import RequestLimiter.

(** ** The table of entries *)

Notation Table := (list (list Z * RequestLimitEntry)).

Definition table_bytes (es : Table) : Z := foldr (fun p n => len p.1 + n) 0 es.

Lemma find_entry_in key es e : FindEntry key es = Some e -> (key, e) ∈ es.
Proof.
  induction es as [|[k e'] es IH]; cbn; [done|]. destruct (bytes_eqb k key) eqn:E.
  - apply bytes_eqb_eq in E as ->. intros [= ->]. by left.
  - intros H. right. auto.
Qed.

Lemma find_entry_none key es : FindEntry key es = None <-> key ∉ map fst es.
Proof.
  induction es as [|[k e'] es IH]; cbn.
  - split; [|done]. intros _. apply not_elem_of_nil.
  - destruct (bytes_eqb k key) eqn:E.
    + apply bytes_eqb_eq in E as ->. split; [done|]. intros H. exfalso. apply H. by left.
    + apply bytes_eqb_neq in E. rewrite IH, not_elem_of_cons. split; [|naive_solver].
      intros H. split; [congruence|done].
Qed.

Lemma find_entry_unique key es e : NoDup (map fst es) -> (key, e) ∈ es -> FindEntry key es = Some e.
Proof.
  induction es as [|[k e'] es IH]; cbn; intros Hd Hin; [by apply elem_of_nil in Hin|].
  apply NoDup_cons in Hd as [Hk Hd]. apply elem_of_cons in Hin as [[= -> ->]|Hin].
  - by rewrite bytes_eqb_refl.
  - destruct (bytes_eqb k key) eqn:E; [|auto]. apply bytes_eqb_eq in E as ->.
    exfalso. apply Hk, list_elem_of_fmap. by exists (key, e).
Qed.

Lemma set_entry_keys key e es : map fst (SetEntry key e es) = map fst es.
Proof.
  induction es as [|[k e'] es IH]; cbn; [done|]. destruct (bytes_eqb k key); cbn; [done|].
  by rewrite IH.
Qed.

Lemma set_entry_bytes key e es : table_bytes (SetEntry key e es) = table_bytes es.
Proof.
  induction es as [|[k e'] es IH]; cbn; [done|]. destruct (bytes_eqb k key); cbn; [done|].
  unfold table_bytes in IH. by rewrite IH.
Qed.

Lemma set_entry_length key e es : len (SetEntry key e es) = len es.
Proof. unfold len. rewrite <- (length_map fst (SetEntry _ _ _)), set_entry_keys, length_map. done. Qed.

(** What the table holds after a write. *)
Lemma set_entry_in key e es k x :
  NoDup (map fst es) -> (k, x) ∈ SetEntry key e es ->
  (k = key /\ x = e) \/ (k <> key /\ (k, x) ∈ es).
Proof.
  induction es as [|[k' e'] es IH]; cbn [SetEntry map fst]; intros Hd Hin; [by apply elem_of_nil in Hin|].
  apply NoDup_cons in Hd as [Hk Hd]. destruct (bytes_eqb k' key) eqn:E.
  - apply bytes_eqb_eq in E as ->. apply elem_of_cons in Hin as [[= -> ->]|Hin]; [by left|].
    right. split; [|by right]. intros ->. apply Hk, list_elem_of_fmap. by exists (key, x).
  - apply bytes_eqb_neq in E. apply elem_of_cons in Hin as [[= -> ->]|Hin].
    + right. split; [done|by left].
    + destruct (IH Hd Hin) as [?|[? ?]]; [by left|]. right. split; [done|by right].
Qed.

Lemma find_set_entry key e es k :
  key ∈ map fst es ->
  FindEntry k (SetEntry key e es) = if bytes_eqb key k then Some e else FindEntry k es.
Proof.
  induction es as [|[k' e'] es IH]; cbn [SetEntry map fst FindEntry]; intros Hin.
  { by apply elem_of_nil in Hin. }
  destruct (bytes_eqb k' key) eqn:E; cbn [FindEntry].
  - apply bytes_eqb_eq in E as ->. by destruct (bytes_eqb key k).
  - apply bytes_eqb_neq in E. apply elem_of_cons in Hin as [->|Hin]; [done|].
    rewrite IH by done. destruct (bytes_eqb k' k) eqn:Ek, (bytes_eqb key k) eqn:Ek'; try done.
    apply bytes_eqb_eq in Ek, Ek'. congruence.
Qed.

Lemma emplace_permutation key e es : EmplaceEntry key e es ≡ₚ (key, e) :: es.
Proof.
  induction es as [|[k e'] es IH]; cbn; [done|]. destruct (bytes_ltb key k); [done|].
  rewrite IH. apply Permutation_swap.
Qed.

Lemma emplace_bytes key e es : table_bytes (EmplaceEntry key e es) = len key + table_bytes es.
Proof.
  induction es as [|[k e'] es IH]; cbn; [done|]. destruct (bytes_ltb key k); cbn; [done|].
  unfold table_bytes in IH. rewrite IH. lia.
Qed.

Lemma find_emplace key e es k :
  key ∉ map fst es ->
  FindEntry k (EmplaceEntry key e es) = if bytes_eqb key k then Some e else FindEntry k es.
Proof.
  induction es as [|[k' e'] es IH]; cbn [EmplaceEntry map fst FindEntry]; intros Hn; [done|].
  apply not_elem_of_cons in Hn as [Hne Hn]. destruct (bytes_ltb key k'); cbn [FindEntry]; [done|].
  rewrite IH by done. destruct (bytes_eqb k' k) eqn:Ek, (bytes_eqb key k) eqn:Ek'; try done.
  apply bytes_eqb_eq in Ek, Ek'. congruence.
Qed.

Section Limiter.

Context (rnd : Q -> Q).

(** What is assumed of the rounding: it is monotone, and exact on the integers a [double] holds. *)
Hypothesis rnd_mono : forall x y, (x <= y)%Q -> (rnd x <= rnd y)%Q.
Hypothesis rnd_int : forall z, - 2 ^ 53 <= z <= 2 ^ 53 -> (rnd (inject_Z z) == inject_Z z)%Q.

Lemma rnd_nonneg x : (0 <= x)%Q -> (0 <= rnd x)%Q.
Proof.
  intros H. apply rnd_mono in H. rewrite <- (rnd_int 0) by lia. done.
Qed.

Lemma to_long_double_nonneg z : 0 <= z -> (0 <= ToLongDouble rnd z)%Q.
Proof. intros H. apply rnd_nonneg. change 0%Q with (inject_Z 0). by rewrite <- Zle_Qle. Qed.

Lemma qdiv_nonneg x y : (0 <= x)%Q -> (0 <= y)%Q -> (0 <= x / y)%Q.
Proof. intros Hx Hy. apply Qmult_le_0_compat; [done|]. by apply Qinv_le_0_compat. Qed.

Definition options_ok (o : RequestLimiterOptions) : Prop :=
  0 < maxKeys o /\ 0 < maxKeyBytes o /\ 0 < maxRetainedKeyBytes o /\
  0 < refillTokens o <= 1000000000 /\ 0 < burstTokens o <= 1000000000 /\
  0 < refillInterval o /\ 0 < idleExpiry o /\
  0 < maxConcurrentPerKey o <= maxConcurrentTotal o.

Definition tokens_ok (o : RequestLimiterOptions) (e : RequestLimitEntry) : Prop :=
  (0 <= tokens e)%Q /\ (tokens e <= ToLongDouble rnd (burstTokens o))%Q.

Lemma refill_tokens_ok o now e :
  options_ok o -> tokens_ok o e -> tokens_ok o (Refill rnd o now e).
Proof.
  intros Ho [H0 H1]. unfold Refill. destruct (now <=? refill e) eqn:E; [done|].
  split; cbn [tokens]; [|apply Q.le_min_l].
  apply Q.min_glb; [apply to_long_double_nonneg; unfold options_ok in Ho; lia|].
  apply rnd_nonneg. apply (Qplus_le_compat 0 _ 0); [done|].
  apply rnd_nonneg, qdiv_nonneg; [|apply to_long_double_nonneg; unfold options_ok in Ho; lia].
  apply rnd_nonneg, Qmult_le_0_compat; [|apply to_long_double_nonneg; unfold options_ok in Ho; lia].
  apply rnd_nonneg, qdiv_nonneg; [apply to_long_double_nonneg; lia|].
  change 0%Q with (inject_Z 0). by rewrite <- Zle_Qle.
Qed.

Lemma refill_active o now e : entryActive (Refill rnd o now e) = entryActive e.
Proof. unfold Refill. by destruct (now <=? refill e). Qed.

(** ** Pruning *)

Lemma prune_loop_spec o cl pr now es kept removed bytes retry :
  PruneLoop rnd o cl pr now es = (kept, removed, bytes, retry) ->
  sublist (map fst kept) (map fst es) /\
  table_bytes kept + bytes = table_bytes es /\ 0 <= removed /\ len kept + removed = len es /\
  (forall k e', (k, e') ∈ kept -> exists e, (k, e) ∈ es /\ e' = Refill rnd o now e /\
    Prunable rnd o cl pr now e' = false) /\
  (forall k e, (k, e) ∈ es -> Prunable rnd o cl pr now (Refill rnd o now e) = false ->
    (k, Refill rnd o now e) ∈ kept).
Proof.
  revert kept removed bytes retry; induction es as [|[k e] es IH]; intros kept removed bytes retry H.
  { cbn in H. injection H as <- <- <- <-. split_and!; [done..| |].
    - intros k e H. by apply elem_of_nil in H.
    - intros k e H. by apply elem_of_nil in H. }
  cbn [PruneLoop] in H.
  destruct (PruneLoop rnd o cl pr now es) as [[[kept1 removed1] bytes1] retry1] eqn:E1.
  destruct (IH _ _ _ _ eq_refl) as (Hs & Hb & Hr & Hl & Hk & Hk'). clear IH. cbv zeta in H.
  assert (forall A (x : A) l, len (x :: l) = 1 + len l) as Hlen by (intros; unfold len; cbn [length]; lia).
  destruct (Prunable rnd o cl pr now (Refill rnd o now e)) eqn:Ep; injection H as <- <- <- <-;
    cbn [map fst table_bytes foldr]; fold (table_bytes es); fold (table_bytes kept1);
    rewrite ?Hlen; (split_and!; [| |lia|lia| |]).
  - by apply sublist_cons.
  - cbn [fst]. lia.
  - intros k' e' Hin. destruct (Hk k' e' Hin) as (e0 & Hin0 & H). exists e0. split; [by right|done].
  - intros k' e' Hin Hp. apply elem_of_cons in Hin as [[= -> ->]|Hin]; [congruence|]. auto.
  - by apply sublist_skip.
  - cbn [fst]. lia.
  - intros k' e' Hin. apply elem_of_cons in Hin as [[= -> ->]|Hin].
    + exists e. split_and!; [by left|done..].
    + destruct (Hk k' e' Hin) as (e0 & Hin0 & H). exists e0. split; [by right|done].
  - intros k' e' Hin Hp. apply elem_of_cons in Hin as [[= -> ->]|Hin]; [by left|]. right. auto.
Qed.

Lemma len_sublist {A} (l k : list A) : sublist l k -> len l <= len k.
Proof. intros H. apply sublist_length in H. unfold len. lia. Qed.

(** ** Permits *)

(** The permits outstanding for a key, among the keys of all outstanding permits. *)
Definition count (key : list Z) (permits : list (list Z)) : Z :=
  len (List.filter (bytes_eqb key) permits).

(** Taking one permit of a key away. *)
Fixpoint remove_one (key : list Z) (permits : list (list Z)) : list (list Z) :=
  match permits with
  | [] => []
  | k :: ks => if bytes_eqb key k then ks else k :: remove_one key ks
  end.

Lemma count_cons key k permits :
  count key (k :: permits) = (if bytes_eqb key k then 1 else 0) + count key permits.
Proof. unfold count, len. cbn. destruct (bytes_eqb key k); cbn [length]; lia. Qed.

Lemma count_nonneg key permits : 0 <= count key permits.
Proof. apply len_nonneg. Qed.

Lemma count_positive key permits : key ∈ permits <-> 0 < count key permits.
Proof.
  induction permits as [|k permits IH].
  - split; [intros H; by apply elem_of_nil in H|]. unfold count, len. cbn. lia.
  - rewrite elem_of_cons, count_cons, IH. pose proof (count_nonneg key permits).
    destruct (bytes_eqb key k) eqn:E.
    + apply bytes_eqb_eq in E. subst. split; [lia|by left].
    + apply bytes_eqb_neq in E. split; [|intros; right; lia]. intros [?|?]; [done|lia].
Qed.

Lemma count_remove_one key permits k :
  key ∈ permits ->
  count k (remove_one key permits) = count k permits - (if bytes_eqb k key then 1 else 0) /\
  len (remove_one key permits) = len permits - 1.
Proof.
  assert (forall A (x : A) l, len (x :: l) = 1 + len l) as Hlen by (intros; unfold len; cbn [length]; lia).
  induction permits as [|k' permits IH]; intros Hin; [by apply elem_of_nil in Hin|].
  cbn [remove_one]. destruct (bytes_eqb key k') eqn:E.
  - apply bytes_eqb_eq in E. subst. rewrite count_cons, Hlen. lia.
  - apply bytes_eqb_neq in E. apply elem_of_cons in Hin as [?|Hin]; [done|].
    destruct (IH Hin) as [IH1 IH2]. rewrite !count_cons, !Hlen, IH1, IH2. lia.
Qed.

Lemma remove_one_subset key permits k : k ∈ remove_one key permits -> k ∈ permits.
Proof.
  induction permits as [|k' permits IH]; cbn; [done|]. destruct (bytes_eqb key k'); intros H.
  - by right.
  - apply elem_of_cons in H as [->|H]; [by left|right; auto].
Qed.

(** ** The invariant *)

Record limiter_ok (st : RequestLimitState) (permits : list (list Z)) : Prop := MkLimiterOk {
  ok_options : options_ok (options st);
  ok_keys : NoDup (map fst (entries st));
  ok_table : len (entries st) <= maxKeys (options st);
  ok_key_bytes : keyBytes st = table_bytes (entries st);
  ok_retained : keyBytes st <= maxRetainedKeyBytes (options st);
  ok_entries : forall k e, (k, e) ∈ entries st ->
    tokens_ok (options st) e /\ entryActive e = count k permits /\
    entryActive e <= maxConcurrentPerKey (options st);
  ok_permits : forall k, k ∈ permits -> k ∈ map fst (entries st);
  ok_active : active st = len permits;
  ok_total : active st <= maxConcurrentTotal (options st)
}.

Lemma limiter_ok_prune now pr st permits :
  limiter_ok st permits -> limiter_ok (Prune rnd now pr st).2 permits.
Proof.
  intros [H1 H2 H3 H4 H5 H6 H7 H8 H9]. unfold Prune.
  destruct (PruneLoop rnd (options st) (closed st) pr now (entries st))
    as [[[kept removed] bytes] retry] eqn:E. cbn [snd].
  destruct (prune_loop_spec _ _ _ _ _ _ _ _ _ E) as (Hs & Hb & Hr & Hl & Hk & Hk').
  assert (0 <= bytes).
  { clear -E. revert kept removed bytes retry E.
    generalize (entries st). induction l as [|[k e] es IH]; intros kept removed bytes retry H; cbn in H.
    { by injection H as <- <- <- <-. }
    destruct (PruneLoop _ _ _ _ _ es) as [[[kept1 removed1] bytes1] retry1] eqn:E1.
    specialize (IH _ _ _ _ eq_refl). pose proof (len_nonneg k).
    case_if_in H; injection H as <- <- <- <-; lia. }
  constructor; cbn [options entries keyBytes active pressureRetry closed]; try done; try lia.
  - by eapply sublist_NoDup.
  - intros k e' Hin. destruct (Hk k e' Hin) as (e & Hin0 & -> & _).
    destruct (H6 k e Hin0) as (Ht & Ha & Hm). rewrite refill_active.
    split_and!; [by apply refill_tokens_ok|done..].
  - intros k Hin. pose proof (H7 k Hin) as Hk0. apply list_elem_of_fmap in Hk0 as ([k' e] & -> & Hin0).
    destruct (H6 _ _ Hin0) as (_ & Ha & _). apply list_elem_of_fmap.
    eexists. split; [|apply (Hk' _ _ Hin0)]; [done|].
    unfold Prunable. rewrite refill_active, Ha. cbn [fst] in Hin.
    apply count_positive in Hin. replace (count k' permits =? 0) with false by lia. done.
Qed.

(** The permits after an admission. *)
Definition admitted (a : RequestAdmission) (permits : list (list Z)) : list (list Z) :=
  match permit a with Some key => key :: permits | None => permits end.

(** A write to the entry of a key keeps the invariant when the entry itself does. *)
Lemma limiter_ok_set key e0 e act retry st permits permits' :
  limiter_ok st permits -> FindEntry key (entries st) = Some e0 ->
  tokens_ok (options st) e -> entryActive e = count key permits' ->
  entryActive e <= maxConcurrentPerKey (options st) ->
  (forall k, k <> key -> count k permits' = count k permits) ->
  (forall k, k ∈ permits' -> k = key \/ k ∈ permits) ->
  act = len permits' -> act <= maxConcurrentTotal (options st) ->
  limiter_ok (MkState (options st) (SetEntry key e (entries st)) (keyBytes st) act retry (closed st))
    permits'.
Proof.
  intros [H1 H2 H3 H4 H5 H6 H7 H8 H9] Hf Ht Ha Hm Hc Hp Hact Htot.
  constructor; cbn [options entries keyBytes active pressureRetry closed]; try done.
  - by rewrite set_entry_keys.
  - by rewrite set_entry_length.
  - by rewrite set_entry_bytes.
  - intros k x Hin. apply set_entry_in in Hin as [[-> ->]|[Hne Hin]]; [|..|done]; [by split_and!|].
    destruct (H6 k x Hin) as (? & ? & ?). rewrite (Hc k Hne). by split_and!.
  - intros k Hin. rewrite set_entry_keys. destruct (Hp k Hin) as [->|Hin0]; [|auto].
    apply find_entry_in in Hf. apply list_elem_of_fmap. by exists (key, e0).
Qed.

Lemma limiter_ok_admit now cost key e0 st permits a st' :
  limiter_ok st permits -> FindEntry key (entries st) = Some e0 -> 0 <= cost ->
  active st < maxConcurrentTotal (options st) ->
  AdmitEntry rnd now cost key e0 st = (a, st') -> limiter_ok st' (admitted a permits).
Proof.
  intros Hok Hf Hcost Htot H. pose proof Hok as [H1 H2 H3 H4 H5 H6 H7 H8 H9].
  destruct (H6 _ _ (find_entry_in _ _ _ Hf)) as (Ht & Ha & Hm).
  pose proof (refill_tokens_ok _ now _ H1 Ht) as Ht1. pose proof (refill_active (options st) now e0) as Ha1.
  unfold AdmitEntry in H. cbv zeta in H. cbn [tokens entryActive refill seen] in H.
  set (e1 := Refill rnd (options st) now e0) in *. rewrite Ha1 in H.
  destruct (maxConcurrentPerKey (options st) <=? entryActive e0) eqn:Em; [|destruct (Qle_bool _ _) eqn:Eq];
    cbn [negb] in H; injection H as <- <-; cbn [admitted Denied permit];
    eapply limiter_ok_set; eauto; cbn [entryActive tokens]; try lia.
  - assert (0 <= tokens e1 - ToLongDouble rnd cost)%Q as Hpos.
    { apply Qle_bool_iff in Eq. by apply -> Qle_minus_iff in Eq. }
    split; cbn [tokens]; [by apply rnd_nonneg|].
    destruct Ht1 as [_ Ht1]. apply rnd_mono. unfold ToLongDouble in Ht1.
    rewrite rnd_int in Ht1 by (unfold options_ok in H1; lia).
    pose proof (to_long_double_nonneg cost Hcost) as Hcd.
    eapply Qle_trans; [|exact Ht1]. rewrite <- (Qplus_0_r (tokens e1)) at 2.
    apply Qplus_le_compat; [apply Qle_refl|]. by apply (Qopp_le_compat 0).
  - rewrite count_cons, bytes_eqb_refl. lia.
  - intros k Hne. rewrite count_cons. apply bytes_eqb_neq in Hne as ->. lia.
  - intros k [->|Hin]%elem_of_cons; auto.
  - unfold len in *. cbn [length]. lia.
Qed.

Lemma limiter_ok_acquire alloc now key cost st permits r st' :
  limiter_ok st permits -> 0 <= cost -> TryAcquire rnd alloc now key cost st = (r, st') ->
  limiter_ok st' (match r with FromValue a => admitted a permits | FromStatus _ => permits end).
Proof.
  intros Hok Hcost H. unfold TryAcquire in H. cbv zeta in H.
  repeat (case_if_in H; [by injection H as <- <-|]).
  destruct (FindEntry key (entries st)) as [e|] eqn:Ef.
  { destruct (AdmitEntry rnd now cost key e st) as [a st1] eqn:Ea. injection H as <- <-.
    eapply limiter_ok_admit; eauto. lia. }
  set (st1 := if _ && _ then _ else st) in H.
  assert (limiter_ok st1 permits /\ options st1 = options st /\ active st1 = active st /\
    key ∉ map fst (entries st1)) as (Hok1 & Ho & Hact & Hn).
  { apply find_entry_none in Ef. unfold st1. case_if; [|done]. split_and!.
    - by apply limiter_ok_prune.
    - unfold Prune. by destruct (PruneLoop _ _ _ _ _ _) as [[[? ?] ?] ?].
    - unfold Prune. by destruct (PruneLoop _ _ _ _ _ _) as [[[? ?] ?] ?].
    - unfold Prune. destruct (PruneLoop _ _ _ _ _ _) as [[[kept ?] ?] ?] eqn:Ep. cbn.
      apply prune_loop_spec in Ep as (Hs & _). intros Hin. apply Ef. by eapply elem_of_sublist. }
  destruct (KeyTableFull key st1) eqn:Efull; [by injection H as <- <-|].
  destruct alloc; cbn [negb] in H; [|by injection H as <- <-].
  set (st2 := MkState _ _ _ _ _ _) in H.
  destruct (AdmitEntry _ _ _ _ _ _) as [a st3] eqn:Ea in H. injection H as <- <-.
  pose proof Hok1 as [H1 H2 H3 H4 H5 H6 H7 H8 H9].
  unfold KeyTableFull in Efull.
  eapply limiter_ok_admit; [| |done| |exact Ea].
  - pose proof (emplace_permutation key (MkEntry (ToLongDouble rnd (burstTokens (options st))) 0 now now)
      (entries st1)) as Hperm.
    unfold st2. rewrite <- Ho in *.
    constructor; cbn [options entries keyBytes active pressureRetry closed]; try done.
    + rewrite Hperm. cbn. by apply NoDup_cons.
    + apply Permutation_length in Hperm. unfold len in *. rewrite Hperm. cbn. lia.
    + rewrite emplace_bytes. lia.
    + lia.
    + intros k e Hin. rewrite Hperm in Hin. apply elem_of_cons in Hin as [[= -> ->]|Hin]; [|auto].
      cbn [tokens entryActive]. assert (count key permits = 0) as Hc0.
      { pose proof (count_nonneg key permits). destruct (Z.eq_dec (count key permits) 0); [done|].
        exfalso. apply Hn, H7, count_positive. lia. }
      split_and!; [|done|unfold options_ok in H1; lia].
      split; cbn; [apply to_long_double_nonneg; unfold options_ok in H1; lia|apply Qle_refl].
    + intros k Hin. rewrite Hperm. cbn. right. auto.
  - unfold st2. cbn [entries]. rewrite find_emplace by done. by rewrite bytes_eqb_refl.
  - unfold st2. cbn [active options]. rewrite Hact. lia.
Qed.

Lemma limiter_ok_reset now key st permits :
  limiter_ok st permits -> key ∈ permits ->
  exists st', ResetPermit rnd now key st = Some st' /\ limiter_ok st' (remove_one key permits).
Proof.
  intros Hok Hin. pose proof Hok as [H1 H2 H3 H4 H5 H6 H7 H8 H9].
  unfold ResetPermit. pose proof (H7 key Hin) as Hkey.
  destruct (FindEntry key (entries st)) as [e|] eqn:Ef; [|by apply find_entry_none in Ef].
  destruct (H6 _ _ (find_entry_in _ _ _ Ef)) as (Ht & Ha & Hm).
  destruct (count_remove_one key permits key Hin) as [Hc Hl]. rewrite bytes_eqb_refl in Hc.
  eexists. split; [done|].
  set (st1 := MkState _ _ _ _ _ _).
  assert (limiter_ok st1 (remove_one key permits)) as Hok1.
  { unfold st1. eapply limiter_ok_set; eauto; cbn [entryActive tokens]; try done; try lia.
    - intros k Hne. destruct (count_remove_one key permits k Hin) as [-> _].
      apply bytes_eqb_neq in Hne as ->. lia.
    - intros k Hk%remove_one_subset. by right. }
  case_if; [|done]. by apply limiter_ok_prune.
Qed.

(** What a server does with a limiter; the permits are the keys of those still held. *)
Inductive limiter_step (st : RequestLimitState) (permits : list (list Z))
    : RequestLimitState -> list (list Z) -> Prop :=
| Limiter_Acquire alloc now key cost r st' :
    0 <= cost -> TryAcquire rnd alloc now key cost st = (r, st') ->
    limiter_step st permits st'
      (match r with FromValue a => admitted a permits | FromStatus _ => permits end)
| Limiter_Reset now key st' :
    key ∈ permits -> ResetPermit rnd now key st = Some st' ->
    limiter_step st permits st' (remove_one key permits)
| Limiter_Prune now : limiter_step st permits (PruneExpired rnd now st).2 permits
| Limiter_Close now : limiter_step st permits (Close rnd now st) permits.

Inductive limiter_reach (o : RequestLimiterOptions) : RequestLimitState -> list (list Z) -> Prop :=
| Limiter_Start st : Create true o = FromValue st -> limiter_reach o st []
| Limiter_Next st permits st' permits' :
    limiter_reach o st permits -> limiter_step st permits st' permits' ->
    limiter_reach o st' permits'.

Lemma limiter_ok_step st permits st' permits' :
  limiter_ok st permits -> limiter_step st permits st' permits' -> limiter_ok st' permits'.
Proof.
  intros Hok Hstep. destruct Hstep as [alloc now key cost r st' Hc H|now key st' Hin H|now|now].
  - by eapply limiter_ok_acquire.
  - destruct (limiter_ok_reset now key st permits Hok Hin) as (st1 & Hs & Hok1). congruence.
  - by apply limiter_ok_prune.
  - unfold Close. apply limiter_ok_prune. by destruct Hok.
Qed.

(** The ranges the types of the options give. *)
Definition options_typed (o : RequestLimiterOptions) : Prop :=
  0 <= maxKeys o /\ 0 <= maxKeyBytes o /\ 0 <= maxRetainedKeyBytes o /\ 0 <= refillTokens o /\
  0 <= burstTokens o /\ 0 <= maxConcurrentPerKey o /\ 0 <= maxConcurrentTotal o.

Lemma create_ok alloc o st :
  options_typed o -> Create alloc o = FromValue st -> limiter_ok st [] /\ options st = o.
Proof.
  unfold options_typed, Create, OptionsValid. intros Ht H. case_if_in H; [done|]. case_if_in H; [done|].
  injection H as <-. split; [|done]. constructor; cbn [options entries keyBytes active map table_bytes foldr];
    unfold options_ok; change (len []) with 0; try lia; try done.
  - constructor.
  - intros k e Hin. by apply elem_of_nil in Hin.
Qed.

Lemma limiter_options_step st permits st' permits' :
  limiter_step st permits st' permits' -> options st' = options st.
Proof.
  assert (forall now pr st, options (Prune rnd now pr st).2 = options st) as Hp.
  { intros now pr st0. unfold Prune. by destruct (PruneLoop _ _ _ _ _ _) as [[[? ?] ?] ?]. }
  assert (forall now cost key e st a st', AdmitEntry rnd now cost key e st = (a, st') ->
    options st' = options st) as Ha.
  { intros now cost key e st0 a st1 H. unfold AdmitEntry in H. cbv zeta in H.
    repeat case_if_in H; by injection H as <- <-. }
  intros Hstep. destruct Hstep as [alloc now key cost r st' Hc H|now key st' Hin H|now|now].
  - unfold TryAcquire in H. cbv zeta in H. repeat (case_if_in H; [by injection H as <- <-|]).
    destruct (FindEntry key (entries st)).
    + destruct (AdmitEntry _ _ _ _ _ _) as [a st1] eqn:Ea. injection H as <- <-. eauto.
    + set (st1 := if _ && _ then _ else st) in H.
      assert (options st1 = options st) as Ho by (unfold st1; case_if; [apply Hp|done]).
      case_if_in H; [by injection H as <- <-|]. case_if_in H; [by injection H as <- <-|].
      destruct (AdmitEntry _ _ _ _ _ _) as [a st2] eqn:Ea in H. injection H as <- <-.
      apply Ha in Ea. exact Ea.
  - unfold ResetPermit in H. destruct (FindEntry _ _); [|done]. injection H as <-.
    case_if; [by rewrite Hp|done].
  - apply Hp.
  - unfold Close. by rewrite Hp.
Qed.

Lemma limiter_reach_ok o st permits :
  options_typed o -> limiter_reach o st permits -> limiter_ok st permits /\ options st = o.
Proof.
  intros Ho Hr. induction Hr as [st Hc|st permits st' permits' Hr [IH IH'] Hstep].
  - by eapply create_ok.
  - split; [by eapply limiter_ok_step|]. rewrite <- IH'. by eapply limiter_options_step.
Qed.

(** The limiter keeps its books: whatever sequence of acquisitions, returns, prunings and closing
    it goes through, the keys it retains are distinct, at most [maxKeys] and at most
    [maxRetainedKeyBytes] in bytes, which [Snapshot] reports exactly; each bucket holds between 0 and
    [burstTokens]; every entry's concurrency is the number of its permits that are still held,
    at most [maxConcurrentPerKey], and their total at most [maxConcurrentTotal]; and returning a held
    permit always finds its entry, so that the permit's pointer never dangles. *)
Theorem limiter_accounting o st permits :
  options_typed o -> limiter_reach o st permits ->
  NoDup (map fst (entries st)) /\
  Snapshot st = MkSnapshot (len (entries st)) (table_bytes (entries st)) (len permits) /\
  keys (Snapshot st) <= maxKeys o /\ retainedKeyBytes (Snapshot st) <= maxRetainedKeyBytes o /\
  snapshotActive (Snapshot st) <= maxConcurrentTotal o /\
  (forall k e, (k, e) ∈ entries st ->
    (0 <= tokens e)%Q /\ (tokens e <= inject_Z (burstTokens o))%Q /\
    entryActive e = count k permits /\ entryActive e <= maxConcurrentPerKey o) /\
  (forall now k, k ∈ permits -> ResetPermit rnd now k st <> None).
Proof.
  intros Ho Hr. destruct (limiter_reach_ok o st permits Ho Hr) as [Hok <-].
  pose proof Hok as [H1 H2 H3 H4 H5 H6 H7 H8 H9]. unfold Snapshot. cbn.
  split_and!; [done|by rewrite H4, H8|done|done|done| |].
  - intros k e Hin. destruct (H6 k e Hin) as ([Ht0 Ht1] & ? & ?). unfold ToLongDouble in Ht1.
    rewrite rnd_int in Ht1 by (unfold options_ok in H1; lia). by split_and!.
  - intros now k Hin. destruct (limiter_ok_reset now k st permits Hok Hin) as (st' & -> & _). done.
Qed.

End Limiter.

Definition sample_limits : RequestLimiterOptions := MkOptions 2 8 16 10 20 1000 1 4 1000.

Lemma limiter_accounting_witness : exists st,
  limiter_reach (fun x => x) sample_limits st [txt "k"] /\
  Snapshot st = MkSnapshot 1 1 1 /\
  ResetPermit (fun x => x) 7 (txt "k") st <> None.
Proof.
  set (o := sample_limits). set (k := txt "k").
  set (st0 := MkState o [] 0 0 0 false).
  set (st := (TryAcquire (fun x => x) true 5 k 3 st0).2). exists st.
  assert (limiter_reach (fun x => x) o st [k]) as Hr.
  { apply (Limiter_Next _ _ st0 []).
    - apply Limiter_Start. reflexivity.
    - apply (Limiter_Acquire _ st0 [] true 5 k 3
        (FromValue (MkAdmission (Some k) Reason_None 0)) st); [lia|vm_compute; reflexivity]. }
  split; [exact Hr|].
  destruct (limiter_accounting (fun x => x) (fun x y H => H) (fun z _ => Qeq_refl _) o st [k])
    as (_ & _ & _ & _ & _ & _ & Hreset).
  - unfold options_typed. repeat split; vm_compute; discriminate.
  - exact Hr.
  - split; [vm_compute; reflexivity|]. apply (Hreset 7 k). by left.
Defined.

(** ** The rate *)

Section Rate.

Context (rnd : Q -> Q).

(** The arithmetic without rounding errors. *)
Hypothesis rnd_exact : forall x, (rnd x == x)%Q.

Context (o : RequestLimiterOptions).
Hypothesis o_typed : options_typed o.
Hypothesis o_valid : OptionsValid o = true.

(** The tokens that flow into a bucket from time 0 to time [t]. *)
Definition inflow (t : Z) : Q :=
  inject_Z t * (inject_Z (refillTokens o) / (inject_Z NsPerMs * inject_Z (refillInterval o))).

Definition burst : Q := inject_Z (burstTokens o).

Lemma inflow_mono s t : s <= t -> (inflow s <= inflow t)%Q.
Proof.
  intros H. unfold inflow. apply Qmult_le_compat_r; [by rewrite <- Zle_Qle|].
  unfold OptionsValid, options_typed in *. apply qdiv_nonneg.
  - change 0%Q with (inject_Z 0). rewrite <- Zle_Qle. lia.
  - apply Qmult_le_0_compat; change 0%Q with (inject_Z 0); rewrite <- Zle_Qle; unfold NsPerMs; lia.
Qed.

Lemma refill_exact now e :
  let e' := Refill rnd o now e in
  (now <= refill e /\ e' = e) \/
  (refill e < now /\ refill e' = now /\
   ((tokens e' == burst)%Q /\ (burst <= tokens e + inflow now - inflow (refill e))%Q \/
    (tokens e' == tokens e + inflow now - inflow (refill e))%Q /\ (tokens e' <= burst)%Q)).
Proof.
  intros e'. unfold e', Refill. destruct (now <=? refill e) eqn:E; [left; split; [lia|done]|right].
  cbn [refill tokens]. split; [lia|]. split; [done|].
  set (added := rnd (tokens e + _)).
  assert (added == tokens e + inflow now - inflow (refill e))%Q as Hadd.
  { unfold added, ToLongDouble, inflow. rewrite !rnd_exact.
    assert (~ inject_Z NsPerMs == 0)%Q as Hn by done.
    assert (~ inject_Z (refillInterval o) == 0)%Q as Hi.
    { unfold OptionsValid in o_valid. change 0%Q with (inject_Z 0).
      intros Hz. apply (proj1 (inject_Z_injective _ _)) in Hz. lia. }
    unfold Zminus. rewrite inject_Z_plus, inject_Z_opp. field. by split. }
  assert (ToLongDouble rnd (burstTokens o) == burst)%Q as Hb by apply rnd_exact.
  destruct (Q.min_spec (ToLongDouble rnd (burstTokens o)) added) as [[Hlt Hm]|[Hle Hm]].
  - left. split; lra.
  - right. split; lra.
Qed.

(** The tokens of an entry, refilled up to [now], are at most [x]. *)
Definition bucket_below (now : Z) (x : Q) (e : option RequestLimitEntry) : Prop :=
  match e with
  | None => (burst <= x)%Q
  | Some e => (burst <= x)%Q \/ (tokens e + inflow now - inflow (refill e) <= x)%Q
  end.

Definition entry_timed (now : Z) (e : RequestLimitEntry) : Prop :=
  refill e <= now /\ (0 <= tokens e)%Q /\ (tokens e <= burst)%Q.

Lemma burst_nonneg : (0 <= burst)%Q.
Proof.
  unfold burst. change 0%Q with (inject_Z 0). rewrite <- Zle_Qle. unfold options_typed in *. lia.
Qed.

Lemma refill_timed now e : entry_timed now e -> entry_timed now (Refill rnd o now e).
Proof.
  intros (H1 & H0 & H2). pose proof burst_nonneg. pose proof (inflow_mono (refill e) now H1).
  destruct (refill_exact now e) as [[_ ->]|(Hlt & Hr & [[Ht _]|[Ht Ht']])]; [by split_and!|..];
    unfold entry_timed; rewrite Hr; split_and!; (lia || lra).
Qed.

(** Refilling does not change what a bucket may still give, and leaves it at most [x]. *)
Lemma refill_below now x e :
  entry_timed now e -> bucket_below now x (Some e) ->
  (tokens (Refill rnd o now e) <= x)%Q /\ bucket_below now x (Some (Refill rnd o now e)).
Proof.
  intros (H1 & H0 & H2) Hb. unfold bucket_below in *.
  destruct (refill_exact now e) as [[Hle ->]|(Hlt & Hr & Ht)].
  - assert (now = refill e) as -> by lia. destruct Hb; split; [lra|by left|lra|right; lra].
  - rewrite Hr. assert (tokens (Refill rnd o now e) <= x)%Q by (destruct Ht as [[? ?]|[? ?]], Hb; lra).
    split; [done|]. right. lra.
Qed.

(** A bucket just refilled and found full holds nothing a new one would not. *)
Lemma full_below now x e :
  entry_timed now e -> bucket_below now x (Some e) ->
  Qle_bool (ToLongDouble rnd (burstTokens o)) (tokens (Refill rnd o now e)) = true -> (burst <= x)%Q.
Proof.
  intros Ht Hb Hf. apply Qle_bool_iff in Hf. unfold ToLongDouble in Hf. rewrite rnd_exact in Hf.
  destruct (refill_below now x e Ht Hb) as [H _]. unfold burst in *. lra.
Qed.

Record table_timed (now : Z) (st : RequestLimitState) : Prop := MkTableTimed {
  timed_options : options st = o;
  timed_keys : NoDup (map fst (entries st));
  timed_entries : forall k e, (k, e) ∈ entries st -> entry_timed now e
}.

Lemma table_timed_later now now' st : now <= now' -> table_timed now st -> table_timed now' st.
Proof.
  intros Hn [H1 H2 H3]. constructor; [done..|]. intros k e Hin. destruct (H3 k e Hin) as (? & ? & ?).
  split_and!; [lia|done..].
Qed.

Lemma table_timed_prune now pr st : table_timed now st -> table_timed now (Prune rnd now pr st).2.
Proof.
  intros [H1 H2 H3]. unfold Prune.
  destruct (PruneLoop rnd (options st) (closed st) pr now (entries st))
    as [[[kept removed] bytes] retry] eqn:E. cbn [snd].
  destruct (prune_loop_spec _ _ _ _ _ _ _ _ _ _ E) as (Hs & _ & _ & _ & Hk & _).
  constructor; cbn [options entries]; [done|by eapply sublist_NoDup|].
  intros k e' Hin. destruct (Hk k e' Hin) as (e & Hin0 & -> & _). rewrite H1. apply refill_timed. eauto.
Qed.

(** Pruning an open limiter never gives a key more than it had. *)
Lemma prune_below now pr st k x :
  table_timed now st -> closed st = false ->
  bucket_below now x (FindEntry k (entries st)) ->
  bucket_below now x (FindEntry k (entries (Prune rnd now pr st).2)).
Proof.
  intros [H1 H2 H3] Hc Hb. unfold Prune.
  destruct (PruneLoop rnd (options st) (closed st) pr now (entries st))
    as [[[kept removed] bytes] retry] eqn:E. cbn [snd entries].
  destruct (prune_loop_spec _ _ _ _ _ _ _ _ _ _ E) as (Hs & _ & _ & _ & Hk & Hk').
  assert (NoDup (map fst kept)) as Hd by (by eapply sublist_NoDup).
  destruct (FindEntry k kept) as [e'|] eqn:Ef.
  - apply find_entry_in in Ef. destruct (Hk k e' Ef) as (e & Hin & -> & _).
    rewrite (find_entry_unique k (entries st) e H2 Hin) in Hb. rewrite H1.
    apply refill_below; eauto.
  - destruct (FindEntry k (entries st)) as [e|] eqn:Ee; [|done].
    apply find_entry_in in Ee. cbn.
    destruct (Prunable rnd (options st) (closed st) pr now (Refill rnd (options st) now e)) eqn:Ep.
    + unfold Prunable in Ep. rewrite Hc, H1 in Ep. cbn [orb] in Ep.
      apply andb_prop in Ep as [_ Ep]. apply andb_prop in Ep as [Ep _].
      eapply full_below; eauto.
    + exfalso. apply find_entry_none in Ef. apply Ef.
      apply list_elem_of_fmap. exists (k, Refill rnd (options st) now e). split; [done|]. by apply Hk'.
Qed.

Lemma refill_now now e : entry_timed now e -> refill (Refill rnd o now e) = now.
Proof.
  intros [H _]. destruct (refill_exact now e) as [[Hle ->]|(_ & Hr & _)]; [lia|done].
Qed.

(** The cost an admission charges. *)
Definition charged (a : RequestAdmission) (cost : Z) : Z := if Allowed a then cost else 0.

Lemma admit_below now cost key e0 st a st' :
  table_timed now st -> 0 <= cost -> FindEntry key (entries st) = Some e0 ->
  AdmitEntry rnd now cost key e0 st = (a, st') ->
  table_timed now st' /\ closed st' = closed st /\
  (forall k, k <> key -> FindEntry k (entries st') = FindEntry k (entries st)) /\
  (forall x, bucket_below now x (Some e0) ->
    bucket_below now (x - inject_Z (charged a cost)) (FindEntry key (entries st'))).
Proof.
  intros [H1 H2 H3] Hcost Hf H. pose proof (H3 _ _ (find_entry_in _ _ _ Hf)) as Ht.
  pose proof (refill_timed now e0 Ht) as (Ht1 & Ht0 & Ht2). pose proof (refill_now now e0 Ht) as Hnow.
  assert (key ∈ map fst (entries st)) as Hkey.
  { apply list_elem_of_fmap. exists (key, e0). split; [done|]. by apply find_entry_in. }
  assert (0 <= inject_Z cost)%Q as Hc0 by (change 0%Q with (inject_Z 0); by rewrite <- Zle_Qle).
  unfold AdmitEntry in H. cbv zeta in H. rewrite H1 in H. cbn [tokens entryActive refill seen] in H.
  set (e1 := Refill rnd o now e0) in *.
  assert (forall e c, entry_timed now e ->
    (forall x, bucket_below now x (Some e0) -> bucket_below now (x - inject_Z c) (Some e)) ->
    forall act st', st' = MkState o (SetEntry key e (entries st)) (keyBytes st) act (pressureRetry st)
      (closed st) ->
    table_timed now st' /\ closed st' = closed st /\
    (forall k, k <> key -> FindEntry k (entries st') = FindEntry k (entries st)) /\
    (forall x, bucket_below now x (Some e0) ->
      bucket_below now (x - inject_Z c) (FindEntry key (entries st')))) as Hset.
  { intros e c He Hx act st1 ->. cbn [entries closed]. split_and!.
    - constructor; cbn [options entries]; [done|by rewrite set_entry_keys|].
      intros k y Hin. apply set_entry_in in Hin as [[-> ->]|[_ Hin]]; eauto.
    - done.
    - intros k Hk. rewrite find_set_entry by done. by replace (bytes_eqb key k) with false
        by (symmetry; apply bytes_eqb_neq; congruence).
    - intros x Hb. rewrite find_set_entry, bytes_eqb_refl by done. auto. }
  assert (forall x, bucket_below now x (Some e0) ->
    bucket_below now (x - inject_Z 0) (Some (MkEntry (tokens e1) (entryActive e1) (refill e1) now))) as Hsame.
  { intros x Hb. destruct (refill_below now x e0 Ht Hb) as [_ Hb']. fold e1 in Hb'.
    change (inject_Z 0) with 0%Q. cbn in *. destruct Hb'; [left|right]; lra. }
  destruct (maxConcurrentPerKey o <=? entryActive e1); [|destruct (Qle_bool _ _) eqn:Eq]; cbn [negb] in H;
    injection H as <- <-; cbn [charged Allowed Denied permit].
  - eapply (Hset _ 0); [| |reflexivity]; [by split_and!|exact Hsame].
  - apply Qle_bool_iff in Eq. unfold ToLongDouble in Eq. rewrite rnd_exact in Eq.
    eapply (Hset _ cost); [| |done].
    + unfold entry_timed. cbn [tokens refill]. rewrite !rnd_exact. unfold ToLongDouble.
      rewrite !rnd_exact. split_and!; [done|lra..].
    + intros x Hb. destruct (refill_below now x e0 Ht Hb) as [Hx _]. fold e1 in Hx.
      right. cbn [tokens refill]. rewrite rnd_exact. unfold ToLongDouble. rewrite rnd_exact, Hnow. lra.
  - eapply (Hset _ 0); [| |reflexivity]; [by split_and!|exact Hsame].
Qed.

(** The cost charged to the key [k] by one call. *)
Definition spends (k key : list Z) (cost : Z) (r : Result RequestAdmission) : Z :=
  match r with
  | FromValue a => if bytes_eqb k key then charged a cost else 0
  | FromStatus _ => 0
  end.

Lemma bucket_below_le now x y e : (x <= y)%Q -> bucket_below now x e -> bucket_below now y e.
Proof. intros H. destruct e; cbn; [intros [?|?]; [left|right]; lra|lra]. Qed.

Lemma acquire_below alloc now key cost st r st' k x :
  table_timed now st -> 0 <= cost -> TryAcquire rnd alloc now key cost st = (r, st') ->
  (closed st = false -> bucket_below now x (FindEntry k (entries st))) ->
  table_timed now st' /\ closed st' = closed st /\ (closed st = true -> spends k key cost r = 0) /\
  (closed st = false ->
    bucket_below now (x - inject_Z (spends k key cost r)) (FindEntry k (entries st'))).
Proof.
  intros Ht Hcost H Hb. unfold TryAcquire in H. cbv zeta in H.
  assert (forall st, (closed st = false -> bucket_below now x (FindEntry k (entries st))) ->
    closed st = false -> bucket_below now (x - inject_Z 0) (FindEntry k (entries st))) as Hzero.
  { intros st0 Hb0 Hc. eapply bucket_below_le, Hb0, Hc. change (inject_Z 0) with 0%Q. lra. }
  assert (forall s, r = FromStatus s -> spends k key cost r = 0) as Hstat by (by intros s ->).
  case_if_in H; [injection H as <- <-; split_and!; (done || eauto)|].
  case_if_in H; [injection H as <- <-; split_and!; (done || eauto)|].
  destruct (closed st) eqn:Ec; [by injection H as <- <-; split_and!; (done || eauto)|].
  case_if_in H.
  { injection H as <- <-. split_and!; [done..|]. intros Hc. unfold spends, charged. cbn.
    destruct (bytes_eqb k key); auto. }
  specialize (Hb eq_refl).
  assert (forall e0 st0 a st', table_timed now st0 -> closed st0 = false ->
    bucket_below now x (FindEntry k (entries st0)) ->
    FindEntry key (entries st0) = Some e0 -> AdmitEntry rnd now cost key e0 st0 = (a, st') ->
    table_timed now st' /\ closed st' = false /\
    bucket_below now (x - inject_Z (spends k key cost (FromValue a))) (FindEntry k (entries st'))) as Hadm.
  { intros e0 st0 a st1 Ht0 Hc0 Hb0 Hf0 Ha. pose proof (admit_below _ _ _ _ _ _ _ Ht0 Hcost Hf0 Ha)
      as (Ht1 & Hc1 & Hk1 & Hx1). split_and!; [done|congruence|]. unfold spends.
    destruct (bytes_eqb k key) eqn:Ek.
    - apply bytes_eqb_eq in Ek as ->. apply Hx1. by rewrite <- Hf0.
    - rewrite Hk1 by (by apply bytes_eqb_neq). eapply bucket_below_le, Hb0.
      change (inject_Z 0) with 0%Q. lra. }
  destruct (FindEntry key (entries st)) as [e|] eqn:Ef.
  { destruct (AdmitEntry rnd now cost key e st) as [a st1] eqn:Ea. injection H as <- <-.
    destruct (Hadm e st a st1) as (? & ? & ?); [done..|]. split_and!; (done || auto). }
  set (st1 := if _ && _ then _ else st) in H.
  assert (table_timed now st1 /\ closed st1 = false /\ bucket_below now x (FindEntry k (entries st1)) /\
    key ∉ map fst (entries st1)) as (Ht1 & Hc1 & Hb1 & Hn1).
  { apply find_entry_none in Ef. unfold st1. case_if; [|done]. split_and!.
    - by apply table_timed_prune.
    - unfold Prune. by destruct (PruneLoop _ _ _ _ _ _) as [[[? ?] ?] ?].
    - by apply prune_below.
    - unfold Prune. destruct (PruneLoop _ _ _ _ _ _) as [[[kept ?] ?] ?] eqn:Ep. cbn.
      apply prune_loop_spec in Ep as (Hs & _). intros Hin. apply Ef. by eapply elem_of_sublist. }
  case_if_in H.
  { injection H as <- <-. split_and!; (done || auto). intros _. unfold spends, charged. cbn.
    destruct (bytes_eqb k key); auto. }
  destruct alloc; cbn [negb] in H; [|injection H as <- <-; split_and!; (done || auto)].
  destruct (AdmitEntry _ _ _ _ _ _) as [a st3] eqn:Ea in H. injection H as <- <-.
  pose proof (emplace_permutation key (MkEntry (ToLongDouble rnd (burstTokens (options st))) 0 now now)
    (entries st1)) as Hperm. destruct Ht as [Ho Hkeys Hents]. destruct Ht1 as [Ho1 Hkeys1 Hents1].
  apply Hadm in Ea as (? & ? & ?); [split_and!; (done || auto)|..].
  - constructor; cbn [options entries]; [done|rewrite Hperm; cbn; by apply NoDup_cons|].
    intros k' e Hin. rewrite Hperm in Hin. apply elem_of_cons in Hin as [[= -> ->]|Hin]; [|eauto].
    unfold entry_timed. cbn [refill tokens]. unfold ToLongDouble. rewrite !rnd_exact, Ho.
    pose proof burst_nonneg. unfold burst in *. split_and!; [lia|lra..].
  - done.
  - cbn [entries]. rewrite find_emplace by done. destruct (bytes_eqb key k) eqn:Ek; [|done].
    apply bytes_eqb_eq in Ek as ->. apply find_entry_none in Hn1. rewrite Hn1 in Hb1. by left.
  - cbn [entries]. rewrite find_emplace by done. by rewrite bytes_eqb_refl.
Qed.

(** A run in which the clock never goes back, with the cost charged to a key since time [t0]: the
    window over which it is counted may be opened at any moment of the run. *)
Inductive timed_run (k : list Z) : Z -> Z -> RequestLimitState -> Z -> Prop :=
| Run_Start t0 st : Create true o = FromValue st -> timed_run k t0 t0 st 0
| Run_Window t0 now st spent : timed_run k t0 now st spent -> timed_run k now now st 0
| Run_Wait t0 now now' st spent :
    now <= now' -> timed_run k t0 now st spent -> timed_run k t0 now' st spent
| Run_Acquire t0 now st spent alloc key cost r st' :
    timed_run k t0 now st spent -> 0 <= cost -> TryAcquire rnd alloc now key cost st = (r, st') ->
    timed_run k t0 now st' (spent + spends k key cost r)
| Run_Reset t0 now st spent key st' :
    timed_run k t0 now st spent -> ResetPermit rnd now key st = Some st' -> timed_run k t0 now st' spent
| Run_Prune t0 now st spent :
    timed_run k t0 now st spent -> timed_run k t0 now (PruneExpired rnd now st).2 spent
| Run_Close t0 now st spent :
    timed_run k t0 now st spent -> timed_run k t0 now (Close rnd now st) spent.

(** What a run guarantees: the key's bucket and what it has spent fit under the inflow. *)
Definition run_ok (k : list Z) (t0 now : Z) (st : RequestLimitState) (spent : Z) : Prop :=
  let x := (burst + inflow now - inflow t0 - inject_Z spent)%Q in
  table_timed now st /\ (0 <= x)%Q /\
  (closed st = false -> bucket_below now x (FindEntry k (entries st))).

Lemma bucket_nonneg now x st k :
  table_timed now st -> bucket_below now x (FindEntry k (entries st)) -> (0 <= x)%Q.
Proof.
  intros [_ _ Ht] Hb. pose proof burst_nonneg as Hb0.
  destruct (FindEntry k (entries st)) as [e|] eqn:E; [|cbn in Hb; lra].
  apply find_entry_in in E. destruct (Ht _ _ E) as (Hr & H0 & _).
  pose proof (inflow_mono _ _ Hr). destruct Hb; lra.
Qed.

Lemma prune_closed now pr st : closed (Prune rnd now pr st).2 = closed st.
Proof. unfold Prune. by destruct (PruneLoop _ _ _ _ _ _) as [[[? ?] ?] ?]. Qed.

Lemma run_ok_acquire k t0 now st spent alloc key cost r st' :
  run_ok k t0 now st spent -> 0 <= cost -> TryAcquire rnd alloc now key cost st = (r, st') ->
  run_ok k t0 now st' (spent + spends k key cost r).
Proof.
  intros (Ht & Hx & Hb) Hc H.
  destruct (acquire_below _ _ _ _ _ _ _ _ _ Ht Hc H Hb) as (Ht' & Hc' & Hs & Hb'). unfold run_ok.
  rewrite inject_Z_plus, Hc'. destruct (closed st) eqn:Ec.
  - rewrite (Hs eq_refl). change (inject_Z 0) with 0%Q. split_and!; [done|lra|done].
  - specialize (Hb' eq_refl).
    assert (bucket_below now (burst + inflow now - inflow t0 - (inject_Z spent
      + inject_Z (spends k key cost r))) (FindEntry k (entries st'))) as Hb''.
    { eapply bucket_below_le, Hb'. lra. }
    split_and!; [done|by eapply bucket_nonneg|done].
Qed.

Lemma run_ok_reset k t0 now st spent key st' :
  run_ok k t0 now st spent -> ResetPermit rnd now key st = Some st' -> run_ok k t0 now st' spent.
Proof.
  intros (Ht & Hx & Hb) H. pose proof Ht as [H1 H2 H3]. unfold ResetPermit in H.
  destruct (FindEntry key (entries st)) as [e|] eqn:Ef; [|done]. injection H as <-.
  assert (key ∈ map fst (entries st)) as Hkey.
  { apply list_elem_of_fmap. exists (key, e). split; [done|]. by apply find_entry_in. }
  set (st1 := MkState _ _ _ _ _ _).
  assert (table_timed now st1) as Ht1.
  { unfold st1. constructor; cbn [options entries]; [done|by rewrite set_entry_keys|].
    intros k' x Hin. apply set_entry_in in Hin as [[-> ->]|[_ Hin]]; [|eauto|done].
    apply (H3 key e). by apply find_entry_in. }
  assert (forall x, bucket_below now x (FindEntry k (entries st)) ->
    bucket_below now x (FindEntry k (entries st1))) as Hb1.
  { intros x Hbx. unfold st1. cbn [entries]. rewrite find_set_entry by done.
    destruct (bytes_eqb key k) eqn:Ek; [|done]. apply bytes_eqb_eq in Ek as <-.
    rewrite Ef in Hbx. exact Hbx. }
  unfold run_ok. destruct (closed st) eqn:Ec.
  - split_and!; [by apply table_timed_prune|done|]. intros Hc. rewrite prune_closed in Hc.
    unfold st1 in Hc. cbn in Hc. congruence.
  - split_and!; [done..|]. intros _. auto.
Qed.

Lemma run_ok_timed k t0 now st spent : timed_run k t0 now st spent -> run_ok k t0 now st spent.
Proof.
  induction 1 as [t0 st Hc|t0 now st spent Hr IH|t0 now now' st spent Hle Hr IH
    |t0 now st spent alloc key cost r st' Hr IH Hcost H
    |t0 now st spent key st' Hr IH H|t0 now st spent Hr IH|t0 now st spent Hr IH].
  - pose proof burst_nonneg. unfold Create in Hc. case_if_in Hc; [done|]. injection Hc as <-.
    unfold run_ok. change (inject_Z 0) with 0%Q. cbn. split_and!; [|lra|intros _; lra].
    constructor; cbn; [done|constructor|]. intros k' e Hin. by apply elem_of_nil in Hin.
  - destruct IH as (Ht & _ & _). pose proof burst_nonneg. unfold run_ok.
    change (inject_Z 0) with 0%Q. split_and!; [done|lra|]. intros _.
    destruct (FindEntry k (entries st)); cbn; [left|]; lra.
  - destruct IH as (Ht & Hx & Hb). pose proof (inflow_mono now now' Hle).
    split_and!; [by eapply table_timed_later|lra|]. intros Hc. specialize (Hb Hc).
    destruct (FindEntry k (entries st)); cbn in *; [destruct Hb; [left|right]; lra|lra].
  - by eapply run_ok_acquire.
  - by eapply run_ok_reset.
  - destruct IH as (Ht & Hx & Hb). unfold run_ok, PruneExpired. rewrite prune_closed.
    split_and!; [by apply table_timed_prune|done|]. intros Hc. by apply prune_below; auto.
  - destruct IH as (Ht & Hx & Hb). unfold run_ok, Close. rewrite prune_closed. cbn [closed].
    split_and!; [|done|done]. apply table_timed_prune. by destruct Ht.
Qed.

(** C21. The rate limit holds over every window of time: with exact arithmetic and a clock that does
    not go back, the cost admitted for one key between [t0] and [now] is at most [burstTokens] plus
    [refillTokens] for each [refillInterval] elapsed, whatever went on before the window, whatever
    other keys do and however entries are pruned - an entry evicted under pressure or after idling
    comes back with no more than it had, and idling saves up no more than one burst. *)
Theorem rate_bound k t0 now st spent :
  timed_run k t0 now st spent ->
  (inject_Z spent <= burst + inflow now - inflow t0)%Q.
Proof. intros H. destruct (run_ok_timed _ _ _ _ _ H) as (_ & Hx & _). lra. Qed.

End Rate.

(** A limiter of one key: after "k" is charged 15 of 20, a window is opened in which "k" is denied 11
    and then charged 10. *)
Definition tight_limits : RequestLimiterOptions := MkOptions 1 8 16 10 20 1000 4 4 1000.

Lemma rate_bound_witness : exists st,
  timed_run (fun x => x) tight_limits (txt "k") 0 500000000 st 10 /\
  (inject_Z 10 <= burst tight_limits + inflow tight_limits 500000000 - inflow tight_limits 0)%Q.
Proof.
  set (st0 := MkState tight_limits [] 0 0 0 false).
  set (st1 := (TryAcquire (fun x => x) true 0 (txt "k") 15 st0).2).
  set (st2 := (TryAcquire (fun x => x) true 500000000 (txt "k") 11 st1).2).
  set (st3 := (TryAcquire (fun x => x) true 500000000 (txt "k") 10 st2).2). exists st3.
  assert (timed_run (fun x => x) tight_limits (txt "k") 0 500000000 st3 10) as Hr.
  { apply (Run_Acquire (fun x => x) tight_limits (txt "k") 0 500000000 st2 0 true (txt "k") 10
      (FromValue (MkAdmission (Some (txt "k")) Reason_None 0)) st3); [|lia|vm_compute; reflexivity].
    apply (Run_Acquire (fun x => x) tight_limits (txt "k") 0 500000000 st1 0 true (txt "k") 11
      (FromValue (MkAdmission None Reason_Rate 100)) st2); [|lia|vm_compute; reflexivity].
    apply (Run_Wait _ _ _ _ 0); [lia|]. apply (Run_Window _ _ _ 0 0 st1 15).
    apply (Run_Acquire (fun x => x) tight_limits (txt "k") 0 0 st0 0 true (txt "k") 15
      (FromValue (MkAdmission (Some (txt "k")) Reason_None 0)) st1); [|lia|vm_compute; reflexivity].
    apply Run_Start. reflexivity. }
  split; [exact Hr|].
  apply (rate_bound (fun x => x) (fun x => Qeq_refl x) tight_limits) with (k := txt "k") (st := st3).
  - unfold options_typed. repeat split; vm_compute; discriminate.
  - reflexivity.
  - exact Hr.
Defined.
