(* ===== verification/Charconv.v ===== *)
(** * Numbers as text: [std::from_chars] and [std::to_chars].

    What [Protocol/Json.cpp] uses of <charconv>: the conversions of 64-bit integers and of [double].
    A [double] is a [spec_float] at the binary64 precision; [from_chars] rounds the decimal to the
    nearest double, ties to even, and [to_chars] writes the shortest text that [from_chars] reads
    back as the same value, fixed notation when it is no longer than scientific notation.  A result
    is an error code, the text that is left and the value.  The texts [inf], [nan] and the
    hexadecimal forms that [from_chars] also reads are left out: the JSON parser only passes it
    tokens of the JSON number grammar. *)

From S2P Require Import Prelude.
From Stdlib Require Import SpecFloat QArith Qreduction.
#[local] Open Scope Z_scope.

Module Charconv.

(** ** Digits *)

Definition isdigit (c : Z) : bool := (char_code "0" <=? c) && (c <=? char_code "9").

(** The digits at the front of a text, and what follows them. *)
Fixpoint span_digits (text : list Z) : list Z * list Z :=
  match text with
  | [] => ([], [])
  | c :: text' =>
      if isdigit c then let (ds, rest) := span_digits text' in (c :: ds, rest)
      else ([], text)
  end.

(** The integer some digits denote. *)
Definition digits_value (ds : list Z) : Z :=
  fold_left (fun value c => value * 10 + (c - char_code "0")) ds 0.

(** The digits of a non-negative integer; each round divides by ten, so its number of bits is
    enough fuel. *)
Fixpoint DigitsLoop (fuel : nat) (n : Z) (ds : list Z) : list Z :=
  match fuel with
  | O => ds
  | S fuel' =>
      let ds' := (char_code "0" + n mod 10) :: ds in
      if n <? 10 then ds' else DigitsLoop fuel' (n / 10) ds'
  end.

Definition Digits (n : Z) : list Z := DigitsLoop (S (Z.to_nat (Z.log2 n))) n [].

(** ** Integers *)

Inductive errc : Type :=
| errc_ok
| errc_invalid_argument
| errc_result_out_of_range.

(** A minus sign, where the type is signed, and digits. *)
Definition from_chars_integer (minimum maximum : Z) (text : list Z) : errc * list Z * Z :=
  let '(negative, body) :=
    match text with
    | c :: text' => if (c =? char_code "-") && (minimum <? 0) then (true, text') else (false, text)
    | [] => (false, text)
    end in
  let '(ds, rest) := span_digits body in
  if len ds =? 0 then (errc_invalid_argument, text, 0)
  else
    let value := if negative then - digits_value ds else digits_value ds in
    if (value <? minimum) || (maximum <? value) then (errc_result_out_of_range, rest, 0)
    else (errc_ok, rest, value).

Definition from_chars_int64 : list Z -> errc * list Z * Z :=
  from_chars_integer (- 2 ^ 63) (2 ^ 63 - 1).
Definition from_chars_uint64 : list Z -> errc * list Z * Z := from_chars_integer 0 (2 ^ 64 - 1).

(** [None]: the text does not fit in the buffer. *)
Definition to_chars_integer (buffer : Z) (n : Z) : option (list Z) :=
  let text := if n <? 0 then char_code "-" :: Digits (- n) else Digits n in
  if len text <=? buffer then Some text else None.

(** ** Doubles *)

Definition double : Type := spec_float.

Definition isfinite (d : double) : bool :=
  match d with
  | S754_zero _ | S754_finite _ _ _ => true
  | S754_infinity _ | S754_nan => false
  end.

Definition double_eqb (x y : double) : bool :=
  match x, y with
  | S754_zero s, S754_zero t => eqb s t
  | S754_infinity s, S754_infinity t => eqb s t
  | S754_nan, S754_nan => true
  | S754_finite s m e, S754_finite t n f => eqb s t && Pos.eqb m n && (e =? f)
  | _, _ => false
  end.

(** The double nearest to a positive rational, with a sign. *)
Definition round64 (negative : bool) (q : Q) : double :=
  let r := Qred q in
  let '(m, e, l) := SFdiv_core_binary 53 1024 (Qnum r) 0 (Z.pos (Qden r)) 0 in
  binary_round_aux 53 1024 negative m e l.

(** [static_cast<double>] of an integer. *)
Definition double_of_integer (n : Z) : double :=
  if n =? 0 then S754_zero false else round64 (n <? 0) (inject_Z (Z.abs n)).

(** [m * 10 ^ e]. *)
Definition decimal (m e : Z) : Q :=
  if 0 <=? e then inject_Z (m * 10 ^ e) else Qmake m (Z.to_pos (10 ^ (- e))).

(** The exponent part, read only when it has a digit. *)
Definition scan_exponent (text : list Z) : Z * list Z :=
  match text with
  | c :: text' =>
      if (c =? char_code "e") || (c =? char_code "E") then
        let '(negative, body) :=
          match text' with
          | s :: text'' =>
              if s =? char_code "-" then (true, text'')
              else if s =? char_code "+" then (false, text'') else (false, text')
          | [] => (false, text')
          end in
        let '(ds, rest) := span_digits body in
        if len ds =? 0 then (0, text)
        else ((if negative then - digits_value ds else digits_value ds), rest)
      else (0, text)
  | [] => (0, text)
  end.

(** The fraction: its digits, with the point. *)
Definition scan_fraction (text : list Z) : list Z * list Z :=
  match text with
  | c :: text' => if c =? char_code "." then span_digits text' else ([], text)
  | [] => ([], text)
  end.

Definition scan_sign (text : list Z) : bool * list Z :=
  match text with
  | c :: text' => if c =? char_code "-" then (true, text') else (false, text)
  | [] => (false, text)
  end.

(** A value that is not zero and is rounded to zero, or that is rounded to an infinity, is out of
    range. *)
Definition from_chars_double (text : list Z) : errc * list Z * double :=
  let '(negative, body) := scan_sign text in
  let '(ip, afterInteger) := span_digits body in
  let '(fp, afterFraction) := scan_fraction afterInteger in
  if len (ip ++ fp) =? 0 then (errc_invalid_argument, text, S754_zero false)
  else
    let '(exponent, rest) := scan_exponent afterFraction in
    let m := digits_value (ip ++ fp) in
    if m =? 0 then (errc_ok, rest, S754_zero negative)
    else
      match round64 negative (decimal m (exponent - len fp)) with
      | S754_zero _ | S754_infinity _ => (errc_result_out_of_range, rest, S754_zero false)
      | d => (errc_ok, rest, d)
      end.

(** The magnitude of a finite double. *)
Definition magnitude (m : positive) (e : Z) : Q :=
  if 0 <=? e then inject_Z (Z.pos m * 2 ^ e) else Qred (Qmake (Z.pos m) (Z.to_pos (2 ^ (- e)))).

(** The power of ten of the leading digit of a positive rational. *)
Definition decimal_exponent (q : Q) : Z :=
  let l := len (Digits (Qnum q)) - len (Digits (Z.pos (Qden q))) in
  if Qle_bool (decimal 1 l) q then l else l - 1.

(** Drop the zeros at the end of a significand. *)
Fixpoint trim_zeros (fuel : nat) (d k : Z) : Z * Z :=
  match fuel with
  | O => (d, k)
  | S fuel' => if (d mod 10 =? 0) && (0 <? d) then trim_zeros fuel' (d / 10) (k + 1) else (d, k)
  end.

(** The significands of [p] digits on the two sides of [q], the nearer one first (of two equally
    near ones, the even one), with the power of ten they are multiplied by. *)
Definition significands (p : Z) (q : Q) : list (Z * Z) :=
  let k := decimal_exponent q - p + 1 in
  let scaled := Qred (q * decimal 1 (- k)) in
  let low := Qnum scaled / Z.pos (Qden scaled) in
  let twice := 2 * (Qnum scaled mod Z.pos (Qden scaled)) in
  let up :=
    (Z.pos (Qden scaled) <? twice) || ((Z.pos (Qden scaled) =? twice) && Z.odd low) in
  if up then [(low + 1, k); (low, k)] else [(low, k); (low + 1, k)].

Definition repeat_zero (n : Z) : list Z := repeat (char_code "0") (Z.to_nat n).

(** Scientific notation: at least two digits of exponent. *)
Definition scientific_text (d k : Z) : list Z :=
  let ds := Digits d in
  let x := k + len ds - 1 in
  take 1 ds ++ (if 1 <? len ds then char_code "." :: drop 1 ds else [])
  ++ [char_code "e"; if x <? 0 then char_code "-" else char_code "+"]
  ++ (if Z.abs x <? 10 then [char_code "0"] else []) ++ Digits (Z.abs x).

(** Fixed notation; an integral value is written out exactly. *)
Definition fixed_text (q : Q) (d k : Z) : list Z :=
  if 0 <=? k then Digits (if Z.pos (Qden q) =? 1 then Qnum q else d * 10 ^ k)
  else
    let ds := Digits d in
    if - k <? len ds then
      take (Z.to_nat (len ds + k)) ds ++ char_code "." :: drop (Z.to_nat (len ds + k)) ds
    else [char_code "0"; char_code "."] ++ repeat_zero (- k - len ds) ++ ds.

Definition shorter_text (q : Q) (dk : Z * Z) : list Z :=
  let (d, k) := trim_zeros 20 dk.1 dk.2 in
  let fixed := fixed_text q d k in
  let scientific := scientific_text d k in
  if len fixed <=? len scientific then fixed else scientific.

Definition reads_back (d : double) (text : list Z) : bool :=
  match from_chars_double text with
  | (errc_ok, [], d') => double_eqb d' d
  | _ => false
  end.

(** The precisions from [p] on, at most [fuel] of them. *)
Fixpoint shortest (fuel : nat) (p : Z) (negative : bool) (q : Q) (d : double) : option (list Z) :=
  match fuel with
  | O => None
  | S fuel' =>
      let sign := if negative then [char_code "-"] else [] in
      let texts := map (fun dk => sign ++ shorter_text q dk)
                     (filter (fun dk => 0 < dk.1) (significands p q)) in
      match List.find (reads_back d) texts with
      | Some text => Some text
      | None => shortest fuel' (p + 1) negative q d
      end
  end.

(** 17 significant digits tell any two doubles apart. *)
Definition to_chars_double (buffer : Z) (d : double) : option (list Z) :=
  match
    match d with
    | S754_zero s => Some (if s then txt "-0" else txt "0")
    | S754_finite s m e => shortest 17 1 s (magnitude m e) d
    | S754_infinity s => Some (if s then txt "-inf" else txt "inf")
    | S754_nan => Some (txt "nan")
    end
  with
  | Some text => if len text <=? buffer then Some text else None
  | None => None
  end.

End Charconv.
Import Charconv.

(** ** Digits *)

Definition all_digits (ds : list Z) : Prop := Forall (fun c => isdigit c = true) ds.

(** A text that does not go on with a digit. *)
Definition no_digit (text : list Z) : bool :=
  match text with [] => true | c :: _ => negb (isdigit c) end.

Lemma isdigit_byte c : isdigit c = true -> is_byte c.
Proof. unfold isdigit, is_byte. eval_chars. lia. Qed.

Lemma isdigit_spec c : isdigit c = true <-> 48 <= c <= 57.
Proof. unfold isdigit. eval_chars. lia. Qed.

Lemma span_digits_app ds rest :
  all_digits ds -> no_digit rest = true -> span_digits (ds ++ rest) = (ds, rest).
Proof.
  intros Hd Hr. induction Hd as [|c ds Hc Hd IH]; cbn [app span_digits].
  - destruct rest as [|c rest]; [done|]. cbn in *. by destruct (isdigit c).
  - by rewrite Hc, IH.
Qed.

Lemma span_digits_all ds : all_digits ds -> span_digits ds = (ds, []).
Proof. intros H. rewrite <- (app_nil_r ds) at 1. by rewrite span_digits_app. Qed.

Lemma span_digits_inv text ds rest :
  span_digits text = (ds, rest) -> text = ds ++ rest /\ all_digits ds /\ no_digit rest = true.
Proof.
  revert ds rest; induction text as [|c text IH]; intros ds rest H; cbn [span_digits] in H.
  - injection H as <- <-. repeat split. constructor.
  - destruct (isdigit c) eqn:E.
    + destruct (span_digits text) as [ds' rest'] eqn:E'. injection H as <- <-.
      destruct (IH ds' rest' eq_refl) as (-> & Hd & Hr). repeat split; [by constructor|done].
    + injection H as <- <-. cbn. rewrite E. repeat split. constructor.
Qed.

Lemma digits_value_snoc ds c : digits_value (ds ++ [c]) = digits_value ds * 10 + (c - 48).
Proof. unfold digits_value. by rewrite fold_left_app. Qed.

Lemma digits_value_fold ds n :
  fold_left (fun value c => value * 10 + (c - char_code "0")) ds n
  = n * 10 ^ len ds + digits_value ds.
Proof.
  revert n; induction ds as [|c ds IH] using rev_ind; intros n.
  - unfold digits_value. cbn. change (len (@nil Z)) with 0. lia.
  - rewrite fold_left_app, digits_value_snoc, IH, len_app. cbn [fold_left].
    change (len [c]) with 1. rewrite Z.pow_add_r by (apply len_nonneg || lia). eval_chars. lia.
Qed.

Lemma digits_value_app a b : digits_value (a ++ b) = digits_value a * 10 ^ len b + digits_value b.
Proof.
  unfold digits_value at 1. rewrite fold_left_app.
  rewrite (digits_value_fold b). done.
Qed.

Lemma digits_value_nonneg ds : all_digits ds -> 0 <= digits_value ds.
Proof.
  induction ds as [|c ds IH] using rev_ind; intros H; [done|].
  apply Forall_app in H as [H Hc]. apply Forall_cons in Hc as [Hc _].
  rewrite digits_value_snoc. apply isdigit_spec in Hc. specialize (IH H). lia.
Qed.

Lemma digits_loop_spec fuel n ds :
  0 <= n -> (Z.to_nat (Z.log2 n) < fuel)%nat -> all_digits ds ->
  exists c cs, DigitsLoop fuel n ds = c :: cs ++ ds /\ all_digits (c :: cs) /\
    digits_value (c :: cs) = n /\ (c = 48 -> n = 0 /\ cs = []) /\
    (length cs <= Z.to_nat (Z.log2 n))%nat.
Proof.
  revert n ds; induction fuel as [|fuel IH]; intros n ds Hn Hf Hd; [lia|]. cbn [DigitsLoop].
  pose proof (Z.mod_pos_bound n 10 ltac:(lia)) as Hm.
  assert (isdigit (char_code "0" + n mod 10) = true) as Hc.
  { apply isdigit_spec. eval_chars. lia. }
  destruct (n <? 10) eqn:E.
  - exists (char_code "0" + n mod 10), []. rewrite Z.mod_small in * by lia.
    split; [done|]. split; [by constructor|]. unfold digits_value. cbn. eval_chars.
    repeat split; lia.
  - assert (Z.log2 (n / 10) < Z.log2 n) as Hl.
    { assert (0 < n / 10) by (apply Z.div_str_pos; lia).
      pose proof (Z.log2_double (n / 10) ltac:(lia)).
      pose proof (Z.log2_le_mono (2 * (n / 10)) n ltac:(dlia)). lia. }
    pose proof (Z.log2_nonneg (n / 10)).
    destruct (IH (n / 10) ((char_code "0" + n mod 10) :: ds)) as (c & cs & E1 & H1 & H2 & H3 & H4).
    { apply Z.div_pos; lia. } { lia. } { by constructor. }
    exists c, (cs ++ [char_code "0" + n mod 10]). rewrite E1, <- app_assoc. split; [done|].
    split; [|split; [|split]].
    + rewrite app_comm_cons. by apply Forall_app; split; [|constructor].
    + rewrite app_comm_cons, digits_value_snoc, H2. eval_chars. dlia.
    + intros Hz. destruct (H3 Hz) as [H0 _]. dlia.
    + rewrite length_app. cbn. lia.
Qed.

Lemma digits_spec n :
  0 <= n ->
  exists c cs, Digits n = c :: cs /\ all_digits (c :: cs) /\ digits_value (c :: cs) = n /\
    (c = 48 -> n = 0 /\ cs = []) /\ (length cs <= Z.to_nat (Z.log2 n))%nat.
Proof.
  intros Hn. unfold Digits.
  destruct (digits_loop_spec (S (Z.to_nat (Z.log2 n))) n []) as (c & cs & E & H); [done|lia|constructor|].
  rewrite app_nil_r in E. eauto.
Qed.

Lemma digits_value_digits n : 0 <= n -> digits_value (Digits n) = n.
Proof. intros H. destruct (digits_spec n H) as (c & cs & -> & _ & Hv & _). done. Qed.

Lemma digits_all n : 0 <= n -> all_digits (Digits n).
Proof. intros H. by destruct (digits_spec n H) as (c & cs & -> & Hd & _). Qed.

(** [n] needs at most [k] digits when it is below [10 ^ k]. *)
Lemma digits_value_lower c cs :
  all_digits (c :: cs) -> c <> 48 -> 10 ^ len cs <= digits_value (c :: cs).
Proof.
  intros H Hc. apply Forall_cons in H as [Hd H]. apply isdigit_spec in Hd.
  change (c :: cs) with ([c] ++ cs). rewrite digits_value_app.
  pose proof (digits_value_nonneg cs H). unfold digits_value at 1. cbn [fold_left]. eval_chars.
  pose proof (Z.pow_pos_nonneg 10 (len cs) ltac:(lia) (len_nonneg cs)). nia.
Qed.

Lemma digits_length n k : 0 <= n < 10 ^ k -> 0 < k -> len (Digits n) <= k.
Proof.
  intros Hn Hk. destruct (digits_spec n ltac:(lia)) as (c & cs & -> & Hd & Hv & Hz & _).
  unfold len. cbn [length]. destruct (Z.eq_dec c 48) as [E|E].
  - destruct (Hz E) as [_ ->]. cbn. lia.
  - pose proof (digits_value_lower c cs Hd E) as Hl. rewrite Hv in Hl.
    destruct (Z.lt_ge_cases (len cs) k) as [|Hge]; [unfold len in *; lia|].
    pose proof (Z.pow_le_mono_r 10 k (len cs) ltac:(lia) Hge). lia.
Qed.

(** ** Integers *)

Lemma to_chars_integer_fits n :
  - 2 ^ 63 <= n < 2 ^ 64 ->
  to_chars_integer 32 n = Some (if n <? 0 then char_code "-" :: Digits (- n) else Digits n).
Proof.
  intros Hn. unfold to_chars_integer. eval_pow.
  assert (len (if n <? 0 then char_code "-" :: Digits (- n) else Digits n) <= 21).
  { assert (10 ^ 20 = 100000000000000000000) as Hp by reflexivity.
    destruct (n <? 0) eqn:E.
    - assert (len (Digits (- n)) <= 20) by (apply digits_length; lia). unfold len in *. cbn [length]. lia.
    - assert (len (Digits n) <= 20) by (apply digits_length; lia). lia. }
  destruct (_ <=? 32) eqn:E; [done|]. lia.
Qed.

Lemma from_chars_digits_unsigned n :
  0 <= n < 2 ^ 64 -> from_chars_uint64 (Digits n) = (errc_ok, [], n).
Proof.
  intros Hn. unfold from_chars_uint64, from_chars_integer.
  pose proof (digits_value_digits n ltac:(lia)) as Hv.
  destruct (digits_spec n ltac:(lia)) as (c & cs & E & Hd & _). rewrite E in *.
  change (0 <? 0) with false. rewrite andb_false_r.
  rewrite span_digits_all by done. rewrite Hv.
  replace (len (c :: cs) =? 0) with false by (unfold len; cbn; lia).
  eval_pow. case_if; [lia|done].
Qed.

Lemma from_chars_digits_negative n :
  0 < n <= 2 ^ 63 -> from_chars_int64 (char_code "-" :: Digits n) = (errc_ok, [], - n).
Proof.
  intros Hn. unfold from_chars_int64, from_chars_integer. rewrite Z.eqb_refl.
  change (- 2 ^ 63 <? 0) with true. cbn [andb].
  rewrite span_digits_all by (apply digits_all; lia). rewrite digits_value_digits by lia.
  destruct (digits_spec n ltac:(lia)) as (c & cs & -> & _).
  replace (len (c :: cs) =? 0) with false by (unfold len; cbn; lia).
  eval_pow. case_if; [lia|done].
Qed.

(** ** The texts of numbers *)

(** The grammar of a JSON number: an integer part without leading zeros, a fraction and an exponent,
    each with a digit. *)
Definition integer_part (ip : list Z) : Prop :=
  exists c cs, ip = c :: cs /\ all_digits ip /\ (c = 48 -> cs = []).

Definition fraction_text (fp : list Z) : list Z :=
  match fp with [] => [] | _ => char_code "." :: fp end.

Definition exponent_part (ex : list Z) : Prop :=
  ex = [] \/ exists e s ds, ex = e :: s ++ ds /\ (e = char_code "e" \/ e = char_code "E") /\
    (s = [] \/ s = [char_code "+"] \/ s = [char_code "-"]) /\ ds <> [] /\ all_digits ds.

Definition sign_text (negative : bool) : list Z := if negative then [char_code "-"] else [].

Definition number_text (text : list Z) : Prop :=
  exists negative ip fp ex, text = sign_text negative ++ ip ++ fraction_text fp ++ ex /\
    integer_part ip /\ all_digits fp /\ exponent_part ex.

Lemma integer_part_digits n : 0 <= n -> integer_part (Digits n).
Proof.
  intros H. destruct (digits_spec n H) as (c & cs & E & Hd & Hv & Hz & _).
  exists c, cs. rewrite E. split; [done|]. split; [done|]. intros Hc. by apply Hz.
Qed.

Lemma scientific_number_text negative d k :
  0 < d -> number_text (sign_text negative ++ scientific_text d k).
Proof.
  intros Hd. unfold scientific_text. set (x := k + len (Digits d) - 1). clearbody x.
  destruct (digits_spec d ltac:(lia)) as (c & cs & E & Ha & Hv & Hz & _). rewrite E.
  apply Forall_cons in Ha as [Hc Ha].
  exists negative, [c], cs,
    ([char_code "e"; if x <? 0 then char_code "-" else char_code "+"]
     ++ (if Z.abs x <? 10 then [char_code "0"] else []) ++ Digits (Z.abs x)).
  split; [|split; [|split; [done|right]]].
  - do 2 f_equal. destruct cs as [|c' cs]; [done|].
    replace (1 <? len (c :: c' :: cs)) with true by (unfold len; cbn; lia). done.
  - exists c, []. repeat split. by constructor.
  - exists (char_code "e"), [if x <? 0 then char_code "-" else char_code "+"],
      ((if Z.abs x <? 10 then [char_code "0"] else []) ++ Digits (Z.abs x)).
    split; [done|]. split; [by left|]. split; [case_if; auto|].
    destruct (digits_spec (Z.abs x) ltac:(lia)) as (c1 & cs1 & E1 & Ha1 & _). rewrite E1.
    split; [by case_if|]. apply Forall_app. split; [|done]. case_if; [|constructor].
    constructor; [done|constructor].
Qed.

Lemma repeat_zero_digits n : all_digits (repeat_zero n).
Proof.
  unfold repeat_zero. apply Forall_forall. intros c Hc. apply list_elem_of_In, repeat_spec in Hc.
  by subst.
Qed.

Lemma fixed_number_text negative q d k :
  0 < d -> 0 <= Qnum q -> number_text (sign_text negative ++ fixed_text q d k).
Proof.
  intros Hd Hq. unfold fixed_text. destruct (0 <=? k) eqn:Ek.
  - eexists negative, (Digits _), [], []. split; [cbn; by rewrite app_nil_r|].
    split; [|split; [constructor|by left]]. apply integer_part_digits.
    case_if; [done|]. pose proof (Z.pow_nonneg 10 k ltac:(lia)). nia.
  - destruct (digits_spec d ltac:(lia)) as (c & cs & E & Ha & Hv & Hz & _). rewrite E.
    destruct (- k <? len (c :: cs)) eqn:El.
    + set (n := Z.to_nat (len (c :: cs) + k)). assert (0 < n < length (c :: cs))%nat as Hn.
      { unfold n, len in *. lia. }
      exists negative, (take n (c :: cs)), (drop n (c :: cs)), [].
      assert (drop n (c :: cs) <> []) as Hne.
      { intros H0. apply (f_equal length) in H0. rewrite length_drop in H0. cbn [length] in *. lia. }
      split; [|split; [|split; [by apply Forall_drop|by left]]].
      * rewrite app_nil_r. do 2 f_equal. unfold fraction_text. by destruct (drop n (c :: cs)).
      * destruct n as [|n]; [lia|]. exists c, (take n cs). split; [done|].
        split; [by apply Forall_take|]. intros Hc. destruct (Hz Hc) as [-> _]. lia.
    + exists negative, [char_code "0"], (repeat_zero (- k - len (c :: cs)) ++ c :: cs), [].
      split; [|split; [|split; [|by left]]].
      * rewrite app_nil_r. unfold fraction_text.
        by destruct (repeat_zero (- k - len (c :: cs))).
      * exists (char_code "0"), []. repeat split. by repeat constructor.
      * apply Forall_app. split; [apply repeat_zero_digits|done].
Qed.

Lemma trim_zeros_pos fuel d k : 0 < d -> 0 < (trim_zeros fuel d k).1.
Proof.
  revert d k; induction fuel as [|fuel IH]; intros d k H; cbn [trim_zeros]; [done|].
  destruct (_ && _) eqn:E; [|done]. apply IH. dlia.
Qed.

Lemma shorter_number_text negative q dk :
  0 < dk.1 -> 0 <= Qnum q -> number_text (sign_text negative ++ shorter_text q dk).
Proof.
  intros Hd Hq. unfold shorter_text. pose proof (trim_zeros_pos 20 dk.1 dk.2 Hd) as Ht.
  destruct (trim_zeros 20 dk.1 dk.2) as [d k]. cbn in Ht. case_if.
  - by apply fixed_number_text.
  - by apply scientific_number_text.
Qed.

Lemma double_eqb_eq x y : double_eqb x y = true -> x = y.
Proof.
  destruct x, y; cbn; try done.
  - intros H. by apply eqb_prop in H as ->.
  - intros H. by apply eqb_prop in H as ->.
  - rewrite !andb_true_iff, Pos.eqb_eq, Z.eqb_eq. intros [[H ->] ->]. by apply eqb_prop in H as ->.
Qed.

Lemma reads_back_spec d text : reads_back d text = true -> from_chars_double text = (errc_ok, [], d).
Proof.
  unfold reads_back. destruct (from_chars_double text) as [[[] [|]] d']; try done.
  intros H. by apply double_eqb_eq in H as ->.
Qed.

Lemma shortest_spec fuel p negative q d text :
  0 <= Qnum q -> shortest fuel p negative q d = Some text ->
  number_text text /\ from_chars_double text = (errc_ok, [], d).
Proof.
  intros Hq. revert p; induction fuel as [|fuel IH]; intros p H; cbn [shortest] in H; [done|].
  destruct (List.find _ _) as [text'|] eqn:E; [|by eapply IH].
  injection H as <-. apply find_some in E as [Hin Hr]. split; [|by apply reads_back_spec].
  apply in_map_iff in Hin as (dk & <- & Hdk). apply list_elem_of_In in Hdk.
  apply list_elem_of_filter in Hdk as [Hpos _]. by apply (shorter_number_text negative).
Qed.

Lemma magnitude_nonneg m e : 0 <= Qnum (magnitude m e).
Proof.
  unfold magnitude. case_if.
  - cbn. pose proof (Z.pow_nonneg 2 e ltac:(lia)). nia.
  - assert (0 <= Qred (Z.pos m # Z.to_pos (2 ^ (- e))))%Q as H.
    { rewrite Qred_correct. unfold Qle. cbn. lia. }
    unfold Qle in H. cbn in H. lia.
Qed.

(** The shortest text of a finite double is a JSON number, and reads back as that double. *)
Lemma to_chars_double_spec buffer d text :
  isfinite d = true -> to_chars_double buffer d = Some text ->
  number_text text /\ from_chars_double text = (errc_ok, [], d).
Proof.
  intros Hf H. unfold to_chars_double in H. destruct d as [s|s| |s m e]; try done.
  - case_if_in H; [|done]. injection H as <-. split.
    + exists s, [char_code "0"], [], []. split; [by destruct s|].
      split; [|split; [constructor|by left]]. exists 48, []. repeat split. by repeat constructor.
    + by destruct s.
  - destruct (shortest _ _ _ _ _) as [text'|] eqn:E; [|done]. case_if_in H; [|done].
    injection H as <-. eapply shortest_spec; [|done]. apply magnitude_nonneg.
Qed.

(** ** Reading a decimal *)

Lemma integer_part_no_digit_head ip : integer_part ip -> all_digits ip.
Proof. by intros (c & cs & -> & H & _). Qed.

Lemma scan_sign_number negative ip text :
  integer_part ip -> scan_sign (sign_text negative ++ ip ++ text) = (negative, ip ++ text).
Proof.
  intros (c & cs & -> & Hd & _). destruct negative; [done|]. cbn.
  apply Forall_cons in Hd as [Hd _]. apply isdigit_spec in Hd. eval_chars.
  by replace (c =? 45) with false by lia.
Qed.

(** A digit 0 after the point does not change what is read. *)
Lemma round64_equal negative q r : (q == r)%Q -> round64 negative q = round64 negative r.
Proof. intros H. unfold round64. by rewrite (Qred_complete q r H). Qed.

Lemma decimal_tenfold m : (decimal (m * 10) (0 - 1) == decimal m 0)%Q.
Proof.
  unfold decimal. change (0 <=? 0 - 1) with false. change (0 <=? 0) with true.
  change (Z.to_pos (10 ^ (- (0 - 1)))) with 10%positive. change (10 ^ 0) with 1.
  unfold Qeq. cbn [Qnum Qden inject_Z]. lia.
Qed.

Lemma from_chars_double_point_zero negative ip d :
  integer_part ip -> from_chars_double (sign_text negative ++ ip) = (errc_ok, [], d) ->
  from_chars_double (sign_text negative ++ ip ++ txt ".0") = (errc_ok, [], d).
Proof.
  intros Hip. unfold from_chars_double. rewrite <- (app_nil_r ip) at 1.
  rewrite !scan_sign_number by done. pose proof (integer_part_no_digit_head ip Hip) as Hd.
  rewrite !span_digits_app by done. cbn [scan_fraction].
  change (span_digits (txt "0")) with ([char_code "0"], @nil Z).
  change (scan_fraction (txt ".0")) with ([char_code "0"], @nil Z). cbn [scan_exponent].
  rewrite app_nil_r, digits_value_snoc. destruct Hip as (c & cs & -> & _).
  replace (len (c :: cs) =? 0) with false by (unfold len; cbn; lia).
  replace (len ((c :: cs) ++ [char_code "0"]) =? 0) with false
    by (rewrite len_app; unfold len; cbn; lia).
  change (char_code "0" - 48) with 0. rewrite Z.add_0_r.
  replace (digits_value (c :: cs) * 10 =? 0) with (digits_value (c :: cs) =? 0) by lia.
  destruct (digits_value (c :: cs) =? 0); [done|].
  change (len [char_code "0"]) with 1. change (len (@nil Z)) with 0.
  by rewrite (round64_equal negative _ _ (decimal_tenfold _)).
Qed.

(** ** Rounding gives a number *)

Lemma shr_1_nonneg r : 0 <= shr_m r -> 0 <= shr_m (shr_1 r).
Proof. destruct r as [[|[]|] rb sb]; cbn; lia. Qed.

Lemma iter_shr_nonneg p : forall r, 0 <= shr_m r -> 0 <= shr_m (SpecFloat.iter_pos shr_1 p r).
Proof. induction p as [p IH|p IH|]; intros r H; cbn; auto using shr_1_nonneg. Qed.

Lemma shr_fexp_nonneg prec emax m e l :
  0 <= m -> 0 <= shr_m (shr_fexp prec emax m e l).1.
Proof.
  intros H. unfold shr_fexp, shr. destruct (fexp _ _ _ - e).
  - cbn. destruct l as [|[]]; done.
  - cbn [fst]. apply iter_shr_nonneg. destruct l as [|[]]; done.
  - cbn. destruct l as [|[]]; done.
Qed.

Lemma binary_round_aux_not_nan prec emax s m e l :
  0 <= m -> binary_round_aux prec emax s m e l <> S754_nan.
Proof.
  intros H. unfold binary_round_aux. pose proof (shr_fexp_nonneg prec emax m e l H) as H1.
  destruct (shr_fexp prec emax m e l) as [r e']. cbn [fst] in H1.
  assert (0 <= round_nearest_even (shr_m r) (loc_of_shr_record r)) as H2.
  { unfold round_nearest_even. destruct (loc_of_shr_record r) as [|[]]; try lia. case_if; lia. }
  pose proof (shr_fexp_nonneg prec emax _ e' loc_Exact H2) as H3.
  destruct (shr_fexp prec emax _ e' loc_Exact) as [r' e'']. cbn [fst] in H3.
  destruct (shr_m r'); [done| |lia]. by case_if.
Qed.

Lemma round64_not_nan negative q : (0 <= q)%Q -> round64 negative q <> S754_nan.
Proof.
  intros H. unfold round64.
  assert (0 <= Qnum (Qred q)) as Hn.
  { assert (0 <= Qred q)%Q as Hq by (by rewrite Qred_correct). unfold Qle in Hq.
    cbn [Qnum Qden] in Hq. lia. }
  unfold SFdiv_core_binary. set (s := 0 - 0 - _).
  set (m := match s with Z0 => _ | Zpos _ => _ | Zneg _ => _ end).
  assert (0 <= m) as Hm.
  { unfold m. destruct s; [done| |lia]. by apply Z.shiftl_nonneg. }
  pose proof (Z_div_mod m (Z.pos (Qden (Qred q))) ltac:(lia)) as Hd.
  destruct (Z.div_eucl m (Z.pos (Qden (Qred q)))) as [qq rr].
  apply binary_round_aux_not_nan. destruct Hd as [Hd Hr]. nia.
Qed.

(** ** The magnitude of a number text *)

Lemma decimal_below_one m e :
  0 <= m -> (decimal m e < 1)%Q <-> m = 0 \/ (e < 0 /\ m < 10 ^ (- e)).
Proof.
  intros Hm. unfold decimal. destruct (0 <=? e) eqn:E.
  - unfold Qlt. cbn [Qnum Qden inject_Z]. pose proof (Z.pow_pos_nonneg 10 e ltac:(lia) ltac:(lia)).
    split; [intros; left; nia|]. intros [->|[? _]]; lia.
  - pose proof (Z.pow_pos_nonneg 10 (- e) ltac:(lia) ltac:(lia)).
    unfold Qlt. cbn [Qnum Qden]. rewrite Z2Pos.id by lia. lia.
Qed.

Lemma decimal_nonneg m e : 0 <= m -> (0 <= decimal m e)%Q.
Proof.
  intros Hm. unfold decimal. destruct (0 <=? e) eqn:E; unfold Qle; cbn [Qnum Qden inject_Z]; [|lia].
  pose proof (Z.pow_nonneg 10 e ltac:(lia)). nia.
Qed.

Lemma digits_value_upper ds : all_digits ds -> digits_value ds < 10 ^ len ds.
Proof.
  induction ds as [|c ds IH] using rev_ind; intros H; [done|].
  apply Forall_app in H as [H Hc]. apply Forall_cons in Hc as [Hc _]. apply isdigit_spec in Hc.
  rewrite digits_value_snoc, len_app. change (len [c]) with 1.
  rewrite Z.pow_add_r by (apply len_nonneg || lia). specialize (IH H). lia.
Qed.

(** The parts that [from_chars] sees of a number text. *)
Lemma scan_fraction_number fp ex :
  all_digits fp -> exponent_part ex -> scan_fraction (fraction_text fp ++ ex) = (fp, ex).
Proof.
  intros Hf He.
  assert (no_digit ex = true) as Hn.
  { destruct He as [->|(e & s & ds & -> & He & _)]; [done|]. by destruct He as [-> | ->]. }
  destruct fp as [|c fp].
  - cbn. destruct He as [->|(e & s & ds & -> & He & _)]; [done|]. cbn.
    by destruct He as [-> | ->].
  - cbn [fraction_text app scan_fraction]. rewrite Z.eqb_refl, app_comm_cons.
    by apply span_digits_app.
Qed.

Lemma fraction_exponent_no_digit fp ex :
  exponent_part ex -> no_digit (fraction_text fp ++ ex) = true.
Proof.
  intros He. destruct fp; [|done]. destruct He as [->|(e & s & ds & -> & He & _)]; [done|].
  by destruct He as [-> | ->].
Qed.

Lemma scan_exponent_number ex :
  exponent_part ex -> exists e, scan_exponent ex = (e, []).
Proof.
  intros [->|(c & s & ds & -> & Hc & Hs & Hne & Hd)]; [by eexists|]. unfold scan_exponent.
  assert ((c =? char_code "e") || (c =? char_code "E") = true) as -> by (eval_chars; lia).
  destruct ds as [|d ds]; [done|]. pose proof Hd as Hd'.
  apply Forall_cons in Hd as [Hd _]. apply isdigit_spec in Hd. eval_chars.
  destruct Hs as [->|[->| ->]]; cbn [app].
  - replace (d =? 45) with false by lia. replace (d =? 43) with false by lia.
    rewrite span_digits_all by done.
    replace (len (d :: ds) =? 0) with false by (unfold len; cbn; lia). by eexists.
  - change (43 =? 45) with false. change (43 =? 43) with true. cbn iota.
    rewrite span_digits_all by done.
    replace (len (d :: ds) =? 0) with false by (unfold len; cbn; lia). by eexists.
  - change (45 =? 45) with true. cbn iota. rewrite span_digits_all by done.
    replace (len (d :: ds) =? 0) with false by (unfold len; cbn; lia). by eexists.
Qed.

(** The digits and the exponent of a number text, and what [from_chars] makes of them. *)
Lemma from_chars_number negative ip fp ex :
  integer_part ip -> all_digits fp -> exponent_part ex ->
  from_chars_double (sign_text negative ++ ip ++ fraction_text fp ++ ex) =
  (if digits_value (ip ++ fp) =? 0 then (errc_ok, [], S754_zero negative)
   else match round64 negative (decimal (digits_value (ip ++ fp)) ((scan_exponent ex).1 - len fp)) with
        | S754_zero _ | S754_infinity _ => (errc_result_out_of_range, [], S754_zero false)
        | d => (errc_ok, [], d)
        end).
Proof.
  intros Hip Hfp Hex. unfold from_chars_double. rewrite scan_sign_number by done.
  rewrite span_digits_app by (eauto using fraction_exponent_no_digit, integer_part_no_digit_head).
  rewrite scan_fraction_number by done. destruct (scan_exponent_number ex Hex) as (e & ->).
  destruct Hip as (c & cs & -> & _).
  replace (len ((c :: cs) ++ fp) =? 0) with false by (unfold len; cbn; lia). cbn [fst].
  case_if; [done|]. by destruct (round64 _ _).
Qed.
