(* ===== verification/Json.v ===== *)
(** * Protocol: JSON values, parser and writer.

    [Protocol/Json.h], [Protocol/Json.cpp] and [Protocol/JsonInternal.h].  A [JsonValue] has the
    alternatives of the source's variant; an object, a [std::map], is the list of its members in key
    order.  The parser keeps the part of the text it has not read ([mRest]) in place of the
    position: the position is the length of what was read.  Exceptions are the [Throw] outcomes;
    the recursion runs on fuel, of which [ParseText] gives enough.  The writer returns the text the
    code appends to its output. *)

From S2P Require Import Prelude CoreError Utf8 Charconv.
From Stdlib Require Import SpecFloat QArith.
Import Utf8 Charconv.
#[local] Open Scope Z_scope.

Module Json.

Definition MaximumJsonNestingDepth : Z := 256.

(** ** Values *)

(** [JsonValue::Number]; its [asDouble] is computed from the value by each constructor. *)
Inductive NumberValue : Type :=
| Int64 (integer : Z)
| UInt64 (integer : Z)
| Double (number : double).

Definition asDouble (n : NumberValue) : double :=
  match n with
  | Int64 integer | UInt64 integer => double_of_integer integer
  | Double number => number
  end.

Inductive JsonValue : Type :=
| JNull
| JBoolean (value : bool)
| JNumber (value : NumberValue)
| JString (value : list Z)
| JArray (value : list JsonValue)
| JObject (value : list (list Z * JsonValue)).

Definition Object : Type := list (list Z * JsonValue).

Definition IsNull (v : JsonValue) : bool := match v with JNull => true | _ => false end.
Definition IsBoolean (v : JsonValue) : bool := match v with JBoolean _ => true | _ => false end.
Definition IsNumber (v : JsonValue) : bool := match v with JNumber _ => true | _ => false end.
Definition IsString (v : JsonValue) : bool := match v with JString _ => true | _ => false end.
Definition IsArray (v : JsonValue) : bool := match v with JArray _ => true | _ => false end.
Definition IsObject (v : JsonValue) : bool := match v with JObject _ => true | _ => false end.

Definition TryArray (v : JsonValue) : option (list JsonValue) :=
  match v with JArray a => Some a | _ => None end.
Definition TryObject (v : JsonValue) : option Object :=
  match v with JObject o => Some o | _ => None end.
Definition TryString (v : JsonValue) : option (list Z) :=
  match v with JString s => Some s | _ => None end.
Definition TryBoolean (v : JsonValue) : option bool :=
  match v with JBoolean b => Some b | _ => None end.
Definition TryNumber (v : JsonValue) : option double :=
  match v with JNumber n => Some (asDouble n) | _ => None end.
Definition TryInt64 (v : JsonValue) : option Z :=
  match v with JNumber (Int64 n) => Some n | _ => None end.
Definition TryUInt64 (v : JsonValue) : option Z :=
  match v with JNumber (UInt64 n) => Some n | _ => None end.

Definition Size (v : JsonValue) : Z :=
  match TryArray v with
  | Some array => len array
  | None => match TryObject v with Some object => len object | None => 0 end
  end.

Fixpoint FindMember (key : list Z) (members : Object) : option JsonValue :=
  match members with
  | [] => None
  | (k, v) :: members' => if bytes_eqb k key then Some v else FindMember key members'
  end.

Definition Find (key : list Z) (v : JsonValue) : option JsonValue :=
  match TryObject v with None => None | Some object => FindMember key object end.

Definition At (index : Z) (v : JsonValue) : option JsonValue :=
  match TryArray v with
  | None => None
  | Some array => if len array <=? index then None else array !! Z.to_nat index
  end.

(** [std::map::emplace]: [None] when the key is there. *)
Fixpoint Emplace (key : list Z) (value : JsonValue) (members : Object) : option Object :=
  match members with
  | [] => Some [(key, value)]
  | (k, v) :: members' =>
      if bytes_ltb key k then Some ((key, value) :: members)
      else if bytes_ltb k key then option_map (cons (k, v)) (Emplace key value members')
      else None
  end.

(** ** Outcomes of the parser *)

Inductive Exception : Type :=
| JsonParseFailure (what : string)
| JsonValueLimitExceeded.

Inductive Outcome (A : Type) : Type :=
| Return (a : A)
| Throw (e : Exception)
| OutOfFuel.
Arguments Return {A} a.
Arguments Throw {A} e.
Arguments OutOfFuel {A}.

Definition obind {A B} (o : Outcome A) (k : A -> Outcome B) : Outcome B :=
  match o with Return a => k a | Throw e => Throw e | OutOfFuel => OutOfFuel end.

Declare Scope outcome_scope.
Delimit Scope outcome_scope with outcome.
Notation "'do' x <- e ; k" := (obind e (fun x => k))
  (at level 10, x pattern, e at level 100, k at level 200) : outcome_scope.
#[local] Open Scope outcome_scope.

Record TopLevelMembers : Type := MkTopLevel { hasBody : bool; rawBodySize : Z }.

Record ParsedEnvelopeDocument : Type := MkEnvelope {
  members : Object;
  isObject : bool;
  envelopeHasBody : bool;
  envelopeRawBodySize : Z
}.

Record Parser : Type := MkParser { mRest : list Z; mRemainingValues : Z }.

(** ** Numbers too small or too large for a double *)

(** The first loop: the exponent of the first digit that is not 0 of the integer part. *)
Fixpoint LeadingInteger (integerDigits index : Z) (ip : list Z) : option Z :=
  match ip with
  | [] => None
  | c :: ip' =>
      if negb (c =? char_code "0") then Some (integerDigits - 1 - index)
      else LeadingInteger integerDigits (index + 1) ip'
  end.

(** The second: the same for the fraction. *)
Fixpoint LeadingFraction (index : Z) (fp : list Z) : option Z :=
  match fp with
  | [] => None
  | c :: fp' => if negb (c =? char_code "0") then Some (-1 - index) else LeadingFraction (index + 1) fp'
  end.

Definition ExponentLimit : Z := 100000000000000000.

(** The exponent's digits, saturated. *)
Definition SaturatedExponent (ds : list Z) : Z :=
  fold_left (fun exponent c => Z.min (exponent * 10 + (c - char_code "0")) ExponentLimit) ds 0.

Definition ExponentOf (text : list Z) : Z :=
  match text with
  | c :: text' =>
      if (c =? char_code "e") || (c =? char_code "E") then
        let negative := match text' with s :: _ => s =? char_code "-" | [] => false end in
        let body :=
          match text' with
          | s :: text'' =>
              if (s =? char_code "+") || (s =? char_code "-") then text'' else text'
          | [] => text'
          end in
        let exponent := SaturatedExponent (span_digits body).1 in
        if negative then - exponent else exponent
      else 0
  | [] => 0
  end.

Definition MagnitudeBelowOne (token : list Z) : bool :=
  let body :=
    match token with c :: token' => if c =? char_code "-" then token' else token | [] => token end in
  let '(ip, afterInteger) := span_digits body in
  let '(fp, afterFraction) :=
    match afterInteger with
    | c :: text => if c =? char_code "." then span_digits text else ([], afterInteger)
    | [] => ([], afterInteger)
    end in
  let leading :=
    match LeadingInteger (len ip) 0 ip with
    | Some leading => Some leading
    | None => LeadingFraction 0 fp
    end in
  match leading with
  | None => true
  | Some leading => leading + ExponentOf afterFraction <? 0
  end.

(** ** The parser *)

Section Parser.

Variable mText : list Z.

(** The line and the column after some read text. *)
Fixpoint LineColumn (read : list Z) (line column : Z) : Z * Z :=
  match read with
  | [] => (line, column)
  | c :: read' =>
      if c =? 10 then LineColumn read' (line + 1) 1 else LineColumn read' line (column + 1)
  end.

(** [std::to_string]. *)
Definition to_string (n : Z) : string := str (Digits n).

Definition Fail {A} (message : string) (rest : list Z) : Outcome A :=
  let '(line, column) := LineColumn (take (length mText - length rest) mText) 1 1 in
  Throw (JsonParseFailure
    (message +:+ " at line " +:+ to_string line +:+ ", column " +:+ to_string column)).

(** At position 0 only: it is the first thing a parse does. *)
Definition SkipByteOrderMark (rest : list Z) : list Z :=
  match rest with
  | a :: b :: c :: rest' =>
      if (a =? 0xEF) && (b =? 0xBB) && (c =? 0xBF) then rest' else rest
  | _ => rest
  end.

Definition IsSpace (c : Z) : bool := (c =? 32) || (c =? 9) || (c =? 13) || (c =? 10).

Fixpoint SkipWhitespace (rest : list Z) : list Z :=
  match rest with
  | c :: rest' => if IsSpace c then SkipWhitespace rest' else rest
  | [] => []
  end.

(** [Some] of what follows the character, [None] when the next one is another. *)
Definition Consume (value : Z) (rest : list Z) : option (list Z) :=
  match rest with
  | c :: rest' => if c =? value then Some rest' else None
  | [] => None
  end.

Definition ParseLiteral (literal : list Z) (rest : list Z) : Outcome (list Z) :=
  if negb (bytes_eqb (take (length literal) rest) literal) then Fail "invalid literal" rest
  else Return (drop (length literal) rest).

(** The loop of [ParseHex4]. *)
Fixpoint ParseHexDigits (count : nat) (value : Z) (rest : list Z) : Outcome (Z * list Z) :=
  match count, rest with
  | S count', character :: rest' =>
      let shifted := Z.shiftl value 4 in
      if (char_code "0" <=? character) && (character <=? char_code "9") then
        ParseHexDigits count' (Z.lor shifted (character - char_code "0")) rest'
      else if (char_code "a" <=? character) && (character <=? char_code "f") then
        ParseHexDigits count' (Z.lor shifted (character - char_code "a" + 10)) rest'
      else if (char_code "A" <=? character) && (character <=? char_code "F") then
        ParseHexDigits count' (Z.lor shifted (character - char_code "A" + 10)) rest'
      else Fail "invalid unicode escape" rest'
  | _, _ => Return (value, rest)
  end.

Definition ParseHex4 (rest : list Z) : Outcome (Z * list Z) :=
  if (length rest <? 4)%nat then Fail "incomplete unicode escape" rest
  else ParseHexDigits 4 0 rest.

(** The escape [\u]: a code point, of two escapes when the first is a high surrogate. *)
Definition ParseUnicodeEscape (rest : list Z) : Outcome (list Z * list Z) :=
  do (codePoint, rest) <- ParseHex4 rest;
  if (0xD800 <=? codePoint) && (codePoint <=? 0xDBFF) then
    match rest with
    | b :: u :: rest' =>
        if negb (b =? 92) || negb (u =? char_code "u") then Fail "missing low surrogate" rest
        else
          do (low, rest) <- ParseHex4 rest';
          if (low <? 0xDC00) || (0xDFFF <? low) then Fail "invalid low surrogate" rest
          else
            Return (AppendUtf8 (0x10000 + Z.shiftl (codePoint - 0xD800) 10 + (low - 0xDC00)), rest)
    | _ => Fail "missing low surrogate" rest
    end
  else if (0xDC00 <=? codePoint) && (codePoint <=? 0xDFFF) then Fail "unexpected low surrogate" rest
  else Return (AppendUtf8 codePoint, rest).

(** What follows a backslash: the bytes it stands for. *)
Definition ParseEscape (rest : list Z) : Outcome (list Z * list Z) :=
  match rest with
  | [] => Fail "incomplete escape sequence" rest
  | c :: rest' =>
      if c =? 34 then Return ([34], rest')
      else if c =? 92 then Return ([92], rest')
      else if c =? char_code "/" then Return ([char_code "/"], rest')
      else if c =? char_code "b" then Return ([8], rest')
      else if c =? char_code "f" then Return ([12], rest')
      else if c =? char_code "n" then Return ([10], rest')
      else if c =? char_code "r" then Return ([13], rest')
      else if c =? char_code "t" then Return ([9], rest')
      else if c =? char_code "u" then ParseUnicodeEscape rest'
      else Fail "invalid escape sequence" rest'
  end.

(** The loop of [ParseString]; a round reads a character at least. *)
Fixpoint ParseStringLoop (fuel : nat) (result : list Z) (rest : list Z)
    : Outcome (list Z * list Z) :=
  match rest with
  | [] => Fail "unterminated string" rest
  | character :: rest' =>
      match fuel with
      | O => OutOfFuel
      | S fuel' =>
          if character =? 34 then Return (result, rest')
          else if character <? 0x20 then Fail "unescaped control character" rest'
          else if negb (character =? 92) then ParseStringLoop fuel' (result ++ [character]) rest'
          else
            do (bytes, rest) <- ParseEscape rest';
            ParseStringLoop fuel' (result ++ bytes) rest
      end
  end.

Definition ParseString (rest : list Z) : Outcome (list Z * list Z) :=
  match Consume 34 rest with
  | None => Fail "expected a string" rest
  | Some rest => ParseStringLoop (length rest) [] rest
  end.

Definition SkipDigits (rest : list Z) : list Z := (span_digits rest).2.

Definition NextIsDigit (rest : list Z) : bool :=
  match rest with c :: _ => isdigit c | [] => false end.

Definition ScanInteger (rest : list Z) : Outcome (list Z) :=
  match Consume (char_code "0") rest with
  | Some rest => if NextIsDigit rest then Fail "leading zero in number" rest else Return rest
  | None =>
      match rest with
      | c :: _ =>
          if (c <? char_code "1") || (char_code "9" <? c) then Fail "invalid number" rest
          else Return (SkipDigits rest)
      | [] => Fail "invalid number" rest
      end
  end.

Definition ScanFraction (rest : list Z) : Outcome (list Z) :=
  match Consume (char_code ".") rest with
  | Some rest =>
      if negb (NextIsDigit rest) then Fail "invalid fraction" rest else Return (SkipDigits rest)
  | None => Return rest
  end.

Definition ScanExponent (rest : list Z) : Outcome (list Z) :=
  match rest with
  | c :: rest' =>
      if (c =? char_code "e") || (c =? char_code "E") then
        let rest :=
          match rest' with
          | s :: rest'' => if (s =? char_code "+") || (s =? char_code "-") then rest'' else rest'
          | [] => rest'
          end in
        if negb (NextIsDigit rest) then Fail "invalid exponent" rest else Return (SkipDigits rest)
      else Return rest
  | [] => Return rest
  end.

(** [find_first_of(".eE") != npos]. *)
Definition HasFractionOrExponent (text : list Z) : bool :=
  existsb (fun c => (c =? char_code ".") || (c =? char_code "e") || (c =? char_code "E")) text.

(** The conversion of the token [text], which ends where [rest] begins. *)
Definition ConvertInteger (conversion : errc * list Z * Z) (make : Z -> NumberValue)
    (rest : list Z) : Outcome JsonValue :=
  match conversion with
  | (errc_ok, [], integer) => Return (JNumber (make integer))
  | _ => Fail "integer is out of range" rest
  end.

Definition ConvertDouble (text rest : list Z) : Outcome JsonValue :=
  match from_chars_double text with
  | (ec, ptr, result) =>
      if (len ptr =? 0) && match ec with errc_result_out_of_range => true | _ => false end
         && MagnitudeBelowOne text
      then Return (JNumber (Double (S754_zero (hd 0 text =? char_code "-"))))
      else if match ec with errc_ok => false | _ => true end || negb (len ptr =? 0)
              || negb (isfinite result)
      then Fail "number is out of range" rest
      else Return (JNumber (Double result))
  end.

Definition ConvertNumber (text rest : list Z) : Outcome JsonValue :=
  if HasFractionOrExponent text then ConvertDouble text rest
  else if hd 0 text =? char_code "-" then
    if bytes_eqb text (txt "-0") then ConvertDouble text rest
    else ConvertInteger (from_chars_int64 text) Int64 rest
  else ConvertInteger (from_chars_uint64 text) UInt64 rest.

Definition ParseNumber (start : list Z) : Outcome (JsonValue * list Z) :=
  let rest := match Consume (char_code "-") start with Some rest => rest | None => start end in
  do rest <- ScanInteger rest;
  do rest <- ScanFraction rest;
  do rest <- ScanExponent rest;
  let text := take (length start - length rest) start in
  do value <- ConvertNumber text rest;
  Return (value, rest).

(** The members recorded for the envelope, when [topLevelMembers] is not null. *)
Definition RecordBody (key : list Z) (size : Z) (top : option TopLevelMembers)
    : option TopLevelMembers :=
  match top with
  | Some t => if bytes_eqb key (txt "body") then Some (MkTopLevel true size) else Some t
  | None => None
  end.

(** [ParseValue] with the loops of [ParseArray] and [ParseObjectMembers], which start after the
    opening bracket and the test for an empty container. *)
Fixpoint ParseValue (fuel : nat) (depth : Z) (p : Parser) {struct fuel}
    : Outcome (JsonValue * Parser) :=
  match fuel with
  | O => OutOfFuel
  | S fuel' =>
      if MaximumJsonNestingDepth <? depth then Fail "maximum nesting depth exceeded" (mRest p)
      else
        match mRest p with
        | [] => Fail "expected a value" (mRest p)
        | c :: rest' =>
            if mRemainingValues p =? 0 then Throw JsonValueLimitExceeded
            else
              let remaining := mRemainingValues p - 1 in
              let rest := mRest p in
              if c =? char_code "n" then
                do rest <- ParseLiteral (txt "null") rest; Return (JNull, MkParser rest remaining)
              else if c =? char_code "t" then
                do rest <- ParseLiteral (txt "true") rest;
                Return (JBoolean true, MkParser rest remaining)
              else if c =? char_code "f" then
                do rest <- ParseLiteral (txt "false") rest;
                Return (JBoolean false, MkParser rest remaining)
              else if c =? 34 then
                do (s, rest) <- ParseString rest; Return (JString s, MkParser rest remaining)
              else if c =? char_code "[" then
                let rest := SkipWhitespace rest' in
                match Consume (char_code "]") rest with
                | Some rest => Return (JArray [], MkParser rest remaining)
                | None => ParseArray fuel' (depth + 1) [] (MkParser rest remaining)
                end
              else if c =? char_code "{" then
                let rest := SkipWhitespace rest' in
                match Consume (char_code "}") rest with
                | Some rest => Return (JObject [], MkParser rest remaining)
                | None =>
                    do (object, _, p) <-
                      ParseObjectMembers fuel' (depth + 1) None [] (MkParser rest remaining);
                    Return (JObject object, p)
                end
              else if (c =? char_code "-") || ((char_code "0" <=? c) && (c <=? char_code "9")) then
                do (v, rest) <- ParseNumber rest; Return (v, MkParser rest remaining)
              else Fail "invalid value" rest
        end
  end
with ParseArray (fuel : nat) (depth : Z) (result : list JsonValue) (p : Parser) {struct fuel}
    : Outcome (JsonValue * Parser) :=
  match fuel with
  | O => OutOfFuel
  | S fuel' =>
      do (value, p) <- ParseValue fuel' depth p;
      let rest := SkipWhitespace (mRest p) in
      match Consume (char_code "]") rest with
      | Some rest => Return (JArray (result ++ [value]), MkParser rest (mRemainingValues p))
      | None =>
          match Consume (char_code ",") rest with
          | None => Fail "expected ',' or ']'" rest
          | Some rest =>
              ParseArray fuel' depth (result ++ [value])
                (MkParser (SkipWhitespace rest) (mRemainingValues p))
          end
      end
  end
with ParseObjectMembers (fuel : nat) (depth : Z) (top : option TopLevelMembers) (result : Object)
    (p : Parser) {struct fuel} : Outcome (Object * option TopLevelMembers * Parser) :=
  match fuel with
  | O => OutOfFuel
  | S fuel' =>
      if negb (match mRest p with c :: _ => c =? 34 | [] => false end) then
        Fail "expected an object key" (mRest p)
      else
        do (key, rest) <- ParseString (mRest p);
        match Consume (char_code ":") (SkipWhitespace rest) with
        | None => Fail "expected ':'" (SkipWhitespace rest)
        | Some rest =>
            let valueStart := SkipWhitespace rest in
            do (value, p) <- ParseValue fuel' depth (MkParser valueStart (mRemainingValues p));
            let top := RecordBody key (len valueStart - len (mRest p)) top in
            match Emplace key value result with
            | None => Fail "duplicate object key" (mRest p)
            | Some result =>
                let rest := SkipWhitespace (mRest p) in
                match Consume (char_code "}") rest with
                | Some rest => Return (result, top, MkParser rest (mRemainingValues p))
                | None =>
                    match Consume (char_code ",") rest with
                    | None => Fail "expected ',' or '}'" rest
                    | Some rest =>
                        ParseObjectMembers fuel' depth top result
                          (MkParser (SkipWhitespace rest) (mRemainingValues p))
                    end
                end
            end
        end
  end.

Definition BeginDocument (maxValues : Z) : Parser :=
  MkParser (SkipWhitespace (SkipByteOrderMark mText)) maxValues.

Definition EndDocument {A} (p : Parser) (a : A) : Outcome A :=
  let rest := SkipWhitespace (mRest p) in
  if negb (len rest =? 0) then Fail "unexpected trailing data" rest else Return a.

(** A value reads a character at least, and so does a round of a loop. *)
Definition Fuel : nat := 2 * length mText + 2.

Definition ParseDocument (maxValues : Z) : Outcome JsonValue :=
  do (result, p) <- ParseValue Fuel 0 (BeginDocument maxValues);
  EndDocument p result.

(** The top-level object is not itself counted as a value. *)
Definition ParseEnvelope (maxValues : Z) : Outcome ParsedEnvelopeDocument :=
  let p := BeginDocument maxValues in
  match Consume (char_code "{") (mRest p) with
  | Some rest =>
      let rest := SkipWhitespace rest in
      do (object, top, p) <-
        match Consume (char_code "}") rest with
        | Some rest => Return ([], Some (MkTopLevel false 0), MkParser rest maxValues)
        | None =>
            ParseObjectMembers Fuel 1 (Some (MkTopLevel false 0)) [] (MkParser rest maxValues)
        end;
      let members := match top with Some t => t | None => MkTopLevel false 0 end in
      EndDocument p (MkEnvelope object true (hasBody members) (rawBodySize members))
  | None =>
      do (_, p) <- ParseValue Fuel 0 p;
      EndDocument p (MkEnvelope [] false false 0)
  end.

End Parser.

(** [ParseText]: the exceptions become statuses ([None]: out of fuel). *)
Definition ParseText {A} (text : list Z) (parse : list Z -> Z -> Outcome A) (maxValues : Z)
    : option (Result A) :=
  if negb (IsValidUtf8 text) then
    Some (FromStatus (Status.Fail InvalidFormat "JSON text is not valid UTF-8"))
  else
    match parse text maxValues with
    | Return a => Some (FromValue a)
    | Throw (JsonParseFailure what) => Some (FromStatus (Status.Fail InvalidFormat what))
    | Throw JsonValueLimitExceeded => Some (FromStatus (Status.FailWithoutMessage TooLarge))
    | OutOfFuel => None
    end.

(** [JsonValue::Parse] and [ParseBytes]; without limits, [maxValues] is [SIZE_MAX]. *)
Definition Parse (text : list Z) (maxValues : Z) : option (Result JsonValue) :=
  ParseText text ParseDocument maxValues.

Definition ParseEnvelopeDocument (bytes : list Z) (maxValues : Z)
    : option (Result ParsedEnvelopeDocument) :=
  ParseText bytes ParseEnvelope maxValues.

(** ** The writer *)

Definition HexDigits : list Z := txt "0123456789abcdef".

Definition EscapeByte (raw : Z) : list Z :=
  if raw =? 34 then [92; 34]
  else if raw =? 92 then [92; 92]
  else if raw =? 8 then [92; char_code "b"]
  else if raw =? 12 then [92; char_code "f"]
  else if raw =? 10 then [92; char_code "n"]
  else if raw =? 13 then [92; char_code "r"]
  else if raw =? 9 then [92; char_code "t"]
  else if raw <? 0x20 then
    92 :: txt "u00" ++ [nth (Z.to_nat (Z.shiftr raw 4)) HexDigits 0;
                        nth (Z.to_nat (Z.land raw 0x0F)) HexDigits 0]
  else [raw].

Definition DumpEscapedString (value : list Z) : list Z :=
  [34] ++ concat (map EscapeByte value) ++ [34].

Definition DumpInteger (message : string) (n : Z) : Result (list Z) :=
  match to_chars_integer 32 n with
  | Some text => FromValue text
  | None => FromStatus (Status.Fail PlatformError message)
  end.

Definition DumpDouble (number : double) : Result (list Z) :=
  if negb (isfinite number) then
    FromStatus (Status.Fail InvalidArgument "a JSON number must be finite")
  else
    match to_chars_double 32 number with
    | Some text =>
        FromValue (text ++ (if HasFractionOrExponent text then [] else txt ".0"))
    | None =>
        FromStatus (Status.Fail PlatformError "a finite JSON number could not be formatted")
    end.

(** [std::sort] of the members by key. *)
Fixpoint InsertMember {A} (m : list Z * A) (ms : list (list Z * A)) : list (list Z * A) :=
  match ms with
  | [] => [m]
  | m' :: ms' => if bytes_ltb m'.1 m.1 then m' :: InsertMember m ms' else m :: ms
  end.

Fixpoint SortMembers {A} (ms : list (list Z * A)) : list (list Z * A) :=
  match ms with [] => [] | m :: ms' => InsertMember m (SortMembers ms') end.

(** The loops over the elements and the members: the first failure ends them. *)
Fixpoint DumpElements (first : bool) (elements : list (Result (list Z))) : Result (list Z) :=
  match elements with
  | [] => FromValue []
  | element :: elements' =>
      let* text := element in
      let* rest := DumpElements false elements' in
      FromValue ((if first then [] else txt ", ") ++ text ++ rest)
  end%result.

Fixpoint DumpMembers (first : bool) (ms : list (list Z * Result (list Z))) : Result (list Z) :=
  match ms with
  | [] => FromValue []
  | (key, value) :: ms' =>
      let* text := value in
      let* rest := DumpMembers false ms' in
      FromValue ((if first then [] else txt ", ") ++ DumpEscapedString key ++ txt ": " ++ text ++ rest)
  end%result.

Fixpoint DumpValue (value : JsonValue) (depth : Z) : Result (list Z) :=
  if MaximumJsonNestingDepth <? depth then
    FromStatus (Status.Fail InvalidArgument "maximum JSON nesting depth exceeded")
  else
    match value with
    | JNull => FromValue (txt "null")
    | JBoolean b => FromValue (if b then txt "true" else txt "false")
    | JNumber (Int64 n) => DumpInteger "a signed JSON integer could not be formatted" n
    | JNumber (UInt64 n) => DumpInteger "an unsigned JSON integer could not be formatted" n
    | JNumber (Double d) => DumpDouble d
    | JString s =>
        if negb (IsValidUtf8 s) then
          FromStatus (Status.Fail InvalidArgument "a JSON string must be valid UTF-8")
        else FromValue (DumpEscapedString s)
    | JArray array =>
        let* text := DumpElements true (map (fun v => DumpValue v (depth + 1)) array) in
        FromValue ([char_code "["] ++ text ++ [char_code "]"])
    | JObject object =>
        if negb (forallb (fun m => IsValidUtf8 m.1) object) then
          FromStatus (Status.Fail InvalidArgument "a JSON object key must be valid UTF-8")
        else
          let* text :=
            DumpMembers true
              (SortMembers (map (fun m => (m.1, DumpValue m.2 (depth + 1))) object)) in
          FromValue ([char_code "{"] ++ text ++ [char_code "}"])
    end%result.

Definition DumpJsonAtDepth (value : JsonValue) (depth : Z) : Result (list Z) :=
  DumpValue value depth.

Definition Dump (value : JsonValue) : Result (list Z) := DumpJsonAtDepth value 0.

End Json.
Import Json.

(** ** Values, counted and normalised *)

(** Induction on values, through the elements and the members. *)
Lemma json_induction (P : JsonValue -> Prop) :
  P JNull -> (forall b, P (JBoolean b)) -> (forall n, P (JNumber n)) -> (forall s, P (JString s)) ->
  (forall a, Forall P a -> P (JArray a)) -> (forall o, Forall (fun m => P m.2) o -> P (JObject o)) ->
  forall v, P v.
Proof.
  intros H1 H2 H3 H4 H5 H6.
  exact (fix F (v : JsonValue) : P v :=
    match v with
    | JNull => H1 | JBoolean b => H2 b | JNumber n => H3 n | JString s => H4 s
    | JArray a =>
        H5 a ((fix G (l : list JsonValue) : Forall P l :=
                 match l with
                 | [] => Forall_nil_2 P
                 | x :: l' => Forall_cons_2 P x l' (F x) (G l')
                 end) a)
    | JObject o =>
        H6 o ((fix G (l : list (list Z * JsonValue)) : Forall (fun m => P m.2) l :=
                 match l with
                 | [] => Forall_nil_2 _
                 | x :: l' => Forall_cons_2 _ x l' (F x.2) (G l')
                 end) o)
    end).
Qed.

(** The number of values in a value: itself, its elements and its members' values. *)
Fixpoint count (v : JsonValue) : Z :=
  match v with
  | JArray a => 1 + fold_right Z.add 0 (map count a)
  | JObject o => 1 + fold_right Z.add 0 (map (fun m => count m.2) o)
  | _ => 1
  end.

Definition count_all (vs : list JsonValue) : Z := fold_right Z.add 0 (map count vs).

(** A non-negative signed integer is written, and read back, as an unsigned one. *)
Fixpoint normal (v : JsonValue) : JsonValue :=
  match v with
  | JNumber (Int64 n) => JNumber (if n <? 0 then Int64 n else UInt64 n)
  | JArray a => JArray (map normal a)
  | JObject o => JObject (map (fun m => (m.1, normal m.2)) o)
  | _ => v
  end.

(** Keys in strictly increasing order. *)
Fixpoint keys_sorted (ks : list (list Z)) : bool :=
  match ks with
  | [] => true
  | k :: ks' => forallb (bytes_ltb k) ks' && keys_sorted ks'
  end.

(** What the C++ types guarantee: strings of bytes, integers in range, the order of a map. *)
Fixpoint json_wf (v : JsonValue) : bool :=
  match v with
  | JNumber (Int64 n) => (- 2 ^ 63 <=? n) && (n <? 2 ^ 63)
  | JNumber (UInt64 n) => (0 <=? n) && (n <? 2 ^ 64)
  | JString s => bytesb s
  | JArray a => forallb json_wf a
  | JObject o => keys_sorted (map fst o) && forallb (fun m => bytesb m.1 && json_wf m.2) o
  | _ => true
  end.

(** What the writer asks of a value at a depth. *)
Fixpoint printable (depth : Z) (v : JsonValue) : bool :=
  (depth <=? MaximumJsonNestingDepth) &&
  match v with
  | JNumber (Double d) => isfinite d
  | JString s => IsValidUtf8 s
  | JArray a => forallb (printable (depth + 1)) a
  | JObject o => forallb (fun m => IsValidUtf8 m.1) o && forallb (fun m => printable (depth + 1) m.2) o
  | _ => true
  end.

Lemma fold_add_nonneg l : Forall (fun n => 0 <= n) l -> 0 <= fold_right Z.add 0 l.
Proof. induction 1; cbn; lia. Qed.

Lemma count_pos v : 1 <= count v.
Proof.
  induction v as [| | | |a IH|o IH] using json_induction; cbn [count]; try lia.
  - assert (0 <= fold_right Z.add 0 (map count a)); [|lia].
    apply fold_add_nonneg, Forall_map. eapply Forall_impl; [exact IH|]. cbn. intros; lia.
  - assert (0 <= fold_right Z.add 0 (map (fun m => count m.2) o)); [|lia].
    apply fold_add_nonneg, Forall_map. eapply Forall_impl; [exact IH|]. cbn. intros; lia.
Qed.

Lemma count_all_nonneg vs : 0 <= count_all vs.
Proof.
  unfold count_all. apply fold_add_nonneg, Forall_map, Forall_forall. intros v _.
  pose proof (count_pos v). lia.
Qed.

Lemma count_object o : count (JObject o) = 1 + count_all (map snd o).
Proof. cbn [count]. unfold count_all. by rewrite map_map. Qed.

Lemma forallb_True_Forall {A} (f : A -> bool) l : forallb f l = true -> Forall (fun x => f x = true) l.
Proof. rewrite forallb_forall, Forall_forall. intros H x Hx. by apply H, list_elem_of_In. Qed.

(** ** Order of the members *)

Lemma keys_sorted_insert {A} (m : list Z * A) ms :
  forallb (bytes_ltb m.1) (map fst ms) = true -> InsertMember m ms = m :: ms.
Proof.
  destruct ms as [|m' ms]; [done|]. cbn. intros H. apply andb_prop in H as [H _].
  by rewrite (bytes_ltb_antisym _ _ H).
Qed.

Lemma keys_sorted_sort {A} (ms : list (list Z * A)) :
  keys_sorted (map fst ms) = true -> SortMembers ms = ms.
Proof.
  induction ms as [|m ms IH]; [done|]. cbn [map keys_sorted SortMembers].
  rewrite andb_true_iff. intros [H1 H2]. rewrite IH by done. by apply keys_sorted_insert.
Qed.

(** A key above all the others goes last. *)
Lemma emplace_last key value ms :
  forallb (fun k => bytes_ltb k key) (map fst ms) = true ->
  Emplace key value ms = Some (ms ++ [(key, value)]).
Proof.
  induction ms as [|[k v] ms IH]; [done|]. cbn [map forallb fst Emplace].
  rewrite andb_true_iff. intros [H1 H2]. rewrite (bytes_ltb_antisym _ _ H1), H1, IH by done. done.
Qed.

Lemma keys_sorted_app ks1 k ks2 :
  keys_sorted (ks1 ++ k :: ks2) = true -> forallb (fun k' => bytes_ltb k' k) ks1 = true.
Proof.
  induction ks1 as [|k1 ks1 IH]; [done|]. cbn [app keys_sorted forallb].
  rewrite forallb_app, !andb_true_iff. cbn [forallb]. rewrite andb_true_iff. naive_solver.
Qed.

Lemma map_fst_normal o :
  map fst (map (fun m : list Z * JsonValue => (m.1, normal m.2)) o) = map fst o.
Proof. by rewrite map_map. Qed.

(** ** Strings *)

Lemma small_cases (P : Z -> Prop) n :
  Forall P (map Z.of_nat (seq 0 n)) -> forall z, 0 <= z < Z.of_nat n -> P z.
Proof.
  intros H z Hz. rewrite Forall_forall in H. apply H. apply list_elem_of_In, in_map_iff.
  exists (Z.to_nat z). split; [lia|]. apply in_seq. lia.
Qed.

Lemma parse_string_step mText fuel result c rest :
  is_byte c ->
  ParseStringLoop mText (S fuel) result (EscapeByte c ++ rest) =
  ParseStringLoop mText fuel (result ++ [c]) rest.
Proof.
  intros Hc. destruct (Z.lt_ge_cases c 32) as [Hlt|Hge].
  - revert c Hc Hlt.
    assert (forall c, 0 <= c < Z.of_nat 32 ->
      ParseStringLoop mText (S fuel) result (EscapeByte c ++ rest) =
      ParseStringLoop mText fuel (result ++ [c]) rest) as H.
    { apply (small_cases (fun c => ParseStringLoop mText (S fuel) result (EscapeByte c ++ rest) =
        ParseStringLoop mText fuel (result ++ [c]) rest)).
      repeat (constructor; [reflexivity|]). constructor. }
    intros c Hc Hlt. apply H. unfold is_byte in Hc. lia.
  - destruct (Z.eq_dec c 34) as [->|H1]; [reflexivity|].
    destruct (Z.eq_dec c 92) as [->|H2]; [reflexivity|].
    assert (EscapeByte c = [c]) as ->.
    { unfold EscapeByte. repeat (case_if; [lia|]). done. }
    cbn [app ParseStringLoop]. replace (c =? 34) with false by lia.
    replace (c <? 32) with false by lia. by replace (c =? 92) with false by lia.
Qed.

Lemma escape_byte_nonempty c : (1 <= length (EscapeByte c))%nat.
Proof. unfold EscapeByte. case_ifs; cbn; lia. Qed.

Lemma parse_string_loop_dump mText fuel s result rest :
  is_bytes s -> (length s < fuel)%nat ->
  ParseStringLoop mText fuel result (concat (map EscapeByte s) ++ 34 :: rest)
  = Return (result ++ s, rest).
Proof.
  intros Hs. revert fuel result; induction Hs as [|c s Hc Hs IH]; intros fuel result Hf.
  - destruct fuel as [|fuel]; [lia|]. cbn. by rewrite app_nil_r.
  - destruct fuel as [|fuel]; [cbn in Hf; lia|]. cbn [map concat]. rewrite <- app_assoc.
    rewrite parse_string_step by done. cbn [length] in Hf. rewrite IH by lia.
    by rewrite <- app_assoc.
Qed.

Lemma escape_length s : (length s <= length (concat (map EscapeByte s)))%nat.
Proof.
  induction s as [|c s IH]; [done|]. cbn [map concat length]. rewrite length_app.
  pose proof (escape_byte_nonempty c). lia.
Qed.

Lemma parse_string_dump mText s rest :
  is_bytes s -> ParseString mText (DumpEscapedString s ++ rest) = Return (s, rest).
Proof.
  intros Hs. unfold DumpEscapedString, ParseString. cbn [app Consume]. rewrite Z.eqb_refl.
  rewrite <- app_assoc. change ([34] ++ rest) with (34 :: rest).
  rewrite (parse_string_loop_dump mText _ s []); [done|done|].
  rewrite length_app. pose proof (escape_length s). cbn [length]. lia.
Qed.

(** ** Numbers *)

(** What may follow a value that the writer wrote. *)
Definition follows (rest : list Z) : bool :=
  match rest with
  | [] => true
  | c :: _ => (c =? char_code ",") || (c =? char_code "]") || (c =? char_code "}")
  end.

Lemma follows_no_digit rest : follows rest = true -> no_digit rest = true.
Proof.
  destruct rest as [|c rest]; [done|]. cbn. unfold isdigit. eval_chars. lia.
Qed.

Lemma no_digit_next rest : no_digit rest = negb (NextIsDigit rest).
Proof. by destruct rest. Qed.

Lemma skip_digits_app ds rest :
  all_digits ds -> no_digit rest = true -> SkipDigits (ds ++ rest) = rest.
Proof. intros H1 H2. unfold SkipDigits. by rewrite span_digits_app. Qed.

Lemma next_is_digit_app ds rest :
  ds <> [] -> all_digits ds -> NextIsDigit (ds ++ rest) = true.
Proof. destruct ds as [|c ds]; [done|]. intros _ H. by apply Forall_cons in H as [H _]. Qed.

Lemma scan_integer_text mText ip rest :
  integer_part ip -> no_digit rest = true -> ScanInteger mText (ip ++ rest) = Return rest.
Proof.
  intros (c & cs & -> & Hd & Hz) Hr. unfold ScanInteger. cbn [app Consume].
  destruct (c =? char_code "0") eqn:E.
  - rewrite Hz by (eval_chars; lia). cbn [app]. rewrite no_digit_next in Hr.
    by destruct (NextIsDigit rest).
  - pose proof Hd as Hd'. apply Forall_cons in Hd as [Hc _]. apply isdigit_spec in Hc. eval_chars.
    case_if; [lia|]. by rewrite app_comm_cons, skip_digits_app.
Qed.

Lemma scan_fraction_text mText fp rest :
  all_digits fp -> no_digit rest = true -> hd 0 rest <> char_code "." ->
  ScanFraction mText (fraction_text fp ++ rest) = Return rest.
Proof.
  intros Hd Hr Hp. unfold ScanFraction. destruct fp as [|c fp].
  - cbn. destruct rest as [|x rest]; [done|]. cbn in *.
    by replace (x =? char_code ".") with false by lia.
  - cbn [fraction_text app Consume]. rewrite Z.eqb_refl, app_comm_cons.
    by rewrite next_is_digit_app, skip_digits_app.
Qed.

Lemma scan_exponent_text mText ex rest :
  exponent_part ex -> follows rest = true -> ScanExponent mText (ex ++ rest) = Return rest.
Proof.
  intros [->|(e & s & ds & -> & He & Hs & Hne & Hd)] Hr.
  - cbn [app]. destruct rest as [|c rest]; [done|]. cbn in *. eval_chars. by case_if; [lia|].
  - pose proof (follows_no_digit rest Hr) as Hn. unfold ScanExponent. cbn [app].
    assert ((e =? char_code "e") || (e =? char_code "E") = true) as -> by (eval_chars; lia).
    assert (match (s ++ ds) ++ rest with
            | c :: rest'' => if (c =? char_code "+") || (c =? char_code "-") then rest''
                             else (s ++ ds) ++ rest
            | [] => (s ++ ds) ++ rest
            end = ds ++ rest) as ->.
    { destruct Hs as [->|[->| ->]]; [|done..]. destruct ds as [|d ds]; [done|].
      apply Forall_cons in Hd as [Hd _]. apply isdigit_spec in Hd. cbn. eval_chars.
      by case_if; [lia|]. }
    by rewrite next_is_digit_app, skip_digits_app.
Qed.

Lemma exponent_head ex rest c :
  exponent_part ex -> follows rest = true -> hd 0 (ex ++ rest) = c ->
  c = 0 \/ c = char_code "e" \/ c = char_code "E" \/ c = char_code "," \/ c = char_code "]"
  \/ c = char_code "}".
Proof.
  intros [->|(e & s & ds & -> & He & _)] Hr <-; [|cbn; naive_solver].
  destruct rest as [|c rest]; [by left|]. cbn in *. lia.
Qed.

Lemma exponent_no_digit ex rest :
  exponent_part ex -> follows rest = true -> no_digit (ex ++ rest) = true.
Proof.
  intros He Hr. pose proof (exponent_head ex rest _ He Hr eq_refl) as H.
  destruct (ex ++ rest) as [|c l]; [done|]. cbn in *. unfold isdigit. eval_chars. lia.
Qed.

Lemma fraction_no_digit fp rest :
  no_digit rest = true -> no_digit (fraction_text fp ++ rest) = true.
Proof. intros H. by destruct fp. Qed.

(** The scan of the parser takes exactly a text of the number grammar. *)
Lemma parse_number_text mText text rest :
  number_text text -> follows rest = true ->
  ParseNumber mText (text ++ rest) = (do v <- ConvertNumber mText text rest; Return (v, rest))%outcome.
Proof.
  intros (negative & ip & fp & ex & Et & Hip & Hfp & Hex) Hr. unfold ParseNumber.
  assert (match Consume (char_code "-") (text ++ rest) with
          | Some rest => rest | None => text ++ rest end
          = ip ++ fraction_text fp ++ ex ++ rest) as ->.
  { rewrite Et. destruct Hip as (c & cs & -> & Hd & _). destruct negative.
    - cbn. by rewrite <- !app_assoc.
    - cbn. apply Forall_cons in Hd as [Hd _]. apply isdigit_spec in Hd. eval_chars.
      replace (c =? 45) with false by lia. by rewrite <- !app_assoc. }
  rewrite scan_integer_text by eauto using fraction_no_digit, exponent_no_digit. cbn [obind].
  rewrite scan_fraction_text; [|done|by apply exponent_no_digit|].
  2: { intros H. destruct (exponent_head ex rest _ Hex Hr H) as [H'|[H'|[H'|[H'|[H'|H']]]]];
       by vm_compute in H'. }
  cbn [obind]. rewrite scan_exponent_text by done. cbn [obind].
  replace (length (text ++ rest) - length rest)%nat with (length text) by (rewrite length_app; lia).
  by rewrite take_app_length.
Qed.

Lemma all_digits_no_mark ds : all_digits ds -> HasFractionOrExponent ds = false.
Proof.
  induction 1 as [|c ds Hc _ IH]; [done|]. unfold HasFractionOrExponent in *. cbn [existsb].
  rewrite IH. apply isdigit_spec in Hc. eval_chars. lia.
Qed.

Lemma has_mark_app a b :
  HasFractionOrExponent (a ++ b) = HasFractionOrExponent a || HasFractionOrExponent b.
Proof. unfold HasFractionOrExponent. apply existsb_app. Qed.

(** A text without point and exponent is an integer part with a sign. *)
Lemma number_text_integer text :
  number_text text -> HasFractionOrExponent text = false ->
  exists negative ip, text = sign_text negative ++ ip /\ integer_part ip.
Proof.
  intros (negative & ip & fp & ex & -> & Hip & Hfp & Hex) H.
  rewrite !has_mark_app, !orb_false_iff in H. destruct H as (_ & _ & H1 & H2).
  exists negative, ip. split; [|done]. destruct fp as [|c fp]; [|done].
  destruct Hex as [->|(e & s & ds & -> & He & _)]; [by rewrite !app_nil_r|].
  unfold HasFractionOrExponent in H2. cbn in H2. destruct He as [-> | ->]; done.
Qed.

(** Reading back the text of an integer. *)
Lemma convert_unsigned mText n rest :
  0 <= n < 2 ^ 64 -> ConvertNumber mText (Digits n) rest = Return (JNumber (UInt64 n)).
Proof.
  intros Hn. unfold ConvertNumber. pose proof (digits_all n ltac:(lia)) as Hd.
  rewrite all_digits_no_mark by done. rewrite from_chars_digits_unsigned by done.
  destruct (digits_spec n ltac:(lia)) as (c & cs & E & Ha & _). rewrite E. cbn [hd].
  apply Forall_cons in Ha as [Hc _]. apply isdigit_spec in Hc. eval_chars.
  by replace (c =? 45) with false by lia.
Qed.

Lemma convert_signed mText n rest :
  0 < n <= 2 ^ 63 ->
  ConvertNumber mText (char_code "-" :: Digits n) rest = Return (JNumber (Int64 (- n))).
Proof.
  intros Hn. unfold ConvertNumber. pose proof (digits_all n ltac:(lia)) as Hd.
  change (char_code "-" :: Digits n) with ([char_code "-"] ++ Digits n).
  rewrite has_mark_app, (all_digits_no_mark (Digits n)) by done. change (HasFractionOrExponent _) with false.
  cbn [orb app hd]. rewrite Z.eqb_refl.
  destruct (bytes_eqb _ _) eqn:E; [|by rewrite from_chars_digits_negative].
  apply bytes_eqb_eq in E. injection E as E. pose proof (digits_value_digits n ltac:(lia)) as Hv.
  rewrite E in Hv. cbn in Hv. lia.
Qed.

Lemma double_text_back d text :
  DumpDouble d = FromValue text ->
  number_text text /\ HasFractionOrExponent text = true /\
  from_chars_double text = (errc_ok, [], d) /\ isfinite d = true.
Proof.
  unfold DumpDouble. intros H. destruct (isfinite d) eqn:Ef; [|done]. cbn [negb] in H.
  destruct (to_chars_double 32 d) as [t|] eqn:E; [|done]. injection H as <-.
  destruct (to_chars_double_spec 32 d t Ef E) as [Ht Hb].
  destruct (HasFractionOrExponent t) eqn:Em; [by rewrite app_nil_r|].
  destruct (number_text_integer t Ht Em) as (negative & ip & -> & Hip).
  rewrite <- app_assoc. split; [|split; [|split; [|done]]].
  - exists negative, ip, [char_code "0"], []. split; [by rewrite app_nil_r|].
    split; [done|]. split; [by repeat constructor|by left].
  - rewrite !has_mark_app. change (HasFractionOrExponent (txt ".0")) with true. by rewrite !orb_true_r.
  - by apply from_chars_double_point_zero.
Qed.

Lemma convert_double mText d text rest :
  DumpDouble d = FromValue text -> ConvertNumber mText text rest = Return (JNumber (Double d)).
Proof.
  intros H. destruct (double_text_back d text H) as (_ & Hm & Hb & Hf).
  unfold ConvertNumber. rewrite Hm. unfold ConvertDouble. by rewrite Hb, Hf.
Qed.

(** The first character of a number. *)
Definition number_start (c : Z) : bool :=
  (c =? char_code "-") || ((char_code "0" <=? c) && (c <=? char_code "9")).

Lemma number_text_start text :
  number_text text -> exists c text', text = c :: text' /\ number_start c = true.
Proof.
  intros (negative & ip & fp & ex & -> & (c & cs & -> & Hd & _) & _).
  apply Forall_cons in Hd as [Hd _]. destruct negative; cbn; [eauto|].
  eexists _, _. split; [done|]. unfold number_start, isdigit in *. by rewrite Hd, orb_true_r.
Qed.

(** ** Writing and reading back *)

(** The first character of a value. *)
Definition value_start (c : Z) : bool :=
  number_start c || (c =? 34) || (c =? char_code "n") || (c =? char_code "t") ||
  (c =? char_code "f") || (c =? char_code "[") || (c =? char_code "{").

Lemma value_start_not_space c : value_start c = true -> IsSpace c = false.
Proof. unfold value_start, number_start, IsSpace. eval_chars. lia. Qed.

Lemma skip_whitespace_start c rest :
  IsSpace c = false -> SkipWhitespace (c :: rest) = c :: rest.
Proof. intros H. cbn. by rewrite H. Qed.

Lemma dump_integer_text message n text :
  - 2 ^ 63 <= n < 2 ^ 64 -> DumpInteger message n = FromValue text ->
  text = if n <? 0 then char_code "-" :: Digits (- n) else Digits n.
Proof.
  intros Hn. unfold DumpInteger. rewrite to_chars_integer_fits by done. by intros [= <-].
Qed.

Lemma integer_number_text n :
  number_text (if n <? 0 then char_code "-" :: Digits (- n) else Digits n).
Proof.
  exists (n <? 0), (Digits (Z.abs n)), [], []. split; [|split; [|split; [constructor|by left]]].
  - rewrite !app_nil_r. destruct (n <? 0) eqn:E; cbn; [|by rewrite Z.abs_eq by lia].
    by rewrite Z.abs_neq by lia.
  - apply integer_part_digits. lia.
Qed.

(** The text of a number value, of each kind. *)
Lemma dump_number_text n depth text :
  json_wf (JNumber n) = true -> DumpValue (JNumber n) depth = FromValue text ->
  number_text text /\
  forall mText rest, ConvertNumber mText text rest = Return (normal (JNumber n)).
Proof.
  intros Hw H. cbn [DumpValue] in H. case_if_in H; [done|].
  destruct n as [n|n|d]; cbn [json_wf normal] in *.
  - apply (dump_integer_text _ n text) in H as ->; [|eval_pow; lia].
    split; [apply integer_number_text|]. intros mText rest. destruct (n <? 0) eqn:En.
    + rewrite convert_signed by (eval_pow; lia). by rewrite Z.opp_involutive.
    + rewrite convert_unsigned by (eval_pow; lia). done.
  - apply (dump_integer_text _ n text) in H as ->; [|eval_pow; lia].
    split; [apply integer_number_text|]. intros mText rest.
    replace (n <? 0) with false by lia. rewrite convert_unsigned by (eval_pow; lia). done.
  - split; [by apply (double_text_back d text H)|]. intros. by apply convert_double.
Qed.

Lemma dump_start v depth text :
  json_wf v = true -> DumpValue v depth = FromValue text ->
  exists c text', text = c :: text' /\ value_start c = true.
Proof.
  intros Hw H. destruct v as [|b|n|s|a|o].
  - cbn in H. case_if_in H; [done|]. injection H as <-. eauto.
  - cbn in H. case_if_in H; [done|]. injection H as <-. destruct b; cbn; eauto.
  - destruct (dump_number_text n depth text Hw H) as [Ht _].
    destruct (number_text_start text Ht) as (c & t & -> & Hc). eexists _, _. split; [done|].
    unfold value_start. by rewrite Hc.
  - cbn [DumpValue] in H. case_if_in H; [done|]. case_if_in H; [done|]. injection H as <-.
    unfold DumpEscapedString. cbn. eauto.
  - cbn [DumpValue] in H. case_if_in H; [done|]. apply result_bind_value in H as (t & _ & H).
    injection H as <-. cbn. eauto.
  - cbn [DumpValue] in H. case_if_in H; [done|]. case_if_in H; [done|].
    apply result_bind_value in H as (t & _ & H). injection H as <-. cbn. eauto.
Qed.

(** [n] values under the limit, or the exception. *)
Definition within {A} (n remaining : Z) (o : Outcome A) : Outcome A :=
  if n <=? remaining then o else Throw JsonValueLimitExceeded.

(** [text] starts like a value and reads, at [depth], as [v] made normal. *)
Definition reads (depth : Z) (v : JsonValue) (text : list Z) : Prop :=
  (exists c text', text = c :: text' /\ value_start c = true) /\
  forall mText fuel rest remaining,
    follows rest = true -> 0 <= remaining -> (2 * length text < fuel)%nat ->
    ParseValue mText fuel depth (MkParser (text ++ rest) remaining) =
    within (count v) remaining (Return (normal v, MkParser rest (remaining - count v))).

(** Pieces with a separator between them. *)
Fixpoint joined (sep : list Z) (first : bool) (ts : list (list Z)) : list Z :=
  match ts with
  | [] => []
  | t :: ts' => (if first then [] else sep) ++ t ++ joined sep false ts'
  end.

Definition blank (ws : list Z) : bool := forallb IsSpace ws.

Lemma skip_blank ws rest : blank ws = true -> SkipWhitespace (ws ++ rest) = SkipWhitespace rest.
Proof.
  induction ws as [|c ws IH]; [done|]. cbn. rewrite andb_true_iff. intros [-> H]. by apply IH.
Qed.

Lemma reads_skip depth v text rest :
  reads depth v text -> SkipWhitespace (text ++ rest) = text ++ rest.
Proof.
  intros [(c & t & -> & Hc) _]. cbn [app]. apply skip_whitespace_start. by apply value_start_not_space.
Qed.

Lemma joined_cons sep t ts :
  joined sep true (t :: ts) = t ++ match ts with [] => [] | _ => sep ++ joined sep true ts end.
Proof. cbn [joined]. rewrite app_nil_l. by destruct ts. Qed.

(** The elements of an array, with any white space after the commas. *)
Lemma parse_array_joined mText depth ws ts vs :
  blank ws = true -> Forall2 (reads depth) vs ts -> vs <> [] ->
  forall fuel result rest remaining, 0 <= remaining ->
  (2 * length (joined (char_code "," :: ws) true ts) + 1 < fuel)%nat ->
  ParseArray mText fuel depth result
    (MkParser (joined (char_code "," :: ws) true ts ++ char_code "]" :: rest) remaining) =
  within (count_all vs) remaining
    (Return (JArray (result ++ map normal vs), MkParser rest (remaining - count_all vs))).
Proof.
  intros Hws H. induction H as [|v t vs ts Hv H IH]; [done|].
  intros _ fuel result rest remaining Hr Hf. rewrite joined_cons in *.
  destruct fuel as [|fuel]; [lia|]. cbn [ParseArray].
  rewrite length_app in Hf. rewrite <- app_assoc.
  change (count_all (v :: vs)) with (count v + count_all vs).
  pose proof (count_pos v). pose proof (count_all_nonneg vs).
  destruct Hv as [_ Hv]. rewrite Hv; [|by destruct H|done|lia].
  unfold within. destruct (count v <=? remaining) eqn:Ec; cbn [obind mRest mRemainingValues].
  2: { replace (count v + count_all vs <=? remaining) with false by lia. done. }
  destruct H as [|v2 t2 vs ts Hv2 H].
  - cbn [app SkipWhitespace Consume]. change (IsSpace (char_code "]")) with false. cbn iota.
    cbn [Consume]. rewrite Z.eqb_refl. change (count_all []) with 0. rewrite Z.add_0_r, Ec. done.
  - cbn [app]. rewrite skip_whitespace_start by done. cbn [Consume]. rewrite Z.eqb_refl.
    change (char_code "," =? char_code "]") with false. cbn iota.
    rewrite <- app_assoc, skip_blank by done. rewrite joined_cons at 1. rewrite <- app_assoc.
    rewrite (reads_skip depth v2) by done. rewrite app_assoc, <- joined_cons.
    rewrite IH; [|done|lia|cbn [app length] in *; rewrite length_app in Hf; lia].
    unfold within. rewrite <- app_assoc. cbn [map app].
    set (n := count_all (v2 :: vs)) in *.
    replace (n <=? remaining - count v) with (count v + n <=? remaining) by lia.
    case_if; [|done]. do 3 f_equal. lia.
Qed.

(** The text of a member, with white space after the colon. *)
Definition member_text (ws : list Z) (k t : list Z) : list Z :=
  DumpEscapedString k ++ char_code ":" :: ws ++ t.

Definition member_texts (ws : list Z) (ms : Object) (ts : list (list Z)) : list (list Z) :=
  zip_with (fun m t => member_text ws m.1 t) ms ts.

(** What the members leave recorded of the body. *)
Fixpoint record_bodies (top : option TopLevelMembers) (ms : Object) (ts : list (list Z))
    : option TopLevelMembers :=
  match ms, ts with
  | m :: ms', t :: ts' => record_bodies (RecordBody m.1 (len t) top) ms' ts'
  | _, _ => top
  end.

Definition normal_members (o : Object) : Object := map (fun m => (m.1, normal m.2)) o.

Definition member_reads (depth : Z) (m : list Z * JsonValue) (t : list Z) : Prop :=
  is_bytes m.1 /\ reads depth m.2 t.

Lemma member_text_skip ws k t rest :
  SkipWhitespace (member_text ws k t ++ rest) = member_text ws k t ++ rest.
Proof. by apply skip_whitespace_start. Qed.

(** One member: the key, the colon and the value. *)
Lemma parse_member mText depth ws k v t rest :
  blank ws = true -> is_bytes k -> reads depth v t ->
  ParseString mText (member_text ws k t ++ rest) = Return (k, char_code ":" :: ws ++ t ++ rest) /\
  Consume (char_code ":") (SkipWhitespace (char_code ":" :: ws ++ t ++ rest)) = Some (ws ++ t ++ rest)
  /\ SkipWhitespace (ws ++ t ++ rest) = t ++ rest.
Proof.
  intros Hws Hk Hv. split; [|split].
  - unfold member_text. rewrite <- app_assoc, parse_string_dump by done. cbn [app].
    by rewrite <- app_assoc.
  - done.
  - rewrite skip_blank by done. by apply (reads_skip depth v).
Qed.

Lemma parse_members_joined mText depth ws1 ws2 ms ts :
  blank ws1 = true -> blank ws2 = true -> Forall2 (member_reads depth) ms ts -> ms <> [] ->
  forall fuel top result rest remaining, 0 <= remaining ->
  keys_sorted (map fst result ++ map fst ms) = true ->
  (2 * length (joined (char_code "," :: ws1) true (member_texts ws2 ms ts)) + 1 < fuel)%nat ->
  ParseObjectMembers mText fuel depth top result
    (MkParser (joined (char_code "," :: ws1) true (member_texts ws2 ms ts) ++ char_code "}" :: rest)
       remaining) =
  within (count_all (map snd ms)) remaining
    (Return (result ++ normal_members ms, record_bodies top ms ts,
             MkParser rest (remaining - count_all (map snd ms)))).
Proof.
  intros Hw1 Hw2 H. induction H as [|[k v] t ms ts [Hk Hv] H IH]; [done|].
  intros _ fuel top result rest remaining Hr Hs Hf. cbn [fst snd] in *.
  change (member_texts ws2 ((k, v) :: ms) (t :: ts))
    with (member_text ws2 k t :: member_texts ws2 ms ts) in *.
  rewrite joined_cons in *. destruct fuel as [|fuel]; [lia|]. cbn [ParseObjectMembers mRest].
  rewrite length_app in Hf. rewrite <- app_assoc. set (tail := _ ++ char_code "}" :: rest).
  change (count_all (map snd ((k, v) :: ms))) with (count v + count_all (map snd ms)).
  pose proof (count_pos v). pose proof (count_all_nonneg (map snd ms)).
  destruct (parse_member mText depth ws2 k v t tail Hw2 Hk Hv) as (E1 & E2 & E3).
  replace (match member_text ws2 k t ++ tail with c :: _ => c =? 34 | [] => false end) with true
    by done. cbn [negb]. rewrite E1. cbn [obind]. rewrite E2, E3. cbn [mRemainingValues].
  assert (2 * length t < fuel)%nat as Hft.
  { unfold member_text in Hf. rewrite length_app in Hf. cbn [length] in Hf.
    rewrite length_app in Hf. lia. }
  assert (follows tail = true) as Hft' by (unfold tail; by destruct H).
  rewrite (proj2 Hv); [|done|done|done].
  unfold within. destruct (count v <=? remaining) eqn:Ec; cbn [obind mRest mRemainingValues].
  2: { replace (count v + count_all (map snd ms) <=? remaining) with false by lia. done. }
  rewrite emplace_last by (by eapply keys_sorted_app).
  replace (len (t ++ tail) - len tail) with (len t) by (rewrite len_app; lia).
  unfold tail. destruct H as [|[k2 v2] t2 ms ts [Hk2 Hv2] H].
  - change (member_texts ws2 [] []) with (@nil (list Z)). cbn [app].
    rewrite skip_whitespace_start by done. cbn [Consume]. rewrite Z.eqb_refl.
    change (count_all (map snd [])) with 0. rewrite Z.add_0_r, Ec. done.
  - change (member_texts ws2 ((k2, v2) :: ms) (t2 :: ts))
      with (member_text ws2 k2 t2 :: member_texts ws2 ms ts) in *.
    cbn [app]. rewrite skip_whitespace_start by done. cbn [Consume]. rewrite Z.eqb_refl.
    change (char_code "," =? char_code "}") with false. cbn iota.
    rewrite <- app_assoc, skip_blank by done. rewrite joined_cons at 1. rewrite <- app_assoc.
    rewrite member_text_skip. rewrite app_assoc, <- joined_cons.
    rewrite IH; [|done|lia| |cbn [app length] in *; rewrite length_app in Hf; lia].
    2: { by rewrite map_app, <- app_assoc. }
    unfold within. rewrite <- app_assoc. cbn [normal_members map app fst snd].
    set (n := count_all _) in *.
    replace (n <=? remaining - count v) with (count v + n <=? remaining) by lia.
    case_if; [|done]. cbn [record_bodies fst]. do 3 f_equal. lia.
Qed.

Lemma dump_elements_inv first rs text :
  DumpElements first rs = FromValue text ->
  exists ts, Forall2 (fun r t => r = FromValue t) rs ts /\ text = joined (txt ", ") first ts.
Proof.
  revert first text; induction rs as [|r rs IH]; intros first text H; cbn [DumpElements] in H.
  - injection H as <-. by exists [].
  - apply result_bind_value in H as (t & -> & H). apply result_bind_value in H as (t' & H & E).
    injection E as <-. destruct (IH _ _ H) as (ts & Hts & ->). exists (t :: ts).
    split; [by constructor|done].
Qed.

Lemma dump_members_inv (f : JsonValue -> Result (list Z)) first ms text :
  DumpMembers first (map (fun m => (m.1, f m.2)) ms) = FromValue text ->
  exists ts, Forall2 (fun m t => f m.2 = FromValue t) ms ts /\
    text = joined (txt ", ") first (member_texts [32] ms ts).
Proof.
  revert first text; induction ms as [|[k v] ms IH]; intros first text H; cbn [map DumpMembers] in H.
  - injection H as <-. by exists [].
  - cbn [fst snd] in H. apply result_bind_value in H as (t & Ht & H).
    apply result_bind_value in H as (t' & H & E).
    assert (forall x y : list Z, FromValue x = FromValue y -> x = y) as Hinj by congruence.
    apply Hinj in E as <-. destruct (IH _ _ H) as (ts & Hts & ->). exists (t :: ts).
    split; [by constructor|].
    change (member_texts [32] ((k, v) :: ms) (t :: ts))
      with (member_text [32] k t :: member_texts [32] ms ts).
    cbn [joined]. unfold member_text at 1. f_equal. by rewrite <- app_assoc.
Qed.

(** Evaluate the comparisons of two characters. *)
Ltac eval_eqb :=
  repeat match goal with
  | |- context [char_code ?a =? ?b] =>
      let v := eval vm_compute in (char_code a =? b) in
      lazymatch v with true => idtac | false => idtac end;
      change (char_code a =? b) with v
  end; cbn iota.

(** An array and an object read as such, with any white space after the commas and the colons. *)
Lemma reads_array depth ws vs ts :
  depth <= 256 -> blank ws = true -> Forall2 (reads (depth + 1)) vs ts ->
  reads depth (JArray vs) ([char_code "["] ++ joined (char_code "," :: ws) true ts ++ [char_code "]"]).
Proof.
  intros Hd Hws H. split; [eexists _, _; done|]. intros mText fuel rest remaining Hf Hr Hfuel.
  destruct fuel as [|fuel]; [lia|]. cbn [app length] in Hfuel. rewrite length_app in Hfuel.
  cbn [app]. rewrite <- app_assoc. cbn [app]. cbn [ParseValue mRest mRemainingValues].
  replace (MaximumJsonNestingDepth <? depth) with false by (unfold MaximumJsonNestingDepth; lia).
  cbn [count normal]. change (fold_right Z.add 0 (map count vs)) with (count_all vs).
  pose proof (count_all_nonneg vs). unfold within. destruct (remaining =? 0) eqn:E0.
  { by replace (1 + count_all vs <=? remaining) with false by lia. }
  eval_eqb. destruct H as [|v t vs ts Hvt Hts].
  - cbn [joined app]. rewrite skip_whitespace_start by done. cbn [Consume]. rewrite Z.eqb_refl.
    change (count_all []) with 0. replace (1 + 0 <=? remaining) with true by lia. done.
  - assert (SkipWhitespace (joined (char_code "," :: ws) true (t :: ts) ++ char_code "]" :: rest) =
            joined (char_code "," :: ws) true (t :: ts) ++ char_code "]" :: rest) as ->.
    { rewrite joined_cons, <- app_assoc. by apply (reads_skip (depth + 1) v). }
    replace (Consume (char_code "]") _) with (@None (list Z)).
    2: { destruct Hvt as [(c & t' & -> & Hc) _]. cbn. unfold value_start, number_start in Hc.
         eval_chars. by replace (c =? 93) with false by lia. }
    rewrite (parse_array_joined mText (depth + 1) ws (t :: ts) (v :: vs));
      [|done|by constructor|done|lia|cbn [length] in Hfuel; lia].
    unfold within. set (n := count_all _).
    replace (n <=? remaining - 1) with (1 + n <=? remaining) by lia.
    case_if; [|done]. cbn [app]. do 3 f_equal. lia.
Qed.

Lemma reads_object depth ws1 ws2 ms ts :
  depth <= 256 -> blank ws1 = true -> blank ws2 = true ->
  keys_sorted (map fst ms) = true -> Forall2 (member_reads (depth + 1)) ms ts ->
  reads depth (JObject ms)
    ([char_code "{"] ++ joined (char_code "," :: ws1) true (member_texts ws2 ms ts)
     ++ [char_code "}"]).
Proof.
  intros Hd Hw1 Hw2 Hs H. split; [eexists _, _; done|]. intros mText fuel rest remaining Hf Hr Hfuel.
  destruct fuel as [|fuel]; [lia|]. cbn [app length] in Hfuel. rewrite length_app in Hfuel.
  cbn [app]. rewrite <- app_assoc. cbn [app]. cbn [ParseValue mRest mRemainingValues].
  replace (MaximumJsonNestingDepth <? depth) with false by (unfold MaximumJsonNestingDepth; lia).
  rewrite count_object. cbn [normal]. pose proof (count_all_nonneg (map snd ms)).
  unfold within. destruct (remaining =? 0) eqn:E0.
  { by replace (1 + count_all (map snd ms) <=? remaining) with false by lia. }
  eval_eqb. destruct H as [|[k v] t ms ts Hm Hts].
  - change (member_texts ws2 [] []) with (@nil (list Z)). cbn [joined app].
    rewrite skip_whitespace_start by done. cbn [Consume]. rewrite Z.eqb_refl.
    change (count_all (map snd [])) with 0. replace (1 + 0 <=? remaining) with true by lia. done.
  - replace (SkipWhitespace _) with
      (joined (char_code "," :: ws1) true (member_texts ws2 ((k, v) :: ms) (t :: ts))
       ++ char_code "}" :: rest) by done.
    replace (Consume (char_code "}") _) with (@None (list Z)) by done.
    rewrite (parse_members_joined mText (depth + 1) ws1 ws2 ((k, v) :: ms) (t :: ts));
      [|done|done|by constructor|done|lia|done|cbn [length] in Hfuel; lia].
    unfold within. set (n := count_all _).
    replace (n <=? remaining - 1) with (1 + n <=? remaining) by lia.
    case_if; [|done]. cbn [obind app]. do 3 f_equal. lia.
Qed.

Lemma follows_start c rest : follows (c :: rest) = true -> value_start c = false.
Proof. cbn. unfold value_start, number_start. eval_chars. lia. Qed.

Lemma reads_number depth n text :
  depth <= 256 -> json_wf (JNumber n) = true -> DumpValue (JNumber n) depth = FromValue text ->
  reads depth (JNumber n) text.
Proof.
  intros Hd Hw H. split; [by eapply dump_start|]. intros mText fuel rest remaining Hf Hr Hfuel.
  destruct (dump_number_text n depth text Hw H) as [Ht Hc].
  pose proof (parse_number_text mText text rest Ht Hf) as Hp. rewrite Hc in Hp.
  destruct (number_text_start text Ht) as (c & t & -> & Hstart).
  destruct fuel as [|fuel]; [cbn in Hfuel; lia|]. cbn [app] in *.
  cbn [ParseValue mRest mRemainingValues].
  replace (MaximumJsonNestingDepth <? depth) with false by (unfold MaximumJsonNestingDepth; lia).
  change (count (JNumber n)) with 1. unfold within. destruct (remaining =? 0) eqn:E0.
  { by replace (1 <=? remaining) with false by lia. }
  replace (1 <=? remaining) with true by lia.
  change ((c =? char_code "-") || ((char_code "0" <=? c) && (c <=? char_code "9")))
    with (number_start c). rewrite Hstart, Hp. unfold number_start in Hstart. eval_chars.
  replace (c =? 110) with false by lia. replace (c =? 116) with false by lia.
  replace (c =? 102) with false by lia. replace (c =? 34) with false by lia.
  replace (c =? 91) with false by lia. replace (c =? 123) with false by lia. done.
Qed.

Lemma reads_string depth s :
  depth <= 256 -> is_bytes s -> reads depth (JString s) (DumpEscapedString s).
Proof.
  intros Hd Hs. split; [eexists _, _; done|]. intros mText fuel rest remaining Hf Hr Hfuel.
  pose proof (parse_string_dump mText s rest Hs) as Hp.
  destruct fuel as [|fuel]; [lia|].
  change (DumpEscapedString s ++ rest) with (34 :: (concat (map EscapeByte s) ++ [34]) ++ rest) in *.
  cbn [ParseValue mRest mRemainingValues].
  replace (MaximumJsonNestingDepth <? depth) with false by (unfold MaximumJsonNestingDepth; lia).
  change (count (JString s)) with 1. unfold within. destruct (remaining =? 0) eqn:E0.
  { by replace (1 <=? remaining) with false by lia. }
  replace (1 <=? remaining) with true by lia. cbn iota. eval_chars.
  change (34 =? 110) with false. change (34 =? 116) with false. change (34 =? 102) with false.
  rewrite Z.eqb_refl. cbn iota. by rewrite Hp.
Qed.

(** A word: it is read whatever follows. *)
Lemma reads_literal depth v :
  depth <= 256 -> normal v = v -> count v = 1 -> json_wf v = true ->
  v = JNull \/ v = JBoolean true \/ v = JBoolean false ->
  forall text, DumpValue v depth = FromValue text -> reads depth v text.
Proof.
  intros Hd Hn Hc Hw Hv text H. split; [by eapply dump_start|].
  intros mText fuel rest remaining Hf Hr Hfuel. unfold within. rewrite Hn, Hc.
  assert (MaximumJsonNestingDepth <? depth = false) as E by (unfold MaximumJsonNestingDepth; lia).
  destruct fuel as [|fuel]; [lia|].
  destruct Hv as [->|[->| ->]]; cbn [DumpValue] in H; rewrite E in H; injection H as <-;
    cbn [app ParseValue mRest mRemainingValues]; rewrite E; unfold within;
    (destruct (remaining =? 0) eqn:E0; [by replace (1 <=? remaining) with false by lia|]);
    replace (1 <=? remaining) with true by lia; eval_eqb; done.
Qed.

(** The texts of the elements, and of the members, read when each value's does. *)
Lemma elements_read (P : JsonValue -> Prop) depth vs ts :
  Forall P vs -> (forall v t, P v -> DumpValue v depth = FromValue t -> reads depth v t) ->
  Forall2 (fun r t => r = FromValue t) (map (fun v => DumpValue v depth) vs) ts ->
  Forall2 (reads depth) vs ts.
Proof.
  intros HP H Hts. apply Forall2_fmap_l in Hts.
  induction Hts as [|v t vs ts Ht Hts IH]; [constructor|].
  apply Forall_cons in HP as [Hv HP]. constructor; auto.
Qed.

Lemma members_read (P : list Z * JsonValue -> Prop) depth ms ts :
  Forall P ms ->
  (forall m t, P m -> DumpValue m.2 depth = FromValue t -> member_reads depth m t) ->
  Forall2 (fun m t => DumpValue m.2 depth = FromValue t) ms ts ->
  Forall2 (member_reads depth) ms ts.
Proof.
  intros HP H Hts. induction Hts as [|m t ms ts Ht Hts IH]; [constructor|].
  apply Forall_cons in HP as [Hm HP]. constructor; auto.
Qed.

(** Every value that the writer writes is read back, at the same depth. *)
Lemma dump_reads v :
  json_wf v = true -> forall depth text, DumpValue v depth = FromValue text -> reads depth v text.
Proof.
  induction v as [|b|n|s|a IH|o IH] using json_induction; intros Hw depth text H;
    assert (depth <= 256) as Hd
      by (destruct (Z.le_gt_cases depth 256) as [|Hgt]; [done|]; exfalso;
          cbn [DumpValue] in H; unfold MaximumJsonNestingDepth in H;
          rewrite (proj2 (Z.ltb_lt 256 depth)) in H by lia; done).
  - by apply reads_literal; auto.
  - apply reads_literal; auto. destruct b; auto.
  - by apply reads_number.
  - cbn [DumpValue] in H. case_if_in H; [done|]. case_if_in H; [done|]. injection H as <-.
    apply reads_string; [done|]. by apply bytesb_iff.
  - cbn [DumpValue] in H. case_if_in H; [done|]. apply result_bind_value in H as (t & H & Ht).
    assert (text = [char_code "["] ++ t ++ [char_code "]"]) as -> by congruence.
    apply dump_elements_inv in H as (ts & Hts & ->). apply (reads_array depth [32]); [done|done|].
    eapply elements_read; [exact (proj2 (Forall_and _ _) (conj IH (forallb_True_Forall _ _ Hw)))| |exact Hts].
    intros v t [Hv Hwv] Ht'. by apply Hv.
  - cbn [DumpValue] in H. case_if_in H; [done|]. case_if_in H; [done|].
    apply result_bind_value in H as (t & H & Ht).
    assert (text = [char_code "{"] ++ t ++ [char_code "}"]) as -> by congruence.
    cbn [json_wf] in Hw. apply andb_prop in Hw as [Hs Hw].
    rewrite keys_sorted_sort in H by (rewrite map_map; exact Hs).
    apply (dump_members_inv (fun v => DumpValue v (depth + 1))) in H as (ts & Hts & ->).
    apply (reads_object depth [32] [32]); [done..|].
    eapply members_read; [exact (proj2 (Forall_and _ _) (conj IH (forallb_True_Forall _ _ Hw)))| |exact Hts].
    intros m t [Hm Hwm] Ht'. apply andb_prop in Hwm as [Hb Hwm].
    split; [by apply bytesb_iff|by apply Hm].
Qed.

(** ** What is written is UTF-8 *)

Ltac ascii_list := apply utf8_ascii; repeat constructor; unfold ascii_byte; eval_chars; lia.

Lemma digits_ascii ds : all_digits ds -> Forall ascii_byte ds.
Proof.
  intros H. eapply Forall_impl; [exact H|]. intros c Hc. apply isdigit_spec in Hc.
  unfold ascii_byte. lia.
Qed.

Lemma number_text_utf8 text : number_text text -> utf8 text.
Proof.
  intros (negative & ip & fp & ex & -> & (c & cs & -> & Hd & _) & Hfp & Hex).
  assert (Forall ascii_byte ex) as He.
  { destruct Hex as [->|(e & s & ds & -> & He & Hs & _ & Hds)]; [constructor|].
    constructor; [destruct He as [-> | ->]; by unfold ascii_byte|]. apply Forall_app.
    split; [|by apply digits_ascii].
    destruct Hs as [->|[->| ->]]; repeat constructor; by unfold ascii_byte. }
  apply utf8_ascii. rewrite !Forall_app. split; [|split; [by apply digits_ascii|split; [|done]]].
  - destruct negative; repeat constructor; by unfold ascii_byte.
  - destruct fp as [|d fp]; [constructor|]. constructor; [by unfold ascii_byte|].
    by apply digits_ascii.
Qed.

Lemma escape_high c : 128 <= c -> EscapeByte c = [c].
Proof. intros H. unfold EscapeByte. repeat (case_if; [lia|]). done. Qed.

Lemma escape_ascii c : ascii_byte c -> utf8 (EscapeByte c).
Proof.
  intros Hc. apply utf8_ascii. revert c Hc.
  apply (small_cases (fun c => Forall ascii_byte (EscapeByte c)) 128).
  repeat (constructor; [repeat constructor; by vm_compute|]). constructor.
Qed.

Lemma escape_utf8 s : utf8 s -> utf8 (concat (map EscapeByte s)).
Proof.
  induction 1 as [|c rest Hc Hr IH] using utf8_induction; [apply utf8_nil|].
  rewrite map_app, concat_app. destruct (Z.lt_ge_cases c 128) as [Hlt|Hge].
  - rewrite append_utf8_ascii by done. cbn [map concat]. rewrite app_nil_r.
    apply utf8_app; [|done]. apply escape_ascii. unfold ascii_byte. destruct Hc as [? _]. lia.
  - assert (concat (map EscapeByte (AppendUtf8 c)) = AppendUtf8 c) as ->.
    { assert (Forall (fun b => 128 <= b < 256) (AppendUtf8 c)) as H
        by (apply append_utf8_high; split; [done|apply Hc]).
      induction H as [|b l Hb _ IHl]; [done|]. cbn [map concat]. rewrite escape_high by lia.
      cbn. by rewrite IHl. }
    by apply utf8_scalar.
Qed.

Lemma dump_string_utf8 s : utf8 s -> utf8 (DumpEscapedString s).
Proof.
  intros H. unfold DumpEscapedString. apply utf8_app; [ascii_list|].
  apply utf8_app; [by apply escape_utf8|ascii_list].
Qed.

Lemma joined_utf8 sep first ts : utf8 sep -> Forall utf8 ts -> utf8 (joined sep first ts).
Proof.
  intros Hs H. revert first; induction H as [|t ts Ht _ IH]; intros first; [apply utf8_nil|].
  cbn [joined]. apply utf8_app; [destruct first; [apply utf8_nil|done]|]. by apply utf8_app.
Qed.

Lemma member_texts_utf8 ms ts :
  Forall (fun m => utf8 m.1) ms -> Forall utf8 ts -> Forall utf8 (member_texts [32] ms ts).
Proof.
  intros Hm. revert ts; induction Hm as [|m ms Hm _ IH]; intros [|t ts] Ht; try constructor.
  - apply Forall_cons in Ht as [Ht _]. apply utf8_app; [by apply dump_string_utf8|].
    apply (utf8_app [_; _]); [ascii_list|done].
  - apply Forall_cons in Ht as [_ Ht]. by apply IH.
Qed.

Lemma dump_utf8 v :
  json_wf v = true -> forall depth text, DumpValue v depth = FromValue text -> utf8 text.
Proof.
  induction v as [|b|n|s|a IH|o IH] using json_induction; intros Hw depth text H.
  - cbn in H. case_if_in H; [done|]. injection H as <-. ascii_list.
  - cbn in H. case_if_in H; [done|]. injection H as <-. destruct b; ascii_list.
  - apply number_text_utf8. by eapply dump_number_text.
  - cbn [DumpValue] in H. case_if_in H; [done|]. destruct (IsValidUtf8 s) eqn:Eu; [|done].
    injection H as <-. apply dump_string_utf8. split; [by apply bytesb_iff|done].
  - cbn [DumpValue] in H. case_if_in H; [done|]. apply result_bind_value in H as (t & H & Ht).
    assert (text = [char_code "["] ++ t ++ [char_code "]"]) as -> by congruence.
    apply utf8_app; [ascii_list|]. apply utf8_app; [|ascii_list].
    apply dump_elements_inv in H as (ts & Hts & ->). apply joined_utf8; [ascii_list|].
    apply Forall2_fmap_l in Hts. cbn [json_wf] in Hw. clear Ht.
    induction Hts as [|v t vs ts Hv Hts IHts]; [constructor|].
    apply Forall_cons in IH as [IH1 IH2]. cbn in Hw. apply andb_prop in Hw as [Hw1 Hw2].
    constructor; [by apply (IH1 Hw1 (depth + 1) t)|by apply IHts].
  - cbn [DumpValue] in H. case_if_in H; [done|].
    destruct (forallb (fun m => IsValidUtf8 m.1) o) eqn:Ek; [|done]. cbn [negb] in H.
    apply result_bind_value in H as (t & H & Ht).
    assert (text = [char_code "{"] ++ t ++ [char_code "}"]) as -> by congruence.
    apply utf8_app; [ascii_list|]. apply utf8_app; [|ascii_list].
    cbn [json_wf] in Hw. apply andb_prop in Hw as [Hs Hw]. clear Ht.
    rewrite keys_sorted_sort in H by (rewrite map_map; exact Hs). clear Hs.
    apply (dump_members_inv (fun v => DumpValue v (depth + 1))) in H as (ts & Hts & ->).
    rewrite forallb_forall in Hw, Ek.
    apply joined_utf8; [ascii_list|]. apply member_texts_utf8.
    + apply Forall_forall. intros m Hm. apply list_elem_of_In in Hm. split; [|by apply Ek].
      apply Hw, andb_prop in Hm as [Hm _]. by apply bytesb_iff.
    + clear E Ek. induction Hts as [|m t ms ts Hv Hts IHts]; [constructor|].
      apply Forall_cons in IH as [IH1 IH2]. constructor.
      * eapply IH1; [|done]. assert (In m (m :: ms)) as Hin by (by left).
        by apply Hw, andb_prop in Hin as [_ ?].
      * apply IHts; [done|]. intros m' Hm'. apply Hw. by right.
Qed.

(** ** The parser is sound *)

(** [rest'] is what is left of [rest] after at least [n] bytes that end at a character. *)
Definition reaches (n : nat) (rest rest' : list Z) : Prop :=
  exists consumed, rest = consumed ++ rest' /\ utf8 consumed /\ (n <= length consumed)%nat.

Lemma reaches_refl rest : reaches 0 rest rest.
Proof. exists []. repeat split; [constructor|done]. Qed.

Lemma reaches_trans n m k a b c :
  reaches n a b -> reaches m b c -> (k <= n + m)%nat -> reaches k a c.
Proof.
  intros (x & -> & Hx & Hn) (y & -> & Hy & Hm) Hk. exists (x ++ y). rewrite app_assoc.
  split; [done|]. split; [by apply utf8_app|]. rewrite length_app. lia.
Qed.

Lemma reaches_weaken n k a b : reaches n a b -> (k <= n)%nat -> reaches k a b.
Proof. intros H Hk. eapply reaches_trans; [done|apply reaches_refl|lia]. Qed.

Lemma reaches_ascii c rest : ascii_byte c -> reaches 1 (c :: rest) rest.
Proof.
  intros Hc. exists [c]. split; [done|]. split; [|done]. apply utf8_ascii. constructor; [done|constructor].
Qed.

Lemma reaches_utf8 n a b : reaches n a b -> utf8 a -> utf8 b.
Proof. intros (x & -> & Hx & _). by apply utf8_app_inv. Qed.

Lemma reaches_length n a b : reaches n a b -> (length b + n <= length a)%nat.
Proof. intros (x & -> & _ & Hn). rewrite length_app. lia. Qed.

Lemma skip_whitespace_reaches rest : reaches 0 rest (SkipWhitespace rest).
Proof.
  induction rest as [|c rest IH]; cbn; [apply reaches_refl|]. destruct (IsSpace c) eqn:E.
  - eapply reaches_trans; [apply reaches_ascii|exact IH|lia].
    unfold ascii_byte, IsSpace in *. lia.
  - apply reaches_refl.
Qed.

Lemma consume_reaches c rest rest' : ascii_byte c -> Consume c rest = Some rest' -> reaches 1 rest rest'.
Proof.
  intros Hc H. destruct rest as [|x rest]; [done|]. cbn in H.
  destruct (x =? c) eqn:E; [|done]. injection H as <-. apply Z.eqb_eq in E as ->.
  by apply reaches_ascii.
Qed.

(** A parse that returns what satisfies [Q], or reports a malformed text. *)
Definition plain {A} (Q : A -> Prop) (o : Outcome A) : Prop :=
  match o with
  | Return a => Q a
  | Throw (JsonParseFailure _) => True
  | Throw JsonValueLimitExceeded | OutOfFuel => False
  end.

Lemma plain_fail {A} mText (Q : A -> Prop) message rest : plain Q (Fail mText message rest).
Proof. unfold Fail. by destruct (LineColumn _ _ _). Qed.
#[local] Hint Resolve plain_fail : core.

Lemma plain_bind {A B} (P : A -> Prop) (Q : B -> Prop) o k :
  plain P o -> (forall a, P a -> plain Q (k a)) -> plain Q (obind o k).
Proof. destruct o as [a|[]|]; cbn; auto; done. Qed.

Lemma plain_impl {A} (P Q : A -> Prop) o : plain P o -> (forall a, P a -> Q a) -> plain Q o.
Proof. destruct o as [a|[]|]; cbn; auto. Qed.

Lemma parse_literal_plain mText literal rest :
  utf8 literal -> (1 <= length literal)%nat ->
  plain (fun rest' => reaches 1 rest rest') (ParseLiteral mText literal rest).
Proof.
  intros Hl Hn. unfold ParseLiteral. destruct (bytes_eqb _ _) eqn:E; cbn [negb]; [|auto].
  apply bytes_eqb_eq in E. exists literal. split; [|done].
  rewrite <- E at 1. by rewrite take_drop.
Qed.

Lemma parse_hex_plain mText n value rest :
  0 <= value ->
  plain (fun '(x, rest') => 0 <= x < (value + 1) * 16 ^ Z.of_nat n /\ reaches 0 rest rest')
    (ParseHexDigits mText n value rest).
Proof.
  revert value rest; induction n as [|n IH]; intros value rest Hv.
  { cbn. change (16 ^ Z.of_nat 0) with 1. split; [lia|apply reaches_refl]. }
  destruct rest as [|c rest]; cbn [ParseHexDigits].
  { cbn. split; [|apply reaches_refl]. rewrite Nat2Z.inj_succ, Z.pow_succ_r by lia.
    pose proof (Z.pow_pos_nonneg 16 (Z.of_nat n) ltac:(lia) ltac:(lia)). nia. }
  assert (forall d, 0 <= d < 16 -> ascii_byte c ->
    plain (fun '(x, rest') => 0 <= x < (value + 1) * 16 ^ Z.of_nat (S n) /\ reaches 0 (c :: rest) rest')
      (ParseHexDigits mText n (Z.lor (Z.shiftl value 4) d) rest)) as Hstep.
  { intros d Hd Hc. rewrite lor_shiftl_add by (change (2 ^ 4) with 16; lia). change (2 ^ 4) with 16.
    eapply plain_impl; [apply IH; lia|]. intros [x rest'] [Hx Hr]. split.
    - rewrite Nat2Z.inj_succ, Z.pow_succ_r by lia.
      pose proof (Z.pow_pos_nonneg 16 (Z.of_nat n) ltac:(lia) ltac:(lia)). nia.
    - eapply reaches_trans; [by apply reaches_ascii|done|lia]. }
  unfold ascii_byte in Hstep. eval_chars.
  repeat (case_if; [apply Hstep; lia|]). auto.
Qed.

Lemma parse_hex4_plain mText rest :
  plain (fun '(x, rest') => 0 <= x < 65536 /\ reaches 0 rest rest') (ParseHex4 mText rest).
Proof.
  unfold ParseHex4. case_if; [auto|]. apply (parse_hex_plain mText 4 0 rest). lia.
Qed.

Lemma scalar_utf8 c : is_scalar c -> utf8 (AppendUtf8 c).
Proof. intros H. rewrite <- (app_nil_r (AppendUtf8 c)). apply utf8_scalar, utf8_nil. done. Qed.

Lemma parse_unicode_plain mText rest :
  plain (fun '(bytes, rest') => utf8 bytes /\ reaches 0 rest rest') (ParseUnicodeEscape mText rest).
Proof.
  unfold ParseUnicodeEscape. eapply plain_bind; [apply parse_hex4_plain|].
  intros [cp r1] [Hcp Hr1].
  destruct ((55296 <=? cp) && (cp <=? 56319)) eqn:Eh.
  - destruct r1 as [|b [|u r2]]; [auto..|].
    destruct (negb (b =? 92) || negb (u =? char_code "u")) eqn:Eb; [auto|].
    apply orb_false_iff in Eb as [Eb Eu]. apply negb_false_iff, Z.eqb_eq in Eb, Eu. subst b u.
    eapply plain_bind; [apply parse_hex4_plain|]. intros [low r3] [Hlow Hr3].
    destruct (_ || _) eqn:El; [auto|]. cbn. split.
    + apply scalar_utf8. rewrite Z.shiftl_mul_pow2 by lia. change (2 ^ 10) with 1024.
      unfold is_scalar, MaximumCodePoint, FirstSurrogate, LastSurrogate. lia.
    + apply (reaches_trans 0 1 0 _ _ _ Hr1); [|lia].
      eapply (reaches_trans 1 1 1); [by apply reaches_ascii| |lia].
      eapply (reaches_trans 1 0 1); [by apply reaches_ascii|exact Hr3|lia].
  - destruct ((56320 <=? cp) && _) eqn:El; [auto|]. cbn. split; [|done]. apply scalar_utf8.
    unfold is_scalar, MaximumCodePoint, FirstSurrogate, LastSurrogate. lia.
Qed.

Lemma parse_escape_plain mText rest :
  plain (fun '(bytes, rest') => utf8 bytes /\ reaches 1 rest rest') (ParseEscape mText rest).
Proof.
  destruct rest as [|c rest]; cbn [ParseEscape]; [auto|].
  assert (forall d, ascii_byte d -> ascii_byte c ->
    plain (fun '(bytes, rest') => utf8 bytes /\ reaches 1 (c :: rest) rest') (Return ([d], rest))) as Hone.
  { intros d Hd Hc. split; [apply utf8_ascii; constructor; [done|constructor]|by apply reaches_ascii]. }
  unfold ascii_byte in Hone.
  do 8 (case_if; [apply Hone; eval_chars; lia|]).
  destruct (c =? char_code "u") eqn:Eu; [|auto].
  eapply plain_impl; [apply parse_unicode_plain|]. intros [bytes rest'] [Hb Hr]. split; [done|].
  eapply (reaches_trans 1 0); [apply reaches_ascii|exact Hr|lia].
  unfold ascii_byte. eval_chars. lia.
Qed.

(** The bytes of a character that is not ASCII are copied. *)
Lemma parse_string_high mText bs :
  Forall (fun b => 128 <= b < 256) bs -> forall fuel result rest,
  ParseStringLoop mText (length bs + fuel) result (bs ++ rest)
  = ParseStringLoop mText fuel (result ++ bs) rest.
Proof.
  induction 1 as [|b bs Hb _ IH]; intros fuel result rest; cbn [length app Nat.add].
  { by rewrite app_nil_r. }
  cbn [ParseStringLoop]. replace (b =? 34) with false by lia. replace (b <? 32) with false by lia.
  replace (b =? 92) with false by lia. cbn [negb]. rewrite IH. by rewrite <- app_assoc.
Qed.

Lemma utf8_cases rest :
  utf8 rest ->
  rest = [] \/ exists c rest', is_scalar c /\ rest = AppendUtf8 c ++ rest' /\ utf8 rest'.
Proof.
  intros H. induction H as [|c rest Hc Hr _] using utf8_induction; [by left|]. right. eauto.
Qed.

Lemma parse_string_loop_plain mText n : forall fuel result rest,
  (length rest <= n)%nat -> (length rest <= fuel)%nat -> utf8 result -> utf8 rest ->
  plain (fun '(s, rest') => utf8 s /\ reaches 1 rest rest') (ParseStringLoop mText fuel result rest).
Proof.
  induction n as [|n IH]; intros fuel result rest Hn Hf Hres Hrest.
  { destruct rest; [|cbn in Hn; lia]. destruct fuel; cbn; auto using plain_fail. }
  destruct (utf8_cases rest Hrest) as [->|(c & rest' & Hc & -> & Hrest')].
  { destruct fuel; cbn; auto using plain_fail. }
  destruct (Z.lt_ge_cases c 128) as [Hlt|Hge].
  - rewrite append_utf8_ascii in * by done. cbn [app] in *. cbn [length] in Hn, Hf.
    destruct fuel as [|fuel]; [lia|]. cbn [ParseStringLoop].
    assert (ascii_byte c) as Hac by (unfold ascii_byte; destruct Hc; lia).
    pose proof (reaches_ascii c rest' Hac) as H1.
    destruct (c =? 34) eqn:E1; [by cbn|]. case_if; [auto|]. case_if.
    + eapply plain_impl; [apply IH; [lia|lia| |done]|].
      * apply utf8_app; [done|]. apply utf8_ascii. constructor; [done|constructor].
      * intros [s r] [Hs Hr]. split; [done|]. eapply reaches_trans; [exact H1|exact Hr|lia].
    + eapply plain_bind; [apply parse_escape_plain|]. intros [bytes r] [Hb Hr].
      pose proof (reaches_length _ _ _ Hr).
      eapply plain_impl; [apply IH; [lia|lia|by apply utf8_app|by eapply reaches_utf8]|].
      intros [s r'] [Hs Hr']. split; [done|].
      eapply reaches_trans; [exact H1| |]; [eapply (reaches_trans 1 1 1); [exact Hr|exact Hr'|lia]|lia].
  - assert (Forall (fun b => 128 <= b < 256) (AppendUtf8 c)) as Hh
      by (apply append_utf8_high; split; [done|apply Hc]).
    rewrite length_app in Hn, Hf.
    replace fuel with (length (AppendUtf8 c) + (fuel - length (AppendUtf8 c)))%nat by lia.
    rewrite parse_string_high by done.
    destruct (append_utf8_nonempty c) as (b & l & El).
    assert (1 <= length (AppendUtf8 c))%nat by (rewrite El; cbn; lia).
    eapply plain_impl; [apply IH; [lia|lia| |done]|].
    + apply utf8_app; [done|by apply scalar_utf8].
    + intros [s r] [Hs Hr]. split; [done|]. apply (reaches_trans 0 1 1 _ rest'); [|done|lia].
      exists (AppendUtf8 c). split; [done|]. split; [by apply scalar_utf8|lia].
Qed.

Lemma parse_string_plain mText rest :
  utf8 rest ->
  plain (fun '(s, rest') => utf8 s /\ reaches 2 rest rest') (ParseString mText rest).
Proof.
  intros H. unfold ParseString. destruct (Consume 34 rest) as [r|] eqn:E; [|auto].
  apply consume_reaches in E; [|by unfold ascii_byte].
  eapply plain_impl; [apply (parse_string_loop_plain mText (length r)); [done|done|apply utf8_nil|]|].
  - by eapply reaches_utf8.
  - intros [s r'] [Hs Hr]. split; [done|]. by eapply (reaches_trans 1 1).
Qed.

(** ** Numbers, soundly *)

Lemma skip_digits_inv rest :
  exists ds, rest = ds ++ SkipDigits rest /\ all_digits ds /\ no_digit (SkipDigits rest) = true /\
    (NextIsDigit rest = true -> ds <> []).
Proof.
  unfold SkipDigits. destruct (span_digits rest) as [ds r] eqn:E.
  apply span_digits_inv in E as (-> & Hd & Hn). exists ds. repeat split; try done.
  cbn [snd]. intros Hnext ->. rewrite no_digit_next in Hn. cbn in Hnext. by rewrite Hnext in Hn.
Qed.

Lemma scan_integer_plain mText rest :
  plain (fun rest' => exists ip, rest = ip ++ rest' /\ integer_part ip) (ScanInteger mText rest).
Proof.
  unfold ScanInteger. destruct rest as [|c rest]; cbn [Consume]; [auto|].
  destruct (c =? char_code "0") eqn:E.
  - destruct (NextIsDigit rest); [auto|]. cbn. apply Z.eqb_eq in E as ->.
    exists [char_code "0"]. split; [done|]. exists 48, []. repeat split. by repeat constructor.
  - case_if; [auto|]. cbn. eval_chars.
    assert (isdigit c = true) as Hc by (apply isdigit_spec; lia).
    destruct (skip_digits_inv (c :: rest)) as (ds & Ed & Hd & _ & Hne). exists ds. split; [done|].
    destruct ds as [|d ds]; [by destruct (Hne Hc)|]. cbn in Ed. injection Ed as -> _.
    exists d, ds. split; [done|]. split; [done|]. lia.
Qed.

Lemma scan_fraction_plain mText rest :
  plain (fun rest' => exists fp, rest = fraction_text fp ++ rest' /\ all_digits fp)
    (ScanFraction mText rest).
Proof.
  unfold ScanFraction. destruct rest as [|c rest]; cbn [Consume].
  { cbn. exists []. split; [done|constructor]. }
  destruct (c =? char_code ".") eqn:E.
  - destruct (NextIsDigit rest) eqn:En; cbn [negb]; [|auto]. cbn. apply Z.eqb_eq in E as ->.
    destruct (skip_digits_inv rest) as (ds & Ed & Hd & _ & Hne). exists ds.
    split; [|done]. destruct ds as [|d ds]; [by destruct (Hne En)|]. cbn [fraction_text app]. f_equal. exact Ed.
  - cbn. exists []. split; [done|constructor].
Qed.

Lemma scan_exponent_plain mText rest :
  plain (fun rest' => exists ex, rest = ex ++ rest' /\ exponent_part ex) (ScanExponent mText rest).
Proof.
  unfold ScanExponent. destruct rest as [|c rest]; [cbn; exists []; split; [done|by left]|].
  destruct (_ || _) eqn:E; [|cbn; exists []; split; [done|by left]].
  set (body := match rest with s :: r => if (s =? _) || _ then r else rest | [] => rest end).
  assert (exists s, rest = s ++ body /\ (s = [] \/ s = [char_code "+"] \/ s = [char_code "-"])) as Hs.
  { unfold body. destruct rest as [|s r]; [exists []; by auto|].
    destruct ((s =? char_code "+") || (s =? char_code "-")) eqn:E2; [|exists []; by auto].
    apply orb_prop in E2 as [E2|E2]; apply Z.eqb_eq in E2 as ->.
    - exists [char_code "+"]. split; [done|]. by right; left.
    - exists [char_code "-"]. split; [done|]. by right; right. }
  clearbody body. destruct Hs as (s & -> & Hs).
  destruct (NextIsDigit body) eqn:En; cbn [negb]; [|auto]. cbn.
  destruct (skip_digits_inv body) as (ds & Ed & Hd & _ & Hne).
  exists (c :: s ++ ds). split; [cbn; rewrite <- app_assoc; by rewrite <- Ed|]. right.
  exists c, s, ds. repeat split; auto. eval_chars. lia.
Qed.

(** A value the parser may return at a depth. *)
Definition value_ok (depth : Z) (v : JsonValue) : Prop :=
  json_wf v = true /\ printable depth v = true /\ normal v = v.

Lemma from_chars_integer_range minimum maximum text rest n :
  from_chars_integer minimum maximum text = (errc_ok, rest, n) -> minimum <= n <= maximum.
Proof.
  unfold from_chars_integer. intros H.
  destruct (match text with [] => _ | _ :: _ => _ end) as [neg body].
  destruct (span_digits body) as [ds r]. do 2 (case_if_in H; [done|]). injection H as <- <-. lia.
Qed.

Lemma convert_integer_plain mText conversion make rest Q :
  (forall n, conversion = (errc_ok, [], n) -> Q (JNumber (make n))) ->
  plain Q (ConvertInteger mText conversion make rest).
Proof.
  intros H. unfold ConvertInteger. destruct conversion as [[[] [|]] n]; auto using plain_fail.
  cbn. by apply H.
Qed.

Lemma convert_double_plain mText depth text rest :
  depth <= 256 -> plain (fun v => value_ok depth v /\ count v = 1) (ConvertDouble mText text rest).
Proof.
  intros Hd. unfold ConvertDouble. destruct (from_chars_double text) as [[ec ptr] d].
  assert (depth <=? MaximumJsonNestingDepth = true) as Hd' by (unfold MaximumJsonNestingDepth; lia).
  case_if; [|case_if; [auto|]]; cbn; unfold value_ok; cbn; rewrite Hd'; repeat split; try done.
  apply orb_false_iff in E0 as [_ E0]. by destruct (isfinite d).
Qed.

(** A negative integer token is below zero. *)
Lemma negative_token_value text n rest :
  number_text text -> HasFractionOrExponent text = false -> hd 0 text = char_code "-" ->
  text <> txt "-0" -> from_chars_int64 text = (errc_ok, rest, n) -> n < 0.
Proof.
  intros Ht Hm Hh Hz H. destruct (number_text_integer text Ht Hm) as (negative & ip & -> & Hip).
  destruct Hip as (c & cs & -> & Hd & Hc). pose proof Hd as Hd'. apply Forall_cons in Hd as [Hdc _].
  apply isdigit_spec in Hdc. destruct negative; [|cbn in Hh; eval_chars; lia].
  assert (c <> 48) as Hn48. { intros ->. by rewrite Hc in Hz by done. }
  unfold from_chars_int64, from_chars_integer in H. cbn [sign_text app] in H.
  rewrite Z.eqb_refl in H. change (- 2 ^ 63 <? 0) with true in H. cbn [andb] in H.
  rewrite span_digits_all in H by done. do 2 (case_if_in H; [done|]). injection H as <- <-.
  pose proof (digits_value_lower c cs Hd' Hn48).
  pose proof (Z.pow_pos_nonneg 10 (len cs) ltac:(lia) (len_nonneg cs)). lia.
Qed.

Lemma convert_number_plain mText depth text rest :
  depth <= 256 -> number_text text ->
  plain (fun v => value_ok depth v /\ count v = 1) (ConvertNumber mText text rest).
Proof.
  intros Hd Ht. unfold ConvertNumber.
  assert (depth <=? MaximumJsonNestingDepth = true) as Hd' by (unfold MaximumJsonNestingDepth; lia).
  destruct (HasFractionOrExponent text) eqn:Em; [by apply convert_double_plain|].
  destruct (hd 0 text =? char_code "-") eqn:Eh.
  - destruct (bytes_eqb text (txt "-0")) eqn:Ez; [by apply convert_double_plain|].
    apply convert_integer_plain. intros n Hn. apply bytes_eqb_neq in Ez. apply Z.eqb_eq in Eh.
    pose proof (negative_token_value text n [] Ht Em Eh Ez Hn).
    apply from_chars_integer_range in Hn. unfold value_ok. cbn. rewrite Hd'. eval_pow.
    repeat split; [lia|]. by replace (n <? 0) with true by lia.
  - apply convert_integer_plain. intros n Hn. apply from_chars_integer_range in Hn.
    unfold value_ok. cbn. rewrite Hd'. eval_pow. repeat split. lia.
Qed.

Lemma parse_number_plain mText depth start :
  depth <= 256 ->
  plain (fun '(v, rest) => value_ok depth v /\ count v = 1 /\ reaches 1 start rest)
    (ParseNumber mText start).
Proof.
  intros Hd. unfold ParseNumber.
  assert (exists negative body, start = sign_text negative ++ body /\
    match Consume (char_code "-") start with Some r => r | None => start end = body)
    as (negative & body & -> & ->).
  { destruct start as [|c r]; [by exists false, []|]. cbn.
    destruct (c =? char_code "-") eqn:E; [|by exists false, (c :: r)].
    apply Z.eqb_eq in E as ->. by exists true, r. }
  eapply plain_bind; [apply scan_integer_plain|]. intros r1 (ip & -> & Hip).
  eapply plain_bind; [apply scan_fraction_plain|]. intros r2 (fp & -> & Hfp).
  eapply plain_bind; [apply scan_exponent_plain|]. intros r3 (ex & -> & Hex).
  set (text := sign_text negative ++ ip ++ fraction_text fp ++ ex).
  replace (sign_text negative ++ ip ++ fraction_text fp ++ ex ++ r3) with (text ++ r3)
    by (unfold text; by rewrite <- !app_assoc).
  replace (length (text ++ r3) - length r3)%nat with (length text) by (rewrite length_app; lia).
  rewrite take_app_length.
  assert (number_text text) as Ht by (exists negative, ip, fp, ex; done). clearbody text.
  eapply plain_bind; [by apply (convert_number_plain mText depth)|]. intros v [Hv Hc]. cbn.
  split; [done|]. split; [done|]. exists text. split; [done|]. split; [by apply number_text_utf8|].
  destruct (number_text_start text Ht) as (c & t & -> & _). cbn. lia.
Qed.

(** ** Objects under construction *)

Definition object_ok (depth : Z) (o : Object) : Prop :=
  keys_sorted (map fst o) = true /\ Forall (fun m => utf8 m.1 /\ value_ok depth m.2) o.

Lemma emplace_keys key value o o' k0 :
  Emplace key value o = Some o' -> bytes_ltb k0 key = true ->
  forallb (bytes_ltb k0) (map fst o) = true -> forallb (bytes_ltb k0) (map fst o') = true.
Proof.
  intros H Hk. revert o' H; induction o as [|[k v] o IH]; intros o' H Ho; cbn [Emplace] in H.
  - injection H as <-. cbn. by rewrite Hk.
  - cbn in Ho. apply andb_prop in Ho as [Ho1 Ho2]. destruct (bytes_ltb key k).
    { injection H as <-. cbn. by rewrite Hk, Ho1, Ho2. }
    destruct (bytes_ltb k key); [|done]. destruct (Emplace key value o) as [o1|]; [|done].
    injection H as <-. cbn. rewrite Ho1. by apply IH.
Qed.

Lemma forallb_ltb_trans k1 k2 ks :
  bytes_ltb k1 k2 = true -> forallb (bytes_ltb k2) ks = true -> forallb (bytes_ltb k1) ks = true.
Proof.
  intros H. rewrite !forallb_forall. intros Hk x Hx. eapply bytes_ltb_trans; eauto.
Qed.

(** A new member keeps the order of the map, and is counted. *)
Lemma emplace_ok depth key value o o' :
  Emplace key value o = Some o' -> object_ok depth o -> utf8 key -> value_ok depth value ->
  object_ok depth o' /\ count_all (map snd o') = count_all (map snd o) + count value.
Proof.
  intros H [Hs Ho] Hk Hv. revert o' H; induction o as [|[k v] o IH]; intros o' H; cbn [Emplace] in H.
  - injection H as <-. split; [split; [done|by constructor; [|constructor]]|]. unfold count_all. cbn. lia.
  - cbn [map fst keys_sorted] in Hs. apply andb_prop in Hs as [Hs1 Hs2].
    apply Forall_cons in Ho as [Ho1 Ho2]. destruct (bytes_ltb key k) eqn:E1.
    { injection H as <-. split; [split; [|by constructor; [|constructor]]|unfold count_all; cbn; lia].
      cbn [map fst keys_sorted forallb]. rewrite E1, Hs1, Hs2.
      by rewrite (forallb_ltb_trans _ k). }
    destruct (bytes_ltb k key) eqn:E2; [|done].
    destruct (Emplace key value o) as [o1|] eqn:E3; [|done]. injection H as <-.
    destruct (IH Hs2 Ho2 o1 eq_refl) as [[Hs' Ho'] Hc]. split; [split|].
    + cbn [map fst keys_sorted]. rewrite Hs'. by rewrite (emplace_keys key value o o1 k).
    + by constructor.
    + change (count_all (map snd ((k, v) :: o1))) with (count v + count_all (map snd o1)).
      change (count_all (map snd ((k, v) :: o))) with (count v + count_all (map snd o)). lia.
Qed.

Lemma value_ok_array depth vs :
  depth <= 256 -> Forall (value_ok (depth + 1)) vs -> value_ok depth (JArray vs).
Proof.
  intros Hd H. unfold value_ok. cbn [json_wf printable normal].
  replace (depth <=? MaximumJsonNestingDepth) with true by (unfold MaximumJsonNestingDepth; lia).
  induction H as [|v vs (H1 & H2 & H3) _ IH]; [done|].
  destruct IH as (I1 & I2 & I3). cbn. rewrite H1, H2, H3, I1. split; [done|]. split; [done|].
  injection I3 as ->. done.
Qed.

Lemma value_ok_object depth o :
  depth <= 256 -> object_ok (depth + 1) o -> value_ok depth (JObject o).
Proof.
  intros Hd [Hs H]. unfold value_ok. cbn [json_wf printable normal]. rewrite Hs. clear Hs.
  replace (depth <=? MaximumJsonNestingDepth) with true by (unfold MaximumJsonNestingDepth; lia).
  induction H as [|[k v] o [[Hb Hu] (H1 & H2 & H3)] _ IH]; [done|].
  destruct IH as (I1 & I2 & I3). cbn [fst snd] in *. cbn [andb] in *.
  apply andb_prop in I2 as [I2 I4]. injection I3 as I3. cbn [forallb fst snd map].
  rewrite (proj2 (bytesb_iff k) Hb), H1, H2, H3, I1, Hu, I2, I3, I4. done.
Qed.

(** ** The recursive parser *)

(** [n] values read from [p] to [p']. *)
Definition step (n : Z) (p p' : Parser) : Prop :=
  reaches (Z.to_nat n) (mRest p) (mRest p') /\
  mRemainingValues p' = mRemainingValues p - n /\ 0 <= n /\ 0 <= mRemainingValues p'.

Definition good {A} (enough : Prop) (p : Parser) (Q : A -> Prop) (o : Outcome A) : Prop :=
  match o with
  | Return a => Q a
  | Throw (JsonParseFailure _) => True
  | Throw JsonValueLimitExceeded => mRemainingValues p < len (mRest p)
  | OutOfFuel => ~ enough
  end.

Lemma step_trans n m p1 p2 p3 : step n p1 p2 -> step m p2 p3 -> step (n + m) p1 p3.
Proof.
  intros (H1 & H2 & H3 & H4) (I1 & I2 & I3 & I4). split; [|lia].
  eapply reaches_trans; [exact H1|exact I1|lia].
Qed.

Lemma step_utf8 n p p' : step n p p' -> utf8 (mRest p) -> utf8 (mRest p').
Proof. intros (H & _). by eapply reaches_utf8. Qed.

Lemma step_length n p p' : step n p p' -> len (mRest p') + n <= len (mRest p).
Proof. intros (H & _ & Hn & _). apply reaches_length in H. unfold len. lia. Qed.

Lemma step_here n rest rest' remaining :
  reaches n rest rest' -> 0 <= remaining ->
  step 0 (MkParser rest remaining) (MkParser rest' remaining).
Proof.
  intros H Hr. split; [|cbn; lia]. cbn. eapply reaches_weaken; [exact H|lia].
Qed.

Lemma good_fail {A} mText enough p (Q : A -> Prop) message rest :
  good enough p Q (Fail mText message rest).
Proof. unfold Fail. by destruct (LineColumn _ _ _). Qed.
#[local] Hint Resolve good_fail : core.

Lemma good_plain {A B} enough p (P : A -> Prop) (Q : B -> Prop) o k :
  plain P o -> (forall a, P a -> good enough p Q (k a)) -> good enough p Q (obind o k).
Proof. destruct o as [a|[]|]; cbn; auto; done. Qed.

(** After a step, an outcome at the new state is one at the old. *)
Lemma good_bind {A B} (e1 e : Prop) n p p1 (P : A -> Prop) (Q : B -> Prop) o k :
  good e1 p1 P o -> step n p p1 -> (e -> e1) -> (forall a, P a -> good e p Q (k a)) ->
  good e p Q (obind o k).
Proof.
  intros Ho Hs He Hk. pose proof (step_length n p p1 Hs). destruct Hs as (_ & Hr & Hn & _).
  destruct o as [a|[]|]; cbn in *; [auto|done|lia|auto].
Qed.

Lemma good_impl {A} (e1 e : Prop) n p p1 (P Q : A -> Prop) o :
  good e1 p1 P o -> step n p p1 -> (e -> e1) -> (forall a, P a -> Q a) -> good e p Q o.
Proof.
  intros Ho Hs He Hk. pose proof (step_length n p p1 Hs). destruct Hs as (_ & Hr & Hn & _).
  destruct o as [a|[]|]; cbn in *; [auto|done|lia|auto].
Qed.

Section Sound.

Variable mText : list Z.

Definition value_sound (fuel : nat) : Prop := forall depth p,
  0 <= mRemainingValues p -> utf8 (mRest p) ->
  good (2 * length (mRest p) < fuel)%nat p
    (fun '(v, p') => value_ok depth v /\ step (count v) p p') (ParseValue mText fuel depth p).

Definition array_sound (fuel : nat) : Prop := forall depth result p,
  0 <= mRemainingValues p -> utf8 (mRest p) ->
  good (2 * length (mRest p) + 1 < fuel)%nat p
    (fun '(v, p') => exists vs, v = JArray (result ++ vs) /\ Forall (value_ok depth) vs /\
       step (count_all vs) p p')
    (ParseArray mText fuel depth result p).

Definition object_sound (fuel : nat) : Prop := forall depth top result p,
  0 <= mRemainingValues p -> utf8 (mRest p) -> object_ok depth result ->
  good (2 * length (mRest p) + 1 < fuel)%nat p
    (fun '(o, _, p') => object_ok depth o /\
       step (count_all (map snd o) - count_all (map snd result)) p p')
    (ParseObjectMembers mText fuel depth top result p).

Lemma array_step_sound fuel : value_sound fuel -> array_sound fuel -> array_sound (S fuel).
Proof.
  intros HV HA depth result p Hr Hu. cbn [ParseArray].
  assert (step 0 p p) as Hpp by (split; [apply reaches_refl|lia]).
  eapply good_bind; [apply (HV depth p Hr Hu)|exact Hpp|lia|]. intros [v p1] [Hv Hp1].
  pose proof (count_pos v) as Hc. pose proof (step_length _ _ _ Hp1) as Hl1.
  pose proof (skip_whitespace_reaches (mRest p1)) as Hsk.
  assert (forall rest', reaches 1 (SkipWhitespace (mRest p1)) rest' ->
            step (count v) p (MkParser rest' (mRemainingValues p1))) as Hnext.
  { intros rest' Hx. destruct Hp1 as (H1 & H2 & H3 & H4). split; [|cbn; lia]. cbn.
    eapply reaches_trans; [exact H1| |]; [eapply (reaches_trans 0 1 1); [exact Hsk|exact Hx|lia]|lia]. }
  destruct (Consume (char_code "]") _) as [r|] eqn:E1.
  - apply consume_reaches in E1; [|by unfold ascii_byte]. cbn. exists [v].
    split; [done|]. split; [by constructor; [|constructor]|].
    replace (count_all [v]) with (count v) by (unfold count_all; cbn; lia). by apply Hnext.
  - destruct (Consume (char_code ",") _) as [r|] eqn:E2; [|auto].
    apply consume_reaches in E2; [|by unfold ascii_byte].
    pose proof (reaches_trans 1 0 1 _ _ _ E2 (skip_whitespace_reaches r) ltac:(lia)) as E3.
    pose proof (Hnext _ E3) as Hs. pose proof (step_length _ _ _ Hs) as Hl2. cbn [mRest] in Hl2.
    eapply good_impl; [apply HA|exact Hs| |].
    + by destruct Hs as (_ & _ & _ & ?).
    + by eapply step_utf8.
    + cbn [mRest]. unfold len in *. lia.
    + intros [v' p'] (vs & -> & Hvs & Hp'). exists (v :: vs). rewrite <- app_assoc.
      split; [done|]. split; [by constructor|]. by eapply (step_trans (count v)).
Qed.

Lemma object_step_sound fuel : value_sound fuel -> object_sound fuel -> object_sound (S fuel).
Proof.
  intros HV HO depth top result p Hr Hu Hok. cbn [ParseObjectMembers].
  destruct (negb _); [auto|].
  eapply good_plain; [by apply parse_string_plain|]. intros [key r1] [Hkey Hr1].
  destruct (Consume (char_code ":") _) as [r2|] eqn:E1; [|auto].
  apply consume_reaches in E1; [|by unfold ascii_byte].
  set (p1 := MkParser (SkipWhitespace r2) (mRemainingValues p)).
  assert (reaches 2 (mRest p) (SkipWhitespace r2)) as Hreach.
  { eapply (reaches_trans 2 0 2); [exact Hr1| |lia].
    eapply (reaches_trans 0 0 0); [apply skip_whitespace_reaches| |lia].
    eapply (reaches_trans 1 0 0); [exact E1|apply skip_whitespace_reaches|lia]. }
  assert (step 0 p p1) as Hp1.
  { split; [|cbn; lia]. cbn. eapply reaches_weaken; [exact Hreach|lia]. }
  pose proof (step_utf8 _ _ _ Hp1 Hu) as Hu1. apply reaches_length in Hreach.
  eapply good_bind; [apply (HV depth p1)|exact Hp1|unfold p1; cbn [mRest]; lia|]; [done|done|].
  intros [v p2] [Hv Hp2].
  destruct (Emplace key v result) as [o|] eqn:Eo; [|auto].
  destruct (emplace_ok depth _ _ _ _ Eo Hok Hkey Hv) as [Hok' Hcount].
  pose proof (count_pos v) as Hc. pose proof (step_length _ _ _ Hp2) as Hl2.
  assert (forall rest', reaches 1 (SkipWhitespace (mRest p2)) rest' ->
            step (count v) p (MkParser rest' (mRemainingValues p2))) as Hnext.
  { intros rest' Hx. rewrite <- (Z.add_0_l (count v)). eapply step_trans; [exact Hp1|].
    destruct Hp2 as (H1 & H2 & H3 & H4). split; [|cbn; cbn in *; lia]. cbn [mRest].
    eapply reaches_trans; [exact H1| |]; [eapply (reaches_trans 0 1 1);
      [apply skip_whitespace_reaches|exact Hx|lia]|lia]. }
  destruct (Consume (char_code "}") _) as [r|] eqn:E2.
  - apply consume_reaches in E2; [|by unfold ascii_byte]. cbn. split; [done|].
    replace (count_all (map snd o) - count_all (map snd result)) with (count v) by lia.
    by apply Hnext.
  - destruct (Consume (char_code ",") _) as [r|] eqn:E3; [|auto].
    apply consume_reaches in E3; [|by unfold ascii_byte].
    pose proof (reaches_trans 1 0 1 _ _ _ E3 (skip_whitespace_reaches r) ltac:(lia)) as E4.
    pose proof (Hnext _ E4) as Hs. pose proof (step_length _ _ _ Hs) as Hl. cbn [mRest] in Hl.
    eapply good_impl; [apply HO|exact Hs| |].
    + by destruct Hs as (_ & _ & _ & ?).
    + by eapply step_utf8.
    + done.
    + cbn [mRest]. unfold len in *. lia.
    + intros [[o' top'] p'] [Hok2 Hp']. split; [done|].
      replace (count_all (map snd o') - count_all (map snd result))
        with (count v + (count_all (map snd o') - count_all (map snd o))) by lia.
      by eapply step_trans.
Qed.

Lemma object_ok_nil depth : object_ok depth [].
Proof. split; [done|constructor]. Qed.

(** What [ParseValue] promises, from a state with a value left. *)
Definition value_post (depth : Z) (p : Parser) : JsonValue * Parser -> Prop :=
  fun '(v, p') => value_ok depth v /\ step (count v) p p'.

(** A scalar: one value. *)
Lemma scalar_post depth v p rest' :
  value_ok depth v -> count v = 1 -> reaches 1 (mRest p) rest' -> 0 < mRemainingValues p ->
  value_post depth p (v, MkParser rest' (mRemainingValues p - 1)).
Proof. intros Hv Hc Hx Hr. split; [done|]. rewrite Hc. split; [done|]. cbn. lia. Qed.

Lemma literal_sound enough depth v literal p :
  value_ok depth v -> count v = 1 -> utf8 literal -> (1 <= length literal)%nat ->
  0 < mRemainingValues p ->
  good enough p (value_post depth p)
    (obind (ParseLiteral mText literal (mRest p))
       (fun rest => Return (v, MkParser rest (mRemainingValues p - 1)))).
Proof.
  intros Hv Hc Hl Hn Hr. eapply good_plain; [by apply parse_literal_plain|].
  intros l Hx. cbn. by apply scalar_post.
Qed.

(** Into a container: the bracket and the white space after it. *)
Lemma open_step c rest' p :
  ascii_byte c -> mRest p = c :: rest' -> 0 < mRemainingValues p ->
  step 1 p (MkParser (SkipWhitespace rest') (mRemainingValues p - 1)).
Proof.
  intros Hc Hp Hr. split; [|cbn; lia]. rewrite Hp. cbn [mRest].
  eapply (reaches_trans 1 0); [by apply reaches_ascii|apply skip_whitespace_reaches|lia].
Qed.

Lemma open_array_sound fuel depth rest' p :
  array_sound fuel -> depth <= 256 -> mRest p = char_code "[" :: rest' -> 0 < mRemainingValues p ->
  utf8 (mRest p) ->
  good (2 * length (mRest p) < S fuel)%nat p (value_post depth p)
    match Consume (char_code "]") (SkipWhitespace rest') with
    | Some rest => Return (JArray [], MkParser rest (mRemainingValues p - 1))
    | None => ParseArray mText fuel (depth + 1) []
                (MkParser (SkipWhitespace rest') (mRemainingValues p - 1))
    end.
Proof.
  intros HA Hd Hp Hr Hu. assert (ascii_byte (char_code "[")) as Hb by (by unfold ascii_byte).
  pose proof (open_step _ _ _ Hb Hp Hr) as Hs.
  pose proof (step_length _ _ _ Hs) as Hl. destruct (Consume (char_code "]") _) as [r|] eqn:Ec.
  - apply consume_reaches in Ec; [|by unfold ascii_byte]. apply scalar_post; [|done| |done].
    + apply value_ok_array; [done|constructor].
    + destruct Hs as (Hs & _). eapply reaches_trans; [exact Hs|exact Ec|lia].
  - eapply good_impl; [apply HA|exact Hs| |].
    + by destruct Hs as (_ & _ & _ & ?).
    + by eapply step_utf8; [exact Hs|].
    + unfold len in Hl. cbn [mRest] in *. lia.
    + intros [v p'] (vs & -> & Hvs & Hp'). split; [by apply value_ok_array|].
      cbn [app count]. by eapply step_trans.
Qed.

Lemma open_object_sound fuel depth rest' p :
  object_sound fuel -> depth <= 256 -> mRest p = char_code "{" :: rest' -> 0 < mRemainingValues p ->
  utf8 (mRest p) ->
  good (2 * length (mRest p) < S fuel)%nat p (value_post depth p)
    match Consume (char_code "}") (SkipWhitespace rest') with
    | Some rest => Return (JObject [], MkParser rest (mRemainingValues p - 1))
    | None =>
        obind (ParseObjectMembers mText fuel (depth + 1) None []
                 (MkParser (SkipWhitespace rest') (mRemainingValues p - 1)))
          (fun '(object, _, p) => Return (JObject object, p))
    end.
Proof.
  intros HO Hd Hp Hr Hu. assert (ascii_byte (char_code "{")) as Hb by (by unfold ascii_byte).
  pose proof (open_step _ _ _ Hb Hp Hr) as Hs.
  pose proof (step_length _ _ _ Hs) as Hl. destruct (Consume (char_code "}") _) as [r|] eqn:Ec.
  - apply consume_reaches in Ec; [|by unfold ascii_byte]. apply scalar_post; [|done| |done].
    + apply value_ok_object; [done|apply object_ok_nil].
    + destruct Hs as (Hs & _). eapply reaches_trans; [exact Hs|exact Ec|lia].
  - eapply good_bind; [apply HO|exact Hs| |].
    + by destruct Hs as (_ & _ & _ & ?).
    + by eapply step_utf8; [exact Hs|].
    + apply object_ok_nil.
    + unfold len in Hl. cbn [mRest] in *. lia.
    + intros [[o top] p'] [Ho Hp']. split; [by apply value_ok_object|].
      rewrite count_object. change (count_all (map snd [])) with 0 in Hp'.
      rewrite Z.sub_0_r in Hp'. by eapply step_trans.
Qed.

Lemma value_step_sound fuel : array_sound fuel -> object_sound fuel -> value_sound (S fuel).
Proof.
  intros HA HO depth p Hr Hu. change (fun '(v, p') => _) with (value_post depth p).
  cbn [ParseValue]. destruct (MaximumJsonNestingDepth <? depth) eqn:Ed; [auto|].
  destruct (mRest p) as [|c rest'] eqn:Ep; [auto|]. rewrite <- Ep in *.
  destruct (mRemainingValues p =? 0) eqn:E0.
  { cbn. rewrite Ep. unfold len. cbn [length]. lia. }
  assert (depth <=? MaximumJsonNestingDepth = true) as Hd' by lia.
  assert (depth <= 256) as Hd by (unfold MaximumJsonNestingDepth in *; lia).
  assert (value_ok depth JNull /\ forall b, value_ok depth (JBoolean b)) as [HvN HvB].
  { unfold value_ok. cbn. by rewrite Hd'. }
  do 3 (case_if; [apply literal_sound; [done|done|ascii_list|cbn; lia|lia]|]).
  case_if.
  { eapply good_plain; [by apply parse_string_plain|]. intros [s l] [[Hb Hs] Hl].
    apply scalar_post; [|done|by eapply reaches_weaken; [exact Hl|lia]|lia].
    unfold value_ok. cbn. rewrite Hd', Hs. by rewrite (proj2 (bytesb_iff s) Hb). }
  destruct (c =? char_code "[") eqn:Ea.
  { apply Z.eqb_eq in Ea as ->. by apply open_array_sound; [| | |lia|]. }
  destruct (c =? char_code "{") eqn:Eb.
  { apply Z.eqb_eq in Eb as ->. by apply open_object_sound; [| | |lia|]. }
  case_if; [|auto].
  eapply good_plain; [by apply (parse_number_plain mText depth)|]. intros [v l] (Hv & Hc & Hl).
  apply scalar_post; [done|done|done|lia].
Qed.

Lemma parser_sound fuel : value_sound fuel /\ array_sound fuel /\ object_sound fuel.
Proof.
  induction fuel as [|fuel (HV & HA & HO)].
  - split; [|split]; intros depth; intros; cbn; lia.
  - split; [by apply value_step_sound|]. split; [by apply array_step_sound|by apply object_step_sound].
Qed.

End Sound.

(** ** Documents *)

Lemma value_start_no_mark c rest : value_start c = true -> SkipByteOrderMark (c :: rest) = c :: rest.
Proof.
  intros H. destruct rest as [|b [|d rest]]; try done. cbn.
  unfold value_start, number_start in H. eval_chars. by replace (c =? 239) with false by lia.
Qed.

Lemma begin_document_start c text maxValues :
  value_start c = true -> BeginDocument (c :: text) maxValues = MkParser (c :: text) maxValues.
Proof.
  intros H. unfold BeginDocument. rewrite value_start_no_mark by done.
  by rewrite skip_whitespace_start by by apply value_start_not_space.
Qed.

(** A text that reads as a value, as a document. *)
Lemma parse_document_reads v text maxValues :
  reads 0 v text -> 0 <= maxValues ->
  ParseDocument text maxValues = within (count v) maxValues (Return (normal v)).
Proof.
  intros [(c & t & -> & Hc) H] Hm. unfold ParseDocument. rewrite begin_document_start by done.
  rewrite <- (app_nil_r (c :: t)) at 3. rewrite H; [|done|done|unfold Fuel; lia].
  unfold within. by case_if.
Qed.

Lemma begin_document_step text maxValues :
  utf8 text -> 0 <= maxValues ->
  step 0 (MkParser text maxValues) (BeginDocument text maxValues).
Proof.
  intros Hu Hm. split; [|cbn; lia]. cbn [mRest]. unfold BeginDocument. cbn [mRest].
  eapply (reaches_trans 0 0); [|apply skip_whitespace_reaches|lia].
  unfold SkipByteOrderMark. destruct text as [|a [|b [|c text]]]; try apply reaches_refl.
  destruct (_ && _) eqn:E; [|apply reaches_refl]. exists [a; b; c].
  assert (a = 239) as -> by lia. assert (b = 187) as -> by lia. assert (c = 191) as -> by lia.
  split; [done|]. split; [|cbn; lia]. split; [by apply bytesb_iff|reflexivity].
Qed.

Lemma end_document_good {A} mText enough p p' (a : A) (Q : A -> Prop) :
  Q a -> good enough p Q (EndDocument mText p' a).
Proof. intros H. unfold EndDocument. case_if; [apply good_fail|done]. Qed.

Lemma parse_document_good text maxValues :
  utf8 text -> 0 <= maxValues ->
  good True (MkParser text maxValues) (fun v => value_ok 0 v /\ count v <= maxValues)
    (ParseDocument text maxValues).
Proof.
  intros Hu Hm. pose proof (begin_document_step text maxValues Hu Hm) as Hs.
  pose proof (step_length _ _ _ Hs) as Hl. cbn [mRest] in Hl.
  unfold ParseDocument. eapply good_bind; [apply (proj1 (parser_sound text _))|exact Hs| |].
  - by destruct Hs as (_ & _ & _ & ?).
  - by eapply step_utf8; [exact Hs|].
  - intros _. unfold Fuel, len in *. lia.
  - intros [v p'] [Hv (_ & Hr & _ & Hr')]. apply end_document_good. split; [done|].
    destruct Hs as (_ & Hs & _). cbn in *. lia.
Qed.

(** ** Envelopes *)

(** A text of members that read, as an envelope: its own object is not counted. *)
Lemma parse_envelope_reads ws1 ws2 ms ts maxValues :
  blank ws1 = true -> blank ws2 = true -> keys_sorted (map fst ms) = true -> ms <> [] ->
  Forall2 (member_reads 1) ms ts -> 0 <= maxValues ->
  let text := [char_code "{"] ++ joined (char_code "," :: ws1) true (member_texts ws2 ms ts)
              ++ [char_code "}"] in
  ParseEnvelope text maxValues =
  within (count_all (map snd ms)) maxValues
    (Return
      (let top := match record_bodies (Some (MkTopLevel false 0)) ms ts with
                  | Some t => t | None => MkTopLevel false 0 end in
       MkEnvelope (normal_members ms) true (hasBody top) (rawBodySize top))).
Proof.
  intros Hw1 Hw2 Hs Hne H Hm text. unfold ParseEnvelope.
  assert (Fuel text = 2 * length text + 2)%nat as HF by done. unfold text in HF at 2.
  rewrite !length_app in HF. cbn [length] in HF.
  assert (exists c t, text = c :: t /\ value_start c = true) as (c & t & Et & Hc)
    by (eexists _, _; done).
  rewrite Et, begin_document_start by done. rewrite <- Et. unfold text at 1 4. cbn [mRest app Consume].
  rewrite Z.eqb_refl. destruct H as [|[k v] tv ms ts Hkv H]; [done|].
  set (inner := joined _ _ _) in *.
  assert (SkipWhitespace (inner ++ [char_code "}"]) = inner ++ [char_code "}"]) as -> by done.
  replace (Consume (char_code "}") (inner ++ [char_code "}"])) with (@None (list Z)) by done.
  unfold inner. rewrite (parse_members_joined text 1 ws1 ws2 ((k, v) :: ms) (tv :: ts));
    [|done|done|by constructor|done|done|done|fold inner; lia].
  unfold within. by case_if.
Qed.

(** The members of a value that was written. *)
Lemma dump_object_texts ms depth text :
  json_wf (JObject ms) = true -> DumpValue (JObject ms) depth = FromValue text ->
  exists ts, Forall2 (fun m t => DumpValue m.2 (depth + 1) = FromValue t) ms ts /\
    Forall2 (member_reads (depth + 1)) ms ts /\
    text = [char_code "{"] ++ joined (char_code "," :: [32]) true (member_texts [32] ms ts)
           ++ [char_code "}"].
Proof.
  intros Hw H. cbn [DumpValue] in H. case_if_in H; [done|]. case_if_in H; [done|].
  apply result_bind_value in H as (t & H & Ht).
  assert (text = [char_code "{"] ++ t ++ [char_code "}"]) as -> by congruence.
  cbn [json_wf] in Hw. apply andb_prop in Hw as [Hs Hw].
  rewrite keys_sorted_sort in H by (rewrite map_map; exact Hs).
  apply (dump_members_inv (fun v => DumpValue v (depth + 1))) in H as (ts & Hts & ->).
  exists ts. split; [done|]. split; [|done].
  eapply members_read; [exact (forallb_True_Forall _ _ Hw)| |exact Hts].
  intros m t Hwm Ht'. apply andb_prop in Hwm as [Hb Hwm].
  split; [by apply bytesb_iff|by apply dump_reads].
Qed.

(** ** Numbers out of the range of a double *)

(** The exact magnitude that a number text denotes. *)
Definition number_magnitude (ip fp ex : list Z) : Q :=
  decimal (digits_value (ip ++ fp)) ((scan_exponent ex).1 - len fp).

Lemma digits_value_cons c cs :
  digits_value (c :: cs) = (c - 48) * 10 ^ len cs + digits_value cs.
Proof. change (c :: cs) with ([c] ++ cs). by rewrite digits_value_app. Qed.

Lemma leading_digit c cs :
  all_digits (c :: cs) -> c <> 48 ->
  10 ^ len cs <= digits_value (c :: cs) < 10 ^ (len cs + 1).
Proof.
  intros Hd Hc. split; [by apply digits_value_lower|].
  replace (len cs + 1) with (len (c :: cs)) by (unfold len; cbn; lia).
  by apply digits_value_upper.
Qed.

Lemma leading_integer_spec total index ip :
  all_digits ip -> total = index + len ip ->
  match LeadingInteger total index ip with
  | None => digits_value ip = 0
  | Some l => 0 <= l < len ip /\ 10 ^ l <= digits_value ip < 10 ^ (l + 1)
  end.
Proof.
  intros Hd. revert index; induction Hd as [|c cs Hc Hd IH]; intros index Ht; [done|].
  assert (len (c :: cs) = len cs + 1) as Hl by (unfold len; cbn; lia). cbn [LeadingInteger].
  destruct (c =? char_code "0") eqn:E; cbn [negb].
  - specialize (IH (index + 1) ltac:(lia)). apply Z.eqb_eq in E as ->.
    rewrite digits_value_cons. change (char_code "0" - 48) with 0.
    destruct (LeadingInteger total (index + 1) cs); lia.
  - pose proof (leading_digit c cs ltac:(by constructor) ltac:(eval_chars; lia)) as H.
    replace (total - 1 - index) with (len cs) by lia. pose proof (len_nonneg cs). split; [lia|done].
Qed.

Lemma leading_fraction_spec index fp :
  all_digits fp -> 0 <= index ->
  match LeadingFraction index fp with
  | None => digits_value fp = 0
  | Some l => - (index + len fp) <= l < 0 /\
      10 ^ (l + index + len fp) <= digits_value fp < 10 ^ (l + index + len fp + 1)
  end.
Proof.
  intros Hd. revert index; induction Hd as [|c cs Hc Hd IH]; intros index Hi; [done|].
  assert (len (c :: cs) = len cs + 1) as Hl by (unfold len; cbn; lia). cbn [LeadingFraction].
  destruct (c =? char_code "0") eqn:E; cbn [negb].
  - specialize (IH (index + 1) ltac:(lia)). apply Z.eqb_eq in E as ->.
    rewrite digits_value_cons. change (char_code "0" - 48) with 0. rewrite Z.mul_0_l, Z.add_0_l, Hl.
    destruct (LeadingFraction (index + 1) cs) as [l|]; [|done].
    replace (l + index + (len cs + 1)) with (l + (index + 1) + len cs) by lia. lia.
  - pose proof (leading_digit c cs ltac:(by constructor) ltac:(eval_chars; lia)) as H.
    pose proof (len_nonneg cs). rewrite Hl. split; [lia|].
    by replace (-1 - index + index + (len cs + 1)) with (len cs) by lia.
Qed.

(** The exponent of the first digit that is not 0, of the integer part or else of the fraction. *)
Definition leading_exponent (ip fp : list Z) : option Z :=
  match LeadingInteger (len ip) 0 ip with Some l => Some l | None => LeadingFraction 0 fp end.

Lemma leading_exponent_spec ip fp :
  all_digits ip -> all_digits fp ->
  match leading_exponent ip fp with
  | None => digits_value (ip ++ fp) = 0
  | Some l => - len fp <= l < len ip /\
      10 ^ (l + len fp) <= digits_value (ip ++ fp) < 10 ^ (l + len fp + 1)
  end.
Proof.
  intros Hi Hf. unfold leading_exponent. rewrite digits_value_app.
  pose proof (leading_integer_spec (len ip) 0 ip Hi ltac:(lia)) as H1.
  pose proof (leading_fraction_spec 0 fp Hf ltac:(lia)) as H2.
  pose proof (digits_value_upper fp Hf). pose proof (digits_value_nonneg fp Hf).
  pose proof (len_nonneg fp). pose proof (len_nonneg ip).
  destruct (LeadingInteger (len ip) 0 ip) as [l|].
  - destruct H1 as [Hl H1]. split; [lia|].
    rewrite <- Z.add_assoc, (Z.add_comm (len fp) 1), Z.add_assoc.
    rewrite !Z.pow_add_r by lia. rewrite Z.pow_add_r in H1 by lia. nia.
  - rewrite H1, Z.mul_0_l, Z.add_0_l. destruct (LeadingFraction 0 fp) as [l|]; [|done].
    rewrite Z.add_0_r in H2. split; [lia|apply H2].
Qed.

Lemma saturated_exponent ds :
  all_digits ds -> SaturatedExponent ds = Z.min (digits_value ds) ExponentLimit.
Proof.
  unfold SaturatedExponent, digits_value.
  assert (forall n m, all_digits ds -> 0 <= n -> m = Z.min n ExponentLimit ->
    fold_left (fun e c => Z.min (e * 10 + (c - char_code "0")) ExponentLimit) ds m =
    Z.min (fold_left (fun v c => v * 10 + (c - char_code "0")) ds n) ExponentLimit) as H.
  { induction ds as [|c ds IH]; intros n m Hd Hn Hm; [done|]. apply Forall_cons in Hd as [Hc Hd].
    apply isdigit_spec in Hc. cbn [fold_left]. apply IH; [done| |]; eval_chars; [lia|].
    subst m. unfold ExponentLimit. lia. }
  intros Hd. by apply H.
Qed.

(** The saturated exponent has the sign that matters. *)
Lemma exponent_of_spec ex :
  exponent_part ex ->
  ExponentOf ex = Z.max (- ExponentLimit) (Z.min (scan_exponent ex).1 ExponentLimit).
Proof.
  intros [->|(c & s & ds & -> & Hc & Hs & Hne & Hd)]; [done|]. unfold ExponentOf, scan_exponent.
  assert ((c =? char_code "e") || (c =? char_code "E") = true) as -> by (eval_chars; lia).
  destruct ds as [|d ds]; [done|]. pose proof (digits_value_nonneg _ Hd) as Hv. pose proof Hd as Hd'.
  apply Forall_cons in Hd as [Hd _]. apply isdigit_spec in Hd. eval_chars.
  assert (len (d :: ds) =? 0 = false) as Hl by (unfold len; cbn; lia).
  destruct Hs as [->|[->| ->]]; cbn [app].
  - replace (d =? 45) with false by lia. replace (d =? 43) with false by lia. cbn [orb].
    rewrite span_digits_all by done. cbn [fst]. rewrite Hl, saturated_exponent by done.
    unfold ExponentLimit. cbn [fst]. lia.
  - change (43 =? 45) with false. change (43 =? 43) with true. cbn [orb].
    rewrite span_digits_all by done. cbn [fst]. rewrite Hl, saturated_exponent by done.
    unfold ExponentLimit. cbn [fst]. lia.
  - change (45 =? 45) with true. change (45 =? 43) with false. cbn [orb].
    rewrite span_digits_all by done. cbn [fst]. rewrite Hl, saturated_exponent by done.
    unfold ExponentLimit. cbn [fst]. lia.
Qed.

Lemma magnitude_below_one_parts negative ip fp ex :
  integer_part ip -> all_digits fp -> exponent_part ex ->
  MagnitudeBelowOne (sign_text negative ++ ip ++ fraction_text fp ++ ex) =
  match leading_exponent ip fp with None => true | Some l => l + ExponentOf ex <? 0 end.
Proof.
  intros Hip Hfp Hex. unfold MagnitudeBelowOne.
  assert (forall text, match sign_text negative ++ ip ++ text with
          | [] => sign_text negative ++ ip ++ text
          | c :: token' => if c =? char_code "-" then token' else sign_text negative ++ ip ++ text
          end = ip ++ text) as Hsign.
  { intros text. destruct Hip as (c & cs & -> & Hd & _). destruct negative; [done|]. cbn.
    apply Forall_cons in Hd as [Hd _]. apply isdigit_spec in Hd. eval_chars.
    by replace (c =? 45) with false by lia. }
  rewrite Hsign.
  rewrite span_digits_app by (eauto using fraction_exponent_no_digit, integer_part_no_digit_head).
  pose proof (scan_fraction_number fp ex Hfp Hex) as Hf. unfold scan_fraction in Hf. by rewrite Hf.
Qed.

(** [MagnitudeBelowOne] decides whether the number is below one. *)
Lemma magnitude_below_one_spec negative ip fp ex :
  integer_part ip -> all_digits fp -> exponent_part ex -> len ip + len fp <= ExponentLimit ->
  MagnitudeBelowOne (sign_text negative ++ ip ++ fraction_text fp ++ ex) = true <->
  (number_magnitude ip fp ex < 1)%Q.
Proof.
  intros Hip Hfp Hex Hl. rewrite magnitude_below_one_parts by done.
  pose proof (integer_part_no_digit_head ip Hip) as Hi.
  assert (0 <= digits_value (ip ++ fp)) as Hnn by (apply digits_value_nonneg, Forall_app; done).
  unfold number_magnitude. rewrite decimal_below_one by done. rewrite exponent_of_spec by done.
  pose proof (leading_exponent_spec ip fp Hi Hfp) as H1.
  pose proof (len_nonneg ip). pose proof (len_nonneg fp).
  destruct (leading_exponent ip fp) as [l|]; [|naive_solver]. destruct H1 as [H1 H2].
  set (e := (scan_exponent ex).1). set (m := digits_value (ip ++ fp)) in *.
  assert (1 <= 10 ^ (l + len fp)) as Hone
    by (pose proof (Z.pow_pos_nonneg 10 (l + len fp) ltac:(lia) ltac:(lia)); lia).
  assert (l + Z.max (- ExponentLimit) (Z.min e ExponentLimit) <? 0 = (l + e <? 0)) as ->
    by (unfold ExponentLimit in *; lia).
  rewrite Z.ltb_lt. split.
  - intros He. right. split; [lia|].
    pose proof (Z.pow_le_mono_r 10 (l + len fp + 1) (- (e - len fp)) ltac:(lia) ltac:(lia)). lia.
  - intros [Hz|[He Hlt]]; [lia|].
    destruct (Z.lt_ge_cases (l + e) 0) as [|Hge]; [done|].
    pose proof (Z.pow_le_mono_r 10 (- (e - len fp)) (l + len fp) ltac:(lia) ltac:(lia)). lia.
Qed.

(** ** Properties *)

(** C3. Writing a value and parsing the text gives the value back, at any value limit that it fits,
    and [TooLarge] at any lower one: integers, strings with their escapes, doubles through their
    shortest decimal text, and nesting up to the limit; only a non-negative signed integer comes
    back as the same unsigned integer. *)
Theorem json_round_trip v text maxValues :
  json_wf v = true -> Dump v = FromValue text -> 0 <= maxValues ->
  Parse text maxValues =
  Some (if count v <=? maxValues then FromValue (normal v)
        else FromStatus (Status.FailWithoutMessage TooLarge)).
Proof.
  intros Hw H Hm. unfold Parse, ParseText. destruct (dump_utf8 v Hw 0 text H) as [_ ->]. cbn [negb].
  rewrite (parse_document_reads v) by eauto using dump_reads. unfold within. by case_if.
Qed.

(** An object with a control character and a character of two UTF-16 units in a string, a double, a
    nested array and a negative integer. *)
Definition sample_value : JsonValue :=
  JObject [(txt "a", JArray [JNumber (Int64 (-7)); JNumber (UInt64 18446744073709551615); JNull]);
           (txt "b", JString [34; 10; 1; 0xF0; 0x9F; 0x98; 0x80]);
           (txt "c", JNumber (Double (S754_finite false 5764607523034235 (-52))))].

Lemma json_round_trip_witness :
  exists text, Dump sample_value = FromValue text /\
    Parse text 7 = Some (FromValue sample_value) /\
    Parse text 5 = Some (FromStatus (Status.FailWithoutMessage TooLarge)).
Proof.
  eexists. split; [vm_compute; reflexivity|]. split.
  - apply (json_round_trip sample_value); [reflexivity|vm_compute; reflexivity|lia].
  - apply (json_round_trip sample_value); [reflexivity|vm_compute; reflexivity|lia].
Defined.

(** A number with a fraction or an exponent is kept as the double nearest to the exact decimal
    it denotes; one too close to zero for a double becomes zero with its sign, and one too large is
    rejected, whatever the length of its exponent (for numbers of at most 10^17 digits, the limit at
    which the code saturates exponents). *)
Theorem json_number_range mText negative ip fp ex rest :
  integer_part ip -> all_digits fp -> exponent_part ex -> len ip + len fp <= ExponentLimit ->
  ConvertDouble mText (sign_text negative ++ ip ++ fraction_text fp ++ ex) rest =
  (if digits_value (ip ++ fp) =? 0 then Return (JNumber (Double (S754_zero negative)))
   else match round64 negative (number_magnitude ip fp ex) with
        | S754_finite s m e => Return (JNumber (Double (S754_finite s m e)))
        | _ => if Qle_bool 1 (number_magnitude ip fp ex)
               then Fail mText "number is out of range" rest
               else Return (JNumber (Double (S754_zero negative)))
        end).
Proof.
  intros Hip Hfp Hex Hl. unfold ConvertDouble. rewrite from_chars_number by done.
  fold (number_magnitude ip fp ex). destruct (_ =? 0) eqn:E; [done|].
  pose proof (magnitude_below_one_spec negative ip fp ex Hip Hfp Hex Hl) as Hm.
  assert (hd 0 (sign_text negative ++ ip ++ fraction_text fp ++ ex) =? char_code "-" = negative) as Hh.
  { destruct Hip as (c & cs & -> & Hd & _). destruct negative; [done|]. cbn.
    apply Forall_cons in Hd as [Hd _]. apply isdigit_spec in Hd. eval_chars. lia. }
  assert (MagnitudeBelowOne (sign_text negative ++ ip ++ fraction_text fp ++ ex)
          = negb (Qle_bool 1 (number_magnitude ip fp ex))) as ->.
  { apply eq_bool_prop_intro. rewrite !Is_true_true, Hm, negb_true_iff.
    destruct (Qle_bool 1 (number_magnitude ip fp ex)) eqn:Eq.
    - apply Qle_bool_iff in Eq. split; [|done]. intros Hlt.
      exfalso. by apply (Qlt_not_le _ _ Hlt).
    - split; [done|]. intros _. apply Qnot_le_lt. intros Hle. apply Qle_bool_iff in Hle. congruence. }
  assert (round64 negative (number_magnitude ip fp ex) <> S754_nan) as Hnn.
  { apply round64_not_nan, decimal_nonneg, digits_value_nonneg, Forall_app. split; [|done].
    by apply integer_part_no_digit_head. }
  destruct (round64 negative (number_magnitude ip fp ex)); rewrite ?Hh; try done;
    by destruct (Qle_bool 1 (number_magnitude ip fp ex)).
Qed.

Lemma json_number_range_witness :
  ConvertDouble [] (sign_text true ++ txt "1" ++ fraction_text [] ++ txt "e-400") []
    = Return (JNumber (Double (S754_zero true))) /\
  ConvertDouble [] (sign_text false ++ txt "1" ++ fraction_text (txt "5") ++ txt "e0") []
    = Return (JNumber (Double (S754_finite false 6755399441055744 (-52)))).
Proof.
  split.
  - rewrite json_number_range; [vm_compute; reflexivity| |constructor| |vm_compute; discriminate].
    + exists 49, []. repeat split. by repeat constructor.
    + right. exists 101, [45], (txt "400"). repeat split; [by left|by right; right|done|].
      by repeat constructor.
  - rewrite json_number_range;
      [vm_compute; reflexivity| |by repeat constructor| |vm_compute; discriminate].
    + exists 49, []. repeat split. by repeat constructor.
    + right. exists 101, [], (txt "0"). repeat split; [by left|by left|done|].
      by repeat constructor.
Defined.

(** C19. Parsing ends on every text, and what it accepts is sound: a value that satisfies the
    invariants of the type (sorted unique keys, integers in range), that can be written again
    (nesting within the limit, finite numbers, every string and key valid UTF-8 however it was
    escaped) and of no more values than the limit.  Everything else is [InvalidFormat], or
    [TooLarge] when the limit is below the length of the text. *)
Theorem json_parse_sound text maxValues :
  is_bytes text -> 0 <= maxValues ->
  exists r, Parse text maxValues = Some r /\
  match r with
  | FromValue v =>
      json_wf v = true /\ printable 0 v = true /\ normal v = v /\ count v <= maxValues
  | FromStatus s =>
      Status.Code s = InvalidFormat \/ (Status.Code s = TooLarge /\ maxValues < len text)
  end.
Proof.
  intros Hb Hm. unfold Parse, ParseText. destruct (IsValidUtf8 text) eqn:Eu; cbn [negb].
  2: { eexists. split; [done|]. by left. }
  pose proof (parse_document_good text maxValues (conj Hb Eu) Hm) as H.
  destruct (ParseDocument text maxValues) as [v|[]|]; cbn in H.
  - destruct H as [(H1 & H2 & H3) H4]. eexists. by split.
  - eexists. split; [done|]. by left.
  - eexists. split; [done|]. by right.
  - done.
Qed.

Lemma json_parse_sound_witness :
  exists r, Parse (txt "[1, {}, -0.5e-3]") 4 = Some r /\ Result.IsOk r = true.
Proof.
  destruct (json_parse_sound (txt "[1, {}, -0.5e-3]") 4) as (r & Hr & _);
    [apply txt_bytes|lia|].
  exists r. split; [exact Hr|]. vm_compute in Hr. injection Hr as <-. reflexivity.
Defined.
