(* ===== verification/Message.v ===== *)
(** * Protocol: message envelopes.

    [Protocol/Message.h] and [Protocol/Message.cpp]: the JSON object with the members [type], [body],
    [seq] and [error] that a frame carries, parsed and written on [Json.v], and the messages that are
    assembled from values prepared once.  A parsed message is what the dispatcher handles
    ([Dispatcher.v]).  Allocation failures, which leave no state behind, are not modelled here. *)

From S2P Require Import Prelude CoreError Utf8 Charconv Json Dispatcher.
Import Utf8 Json.
#[local] Open Scope Z_scope.

Module Message.

Record Message : Type := MkMessage {
  mType : list Z;
  mBody : option JsonValue;
  mSequence : option JsonValue;
  mError : option JsonValue;
  mRawBodySize : Z
}.

Definition Type_ (m : Message) : list Z := mType m.
Definition Body (m : Message) : option JsonValue := mBody m.
Definition Sequence (m : Message) : option JsonValue := mSequence m.
Definition Error (m : Message) : option JsonValue := mError m.
Definition RawBodySize (m : Message) : Z := mRawBodySize m.

(** The fields to serialize; a null pointer is [None]. *)
Record MessageFields : Type := MkFields {
  type : list Z;
  body : option JsonValue;
  sequence : option JsonValue;
  error : option JsonValue
}.

Definition InvalidEnvelope (message : string) : Status := Status.Fail InvalidFormat message.

Definition IsErrorEnvelope (value : JsonValue) : bool :=
  match TryObject value with
  | None => false
  | Some _ =>
      match Find (txt "code") value with
      | Some code => match TryString code with Some _ => true | None => false end
      | None => false
      end
  end.

Definition ValidateFields (fields : MessageFields) (failureCode : ErrorCode) : Status :=
  if len (type fields) =? 0 then Status.Fail failureCode "a message type must not be empty"
  else
    match body fields, error fields with
    | None, None => Status.Fail failureCode "a message requires body or error"
    | _, _ =>
        if match body fields with Some b => negb (IsObject b) | None => false end then
          Status.Fail failureCode "a message body must be a JSON object"
        else if match error fields with Some e => negb (IsErrorEnvelope e) | None => false end then
          Status.Fail failureCode "a message error requires an object with string code"
        else Status.Ok
    end.

(** The part of [ParseMessage] after the document is parsed. *)
Definition MessageOf (document : ParsedEnvelopeDocument) : Result Message :=
  if negb (isObject document) then
    FromStatus (InvalidEnvelope "the message envelope is not an object")
  else
    let findMember key := FindMember key (members document) in
    match findMember (txt "type") with
    | Some (JString type) =>
        let body := findMember (txt "body") in
        let error := findMember (txt "error") in
        let fieldsStatus := ValidateFields (MkFields type body None error) InvalidFormat in
        if negb (Status.IsOk fieldsStatus) then FromStatus fieldsStatus
        else
          FromValue
            (MkMessage type body (findMember (txt "seq")) error
               match body with Some _ => envelopeRawBodySize document | None => 0 end)
    | _ =>
        FromStatus (InvalidEnvelope "the message envelope requires a non-empty string type")
    end.

Definition ParseMessage (jsonBody : list Z) (maxValues : Z) : option (Result Message) :=
  match ParseEnvelopeDocument jsonBody maxValues with
  | None => None
  | Some (FromStatus s) => Some (FromStatus s)
  | Some (FromValue document) => Some (MessageOf document)
  end.

(** [envelope.emplace(key, value)], for a pointer that may be null. *)
Definition EmplaceField (key : list Z) (value : option JsonValue) (envelope : Object) : Object :=
  match value with
  | None => envelope
  | Some value =>
      match Emplace key value envelope with Some envelope => envelope | None => envelope end
  end.

Definition SerializeMessage (fields : MessageFields) : Result (list Z) :=
  let fieldsStatus := ValidateFields fields InvalidArgument in
  if negb (Status.IsOk fieldsStatus) then FromStatus fieldsStatus
  else
    let envelope := EmplaceField (txt "type") (Some (JString (type fields))) [] in
    let envelope := EmplaceField (txt "body") (body fields) envelope in
    let envelope := EmplaceField (txt "seq") (sequence fields) envelope in
    let envelope := EmplaceField (txt "error") (error fields) envelope in
    Dump (JObject envelope).

(** The overload with a type and a body. *)
Definition SerializeBody (type : list Z) (body : JsonValue) : Result (list Z) :=
  SerializeMessage (MkFields type (Some body) None None).

Record PreparedJsonValue : Type := MkPreparedValue { valueBytes : list Z }.
Record PreparedMessage : Type := MkPreparedMessage { messageBytes : list Z }.

(** Envelope, body and array: three containers around a prepared value. *)
Definition PrepareJsonValue (value : JsonValue) : Result PreparedJsonValue :=
  (let* dumped := DumpJsonAtDepth value 3 in FromValue (MkPreparedValue dumped))%result.

Definition PrepareMessage (fields : MessageFields) : Result PreparedMessage :=
  (let* bytes := SerializeMessage fields in FromValue (MkPreparedMessage bytes))%result.

(** The loop over the items of [PrepareArrayMessage]; a null or an empty item ends it. *)
Fixpoint AppendItems (first : bool) (text : list Z) (items : list (option PreparedJsonValue))
    : Result (list Z) :=
  match items with
  | [] => FromValue text
  | item :: items' =>
      match item with
      | Some item =>
          if len (valueBytes item) =? 0 then
            FromStatus (Status.FailWithoutMessage InvalidArgument)
          else
            AppendItems false
              (text ++ (if first then [] else [char_code ","]) ++ valueBytes item) items'
      | None => FromStatus (Status.FailWithoutMessage InvalidArgument)
      end
  end.

Definition PrepareArrayMessage (type arrayKey : list Z) (items : list (option PreparedJsonValue))
    : Result PreparedMessage :=
  if len type =? 0 then FromStatus (Status.FailWithoutMessage InvalidArgument)
  else (
    let* quotedType := Dump (JString type) in
    let* quotedKey := Dump (JString arrayKey) in
    let text := [char_code "{"; 34] ++ txt "body" ++ [34] ++ txt ":{" ++ quotedKey ++ txt ":[" in
    let* text := AppendItems true text items in
    let text := text ++ txt "]}," ++ [34] ++ txt "type" ++ [34] ++ txt ":" in
    FromValue (MkPreparedMessage (text ++ quotedType ++ [char_code "}"])))%result.

End Message.
Import Message.

(** What the dispatcher asks of a parsed message. *)
#[export] Instance parsed_message : DispatchMessage Message := {
  MessageType := Message.Type_;
  HasBody m := match Message.Body m with Some _ => true | None => false end;
  Dispatcher.RawBodySize := Message.RawBodySize
}.

(** ** The envelope that is written *)

Definition option_wf (v : option JsonValue) : bool := match v with Some v => json_wf v | None => true end.
Definition option_count (v : option JsonValue) : Z := match v with Some v => count v | None => 0 end.

(** What the C++ types guarantee of the fields. *)
Definition fields_wf (f : MessageFields) : bool :=
  bytesb (type f) && option_wf (body f) && option_wf (sequence f) && option_wf (error f).

(** The values of a message, its own object excepted. *)
Definition fields_count (f : MessageFields) : Z :=
  1 + option_count (body f) + option_count (sequence f) + option_count (error f).

Definition member (key : list Z) (v : option JsonValue) : Object :=
  match v with Some v => [(key, v)] | None => [] end.

(** The members in the order of their keys. *)
Definition envelope_of (f : MessageFields) : Object :=
  member (txt "body") (body f) ++ member (txt "error") (error f) ++ member (txt "seq") (sequence f)
  ++ [(txt "type", JString (type f))].

(** The bytes a body takes in an envelope. *)
Definition body_size (body : option JsonValue) : Z :=
  match body with
  | Some b => match DumpValue b 1 with FromValue t => len t | FromStatus _ => 0 end
  | None => 0
  end.

(** The message that the fields describe, with a body of [size] bytes. *)
Definition message_of (f : MessageFields) (size : Z) : Message :=
  MkMessage (type f) (option_map normal (body f)) (option_map normal (sequence f))
    (option_map normal (error f)) match body f with Some _ => size | None => 0 end.

Lemma serialize_message_spec f bytes :
  SerializeMessage f = FromValue bytes ->
  Status.IsOk (ValidateFields f InvalidArgument) = true /\ Dump (JObject (envelope_of f)) = FromValue bytes.
Proof.
  unfold SerializeMessage. intros H. destruct (Status.IsOk _); [|done]. split; [done|].
  rewrite <- H. cbn [negb]. unfold envelope_of.
  by destruct f as [t [b|] [s|] [e|]].
Qed.

Lemma envelope_wf f : fields_wf f = true -> json_wf (JObject (envelope_of f)) = true.
Proof.
  destruct f as [t b s e]. unfold fields_wf, envelope_of. cbn [type body sequence error].
  rewrite !andb_true_iff. intros [[[Ht Hb] Hs] He].
  destruct b as [b|], s as [s|], e as [e|]; cbn in *; by rewrite ?Hb, ?Hs, ?He, Ht.
Qed.

Lemma envelope_count f : count_all (map snd (envelope_of f)) = fields_count f.
Proof.
  destruct f as [t b s e]. unfold fields_count, envelope_of, count_all.
  destruct b as [b|], s as [s|], e as [e|]; cbn; lia.
Qed.

(** Reading a value keeps its kind. *)
Lemma normal_is_object v : IsObject (normal v) = IsObject v.
Proof. by destruct v as [| |[]| | |]. Qed.

Lemma find_member_normal key o :
  FindMember key (normal_members o) = option_map normal (FindMember key o).
Proof. induction o as [|[k v] o IH]; [done|]. cbn. by case_if. Qed.

Lemma normal_try_string v : TryString (normal v) = TryString v.
Proof. by destruct v as [| |[]| | |]. Qed.

Lemma normal_is_error v : IsErrorEnvelope (normal v) = IsErrorEnvelope v.
Proof.
  destruct v as [| |[]| | |o]; try done. unfold IsErrorEnvelope. cbn [normal TryObject].
  unfold Find. cbn [TryObject]. change (map _ o) with (normal_members o).
  rewrite find_member_normal. destruct (FindMember _ o) as [c|]; [|done]. cbn [option_map].
  by rewrite normal_try_string.
Qed.

(** The fields of a message that was written are valid as those of one that was read. *)
Lemma validate_normal f seq :
  Status.IsOk (ValidateFields f InvalidArgument) = true ->
  Status.IsOk (ValidateFields
    (MkFields (type f) (option_map normal (body f)) seq (option_map normal (error f))) InvalidFormat)
  = true.
Proof.
  destruct f as [t b s e]. unfold ValidateFields. cbn [type body sequence error].
  destruct (len t =? 0); [done|].
  destruct b as [b|], e as [e|]; cbn [option_map]; rewrite ?normal_is_object, ?normal_is_error;
    try done; by repeat case_if.
Qed.

Lemma message_of_envelope f hb size :
  Status.IsOk (ValidateFields f InvalidArgument) = true ->
  MessageOf (MkEnvelope (normal_members (envelope_of f)) true hb size)
  = FromValue (message_of f size).
Proof.
  intros Hv. unfold MessageOf. cbn [isObject negb members].
  rewrite !find_member_normal.
  assert (FindMember (txt "type") (envelope_of f) = Some (JString (type f)) /\
          FindMember (txt "body") (envelope_of f) = body f /\
          FindMember (txt "error") (envelope_of f) = error f /\
          FindMember (txt "seq") (envelope_of f) = sequence f) as (-> & -> & -> & ->).
  { by destruct f as [t [b|] [s|] [e|]]. }
  cbn [option_map normal]. rewrite validate_normal by done. cbn [negb].
  unfold message_of. do 2 f_equal. cbn [envelopeRawBodySize]. by destruct (body f).
Qed.

Lemma record_bodies_other top ms ts :
  Forall (fun m => bytes_eqb m.1 (txt "body") = false) ms ->
  record_bodies (Some top) ms ts = Some top.
Proof.
  intros H. revert ts; induction H as [|m ms Hm _ IH]; intros [|t ts]; try done.
  cbn [record_bodies]. unfold RecordBody. by rewrite Hm.
Qed.

(** The size recorded for the body is that of its text. *)
Lemma envelope_body_size f ts :
  length ts = length (envelope_of f) ->
  message_of f (rawBodySize
    match record_bodies (Some (MkTopLevel false 0)) (envelope_of f) ts with
    | Some t => t | None => MkTopLevel false 0 end) = message_of f (len (hd [] ts)).
Proof.
  intros Hl. unfold message_of. f_equal. destruct f as [t [b|] s e]; [|done].
  destruct ts as [|t1 ts]; [done|]. cbn [body hd].
  unfold envelope_of. cbn [member body app record_bodies fst].
  change (RecordBody (txt "body") (len t1) (Some _)) with (Some (MkTopLevel true (len t1))).
  rewrite record_bodies_other; [done|].
  destruct e as [e|], s as [s|]; by repeat constructor.
Qed.

(** An envelope of members that read parses to a message, or exceeds the limit. *)
Lemma parse_message_reads f ws1 ws2 ts maxValues :
  blank ws1 = true -> blank ws2 = true -> fields_wf f = true ->
  Status.IsOk (ValidateFields f InvalidArgument) = true ->
  Forall2 (member_reads 1) (envelope_of f) ts -> 0 <= maxValues ->
  let text := [char_code "{"] ++ joined (char_code "," :: ws1) true
                (member_texts ws2 (envelope_of f) ts) ++ [char_code "}"] in
  IsValidUtf8 text = true ->
  ParseMessage text maxValues =
  Some (if fields_count f <=? maxValues then FromValue (message_of f (len (hd [] ts)))
        else FromStatus (Status.FailWithoutMessage TooLarge)).
Proof.
  intros Hw1 Hw2 Hwf Hv H Hm text Hu. unfold ParseMessage, ParseEnvelopeDocument, ParseText.
  rewrite Hu. cbn [negb]. unfold text.
  rewrite (parse_envelope_reads ws1 ws2 (envelope_of f) ts); [| | | | | |done]; try done.
  2: { apply envelope_wf in Hwf. cbn [json_wf] in Hwf. by apply andb_prop in Hwf as [? _]. }
  2: { by destruct f as [? [?|] [?|] [?|]]. }
  rewrite envelope_count. unfold within. case_if; [|done]. cbn zeta.
  rewrite message_of_envelope by done.
  by rewrite envelope_body_size by by apply Forall2_length in H.
Qed.

(** ** Assembled messages *)

Lemma append_items_spec first text ts :
  Forall (fun t => t <> []) ts ->
  AppendItems first text (map (fun t => Some (MkPreparedValue t)) ts)
  = FromValue (text ++ joined [char_code ","] first ts).
Proof.
  intros H. revert first text; induction H as [|t ts Ht _ IH]; intros first text; cbn.
  { by rewrite app_nil_r. }
  replace (len t =? 0) with false by (destruct t; [done|unfold len; cbn; lia]).
  rewrite IH. by rewrite <- !app_assoc.
Qed.

(** The body of an assembled message: one array, of the prepared texts. *)
Definition array_body (key : list Z) (vs : list JsonValue) : JsonValue :=
  JObject [(key, JArray vs)].

Definition array_body_text (key : list Z) (ts : list (list Z)) : list Z :=
  txt "{" ++ DumpEscapedString key ++ txt ":[" ++ joined [char_code ","] true ts ++ txt "]}".

Lemma array_body_reads key vs ts :
  is_bytes key -> Forall2 (reads 3) vs ts -> reads 1 (array_body key vs) (array_body_text key ts).
Proof.
  intros Hk H. pose proof (reads_array 2 [] vs ts ltac:(lia) eq_refl H) as Ha.
  assert (Forall2 (member_reads (1 + 1)) [(key, JArray vs)]
            [[char_code "["] ++ joined [char_code ","] true ts ++ [char_code "]"]]) as Hm.
  { constructor; [by split|constructor]. }
  pose proof (reads_object 1 [] [] [(key, JArray vs)] _ ltac:(lia) eq_refl eq_refl eq_refl Hm) as Ho.
  replace (array_body_text key ts) with
    ([char_code "{"] ++ joined [char_code ","] true
       (member_texts [] [(key, JArray vs)]
          [[char_code "["] ++ joined [char_code ","] true ts ++ [char_code "]"]]) ++ [char_code "}"]);
    [done|].
  unfold array_body_text. cbn [member_texts zip_with joined app]. unfold member_text. cbn [fst app].
  rewrite app_nil_r, <- !app_assoc. cbn [app]. rewrite <- !app_assoc. done.
Qed.

(** The prepared texts: they read as their values, three levels deep. *)
Lemma prepared_texts vs items :
  forallb json_wf vs = true ->
  Forall2 (fun v item => PrepareJsonValue v = FromValue item) vs items ->
  Forall2 (reads 3) vs (map valueBytes items) /\ Forall utf8 (map valueBytes items) /\
  Forall (fun t => t <> []) (map valueBytes items).
Proof.
  intros Hw H. induction H as [|v item vs items Hv _ IH]; [repeat constructor|].
  cbn [forallb] in Hw. apply andb_prop in Hw as [Hw1 Hw2]. destruct (IH Hw2) as (I1 & I2 & I3).
  unfold PrepareJsonValue in Hv. apply result_bind_value in Hv as (t & Hv & E). injection E as <-.
  pose proof (dump_reads v Hw1 3 t Hv) as Hr. cbn [map valueBytes].
  split; [by constructor|]. split; constructor; [by eapply dump_utf8|done| |done].
  by destruct Hr as [(c & t' & -> & _) _].
Qed.

Definition array_fields (type key : list Z) (vs : list JsonValue) : MessageFields :=
  MkFields type (Some (array_body key vs)) None None.

Definition array_message_text (type key : list Z) (vs : list JsonValue) (ts : list (list Z)) : list Z :=
  [char_code "{"] ++ joined [char_code ","] true
    (member_texts [] (envelope_of (array_fields type key vs))
       [array_body_text key ts; DumpEscapedString type]) ++ [char_code "}"].

Lemma prepare_array_text type key vs ts :
  type <> [] -> IsValidUtf8 type = true -> IsValidUtf8 key = true -> Forall (fun t => t <> []) ts ->
  PrepareArrayMessage type key (map (fun t => Some (MkPreparedValue t)) ts)
  = FromValue (MkPreparedMessage (array_message_text type key vs ts)).
Proof.
  intros Hne Ht Hk Hts. unfold PrepareArrayMessage.
  replace (len type =? 0) with false by (destruct type; [done|unfold len; cbn; lia]).
  unfold Dump, DumpJsonAtDepth. cbn [DumpValue]. rewrite Ht, Hk.
  change (MaximumJsonNestingDepth <? 0) with false. cbn [negb Result.bind].
  rewrite append_items_spec by done. cbn [Result.bind]. do 2 f_equal.
  unfold array_message_text, array_body_text, envelope_of, array_fields.
  cbn [member body error sequence Message.type app member_texts zip_with joined fst].
  unfold member_text. rewrite <- !app_assoc. cbn [app]. do 8 f_equal.
  rewrite <- !app_assoc. cbn [app]. rewrite <- ?app_assoc. cbn [app]. done.
Qed.

Lemma array_message_utf8 type key vs ts :
  utf8 type -> utf8 key -> Forall utf8 ts -> utf8 (array_message_text type key vs ts).
Proof.
  intros Ht Hk Hts. unfold array_message_text. apply utf8_app; [ascii_list|].
  apply utf8_app; [|ascii_list]. apply joined_utf8; [ascii_list|].
  constructor; [|constructor; [|constructor]].
  - apply utf8_app; [apply dump_string_utf8; ascii_list|]. apply (utf8_app [_]); [ascii_list|].
    apply utf8_app; [ascii_list|]. apply utf8_app; [by apply dump_string_utf8|].
    apply utf8_app; [ascii_list|]. apply utf8_app; [|ascii_list]. by apply joined_utf8; [ascii_list|].
  - apply utf8_app; [apply dump_string_utf8; ascii_list|]. apply (utf8_app [_]); [ascii_list|].
    by apply dump_string_utf8.
Qed.

(** ** Properties *)

(** A message that is serialized parses back to itself: the same type, body, sequence and error
    values (a non-negative signed integer as an unsigned one), with the size that the body takes in
    the bytes; under a value limit that its values exceed, it is refused as [TooLarge]. *)
Theorem message_round_trip f bytes maxValues :
  fields_wf f = true -> SerializeMessage f = FromValue bytes -> 0 <= maxValues ->
  ParseMessage bytes maxValues =
  Some (if fields_count f <=? maxValues then FromValue (message_of f (body_size (body f)))
        else FromStatus (Status.FailWithoutMessage TooLarge)).
Proof.
  intros Hwf H Hm. apply serialize_message_spec in H as [Hv Hd].
  pose proof (dump_utf8 _ (envelope_wf f Hwf) 0 bytes Hd) as [_ Hu].
  destruct (dump_object_texts _ 0 bytes (envelope_wf f Hwf) Hd) as (ts & Hts & Hr & ->).
  rewrite (parse_message_reads f [32] [32] ts) by done.
  replace (message_of f (body_size (body f))) with (message_of f (len (hd [] ts))); [done|].
  unfold message_of. f_equal. destruct f as [t [b|] s e]; [|done]. cbn [body body_size].
  apply Forall2_cons_inv_l in Hts as (t1 & ts1 & H1 & _ & ->). cbn [snd] in H1. change (0 + 1) with 1 in H1. by rewrite H1.
Qed.

Definition sample_fields : MessageFields :=
  MkFields (txt "chat") (Some (JObject [(txt "to", JNumber (Int64 7))]))
    (Some (JArray [JNull; JString (txt "x")])) (Some (JObject [(txt "code", JString (txt "busy"))])).

Lemma message_round_trip_witness :
  exists bytes, SerializeMessage sample_fields = FromValue bytes /\
    ParseMessage bytes 100 =
      Some (FromValue
        (MkMessage (txt "chat") (Some (JObject [(txt "to", JNumber (UInt64 7))]))
           (Some (JArray [JNull; JString (txt "x")]))
           (Some (JObject [(txt "code", JString (txt "busy"))])) 9)).
Proof.
  eexists. split; [vm_compute; reflexivity|].
  apply (message_round_trip sample_fields); [reflexivity|vm_compute; reflexivity|lia].
Defined.

(** A message assembled from values that were each prepared once, without writing or checking
    them again, is a well-formed message: it parses to the type and to a body whose one member is
    the array of those values, in order.  The three levels of nesting that preparing a value
    reserves are the ones the envelope adds. *)
Theorem prepared_array_message type key vs items maxValues :
  is_bytes type -> is_bytes key -> IsValidUtf8 type = true -> IsValidUtf8 key = true -> type <> [] ->
  forallb json_wf vs = true ->
  Forall2 (fun v item => PrepareJsonValue v = FromValue item) vs items -> 0 <= maxValues ->
  exists bytes, PrepareArrayMessage type key (map Some items) = FromValue (MkPreparedMessage bytes) /\
  ParseMessage bytes maxValues =
  Some (if count (array_body key vs) + 1 <=? maxValues
        then FromValue
          (MkMessage type (Some (array_body key (map normal vs))) None None
             (len (array_body_text key (map valueBytes items))))
        else FromStatus (Status.FailWithoutMessage TooLarge)).
Proof.
  intros Ht Hk Hut Huk Hne Hw Hitems Hm.
  destruct (prepared_texts vs items Hw Hitems) as (Hreads & Hutf & Hnn).
  set (ts := map valueBytes items) in *.
  assert (map Some items = map (fun t => Some (MkPreparedValue t)) ts) as ->.
  { unfold ts. rewrite map_map. apply map_ext. by intros []. }
  exists (array_message_text type key vs ts). split; [by apply prepare_array_text|].
  set (f := array_fields type key vs).
  rewrite (parse_message_reads f [] [] [array_body_text key ts; DumpEscapedString type]); try done.
  - assert (fields_count f = count (array_body key vs) + 1) as ->; [|done].
    unfold f, fields_count. cbn [array_fields body sequence error option_count]. lia.
  - unfold f, fields_wf. cbn [array_fields Message.type body sequence error option_wf].
    rewrite (proj2 (bytesb_iff type) Ht). unfold array_body.
    cbn [json_wf map fst snd keys_sorted forallb andb].
    by rewrite Hw, (proj2 (bytesb_iff key) Hk).
  - unfold f, ValidateFields. cbn. by replace (len type =? 0) with false
      by (destruct type; [done|unfold len; cbn; lia]).
  - constructor; [split; [apply txt_bytes|by apply array_body_reads]|].
    constructor; [split; [apply txt_bytes|by apply reads_string]|constructor].
  - by apply array_message_utf8.
Qed.

Lemma prepared_array_message_witness :
  exists bytes,
    PrepareArrayMessage (txt "list") (txt "items")
      (map Some [MkPreparedValue (txt "[1]"); MkPreparedValue (txt "null")])
    = FromValue (MkPreparedMessage bytes) /\
    ParseMessage bytes 10 =
      Some (FromValue
        (MkMessage (txt "list")
           (Some (JObject [(txt "items", JArray [JArray [JNumber (UInt64 1)]; JNull])]))
           None None 20)).
Proof.
  apply (prepared_array_message (txt "list") (txt "items") [JArray [JNumber (Int64 1)]; JNull]
    [MkPreparedValue (txt "[1]"); MkPreparedValue (txt "null")] 10);
    [apply txt_bytes|apply txt_bytes|reflexivity|reflexivity|discriminate|reflexivity| |lia].
  constructor; [reflexivity|]. constructor; [reflexivity|constructor].
Defined.
