(* ===== verification/WebSocket.v ===== *)
(** * Web: the WebSocket protocol.

    The WebSocket half of [Web/WebProtocol.h|cpp]: the frames a client sends and the server answers,
    the handshake key (with SHA-1 and Base64), the choice of a subprotocol and the check that a text
    message sent in fragments is UTF-8.  Output parameters are results next to the returned value;
    an output that the code leaves alone is returned as it came in. *)

From S2P Require Import Prelude CoreError Utf8 Envelopes RequestData.
Import Utf8.

Module WebSocket.

(** ** Frames *)

Inductive FrameParseKind : Type := NeedMore | Complete | Error.

#[export] Instance FrameParseKind_eq_dec : EqDecision FrameParseKind.
Proof. solve_decision. Defined.

Record WebSocketFrame : Type := MkFrame { final : bool; opcode : Z; payload : list Z }.

Record FrameParseResult : Type := MkParse { kind : FrameParseKind; consumed : Z; closeCode : Z }.

(** The default member values of [FrameParseResult]. *)
Definition NeedMoreResult : FrameParseResult := MkParse NeedMore 0 1002.
Definition ErrorResult (code : Z) : FrameParseResult := MkParse Error 0 code.

Definition KnownOpcode (op : Z) : bool :=
  (op =? 0) || (op =? 1) || (op =? 2) || (op =? 8) || (op =? 9) || (op =? 10).

(** The loop over the eight length bytes. *)
Definition ReadLength64 (input : list Z) : Z :=
  fold_left (fun length index => Z.lor (wrap64 (Z.shiftl length 8)) (nth index input 0)) (seq 2 8) 0.

(** The length announced by the header and the size of the header, or the result to return. *)
Definition ReadLength (second : Z) (input : list Z) : FrameParseResult + Z * nat :=
  let length := Z.land second 127 in
  if length =? 126 then
    if len input <? 4 then inl NeedMoreResult
    else
      let length := Z.lor (Z.shiftl (nth 2 input 0) 8) (nth 3 input 0) in
      if length <? 126 then inl (ErrorResult 1002) else inr (length, 4%nat)
  else if length =? 127 then
    if len input <? 10 then inl NeedMoreResult
    else if negb (Z.land (nth 2 input 0) 128 =? 0) then inl (ErrorResult 1002)
    else
      let length := ReadLength64 input in
      if length <? 65536 then inl (ErrorResult 1002) else inr (length, 10%nat)
  else inr (length, 2%nat).

(** The loop that removes the mask. *)
Definition Unmask (header payloadSize : nat) (input : list Z) : list Z :=
  map (fun index => Z.lxor (nth (header + 4 + index) input 0) (nth (header + index mod 4) input 0))
    (seq 0 payloadSize).

Definition ParseClientFrame (input : list Z) (maxPayload : Z) (frame : WebSocketFrame)
    : FrameParseResult * WebSocketFrame :=
  if len input <? 2 then (NeedMoreResult, frame)
  else
    let first := nth 0 input 0 in
    let second := nth 1 input 0 in
    let opcode := Z.land first 15 in
    if negb (Z.land first 0x70 =? 0) || (Z.land second 0x80 =? 0) || negb (KnownOpcode opcode) then
      (ErrorResult 1002, frame)
    else
      let control := 8 <=? opcode in
      if control && ((Z.land first 0x80 =? 0) || (125 <? Z.land second 127)) then
        (ErrorResult 1002, frame)
      else
        match ReadLength second input with
        | inl result => (result, frame)
        | inr (length, header) =>
            if negb control && (maxPayload <? length) then (ErrorResult 1009, frame)
            else if SIZE_MAX - Z.of_nat header - 4 <? length then (ErrorResult 1009, frame)
            else if len input <? Z.of_nat header + 4 + length then (NeedMoreResult, frame)
            else
              (MkParse Complete (Z.of_nat header + 4 + length) 1000,
               MkFrame (negb (Z.land first 128 =? 0)) opcode (Unmask header (Z.to_nat length) input))
        end.

(** The length field of a frame: the second byte without the mask bit and what follows it. *)
Definition LengthField (size : Z) : list Z :=
  if size <? 126 then [wrap8 size]
  else if size <=? 65535 then
    [126; wrap8 (Z.land (Z.shiftr size 8) 255); wrap8 (Z.land size 255)]
  else 127 :: map (fun k => wrap8 (Z.land (Z.shiftr size (56 - 8 * Z.of_nat k)) 255)) (seq 0 8).

Definition EncodeServerFrame (opcode : Z) (payload : list Z) (final : bool) : list Z :=
  wrap8 (Z.lor (if final then 0x80 else 0) opcode) :: LengthField (len payload) ++ payload.

Definition ValidCloseCode (code : Z) : bool :=
  ((1000 <=? code) && (code <=? 1014) && negb (code =? 1004) && negb (code =? 1005)
   && negb (code =? 1006)) || ((3000 <=? code) && (code <=? 4999)).

(** ** UTF-8 in fragments *)

(** [pending] holds the first [size] bytes of the array, the only ones the code reads. *)
Record Utf8FragmentState : Type := MkFragment { pending : list Z }.

Definition NewFragment : Utf8FragmentState := MkFragment [].

(** The lambda [width]. *)
Definition Width (ch : Z) : nat :=
  if ch <? 0x80 then 1
  else if (0xc2 <=? ch) && (ch <=? 0xdf) then 2
  else if (0xe0 <=? ch) && (ch <=? 0xef) then 3
  else if (0xf0 <=? ch) && (ch <=? 0xf4) then 4
  else 0.

Definition PadByte (lead : Z) (index : nat) : Z :=
  if (index =? 1)%nat && (lead =? 0xe0) then 0xa0
  else if (index =? 1)%nat && (lead =? 0xf0) then 0x90
  else 0x80.

(** The lambda [validPartial]. *)
Definition ValidPartial (pending : list Z) : bool :=
  let lead := nth 0 pending 0 in
  let expected := Width lead in
  if (expected =? 0)%nat then false
  else
    IsValidUtf8 (take expected (pending ++
      map (PadByte lead) (seq (length pending) (expected - length pending)))).

(** The loop that walks back over continuation bytes; [last] counts down to 0. *)
Fixpoint LastLead (text : list Z) (last : nat) : nat :=
  match last with
  | O => O
  | S last' => if Z.land (nth last text 0) 0xc0 =? 0x80 then LastLead text last' else last
  end.

(** The part of [Append] after the pending bytes are complete. *)
Definition AppendText (text : list Z) (final : bool) : bool * Utf8FragmentState :=
  match text with
  | [] => (true, NewFragment)
  | _ =>
      let last := LastLead text (length text - 1) in
      let expected := Width (nth last text 0) in
      if (length text - last <? expected)%nat then
        let tail := drop last text in
        if negb (ValidPartial tail) then (false, MkFragment tail)
        else if negb (IsValidUtf8 (take last text)) then (false, MkFragment tail)
        else (negb final, MkFragment tail)
      else (IsValidUtf8 text, NewFragment)
  end.

Definition Append (bytes : list Z) (final : bool) (st : Utf8FragmentState)
    : bool * Utf8FragmentState :=
  match pending st with
  | [] => AppendText bytes final
  | lead :: _ =>
      let expected := Width lead in
      let count := Nat.min (expected - length (pending st)) (length bytes) in
      let held := pending st ++ take count bytes in
      if negb (length held =? expected)%nat then (negb final && ValidPartial held, MkFragment held)
      else if negb (IsValidUtf8 held) then (false, MkFragment held)
      else AppendText (drop count bytes) final
  end.

(** ** The handshake *)

Definition Base64Alphabet : list Z :=
  txt "ABCDEFGHIJKLMNOPQRSTUVWXYZabcdefghijklmnopqrstuvwxyz0123456789+/".

Definition Base64Char (value : Z) : Z := nth (Z.to_nat value) Base64Alphabet 0.

(** The loop of [Base64]: three bytes a round. *)
Fixpoint Base64 (input : list Z) : list Z :=
  match input with
  | [] => []
  | [first] =>
      [Base64Char (Z.shiftr first 2); Base64Char (Z.lor (Z.shiftl (Z.land first 3) 4) (Z.shiftr 0 4));
       char_code "="; char_code "="]
  | [first; second] =>
      [Base64Char (Z.shiftr first 2);
       Base64Char (Z.lor (Z.shiftl (Z.land first 3) 4) (Z.shiftr second 4));
       Base64Char (Z.lor (Z.shiftl (Z.land second 15) 2) (Z.shiftr 0 6)); char_code "="]
  | first :: second :: third :: rest =>
      Base64Char (Z.shiftr first 2)
      :: Base64Char (Z.lor (Z.shiftl (Z.land first 3) 4) (Z.shiftr second 4))
      :: Base64Char (Z.lor (Z.shiftl (Z.land second 15) 2) (Z.shiftr third 6))
      :: Base64Char (Z.land third 63) :: Base64 rest
  end.

(** [std::rotl] of a 32-bit word. *)
Definition rotl32 (x n : Z) : Z := Z.lor (wrap32 (Z.shiftl x n)) (Z.shiftr x (32 - n)).

(** [~x] of a 32-bit word. *)
Definition not32 (x : Z) : Z := UINT32_MAX - x.

(** The padded message: 0x80, zeros up to 56 modulo 64, the number of bits. *)
Definition Sha1Padding (text : list Z) : list Z :=
  let zeros := Z.to_nat ((55 - len text) mod 64) in
  let bits := wrap64 (len text * 8) in
  text ++ [0x80] ++ repeat 0 zeros ++
  map (fun k => Z.land (Z.shiftr bits (56 - 8 * Z.of_nat k)) 255) (seq 0 8).

Definition Sha1Word (block : list Z) (index : nat) : Z :=
  fold_left (fun w byte => Z.lor (wrap32 (Z.shiftl w 8)) (nth (index * 4 + byte) block 0)) (seq 0 4) 0.

(** The 80 words of a block: 16 read, 64 computed. *)
Definition Sha1Schedule (block : list Z) : list Z :=
  fold_left (fun words index =>
    words ++ [rotl32 (Z.lxor (Z.lxor (Z.lxor (nth (index - 3) words 0) (nth (index - 8) words 0))
                (nth (index - 14) words 0)) (nth (index - 16) words 0)) 1])
    (seq 16 64) (map (Sha1Word block) (seq 0 16)).

Record Sha1Hash : Type := MkHash { word0 : Z; word1 : Z; word2 : Z; word3 : Z; word4 : Z }.

Definition Sha1Round (words : list Z) (h : Sha1Hash) (index : nat) : Sha1Hash :=
  let '(MkHash a b c d e) := h in
  let '(function, constant) :=
    if (index <? 20)%nat then (Z.lor (Z.land b c) (Z.land (not32 b) d), 0x5a827999)
    else if (index <? 40)%nat then (Z.lxor (Z.lxor b c) d, 0x6ed9eba1)
    else if (index <? 60)%nat then
      (Z.lor (Z.lor (Z.land b c) (Z.land b d)) (Z.land c d), 0x8f1bbcdc)
    else (Z.lxor (Z.lxor b c) d, 0xca62c1d6) in
  let next := wrap32 (rotl32 a 5 + function + e + constant + nth index words 0) in
  MkHash next a (rotl32 b 30) c d.

Definition Sha1Block (h : Sha1Hash) (block : list Z) : Sha1Hash :=
  let r := fold_left (Sha1Round (Sha1Schedule block)) (seq 0 80) h in
  MkHash (wrap32 (word0 h + word0 r)) (wrap32 (word1 h + word1 r)) (wrap32 (word2 h + word2 r))
    (wrap32 (word3 h + word3 r)) (wrap32 (word4 h + word4 r)).

(** The blocks at offsets 0, 64, ... of the padded message. *)
Definition Sha1Blocks (bytes : list Z) : list (list Z) :=
  map (fun k => slice (64 * k) 64 bytes) (seq 0 (length bytes / 64)).

Definition Sha1 (text : list Z) : list Z :=
  let h := fold_left Sha1Block (Sha1Blocks (Sha1Padding text))
    (MkHash 0x67452301 0xefcdab89 0x98badcfe 0x10325476 0xc3d2e1f0) in
  concat (map (fun w => map (fun byte => Z.land (Z.shiftr w ((3 - Z.of_nat byte) * 8)) 255) (seq 0 4))
    [word0 h; word1 h; word2 h; word3 h; word4 h]).

Definition AcceptGuid : list Z := txt "258EAFA5-E914-47DA-95CA-C5AB0DC85B11".

(** [None]: the function returns false and leaves [accept] alone. *)
Definition WebSocketAccept (key : list Z) : option (list Z) :=
  if negb (len key =? 24) || negb (bytes_eqb (drop 22 key) (txt "==")) then None
  else if negb (forallb (fun ch => existsb (Z.eqb ch) Base64Alphabet) (take 22 key)) then None
  else
    match find_index (nth 21 key 0) Base64Alphabet with
    | Some position =>
        if negb (Z.land (Z.of_nat position) 15 =? 0) then None
        else Some (Base64 (Sha1 (key ++ AcceptGuid)))
    | None => None (* npos & 15 is not 0 *)
    end.

(** ** Subprotocols *)

(** The inner loop over one header: the tokens offered so far and their bytes, or [None] when the
    function returns false.  The fuel is the length of the text plus one. *)
Fixpoint OfferTokens (fuel : nat) (rest : list Z) (offered : list (list Z)) (offeredBytes : Z)
    : option (list (list Z) * Z) :=
  match fuel with
  | O => None
  | S fuel' =>
      let (piece, next) := cut (char_code ",") rest in
      let token := RequestData.Trim piece in
      if negb (RequestData.IsToken token) || (len offered =? 64)
         || (4096 - offeredBytes <? len token) || existsb (bytes_eqb token) offered then None
      else
        let offered := offered ++ [token] in
        let offeredBytes := offeredBytes + len token in
        match next with
        | None => Some (offered, offeredBytes)
        | Some rest => OfferTokens fuel' rest offered offeredBytes
        end
  end.

(** The outer loop over the headers of the request. *)
Fixpoint OfferHeaders (headers : list (list Z * list Z)) (offered : list (list Z)) (offeredBytes : Z)
    : option (list (list Z) * Z) :=
  match headers with
  | [] => Some (offered, offeredBytes)
  | (name, value) :: headers =>
      if negb (bytes_eqb name (txt "sec-websocket-protocol")) then
        OfferHeaders headers offered offeredBytes
      else
        match OfferTokens (S (length value)) value offered offeredBytes with
        | None => None
        | Some (offered, offeredBytes) => OfferHeaders headers offered offeredBytes
        end
  end.

(** [None]: false; [Some selected], empty when nothing matches. *)
Definition SelectWebSocketSubprotocol (headers : list (list Z * list Z)) (supported : list (list Z))
    : option (list Z) :=
  match OfferHeaders headers [] 0 with
  | None => None
  | Some (offered, _) =>
      Some match List.find (fun token => existsb (bytes_eqb token) offered) supported with
           | Some token => token
           | None => []
           end
  end.

End WebSocket.

Import WebSocket.

(** The handshake of RFC 6455, section 1.3, and "abc" of FIPS 180. *)
Example websocket_accept_rfc :
  WebSocketAccept (txt "dGhlIHNhbXBsZSBub25jZQ==") = Some (txt "s3pPLMBiTxaQ9kYGzzhZRbK+xOo=").
Proof. vm_compute. reflexivity. Qed.

Example sha1_abc :
  Sha1 (txt "abc") = [0xa9; 0x99; 0x3e; 0x36; 0x47; 0x06; 0x81; 0x6a; 0xba; 0x3e; 0x25; 0x71; 0x78;
    0x50; 0xc2; 0x6c; 0x9c; 0xd0; 0xd8; 0x9d].
Proof. vm_compute. reflexivity. Qed.

(** ** The frames of the specification *)

(** RFC 6455, section 5.2: the payload length in the fewest bytes. *)
Definition length_bytes (n : Z) : list Z :=
  if n <? 126 then [n]
  else if n <=? 65535 then [126; n / 256; n mod 256]
  else 127 :: DatagramCodec.SequenceBytes n.

(** Masking is its own inverse. *)
Definition masked (mask payload : list Z) : list Z :=
  map (fun i => Z.lxor (nth i payload 0) (nth (i mod 4) mask 0)) (seq 0 (length payload)).

Definition first_byte (f : WebSocketFrame) : Z := (if final f then 128 else 0) + opcode f.

Definition client_frame (f : WebSocketFrame) (mask : list Z) : list Z :=
  let size := length_bytes (len (payload f)) in
  first_byte f :: (128 + hd 0 size) :: tl size ++ mask ++ masked mask (payload f).

(** What a server accepts: a known opcode, control frames whole and short, data within the limit. *)
Record frame_ok (maxPayload : Z) (f : WebSocketFrame) : Prop := MkFrameOk {
  frame_opcode : KnownOpcode (opcode f) = true;
  frame_bytes : is_bytes (payload f);
  frame_control : 8 <= opcode f -> final f = true /\ len (payload f) <= 125;
  frame_data : opcode f < 8 -> len (payload f) <= maxPayload;
  frame_size : len (payload f) < 2 ^ 63
}.

Definition mask_ok (mask : list Z) : Prop := is_bytes mask /\ length mask = 4%nat.

Lemma length_masked mask p : length (masked mask p) = length p.
Proof. unfold masked. by rewrite length_map, length_seq. Qed.

Lemma nth_masked mask p i :
  (i < length p)%nat -> nth i (masked mask p) 0 = Z.lxor (nth i p 0) (nth (i mod 4) mask 0).
Proof. intros Hi. unfold masked. by rewrite nth_map_seq. Qed.

Lemma lxor_byte a b : is_byte a -> is_byte b -> is_byte (Z.lxor a b).
Proof.
  unfold is_byte. intros Ha Hb. split; [apply Z.lxor_nonneg; lia|].
  destruct (Z.eq_dec (Z.lxor a b) 0) as [->|Hn]; [lia|].
  assert (0 <= Z.lxor a b) by (apply Z.lxor_nonneg; lia).
  apply (Z.log2_lt_pow2 _ 8); [lia|].
  eapply Z.le_lt_trans; [apply Z.log2_lxor; lia|].
  assert (forall x, 0 <= x < 256 -> Z.log2 x < 8) as Hl.
  { intros x Hx. destruct (Z.eq_dec x 0) as [->|]; [done|]. apply Z.log2_lt_pow2; lia. }
  apply Z.max_lub_lt; auto.
Qed.

(** The bytes between the header and the rest are the mask and the masked payload. *)
Lemma unmask_masked H mask p rest :
  length mask = 4%nat ->
  Unmask (length H) (length p) (H ++ mask ++ masked mask p ++ rest) = p.
Proof.
  intros Hm. unfold Unmask. apply nth_ext_z; rewrite length_map, length_seq; [done|]. intros i Hi.
  rewrite nth_map_seq by done. pose proof (Nat.mod_upper_bound i 4 ltac:(lia)).
  rewrite (app_nth2_plus H _ 0 (i mod 4)), (app_nth1 mask) by lia.
  rewrite <- Nat.add_assoc, app_nth2_plus, app_nth2 by lia.
  rewrite Hm. replace (4 + i - 4)%nat with i by lia.
  rewrite app_nth1 by (by rewrite length_masked). rewrite nth_masked by done.
  by rewrite Z.lxor_assoc, Z.lxor_nilpotent, Z.lxor_0_r.
Qed.

Lemma length_unmask h n input : length (Unmask h n input) = n.
Proof. unfold Unmask. by rewrite length_map, length_seq. Qed.

Lemma masked_unmask h n input :
  (h + 4 + n <= length input)%nat ->
  masked (slice h 4 input) (Unmask h n input) = slice (h + 4) n input.
Proof.
  intros Hl. apply nth_ext_z; rewrite length_masked, length_unmask; [by rewrite length_slice by lia|].
  intros i Hi. rewrite nth_masked by (by rewrite length_unmask).
  pose proof (Nat.mod_upper_bound i 4 ltac:(lia)).
  rewrite !nth_slice by lia. unfold Unmask. rewrite nth_map_seq by done.
  by rewrite Z.lxor_assoc, Z.lxor_nilpotent, Z.lxor_0_r.
Qed.

(** ** Reading the length *)

Lemma second_byte_mask k : 0 <= k < 128 -> Z.land (128 + k) 127 = k /\ Z.land (128 + k) 128 = 128.
Proof.
  intros Hk. assert (is_byte k) as Hb by (unfold is_byte; lia).
  revert k Hb Hk. assert (forall b, is_byte b -> (negb (b <? 128) ||
    ((Z.land (128 + b) 127 =? b) && (Z.land (128 + b) 128 =? 128))) = true) as H.
  { apply byte_cases. vm_compute. done. }
  intros k Hb Hk. specialize (H k Hb). lia.
Qed.

Lemma length_bytes_spec n :
  0 <= n < 2 ^ 63 ->
  is_bytes (length_bytes n) /\ 0 <= hd 0 (length_bytes n) <= 127 /\
  exists b l, length_bytes n = b :: l.
Proof.
  intros Hn. unfold length_bytes. case_ifs; cbn [hd].
  - split_and!; [|lia..|eauto]. repeat constructor; unfold is_byte; lia.
  - split_and!; [|lia..|eauto]. repeat constructor; unfold is_byte; dlia.
  - split_and!; [|lia..|eauto]. constructor; [unfold is_byte; lia|].
    apply Forall_map, Forall_forall. intros i _. cbn. rewrite land_255. unfold is_byte. dlia.
Qed.

Lemma length_sequence_bytes n : length (DatagramCodec.SequenceBytes n) = 8%nat.
Proof. done. Qed.

Lemma read_length64 input :
  (10 <= length input)%nat ->
  ReadLength64 input = fold_left DatagramCodec.SequenceStep (slice 2 8 input) 0.
Proof.
  intros H. unfold ReadLength64.
  assert (forall l a, fold_left (fun v i => Z.lor (wrap64 (Z.shiftl v 8)) (nth i input 0)) l a =
    fold_left DatagramCodec.SequenceStep (map (fun i => nth i input 0) l) a) as ->
    by (induction l as [|i l IH]; intros a; [done|apply IH]).
  f_equal. apply nth_ext_z; rewrite length_map, length_seq, ?length_slice by lia; [done|].
  intros i Hi. rewrite nth_slice by lia.
  rewrite <- (seq_shift 8 1), <- (seq_shift 8 0), !map_map. by rewrite nth_map_seq.
Qed.

Lemma first_sequence_byte v :
  0 <= v < 2 ^ 64 -> nth 0 (DatagramCodec.SequenceBytes v) 0 = v / 2 ^ 56.
Proof.
  intros Hv. unfold DatagramCodec.SequenceBytes. rewrite nth_map_seq by lia. rewrite land_255.
  change (Z.of_nat (7 - 0) * 8) with 56. rewrite Z.shiftr_div_pow2 by lia.
  apply Z.mod_small. eval_pow. dlia.
Qed.

Lemma high_bit b : is_byte b -> (b < 128 -> Z.land b 128 = 0) /\ (Z.land b 128 = 0 -> b < 128).
Proof.
  intros Hb. assert (forall b, is_byte b -> Bool.eqb (b <? 128) (Z.land b 128 =? 0) = true) as H.
  { apply byte_cases. vm_compute. done. }
  specialize (H b Hb). apply eqb_prop in H. lia.
Qed.

(** What the length field says, when enough of it has arrived. *)
Lemma read_length_ok n b0 input ext tail :
  0 <= n < 2 ^ 63 -> (2 <= length input)%nat ->
  input ++ ext = b0 :: (128 + hd 0 (length_bytes n)) :: tl (length_bytes n) ++ tail ->
  ReadLength (128 + hd 0 (length_bytes n)) input =
    if (length input <? S (length (length_bytes n)))%nat then inl NeedMoreResult
    else inr (n, S (length (length_bytes n))).
Proof.
  intros Hn Hl Hi. destruct (length_bytes_spec n Hn) as (Hb & Hh & _).
  unfold ReadLength. rewrite (proj1 (second_byte_mask (hd 0 (length_bytes n)) ltac:(lia))). unfold length_bytes in *.
  unfold len. destruct (n <? 126) eqn:E1; [|destruct (n <=? 65535) eqn:E2]; cbn [hd tl length] in *.
  - replace (n =? 126) with false by lia. replace (n =? 127) with false by lia.
    destruct (length input <? 2)%nat eqn:E; [lia|done].
  - change (126 =? 126) with true. cbn iota.
    destruct (Z.of_nat (length input) <? 4) eqn:E;
      destruct (length input <? 4)%nat eqn:E'; try lia; [done|].
    do 4 (destruct input as [|? input]; [cbn in E; lia|]). cbn [app] in Hi. injection Hi as -> -> -> -> Hi.
    cbn [nth]. rewrite lor_shiftl_add by (cbn; dlia). change (2 ^ 8) with 256.
    replace (n / 256 * 256 + n mod 256) with n by dlia. by rewrite E1.
  - change (127 =? 126) with false. change (127 =? 127) with true. cbn iota.
    rewrite length_sequence_bytes.
    destruct (Z.of_nat (length input) <? 10) eqn:E;
      destruct (length input <? 10)%nat eqn:E'; try lia; [done|].
    rewrite read_length64 by lia.
    assert (slice 2 8 input = DatagramCodec.SequenceBytes n) as Hs.
    { rewrite <- (slice_app_l 2 8 input ext) by lia. rewrite Hi. unfold slice. cbn [drop].
      rewrite drop_0. by rewrite take_app_length'. }
    assert (nth 2 input 0 = n / 2 ^ 56) as H2.
    { change 2%nat with (2 + 0)%nat. rewrite <- (nth_slice 0 2 8 input), Hs by lia.
      rewrite first_sequence_byte by (eval_pow; lia). done. }
    rewrite Hs, sequence_round_trip by (unfold UINT64_MAX; eval_pow; lia). rewrite H2.
    assert (0 <= n / 2 ^ 56 < 128) as H3 by (eval_pow; dlia).
    rewrite (proj1 (high_bit (n / 2 ^ 56) ltac:(unfold is_byte; lia))) by lia.
    cbn. replace (n <? 65536) with false by lia. done.
Qed.

Lemma read_length_inv second input n h :
  is_bytes input -> (2 <= length input)%nat -> nth 1 input 0 = second -> Z.land second 128 <> 0 ->
  ReadLength second input = inr (n, h) ->
  0 <= n < 2 ^ 63 /\ h = S (length (length_bytes n)) /\ (h <= length input)%nat /\
  take h input = nth 0 input 0 :: (128 + hd 0 (length_bytes n)) :: tl (length_bytes n).
Proof.
  intros Hb Hl H1 H128 H. pose proof (nth_bytes 1 input Hb) as Hs. rewrite H1 in Hs.
  assert (second = 128 + Z.land second 127 /\ 0 <= Z.land second 127 < 128) as [Hsec Hk].
  { clear - Hs H128. revert second Hs H128.
    assert (forall b, is_byte b -> ((Z.land b 128 =? 0) ||
      ((b =? 128 + Z.land b 127) && (0 <=? Z.land b 127) && (Z.land b 127 <? 128))) = true) as H.
    { apply byte_cases. vm_compute. done. }
    intros b Hb Hn. specialize (H b Hb). lia. }
  unfold ReadLength in H. set (k := Z.land second 127) in *. clearbody k. unfold len in H.
  do 2 (destruct input as [|? input]; [cbn in Hl; lia|]). cbn [nth] in *. subst z0.
  destruct (k =? 126) eqn:E1; [|destruct (k =? 127) eqn:E2].
  - destruct (Z.of_nat _ <? 4) eqn:E; [done|].
    do 2 (destruct input as [|? input]; [cbn in E; lia|]). cbn [nth] in H.
    unfold is_bytes in Hb. rewrite !Forall_cons in Hb. destruct Hb as (_ & _ & Hb2 & Hb3 & _).
    unfold is_byte in Hb2, Hb3. rewrite lor_shiftl_add in H by (cbn; lia). change (2 ^ 8) with 256 in H.
    case_if_in H; [done|]. injection H as <- <-. unfold length_bytes.
    replace (z0 * 256 + z1 <? 126) with false by lia. replace (z0 * 256 + z1 <=? 65535) with true by lia.
    cbn [length hd tl take]. split_and!; [lia|eval_pow; lia|done|lia|].
    rewrite take_0. apply (f_equal2 cons); [done|]. apply (f_equal2 cons); [lia|]. list_dlia.
  - destruct (Z.of_nat _ <? 10) eqn:E; [done|]. case_if_in H; [done|].
    rewrite read_length64 in H by (cbn in E |- *; lia).
    set (l := slice 2 8 (z :: second :: input)) in *.
    assert (length l = 8%nat) as Hl8 by (unfold l; rewrite length_slice; cbn in E |- *; lia).
    assert (is_bytes l) as Hbl by (unfold l; auto with sc).
    destruct (sequence_bytes_fold l Hbl Hl8) as [Hr Hseq].
    case_if_in H; [done|]. injection H as <- <-. set (v := fold_left _ l 0) in *.
    assert (v < 2 ^ 63) as Hv.
    { assert (nth 2 (z :: second :: input) 0 = v / 2 ^ 56) as H2.
      { change 2%nat with (2 + 0)%nat. rewrite <- (nth_slice 0 2 8) by (cbn in E |- *; lia).
        fold l. rewrite <- Hseq at 1. apply first_sequence_byte. unfold UINT64_MAX in Hr. eval_pow. lia. }
      cbn [nth] in H2, E0. rewrite H2 in E0. apply negb_false_iff, Z.eqb_eq, high_bit in E0; [eval_pow; dlia|].
      rewrite <- H2. apply (nth_bytes 2 (z :: second :: input)). done. }
    unfold length_bytes. replace (v <? 126) with false by lia. replace (v <=? 65535) with false by lia.
    cbn [length hd tl]. rewrite length_sequence_bytes, Hseq.
    split_and!; [lia|done|done|cbn in E |- *; lia|]. unfold l, slice. cbn [take drop app].
    rewrite drop_0. apply (f_equal2 cons); [done|]. apply (f_equal2 cons); [lia|done].
  - injection H as <- <-. unfold length_bytes. replace (k <? 126) with true by lia.
    cbn [length hd tl take]. split_and!; [lia|eval_pow; lia|done|lia|]. by rewrite <- Hsec.
Qed.

(** ** Client frames *)

Lemma known_opcode_first f :
  KnownOpcode (opcode f) = true ->
  Z.land (first_byte f) 15 = opcode f /\ Z.land (first_byte f) 0x70 = 0 /\
  Z.land (first_byte f) 0x80 = (if final f then 128 else 0) /\ 0 <= opcode f < 16.
Proof.
  destruct f as [fin o p]. unfold KnownOpcode, first_byte. cbn [opcode final]. intros H.
  assert (o = 0 \/ o = 1 \/ o = 2 \/ o = 8 \/ o = 9 \/ o = 10) as Ho by lia.
  destruct Ho as [-> |[-> |[-> |[-> |[-> | ->]]]]]; destruct fin; vm_compute; intuition discriminate.
Qed.

Lemma first_byte_inv b :
  is_byte b -> Z.land b 0x70 = 0 ->
  b = (if negb (Z.land b 128 =? 0) then 128 else 0) + Z.land b 15 /\ 0 <= Z.land b 15 < 16.
Proof.
  intros Hb H0. assert (forall b, is_byte b -> (negb (Z.land b 0x70 =? 0) ||
    ((b =? (if negb (Z.land b 128 =? 0) then 128 else 0) + Z.land b 15)
     && (0 <=? Z.land b 15) && (Z.land b 15 <? 16))) = true) as H.
  { apply byte_cases. vm_compute. done. }
  specialize (H b Hb). destruct (negb (Z.land b 128 =? 0)); lia.
Qed.

Lemma length_client_frame f mask :
  length mask = 4%nat -> (len (payload f) < 2 ^ 63)%Z ->
  length (client_frame f mask) =
    (S (length (length_bytes (len (payload f)))) + 4 + length (payload f))%nat.
Proof.
  intros Hm Hp. unfold client_frame. cbn [length].
  rewrite !length_app, length_masked, Hm.
  destruct (length_bytes_spec (len (payload f))) as (_ & _ & b & l & ->);
    [pose proof (len_nonneg (payload f)); lia|]. cbn. lia.
Qed.

Lemma read_length_stops second input r :
  ReadLength second input = inl r -> r = NeedMoreResult \/ r = ErrorResult 1002.
Proof. unfold ReadLength. intros H. repeat (case_if_in H; try done); injection H as <-; auto. Qed.

(** A frame that has partly or wholly arrived. *)
Lemma parse_arrived maxPayload f mask f0 input ext rest :
  frame_ok maxPayload f -> mask_ok mask -> input ++ ext = client_frame f mask ++ rest ->
  ParseClientFrame input maxPayload f0 =
    if len input <? len (client_frame f mask) then (NeedMoreResult, f0)
    else (MkParse Complete (len (client_frame f mask)) 1000, f).
Proof.
  intros [H1 H2 H3 H4 H5] [Hmb Hml] Hi. pose proof (length_client_frame f mask Hml H5) as Hlen.
  pose proof (len_nonneg (payload f)) as Hp0.
  destruct (known_opcode_first f H1) as (Ho & H70 & H80 & Hor).
  set (n := len (payload f)) in *. destruct (length_bytes_spec n) as (_ & Hh & b & l & Hbl); [lia|].
  unfold ParseClientFrame. destruct (len input <? 2) eqn:E2.
  { replace (len input <? len (client_frame f mask)) with true; [done|].
    unfold len in *. rewrite Hlen, Hbl. cbn. lia. }
  unfold len in E2. pose proof Hi as Hi'. unfold client_frame in Hi'. fold n in Hi'.
  destruct input as [|b0 [|b1 input]]; [cbn in E2; lia..|].
  cbn [app] in Hi'. injection Hi' as -> -> Hi'. cbn [nth]. rewrite Ho, H70, H80, H1.
  rewrite (proj2 (second_byte_mask (hd 0 (length_bytes n)) ltac:(lia))). cbn [negb orb Z.eqb].
  change (128 =? 0) with false. cbn [orb].
  rewrite (proj1 (second_byte_mask (hd 0 (length_bytes n)) ltac:(lia))).
  replace ((8 <=? opcode f) && (((if final f then 128 else 0) =? 0) || (125 <? hd 0 (length_bytes n))))
    with false.
  2:{ destruct (Z.leb_spec 8 (opcode f)) as [Hc|Hc]; [|done]. destruct (H3 Hc) as [-> Hle].
      unfold length_bytes. replace (n <? 126) with true by lia. cbn. lia. }
  rewrite (read_length_ok n (first_byte f) _ ext (mask ++ masked mask (payload f) ++ rest));
    [|lia|cbn; lia|cbn [app]; rewrite Hi', <- !app_assoc; done].
  set (h := S (length (length_bytes n))) in *.
  set (all := first_byte f :: 128 + hd 0 (length_bytes n) :: input) in *.
  destruct (length all <? h)%nat eqn:Eh.
  { replace (len all <? len (client_frame f mask)) with true; [done|]. unfold len. lia. }
  replace (negb (8 <=? opcode f) && (maxPayload <? n)) with false by lia.
  assert (h <= 10)%nat.
  { unfold h, length_bytes. case_ifs; cbn; lia. }
  replace (SIZE_MAX - Z.of_nat h - 4 <? n) with false
    by (unfold SIZE_MAX, UINT64_MAX; eval_pow; lia).
  assert (len (client_frame f mask) = Z.of_nat h + 4 + n) as Hcl by (unfold len, n, len in *; lia).
  rewrite Hcl. destruct (len all <? Z.of_nat h + 4 + n) eqn:El; [done|]. f_equal.
  destruct f as [fin o p]. cbn [final opcode payload] in *. f_equal; [by destruct fin|].
  assert (exists more, all = (first_byte (MkFrame fin o p) :: 128 + hd 0 (length_bytes n) ::
    tl (length_bytes n)) ++ mask ++ masked mask p ++ more) as [more ->].
  { exists (drop (length (client_frame (MkFrame fin o p) mask)) all).
    rewrite <- (take_drop (length (client_frame (MkFrame fin o p) mask)) all) at 1.
    rewrite <- (take_app_le all ext) by (unfold len in *; lia). rewrite Hi, take_app_length.
    unfold client_frame. cbn [payload app]. fold n. by rewrite <- !app_assoc. }
  unfold n, len. rewrite Nat2Z.id.
  replace h with (length (first_byte (MkFrame fin o p) :: 128 + hd 0 (length_bytes n) ::
    tl (length_bytes n))) by (unfold h; rewrite Hbl; done).
  by apply unmask_masked.
Qed.

(** What the parser completes is the encoding of a frame, masked with the four bytes it found. *)
Lemma parse_complete input maxPayload f0 r f :
  is_bytes input -> ParseClientFrame input maxPayload f0 = (r, f) -> kind r = Complete ->
  exists mask rest, frame_ok maxPayload f /\ mask_ok mask /\
    input = client_frame f mask ++ rest /\ consumed r = len (client_frame f mask).
Proof.
  intros Hb H Hk. unfold ParseClientFrame in H. destruct (len input <? 2) eqn:E2; [by injection H as <- <-|].
  case_if_in H; [by injection H as <- <-|]. apply orb_false_iff in E as [[E70 E80]%orb_false_iff Eo].
  case_if_in H; [by injection H as <- <-|].
  destruct (ReadLength _ input) as [r'|[n h]] eqn:Er.
  { injection H as -> <-. by destruct (read_length_stops _ _ _ Er) as [-> | ->]. }
  destruct (negb _ && _) eqn:Em; [by injection H as <- <-|].
  destruct (SIZE_MAX - _ - _ <? n) eqn:Es; [by injection H as <- <-|].
  destruct (len input <? Z.of_nat h + 4 + n) eqn:El; [by injection H as <- <-|].
  injection H as <- <-. unfold len in *.
  destruct (read_length_inv (nth 1 input 0) input n h) as (Hn & Hh & Hhl & Htake); [done|lia|done|lia|done|].
  destruct (first_byte_inv (nth 0 input 0)) as [Hfb Hor]; [by apply nth_bytes|lia|].
  set (f := MkFrame _ _ _). assert (len (payload f) = n) as Hpl
    by (unfold f, len; cbn; rewrite length_unmask; lia).
  exists (slice h 4 input), (drop (h + 4 + Z.to_nat n) input).
  assert (mask_ok (slice h 4 input)) as Hmask by (split; [auto with sc|apply length_slice; lia]).
  assert (client_frame f (slice h 4 input) = take (h + 4 + Z.to_nat n) input) as Hcf.
  { unfold client_frame. rewrite Hpl. unfold f at 2. cbn [payload]. rewrite masked_unmask by lia.
    replace (first_byte f) with (nth 0 input 0) by (unfold f, first_byte; cbn; exact Hfb).
    rewrite !app_comm_cons, <- Htake.
    rewrite <- (take_drop h (take (h + 4 + Z.to_nat n) input)). rewrite take_take.
    replace (h `min` (h + 4 + Z.to_nat n))%nat with h by lia. f_equal.
    change (drop h (take (h + 4 + Z.to_nat n) input)) with (drop h (slice 0 (h + 4 + Z.to_nat n) input)).
    rewrite drop_slice, Nat.add_0_l. replace (h + 4 + Z.to_nat n - h)%nat with (4 + Z.to_nat n)%nat by lia.
    by rewrite <- slice_app_split. }
  split_and!; [|done|by rewrite Hcf, take_drop|].
  - constructor; unfold f; cbn [opcode final payload].
    + by apply negb_false_iff.
    + apply Forall_map, Forall_forall. intros i _. apply lxor_byte; by apply nth_bytes.
    + intros Hc. apply andb_false_iff in E as [E|E]; [lia|]. apply orb_false_iff in E as [E E'].
      split; [by rewrite E|]. unfold len. rewrite length_unmask.
      unfold ReadLength in Er.
      destruct (Z.land (nth 1 input 0) 127 =? 126) eqn:?; [lia|].
      destruct (Z.land (nth 1 input 0) 127 =? 127) eqn:?; [lia|]. injection Er as <- <-. lia.
    + intros Hc. unfold len. rewrite length_unmask. lia.
    + unfold len. rewrite length_unmask. lia.
  - cbn [consumed]. unfold len. rewrite Hcf, length_take. lia.
Qed.

Lemma read_length_header second input n h :
  ReadLength second input = inr (n, h) -> (h <= 10)%nat /\ (Z.land second 127 <= 125 -> n <= 125).
Proof. unfold ReadLength. intros H. repeat case_if_in H; simplify_eq; lia. Qed.

(** The parser waits for more only while a whole frame within the limits could not have arrived. *)
Lemma parse_waits_short input maxPayload f0 r f :
  ParseClientFrame input maxPayload f0 = (r, f) -> kind r = NeedMore ->
  f = f0 /\ consumed r = 0 /\ len input < 14 + Z.max 125 maxPayload.
Proof.
  unfold ParseClientFrame. intros H Hk. case_if_in H; [injection H as <- <-; split_and!; [done..|lia]|].
  case_if_in H; [by injection H as <- <-|]. destruct (_ && _) eqn:Ec; [by injection H as <- <-|].
  destruct (ReadLength _ _) as [r'|[n h]] eqn:Er.
  - injection H as -> <-. destruct (read_length_stops _ _ _ Er) as [-> | ->]; [|done].
    split_and!; [done..|]. unfold ReadLength in Er. repeat case_if_in Er; try done; lia.
  - destruct (read_length_header _ _ _ _ Er) as [Hh Hn].
    destruct (negb _ && _) eqn:Em; [by injection H as <- <-|].
    case_if_in H; [by injection H as <- <-|]. case_if_in H; injection H as <- <-; [|done].
    split_and!; [done..|]. destruct (8 <=? _) eqn:E8; cbn [negb andb] in *; lia.
Qed.

(** C23. Client frames are parsed exactly: of a stream that starts with a frame a server may accept
    nothing is reported until the last byte of the frame has arrived, and then the frame itself,
    unmasked, with the number of its bytes; and whatever the parser completes, on any input, is such
    a frame - minimal length encoding, known opcode, control frames whole and at most 125 bytes, data
    within [maxPayload].  An error is therefore reported only for a stream that no frame begins.  The
    parser may ask for more before it has seen what makes the stream unacceptable, but only while
    fewer than 14 bytes and the largest admitted payload have arrived. *)
Theorem client_frames_exact maxPayload f0 :
  (forall f mask rest, frame_ok maxPayload f -> mask_ok mask ->
    ParseClientFrame (client_frame f mask ++ rest) maxPayload f0 =
      (MkParse Complete (len (client_frame f mask)) 1000, f) /\
    forall n, (n < length (client_frame f mask))%nat ->
      ParseClientFrame (take n (client_frame f mask)) maxPayload f0 = (NeedMoreResult, f0)) /\
  (forall input r f, is_bytes input -> ParseClientFrame input maxPayload f0 = (r, f) ->
    match kind r with
    | Complete => exists mask rest, frame_ok maxPayload f /\ mask_ok mask /\
        input = client_frame f mask ++ rest /\ consumed r = len (client_frame f mask)
    | NeedMore => f = f0 /\ consumed r = 0 /\ len input < 14 + Z.max 125 maxPayload
    | Error => f = f0 /\ (closeCode r = 1002 \/ closeCode r = 1009) /\
        forall f mask ext rest, frame_ok maxPayload f -> mask_ok mask ->
          input ++ ext <> client_frame f mask ++ rest
    end).
Proof.
  split.
  - intros f mask rest Hf Hm. split.
    + rewrite (parse_arrived maxPayload f mask f0 _ [] rest) by (rewrite ?app_nil_r; done).
      case_if; [|done]. rewrite len_app in E. pose proof (len_nonneg rest). lia.
    + intros n Hn. rewrite (parse_arrived maxPayload f mask f0 _ (drop n (client_frame f mask)) [])
        by (rewrite ?take_drop, ?app_nil_r; done).
      case_if; [done|]. unfold len in E. rewrite length_take in E. lia.
  - intros input r f Hb H. destruct (kind r) eqn:Ek.
    + eauto using parse_waits_short.
    + eauto using parse_complete.
    + assert (f = f0 /\ (closeCode r = 1002 \/ closeCode r = 1009)) as [-> Hc].
      { unfold ParseClientFrame in H. repeat (case_if_in H; [by injection H as <- <-; auto|]).
        destruct (ReadLength _ _) as [r'|[n h]] eqn:Er.
        - injection H as -> <-. destruct (read_length_stops _ _ _ Er) as [-> | ->]; auto.
        - repeat (case_if_in H; [by injection H as <- <-; auto|]). by injection H as <- <-. }
      split_and!; [done|done|]. intros f mask ext rest Hf Hm Heq.
      rewrite (parse_arrived maxPayload f mask f0 input ext rest Hf Hm Heq) in H.
      case_if_in H; by inv H.
Qed.

(** ** Server frames *)

Lemma wrap8_byte x : is_byte x -> wrap8 x = x.
Proof. intros H. unfold wrap8. apply Z.mod_small. done. Qed.

Lemma length_field_spec n : 0 <= n < 2 ^ 63 -> LengthField n = length_bytes n.
Proof.
  intros Hn. unfold LengthField, length_bytes. case_ifs.
  - by rewrite wrap8_byte by (unfold is_byte; lia).
  - rewrite !land_255, Z.shiftr_div_pow2 by lia. change (2 ^ 8) with 256.
    rewrite !wrap8_byte by (unfold is_byte; dlia). list_dlia.
  - f_equal. unfold DatagramCodec.SequenceBytes. apply map_ext_in. intros k Hk%in_seq.
    rewrite land_255, wrap8_byte by (unfold is_byte; dlia). rewrite <- land_255.
    do 2 f_equal. lia.
Qed.

(** The first byte, and the length field, can be told apart from what follows them. *)
Lemma length_bytes_prefix n n' t t' :
  0 <= n < 2 ^ 63 -> 0 <= n' < 2 ^ 63 -> length_bytes n ++ t = length_bytes n' ++ t' -> n = n' /\ t = t'.
Proof.
  intros Hn Hn'. unfold length_bytes. intros H.
  assert (forall a b (l l' : list Z), a :: l = b :: l' -> a = b /\ l = l') as Hcons
    by (by intros a b l l' [= -> ->]).
  destruct (n <? 126) eqn:E1, (n' <? 126) eqn:E2, (n <=? 65535) eqn:E3, (n' <=? 65535) eqn:E4;
    cbn [app] in H; apply Hcons in H as [Hh H]; try done; try lia.
  - apply Hcons in H as [H1 H]. apply Hcons in H as [H2 H]. split; [dlia|done].
  - apply app_inj_1 in H as [Hs ->]; [|done]. split; [|done]. eval_pow.
    rewrite <- (sequence_round_trip n), <- (sequence_round_trip n') by (unfold UINT64_MAX; lia).
    by rewrite Hs.
Qed.

Definition server_frame (f : WebSocketFrame) : list Z :=
  first_byte f :: length_bytes (len (payload f)) ++ payload f.

(** A frame the server sends is the frame of RFC 6455 without a mask, its length in the fewest
    bytes; a receiver of any stream of such frames finds the same frames again: the first frame of
    a stream, and what follows it, are determined by the bytes. *)
Theorem server_frames_decodable f :
  0 <= opcode f < 16 -> len (payload f) < 2 ^ 63 ->
  EncodeServerFrame (opcode f) (payload f) (final f) = server_frame f /\
  forall f' rest rest', 0 <= opcode f' < 16 -> len (payload f') < 2 ^ 63 ->
    EncodeServerFrame (opcode f) (payload f) (final f) ++ rest =
    EncodeServerFrame (opcode f') (payload f') (final f') ++ rest' ->
    f = f' /\ rest = rest'.
Proof.
  assert (forall f, 0 <= opcode f < 16 -> len (payload f) < 2 ^ 63 ->
    EncodeServerFrame (opcode f) (payload f) (final f) = server_frame f) as Henc.
  { clear. intros f Ho Hp. unfold EncodeServerFrame, server_frame, first_byte.
    rewrite length_field_spec by (pose proof (len_nonneg (payload f)); lia). f_equal.
    assert (Z.lor (if final f then 128 else 0) (opcode f) = (if final f then 128 else 0) + opcode f) as ->.
    { destruct (final f); [|by rewrite Z.lor_0_l].
      change 128 with (Z.shiftl 8 4) at 1. rewrite lor_shiftl_add by lia. lia. }
    apply wrap8_byte. unfold is_byte. destruct (final f); lia. }
  intros Ho Hp. split; [by apply Henc|]. intros f' rest rest' Ho' Hp'. rewrite !Henc by done.
  destruct f as [fin o p], f' as [fin' o' p']. unfold server_frame, first_byte.
  cbn [final opcode payload app] in *. intros H. injection H as H1 H2.
  rewrite <- !app_assoc in H2. pose proof (len_nonneg p). pose proof (len_nonneg p').
  apply length_bytes_prefix in H2 as [Hl H2]; [|lia..].
  apply app_inj_1 in H2 as [-> ->]; [|unfold len in Hl; lia]. split; [|done].
  destruct fin, fin'; try lia; f_equal; lia.
Qed.

Lemma server_frames_decodable_witness :
  EncodeServerFrame 1 (txt "hi") true = [129; 2; 104; 105] /\
  EncodeServerFrame 2 (repeat 7 126) false = server_frame (MkFrame false 2 (repeat 7 126)).
Proof.
  split; [reflexivity|].
  apply (server_frames_decodable (MkFrame false 2 (repeat 7 126)));
    [cbn; lia|vm_compute; reflexivity].
Defined.

(** ** Text in fragments *)

(** Bytes that are some code points and the beginning of one more. *)
Definition incomplete (p : list Z) : Prop :=
  exists c more, is_scalar c /\ p <> [] /\ more <> [] /\ p ++ more = AppendUtf8 c.

Definition continuation (b : Z) : Prop := 128 <= b < 192.

Lemma continuation_mask b : is_byte b -> (Z.land b 0xc0 =? 0x80) = true <-> continuation b.
Proof.
  intros Hb. assert (forall b, is_byte b ->
    Bool.eqb (Z.land b 0xc0 =? 0x80) ((128 <=? b) && (b <? 192)) = true) as H.
  { apply byte_cases. vm_compute. done. }
  specialize (H b Hb). apply eqb_prop in H. unfold continuation. lia.
Qed.

(** The lead byte of an encoded scalar value announces its length, and the others follow it. *)
Lemma append_utf8_shape c :
  is_scalar c -> exists b l, AppendUtf8 c = b :: l /\ Width b = S (length l) /\
    ~ continuation b /\ Forall continuation l.
Proof.
  intros [Hc Hs]. rewrite append_utf8_arith by done.
  unfold MaximumCodePoint, FirstSurrogate, LastSurrogate, continuation, Width in *.
  case_ifs; eexists _, _; (split; [reflexivity|]); cbn [length]; split_and!;
    try (repeat constructor; dlia); try dlia; case_ifs; dlia.
Qed.

(** Completing the bytes with the smallest continuation gives an encoded scalar value exactly when
    some continuation does. *)
Lemma valid_partial_iff p :
  is_bytes p -> p <> [] -> (length p < Width (nth 0 p 0%Z))%nat ->
  ValidPartial p = true <-> incomplete p.
Proof.
  intros Hb Hne Hw. unfold ValidPartial.
  replace (Width (nth 0 p 0%Z) =? 0)%nat with false by lia.
  set (pad := map _ _). assert (length pad = (Width (nth 0 p 0%Z) - length p)%nat) as Hpl
    by (unfold pad; by rewrite length_map, length_seq).
  rewrite take_ge by (rewrite length_app; lia). split.
  - intros Hv. assert (is_bytes (p ++ pad)) as Hbp.
    { apply is_bytes_app. split; [done|]. unfold pad. apply Forall_map, Forall_forall. intros i _.
      unfold PadByte, is_byte. cbn. case_ifs; lia. }
    destruct (is_valid_utf8_decode _ Hbp Hv) as ([|c cps] & Hs & Heq).
    { unfold encode_utf8 in Heq. cbn in Heq. by apply app_eq_nil in Heq as [-> _]. }
    apply Forall_cons in Hs as [Hc Hs]. destruct (append_utf8_shape c Hc) as (b & l & Ha & Hl & _).
    unfold encode_utf8 in Heq. cbn [map concat] in Heq. rewrite Ha in Heq.
    assert (nth 0 p 0 = b) as Hb0 by (destruct p; [done|]; cbn in Heq |- *; congruence).
    rewrite Hb0 in *. exists c, pad. split_and!; [done|done|intros ->; cbn in Hpl; lia|].
    rewrite Ha. assert (length (p ++ pad) = length (b :: l)) as Hlen
      by (rewrite length_app; cbn; lia).
    apply (f_equal (take (length (p ++ pad)))) in Heq. rewrite firstn_all, Hlen in Heq.
    by rewrite take_app_length in Heq.
  - intros (c & more & Hc & _ & Hm & Heq). unfold pad. clear pad Hpl Hw Hb.
    assert (forall d l, is_scalar d -> AppendUtf8 d = l -> IsValidUtf8 l = true) as Hok.
    { intros d l Hd <-. rewrite <- (app_nil_r (AppendUtf8 d)), is_valid_utf8_append by done. done. }
    destruct Hc as [Hc Hs]. rewrite append_utf8_arith in Heq by done.
    unfold MaximumCodePoint, FirstSurrogate, LastSurrogate in *.
    destruct p as [|p0 p]; [done|].
    destruct (c <=? 127) eqn:E1; [by destruct p, more|].
    destruct (c <=? 2047) eqn:E2; [|destruct (c <=? 65535) eqn:E3];
      injection Heq as -> Heq; cbn [nth].
    + destruct p as [|p1 p]; [|by destruct p, more].
      replace (Width (192 + c / 64)) with 2%nat by (unfold Width; case_ifs; dlia).
      apply (Hok (c / 64 * 64)); [unfold is_scalar, MaximumCodePoint, FirstSurrogate, LastSurrogate; dlia|].
      rewrite append_utf8_arith by (unfold MaximumCodePoint; dlia). unfold PadByte. cbn.
      repeat (case_if; try dlia). list_dlia.
    + replace (Width (224 + c / 4096)) with 3%nat by (unfold Width; case_ifs; dlia).
      destruct p as [|p1 [|p2 p]]; [| |by destruct p, more].
      * apply (Hok (c / 4096 * 4096 + (if c / 4096 =? 0 then 2048 else 0)));
          [unfold is_scalar, MaximumCodePoint, FirstSurrogate, LastSurrogate; case_if; dlia|].
        rewrite append_utf8_arith by (unfold MaximumCodePoint; case_if; dlia). unfold PadByte. cbn.
        repeat (case_if; try dlia); list_dlia.
      * injection Heq as -> Heq. apply (Hok (c / 64 * 64));
          [unfold is_scalar, MaximumCodePoint, FirstSurrogate, LastSurrogate; dlia|].
        rewrite append_utf8_arith by (unfold MaximumCodePoint; dlia). unfold PadByte. cbn.
        repeat (case_if; try dlia); list_dlia.
    + replace (Width (240 + c / 262144)) with 4%nat by (unfold Width; case_ifs; dlia).
      destruct p as [|p1 [|p2 [|p3 p]]]; [| | |by destruct p, more].
      * apply (Hok (c / 262144 * 262144 + (if c / 262144 =? 0 then 65536 else 0)));
          [unfold is_scalar, MaximumCodePoint, FirstSurrogate, LastSurrogate; case_if; dlia|].
        rewrite append_utf8_arith by (unfold MaximumCodePoint; case_if; dlia). unfold PadByte. cbn.
        repeat (case_if; try dlia); list_dlia.
      * injection Heq as -> Heq. apply (Hok (c / 4096 * 4096));
          [unfold is_scalar, MaximumCodePoint, FirstSurrogate, LastSurrogate; dlia|].
        rewrite append_utf8_arith by (unfold MaximumCodePoint; dlia). unfold PadByte. cbn.
        repeat (case_if; try dlia); list_dlia.
      * injection Heq as -> -> Heq. apply (Hok (c / 64 * 64));
          [unfold is_scalar, MaximumCodePoint, FirstSurrogate, LastSurrogate; dlia|].
        rewrite append_utf8_arith by (unfold MaximumCodePoint; dlia). unfold PadByte. cbn.
        repeat (case_if; try dlia); list_dlia.
Qed.

(** [text] is the valid text [v] followed by [p], the beginning of a code point or nothing. *)
Definition cut_at (text v p : list Z) : Prop :=
  text = v ++ p /\ utf8 v /\ (p = [] \/ incomplete p).

Lemma incomplete_shape p :
  incomplete p -> exists b l, p = b :: l /\ (S (length l) < Width b)%nat /\
    ~ continuation b /\ Forall continuation l.
Proof.
  intros (c & more & Hc & Hp & Hm & Heq). destruct (append_utf8_shape c Hc) as (b & l & Ha & Hw & Hb & Hl).
  destruct p as [|b' p]; [done|]. rewrite Ha in Heq. injection Heq as -> <-. exists b, p.
  apply Forall_app in Hl as [Hl _]. split_and!; [done| |done|done].
  rewrite Hw, length_app. destruct more; [done|cbn; lia].
Qed.

(** The beginning of a valid text can be cut so. *)
Lemma prefix_cut text more : utf8 (text ++ more) -> exists v p, cut_at text v p.
Proof.
  intros H. remember (text ++ more) as whole eqn:E. revert text more E.
  induction H as [|c rest Hc Hr IH] using utf8_induction; intros text more E.
  { symmetry in E. apply app_eq_nil in E as [-> _]. exists [], []. split_and!; [done|split; [constructor|done]|by left]. }
  destruct (append_utf8_nonempty c) as (b & l & Ha).
  destruct (decide (length (AppendUtf8 c) <= length text)%nat) as [Hle|Hgt].
  - assert (text = AppendUtf8 c ++ drop (length (AppendUtf8 c)) text) as Ht.
    { rewrite <- (take_drop (length (AppendUtf8 c)) text) at 1. f_equal.
      rewrite <- (take_app_le text more) by done. by rewrite <- E, take_app_length. }
    rewrite Ht in E. rewrite <- app_assoc in E. apply app_inv_head in E.
    destruct (IH _ _ E) as (v & p & Hv & Hu & Hp). exists (AppendUtf8 c ++ v), p. split_and!; [|by apply utf8_scalar|done].
    rewrite Ht, Hv at 1. by rewrite app_assoc.
  - destruct text as [|b' text].
    { exists [], []. split_and!; [done|split; [constructor|done]|by left]. }
    exists [], (b' :: text). split_and!; [done|split; [constructor|done]|]. right.
    exists c, (drop (length (b' :: text)) (AppendUtf8 c)). split_and!; [done|done| |].
    + intros Hd. apply (f_equal length) in Hd. rewrite length_drop in Hd. cbn in Hd, Hgt. lia.
    + rewrite <- (take_drop (length (b' :: text)) (AppendUtf8 c)) at 2. f_equal.
      rewrite <- (take_app_le (AppendUtf8 c) rest) by lia. by rewrite E, take_app_length.
Qed.

Lemma last_lead_le text n : (LastLead text n <= n)%nat.
Proof. induction n as [|n IH]; cbn; [done|]. case_if; lia. Qed.

Lemma last_lead_spec v b l :
  is_byte b -> is_bytes l -> ~ continuation b -> Forall continuation l ->
  LastLead (v ++ b :: l) (length (v ++ b :: l) - 1) = length v.
Proof.
  intros Hb Hbl Hnb Hl. rewrite length_app. cbn [length].
  replace (length v + S (length l) - 1)%nat with (length v + length l)%nat by lia.
  assert (forall k, (k <= length l)%nat -> LastLead (v ++ b :: l) (length v + k) = length v) as H; [|by apply H].
  induction k as [|k IH]; intros Hk.
  - rewrite Nat.add_0_r. destruct v as [|x v]; [done|]. cbn [length LastLead].
    change (nth (S (length v)) ((x :: v) ++ b :: l) 0) with (nth (length (x :: v)) ((x :: v) ++ b :: l) 0).
    rewrite nth_middle. destruct (Z.land b 192 =? 128) eqn:E; [|done]. by apply continuation_mask in E.
  - rewrite Nat.add_succ_r. cbn [LastLead].
    rewrite app_nth2 by lia. replace (S (length v + k) - length v)%nat with (S k) by lia. cbn [nth].
    assert (is_byte (nth k l 0)) as Hn by (by apply nth_bytes).
    replace (Z.land (nth k l 0) 192 =? 128) with true.
    { apply IH. lia. }
    symmetry. apply continuation_mask; [done|]. rewrite Forall_forall in Hl. apply Hl.
    apply list_elem_of_In, nth_In. lia.
Qed.

Lemma nth_length_app (v : list Z) b l : nth (length v) (v ++ b :: l) 0 = b.
Proof. apply nth_middle. Qed.

(** A valid text that is not empty ends in an encoded scalar value. *)
Lemma utf8_last v : utf8 v -> v <> [] ->
  exists v' b l, v = v' ++ b :: l /\ Width b = S (length l) /\ ~ continuation b /\ Forall continuation l.
Proof.
  intros [Hb Hv] Hne. destruct (is_valid_utf8_decode v Hb Hv) as (cps & Hs & ->).
  destruct cps as [|c cps _] using rev_ind; [done|].
  apply Forall_app in Hs as [_ Hs]. apply Forall_cons in Hs as [Hc _].
  destruct (append_utf8_shape c Hc) as (b & l & Ha & H). exists (encode_utf8 cps), b, l.
  split; [|done]. rewrite encode_utf8_app. unfold encode_utf8 at 2. cbn. by rewrite Ha, app_nil_r.
Qed.

Lemma append_text_cut text fin v p :
  is_bytes text -> cut_at text v p -> AppendText text fin = (negb fin || (length p =? 0)%nat, MkFragment p).
Proof.
  intros Hb (-> & Hv & Hp). apply is_bytes_app in Hb as [Hbv Hbp]. destruct Hp as [-> |Hp].
  - rewrite app_nil_r, orb_true_r. destruct (decide (v = [])) as [-> |Hne]; [done|].
    destruct (utf8_last v Hv Hne) as (v' & b & l & -> & Hw & Hnb & Hl).
    apply is_bytes_app in Hbv as [_ Hbl]. apply Forall_cons in Hbl as [Hbb Hbl].
    unfold AppendText. rewrite last_lead_spec, nth_length_app by done.
    destruct (v' ++ b :: l) as [|x w] eqn:E; [by destruct v'|]. rewrite <- E.
    rewrite Hw, length_app. cbn [length].
    destruct (length v' + S (length l) - length v' <? S (length l))%nat eqn:El; [lia|].
    by rewrite E, <- (proj2 Hv).
  - destruct (incomplete_shape p Hp) as (b & l & -> & Hw & Hnb & Hl).
    apply Forall_cons in Hbp as [Hbb Hbl].
    unfold AppendText. rewrite last_lead_spec, nth_length_app by done.
    destruct (v ++ b :: l) as [|x w] eqn:E; [by destruct v|]. rewrite <- E. rewrite length_app.
    cbn [length]. destruct (_ <? Width b)%nat eqn:El; [|lia].
    rewrite drop_app_length, take_app_length.
    rewrite (proj2 (valid_partial_iff (b :: l) ltac:(by constructor) ltac:(done) ltac:(cbn; lia))) by done.
    cbn [negb]. rewrite (proj2 Hv). by destruct fin.
Qed.

Lemma append_text_inv text fin st :
  is_bytes text -> AppendText text fin = (true, st) -> exists v, cut_at text v (pending st).
Proof.
  intros Hb H. unfold AppendText in H. destruct text as [|x text'] eqn:E.
  { injection H as <-. exists []. split_and!; [done|split; [constructor|done]|by left]. }
  rewrite <- E in *. set (last := LastLead text (length text - 1)) in *.
  pose proof (last_lead_le text (length text - 1)) as Hle. fold last in Hle.
  assert (0 < length text)%nat by (subst; cbn; lia).
  destruct (length text - last <? _)%nat eqn:El in H.
  - destruct (ValidPartial (drop last text)) eqn:Ep; cbn [negb] in H; [|done].
    destruct (IsValidUtf8 (take last text)) eqn:Ev; cbn [negb] in H; [|done]. injection H as _ <-.
    exists (take last text). cbn [pending]. split_and!; [by rewrite take_drop|by split; auto with sc|].
    right. apply valid_partial_iff; [by auto with sc| | |done].
    + intros Hd. apply (f_equal length) in Hd. rewrite length_drop in Hd. cbn in Hd. lia.
    + rewrite length_drop. replace (nth 0 (drop last text) 0) with (nth last text 0); [lia|].
      rewrite <- (take_drop last text) at 1.
      rewrite <- (length_take_le text last) at 1 by lia.
      destruct (drop last text) as [|y t] eqn:Ed; [|by rewrite nth_middle].
      apply (f_equal length) in Ed. rewrite length_drop in Ed. cbn in Ed. lia.
  - injection H as Hv <-. exists text. cbn. split_and!; [by rewrite app_nil_r|by split|by left].
Qed.

(** What [Append] does to the text received so far. *)
Lemma append_cut p0 bytes fin v p :
  is_bytes p0 -> is_bytes bytes -> p0 = [] \/ incomplete p0 -> cut_at (p0 ++ bytes) v p ->
  Append bytes fin (MkFragment p0) = (negb fin || (length p =? 0)%nat, MkFragment p).
Proof.
  intros Hb0 Hb [-> |Hp0] Hc; [by apply (append_text_cut bytes fin v)|].
  destruct (incomplete_shape p0 Hp0) as (b & l & -> & Hw & _). unfold Append. cbn [pending].
  set (count := Nat.min _ _). set (held := (b :: l) ++ take count bytes).
  assert (is_bytes held) as Hbh by (apply is_bytes_app; auto with sc).
  assert (length held = S (length l) + count)%nat as Hlh.
  { unfold held. rewrite length_app, length_take. cbn [length]. lia. }
  destruct Hc as (Heq & Hv & Hp).
  assert (v <> [] -> exists c v', is_scalar c /\ v = AppendUtf8 c ++ v' /\ utf8 v' /\
    length (AppendUtf8 c) = Width b) as Hcons.
  { intros Hne. destruct Hv as [Hbv Hvv]. destruct (is_valid_utf8_decode v Hbv Hvv) as ([|c cps] & Hs & Hve); [done|].
    apply Forall_cons in Hs as [Hc Hs]. destruct (append_utf8_shape c Hc) as (b' & l' & Ha & Hw' & _).
    exists c, (encode_utf8 cps). split_and!; [done|done|split; [by apply encode_utf8_bytes|by apply is_valid_utf8_encode]|].
    unfold encode_utf8 in Hve. cbn in Hve. rewrite Ha in Hve |- *. rewrite Hve in Heq.
    injection Heq as <- _. by rewrite Hw'. }
  destruct (length held =? Width b)%nat eqn:El; cbn [negb].
  - destruct (decide (v = [])) as [-> |Hne].
    { exfalso. cbn in Heq. destruct Hp as [-> |Hp]; [done|].
      destruct (incomplete_shape p Hp) as (b' & l' & -> & Hw' & _). injection Heq as <- Heq.
      apply (f_equal length) in Heq. rewrite length_app in Heq. cbn [length] in *. lia. }
    destruct (Hcons Hne) as (c & v' & Hsc & -> & Hv' & Hlc).
    assert (held = AppendUtf8 c /\ drop count bytes = v' ++ p) as [Hh Hd].
    { rewrite <- app_assoc in Heq. rewrite <- (take_drop count bytes), app_assoc in Heq.
      fold held in Heq. apply app_inj_1 in Heq; [done|lia]. }
    rewrite Hh, <- (app_nil_r (AppendUtf8 c)), is_valid_utf8_append by done. cbn [negb].
    change (IsValidUtf8 []) with true. cbn [negb].
    apply (append_text_cut _ fin v'); [by auto with sc|done].
  - assert (count = length bytes) as Hcount
      by (unfold count in *; cbn [length] in *; lia).
    assert (held = (b :: l) ++ bytes) as Hh by (unfold held; rewrite Hcount, firstn_all; done).
    destruct (decide (v = [])) as [-> |Hne].
    2:{ exfalso. destruct (Hcons Hne) as (c & v' & _ & -> & _ & Hlc).
        rewrite <- Hh in Heq. apply (f_equal length) in Heq. rewrite !length_app in Heq.
        unfold count in *. cbn [length] in *. lia. }
    cbn in Heq. rewrite Hh. cbn [app]. rewrite Heq.
    destruct Hp as [-> |Hp]; [done|]. destruct (incomplete_shape p Hp) as (b' & l' & -> & Hw' & _).
    rewrite (proj2 (valid_partial_iff (b' :: l') ltac:(by rewrite <- Heq, app_comm_cons, <- Hh) ltac:(done)
      ltac:(cbn; lia))) by done. cbn [length]. by destruct fin.
Qed.

Lemma append_inv p0 bytes fin st :
  is_bytes p0 -> is_bytes bytes -> p0 = [] \/ incomplete p0 ->
  Append bytes fin (MkFragment p0) = (true, st) -> exists v, cut_at (p0 ++ bytes) v (pending st).
Proof.
  intros Hb0 Hb [-> |Hp0] H; [by apply (append_text_inv _ fin)|].
  destruct (incomplete_shape p0 Hp0) as (b & l & -> & Hw & _). unfold Append in H. cbn [pending] in H.
  set (count := Nat.min _ _) in H. set (held := (b :: l) ++ take count bytes) in H.
  assert (is_bytes held) as Hbh by (apply is_bytes_app; auto with sc).
  assert (length held = S (length l) + count)%nat as Hlh.
  { unfold held. rewrite length_app, length_take. cbn [length]. lia. }
  destruct (length held =? Width b)%nat eqn:El; cbn [negb] in H.
  - destruct (IsValidUtf8 held) eqn:Ev; cbn [negb] in H; [|done].
    destruct (append_text_inv _ fin st (is_bytes_drop count bytes Hb) H) as (v & Hd & Hv & Hp).
    exists (held ++ v). split_and!; [|by apply utf8_app; [split|]|done].
    unfold held. rewrite <- !app_assoc, <- Hd. by rewrite take_drop.
  - injection H as Hv <-. apply andb_prop in Hv as [_ Hv]. exists []. cbn [pending].
    assert (count = length bytes) as Hcount
      by (unfold count in *; cbn [length] in *; lia).
    split_and!; [unfold held; by rewrite Hcount, firstn_all|split; [constructor|done]|]. right.
    apply valid_partial_iff; [done|done| |done]. unfold held. cbn [nth app length].
    unfold held in Hlh, El. unfold count in *. cbn [app length] in *. lia.
Qed.

(** The fragments of a message before the last one. *)
Fixpoint feed_fragments (chunks : list (list Z)) (st : Utf8FragmentState) : option Utf8FragmentState :=
  match chunks with
  | [] => Some st
  | bytes :: chunks =>
      match Append bytes false st with
      | (true, st) => feed_fragments chunks st
      | (false, _) => None
      end
  end.

Definition message_valid (chunks : list (list Z)) (last : list Z) : bool :=
  match feed_fragments chunks NewFragment with
  | Some st => (Append last true st).1
  | None => false
  end.

Lemma feed_fragments_spec chunks p0 :
  is_bytes p0 -> p0 = [] \/ incomplete p0 -> Forall is_bytes chunks ->
  match feed_fragments chunks (MkFragment p0) with
  | Some st => exists v, cut_at (p0 ++ concat chunks) v (pending st)
  | None => forall more, ~ utf8 (p0 ++ concat chunks ++ more)
  end.
Proof.
  intros Hb Hp Hc. revert p0 Hb Hp. induction Hc as [|bytes chunks Hbytes Hc IH]; intros p0 Hb Hp; cbn.
  - exists []. split_and!; [by rewrite app_nil_r|split; [constructor|done]|done].
  - destruct (Append bytes false (MkFragment p0)) as [[] st] eqn:Ea.
    + destruct (append_inv p0 bytes false st Hb Hbytes Hp Ea) as (v & Hv & Hu & Hp').
      assert (is_bytes (p0 ++ bytes)) as Hbb by (by apply is_bytes_app). rewrite Hv in Hbb.
      apply is_bytes_app in Hbb as [_ Hbp]. destruct st as [p1]. cbn [pending] in *.
      specialize (IH p1 Hbp Hp'). destruct (feed_fragments chunks (MkFragment p1)) as [st|].
      * destruct IH as (v' & Hv' & Hu' & Hp''). exists (v ++ v').
        split_and!; [|by apply utf8_app|done]. rewrite app_assoc, Hv, <- app_assoc, Hv'. by rewrite app_assoc.
      * intros more Hmore. apply (IH more). rewrite <- app_assoc, app_assoc, Hv, <- app_assoc in Hmore.
        by apply (utf8_app_inv v).
    + intros more Hmore. rewrite <- app_assoc, app_assoc in Hmore.
      destruct (prefix_cut _ _ Hmore) as (v & p & Hcut).
      rewrite (append_cut p0 bytes false v p Hb Hbytes Hp Hcut) in Ea. done.
Qed.

(** A text message may arrive in any fragments, cut anywhere: the fragments before the last are
    accepted exactly while they are the beginning of some valid UTF-8 text (so that a bad byte fails
    at once), the message is accepted exactly when its bytes as a whole are valid UTF-8, and no more
    than three bytes are kept between fragments. *)
Theorem fragments_equal_whole chunks last :
  Forall is_bytes chunks -> is_bytes last ->
  message_valid chunks last = IsValidUtf8 (concat chunks ++ last) /\
  (is_Some (feed_fragments chunks NewFragment) <-> exists more, utf8 (concat chunks ++ more)) /\
  (forall st, feed_fragments chunks NewFragment = Some st -> (length (pending st) <= 3)%nat).
Proof.
  intros Hc Hl. unfold message_valid, NewFragment.
  pose proof (feed_fragments_spec chunks [] ltac:(constructor) ltac:(by left) Hc) as Hf. cbn [app] in Hf.
  assert (is_bytes (concat chunks)) as Hbc by (clear Hf; induction Hc; cbn; [constructor|by apply is_bytes_app]).
  destruct (feed_fragments chunks (MkFragment [])) as [[p0]|] eqn:Ef; cbn [pending] in Hf.
  2:{ split_and!; [|split; [by intros []|intros [more Hm]; by destruct (Hf more)]|done].
      destruct (IsValidUtf8 _) eqn:Ev; [|done]. exfalso. apply (Hf last). split; [by apply is_bytes_app|done]. }
  destruct Hf as (v & Hv & Hu & Hp).
  assert (is_bytes p0) as Hb0 by (rewrite Hv in Hbc; by apply is_bytes_app in Hbc as [_ ?]).
  split_and!.
  - rewrite Hv, <- app_assoc. destruct (Append last true (MkFragment p0)) as [r st] eqn:Ea. cbn [fst].
    apply eq_true_iff_eq. split.
    + intros ->. destruct (append_inv p0 last true st Hb0 Hl Hp Ea) as (v' & Hcut).
      rewrite (append_cut p0 last true v' (pending st) Hb0 Hl Hp Hcut) in Ea.
      destruct Hcut as (-> & Hv' & _). injection Ea as Hz _. cbn in Hz.
      destruct (pending st); [|done]. rewrite app_nil_r. by apply utf8_app.
    + intros Hval. assert (utf8 (p0 ++ last)) as Hu0.
      { apply (utf8_app_inv v); [done|]. split; [|done]. rewrite is_bytes_app in *.
        rewrite is_bytes_app. split; [apply Hu|done]. }
      assert (cut_at (p0 ++ last) (p0 ++ last) []) as Hcut
        by (split_and!; [by rewrite app_nil_r|done|by left]).
      rewrite (append_cut p0 last true _ _ Hb0 Hl Hp Hcut) in Ea. by injection Ea as <- _.
  - split; [|by eauto]. intros _. destruct Hp as [-> |(c & more & Hsc & _ & _ & Heq)].
    + exists []. by rewrite app_nil_r, Hv, app_nil_r.
    + exists more. rewrite Hv, <- app_assoc, Heq. apply utf8_app; [done|].
      rewrite <- (app_nil_r (AppendUtf8 c)). apply utf8_scalar; [done|]. split; [constructor|done].
  - intros st [= <-]. cbn. destruct Hp as [-> |Hp]; [cbn; lia|].
    destruct (incomplete_shape p0 Hp) as (b & l & -> & Hw & _). cbn.
    unfold Width in Hw. repeat case_if_in Hw; lia.
Qed.

(** The euro sign in three pieces, the last of which ends the message. *)
Lemma fragments_equal_whole_witness :
  message_valid [[0xe2]; [0x82]] [0xac] = IsValidUtf8 [0xe2; 0x82; 0xac] /\
  message_valid [[0xe2]; [0x82]] [0x41] = false.
Proof.
  split; [|reflexivity]. apply (fragments_equal_whole [[0xe2]; [0x82]] [0xac]);
    repeat constructor; unfold is_byte; lia.
Defined.

(** ** The handshake key *)

Lemma base64_char_index v :
  0 <= v < 64 -> find_index (Base64Char v) Base64Alphabet = Some (Z.to_nat v) /\
  existsb (Z.eqb (Base64Char v)) Base64Alphabet = true.
Proof.
  intros Hv. assert (forall b, is_byte b -> (negb (b <? 64) ||
    (bool_decide (find_index (Base64Char b) Base64Alphabet = Some (Z.to_nat b)) &&
     existsb (Z.eqb (Base64Char b)) Base64Alphabet)) = true) as H.
  { apply byte_cases. vm_compute. done. }
  specialize (H v ltac:(unfold is_byte; lia)). replace (v <? 64) with true in H by lia.
  apply andb_prop in H as [H1 H2]. apply bool_decide_eq_true in H1. done.
Qed.

Lemma base64_char_inv ch :
  existsb (Z.eqb ch) Base64Alphabet = true -> exists v, 0 <= v < 64 /\ ch = Base64Char v.
Proof.
  intros (x & Hin & Heq)%existsb_exists. apply Z.eqb_eq in Heq as ->.
  apply (In_nth _ _ 0) in Hin as (n & Hn & <-). exists (Z.of_nat n). unfold Base64Char.
  rewrite Nat2Z.id. split; [|done]. change (length Base64Alphabet) with 64%nat in Hn. lia.
Qed.

(** Three bytes as four characters, in arithmetic. *)
Lemma base64_step b1 b2 b3 rest :
  is_byte b1 -> is_byte b2 -> is_byte b3 ->
  Base64 (b1 :: b2 :: b3 :: rest) =
    Base64Char (b1 / 4) :: Base64Char (b1 mod 4 * 16 + b2 / 16)
    :: Base64Char (b2 mod 16 * 4 + b3 / 64) :: Base64Char (b3 mod 64) :: Base64 rest.
Proof.
  unfold is_byte. intros H1 H2 H3. cbn [Base64].
  change 3 with (Z.ones 2) at 1. change 15 with (Z.ones 4). change 63 with (Z.ones 6).
  rewrite !Z.land_ones, !Z.shiftr_div_pow2 by lia. eval_pow.
  rewrite !lor_shiftl_add by (eval_pow; dlia). done.
Qed.

Lemma base64_last b : is_byte b ->
  Base64 [b] = [Base64Char (b / 4); Base64Char (b mod 4 * 16); char_code "="; char_code "="].
Proof.
  unfold is_byte. intros H. cbn [Base64]. change 3 with (Z.ones 2).
  rewrite !Z.land_ones, !Z.shiftr_div_pow2 by lia. eval_pow. change (0 / 16) with 0.
  rewrite lor_shiftl_add by (eval_pow; lia). eval_pow. by rewrite Z.add_0_r.
Qed.

(** Four characters of the alphabet are the text of three bytes. *)
Lemma base64_group v1 v2 v3 v4 rest :
  0 <= v1 < 64 -> 0 <= v2 < 64 -> 0 <= v3 < 64 -> 0 <= v4 < 64 ->
  exists b1 b2 b3, is_byte b1 /\ is_byte b2 /\ is_byte b3 /\
    Base64 (b1 :: b2 :: b3 :: rest) =
      Base64Char v1 :: Base64Char v2 :: Base64Char v3 :: Base64Char v4 :: Base64 rest.
Proof.
  intros H1 H2 H3 H4. exists (v1 * 4 + v2 / 16), (v2 mod 16 * 16 + v3 / 4), (v3 mod 4 * 64 + v4).
  unfold is_byte. split_and!; try dlia. rewrite base64_step by (unfold is_byte; dlia).
  repeat (apply (f_equal2 cons); [f_equal; dlia|]). done.
Qed.

(** The handshake accepts a key exactly when it is the Base64 text of some 16 bytes, the nonce that
    RFC 6455 asks for, written canonically; the answer is then the Base64 text of the SHA-1 digest
    of the key and the protocol's GUID. *)
Theorem websocket_key_exact key accept :
  WebSocketAccept key = Some accept <->
  (exists nonce, is_bytes nonce /\ length nonce = 16%nat /\ key = Base64 nonce) /\
  accept = Base64 (Sha1 (key ++ AcceptGuid)).
Proof.
  split.
  - intros H. unfold WebSocketAccept in H. case_if_in H; [done|]. case_if_in H; [done|].
    destruct (find_index _ _) as [pos|] eqn:Ef; [|done]. case_if_in H; [done|]. injection H as <-.
    split; [|done]. apply orb_false_iff in E as [El Eq].
    apply negb_false_iff in El, Eq, E0, E1. apply Z.eqb_eq in El, E1. unfold len in El.
    do 24 (destruct key as [|? key]; [cbn in El; lia|]). destruct key as [|? ?]; [|cbn in El; lia].
    cbn [drop take nth] in *. apply bytes_eqb_eq in Eq. injection Eq as -> ->.
    cbn [forallb] in E0.
    repeat match goal with
      | H : _ && _ = true |- _ => apply andb_prop in H as [? H]
      end.
    repeat match goal with
      | H : existsb (Z.eqb ?c) Base64Alphabet = true |- _ =>
          apply base64_char_inv in H as (? & ? & ->)
      end.
    match type of Ef with find_index (Base64Char ?v) _ = _ =>
      rewrite (proj1 (base64_char_index v ltac:(assumption))) in Ef; injection Ef as <-;
      rewrite Z2Nat.id in E1 by lia; change 15 with (Z.ones 4) in E1;
      rewrite Z.land_ones in E1 by lia; change (2 ^ 4) with 16 in E1
    end.
    match goal with |- exists _, _ /\ _ /\ Base64Char ?a1 :: Base64Char ?a2 :: Base64Char ?a3 ::
        Base64Char ?a4 :: Base64Char ?b1 :: Base64Char ?b2 :: Base64Char ?b3 :: Base64Char ?b4 ::
        Base64Char ?c1 :: Base64Char ?c2 :: Base64Char ?c3 :: Base64Char ?c4 ::
        Base64Char ?d1 :: Base64Char ?d2 :: Base64Char ?d3 :: Base64Char ?d4 ::
        Base64Char ?e1 :: Base64Char ?e2 :: Base64Char ?e3 :: Base64Char ?e4 ::
        Base64Char ?f1 :: Base64Char ?f2 :: _ = _ =>
      destruct (base64_group e1 e2 e3 e4 [f1 * 4 + f2 / 16]) as (y13 & y14 & y15 & ? & ? & ? & He); [assumption..|];
      destruct (base64_group d1 d2 d3 d4 (y13 :: y14 :: y15 :: [f1 * 4 + f2 / 16]))
        as (y10 & y11 & y12 & ? & ? & ? & Hd); [assumption..|];
      destruct (base64_group c1 c2 c3 c4 (y10 :: y11 :: y12 :: y13 :: y14 :: y15 :: [f1 * 4 + f2 / 16]))
        as (y7 & y8 & y9 & ? & ? & ? & Hc); [assumption..|];
      destruct (base64_group b1 b2 b3 b4
        (y7 :: y8 :: y9 :: y10 :: y11 :: y12 :: y13 :: y14 :: y15 :: [f1 * 4 + f2 / 16]))
        as (y4 & y5 & y6 & ? & ? & ? & Hb); [assumption..|];
      destruct (base64_group a1 a2 a3 a4
        (y4 :: y5 :: y6 :: y7 :: y8 :: y9 :: y10 :: y11 :: y12 :: y13 :: y14 :: y15 :: [f1 * 4 + f2 / 16]))
        as (y1 & y2 & y3 & ? & ? & ? & Ha); [assumption..|]
    end.
    match type of Ha with Base64 ?l = _ => exists l end.
    split; [|split; [|symmetry; etransitivity; [exact Ha|]]].
    + unfold is_bytes. rewrite !Forall_cons. split_and!; [assumption..|unfold is_byte; dlia|constructor].
    + done.
    + rewrite Hb, Hc, Hd, He, base64_last by (unfold is_byte; dlia).
      repeat (apply (f_equal2 cons); [done|]). repeat (apply (f_equal2 cons); [try (f_equal; dlia); done|]). done.
  - intros [(nonce & Hb & Hl & ->) ->].
    do 16 (destruct nonce as [|? nonce]; [done|]). destruct nonce; [|done].
    unfold is_bytes in Hb. rewrite !Forall_cons in Hb. destruct_and! Hb.
    repeat match goal with H : is_byte _ |- _ => unfold is_byte in H end.
    rewrite !base64_step, base64_last by (unfold is_byte; lia).
    unfold WebSocketAccept. cbn [drop take nth].
    match goal with |- (if ?c then _ else _) = _ => replace c with false by reflexivity end.
    match goal with |- (if negb ?c then _ else _) = _ => replace c with true end.
    2:{ symmetry. cbn [forallb]. rewrite !(fun v H => proj2 (base64_char_index v H)) by dlia. done. }
    cbn [negb]. rewrite (fun v H => proj1 (base64_char_index v H)) by dlia.
    rewrite Z2Nat.id by dlia. change 15 with (Z.ones 4). rewrite Z.land_ones by lia.
    change (2 ^ 4) with 16. rewrite Z_mod_mult. done.
Qed.

(** ** Subprotocols *)

(** The tokens of the request's Sec-WebSocket-Protocol fields, in order. *)
Definition offers (headers : list (list Z * list Z)) : list (list Z) :=
  concat (map (fun h => if bytes_eqb h.1 (txt "sec-websocket-protocol")
                        then map RequestData.Trim (split_on (char_code ",") h.2) else []) headers).

Fixpoint total_bytes (ts : list (list Z)) : Z :=
  match ts with [] => 0 | t :: ts => len t + total_bytes ts end.

Record offers_ok (ts : list (list Z)) : Prop := MkOffersOk {
  offers_tokens : Forall (fun t => RequestData.IsToken t = true) ts;
  offers_distinct : NoDup ts;
  offers_count : len ts <= 64;
  offers_bytes : total_bytes ts <= 4096
}.

Lemma total_bytes_app a b : total_bytes (a ++ b) = total_bytes a + total_bytes b.
Proof. induction a as [|t a IH]; cbn [total_bytes app]; lia. Qed.

Lemma total_bytes_nonneg a : 0 <= total_bytes a.
Proof. induction a as [|t a IH]; cbn; [lia|]. pose proof (len_nonneg t). lia. Qed.

Lemma offers_ok_prefix a b : offers_ok (a ++ b) -> offers_ok a.
Proof.
  intros [H1 H2 H3 H4]. apply Forall_app in H1 as [H1 _]. apply NoDup_app in H2 as [H2 _].
  rewrite len_app in H3. rewrite total_bytes_app in H4.
  pose proof (len_nonneg b). pose proof (total_bytes_nonneg b). constructor; [done|done|lia|lia].
Qed.

Lemma existsb_bytes_elem t ts : existsb (bytes_eqb t) ts = true <-> t ∈ ts.
Proof.
  rewrite existsb_exists, list_elem_of_In. setoid_rewrite bytes_eqb_eq. naive_solver.
Qed.

(** One more token: the test of the loop decides whether the offers stay acceptable. *)
Lemma offers_ok_snoc ts t :
  offers_ok ts ->
  (negb (RequestData.IsToken t) || (len ts =? 64) || (4096 - total_bytes ts <? len t)
   || existsb (bytes_eqb t) ts) = false <-> offers_ok (ts ++ [t]).
Proof.
  intros [H1 H2 H3 H4]. rewrite !orb_false_iff, negb_false_iff. split.
  - intros [[[Ht Hl] Hb] He]. constructor.
    + apply Forall_app. split; [done|by constructor].
    + apply NoDup_app. split_and!; [done| |apply NoDup_singleton]. intros x Hx Hx'.
      apply list_elem_of_singleton in Hx' as ->. by rewrite (proj2 (existsb_bytes_elem t ts) Hx) in He.
    + rewrite len_app. change (len [t]) with 1. lia.
    + rewrite total_bytes_app. cbn [total_bytes]. lia.
  - intros [G1 G2 G3 G4]. rewrite len_app in G3. change (len [t]) with 1 in G3.
    rewrite total_bytes_app in G4. cbn [total_bytes] in G4. apply Forall_app in G1 as [_ G1].
    apply Forall_cons in G1 as [G1 _]. split_and!; [done|lia|lia|].
    destruct (existsb (bytes_eqb t) ts) eqn:E; [|done]. apply existsb_bytes_elem in E.
    apply NoDup_app in G2 as (_ & G2 & _). destruct (G2 t E). by left.
Qed.

Lemma offer_tokens_spec fuel rest ts :
  offers_ok ts -> (length rest < fuel)%nat ->
  let all := ts ++ map RequestData.Trim (split_on (char_code ",") rest) in
  match OfferTokens fuel rest ts (total_bytes ts) with
  | Some (ts', n) => ts' = all /\ n = total_bytes all /\ offers_ok all
  | None => ~ offers_ok all
  end.
Proof.
  revert rest ts. induction fuel as [|fuel IH]; intros rest ts Hok Hf; [lia|]. cbn [OfferTokens].
  cbv zeta. rewrite split_on_cut. destruct (cut (char_code ",") rest) as [piece next] eqn:Ec.
  cbn [fst snd map]. pose proof (offers_ok_snoc ts (RequestData.Trim piece) Hok) as Hs.
  destruct (negb _ || _ || _ || _).
  - intros H. rewrite cons_middle, app_assoc in H. apply offers_ok_prefix in H. by apply Hs in H.
  - replace (total_bytes ts + len (RequestData.Trim piece))
      with (total_bytes (ts ++ [RequestData.Trim piece])) by (rewrite total_bytes_app; cbn [total_bytes]; lia).
    destruct next as [rest'|]; cbn [map].
    + apply cut_length in Ec.
      specialize (IH rest' (ts ++ [RequestData.Trim piece]) (proj1 Hs eq_refl) ltac:(lia)).
      cbv zeta in IH. rewrite <- app_assoc in IH. exact IH.
    + split_and!; [done|done|by apply Hs].
Qed.

Lemma offer_headers_spec headers ts :
  offers_ok ts ->
  let all := ts ++ offers headers in
  match OfferHeaders headers ts (total_bytes ts) with
  | Some (ts', n) => ts' = all /\ offers_ok all
  | None => ~ offers_ok all
  end.
Proof.
  revert ts. induction headers as [|[name value] headers IH]; intros ts Hok; cbn [OfferHeaders];
    cbv zeta.
  - cbn. rewrite app_nil_r. done.
  - unfold offers. cbn [map concat fst snd]. fold (offers headers).
    destruct (bytes_eqb name _); cbn [negb app]; [|by apply IH].
    pose proof (offer_tokens_spec (S (length value)) value ts Hok ltac:(lia)) as H.
    cbv zeta in H. rewrite app_assoc. destruct (OfferTokens _ _ _ _) as [[ts' n]|].
    + destruct H as (-> & -> & H). by apply IH.
    + intros H'. apply H. by apply offers_ok_prefix in H'.
Qed.

(** The subprotocol is chosen exactly as offered: the request is refused exactly when its fields
    hold something that is not a token, a token twice, more than 64 tokens or more than 4096 bytes of
    them; otherwise the result is the first protocol the server supports that the client offered, and
    empty when there is none. *)
Theorem subprotocol_selected headers supported r :
  SelectWebSocketSubprotocol headers supported = r <->
  (r = None /\ ~ offers_ok (offers headers)) \/
  (exists before t after, r = Some t /\ offers_ok (offers headers) /\
     supported = before ++ t :: after /\ t ∈ offers headers /\ Forall (fun s => s ∉ offers headers) before) \/
  (r = Some [] /\ offers_ok (offers headers) /\ Forall (fun s => s ∉ offers headers) supported).
Proof.
  pose proof (offer_headers_spec headers [] ltac:(constructor; (constructor || done))) as H.
  unfold SelectWebSocketSubprotocol. change (total_bytes []) with 0 in H. cbv zeta in H. cbn [app] in H.
  destruct (OfferHeaders headers [] 0) as [[ts n]|].
  2:{ split; [intros <-; auto|]. intros [[-> _]|[(b & t & a & _ & Hok & _)|(_ & Hok & _)]]; done. }
  destruct H as [-> Hok].
  assert (forall l, match List.find (fun token => existsb (bytes_eqb token) (offers headers)) l with
    | Some t => exists b a, l = b ++ t :: a /\ t ∈ offers headers /\ Forall (fun s => s ∉ offers headers) b
    | None => Forall (fun s => s ∉ offers headers) l end) as Hfind.
  { induction l as [|t l IHl]; cbn; [constructor|].
    destruct (existsb (bytes_eqb t) (offers headers)) eqn:E.
    - exists [], l. apply existsb_bytes_elem in E. split_and!; [done|done|constructor].
    - assert (t ∉ offers headers) by (intros Hin%existsb_bytes_elem; congruence).
      destruct (List.find _ l) as [t'|]; [|by constructor].
      destruct IHl as (b & a & -> & Ht & Hb). exists (t :: b), a. split_and!; [done|done|by constructor]. }
  specialize (Hfind supported). split.
  - intros <-. destruct (List.find _ supported) as [t|]; [|by auto].
    destruct Hfind as (b & a & -> & Ht & Hb). right. left. exists b, t, a. done.
  - intros [[_ Hn]|[(b & t & a & -> & _ & -> & Ht & Hb)|(-> & _ & Hall)]]; [done| |].
    + f_equal. destruct (List.find _ _) as [t'|].
      * destruct Hfind as (b' & a' & Heq & Ht' & Hb').
        assert (forall (b b' : list (list Z)) a a', Forall (fun s => s ∉ offers headers) b ->
          Forall (fun s => s ∉ offers headers) b' -> b ++ t :: a = b' ++ t' :: a' -> t' = t) as Hu.
        { clear - Ht Ht'. induction b as [|x b IH]; intros [|y b'] a a' Hb Hb' Heq.
          - by injection Heq.
          - injection Heq as -> _. apply Forall_cons in Hb' as [? _]. done.
          - injection Heq as -> _. apply Forall_cons in Hb as [? _]. done.
          - apply Forall_cons in Hb as [_ Hb]. apply Forall_cons in Hb' as [_ Hb'].
            injection Heq as _ Heq. by eapply IH. }
        by apply (Hu b b' a a').
      * apply Forall_app in Hfind as [_ Hfind]. apply Forall_cons in Hfind as [? _]. done.
    + destruct (List.find _ _) as [t'|]; [|done]. destruct Hfind as (b' & a' & -> & Ht' & _).
      apply Forall_app in Hall as [_ Hall]. apply Forall_cons in Hall as [? _]. done.
Qed.
