(* ===== verification/HttpParser.v ===== *)
(** * Web: the HTTP/1.1 request parser.

    The HTTP half of [Web/WebProtocol.h|cpp]: [HttpParser], fed with the bytes received so far and
    consuming what it has processed, and the helpers of the header fields.  The parser's members are
    the fields of [HttpParser]; [Parse] returns its result, the parser it leaves, the input it has not
    consumed and [output].  Differences of [std::size_t] values wrap around ([size_sub]).  The bodies of
    the loop run in the order of the source and fall through to each other; the loop has the length
    of the input plus one as fuel, every round but the last consuming a byte or more.  Allocation
    failures, which the caller turns into the loss of the connection, are not modelled. *)

From S2P Require Import Prelude CoreError RequestData Charconv.
Import Charconv.

Module HttpParser.

(** ** Fields *)

Definition Lower (value : Z) : Z :=
  if (char_code "A" <=? value) && (value <=? char_code "Z")
  then value + (char_code "a" - char_code "A") else value.

Definition Trim (value : list Z) : list Z := RequestData.Trim value.
Definition IsToken (value : list Z) : bool := RequestData.IsToken value.

Definition EqualInsensitive (left right : list Z) : bool :=
  (length left =? length right)%nat
  && forallb (fun pair => Lower pair.1 =? Lower pair.2) (combine left right).

Definition ControlByte (byte : Z) : bool := ((byte <? 32) && negb (byte =? 9)) || (byte =? 127).

Definition ValidHeaderValue (value : list Z) : bool := forallb (fun byte => negb (ControlByte byte)) value.

Definition Comma : Z := char_code ",".

(** The loop cuts [value] at its commas. *)
Definition TokenList (value : list Z) (allowEmpty : bool) : bool :=
  forallb (fun piece => let element := Trim piece in
             IsToken element || (allowEmpty && (length element =? 0)%nat))
    (split_on Comma value).

Definition UpgradeProtocol (protocol : list Z) : bool :=
  match cut (char_code "/") protocol with
  | (name, None) => IsToken name
  | (name, Some version) => IsToken name && IsToken version
  end.

Definition UpgradeProtocols (value : list Z) : bool :=
  forallb (fun piece => UpgradeProtocol (Trim piece)) (split_on Comma value).

(** The lower-case name and the trimmed value of a field line. *)
Definition ParseHeader (line : list Z) : option (list Z * list Z) :=
  match cut (char_code ":") line with
  | (_, None) => None
  | (name, Some rest) =>
      if negb (IsToken name) then None
      else
        let fieldValue := Trim rest in
        if negb (ValidHeaderValue fieldValue) then None else Some (map Lower name, fieldValue)
  end.

(** The loop over a quoted string, from behind its opening quote: what follows the closing one. *)
Fixpoint QuotedString (value : list Z) : option (list Z) :=
  match value with
  | [] => None
  | ch :: value =>
      if ch =? 34 then Some value
      else if ch =? 92 then
        match value with
        | [] => None
        | escaped :: value => if ControlByte escaped then None else QuotedString value
        end
      else if ControlByte ch then None else QuotedString value
  end.

(** The token characters at the front, and what follows them. *)
Fixpoint TokenSpan (value : list Z) : list Z * list Z :=
  match value with
  | [] => ([], [])
  | ch :: rest =>
      if RequestData.TokenChar ch then let (token, rest) := TokenSpan rest in (ch :: token, rest)
      else ([], value)
  end.

(** One parameter a round, of at least one byte; the length is fuel enough. *)
Fixpoint ChunkExtensionsLoop (fuel : nat) (value : list Z) : bool :=
  match fuel with
  | O => false
  | S fuel' =>
      match Trim value with
      | [] => true
      | ch :: rest =>
          if negb (ch =? char_code ";") then false
          else
            match TokenSpan (Trim rest) with
            | ([], _) => false
            | (_, rest) =>
                match Trim rest with
                | [] => ChunkExtensionsLoop fuel' []
                | (ch :: rest) as value =>
                    if ch =? char_code ";" then ChunkExtensionsLoop fuel' value
                    else if negb (ch =? char_code "=") then false
                    else
                      match Trim rest with
                      | [] => false
                      | (ch :: rest) as value =>
                          if ch =? 34 then
                            match QuotedString rest with
                            | None => false
                            | Some value => ChunkExtensionsLoop fuel' value
                            end
                          else
                            match TokenSpan value with
                            | ([], _) => false
                            | (_, value) => ChunkExtensionsLoop fuel' value
                            end
                      end
                end
            end
      end
  end.

Definition ValidChunkExtensions (value : list Z) : bool := ChunkExtensionsLoop (S (length value)) value.

Definition ForbiddenTrailerNames : list (list Z) :=
  map txt ["content-length"; "transfer-encoding"; "host"; "connection"; "upgrade"; "trailer"; "te";
    "authorization"; "proxy-authorization"; "cookie"; "content-type"; "content-encoding"; "expect"]%string.

Definition ForbiddenTrailer (name : list Z) : bool :=
  existsb (bytes_eqb name) ForbiddenTrailerNames || starts_with (txt "sec-websocket-") name.

(** ** Requests *)

Notation Fields := (list (list Z * list Z)).

(** What the parser fills of an [HttpRequest]. *)
Record HttpRequest : Type := MkRequest {
  method : list Z;
  target : list Z;
  headers : Fields;
  body : list Z
}.

Definition EmptyRequest : HttpRequest := MkRequest [] [] [] [].

Definition Path (request : HttpRequest) : list Z := (cut (char_code "?") (target request)).1.

(** The first field of that name; empty when there is none. *)
Fixpoint HeaderIn (fields : Fields) (name : list Z) : list Z :=
  match fields with
  | [] => []
  | (n, v) :: fields => if EqualInsensitive n name then v else HeaderIn fields name
  end.

Definition Header (request : HttpRequest) (name : list Z) : list Z := HeaderIn (headers request) name.

Definition HasToken (request : HttpRequest) (header token : list Z) : bool :=
  existsb (fun field => EqualInsensitive field.1 header
    && existsb (fun piece => EqualInsensitive (Trim piece) token) (split_on Comma field.2))
    (headers request).

(** ** The parser *)

Inductive HttpParseKind : Type :=
| NeedMore | Continue | Complete | Error | Headers | Body.

#[export] Instance HttpParseKind_eq_dec : EqDecision HttpParseKind.
Proof. solve_decision. Defined.

Record HttpParseResult : Type := MkResult { kind : HttpParseKind; status : Z }.

(** [return {};] *)
Definition More : HttpParseResult := MkResult NeedMore 400.

Inductive Stage : Type :=
| StageHeaders | StageFixedBody | StageChunkSize | StageChunkData | StageChunkEnd | StageTrailers
| StageFailed.

#[export] Instance Stage_eq_dec : EqDecision Stage.
Proof. solve_decision. Defined.

Record HttpParser : Type := MkParser {
  mStage : Stage;
  mMaxHeaders : Z;
  mMaxBody : Z;
  mRemaining : Z;
  mChunkOverhead : Z;
  mTrailerBytes : Z;
  mHeaderSearch : nat;
  mContinue : bool;
  mHeadRequest : bool;
  mHttp10 : bool;
  mSeparateHeaders : bool;
  mStreaming : bool;
  mBodyBytes : Z;
  mMaxChunk : Z;
  mRequest : HttpRequest
}.

Definition New (maxHeaders maxBody : Z) (separateHeaders : bool) : HttpParser :=
  MkParser StageHeaders maxHeaders maxBody 0 0 0 0 false false false separateHeaders false 0 0
    EmptyRequest.

(** Assignments to one member. *)
Definition set_stage (s : Stage) (p : HttpParser) : HttpParser :=
  MkParser s (mMaxHeaders p) (mMaxBody p) (mRemaining p) (mChunkOverhead p) (mTrailerBytes p)
    (mHeaderSearch p) (mContinue p) (mHeadRequest p) (mHttp10 p) (mSeparateHeaders p) (mStreaming p)
    (mBodyBytes p) (mMaxChunk p) (mRequest p).
Definition set_remaining (r : Z) (p : HttpParser) : HttpParser :=
  MkParser (mStage p) (mMaxHeaders p) (mMaxBody p) r (mChunkOverhead p) (mTrailerBytes p)
    (mHeaderSearch p) (mContinue p) (mHeadRequest p) (mHttp10 p) (mSeparateHeaders p) (mStreaming p)
    (mBodyBytes p) (mMaxChunk p) (mRequest p).
Definition set_overhead (n : Z) (p : HttpParser) : HttpParser :=
  MkParser (mStage p) (mMaxHeaders p) (mMaxBody p) (mRemaining p) n (mTrailerBytes p)
    (mHeaderSearch p) (mContinue p) (mHeadRequest p) (mHttp10 p) (mSeparateHeaders p) (mStreaming p)
    (mBodyBytes p) (mMaxChunk p) (mRequest p).
Definition set_trailer_bytes (n : Z) (p : HttpParser) : HttpParser :=
  MkParser (mStage p) (mMaxHeaders p) (mMaxBody p) (mRemaining p) (mChunkOverhead p) n
    (mHeaderSearch p) (mContinue p) (mHeadRequest p) (mHttp10 p) (mSeparateHeaders p) (mStreaming p)
    (mBodyBytes p) (mMaxChunk p) (mRequest p).
Definition set_search (n : nat) (p : HttpParser) : HttpParser :=
  MkParser (mStage p) (mMaxHeaders p) (mMaxBody p) (mRemaining p) (mChunkOverhead p) (mTrailerBytes p)
    n (mContinue p) (mHeadRequest p) (mHttp10 p) (mSeparateHeaders p) (mStreaming p)
    (mBodyBytes p) (mMaxChunk p) (mRequest p).
Definition set_continue (b : bool) (p : HttpParser) : HttpParser :=
  MkParser (mStage p) (mMaxHeaders p) (mMaxBody p) (mRemaining p) (mChunkOverhead p) (mTrailerBytes p)
    (mHeaderSearch p) b (mHeadRequest p) (mHttp10 p) (mSeparateHeaders p) (mStreaming p)
    (mBodyBytes p) (mMaxChunk p) (mRequest p).
Definition set_head_request (b : bool) (p : HttpParser) : HttpParser :=
  MkParser (mStage p) (mMaxHeaders p) (mMaxBody p) (mRemaining p) (mChunkOverhead p) (mTrailerBytes p)
    (mHeaderSearch p) (mContinue p) b (mHttp10 p) (mSeparateHeaders p) (mStreaming p)
    (mBodyBytes p) (mMaxChunk p) (mRequest p).
Definition set_http10 (b : bool) (p : HttpParser) : HttpParser :=
  MkParser (mStage p) (mMaxHeaders p) (mMaxBody p) (mRemaining p) (mChunkOverhead p) (mTrailerBytes p)
    (mHeaderSearch p) (mContinue p) (mHeadRequest p) b (mSeparateHeaders p) (mStreaming p)
    (mBodyBytes p) (mMaxChunk p) (mRequest p).
Definition set_request (r : HttpRequest) (p : HttpParser) : HttpParser :=
  MkParser (mStage p) (mMaxHeaders p) (mMaxBody p) (mRemaining p) (mChunkOverhead p) (mTrailerBytes p)
    (mHeaderSearch p) (mContinue p) (mHeadRequest p) (mHttp10 p) (mSeparateHeaders p) (mStreaming p)
    (mBodyBytes p) (mMaxChunk p) r.
Definition set_body_bytes (n : Z) (p : HttpParser) : HttpParser :=
  MkParser (mStage p) (mMaxHeaders p) (mMaxBody p) (mRemaining p) (mChunkOverhead p) (mTrailerBytes p)
    (mHeaderSearch p) (mContinue p) (mHeadRequest p) (mHttp10 p) (mSeparateHeaders p) (mStreaming p)
    n (mMaxChunk p) (mRequest p).
Definition with_body (b : list Z) (r : HttpRequest) : HttpRequest :=
  MkRequest (method r) (target r) (headers r) b.

(** Difference of two [std::size_t] values. *)
Definition size_sub (a b : Z) : Z := wrap64 (a - b).

Definition ConfigureBody (streaming : bool) (maxBody maxChunk : Z) (p : HttpParser) : bool * HttpParser :=
  ((streaming || negb (maxChunk =? 0)) && (mRemaining p <=? maxBody),
   MkParser (mStage p) (mMaxHeaders p) maxBody (mRemaining p) (mChunkOverhead p) (mTrailerBytes p)
     (mHeaderSearch p) (mContinue p) (mHeadRequest p) (mHttp10 p) (mSeparateHeaders p) streaming
     (mBodyBytes p) maxChunk (mRequest p)).

Definition TakeContinue (p : HttpParser) : bool * HttpParser := (mContinue p, set_continue false p).
Definition Started (p : HttpParser) : bool := negb (bool_decide (mStage p = StageHeaders)).
Definition IsHeadRequest (p : HttpParser) : bool := mHeadRequest p.
Definition IsHttp10 (p : HttpParser) : bool := mHttp10 p.

Definition Fail (code : Z) (p : HttpParser) : HttpParseResult * HttpParser :=
  (MkResult Error code, set_stage StageFailed p).

(** [Complete]: the request goes out and the parser is ready for the next one. *)
Definition CompleteRequest (p : HttpParser) : HttpParseResult * HttpParser * HttpRequest :=
  (MkResult Complete 200,
   MkParser StageHeaders (mMaxHeaders p) (mMaxBody p) 0 0 0 0 false false (mHttp10 p)
     (mSeparateHeaders p) (mStreaming p) 0 (mMaxChunk p) EmptyRequest,
   mRequest p).

(** ** The head of a request *)

Definition Crlf : list Z := [13; 10].

(** The request line: the method, the target as written and the version. *)
Definition SplitRequestLine (line : list Z) : option (list Z * list Z * list Z) :=
  match cut (char_code " ") line with
  | (_, None) => None
  | (name, Some rest) =>
      match cut (char_code " ") rest with
      | (_, None) => None
      | (written, Some version) =>
          if existsb (Z.eqb (char_code " ")) version || negb (IsToken name) then None
          else Some (name, written, version)
      end
  end.

Definition TargetByte (ch : Z) : bool :=
  negb ((ch <? 33) || (127 <=? ch) || (ch =? char_code "#")).

(** [rest.find_first_of("/?")]: before it, and from it on. *)
Fixpoint CutPath (rest : list Z) : list Z * list Z :=
  match rest with
  | [] => ([], [])
  | ch :: rest' =>
      if (ch =? char_code "/") || (ch =? char_code "?") then ([], rest)
      else let (authority, path) := CutPath rest' in (ch :: authority, path)
  end.

(** The target the request keeps and the authority of an absolute form. *)
Definition NormalizeTarget (written : list Z) : option (list Z * list Z) :=
  match written with
  | [] => None
  | first :: _ =>
      if negb (first =? char_code "/") && negb (bytes_eqb written (txt "*")) then
        match cut_sub (txt "://") written with
        | (_, None) => None
        | (scheme, Some rest) =>
            if negb (EqualInsensitive scheme (txt "http")) && negb (EqualInsensitive scheme (txt "https"))
            then None
            else
              let (authority, path) := CutPath rest in
              if (length authority =? 0)%nat
                 || existsb (fun ch => (ch =? Comma) || (ch =? char_code "@") || (ch =? 92)) authority
              then None
              else
                Some ((if starts_with (txt "/") path then [] else txt "/") ++ path, authority)
        end
      else Some (written, [])
  end.

(** The locals of [ParseHeaders], with the members its loop changes. *)
Record HeadState : Type := MkHead {
  hFields : Fields;
  hRemaining : Z;
  haveHost : bool;
  haveLength : bool;
  haveTransfer : bool;
  haveExpect : bool;
  transferFailure : Z
}.

Definition HostByte (ch : Z) : bool := negb (existsb (Z.eqb ch) (9 :: 92 :: txt " ,/@?#")).

(** The codings of a Transfer-Encoding that is not just chunked: the number of them that are, and
    whether the last one is. *)
Definition CountChunked (value : list Z) : Z * bool :=
  fold_left (fun '(count, _) piece =>
    let chunked := EqualInsensitive (Trim piece) (txt "chunked") in
    ((if chunked then count + 1 else count), chunked)) (split_on Comma value) (0, false).

(** One field: the failure, or the locals it leaves. *)
Definition CheckField (maxBody : Z) (name value : list Z) (h : HeadState) : option Z * HeadState :=
  if bytes_eqb name (txt "host") then
    if haveHost h || (length value =? 0)%nat || negb (forallb HostByte value) then (Some 400, h)
    else (None, MkHead (hFields h) (hRemaining h) true (haveLength h) (haveTransfer h) (haveExpect h)
                  (transferFailure h))
  else if bytes_eqb name (txt "content-length") then
    if haveLength h || (length value =? 0)%nat then (Some 400, h)
    else if negb (forallb isdigit value) then (Some 400, h)
    else
      match from_chars_uint64 value with
      | (errc_ok, _, parsed) =>
          let h := MkHead (hFields h) parsed (haveHost h) (haveLength h) (haveTransfer h)
                     (haveExpect h) (transferFailure h) in
          if maxBody <? parsed then (Some 413, h)
          else (None, MkHead (hFields h) parsed (haveHost h) true (haveTransfer h) (haveExpect h)
                        (transferFailure h))
      | _ => (Some 413, h)
      end
  else if bytes_eqb name (txt "transfer-encoding") then
    if haveTransfer h || negb (TokenList value false) then (Some 400, h)
    else
      let failure :=
        if negb (EqualInsensitive value (txt "chunked")) then
          let (count, last) := CountChunked value in
          if (count =? 1) && last then 501 else 400
        else transferFailure h in
      (None, MkHead (hFields h) (hRemaining h) (haveHost h) (haveLength h) true (haveExpect h) failure)
  else if bytes_eqb name (txt "connection") then
    if negb (TokenList value true) then (Some 400, h) else (None, h)
  else if bytes_eqb name (txt "upgrade") then
    if negb (UpgradeProtocols value) then (Some 400, h) else (None, h)
  else if bytes_eqb name (txt "expect") then
    if haveExpect h || negb (EqualInsensitive value (txt "100-continue")) then (Some 417, h)
    else (None, MkHead (hFields h) (hRemaining h) (haveHost h) (haveLength h) (haveTransfer h) true
                  (transferFailure h))
  else (None, h).

Definition PushField (name value : list Z) (h : HeadState) : HeadState :=
  MkHead (hFields h ++ [(name, value)]) (hRemaining h) (haveHost h) (haveLength h) (haveTransfer h)
    (haveExpect h) (transferFailure h).

(** The loop over the field lines; every line takes two bytes or ends the loop. *)
Fixpoint FieldsLoop (fuel : nat) (maxBody : Z) (block : list Z) (h : HeadState) : option Z * HeadState :=
  match block with
  | [] => (None, h)
  | _ =>
      match fuel with
      | O => (Some 400, h)
      | S fuel' =>
          let (line, rest) := cut_sub Crlf block in
          match ParseHeader line with
          | None => (Some 400, h)
          | Some (name, value) =>
              if 128 <=? len (hFields h) then (Some 400, h)
              else
                match CheckField maxBody name value h with
                | (Some failure, h) => (Some failure, h)
                | (None, h) =>
                    let h := PushField name value h in
                    match rest with
                    | None => (None, h)
                    | Some rest => FieldsLoop fuel' maxBody rest h
                    end
                end
          end
      end
  end.

(** The authority of an absolute form replaces the value of the first Host field, or adds one. *)
Fixpoint ReplaceHost (authority : list Z) (fields : Fields) : Fields :=
  match fields with
  | [] => [(txt "host", authority)]
  | (name, value) :: fields =>
      if bytes_eqb name (txt "host") then (name, authority) :: fields
      else (name, value) :: ReplaceHost authority fields
  end.

Definition ParseHeaders (block : list Z) (p : HttpParser) : HttpParseResult * HttpParser :=
  match cut_sub Crlf block with
  | (_, None) => Fail 400 p
  | (line, Some fields) =>
      match SplitRequestLine line with
      | None => Fail 400 p
      | Some (name, written, version) =>
          if negb (bytes_eqb version (txt "HTTP/1.1")) && negb (bytes_eqb version (txt "HTTP/1.0")) then
            Fail 505 p
          else
            let http10 := bytes_eqb version (txt "HTTP/1.0") in
            let p := set_http10 http10 p in
            if negb (forallb TargetByte written) then Fail 400 p
            else
              match NormalizeTarget written with
              | None => Fail 400 p
              | Some (target, authority) =>
                  let (failure, h) :=
                    FieldsLoop (S (length fields)) (mMaxBody p) fields
                      (MkHead (headers (mRequest p)) (mRemaining p) false false false false 0) in
                  let p := set_request (MkRequest name target (hFields h) (body (mRequest p)))
                             (set_remaining (hRemaining h) p) in
                  match failure with
                  | Some code => Fail code p
                  | None =>
                      if (negb (haveHost h) && negb http10) || (haveLength h && haveTransfer h)
                         || (http10 && haveTransfer h) then Fail 400 p
                      else if negb (transferFailure h =? 0) then Fail (transferFailure h) p
                      else
                        let fields :=
                          if (length authority =? 0)%nat then hFields h
                          else ReplaceHost authority (hFields h) in
                        let p := set_request (MkRequest name target fields (body (mRequest p))) p in
                        let p := set_stage (if haveTransfer h then StageChunkSize else StageFixedBody) p in
                        (More, set_continue (haveExpect h && negb http10
                                 && (haveTransfer h || negb (hRemaining h =? 0))) p)
                  end
              end
      end
  end.

(** ** The stages *)

(** What a stage does: it returns from [Advance], or goes on with what is left of the input. *)
Inductive Flow : Type :=
| Return (result : HttpParseResult) (p : HttpParser) (input : list Z) (output : HttpRequest)
| Go (p : HttpParser) (input : list Z).

Definition FailWith (code : Z) (p : HttpParser) (input : list Z) (output : HttpRequest) : Flow :=
  let (result, p) := Fail code p in Return result p input output.

Fixpoint SkipBlankLines (input : list Z) : list Z :=
  match input with
  | a :: b :: rest => if (a =? 13) && (b =? 10) then SkipBlankLines rest else input
  | _ => input
  end.

(** The scan for the end of the head: a CR or LF without its mate, the position of the final
    CRLF CRLF, or neither; [count] positions are looked at from [index] on. *)
Inductive Scan : Type := ScanBad | ScanEnd (position : nat) | ScanMore.

Fixpoint ScanHead (input : list Z) (count index : nat) : Scan :=
  match count with
  | O => ScanMore
  | S count' =>
      let ch := nth index input 0 in
      let afterCr := negb (index =? 0)%nat && (nth (index - 1) input 0 =? 13) in
      if ch =? 10 then
        if negb afterCr then ScanBad
        else if (3 <=? index)%nat && (nth (index - 2) input 0 =? 10) then ScanEnd (index - 3)
        else ScanHead input count' (S index)
      else if afterCr then ScanBad
      else ScanHead input count' (S index)
  end.

Definition HeadersStage (p : HttpParser) (input : list Z) (output : HttpRequest) : Flow :=
  let input := if (mHeaderSearch p =? 0)%nat then SkipBlankLines input else input in
  if (mHeaderSearch p =? 0)%nat && bytes_eqb input [13] then Return More p input output
  else
    let p := set_head_request (starts_with (txt "HEAD ") input) p in
    match ScanHead input (length input - mHeaderSearch p) (mHeaderSearch p) with
    | ScanBad => FailWith 400 p input output
    | ScanMore =>
        if mMaxHeaders p <=? len input then FailWith 431 p input output
        else Return More (set_search (length input) p) input output
    | ScanEnd position =>
        if mMaxHeaders p <? Z.of_nat position + 4 then FailWith 431 p input output
        else
          let (result, p) := ParseHeaders (take (position + 2) input) p in
          if bool_decide (kind result = Error) then Return result p input output
          else
            let input := drop (position + 4) input in
            if mSeparateHeaders p then
              Return (MkResult Headers 200) (set_request EmptyRequest p) input (mRequest p)
            else Go p input
    end.

(** The body bytes taken from the input, here and in a chunk. *)
Definition BodyCount (p : HttpParser) (input : list Z) : nat :=
  Nat.min (length input)
    (Nat.min (Z.to_nat (mRemaining p)) (Z.to_nat (if mStreaming p then mMaxChunk p else mRemaining p))).

Definition TakeBody (p : HttpParser) (input : list Z) : HttpParser :=
  let count := BodyCount p input in
  set_body_bytes (mBodyBytes p + Z.of_nat count)
    (set_remaining (mRemaining p - Z.of_nat count)
      (set_request (with_body (body (mRequest p) ++ take count input) (mRequest p)) p)).

(** [output.body = std::move(mRequest.body)] and the Body result. *)
Definition ReturnBody (p : HttpParser) (input : list Z) (output : HttpRequest) : Flow :=
  Return (MkResult Body 200) (set_request (with_body [] (mRequest p)) p) input
    (with_body (body (mRequest p)) output).

Definition ReturnComplete (p : HttpParser) (input : list Z) : Flow :=
  let '(result, p, output) := CompleteRequest p in Return result p input output.

Definition FixedBodyStage (p : HttpParser) (input : list Z) (output : HttpRequest) : Flow :=
  let count := BodyCount p input in
  let p := TakeBody p input in
  let input := drop count input in
  if mStreaming p && negb (count =? 0)%nat then ReturnBody p input output
  else if mRemaining p =? 0 then ReturnComplete p input
  else Return More p input output.

Definition HexDigitByte (ch : Z) : bool := 0 <=? RequestData.Hex ch.

Fixpoint SpanHex (line : list Z) : list Z * list Z :=
  match line with
  | [] => ([], [])
  | ch :: rest =>
      if HexDigitByte ch then let (digits, rest) := SpanHex rest in (ch :: digits, rest)
      else ([], line)
  end.

(** [std::from_chars] to base 16 of a text of hexadecimal digits. *)
Definition hex_value (digits : list Z) : Z :=
  fold_left (fun value ch => value * 16 + RequestData.Hex ch) digits 0.

Definition from_chars_hex (digits : list Z) : option Z :=
  if hex_value digits <=? UINT64_MAX then Some (hex_value digits) else None.

Definition ChunkSizeStage (p : HttpParser) (input : list Z) (output : HttpRequest) : Flow :=
  let limit := size_sub (mMaxHeaders p) (mChunkOverhead p) in
  match cut_sub Crlf input with
  | (_, None) => if limit <? len input then FailWith 431 p input output else Return More p input output
  | (line, Some rest) =>
      if limit <? len line + 2 then FailWith 431 p input output
      else
        let (digits, extensions) := SpanHex line in
        if (length digits =? 0)%nat
           || (negb (length extensions =? 0)%nat && negb (ValidChunkExtensions extensions)) then
          FailWith 400 p input output
        else
          match from_chars_hex digits with
          | None => FailWith 413 p input output
          | Some size =>
              let p := set_remaining size p in
              if size_sub (mMaxBody p) (mBodyBytes p) <? size then FailWith 413 p input output
              else
                Go (set_stage (if size =? 0 then StageTrailers else StageChunkData)
                     (set_overhead (mChunkOverhead p + len line + 2) p)) rest
          end
  end.

Definition ChunkDataStage (p : HttpParser) (input : list Z) (output : HttpRequest) : Flow :=
  let count := BodyCount p input in
  let p := TakeBody p input in
  let input := drop count input in
  if mStreaming p && negb (count =? 0)%nat then
    ReturnBody (if mRemaining p =? 0 then set_stage StageChunkEnd p else p) input output
  else if negb (mRemaining p =? 0) then Return More p input output
  else Go (set_stage StageChunkEnd p) input.

Definition ChunkEndStage (p : HttpParser) (input : list Z) (output : HttpRequest) : Flow :=
  if (length input <? 2)%nat then Return More p input output
  else if negb (starts_with Crlf input) then FailWith 400 p input output
  else if size_sub (mMaxHeaders p) 2 <? mChunkOverhead p then FailWith 431 p input output
  else
    let p := set_overhead (mChunkOverhead p + 2) p in
    let p := if mStreaming p then set_overhead 0 p else p in
    Go (set_stage StageChunkSize p) (drop 2 input).

Definition TrailersStage (p : HttpParser) (input : list Z) (output : HttpRequest) : Flow :=
  let limit := size_sub (mMaxHeaders p) (mTrailerBytes p) in
  match cut_sub Crlf input with
  | (_, None) => if limit <? len input then FailWith 431 p input output else Return More p input output
  | (line, Some rest) =>
      if limit <? len line + 2 then FailWith 431 p input output
      else
        let p := set_trailer_bytes (mTrailerBytes p + len line + 2) p in
        if (length line =? 0)%nat then ReturnComplete p rest
        else
          match ParseHeader line with
          | None => FailWith 400 p input output
          | Some (name, _) =>
              if ForbiddenTrailer name then FailWith 400 p input output else Go p rest
          end
  end.

(** [f] when the stage is [s], and then [k] unless it returned: the [if]s of the loop in sequence. *)
Definition within (s : Stage) (f : HttpParser -> list Z -> HttpRequest -> Flow)
    (p : HttpParser) (input : list Z) (output : HttpRequest) (k : HttpParser -> list Z -> Flow) : Flow :=
  if bool_decide (mStage p = s) then
    match f p input output with
    | Return r p i o => Return r p i o
    | Go p i => k p i
    end
  else k p input.

(** One round of the loop of [Advance]. *)
Definition Round (p : HttpParser) (input : list Z) (output : HttpRequest) : Flow :=
  if bool_decide (mStage p = StageFailed) then Return (MkResult Error 400) p input output
  else
    within StageHeaders HeadersStage p input output (fun p input =>
      if mContinue p then Return (MkResult Continue 100) (set_continue false p) input output
      else
        within StageFixedBody FixedBodyStage p input output (fun p input =>
        within StageChunkSize ChunkSizeStage p input output (fun p input =>
        within StageChunkData ChunkDataStage p input output (fun p input =>
          if bool_decide (mStage p = StageChunkEnd) then ChunkEndStage p input output
          else within StageTrailers TrailersStage p input output Go)))).

Fixpoint AdvanceLoop (fuel : nat) (p : HttpParser) (input : list Z) (output : HttpRequest)
    : option (HttpParseResult * HttpParser * list Z * HttpRequest) :=
  match fuel with
  | O => None
  | S fuel' =>
      match Round p input output with
      | Return r p i o => Some (r, p, i, o)
      | Go p i => AdvanceLoop fuel' p i output
      end
  end.

(** [Parse]: the result, the parser, what is left of the input, [output]. *)
Definition Parse (p : HttpParser) (input : list Z) (output : HttpRequest)
    : option (HttpParseResult * HttpParser * list Z * HttpRequest) :=
  AdvanceLoop (S (length input)) p input output.

End HttpParser.

Import HttpParser.

Example parse_chunked :
  Parse (New 256 64 false)
    (txt "POST /a HTTP/1.1" ++ Crlf ++ txt "Host: h" ++ Crlf ++ txt "Transfer-Encoding: chunked" ++ Crlf
      ++ Crlf ++ txt "3;x=y" ++ Crlf ++ txt "abc" ++ Crlf ++ txt "0" ++ Crlf ++ txt "T: v" ++ Crlf ++ Crlf
      ++ txt "GET") EmptyRequest =
  Some (MkResult Complete 200, New 256 64 false, txt "GET",
    MkRequest (txt "POST") (txt "/a") [(txt "host", txt "h"); (txt "transfer-encoding", txt "chunked")]
      (txt "abc")).
Proof. vm_compute. reflexivity. Qed.

(** ** The loop, stage by stage *)

Lemma size_sub_le a b : 0 <= b <= a -> a < 2 ^ 64 -> size_sub a b = a - b.
Proof. intros. unfold size_sub, wrap64. apply Z.mod_small. lia. Qed.

(** The loop body seen as one stage a step: what falls through in the source goes on here. *)
Definition Micro (p : HttpParser) (input : list Z) (output : HttpRequest) : Flow :=
  match mStage p with
  | StageFailed => Return (MkResult Error 400) p input output
  | StageHeaders => HeadersStage p input output
  | s =>
      if mContinue p then Return (MkResult Continue 100) (set_continue false p) input output
      else
        match s with
        | StageFixedBody => FixedBodyStage p input output
        | StageChunkSize => ChunkSizeStage p input output
        | StageChunkData => ChunkDataStage p input output
        | StageChunkEnd => ChunkEndStage p input output
        | _ => TrailersStage p input output
        end
  end.

Notation Outcome := (HttpParseResult * HttpParser * list Z * HttpRequest)%type.

Inductive runs (o : HttpRequest) : HttpParser -> list Z -> Outcome -> Prop :=
| runs_return p i r p1 i1 o1 : Micro p i o = Return r p1 i1 o1 -> runs o p i (r, p1, i1, o1)
| runs_go p i p1 i1 out : Micro p i o = Go p1 i1 -> runs o p1 i1 out -> runs o p i out.

Lemma runs_det o p i out out' : runs o p i out -> runs o p i out' -> out = out'.
Proof.
  induction 1 as [p i r p1 i1 o1 H|p i p1 i1 out H Hr IH]; intros H'; inversion H'; subst; try congruence.
  apply IH. congruence.
Qed.

Ltac flow_cases H :=
  repeat (case_match_in H; try discriminate H).

Lemma go_inj p i p' i' : Go p i = Go p' i' -> p = p' /\ i = i'.
Proof. by intros [= -> ->]. Qed.

Lemma parse_headers_stage block p r p1 :
  ParseHeaders block p = (r, p1) -> kind r <> Error ->
  mStage p1 = StageFixedBody \/ mStage p1 = StageChunkSize.
Proof.
  intros H Hk. unfold ParseHeaders, Fail in H. flow_cases H; injection H as <- <-; try done;
    cbn; destruct (haveTransfer _); auto.
Qed.

Lemma scan_bounds input count index pos :
  ScanHead input count index = ScanEnd pos -> (index <= pos + 3 < index + count)%nat.
Proof.
  revert index. induction count as [|count IH]; intros index H; cbn [ScanHead] in H; [done|].
  repeat case_if_in H; try done; try (apply IH in H; lia). injection H as <-. lia.
Qed.

Lemma scan_end_char input count index pos :
  ScanHead input count index = ScanEnd pos -> nth (pos + 3) input 0 = 10.
Proof.
  revert index. induction count as [|count IH]; intros index H; cbn [ScanHead] in H; [done|].
  repeat case_if_in H; try done; try (by apply IH in H). injection H as <-.
  replace (index - 3 + 3)%nat with index by lia. lia.
Qed.

Lemma skip_blank_shorter input : (length (SkipBlankLines input) <= length input)%nat.
Proof.
  induction input as [input IH] using (induction_ltof1 _ (@length Z)). unfold ltof in IH.
  destruct input as [|a [|b rest]]; cbn [SkipBlankLines]; [done|done|]. case_if; [|done].
  etransitivity; [apply IH; cbn; lia|]. cbn. lia.
Qed.

Lemma headers_go p i o p1 i1 :
  HeadersStage p i o = Go p1 i1 ->
  (mStage p1 = StageFixedBody \/ mStage p1 = StageChunkSize) /\ (length i1 + 4 <= length i)%nat.
Proof.
  unfold HeadersStage. set (i0 := if (mHeaderSearch p =? 0)%nat then _ else i). intros H.
  assert (length i0 <= length i)%nat as H0.
  { unfold i0. case_if; [apply skip_blank_shorter|done]. }
  case_if_in H; [done|]. destruct (ScanHead _ _ _) as [|pos|] eqn:Es in H; [done| |by case_if_in H].
  case_if_in H; [done|]. destruct (ParseHeaders _ _) as [r p2] eqn:Ep. case_if_in H; [done|].
  case_if_in H; [done|]. apply go_inj in H as [<- <-]. apply bool_decide_eq_false in E1.
  split; [by eapply parse_headers_stage|]. apply scan_bounds in Es. rewrite length_drop. lia.
Qed.

Lemma chunk_size_go p i o p1 i1 :
  ChunkSizeStage p i o = Go p1 i1 ->
  (mStage p1 = StageTrailers \/ mStage p1 = StageChunkData) /\ mContinue p1 = mContinue p /\
  (length i1 + 2 <= length i)%nat.
Proof.
  unfold ChunkSizeStage. intros H. destruct (cut_sub Crlf i) as [line [rest|]] eqn:Ec; [|by case_if_in H].
  case_if_in H; [done|]. destruct (SpanHex line) as [digits ext]. case_if_in H; [done|].
  destruct (from_chars_hex digits) as [size|]; [|done]. case_if_in H; [done|].
  apply go_inj in H as [<- <-]. apply cut_sub_length in Ec. cbn in Ec |- *.
  split_and!; [destruct (size =? 0); auto|done|lia].
Qed.

Lemma chunk_data_go p i o p1 i1 :
  ChunkDataStage p i o = Go p1 i1 ->
  mStage p1 = StageChunkEnd /\ mContinue p1 = mContinue p /\ (length i1 <= length i)%nat.
Proof.
  unfold ChunkDataStage. intros H. case_if_in H; [done|]. case_if_in H; [done|].
  apply go_inj in H as [<- <-]. rewrite length_drop. split_and!; [done|done|lia].
Qed.

Lemma chunk_end_go p i o p1 i1 :
  ChunkEndStage p i o = Go p1 i1 ->
  mStage p1 = StageChunkSize /\ mContinue p1 = mContinue p /\ (length i1 + 2 <= length i)%nat.
Proof.
  unfold ChunkEndStage. intros H. case_if_in H; [done|]. case_if_in H; [done|]. case_if_in H; [done|].
  apply go_inj in H as [<- <-]. rewrite length_drop. split_and!; [done| |lia]. by destruct (mStreaming _).
Qed.

Lemma trailers_go p i o p1 i1 :
  TrailersStage p i o = Go p1 i1 ->
  mStage p1 = mStage p /\ mContinue p1 = mContinue p /\ (length i1 + 2 <= length i)%nat.
Proof.
  unfold TrailersStage. intros H. destruct (cut_sub Crlf i) as [line [rest|]] eqn:Ec; [|by case_if_in H].
  case_if_in H; [done|]. case_if_in H; [done|].
  destruct (ParseHeader line) as [[name value]|]; [|done]. case_if_in H; [done|].
  apply go_inj in H as [<- <-]. apply cut_sub_length in Ec. cbn in Ec |- *. split_and!; [done|done|lia].
Qed.

(** A stage within its test, when the stage is the one tested and when it is not. *)
Lemma within_here s f p i o k :
  mStage p = s -> within s f p i o k = match f p i o with Return r p i o => Return r p i o | Go p i => k p i end.
Proof. intros H. unfold within. by rewrite bool_decide_true. Qed.

Lemma within_skip s f p i o k : mStage p <> s -> within s f p i o k = k p i.
Proof. intros H. unfold within. by rewrite bool_decide_false. Qed.

(** Falling through is going on: a round that returns is a run, a round that goes on starts one, and
    what it leaves is shorter. *)
Definition body_round (p : HttpParser) (i : list Z) (o : HttpRequest) : Flow :=
  if mContinue p then Return (MkResult Continue 100) (set_continue false p) i o
  else
    within StageFixedBody FixedBodyStage p i o (fun p i =>
    within StageChunkSize ChunkSizeStage p i o (fun p i =>
    within StageChunkData ChunkDataStage p i o (fun p i =>
      if bool_decide (mStage p = StageChunkEnd) then ChunkEndStage p i o
      else within StageTrailers TrailersStage p i o Go))).

(** The rounds from a stage on. *)
Definition flow_runs (o : HttpRequest) (p : HttpParser) (i : list Z) (f : Flow) : Prop :=
  match f with
  | Return r p1 i1 o1 => runs o p i (r, p1, i1, o1)
  | Go p1 i1 => (length i1 < length i)%nat /\ forall out, runs o p1 i1 out -> runs o p i out
  end.

Lemma flow_runs_micro o p i p1 i1 f :
  Micro p i o = Go p1 i1 -> (length i1 <= length i)%nat -> flow_runs o p1 i1 f -> flow_runs o p i f.
Proof.
  intros Hm Hl. destruct f as [r p2 i2 o2|p2 i2]; cbn.
  - by apply runs_go.
  - intros [H1 H2]. split; [lia|]. intros out Hr. eapply runs_go; eauto.
Qed.

Lemma flow_runs_here o p i :
  (forall p1 i1, Micro p i o = Go p1 i1 -> (length i1 < length i)%nat) -> flow_runs o p i (Micro p i o).
Proof.
  intros Hl. destruct (Micro p i o) as [r p1 i1 o1|p1 i1] eqn:E; cbn; [by apply runs_return|].
  split; [by apply (Hl p1 i1)|]. intros out. by apply runs_go.
Qed.

Lemma end_round o p i :
  mContinue p = false -> mStage p = StageChunkEnd \/ mStage p = StageTrailers ->
  flow_runs o p i (if bool_decide (mStage p = StageChunkEnd) then ChunkEndStage p i o
                   else within StageTrailers TrailersStage p i o Go).
Proof.
  intros Hc Hs. destruct Hs as [Hs|Hs].
  - rewrite bool_decide_true by done.
    replace (ChunkEndStage p i o) with (Micro p i o) by (unfold Micro; by rewrite Hs, Hc).
    apply flow_runs_here. unfold Micro. rewrite Hs, Hc. intros p1 i1 H.
    apply chunk_end_go in H. lia.
  - rewrite bool_decide_false, within_here by congruence.
    replace (match TrailersStage p i o with Return r p0 i0 o0 => Return r p0 i0 o0 | Go p0 i0 => Go p0 i0 end)
      with (Micro p i o) by (unfold Micro; rewrite Hs, Hc; by destruct (TrailersStage p i o)).
    apply flow_runs_here. unfold Micro. rewrite Hs, Hc. intros p1 i1 H. apply trailers_go in H. lia.
Qed.

Lemma data_round o p i :
  mContinue p = false ->
  mStage p = StageChunkData \/ mStage p = StageChunkEnd \/ mStage p = StageTrailers ->
  flow_runs o p i (within StageChunkData ChunkDataStage p i o (fun p i =>
      if bool_decide (mStage p = StageChunkEnd) then ChunkEndStage p i o
      else within StageTrailers TrailersStage p i o Go)).
Proof.
  intros Hc Hs. destruct Hs as [Hs|Hs].
  - rewrite within_here by done. assert (Micro p i o = ChunkDataStage p i o) as Hm
      by (unfold Micro; by rewrite Hs, Hc).
    destruct (ChunkDataStage p i o) as [r p1 i1 o1|p1 i1] eqn:E; [by apply runs_return|].
    destruct (chunk_data_go _ _ _ _ _ E) as (Hs1 & Hc1 & Hl).
    eapply flow_runs_micro; [exact Hm|done|]. apply end_round; [congruence|by left].
  - rewrite within_skip by (destruct Hs; congruence). by apply end_round.
Qed.

Lemma round_runs o p i : flow_runs o p i (Round p i o).
Proof.
  assert (forall p i, mStage p <> StageHeaders -> mStage p <> StageFailed ->
    flow_runs o p i (body_round p i o)) as Hbody.
  { clear p i. intros p i H1 H2. unfold body_round. destruct (mContinue p) eqn:Ec.
    { apply runs_return. unfold Micro. rewrite Ec. by destruct (mStage p). }
    destruct (decide (mStage p = StageFixedBody)) as [Hf|Hf].
    { rewrite within_here by done.
      assert (forall f, FixedBodyStage p i o = f -> Micro p i o = f) as Hm
        by (intros f <-; unfold Micro; by rewrite Hf, Ec).
      destruct (FixedBodyStage p i o) as [r p1 i1 o1|p1 i1] eqn:E; [by apply runs_return, Hm|].
      exfalso. unfold FixedBodyStage in E. repeat (case_if_in E; [done|]). done. }
    rewrite within_skip by done. destruct (decide (mStage p = StageChunkSize)) as [Hz|Hz].
    { rewrite within_here by done. assert (Micro p i o = ChunkSizeStage p i o) as Hm
        by (unfold Micro; by rewrite Hz, Ec).
      destruct (ChunkSizeStage p i o) as [r p1 i1 o1|p1 i1] eqn:E; [by apply runs_return|].
      destruct (chunk_size_go _ _ _ _ _ E) as (Hs1 & Hc1 & Hl).
      eapply flow_runs_micro; [exact Hm|lia|]. apply data_round; [congruence|tauto]. }
    rewrite within_skip by done. apply data_round; [done|].
    destruct (mStage p) eqn:Es; auto; done. }
  unfold Round. case_bool_decide as Hf.
  { apply runs_return. unfold Micro. by rewrite Hf. }
  destruct (decide (mStage p = StageHeaders)) as [Hh|Hh].
  - rewrite within_here by done.
    assert (forall f, HeadersStage p i o = f -> Micro p i o = f) as Hm
      by (intros f <-; unfold Micro; by rewrite Hh).
    destruct (HeadersStage p i o) as [r p1 i1 o1|p1 i1] eqn:E; [by apply runs_return, Hm|].
    destruct (headers_go _ _ _ _ _ E) as [Hs1 Hl].
    eapply flow_runs_micro; [by apply Hm|lia|]. apply Hbody; destruct Hs1; congruence.
  - rewrite within_skip by done. by apply Hbody.
Qed.

(** [Parse] always returns, and what it returns is the run. *)
Lemma advance_runs fuel o p i :
  (length i < fuel)%nat -> exists out, AdvanceLoop fuel p i o = Some out /\ runs o p i out.
Proof.
  revert p i. induction fuel as [|fuel IH]; intros p i Hf; [lia|]. cbn [AdvanceLoop].
  pose proof (round_runs o p i) as H. destruct (Round p i o) as [r p1 i1 o1|p1 i1]; cbn in H; [by eauto|].
  destruct H as [Hl Hr]. destruct (IH p1 i1) as (out & H1 & H2); [lia|]. eauto.
Qed.

Lemma parse_runs o p i out : Parse p i o = Some out <-> runs o p i out.
Proof.
  unfold Parse. destruct (advance_runs (S (length i)) o p i) as (out' & H1 & H2); [lia|].
  rewrite H1. split; [by intros [= <-]|]. intros H. by rewrite (runs_det _ _ _ _ _ H H2).
Qed.

(** ** Any pieces *)

(** Outside the head, [mHeaderSearch] is a leftover that is reset before it is read again. *)
Definition norm (p : HttpParser) : HttpParser :=
  if bool_decide (mStage p = StageHeaders) then p else set_search 0 p.

(** The same step, up to the leftover and to the status of an error. *)
Definition same_flow (f g : Flow) : Prop :=
  match f, g with
  | Go p i, Go q j => norm p = norm q /\ i = j
  | Return r p i o, Return r' q j o' =>
      kind r = kind r' /\ (kind r <> Error -> r = r' /\ norm p = norm q /\ i = j /\ o = o')
  | _, _ => False
  end.

Definition same_outcome (a b : Outcome) : Prop :=
  let '(r, p, i, o) := a in let '(r', q, j, o') := b in
  kind r = kind r' /\ (kind r <> Error -> r = r' /\ norm p = norm q /\ i = j /\ o = o').

#[export] Instance same_flow_refl : Reflexive same_flow.
Proof. intros [r p i o|p i]; cbn; auto. Qed.

#[export] Instance same_outcome_equiv : Equivalence same_outcome.
Proof.
  split.
  - intros [[[r p] i] o]. cbn. auto.
  - intros [[[r p] i] o] [[[r' q] j] o'] [H1 H2]. cbn. split; [done|]. intros Hk.
    rewrite <- H1 in Hk. destruct (H2 Hk) as (-> & -> & -> & ->). done.
  - intros [[[r p] i] o] [[[r' q] j] o'] [[[r'' q'] j'] o''] [H1 H2] [H3 H4]. cbn.
    split; [congruence|]. intros Hk. destruct (H2 Hk) as (-> & -> & -> & ->).
    destruct (H4 Hk) as (-> & -> & -> & ->). done.
Qed.

Lemma norm_search n p : mStage p <> StageHeaders -> norm (set_search n p) = norm p.
Proof. intros H. unfold norm. cbn. by rewrite !bool_decide_false. Qed.

Lemma norm_eq p q :
  norm p = norm q -> p = q \/ (mStage p <> StageHeaders /\ q = set_search (mHeaderSearch q) p).
Proof.
  unfold norm. intros H. assert (mStage p = mStage q) as Hs.
  { apply (f_equal mStage) in H. by destruct (bool_decide _), (bool_decide _). }
  destruct (decide (mStage p = StageHeaders)) as [Hh|Hh].
  - rewrite !bool_decide_true in H by congruence. by left.
  - right. split; [done|]. rewrite !bool_decide_false in H by congruence.
    destruct p, q. cbn in *. by injection H as <- <- <- <- <- <- <- <- <- <- <- <- <- <-.
Qed.

Lemma same_fail code p q i o : same_flow (FailWith code p i o) (FailWith code q i o).
Proof. by cbn. Qed.

(** No stage but the first reads [mHeaderSearch]. *)
Lemma micro_search n p i o :
  mStage p <> StageHeaders -> same_flow (Micro p i o) (Micro (set_search n p) i o).
Proof.
  intros Hs.
  assert (forall r q i o, mStage q <> StageHeaders ->
    same_flow (Return r q i o) (Return r (set_search n q) i o)) as Hret.
  { intros r q i' o' Hq. cbn. split; [done|]. intros _. by rewrite norm_search. }
  assert (forall q i, mStage q <> StageHeaders -> same_flow (Go q i) (Go (set_search n q) i)) as Hgo.
  { intros q i' Hq. cbn. by rewrite norm_search. }
  unfold Micro. cbn [mStage set_search mContinue].
  assert (mStage (TakeBody p i) = mStage p) as Ht by done.
  destruct (mStage p) eqn:Es; [done|destruct (mContinue p); [apply Hret; cbn; congruence|]..|].
  - unfold FixedBodyStage. change (TakeBody (set_search n p) i) with (set_search n (TakeBody p i)).
    change (BodyCount (set_search n p) i) with (BodyCount p i). cbn [mStreaming mRemaining set_search].
    case_if; [apply Hret; cbn; congruence|]. case_if; [done|apply Hret; cbn; congruence].
  - unfold ChunkSizeStage. cbn [mMaxHeaders mChunkOverhead mMaxBody mBodyBytes set_search set_remaining].
    destruct (cut_sub Crlf i) as [line [rest|]].
    + case_if; [apply same_fail|]. destruct (SpanHex line). case_if; [apply same_fail|].
      destruct (from_chars_hex _) as [size|]; [|apply same_fail]. case_if; [apply same_fail|].
      apply Hgo. cbn. by destruct (size =? 0).
    + case_if; [apply same_fail|apply Hret; cbn; congruence].
  - unfold ChunkDataStage. change (TakeBody (set_search n p) i) with (set_search n (TakeBody p i)).
    change (BodyCount (set_search n p) i) with (BodyCount p i). cbn [mStreaming mRemaining set_search].
    case_if; [case_if; apply Hret; cbn; congruence|]. case_if; [apply Hret; cbn; congruence|].
    by apply Hgo.
  - unfold ChunkEndStage. cbn [mMaxHeaders mChunkOverhead set_search]. case_if; [apply Hret; cbn; congruence|].
    case_if; [apply same_fail|]. case_if; [apply same_fail|].
    cbn [mStreaming set_overhead set_search]. case_if; by apply Hgo.
  - unfold TrailersStage. cbn [mMaxHeaders mTrailerBytes set_search].
    destruct (cut_sub Crlf i) as [line [rest|]].
    + case_if; [apply same_fail|]. case_if; [done|].
      destruct (ParseHeader line) as [[name value]|]; [|apply same_fail].
      case_if; [apply same_fail|]. apply Hgo. cbn. congruence.
    + case_if; [apply same_fail|apply Hret; cbn; congruence].
  - apply Hret. congruence.
Qed.

Lemma runs_same o p q i out :
  runs o p i out -> norm p = norm q -> exists out', runs o q i out' /\ same_outcome out out'.
Proof.
  intros Hr. revert q. induction Hr as [p i r p1 i1 o1 H|p i p1 i1 out H Hr IH]; intros q Hq;
    apply norm_eq in Hq as [<- |[Hs Hq]].
  - exists (r, p1, i1, o1). split; [by apply runs_return|done].
  - pose proof (micro_search (mHeaderSearch q) p i o Hs) as Hm. rewrite H, <- Hq in Hm.
    destruct (Micro q i o) as [r' q1 j o'|] eqn:E; [|done]. exists (r', q1, j, o').
    split; [by apply runs_return|exact Hm].
  - exists out. split; [by eapply runs_go|done].
  - pose proof (micro_search (mHeaderSearch q) p i o Hs) as Hm. rewrite H, <- Hq in Hm.
    destruct (Micro q i o) as [|q1 j] eqn:E; [done|]. destruct Hm as [Hn <-].
    destruct (IH q1 Hn) as (out' & Hr' & Ho). exists out'. split; [by eapply runs_go|done].
Qed.

(** *** The head in pieces *)

Lemma scan_prefix input x count index :
  (index + count <= length input)%nat -> ScanHead (input ++ x) count index = ScanHead input count index.
Proof.
  revert index. induction count as [|count IH]; intros index H; cbn [ScanHead]; [done|].
  rewrite !app_nth1 by lia. by rewrite !IH by lia.
Qed.

Lemma scan_split input a b index :
  ScanHead input (a + b) index =
    match ScanHead input a index with ScanMore => ScanHead input b (index + a) | s => s end.
Proof.
  revert index. induction a as [|a IH]; intros index; cbn [ScanHead Nat.add]; [by rewrite Nat.add_0_r|].
  rewrite IH. replace (index + S a)%nat with (S index + a)%nat by lia. by case_ifs.
Qed.

Lemma skip_blank_app input x : SkipBlankLines (input ++ x) = SkipBlankLines (SkipBlankLines input ++ x).
Proof.
  induction input as [input IH] using (induction_ltof1 _ (@length Z)). unfold ltof in IH.
  destruct input as [|a [|b rest]]; [done|done|]. cbn [SkipBlankLines app].
  destruct ((a =? 13) && (b =? 10)) eqn:E; [apply IH; cbn; lia|]. cbn [app SkipBlankLines]. by rewrite E.
Qed.

Lemma skip_blank_idem input : SkipBlankLines (SkipBlankLines input) = SkipBlankLines input.
Proof.
  pose proof (skip_blank_app input []) as H. by rewrite !app_nil_r in H.
Qed.

Lemma skip_blank_stop input x :
  SkipBlankLines input = input -> input <> [] -> input <> [13] -> SkipBlankLines (input ++ x) = input ++ x.
Proof.
  intros H H1 H2. destruct input as [|a [|b rest]]; [done| |].
  - destruct x as [|b x]; [done|]. cbn. destruct (Z.eqb_spec a 13) as [->|Ha]; [done|]. done.
  - cbn in H |- *. destruct ((a =? 13) && (b =? 10)) eqn:E; [|done].
    exfalso. pose proof (skip_blank_shorter rest) as Hl. apply (f_equal length) in H. cbn in H. lia.
Qed.

Lemma parse_headers_search block n p :
  ParseHeaders block (set_search n p) =
    let (r, q) := ParseHeaders block p in (r, set_search n q).
Proof.
  unfold ParseHeaders, Fail. cbn [mMaxBody mRemaining mRequest set_search set_http10].
  destruct (cut_sub Crlf block) as [line [fields|]]; [|done].
  destruct (SplitRequestLine line) as [[[name written] version]|]; [|done].
  case_if; [done|]. case_if; [done|]. destruct (NormalizeTarget written) as [[target authority]|]; [|done].
  destruct (FieldsLoop _ _ _ _) as [[failure|] h]; [done|]. case_if; [done|]. case_if; done.
Qed.

(** The scan of a head, from any of its prefixes that has been scanned. *)
Definition scan_from (s : nat) (input : list Z) : Scan := ScanHead input (length input - s) s.

Lemma scan_resume s input x :
  (s <= length input)%nat -> scan_from s input = ScanMore ->
  scan_from s (input ++ x) = scan_from (length input) (input ++ x).
Proof.
  intros Hs H. unfold scan_from in *. rewrite length_app.
  replace (length input + length x - s)%nat with ((length input - s) + length x)%nat by lia.
  rewrite scan_split, scan_prefix by lia. rewrite H. f_equal; lia.
Qed.

Lemma scan_stop s input x r :
  (s <= length input)%nat -> scan_from s input = r -> r <> ScanMore -> scan_from s (input ++ x) = r.
Proof.
  intros Hs H Hr. unfold scan_from in *. rewrite length_app.
  replace (length input + length x - s)%nat with ((length input - s) + length x)%nat by lia.
  rewrite scan_split, scan_prefix by lia. rewrite H. by destruct r.
Qed.

(** [HeadersStage] from behind the blank lines. *)
Definition HeadCore (p : HttpParser) (input : list Z) (output : HttpRequest) : Flow :=
  let p := set_head_request (starts_with (txt "HEAD ") input) p in
  match scan_from (mHeaderSearch p) input with
  | ScanBad => FailWith 400 p input output
  | ScanMore =>
      if mMaxHeaders p <=? len input then FailWith 431 p input output
      else Return More (set_search (length input) p) input output
  | ScanEnd position =>
      if mMaxHeaders p <? Z.of_nat position + 4 then FailWith 431 p input output
      else
        let (result, p) := ParseHeaders (take (position + 2) input) p in
        if bool_decide (kind result = Error) then Return result p input output
        else
          let input := drop (position + 4) input in
          if mSeparateHeaders p then
            Return (MkResult Headers 200) (set_request EmptyRequest p) input (mRequest p)
          else Go p input
  end.

Lemma headers_stage_core p i o :
  HeadersStage p i o =
    let i0 := if (mHeaderSearch p =? 0)%nat then SkipBlankLines i else i in
    if (mHeaderSearch p =? 0)%nat && bytes_eqb i0 [13] then Return More p i0 o else HeadCore p i0 o.
Proof. done. Qed.

Lemma parse_headers_kind block p r q :
  ParseHeaders block p = (r, q) ->
  (kind r = Error \/ r = More) /\ mStreaming q = mStreaming p /\ mSeparateHeaders q = mSeparateHeaders p.
Proof.
  intros H. unfold ParseHeaders, Fail in H. flow_cases H; injection H as <- <-; cbn; auto.
Qed.

Lemma core_search p i o n b :
  mStage p = StageHeaders -> scan_from (mHeaderSearch p) i = scan_from n i ->
  same_flow (HeadCore p i o) (HeadCore (set_search n (set_head_request b p)) i o).
Proof.
  intros Hs Hscan. unfold HeadCore. cbn [mHeaderSearch set_head_request set_search mMaxHeaders].
  rewrite <- Hscan. destruct (scan_from _ i) as [|pos|]; [done| |].
  - case_if; [done|].
    change (set_head_request ?h (set_search n (set_head_request b p)))
      with (set_search n (set_head_request h p)).
    rewrite parse_headers_search. destruct (ParseHeaders _ _) as [r q] eqn:Ep.
    case_bool_decide as Hk; [by cbn|]. cbn [mSeparateHeaders set_search].
    assert (mStage q <> StageHeaders) as Hq
      by (destruct (parse_headers_stage _ _ _ _ Ep Hk); congruence).
    case_if; cbn; [|by rewrite norm_search].
    split; [done|]. intros _. split_and!; try done.
    change (set_request EmptyRequest (set_search n q)) with (set_search n (set_request EmptyRequest q)).
    by rewrite norm_search.
  - case_if; [done|]. cbn. done.
Qed.

(** More input for a head that is not complete. *)
Lemma core_more p i o p1 i1 o1 x :
  mStage p = StageHeaders -> (mHeaderSearch p <= length i)%nat ->
  HeadCore p i o = Return More p1 i1 o1 ->
  p1 = set_search (length i) (set_head_request (starts_with (txt "HEAD ") i) p) /\ i1 = i /\ o1 = o /\
  same_flow (HeadCore p (i ++ x) o) (HeadCore p1 (i1 ++ x) o).
Proof.
  intros Hs Hle H. unfold HeadCore in H. cbn [mHeaderSearch set_head_request] in H.
  destruct (scan_from _ i) as [|pos|] eqn:Es; [done| |].
  - case_if_in H; [done|]. destruct (ParseHeaders _ _) as [r q] eqn:Ep.
    destruct (parse_headers_kind _ _ _ _ Ep) as [[Hk|Hk] _].
    + rewrite bool_decide_true in H by done. injection H as -> _ _ _. done.
    + rewrite bool_decide_false in H by (by rewrite Hk). by case_if_in H.
  - case_if_in H; [done|]. injection H as <- <- <-. split_and!; [done..|].
    apply core_search; [done|]. by apply scan_resume.
Qed.

(** A head that failed or was complete stays so. *)
Lemma core_extend p i o x :
  mStage p = StageHeaders -> (mHeaderSearch p <= length i)%nat ->
  match HeadCore p i o with
  | Go p1 i1 => HeadCore p (i ++ x) o = Go p1 (i1 ++ x)
  | Return r p1 i1 o1 =>
      match kind r with
      | NeedMore => r = More
      | Error => exists r' p' i' o', HeadCore p (i ++ x) o = Return r' p' i' o' /\ kind r' = Error
      | Headers => HeadCore p (i ++ x) o = Return r p1 (i1 ++ x) o1 /\ mStage p1 <> StageHeaders
      | _ => False
      end
  end.
Proof.
  intros Hs Hle. unfold HeadCore. cbn [mHeaderSearch set_head_request mMaxHeaders].
  destruct (scan_from (mHeaderSearch p) i) as [|pos|] eqn:Es.
  - rewrite (scan_stop _ _ x _ Hle Es) by done. cbn. eauto 10.
  - rewrite (scan_stop _ _ x _ Hle Es) by done. unfold scan_from in Es.
    pose proof (scan_end_char _ _ _ _ Es) as Hch. apply scan_bounds in Es.
    case_if; [cbn; eauto 10|]. rewrite take_app_le by lia.
    assert (starts_with (txt "HEAD ") (i ++ x) = starts_with (txt "HEAD ") i) as ->.
    { do 4 (destruct i as [|? i]; [cbn in Es; lia|]). destruct i; [|done].
      cbn [length] in Es. assert (pos = 0)%nat as -> by lia. cbn in Hch. subst. cbn.
      by rewrite !andb_false_r. }
    destruct (ParseHeaders _ _) as [r q] eqn:Ep.
    destruct (parse_headers_kind _ _ _ _ Ep) as [[Hk|Hk] _].
    + rewrite !bool_decide_true, Hk by done. eauto 10.
    + rewrite !bool_decide_false by (by rewrite Hk).
      rewrite drop_app_le by lia. case_if; [|done]. split; [done|].
      assert (kind r <> Error) as Hk' by (by rewrite Hk).
      destruct (parse_headers_stage _ _ _ _ Ep Hk'); cbn; congruence.
  - case_if; [|done]. cbn. destruct (scan_from (mHeaderSearch p) (i ++ x)) as [|pos|] eqn:Es'.
    + cbn. eauto 10.
    + replace (mMaxHeaders p <? Z.of_nat pos + 4) with true; [cbn; eauto 10|].
      rewrite scan_resume in Es' by done. unfold scan_from in Es'. apply scan_bounds in Es'.
      unfold len in *. lia.
    + rewrite len_app. pose proof (len_nonneg x).
      replace (mMaxHeaders p <=? len i + len x) with true by lia. cbn. eauto 10.
Qed.

(** *** The body in pieces *)

Lemma body_count_plain p i :
  mStreaming p = false -> BodyCount p i = Nat.min (length i) (Z.to_nat (mRemaining p)).
Proof. intros H. unfold BodyCount. rewrite H. lia. Qed.

Lemma body_done p i x :
  mStreaming p = false -> mRemaining (TakeBody p i) = 0 ->
  BodyCount p (i ++ x) = BodyCount p i /\ TakeBody p (i ++ x) = TakeBody p i /\
  (BodyCount p i <= length i)%nat.
Proof.
  intros Hs Hr. cbn in Hr. assert (BodyCount p (i ++ x) = BodyCount p i) as Hc.
  { unfold BodyCount in *. rewrite Hs in *. rewrite length_app. lia. }
  assert (BodyCount p i <= length i)%nat as Hl by (unfold BodyCount; lia).
  split_and!; [done| |done]. unfold TakeBody. by rewrite Hc, take_app_le.
Qed.

Lemma body_resume p i x :
  mStreaming p = false -> mRemaining (TakeBody p i) <> 0 ->
  let q := TakeBody p i in let j := drop (BodyCount p i) i ++ x in
  TakeBody q j = TakeBody p (i ++ x) /\
  drop (BodyCount q j) j = drop (BodyCount p (i ++ x)) (i ++ x).
Proof.
  intros Hs Hr q j. cbn in Hr.
  destruct (decide (BodyCount p i = 0)%nat) as [H0|H0].
  - assert (q = p) as ->.
    { unfold q, TakeBody. rewrite H0. destruct p as [? ? ? rem ? ? ? ? ? ? ? ? bb ? [? ? ? b]]. cbn.
      unfold set_body_bytes, set_remaining, set_request, with_body. cbn.
      by rewrite Z.sub_0_r, Z.add_0_r, app_nil_r. }
    unfold j. by rewrite H0, drop_0.
  - assert (BodyCount p i = length i) as Hl by (unfold BodyCount in *; rewrite Hs in *; lia).
    assert (j = x) as -> by (unfold j; by rewrite Hl, drop_all).
    assert (BodyCount p (i ++ x) = length i + BodyCount q x)%nat as Hc.
    { assert (mRemaining q = mRemaining p - Z.of_nat (BodyCount p i)) as Hq by done.
      rewrite (body_count_plain q) by done. rewrite Hq, Hl.
      rewrite !body_count_plain in * by done. rewrite length_app. lia. }
    split.
    + unfold TakeBody. rewrite Hc. rewrite take_app_add'; [|done].
      unfold q, TakeBody. rewrite Hl, firstn_all.
      unfold set_body_bytes, set_remaining, set_request, with_body. cbn -[BodyCount].
      f_equal; [lia|lia|]. by rewrite app_assoc.
    + rewrite Hc. by rewrite drop_app_add'.
Qed.

(** *** One stage, and more input *)

(** The parser has looked at no more than it was given; a head that has not begun is no HEAD yet. *)
Definition searched (p : HttpParser) (i : list Z) : Prop :=
  mStreaming p = false /\ 0 < mMaxHeaders p /\
  (mStage p = StageHeaders -> (mHeaderSearch p <= length i)%nat /\
    (mHeaderSearch p = 0%nat -> mHeadRequest p = false)).

(** What more input [x] means for a flow on [i], [again] being the stage on [i ++ x]. *)
Definition extended (o : HttpRequest) (x : list Z) (f again : Flow) : Prop :=
  match f with
  | Go p1 i1 => searched p1 i1 /\ again = Go p1 (i1 ++ x)
  | Return r p1 i1 o1 =>
      match kind r with
      | NeedMore => r = More /\ o1 = o /\ searched p1 i1 /\ same_flow again (Micro p1 (i1 ++ x) o)
      | Error => exists r' p' i' o', again = Return r' p' i' o' /\ kind r' = Error
      | Body => False
      | _ => searched p1 i1 /\ again = Return r p1 (i1 ++ x) o1
      end
  end.

Lemma parse_headers_limits block p r q :
  ParseHeaders block p = (r, q) -> mMaxHeaders q = mMaxHeaders p.
Proof.
  intros H. unfold ParseHeaders, Fail in H. flow_cases H; injection H as <- <-; cbn; auto.
Qed.

(** What the stage leaves keeps the limits. *)
Lemma core_searched p i o :
  mStreaming p = false -> 0 < mMaxHeaders p -> mStage p = StageHeaders -> i <> [] ->
  match HeadCore p i o with
  | Go p1 i1 => searched p1 i1
  | Return r p1 i1 o1 => kind r = NeedMore \/ kind r = Headers -> searched p1 i1
  end.
Proof.
  intros Hst Hm Hs Hne. unfold HeadCore. destruct (scan_from _ i) as [|pos|]; [by intros [?|?]| |].
  - case_if; [by intros [?|?]|]. destruct (ParseHeaders _ _) as [r q] eqn:Ep.
    destruct (parse_headers_kind _ _ _ _ Ep) as (Hk & Hst' & Hsep).
    pose proof (parse_headers_limits _ _ _ _ Ep) as Hmax. cbn in Hst', Hmax.
    case_bool_decide as Hke; [intros [?|?]; congruence|].
    pose proof (parse_headers_stage _ _ _ _ Ep Hke) as Hstage.
    case_if; [intros _|]; unfold searched; cbn; (split_and!; [congruence|lia|destruct Hstage; congruence]).
  - case_if; [by intros [?|?]|]. intros _. unfold searched. cbn. split_and!; [done|done|].
    intros _. split; [done|]. intros Hl. by destruct i.
Qed.

Lemma headers_extend p i o x :
  searched p i -> mStage p = StageHeaders ->
  extended o x (HeadersStage p i o) (HeadersStage p (i ++ x) o).
Proof.
  intros (Hst & Hmax & Hle) Hs. destruct (Hle Hs) as [Hle1 Hhead]. clear Hle. rewrite !headers_stage_core.
  cbv zeta. set (i0 := if (mHeaderSearch p =? 0)%nat then SkipBlankLines i else i).
  assert (mHeaderSearch p <= length i0)%nat as Hle0.
  { unfold i0. destruct (mHeaderSearch p =? 0)%nat eqn:E; [lia|done]. }
  assert ((if (mHeaderSearch p =? 0)%nat then SkipBlankLines (i ++ x) else i ++ x) =
    if (mHeaderSearch p =? 0)%nat then SkipBlankLines (i0 ++ x) else i0 ++ x) as ->.
  { unfold i0. case_if; [apply skip_blank_app|done]. }
  assert ((mHeaderSearch p =? 0)%nat = true -> SkipBlankLines i0 = i0) as Hidem.
  { unfold i0. intros ->. apply skip_blank_idem. }
  clearbody i0. destruct ((mHeaderSearch p =? 0)%nat && bytes_eqb i0 [13]) eqn:E1.
  { apply andb_prop in E1 as [E0 E1]. apply bytes_eqb_eq in E1 as ->. rewrite E0. cbn [kind More extended].
    split_and!; [done|done| |].
    - unfold searched. split_and!; [done|done|]. intros _. split; [cbn; lia|done].
    - unfold Micro. rewrite Hs, headers_stage_core, E0. done. }
  destruct (decide (i0 = [])) as [-> |Hne].
  { cbn [length] in Hle0. assert (mHeaderSearch p = 0%nat) as H0 by lia. rewrite H0.
    cbn [Nat.eqb andb bytes_eqb]. unfold HeadCore at 1, scan_from.
    cbn [mHeaderSearch set_head_request]. rewrite H0. cbn [length Nat.sub ScanHead mMaxHeaders set_head_request].
    change (len (@nil Z)) with 0. replace (mMaxHeaders p <=? 0) with false by lia.
    assert (set_search 0 (set_head_request (starts_with (txt "HEAD ") []) p) = p) as ->.
    { specialize (Hhead H0). destruct p. cbn in *. by subst. }
    cbn [extended kind More]. split_and!; [done|done| |].
    - split_and!; [done|done|]. intros _. split; [cbn; lia|auto].
    - unfold Micro. rewrite Hs, headers_stage_core, H0. done. }
  assert ((if (mHeaderSearch p =? 0)%nat then SkipBlankLines (i0 ++ x) else i0 ++ x) = i0 ++ x /\
    (mHeaderSearch p =? 0)%nat && bytes_eqb (i0 ++ x) [13] = false) as [-> ->].
  { destruct (mHeaderSearch p =? 0)%nat eqn:E0; [|done]. cbn [andb] in *. apply bytes_eqb_neq in E1.
    split; [apply skip_blank_stop; auto|]. apply bytes_eqb_neq. intros Hx.
    destruct i0 as [|a i0]; [done|]. cbn in Hx. injection Hx as -> Hx.
    apply app_eq_nil in Hx as [-> _]. done. }
  pose proof (core_extend p i0 o x Hs Hle0) as He. pose proof (core_searched p i0 o Hst Hmax Hs Hne) as Hse.
  destruct (HeadCore p i0 o) as [r p1 i1 o1|p1 i1] eqn:Ec; cbn [extended]; [|done].
  destruct (kind r) eqn:Ek; try done; [|destruct He as [He _]; split; [apply Hse; auto|done]]. subst r.
  destruct (core_more p i0 o p1 i1 o1 x Hs Hle0 Ec) as (Hp1 & -> & -> & Hflow).
  split_and!; [done|done|apply Hse; auto|]. unfold Micro. replace (mStage p1) with StageHeaders by (by subst p1).
  rewrite headers_stage_core. replace (mHeaderSearch p1) with (length i0) by (by subst p1).
  destruct (length i0 =? 0)%nat eqn:El; [by destruct i0|]. exact Hflow.
Qed.

(** The lines of the chunked coding: a line that is too long stays so. *)
Lemma line_extend (limit : Z) (i x : list Z) :
  match cut_sub Crlf i with
  | (line, Some rest) => cut_sub Crlf (i ++ x) = (line, Some (rest ++ x))
  | (line, None) =>
      limit < len i ->
      match cut_sub Crlf (i ++ x) with
      | (line', Some _) => limit < len line' + 2
      | (_, None) => limit < len (i ++ x)
      end
  end.
Proof.
  destruct (cut_sub Crlf i) as [line [rest|]] eqn:E; [by apply cut_sub_app|]. intros Hl.
  destruct (cut_sub Crlf (i ++ x)) as [line' [rest|]] eqn:E'.
  - pose proof (cut_sub_late _ _ _ _ _ _ E E') as H. unfold len in *. cbn in H. lia.
  - rewrite len_app. pose proof (len_nonneg x). lia.
Qed.

Lemma not_headers_searched p i :
  mStreaming p = false -> 0 < mMaxHeaders p -> mStage p <> StageHeaders -> searched p i.
Proof. intros. by split_and!. Qed.

Lemma extended_again o x p i :
  searched p i -> extended o x (Return More p i o) (Micro p (i ++ x) o).
Proof. cbn. done. Qed.

Lemma micro_extend p i o x : searched p i -> extended o x (Micro p i o) (Micro p (i ++ x) o).
Proof.
  intros Hse. pose proof Hse as (Hst & Hmax & Hh).
  destruct (decide (mStage p = StageHeaders)) as [Hs|Hs].
  { unfold Micro. rewrite Hs. by apply headers_extend. }
  destruct (decide (mStage p = StageFailed)) as [Hf|Hf].
  { unfold Micro. rewrite Hf. cbn. eauto 10. }
  destruct (mContinue p) eqn:Ec.
  { assert (forall j, Micro p j o = Return (MkResult Continue 100) (set_continue false p) j o) as Hm
      by (intros j; unfold Micro; rewrite Ec; by destruct (mStage p)).
    rewrite !Hm. cbn. split; [by apply not_headers_searched|done]. }
  assert (forall s, mStage p = s -> searched (TakeBody p i) (drop (BodyCount p i) i)) as Hbody
    by (intros s _; by apply not_headers_searched).
  destruct (mStage p) eqn:Es; try done.
  - assert (forall q j, mStage q = StageFixedBody -> mContinue q = false ->
      Micro q j o = FixedBodyStage q j o) as Hm by (intros q j H1 H2; unfold Micro; by rewrite H1, H2).
    rewrite !Hm by done. unfold FixedBodyStage.
    assert (forall j, mStreaming (TakeBody p j) = false) as Hstb by done. rewrite !Hstb. cbn [andb].
    destruct (mRemaining (TakeBody p i) =? 0) eqn:Er.
    + destruct (body_done p i x Hst) as (H1 & H2 & H3); [lia|]. rewrite H1, H2, Er.
      rewrite drop_app_le by done. cbn. split; [|done]. split_and!; [done|done|]. intros _. split; [cbn; lia|done].
    + destruct (body_resume p i x Hst) as [H1 H2]; [lia|]. cbn [extended kind More].
      split_and!; [done|done|by apply (Hbody StageFixedBody)|].
      rewrite Hm by done. unfold FixedBodyStage. rewrite H1, H2, Hstb. done.
  - assert (forall j, Micro p j o = ChunkSizeStage p j o) as Hm by (intros j; unfold Micro; by rewrite Es, Ec).
    rewrite !Hm. unfold ChunkSizeStage. set (limit := size_sub _ _). pose proof (line_extend limit i x) as Hline.
    destruct (cut_sub Crlf i) as [line [rest|]] eqn:Ecut.
    + rewrite Hline. case_if; [cbn; eauto 10|]. destruct (SpanHex line) as [digits ext].
      case_if; [cbn; eauto 10|]. destruct (from_chars_hex digits) as [size|]; [|cbn; eauto 10].
      case_if; [cbn; eauto 10|]. cbn. split; [|done]. apply not_headers_searched; [done|done|].
      cbn. by destruct (size =? 0).
    + destruct (limit <? len i) eqn:El.
      * specialize (Hline ltac:(lia)). destruct (cut_sub Crlf (i ++ x)) as [line' [rest|]];
          case_if; first [lia|cbn; by eauto 10].
      * cbn [extended kind More]. split_and!; [done|done|done|].
        rewrite Hm. unfold ChunkSizeStage. fold limit. done.
  - assert (forall q j, mStage q = StageChunkData -> mContinue q = false ->
      Micro q j o = ChunkDataStage q j o) as Hm by (intros q j H1 H2; unfold Micro; by rewrite H1, H2).
    rewrite !Hm by done. unfold ChunkDataStage.
    assert (forall j, mStreaming (TakeBody p j) = false) as Hstb by done. rewrite !Hstb. cbn [andb].
    destruct (mRemaining (TakeBody p i) =? 0) eqn:Er.
    + destruct (body_done p i x Hst) as (H1 & H2 & H3); [lia|]. rewrite H1, H2, Er.
      rewrite drop_app_le by done. cbn. split; [|done]. by apply not_headers_searched.
    + destruct (body_resume p i x Hst) as [H1 H2]; [lia|]. cbn [extended kind More negb].
      split_and!; [done|done|by apply (Hbody StageChunkData)|].
      rewrite Hm by done. unfold ChunkDataStage. rewrite H1, H2, Hstb. done.
  - assert (forall j, Micro p j o = ChunkEndStage p j o) as Hm by (intros j; unfold Micro; by rewrite Es, Ec).
    rewrite !Hm. destruct (length i <? 2)%nat eqn:El.
    { unfold ChunkEndStage at 1. rewrite El, <- Hm. by apply extended_again. }
    unfold ChunkEndStage. rewrite El. replace (length (i ++ x) <? 2)%nat with false by (rewrite length_app; lia).
    destruct i as [|a [|b i]]; [cbn in El; lia..|]. cbn [app starts_with Crlf]. rewrite !andb_true_r.
    case_if; [cbn; eauto 10|]. case_if; [cbn; eauto 10|]. cbn. rewrite Hst. split; [|done].
    by apply not_headers_searched.
  - assert (forall j, Micro p j o = TrailersStage p j o) as Hm by (intros j; unfold Micro; by rewrite Es, Ec).
    rewrite !Hm. unfold TrailersStage. set (limit := size_sub _ _). pose proof (line_extend limit i x) as Hline.
    destruct (cut_sub Crlf i) as [line [rest|]] eqn:Ecut.
    + rewrite Hline. case_if; [cbn; eauto 10|]. case_if.
      { cbn. split; [|done]. split_and!; [done|done|]. intros _. split; [cbn; lia|done]. }
      destruct (ParseHeader line) as [[name value]|]; [|cbn; eauto 10].
      case_if; [cbn; eauto 10|]. cbn. split; [|done]. apply not_headers_searched; [done|done|].
      cbn. by rewrite Es.
    + destruct (limit <? len i) eqn:El.
      * specialize (Hline ltac:(lia)). destruct (cut_sub Crlf (i ++ x)) as [line' [rest|]];
          case_if; first [lia|cbn; by eauto 10].
      * cbn [extended kind More]. split_and!; [done|done|done|].
        rewrite Hm. unfold TrailersStage. fold limit. done.
Qed.

Lemma runs_extend o x p i out :
  runs o p i out -> searched p i ->
  let '(r, p1, i1, o1) := out in
  match kind r with
  | NeedMore => r = More /\ searched p1 i1 /\
      forall out1, runs o p1 (i1 ++ x) out1 ->
        exists out2, runs o p (i ++ x) out2 /\ same_outcome out1 out2
  | Error => exists r' p' i' o', runs o p (i ++ x) (r', p', i', o') /\ kind r' = Error
  | Body => False
  | _ => searched p1 i1 /\ runs o p (i ++ x) (r, p1, i1 ++ x, o1)
  end.
Proof.
  induction 1 as [p i r p1 i1 o1 H|p i p1 i1 out H Hr IH]; intros Hse.
  - pose proof (micro_extend p i o x Hse) as He. rewrite H in He. cbn [extended] in He.
    destruct (kind r) eqn:Ek; try done.
    + destruct He as (-> & -> & Hs1 & Hf). split_and!; [done|done|]. intros out1 Hr1.
      destruct Hr1 as [q j r2 p2 i2 o2 Hm|q j p2 i2 out1 Hm Hr1]; rewrite Hm in Hf.
      * destruct (Micro p (i ++ x) o) as [r3 p3 i3 o3|] eqn:E; [|done].
        exists (r3, p3, i3, o3). split; [by apply runs_return|]. symmetry. exact Hf.
      * destruct (Micro p (i ++ x) o) as [|p3 i3] eqn:E; [done|]. destruct Hf as [Hn ->].
        destruct (runs_same _ _ p3 _ _ Hr1) as (out2 & Hr2 & Ho); [done|].
        exists out2. split; [by eapply runs_go|done].
    + destruct He as [Hs1 He]. split; [done|]. by apply runs_return.
    + destruct He as [Hs1 He]. split; [done|]. by apply runs_return.
    + destruct He as (r' & p' & i' & o' & He & Hk). exists r', p', i', o'. split; [by apply runs_return|done].
    + destruct He as [Hs1 He]. split; [done|]. by apply runs_return.
  - pose proof (micro_extend p i o x Hse) as He. rewrite H in He. cbn [extended] in He.
    destruct He as [Hs1 He]. specialize (IH Hs1). destruct out as [[[r p2] i2] o2].
    destruct (kind r); try done.
    + destruct IH as (Hm & Hs2 & IH). split_and!; [done|done|]. intros out1 Hr1.
      destruct (IH out1 Hr1) as (out2 & Hr2 & Ho). exists out2. split; [by eapply runs_go|done].
    + destruct IH as [? ?]. split; [done|]. by eapply runs_go.
    + destruct IH as [? ?]. split; [done|]. by eapply runs_go.
    + destruct IH as (r' & p' & i' & o' & Hr' & Hk). exists r', p', i', o'. split; [by eapply runs_go|done].
    + destruct IH as [? ?]. split; [done|]. by eapply runs_go.
Qed.

(** ** The connection's loop *)

(** What a connection sees of the parser: the results other than NeedMore, with the requests. *)
Notation Event := (HttpParseKind * HttpRequest)%type.

(** Parse what has been received until more is needed, or an error; [false]: an error. *)
Fixpoint Drive (fuel : nat) (p : HttpParser) (buffer : list Z)
    : option (list Event * HttpParser * list Z * bool) :=
  match fuel with
  | O => None
  | S fuel' =>
      match Parse p buffer EmptyRequest with
      | None => None
      | Some (r, p1, rest, out) =>
          match kind r with
          | NeedMore => Some ([], p1, rest, true)
          | Error => Some ([(Error, EmptyRequest)], p1, rest, false)
          | k =>
              match Drive fuel' p1 rest with
              | Some (events, p2, rest2, alive) => Some ((k, out) :: events, p2, rest2, alive)
              | None => None
              end
          end
      end
  end.

Definition DriveFuel (buffer : list Z) : nat := 4 * length buffer + 4.

Fixpoint Feed (p : HttpParser) (buffer : list Z) (pieces : list (list Z))
    : option (list Event * HttpParser * list Z * bool) :=
  match pieces with
  | [] => Some ([], p, buffer, true)
  | piece :: pieces =>
      match Drive (DriveFuel (buffer ++ piece)) p (buffer ++ piece) with
      | Some (events, p1, rest, true) =>
          match Feed p1 rest pieces with
          | Some (more, p2, rest2, alive) => Some (events ++ more, p2, rest2, alive)
          | None => None
          end
      | failed => failed
      end
  end.

Inductive drains : HttpParser -> list Z -> list Event * HttpParser * list Z * bool -> Prop :=
| drains_more p i r p1 i1 o1 :
    runs EmptyRequest p i (r, p1, i1, o1) -> kind r = NeedMore -> drains p i ([], p1, i1, true)
| drains_error p i r p1 i1 o1 :
    runs EmptyRequest p i (r, p1, i1, o1) -> kind r = Error ->
    drains p i ([(Error, EmptyRequest)], p1, i1, false)
| drains_event p i r p1 i1 o1 events p2 i2 alive :
    runs EmptyRequest p i (r, p1, i1, o1) -> kind r <> NeedMore -> kind r <> Error ->
    drains p1 i1 (events, p2, i2, alive) -> drains p i ((kind r, o1) :: events, p2, i2, alive).

(** Every event uses up some of this. *)
Definition effort (p : HttpParser) (i : list Z) : nat :=
  4 * length i + (if bool_decide (mStage p = StageHeaders) then 0 else 1) + (if mContinue p then 1 else 0).

Lemma micro_effort p i o :
  match Micro p i o with
  | Go p1 i1 => (effort p1 i1 <= effort p i)%nat
  | Return r p1 i1 _ =>
      kind r <> NeedMore -> kind r <> Error -> kind r <> Body -> (effort p1 i1 < effort p i)%nat
  end.
Proof.
  destruct (decide (mStage p = StageHeaders)) as [Hs|Hs].
  { assert (Micro p i o = HeadersStage p i o) as -> by (unfold Micro; by rewrite Hs).
    destruct (HeadersStage p i o) as [r p1 i1 o1|p1 i1] eqn:E.
    - intros H1 H2 H3. unfold HeadersStage in E.
      set (i0 := if (mHeaderSearch p =? 0)%nat then _ else i) in E.
      assert (length i0 <= length i)%nat as H0.
      { unfold i0. case_if; [apply skip_blank_shorter|done]. }
      case_if_in E; [by injection E as <- <- <- <-|].
      destruct (ScanHead _ _ _) as [|pos|] eqn:Es in E; [by injection E as <- <- <- <-| |].
      2:{ case_if_in E; by injection E as <- <- <- <-. }
      case_if_in E; [by injection E as <- <- <- <-|].
      destruct (ParseHeaders _ _) as [r' p2] eqn:Ep. case_bool_decide; [injection E as <- <- <- <-; congruence|].
      case_if_in E; [|done]. injection E as <- <- <- <-. apply scan_bounds in Es.
      unfold effort. rewrite length_drop. rewrite Hs.
      repeat match goal with |- context [if ?b then _ else _] => destruct b end; lia.
    - destruct (headers_go _ _ _ _ _ E) as [Hs1 Hl]. unfold effort.
      repeat match goal with |- context [if ?b then _ else _] => destruct b end; lia. }
  unfold Micro. destruct (mStage p) eqn:Es; try done;
    (destruct (mContinue p) eqn:Ec; [intros _ _ _; unfold effort; cbn [mStage mContinue set_continue]; rewrite Es, Ec; cbn -[Nat.mul]; lia|]).
  - unfold FixedBodyStage. case_if; [cbn; intros; congruence|]. case_if; [|cbn; intros; congruence].
    intros _ _ _. unfold effort. rewrite Es, Ec.
    rewrite bool_decide_true, bool_decide_false, length_drop by done. cbn -[Nat.mul]. lia.
  - destruct (ChunkSizeStage p i o) as [r p1 i1 o1|p1 i1] eqn:E.
    + unfold ChunkSizeStage in E. flow_cases E; injection E as <- <- <- <-; done.
    + destruct (chunk_size_go _ _ _ _ _ E) as (H1 & H2 & H3). unfold effort. rewrite H2, Es, Ec.
      rewrite !bool_decide_false by (destruct H1; congruence). lia.
  - destruct (ChunkDataStage p i o) as [r p1 i1 o1|p1 i1] eqn:E.
    + unfold ChunkDataStage in E. repeat case_if_in E; try done; injection E as <- <- <- <-; done.
    + destruct (chunk_data_go _ _ _ _ _ E) as (H1 & H2 & H3). unfold effort.
      rewrite H1, H2, ?Es, Ec, !bool_decide_false by done. lia.
  - destruct (ChunkEndStage p i o) as [r p1 i1 o1|p1 i1] eqn:E.
    + unfold ChunkEndStage in E. repeat case_if_in E; try done; injection E as <- <- <- <-; done.
    + destruct (chunk_end_go _ _ _ _ _ E) as (H1 & H2 & H3). unfold effort.
      rewrite H1, H2, ?Es, Ec, !bool_decide_false by done. lia.
  - destruct (TrailersStage p i o) as [r p1 i1 o1|p1 i1] eqn:E.
    + unfold TrailersStage in E. destruct (cut_sub Crlf i) as [line [rest|]] eqn:Ecut.
      * case_if_in E; [by injection E as <- <- <- <-|]. case_if_in E.
        { injection E as <- <- <- <-. intros _ _ _. apply cut_sub_length in Ecut. cbn in Ecut.
          unfold effort. rewrite Es, Ec. rewrite bool_decide_true, bool_decide_false by done. cbn -[Nat.mul]. lia. }
        destruct (ParseHeader line) as [[name value]|]; [|by injection E as <- <- <- <-].
        case_if_in E; [by injection E as <- <- <- <-|done].
      * case_if_in E; by injection E as <- <- <- <-.
    + destruct (trailers_go _ _ _ _ _ E) as (H1 & H2 & H3). unfold effort.
      rewrite H1, H2, ?Es, Ec, !bool_decide_false by done. lia.
Qed.

Lemma runs_effort o p i r p1 i1 o1 :
  runs o p i (r, p1, i1, o1) -> kind r <> NeedMore -> kind r <> Error -> kind r <> Body ->
  (effort p1 i1 < effort p i)%nat.
Proof.
  remember (r, p1, i1, o1) as out eqn:Eo. intros Hr H1 H2 H3. revert Eo.
  induction Hr as [p i r' p' i' o' H|p i p' i' out H Hr IH]; intros Eo.
  - injection Eo as -> -> -> ->. pose proof (micro_effort p i o) as He. rewrite H in He. auto.
  - pose proof (micro_effort p i o) as He. rewrite H in He. specialize (IH Eo). lia.
Qed.

(** The connection's loop ends, and drains the buffer. *)
Lemma drive_drains fuel p i :
  searched p i -> (effort p i < fuel)%nat -> exists out, Drive fuel p i = Some out /\ drains p i out.
Proof.
  revert p i. induction fuel as [|fuel IH]; intros p i Hse Hf; [lia|]. cbn [Drive].
  destruct (advance_runs (S (length i)) EmptyRequest p i) as ([[[r p1] i1] o1] & H1 & H2); [lia|].
  unfold Parse. rewrite H1. pose proof (runs_extend _ [] _ _ _ H2 Hse) as He. cbn beta iota in He.
  destruct (kind r) eqn:Ek; try done.
  - eexists. split; [done|]. by eapply drains_more.
  - destruct (IH p1 i1) as ([[[evs p2] i2] al] & HD & Hd); [by destruct He|..].
    { assert (effort p1 i1 < effort p i)%nat by (apply (runs_effort _ _ _ _ _ _ _ H2); congruence). lia. }
    rewrite HD. eexists. split; [done|]. rewrite <- Ek. eapply drains_event; [done|congruence..|done].
  - destruct (IH p1 i1) as ([[[evs p2] i2] al] & HD & Hd); [by destruct He|..].
    { assert (effort p1 i1 < effort p i)%nat by (apply (runs_effort _ _ _ _ _ _ _ H2); congruence). lia. }
    rewrite HD. eexists. split; [done|]. rewrite <- Ek. eapply drains_event; [done|congruence..|done].
  - eexists. split; [done|]. by eapply drains_error.
  - destruct (IH p1 i1) as ([[[evs p2] i2] al] & HD & Hd); [by destruct He|..].
    { assert (effort p1 i1 < effort p i)%nat by (apply (runs_effort _ _ _ _ _ _ _ H2); congruence). lia. }
    rewrite HD. eexists. split; [done|]. rewrite <- Ek. eapply drains_event; [done|congruence..|done].
Qed.

Lemma drive_total p i : searched p i -> exists out, Drive (DriveFuel i) p i = Some out /\ drains p i out.
Proof.
  intros H. apply drive_drains; [done|]. unfold DriveFuel, effort.
  destruct (bool_decide _), (mContinue p); lia.
Qed.

Lemma drains_det p i a b : drains p i a -> drains p i b -> a = b.
Proof.
  intros Ha. revert b.
  induction Ha as [p i r p1 i1 o1 H Hk|p i r p1 i1 o1 H Hk|p i r p1 i1 o1 evs p2 i2 al H Hk Hk' Hd IH];
    intros b Hb;
    inversion Hb as [? ? r2 ? ? o2 Hr2 Hk2|? ? r2 ? ? o2 Hr2 Hk2|? ? r2 p3 i3 o2 evs3 ? ? ? Hr2 Hk2 Hk3 Hd2];
    subst; pose proof (runs_det _ _ _ _ _ H Hr2) as Heq; injection Heq; intros; subst; try congruence.
  apply IH in Hd2. congruence.
Qed.

Definition same_end (a b : list Event * HttpParser * list Z * bool) : Prop :=
  let '(evs, p, i, alive) := a in let '(evs', q, j, alive') := b in
  evs = evs' /\ alive = alive' /\ (alive = true -> norm p = norm q /\ i = j).

Lemma drains_same p q i out :
  drains p i out -> norm p = norm q -> exists out', drains q i out' /\ same_end out out'.
Proof.
  intros Hd. revert q.
  induction Hd as [p i r p1 i1 o1 H Hk|p i r p1 i1 o1 H Hk|p i r p1 i1 o1 evs p2 i2 al H Hk Hk' Hd IH];
    intros q Hq; destruct (runs_same _ _ q _ _ H Hq) as ([[[r' q1] j] o'] & Hr & Hk1 & Hs).
  - destruct Hs as (<- & Hn & <- & _); [congruence|]. eexists. split; [by eapply drains_more|]. done.
  - eexists. split; [eapply drains_error; [done|congruence]|]. done.
  - destruct Hs as (<- & Hn & <- & <-); [done|]. destruct (IH q1 Hn) as ([[[evs' q2] j2] al'] & Hd' & He).
    destruct He as (<- & <- & He). eexists. split; [by eapply drains_event|]. done.
Qed.

Lemma drains_extend p i out x :
  drains p i out -> searched p i ->
  match out with
  | (evs, p1, i1, true) => searched p1 i1 /\ forall evs' p2 i2 al,
      drains p1 (i1 ++ x) (evs', p2, i2, al) ->
      exists out', drains p (i ++ x) out' /\ same_end (evs ++ evs', p2, i2, al) out'
  | (evs, p1, i1, false) => exists p' i', drains p (i ++ x) (evs, p', i', false)
  end.
Proof.
  induction 1 as [p i r p1 i1 o1 H Hk|p i r p1 i1 o1 H Hk|p i r p1 i1 o1 evs p2 i2 al H Hk Hk' Hd IH];
    intros Hse; pose proof (runs_extend _ x _ _ _ H Hse) as He; cbn beta iota in He.
  - rewrite Hk in He. destruct He as (_ & Hs1 & He). split; [done|]. intros evs' p2 i2 al Hd.
    inversion Hd as [? ? r2 ? ? o2 Hr2 Hk2|? ? r2 ? ? o2 Hr2 Hk2|? ? r2 p3 i3 o2 evs3 ? ? ? Hr2 Hk2 Hk3 Hd2];
      subst; destruct (He _ Hr2) as ([[[r3 q3] j3] o3] & Hr3 & Hk4 & Hs).
    + destruct Hs as (<- & Hn & <- & _); [congruence|]. eexists. split; [by eapply drains_more|]. done.
    + eexists. split; [eapply drains_error; [done|congruence]|]. done.
    + destruct Hs as (<- & Hn & <- & <-); [done|].
      destruct (drains_same _ q3 _ _ Hd2 Hn) as ([[[evs4 q4] j4] al4] & Hd4 & <- & <- & Hend).
      eexists. split; [by eapply drains_event|]. done.
  - rewrite Hk in He. destruct He as (r' & p' & i' & o' & Hr & Hk2). exists p', i'. by eapply drains_error.
  - assert (searched p1 i1 /\ runs EmptyRequest p (i ++ x) (r, p1, i1 ++ x, o1)) as [Hs1 Hr]
      by (by destruct (kind r)).
    specialize (IH Hs1). destruct al.
    + destruct IH as [Hs2 IH]. split; [done|]. intros evs' p3 i3 al Hd3.
      destruct (IH evs' p3 i3 al Hd3) as ([[[evs4 q4] j4] al4] & Hd4 & <- & <- & Hend).
      eexists. split; [by eapply drains_event|]. done.
    + destruct IH as (p' & i' & Hd'). exists p', i'. by eapply drains_event.
Qed.

Lemma feed_drains pieces p b piece :
  searched p b ->
  exists out out', Feed p b (piece :: pieces) = Some out /\
    drains p (b ++ piece ++ concat pieces) out' /\ same_end out out'.
Proof.
  revert p b piece. induction pieces as [|piece' pieces IH]; intros p b piece Hse;
    (assert (searched p (b ++ piece)) as Hse1
       by (destruct Hse as (H1 & H2 & H3); split_and!; [done|done|]; intros Hs; destruct (H3 Hs);
           split; [rewrite length_app; lia|done]));
    destruct (drive_total p (b ++ piece) Hse1) as ([[[evs p1] i1] al] & HD & Hd);
    cbn [Feed]; rewrite HD.
  - cbn [concat]. rewrite !app_nil_r. exists (evs, p1, i1, al), (evs, p1, i1, al).
    split_and!; [by destruct al|done|done].
  - cbn [concat]. rewrite app_assoc.
    pose proof (drains_extend _ _ _ (piece' ++ concat pieces) Hd Hse1) as He. destruct al; cbn beta iota in He.
    + destruct He as [Hs1 He]. destruct (IH p1 i1 piece' Hs1) as ([[[evs2 p2] i2] al2] & [[[evs3 q3] j3] al3] & HF & Hd2 & He2).
      cbn [Feed] in HF. rewrite HF. destruct He2 as (<- & <- & He2).
      destruct (He _ _ _ _ Hd2) as ([[[evs4 q4] j4] al4] & Hd4 & <- & <- & He4).
      eexists _, _. split_and!; [done|exact Hd4|]. split_and!; [done|done|]. intros Hal.
      destruct (He2 Hal) as [-> ->]. auto.
    + destruct He as (p' & i' & He). eexists _, _. split_and!; [done|exact He|]. done.
Qed.

(** How a request stream is cut into pieces does not matter: fed piece by piece, or as one piece,
    the parser delivers the same requests and the same 100-continue announcements in the same order,
    ends in an error for the same streams, and otherwise is left with the same input unread and the
    same state (but for the resume position of a finished head).  In particular every call returns
    and the connection's loop ends. *)
Theorem http_pieces_irrelevant maxHeaders maxBody separateHeaders pieces :
  0 < maxHeaders -> pieces <> [] ->
  exists events p i q j alive,
    Feed (New maxHeaders maxBody separateHeaders) [] pieces = Some (events, p, i, alive) /\
    Feed (New maxHeaders maxBody separateHeaders) [] [concat pieces] = Some (events, q, j, alive) /\
    (alive = true -> norm p = norm q /\ i = j).
Proof.
  intros Hm Hne. destruct pieces as [|piece pieces]; [done|].
  assert (searched (New maxHeaders maxBody separateHeaders) []) as Hse.
  { split_and!; [done|done|]. intros _. split; [done|done]. }
  destruct (feed_drains pieces _ [] piece Hse) as ([[[evs p] i] al] & [[[evs2 q2] j2] al2] & HF & Hd & <- & <- & He).
  destruct (feed_drains [] _ [] (piece ++ concat pieces) Hse)
    as ([[[evs3 q] j] al3] & [[[evs4 q4] j4] al4] & HF3 & Hd4 & -> & -> & He4).
  cbn [concat app] in *. rewrite app_nil_r in Hd4.
  pose proof (drains_det _ _ _ _ Hd Hd4) as Heq. injection Heq as <- <- <- <-.
  exists evs, p, i, q, j, al. split_and!; [done|done|].
  intros Hal. destruct (He Hal) as [-> ->]. by destruct (He4 Hal) as [<- <-].
Qed.

Lemma http_pieces_irrelevant_witness :
  exists events p i q j alive,
    Feed (New 64 8 false) [] [txt "GET / HT"; txt "TP/1.0" ++ [13]; [10; 13]; [10]] = Some (events, p, i, alive) /\
    Feed (New 64 8 false) [] [txt "GET / HTTP/1.0" ++ [13; 10; 13; 10]] = Some (events, q, j, alive) /\
    (alive = true -> norm p = norm q /\ i = j).
Proof.
  apply (http_pieces_irrelevant 64 8 false [txt "GET / HT"; txt "TP/1.0" ++ [13]; [10; 13]; [10]]);
    [lia|discriminate].
Defined.
