(* ===== verification/HttpWire.v ===== *)
(** * Web: requests on the wire.

    The texts that [HttpParser] reads, written from the request they carry: a head and a body that is
    either announced by its length or cut into chunks.  The theorems show that any sequence of such
    requests, received in any pieces, comes out of the parser again, and what a head that the parser
    accepts is worth: one way to find the end of the body, one host, fields without control bytes. *)

From S2P Require Import Prelude CoreError RequestData Charconv HttpParser.
Import Charconv HttpParser.

(** ** The text of a head *)

Definition field_line (f : list Z * list Z) : list Z := f.1 ++ txt ": " ++ f.2.

Definition lines_text (lines : list (list Z)) : list Z := concat (map (fun l => l ++ Crlf) lines).

Record field_ok (f : list Z * list Z) : Prop := MkFieldOk {
  field_token : IsToken f.1 = true;
  field_lower : map Lower f.1 = f.1;
  field_value : ValidHeaderValue f.2 = true;
  field_trimmed : Trim f.2 = f.2
}.

(** A line: not empty, and without CR and LF. *)
Definition line_ok (l : list Z) : Prop := l <> [] /\ Forall (fun c => c <> 13 /\ c <> 10) l.

Lemma token_char_range c : RequestData.TokenChar c = true -> 33 <= c < 127 /\ c <> char_code ":".
Proof.
  intros H. unfold RequestData.TokenChar, RequestData.Letter, RequestData.Digit, RequestData.between in H.
  apply orb_prop in H as [H|H].
  - eval_chars. lia.
  - apply existsb_exists in H as (x & Hin & Hx). apply Z.eqb_eq in Hx as <-. cbn in Hin.
    eval_chars. repeat (destruct Hin as [<-|Hin]; [lia|]). done.
Qed.

Lemma is_token_chars l : IsToken l = true -> l <> [] /\ Forall (fun c => RequestData.TokenChar c = true) l.
Proof.
  unfold IsToken, RequestData.IsToken. intros [H1 H2]%andb_prop. split; [by intros ->|].
  rewrite forallb_forall in H2. apply Forall_forall. intros x Hx. apply H2. by apply list_elem_of_In.
Qed.

Lemma not_in_forall (P : Z -> Prop) c l : Forall P l -> ~ P c -> c ∉ l.
Proof. intros H Hc Hin. rewrite Forall_forall in H. auto. Qed.

Lemma valid_value_chars v : ValidHeaderValue v = true -> Forall (fun c => c <> 13 /\ c <> 10) v.
Proof.
  unfold ValidHeaderValue. rewrite forallb_forall. intros H. apply Forall_forall. intros x Hx.
  apply list_elem_of_In, H in Hx. unfold ControlByte in Hx. lia.
Qed.

Lemma field_line_ok f : field_ok f -> line_ok (field_line f).
Proof.
  intros [H1 _ H3 _]. destruct (is_token_chars _ H1) as [Hne Hch]. split.
  - unfold field_line. destruct f.1; [done|]. done.
  - unfold field_line. rewrite !Forall_app. split_and!.
    + eapply Forall_impl; [exact Hch|]. intros c Hc%token_char_range. lia.
    + repeat constructor; done.
    + by apply valid_value_chars.
Qed.

Lemma cut_crlf line rest : 13 ∉ line -> cut_sub Crlf (line ++ Crlf ++ rest) = (line, Some rest).
Proof.
  induction line as [|c line IH]; intros H; [done|]. apply not_elem_of_cons in H as [Hc H].
  cbn [app cut_sub starts_with Crlf]. replace (13 =? c) with false by lia. cbn [andb].
  change (line ++ 13 :: 10 :: rest) with (line ++ Crlf ++ rest). by rewrite IH.
Qed.

Lemma line_ok_no_cr l : line_ok l -> 13 ∉ l.
Proof. intros [_ H]. eapply not_in_forall; [exact H|]. tauto. Qed.

Lemma parse_header_line f : field_ok f -> ParseHeader (field_line f) = Some f.
Proof.
  intros [H1 H2 H3 H4]. destruct (is_token_chars _ H1) as [_ Hch]. unfold ParseHeader, field_line.
  change (txt ": " ++ f.2) with (char_code ":" :: 32 :: f.2). rewrite cut_app.
  2:{ eapply not_in_forall; [exact Hch|]. intros [_ H]%token_char_range. done. }
  rewrite H1. cbn [negb].
  assert (Trim (32 :: f.2) = f.2) as -> by (rewrite <- H4 at 2; done).
  rewrite H3, H2. by destruct f.
Qed.

(** What the loop does with the fields, without their text. *)
Fixpoint check_fields (maxBody : Z) (fs : Fields) (h : HeadState) : option Z * HeadState :=
  match fs with
  | [] => (None, h)
  | (name, value) :: fs =>
      if 128 <=? len (hFields h) then (Some 400, h)
      else
        match CheckField maxBody name value h with
        | (Some failure, h) => (Some failure, h)
        | (None, h) => check_fields maxBody fs (PushField name value h)
        end
  end.

Lemma fields_loop_text fuel maxBody fs h :
  Forall field_ok fs -> (length (lines_text (map field_line fs)) < fuel)%nat ->
  FieldsLoop fuel maxBody (lines_text (map field_line fs)) h = check_fields maxBody fs h.
Proof.
  intros H. revert fuel h. induction H as [|f fs Hf H IH]; intros fuel h Hl.
  { by destruct fuel. }
  destruct fuel as [|fuel]; [lia|]. unfold lines_text in *. cbn [map concat] in *.
  pose proof (field_line_ok f Hf) as Hok. rewrite <- app_assoc in *.
  assert (field_line f <> []) as Hne by apply Hok. cbn [FieldsLoop].
  destruct (field_line f ++ Crlf ++ concat (map (fun l => l ++ Crlf) (map field_line fs))) as [|x t] eqn:E.
  { by apply app_eq_nil in E as [? _]. }
  rewrite <- E, cut_crlf by (by apply line_ok_no_cr). rewrite parse_header_line by done.
  destruct f as [name value]. cbn [check_fields]. case_if; [done|].
  destruct (CheckField maxBody name value h) as [[failure|] h']; [done|].
  apply IH. rewrite <- E, length_app in Hl. cbn [Crlf app length] in Hl. lia.
Qed.

(** ** The end of the head *)

(** The text scanned so far ends a line, or is empty. *)
Definition at_line_start (a : list Z) : Prop := a = [] \/ exists a', a = a' ++ [10].

Lemma scan_char (a : list Z) c b n :
  ScanHead (a ++ c :: b) (S n) (length a) =
    let afterCr := bool_decide (last a = Some 13) in
    if c =? 10 then
      if negb afterCr then ScanBad
      else if (3 <=? length a)%nat && (nth (length a - 2) a 0 =? 10) then ScanEnd (length a - 3)
      else ScanHead (a ++ c :: b) n (S (length a))
    else if afterCr then ScanBad
    else ScanHead (a ++ c :: b) n (S (length a)).
Proof.
  cbn [ScanHead]. rewrite nth_middle.
  assert (negb (length a =? 0)%nat && (nth (length a - 1) (a ++ c :: b) 0 =? 13) =
    bool_decide (last a = Some 13)) as ->.
  { destruct a as [|y a _] using rev_ind; [done|]. rewrite last_snoc, length_app. cbn [length].
    replace (length a + 1 =? 0)%nat with false by lia. cbn [negb andb].
    rewrite <- app_assoc. replace (length a + 1 - 1)%nat with (length a) by lia. cbn [app]. rewrite nth_middle.
    destruct (Z.eqb_spec y 13) as [->|Hy]; [done|]. rewrite bool_decide_false; congruence. }
  destruct (c =? 10); [|done]. cbv zeta. case_if; [done|].
  destruct (3 <=? length a)%nat eqn:E3; [|done]. cbn [andb]. by rewrite app_nth1 by lia.
Qed.

Lemma scan_plain a c b n :
  c <> 10 -> last a <> Some 13 ->
  ScanHead (a ++ c :: b) (S n) (length a) = ScanHead ((a ++ [c]) ++ b) n (length (a ++ [c])).
Proof.
  intros Hc Ha. rewrite scan_char. cbv zeta. rewrite bool_decide_false by done.
  replace (c =? 10) with false by lia. rewrite <- app_assoc, length_app. cbn [app length].
  by rewrite Nat.add_1_r.
Qed.

Lemma scan_line_chars l a b n :
  Forall (fun c => c <> 13 /\ c <> 10) l -> last a <> Some 13 ->
  ScanHead (a ++ l ++ b) (length l + n) (length a) = ScanHead ((a ++ l) ++ b) n (length (a ++ l)).
Proof.
  intros Hl. revert a. induction Hl as [|c l [Hc1 Hc2] Hl IH]; intros a Ha.
  - cbn [app length Nat.add]. by rewrite app_nil_r.
  - cbn [app length Nat.add]. rewrite scan_plain by done. rewrite IH by (rewrite last_snoc; congruence).
    by rewrite <- !app_assoc.
Qed.

Lemma scan_line l a b n :
  line_ok l -> at_line_start a ->
  ScanHead (a ++ (l ++ Crlf) ++ b) (length l + 2 + n) (length a) =
    ScanHead ((a ++ l ++ Crlf) ++ b) n (length (a ++ l ++ Crlf)).
Proof.
  intros [Hne Hl] Ha. assert (last a <> Some 13) as Hla.
  { destruct Ha as [-> |[a' ->]]; [done|]. by rewrite last_snoc. }
  rewrite <- app_assoc, <- Nat.add_assoc, scan_line_chars by done.
  destruct l as [|c l _] using rev_ind; [done|]. apply Forall_app in Hl as [_ Hc].
  apply Forall_cons in Hc as [[Hc1 Hc2] _]. cbn [Crlf app]. change (2 + n)%nat with (S (S n)).
  rewrite scan_plain; [|done|rewrite app_assoc, last_snoc; congruence].
  rewrite scan_char. rewrite last_snoc, bool_decide_true by done. cbv zeta. cbn [Z.eqb Pos.eqb negb].
  set (t := (a ++ l ++ [c]) ++ [13]).
  assert (nth (length t - 2) t 0 = c) as ->.
  { unfold t. rewrite !app_assoc, <- app_assoc. cbn [app].
    replace (length ((a ++ l) ++ [c; 13%Z]) - 2)%nat with (length (a ++ l)) by (rewrite !length_app; cbn; lia).
    by rewrite nth_middle. }
  replace (c =? 10) with false by lia. rewrite andb_false_r.
  change (13 :: 10 :: b) with ([13] ++ [10] ++ b). f_equal.
  - unfold t. rewrite <- !app_assoc. done.
  - unfold t. rewrite !length_app. cbn. lia.
Qed.

Lemma lines_text_start lines : at_line_start (lines_text lines).
Proof.
  destruct lines as [|l lines _] using rev_ind; [by left|]. right.
  exists (lines_text lines ++ l ++ [13]). unfold lines_text. rewrite map_app, concat_app. cbn.
  by rewrite app_nil_r, <- !app_assoc.
Qed.

Lemma at_line_start_app a l : at_line_start (a ++ l ++ Crlf).
Proof. right. exists (a ++ l ++ [13]). by rewrite <- !app_assoc. Qed.

Lemma scan_lines lines a b n :
  Forall line_ok lines -> at_line_start a ->
  ScanHead (a ++ lines_text lines ++ b) (length (lines_text lines) + n) (length a) =
    ScanHead ((a ++ lines_text lines) ++ b) n (length (a ++ lines_text lines)).
Proof.
  intros H. revert a. induction H as [|l lines Hl H IH]; intros a Ha.
  - cbn [lines_text map concat app length Nat.add]. by rewrite app_nil_r.
  - unfold lines_text. cbn [map concat]. fold (lines_text lines).
    rewrite length_app, <- app_assoc. replace (length (l ++ Crlf)) with (length l + 2)%nat
      by (rewrite length_app; done).
    rewrite <- Nat.add_assoc, scan_line by done. rewrite IH by apply at_line_start_app.
    by rewrite <- !app_assoc.
Qed.

(** The scan finds the end of a head: one line or more, and an empty one. *)
Lemma scan_head lines rest :
  Forall line_ok lines -> lines <> [] ->
  scan_from 0 (lines_text lines ++ Crlf ++ rest) = ScanEnd (length (lines_text lines) - 2).
Proof.
  intros Hl Hne. unfold scan_from. rewrite Nat.sub_0_r, length_app.
  pose proof (scan_lines lines [] (Crlf ++ rest) (length (Crlf ++ rest)) Hl ltac:(by left)) as H.
  cbn [app length] in H. rewrite H. clear H.
  assert (exists t c, lines_text lines = t ++ c :: [13; 10]) as (t & c & Ht).
  { destruct lines as [|l lines _] using rev_ind; [done|]. apply Forall_app in Hl as [_ Hl].
    apply Forall_cons in Hl as [[Hne' _] _]. destruct l as [|c l _] using rev_ind; [done|].
    exists (lines_text lines ++ l), c. unfold lines_text. rewrite map_app, concat_app. cbn.
    by rewrite app_nil_r, <- !app_assoc. }
  rewrite Ht. cbn [Crlf app length].
  replace (t ++ [c; 13; 10]) with ((t ++ [c; 13]) ++ [10]) by (by rewrite <- app_assoc).
  rewrite scan_plain; [|done|by rewrite last_snoc]. rewrite scan_char, last_snoc, bool_decide_true by done. cbv zeta.
  cbn [Z.eqb Pos.eqb negb].
  assert (length (((t ++ [c; 13%Z]) ++ [10%Z]) ++ [13%Z]) = length t + 4)%nat as Hlen by (rewrite !length_app; cbn; lia).
  rewrite Hlen. replace (3 <=? length t + 4)%nat with true by lia.
  replace (length t + 4 - 2)%nat with (length (t ++ [c; 13%Z])) by (rewrite length_app; cbn; lia).
  rewrite <- (app_assoc (t ++ [c; 13])). cbn [app]. rewrite nth_middle. cbn [Z.eqb Pos.eqb andb].
  f_equal. rewrite !length_app. cbn. lia.
Qed.

(** ** The request line and the fields *)

Definition request_line (m t : list Z) : list Z := m ++ txt " " ++ t ++ txt " HTTP/1.1".

Definition head_lines (m t : list Z) (fs : Fields) : list (list Z) :=
  request_line m t :: map field_line fs.

Record request_line_ok (m t : list Z) : Prop := MkLineOk {
  line_method : IsToken m = true;
  line_target : forallb TargetByte t = true;
  line_origin : starts_with (txt "/") t = true
}.

Definition head_start : HeadState := MkHead [] 0 false false false false 0.

(** The fields are accepted, with the locals [h] left by the loop, and ask for no interim answer. *)
Record fields_accepted (maxBody : Z) (fs : Fields) (h : HeadState) : Prop := MkAccepted {
  accepted_fields : Forall field_ok fs;
  accepted_check : check_fields maxBody fs head_start = (None, h);
  accepted_host : haveHost h = true;
  accepted_framing : haveLength h && haveTransfer h = false;
  accepted_coding : transferFailure h = 0;
  accepted_expect : haveExpect h = false
}.

Lemma check_field_fields maxBody name value h r h' :
  CheckField maxBody name value h = (r, h') -> hFields h' = hFields h.
Proof.
  unfold CheckField. intros H.
  repeat match type of H with
  | (if ?b then _ else _) = _ => destruct b
  | (match ?x with _ => _ end) = _ => destruct x as [[[] ?] ?]
  end; by injection H as <- <-.
Qed.

Lemma check_fields_all maxBody fs h h' :
  check_fields maxBody fs h = (None, h') -> hFields h' = hFields h ++ fs.
Proof.
  revert h. induction fs as [|[name value] fs IH]; intros h H; cbn [check_fields] in H.
  - injection H as <-. by rewrite app_nil_r.
  - case_if_in H; [done|]. destruct (CheckField maxBody name value h) as [[]h1] eqn:Ec; [done|].
    apply check_field_fields in Ec. rewrite (IH _ H). cbn. by rewrite Ec, <- app_assoc.
Qed.

Lemma target_chars t : forallb TargetByte t = true -> Forall (fun c => 33 <= c < 127) t.
Proof.
  rewrite forallb_forall. intros H. apply Forall_forall. intros x Hx.
  apply list_elem_of_In, H in Hx. unfold TargetByte in Hx. lia.
Qed.

Lemma request_line_line m t : request_line_ok m t -> line_ok (request_line m t).
Proof.
  intros [H1 H2 H3]. destruct (is_token_chars _ H1) as [Hne Hch]. split.
  - unfold request_line. by destruct m.
  - unfold request_line. rewrite !Forall_app. split_and!.
    + eapply Forall_impl; [exact Hch|]. intros c Hc%token_char_range. lia.
    + repeat constructor; done.
    + eapply Forall_impl; [by apply target_chars|]. intros c Hc. cbn in Hc. lia.
    + repeat constructor; done.
Qed.

Lemma split_request_line m t :
  request_line_ok m t -> SplitRequestLine (request_line m t) = Some (m, t, txt "HTTP/1.1").
Proof.
  intros [H1 H2 H3]. destruct (is_token_chars _ H1) as [_ Hch]. unfold SplitRequestLine, request_line.
  change (txt " " ++ t ++ txt " HTTP/1.1") with (char_code " " :: t ++ char_code " " :: txt "HTTP/1.1").
  rewrite cut_app.
  2:{ eapply not_in_forall; [exact Hch|]. intros [H _]%token_char_range. revert H. eval_chars. lia. }
  rewrite cut_app.
  2:{ eapply not_in_forall; [by apply target_chars|]. eval_chars. lia. }
  by rewrite H1.
Qed.

Lemma normalize_origin t : starts_with (txt "/") t = true -> NormalizeTarget t = Some (t, []).
Proof.
  destruct t as [|c t]; [done|]. cbn. rewrite andb_true_r. intros H.
  unfold NormalizeTarget. rewrite Z.eqb_sym, H. done.
Qed.

(** The parser that has read a head and waits for the body. *)
Definition body_parser (maxHeaders maxBody : Z) (m t : list Z) (fs : Fields) (h : HeadState) : HttpParser :=
  MkParser (if haveTransfer h then StageChunkSize else StageFixedBody) maxHeaders maxBody (hRemaining h)
    0 0 0 false (bytes_eqb m (txt "HEAD")) false false false 0 0 (MkRequest m t fs []).

Lemma head_request_line m t rest :
  request_line_ok m t ->
  starts_with (txt "HEAD ") (request_line m t ++ rest) = bytes_eqb m (txt "HEAD").
Proof.
  intros [H1 _ _]. destruct (is_token_chars _ H1) as [_ Hch]. unfold request_line.
  destruct (bytes_eqb m (txt "HEAD")) eqn:E.
  - apply bytes_eqb_eq in E as ->. done.
  - destruct (starts_with _ _) eqn:Es; [|done]. exfalso. apply starts_with_iff in Es as [r Hr].
    apply bytes_eqb_neq in E. apply E.
    change (txt "HEAD " ++ r) with (txt "HEAD" ++ char_code " " :: r) in Hr.
    change (txt " " ++ t ++ txt " HTTP/1.1") with (char_code " " :: t ++ txt " HTTP/1.1") in Hr.
    rewrite <- app_assoc in Hr. cbn [app] in Hr.
    assert (char_code " " ∉ m) as Hm.
    { eapply not_in_forall; [exact Hch|]. intros [H _]%token_char_range. revert H. eval_chars. lia. }
    pose proof (cut_app _ m ((t ++ txt " HTTP/1.1") ++ rest) Hm) as C1.
    rewrite Hr, cut_app in C1; [by injection C1|].
    intros Hin. repeat (apply elem_of_cons in Hin as [Hin|Hin]; [done|]). by apply elem_of_nil in Hin.
Qed.

Lemma skip_blank_head m t rest :
  request_line_ok m t -> SkipBlankLines (request_line m t ++ rest) = request_line m t ++ rest /\
  bytes_eqb (request_line m t ++ rest) [13] = false.
Proof.
  intros [H1 _ _]. destruct (is_token_chars _ H1) as [Hne Hch]. unfold request_line.
  destruct m as [|c m]; [done|]. apply Forall_cons in Hch as [Hc _]. apply token_char_range in Hc.
  cbn [app]. split.
  - destruct (((m ++ txt " " ++ t ++ txt " HTTP/1.1") ++ rest)) as [|d l]; [done|]. cbn [SkipBlankLines].
    by replace (c =? 13) with false by lia.
  - cbn. by replace (c =? 13) with false by lia.
Qed.

Lemma parse_head_text maxHeaders maxBody m t fs h rest o :
  request_line_ok m t -> fields_accepted maxBody fs h ->
  len (lines_text (head_lines m t fs)) + 2 <= maxHeaders ->
  HeadersStage (New maxHeaders maxBody false) (lines_text (head_lines m t fs) ++ Crlf ++ rest) o =
    Go (body_parser maxHeaders maxBody m t fs h) rest.
Proof.
  intros Hline [H1 H2 H3 H4 H5 H6] Hlen. rewrite headers_stage_core. cbn [mHeaderSearch New Nat.eqb andb].
  set (text := lines_text (head_lines m t fs)) in *.
  assert (text = request_line m t ++ Crlf ++ lines_text (map field_line fs)) as Htext.
  { unfold text, head_lines, lines_text. cbn. by rewrite <- app_assoc. }
  destruct (skip_blank_head m t ((Crlf ++ lines_text (map field_line fs)) ++ Crlf ++ rest) Hline) as [Hskip Hne].
  rewrite app_assoc, <- Htext in Hskip, Hne. cbv zeta. rewrite Hskip, Hne. unfold HeadCore.
  cbn [mHeaderSearch set_head_request New mMaxHeaders].
  assert (Forall line_ok (head_lines m t fs)) as Hlines.
  { constructor; [by apply request_line_line|]. apply Forall_map. eapply Forall_impl; [exact H1|].
    apply field_line_ok. }
  pose proof (scan_head _ rest Hlines ltac:(done)) as Hscan. fold text in Hscan. rewrite Hscan.
  assert (2 <= length text)%nat as Htl by (rewrite Htext, !length_app; cbn; lia).
  replace (maxHeaders <? Z.of_nat (length text - 2) + 4) with false by (unfold len in Hlen; lia).
  replace (length text - 2 + 2)%nat with (length text) by lia. rewrite take_app_length.
  replace (starts_with (txt "HEAD ") (text ++ Crlf ++ rest)) with (bytes_eqb m (txt "HEAD")).
  2:{ rewrite Htext, <- app_assoc. by rewrite head_request_line. }
  assert (ParseHeaders text (set_head_request (bytes_eqb m (txt "HEAD")) (New maxHeaders maxBody false)) =
    (More, body_parser maxHeaders maxBody m t fs h)) as ->.
  { unfold ParseHeaders. rewrite Htext. rewrite cut_crlf by (by apply line_ok_no_cr, request_line_line).
    rewrite split_request_line by done. change (bytes_eqb (txt "HTTP/1.1") (txt "HTTP/1.1")) with true.
    change (bytes_eqb (txt "HTTP/1.1") (txt "HTTP/1.0")) with false. cbn [negb andb].
    destruct Hline as [Hl1 Hl2 Hl3]. rewrite Hl2, normalize_origin by done. cbn [negb].
    cbn [mMaxBody set_http10 set_head_request New mRequest headers EmptyRequest mRemaining body].
    fold head_start. rewrite fields_loop_text by (done || lia). rewrite H2. rewrite H3, H4, H5, H6.
    cbn [negb andb orb Z.eqb length Nat.eqb]. rewrite (check_fields_all _ _ _ _ H2).
    unfold body_parser. cbn. done. }
  rewrite bool_decide_false by done. cbn [mSeparateHeaders body_parser].
  replace (length text - 2 + 4)%nat with (length (text ++ Crlf))
    by (rewrite length_app; change (length Crlf) with 2%nat; lia).
  by rewrite app_assoc, drop_app_length.
Qed.

(** ** Bodies *)

(** The line before a chunk: the size in hexadecimal and extensions. *)
Record size_line_ok (digits extensions : list Z) (n : Z) : Prop := MkSizeLine {
  size_digits : digits <> [] /\ Forall (fun c => HexDigitByte c = true) digits;
  size_value : hex_value digits = n;
  size_extensions : extensions = [] \/
    (ValidChunkExtensions extensions = true /\ 13 ∉ extensions /\
     forall c, head extensions = Some c -> HexDigitByte c = false)
}.

Record Chunk : Type := MkChunk { cDigits : list Z; cExtensions : list Z; cData : list Z }.

Definition chunk_text (c : Chunk) : list Z := cDigits c ++ cExtensions c ++ Crlf ++ cData c ++ Crlf.

Definition chunk_ok (c : Chunk) : Prop :=
  cData c <> [] /\ size_line_ok (cDigits c) (cExtensions c) (len (cData c)).

Definition chunk_overhead (c : Chunk) : Z := len (cDigits c) + len (cExtensions c) + 4.

Lemma span_hex_app digits extensions :
  Forall (fun c => HexDigitByte c = true) digits ->
  (forall c, head extensions = Some c -> HexDigitByte c = false) ->
  SpanHex (digits ++ extensions) = (digits, extensions).
Proof.
  intros H He. induction H as [|c digits Hc H IH]; cbn [app SpanHex].
  - destruct extensions as [|c l]; [done|]. cbn [SpanHex]. by rewrite He.
  - by rewrite Hc, IH.
Qed.

Lemma hex_digit_not_cr c : HexDigitByte c = true -> c <> 13.
Proof. intros H ->. done. Qed.

Lemma size_line_no_cr digits extensions n : size_line_ok digits extensions n -> 13 ∉ digits ++ extensions.
Proof.
  intros [[_ H1] _ H3] [H|H]%elem_of_app.
  - rewrite Forall_forall in H1. by apply H1 in H.
  - destruct H3 as [-> |(_ & H3 & _)]; [by apply elem_of_nil in H|done].
Qed.

(** The parser between chunks, with the body read so far. *)
Definition chunk_parser (s : Stage) (maxHeaders maxBody : Z) (m t : list Z) (fs : Fields)
    (remaining overhead trailer : Z) (sofar : list Z) : HttpParser :=
  MkParser s maxHeaders maxBody remaining overhead trailer 0 false (bytes_eqb m (txt "HEAD")) false false
    false (len sofar) 0 (MkRequest m t fs sofar).

Section bodies.
Context (maxHeaders maxBody : Z) (m t : list Z) (fs : Fields) (o : HttpRequest).
Context (Hheaders : 0 <= maxHeaders < 2 ^ 64) (Hbody : 0 <= maxBody < 2 ^ 64).

Notation state s := (chunk_parser s maxHeaders maxBody m t fs).

Lemma size_line_micro digits extensions n overhead sofar rest :
  size_line_ok digits extensions n ->
  0 <= overhead -> overhead + len digits + len extensions + 2 <= maxHeaders ->
  0 <= n -> len sofar + n <= maxBody ->
  Micro (state StageChunkSize 0 overhead 0 sofar) (digits ++ extensions ++ Crlf ++ rest) o =
    Go (state (if n =? 0 then StageTrailers else StageChunkData) n
          (overhead + len digits + len extensions + 2) 0 sofar) rest.
Proof.
  intros Hok Ho Hlimit Hn Hsize. pose proof (size_line_no_cr _ _ _ Hok) as Hcr.
  destruct Hok as [[Hne Hhex] Hv He]. pose proof (len_nonneg sofar).
  pose proof (len_nonneg digits). pose proof (len_nonneg extensions).
  unfold Micro. cbn [mStage mContinue chunk_parser]. unfold ChunkSizeStage.
  rewrite app_assoc, cut_crlf by done.
  cbn [mMaxHeaders mMaxBody mBodyBytes mChunkOverhead chunk_parser set_remaining].
  rewrite !size_sub_le by lia. rewrite len_app.
  replace (maxHeaders - overhead <? len digits + len extensions + 2) with false by lia.
  rewrite span_hex_app; [|done|].
  2:{ destruct He as [-> |(_ & _ & He)]; [done|exact He]. }
  assert ((length digits =? 0)%nat || (negb (length extensions =? 0)%nat
    && negb (ValidChunkExtensions extensions)) = false) as ->.
  { destruct digits; [done|]. destruct He as [-> |(He & _)]; [done|]. rewrite He. cbn. by rewrite andb_false_r. }
  unfold from_chars_hex. rewrite Hv. replace (n <=? UINT64_MAX) with true by (unfold UINT64_MAX; lia).
  replace (maxBody - len sofar <? n) with false by lia.
  by rewrite Z.add_assoc.
Qed.

Lemma body_count_all p data rest :
  mStreaming p = false -> mRemaining p = len data -> BodyCount p (data ++ rest) = length data.
Proof. intros H1 H2. unfold BodyCount. rewrite H1, H2, length_app. unfold len. lia. Qed.

Lemma chunk_data_micro data overhead sofar rest :
  Micro (state StageChunkData (len data) overhead 0 sofar) (data ++ rest) o =
    Go (state StageChunkEnd 0 overhead 0 (sofar ++ data)) rest.
Proof.
  unfold Micro. cbn [mStage mContinue chunk_parser]. unfold ChunkDataStage, TakeBody.
  rewrite (body_count_all _ data rest) by done. rewrite take_app_length, drop_app_length.
  unfold chunk_parser. cbn. unfold len. rewrite Z.sub_diag. cbn. by rewrite length_app, Nat2Z.inj_add.
Qed.

Lemma chunk_end_micro overhead sofar rest :
  0 <= overhead -> overhead + 2 <= maxHeaders ->
  Micro (state StageChunkEnd 0 overhead 0 sofar) (Crlf ++ rest) o =
    Go (state StageChunkSize 0 (overhead + 2) 0 sofar) rest.
Proof.
  intros H1 H2. unfold Micro. cbn [mStage mContinue chunk_parser]. unfold ChunkEndStage.
  cbn [length app Crlf mMaxHeaders mChunkOverhead chunk_parser]. rewrite size_sub_le by lia.
  change (S (S (length rest)) <? 2)%nat with false.
  replace (maxHeaders - 2 <? overhead) with false by lia. done.
Qed.

Lemma chunk_runs c overhead sofar rest out :
  chunk_ok c -> 0 <= overhead -> overhead + chunk_overhead c <= maxHeaders ->
  len sofar + len (cData c) <= maxBody ->
  runs o (state StageChunkSize 0 (overhead + chunk_overhead c) 0 (sofar ++ cData c)) rest out ->
  runs o (state StageChunkSize 0 overhead 0 sofar) (chunk_text c ++ rest) out.
Proof.
  intros [Hd Hl] H1 H2 H3 Hr. unfold chunk_overhead, chunk_text in *. rewrite <- !app_assoc.
  pose proof (len_nonneg (cDigits c)). pose proof (len_nonneg (cExtensions c)).
  pose proof (len_nonneg (cData c)).
  eapply runs_go; [apply size_line_micro; [done|lia..]|].
  replace (len (cData c) =? 0) with false by (destruct (cData c); [done|unfold len; cbn; lia]).
  eapply runs_go; [apply chunk_data_micro|].
  eapply runs_go; [apply chunk_end_micro; lia|].
  replace (overhead + len (cDigits c) + len (cExtensions c) + 2 + 2)
    with (overhead + (len (cDigits c) + len (cExtensions c) + 4)) by lia. done.
Qed.

(** ** Trailers *)

Definition trailer_ok (f : list Z * list Z) : Prop := field_ok f /\ ForbiddenTrailer f.1 = false.

Lemma trailer_micro f trailer overhead sofar rest :
  trailer_ok f -> 0 <= trailer -> trailer + len (field_line f) + 2 <= maxHeaders ->
  Micro (state StageTrailers 0 overhead trailer sofar) (field_line f ++ Crlf ++ rest) o =
    Go (state StageTrailers 0 overhead (trailer + len (field_line f) + 2) sofar) rest.
Proof.
  intros [Hok Hf] Ht Hl. pose proof (field_line_ok f Hok) as Hline. pose proof (len_nonneg (field_line f)).
  unfold Micro. cbn [mStage mContinue chunk_parser]. unfold TrailersStage.
  rewrite cut_crlf by (by apply line_ok_no_cr).
  cbn [mMaxHeaders mTrailerBytes chunk_parser]. rewrite size_sub_le by lia.
  replace (maxHeaders - trailer <? len (field_line f) + 2) with false by lia.
  replace (length (field_line f) =? 0)%nat with false by (destruct Hline as [H0 _]; by destruct (field_line f)).
  rewrite parse_header_line by done. destruct f as [name value]. cbn in Hf. by rewrite Hf.
Qed.

Lemma trailers_runs trailers trailer overhead sofar rest :
  Forall trailer_ok trailers -> 0 <= trailer ->
  trailer + len (lines_text (map field_line trailers)) + 2 <= maxHeaders ->
  runs o (state StageTrailers 0 overhead trailer sofar) (lines_text (map field_line trailers) ++ Crlf ++ rest)
    (MkResult Complete 200, New maxHeaders maxBody false, rest, MkRequest m t fs sofar).
Proof.
  intros H. revert trailer. induction H as [|f trailers Hf H IH]; intros trailer Ht Hl.
  - apply runs_return. unfold Micro. cbn [mStage mContinue chunk_parser]. unfold TrailersStage.
    cbn [lines_text map concat app Crlf]. change (13 :: 10 :: rest) with ([] ++ Crlf ++ rest).
    rewrite cut_crlf by apply not_elem_of_nil.
    cbn [mMaxHeaders mTrailerBytes chunk_parser]. change (len (lines_text (map field_line []))) with 0 in Hl.
    rewrite size_sub_le by lia. change (len []) with 0.
    replace (maxHeaders - trailer <? 0 + 2) with false by lia. done.
  - unfold lines_text in *. cbn [map concat] in *. rewrite !len_app in Hl. change (len Crlf) with 2 in Hl.
    rewrite <- !app_assoc. pose proof (len_nonneg (field_line f)).
    pose proof (len_nonneg (concat (map (fun l => l ++ Crlf) (map field_line trailers)))).
    eapply runs_go; [apply trailer_micro; [done|lia..]|]. apply IH; lia.
Qed.

(** ** Chunked bodies *)

Definition chunks_overhead (chunks : list Chunk) : Z := fold_right (fun c n => chunk_overhead c + n) 0 chunks.

Lemma chunk_overhead_nonneg c : 0 <= chunk_overhead c.
Proof. unfold chunk_overhead. pose proof (len_nonneg (cDigits c)). pose proof (len_nonneg (cExtensions c)). lia. Qed.

Lemma chunks_overhead_nonneg chunks : 0 <= chunks_overhead chunks.
Proof.
  induction chunks as [|c chunks IH]; cbn; [lia|]. fold (chunks_overhead chunks).
  pose proof (chunk_overhead_nonneg c). lia.
Qed.

Lemma chunks_runs chunks overhead sofar rest out :
  Forall chunk_ok chunks -> 0 <= overhead -> overhead + chunks_overhead chunks <= maxHeaders ->
  len sofar + len (concat (map cData chunks)) <= maxBody ->
  runs o (state StageChunkSize 0 (overhead + chunks_overhead chunks) 0
            (sofar ++ concat (map cData chunks))) rest out ->
  runs o (state StageChunkSize 0 overhead 0 sofar) (concat (map chunk_text chunks) ++ rest) out.
Proof.
  intros H. revert overhead sofar. induction H as [|c chunks Hc H IH]; intros overhead sofar H1 H2 H3 Hr.
  - cbn in *. by rewrite Z.add_0_r, app_nil_r in Hr.
  - cbn [map concat chunks_overhead fold_right] in *. fold (chunks_overhead chunks) in *.
    rewrite len_app in H3. rewrite <- app_assoc.
    pose proof (chunks_overhead_nonneg chunks). pose proof (chunk_overhead_nonneg c).
    pose proof (len_nonneg (concat (map cData chunks))).
    apply chunk_runs; [done|lia..|]. apply IH; [lia|lia| |].
    + rewrite len_app. lia.
    + by rewrite <- Z.add_assoc, <- app_assoc.
Qed.

(** The chunks, the last one of no bytes and the trailers. *)
Lemma chunked_body_runs chunks digits extensions trailers rest :
  Forall chunk_ok chunks -> size_line_ok digits extensions 0 -> Forall trailer_ok trailers ->
  chunks_overhead chunks + len digits + len extensions + 2 <= maxHeaders ->
  len (lines_text (map field_line trailers)) + 2 <= maxHeaders ->
  len (concat (map cData chunks)) <= maxBody ->
  runs o (state StageChunkSize 0 0 0 [])
    (concat (map chunk_text chunks) ++ digits ++ extensions ++ Crlf ++
       lines_text (map field_line trailers) ++ Crlf ++ rest)
    (MkResult Complete 200, New maxHeaders maxBody false, rest, MkRequest m t fs (concat (map cData chunks))).
Proof.
  intros Hc Hl Ht H1 H2 H3. pose proof (len_nonneg digits). pose proof (len_nonneg extensions).
  pose proof (chunks_overhead_nonneg chunks).
  change (len []) with 0 in *. apply chunks_runs; [done|lia|lia|change (len (@nil Z)) with 0; lia|].
  cbn [app]. eapply runs_go.
  - apply (size_line_micro digits extensions 0); [done|lia..].
  - cbn [Z.eqb]. apply trailers_runs; [done|lia|lia].
Qed.

(** A body announced by its length. *)
Lemma sized_body_runs data rest :
  runs o (state StageFixedBody (len data) 0 0 []) (data ++ rest)
    (MkResult Complete 200, New maxHeaders maxBody false, rest, MkRequest m t fs data).
Proof.
  apply runs_return. unfold Micro. cbn [mStage mContinue chunk_parser].
  unfold FixedBodyStage, TakeBody. rewrite (body_count_all _ data rest) by done.
  rewrite take_app_length, drop_app_length. cbn. unfold len. by rewrite Z.sub_diag.
Qed.

End bodies.

(** ** Requests *)

Inductive WireBody : Type :=
| NoBody
| Sized (data : list Z)
| Chunked (chunks : list Chunk) (digits extensions : list Z) (trailers : Fields).

Record WireRequest : Type := MkWire {
  wMethod : list Z;
  wTarget : list Z;
  wHost : list Z;
  wFields : Fields;
  wBody : WireBody
}.

Definition body_field (b : WireBody) : Fields :=
  match b with
  | NoBody => []
  | Sized data => [(txt "content-length", Digits (len data))]
  | Chunked _ _ _ _ => [(txt "transfer-encoding", txt "chunked")]
  end.

Definition wire_fields (w : WireRequest) : Fields :=
  (txt "host", wHost w) :: wFields w ++ body_field (wBody w).

Definition body_text (b : WireBody) : list Z :=
  match b with
  | NoBody => []
  | Sized data => data
  | Chunked chunks digits extensions trailers =>
      concat (map chunk_text chunks) ++ digits ++ extensions ++ Crlf ++
        lines_text (map field_line trailers) ++ Crlf
  end.

Definition body_content (b : WireBody) : list Z :=
  match b with
  | NoBody => []
  | Sized data => data
  | Chunked chunks _ _ _ => concat (map cData chunks)
  end.

Definition head_text (w : WireRequest) : list Z :=
  lines_text (head_lines (wMethod w) (wTarget w) (wire_fields w)) ++ Crlf.

(** What the client sends, and the request it means. *)
Definition wire_text (w : WireRequest) : list Z := head_text w ++ body_text (wBody w).

Definition wire_request (w : WireRequest) : HttpRequest :=
  MkRequest (wMethod w) (wTarget w) (wire_fields w) (body_content (wBody w)).

(** The fields the parser gives a meaning to. *)
Definition SpecialNames : list (list Z) :=
  map txt ["host"; "content-length"; "transfer-encoding"; "connection"; "upgrade"; "expect"]%string.

Definition plain_field (f : list Z * list Z) : Prop :=
  field_ok f /\ existsb (bytes_eqb f.1) SpecialNames = false.

Definition body_ok (maxHeaders maxBody : Z) (b : WireBody) : Prop :=
  len (body_content b) <= maxBody /\
  match b with
  | Chunked chunks digits extensions trailers =>
      Forall chunk_ok chunks /\ size_line_ok digits extensions 0 /\ Forall trailer_ok trailers /\
      chunks_overhead chunks + len digits + len extensions + 2 <= maxHeaders /\
      len (lines_text (map field_line trailers)) + 2 <= maxHeaders
  | _ => True
  end.

Record wire_ok (maxHeaders maxBody : Z) (w : WireRequest) : Prop := MkWireOk {
  wire_line : request_line_ok (wMethod w) (wTarget w);
  wire_host : field_ok (txt "host", wHost w) /\ wHost w <> [] /\ forallb HostByte (wHost w) = true;
  wire_plain : Forall plain_field (wFields w) /\ len (wFields w) <= 126;
  wire_head : len (head_text w) <= maxHeaders;
  wire_body : body_ok maxHeaders maxBody (wBody w)
}.

Definition body_head (fs : Fields) (b : WireBody) : HeadState :=
  match b with
  | NoBody => MkHead fs 0 true false false false 0
  | Sized data => MkHead fs (len data) true true false false 0
  | Chunked _ _ _ _ => MkHead fs 0 true false true false 0
  end.

Lemma check_plain_field maxBody name value h :
  existsb (bytes_eqb name) SpecialNames = false -> CheckField maxBody name value h = (None, h).
Proof.
  intros H. cbn [SpecialNames map existsb] in H. rewrite !orb_false_iff in H.
  destruct H as (H1 & H2 & H3 & H4 & H5 & H6 & _). unfold CheckField. by rewrite H1, H2, H3, H4, H5, H6.
Qed.

Lemma check_plain_fields maxBody fs tail h :
  Forall plain_field fs -> len (hFields h) + len fs <= 128 ->
  check_fields maxBody (fs ++ tail) h =
    check_fields maxBody tail (MkHead (hFields h ++ fs) (hRemaining h) (haveHost h) (haveLength h)
      (haveTransfer h) (haveExpect h) (transferFailure h)).
Proof.
  intros H. revert h. induction H as [|[name value] fs [_ Hp] H IH]; intros h Hl.
  - cbn [app]. rewrite app_nil_r. by destruct h.
  - cbn [app check_fields]. unfold len in *. cbn [length] in Hl.
    replace (128 <=? Z.of_nat (length (hFields h))) with false by lia.
    rewrite check_plain_field by done. rewrite IH.
    + cbn. by rewrite <- app_assoc.
    + cbn [hFields PushField]. rewrite length_app. cbn [length]. lia.
Qed.

(** A value without blanks at its ends is trimmed. *)
Lemma trim_solid v :
  Forall (fun c => RequestData.Blank c = false) v -> Trim v = v.
Proof.
  assert (forall l, Forall (fun c => RequestData.Blank c = false) l -> RequestData.TrimFront l = l) as Hf.
  { intros l [|c l' Hc _]; cbn; [done|by rewrite Hc]. }
  intros H. unfold Trim, RequestData.Trim. rewrite (Hf v) by done.
  rewrite Hf by (by apply Forall_rev). apply rev_involutive.
Qed.

Lemma solid_digits n : 0 <= n -> Forall (fun c => RequestData.Blank c = false) (Digits n).
Proof.
  intros Hn. destruct (digits_spec n Hn) as (c & cs & -> & Hall & _).
  eapply Forall_impl; [exact Hall|]. intros x Hx%isdigit_spec. unfold RequestData.Blank. eval_chars. lia.
Qed.

Lemma digits_value_ok n : 0 <= n -> ValidHeaderValue (Digits n) = true.
Proof.
  intros Hn. destruct (digits_spec n Hn) as (c & cs & -> & Hall & _). apply forallb_forall.
  intros x Hx%list_elem_of_In. unfold all_digits in Hall. rewrite Forall_forall in Hall. apply Hall in Hx.
  apply isdigit_spec in Hx. unfold ControlByte. lia.
Qed.

Lemma wire_accepted maxHeaders maxBody w :
  0 <= maxBody < 2 ^ 64 -> wire_ok maxHeaders maxBody w ->
  fields_accepted maxBody (wire_fields w) (body_head (wire_fields w) (wBody w)).
Proof.
  intros Hmax [_ (Hh & Hne & Hhost) [Hp Hn] _ [Hb _]].
  assert (check_fields maxBody (wire_fields w) head_start =
    (None, body_head (wire_fields w) (wBody w))) as Hcheck.
  { unfold wire_fields. cbn [check_fields]. change (128 <=? len (hFields head_start)) with false.
    unfold CheckField. change (bytes_eqb (txt "host") (txt "host")) with true. rewrite Hhost.
    replace (length (wHost w) =? 0)%nat with false by (by destruct (wHost w)).
    cbn [haveHost head_start orb negb]. unfold PushField. cbn -[txt len].
    rewrite check_plain_fields; [|done|unfold len in *; cbn; lia]. cbn [hFields app].
    set (hs := (txt "host", wHost w) :: wFields w).
    assert (len hs <= 127) as Hhs by (unfold hs, len in *; cbn [length]; lia).
    destruct (wBody w) as [|data|chunks digits extensions trailers]; cbn [body_field body_head check_fields hFields].
    - by rewrite app_nil_r.
    - replace (128 <=? len hs) with false by lia.
      destruct (digits_spec (len data) ltac:(apply len_nonneg)) as (c & cs & Hd & Hall & Hv & _).
      unfold CheckField. cbn -[txt Digits len from_chars_uint64 forallb].
      rewrite from_chars_digits_unsigned by (pose proof (len_nonneg data); cbn in Hb; lia). rewrite Hd.
      replace (forallb isdigit (c :: cs)) with true.
      2:{ symmetry. apply forallb_forall. intros x Hx. unfold all_digits in Hall. rewrite Forall_forall in Hall.
          apply Hall. by apply list_elem_of_In. }
      cbn in Hb. cbn [length Nat.eqb negb]. by replace (maxBody <? len data) with false by lia.
    - replace (128 <=? len hs) with false by lia. done. }
  split; [|exact Hcheck|by destruct (wBody w)..].
  unfold wire_fields. constructor; [done|]. apply Forall_app. split.
  - eapply Forall_impl; [exact Hp|]. by intros f [Hf _].
  - destruct (wBody w) as [|data|]; repeat constructor; try done.
    + apply digits_value_ok, len_nonneg.
    + apply trim_solid, solid_digits, len_nonneg.
Qed.

(** ** Streams of requests *)

Lemma wire_runs maxHeaders maxBody w rest o :
  0 <= maxHeaders < 2 ^ 64 -> 0 <= maxBody < 2 ^ 64 -> wire_ok maxHeaders maxBody w ->
  runs o (New maxHeaders maxBody false) (wire_text w ++ rest)
    (MkResult Complete 200, New maxHeaders maxBody false, rest, wire_request w).
Proof.
  intros H1 H2 Hw. pose proof (wire_accepted _ _ _ H2 Hw) as Hacc. destruct Hw as [Hl _ _ Hh [Hb Hb']].
  unfold wire_text, head_text in *. rewrite <- !app_assoc. rewrite len_app in Hh. change (len Crlf) with 2 in Hh.
  eapply runs_go; [by apply parse_head_text|]. unfold body_parser, wire_request, body_content in *.
  destruct (wBody w) as [|data|chunks digits extensions trailers]; cbn [body_head haveTransfer hRemaining body_text].
  - by apply sized_body_runs with (data := []).
  - by apply sized_body_runs.
  - destruct Hb' as (Hc & Hs & Ht & Ho & Hlt). rewrite <- !app_assoc. by apply chunked_body_runs.
Qed.

Lemma wires_drain maxHeaders maxBody ws :
  0 < maxHeaders < 2 ^ 64 -> 0 <= maxBody < 2 ^ 64 -> Forall (wire_ok maxHeaders maxBody) ws ->
  exists p, drains (New maxHeaders maxBody false) (concat (map wire_text ws))
    (map (fun w => (Complete, wire_request w)) ws, p, [], true).
Proof.
  intros H1 H2. induction 1 as [|w ws Hw H [p IH]].
  - eexists. cbn. eapply drains_more; [apply runs_return|].
    + unfold Micro. cbn -[Z.leb]. unfold HeadersStage. cbn -[Z.leb].
      change (len []) with 0. replace (maxHeaders <=? 0) with false by lia. reflexivity.
    + done.
  - exists p. cbn [map concat].
    eapply (drains_event _ _ (MkResult Complete 200)); [apply wire_runs; [lia|done|done]|done|done|exact IH].
Qed.

(** C2. A client that sends well-formed requests one after the other, each with no body, with one
    announced by its length or with a chunked one (any chunk sizes, extensions and trailers), is
    understood: however the stream is cut into pieces on its way, the connection's loop delivers
    exactly these requests, in order, with their method, target, fields and decoded body, and nothing
    is left unread. *)
Theorem http_stream_delivered maxHeaders maxBody ws pieces :
  0 < maxHeaders < 2 ^ 64 -> 0 <= maxBody < 2 ^ 64 -> Forall (wire_ok maxHeaders maxBody) ws ->
  pieces <> [] -> concat pieces = concat (map wire_text ws) ->
  exists p, Feed (New maxHeaders maxBody false) [] pieces =
    Some (map (fun w => (Complete, wire_request w)) ws, p, [], true).
Proof.
  intros H1 H2 Hw Hne Hc. destruct pieces as [|piece pieces]; [done|].
  assert (searched (New maxHeaders maxBody false) []) as Hse.
  { split_and!; [done|cbn; lia|]. intros _. done. }
  destruct (feed_drains pieces _ [] piece Hse) as ([[[evs p] i] al] & [[[evs2 q] j] al2] & HF & Hd & <- & <- & He).
  destruct (wires_drain _ _ _ H1 H2 Hw) as [q' Hd']. cbn [app concat] in Hd, Hc. rewrite Hc in Hd.
  pose proof (drains_det _ _ _ _ Hd Hd') as Heq. injection Heq as -> -> -> ->.
  exists p. rewrite HF. destruct (He eq_refl) as [_ ->]. done.
Qed.

(** A chunked request and one without a body, for the examples below. *)
Definition sample_requests : list WireRequest :=
  [MkWire (txt "POST") (txt "/a?b") (txt "h") [(txt "x", txt "y z")]
     (Chunked [MkChunk (txt "2") (txt ";k=v") (txt "ab"); MkChunk (txt "0A") [] (txt "0123456789")]
        (txt "0") [] [(txt "t", txt "v")]);
   MkWire (txt "GET") (txt "/") (txt "h:80") [] NoBody].

Lemma sample_chunk_ok : chunk_ok (MkChunk (txt "2") (txt ";k=v") (txt "ab")).
Proof.
  split; [done|]. split; [split; [done|by repeat constructor]|done|right].
  split_and!; [by vm_compute| |by intros c [= <-]].
  intros Hin. repeat (apply elem_of_cons in Hin as [Hin|Hin]; [done|]). by apply elem_of_nil in Hin.
Qed.

Lemma sample_requests_ok : Forall (wire_ok 256 64) sample_requests.
Proof.
  assert (chunk_ok (MkChunk (txt "0A") [] (txt "0123456789"))) as Hc.
  { split; [done|]. split; [split; [done|by repeat constructor]|done|by left]. }
  assert (size_line_ok (txt "0") [] 0) as Hz.
  { split; [split; [done|by repeat constructor]|done|by left]. }
  assert (forall n v, IsToken (txt n) && bytes_eqb (map Lower (txt n)) (txt n) && ValidHeaderValue (txt v) &&
    bytes_eqb (Trim (txt v)) (txt v) = true -> field_ok (txt n, txt v)) as Hf.
  { intros n v H. rewrite !andb_true_iff, !bytes_eqb_eq in H. by destruct H as [[[? ?] ?] ?]. }
  repeat first [exact sample_chunk_ok | exact Hc | exact Hz | apply Hf; by vm_compute | done | constructor].
Qed.

Lemma http_stream_delivered_witness :
  exists p, Feed (New 256 64 false) [] [txt "PO"; drop 2 (concat (map wire_text sample_requests))] =
    Some (map (fun w => (Complete, wire_request w)) sample_requests, p, [], true).
Proof.
  apply (http_stream_delivered 256 64 sample_requests); [lia|lia|apply sample_requests_ok|discriminate|].
  vm_compute. reflexivity.
Defined.

(** ** What an accepted head is worth *)

Definition field_values (name : list Z) (fs : Fields) : list (list Z) :=
  map snd (filter (fun f => f.1 = name) fs).

Lemma field_values_snoc name fs n v :
  field_values name (fs ++ [(n, v)]) = field_values name fs ++ (if bytes_eqb n name then [v] else []).
Proof.
  unfold field_values. rewrite filter_app, map_app. f_equal. rewrite filter_cons. cbn.
  destruct (bytes_eqb n name) eqn:E; [apply bytes_eqb_eq in E|apply bytes_eqb_neq in E]; by case_decide.
Qed.

(** A field as the request keeps it: a lower-case token and a value without control bytes. *)
Definition field_sound (f : list Z * list Z) : Prop :=
  (exists name, IsToken name = true /\ f.1 = map Lower name) /\ ValidHeaderValue f.2 = true.

Definition at_most_once (have : bool) (values : list (list Z)) : Prop :=
  length values = if have then 1%nat else 0%nat.

(** How the body ends: its length, the chunked coding, or no body. *)
Definition framing_sound (maxBody remaining : Z) (lengths transfers : list (list Z)) : Prop :=
  match lengths, transfers with
  | [], [] => remaining = 0
  | [v], [] => v <> [] /\ forallb isdigit v = true /\ remaining = digits_value v /\ remaining <= maxBody
  | [], [v] => remaining = 0 /\ EqualInsensitive v (txt "chunked") = true
  | _, _ => False
  end.

(** The locals of the loop agree with the fields pushed so far. *)
Record head_sound (maxBody : Z) (h : HeadState) : Prop := MkHeadSound {
  sound_fields : Forall field_sound (hFields h);
  sound_count : len (hFields h) <= 128;
  sound_host : at_most_once (haveHost h) (field_values (txt "host") (hFields h));
  sound_expect : at_most_once (haveExpect h) (field_values (txt "expect") (hFields h));
  sound_length : at_most_once (haveLength h) (field_values (txt "content-length") (hFields h));
  sound_transfer : at_most_once (haveTransfer h) (field_values (txt "transfer-encoding") (hFields h));
  sound_remaining : framing_sound maxBody (hRemaining h) (field_values (txt "content-length") (hFields h)) [];
  sound_coding : transferFailure h = 0 ->
    Forall (fun v => EqualInsensitive v (txt "chunked") = true) (field_values (txt "transfer-encoding") (hFields h))
}.

Lemma from_chars_digits_value v rest n :
  forallb isdigit v = true -> from_chars_uint64 v = (errc_ok, rest, n) -> n = digits_value v.
Proof.
  intros Hd H. assert (all_digits v) as Hall.
  { apply Forall_forall. intros x Hx%list_elem_of_In. rewrite forallb_forall in Hd. auto. }
  unfold from_chars_uint64, from_chars_integer in H. change (0 <? 0) with false in H.
  destruct v as [|c v]; [done|]. rewrite andb_false_r in H. rewrite span_digits_all in H by done.
  cbn [len length Z.of_nat] in H. repeat case_if_in H; congruence.
Qed.

Lemma none_then_nil have values : at_most_once have values -> have = false -> values = [].
Proof. unfold at_most_once. intros H ->. by destruct values. Qed.

Lemma none_then_once have values v : at_most_once have values -> have = false -> at_most_once true (values ++ [v]).
Proof. intros H Hf. by rewrite (none_then_nil _ _ H Hf). Qed.

Lemma check_field_sound maxBody name value h h' :
  head_sound maxBody h -> field_sound (name, value) -> len (hFields h) < 128 ->
  CheckField maxBody name value h = (None, h') -> head_sound maxBody (PushField name value h').
Proof.
  intros [H1 H2 H3 H4 H5 H6 H7 H8] Hf Hl H.
  assert (Forall field_sound (hFields h ++ [(name, value)])) as Hfs by (apply Forall_app; auto).
  assert (len (hFields h ++ [(name, value)]) <= 128) as Hls by (rewrite len_app; change (len [(name, value)]) with 1; lia).
  unfold CheckField in H.
  destruct (bytes_eqb name (txt "host")) eqn:E1;
    [|destruct (bytes_eqb name (txt "content-length")) eqn:E2;
    [|destruct (bytes_eqb name (txt "transfer-encoding")) eqn:E3;
    [|destruct (bytes_eqb name (txt "connection")) eqn:E4;
    [|destruct (bytes_eqb name (txt "upgrade")) eqn:E5;
    [|destruct (bytes_eqb name (txt "expect")) eqn:E6]]]]];
  try match goal with E : bytes_eqb name ?x = true |- _ => apply bytes_eqb_eq in E; subst name end.
  all: repeat match type of H with (if ?b then _ else _) = _ => let E := fresh "Eg" in destruct b eqn:E; try done end.
  2: destruct (from_chars_uint64 value) as [[[] rest] n] eqn:En; try done; case_if_in H; [done|].
  all: injection H as <-; split; cbn [PushField hFields haveHost haveLength haveTransfer haveExpect transferFailure hRemaining];
    try done; rewrite ?field_values_snoc, ?E1, ?E2, ?E3, ?E6; cbn [bytes_eqb]; try (by rewrite app_nil_r).
  all: rewrite bytes_eqb_refl.
  all: rewrite !orb_false_iff in *; try (eapply none_then_once; [eassumption|tauto]).
  - rewrite (none_then_nil _ _ H5) by tauto. cbn.
    assert (forallb isdigit value = true) as Hd by (by destruct (forallb isdigit value)).
    split_and!; [intros ->; by destruct Eg|done|by eapply from_chars_digits_value|lia].
  - intros Hc. rewrite (none_then_nil _ _ H6) by tauto. repeat constructor.
    match type of Hc with context [EqualInsensitive value ?x] => change x with (txt "chunked") in Hc end.
    destruct (EqualInsensitive value (txt "chunked")) eqn:Eq; [done|]. cbn [negb] in Hc.
    destruct (CountChunked value) as [count last]. by case_if_in Hc.
Qed.

Lemma parse_header_sound line f : ParseHeader line = Some f -> field_sound f.
Proof.
  unfold ParseHeader. destruct (cut (char_code ":") line) as [name [rest|]]; [|done]. intros H.
  destruct (IsToken name) eqn:Et; [|done]. cbn [negb] in H.
  destruct (ValidHeaderValue (Trim rest)) eqn:Ev; [|done]. injection H as <-. split; [by exists name|done].
Qed.

Lemma fields_loop_sound fuel maxBody block h h' :
  head_sound maxBody h -> FieldsLoop fuel maxBody block h = (None, h') -> head_sound maxBody h'.
Proof.
  revert block h. induction fuel as [|fuel IH]; intros block h Hh H.
  { destruct block; [by injection H as <-|done]. }
  cbn [FieldsLoop] in H. destruct block as [|c block]; [by injection H as <-|].
  destruct (cut_sub Crlf (c :: block)) as [line rest].
  destruct (ParseHeader line) as [[name value]|] eqn:Ep; [|done]. apply parse_header_sound in Ep.
  destruct (128 <=? len (hFields h)) eqn:El; [done|].
  destruct (CheckField maxBody name value h) as [[]h1] eqn:Ec; [done|].
  apply check_field_sound in Ec; [|done..|lia].
  destruct rest as [rest|]; [by apply (IH rest _ Ec)|by injection H as <-].
Qed.

Lemma field_values_cons name n v fs :
  field_values name ((n, v) :: fs) = (if bytes_eqb n name then [v] else []) ++ field_values name fs.
Proof.
  unfold field_values. rewrite filter_cons. cbn [fst].
  destruct (bytes_eqb n name) eqn:E; [apply bytes_eqb_eq in E|apply bytes_eqb_neq in E]; by case_decide.
Qed.

Lemma replace_host_other name authority fs :
  bytes_eqb (txt "host") name = false ->
  field_values name (ReplaceHost authority fs) = field_values name fs.
Proof.
  intros Hn. induction fs as [|[n v] fs IH]; cbn [ReplaceHost].
  - by rewrite field_values_cons, Hn.
  - case_if; rewrite !field_values_cons; [|by rewrite IH].
    apply bytes_eqb_eq in E as ->. by rewrite Hn.
Qed.

Lemma replace_host_host authority fs :
  field_values (txt "host") (ReplaceHost authority fs) = authority :: tail (field_values (txt "host") fs).
Proof.
  induction fs as [|[n v] fs IH]; cbn [ReplaceHost]; [done|].
  case_if; rewrite !field_values_cons, E; [done|]. by rewrite IH.
Qed.

Lemma replace_host_sound authority fs :
  ValidHeaderValue authority = true -> Forall field_sound fs ->
  Forall field_sound (ReplaceHost authority fs) /\ len (ReplaceHost authority fs) <= len fs + 1.
Proof.
  intros Ha. induction 1 as [|[n v] fs [Hn Hv] H [IH1 IH2]]; cbn [ReplaceHost].
  - split; [|done]. repeat constructor; [by exists (txt "host")|done].
  - unfold len in *. case_if; cbn [length]; split; try lia; by repeat constructor.
Qed.

(** ** Targets *)

Lemma target_bytes_value l : forallb TargetByte l = true -> ValidHeaderValue l = true.
Proof.
  unfold ValidHeaderValue. rewrite !forallb_forall. intros H x Hx%H. revert Hx.
  unfold TargetByte, ControlByte. lia.
Qed.

Lemma cut_path_spec rest authority path :
  CutPath rest = (authority, path) ->
  rest = authority ++ path /\ forall c, head path = Some c -> c = char_code "/" \/ c = char_code "?".
Proof.
  revert authority. induction rest as [|c rest IH]; intros authority H; cbn [CutPath] in H.
  { by injection H as <- <-. }
  case_if_in H.
  - injection H as <- <-. split; [done|]. intros c' [= <-]. lia.
  - destruct (CutPath rest) as [a b]. injection H as <- <-. destruct (IH a eq_refl) as [-> H]. done.
Qed.

(** An origin form, or the asterisk; no blank, control byte or fragment in it. *)
Definition target_sound (t : list Z) : Prop :=
  forallb TargetByte t = true /\ (starts_with (txt "/") t = true \/ t = txt "*").

Lemma normalize_sound written target authority :
  forallb TargetByte written = true -> NormalizeTarget written = Some (target, authority) ->
  target_sound target /\ ValidHeaderValue authority = true.
Proof.
  intros Hb H. destruct written as [|c written]; [done|]. cbn [NormalizeTarget] in H.
  set (w := c :: written) in *.
  destruct (negb (c =? char_code "/") && negb (bytes_eqb w (txt "*"))) eqn:Ef.
  - pose proof (cut_sub_inv (txt "://") w) as Hcut.
    destruct (cut_sub (txt "://") w) as [scheme [rest|]]; [|done].
    case_if_in H; [done|]. destruct (CutPath rest) as [a path] eqn:Ep. case_if_in H; [done|].
    injection H as <- <-. apply cut_path_spec in Ep as [-> Hp].
    rewrite Hcut, !forallb_app, !andb_true_iff in Hb. destruct Hb as (_ & _ & Ha & Hpath).
    split; [split|by apply target_bytes_value].
    + rewrite forallb_app, Hpath, andb_true_r. by case_if.
    + left. case_if; [exact E1|apply starts_with_app].
  - injection H as <- <-. split; [split; [done|]|done]. apply andb_false_iff in Ef as [Ef|Ef].
    + left. cbn. rewrite andb_true_r. lia.
    + right. apply bytes_eqb_eq. by destruct (bytes_eqb w (txt "*")).
Qed.

(** A head that does not fail, seen from the parser it leaves. *)
Definition head_promise (maxBody : Z) (p : HttpParser) : Prop :=
  let q := mRequest p in
  let lengths := field_values (txt "content-length") (headers q) in
  let transfers := field_values (txt "transfer-encoding") (headers q) in
  let hosts := field_values (txt "host") (headers q) in
  IsToken (method q) = true /\ target_sound (target q) /\
  Forall field_sound (headers q) /\ len (headers q) <= 129 /\
  (length hosts <= 1)%nat /\ (IsHttp10 p = false -> hosts <> []) /\
  framing_sound maxBody (mRemaining p) lengths transfers /\
  mStage p = (if bool_decide (transfers = []) then StageFixedBody else StageChunkSize) /\
  (IsHttp10 p = true -> transfers = []).

Lemma split_request_line_method line name written version :
  SplitRequestLine line = Some (name, written, version) -> IsToken name = true.
Proof.
  unfold SplitRequestLine. destruct (cut _ line) as [a [r|]]; [|done].
  destruct (cut _ r) as [b [v|]]; [|done]. case_if; [done|]. intros [= <- <- <-].
  apply orb_false_iff in E as [_ E]. by destruct (IsToken a).
Qed.

Lemma head_sound_start maxBody : head_sound maxBody head_start.
Proof. split; done || (by constructor) || (intros; by constructor). Qed.

(** The framing of the whole head, from the locals. *)
Lemma head_sound_framing maxBody h :
  head_sound maxBody h -> haveLength h && haveTransfer h = false -> transferFailure h = 0 ->
  framing_sound maxBody (hRemaining h) (field_values (txt "content-length") (hFields h))
    (field_values (txt "transfer-encoding") (hFields h)) /\
  haveTransfer h = negb (bool_decide (field_values (txt "transfer-encoding") (hFields h) = [])).
Proof.
  intros [_ _ _ _ H5 H6 H7 H8] Hb Hf. specialize (H8 Hf). unfold at_most_once in *.
  destruct (field_values (txt "transfer-encoding") (hFields h)) as [|v [|v' vs]];
    destruct (haveTransfer h); try done.
  rewrite andb_true_r in Hb. rewrite Hb in H5.
  destruct (field_values (txt "content-length") (hFields h)); [|done]. cbn in H7 |- *.
  by apply Forall_cons in H8 as [H8 _].
Qed.

Definition final_fields (authority : list Z) (h : HeadState) : Fields :=
  if (length authority =? 0)%nat then hFields h else ReplaceHost authority (hFields h).

Lemma final_fields_sound maxBody authority h :
  head_sound maxBody h -> ValidHeaderValue authority = true ->
  let fs := final_fields authority h in
  Forall field_sound fs /\ len fs <= 129 /\ (length (field_values (txt "host") fs) <= 1)%nat /\
  (haveHost h = true -> field_values (txt "host") fs <> []) /\
  field_values (txt "content-length") fs = field_values (txt "content-length") (hFields h) /\
  field_values (txt "transfer-encoding") fs = field_values (txt "transfer-encoding") (hFields h).
Proof.
  intros [F1 F2 F3 _ _ _ _ _] Ha. unfold at_most_once in F3. cbv zeta. unfold final_fields. case_if.
  - split_and!; try done; [lia|destruct (haveHost h); lia|]. intros Hh H0. rewrite Hh, H0 in F3. done.
  - destruct (replace_host_sound _ _ Ha F1) as [G1 G2].
    rewrite replace_host_host, !replace_host_other by done.
    split_and!; try done; [lia|]. cbn [length].
    destruct (field_values (txt "host") (hFields h)) as [|v [|]]; destruct (haveHost h); cbn in *; lia.
Qed.

Lemma parse_headers_promise maxHeaders maxBody separate b block r p :
  ParseHeaders block (set_head_request b (New maxHeaders maxBody separate)) = (r, p) -> kind r <> Error ->
  head_promise maxBody p.
Proof.
  intros H Hk. unfold ParseHeaders, Fail in H.
  destruct (cut_sub Crlf block) as [line [fields|]]; [|by injection H as <- <-].
  destruct (SplitRequestLine line) as [[[name written] version]|] eqn:Es; [|by injection H as <- <-].
  apply split_request_line_method in Es. case_if_in H; [by injection H as <- <-|]. clear E.
  set (http10 := bytes_eqb version (txt "HTTP/1.0")) in H.
  destruct (forallb TargetByte written) eqn:Et; [|by injection H as <- <-]. cbn [negb] in H.
  destruct (NormalizeTarget written) as [[t authority]|] eqn:En; [|by injection H as <- <-].
  apply normalize_sound in En as [Ht Ha]; [|done].
  cbn [set_http10 set_head_request New mRequest headers EmptyRequest mRemaining mMaxBody] in H.
  destruct (FieldsLoop _ _ _ _) as [[code|] h] eqn:El; [by injection H as <- <-|].
  apply fields_loop_sound in El; [|apply head_sound_start].
  case_if_in H; [by injection H as <- <-|]. rewrite !orb_false_iff in E. destruct E as [[E1 E2] E3].
  case_if_in H; [by injection H as <- <-|]. injection H as <- <-.
  destruct (head_sound_framing _ _ El E2 ltac:(lia)) as [Hframe Htr].
  pose proof (final_fields_sound _ _ _ El Ha) as (F1 & F2 & F3 & F4 & F5 & F6).
  unfold head_promise. cbn -[txt field_values final_fields]. fold (final_fields authority h). rewrite F5, F6.
  split_and!; try done.
  - intros Hh. apply F4. rewrite Hh, andb_true_r in E1. by destruct (haveHost h).
  - rewrite Htr. by case_bool_decide.
  - intros Hh. rewrite Hh in E3. cbn in E3. rewrite E3 in Htr. by case_bool_decide.
Qed.

(** C6. A head that the parser accepts has one reading only, so that no intermediary and no handler
    can disagree with it about where the body ends: the method is a token, the target is an origin
    form or the asterisk without blanks, control bytes or a fragment, there are at most 129 fields,
    each of a lower-case token and a value without control bytes, at most one Host field (exactly one
    after HTTP/1.0), and Content-Length and Transfer-Encoding exclude each other and occur at most
    once; the body to read next is the one they announce: chunked when the coding is exactly that
    (never for HTTP/1.0), else of the Content-Length, all digits and within the limit, else empty. *)
Theorem accepted_heads_unambiguous maxHeaders maxBody input r p rest out :
  Parse (New maxHeaders maxBody true) input EmptyRequest = Some (r, p, rest, out) -> kind r = Headers ->
  head_promise maxBody (set_request out p).
Proof.
  intros H Hk. unfold Parse in H. cbn [AdvanceLoop Round mStage New] in H.
  unfold Round, within in H. cbn [mStage New] in H. rewrite bool_decide_false, bool_decide_true in H by done.
  destruct (HeadersStage _ _ _) as [r1 p1 i1 o1|p1 i1] eqn:E.
  - injection H as -> -> -> ->. unfold HeadersStage in E. cbn [mHeaderSearch New Nat.eqb andb] in E.
    case_if_in E; [by injection E as <- <- <- <-|].
    destruct (ScanHead _ _ _); [by injection E as <- <- <- <-| |].
    2:{ case_if_in E; by injection E as <- <- <- <-. }
    case_if_in E; [by injection E as <- <- <- <-|].
    destruct (ParseHeaders _ _) as [r2 p2] eqn:Ep. case_bool_decide as Hke; [injection E as <- <- <- <-; congruence|].
    apply parse_headers_promise in Ep; [|done]. case_if_in E; [|done]. injection E as <- <- <- <-. done.
  - exfalso. unfold HeadersStage in E. cbn [mHeaderSearch New Nat.eqb andb] in E.
    case_if_in E; [done|]. destruct (ScanHead _ _ _); [done| |by case_if_in E].
    case_if_in E; [done|]. destruct (ParseHeaders _ _) as [r2 p2] eqn:Ep.
    apply parse_headers_kind in Ep as (_ & _ & Hsep). case_if_in E; [done|]. rewrite Hsep in E. done.
Qed.

Lemma accepted_heads_unambiguous_witness :
  exists p rest out,
    Parse (New 128 64 true) (txt "GET http://a/b HTTP/1.1" ++ Crlf ++ txt "Host: x" ++ Crlf
      ++ txt "Content-Length: 007" ++ Crlf ++ Crlf ++ txt "body") EmptyRequest =
      Some (MkResult Headers 200, p, rest, out) /\
    head_promise 64 (set_request out p).
Proof.
  eexists _, _, _. split; [vm_compute; reflexivity|].
  eapply (accepted_heads_unambiguous 128 64 (txt "GET http://a/b HTTP/1.1" ++ Crlf ++ txt "Host: x" ++ Crlf
      ++ txt "Content-Length: 007" ++ Crlf ++ Crlf ++ txt "body") (MkResult Headers 200));
    [vm_compute; reflexivity|reflexivity].
Defined.
