(* ===== verification/Multipart.v ===== *)
(** * Web: streaming multipart/form-data.

    [Web/Multipart.h|cpp]: the feed/pull parser.  [Feed] takes a bounded prefix of the bytes it is given,
    [Read] returns the next event, a null pointer at the validated end ([FromValue None]) or an error;
    [WouldBlock] asks for more input or for the release of events.  The members of
    [MultipartParser::State] are the fields of [State]; [credit] is the number of bytes of the events
    that are still alive, and [ReleaseEvent] is what the deleter of an event does to it.  Differences
    of unsigned values wrap around ([size_sub]).  The inner loop of [Read] has twice the length of the
    buffer as fuel: a round either moves [search] on or shortens the buffer.  An allocation that fails
    in [Feed] or [Read] leaves the error and drops the buffer, wherever it happens; it is the
    argument [allocated]. *)

From S2P Require Import Prelude CoreError Utf8 RequestData Charconv HttpParser.
Import HttpParser.

Module Multipart.

Definition Fail {T} (code : ErrorCode) : Result T := FromStatus (Status.FailWithoutMessage code).

Definition LowerText (value : list Z) : list Z := map Lower value.

Definition Metadata (value : list Z) : bool :=
  forallb (fun ch => negb ((ch <? 0x20) || (ch =? 0x7F))) value && Utf8.IsValidUtf8 value.

Record Parameterized : Type := MkParameterized { main : list Z; parameters : Fields }.

(** The loop over a quoted value, from behind its opening quote: the value and what follows the
    closing quote. *)
Fixpoint QuotedValue (input value : list Z) : option (list Z * list Z) :=
  match input with
  | [] => None
  | ch :: input =>
      if ch =? 34 then Some (value, input)
      else if ch =? 92 then
        match input with
        | [] => None
        | ch :: input => QuotedValue input (value ++ [ch])
        end
      else QuotedValue input (value ++ [ch])
  end.

(** The value of a parameter and the input behind it. *)
Definition ParameterValue (input : list Z) : option (list Z * list Z) :=
  let quoted :=
    match input with
    | ch :: rest => if ch =? 34 then Some rest else None
    | [] => None
    end in
  match quoted with
  | Some rest =>
      match QuotedValue rest [] with
      | None => None
      | Some (value, rest) =>
          match Trim rest with
          | [] => Some (value, [])
          | ch :: rest =>
              if negb (ch =? char_code ";") || (length (Trim rest) =? 0)%nat then None
              else Some (value, rest)
          end
      end
  | None =>
      let (piece, next) := cut (char_code ";") input in
      let token := Trim piece in
      if negb (IsToken token) then None
      else
        match next with
        | None => Some (token, [])
        | Some rest => if (length (Trim rest) =? 0)%nat then None else Some (token, rest)
        end
  end.

(** One parameter a round, of one byte at least; the length is fuel enough. *)
Fixpoint ParametersLoop (fuel : nat) (input : list Z) (result : Fields) : option Fields :=
  match input with
  | [] => Some result
  | _ =>
      match fuel with
      | O => None
      | S fuel' =>
          match cut (char_code "=") (Trim input) with
          | (_, None) => None
          | (front, Some rest) =>
              let name := LowerText (Trim front) in
              if negb (IsToken name) || existsb (fun entry => bytes_eqb entry.1 name) result then None
              else
                match ParameterValue (Trim rest) with
                | None => None
                | Some (value, rest) =>
                    if negb (Metadata value) then None
                    else ParametersLoop fuel' rest (result ++ [(name, value)])
                end
          end
      end
  end.

Definition Parameters (input : list Z) : Result Parameterized :=
  let (front, rest) := cut (char_code ";") input in
  let rest := match rest with None => [] | Some rest => rest end in
  match ParametersLoop (S (length rest)) rest [] with
  | None => Fail InvalidFormat
  | Some fields => FromValue (MkParameterized (LowerText (Trim front)) fields)
  end.

Definition BoundaryByte (ch : Z) : bool :=
  RequestData.Letter ch || RequestData.Digit ch || existsb (Z.eqb ch) (txt "'()+_,-./:=? ").

Definition Boundary (value : list Z) : bool :=
  negb ((length value =? 0)%nat || (70 <? len value) || (List.last value 0 =? char_code " "))
  && forallb BoundaryByte value.

Record MultipartOptions : Type := MkOptions {
  maxParts : Z;
  maxFiles : Z;
  maxHeaders : Z;
  maxHeaderBytes : Z;
  maxPartBytes : Z;
  maxFileBytes : Z;
  maxTotalBytes : Z;
  maxRetainedBytes : Z;
  maxEventBytes : Z
}.

Inductive MultipartEventKind : Type := PartBegin | Data | PartEnd.

Record MultipartEvent : Type := MkEvent {
  kind : MultipartEventKind;
  partIndex : Z;
  name : list Z;
  filename : option (list Z);
  contentType : list Z;
  headers : Fields;
  data : list Z
}.

(** A default-constructed event of that kind and part. *)
Definition PlainEvent (k : MultipartEventKind) (index : Z) (bytes : list Z) : MultipartEvent :=
  MkEvent k index [] None [] [] bytes.

Inductive Phase : Type := PhaseInitial | PhaseHeaders | PhaseBody | PhaseEpilogue | PhaseDone.

#[export] Instance Phase_eq_dec : EqDecision Phase.
Proof. solve_decision. Defined.

Inductive Suffix : Type := SuffixMore | SuffixInvalid | SuffixNormal | SuffixFinal.

#[export] Instance Suffix_eq_dec : EqDecision Suffix.
Proof. solve_decision. Defined.

Record State : Type := MkState {
  options : MultipartOptions;
  marker : list Z;
  delimiter : list Z;
  buffer : list Z;
  credit : Z;
  phase : Phase;
  error : ErrorCode;
  eof : bool;
  initialStart : bool;
  file : bool;
  total : Z;
  partBytes : Z;
  part : Z;
  files : Z
}.

Definition NewState (boundary : list Z) (limits : MultipartOptions) : State :=
  let mark := txt "--" ++ boundary in
  MkState limits mark (Crlf ++ mark) [] 0 PhaseInitial ErrorCode_Ok false true false 0 0 0 0.

(** Assignments to one member. *)
Definition set_buffer (b : list Z) (s : State) : State :=
  MkState (options s) (marker s) (delimiter s) b (credit s) (phase s) (error s) (eof s)
    (initialStart s) (file s) (total s) (partBytes s) (part s) (files s).
Definition set_credit (n : Z) (s : State) : State :=
  MkState (options s) (marker s) (delimiter s) (buffer s) n (phase s) (error s) (eof s)
    (initialStart s) (file s) (total s) (partBytes s) (part s) (files s).
Definition set_phase (p : Phase) (s : State) : State :=
  MkState (options s) (marker s) (delimiter s) (buffer s) (credit s) p (error s) (eof s)
    (initialStart s) (file s) (total s) (partBytes s) (part s) (files s).
Definition set_error (e : ErrorCode) (s : State) : State :=
  MkState (options s) (marker s) (delimiter s) (buffer s) (credit s) (phase s) e (eof s)
    (initialStart s) (file s) (total s) (partBytes s) (part s) (files s).
Definition set_eof (s : State) : State :=
  MkState (options s) (marker s) (delimiter s) (buffer s) (credit s) (phase s) (error s) true
    (initialStart s) (file s) (total s) (partBytes s) (part s) (files s).
Definition clear_start (s : State) : State :=
  MkState (options s) (marker s) (delimiter s) (buffer s) (credit s) (phase s) (error s) (eof s)
    false (file s) (total s) (partBytes s) (part s) (files s).
Definition add_total (n : Z) (s : State) : State :=
  MkState (options s) (marker s) (delimiter s) (buffer s) (credit s) (phase s) (error s) (eof s)
    (initialStart s) (file s) (wrap64 (total s + n)) (partBytes s) (part s) (files s).
Definition add_part_bytes (n : Z) (s : State) : State :=
  MkState (options s) (marker s) (delimiter s) (buffer s) (credit s) (phase s) (error s) (eof s)
    (initialStart s) (file s) (total s) (wrap64 (partBytes s + n)) (part s) (files s).

(** The assignments after a PartBegin event. *)
Definition begin_part (isFile : bool) (s : State) : State :=
  MkState (options s) (marker s) (delimiter s) (buffer s) (credit s) PhaseBody (error s) (eof s)
    (initialStart s) isFile (total s) 0 (wrap64 (part s + 1))
    (if isFile then wrap64 (files s + 1) else files s).

Definition Retained (s : State) : Z := len (buffer s) + credit s.

Definition FailWith (code : ErrorCode) (s : State) : State := set_buffer [] (set_error code s).

Fixpoint BlankSpan (text : list Z) : nat :=
  match text with
  | ch :: text => if RequestData.Blank ch then S (BlankSpan text) else 0
  | [] => 0
  end.

(** What follows a delimiter at [start] and the dashes of a final one: the blanks and the end of the
    line; the second component is the value given to [end]. *)
Definition AfterDashes (s : State) (start : nat) (final : bool) (dashes : nat) : Suffix * nat :=
  let text := drop start (buffer s) in
  let pos := (dashes + BlankSpan (drop dashes text))%nat in
  if maxHeaderBytes (options s) <? Z.of_nat pos then (SuffixInvalid, 0%nat)
  else
    match drop pos text with
    | [] => if final && eof s then (SuffixFinal, (start + pos)%nat) else (SuffixMore, 0%nat)
    | ch :: rest =>
        if negb (ch =? 13) then (SuffixInvalid, 0%nat)
        else
          match rest with
          | [] => (SuffixMore, 0%nat)
          | ch :: _ =>
              if negb (ch =? 10) then (SuffixInvalid, 0%nat)
              else ((if final then SuffixFinal else SuffixNormal), (start + pos + 2)%nat)
          end
    end.

Definition DelimiterSuffix (s : State) (start : nat) : Suffix * nat :=
  match drop start (buffer s) with
  | first :: rest =>
      if first =? char_code "-" then
        match rest with
        | [] => (SuffixMore, 0%nat)
        | second :: _ =>
            if negb (second =? char_code "-") then (SuffixInvalid, 0%nat) else AfterDashes s start true 2
        end
      else AfterDashes s start false 0
  | [] => AfterDashes s start false 0
  end.

Definition text_size (fields : Fields) : Z := fold_right (fun f n => len f.1 + len f.2 + n) 0 fields.

Definition EventBytes (event : MultipartEvent) : Z :=
  len (data event) + len (name event) + len (contentType event)
  + match filename event with None => 0 | Some text => len text end
  + text_size (headers event).

Notation ReadResult := (Result (option MultipartEvent)).

Definition Event (event : MultipartEvent) (consumed : nat) (s : State) : ReadResult * State :=
  let bytes := EventBytes event in
  let held := credit s in
  if maxRetainedBytes (options s) <? bytes then (Fail TooLarge, FailWith TooLarge s)
  else if size_sub (size_sub (maxRetainedBytes (options s)) held) (len (buffer s) - Z.of_nat consumed) <? bytes
  then (Fail WouldBlock, s)
  else (FromValue (Some event), set_buffer (drop consumed (buffer s)) (set_credit (held + bytes) s)).

Definition ReadData (count : nat) (s : State) : ReadResult * State :=
  let count := Nat.min count (Z.to_nat (maxEventBytes (options s))) in
  let limit := if file s then maxFileBytes (options s) else maxPartBytes (options s) in
  if size_sub limit (partBytes s) <? Z.of_nat count then (Fail TooLarge, FailWith TooLarge s)
  else
    let (result, s) := Event (PlainEvent Data (part s) (take count (buffer s))) count s in
    (result, if Result.IsOk result then add_part_bytes (Z.of_nat count) s else s).

(** The parameters of a Content-Disposition: the event with its name and file name. *)
Fixpoint Disposition (fields : Fields) (named : bool) (event : MultipartEvent) : option (bool * MultipartEvent) :=
  match fields with
  | [] => Some (named, event)
  | (key, text) :: fields =>
      if bytes_eqb key (txt "name") then
        Disposition fields true
          (MkEvent (kind event) (partIndex event) text (filename event) (contentType event) (headers event)
            (data event))
      else if bytes_eqb key (txt "filename") then
        Disposition fields named
          (MkEvent (kind event) (partIndex event) (name event) (Some text) (contentType event) (headers event)
            (data event))
      else if bytes_eqb key (txt "filename*") then None
      else Disposition fields named event
  end.

Definition set_content_type (value : list Z) (event : MultipartEvent) : MultipartEvent :=
  MkEvent (kind event) (partIndex event) (name event) (filename event) value (headers event) (data event).

Definition push_header (field : list Z * list Z) (event : MultipartEvent) : MultipartEvent :=
  MkEvent (kind event) (partIndex event) (name event) (filename event) (contentType event)
    (headers event ++ [field]) (data event).

(** One field of a part's head: the two locals and the event it leaves. *)
Definition HeaderField (key value : list Z) (disposition hasType : bool) (event : MultipartEvent)
    : Result (bool * bool * MultipartEvent) :=
  if bytes_eqb key (txt "content-disposition") then
    if disposition then Fail InvalidFormat
    else
      match Parameters value with
      | FromStatus status => FromStatus status
      | FromValue parsed =>
          if negb (bytes_eqb (main parsed) (txt "form-data")) then Fail InvalidFormat
          else
            match Disposition (parameters parsed) false event with
            | Some (true, event) => FromValue (true, hasType, event)
            | _ => Fail InvalidFormat
            end
      end
  else if bytes_eqb key (txt "content-type") then
    if hasType then Fail InvalidFormat else FromValue (disposition, true, set_content_type value event)
  else if bytes_eqb key (txt "content-transfer-encoding") then Fail InvalidFormat
  else FromValue (disposition, hasType, event).

(** One line a round; the length of the block is fuel enough. *)
Fixpoint HeadersLoop (fuel : nat) (limit : Z) (block : list Z) (disposition hasType : bool)
    (event : MultipartEvent) : Result MultipartEvent :=
  match block with
  | [] => if disposition then FromValue event else Fail InvalidFormat
  | _ =>
      match fuel with
      | O => Fail InvalidFormat
      | S fuel' =>
          let (line, rest) := cut_sub Crlf block in
          let block := match rest with None => [] | Some rest => rest end in
          match cut (char_code ":") line with
          | (_, None) => Fail InvalidFormat
          | (written, Some text) =>
              if negb (IsToken written) then Fail InvalidFormat
              else
                let key := LowerText written in
                let value := Trim text in
                if negb (ValidHeaderValue value) then Fail InvalidFormat
                else if len (headers event) =? limit then Fail TooLarge
                else
                  match HeaderField key value disposition hasType event with
                  | FromStatus status => FromStatus status
                  | FromValue (disposition, hasType, event) =>
                      HeadersLoop fuel' limit block disposition hasType (push_header (key, value) event)
                  end
          end
      end
  end.

Definition ParseHeaderBlock (s : State) (block : list Z) : Result MultipartEvent :=
  HeadersLoop (S (length block)) (maxHeaders (options s)) block false false
    (PlainEvent PartBegin (wrap64 (part s + 1)) []).

(** ** Reading *)

(** What a round of the inner loop does: it returns from [Read], breaks, or goes on. *)
Inductive Inner : Type :=
| InnerReturn (result : ReadResult) (s : State)
| InnerBreak (s : State)
| InnerNext (search : nat) (s : State).

Definition set_if_ok (result : ReadResult) (f : State -> State) (s : State) : State :=
  if Result.IsOk result then f s else s.

Definition PhaseAfter (suffix : Suffix) : Phase :=
  if bool_decide (suffix = SuffixFinal) then PhaseEpilogue else PhaseHeaders.

(** [buffer.find(delimiter, search)] *)
Definition FindDelimiter (s : State) (search : nat) : option nat :=
  match cut_sub (delimiter s) (drop search (buffer s)) with
  | (before, Some _) => Some (search + length before)%nat
  | (_, None) => None
  end.

Definition starting (s : State) : bool := bool_decide (phase s = PhaseInitial) && initialStart s.

(** The position of the next delimiter and its length: the marker at the very start, or the
    delimiter from [search] on. *)
Definition NextDelimiter (search : nat) (s : State) : option nat * nat :=
  if starting s && starts_with (marker s) (buffer s) then (Some 0%nat, length (marker s))
  else (FindDelimiter s search, length (delimiter s)).

Definition SearchRound (search : nat) (s : State) : Inner :=
  let initial := bool_decide (phase s = PhaseInitial) in
  if starting s && (length (buffer s) <? length (marker s))%nat && starts_with (buffer s) (marker s) then
    InnerBreak s
  else
    let (found, markerSize) := NextDelimiter search s in
    match found with
    | None =>
        let keep := (length (delimiter s) + 2)%nat in
        if (keep <? length (buffer s))%nat then
          let discard := (length (buffer s) - keep)%nat in
          if negb initial then let (result, s) := ReadData discard s in InnerReturn result s
          else InnerBreak (clear_start (set_buffer (drop discard (buffer s)) s))
        else InnerBreak s
    | Some at_ =>
        let (suffix, stop) := DelimiterSuffix s (at_ + markerSize) in
        if bool_decide (suffix = SuffixInvalid) then
          InnerNext (S at_) (if starting s && (at_ =? 0)%nat then clear_start s else s)
        else if negb (at_ =? 0)%nat then
          if negb initial then let (result, s) := ReadData at_ s in InnerReturn result s
          else InnerNext search (clear_start (set_buffer (drop at_ (buffer s)) s))
        else if bool_decide (suffix = SuffixMore) then InnerBreak s
        else if initial then
          InnerBreak (set_phase (PhaseAfter suffix) (clear_start (set_buffer (drop stop (buffer s)) s)))
        else
          let (result, s) := Event (PlainEvent PartEnd (part s) []) stop s in
          InnerReturn result (set_if_ok result (set_phase (PhaseAfter suffix)) s)
    end.

Fixpoint Search (fuel : nat) (search : nat) (s : State) : option Inner :=
  match fuel with
  | O => None
  | S fuel' =>
      match SearchRound search s with
      | InnerNext search s => Search fuel' search s
      | inner => Some inner
      end
  end.

Definition SearchFuel (s : State) : nat := 2 * length (buffer s) + 3.

(** The branch of [Phase::Headers]; [None]: more input is needed. *)
Definition ReadHeaders (s : State) : option (ReadResult * State) :=
  let (block, rest) := cut_sub (Crlf ++ Crlf) (buffer s) in
  let limit := maxHeaderBytes (options s) in
  match rest with
  | None => if limit <? len (buffer s) then Some (Fail TooLarge, FailWith TooLarge s) else None
  | Some _ =>
      Some (
        if limit <? len block + 4 then (Fail TooLarge, FailWith TooLarge s)
        else if part s =? maxParts (options s) then (Fail TooLarge, FailWith TooLarge s)
        else
          match ParseHeaderBlock s block with
          | FromStatus status => (FromStatus status, FailWith (Status.Code status) s)
          | FromValue event =>
              let nextFile := match filename event with None => false | Some _ => true end in
              if nextFile && (files s =? maxFiles (options s)) then (Fail TooLarge, FailWith TooLarge s)
              else
                let (result, s) := Event event (length block + 4) s in
                (result, set_if_ok result (begin_part nextFile) s)
          end)
  end.

(** The end of [Read]: no more to be made of the input. *)
Definition ReadEnd (s : State) : ReadResult * State :=
  if eof s then (Fail InvalidFormat, FailWith InvalidFormat s) else (Fail WouldBlock, s).

(** The outer loop: a round ends it, but for the one that finds the first delimiter. *)
Fixpoint ReadLoop (fuel : nat) (s : State) : option (ReadResult * State) :=
  match fuel with
  | O => None
  | S fuel' =>
      match phase s with
      | PhaseDone => Some (FromValue None, s)
      | PhaseEpilogue =>
          let s := set_buffer [] s in
          if eof s then Some (FromValue None, set_phase PhaseDone s) else Some (Fail WouldBlock, s)
      | PhaseHeaders =>
          match ReadHeaders s with
          | Some outcome => Some outcome
          | None => Some (ReadEnd s)
          end
      | before =>
          match Search (SearchFuel s) 0 s with
          | None => None
          | Some (InnerReturn result s) => Some (result, s)
          | Some (InnerBreak s) =>
              if bool_decide (before = PhaseInitial) && negb (bool_decide (phase s = PhaseInitial)) then
                ReadLoop fuel' s
              else Some (ReadEnd s)
          | Some (InnerNext _ _) => None
          end
      end
  end.

Definition Read (allocated : bool) (s : State) : option (ReadResult * State) :=
  if negb (bool_decide (error s = ErrorCode_Ok)) then Some (Fail (error s), s)
  else if negb allocated then Some (FromStatus Status.AllocationFailure, FailWith PlatformError s)
  else ReadLoop 2 s.

(** ** The parser *)

Definition OptionsValid (o : MultipartOptions) : bool :=
  negb ((maxParts o =? 0) || (maxFiles o =? 0) || (maxHeaders o =? 0) || (maxHeaderBytes o =? 0)
    || (maxPartBytes o =? 0) || (maxFileBytes o =? 0) || (maxTotalBytes o =? 0)
    || (maxEventBytes o =? 0) || (maxRetainedBytes o <? maxEventBytes o)
    || ((SIZE_MAX - 80) / 2 <? maxHeaderBytes o)
    || (maxRetainedBytes o <? maxHeaderBytes o * 2 + 80)).

(** The last parameter of that name; empty when there is none. *)
Definition BoundaryParameter (fields : Fields) : list Z :=
  fold_left (fun boundary f => if bytes_eqb f.1 (txt "boundary") then f.2 else boundary) fields [].

Definition Create (content : list Z) (o : MultipartOptions) : Result State :=
  if negb (OptionsValid o) then Fail InvalidArgument
  else if maxHeaderBytes o <? len content then Fail TooLarge
  else
    match Parameters content with
    | FromStatus status => FromStatus status
    | FromValue parsed =>
        if negb (bytes_eqb (main parsed) (txt "multipart/form-data")) then Fail InvalidFormat
        else
          let boundary := BoundaryParameter (parameters parsed) in
          if negb (Boundary boundary) then Fail InvalidFormat else FromValue (NewState boundary o)
    end.

Definition Feed (allocated : bool) (bytes : list Z) (s : State) : Result Z * State :=
  if negb (bool_decide (error s = ErrorCode_Ok)) then (Fail (error s), s)
  else if eof s then (Fail Closed, s)
  else if (length bytes =? 0)%nat then (FromValue 0, s)
  else if size_sub (maxTotalBytes (options s)) (total s) <? len bytes then
    (Fail TooLarge, FailWith TooLarge s)
  else
    let inputLimit := size_sub (maxRetainedBytes (options s)) (maxHeaderBytes (options s)) in
    let count := Z.min (len bytes) (Z.min (size_sub (maxRetainedBytes (options s)) (Retained s))
                   (size_sub inputLimit (len (buffer s)))) in
    if count =? 0 then (Fail WouldBlock, s)
    else if negb allocated then (FromStatus Status.AllocationFailure, FailWith PlatformError s)
    else (FromValue count, add_total count (set_buffer (buffer s ++ take (Z.to_nat count) bytes) s)).

Definition Finish (s : State) : Status * State :=
  if negb (bool_decide (error s = ErrorCode_Ok)) then (Status.FailWithoutMessage (error s), s)
  else (Status.Ok, set_eof s).

Definition Cancel (s : State) : State :=
  if negb (bool_decide (phase s = PhaseDone)) && bool_decide (error s = ErrorCode_Ok) then
    FailWith Cancelled s
  else s.

Definition RetainedBytes (s : State) : Z := Retained s.

(** The deleter of an event of that many bytes. *)
Definition ReleaseEvent (bytes : Z) (s : State) : State := set_credit (size_sub (credit s) bytes) s.

End Multipart.

Import Multipart.

(** ** Examples *)

Definition DefaultOptions : MultipartOptions :=
  MkOptions 128 32 32 (16 * 1024) (1024 * 1024) (64 * 1024 * 1024) (128 * 1024 * 1024) (256 * 1024)
    (32 * 1024).

(** Feed, Read until it asks for more, feed the rest, finish and read to the end; events are
    released as soon as they are returned. *)
Fixpoint ReadAll (fuel : nat) (s : State) : option (list MultipartEvent * ReadResult * State) :=
  match fuel with
  | O => None
  | S fuel' =>
      match Read true s with
      | Some (FromValue (Some event), s1) =>
          match ReadAll fuel' (ReleaseEvent (EventBytes event) s1) with
          | Some (events, result, s2) => Some (event :: events, result, s2)
          | None => None
          end
      | Some (result, s1) => Some ([], result, s1)
      | None => None
      end
  end.

(** The same body, in one piece and in two.  Its preamble starts with the marker, but not with a
    delimiter line; read in one piece, the delimiter line that follows is overlooked, since the
    position from which it is searched, [search], is behind it once the preamble has been erased. *)
Definition preamble_body : list Z :=
  txt "--ABC" ++ Crlf ++ txt "--AB" ++ Crlf ++ txt "Content-Disposition: form-data; name=x" ++ Crlf ++ Crlf
    ++ txt "v" ++ Crlf ++ txt "--AB--".

Definition preamble_parser : State := NewState (txt "AB") DefaultOptions.

Definition preamble_in_one : option ErrorCode :=
  let (_, s) := Feed true preamble_body preamble_parser in
  match ReadAll 10 (Finish s).2 with
  | Some (_, result, _) => Some (Result.code result)
  | None => None
  end.

Definition preamble_in_two : option (list MultipartEventKind * ErrorCode) :=
  let (_, s) := Feed true (take 9 preamble_body) preamble_parser in
  match ReadAll 10 s with
  | Some (_, _, s) =>
      let (_, s) := Feed true (drop 9 preamble_body) s in
      match ReadAll 10 (Finish s).2 with
      | Some (events, result, _) => Some (map kind events, Result.code result)
      | None => None
      end
  | None => None
  end.

(** What a body means depends on how it is cut into pieces, when its preamble starts with the
    marker. *)
Theorem preamble_depends_on_pieces :
  Create (txt "multipart/form-data; boundary=AB") DefaultOptions = FromValue preamble_parser /\
  preamble_in_one = Some InvalidFormat /\
  preamble_in_two = Some ([PartBegin; Data; PartEnd], ErrorCode_Ok).
Proof. vm_compute. done. Qed.

(** ** What the parser keeps within its limits *)

Definition SizeRange (n : Z) : Prop := 0 <= n < 2 ^ 64.

Record options_sized (o : MultipartOptions) : Prop := MkOptionsSized {
  sized_valid : OptionsValid o = true;
  sized_parts : SizeRange (maxParts o);
  sized_files : SizeRange (maxFiles o);
  sized_header_bytes : SizeRange (maxHeaderBytes o);
  sized_part_bytes : SizeRange (maxPartBytes o);
  sized_file_bytes : SizeRange (maxFileBytes o);
  sized_total_bytes : SizeRange (maxTotalBytes o);
  sized_retained : SizeRange (maxRetainedBytes o);
  sized_event_bytes : SizeRange (maxEventBytes o)
}.

Definition PartLimit (s : State) : Z :=
  if file s then maxFileBytes (options s) else maxPartBytes (options s).

Record parser_ok (s : State) : Prop := MkParserOk {
  ok_options : options_sized (options s);
  ok_marker : exists boundary, Boundary boundary = true /\ marker s = txt "--" ++ boundary;
  ok_delimiter : delimiter s = Crlf ++ marker s;
  ok_buffer : len (buffer s) <= maxRetainedBytes (options s) - maxHeaderBytes (options s);
  ok_credit : 0 <= credit s;
  ok_retained : Retained s <= maxRetainedBytes (options s);
  ok_total : 0 <= total s <= maxTotalBytes (options s);
  ok_part_bytes : 0 <= partBytes s <= PartLimit s;
  ok_part : 0 <= part s <= maxParts (options s);
  ok_files : 0 <= files s <= maxFiles (options s)
}.

Lemma options_limits o :
  options_sized o ->
  0 < maxHeaderBytes o /\ maxHeaderBytes o * 2 + 80 <= maxRetainedBytes o /\
  0 < maxEventBytes o <= maxRetainedBytes o /\ maxRetainedBytes o < 2 ^ 64 /\
  0 < maxParts o /\ 0 < maxFiles o /\ 0 < maxTotalBytes o.
Proof.
  intros [Hv H1 H2 H3 H4 H5 H6 H7 H8]. unfold OptionsValid, SizeRange in *.
  rewrite negb_true_iff, !orb_false_iff in Hv.
  destruct Hv as ((((((((((? & ?) & ?) & ?) & ?) & ?) & ?) & ?) & ?) & ?) & ?). lia.
Qed.

Lemma marker_length s : parser_ok s -> len (marker s) <= 72 /\ len (delimiter s) = len (marker s) + 2.
Proof.
  intros [_ (b & Hb & Hm) Hd _ _ _ _ _ _ _]. rewrite Hd, Hm. unfold Boundary in Hb.
  rewrite andb_true_iff, negb_true_iff, !orb_false_iff in Hb. rewrite !len_app.
  change (len (txt "--")) with 2. change (len Crlf) with 2. lia.
Qed.

Lemma event_bytes_nonneg e : 0 <= EventBytes e.
Proof.
  unfold EventBytes. pose proof (len_nonneg (data e)). pose proof (len_nonneg (name e)).
  pose proof (len_nonneg (contentType e)).
  assert (forall fs, 0 <= text_size fs) as Ht.
  { induction fs as [|f fs IH]; cbn; [lia|]. fold (text_size fs). pose proof (len_nonneg f.1).
    pose proof (len_nonneg f.2). lia. }
  specialize (Ht (headers e)). destruct (filename e) as [f|]; [pose proof (len_nonneg f)|]; lia.
Qed.

(** What a call of [Read] leaves: the limits, and the charge of the event it returned. *)
Definition event_charge (r : ReadResult) : Z :=
  match r with FromValue (Some e) => EventBytes e | _ => 0 end.

Record read_post (s : State) (r : ReadResult) (s' : State) : Prop := MkReadPost {
  post_ok : parser_ok s';
  post_options : options s' = options s;
  post_eof : eof s' = eof s;
  post_credit : credit s' = credit s + event_charge r;
  post_total : total s' = total s;
  post_error : error s = ErrorCode_Ok ->
    match r with
    | FromStatus st => Status.Code st <> ErrorCode_Ok /\
        error s' = (if bool_decide (Status.Code st = WouldBlock) then ErrorCode_Ok else Status.Code st)
    | FromValue e => error s' = ErrorCode_Ok /\
        match e with None => phase s' = PhaseDone | Some e => len (data e) <= maxEventBytes (options s) end
    end
}.

Lemma fail_ok code s : parser_ok s -> parser_ok (FailWith code s).
Proof.
  intros [H1 H2 H3 H4 H5 H6 H7 H8 H9 H10]. pose proof (options_limits _ H1).
  pose proof (len_nonneg (buffer s)).
  split; try done; unfold Retained in *; cbn [buffer options credit FailWith set_buffer set_error];
    change (len []) with 0; lia.
Qed.

Lemma shrink_ok b s : parser_ok s -> len b <= len (buffer s) -> parser_ok (set_buffer b s).
Proof.
  intros [H1 H2 H3 H4 H5 H6 H7 H8 H9 H10] Hb. split; try done; cbn; [lia|]. unfold Retained in *. cbn. lia.
Qed.

Lemma clear_start_ok s : parser_ok s -> parser_ok (clear_start s).
Proof. intros [H1 H2 H3 H4 H5 H6 H7 H8 H9 H10]. by split. Qed.

Lemma set_phase_ok p s : parser_ok s -> parser_ok (set_phase p s).
Proof. intros [H1 H2 H3 H4 H5 H6 H7 H8 H9 H10]. by split. Qed.

#[local] Create HintDb multipart.
#[local] Hint Resolve fail_ok shrink_ok clear_start_ok set_phase_ok : multipart.

Lemma len_drop_le {A} n (l : list A) : len (drop n l) <= len l.
Proof. unfold len. rewrite length_drop. lia. Qed.

#[local] Hint Resolve len_drop_le : multipart.

Lemma fail_post code s :
  parser_ok s -> code <> ErrorCode_Ok -> code <> WouldBlock -> read_post s (Fail code) (FailWith code s).
Proof.
  intros H Hc Hw. split; auto with multipart; cbn; [lia|]. intros _. cbn. split; [done|].
  by rewrite bool_decide_false.
Qed.

Lemma block_post s s' :
  parser_ok s' -> options s' = options s -> eof s' = eof s -> credit s' = credit s -> error s' = error s ->
  total s' = total s -> read_post s (Fail WouldBlock) s'.
Proof.
  intros H1 H2 H3 H4 H5 H6. split; try done; [cbn; lia|]. intros He. cbn. split; [done|].
  rewrite bool_decide_true by done. congruence.
Qed.

(** The three ways an event goes. *)
Lemma event_cases e consumed s :
  parser_ok s -> (consumed <= length (buffer s))%nat ->
  (maxRetainedBytes (options s) < EventBytes e /\ Event e consumed s = (Fail TooLarge, FailWith TooLarge s)) \/
  (EventBytes e <= maxRetainedBytes (options s) < EventBytes e + Retained s - Z.of_nat consumed /\
     Event e consumed s = (Fail WouldBlock, s)) \/
  (EventBytes e + Retained s - Z.of_nat consumed <= maxRetainedBytes (options s) /\
     Event e consumed s = (FromValue (Some e),
       set_buffer (drop consumed (buffer s)) (set_credit (credit s + EventBytes e) s))).
Proof.
  intros [H1 H2 H3 H4 H5 H6 H7 H8 H9 H10] Hc. pose proof (options_limits _ H1). unfold Event, Retained, len in *.
  rewrite (size_sub_le (maxRetainedBytes _)) by lia. rewrite size_sub_le by lia. case_if; [left; split; [lia|done]|].
  case_if; [right; left|right; right]; (split; [lia|done]).
Qed.

Lemma event_post e consumed s r s' :
  parser_ok s -> (consumed <= length (buffer s))%nat -> len (data e) <= maxEventBytes (options s) ->
  Event e consumed s = (r, s') ->
  read_post s r s' /\
  (Result.IsOk r = true -> r = FromValue (Some e) /\
     s' = set_buffer (drop consumed (buffer s)) (set_credit (credit s + EventBytes e) s)).
Proof.
  intros Hok Hc Hd H. destruct (event_cases e consumed s Hok Hc) as [[Hb He]|[[Hb He]|[Hb He]]];
    rewrite He in H; injection H as <- <-.
  - split; [by apply fail_post|done].
  - split; [by apply block_post|done].
  - split; [|done]. pose proof (event_bytes_nonneg e). destruct Hok as [H1 H2 H3 H4 H5 H6 H7 H8 H9 H10].
    split; try done. split; try done; cbn; unfold Retained, len in *; cbn; rewrite ?length_drop; lia.
Qed.

Lemma data_post count s r s' :
  parser_ok s -> (count <= length (buffer s))%nat -> ReadData count s = (r, s') -> read_post s r s'.
Proof.
  intros Hok Hc H. unfold ReadData in H. set (n := Nat.min count _) in H.
  pose proof Hok as [H1 H2 H3 H4 H5 H6 H7 H8 H9 H10]. pose proof (options_limits _ H1) as Hl.
  fold (PartLimit s) in H.
  assert (PartLimit s < 2 ^ 64) as Hp.
  { destruct H1. unfold PartLimit, SizeRange in *. destruct (file s); lia. }
  rewrite size_sub_le in H by lia. case_if_in H.
  { injection H as <- <-. by apply fail_post. }
  destruct (Event _ _ _) as [r1 s1] eqn:Ev. injection H as <- <-.
  apply event_post in Ev as [Hpost Hs1]; [|done|lia|].
  2:{ cbn. unfold len. rewrite length_take. lia. }
  destruct (Result.IsOk r1) eqn:Er; [|done]. destruct (Hs1 eq_refl) as [_ Hs1']. destruct Hpost as [P1 P2 P3 P4 Pt P5].
  split; try done. destruct P1 as [Q1 Q2 Q3 Q4 Q5 Q6 Q7 Q8 Q9 Q10]. split; try done. cbn. rewrite Hs1' in *. cbn in *.
  unfold PartLimit in *. cbn in *. unfold wrap64. rewrite Z.mod_small; lia.
Qed.

Lemma blank_span_le text : (BlankSpan text <= length text)%nat.
Proof. induction text as [|c text IH]; cbn; [lia|]. case_if; lia. Qed.

Lemma after_dashes_bounds s start final dashes suffix stop :
  AfterDashes s start final dashes = (suffix, stop) -> suffix = SuffixNormal \/ suffix = SuffixFinal ->
  (start + dashes <= length (buffer s))%nat -> (start <= stop <= length (buffer s))%nat.
Proof.
  intros H Hs Hd. unfold AfterDashes in H. pose proof (blank_span_le (drop dashes (drop start (buffer s)))) as Hb.
  rewrite !length_drop in Hb. set (pos := (dashes + BlankSpan _)%nat) in H. case_if_in H; [by destruct Hs as [-> | ->]|].
  destruct (drop pos (drop start (buffer s))) as [|c [|d rest]] eqn:Ed.
  - case_if_in H; injection H as <- <-; [lia|by destruct Hs].
  - case_if_in H; injection H as <- <-; by destruct Hs.
  - apply (f_equal length) in Ed. rewrite !length_drop in Ed. cbn in Ed.
    repeat case_if_in H; injection H as <- <-; try (by destruct Hs); lia.
Qed.

Lemma suffix_bounds s start suffix stop :
  DelimiterSuffix s start = (suffix, stop) -> suffix = SuffixNormal \/ suffix = SuffixFinal ->
  (start <= length (buffer s))%nat -> (start <= stop <= length (buffer s))%nat.
Proof.
  intros H Hs Hl. unfold DelimiterSuffix in H. destruct (drop start (buffer s)) as [|c [|d rest]] eqn:Ed.
  - eapply after_dashes_bounds; eauto. lia.
  - case_if_in H; [injection H as <- <-; by destruct Hs|]. eapply after_dashes_bounds; eauto. lia.
  - apply (f_equal length) in Ed. rewrite length_drop in Ed. cbn in Ed.
    repeat case_if_in H; try (injection H as <- <-; by destruct Hs);
      eapply after_dashes_bounds; eauto; lia.
Qed.

Lemma find_delimiter_bound s search n :
  delimiter s <> [] -> FindDelimiter s search = Some n ->
  (search <= n)%nat /\ (n + length (delimiter s) <= length (buffer s))%nat.
Proof.
  intros Hd H. unfold FindDelimiter in H. destruct (cut_sub _ _) as [before [rest|]] eqn:Ec; [|done].
  injection H as <-. apply cut_sub_length in Ec. rewrite length_drop in Ec.
  destruct (delimiter s); [done|]. cbn in *. lia.
Qed.

Lemma delimiter_not_nil s : parser_ok s -> delimiter s <> [].
Proof. intros H. rewrite (ok_delimiter _ H). done. Qed.

Lemma starts_with_length pat l : starts_with pat l = true -> (length pat <= length l)%nat.
Proof. intros [r ->]%starts_with_iff. rewrite length_app. lia. Qed.

(** A break leaves the parser within its limits, with the same charge. *)
Record break_post (s s' : State) : Prop := MkBreakPost {
  break_ok : parser_ok s';
  break_options : options s' = options s;
  break_eof : eof s' = eof s;
  break_credit : credit s' = credit s;
  break_error : error s' = error s;
  break_total : total s' = total s
}.

Definition inner_post (s : State) (i : Inner) : Prop :=
  match i with
  | InnerReturn r s' => read_post s r s'
  | InnerBreak s' => break_post s s'
  | InnerNext _ s' => break_post s s'
  end.

Lemma break_trans s s1 i : break_post s s1 -> inner_post s1 i -> inner_post s i.
Proof.
  intros [H1 H2 H3 H4 H5 H6] Hi. destruct i as [r s2|s2|n s2]; destruct Hi as [P1 P2 P3 P4 Pt P5];
    split; try done; try congruence.
  intros He. rewrite H5, H2 in P5. by apply P5.
Qed.

(** The rounds of the inner loop, case by case. *)
Inductive round_spec (search : nat) (s : State) : Inner -> Prop :=
| round_marker :
    starting s = true -> (length (buffer s) < length (marker s))%nat ->
    starts_with (buffer s) (marker s) = true -> round_spec search s (InnerBreak s)
| round_data n :
    NextDelimiter search s = (None, n) -> phase s <> PhaseInitial ->
    (length (delimiter s) + 2 < length (buffer s))%nat ->
    round_spec search s
      (let (r, s') := ReadData (length (buffer s) - (length (delimiter s) + 2)) s in InnerReturn r s')
| round_discard n :
    NextDelimiter search s = (None, n) -> phase s = PhaseInitial ->
    (length (delimiter s) + 2 < length (buffer s))%nat ->
    round_spec search s
      (InnerBreak (clear_start (set_buffer (drop (length (buffer s) - (length (delimiter s) + 2)) (buffer s)) s)))
| round_short n :
    NextDelimiter search s = (None, n) -> (length (buffer s) <= length (delimiter s) + 2)%nat ->
    round_spec search s (InnerBreak s)
| round_invalid at_ n stop :
    NextDelimiter search s = (Some at_, n) -> DelimiterSuffix s (at_ + n) = (SuffixInvalid, stop) ->
    round_spec search s (InnerNext (S at_) (if starting s && (at_ =? 0)%nat then clear_start s else s))
| round_before at_ n suffix stop :
    NextDelimiter search s = (Some at_, n) -> DelimiterSuffix s (at_ + n) = (suffix, stop) ->
    suffix <> SuffixInvalid -> at_ <> 0%nat -> phase s <> PhaseInitial ->
    round_spec search s (let (r, s') := ReadData at_ s in InnerReturn r s')
| round_erase at_ n suffix stop :
    NextDelimiter search s = (Some at_, n) -> DelimiterSuffix s (at_ + n) = (suffix, stop) ->
    suffix <> SuffixInvalid -> at_ <> 0%nat -> phase s = PhaseInitial ->
    round_spec search s (InnerNext search (clear_start (set_buffer (drop at_ (buffer s)) s)))
| round_more n stop :
    NextDelimiter search s = (Some 0%nat, n) -> DelimiterSuffix s n = (SuffixMore, stop) ->
    round_spec search s (InnerBreak s)
| round_first n suffix stop :
    NextDelimiter search s = (Some 0%nat, n) -> DelimiterSuffix s n = (suffix, stop) ->
    suffix = SuffixNormal \/ suffix = SuffixFinal -> phase s = PhaseInitial ->
    round_spec search s
      (InnerBreak (set_phase (PhaseAfter suffix) (clear_start (set_buffer (drop stop (buffer s)) s))))
| round_end n suffix stop :
    NextDelimiter search s = (Some 0%nat, n) -> DelimiterSuffix s n = (suffix, stop) ->
    suffix = SuffixNormal \/ suffix = SuffixFinal -> phase s <> PhaseInitial ->
    round_spec search s
      (let (r, s') := Event (PlainEvent PartEnd (part s) []) stop s in
       InnerReturn r (set_if_ok r (set_phase (PhaseAfter suffix)) s')).

Lemma round_cases search s : round_spec search s (SearchRound search s).
Proof.
  unfold SearchRound. case_if.
  { apply andb_prop in E as [[E1 E2]%andb_prop E3]. apply round_marker; [done|lia|done]. }
  clear E. destruct (NextDelimiter search s) as [[at_|] n] eqn:En.
  - destruct (DelimiterSuffix s (at_ + n)) as [suffix stop] eqn:Ed. case_bool_decide as Hi.
    { subst suffix. by eapply round_invalid. }
    destruct (Nat.eqb_spec at_ 0) as [-> |Hat]; cbn [negb].
    + case_bool_decide as Hm; [subst; by eapply round_more|].
      assert (suffix = SuffixNormal \/ suffix = SuffixFinal) as Hs by (destruct suffix; auto; done).
      case_bool_decide; [by eapply round_first|by eapply round_end].
    + case_bool_decide; cbn [negb]; [by eapply round_erase|by eapply round_before].
  - destruct (_ <? _)%nat eqn:El; [|eapply round_short; [done|lia]].
    case_bool_decide; cbn [negb]; [eapply round_discard; [done|done|lia]|eapply round_data; [done|done|lia]].
Qed.

Lemma next_delimiter_bound search s n m :
  parser_ok s -> NextDelimiter search s = (Some n, m) ->
  (n + m <= length (buffer s))%nat /\ (1 <= m)%nat /\
  ((starting s = true /\ starts_with (marker s) (buffer s) = true /\ n = 0%nat /\ m = length (marker s)) \/
   (starting s && starts_with (marker s) (buffer s) = false /\ FindDelimiter s search = Some n /\
    m = length (delimiter s) /\ (search <= n)%nat)).
Proof.
  intros Hok H. unfold NextDelimiter in H. pose proof (delimiter_not_nil _ Hok) as Hd. case_if_in H.
  - injection H as <- <-. apply andb_prop in E as [E1 E2]. pose proof (starts_with_length _ _ E2).
    destruct (ok_marker _ Hok) as (b & _ & Hm). assert (1 <= length (marker s))%nat by (rewrite Hm; cbn; lia).
    split_and!; [lia|done|]. by left.
  - injection H as H <-. destruct (find_delimiter_bound _ _ _ Hd H). 
    assert (1 <= length (delimiter s))%nat by (rewrite (ok_delimiter _ Hok); cbn; lia).
    split_and!; [lia|lia|]. right. split_and!; (done || lia).
Qed.

Lemma round_post search s : parser_ok s -> inner_post s (SearchRound search s).
Proof.
  intros Hok. destruct (round_cases search s) as [? ? ?|n Hn Hp Hl|n Hn Hp Hl|n Hn Hl|at_ n stop Hn Hs
    |at_ n suffix stop Hn Hs Hi Ha Hp|at_ n suffix stop Hn Hs Hi Ha Hp|n stop Hn Hs|n suffix stop Hn Hs Hx Hp
    |n suffix stop Hn Hs Hx Hp].
  - by split.
  - destruct (ReadData _ _) as [r s'] eqn:E. apply data_post in E; [done|done|lia].
  - split; auto with multipart.
  - by split.
  - case_if; split; auto with multipart.
  - destruct (ReadData _ _) as [r s'] eqn:E. apply next_delimiter_bound in Hn; [|done].
    apply data_post in E; [done|done|lia].
  - split; auto with multipart.
  - by split.
  - split; auto with multipart.
  - apply next_delimiter_bound in Hn as [Hn _]; [|done]. apply suffix_bounds in Hs; [|done|done].
    pose proof (options_limits _ (ok_options _ Hok)). destruct (Event _ _ _) as [r s'] eqn:E.
    apply event_post in E as [[P1 P2 P3 P4 Pt P5] Hv]; [|done|lia|change (len (data _)) with 0; lia].
    unfold set_if_ok. destruct (Result.IsOk r) eqn:Er; split; try done; auto with multipart.
    intros He. specialize (P5 He). destruct (Hv eq_refl) as [-> _]. done.
Qed.

(** The rounds that are left. *)
Definition rounds (search : nat) (s : State) : nat :=
  Nat.max 1 (2 * length (buffer s) + (if starting s then 1 else 0) + 2 - search).

Lemma search_total fuel search s :
  parser_ok s -> (rounds search s <= fuel)%nat ->
  (starting s = true -> starts_with (marker s) (buffer s) = true -> search = 0%nat) ->
  exists i, Search fuel search s = Some i /\ inner_post s i /\ (forall n s', i <> InnerNext n s').
Proof.
  revert search s. induction fuel as [|fuel IH]; intros search s Hok Hr Hm.
  { unfold rounds in Hr. lia. }
  cbn [Search]. pose proof (round_post search s Hok) as Hpost.
  destruct (SearchRound search s) as [r s'|s'|n s'] eqn:E; [by eexists|by eexists|].
  assert (rounds n s' <= fuel /\ (starting s' = true -> starts_with (marker s') (buffer s') = true -> n = 0))%nat as [H1 H2].
  { pose proof (round_cases search s) as Hc. rewrite E in Hc. unfold rounds in *.
    inversion Hc as [|n' Hn' Hp' Hl' Hr'| | |at_ n' stop Hn Hs|at_ n' suffix stop Hn Hs Hi Ha Hp|at_ n' suffix stop Hn Hs Hi Ha Hp
      | | |n' suffix stop Hn Hs Hx Hp]; subst.
    - destruct (ReadData _ _); done.
    - apply next_delimiter_bound in Hn as (Hb & Hn' & Hx); [|done]. destruct (starting s) eqn:Es; cbn [andb].
      + destruct Hx as [(_ & Hsw & -> & ->)|(Hsw & _ & -> & Hle)].
        * rewrite (Hm eq_refl Hsw) in Hr. cbn [Nat.eqb]. unfold starting in *. cbn [phase initialStart clear_start buffer].
          rewrite andb_false_r. split; [lia|done].
        * cbn [andb] in Hsw. destruct (at_ =? 0)%nat eqn:E0.
          { unfold starting. cbn [phase initialStart clear_start buffer]. rewrite andb_false_r. split; [lia|done]. }
          rewrite Es. split; [lia|]. intros _ Hsw'. congruence.
      + rewrite Es. destruct Hx as [(? & _)|(Hsw & _ & -> & Hle)]; [done|]. split; [lia|done].
    - destruct (ReadData _ _); done.
    - apply next_delimiter_bound in Hn as (Hb & Hn' & Hx); [|done].
      assert (n <= at_)%nat by (destruct Hx as [(_ & _ & ? & _)|(_ & _ & _ & ?)]; [done|lia]).
      unfold starting. cbn [phase initialStart clear_start set_buffer buffer].
      rewrite andb_false_r, length_drop. split; [destruct (starting s) in Hr; lia|done].
    - destruct (Event _ _ _); done. }
  destruct (IH n s' (break_ok _ _ Hpost) H1 H2) as (i & Hi & Hp & Hni). exists i. split_and!; [done| |done].
  by apply (break_trans _ _ _ Hpost).
Qed.

Lemma parameters_code input st : Parameters input = FromStatus st -> st = Status.FailWithoutMessage InvalidFormat.
Proof.
  unfold Parameters. destruct (cut _ _) as [front rest]. destruct (ParametersLoop _ _ _); [done|]. by intros [= <-].
Qed.

Lemma disposition_plain fields named e b e' :
  Disposition fields named e = Some (b, e') ->
  kind e' = kind e /\ partIndex e' = partIndex e /\ data e' = data e /\ headers e' = headers e /\
  contentType e' = contentType e.
Proof.
  revert named e. induction fields as [|[key text] fields IH]; intros named e H; cbn [Disposition] in H.
  - by injection H as <- <-.
  - repeat case_if_in H; try done; apply IH in H; exact H.
Qed.

Definition header_code (st : Status) : Prop :=
  st = Status.FailWithoutMessage InvalidFormat \/ st = Status.FailWithoutMessage TooLarge.

Lemma header_field_plain key value d t e :
  match HeaderField key value d t e with
  | FromStatus st => header_code st
  | FromValue (_, _, e') => kind e' = kind e /\ partIndex e' = partIndex e /\ data e' = data e /\ headers e' = headers e
  end.
Proof.
  unfold HeaderField. repeat case_if; try (by left); try done.
  - destruct (Parameters value) as [parsed|st] eqn:Ep; [|apply parameters_code in Ep as ->; by left].
    case_if; [by left|]. destruct (Disposition _ _ _) as [[[] e']|] eqn:Ed; try (by left).
    by apply disposition_plain in Ed as (? & ? & ? & ? & ?).
Qed.

Lemma headers_loop_plain fuel limit block d t e :
  match HeadersLoop fuel limit block d t e with
  | FromStatus st => header_code st
  | FromValue e' => kind e' = kind e /\ partIndex e' = partIndex e /\ data e' = data e
  end.
Proof.
  revert block d t e. induction fuel as [|fuel IH]; intros block d t e.
  { cbn. destruct block; [destruct d; [done|by left]|by left]. }
  cbn [HeadersLoop]. destruct block as [|c block]; [destruct d; [done|by left]|].
  destruct (cut_sub Crlf (c :: block)) as [line rest]. destruct (cut _ line) as [written [text|]]; [|by left].
  case_if; [by left|]. case_if; [by left|]. case_if; [by right|].
  pose proof (header_field_plain (LowerText written) (Trim text) d t e) as Hf.
  destruct (HeaderField _ _ _ _ _) as [[[d1 t1] e1]|st]; [|done]. destruct Hf as (H1 & H2 & H3 & H4).
  specialize (IH (match rest with None => [] | Some rest => rest end) d1 t1 (push_header (LowerText written, Trim text) e1)).
  destruct (HeadersLoop _ _ _ _ _ _); [|done]. cbn in IH. destruct IH as (I1 & I2 & I3). split_and!; congruence.
Qed.

Lemma status_fail_post st s :
  parser_ok s -> header_code st -> read_post s (FromStatus st) (FailWith (Status.Code st) s).
Proof. intros Hok [-> | ->]; by apply fail_post. Qed.

Lemma cut_sub_block pat l a rest : cut_sub pat l = (a, Some rest) -> (length a + length pat <= length l)%nat.
Proof. intros H. apply cut_sub_length in H. lia. Qed.

Lemma read_headers_post s r s' :
  parser_ok s -> ReadHeaders s = Some (r, s') -> read_post s r s'.
Proof.
  intros Hok H. unfold ReadHeaders in H. destruct (cut_sub _ _) as [block [rest|]] eqn:Ec.
  2:{ case_if_in H; [|done]. injection H as <- <-. by apply fail_post. }
  apply cut_sub_block in Ec. injection H as H. pose proof (options_limits _ (ok_options _ Hok)) as Hl.
  case_if_in H; [injection H as <- <-; by apply fail_post|].
  case_if_in H; [injection H as <- <-; by apply fail_post|].
  pose proof (headers_loop_plain (S (length block)) (maxHeaders (options s)) block false false
    (PlainEvent PartBegin (wrap64 (part s + 1)) [])) as Hp. fold (ParseHeaderBlock s block) in Hp.
  destruct (ParseHeaderBlock s block) as [e|st]; [|injection H as <- <-; by apply status_fail_post].
  destruct Hp as (_ & _ & Hd). set (nextFile := match filename e with None => false | Some _ => true end) in H.
  case_if_in H; [injection H as <- <-; by apply fail_post|].
  destruct (Event e _ s) as [r1 s1] eqn:Ev. injection H as <- <-.
  apply event_post in Ev as [[P1 P2 P3 P4 Pt P5] Hv]; [|done|cbn in Ec; lia|rewrite Hd; change (len (data _)) with 0; lia].
  unfold set_if_ok. destruct (Result.IsOk r1) eqn:Er; [|done]. destruct (Hv eq_refl) as [-> Hs1].
  split; try done. destruct P1 as [Q1 Q2 Q3 Q4 Q5 Q6 Q7 Q8 Q9 Q10]. destruct Q1 as [V1 V2 V3 V4 V5 V6 V7 V8 V9].
  unfold SizeRange in *. split; try done; cbn.
  - rewrite P2 in *. subst s1. cbn in *. unfold PartLimit. cbn. destruct nextFile; lia.
  - rewrite Hs1 in *. cbn in *. unfold wrap64. rewrite Z.mod_small; lia.
  - rewrite Hs1 in *. cbn in *. destruct nextFile; [|lia]. cbn in E1. unfold wrap64. rewrite Z.mod_small; lia.
Qed.

Lemma read_end_post s s' r s'' : break_post s s' -> ReadEnd s' = (r, s'') -> read_post s r s''.
Proof.
  intros [H1 H2 H3 H4 H5 H6] H. unfold ReadEnd in H. case_if_in H; injection H as <- <-.
  - pose proof (fail_post InvalidFormat s' H1 ltac:(done) ltac:(done)) as [P1 P2 P3 P4 Pt P5].
    split; [done|congruence..|]. intros He. rewrite H5 in P5. by apply P5.
  - apply block_post; congruence.
Qed.

Lemma read_loop_searching fuel s :
  phase s = PhaseInitial \/ phase s = PhaseBody ->
  ReadLoop (S fuel) s =
    match Search (SearchFuel s) 0 s with
    | None => None
    | Some (InnerReturn result s) => Some (result, s)
    | Some (InnerBreak s') =>
        if bool_decide (phase s = PhaseInitial) && negb (bool_decide (phase s' = PhaseInitial)) then ReadLoop fuel s'
        else Some (ReadEnd s')
    | Some (InnerNext _ _) => None
    end.
Proof. intros [H|H]; cbn [ReadLoop]; by rewrite H. Qed.

Lemma search_start s :
  parser_ok s -> exists i, Search (SearchFuel s) 0 s = Some i /\ inner_post s i /\ (forall n s', i <> InnerNext n s').
Proof.
  intros Hok. apply search_total; [done| |done]. unfold rounds, SearchFuel. destruct (starting s); lia.
Qed.

(** Where a break in the first phase leads to: the same phase, or one that ends the outer loop. *)
Lemma search_break_phase fuel search s s' :
  Search fuel search s = Some (InnerBreak s') ->
  phase s' = phase s \/ (phase s = PhaseInitial /\ (phase s' = PhaseHeaders \/ phase s' = PhaseEpilogue)).
Proof.
  revert search s. induction fuel as [|fuel IH]; intros search s H; [done|]. cbn [Search] in H.
  pose proof (round_cases search s) as Hc.
  destruct (SearchRound search s) as [r s1|s1|n s1]; [done|injection H as <-|].
  - inversion Hc; subst; try (by left); try (destruct (ReadData _ _); done); try (destruct (Event _ _ _); done).
    right. split; [done|]. cbn. unfold PhaseAfter. case_bool_decide; auto.
  - apply IH in H. assert (phase s1 = phase s) as Hp; [|by rewrite Hp in H].
    inversion Hc; subst; try done; try (destruct (ReadData _ _); done); try (destruct (Event _ _ _); done).
    by case_if.
Qed.

Lemma read_loop_total fuel s :
  parser_ok s -> (if bool_decide (phase s = PhaseInitial) then 2 <= fuel else 1 <= fuel)%nat ->
  exists r s', ReadLoop fuel s = Some (r, s') /\ read_post s r s'.
Proof.
  revert s. induction fuel as [|fuel IH]; intros s Hok Hf; [case_bool_decide; lia|].
  destruct (phase s) eqn:Ep.
  - rewrite read_loop_searching by auto. destruct (search_start s Hok) as (i & Hi & Hpost & Hn). rewrite Hi.
    destruct i as [r s'|s'|n s']; [by eexists _, _|..]; [|by destruct (Hn n s')].
    case_if; [|destruct (ReadEnd s') as [r s2] eqn:Er; eexists _, _; split; [done|by eapply read_end_post]].
    apply andb_prop in E as [_ E]. rewrite negb_true_iff, bool_decide_eq_false in E.
    destruct Hpost as [H1 H2 H3 H4 H5 H6].
    destruct (IH s' H1) as (r & s2 & Hr & [P1 P2 P3 P4 Pt P5]).
    { rewrite bool_decide_true in Hf by done. rewrite bool_decide_false by done. lia. }
    exists r, s2. split; [done|]. split; [done|congruence..|]. intros He. rewrite H5, H2 in P5. by apply P5.
  - cbn [ReadLoop]. rewrite Ep. destruct (ReadHeaders s) as [[r s']|] eqn:Eh.
    + eexists _, _. split; [done|]. by apply read_headers_post.
    + destruct (ReadEnd s) as [r s2] eqn:Er. eexists _, _. split; [done|]. eapply read_end_post; [|done]. by split.
  - rewrite read_loop_searching by auto. destruct (search_start s Hok) as (i & Hi & Hpost & Hn). rewrite Hi.
    destruct i as [r s'|s'|n s']; [by eexists _, _|..]; [|by destruct (Hn n s')].
    rewrite Ep. cbn [bool_decide andb]. rewrite bool_decide_false by done. cbn [andb].
    destruct (ReadEnd s') as [r s2] eqn:Er; eexists _, _; split; [done|by eapply read_end_post].
  - cbn [ReadLoop]. rewrite Ep.
    assert (parser_ok (set_buffer [] s)) as Hok' by (apply shrink_ok; [done|apply len_nonneg]).
    case_if; eexists _, _; (split; [done|]).
    + split; try done; [by apply set_phase_ok|cbn; lia].
    + by apply block_post.
  - cbn [ReadLoop]. rewrite Ep. eexists _, _. split; [done|]. split; try done. cbn. lia.
Qed.

(** Every call of [Read] returns, within the limits. *)
Lemma read_total allocated s :
  parser_ok s -> exists r s', Read allocated s = Some (r, s') /\ read_post s r s'.
Proof.
  intros Hok. unfold Read. case_bool_decide as He; cbn [negb].
  - destruct allocated; cbn [negb].
    + apply read_loop_total; [done|]. case_bool_decide; lia.
    + eexists _, _. split; [done|]. by apply (fail_post PlatformError).
  - eexists _, _. split; [done|]. split; try done. cbn. lia.
Qed.

(** ** The size of a head event *)

Lemma trim_front_len v : len (RequestData.TrimFront v) <= len v.
Proof. induction v as [|c v IH]; cbn; [done|]. case_if; unfold len in *; cbn in *; lia. Qed.

Lemma trim_len v : len (Trim v) <= len v.
Proof.
  unfold Trim, RequestData.Trim. pose proof (trim_front_len (rev (RequestData.TrimFront v))).
  pose proof (trim_front_len v). unfold len in *. rewrite !length_rev in *. lia.
Qed.

Lemma lower_text_len v : len (LowerText v) = len v.
Proof. unfold len, LowerText. by rewrite length_map. Qed.

Lemma cut_len c l :
  match cut c l with
  | (a, Some rest) => len l = len a + 1 + len rest
  | (a, None) => len l = len a
  end.
Proof.
  pose proof (cut_inv c l) as H. destruct (cut c l) as [a [rest|]]; subst; [|done].
  unfold len. rewrite length_app. cbn. lia.
Qed.

Lemma quoted_value_len input value v rest :
  QuotedValue input value = Some (v, rest) -> len v + len rest <= len value + len input.
Proof.
  enough (forall n input value, (length input <= n)%nat -> QuotedValue input value = Some (v, rest) ->
    len v + len rest <= len value + len input) as H by (by apply (H (length input))).
  clear. induction n as [|n IH]; intros [|c input] value Hn H; cbn [QuotedValue] in H; try done; [cbn in Hn; lia|].
  unfold len in *. cbn [length] in *. case_if_in H; [injection H as <- <-; lia|]. case_if_in H.
  - destruct input as [|d input]; [done|]. apply IH in H; [|cbn in Hn; lia]. rewrite length_app in H. cbn in *. lia.
  - apply IH in H; [|lia]. rewrite length_app in H. cbn in *. lia.
Qed.

Lemma parameter_value_len input v rest : ParameterValue input = Some (v, rest) -> len v + len rest <= len input.
Proof.
  intros H. unfold ParameterValue in H. destruct input as [|c input].
  { cbn in H. done. }
  destruct (c =? 34) eqn:Ec.
  - destruct (QuotedValue input []) as [[v1 r1]|] eqn:Eq; [|done]. apply quoted_value_len in Eq.
    pose proof (trim_len r1) as Ht. unfold len in *. cbn [length] in *.
    destruct (Trim r1) as [|d r2]; [injection H as <- <-; cbn in *; lia|]. case_if_in H; [done|].
    injection H as <- <-. cbn [length] in Ht. lia.
  - pose proof (cut_len (char_code ";") (c :: input)) as Hc. destruct (cut _ _) as [piece next].
    pose proof (trim_len piece). case_if_in H; [done|]. destruct next as [rest1|].
    + case_if_in H; [done|]. injection H as <- <-. lia.
    + injection H as <- <-. unfold len in *. cbn in *. lia.
Qed.

Lemma text_size_app a b : text_size (a ++ b) = text_size a + text_size b.
Proof. induction a as [|f a IH]; cbn; [done|]. fold (text_size (a ++ b)) (text_size a). lia. Qed.

Lemma parameters_loop_size fuel input acc fs :
  ParametersLoop fuel input acc = Some fs -> text_size fs <= text_size acc + len input.
Proof.
  revert input acc. induction fuel as [|fuel IH]; intros [|c input] acc H; cbn [ParametersLoop] in H; try done;
    [injection H as <-; pose proof (len_nonneg (@nil Z)); lia..|].
  pose proof (cut_len (char_code "=") (Trim (c :: input))) as Hc. pose proof (trim_len (c :: input)).
  destruct (cut _ _) as [front [rest|]]; [|done]. case_if_in H; [done|].
  destruct (ParameterValue (Trim rest)) as [[v r]|] eqn:Ev; [|done]. case_if_in H; [done|].
  apply parameter_value_len in Ev. apply IH in H. rewrite text_size_app in H. cbn [text_size fold_right fst snd] in H.
  rewrite lower_text_len in H. pose proof (trim_len front). pose proof (trim_len rest). lia.
Qed.

Lemma parameters_size input p : Parameters input = FromValue p -> text_size (parameters p) <= len input.
Proof.
  unfold Parameters. intros H. pose proof (cut_len (char_code ";") input) as Hc. destruct (cut _ _) as [front rest].
  destruct (ParametersLoop _ _ _) as [fs|] eqn:El; [|done]. injection H as <-. apply parameters_loop_size in El.
  pose proof (len_nonneg front). change (text_size []) with 0 in El. cbn [parameters].
  destruct rest as [rest|]; [lia|change (len []) with 0 in El; lia].
Qed.

(** The name and the file name. *)
Definition names_size (e : MultipartEvent) : Z :=
  len (name e) + match filename e with None => 0 | Some text => len text end.

Lemma names_size_nonneg e : 0 <= names_size e.
Proof. unfold names_size. pose proof (len_nonneg (name e)). destruct (filename e) as [f|]; [pose proof (len_nonneg f)|]; lia. Qed.

Lemma disposition_size fields named e b e' :
  Disposition fields named e = Some (b, e') -> names_size e' <= names_size e + text_size fields.
Proof.
  revert named e. induction fields as [|[key text] fields IH]; intros named e H; cbn [Disposition] in H.
  - injection H as <- <-. cbn. lia.
  - cbn [text_size fold_right fst snd]. fold (text_size fields). pose proof (len_nonneg key). pose proof (len_nonneg text).
    pose proof (names_size_nonneg e) as Hn. pose proof (len_nonneg (name e)). unfold names_size in *.
    repeat case_if_in H; try done; apply IH in H; cbn [name filename] in H;
      destruct (filename e) as [f|]; try pose proof (len_nonneg f); lia.
Qed.

(** What one field adds to the event, beside itself. *)
Definition fresh_event (d t : bool) (e : MultipartEvent) : Prop :=
  (d = false -> names_size e = 0) /\ (t = false -> len (contentType e) = 0).

Lemma header_field_size key value d t e d' t' e' :
  fresh_event d t e -> HeaderField key value d t e = FromValue (d', t', e') ->
  fresh_event d' t' e' /\ names_size e' + len (contentType e') <= names_size e + len (contentType e) + len value /\
  headers e' = headers e /\ data e' = data e.
Proof.
  intros [F1 F2] H. unfold HeaderField in H. pose proof (len_nonneg value). case_if_in H.
  - destruct d; [done|]. destruct (Parameters value) as [p|] eqn:Ep; [|done]. apply parameters_size in Ep.
    case_if_in H; [done|]. destruct (Disposition _ _ _) as [[[] e1]|] eqn:Ed; try done.
    injection H as <- <- <-. pose proof (disposition_size _ _ _ _ _ Ed) as Hs.
    destruct (disposition_plain _ _ _ _ _ Ed) as (_ & _ & H3 & H4 & H5). rewrite H5.
    split_and!; [|lia|done|done]. split; [done|]. by rewrite H5.
  - case_if_in H.
    + destruct t; [done|]. injection H as <- <- <-. cbn [contentType set_content_type headers data].
      change (names_size (set_content_type value e)) with (names_size e). rewrite F2 by done.
      split_and!; [by split|lia|done|done].
    + case_if_in H; [done|]. injection H as <- <- <-. split_and!; try done. lia.
Qed.

Lemma headers_loop_size fuel limit block d t e e' :
  fresh_event d t e -> HeadersLoop fuel limit block d t e = FromValue e' ->
  EventBytes e' <= EventBytes e + 2 * len block.
Proof.
  revert block d t e. induction fuel as [|fuel IH]; intros block d t e Hf H; destruct block as [|c block];
    cbn [HeadersLoop] in H; try done;
    try (destruct d; [|done]; injection H as <-; change (len []) with 0; lia).
  pose proof (cut_sub_inv Crlf (c :: block)) as Hi. destruct (cut_sub Crlf (c :: block)) as [line rest].
  pose proof (cut_len (char_code ":") line) as Hc. destruct (cut _ line) as [written [text|]]; [|done].
  case_if_in H; [done|]. case_if_in H; [done|]. case_if_in H; [done|].
  destruct (HeaderField _ _ _ _ _) as [[[d1 t1] e1]|] eqn:Eh; [|done].
  apply header_field_size in Eh as (Hf1 & Hs & Hh & Hd); [|done]. apply IH in H; [|done].
  unfold EventBytes, names_size in *. cbn [push_header data name contentType filename headers] in H.
  rewrite text_size_app, Hh, Hd in H. cbn [text_size fold_right fst snd] in H. rewrite lower_text_len in H.
  pose proof (trim_len text). pose proof (len_nonneg written).
  assert (len line + len (match rest with None => [] | Some rest => rest end) <= len (c :: block)) as Hl.
  { destruct rest as [rest|]; rewrite Hi, ?len_app; [pose proof (len_nonneg Crlf)|change (len []) with 0]; lia. }
  destruct (filename e1), (filename e); lia.
Qed.

Lemma header_block_size s block e : ParseHeaderBlock s block = FromValue e -> EventBytes e <= 2 * len block.
Proof. intros H. apply headers_loop_size in H; [done|by split]. Qed.

(** ** Calls in any order *)

(** The parser and the events the caller still holds. *)
Record World : Type := MkWorld { parser : State; held : list MultipartEvent }.

Inductive Call : Type :=
| CallFeed (allocated : bool) (bytes : list Z)
| CallRead (allocated : bool)
| CallFinish
| CallCancel
| CallRelease (index : nat).

Definition Step (call : Call) (w : World) : option World :=
  match call with
  | CallFeed allocated bytes => Some (MkWorld (Feed allocated bytes (parser w)).2 (held w))
  | CallRead allocated =>
      match Read allocated (parser w) with
      | Some (FromValue (Some event), s) => Some (MkWorld s (held w ++ [event]))
      | Some (_, s) => Some (MkWorld s (held w))
      | None => None
      end
  | CallFinish => Some (MkWorld (Finish (parser w)).2 (held w))
  | CallCancel => Some (MkWorld (Cancel (parser w)) (held w))
  | CallRelease index =>
      match held w !! index with
      | Some event => Some (MkWorld (ReleaseEvent (EventBytes event) (parser w)) (delete index (held w)))
      | None => Some w
      end
  end.

Fixpoint Steps (calls : list Call) (w : World) : option World :=
  match calls with
  | [] => Some w
  | call :: calls => match Step call w with Some w => Steps calls w | None => None end
  end.

Definition held_bytes (events : list MultipartEvent) : Z := fold_right (fun e n => EventBytes e + n) 0 events.

Record world_ok (o : MultipartOptions) (w : World) : Prop := MkWorldOk {
  world_parser : parser_ok (parser w);
  world_options : options (parser w) = o;
  world_credit : credit (parser w) = held_bytes (held w);
  world_events : Forall (fun e => len (data e) <= maxEventBytes o) (held w);
  world_error : error (parser w) <> WouldBlock
}.

Lemma held_bytes_app a b : held_bytes (a ++ b) = held_bytes a + held_bytes b.
Proof. induction a as [|e a IH]; cbn; [done|]. fold (held_bytes (a ++ b)) (held_bytes a). lia. Qed.

Lemma held_bytes_nonneg l : 0 <= held_bytes l.
Proof. induction l as [|e l IH]; cbn; [lia|]. fold (held_bytes l). pose proof (event_bytes_nonneg e). lia. Qed.

Lemma held_bytes_delete l i e : l !! i = Some e -> held_bytes l = EventBytes e + held_bytes (delete i l).
Proof.
  intros H. rewrite delete_take_drop, held_bytes_app. rewrite <- (take_drop_middle l i e H) at 1.
  rewrite held_bytes_app. cbn. fold (held_bytes (drop (S i) l)). lia.
Qed.

(** What [Feed] accepts is a prefix, and as much as there is room for. *)
Lemma feed_cases allocated bytes s r s' :
  parser_ok s -> Feed allocated bytes s = (r, s') ->
  (exists code, r = FromStatus code /\ (s' = s \/ (Status.Code code <> WouldBlock /\ s' = FailWith (Status.Code code) s))) \/
  (exists n, r = FromValue n /\ 0 <= n <= len bytes /\ total s + n <= maxTotalBytes (options s) /\
     n <= maxRetainedBytes (options s) - Retained s /\
     n <= maxRetainedBytes (options s) - maxHeaderBytes (options s) - len (buffer s) /\
     s' = add_total n (set_buffer (buffer s ++ take (Z.to_nat n) bytes) s)).
Proof.
  intros [H1 H2 H3 H4 H5 H6 H7 H8 H9 H10] H. pose proof (options_limits _ H1) as Hl. destruct H1.
  unfold SizeRange in *. unfold Feed in H. pose proof (len_nonneg (buffer s)). pose proof (len_nonneg bytes).
  unfold Retained in *. rewrite (size_sub_le (maxRetainedBytes _) (maxHeaderBytes _)) in H by lia.
  rewrite !size_sub_le in H by lia. case_bool_decide as He; cbn [negb] in H.
  2:{ injection H as <- <-. left. eexists. split; [done|by left]. }
  case_if_in H; [injection H as <- <-; left; eexists; split; [done|by left]|].
  case_if_in H.
  { injection H as <- <-. right. exists 0. split_and!; try lia; [done|]. cbn. rewrite app_nil_r.
    unfold add_total, set_buffer, wrap64. cbn. rewrite Z.add_0_r, Z.mod_small by lia. by destruct s. }
  case_if_in H; [injection H as <- <-; left; eexists; split; [done|by right]|].
  case_if_in H; [injection H as <- <-; left; eexists; split; [done|by left]|].
  destruct allocated; cbn [negb] in H; injection H as <- <-; [|left; eexists; split; [done|by right]].
  right. eexists. split_and!; [done|..|done]; lia.
Qed.

Lemma step_ok o call w : world_ok o w -> exists w', Step call w = Some w' /\ world_ok o w'.
Proof.
  intros [W1 W2 W3 W4 W5]. destruct call as [al bytes|al| | |i]; cbn [Step].
  - eexists. split; [done|]. destruct (Feed al bytes (parser w)) as [r s'] eqn:E.
    apply feed_cases in E as [(code & _ & [-> |[Hcode ->]])|(n & _ & Hn & Ht & Hr & Hb & ->)]; [by split| |..|done].
    + split; try done. by apply fail_ok.
    + split; try done. destruct W1 as [Q1 Q2 Q3 Q4 Q5 Q6 Q7 Q8 Q9 Q10]. destruct (options_limits _ Q1), Q1.
      unfold SizeRange, Retained, wrap64, len in *.
      split; try done; cbn; unfold Retained, len, wrap64; cbn; rewrite ?length_app, ?length_take;
        rewrite ?Z.mod_small; lia.
  - destruct (decide (error (parser w) = ErrorCode_Ok)) as [He|He].
    + destruct (read_total al (parser w) W1) as (r & s' & -> & [P1 P2 P3 P4 Pt P5]). specialize (P5 He).
      destruct r as [[e|]|st]; (eexists; split; [done|]); split; cbn [parser held]; try done; try congruence;
        cbn [event_charge] in P4; rewrite ?P4, ?W3; try lia.
      * rewrite held_bytes_app. cbn. lia.
      * apply Forall_app. split; [done|]. constructor; [|done]. rewrite <- W2. apply P5.
      * by destruct P5 as [-> _].
      * by destruct P5 as [-> _].
      * destruct P5 as [_ ->]. by case_bool_decide.
    + unfold Read. rewrite bool_decide_false by done. eexists. split; [done|]. by split.
  - eexists. split; [done|]. unfold Finish. case_if; [by split|]. destruct W1. by split.
  - eexists. split; [done|]. unfold Cancel. case_if; [|by split]. split; try done. by apply fail_ok.
  - destruct (held w !! i) as [e|] eqn:Ei; [|by eexists]. eexists. split; [done|].
    pose proof (held_bytes_delete _ _ _ Ei). pose proof (held_bytes_nonneg (delete i (held w))).
    pose proof (event_bytes_nonneg e). destruct W1 as [Q1 Q2 Q3 Q4 Q5 Q6 Q7 Q8 Q9 Q10].
    pose proof (options_limits _ Q1). pose proof (len_nonneg (buffer (parser w))). unfold Retained in *.
    split; cbn [parser held ReleaseEvent set_credit credit options];
      [|done|rewrite size_sub_le; lia|by apply Forall_delete|done].
    split; try done; unfold Retained; cbn [ReleaseEvent set_credit credit options buffer]; rewrite size_sub_le; lia.
Qed.

Lemma steps_ok o calls w : world_ok o w -> exists w', Steps calls w = Some w' /\ world_ok o w'.
Proof.
  revert w. induction calls as [|call calls IH]; intros w Hw; [by eexists|]. cbn [Steps].
  destruct (step_ok o call w Hw) as (w1 & -> & Hw1). by apply IH.
Qed.

Lemma new_state_ok boundary o : options_sized o -> Boundary boundary = true -> parser_ok (NewState boundary o).
Proof.
  intros Ho Hb. pose proof (options_limits _ Ho). pose proof (sized_part_bytes _ Ho) as Hp. unfold SizeRange in Hp.
  split; try done; unfold Retained, PartLimit; cbn [NewState options buffer credit total partBytes part files file];
    change (len []) with 0; try lia. by eexists.
Qed.

Lemma created_ok content o s : options_sized o -> Create content o = FromValue s -> world_ok o (MkWorld s []).
Proof.
  intros Ho H. unfold Create in H. case_if_in H; [done|]. case_if_in H; [done|].
  destruct (Parameters content) as [p|]; [|done]. case_if_in H; [done|].
  destruct (Boundary (BoundaryParameter (parameters p))) eqn:Eb; [|done]. injection H as <-.
  split; cbn [parser held]; try done. by apply new_state_ok.
Qed.

(** Whatever a client sends and however the calls follow each other, every call of the multipart
    parser returns and the limits hold: the bytes retained are those of the unread input and of the
    events not yet released, and are at most maxRetainedBytes; the input leaves room for one head;
    the total, the parts, the files and the bytes of the current part are within their limits, and so
    is the payload of every event. *)
Theorem multipart_bounded content o s calls :
  options_sized o -> Create content o = FromValue s ->
  exists w, Steps calls (MkWorld s []) = Some w /\
    RetainedBytes (parser w) = len (buffer (parser w)) + held_bytes (held w) /\
    RetainedBytes (parser w) <= maxRetainedBytes o /\
    len (buffer (parser w)) + maxHeaderBytes o <= maxRetainedBytes o /\
    total (parser w) <= maxTotalBytes o /\ part (parser w) <= maxParts o /\ files (parser w) <= maxFiles o /\
    partBytes (parser w) <= (if file (parser w) then maxFileBytes o else maxPartBytes o) /\
    Forall (fun e => len (data e) <= maxEventBytes o) (held w).
Proof.
  intros Ho Hs. destruct (steps_ok o calls _ (created_ok _ _ _ Ho Hs)) as (w & Hw & [W1 W2 W3 W4 _]).
  exists w. destruct W1 as [Q1 Q2 Q3 Q4 Q5 Q6 Q7 Q8 Q9 Q10]. unfold PartLimit in Q8. rewrite W2 in *.
  unfold RetainedBytes. split_and!; try done; try lia. unfold Retained. by rewrite W3.
Qed.

Lemma default_options_sized : options_sized DefaultOptions.
Proof. by repeat split. Qed.

Lemma multipart_bounded_witness :
  exists w, Steps [CallFeed true preamble_body; CallRead true; CallFinish; CallRead true; CallCancel] (MkWorld preamble_parser []) = Some w /\
    RetainedBytes (parser w) = len (buffer (parser w)) + held_bytes (held w) /\
    RetainedBytes (parser w) <= maxRetainedBytes DefaultOptions /\
    len (buffer (parser w)) + maxHeaderBytes DefaultOptions <= maxRetainedBytes DefaultOptions /\
    total (parser w) <= maxTotalBytes DefaultOptions /\ part (parser w) <= maxParts DefaultOptions /\
    files (parser w) <= maxFiles DefaultOptions /\
    partBytes (parser w) <= (if file (parser w) then maxFileBytes DefaultOptions else maxPartBytes DefaultOptions) /\
    Forall (fun e => len (data e) <= maxEventBytes DefaultOptions) (held w).
Proof.
  apply (multipart_bounded (txt "multipart/form-data; boundary=AB") DefaultOptions preamble_parser);
    [apply default_options_sized|vm_compute; reflexivity].
Defined.

(** ** Progress *)

Lemma after_dashes_more s start final dashes stop :
  AfterDashes s start final dashes = (SuffixMore, stop) ->
  len (buffer s) <= Z.of_nat start + maxHeaderBytes (options s) + 1.
Proof.
  unfold AfterDashes. set (pos := (dashes + BlankSpan _)%nat). intros H. case_if_in H; [done|].
  destruct (drop pos (drop start (buffer s))) as [|c [|d rest]] eqn:Ed; apply (f_equal length) in Ed;
    rewrite !length_drop in Ed; cbn in Ed; unfold len; try lia. repeat case_if_in H; try done; destruct final; done.
Qed.

Lemma suffix_more s start stop :
  0 < maxHeaderBytes (options s) -> DelimiterSuffix s start = (SuffixMore, stop) ->
  len (buffer s) <= Z.of_nat start + maxHeaderBytes (options s) + 1.
Proof.
  intros Hm H. unfold DelimiterSuffix in H. destruct (drop start (buffer s)) as [|c [|d rest]] eqn:Ed.
  - by eapply after_dashes_more.
  - case_if_in H; [|by eapply after_dashes_more]. apply (f_equal length) in Ed. rewrite length_drop in Ed. cbn in Ed.
    unfold len. lia.
  - repeat case_if_in H; try done; by eapply after_dashes_more.
Qed.

Lemma plain_event_bytes k i d : EventBytes (PlainEvent k i d) = len d.
Proof. unfold EventBytes. cbn [PlainEvent data name contentType filename headers text_size fold_right]. change (len []) with 0. lia. Qed.

(** Without events held there is room for any event that may be returned. *)
Lemma data_not_blocked count s r s' :
  parser_ok s -> credit s = 0 -> (count <= length (buffer s))%nat -> ReadData count s = (r, s') ->
  r <> Fail WouldBlock.
Proof.
  intros Hok Hc Hl H. unfold ReadData in H. case_if_in H; [by injection H as <- <-|].
  set (n := Nat.min count _) in H. pose proof (ok_buffer _ Hok). pose proof (options_limits _ (ok_options _ Hok)).
  destruct (event_cases (PlainEvent Data (part s) (take n (buffer s))) n s Hok ltac:(lia))
    as [[Hb He]|[[Hb He]|[Hb He]]]; rewrite He in H; injection H as <- _; try done.
  exfalso. rewrite plain_event_bytes in Hb. unfold Retained, len in *. rewrite length_take in Hb. lia.
Qed.

Lemma search_not_blocked fuel search s r s' :
  parser_ok s -> credit s = 0 -> Search fuel search s = Some (InnerReturn r s') -> r <> Fail WouldBlock.
Proof.
  revert search s. induction fuel as [|fuel IH]; intros search s Hok Hc H; [done|]. cbn [Search] in H.
  pose proof (round_post search s Hok) as Hpost. pose proof (round_cases search s) as Hs.
  destruct (SearchRound search s) as [r1 s1|s1|n s1]; [injection H as -> ->|done|].
  - remember (InnerReturn r s') as i eqn:Ei.
    destruct Hs as [? ? ?|n Hn Hp Hl|n Hn Hp Hl|n Hn Hl|at_ n stop Hn Hs
      |at_ n suffix stop Hn Hs Hi Ha Hp|at_ n suffix stop Hn Hs Hi Ha Hp|n stop Hn Hs|n suffix stop Hn Hs Hx Hp
      |n suffix stop Hn Hs Hx Hp]; try done.
    + destruct (ReadData _ _) as [r1 s1] eqn:Ed. injection Ei as <- <-.
      by eapply data_not_blocked; [done|done| |exact Ed]; lia.
    + destruct (ReadData _ _) as [r1 s1] eqn:Ed. injection Ei as <- <-. apply next_delimiter_bound in Hn; [|done].
      by eapply data_not_blocked; [done|done| |exact Ed]; lia.
    + apply next_delimiter_bound in Hn as [Hn _]; [|done]. apply suffix_bounds in Hs; [|done|done].
      pose proof (ok_buffer _ Hok). pose proof (options_limits _ (ok_options _ Hok)).
      destruct (event_cases (PlainEvent PartEnd (part s) []) stop s Hok ltac:(lia)) as [[Hb He]|[[Hb He]|[Hb He]]];
        rewrite He in Ei; injection Ei as <- _; try done.
      exfalso. rewrite plain_event_bytes in Hb. unfold Retained, len in *. cbn [length] in Hb. lia.
  - destruct Hpost as [P1 P2 P3 P4 Pt P5]. by eapply IH; [exact P1|congruence|exact H].
Qed.

Lemma search_break_buffer fuel search s s' :
  parser_ok s -> Search fuel search s = Some (InnerBreak s') -> phase s' = phase s ->
  len (buffer s') <= len (delimiter s') + maxHeaderBytes (options s') + 1.
Proof.
  revert search s. induction fuel as [|fuel IH]; intros search s Hok H Hp; [done|]. cbn [Search] in H.
  pose proof (round_post search s Hok) as Hpost. pose proof (round_cases search s) as Hs.
  pose proof (options_limits _ (ok_options _ Hok)) as Hl. pose proof (marker_length _ Hok) as Hm.
  destruct (SearchRound search s) as [r1 s1|s1|n s1]; [done|injection H as ->|].
  - inversion Hs as [H1 H2 H3|n Hn Hq Hk Hr|n Hn Hq Hk|n Hn Hk| |at_ n suffix stop Hn Hd Hi Ha Hq|
      |n stop Hn Hd|n suffix stop Hn Hd Hx Hq|n suffix stop Hn Hd Hx Hq]; subst.
    + unfold len in *. lia.
    + destruct (ReadData _ _); done.
    + cbn [buffer clear_start set_buffer delimiter options]. unfold len in *. rewrite length_drop. lia.
    + unfold len in *. lia.
    + destruct (ReadData _ _); done.
    + apply suffix_more in Hd; [|lia]. apply next_delimiter_bound in Hn as (_ & _ & Hn); [|done]. unfold len in *.
      destruct Hn as [(_ & _ & _ & ->)|(_ & _ & -> & _)]; lia.
    + cbn [phase set_phase] in Hp. unfold PhaseAfter in Hp. rewrite Hq in Hp. by case_bool_decide.
    + destruct (Event _ _ _); done.
  - assert (phase s1 = phase s) as Hp1.
    { inversion Hs; subst; try done; try (destruct (ReadData _ _); done); try (destruct (Event _ _ _); done). by case_if. }
    eapply IH; [exact (break_ok _ _ Hpost)|exact H|congruence].
Qed.

Lemma headers_not_blocked s r s' :
  parser_ok s -> credit s = 0 -> ReadHeaders s = Some (r, s') -> r <> Fail WouldBlock.
Proof.
  intros Hok Hc H. unfold ReadHeaders in H. destruct (cut_sub _ _) as [block [rest|]] eqn:Ec.
  2:{ case_if_in H; [|done]. by injection H as <- <-. }
  apply cut_sub_block in Ec. injection H as H. pose proof (options_limits _ (ok_options _ Hok)) as Hl.
  pose proof (ok_buffer _ Hok).
  case_if_in H; [by injection H as <- <-|]. case_if_in H; [by injection H as <- <-|].
  pose proof (headers_loop_plain (S (length block)) (maxHeaders (options s)) block false false
    (PlainEvent PartBegin (wrap64 (part s + 1)) [])) as Hp. fold (ParseHeaderBlock s block) in Hp.
  destruct (ParseHeaderBlock s block) as [e|st] eqn:Eb.
  2:{ injection H as <- <-. by destruct Hp as [-> | ->]. }
  apply header_block_size in Eb. case_if_in H; [by injection H as <- <-|].
  destruct (event_cases e (length block + 4) s Hok ltac:(cbn in Ec; lia)) as [[Hb He]|[[Hb He]|[Hb He]]];
    rewrite He in H; injection H as <- _; try done.
  exfalso. unfold Retained, len in *. lia.
Qed.

Lemma read_end_blocked s s' : ReadEnd s = (Fail WouldBlock, s') -> s' = s /\ eof s = false.
Proof. unfold ReadEnd. destruct (eof s); [by intros [= ?]|by intros [= <-]]. Qed.

Lemma read_loop_blocked fuel s s' :
  parser_ok s -> credit s = 0 -> ReadLoop fuel s = Some (Fail WouldBlock, s') ->
  eof s = false /\ len (buffer s') <= len (delimiter s') + maxHeaderBytes (options s') + 1.
Proof.
  revert s. induction fuel as [|fuel IH]; intros s Hok Hc H; [done|].
  pose proof (options_limits _ (ok_options _ Hok)) as Hl. pose proof (len_nonneg (delimiter s)) as Hd.
  destruct (decide (phase s = PhaseInitial \/ phase s = PhaseBody)) as [Hp|Hp].
  - rewrite read_loop_searching in H by done. destruct (search_start s Hok) as (i & Hi & Hpost & _).
    rewrite Hi in H. destruct i as [r s1|s1|n s1]; [|cbn [inner_post] in Hpost|done].
    { injection H as -> ->. by destruct (search_not_blocked _ _ _ _ _ Hok Hc Hi). }
    case_if_in H.
    + apply IH in H; [|apply Hpost|rewrite (break_credit _ _ Hpost); done].
      by rewrite (break_eof _ _ Hpost) in H.
    + injection H as H. apply read_end_blocked in H as [-> He]. rewrite (break_eof _ _ Hpost) in He. split; [done|].
      eapply search_break_buffer; [exact Hok|exact Hi|].
      destruct (search_break_phase _ _ _ _ Hi) as [Hb|[Hb Hb']]; [done|]. rewrite bool_decide_true in E by done.
      cbn [andb] in E. rewrite negb_false_iff, bool_decide_eq_true in E. destruct Hb'; congruence.
  - cbn [ReadLoop] in H. destruct (phase s) eqn:Ep; [by destruct Hp; left| |by destruct Hp; right| |done].
    + destruct (ReadHeaders s) as [[r s1]|] eqn:Eh.
      { injection H as -> ->. by destruct (headers_not_blocked _ _ _ Hok Hc Eh). }
      injection H as H. apply read_end_blocked in H as [-> He]. split; [done|]. unfold ReadHeaders in Eh.
      destruct (cut_sub _ _) as [block [rest|]]; [done|]. case_if_in Eh; [done|]. lia.
    + destruct (eof s) eqn:Ee; cbn [eof set_buffer] in H; rewrite Ee in H; [done|]. injection H as <-. split; [done|].
      cbn [buffer set_buffer delimiter options]. change (len []) with 0. lia.
Qed.

Lemma blocked_feed_accepts s s' bytes :
  parser_ok s -> credit s = 0 -> error s = ErrorCode_Ok -> Read true s = Some (Fail WouldBlock, s') ->
  bytes <> [] -> total s' + len bytes <= maxTotalBytes (options s) ->
  exists n s'', 0 < n /\ Feed true bytes s' = (FromValue n, s'').
Proof.
  intros Hok Hcr He Hr Hne Ht. pose proof (ok_options _ Hok) as Ho.
  destruct (read_total true s Hok) as (r & s2 & Hr2 & [P1 P2 P3 P4 Pt P5]). rewrite Hr in Hr2. injection Hr2 as <- <-.
  specialize (P5 He). destruct P5 as [_ P5]. cbn in P5. unfold Read in Hr. rewrite bool_decide_true in Hr by done.
  cbn [negb] in Hr. apply read_loop_blocked in Hr as [Heof Hb]; [|done|done]. rewrite P2 in Hb.
  pose proof (options_limits _ Ho) as Hl. pose proof (marker_length _ P1) as Hm. cbn in P4.
  destruct P1 as [Q1 Q2 Q3 Q4 Q5 Q6 Q7 Q8 Q9 Q10]. rewrite P2 in *.
  unfold Feed. rewrite P5, P3, Heof, P2. rewrite bool_decide_true by done. cbn [negb].
  replace (length bytes =? 0)%nat with false by (by destruct bytes).
  pose proof (len_nonneg (buffer s')). unfold Retained in *. destruct Ho. unfold SizeRange in *.
  rewrite (size_sub_le (maxRetainedBytes _) (maxHeaderBytes _)) by lia. rewrite !size_sub_le by lia.
  replace (maxTotalBytes (options s) - total s' <? len bytes) with false by lia.
  assert (0 < len bytes) by (destruct bytes; [done|unfold len; cbn; lia]).
  case_if; [lia|]. eexists _, _. split; [|done]. lia.
Qed.

(** The parser and its caller do not wait for each other: whenever the caller holds no event and
    [Read] asks for more ([WouldBlock]), whatever has been fed before, the input has not been finished
    and [Feed] accepts at least one byte of any further input that the total limit admits.  (The
    retained bytes are divided so that a head can always be duplicated into its event, and a
    delimiter line be completed.) *)
Theorem multipart_progress content o s0 calls w s' bytes :
  options_sized o -> Create content o = FromValue s0 -> Steps calls (MkWorld s0 []) = Some w ->
  held w = [] -> Read true (parser w) = Some (Fail WouldBlock, s') ->
  bytes <> [] -> total s' + len bytes <= maxTotalBytes o ->
  exists n s'', 0 < n /\ Feed true bytes s' = (FromValue n, s'').
Proof.
  intros Ho Hs Hw Hh Hr Hne Ht. destruct (steps_ok o calls _ (created_ok _ _ _ Ho Hs)) as (w1 & Hw1 & [W1 W2 W3 W4 W5]).
  rewrite Hw in Hw1. injection Hw1 as <-. rewrite Hh in W3.
  destruct (decide (error (parser w) = ErrorCode_Ok)) as [He|He].
  - eapply blocked_feed_accepts; [exact W1|done|done|exact Hr|done|by rewrite W2].
  - unfold Read in Hr. rewrite bool_decide_false in Hr by done. injection Hr as Hc _. congruence.
Qed.

Lemma multipart_progress_witness :
  exists n s'', 0 < n /\ Feed true (txt "--AB") preamble_parser = (FromValue n, s'').
Proof.
  apply (multipart_progress (txt "multipart/form-data; boundary=AB") DefaultOptions preamble_parser []
    (MkWorld preamble_parser []) preamble_parser (txt "--AB"));
    [apply default_options_sized|vm_compute; reflexivity|reflexivity|reflexivity|vm_compute; reflexivity|discriminate
    |vm_compute; discriminate].
Defined.
