(* ===== verification/MultipartForm.v ===== *)
(** * Web: forms on the wire.

    The bodies that [Multipart] reads, written from the form they carry: parts with a name, a file
    name, a content type and data, behind a boundary.  The theorems show that such a body, fed in
    any pieces between reads and releases in any order, comes out of the parser again. *)

From S2P Require Import Prelude CoreError Utf8 RequestData HttpParser HttpWire Multipart.
Import HttpParser Multipart.

(** ** Positions in a body *)

(** The text of a part's head, what it parses to and the data. *)
Record Part : Type := MkPart { pHead : list Z; pEvent : Z -> MultipartEvent; pData : list Z }.

(** Events, with the data cut into bytes. *)
Inductive Item : Type :=
| ItemBegin (event : MultipartEvent)
| ItemByte (index : Z) (byte : Z)
| ItemEnd (index : Z).

Definition event_items (e : MultipartEvent) : list Item :=
  match kind e with
  | PartBegin => [ItemBegin e]
  | Data => map (ItemByte (partIndex e)) (data e)
  | PartEnd => [ItemEnd (partIndex e)]
  end.

Definition body_items (index : Z) (d : list Z) : list Item := map (ItemByte index) d ++ [ItemEnd index].

Fixpoint parts_items (index : Z) (parts : list Part) : list Item :=
  match parts with
  | [] => []
  | p :: parts => ItemBegin (pEvent p index) :: body_items index (pData p) ++ parts_items (index + 1) parts
  end.

Definition is_file (p : Part) : bool := match filename (pEvent p 0) with None => false | Some _ => true end.

Definition count_files (parts : list Part) : Z := len (List.filter is_file parts).

Section stream.
Context (o : MultipartOptions) (boundary epilogue : list Z).

Definition mark : list Z := txt "--" ++ boundary.
Definition delim : list Z := Crlf ++ mark.

(** What follows a delimiter. *)
Fixpoint tail_text (parts : list Part) : list Z :=
  match parts with
  | [] => txt "--" ++ epilogue
  | p :: parts => Crlf ++ pHead p ++ (Crlf ++ Crlf) ++ pData p ++ delim ++ tail_text parts
  end.

Definition stream_text (parts : list Part) : list Z := mark ++ tail_text parts.

Record part_ok (p : Part) : Prop := MkPartOk {
  part_head : forall rest, cut_sub (Crlf ++ Crlf) (pHead p ++ (Crlf ++ Crlf) ++ rest) = (pHead p, Some rest);
  part_head_size : len (pHead p) + 4 <= maxHeaderBytes o;
  part_parsed : forall index, HeadersLoop (S (length (pHead p))) (maxHeaders o) (pHead p) false false
    (PlainEvent PartBegin index []) = FromValue (pEvent p index);
  part_file : forall index, filename (pEvent p index) = filename (pEvent p 0);
  part_data : forall rest, cut_sub delim (pData p ++ delim ++ rest) = (pData p, Some rest);
  part_data_size : len (pData p) <= if is_file p then maxFileBytes o else maxPartBytes o
}.

Definition epilogue_ok : Prop := epilogue = [] \/ exists rest, epilogue = Crlf ++ rest.

(** Where the parser is in the body, with the input [U] still to be fed and the items still to be
    delivered. *)
Inductive at_position (s : State) (U : list Z) : list Item -> Prop :=
| at_initial parts :
    phase s = PhaseInitial -> initialStart s = true -> buffer s ++ U = stream_text parts ->
    Forall part_ok parts -> part s = 0 -> files s = 0 ->
    len parts <= maxParts o -> count_files parts <= maxFiles o ->
    at_position s U (parts_items 1 parts)
| at_headers p parts :
    phase s = PhaseHeaders ->
    buffer s ++ U = pHead p ++ (Crlf ++ Crlf) ++ pData p ++ delim ++ tail_text parts ->
    Forall part_ok (p :: parts) -> part s + len (p :: parts) <= maxParts o ->
    files s + count_files (p :: parts) <= maxFiles o ->
    at_position s U (parts_items (part s + 1) (p :: parts))
| at_body d parts :
    phase s = PhaseBody -> buffer s ++ U = d ++ delim ++ tail_text parts ->
    (forall rest, cut_sub delim (d ++ delim ++ rest) = (d, Some rest)) ->
    Forall part_ok parts -> part s + len parts <= maxParts o -> files s + count_files parts <= maxFiles o ->
    partBytes s + len d <= PartLimit s ->
    at_position s U (body_items (part s) d ++ parts_items (part s + 1) parts)
| at_epilogue : phase s = PhaseEpilogue -> at_position s U []
| at_done : phase s = PhaseDone -> at_position s U [].

(** The parser within a body that it has not refused. *)
Record reading (s : State) (U : list Z) (items : list Item) : Prop := MkReading {
  reading_ok : parser_ok s;
  reading_options : options s = o;
  reading_marker : marker s = mark;
  reading_error : error s = ErrorCode_Ok;
  reading_eof : eof s = true -> U = [];
  reading_position : at_position s U items
}.

Context (Ho : options_sized o) (Hmin : 2 <= maxHeaderBytes o) (Hepilogue : epilogue_ok).

(** ** Delimiters *)

(** What follows the delimiter is incomplete, or tells whether more parts come. *)
Definition suffix_outcome (s : State) (start : nat) (U : list Z) (parts : list Part) : Prop :=
  (fst (DelimiterSuffix s start) = SuffixMore /\ eof s = false) \/
  (parts = [] /\ exists stop, DelimiterSuffix s start = (SuffixFinal, stop)) \/
  (exists p ps, parts = p :: ps /\ DelimiterSuffix s start = (SuffixNormal, (start + 2)%nat) /\
     drop (start + 2) (buffer s) ++ U =
       pHead p ++ (Crlf ++ Crlf) ++ pData p ++ delim ++ tail_text ps).

Lemma after_final s start r U :
  options s = o -> (eof s = true -> U = []) ->
  drop start (buffer s) = txt "--" ++ r -> r ++ U = epilogue ->
  (AfterDashes s start true 2 = (SuffixMore, 0%nat) /\ eof s = false) \/
  exists stop, AfterDashes s start true 2 = (SuffixFinal, stop).
Proof.
  intros Hopt He Hd Hr. unfold AfterDashes. rewrite Hd, Hopt. change (drop 2 (txt "--" ++ r)) with r. cbv zeta.
  assert (BlankSpan r = 0)%nat as ->.
  { destruct r as [|c r]; [done|]. destruct Hepilogue as [E|[rest E]]; rewrite E in Hr; [done|].
    injection Hr as -> _. done. }
  change (Z.of_nat (2 + 0)) with 2. replace (maxHeaderBytes o <? 2) with false by lia.
  change (drop (2 + 0) (txt "--" ++ r)) with r. destruct r as [|c [|d r]].
  - destruct (eof s); [right; by eexists|by left].
  - destruct Hepilogue as [E|[rest E]]; rewrite E in Hr; [done|]. injection Hr as -> Hr. cbn. left. split; [done|].
    destruct (eof s); [|done]. rewrite He in Hr by done. done.
  - destruct Hepilogue as [E|[rest E]]; rewrite E in Hr; [done|]. injection Hr as -> -> Hr. right. by eexists.
Qed.

Lemma suffix_tail s start U parts :
  options s = o -> (eof s = true -> U = []) -> drop start (buffer s) ++ U = tail_text parts ->
  suffix_outcome s start U parts.
Proof.
  intros Hopt He H. unfold suffix_outcome, DelimiterSuffix. destruct (drop start (buffer s)) as [|c r] eqn:Ed.
  - left. unfold AfterDashes. rewrite Ed, Hopt. cbn [drop BlankSpan Nat.add]. change (Z.of_nat 0) with 0.
    replace (maxHeaderBytes o <? 0) with false by lia. split; [reflexivity|].
    destruct (eof s); [|done]. rewrite He in H by done. by destruct parts.
  - destruct parts as [|p ps].
    + injection H as -> H. change (45 =? char_code "-") with true. cbn [Z.eqb]. rewrite Z.eqb_refl. destruct r as [|d r].
      { left. split; [done|]. destruct (eof s); [|done]. by rewrite He in H. }
      injection H as -> H. rewrite Z.eqb_refl. cbn [negb].
      destruct (after_final s start r U Hopt He Ed H) as [[Ha Hf]|[stop Ha]]; rewrite Ha; [by left|].
      right. left. split; [done|]. by eexists.
    + cbn [tail_text app Crlf] in H. injection H as -> H. change (13 =? char_code "-") with false. cbv iota.
      unfold AfterDashes. rewrite Ed, Hopt. cbn [drop BlankSpan]. change (RequestData.Blank 13) with false.
      cbn [Nat.add drop]. change (Z.of_nat 0) with 0. replace (maxHeaderBytes o <? 0) with false by lia.
      change (negb (13 =? 13)) with false. cbv iota. destruct r as [|d r].
      { left. split; [done|]. destruct (eof s); [|done]. by rewrite He in H. }
      injection H as -> H. right. right. exists p, ps. rewrite Nat.add_0_r. split_and!; [done|done|].
      replace (drop (start + 2) (buffer s)) with r; [done|].
      rewrite <- drop_drop, Ed. done.
Qed.

(** The delimiter in the input read so far. *)
Lemma find_in_prefix s d U rest :
  delimiter s = delim -> buffer s ++ U = d ++ delim ++ rest ->
  (forall rest, cut_sub delim (d ++ delim ++ rest) = (d, Some rest)) ->
  (FindDelimiter s 0 = Some (length d) /\ drop (length d + length delim) (buffer s) ++ U = rest) \/
  (FindDelimiter s 0 = None /\ (length (buffer s) < length d + length delim)%nat).
Proof.
  intros Hd Hb Hc. unfold FindDelimiter. rewrite Hd, drop_0. specialize (Hc rest). rewrite <- Hb in Hc.
  destruct (cut_sub delim (buffer s)) as [a [r|]] eqn:E.
  - left. pose proof (cut_sub_app _ _ U _ _ E) as E'. rewrite Hc in E'. injection E' as -> ->. split; [done|].
    pose proof (cut_sub_inv delim (buffer s)) as Hi. rewrite E in Hi. rewrite Hi.
    by rewrite app_assoc, <- length_app, drop_app_length.
  - right. split; [done|]. by apply (cut_sub_late _ _ _ _ _ _ E Hc).
Qed.

Lemma cut_sub_suffix pat a d rest :
  cut_sub pat ((a ++ d) ++ pat ++ rest) = (a ++ d, Some rest) -> cut_sub pat (d ++ pat ++ rest) = (d, Some rest).
Proof.
  induction a as [|x a IH]; intros H; [done|]. cbn [app cut_sub] in H. case_if_in H; [done|].
  destruct (cut_sub pat ((a ++ d) ++ pat ++ rest)) as [b r] eqn:Eb. injection H as -> ->. by apply IH.
Qed.

(** ** One call of [Read] *)

Definition read_outcome (U : list Z) (items : list Item) (r : ReadResult) (s' : State) : Prop :=
  match r with
  | FromValue (Some e) => event_items e <> [] /\ exists rest, items = event_items e ++ rest /\ reading s' U rest
  | FromValue None => items = [] /\ phase s' = PhaseDone /\ reading s' U []
  | FromStatus st => st = Status.FailWithoutMessage WouldBlock /\ reading s' U items
  end.

Lemma reading_delimiter s U items : reading s U items -> delimiter s = delim.
Proof. intros [H1 _ H3 _ _ _]. rewrite (ok_delimiter _ H1), H3. done. Qed.

Lemma prefix_take {A} (b U d rest : list A) n :
  b ++ U = d ++ rest -> (n <= length b)%nat -> (n <= length d)%nat ->
  take n b = take n d /\ drop n b ++ U = drop n d ++ rest.
Proof.
  intros H Hb Hd. split.
  - rewrite <- (take_app_le b U), <- (take_app_le d rest) by done. by rewrite H.
  - rewrite <- (drop_app_le b U), <- (drop_app_le d rest) by done. by rewrite H.
Qed.

Lemma data_outcome s U d parts n r s' :
  reading s U (body_items (part s) d ++ parts_items (part s + 1) parts) -> phase s = PhaseBody ->
  buffer s ++ U = d ++ delim ++ tail_text parts ->
  (forall rest, cut_sub delim (d ++ delim ++ rest) = (d, Some rest)) ->
  Forall part_ok parts -> part s + len parts <= maxParts o -> files s + count_files parts <= maxFiles o ->
  partBytes s + len d <= PartLimit s ->
  (n <= length (buffer s))%nat -> (1 <= n <= length d)%nat -> ReadData n s = (r, s') ->
  read_outcome U (body_items (part s) d ++ parts_items (part s + 1) parts) r s'.
Proof.
  intros Hr Hp Hb Hc Hparts Hn1 Hn2 Hn3 Hnb Hnd H. pose proof (data_post _ _ _ _ (reading_ok _ _ _ Hr) Hnb H) as Hpost.
  destruct Hr as [R1 R2 R3 R4 R5 R6]. unfold ReadData in H. set (count := Nat.min n _) in H.
  fold (PartLimit s) in H. pose proof (options_limits _ (ok_options _ R1)) as Hl.
  pose proof (ok_part_bytes _ R1) as Hpb. assert (PartLimit s < 2 ^ 64) as Hpl.
  { destruct (ok_options _ R1). unfold PartLimit, SizeRange in *. destruct (file s); lia. }
  rewrite size_sub_le in H by lia. unfold len in *.
  replace (PartLimit s - partBytes s <? Z.of_nat count) with false in H by lia.
  destruct (prefix_take _ _ _ _ count Hb ltac:(lia) ltac:(lia)) as [Htake Hdrop].
  destruct (event_cases (PlainEvent Data (part s) (take count (buffer s))) count s R1 ltac:(lia))
    as [[Hx He]|[[Hx He]|[Hx He]]]; rewrite He in H; injection H as <- <-.
  - exfalso. rewrite plain_event_bytes in Hx. unfold len in Hx. rewrite length_take in Hx. lia.
  - split; [done|]. split; try done.
  - split.
    { cbn. assert (1 <= length (take count (buffer s)))%nat by (rewrite length_take; lia).
      by destruct (take count (buffer s)); [cbn in *; lia|]. }
    exists (body_items (part s) (drop count d) ++ parts_items (part s + 1) parts). split.
    + cbn. unfold body_items. rewrite Htake, !app_assoc. f_equal. f_equal. by rewrite <- map_app, take_drop.
    + split; try done; [apply Hpost|]. cbn [Result.IsOk].
      refine (at_body (add_part_bytes _ (set_buffer _ (set_credit _ s))) U (drop count d) parts _ _ _ _ _ _ _); try done.
      * intros rest. apply (cut_sub_suffix _ (take count d)). by rewrite take_drop.
      * cbn. unfold PartLimit in *. cbn. unfold wrap64, len. rewrite length_drop. rewrite Z.mod_small; lia.
Qed.

Lemma search_once s i : SearchRound 0 s = i -> (forall n s', i <> InnerNext n s') -> Search (SearchFuel s) 0 s = Some i.
Proof.
  intros H Hn. unfold SearchFuel. rewrite Nat.add_comm. cbn [Nat.add Search]. rewrite H.
  destruct i as [| |n s']; [done|done|by destruct (Hn n s')].
Qed.

Lemma blocked_outcome U items s : reading s U items -> eof s = false -> read_outcome U items (ReadEnd s).1 (ReadEnd s).2.
Proof. intros Hr He. unfold ReadEnd. by rewrite He. Qed.

(** The end of a part. *)
Lemma end_outcome s U parts suffix stop r s' :
  reading s U (body_items (part s) [] ++ parts_items (part s + 1) parts) -> phase s = PhaseBody ->
  Forall part_ok parts -> part s + len parts <= maxParts o -> files s + count_files parts <= maxFiles o ->
  (stop <= length (buffer s))%nat ->
  (suffix = SuffixFinal /\ parts = []) \/
  (exists p ps, suffix = SuffixNormal /\ parts = p :: ps /\
    drop stop (buffer s) ++ U = pHead p ++ (Crlf ++ Crlf) ++ pData p ++ delim ++ tail_text ps) ->
  Event (PlainEvent PartEnd (part s) []) stop s = (r, s') ->
  read_outcome U (body_items (part s) [] ++ parts_items (part s + 1) parts) r
    (set_if_ok r (set_phase (PhaseAfter suffix)) s').
Proof.
  intros Hr Hp Hparts Hn1 Hn2 Hstop Hs H. destruct Hr as [R1 R2 R3 R4 R5 R6].
  pose proof (options_limits _ (ok_options _ R1)) as Hl.
  assert (len (data (PlainEvent PartEnd (part s) [])) <= maxEventBytes (options s)) as Hz
    by (change (len (data (PlainEvent PartEnd (part s) []))) with 0; lia).
  pose proof (event_post _ _ _ _ _ R1 Hstop Hz H) as [Hpost _].
  destruct (event_cases (PlainEvent PartEnd (part s) []) stop s R1 ltac:(lia))
    as [[Hx He]|[[Hx He]|[Hx He]]]; rewrite He in H; injection H as <- <-.
  - exfalso. rewrite plain_event_bytes in Hx. change (len []) with 0 in Hx. lia.
  - split; [done|]. by split.
  - split; [done|]. exists (parts_items (part s + 1) parts). split; [done|]. cbn [set_if_ok Result.IsOk].
    split; try done; [apply set_phase_ok, Hpost|].
    destruct Hs as [[-> ->]|(p & ps & -> & -> & Hb)].
    + by apply at_epilogue.
    + by apply (at_headers (set_phase _ (set_buffer _ (set_credit _ s))) U p ps).
Qed.

Lemma body_outcome fuel s U items :
  reading s U items -> phase s = PhaseBody ->
  exists r s', ReadLoop (S fuel) s = Some (r, s') /\ read_outcome U items r s'.
Proof.
  intros Hr Hp. rewrite read_loop_searching by auto. pose proof (reading_delimiter _ _ _ Hr) as Hd.
  pose proof (reading_position _ _ _ Hr) as Hpos. inversion Hpos as [| |d parts Hp' Hb Hc Hparts Hn1 Hn2 Hn3| |]; subst; try congruence.
  assert (starting s = false) as Hst by (unfold starting; rewrite bool_decide_false by congruence; done).
  assert (SearchRound 0 s = SearchRound 0 s) as Hround by done. unfold SearchRound at 2 in Hround.
  unfold NextDelimiter in Hround. rewrite Hst, Hd, Hp in Hround. rewrite bool_decide_false in Hround by done.
  cbn [andb negb] in Hround.
  destruct (find_in_prefix s d U (tail_text parts) Hd Hb Hc) as [[Hf Hrest]|[Hf Hlen]]; rewrite Hf in Hround.
  - assert (length d + length delim <= length (buffer s))%nat as Hlb.
    { destruct (find_delimiter_bound s 0 (length d)) as [_ H]; [rewrite Hd; done|done|]. by rewrite Hd in H. }
    pose proof (suffix_tail s (length d + length delim) U parts (reading_options _ _ _ Hr) (reading_eof _ _ _ Hr) Hrest) as Hs.
    destruct (DelimiterSuffix s (length d + length delim)) as [suffix stop] eqn:Es. unfold suffix_outcome in Hs. rewrite Es in Hs.
    assert (suffix <> SuffixInvalid) as Hi.
    { destruct Hs as [[? _]|[(_ & st & [= ? _])|(p & ps & _ & [= ? _] & _)]]; cbn in *; congruence. }
    rewrite (bool_decide_false (suffix = SuffixInvalid)) in Hround by done.
    destruct d as [|x d].
    + cbn [length Nat.eqb negb Nat.add] in *. case_bool_decide as Hm.
      * rewrite (search_once _ _ Hround) by done. rewrite Hp, bool_decide_false by done. cbn [andb].
        assert (eof s = false) as He.
        { destruct Hs as [[_ ?]|[(_ & st & [= ? _])|(p & ps & _ & [= ? _] & _)]]; [done|congruence..]. }
        destruct (ReadEnd s) as [r s'] eqn:Er. exists r, s'. split; [done|].
        pose proof (blocked_outcome U _ s Hr He) as Ho'. by rewrite Er in Ho'.
      * destruct (Event _ _ _) as [r s'] eqn:Ev. rewrite (search_once _ _ Hround) by done. eexists _, _. split; [done|].
        apply suffix_bounds in Es as Hsb; [|destruct suffix; auto; done|lia].
        apply (end_outcome s U parts suffix stop); try done; [lia|].
        destruct Hs as [[Hx _]|[(-> & st & [= -> _])|(p & ps & -> & [= -> ->] & Hx)]]; [done|by left|].
        right. by exists p, ps.
    + cbn [length Nat.eqb negb] in Hround. destruct (ReadData _ _) as [r s'] eqn:Ed.
      rewrite (search_once _ _ Hround) by done. eexists _, _. split; [done|].
      apply (data_outcome s U (x :: d) parts (length (x :: d))); try done; cbn [length] in *; lia.
  - case_if_in Hround.
    + destruct (ReadData _ _) as [r s'] eqn:Ed. rewrite (search_once _ _ Hround) by done. eexists _, _. split; [done|].
      apply (data_outcome s U d parts (length (buffer s) - (length delim + 2))); try done; lia.
    + rewrite (search_once _ _ Hround) by done. rewrite Hp, bool_decide_false by done. cbn [andb].
      assert (eof s = false) as He.
      { destruct (eof s) eqn:Ee; [|done]. rewrite (reading_eof _ _ _ Hr Ee), app_nil_r in Hb. rewrite Hb, !length_app in Hlen. lia. }
      destruct (ReadEnd s) as [r s'] eqn:Er. exists r, s'. split; [done|].
      pose proof (blocked_outcome U _ s Hr He) as Ho'. by rewrite Er in Ho'.
Qed.

Lemma count_files_cons p parts : count_files (p :: parts) = (if is_file p then 1 else 0) + count_files parts.
Proof. unfold count_files, len. cbn. destruct (is_file p); cbn [length]; lia. Qed.

Lemma count_files_nonneg parts : 0 <= count_files parts.
Proof. unfold count_files. apply len_nonneg. Qed.

(** The head of a part. *)
Lemma begin_outcome s U p parts :
  reading s U (parts_items (part s + 1) (p :: parts)) -> phase s = PhaseHeaders ->
  drop (length (pHead p) + 4) (buffer s) ++ U = pData p ++ delim ++ tail_text parts ->
  (length (pHead p) + 4 <= length (buffer s))%nat ->
  Forall part_ok (p :: parts) -> part s + len (p :: parts) <= maxParts o ->
  files s + count_files (p :: parts) <= maxFiles o ->
  let '(r, s') := Event (pEvent p (part s + 1)) (length (pHead p) + 4) s in
  read_outcome U (parts_items (part s + 1) (p :: parts)) r (set_if_ok r (begin_part (is_file p)) s').
Proof.
  intros Hr Hp Hb Hlen Hparts Hn1 Hn2. destruct Hr as [R1 R2 R3 R4 R5 R6].
  apply Forall_cons in Hparts as [Hpart Hparts]. destruct Hpart as [P1 P2 P3 P4 P5 P6].
  pose proof (options_limits _ (ok_options _ R1)) as Hl. rewrite R2 in Hl. pose proof (ok_part _ R1) as Hk.
  pose proof (ok_files _ R1) as Hfk. pose proof (count_files_nonneg parts) as Hcn. rewrite count_files_cons in Hn2.
  pose proof (ok_options _ R1) as [_ V2 V3 _ V5 V6 _ _ _]. rewrite R2 in *. unfold SizeRange in *.
  unfold len in Hn1. cbn [length] in Hn1.
  pose proof (headers_loop_plain (S (length (pHead p))) (maxHeaders o) (pHead p) false false
    (PlainEvent PartBegin (part s + 1) [])) as Hkind. rewrite P3 in Hkind. destruct Hkind as (Hkind & _ & Hdata).
  assert (EventBytes (pEvent p (part s + 1)) <= 2 * len (pHead p)) as Hsize.
  { specialize (P3 (part s + 1)). apply headers_loop_size in P3; [done|by split]. }
  destruct (Event _ _ _) as [r s'] eqn:Ev.
  pose proof (event_post _ _ _ _ _ R1 Hlen ltac:(rewrite Hdata, R2; change (len _) with 0; lia) Ev) as [Hpost _].
  destruct (event_cases (pEvent p (part s + 1)) (length (pHead p) + 4) s R1 Hlen)
    as [[Hx He]|[[Hx He]|[Hx He]]]; rewrite He in Ev; injection Ev as <- <-.
  - exfalso. rewrite R2 in Hx. lia.
  - split; [done|]. by split.
  - split; [unfold event_items; by rewrite Hkind|].
    exists (body_items (part s + 1) (pData p) ++ parts_items (part s + 1 + 1) parts). split.
    { unfold event_items. by rewrite Hkind. }
    cbn [set_if_ok Result.IsOk]. set (s1 := set_buffer _ _).
    assert (parser_ok (begin_part (is_file p) s1)) as Hok1.
    { destruct (post_ok _ _ _ Hpost) as [Q1 Q2 Q3 Q4 Q5 Q6 Q7 Q8 Q9 Q10]. split; try done; cbn.
      - unfold PartLimit. cbn. rewrite R2. destruct (is_file p); lia.
      - rewrite R2. unfold wrap64. rewrite Z.mod_small; lia.
      - rewrite R2. unfold wrap64. destruct (is_file p); [rewrite Z.mod_small; lia|lia]. }
    split; try done. replace (part s + 1) with (part (begin_part (is_file p) s1)).
    2:{ cbn. unfold wrap64. rewrite Z.mod_small; lia. }
    apply at_body; try done; cbn; unfold wrap64, PartLimit, len in *; cbn; rewrite ?R2.
    + rewrite Z.mod_small; lia.
    + destruct (is_file p); [rewrite Z.mod_small; lia|lia].
    + destruct (is_file p); lia.
Qed.

Lemma headers_outcome fuel s U items :
  reading s U items -> phase s = PhaseHeaders ->
  exists r s', ReadLoop (S fuel) s = Some (r, s') /\ read_outcome U items r s'.
Proof.
  intros Hr Hp. cbn [ReadLoop]. rewrite Hp. pose proof (reading_position _ _ _ Hr) as Hpos.
  inversion Hpos as [|p parts Hp' Hb Hparts Hn1 Hn2| | |]; subst; try congruence.
  pose proof Hparts as Hparts'. apply Forall_cons in Hparts' as [[P1 P2 P3 P4 P5 P6] _].
  pose proof (reading_options _ _ _ Hr) as Hopt. unfold ReadHeaders. rewrite Hopt.
  specialize (P1 (pData p ++ delim ++ tail_text parts)). rewrite <- Hb in P1.
  destruct (cut_sub (Crlf ++ Crlf) (buffer s)) as [block [r|]] eqn:Ec.
  - pose proof (cut_sub_app _ _ U _ _ Ec) as E'. rewrite P1 in E'. injection E' as <- Hrest.
    pose proof (cut_sub_inv (Crlf ++ Crlf) (buffer s)) as Hi. rewrite Ec in Hi.
    replace (maxHeaderBytes o <? len (pHead p) + 4) with false by lia.
    pose proof (ok_part _ (reading_ok _ _ _ Hr)) as Hk. rewrite Hopt in Hk. pose proof (len_nonneg parts).
    unfold len in Hn1. cbn [length] in Hn1.
    replace (part s =? maxParts o) with false by lia.
    pose proof (ok_options _ (reading_ok _ _ _ Hr)) as [_ V2 V3 _ _ _ _ _ _]. rewrite Hopt in V2, V3. unfold SizeRange in *.
    assert (ParseHeaderBlock s (pHead p) = FromValue (pEvent p (part s + 1))) as ->.
    { unfold ParseHeaderBlock. rewrite Hopt, P3. unfold wrap64. by rewrite Z.mod_small by lia. }
    rewrite P4. fold (is_file p).
    assert (is_file p && (files s =? maxFiles o) = false) as ->.
    { rewrite count_files_cons in Hn2. pose proof (count_files_nonneg parts). destruct (is_file p); [|done]. cbn. lia. }
    assert (length (pHead p) + 4 <= length (buffer s))%nat as Hlen.
    { rewrite Hi, !length_app. cbn. lia. }
    assert (drop (length (pHead p) + 4) (buffer s) ++ U = pData p ++ delim ++ tail_text parts) as Hd.
    { rewrite Hi, app_assoc. replace (length (pHead p) + 4)%nat with (length (pHead p ++ Crlf ++ Crlf))
        by (rewrite !length_app; done). by rewrite drop_app_length. }
    pose proof (begin_outcome s U p parts Hr Hp Hd Hlen Hparts ltac:(unfold len; cbn; lia) Hn2) as Hout.
    destruct (Event _ _ _) as [r' s']. eexists _, _. split; [done|]. exact Hout.
  - apply (cut_sub_late _ _ _ _ _ _ Ec) in P1. cbn [length app Crlf] in P1.
    replace (maxHeaderBytes o <? len (buffer s)) with false by (unfold len in *; lia).
    assert (eof s = false) as He.
    { destruct (eof s) eqn:Ee; [|done]. rewrite (reading_eof _ _ _ Hr Ee), app_nil_r in Hb.
      rewrite Hb, !length_app in P1. cbn in P1. lia. }
    destruct (ReadEnd s) as [r s'] eqn:Er. exists r, s'. split; [done|].
    pose proof (blocked_outcome U _ s Hr He) as Ho'. by rewrite Er in Ho'.
Qed.

Lemma tail_not_nil parts : tail_text parts <> [].
Proof. by destruct parts. Qed.

(** The first delimiter: the parser waits, or is behind it. *)
Lemma initial_search s U items :
  reading s U items -> phase s = PhaseInitial ->
  (Search (SearchFuel s) 0 s = Some (InnerBreak s) /\ eof s = false) \/
  (exists s', Search (SearchFuel s) 0 s = Some (InnerBreak s') /\ reading s' U items /\
     (phase s' = PhaseHeaders \/ phase s' = PhaseEpilogue)).
Proof.
  intros Hr Hp. pose proof (reading_delimiter _ _ _ Hr) as Hd. pose proof (reading_position _ _ _ Hr) as Hpos.
  inversion Hpos as [parts Hp' Hi Hb Hparts Hk Hf Hn1 Hn2| | | |]; subst; try congruence.
  pose proof Hr as [R1 R2 R3 R4 R5 R6]. pose proof (options_limits _ Ho) as Hl.
  assert (starting s = true) as Hst by (unfold starting; rewrite bool_decide_true, Hi by done; done).
  assert (SearchRound 0 s = SearchRound 0 s) as Hround by done. unfold SearchRound at 2 in Hround.
  unfold NextDelimiter in Hround. rewrite Hst, R3 in Hround. cbn [andb] in Hround. unfold stream_text in Hb.
  destruct (decide (length (buffer s) < length mark)%nat) as [Hlt|Hge].
  - assert (starts_with (buffer s) mark = true) as Hs.
    { apply starts_with_iff. exists (drop (length (buffer s)) mark).
      destruct (prefix_take mark (tail_text parts) (buffer s) U (length (buffer s)) (eq_sym Hb) ltac:(lia) ltac:(lia)) as [Ht _].
      rewrite <- (take_drop (length (buffer s)) mark) at 1. rewrite Ht. by rewrite firstn_all. }
    rewrite Hs in Hround. replace (length (buffer s) <? length mark)%nat with true in Hround by lia. cbn [andb] in Hround.
    left. split; [by apply search_once|]. destruct (eof s) eqn:Ee; [|done].
    rewrite (R5 eq_refl), app_nil_r in Hb. rewrite Hb, length_app in Hlt. lia.
  - replace (length (buffer s) <? length mark)%nat with false in Hround by lia. cbn [andb] in Hround.
    destruct (prefix_take (buffer s) U mark (tail_text parts) (length mark) Hb ltac:(lia) ltac:(lia)) as [Ht Hdrop].
    rewrite firstn_all in Ht. assert (starts_with mark (buffer s) = true) as Hs.
    { apply starts_with_iff. exists (drop (length mark) (buffer s)). rewrite <- Ht at 1. by rewrite take_drop. }
    rewrite Hs in Hround. cbn [Nat.add] in Hround. rewrite drop_all in Hdrop. cbn [app] in Hdrop.
    pose proof (suffix_tail s (length mark) U parts R2 R5 Hdrop) as Hx. unfold suffix_outcome in Hx.
    destruct (DelimiterSuffix s (length mark)) as [suffix stop] eqn:Es. cbn [Nat.eqb negb fst] in *.
    rewrite (bool_decide_true (phase s = PhaseInitial)) in Hround by done.
    destruct Hx as [[-> He]|[(-> & st & [= -> ->])|(p & ps & -> & [= -> ->] & Hrest)]];
      cbn [bool_decide decide] in Hround.
    + left. split; [|done]. by apply search_once.
    + right. eexists. split; [apply search_once; [exact Hround|done]|]. split.
      * split; try done; [by apply set_phase_ok, clear_start_ok, shrink_ok, len_drop_le|]. by apply at_epilogue.
      * by right.
    + right. eexists. split; [apply search_once; [exact Hround|done]|]. split; [|by left].
      split; try done; [by apply set_phase_ok, clear_start_ok, shrink_ok, len_drop_le|].
      change 1 with (0 + 1). rewrite <- Hk. apply (at_headers (set_phase _ (clear_start (set_buffer _ s))) U p ps); try done;
        cbn; rewrite ?Hk, ?Hf; done.
Qed.

Lemma epilogue_outcome fuel s U items :
  reading s U items -> phase s = PhaseEpilogue \/ phase s = PhaseDone ->
  exists r s', ReadLoop (S fuel) s = Some (r, s') /\ read_outcome U items r s'.
Proof.
  intros Hr Hp. pose proof (reading_position _ _ _ Hr) as Hpos. pose proof Hr as [R1 R2 R3 R4 R5 R6].
  assert (items = []) as -> by (destruct Hp; inversion Hpos; congruence).
  assert (parser_ok (set_buffer [] s)) as Hok by (apply shrink_ok; [done|apply len_nonneg]).
  cbn [ReadLoop]. destruct Hp as [Hp|Hp]; rewrite Hp.
  - cbn [eof set_buffer]. destruct (eof s) eqn:Ee; eexists _, _; (split; [done|]).
    + split_and!; [done|done|]. split; try done; [by apply set_phase_ok|intros _; by apply R5|by apply at_done].
    + split; [done|]. split; try done; [cbn; congruence|by apply at_epilogue].
  - eexists _, _. split; [done|]. split_and!; done.
Qed.

(** A call of [Read] delivers the next items of the body, or asks for more. *)
Lemma read_reading s U items :
  reading s U items -> exists r s', Read true s = Some (r, s') /\ read_outcome U items r s'.
Proof.
  intros Hr. unfold Read. rewrite (reading_error _ _ _ Hr). rewrite bool_decide_true by done. cbn [negb].
  destruct (phase s) eqn:Hp.
  - rewrite read_loop_searching by auto. rewrite Hp, bool_decide_true by done. cbn [andb].
    destruct (initial_search s U items Hr Hp) as [[Hs He]|(s1 & Hs & Hr1 & Hp1)]; rewrite Hs.
    + rewrite Hp, bool_decide_true by done. cbn [negb]. destruct (ReadEnd s) as [r s'] eqn:Er. eexists _, _. split; [done|].
      pose proof (blocked_outcome U _ s Hr He) as Ho'. by rewrite Er in Ho'.
    + rewrite bool_decide_false by (destruct Hp1; congruence). cbn [negb].
      destruct Hp1 as [Hp1|Hp1]; [by apply headers_outcome|apply epilogue_outcome; auto].
  - by apply headers_outcome.
  - by apply body_outcome.
  - apply epilogue_outcome; auto.
  - apply epilogue_outcome; auto.
Qed.

(** ** Clients *)

Lemma feed_reading s U items n r s' :
  reading s U items -> total s + len U <= maxTotalBytes o -> take n U <> [] -> eof s = false ->
  Feed true (take n U) s = (r, s') ->
  match r with
  | FromValue k => 0 <= k <= len (take n U) /\ reading s' (drop (Z.to_nat k) U) items /\
      total s' + len (drop (Z.to_nat k) U) = total s + len U /\ credit s' = credit s
  | FromStatus st => st = Status.FailWithoutMessage WouldBlock /\ s' = s
  end.
Proof.
  intros [R1 R2 R3 R4 R5 R6] Ht Hne He H.
  assert (len (take n U) <= len U) as Hlt by (unfold len; rewrite length_take; lia).
  pose proof (feed_cases _ _ _ _ _ R1 H) as Hc.
  destruct r as [k|st].
  - destruct Hc as [(code & ? & _)|(k' & [= <-] & Hk & Htk & Hr & Hb & ->)]; [done|]. rewrite R2 in *.
    assert (buffer s ++ take (Z.to_nat k) (take n U) ++ drop (Z.to_nat k) U = buffer s ++ U) as Hbuf.
    { f_equal. rewrite take_take, Nat.min_l by (unfold len in Hk; rewrite length_take in Hk; lia). apply take_drop. }
    assert (wrap64 (total s + k) = total s + k) as Hw.
    { pose proof (ok_total _ R1). pose proof (sized_total_bytes _ Ho) as Hz. unfold SizeRange in Hz.
      unfold wrap64. apply Z.mod_small. lia. }
    split_and!; [lia|lia| | |done].
    + split; try done.
      * pose proof (ok_credit _ R1). destruct R1 as [Q1 Q2 Q3 Q4 Q5 Q6 Q7 Q8 Q9 Q10].
        split; try done; cbn; unfold Retained in *; cbn; rewrite ?R2, ?Hw; unfold len in *; rewrite ?length_app, ?length_take in *; lia.
      * cbn. congruence.
      * destruct R6 as [parts H1 H2 H3 H4 H5 H6 H7 H8|p parts H1 H2 H3 H4 H5|d parts H1 H2 H3 H4 H5 H6 H7|H1|H1].
        -- apply at_initial; try done. cbn. by rewrite <- app_assoc, Hbuf.
        -- apply (at_headers (add_total _ (set_buffer _ s)) _ p parts); try done. cbn. by rewrite <- app_assoc, Hbuf.
        -- apply (at_body (add_total _ (set_buffer _ s)) _ d parts); try done. cbn. by rewrite <- app_assoc, Hbuf.
        -- by apply at_epilogue.
        -- by apply at_done.
    + cbn. rewrite Hw. unfold len in *. rewrite length_drop, length_take in *. lia.
  - clear Hc. unfold Feed in H. rewrite R4, He in H. rewrite bool_decide_true in H by done. cbn [negb] in H.
    replace (length (take n U) =? 0)%nat with false in H by (by destruct (take n U)).
    pose proof (ok_total _ R1) as Hto. rewrite R2 in *. pose proof (sized_total_bytes _ Ho) as Hz. unfold SizeRange in Hz.
    rewrite (size_sub_le (maxTotalBytes o)) in H by lia.
    replace (maxTotalBytes o - total s <? len (take n U)) with false in H by lia.
    case_if_in H; [by injection H as <- <-|done].
Qed.

Lemma release_reading s U items n :
  reading s U items -> 0 <= n <= credit s -> reading (ReleaseEvent n s) U items.
Proof.
  intros [R1 R2 R3 R4 R5 R6] Hn.
  assert (size_sub (credit s) n = credit s - n) as Hs.
  { apply size_sub_le; [lia|]. pose proof (ok_retained _ R1). pose proof (options_limits _ (ok_options _ R1)).
    unfold Retained in *. pose proof (len_nonneg (buffer s)). lia. }
  split; try done.
  - destruct R1 as [Q1 Q2 Q3 Q4 Q5 Q6 Q7 Q8 Q9 Q10]. unfold Retained in *.
    split; try done; unfold Retained; cbn; rewrite Hs; lia.
  - destruct R6 as [parts H1 H2 H3 H4 H5 H6 H7 H8|p parts H1 H2 H3 H4 H5|d parts H1 H2 H3 H4 H5 H6 H7|H1|H1].
    + by apply at_initial.
    + by apply (at_headers (ReleaseEvent n s) _ p parts).
    + by apply (at_body (ReleaseEvent n s) _ d parts).
    + by apply at_epilogue.
    + by apply at_done.
Qed.

Lemma finish_reading s items : reading s [] items -> reading (Finish s).2 [] items /\ credit (Finish s).2 = credit s.
Proof.
  intros [R1 R2 R3 R4 R5 R6]. unfold Finish. rewrite R4, bool_decide_true by done. cbn [negb snd]. split; [|done].
  split; try done.
  - by destruct R1.
  - destruct R6 as [parts H1 H2 H3 H4 H5 H6 H7 H8|p parts H1 H2 H3 H4 H5|d parts H1 H2 H3 H4 H5 H6 H7|H1|H1].
    + by apply at_initial.
    + by apply (at_headers (set_eof s) _ p parts).
    + by apply (at_body (set_eof s) _ d parts).
    + by apply at_epilogue.
    + by apply at_done.
Qed.

End stream.

(** A client that sends a body: the parser, the events it holds, the bytes it has not fed yet, the
    events it has read and whether it has seen the end. *)
Record Client : Type := MkClient {
  cParser : State;
  cHeld : list MultipartEvent;
  cUnfed : list Z;
  cEvents : list MultipartEvent;
  cEnded : bool
}.

Inductive Action : Type :=
| ActFeed (size : nat)
| ActRead
| ActRelease (index : nat)
| ActFinish.

(** [None]: a call failed with anything but [WouldBlock].  The client finishes once all is fed. *)
Definition Act (action : Action) (c : Client) : option Client :=
  match action with
  | ActFeed size =>
      match take size (cUnfed c) with
      | [] => Some c
      | bytes =>
          match Feed true bytes (cParser c) with
          | (FromValue n, s) =>
              Some (MkClient s (cHeld c) (drop (Z.to_nat n) (cUnfed c)) (cEvents c) (cEnded c))
          | (FromStatus st, s) =>
              if bool_decide (Status.Code st = WouldBlock)
              then Some (MkClient s (cHeld c) (cUnfed c) (cEvents c) (cEnded c)) else None
          end
      end
  | ActRead =>
      match Read true (cParser c) with
      | Some (FromValue (Some e), s) =>
          Some (MkClient s (cHeld c ++ [e]) (cUnfed c) (cEvents c ++ [e]) (cEnded c))
      | Some (FromValue None, s) => Some (MkClient s (cHeld c) (cUnfed c) (cEvents c) true)
      | Some (FromStatus st, s) =>
          if bool_decide (Status.Code st = WouldBlock)
          then Some (MkClient s (cHeld c) (cUnfed c) (cEvents c) (cEnded c)) else None
      | None => None
      end
  | ActRelease index =>
      match cHeld c !! index with
      | Some e =>
          Some (MkClient (ReleaseEvent (EventBytes e) (cParser c)) (delete index (cHeld c)) (cUnfed c)
            (cEvents c) (cEnded c))
      | None => Some c
      end
  | ActFinish =>
      match cUnfed c with
      | [] => Some (MkClient (Finish (cParser c)).2 (cHeld c) [] (cEvents c) (cEnded c))
      | _ => Some c
      end
  end.

Fixpoint Acts (actions : list Action) (c : Client) : option Client :=
  match actions with
  | [] => Some c
  | action :: actions => match Act action c with Some c => Acts actions c | None => None end
  end.

(** A client that releases every event as soon as it has read it, and feeds what it can when the
    parser asks for more. *)
Fixpoint Deliver (fuel : nat) (c : Client) : option Client :=
  match fuel with
  | O => None
  | S fuel' =>
      match Act ActRead c with
      | None => None
      | Some c1 =>
          if cEnded c1 then Some c1
          else
            let next :=
              match cHeld c1, cUnfed c1 with
              | _ :: _, _ => ActRelease 0
              | [], [] => ActFinish
              | [], unfed => ActFeed (length unfed)
              end in
            match Act next c1 with Some c2 => Deliver fuel' c2 | None => None end
      end
  end.

Definition items_of (events : list MultipartEvent) : list Item := concat (map event_items events).

Section client.
Context (o : MultipartOptions) (boundary epilogue : list Z) (parts : list Part).
Context (Ho : options_sized o) (Hmin : 2 <= maxHeaderBytes o) (Hepilogue : epilogue_ok epilogue).
Context (Hboundary : Boundary boundary = true) (Hparts : Forall (part_ok o boundary) parts).
Context (Hcount : len parts <= maxParts o) (Hfiles : count_files parts <= maxFiles o).
Context (Htotal : len (stream_text boundary epilogue parts) <= maxTotalBytes o).

Record client_ok (c : Client) (items : list Item) : Prop := MkClientOk {
  client_reading : reading o boundary epilogue (cParser c) (cUnfed c) items;
  client_credit : credit (cParser c) = held_bytes (cHeld c);
  client_total : total (cParser c) + len (cUnfed c) <= maxTotalBytes o;
  client_items : items_of (cEvents c) ++ items = parts_items 1 parts;
  client_ended : cEnded c = true -> items = []
}.

Definition client_start : Client :=
  MkClient (NewState boundary o) [] (stream_text boundary epilogue parts) [] false.

Lemma start_ok : client_ok client_start (parts_items 1 parts).
Proof.
  split; try done. split; try done; [by apply new_state_ok|by apply at_initial].
Qed.

Lemma act_ok action c items :
  client_ok c items -> exists c' items', Act action c = Some c' /\ client_ok c' items'.
Proof.
  intros [C1 C2 C3 C4 C5]. destruct action as [size| |i|]; cbn [Act].
  - destruct (take size (cUnfed c)) as [|x bytes] eqn:Et; [by eexists _, _|]. rewrite <- Et.
    assert (eof (cParser c) = false) as He.
    { destruct (eof (cParser c)) eqn:Ee; [|done]. rewrite (reading_eof _ _ _ _ _ _ C1 Ee) in Et. by destruct size. }
    destruct (Feed true (take size (cUnfed c)) (cParser c)) as [r s'] eqn:Ef.
    pose proof (feed_reading o boundary epilogue Ho _ _ _ _ _ _ C1 C3 ltac:(by rewrite Et) He Ef) as Hf. destruct r as [k|st].
    + destruct Hf as (_ & Hr & Ht & Hc). eexists _, items. split; [done|]. split; cbn [cParser cUnfed cHeld cEvents cEnded]; try done; [congruence|lia].
    + destruct Hf as [-> ->]. eexists _, items. split; [done|]. by split.
  - destruct (read_reading o boundary epilogue Ho Hmin Hepilogue _ _ _ C1) as (r & s' & Hr & Hout). rewrite Hr.
    destruct (read_total true (cParser c) (reading_ok _ _ _ _ _ _ C1)) as (r2 & s2 & Hr2 & Hpost).
    rewrite Hr in Hr2. injection Hr2 as <- <-. destruct Hpost as [_ _ _ P4 Pt _].
    destruct r as [[e|]|st]; cbn [read_outcome event_charge] in Hout, P4.
    + destruct Hout as (_ & rest & -> & Hr1). eexists _, rest. split; [done|].
      split; cbn [cParser cUnfed cHeld cEvents cEnded]; [done|..].
      * rewrite P4, C2, held_bytes_app. cbn. lia.
      * by rewrite Pt.
      * unfold items_of in *. rewrite map_app, concat_app, <- app_assoc. cbn. by rewrite app_nil_r.
      * intros He. specialize (C5 He). by apply app_eq_nil in C5 as [_ ->].
    + destruct Hout as (-> & _ & Hr1). eexists _, []. split; [done|].
      split; cbn [cParser cUnfed cHeld cEvents cEnded]; try done; [rewrite P4; lia|by rewrite Pt].
    + destruct Hout as [-> Hr1]. eexists _, items. split; [done|].
      split; cbn [cParser cUnfed cHeld cEvents cEnded]; try done; [rewrite P4; lia|by rewrite Pt].
  - destruct (cHeld c !! i) as [e|] eqn:Ei; [|by eexists _, _]. pose proof (held_bytes_delete _ _ _ Ei) as Hd.
    pose proof (held_bytes_nonneg (delete i (cHeld c))). pose proof (event_bytes_nonneg e).
    eexists _, items. split; [done|]. split; cbn [cParser cUnfed cHeld cEvents cEnded]; try done.
    + apply release_reading; [done|lia].
    + cbn. rewrite size_sub_le; [lia|lia|].
      destruct C1 as [R1 R2 _ _ _ _]. pose proof (ok_retained _ R1). pose proof (options_limits _ (ok_options _ R1)).
      unfold Retained in *. pose proof (len_nonneg (buffer (cParser c))). lia.
  - destruct (cUnfed c) as [|x U] eqn:Eu; [|eexists _, items; split; [done|]; split; try done; by rewrite Eu].
    destruct (finish_reading _ _ _ _ _ C1) as [Hr Hc]. eexists _, items. split; [done|].
    split; cbn [cParser cUnfed cHeld cEvents cEnded]; try done; [congruence|].
    unfold Finish. case_if; done.
Qed.

Lemma acts_ok actions c items :
  client_ok c items -> exists c' items', Acts actions c = Some c' /\ client_ok c' items'.
Proof.
  revert c items. induction actions as [|action actions IH]; intros c items Hc; [by eexists _, _|]. cbn [Acts].
  destruct (act_ok action c items Hc) as (c1 & items1 & -> & Hc1). by eapply IH.
Qed.

(** The turns the client still needs. *)
Definition turns (c : Client) (items : list Item) : nat :=
  length items + length (cUnfed c) + (if eof (cParser c) then 0 else 1).

Lemma items_length c items : client_ok c items -> (length (items_of (cEvents c)) + length items = length (parts_items 1 parts))%nat.
Proof. intros [_ _ _ H _]. by rewrite <- H, length_app. Qed.

(** A call of [Read] that asks for more, when no event is held, is answered by feeding or finishing. *)
Lemma answer_blocked c items s' c2 :
  client_ok (MkClient s' [] (cUnfed c) (cEvents c) false) items -> client_ok c items -> cHeld c = [] ->
  Read true (cParser c) = Some (Fail WouldBlock, s') ->
  Act (match cUnfed c with [] => ActFinish | unfed => ActFeed (length unfed) end)
    (MkClient s' [] (cUnfed c) (cEvents c) false) = Some c2 ->
  cHeld c2 = [] /\ cEvents c2 = cEvents c /\ (turns c2 items < turns c items)%nat.
Proof.
  intros Hc1 Hc Hh Hr Ha. destruct Hc as [C1 C2 C3 C4 C5]. rewrite Hh in C2. cbn in C2.
  pose proof (reading_error _ _ _ _ _ _ C1) as Hok. pose proof (reading_ok _ _ _ _ _ _ C1) as Hpok.
  assert (eof (cParser c) = false /\ eof s' = false) as [He He'].
  { pose proof Hr as Hr'. unfold Read in Hr'. rewrite bool_decide_true in Hr' by done. cbn [negb] in Hr'.
    apply read_loop_blocked in Hr' as [He _]; [|done|done].
    destruct (read_total true _ Hpok) as (r & s2 & Hr2 & [_ _ P3 _ _ _]). rewrite Hr in Hr2. injection Hr2 as <- <-.
    split; congruence. }
  unfold turns. rewrite He. destruct (cUnfed c) as [|x U] eqn:Eu; cbn [Act cUnfed cParser cHeld cEvents cEnded] in Ha.
  - injection Ha as <-. cbn [cHeld cEvents cUnfed cParser]. split_and!; [done|done|].
    destruct Hc1 as [D1 _ _ _ _]. pose proof (reading_error _ _ _ _ _ _ D1) as He1. cbn in He1. unfold Finish.
    rewrite bool_decide_true by done. cbn. lia.
  - assert (take (length (x :: U)) (x :: U) = x :: U) as Ht by apply firstn_all.
    rewrite Ht in Ha. destruct Hc1 as [_ _ D3 _ _]. cbn [cParser cUnfed] in D3.
    destruct (blocked_feed_accepts (cParser c) s' (x :: U)) as (n & s2 & Hn & Hf);
      [done|done|done|done|done|by rewrite (reading_options _ _ _ _ _ _ C1)|].
    rewrite Hf in Ha. injection Ha as <-.
    cbn [cHeld cEvents cUnfed cParser]. split_and!; [done|done|].
    assert (eof s2 = false) as ->.
    { unfold Feed in Hf. repeat case_if_in Hf; try done; by injection Hf as <- <-. }
    rewrite length_drop. cbn [length]. lia.
Qed.

Lemma deliver_ends fuel c items :
  client_ok c items -> cHeld c = [] -> (turns c items < fuel)%nat ->
  exists c', Deliver fuel c = Some c' /\ cEnded c' = true /\ items_of (cEvents c') = parts_items 1 parts.
Proof.
  revert c items. induction fuel as [|fuel IH]; intros c items Hc Hh Hf; [lia|]. cbn [Deliver].
  pose proof Hc as [C1 C2 C3 C4 C5].
  destruct (read_reading o boundary epilogue Ho Hmin Hepilogue _ _ _ C1) as (r & s' & Hr & Hout).
  destruct (read_total true (cParser c) (reading_ok _ _ _ _ _ _ C1)) as (r2 & s2 & Hr2 & Hpost).
  destruct (act_ok ActRead c items Hc) as (c1 & items1 & Ha & Hc1). rewrite Ha. cbn [Act] in Ha.
  rewrite Hr in Hr2, Ha. injection Hr2 as <- <-. destruct Hpost as [_ _ P3 P4 Pt _]. rewrite Hh in Ha.
  destruct r as [[e|]|st]; cbn [read_outcome] in Hout.
  - injection Ha as <-. destruct Hout as (Hne & rest & -> & Hr1). cbn [cEnded cHeld cUnfed app].
    destruct (cEnded c) eqn:Ee; [exfalso; specialize (C5 eq_refl); by apply app_eq_nil in C5 as [? _]|].
    destruct (act_ok (ActRelease 0) _ _ Hc1) as (c2 & items2 & Ha2 & Hc2). rewrite Ha2. cbn in Ha2. injection Ha2 as <-.
    apply (IH _ items2 Hc2); [done|].
    pose proof (items_length _ _ Hc) as L1. pose proof (items_length _ _ Hc2) as L2. cbn [cEvents] in L2.
    unfold items_of in *. rewrite map_app, concat_app, length_app in L2. cbn in L2. rewrite app_nil_r in L2.
    unfold turns in *. cbn [cUnfed cParser]. change (eof (ReleaseEvent _ s')) with (eof s'). rewrite P3.
    assert (length (event_items e) <> 0)%nat by (by destruct (event_items e)). rewrite length_app in L1, Hf. lia.
  - injection Ha as <-. destruct Hout as (-> & _ & _). cbn [cEnded]. eexists. split_and!; [done|done|].
    cbn [cEvents]. by rewrite app_nil_r in C4.
  - destruct Hout as [-> Hr1]. cbn in Ha. injection Ha as <-. cbn [cEnded cHeld cUnfed] in *.
    destruct (cEnded c) eqn:Ee.
    { eexists. split_and!; [done|done|]. cbn [cEvents]. by rewrite (C5 eq_refl), app_nil_r in C4. }
    assert (items1 = items) as ->.
    { apply (app_inv_head (items_of (cEvents c))). rewrite C4. by rewrite <- (client_items _ _ Hc1). }
    destruct (act_ok (match cUnfed c with [] => ActFinish | unfed => ActFeed (length unfed) end) _ _ Hc1) as (c2 & items2 & Ha2 & Hc2).
    rewrite Ha2. destruct (answer_blocked _ _ _ _ Hc1 Hc Hh Hr Ha2) as (Hh2 & He2 & Ht).
    apply (IH _ items2 Hc2 Hh2). assert (items2 = items) as ->; [|lia].
    apply (app_inv_head (items_of (cEvents c))). rewrite C4. by rewrite <- (client_items _ _ Hc2), He2.
Qed.

End client.

(** ** Forms *)

Record FormPart : Type := MkFormPart {
  fName : list Z;
  fFile : option (list Z);
  fType : option (list Z);
  fData : list Z
}.

Definition escape_quoted (text : list Z) : list Z :=
  concat (map (fun c => if (c =? 34) || (c =? 92) then [92; c] else [c]) text).

Definition quote (text : list Z) : list Z := 34 :: escape_quoted text ++ [34].

Definition disposition_text (p : FormPart) : list Z :=
  txt "form-data; name=" ++ quote (fName p)
  ++ match fFile p with None => [] | Some text => txt "; filename=" ++ quote text end.

Definition form_head (p : FormPart) : list Z :=
  txt "Content-Disposition: " ++ disposition_text p
  ++ match fType p with None => [] | Some text => Crlf ++ txt "Content-Type: " ++ text end.

Definition form_event (p : FormPart) (index : Z) : MultipartEvent :=
  MkEvent PartBegin index (fName p) (fFile p) (default [] (fType p))
    ((txt "content-disposition", disposition_text p)
       :: match fType p with None => [] | Some text => [(txt "content-type", text)] end) [].

Definition form_part (p : FormPart) : Part := MkPart (form_head p) (form_event p) (fData p).

(** Texts without the delimiter. *)
Definition free_of (pattern text : list Z) : Prop := forall a b, text <> a ++ pattern ++ b.

Record form_ok (o : MultipartOptions) (boundary : list Z) (p : FormPart) : Prop := MkFormOk {
  form_name : Metadata (fName p) = true;
  form_file : forall text, fFile p = Some text -> Metadata text = true;
  form_type : forall text, fType p = Some text -> ValidHeaderValue text = true /\ Trim text = text;
  form_size : len (form_head p) + 4 <= maxHeaderBytes o;
  form_data : free_of (delim boundary) (fData p);
  form_data_size : len (fData p) <= match fFile p with None => maxPartBytes o | Some _ => maxFileBytes o end
}.

Lemma trim_ends v c d :
  head v = Some c -> last v = Some d -> RequestData.Blank c = false -> RequestData.Blank d = false -> Trim v = v.
Proof.
  intros Hc Hd Bc Bd. unfold Trim, RequestData.Trim. destruct v as [|x v]; [done|]. injection Hc as ->.
  assert (RequestData.TrimFront (c :: v) = c :: v) as -> by (cbn; by rewrite Bc).
  destruct (rev (c :: v)) as [|y w] eqn:E; [by apply (f_equal (@rev Z)) in E; rewrite rev_involutive in E|].
  assert (c :: v = rev w ++ [y]) as E'. { rewrite <- (rev_involutive (c :: v)), E. done. }
  rewrite E', last_snoc in Hd. injection Hd as ->. cbn [RequestData.TrimFront]. rewrite Bd. cbn. done.
Qed.

Lemma trim_space v : Trim (32 :: v) = Trim v.
Proof. done. Qed.

Lemma quoted_round_trip text acc rest :
  QuotedValue (escape_quoted text ++ 34 :: rest) acc = Some (acc ++ text, rest).
Proof.
  revert acc. induction text as [|c text IH]; intros acc; [by rewrite app_nil_r|].
  unfold escape_quoted. cbn [map concat]. fold (escape_quoted text).
  destruct ((c =? 34) || (c =? 92)) eqn:E; cbn [app QuotedValue].
  - change (92 =? 34) with false. change (92 =? 92) with true. cbv iota. rewrite IH. by rewrite <- app_assoc.
  - apply orb_false_iff in E as [-> ->]. rewrite IH. by rewrite <- app_assoc.
Qed.

Lemma last_quote text : last (quote text) = Some 34.
Proof. unfold quote. change (34 :: escape_quoted text ++ [34]) with ((34 :: escape_quoted text) ++ [34]). apply last_snoc. Qed.

Lemma last_after_quote a text : last (a ++ quote text) = Some 34.
Proof. rewrite last_app. by rewrite last_quote. Qed.

(** One quoted parameter, the last one or not. *)
Lemma parameter_step fuel key text rest acc :
  IsToken (txt key) = true -> map Lower (txt key) = txt key -> Trim (txt key) = txt key ->
  char_code "=" ∉ txt key -> head (txt key) <> None -> 
  existsb (fun entry => bytes_eqb entry.1 (txt key)) acc = false -> Metadata text = true ->
  (rest = [] \/ exists more, rest = txt "; " ++ more /\ head more <> None /\
     (forall c, head more = Some c -> RequestData.Blank c = false) /\ last more = Some 34) ->
  ParametersLoop (S fuel) (32 :: txt key ++ txt "=" ++ quote text ++ rest) acc =
    ParametersLoop fuel (drop 1 rest) (acc ++ [(txt key, text)]).
Proof.
  intros Hk Hl Ht He Hh Ha Hm Hr. cbn [ParametersLoop]. rewrite trim_space.
  assert (last (quote text ++ rest) = Some 34) as Hlast.
  { destruct Hr as [-> |(more & -> & Hne & _ & Hlm)]; [rewrite app_nil_r; apply last_quote|].
    rewrite !last_app, Hlm. done. }
  destruct (txt key) as [|k key'] eqn:Ek; [done|].
  assert (RequestData.Blank k = false) as Hb.
  { destruct (is_token_chars _ Hk) as [_ Hch]. apply Forall_cons in Hch as [Hch _]. apply token_char_range in Hch.
    unfold RequestData.Blank. eval_chars. lia. }
  rewrite (trim_ends _ k 34); [|done| |done|done].
  2:{ rewrite app_assoc, last_app, Hlast. done. }
  change (txt "=" ++ quote text ++ rest) with (char_code "=" :: quote text ++ rest).
  rewrite cut_app by done. unfold LowerText. rewrite Ht, Hl, Hk, Ha. cbn [negb orb].
  rewrite (trim_ends (quote text ++ rest) 34 34); [|done|done|done|done].
  unfold ParameterValue, quote. cbn [app]. rewrite Z.eqb_refl. rewrite <- app_assoc. cbn [app].
  rewrite quoted_round_trip. cbn [app].
  destruct Hr as [-> |(more & -> & Hne & Hmb & Hlm)].
  - cbn [Trim RequestData.Trim RequestData.TrimFront rev app]. rewrite Hm. done.
  - destruct more as [|c more]; [done|]. rewrite (trim_ends (txt "; " ++ c :: more) (char_code ";") 34);
      [|done|rewrite last_app, Hlm; done|done|done].
    change (txt "; " ++ c :: more) with (char_code ";" :: 32 :: c :: more). cbv iota. rewrite Z.eqb_refl. cbn [negb orb].
    rewrite trim_space, (trim_ends (c :: more) c 34); [|done|done|by apply Hmb|done]. cbn [length Nat.eqb]. rewrite Hm. done.
Qed.

Lemma parameters_disposition p :
  Metadata (fName p) = true -> (forall text, fFile p = Some text -> Metadata text = true) ->
  Parameters (disposition_text p) = FromValue (MkParameterized (txt "form-data")
    ((txt "name", fName p) :: match fFile p with None => [] | Some text => [(txt "filename", text)] end)).
Proof.
  intros Hn Hf. unfold Parameters, disposition_text.
  change (txt "form-data; name=") with (txt "form-data" ++ char_code ";" :: 32 :: txt "name" ++ txt "="). rewrite <- !app_assoc.
  cbn [app]. rewrite <- !app_assoc. change (txt "form-data" ++ char_code ";" :: ?x) with (txt "form-data" ++ char_code ";" :: x).
  rewrite cut_app.
  2:{ intros Hin. repeat (apply elem_of_cons in Hin as [Hin|Hin]; [done|]). by apply elem_of_nil in Hin. }
  change (LowerText (Trim (txt "form-data"))) with (txt "form-data"). cbv zeta iota.
  set (rest := match fFile p with None => [] | Some text => _ end).
  assert (ParametersLoop (S (length (32 :: txt "name" ++ txt "=" ++ quote (fName p) ++ rest)))
    (32 :: txt "name" ++ txt "=" ++ quote (fName p) ++ rest) [] =
    Some ((txt "name", fName p) :: match fFile p with None => [] | Some text => [(txt "filename", text)] end)) as ->; [|done].
  assert (char_code "=" ∉ txt "name" /\ char_code "=" ∉ txt "filename") as [He1 He2].
  { split; intros Hin; repeat (apply elem_of_cons in Hin as [Hin|Hin]; [done|]); by apply elem_of_nil in Hin. }
  rewrite parameter_step; try done.
  - unfold rest. destruct (fFile p) as [text|]; [|done]. cbn [drop].
    change (drop 1 (txt "; filename=" ++ quote text)) with (32 :: txt "filename" ++ txt "=" ++ quote text).
    rewrite <- (app_nil_r (quote text)). cbn [length]. rewrite parameter_step; try done; [by apply Hf|by left].
  - unfold rest. destruct (fFile p) as [text|]; [|by left]. right. exists (txt "filename=" ++ quote text).
    split_and!; [done|done|by intros c [= <-]|apply last_after_quote].
Qed.

(** ** The head of a form part *)

Lemma metadata_chars text : Metadata text = true -> Forall (fun c => ControlByte c = false /\ c <> 13) text.
Proof.
  unfold Metadata. intros [H _]%andb_prop. rewrite forallb_forall in H. apply Forall_forall. intros c Hc%list_elem_of_In%H.
  unfold ControlByte. lia.
Qed.

Lemma escape_chars (P : Z -> Prop) text : P 92 -> Forall P text -> Forall P (escape_quoted text).
Proof.
  intros Hb H. unfold escape_quoted. induction H as [|c text Hc H IH]; [done|]. cbn [map concat].
  apply Forall_app. split; [|done]. case_if; by repeat constructor.
Qed.

Definition plain_char (c : Z) : Prop := ControlByte c = false /\ c <> 13.

Lemma quote_chars text : Metadata text = true -> Forall plain_char (quote text).
Proof.
  intros H%metadata_chars. unfold quote. constructor; [done|]. apply Forall_app. split; [|by repeat constructor].
  apply escape_chars; done.
Qed.

Lemma txt_plain_chars s : forallb (fun c => negb (ControlByte c)) (txt s) = true -> Forall plain_char (txt s).
Proof.
  rewrite forallb_forall. intros H. apply Forall_forall. intros c Hc%list_elem_of_In%H. unfold plain_char, ControlByte in *. lia.
Qed.

Lemma disposition_chars p :
  Metadata (fName p) = true -> (forall text, fFile p = Some text -> Metadata text = true) ->
  Forall plain_char (disposition_text p).
Proof.
  intros Hn Hf. unfold disposition_text. rewrite !Forall_app. split_and!; [by apply txt_plain_chars|by apply quote_chars|].
  destruct (fFile p) as [text|]; [|done]. apply Forall_app. split; [by apply txt_plain_chars|by apply quote_chars, Hf].
Qed.

Lemma plain_value v : Forall plain_char v -> ValidHeaderValue v = true.
Proof.
  intros H. apply forallb_forall. intros c Hc%list_elem_of_In. rewrite Forall_forall in H. destruct (H c Hc) as [-> _]. done.
Qed.

Lemma plain_no_cr v : Forall plain_char v -> 13 ∉ v.
Proof. intros H Hin. rewrite Forall_forall in H. by destruct (H 13 Hin). Qed.

Lemma cut_none_crlf line : 13 ∉ line -> cut_sub Crlf line = (line, None).
Proof.
  induction line as [|c line IH]; intros H; [done|]. apply not_elem_of_cons in H as [Hc H].
  cbn [cut_sub starts_with Crlf]. replace (13 =? c) with false by lia. cbn [andb]. by rewrite IH.
Qed.

Lemma disposition_trim p : Trim (disposition_text p) = disposition_text p.
Proof.
  apply (trim_ends _ (char_code "f") 34); try done. unfold disposition_text.
  destruct (fFile p) as [text|]; [rewrite app_assoc, app_assoc|rewrite app_nil_r]; apply last_after_quote.
Qed.

(** The two fields. *)
Lemma disposition_field p d t e :
  Metadata (fName p) = true -> (forall text, fFile p = Some text -> Metadata text = true) -> d = false ->
  filename e = None ->
  HeaderField (txt "content-disposition") (disposition_text p) d t e =
    FromValue (true, t, MkEvent (kind e) (partIndex e) (fName p) (fFile p) (contentType e) (headers e) (data e)).
Proof.
  intros Hn Hf -> He. unfold HeaderField. rewrite bytes_eqb_refl, parameters_disposition by done. cbn [main parameters].
  rewrite bytes_eqb_refl. cbn [negb]. destruct (fFile p) as [text|]; cbn [Disposition]; [done|]. by rewrite He.
Qed.

Lemma headers_line fuel limit written value rest d t e d' t' e' :
  IsToken written = true -> 13 ∉ written -> 13 ∉ value -> ValidHeaderValue value = true -> Trim value = value ->
  len (headers e) <> limit ->
  HeaderField (LowerText written) value d t e = FromValue (d', t', e') ->
  HeadersLoop (S fuel) limit (written ++ txt ": " ++ value ++ match rest with None => [] | Some rest => Crlf ++ rest end) d t e =
    HeadersLoop fuel limit (match rest with None => [] | Some rest => rest end) d' t' (push_header (LowerText written, value) e').
Proof.
  intros Hw Hwc Hvc Hv Ht Hl Hf. destruct (is_token_chars _ Hw) as [Hne Hch].
  assert (13 ∉ written ++ txt ": " ++ value) as Hno.
  { rewrite !not_elem_of_app. split_and!; [done| |done]. intros Hin.
    repeat (apply elem_of_cons in Hin as [Hin|Hin]; [done|]). by apply elem_of_nil in Hin. }
  assert (cut_sub Crlf (written ++ txt ": " ++ value ++ match rest with None => [] | Some rest => Crlf ++ rest end) =
    (written ++ txt ": " ++ value, rest)) as Hcut.
  { destruct rest as [rest|]; [|by rewrite app_nil_r, cut_none_crlf].
    replace (written ++ txt ": " ++ value ++ Crlf ++ rest) with ((written ++ txt ": " ++ value) ++ Crlf ++ rest)
      by (by rewrite <- !app_assoc). by rewrite cut_crlf. }
  cbn [HeadersLoop]. destruct (written ++ txt ": " ++ value ++ _) as [|x l] eqn:El; [by destruct written|].
  rewrite Hcut. change (written ++ txt ": " ++ value) with (written ++ char_code ":" :: 32 :: value).
  rewrite cut_app.
  2:{ eapply not_in_forall; [exact Hch|]. intros [_ H]%token_char_range. done. }
  rewrite Hw. cbn [negb]. rewrite trim_space, Ht, Hv. cbn [negb]. replace (len (headers e) =? limit) with false by lia.
  by rewrite Hf.
Qed.

Lemma type_plain text : ValidHeaderValue text = true -> 13 ∉ text.
Proof. intros H%valid_value_chars. eapply not_in_forall; [exact H|]. tauto. Qed.

Lemma form_parsed o boundary p index :
  form_ok o boundary p -> 2 <= maxHeaders o ->
  HeadersLoop (S (length (form_head p))) (maxHeaders o) (form_head p) false false (PlainEvent PartBegin index []) =
    FromValue (form_event p index).
Proof.
  intros [F1 F2 F3 F4 F5 F6] Hh. pose proof (disposition_chars p F1 F2) as Hd. unfold form_head.
  assert (13 ∉ txt "Content-Disposition" /\ 13 ∉ txt "Content-Type") as [Hc1 Hc2].
  { split; apply plain_no_cr, txt_plain_chars; done. }
  pose (rest := match fType p with None => None | Some text => Some (txt "Content-Type: " ++ text) end).
  assert (txt "Content-Disposition: " ++ disposition_text p ++
    match fType p with None => [] | Some text => Crlf ++ txt "Content-Type: " ++ text end =
    txt "Content-Disposition" ++ txt ": " ++ disposition_text p ++ match rest with None => [] | Some rest => Crlf ++ rest end) as ->.
  { unfold rest. by destruct (fType p). }
  erewrite headers_line; [|done|done|by apply plain_no_cr|by apply plain_value|apply disposition_trim|change (len _) with 0; lia
    |apply disposition_field; done].
  unfold rest, form_event. destruct (fType p) as [text|]; [|by destruct (length _)].
  destruct (F3 text eq_refl) as [Hv Ht].
  replace (txt "Content-Type: " ++ text) with (txt "Content-Type" ++ txt ": " ++ text ++ match @None (list Z) with None => [] | Some rest => Crlf ++ rest end)
    by (cbn [app]; by rewrite app_nil_r).
  destruct (length _) as [|n] eqn:En; [by apply (f_equal (fun k => k)) in En; rewrite !length_app in En; cbn in En; lia|].
  erewrite (headers_line n (maxHeaders o) (txt "Content-Type") text None); [|done|done|by apply type_plain|done|done| |done].
  - by destruct n.
  - change (len _) with 1. lia.
Qed.

Lemma cut_sub_plain (pat : list Z) l x :
  13 ∉ l -> head pat = Some 13 ->
  cut_sub pat (l ++ x) = (l ++ (cut_sub pat x).1, (cut_sub pat x).2).
Proof.
  intros Hl Hp. destruct pat as [|q pat]; [done|]. injection Hp as ->. induction l as [|c l IH].
  - cbn [app]. by destruct (cut_sub _ x).
  - apply not_elem_of_cons in Hl as [Hc Hl]. cbn [app cut_sub starts_with]. replace (13 =? c) with false by lia.
    cbn [andb]. rewrite (IH Hl). done.
Qed.

Lemma form_head_cut o boundary p rest :
  form_ok o boundary p ->
  cut_sub (Crlf ++ Crlf) (form_head p ++ (Crlf ++ Crlf) ++ rest) = (form_head p, Some rest).
Proof.
  intros [F1 F2 F3 F4 F5 F6]. pose proof (plain_no_cr _ (disposition_chars p F1 F2)) as Hd.
  assert (13 ∉ txt "Content-Disposition: " ++ disposition_text p) as H1.
  { rewrite not_elem_of_app. split; [|done]. apply plain_no_cr, txt_plain_chars. done. }
  assert (forall rest, cut_sub (Crlf ++ Crlf) ((Crlf ++ Crlf) ++ rest) = ([], Some rest)) as Hend by done.
  unfold form_head. set (l0 := txt "Content-Disposition: " ++ disposition_text p) in *.
  rewrite (app_assoc (txt "Content-Disposition: ")). fold l0. rewrite <- app_assoc, (cut_sub_plain (Crlf ++ Crlf) l0) by done.
  destruct (fType p) as [text|].
  - destruct (F3 text eq_refl) as [Hv _]. set (l := txt "Content-Type: " ++ text).
    assert (13 ∉ 10 :: l) as Hl.
    { apply not_elem_of_cons. split; [done|]. unfold l. rewrite not_elem_of_app. split; [|by apply type_plain].
      apply plain_no_cr, txt_plain_chars. done. }
    change ((Crlf ++ l) ++ (Crlf ++ Crlf) ++ rest) with (13 :: ((10 :: l) ++ (Crlf ++ Crlf) ++ rest)).
    cbn [cut_sub]. assert (starts_with (Crlf ++ Crlf) (13 :: (10 :: l) ++ (Crlf ++ Crlf) ++ rest) = false) as -> by done.
    rewrite (cut_sub_plain (Crlf ++ Crlf) (10 :: l)) by done. rewrite Hend. cbn [fst snd]. by rewrite app_nil_r.
  - cbn [app] in Hend |- *. rewrite Hend. cbn [fst snd]. done.
Qed.

Lemma boundary_no_cr boundary : Boundary boundary = true -> 13 ∉ boundary.
Proof.
  unfold Boundary. intros [_ H]%andb_prop Hin. rewrite forallb_forall in H. apply list_elem_of_In, H in Hin. done.
Qed.

(** The delimiter does not overlap with itself, so text without it ends before it. *)
Lemma free_cut boundary text rest :
  Boundary boundary = true -> free_of (delim boundary) text ->
  cut_sub (delim boundary) (text ++ delim boundary ++ rest) = (text, Some rest).
Proof.
  intros Hb. pose proof (boundary_no_cr _ Hb) as Hno. induction text as [|c text IH]; intros Hf.
  - cbn [app]. assert (starts_with (delim boundary) (delim boundary ++ rest) = true) as Hs by apply starts_with_app.
    unfold delim at 2. unfold delim, Crlf, mark in *. cbn [app] in *. cbn [cut_sub]. rewrite Hs.
    f_equal. f_equal. cbn [length drop]. by rewrite drop_app_length.
  - cbn [app cut_sub]. destruct (starts_with (delim boundary) (c :: text ++ delim boundary ++ rest)) eqn:Es.
    + exfalso. apply starts_with_iff in Es as [r Hr].
      change (c :: text ++ delim boundary ++ rest) with ((c :: text) ++ delim boundary ++ rest) in Hr.
      destruct (decide (length (delim boundary) <= length (c :: text))%nat) as [Hle|Hgt].
      * destruct (prefix_take _ _ _ _ (length (delim boundary)) Hr Hle ltac:(lia)) as [Ht _].
        rewrite firstn_all in Ht. apply (Hf [] (drop (length (delim boundary)) (c :: text))).
        rewrite <- Ht at 1. by rewrite take_drop.
      * assert (nth (length (c :: text)) (delim boundary ++ r) 0 = 13) as Hn.
        { rewrite <- Hr, app_nth2, Nat.sub_diag by lia. done. }
        rewrite app_nth1 in Hn by lia. cbn [length] in Hn, Hgt. unfold delim, mark, Crlf in Hn, Hgt. cbn [app nth] in Hn.
        change (nth (length text) (10 :: txt "--" ++ boundary) 0 = 13) in Hn.
        pose proof (nth_In (n := length text) (10 :: txt "--" ++ boundary) 0) as Hin. rewrite Hn in Hin.
        specialize (Hin ltac:(cbn [length app] in Hgt |- *; lia)).
        repeat (destruct Hin as [Hin|Hin]; [done|]). by apply Hno, list_elem_of_In.
    + rewrite IH; [done|]. intros a b E. apply (Hf (c :: a) b). by rewrite E.
Qed.

Lemma form_part_ok o boundary p :
  Boundary boundary = true -> 2 <= maxHeaders o -> form_ok o boundary p -> part_ok o boundary (form_part p).
Proof.
  intros Hb Hh Hf. split; cbn [pHead pEvent pData form_part].
  - intros rest. by eapply form_head_cut.
  - apply Hf.
  - intros index. by eapply form_parsed.
  - done.
  - intros rest. apply free_cut; [done|apply Hf].
  - unfold is_file. cbn. pose proof (form_data_size _ _ _ Hf). by destruct (fFile p).
Qed.

(** ** The round trip *)

Definition form_body (boundary epilogue : list Z) (ps : list FormPart) : list Z :=
  stream_text boundary epilogue (map form_part ps).

Definition form_items (ps : list FormPart) : list Item := parts_items 1 (map form_part ps).

(** A form the parser's limits admit. *)
Record form_admitted (o : MultipartOptions) (boundary epilogue : list Z) (ps : list FormPart) : Prop := MkAdmitted {
  admitted_options : options_sized o;
  admitted_headers : 2 <= maxHeaders o /\ 2 <= maxHeaderBytes o;
  admitted_boundary : Boundary boundary = true;
  admitted_epilogue : epilogue = [] \/ exists rest, epilogue = Crlf ++ rest;
  admitted_parts : Forall (form_ok o boundary) ps;
  admitted_count : len ps <= maxParts o /\ count_files (map form_part ps) <= maxFiles o;
  admitted_total : len (form_body boundary epilogue ps) <= maxTotalBytes o
}.

Definition form_client (o : MultipartOptions) (boundary epilogue : list Z) (ps : list FormPart) : Client :=
  MkClient (NewState boundary o) [] (form_body boundary epilogue ps) [] false.

Lemma admitted_parts_ok o boundary epilogue ps :
  form_admitted o boundary epilogue ps -> Forall (part_ok o boundary) (map form_part ps).
Proof.
  intros [_ [H2 _] H3 _ H5 _ _]. apply Forall_map. eapply Forall_impl; [exact H5|]. intros p. by apply form_part_ok.
Qed.

Lemma admitted_start o boundary epilogue ps :
  form_admitted o boundary epilogue ps ->
  client_ok o boundary epilogue (map form_part ps) (form_client o boundary epilogue ps) (form_items ps).
Proof.
  intros Ha. pose proof (admitted_parts_ok _ _ _ _ Ha) as Hp. destruct Ha as [H1 [H2 H2'] H3 H4 H5 [H6 H6'] H7].
  apply start_ok; try done. unfold len in *. by rewrite length_map.
Qed.

(** C4. A multipart form sent to the parser comes out of it again: whatever pieces its body is fed
    in and however feeding, reading and releasing events interleave, no call fails (at most it asks
    to wait), the events read so far are a beginning of the form's (each part's name, file name,
    content type and fields, its data in any division, its end), and once [Read] has returned null
    they are all of it.  The data may be any bytes without the delimiter; names may contain quotes
    and backslashes. *)
Theorem multipart_round_trip o boundary epilogue ps actions :
  form_admitted o boundary epilogue ps ->
  exists c, Acts actions (form_client o boundary epilogue ps) = Some c /\
    (exists rest, items_of (cEvents c) ++ rest = form_items ps) /\
    (cEnded c = true -> items_of (cEvents c) = form_items ps).
Proof.
  intros Ha. pose proof (admitted_start _ _ _ _ Ha) as Hs. destruct Ha as [H1 [H2 H2'] H3 H4 H5 [H6 H6'] H7].
  destruct (acts_ok o boundary epilogue (map form_part ps) H1 H2' H4 H3 actions _ _ Hs) as (c & items & Hc & [_ _ _ C4 C5]).
  exists c. split_and!; [done|by exists items|]. intros He. by rewrite (C5 He), app_nil_r in C4.
Qed.

(** The client that releases each event as soon as it has read it, feeds as much as the parser
    takes whenever it asks for more, and finishes when all is fed, comes to the end: after at most
    as many turns as the form has items and the body has bytes, and two, [Read] has returned null
    and the client has seen the whole form. *)
Theorem multipart_delivery_ends o boundary epilogue ps :
  form_admitted o boundary epilogue ps ->
  exists c, Deliver (length (form_items ps) + length (form_body boundary epilogue ps) + 2)
      (form_client o boundary epilogue ps) = Some c /\
    cEnded c = true /\ items_of (cEvents c) = form_items ps.
Proof.
  intros Ha. pose proof (admitted_start _ _ _ _ Ha) as Hs. destruct Ha as [H1 [H2 H2'] H3 H4 H5 [H6 H6'] H7].
  apply (deliver_ends o boundary epilogue (map form_part ps) H1 H2' H4 H3 _ _ _ Hs); [done|].
  unfold turns. cbn [cUnfed cParser form_client]. case_if; lia.
Qed.

(** A form of a value and a file, and its client. *)
Definition sample_form : list FormPart :=
  [MkFormPart (txt "a\b") None None (txt "v"); MkFormPart (txt "f") (Some (txt "x.txt")) (Some (txt "text/plain")) [13; 10; 0; 255]].

Lemma sample_free text : (length text < 6)%nat -> free_of (delim (txt "AB")) text.
Proof. intros H a b ->. rewrite !length_app in H. cbn in H. lia. Qed.

Lemma sample_admitted : form_admitted DefaultOptions (txt "AB") (Crlf ++ txt "bye") sample_form.
Proof.
  split.
  - by repeat split.
  - done.
  - done.
  - right. by eexists.
  - repeat constructor; cbn; try done; try (intros text [= <-]; done); try (apply sample_free; cbn; lia);
      (match goal with H : _ = Some _ |- _ => by injection H as <- end).
  - done.
  - done.
Qed.

Lemma multipart_round_trip_witness :
  exists c, Acts [ActFeed 7; ActRead; ActFeed 60; ActRead; ActRead; ActFeed 500; ActRead; ActRead; ActRelease 1; ActRead;
      ActFinish; ActRead; ActRead; ActRead; ActRead; ActRead] (form_client DefaultOptions (txt "AB") (Crlf ++ txt "bye") sample_form) = Some c /\
    (exists rest, items_of (cEvents c) ++ rest = form_items sample_form) /\
    (cEnded c = true -> items_of (cEvents c) = form_items sample_form).
Proof. apply (multipart_round_trip DefaultOptions (txt "AB") (Crlf ++ txt "bye") sample_form). apply sample_admitted. Defined.

Lemma multipart_delivery_ends_witness :
  exists c, Deliver (length (form_items sample_form) + length (form_body (txt "AB") (Crlf ++ txt "bye") sample_form) + 2)
      (form_client DefaultOptions (txt "AB") (Crlf ++ txt "bye") sample_form) = Some c /\
    cEnded c = true /\ items_of (cEvents c) = form_items sample_form.
Proof. apply (multipart_delivery_ends DefaultOptions (txt "AB") (Crlf ++ txt "bye") sample_form). apply sample_admitted. Defined.
