(* ===== verification/KeyedExecutor.v ===== *)
(** * Runtime: the keyed executor.

    [Runtime/KeyedExecutor.cpp]: tasks of one key run one at a time in the order they were accepted,
    tasks of different keys on any worker.  Every function below is the work of one critical section
    of [KeyedExecutorState::mutex], so that a run of the executor is a sequence of them in any order:
    [Submit] (its two admissions), [Cancel], [RequestStop], [WorkerTake] and [WorkerFinish] of a
    worker's loop, [CoordinateRound] of the coordinator's and [Publish].  Tasks are objects in a store,
    named by the order in which they were accepted; the keys' slots hold the intrusive list of ready
    keys through their members [previous] and [next].  What [Publish] is called with once a task has
    left the queue is kept in the task ([publishing]).  The clock and the parents' stop tokens are
    an argument ([Env]).  The latency figures of the metrics, and the callbacks, which run outside the
    lock and cannot reach this state but through these functions, are left out. *)

From S2P Require Import Prelude CoreError.
From stdpp Require Import gmap.
Local Open Scope Z_scope.

Module KeyedExecutor.

Inductive KeyedPhase : Type := Queued | Running | Completing | Terminal.

#[export] Instance KeyedPhase_eq_dec : EqDecision KeyedPhase.
Proof. solve_decision. Defined.

Record KeyedExecutorOptions : Type := MkOptions {
  workerCount : Z;
  maxKeys : Z;
  maxOutstandingTasks : Z;
  maxRetainedBytes : Z;
  maxOutstandingTasksPerKey : Z;
  maxRetainedBytesPerKey : Z
}.

Record TaskOptions : Type := MkTaskOptions {
  retainedBytes : Z;
  parentToken : option nat;
  deadline : option Z
}.

Record KeyedTaskState : Type := MkTask {
  key : Z;
  task_options : TaskOptions;
  phase : KeyedPhase;
  cancelReason : ErrorCode;
  signalSent : bool;
  publishing : option (ErrorCode * bool);
  result : ErrorCode
}.

Record Key : Type := MkKey {
  queued : list nat;
  key_outstanding : Z;
  key_bytes : Z;
  busy : bool;
  key_ready : bool;
  previous : option Z;
  next : option Z
}.

Record Metrics : Type := MkMetrics {
  acceptedTasks : Z;
  completedTasks : Z;
  failedTasks : Z;
  cancelledTasks : Z;
  timedOutTasks : Z;
  rejectedTasks : Z
}.

Record State : Type := MkState {
  options : KeyedExecutorOptions;
  keys : gmap Z Key;
  tasks : list nat;
  store : gmap nat KeyedTaskState;
  readyHead : option Z;
  readyTail : option Z;
  started : bool;
  ready : bool;
  stopping : bool;
  pending : Z;
  running : Z;
  outstanding : Z;
  retained : Z;
  metrics : Metrics
}.

(** [KeyedClock::now()] and [stop_requested()] of the parents, when a critical section reads them. *)
Record Env : Type := MkEnv { now : Z; stop_requested : nat -> bool }.

Definition NewMetrics : Metrics := MkMetrics 0 0 0 0 0 0.

Definition NewState (defaults : KeyedExecutorOptions) : State :=
  MkState defaults ∅ [] ∅ None None false false false 0 0 0 0 NewMetrics.

Definition Fail (code : ErrorCode) : Status := Status.FailWithoutMessage code.

(** [Observability::Detail::Add] by one: the counters saturate. *)
Definition Add (value : Z) : Z := if UINT64_MAX - value <? 1 then UINT64_MAX else value + 1.

(** Assignments. *)
Definition set_keys (k : gmap Z Key) (s : State) : State :=
  MkState (options s) k (tasks s) (store s) (readyHead s) (readyTail s) (started s) (ready s) (stopping s)
    (pending s) (running s) (outstanding s) (retained s) (metrics s).
Definition set_ends (h t : option Z) (s : State) : State :=
  MkState (options s) (keys s) (tasks s) (store s) h t (started s) (ready s) (stopping s)
    (pending s) (running s) (outstanding s) (retained s) (metrics s).
Definition set_store (m : gmap nat KeyedTaskState) (s : State) : State :=
  MkState (options s) (keys s) (tasks s) m (readyHead s) (readyTail s) (started s) (ready s) (stopping s)
    (pending s) (running s) (outstanding s) (retained s) (metrics s).
Definition set_tasks (l : list nat) (s : State) : State :=
  MkState (options s) (keys s) l (store s) (readyHead s) (readyTail s) (started s) (ready s) (stopping s)
    (pending s) (running s) (outstanding s) (retained s) (metrics s).
Definition set_flags (st rd sp : bool) (o : KeyedExecutorOptions) (s : State) : State :=
  MkState o (keys s) (tasks s) (store s) (readyHead s) (readyTail s) st rd sp
    (pending s) (running s) (outstanding s) (retained s) (metrics s).
Definition set_counts (p r o b : Z) (s : State) : State :=
  MkState (options s) (keys s) (tasks s) (store s) (readyHead s) (readyTail s) (started s) (ready s)
    (stopping s) p r o b (metrics s).
Definition set_metrics (m : Metrics) (s : State) : State :=
  MkState (options s) (keys s) (tasks s) (store s) (readyHead s) (readyTail s) (started s) (ready s)
    (stopping s) (pending s) (running s) (outstanding s) (retained s) m.

Definition put_key (k : Z) (slot : Key) (s : State) : State := set_keys (<[k := slot]> (keys s)) s.
Definition put_task (t : nat) (task : KeyedTaskState) (s : State) : State :=
  set_store (<[t := task]> (store s)) s.

Definition with_queued (l : list nat) (k : Key) : Key :=
  MkKey l (key_outstanding k) (key_bytes k) (busy k) (key_ready k) (previous k) (next k).
Definition with_counts (n b : Z) (k : Key) : Key :=
  MkKey (queued k) n b (busy k) (key_ready k) (previous k) (next k).
Definition with_busy (b : bool) (k : Key) : Key :=
  MkKey (queued k) (key_outstanding k) (key_bytes k) b (key_ready k) (previous k) (next k).
Definition with_links (r : bool) (p n : option Z) (k : Key) : Key :=
  MkKey (queued k) (key_outstanding k) (key_bytes k) (busy k) r p n.

Definition with_phase (p : KeyedPhase) (t : KeyedTaskState) : KeyedTaskState :=
  MkTask (key t) (task_options t) p (cancelReason t) (signalSent t) (publishing t) (result t).
Definition with_reason (c : ErrorCode) (t : KeyedTaskState) : KeyedTaskState :=
  MkTask (key t) (task_options t) (phase t) c (signalSent t) (publishing t) (result t).
Definition with_signal (t : KeyedTaskState) : KeyedTaskState :=
  MkTask (key t) (task_options t) (phase t) (cancelReason t) true (publishing t) (result t).
Definition with_publishing (p : option (ErrorCode * bool)) (t : KeyedTaskState) : KeyedTaskState :=
  MkTask (key t) (task_options t) (phase t) (cancelReason t) (signalSent t) p (result t).
Definition with_result (c : ErrorCode) (t : KeyedTaskState) : KeyedTaskState :=
  MkTask (key t) (task_options t) (phase t) (cancelReason t) (signalSent t) None c.

(** ** The list of ready keys *)

Definition Enqueue (k : Z) (s : State) : State :=
  match keys s !! k with
  | None => s
  | Some slot =>
      if key_ready slot || busy slot || (length (queued slot) =? 0)%nat then s
      else
        let s := put_key k (with_links true (readyTail s) None slot) s in
        let s :=
          match readyTail s with
          | Some tail =>
              match keys s !! tail with
              | Some last => put_key tail (with_links (key_ready last) (previous last) (Some k) last) s
              | None => s
              end
          | None => set_ends (Some k) (readyTail s) s
          end in
        set_ends (readyHead s) (Some k) s
  end.

Definition RemoveReady (k : Z) (s : State) : State :=
  match keys s !! k with
  | None => s
  | Some slot =>
      if negb (key_ready slot) then s
      else
        let s :=
          match previous slot with
          | Some p =>
              match keys s !! p with
              | Some before => put_key p (with_links (key_ready before) (previous before) (next slot) before) s
              | None => s
              end
          | None => set_ends (next slot) (readyTail s) s
          end in
        let s :=
          match next slot with
          | Some n =>
              match keys s !! n with
              | Some after => put_key n (with_links (key_ready after) (previous slot) (next after) after) s
              | None => s
              end
          | None => set_ends (readyHead s) (previous slot) s
          end in
        match keys s !! k with
        | Some slot => put_key k (with_links false None None slot) s
        | None => s
        end
  end.

(** ** Submitting and cancelling *)

Definition OptionsValid (o : KeyedExecutorOptions) : bool :=
  negb ((workerCount o =? 0) || (maxKeys o =? 0) || (maxOutstandingTasks o =? 0)
    || (maxRetainedBytes o =? 0) || (maxOutstandingTasksPerKey o =? 0) || (maxRetainedBytesPerKey o =? 0)).

(** The two sections of [Start] under the lock; the threads are created between them.  [inScope]:
    the caller is one of the executor's own threads. *)
Definition StartClaim (inScope : bool) (o : KeyedExecutorOptions) (s : State) : Status * State :=
  if negb (OptionsValid o) || inScope then (Fail InvalidArgument, s)
  else if started s || stopping s then (Fail Closed, s)
  else (Status.Ok, set_flags true (ready s) (stopping s) o s).

Definition StartReady (s : State) : State := set_flags (started s) true (stopping s) (options s) s.

(** Differences of [std::size_t] values wrap around. *)
Definition size_sub (a b : Z) : Z := wrap64 (a - b).

Definition Admission (k bytes : Z) (s : State) : Status :=
  let o := options s in
  if (maxRetainedBytes o <? bytes) || (maxRetainedBytesPerKey o <? bytes) then Fail TooLarge
  else if negb (ready s) || stopping s then Fail Closed
  else if (maxOutstandingTasks o <=? outstanding s) || (size_sub (maxRetainedBytes o) (retained s) <? bytes)
  then Fail WouldBlock
  else
    match keys s !! k with
    | None => if maxKeys o <=? Z.of_nat (size (keys s)) then Fail WouldBlock else Status.Ok
    | Some slot =>
        if (maxOutstandingTasksPerKey o <=? key_outstanding slot)
           || (size_sub (maxRetainedBytesPerKey o) (key_bytes slot) <? bytes) then Fail WouldBlock
        else Status.Ok
    end.

Definition ObserveCancellation (env : Env) (t : KeyedTaskState) : KeyedTaskState :=
  if negb (bool_decide (cancelReason t = ErrorCode_Ok)) then t
  else if match deadline (task_options t) with Some d => d <=? now env | None => false end then
    with_reason Timeout t
  else if match parentToken (task_options t) with Some p => stop_requested env p | None => false end then
    with_reason Cancelled t
  else t.

(** The first admission of [Submit], before the task is built. *)
Definition SubmitCheck (hasJob : bool) (k : Z) (o : TaskOptions) (s : State) : Status :=
  if negb hasJob then Fail InvalidArgument else Admission k (retainedBytes o) s.

Definition NewTask (k : Z) (o : TaskOptions) : KeyedTaskState :=
  MkTask k o Queued ErrorCode_Ok false None WouldBlock.

Definition NewKey : Key := MkKey [] 0 0 false false None None.

(** The second one, with the commit of the task [t] that was built; [reason] is the cancelReason it
    already has when a parent stopped while it was being built. *)
Definition SubmitCommit (env : Env) (t : nat) (reason : ErrorCode) (k : Z) (o : TaskOptions) (s : State)
    : Status * State :=
  let admitted := Admission k (retainedBytes o) s in
  if negb (Status.IsOk admitted) then (admitted, s)
  else
    let slot := match keys s !! k with Some slot => slot | None => NewKey end in
    let task := ObserveCancellation env (with_reason reason (NewTask k o)) in
    let s := put_task t task s in
    let s := set_tasks (tasks s ++ [t]) s in
    let s := put_key k (with_counts (key_outstanding slot + 1) (key_bytes slot + retainedBytes o)
               (with_queued (queued slot ++ [t]) slot)) s in
    let s := set_counts (pending s + 1) (running s) (outstanding s + 1) (retained s + retainedBytes o) s in
    let m := metrics s in
    let s := set_metrics (MkMetrics (Add (acceptedTasks m)) (completedTasks m) (failedTasks m)
               (cancelledTasks m) (timedOutTasks m) (rejectedTasks m)) s in
    (Status.Ok, Enqueue k s).

Definition Rejected (s : State) : State :=
  let m := metrics s in
  set_metrics (MkMetrics (acceptedTasks m) (completedTasks m) (failedTasks m) (cancelledTasks m)
    (timedOutTasks m) (Add (rejectedTasks m))) s.

Definition Cancel (env : Env) (t : nat) (s : State) : bool * State :=
  match store s !! t with
  | None => (false, s)
  | Some task =>
      if bool_decide (phase task = Completing) || bool_decide (phase task = Terminal)
         || negb (bool_decide (cancelReason task = ErrorCode_Ok)) then (false, s)
      else
        (true, put_task t (with_reason
           (if match deadline (task_options task) with Some d => d <=? now env | None => false end
            then Timeout else Cancelled) task) s)
  end.

(** The loop of [RequestStop] over the tasks. *)
Definition StopTask (env : Env) (t : nat) (s : State) : State :=
  match store s !! t with
  | None => s
  | Some task =>
      if bool_decide (phase task = Completing) then s
      else
        let task := ObserveCancellation env task in
        put_task t (if bool_decide (cancelReason task = ErrorCode_Ok) then with_reason Cancelled task else task) s
  end.

Definition RequestStop (env : Env) (s : State) : State :=
  let s := set_flags (started s) (ready s) true (options s) s in
  fold_left (fun s t => StopTask env t s) (tasks s) s.

Definition IsStopRequested (s : State) : bool := stopping s.
Definition KeyCount (s : State) : Z := Z.of_nat (size (keys s)).
Definition OutstandingCount (s : State) : Z := outstanding s.
Definition OutstandingOf (k : Z) (s : State) : Z :=
  match keys s !! k with Some slot => key_outstanding slot | None => 0 end.
Definition RetainedOf (k : Z) (s : State) : Z :=
  match keys s !! k with Some slot => key_bytes slot | None => 0 end.

(** ** Workers *)

(** What a round of the inner loop of [Run] finds: the worker returns, has a task to run, looks
    again at once, or waits.  [None]: a key without a task was in the ready list. *)
Inductive Taken : Type := TakenReturn | TakenTask (t : nat) | TakenAgain | TakenWait.

Definition WorkerTake (env : Env) (s : State) : option (Taken * State) :=
  if stopping s then Some (TakenReturn, s)
  else
    match readyHead s with
    | Some k =>
        if negb (ready s) then Some (TakenWait, s)
        else
          let s := RemoveReady k s in
          match keys s !! k with
          | Some slot =>
              match queued slot with
              | t :: rest =>
                  match store s !! t with
                  | Some task =>
                      let task := ObserveCancellation env task in
                      if negb (bool_decide (cancelReason task = ErrorCode_Ok)) then
                        Some (TakenAgain, put_task t task s)
                      else
                        let s := put_key k (with_busy true (with_queued rest slot)) s in
                        let s := put_task t (with_phase Running task) s in
                        Some (TakenTask t,
                          set_counts (size_sub (pending s) 1) (running s + 1) (outstanding s) (retained s) s)
                  | None => None
                  end
              | [] => None
              end
          | None => None
          end
    | None => Some (TakenWait, s)
    end.

(** After the job has returned [code] ([PlatformError] when it threw). *)
Definition WorkerFinish (env : Env) (t : nat) (code : ErrorCode) (s : State) : State :=
  match store s !! t with
  | None => s
  | Some task =>
      let task := ObserveCancellation env task in
      let reason := cancelReason task in
      let code := if bool_decide (reason = ErrorCode_Ok) then code else reason in
      put_task t (with_publishing (Some (code, true)) (with_phase Completing task)) s
  end.

(** The section of [Publish] under the lock, after the completion callback. [None]: the task's key is
    not there. *)
Definition CountResult (code : ErrorCode) (m : Metrics) : Metrics :=
  let completed := Add (completedTasks m) in
  if bool_decide (code = Cancelled) then
    MkMetrics (acceptedTasks m) completed (failedTasks m) (Add (cancelledTasks m)) (timedOutTasks m) (rejectedTasks m)
  else if bool_decide (code = Timeout) then
    MkMetrics (acceptedTasks m) completed (failedTasks m) (cancelledTasks m) (Add (timedOutTasks m)) (rejectedTasks m)
  else if negb (bool_decide (code = ErrorCode_Ok)) then
    MkMetrics (acceptedTasks m) completed (Add (failedTasks m)) (cancelledTasks m) (timedOutTasks m) (rejectedTasks m)
  else
    MkMetrics (acceptedTasks m) completed (failedTasks m) (cancelledTasks m) (timedOutTasks m) (rejectedTasks m).

Definition Publish (t : nat) (code : ErrorCode) (occupiedKey : bool) (s : State) : option State :=
  match store s !! t with
  | None => None
  | Some task =>
      let k := key task in
      let bytes := retainedBytes (task_options task) in
      match keys s !! k with
      | None => None
      | Some slot =>
          let slot := with_counts (size_sub (key_outstanding slot) 1) (size_sub (key_bytes slot) bytes) slot in
          let s := set_counts (pending s) (if occupiedKey then size_sub (running s) 1 else running s)
                     (size_sub (outstanding s) 1) (size_sub (retained s) bytes) s in
          let slot := if occupiedKey then with_busy false slot else slot in
          let s := put_key k slot s in
          let s := put_task t (with_result code (with_phase Terminal task)) s in
          let s := set_tasks (filter (fun other => other <> t) (tasks s)) s in
          let s := set_metrics (CountResult code (metrics s)) s in
          Some (if key_outstanding slot =? 0 then
                  let s := RemoveReady k s in set_keys (delete k (keys s)) s
                else Enqueue k s)
      end
  end.

(** ** The coordinator *)

(** The task its loop selects, and whether it was queued; the tasks before it are observed. *)
Fixpoint ScanTasks (env : Env) (ids : list nat) (s : State) : option (nat * bool) * State :=
  match ids with
  | [] => (None, s)
  | t :: ids =>
      match store s !! t with
      | None => ScanTasks env ids s
      | Some task =>
          if bool_decide (phase task = Completing) then ScanTasks env ids s
          else
            let task := ObserveCancellation env task in
            let s := put_task t task s in
            if negb (bool_decide (cancelReason task = ErrorCode_Ok)) && negb (signalSent task) then
              (Some (t, bool_decide (phase task = Queued)), put_task t (with_signal task) s)
            else ScanTasks env ids s
      end
  end.

(** What is done with a queued task that was selected. *)
Definition Unqueue (t : nat) (s : State) : option State :=
  match store s !! t with
  | None => None
  | Some task =>
      let s := put_task t (with_publishing (Some (cancelReason task, false)) (with_phase Completing task)) s in
      let s := set_counts (size_sub (pending s) 1) (running s) (outstanding s) (retained s) s in
      match keys s !! key task with
      | None => None
      | Some slot =>
          let rest := filter (fun other => other <> t) (queued slot) in
          let s := put_key (key task) (with_queued rest slot) s in
          Some (if (length rest =? 0)%nat then RemoveReady (key task) s else Enqueue (key task) s)
      end
  end.

(** The earliest deadline of the tasks that were passed over. *)
Definition NextDeadline (ids : list nat) (s : State) : option Z :=
  fold_left (fun best t =>
    match store s !! t with
    | None => best
    | Some task =>
        match deadline (task_options task) with
        | Some d =>
            if negb (bool_decide (phase task = Completing)) && bool_decide (cancelReason task = ErrorCode_Ok)
               && match best with None => true | Some b => d <? b end
            then Some d else best
        | None => best
        end
    end) ids None.

(** [KeyedClock::time_point::max()]. *)
Definition TimePointMax : Z := 9223372036854775807.

(** What the coordinator does next: signals the task (and publishes it when it was queued), returns,
    or waits, until a time if there is one. *)
Inductive Coordinated : Type :=
  CoordinatedTask (t : nat) (wasQueued : bool) | CoordinatedReturn | CoordinatedWait (until : option Z).

Definition CoordinateRound (env : Env) (s : State) : option (Coordinated * State) :=
  match ScanTasks env (tasks s) s with
  | (Some (t, true), s) => match Unqueue t s with Some s => Some (CoordinatedTask t true, s) | None => None end
  | (Some (t, false), s) => Some (CoordinatedTask t false, s)
  | (None, s) =>
      if stopping s && (length (tasks s) =? 0)%nat then Some (CoordinatedReturn, s)
      else Some (CoordinatedWait (match NextDeadline (tasks s) s with
                                  | Some d => if d =? TimePointMax then None else Some d
                                  | None => None
                                  end), s)
  end.

(** ** Handles *)

(** [KeyedTaskHandle::IsFinished], and the code of [GetStatus]. *)
Definition IsFinished (t : KeyedTaskState) : bool := bool_decide (phase t = Terminal).
Definition GetStatus (t : KeyedTaskState) : ErrorCode := result t.

End KeyedExecutor.

Import KeyedExecutor.


(** ** The list of ready keys, seen as a list *)

(** What the members [key_ready], [previous] and [next] of the slot of [k] hold when the list is [l],
    [before] being what precedes it. *)
Fixpoint links (before : option Z) (l : list Z) (k : Z) : bool * option Z * option Z :=
  match l with
  | [] => (false, None, None)
  | x :: l => if bool_decide (x = k) then (true, before, head l) else links (Some x) l k
  end.

Definition slot_links (slot : Key) : bool * option Z * option Z := (key_ready slot, previous slot, next slot).

Definition last_or (before : option Z) (l : list Z) : option Z :=
  match last l with Some x => Some x | None => before end.

Record ReadyList (l : list Z) (s : State) : Prop := {
  rl_nodup : NoDup l;
  rl_head : readyHead s = head l;
  rl_tail : readyTail s = last l;
  rl_slots : forall k slot, keys s !! k = Some slot -> slot_links slot = links None l k;
  rl_found : forall k, k ∈ l -> is_Some (keys s !! k)
}.

(** The rest of a slot, which the list does not touch. *)
Definition core (slot : Key) : list nat * Z * Z * bool :=
  (queued slot, key_outstanding slot, key_bytes slot, busy slot).

Record SameButLinks (s s' : State) : Prop := {
  sb_core : forall k, core <$> keys s' !! k = core <$> keys s !! k;
  sb_rest : exists m h t, s' = set_ends h t (set_keys m s)
}.

Lemma links_outside (k : Z) (l : list Z) : forall p, k ∉ l -> links p l k = (false, None, None).
Proof.
  induction l as [|x l IH]; intros p Hk; [done|]. cbn.
  rewrite bool_decide_false by set_solver. apply IH. set_solver.
Qed.

Lemma links_inside (k : Z) (l : list Z) : forall p, k ∈ l -> (links p l k).1.1 = true.
Proof.
  induction l as [|x l IH]; intros p Hk; [set_solver|]. cbn.
  case_bool_decide; [done|]. apply IH. set_solver.
Qed.

Lemma last_or_cons (p : option Z) (x : Z) (l : list Z) : last_or p (x :: l) = last_or (Some x) l.
Proof. unfold last_or. rewrite last_cons. by destruct (last l). Qed.

Lemma last_or_None (l : list Z) : last_or None l = last l.
Proof. unfold last_or. by destruct (last l). Qed.

Lemma links_at (k : Z) (a b : list Z) : forall p,
  k ∉ a -> links p (a ++ k :: b) k = (true, last_or p a, head b).
Proof.
  induction a as [|x a IH]; intros p Hk; cbn.
  - by rewrite bool_decide_true.
  - rewrite bool_decide_false by set_solver. rewrite IH by set_solver. by rewrite last_or_cons.
Qed.

Lemma last_Some_in (l : list Z) (x : Z) : last l = Some x -> x ∈ l.
Proof. intros H. apply last_Some in H as [l' ->]. set_solver. Qed.

Lemma head_Some_in (l : list Z) (x : Z) : head l = Some x -> x ∈ l.
Proof. destruct l; [done|]. intros [= ->]. set_solver. Qed.

(** Appending a key changes its own links and the [next] of the last one. *)
Lemma links_snoc (k x : Z) (l : list Z) : forall p, NoDup l -> k ∉ l ->
  links p (l ++ [k]) x =
    (if bool_decide (x = k) then (true, last_or p l, None)
     else if bool_decide (last l = Some x) then ((links p l x).1, Some k) else links p l x).
Proof.
  induction l as [|y l IH]; intros p Hn Hk.
  - cbn. repeat case_bool_decide; naive_solver.
  - apply NoDup_cons in Hn as [Hy Hn]. rewrite last_or_cons. cbn [app links].
    rewrite IH by (done || set_solver). destruct l as [|z l].
    + cbn. repeat case_bool_decide; subst; try set_solver; naive_solver.
    + replace (last (y :: z :: l)) with (last (z :: l)) by done.
      destruct (decide (y = x)) as [->|Hyx].
      * rewrite (bool_decide_true (x = x)) by done. rewrite (bool_decide_false (x = k)) by set_solver.
        rewrite bool_decide_false; [done|]. intros H%last_Some_in. done.
      * by rewrite (bool_decide_false (y = x)).
Qed.

(** Removing one changes its own links and those of its neighbours. *)
Lemma links_remove (k x : Z) (b a : list Z) : forall p, NoDup (a ++ k :: b) ->
  links p (a ++ b) x =
    (if bool_decide (x = k) then (false, None, None)
     else ((links p (a ++ k :: b) x).1.1,
           if bool_decide (head b = Some x) then last_or p a else (links p (a ++ k :: b) x).1.2,
           if bool_decide (last a = Some x) then head b else (links p (a ++ k :: b) x).2)).
Proof.
  induction a as [|y a IH]; intros p Hn.
  - cbn [app] in *. apply NoDup_cons in Hn as [Hk Hn]. case_bool_decide; [subst; by apply links_outside|].
    destruct b as [|z b]; cbn; rewrite (bool_decide_false (k = x)) by done; [done|].
    destruct (decide (z = x)) as [->|Hz]; [by rewrite !bool_decide_true by done|].
    rewrite !(bool_decide_false (z = x)) by done. rewrite bool_decide_false by congruence.
    cbn. by destruct (links (Some z) b x) as [[??]?].
  - cbn [app] in *. apply NoDup_cons in Hn as [Hy Hn]. rewrite last_or_cons.
    destruct (decide (y = x)) as [->|Hyx].
    + cbn [links]. rewrite (bool_decide_true (x = x)) by done. rewrite (bool_decide_false (x = k)) by set_solver.
      rewrite (bool_decide_false (head b = Some x)) by (intros H%head_Some_in; set_solver).
      destruct a as [|z a]; cbn; [by rewrite bool_decide_true|].
      rewrite bool_decide_false; [done|]. intros H. apply Hy.
      pose proof (last_Some_in (z :: a) x H). set_solver.
    + cbn [links]. rewrite (bool_decide_false (y = x)) by done. rewrite IH by done.
      case_bool_decide; [done|].
      replace (bool_decide (last (y :: a) = Some x)) with (bool_decide (last a = Some x)); [done|].
      destruct a; cbn; [|done]. apply bool_decide_ext. naive_solver.
Qed.

Lemma ready_iff (l : list Z) (s : State) (k : Z) (slot : Key) :
  ReadyList l s -> keys s !! k = Some slot -> key_ready slot = bool_decide (k ∈ l).
Proof.
  intros Hl Hk. pose proof (rl_slots _ _ Hl _ _ Hk) as H. case_bool_decide as Hin.
  - apply (links_inside k l None) in Hin. rewrite <-H in Hin. exact Hin.
  - rewrite links_outside in H by done. by injection H.
Qed.

Lemma same_refl (s : State) : SameButLinks s s.
Proof. split; [done|]. exists (keys s), (readyHead s), (readyTail s). by destruct s. Qed.

(** The keys of the list after [Enqueue] of [k]. *)
Definition enqueued (k : Z) (slot : Key) (l : list Z) : list Z :=
  if bool_decide (k ∈ l) || busy slot || (length (queued slot) =? 0)%nat then l else l ++ [k].

(** A state is the list [l'] once every slot has the links of [l']. *)
Definition relinked (l : list Z) (k : Z) (slot : Key) : Key :=
  let '(r, p, n) := links None l k in with_links r p n slot.

Lemma relink (l : list Z) (s s' : State) :
  NoDup l -> (forall k, k ∈ l -> is_Some (keys s !! k)) ->
  s' = set_ends (head l) (last l) (set_keys (keys s') s) ->
  (forall k, keys s' !! k = relinked l k <$> keys s !! k) ->
  ReadyList l s' /\ SameButLinks s s'.
Proof.
  intros Hn Hf -> Hm. cbn in Hm. split; split; cbn; try done.
  - intros k slot. rewrite Hm. intros [sl [Hs ->]]%fmap_Some. unfold relinked.
    by destruct (links None l k) as [[??]?].
  - intros k Hk. rewrite Hm. destruct (Hf k Hk) as [sl ->]. by eexists.
  - intros k. rewrite Hm. destruct (keys s !! k); cbn; [|done]. unfold relinked.
    by destruct (links None l k) as [[??]?].
  - by eexists _, _, _.
Qed.

(** Slots that already have their links. *)
Lemma relinked_same (l l' : list Z) (s : State) (k : Z) (slot : Key) :
  ReadyList l s -> keys s !! k = Some slot -> links None l' k = links None l k -> relinked l' k slot = slot.
Proof.
  intros Hl Hk He. unfold relinked. rewrite He, <-(rl_slots _ _ Hl _ _ Hk). by destruct slot.
Qed.

Lemma Enqueue_spec (k : Z) (slot : Key) (l : list Z) (s : State) :
  ReadyList l s -> keys s !! k = Some slot ->
  ReadyList (enqueued k slot l) (Enqueue k s) /\ SameButLinks s (Enqueue k s).
Proof.
  intros Hl Hk. unfold Enqueue, enqueued. rewrite Hk, (ready_iff l s k slot) by done.
  destruct (bool_decide (k ∈ l) || busy slot || _) eqn:Hc; [split; [done|apply same_refl]|].
  apply orb_false_iff in Hc as [Hc _]. apply orb_false_iff in Hc as [Hc _]. apply bool_decide_eq_false in Hc.
  pose proof (rl_nodup _ _ Hl) as Hn. pose proof (rl_head _ _ Hl) as Hh.
  assert (Hn' : NoDup (l ++ [k])) by (apply NoDup_app; repeat split; [done|set_solver|apply NoDup_singleton]).
  assert (Hf : forall y, y ∈ l ++ [k] -> is_Some (keys s !! y)).
  { intros y [Hy| ->%list_elem_of_singleton]%elem_of_app; [by apply (rl_found _ _ Hl)|by rewrite Hk]. }
  assert (Ho : forall y, y <> k -> last l <> Some y -> relinked (l ++ [k]) y <$> keys s !! y = keys s !! y).
  { intros y Hyk Hyl. destruct (keys s !! y) as [sy|] eqn:Hy; [|done]. cbn. f_equal.
    apply (relinked_same l _ s); [done..|]. rewrite links_snoc by done. by rewrite !bool_decide_false. }
  cbn [readyTail put_key set_keys keys]. rewrite (rl_tail _ _ Hl).
  destruct (last l) as [x|] eqn:Hx.
  - pose proof (last_Some_in _ _ Hx) as Hin. assert (Hxk : x <> k) by set_solver.
    destruct (rl_found _ _ Hl x Hin) as [sx Hsx]. rewrite lookup_insert_ne, Hsx by done. cbn.
    apply relink; [done|done|rewrite last_snoc; cbn; rewrite Hh; by destruct l|]. intros y. cbn. destruct (decide (y = x)) as [->|Hyx].
    + rewrite lookup_insert_eq, Hsx. cbn. f_equal. unfold relinked. rewrite links_snoc by done.
      rewrite bool_decide_false, bool_decide_true, <-(rl_slots _ _ Hl x sx Hsx) by done. done.
    + rewrite lookup_insert_ne by done. destruct (decide (y = k)) as [->|Hyk].
      * rewrite lookup_insert_eq, Hk. cbn. unfold relinked. rewrite links_snoc by done.
        unfold last_or. by rewrite bool_decide_true, Hx.
      * rewrite lookup_insert_ne by done. rewrite Ho; [done|done|congruence].
  - apply last_None in Hx. subst l. apply relink; [done|done|done|]. intros y. cbn.
    destruct (decide (y = k)) as [->|Hyk].
    + rewrite lookup_insert_eq, Hk. cbn. unfold relinked. cbn. by rewrite bool_decide_true.
    + rewrite lookup_insert_ne by done. symmetry. by apply Ho.
Qed.

Lemma RemoveReady_skip (k : Z) (slot : Key) (s : State) :
  keys s !! k = Some slot -> key_ready slot = false -> RemoveReady k s = s.
Proof. intros Hk Hr. unfold RemoveReady. by rewrite Hk, Hr. Qed.

Lemma slot_at (k : Z) (slot : Key) (a b : list Z) (s : State) :
  ReadyList (a ++ k :: b) s -> keys s !! k = Some slot ->
  key_ready slot = true /\ previous slot = last a /\ next slot = head b.
Proof.
  intros Hl Hk. pose proof (rl_slots _ _ Hl k slot Hk) as He.
  rewrite links_at, last_or_None in He; [by injection He|].
  pose proof (rl_nodup _ _ Hl) as Hn. apply NoDup_app in Hn. set_solver.
Qed.

(** The three assignments of [RemoveReady], as functions of the map of keys. *)
Lemma RemoveReady_lookup (k : Z) (slot : Key) (a b : list Z) (s : State) :
  ReadyList (a ++ k :: b) s -> keys s !! k = Some slot ->
  forall y, keys (RemoveReady k s) !! y =
    (if bool_decide (y = k) then with_links false None None
     else fun sl => with_links (key_ready sl)
       (if bool_decide (head b = Some y) then last a else previous sl)
       (if bool_decide (last a = Some y) then head b else next sl) sl) <$> keys s !! y.
Proof.
  intros Hl Hk. pose proof (rl_nodup _ _ Hl) as Hn. apply NoDup_app in Hn as (_ & Hka & [Hkb _]%NoDup_cons).
  destruct (slot_at k slot a b s Hl Hk) as (Hr & Hp & Hx).
  unfold RemoveReady. rewrite Hk, Hr, Hp, Hx. cbn [negb].
  assert (Hfa : forall x, last a = Some x -> x <> k /\ head b <> Some x /\ is_Some (keys s !! x)).
  { intros x Hx'%last_Some_in. split; [set_solver|]. split; [|apply (rl_found _ _ Hl); set_solver].
    intros ?%head_Some_in. set_solver. }
  assert (Hfb : forall x, head b = Some x -> x <> k /\ is_Some (keys s !! x)).
  { intros x Hx'%head_Some_in. split; [set_solver|]. apply (rl_found _ _ Hl). set_solver. }
  destruct (last a) as [p|]; [destruct (Hfa p) as (Hpk & Hpn & [sp Hsp]); [done|]|];
    (destruct (head b) as [n|]; [destruct (Hfb n) as (Hnk & [sn Hsn]); [done|]|]); intros y;
    cbn; rewrite ?Hsp; cbn; repeat (rewrite lookup_insert_ne by congruence); rewrite ?Hsn; cbn;
    repeat (rewrite lookup_insert_ne by congruence); rewrite Hk; cbn;
    rewrite !lookup_insert; repeat case_decide; repeat case_bool_decide; simplify_eq;
    rewrite ?Hk, ?Hsp, ?Hsn; try done; destruct (keys s !! y) as [[]|]; done.
Qed.

Lemma RemoveReady_ends (k : Z) (slot : Key) (a b : list Z) (s : State) :
  ReadyList (a ++ k :: b) s -> keys s !! k = Some slot ->
  RemoveReady k s = set_ends (head (a ++ b)) (last (a ++ b)) (set_keys (keys (RemoveReady k s)) s).
Proof.
  intros Hl Hk. destruct (slot_at k slot a b s Hl Hk) as (Hr & Hp & Hx).
  unfold RemoveReady. rewrite Hk, Hr, Hp, Hx. cbn [negb].
  assert (Hh : head (a ++ b) = match last a with Some _ => readyHead s | None => head b end).
  { rewrite (rl_head _ _ Hl). destruct (last a) as [p|] eqn:Ha.
    - apply last_Some in Ha as [a' ->]. by destruct a'.
    - by apply last_None in Ha as ->. }
  assert (Ht : last (a ++ b) = match head b with Some _ => readyTail s | None => last a end).
  { rewrite (rl_tail _ _ Hl). destruct b as [|n b]; [by rewrite app_nil_r|]. cbn.
    by rewrite !last_app_cons. }
  rewrite Hh, Ht. clear.
  destruct (last a) as [p|]; [destruct (keys s !! p)|]; cbn; (destruct (head b) as [n|]; [|cbn];
    repeat (match goal with |- context [match ?m !! ?x with _ => _ end] => destruct (m !! x) end; cbn); first [done | by destruct s]).
Qed.

Lemma RemoveReady_spec (k : Z) (slot : Key) (a b : list Z) (s : State) :
  ReadyList (a ++ k :: b) s -> keys s !! k = Some slot ->
  ReadyList (a ++ b) (RemoveReady k s) /\ SameButLinks s (RemoveReady k s).
Proof.
  intros Hl Hk. pose proof (rl_nodup _ _ Hl) as Hn.
  apply relink.
  - rewrite NoDup_app in Hn. rewrite NoDup_cons in Hn. apply NoDup_app. set_solver.
  - intros y Hy. apply (rl_found _ _ Hl). set_solver.
  - by apply (RemoveReady_ends k slot).
  - intros y. rewrite (RemoveReady_lookup k slot a b s) by done.
    destruct (keys s !! y) as [sy|] eqn:Hy; [|done]. cbn. f_equal. unfold relinked.
    rewrite (links_remove k y b a) by done. rewrite last_or_None. case_bool_decide; [done|].
    by rewrite <-(rl_slots _ _ Hl y sy Hy).
Qed.

Definition without (k : Z) (l : list Z) : list Z := filter (fun x => x <> k) l.

Lemma filter_absent {A : Type} `{EqDecision A} (k : A) (l : list A) :
  k ∉ l -> filter (fun x => x <> k) l = l.
Proof.
  induction l as [|x l IH]; intros Hk; [done|].
  rewrite filter_cons_True by set_solver. f_equal. apply IH. set_solver.
Qed.

Lemma without_outside (k : Z) (l : list Z) : k ∉ l -> without k l = l.
Proof. apply filter_absent. Qed.

Lemma without_at (k : Z) (a b : list Z) : NoDup (a ++ k :: b) -> without k (a ++ k :: b) = a ++ b.
Proof.
  intros (_ & Ha & [Hb _]%NoDup_cons)%NoDup_app. unfold without. rewrite filter_app, filter_cons_False by naive_solver.
  f_equal; apply without_outside; set_solver.
Qed.

Lemma RemoveReady_list (k : Z) (slot : Key) (l : list Z) (s : State) :
  ReadyList l s -> keys s !! k = Some slot ->
  ReadyList (without k l) (RemoveReady k s) /\ SameButLinks s (RemoveReady k s).
Proof.
  intros Hl Hk. destruct (decide (k ∈ l)) as [[a [b ->]]%list_elem_of_split|Hk'].
  - rewrite without_at by apply Hl. by apply (RemoveReady_spec k slot).
  - rewrite without_outside by done. rewrite (RemoveReady_skip k slot); [split; [done|apply same_refl]|done|].
    rewrite (ready_iff l s k slot) by done. by rewrite bool_decide_false.
Qed.
