(* ===== verification/KeyedRuns.v ===== *)
(** * Runtime: the runs of the keyed executor.

    The critical sections of KeyedExecutor.v in any order ([Step]), and the invariant that every
    such run keeps ([Inv]): what the executor holds is a function of the accepted tasks in their order
    ([v]) and of the list of ready keys ([l]).  From it: the counters and limits, one task of a key
    at a time in order of acceptance, the reason of a cancellation deciding the result, no access to a
    key or a task that is not there, and that the tasks accepted drain. *)

From S2P Require Import Prelude CoreError KeyedExecutor.
From stdpp Require Import gmap sorting.
#[local] Open Scope Z_scope.
Import KeyedExecutor.

(** ** Runs *)

Module KeyedRuns.

Inductive Event : Type :=
  | Silent
  | Accepted (t : nat) (k : Z)
  | Started (t : nat)
  | Published (t : nat) (code : ErrorCode).

(** The members of the options and of a task's are [std::size_t] values. *)
Definition in_u64 (z : Z) : Prop := 0 <= z <= UINT64_MAX.

Definition sized (o : KeyedExecutorOptions) : Prop :=
  in_u64 (workerCount o) /\ in_u64 (maxKeys o) /\ in_u64 (maxOutstandingTasks o)
  /\ in_u64 (maxRetainedBytes o) /\ in_u64 (maxOutstandingTasksPerKey o) /\ in_u64 (maxRetainedBytesPerKey o).

(** The codes a cancellation gives a task. *)
Definition is_reason (c : ErrorCode) : bool :=
  bool_decide (c = ErrorCode_Ok) || bool_decide (c = Cancelled) || bool_decide (c = Timeout).

(** A task that the coordinator took from its queue and has not published yet; it publishes it before
    its next round. *)
Definition coordinating (x : KeyedTaskState) : bool :=
  match publishing x with Some (_, false) => true | _ => false end.

Definition taken_event (r : Taken) : Event := match r with TakenTask t => Started t | _ => Silent end.

(** The steps by which the executor's own threads get on with the tasks: a worker that is free takes
    a key, the job of a task returns, a result is published, the coordinator finds a task to cancel. *)
Inductive Advance : State -> Event -> State -> Prop :=
  | adv_take env s t s' :
      running s < workerCount (options s) -> WorkerTake env s = Some (TakenTask t, s') ->
      Advance s (Started t) s'
  | adv_skip env s s' :
      running s < workerCount (options s) -> WorkerTake env s = Some (TakenAgain, s') -> Advance s Silent s'
  | adv_finish env s t x code :
      store s !! t = Some x -> phase x = Running -> Advance s Silent (WorkerFinish env t code s)
  | adv_publish s t x code occupied s' :
      store s !! t = Some x -> publishing x = Some (code, occupied) -> Publish t code occupied s = Some s' ->
      Advance s (Published t code) s'
  | adv_coordinate env s t q s' :
      (forall u y, store s !! u = Some y -> coordinating y = false) ->
      CoordinateRound env s = Some (CoordinatedTask t q, s') -> Advance s Silent s'.

(** All steps: also those of the callers, and the rounds that find nothing to do. *)
Inductive Step : State -> Event -> State -> Prop :=
  | step_claim inScope o s s' :
      sized o -> StartClaim inScope o s = (Status.Ok, s') -> Step s Silent s'
  | step_ready s : started s = true -> Step s Silent (StartReady s)
  | step_submit env s t reason k o s' :
      (forall u, is_Some (store s !! u) -> (u < t)%nat) -> is_reason reason = true ->
      in_u64 (retainedBytes o) -> SubmitCommit env t reason k o s = (Status.Ok, s') ->
      Step s (Accepted t k) s'
  | step_rejected s : Step s Silent (Rejected s)
  | step_cancel env t s : Step s Silent (Cancel env t s).2
  | step_stop env s : Step s Silent (RequestStop env s)
  | step_idle_take env s r s' :
      WorkerTake env s = Some (r, s') -> r = TakenWait \/ r = TakenReturn -> Step s Silent s'
  | step_idle_coordinate env s r s' :
      CoordinateRound env s = Some (r, s') -> r = CoordinatedReturn \/ (exists d, r = CoordinatedWait d) -> Step s Silent s'
  | step_advance s e s' : Advance s e s' -> Step s e s'.

(** A run, with its events. *)
Inductive Run (s : State) : list Event -> State -> Prop :=
  | run_nil : Run s [] s
  | run_snoc tr s1 e s2 : Run s tr s1 -> Step s1 e s2 -> Run s (tr ++ [e]) s2.

Definition Reachable (s : State) : Prop := exists o tr, Run (NewState o) tr s.


(** The starts of the tasks in a run. *)
Definition starts (tr : list Event) : list nat :=
  omap (fun e => match e with Started t => Some t | _ => None end) tr.
Definition publications (tr : list Event) : list nat :=
  omap (fun e => match e with Published t _ => Some t | _ => None end) tr.

End KeyedRuns.

Import KeyedRuns.

(** ** The accepted tasks *)

Definition Live : Type := list (nat * KeyedTaskState).

Definition pick (p : KeyedTaskState -> bool) (v : Live) : Live := List.filter (fun e => p e.2) v.
Definition ids (v : Live) : list nat := map fst v.
Definition many (p : KeyedTaskState -> bool) (v : Live) : Z := Z.of_nat (length (pick p v)).
Definition bytes_of (x : KeyedTaskState) : Z := retainedBytes (task_options x).
Fixpoint total (p : KeyedTaskState -> bool) (v : Live) : Z :=
  match v with [] => 0 | e :: v => (if p e.2 then bytes_of e.2 else 0) + total p v end.

Definition every (x : KeyedTaskState) : bool := true.
Definition of_key (k : Z) (x : KeyedTaskState) : bool := key x =? k.
Definition is_queued (x : KeyedTaskState) : bool := bool_decide (phase x = Queued).
(** The task holds its key: a worker runs it or completes what it ran.  A task the coordinator
    completes was dropped while it waited and does not hold its key. *)
Definition occupies (x : KeyedTaskState) : bool :=
  match phase x, publishing x with Running, _ => true | Completing, Some (_, b) => b | _, _ => false end.
Definition waits_in (k : Z) (x : KeyedTaskState) : bool := of_key k x && is_queued x.
Definition holds (k : Z) (x : KeyedTaskState) : bool := of_key k x && occupies x.
Definition runs (k : Z) (x : KeyedTaskState) : bool := of_key k x && bool_decide (phase x = Running).

(** What the slot of a key holds, but for its links. *)
Definition core_of (v : Live) (k : Z) : option (list nat * Z * Z * bool) :=
  if many (of_key k) v =? 0 then None
  else Some (ids (pick (waits_in k) v), many (of_key k) v, total (of_key k) v, negb (many (holds k) v =? 0)).

Lemma pick_app (p : KeyedTaskState -> bool) (a b : Live) : pick p (a ++ b) = pick p a ++ pick p b.
Proof. apply List.filter_app. Qed.

Lemma many_app (p : KeyedTaskState -> bool) (a b : Live) : many p (a ++ b) = many p a + many p b.
Proof. unfold many. rewrite pick_app, length_app. lia. Qed.

Lemma many_cons (p : KeyedTaskState -> bool) (t : nat) (x : KeyedTaskState) (v : Live) :
  many p ((t, x) :: v) = (if p x then 1 else 0) + many p v.
Proof. unfold many, pick. cbn [List.filter]. cbn [snd]. destruct (p x); cbn [length]; lia. Qed.

Lemma runs_holds (k : Z) (v : Live) : many (runs k) v <= many (holds k) v.
Proof.
  induction v as [|[t x] v IH]; [done|]. rewrite !many_cons. unfold runs, holds, occupies in *.
  destruct (of_key k x), (phase x), (publishing x) as [[? []]|]; case_bool_decide; simplify_eq; cbn; lia.
Qed.

Lemma many_pos (p : KeyedTaskState -> bool) (v : Live) : 0 <= many p v.
Proof. unfold many. lia. Qed.

Lemma total_app (p : KeyedTaskState -> bool) (a b : Live) : total p (a ++ b) = total p a + total p b.
Proof. induction a as [|e a IH]; cbn; [|rewrite IH; destruct (p e.2)]; lia. Qed.

Lemma pick_cons (p : KeyedTaskState -> bool) (t : nat) (x : KeyedTaskState) (v : Live) :
  pick p ((t, x) :: v) = if p x then (t, x) :: pick p v else pick p v.
Proof. done. Qed.

Lemma pick_nil (p : KeyedTaskState -> bool) : pick p [] = [].
Proof. done. Qed.

Lemma many_nil (p : KeyedTaskState -> bool) : many p [] = 0.
Proof. done. Qed.

Lemma total_cons (p : KeyedTaskState -> bool) (t : nat) (x : KeyedTaskState) (v : Live) :
  total p ((t, x) :: v) = (if p x then bytes_of x else 0) + total p v.
Proof. done. Qed.

Lemma total_nil (p : KeyedTaskState -> bool) : total p [] = 0.
Proof. done. Qed.

Lemma ids_app (a b : Live) : ids (a ++ b) = ids a ++ ids b.
Proof. apply map_app. Qed.

Lemma ids_cons (t : nat) (x : KeyedTaskState) (v : Live) : ids ((t, x) :: v) = t :: ids v.
Proof. done. Qed.

Lemma of_key_self (x : KeyedTaskState) : of_key (key x) x = true.
Proof. apply Z.eqb_refl. Qed.

Lemma waits_self (x : KeyedTaskState) : waits_in (key x) x = is_queued x.
Proof. unfold waits_in. by rewrite of_key_self. Qed.

Lemma holds_self (x : KeyedTaskState) : holds (key x) x = occupies x.
Proof. unfold holds. by rewrite of_key_self. Qed.

Lemma queued_phase (x : KeyedTaskState) : phase x = Queued -> is_queued x = true.
Proof. intros H. unfold is_queued. by rewrite H. Qed.

Lemma queued_holds (x : KeyedTaskState) : phase x = Queued -> occupies x = false.
Proof. intros H. unfold occupies. by rewrite H. Qed.

Create Rewrite HintDb live.
#[export] Hint Rewrite pick_app pick_cons pick_nil many_app many_cons many_nil total_app total_cons total_nil
  ids_app ids_cons of_key_self waits_self holds_self app_nil_r : live.

(** ** The invariant *)

(** What holds of a task in each phase. *)
Record TaskOk (x : KeyedTaskState) : Prop := {
  ok_bytes : in_u64 (bytes_of x);
  ok_reason : is_reason (cancelReason x) = true;
  ok_live : phase x <> Terminal;
  ok_publishing : phase x = Completing <-> is_Some (publishing x);
  ok_signal : phase x = Queued -> signalSent x = false;
  ok_code : forall c b, publishing x = Some (c, b) -> cancelReason x <> ErrorCode_Ok -> c = cancelReason x
}.

(** Tasks that are done keep the reason of their cancellation as their result. *)
Definition DoneOk (x : KeyedTaskState) : Prop :=
  phase x = Terminal /\ publishing x = None /\ (cancelReason x <> ErrorCode_Ok -> result x = cancelReason x).

(** The counters, and the limits they stay within. *)
Record Counted (s : State) (v : Live) : Prop := {
  n_pending : pending s = many is_queued v;
  n_running : running s = many occupies v;
  n_outstanding : outstanding s = many every v;
  n_retained : retained s = total every v;
  n_sized : sized (options s) \/ started s = false;
  n_max_tasks : v <> [] -> outstanding s <= maxOutstandingTasks (options s);
  n_max_bytes : v <> [] -> retained s <= maxRetainedBytes (options s);
  n_max_keys : v <> [] -> Z.of_nat (size (keys s)) <= maxKeys (options s);
  n_key_tasks : forall k, v <> [] -> many (of_key k) v <= maxOutstandingTasksPerKey (options s);
  n_key_bytes : forall k, v <> [] -> total (of_key k) v <= maxRetainedBytesPerKey (options s);
  n_workers : v <> [] -> running s <= workerCount (options s)
}.

(** A key with waiting tasks is in the list, is held by a task, or has a cancelled task that the
    coordinator will take. *)
Record Scheduled (v : Live) (l : list Z) : Prop := {
  q_serial : forall k, many (holds k) v <= 1;
  q_linked : forall k, k ∈ l -> pick (waits_in k) v <> [] /\ many (holds k) v = 0;
  q_waiting : forall k t x, (t, x) ∈ v -> waits_in k x = true -> many (holds k) v = 0 ->
    k ∈ l \/ exists u y, (u, y) ∈ v /\ waits_in k y = true /\ cancelReason y <> ErrorCode_Ok
}.

(** The tasks of the executor are those of [v]; every other task is done. *)
Record Stored (ts : list nat) (m : gmap nat KeyedTaskState) (v : Live) : Prop := {
  st_tasks : ts = ids v;
  st_order : StronglySorted lt (ids v);
  st_store : forall t x, (t, x) ∈ v -> m !! t = Some x;
  st_done : forall t x, m !! t = Some x -> (t, x) ∈ v \/ (t ∉ ids v /\ DoneOk x);
  st_ok : forall t x, (t, x) ∈ v -> TaskOk x
}.

(** All but the list of ready keys. *)
Record Base (s : State) (v : Live) : Prop := {
  b_stored : Stored (tasks s) (store s) v;
  b_keys : forall k, core <$> keys s !! k = core_of v k;
  b_counted : Counted s v;
  b_started : (ready s = true -> started s = true) /\ (ready s = false -> v = []);
  b_options : started s = true -> OptionsValid (options s) = true;
  b_stopping : stopping s = true -> forall t x, (t, x) ∈ v -> phase x <> Completing -> cancelReason x <> ErrorCode_Ok
}.

Record Inv (s : State) (v : Live) (l : list Z) : Prop := {
  i_base : Base s v;
  i_ready : ReadyList l s;
  i_scheduled : Scheduled v l
}.

Section inv.
Context (s : State) (v : Live) (l : list Z) (H : Inv s v l).

Lemma i_tasks : tasks s = ids v.
Proof. apply H. Qed.
Lemma i_order : StronglySorted lt (ids v).
Proof. apply H. Qed.
Lemma i_store (t : nat) (x : KeyedTaskState) : (t, x) ∈ v -> store s !! t = Some x.
Proof. apply H. Qed.
Lemma i_done (t : nat) (x : KeyedTaskState) :
  store s !! t = Some x -> (t, x) ∈ v \/ (t ∉ ids v /\ DoneOk x).
Proof. apply H. Qed.
Lemma i_ok (t : nat) (x : KeyedTaskState) : (t, x) ∈ v -> TaskOk x.
Proof. apply H. Qed.
Lemma i_keys (k : Z) : core <$> keys s !! k = core_of v k.
Proof. apply H. Qed.
Lemma i_counted : Counted s v.
Proof. apply H. Qed.
Lemma i_started : (ready s = true -> started s = true) /\ (ready s = false -> v = []).
Proof. apply H. Qed.
Lemma i_options : started s = true -> OptionsValid (options s) = true.
Proof. apply H. Qed.

End inv.

Lemma new_inv (o : KeyedExecutorOptions) : Inv (NewState o) [] [].
Proof.
  repeat split; cbn; try done; try set_solver; try (by right).
  - constructor.
  - apply NoDup_nil_2.
Qed.

(** ** Steps that only mark tasks *)

(** How far a task is from being published. *)
Definition weight (x : KeyedTaskState) : nat :=
  match phase x with
  | Queued => 4
  | Running => if signalSent x then 2 else 3
  | Completing => 1
  | Terminal => 0
  end.

(** A change of a task that leaves its place: a reason of cancellation it did not have, the mark of
    a running one as signalled, the end of its job. *)
Record quiet (x x' : KeyedTaskState) : Prop := {
  quiet_key : key x' = key x;
  quiet_options : task_options x' = task_options x;
  quiet_queued : is_queued x' = is_queued x;
  quiet_occupies : occupies x' = occupies x;
  quiet_reason : cancelReason x <> ErrorCode_Ok -> cancelReason x' = cancelReason x;
  quiet_ok : TaskOk x -> TaskOk x';
  quiet_completing : phase x = Completing -> phase x' = Completing;
  quiet_weight : (weight x' <= weight x)%nat
}.

Definition quiet_entry (e e' : nat * KeyedTaskState) : Prop := e'.1 = e.1 /\ quiet e.2 e'.2.
Definition quiet_list : Live -> Live -> Prop := Forall2 quiet_entry.

Lemma quiet_refl (x : KeyedTaskState) : quiet x x.
Proof. by split. Qed.

#[export] Instance quiet_list_refl : Reflexive quiet_list.
Proof. intros v. apply Forall2_same_length_lookup. split; [done|]. naive_solver (split; [done|apply quiet_refl]). Qed.

#[export] Instance quiet_trans : Transitive quiet.
Proof.
  intros x y z [] []. split; try congruence; auto; [|lia]. intros H. pose proof (quiet_reason0 H) as E. rewrite quiet_reason1; congruence.
Qed.

(** Predicates that a quiet change does not touch. *)
Definition stable (p : KeyedTaskState -> bool) : Prop := forall x x', quiet x x' -> p x' = p x.

Lemma stable_every : stable every.
Proof. done. Qed.
Lemma stable_of_key (k : Z) : stable (of_key k).
Proof. intros x x' H. unfold of_key. by rewrite (quiet_key _ _ H). Qed.
Lemma stable_is_queued : stable is_queued.
Proof. intros x x' H. apply (quiet_queued _ _ H). Qed.
Lemma stable_occupies : stable occupies.
Proof. intros x x' H. apply (quiet_occupies _ _ H). Qed.
Lemma stable_and (p q : KeyedTaskState -> bool) : stable p -> stable q -> stable (fun x => p x && q x).
Proof. intros Hp Hq x x' H. by rewrite (Hp _ _ H), (Hq _ _ H). Qed.
Lemma stable_waits (k : Z) : stable (waits_in k).
Proof. apply (stable_and (of_key k) is_queued); [apply stable_of_key|apply stable_is_queued]. Qed.
Lemma stable_holds (k : Z) : stable (holds k).
Proof. apply (stable_and (of_key k) occupies); [apply stable_of_key|apply stable_occupies]. Qed.

#[export] Hint Resolve stable_every stable_of_key stable_is_queued stable_occupies stable_waits stable_holds
  quiet_refl : sc.

Lemma quiet_ids (v v' : Live) : quiet_list v v' -> ids v' = ids v.
Proof. unfold ids. induction 1 as [|e e' v v' [He _] _ IH]; [done|]. cbn. by rewrite He, IH. Qed.

Lemma quiet_pick (p : KeyedTaskState -> bool) (v v' : Live) :
  stable p -> quiet_list v v' -> quiet_list (pick p v) (pick p v').
Proof.
  intros Hp. induction 1 as [|e e' v v' [He Hq] _ IH]; [constructor|]. cbn. rewrite (Hp _ _ Hq).
  destruct (p e.2); [|done]. by constructor.
Qed.

Lemma quiet_many (p : KeyedTaskState -> bool) (v v' : Live) :
  stable p -> quiet_list v v' -> many p v' = many p v.
Proof. intros Hp H. unfold many. by rewrite (Forall2_length _ _ _ (quiet_pick p v v' Hp H)). Qed.

Lemma quiet_total (p : KeyedTaskState -> bool) (v v' : Live) :
  stable p -> quiet_list v v' -> total p v' = total p v.
Proof.
  intros Hp. induction 1 as [|e e' v v' [He Hq] _ IH]; [done|]. cbn. unfold bytes_of.
  by rewrite (Hp _ _ Hq), (quiet_options _ _ Hq), IH.
Qed.

Lemma quiet_core (v v' : Live) (k : Z) : quiet_list v v' -> core_of v' k = core_of v k.
Proof.
  intros H. unfold core_of.
  rewrite !(quiet_many _ v v'), (quiet_total _ v v') by auto with sc.
  by rewrite (quiet_ids (pick (waits_in k) v) (pick (waits_in k) v')) by (apply quiet_pick; auto with sc).
Qed.

Lemma quiet_in (v v' : Live) (t : nat) (x' : KeyedTaskState) :
  quiet_list v v' -> (t, x') ∈ v' -> exists x, (t, x) ∈ v /\ quiet x x'.
Proof.
  induction 1 as [|[t1 x1] e' v v' [He Hq] _ IH]; [set_solver|]. cbn in *.
  intros [<-|Hin]%elem_of_cons; cbn in *; subst; [exists x1; set_solver|].
  destruct (IH Hin) as (x & ? & ?). exists x. set_solver.
Qed.

Lemma quiet_in' (v v' : Live) (t : nat) (x : KeyedTaskState) :
  quiet_list v v' -> (t, x) ∈ v -> exists x', (t, x') ∈ v' /\ quiet x x'.
Proof.
  induction 1 as [|[t1 x1] [t2 x2] v v' [He Hq] _ IH]; [set_solver|]. cbn in *. subst t2.
  intros [[= <- <-]|Hin]%elem_of_cons; [exists x2; set_solver|].
  destruct (IH Hin) as (x' & ? & ?). exists x'. set_solver.
Qed.

Lemma quiet_scheduled (v v' : Live) (l : list Z) : quiet_list v v' -> Scheduled v l -> Scheduled v' l.
Proof.
  intros H [Hs Hl Hw]. split.
  - intros k. rewrite (quiet_many _ v v'); auto with sc.
  - intros k Hk. rewrite (quiet_many _ v v') by auto with sc. destruct (Hl k Hk) as [Hne H0].
    split; [|done]. intros He. pose proof (quiet_pick (waits_in k) v v' (stable_waits k) H) as Hp.
    rewrite He in Hp. by apply Forall2_nil_inv_r in Hp.
  - intros k t x' Hin Hk. rewrite (quiet_many _ v v') by auto with sc. intros H0.
    destruct (quiet_in v v' t x' H Hin) as (x & Hx & Hq). rewrite (stable_waits k _ _ Hq) in Hk.
    destruct (Hw k t x Hx Hk H0) as [?|(u & y & Hy & Hyk & Hc)]; [by left|right].
    destruct (quiet_in' v v' u y H Hy) as (y' & Hy' & Hq'). exists u, y'.
    rewrite (stable_waits k _ _ Hq'), (quiet_reason _ _ Hq') by done. done.
Qed.

Lemma quiet_nil (v v' : Live) : quiet_list v v' -> v' <> [] -> v <> [].
Proof. intros H Hne ->. by apply Forall2_nil_inv_l in H. Qed.

Lemma quiet_counted (s : State) (v v' : Live) (m : gmap nat KeyedTaskState) :
  quiet_list v v' -> Counted s v -> Counted (set_store m s) v'.
Proof.
  intros H []. pose proof (quiet_nil _ _ H) as Hn.
  split; cbn; rewrite ?(quiet_many _ v v'), ?(quiet_total _ v v') by auto with sc; auto;
    intros k ?; rewrite ?(quiet_many _ v v'), ?(quiet_total _ v v') by auto with sc; auto.
Qed.

Lemma quiet_stored (ts : list nat) (m m' : gmap nat KeyedTaskState) (v v' : Live) :
  Stored ts m v -> quiet_list v v' -> (forall t x, (t, x) ∈ v' -> m' !! t = Some x) ->
  (forall t, t ∉ ids v -> m' !! t = m !! t) -> Stored ts m' v'.
Proof.
  intros [] Hq Hm Ho. pose proof (quiet_ids _ _ Hq) as Hid. split; auto.
  - congruence.
  - by rewrite Hid.
  - intros t x Hx. destruct (decide (t ∈ ids v')) as [Ht|Ht].
    + left. apply list_elem_of_fmap in Ht as [[u y] [-> Hy]]. cbn in Hx. rewrite (Hm _ _ Hy) in Hx. by injection Hx as <-.
    + right. split; [done|]. rewrite Hid in Ht. rewrite Ho in Hx by done.
      destruct (st_done0 t x Hx) as [Hin|[_ Hd]]; [|done]. destruct Ht. by apply (list_elem_of_fmap_2 fst v (t, x)).
  - intros t x' Hx'. destruct (quiet_in v v' t x' Hq Hx') as (x & Hx & Hxx). eauto using quiet_ok.
Qed.

Lemma inv_quiet (s : State) (v v' : Live) (l : list Z) (m : gmap nat KeyedTaskState) :
  Inv s v l -> quiet_list v v' -> (forall t x, (t, x) ∈ v' -> m !! t = Some x) ->
  (forall t, t ∉ ids v -> m !! t = store s !! t) -> Inv (set_store m s) v' l.
Proof.
  intros [[] [] Hsch] Hq Hm Ho. split; [split; cbn; auto|by split|by apply (quiet_scheduled v)].
  - by apply (quiet_stored (tasks s) (store s) m v).
  - intros k. rewrite (quiet_core v v') by done. auto.
  - by apply (quiet_counted s v).
  - split; [tauto|]. intros Hr. destruct b_started0 as [_ H0]. rewrite (H0 Hr) in Hq.
    by apply Forall2_nil_inv_l in Hq.
  - intros Hst t x' Hx' Hp. destruct (quiet_in v v' t x' Hq Hx') as (x & Hx & Hxx).
    assert (Hc : cancelReason x <> ErrorCode_Ok)
      by (apply (b_stopping0 Hst t x Hx); intros ?%(quiet_completing _ _ Hxx); done).
    by rewrite (quiet_reason _ _ Hxx Hc).
Qed.

(** One task of the list. *)
Lemma sorted_split (a b : Live) (t : nat) (x : KeyedTaskState) :
  StronglySorted lt (ids (a ++ (t, x) :: b)) ->
  t ∉ ids a /\ t ∉ ids b /\ (forall u, u ∈ ids b -> (t < u)%nat).
Proof.
  unfold ids. rewrite map_app. cbn. induction a as [|[u y] a IH]; cbn; intros Hs.
  - apply StronglySorted_inv in Hs as [_ Hb]. rewrite Forall_forall in Hb. split; [set_solver|].
    split; [|done]. intros Ht. specialize (Hb t Ht). lia.
  - apply StronglySorted_inv in Hs as [Hs Hu]. rewrite Forall_forall in Hu.
    destruct (IH Hs) as (Ha & Hb & Hb'). split; [|done].
    assert (u < t)%nat by (apply Hu; set_solver). rewrite not_elem_of_cons. split; [lia|done].
Qed.

Lemma in_split_live (v : Live) (t : nat) (x : KeyedTaskState) :
  (t, x) ∈ v -> exists a b, v = a ++ (t, x) :: b.
Proof. intros H. by apply list_elem_of_split in H. Qed.

Lemma inv_mark (s : State) (a b : Live) (t : nat) (x x' : KeyedTaskState) (l : list Z) :
  Inv s (a ++ (t, x) :: b) l -> quiet x x' -> Inv (put_task t x' s) (a ++ (t, x') :: b) l.
Proof.
  intros H Hq. destruct (sorted_split a b t x (i_order _ _ _ H)) as (Ha & Hb & _).
  pose proof (i_store _ _ _ H) as Hst.
  assert (Hin : forall u y, u <> t -> (u, y) ∈ a ++ (t, x') :: b -> (u, y) ∈ a ++ (t, x) :: b) by set_solver.
  apply (inv_quiet s (a ++ (t, x) :: b)); [done| | |].
  - apply Forall2_app; [reflexivity|]. constructor; [by split|reflexivity].
  - intros u y Hy. destruct (decide (u = t)) as [->|Hu]; [|rewrite lookup_insert_ne by done; auto].
    rewrite lookup_insert_eq. f_equal. apply elem_of_app in Hy as [Hy|[Hy|Hy]%elem_of_cons].
    + destruct Ha. by apply (list_elem_of_fmap_2 fst a (t, y)).
    + congruence.
    + destruct Hb. by apply (list_elem_of_fmap_2 fst b (t, y)).
  - intros u Hu. rewrite lookup_insert_ne; [done|]. intros <-. apply Hu. unfold ids. rewrite map_app. set_solver.
Qed.

Lemma observe_phase (env : Env) (x : KeyedTaskState) : phase (ObserveCancellation env x) = phase x.
Proof. unfold ObserveCancellation. by repeat case_match. Qed.

Lemma reason_quiet (c : ErrorCode) (x : KeyedTaskState) :
  phase x <> Completing -> cancelReason x = ErrorCode_Ok -> is_reason c = true -> quiet x (with_reason c x).
Proof.
  intros Hp Hc Hr. split; cbn; try done. intros []. split; cbn; try done.
  intros c' b He. destruct Hp. apply ok_publishing0. by rewrite He.
Qed.

Lemma observe_quiet (env : Env) (x : KeyedTaskState) : phase x <> Completing -> quiet x (ObserveCancellation env x).
Proof.
  intros Hp. unfold ObserveCancellation. destruct (bool_decide _) eqn:Hc; cbn; [|apply quiet_refl].
  apply bool_decide_eq_true in Hc. repeat case_match; first [by apply reason_quiet|apply quiet_refl].
Qed.

(** The task of an identifier that is waiting, running or completing. *)
Lemma inv_live (s : State) (v : Live) (l : list Z) (t : nat) (x : KeyedTaskState) :
  Inv s v l -> store s !! t = Some x -> phase x <> Terminal -> (t, x) ∈ v.
Proof. intros H Hx Hp. by destruct (i_done _ _ _ H t x Hx) as [?|(_ & Ht & _)]. Qed.

Lemma inv_cancel (env : Env) (t : nat) (s : State) (v : Live) (l : list Z) :
  Inv s v l -> exists v', quiet_list v v' /\ Inv (Cancel env t s).2 v' l.
Proof.
  intros H. unfold Cancel. destruct (store s !! t) as [x|] eqn:Hx; [|by exists v].
  destruct (_ || _) eqn:Hc; [by exists v|]. cbn.
  apply orb_false_iff in Hc as [Hp Hc]. apply orb_false_iff in Hp as [Hp Ht].
  apply bool_decide_eq_false in Hp, Ht. apply negb_false_iff, bool_decide_eq_true in Hc.
  destruct (in_split_live v t x) as (a & b & ->); [by apply (inv_live s v l)|].
  set (x' := with_reason _ x). assert (Hq : quiet x x').
  { apply reason_quiet; [done|done|by case_match]. }
  exists (a ++ (t, x') :: b). split; [|by apply inv_mark with x].
  apply Forall2_app; [reflexivity|]. constructor; [by split|reflexivity].
Qed.

(** [RequestStop] over the rest of the tasks. *)
Lemma stop_tasks (env : Env) (l : list Z) (b : Live) : forall (s : State) (a : Live),
  Inv s (a ++ b) l ->
  exists b' m, quiet_list b b' /\ fold_left (fun s t => StopTask env t s) (ids b) s = set_store m s
    /\ Inv (set_store m s) (a ++ b') l
    /\ (forall t x, (t, x) ∈ b' -> phase x <> Completing -> cancelReason x <> ErrorCode_Ok).
Proof.
  induction b as [|[t x] b IH]; intros s a H.
  - exists [], (store s). cbn. replace (set_store (store s) s) with s by (by destruct s). set_solver.
  - cbn [ids map fst fold_left]. unfold StopTask at 2.
    rewrite (i_store _ _ _ H t x) by set_solver. case_bool_decide as Hp.
    + replace (a ++ (t, x) :: b) with ((a ++ [(t, x)]) ++ b) in H by (by rewrite <-app_assoc).
      destruct (IH s _ H) as (b' & m & Hq & Hf & Hi & Hc). exists ((t, x) :: b'), m.
      rewrite <-app_assoc in Hi. split; [constructor; [by split|done]|]. split; [done|]. split; [done|].
      intros u y [[= -> ->]|Hy]%elem_of_cons; [done|]. by apply (Hc u).
    + set (x' := if bool_decide _ then _ else _).
      assert (Hx : quiet x x' /\ cancelReason x' <> ErrorCode_Ok).
      { pose proof (observe_quiet env x Hp) as Hq. subst x'. case_bool_decide as Hc; [|by split].
        split; [|done]. etransitivity; [exact Hq|]. apply reason_quiet; [|done..].
        by rewrite observe_phase. }
      destruct Hx as [Hx Hxc]. pose proof (inv_mark s a b t x x' l H Hx) as H1.
      replace (a ++ (t, x') :: b) with ((a ++ [(t, x')]) ++ b) in H1 by (by rewrite <-app_assoc).
      destruct (IH _ _ H1) as (b' & m & Hq & Hf & Hi & Hc). exists ((t, x') :: b'), m.
      rewrite <-app_assoc in Hi. split; [constructor; [by split|done]|]. split; [done|]. split; [done|].
      intros u y [[= -> ->]|Hy]%elem_of_cons; [done|]. by apply (Hc u).
Qed.

Lemma stop_flags (env : Env) (ts : list nat) (st rd sp : bool) (o : KeyedExecutorOptions) : forall s,
  fold_left (fun s t => StopTask env t s) ts (set_flags st rd sp o s)
  = set_flags st rd sp o (fold_left (fun s t => StopTask env t s) ts s).
Proof.
  induction ts as [|t ts IH]; intros s; [done|]. cbn [fold_left]. rewrite <-IH. f_equal.
  unfold StopTask. cbn. repeat case_match; done.
Qed.

Lemma inv_flags (st rd sp : bool) (o : KeyedExecutorOptions) (s : State) (v : Live) (l : list Z) :
  Inv s v l -> (v <> [] -> o = options s) -> sized o \/ st = false -> (rd = true -> st = true) ->
  (rd = false -> v = []) -> (st = true -> OptionsValid o = true) ->
  (sp = true -> forall t x, (t, x) ∈ v -> phase x <> Completing -> cancelReason x <> ErrorCode_Ok) ->
  Inv (set_flags st rd sp o s) v l.
Proof.
  intros [[] [] Hsch] Ho Hz Hr Hv Hvo Hs. split; [|by split|done]. split; try done.
  destruct b_counted0. split; try done; cbn; intros; rewrite Ho; auto.
Qed.

Lemma inv_metrics (m : Metrics) (s : State) (v : Live) (l : list Z) : Inv s v l -> Inv (set_metrics m s) v l.
Proof. intros [[] [] Hsch]. split; [|by split|done]. split; try done. destruct b_counted0. by split. Qed.

Lemma inv_stop (env : Env) (s : State) (v : Live) (l : list Z) :
  Inv s v l -> exists v', quiet_list v v' /\ Inv (RequestStop env s) v' l.
Proof.
  intros H. pose proof (stop_tasks env l v s [] H) as (v' & m & Hq & Hf & Hi & Hc).
  exists v'. split; [done|]. unfold RequestStop. cbn [tasks set_flags].
  rewrite (i_tasks _ _ _ H), stop_flags, Hf. pose proof Hi as [[]].
  apply inv_flags; first [done | apply (n_sized _ _ b_counted0) | apply b_started0].
Qed.

Lemma inv_claim (inScope : bool) (o : KeyedExecutorOptions) (s s' : State) (v : Live) (l : list Z) :
  Inv s v l -> sized o -> StartClaim inScope o s = (Status.Ok, s') -> v = [] /\ Inv s' v l.
Proof.
  unfold StartClaim. intros H Ho. destruct (OptionsValid o) eqn:Hv, inScope; cbn; try done.
  destruct (started s) eqn:Hs, (stopping s) eqn:Hp; cbn; try done. intros [= <-].
  pose proof (i_started _ _ _ H) as [Hr Hn].
  assert (ready s = false) as Hf by (destruct (ready s); [by rewrite Hr in Hs|done]). rewrite (Hn Hf) in *.
  split; [done|]. apply inv_flags; first [done | by left | set_solver].
Qed.

Lemma inv_ready (s : State) (v : Live) (l : list Z) : Inv s v l -> started s = true -> Inv (StartReady s) v l.
Proof. intros H Hs. pose proof H as [[]]. apply inv_flags; first [done | apply (n_sized _ _ b_counted0) | apply b_started0]. Qed.

(** ** Steps that move a task of one key *)

Definition same_others (k : Z) (v v' : Live) : Prop :=
  forall y, y <> k -> pick (of_key y) v' = pick (of_key y) v.

Lemma pick_pick (p q : KeyedTaskState -> bool) (v : Live) : pick q (pick p v) = pick (fun x => p x && q x) v.
Proof.
  unfold pick. induction v as [|e v IH]; [done|]. cbn. destruct (p e.2); cbn; [destruct (q e.2); by rewrite IH|done].
Qed.

Lemma total_pick (p : KeyedTaskState -> bool) (v : Live) : total every (pick p v) = total p v.
Proof. unfold pick. induction v as [|e v IH]; [done|]. cbn. destruct (p e.2); cbn; by rewrite IH. Qed.

Lemma pick_in (p : KeyedTaskState -> bool) (v : Live) (t : nat) (x : KeyedTaskState) :
  (t, x) ∈ pick p v <-> (t, x) ∈ v /\ p x = true.
Proof. unfold pick. rewrite !list_elem_of_In. apply (List.filter_In (fun e => p e.2) (t, x)). Qed.

Section others.
Context (k : Z) (v v' : Live) (Hs : same_others k v v').

Lemma others_waits (y : Z) : y <> k -> pick (waits_in y) v' = pick (waits_in y) v.
Proof. intros Hy. unfold waits_in. rewrite <-!pick_pick. by rewrite Hs. Qed.

Lemma others_holds (y : Z) : y <> k -> many (holds y) v' = many (holds y) v.
Proof. intros Hy. unfold many, holds. rewrite <-!pick_pick. by rewrite Hs. Qed.

Lemma others_core (y : Z) : y <> k -> core_of v' y = core_of v y.
Proof.
  intros Hy. unfold core_of. rewrite (others_waits y), (others_holds y), <-(total_pick (of_key y) v), <-(total_pick (of_key y) v') by done.
  unfold many. by rewrite (Hs y Hy).
Qed.

Lemma others_linked (l : list Z) (y : Z) : Scheduled v l -> y <> k -> y ∈ l ->
  pick (waits_in y) v' <> [] /\ many (holds y) v' = 0.
Proof. intros [] Hy Hl. rewrite others_waits, others_holds by done. auto. Qed.

Lemma others_waiting (l : list Z) (y : Z) (t : nat) (x : KeyedTaskState) :
  Scheduled v l -> y <> k -> (t, x) ∈ v' -> waits_in y x = true -> many (holds y) v' = 0 ->
  y ∈ l \/ exists u z, (u, z) ∈ v' /\ waits_in y z = true /\ cancelReason z <> ErrorCode_Ok.
Proof.
  intros [] Hy Hx Hw H0. rewrite others_holds in H0 by done.
  assert (Hi : forall u z, (u, z) ∈ v' /\ waits_in y z = true <-> (u, z) ∈ v /\ waits_in y z = true).
  { intros u z. rewrite <-!pick_in. by rewrite others_waits. }
  destruct (q_waiting0 y t x) as [?|(u & z & ? & ? & ?)]; [by apply Hi|done|done|by left|right].
  exists u, z. specialize (Hi u z). tauto.
Qed.

(** The list after a change of the tasks of [k], when [k] is added to it or taken from it. *)
Lemma scheduled_enqueue (slot : Key) (l : list Z) :
  Scheduled v l -> many (holds k) v' <= 1 ->
  (k ∈ l -> pick (waits_in k) v' <> [] /\ many (holds k) v' = 0) ->
  queued slot = ids (pick (waits_in k) v') -> busy slot = negb (many (holds k) v' =? 0) ->
  Scheduled v' (enqueued k slot l).
Proof.
  intros H H1 Hk Hq Hb.
  assert (Hin : forall y, y ∈ enqueued k slot l <->
    y ∈ l \/ (y = k /\ many (holds k) v' = 0 /\ pick (waits_in k) v' <> [])).
  { intros y. unfold enqueued. rewrite Hq, Hb. unfold ids. rewrite length_map.
    destruct (Z.eqb_spec (many (holds k) v') 0), (pick (waits_in k) v') eqn:Hw; cbn;
      case_bool_decide; cbn; rewrite ?elem_of_app, ?list_elem_of_singleton; naive_solver. }
  split.
  - intros y. destruct (decide (y = k)) as [->|]; [done|]. rewrite others_holds by done. apply (q_serial _ _ H).
  - intros y. rewrite Hin. destruct (decide (y = k)) as [->|]; [naive_solver|].
    intros [?|?]; [by apply (others_linked l)|naive_solver].
  - intros y t x Hx Hxw H0. rewrite Hin. destruct (decide (y = k)) as [->|].
    + left. right. split; [done|]. split; [done|]. intros He.
      assert ((t, x) ∈ pick (waits_in k) v') as Hp by (by apply pick_in). rewrite He in Hp. set_solver.
    + destruct (others_waiting l y t x) as [?|?]; naive_solver.
Qed.

Lemma scheduled_remove (l : list Z) :
  Scheduled v l -> many (holds k) v' <= 1 ->
  (forall t x, (t, x) ∈ v' -> waits_in k x = true -> many (holds k) v' = 0 ->
     exists u z, (u, z) ∈ v' /\ waits_in k z = true /\ cancelReason z <> ErrorCode_Ok) ->
  Scheduled v' (without k l).
Proof.
  intros H H1 Hk.
  assert (Hin : forall y, y ∈ without k l <-> y ∈ l /\ y <> k).
  { intros y. unfold without. rewrite list_elem_of_filter. naive_solver. }
  split.
  - intros y. destruct (decide (y = k)) as [->|]; [done|]. rewrite others_holds by done. apply (q_serial _ _ H).
  - intros y [Hy Hyk]%Hin. by apply (others_linked l).
  - intros y t x Hx Hxw H0. rewrite Hin. destruct (decide (y = k)) as [->|]; [right; eauto|].
    destruct (others_waiting l y t x) as [?|?]; naive_solver.
Qed.

End others.

Lemma others_change (a b : Live) (t : nat) (x x' : KeyedTaskState) :
  key x' = key x -> same_others (key x) (a ++ (t, x) :: b) (a ++ (t, x') :: b).
Proof.
  intros Hk y Hy. rewrite !pick_app. f_equal. unfold pick. cbn.
  unfold of_key. rewrite Hk. by destruct (Z.eqb_spec (key x) y).
Qed.

Lemma others_gone (a b : Live) (t : nat) (x : KeyedTaskState) :
  same_others (key x) (a ++ (t, x) :: b) (a ++ b).
Proof.
  intros y Hy. rewrite !pick_app. f_equal. unfold pick. cbn.
  unfold of_key. by destruct (Z.eqb_spec (key x) y).
Qed.

Lemma others_new (v : Live) (t : nat) (x : KeyedTaskState) : same_others (key x) v (v ++ [(t, x)]).
Proof.
  intros y Hy. rewrite pick_app. unfold pick at 2. cbn. unfold of_key.
  destruct (Z.eqb_spec (key x) y); [done|]. by rewrite app_nil_r.
Qed.

(** ** Slots and counters *)

Lemma put_ready (k : Z) (new : Key) (l : list Z) (s : State) :
  ReadyList l s ->
  match keys s !! k with
  | Some old => slot_links new = slot_links old
  | None => slot_links new = (false, None, None)
  end -> ReadyList l (put_key k new s).
Proof.
  intros [Hn Hh Ht Hs Hf] Hk. split; cbn; try done.
  - intros y slot [[<- <-]|[Hy Hl]]%lookup_insert_Some; [|by apply Hs].
    destruct (keys s !! k) as [old|] eqn:He; [by rewrite Hk, (Hs k old)|]. rewrite Hk.
    rewrite links_outside; [done|]. intros Hin. destruct (Hf k Hin) as [? ?]. congruence.
  - intros y Hy. apply lookup_insert_is_Some'. auto.
Qed.

Lemma ready_frame (l : list Z) (s s' : State) :
  ReadyList l s -> keys s' = keys s -> readyHead s' = readyHead s -> readyTail s' = readyTail s -> ReadyList l s'.
Proof. intros [] Hk Hh Ht. split; rewrite ?Hk, ?Hh, ?Ht; auto. Qed.

Lemma put_core (k : Z) (new : Key) (s : State) (v v' : Live) :
  (forall y, core <$> keys s !! y = core_of v y) -> same_others k v v' -> core_of v' k = Some (core new) ->
  forall y, core <$> keys (put_key k new s) !! y = core_of v' y.
Proof.
  intros Hc Hs Hk y. cbn. destruct (decide (y = k)) as [->|Hy].
  - rewrite lookup_insert_eq. by rewrite Hk.
  - rewrite lookup_insert_ne by done. rewrite Hc. symmetry. by apply (others_core k v v').
Qed.

Lemma many_le (p : KeyedTaskState -> bool) (v : Live) : many p v <= many every v.
Proof. induction v as [|[t x] v IH]; [done|]. rewrite !many_cons. cbn. destruct (p x); lia. Qed.

Lemma total_bounds (p : KeyedTaskState -> bool) (v : Live) :
  (forall t x, (t, x) ∈ v -> TaskOk x) -> 0 <= total p v <= total every v.
Proof.
  induction v as [|[t x] v IH]; intros H; [done|]. cbn. destruct (ok_bytes x) as [Hb _]; [apply (H t); set_solver|].
  unfold bytes_of in *. assert (0 <= total p v <= total every v) by (apply IH; intros; apply (H t0); set_solver).
  destruct (p x); lia.
Qed.

Lemma size_sub_exact (a b : Z) : 0 <= b <= a -> a <= UINT64_MAX -> size_sub a b = a - b.
Proof. intros Hb Ha. unfold size_sub, wrap64. apply Z.mod_small. unfold UINT64_MAX in *. lia. Qed.

(** ** The tasks, when one changes *)

Lemma ids_in (v : Live) (t : nat) (x : KeyedTaskState) : (t, x) ∈ v -> t ∈ ids v.
Proof. apply (list_elem_of_fmap_2 fst v (t, x)). Qed.

Section stored.
Context (ts : list nat) (m : gmap nat KeyedTaskState).

Lemma stored_put (a b : Live) (t : nat) (x x' : KeyedTaskState) :
  Stored ts m (a ++ (t, x) :: b) -> TaskOk x' -> Stored ts (<[t := x']> m) (a ++ (t, x') :: b).
Proof.
  intros [] Hx. destruct (sorted_split a b t x st_order0) as (Ha & Hb & _).
  assert (Hid : ids (a ++ (t, x') :: b) = ids (a ++ (t, x) :: b)) by (by rewrite !ids_app).
  assert (Hin : forall u y, (u, y) ∈ a ++ (t, x') :: b <-> (u = t /\ y = x') \/ (u <> t /\ (u, y) ∈ a ++ (t, x) :: b)).
  { intros u y. rewrite !elem_of_app, !elem_of_cons. pose proof (ids_in a u y). pose proof (ids_in b u y).
    destruct (decide (u = t)) as [->|]; naive_solver. }
  split; rewrite ?Hid; try done.
  - intros u y [[-> ->]|[Hu Hy]]%Hin; [apply lookup_insert_eq|rewrite lookup_insert_ne by done; auto].
  - intros u y. rewrite Hin. intros [[<- <-]|[Hu Hy]]%lookup_insert_Some; [by left; left|].
    destruct (st_done0 u y Hy); [left; right; done|by right].
  - intros u y [[-> ->]|[Hu Hy]]%Hin; eauto.
Qed.

Lemma stored_new (v : Live) (t : nat) (x : KeyedTaskState) :
  Stored ts m v -> (forall u, is_Some (m !! u) -> (u < t)%nat) -> TaskOk x ->
  Stored (ts ++ [t]) (<[t := x]> m) (v ++ [(t, x)]).
Proof.
  intros [] Ht Hx. assert (Hlt : forall u, u ∈ ids v -> (u < t)%nat).
  { intros u [[u' y] [-> Hy]]%list_elem_of_fmap. apply Ht. cbn. rewrite (st_store0 _ _ Hy). by eexists. }
  split; rewrite ?ids_app.
  - by rewrite st_tasks0.
  - cbn. revert st_order0 Hlt. clear. induction (ids v) as [|u us IH]; cbn; intros Hs Hlt; [repeat constructor|].
    apply StronglySorted_inv in Hs as [Hs Hu]. constructor; [apply IH; [done|set_solver]|].
    apply Forall_app. split; [done|]. constructor; [apply Hlt; set_solver|done].
  - intros u y [Hy|[= -> ->]%list_elem_of_singleton]%elem_of_app; [|apply lookup_insert_eq].
    rewrite lookup_insert_ne; [auto|]. intros <-. specialize (Hlt t (ids_in _ _ _ Hy)). lia.
  - intros u y [[<- <-]|[Hu Hy]]%lookup_insert_Some; [set_solver|].
    destruct (st_done0 u y Hy) as [?|[Hn Hd]]; [set_solver|right]. split; [cbn; set_solver|done].
  - intros u y [Hy|[= -> ->]%list_elem_of_singleton]%elem_of_app; eauto.
Qed.

Lemma stored_gone (a b : Live) (t : nat) (x x' : KeyedTaskState) :
  Stored ts m (a ++ (t, x) :: b) -> DoneOk x' ->
  Stored (filter (fun u => u <> t) ts) (<[t := x']> m) (a ++ b).
Proof.
  intros [] Hx. pose proof (sorted_split a b t x st_order0) as (Ha & Hb & _).
  split.
  - rewrite st_tasks0, !ids_app. cbn. rewrite filter_app, filter_cons_False by naive_solver.
    by rewrite !filter_absent.
  - rewrite ids_app. rewrite ids_app in st_order0. cbn in st_order0. revert st_order0. clear.
    induction (ids a) as [|u us IH]; cbn; intros Hs; apply StronglySorted_inv in Hs as [Hs Hu]; [done|].
    constructor; [auto|]. rewrite Forall_app in *. rewrite Forall_cons in Hu. naive_solver.
  - intros u y Hy. assert (u <> t) by (intros ->; apply ids_in in Hy; rewrite ids_app in Hy; set_solver).
    rewrite lookup_insert_ne by done. apply st_store0. set_solver.
  - intros u y. rewrite ids_app, elem_of_app. intros [[<- <-]|[Hu Hy]]%lookup_insert_Some; [right; tauto|].
    destruct (st_done0 u y Hy) as [Hin|[Hn Hd]]; [left; set_solver|right].
    rewrite ids_app, elem_of_app in Hn. cbn in Hn. set_solver.
  - intros u y Hy. apply (st_ok0 u). set_solver.
Qed.

End stored.

(** ** Submitting *)

Lemma many_filter (p : KeyedTaskState -> bool) (v : Live) : v = [] -> many p v = 0 /\ total p v = 0.
Proof. by intros ->. Qed.

Lemma sized_started (s : State) (v : Live) (l : list Z) : Inv s v l -> started s = true -> sized (options s).
Proof. intros H Hs. destruct (n_sized _ _ (i_counted _ _ _ H)); [done|congruence]. Qed.

Lemma slot_core (s : State) (v : Live) (l : list Z) (k : Z) (slot : Key) :
  Inv s v l -> keys s !! k = Some slot ->
  queued slot = ids (pick (waits_in k) v) /\ key_outstanding slot = many (of_key k) v
  /\ key_bytes slot = total (of_key k) v /\ busy slot = negb (many (holds k) v =? 0) /\ 0 < many (of_key k) v.
Proof.
  intros H Hk. pose proof (i_keys _ _ _ H k) as Hc. rewrite Hk in Hc. cbn in Hc. unfold core_of in Hc.
  pose proof (many_pos (of_key k) v). destruct (Z.eqb_spec (many (of_key k) v) 0); [done|].
  injection Hc as Hq Ho Hb Hbusy. repeat split; try done. lia.
Qed.

Lemma slot_none (s : State) (v : Live) (l : list Z) (k : Z) :
  Inv s v l -> keys s !! k = None -> many (of_key k) v = 0.
Proof.
  intros H Hk. pose proof (i_keys _ _ _ H k) as Hc. rewrite Hk in Hc. unfold core_of in Hc.
  by destruct (Z.eqb_spec (many (of_key k) v) 0).
Qed.

Lemma none_of (p : KeyedTaskState -> bool) (v : Live) : many p v = 0 -> pick p v = [].
Proof. unfold many. destruct (pick p v); cbn; [done|lia]. Qed.

(** A key without a task has no bytes, none waiting and none running. *)
Lemma none_core (v : Live) (k : Z) : many (of_key k) v = 0 ->
  total (of_key k) v = 0 /\ pick (waits_in k) v = [] /\ many (holds k) v = 0.
Proof.
  intros H%none_of. unfold many, waits_in, holds. rewrite <-!pick_pick, <-total_pick, H. done.
Qed.

Definition Room (k bytes : Z) (s : State) (v : Live) : Prop :=
  outstanding s + 1 <= maxOutstandingTasks (options s) /\ retained s + bytes <= maxRetainedBytes (options s)
  /\ many (of_key k) v + 1 <= maxOutstandingTasksPerKey (options s)
  /\ total (of_key k) v + bytes <= maxRetainedBytesPerKey (options s)
  /\ (keys s !! k = None -> Z.of_nat (size (keys s)) + 1 <= maxKeys (options s)).

Lemma within (s : State) (v : Live) (l : list Z) (k : Z) : Inv s v l -> started s = true ->
  0 <= retained s <= maxRetainedBytes (options s)
  /\ 0 <= total (of_key k) v <= maxRetainedBytesPerKey (options s)
  /\ many (of_key k) v <= maxOutstandingTasksPerKey (options s)
  /\ running s <= workerCount (options s).
Proof.
  intros H Hs. pose proof (i_counted _ _ _ H) as []. pose proof (sized_started _ _ _ H Hs) as Hz.
  unfold sized, in_u64 in Hz. rewrite n_retained0, n_running0 in *.
  pose proof (total_bounds every v (i_ok _ _ _ H)). pose proof (total_bounds (of_key k) v (i_ok _ _ _ H)).
  destruct (decide (v = [])) as [->|Hv]; [rewrite !many_nil; cbn; lia|].
  pose proof (n_key_bytes0 k Hv). pose proof (n_key_tasks0 k Hv). intuition lia.
Qed.

Lemma admission_room (k bytes : Z) (s : State) (v : Live) (l : list Z) :
  Inv s v l -> in_u64 bytes -> Status.IsOk (Admission k bytes s) = true ->
  ready s = true /\ stopping s = false /\ started s = true /\ Room k bytes s v.
Proof.
  intros H Hb. unfold Admission.
  destruct (Z.ltb_spec (maxRetainedBytes (options s)) bytes), (Z.ltb_spec (maxRetainedBytesPerKey (options s)) bytes);
    try done. destruct (ready s) eqn:Hr, (stopping s) eqn:Hp; try done. cbn [orb negb].
  assert (Hs : started s = true) by (by apply (i_started _ _ _ H)).
  destruct (within s v l k H Hs) as (Hre & Hto & _ & _). pose proof (sized_started _ _ _ H Hs) as Hz.
  pose proof (i_options _ _ _ H Hs) as Hv. unfold sized, in_u64, OptionsValid in *.
  rewrite size_sub_exact by lia.
  destruct (Z.leb_spec (maxOutstandingTasks (options s)) (outstanding s)); [done|].
  destruct (Z.ltb_spec (maxRetainedBytes (options s) - retained s) bytes); [done|]. cbn [orb].
  intros Ha. repeat (split; [done|]). unfold Room. split; [lia|]. split; [lia|].
  destruct (keys s !! k) as [slot|] eqn:Hk.
  - destruct (slot_core s v l k slot H Hk) as (_ & Ho & Hbs & _ & _). rewrite Ho, Hbs in Ha.
    rewrite size_sub_exact in Ha by lia.
    destruct (Z.leb_spec (maxOutstandingTasksPerKey (options s)) (many (of_key k) v)); [done|].
    destruct (Z.ltb_spec (maxRetainedBytesPerKey (options s) - total (of_key k) v) bytes); [done|]. split; [lia|].
    split; [lia|done].
  - pose proof (slot_none s v l k H Hk) as Hn0. destruct (none_core v k Hn0) as (Ht & _).
    destruct (Z.leb_spec (maxKeys (options s)) (Z.of_nat (size (keys s)))); [done|].
    rewrite Hn0, Ht. rewrite !negb_orb, !andb_true_iff, !negb_true_iff, !Z.eqb_neq in Hv. lia.
Qed.

Lemma same_size (m m' : gmap Z Key) : (forall k, core <$> m !! k = core <$> m' !! k) -> size m = size m'.
Proof.
  intros Hc. rewrite <-!size_dom. f_equal. apply leibniz_equiv. intros k. rewrite !elem_of_dom.
  specialize (Hc k). destruct (m !! k), (m' !! k); cbn in Hc; try done; split; eauto.
Qed.

(** A change of the list of ready keys alone. *)
Lemma base_relinked (s s' : State) (v : Live) : Base s v -> SameButLinks s s' -> Base s' v.
Proof.
  intros [] [Hc (m & h & t & ->)]. split; cbn in *; try done.
  - intros k. by rewrite Hc.
  - destruct b_counted0. split; cbn; try done. by rewrite (same_size m (keys s)).
Qed.

Lemma inv_enqueue (k : Z) (slot : Key) (l : list Z) (s : State) (v0 v : Live) :
  Base s v -> ReadyList l s -> Scheduled v0 l -> same_others k v0 v -> keys s !! k = Some slot ->
  many (holds k) v <= 1 -> (k ∈ l -> pick (waits_in k) v <> [] /\ many (holds k) v = 0) ->
  Inv (Enqueue k s) v (enqueued k slot l).
Proof.
  intros Hb Hr Hs Ho Hk H1 Hkl. destruct (Enqueue_spec k slot l s Hr Hk) as [Hr' Hsame].
  split; [by apply (base_relinked s)|done|]. pose proof (b_keys _ _ Hb k) as Hc. rewrite Hk in Hc.
  unfold core_of in Hc. cbn in Hc. case_match; [done|]. injection Hc as Hq _ _ Hbz.
  by apply (scheduled_enqueue k v0 v).
Qed.

Lemma new_task_ok (env : Env) (reason : ErrorCode) (k : Z) (o : TaskOptions) :
  is_reason reason = true -> in_u64 (retainedBytes o) ->
  let x := ObserveCancellation env (with_reason reason (NewTask k o)) in
  TaskOk x /\ key x = k /\ phase x = Queued /\ bytes_of x = retainedBytes o.
Proof.
  intros Hr Hb. cbv zeta. set (y := with_reason reason (NewTask k o)).
  destruct (observe_quiet env y) as [Hk Ho _ _ _ Hok _ _]; [done|]. unfold bytes_of.
  rewrite Hk, Ho, observe_phase. split; [|done]. apply Hok. split; cbn; try done.
Qed.

(** The slot [Submit] finds or creates. *)
Lemma found_slot (s : State) (v : Live) (l : list Z) (k : Z) : Inv s v l ->
  let slot := match keys s !! k with Some slot => slot | None => NewKey end in
  queued slot = ids (pick (waits_in k) v) /\ key_outstanding slot = many (of_key k) v
  /\ key_bytes slot = total (of_key k) v /\ busy slot = negb (many (holds k) v =? 0).
Proof.
  intros H. destruct (keys s !! k) as [slot|] eqn:Hk; cbv zeta.
  - destruct (slot_core s v l k slot H Hk) as (? & ? & ? & ? & _). done.
  - pose proof (slot_none s v l k H Hk) as H0. destruct (none_core v k H0) as (-> & -> & ->). by rewrite H0.
Qed.

Lemma core_new (v : Live) (t : nat) (x : KeyedTaskState) : phase x = Queued ->
  core_of (v ++ [(t, x)]) (key x) =
    Some (ids (pick (waits_in (key x)) v) ++ [t], many (of_key (key x)) v + 1,
          total (of_key (key x)) v + bytes_of x, negb (many (holds (key x)) v =? 0)).
Proof.
  intros Hp. unfold core_of. autorewrite with live. rewrite (queued_phase x Hp), (queued_holds x Hp).
  pose proof (many_pos (of_key (key x)) v). rewrite (proj2 (Z.eqb_neq _ 0)) by lia. by rewrite !Z.add_0_r.
Qed.

Lemma submit_base (t : nat) (x : KeyedTaskState) (m : Metrics) (s : State) (v : Live) (l : list Z) (slot : Key) :
  Inv s v l -> (forall u, is_Some (store s !! u) -> (u < t)%nat) -> TaskOk x -> phase x = Queued ->
  ready s = true -> stopping s = false -> started s = true -> Room (key x) (bytes_of x) s v ->
  core slot = (ids (pick (waits_in (key x)) v) ++ [t], many (of_key (key x)) v + 1,
    total (of_key (key x)) v + bytes_of x, negb (many (holds (key x)) v =? 0)) ->
  Base (set_metrics m (set_counts (pending s + 1) (running s) (outstanding s + 1) (retained s + bytes_of x)
    (put_key (key x) slot (set_tasks (tasks s ++ [t]) (put_task t x s))))) (v ++ [(t, x)]).
Proof.
  intros H Hf Hok Hq Hrd Hst Hsd (Ho & Hre & Hko & Hkb & Hks) Hslot. split; cbn.
  - by apply stored_new; [apply H|..].
  - apply (put_core (key x) slot s v); [apply H|apply others_new|]. by rewrite core_new, Hslot.
  - pose proof (i_counted _ _ _ H) as []. pose proof (fun k => within s v l k H Hsd) as Hw.
    split; cbn; autorewrite with live; rewrite ?(queued_phase x), ?(queued_holds x) by done; cbn; try lia; try done.
    + intros _. destruct (keys s !! key x) as [old|] eqn:Hk.
      * rewrite map_size_insert_Some by done. apply n_max_keys0. intros ->.
        destruct (slot_core s [] l (key x) old H Hk) as (_ & _ & _ & _ & Hp). by rewrite many_nil in Hp.
      * rewrite map_size_insert_None by done. specialize (Hks eq_refl). lia.
    + intros k _. autorewrite with live. destruct (Hw k) as (_ & _ & Hm & _). unfold of_key at 2.
      destruct (Z.eqb_spec (key x) k) as [<-|]; lia.
    + intros k _. autorewrite with live. destruct (Hw k) as (_ & Hm & _ & _). unfold of_key at 2.
      destruct (Z.eqb_spec (key x) k) as [<-|]; lia.
    + intros _. apply (Hw 0).
  - split; [done|]. intros ?. congruence.
  - apply H.
  - congruence.
Qed.

Lemma inv_submit (env : Env) (t : nat) (reason : ErrorCode) (k : Z) (o : TaskOptions) (s s' : State)
    (v : Live) (l : list Z) :
  Inv s v l -> (forall u, is_Some (store s !! u) -> (u < t)%nat) -> is_reason reason = true ->
  in_u64 (retainedBytes o) -> SubmitCommit env t reason k o s = (Status.Ok, s') ->
  exists x l', Inv s' (v ++ [(t, x)]) l' /\ key x = k /\ phase x = Queued.
Proof.
  intros H Hf Hr Hb. unfold SubmitCommit. destruct (Status.IsOk (Admission _ _ _)) eqn:Ha; cbn [negb];
    [|by intros [= Hx _]; rewrite Hx in Ha].
  destruct (admission_room k (retainedBytes o) s v l H Hb Ha) as (Hrd & Hst & Hsd & Hroom).
  destruct (new_task_ok env reason k o Hr Hb) as (Hok & Hxk & Hxp & Hxb). destruct (found_slot s v l k H) as (Hq & Ho & Hby & Hbu).
  set (x := ObserveCancellation _ _) in *. set (slot := match keys s !! k with Some _ => _ | None => _ end) in *.
  intros [= <-]. exists x. rewrite <-Hxb in *. clearbody x. subst k.
  set (slot' := with_counts _ _ _). exists (enqueued (key x) slot' l). split; [|done].
  apply inv_enqueue with v; try done.
  - apply (submit_base t x _ s v l slot'); try done. unfold core, slot'. cbn. by rewrite Hq, Ho, Hby, Hbu.
  - apply (ready_frame l (put_key (key x) slot' s)); [|done..]. apply put_ready; [apply H|].
    subst slot' slot. by destruct (keys s !! key x).
  - apply H.
  - apply others_new.
  - cbn. apply lookup_insert_eq.
  - autorewrite with live. rewrite (queued_holds x Hxp). pose proof (q_serial _ _ (i_scheduled _ _ _ H) (key x)). lia.
  - intros Hl. destruct (q_linked _ _ (i_scheduled _ _ _ H) _ Hl) as [_ H0]. autorewrite with live.
    rewrite (queued_holds x Hxp), (queued_phase x Hxp). split; [|lia]. by destruct (pick _ v).
Qed.

(** ** Workers *)

Lemma pick_head (p : KeyedTaskState -> bool) (v r : Live) (t : nat) (x : KeyedTaskState) :
  pick p v = (t, x) :: r -> exists a b, v = a ++ (t, x) :: b /\ pick p a = [] /\ pick p b = r /\ p x = true.
Proof.
  induction v as [|[u y] v IH]; [done|]. rewrite pick_cons. destruct (p y) eqn:Hp.
  - intros [= -> -> Hr]. by exists [], v.
  - intros H. destruct (IH H) as (a & b & -> & Ha & Hb & Hx). exists ((u, y) :: a), b.
    by rewrite pick_cons, Hp.
Qed.

Lemma observe_none (env : Env) (x : KeyedTaskState) :
  cancelReason (ObserveCancellation env x) = ErrorCode_Ok -> ObserveCancellation env x = x.
Proof. unfold ObserveCancellation. by repeat case_match. Qed.

(** What the slot of a changed task holds. *)
Lemma core_change (a b : Live) (t : nat) (x : KeyedTaskState) :
  core_of (a ++ (t, x) :: b) (key x) =
    Some (ids (pick (waits_in (key x)) a) ++ (if is_queued x then [t] else []) ++ ids (pick (waits_in (key x)) b),
          many (of_key (key x)) a + 1 + many (of_key (key x)) b,
          total (of_key (key x)) a + bytes_of x + total (of_key (key x)) b,
          negb (many (holds (key x)) a + (if occupies x then 1 else 0) + many (holds (key x)) b =? 0)).
Proof.
  unfold core_of. autorewrite with live.
  pose proof (many_pos (of_key (key x)) a). pose proof (many_pos (of_key (key x)) b).
  rewrite (proj2 (Z.eqb_neq _ 0)) by lia. f_equal. f_equal; [f_equal; [f_equal|]|by rewrite !Z.add_assoc]; [|lia..].
  by destruct (is_queued x).
Qed.

(** A task of the executor changes its phase; its slot and the counters follow. *)
Lemma base_change (s : State) (a b : Live) (t : nat) (x x' : KeyedTaskState) (slot : Key) (p r : Z) :
  Base s (a ++ (t, x) :: b) -> TaskOk x' -> key x' = key x -> task_options x' = task_options x ->
  is_Some (keys s !! key x) ->
  (stopping s = true -> phase x' <> Completing -> cancelReason x' <> ErrorCode_Ok) ->
  p = many is_queued (a ++ (t, x') :: b) -> r = many occupies (a ++ (t, x') :: b) ->
  r <= workerCount (options s) -> core_of (a ++ (t, x') :: b) (key x) = Some (core slot) ->
  Base (set_counts p r (outstanding s) (retained s) (put_key (key x) slot (put_task t x' s))) (a ++ (t, x') :: b).
Proof.
  intros [] Hok Hk Ho [old Hold] Hstop -> -> Hr Hc. split; cbn; try done.
  - by apply stored_put with x.
  - by apply (put_core (key x) slot s (a ++ (t, x) :: b)); [|apply others_change|].
  - assert (Hne : a ++ (t, x) :: b <> []) by (by destruct a).
    destruct b_counted0. split; cbn; autorewrite with live in *; try lia; try done.
    + unfold bytes_of in *. by rewrite Ho.
    + intros _. rewrite map_size_insert_Some by done. auto.
    + intros k _. specialize (n_key_tasks0 k Hne). autorewrite with live in *. unfold of_key in *. by rewrite Hk.
    + intros k _. specialize (n_key_bytes0 k Hne). autorewrite with live in *. unfold of_key, bytes_of in *.
      by rewrite Hk, Ho.
  - destruct b_started0 as [? Hn]. split; [done|]. intros Hrd. specialize (Hn Hrd). by destruct a.
  - intros Hs u y [Hy|[[= -> ->]|Hy]%elem_of_cons]%elem_of_app; [|by auto|]; apply (b_stopping0 Hs u); set_solver.
Qed.

Lemma RemoveReady_store (k : Z) (m : gmap nat KeyedTaskState) (s : State) :
  RemoveReady k (set_store m s) = set_store m (RemoveReady k s).
Proof.
  unfold RemoveReady. destruct s; cbn. repeat (case_match; cbn; try done); simplify_eq/=; done.
Qed.

Lemma same_others_refl (k : Z) (v : Live) : same_others k v v.
Proof. done. Qed.

Lemma inv_unlink (k : Z) (slot : Key) (s : State) (v : Live) (l : list Z) (t : nat) (x : KeyedTaskState) :
  Inv s v l -> keys s !! k = Some slot -> (t, x) ∈ v -> waits_in k x = true -> cancelReason x <> ErrorCode_Ok ->
  Inv (RemoveReady k s) v (without k l).
Proof.
  intros H Hk Hx Hw Hc. destruct (RemoveReady_list k slot l s (i_ready _ _ _ H) Hk) as [Hr Hs].
  split; [by apply (base_relinked s); [apply H|]|done|].
  apply (scheduled_remove k v v (same_others_refl k v)); [apply H|apply H|]. intros _ _ _ _ _. by exists t, x.
Qed.

Lemma same_slot (s s' : State) (k : Z) (slot : Key) : SameButLinks s s' -> keys s !! k = Some slot ->
  exists slot', keys s' !! k = Some slot' /\ core slot' = core slot.
Proof.
  intros [Hc _] Hk. specialize (Hc k). rewrite Hk in Hc. cbn in Hc.
  apply fmap_Some in Hc as (slot' & ? & ?). by exists slot'.
Qed.

Lemma same_tasks (s s' : State) : SameButLinks s s' ->
  store s' = store s /\ tasks s' = tasks s /\ options s' = options s /\ pending s' = pending s
  /\ running s' = running s /\ stopping s' = stopping s.
Proof. by intros [_ (m & h & t & ->)]. Qed.

(** The task at the head of a key that is ready. *)
Record Head (v : Live) (k : Z) (a b : Live) (t : nat) (x : KeyedTaskState) : Prop := {
  hd_split : v = a ++ (t, x) :: b;
  hd_key : key x = k;
  hd_phase : phase x = Queued;
  hd_first : pick (waits_in k) a = [];
  hd_free : many (holds k) v = 0
}.

Lemma head_of (s : State) (v : Live) (l : list Z) (k : Z) :
  Inv s v l -> k ∈ l -> exists slot a b t x, keys s !! k = Some slot /\ Head v k a b t x
    /\ queued slot = t :: ids (pick (waits_in k) b).
Proof.
  intros H Hk. destruct (q_linked _ _ (i_scheduled _ _ _ H) k Hk) as [Hw H0].
  destruct (rl_found _ _ (i_ready _ _ _ H) k Hk) as [slot Hs].
  destruct (slot_core s v l k slot H Hs) as (Hq & _). destruct (pick (waits_in k) v) as [|[t x] r] eqn:Hp; [done|].
  destruct (pick_head _ _ _ _ _ Hp) as (a & b & -> & Ha & Hb & Hx). exists slot, a, b, t, x.
  apply andb_true_iff in Hx as [Hx1 Hx2]. apply Z.eqb_eq in Hx1. apply bool_decide_eq_true in Hx2.
  split; [done|]. split; [by split|]. by rewrite Hq, Hb.
Qed.

(** What a round of a worker does: nothing, or it drops the key of a cancelled task from the list, or
    it starts the first task of its key, which no task holds. *)
Definition TakeSpec (s : State) (v : Live) (l : list Z) (r : Taken) (s' : State) : Prop :=
  match r with
  | TakenReturn | TakenWait => s' = s
  | TakenAgain => exists v' l', quiet_list v v' /\ Inv s' v' l' /\ (length l' < length l)%nat
  | TakenTask t => exists k a b x l', Head v k a b t x /\ (length l' <= length l)%nat
      /\ (running s < workerCount (options s) -> Inv s' (a ++ (t, with_phase Running x) :: b) l')
  end.

Lemma without_shorter (k : Z) (l : list Z) :
  (length (without k l) <= length l)%nat /\ (k ∈ l -> (length (without k l) < length l)%nat).
Proof.
  unfold without. induction l as [|y l [IH1 IH2]]; [set_solver|].
  destruct (decide (y = k)) as [->|Hy].
  - rewrite filter_cons_False by naive_solver. cbn. split; [lia|]. intros _. lia.
  - rewrite filter_cons_True by done. cbn. split; [lia|]. intros ?. assert (k ∈ l) by set_solver. naive_solver lia.
Qed.

Lemma tasks_max (s : State) (v : Live) (l : list Z) : Inv s v l ->
  outstanding s <= UINT64_MAX /\ retained s <= UINT64_MAX.
Proof.
  intros H. pose proof (i_counted _ _ _ H) as Hn. destruct (decide (v = [])) as [->|Hv].
  - rewrite (n_outstanding _ _ Hn), (n_retained _ _ Hn), many_nil, total_nil. done.
  - destruct (i_started _ _ _ H) as [Hr Hn0]. destruct (ready s); [|by specialize (Hn0 eq_refl)].
    pose proof (sized_started _ _ _ H (Hr eq_refl)) as Hz. unfold sized, in_u64 in Hz.
    pose proof (n_max_tasks _ _ Hn Hv). pose proof (n_max_bytes _ _ Hn Hv). lia.
Qed.

Lemma start_inv (s s1 : State) (v a b : Live) (l : list Z) (t : nat) (x : KeyedTaskState) (slot : Key) :
  Inv s v l -> Head v (key x) a b t x -> cancelReason x = ErrorCode_Ok -> stopping s = false ->
  Base s1 v -> ReadyList (without (key x) l) s1 -> SameButLinks s s1 -> keys s1 !! key x = Some slot ->
  running s < workerCount (options s) -> queued slot = t :: ids (pick (waits_in (key x)) b) ->
  Inv (set_counts (size_sub (pending s1) 1) (running s1 + 1) (outstanding s1) (retained s1)
        (put_task t (with_phase Running x)
          (put_key (key x) (with_busy true (with_queued (ids (pick (waits_in (key x)) b)) slot)) s1)))
    (a ++ (t, with_phase Running x) :: b) (without (key x) l).
Proof.
  intros H [-> _ Hp Ha H0] Hc Hst Hb Hr Hs Hk Hrun Hq.
  destruct (same_tasks s s1 Hs) as (_ & _ & Eo & Ep & Er & Es).
  pose proof (i_counted _ _ _ H) as Hn. pose proof (many_le is_queued (a ++ (t, x) :: b)) as Hle.
  destruct (tasks_max _ _ _ H) as [Hmax _]. rewrite (n_outstanding _ _ Hn) in Hmax.
  pose proof (n_pending _ _ Hn) as Np. pose proof (n_running _ _ Hn) as Nr.
  autorewrite with live in H0, Np, Nr, Hle, Hmax. rewrite (queued_phase x Hp) in *. rewrite (queued_holds x Hp) in *.
  pose proof (many_pos is_queued a). pose proof (many_pos is_queued b).
  assert (Hx : occupies (with_phase Running x) = true /\ is_queued (with_phase Running x) = false) by done.
  pose proof (i_ok _ _ _ H t x) as Hok.
  split.
  - apply (base_change s1 a b t x (with_phase Running x)); try done.
    + destruct Hok as [? ? ? Hpub ? ?]; [set_solver|]. split; cbn; try done.
      split; [done|]. intros Hs'%Hpub. congruence.
    + by rewrite Es, Hst.
    + rewrite Ep, size_sub_exact by lia. autorewrite with live. destruct Hx as [_ ->]. lia.
    + rewrite Er. autorewrite with live. destruct Hx as [-> _]. lia.
    + rewrite Er, Eo. lia.
    + change (key x) with (key (with_phase Running x)). rewrite core_change. destruct Hx as [-> ->]. cbn [key with_phase].
      rewrite Ha. unfold core. cbn. pose proof (b_keys _ _ Hb (key x)) as Hcr. rewrite Hk in Hcr.
      rewrite core_change in Hcr. cbn in Hcr. injection Hcr as _ -> -> _.
      rewrite (proj2 (Z.eqb_neq _ 0)); [done|]. pose proof (many_pos (holds (key x)) a). pose proof (many_pos (holds (key x)) b). lia.
  - apply (ready_frame (without (key x) l) (put_key (key x) (with_busy true
      (with_queued (ids (pick (waits_in (key x)) b)) slot)) s1)); [|done..].
    apply put_ready; [done|]. by rewrite Hk.
  - apply (scheduled_remove (key x) (a ++ (t, x) :: b)); [by apply others_change|apply H| |];
      autorewrite with live; change (holds (key x) (with_phase Running x)) with (of_key (key x) x && true);
      rewrite of_key_self; cbn [andb]; pose proof (many_pos (holds (key x)) a); pose proof (many_pos (holds (key x)) b); [lia|].
    intros u y _ _ ?. lia.
Qed.

Lemma take_spec (env : Env) (s : State) (v : Live) (l : list Z) :
  Inv s v l -> exists r s', WorkerTake env s = Some (r, s') /\ TakeSpec s v l r s'.
Proof.
  intros H. unfold WorkerTake. destruct (stopping s) eqn:Hst; [by exists TakenReturn, s|].
  rewrite (rl_head _ _ (i_ready _ _ _ H)). destruct l as [|k l0]; [by exists TakenWait, s|]. cbn [head].
  destruct (ready s) eqn:Hrd; cbn [negb]; [|by exists TakenWait, s]. set (l := k :: l0) in *.
  destruct (head_of s v l k H) as (slot & a & b & t & x & Hk & Hhd & Hq); [set_solver|].
  destruct (RemoveReady_list k slot l s (i_ready _ _ _ H) Hk) as [Hr Hs].
  destruct (same_slot _ _ _ _ Hs Hk) as (slot1 & Hk1 & [= Hq1 _ _ _]). destruct (same_tasks _ _ Hs) as (Estore & _).
  pose proof Hhd as [Hv Hxk Hp Ha H0]. rewrite Hk1, Hq1, Hq, Estore.
  assert (Hin : (t, x) ∈ v) by set_solver. rewrite (i_store _ _ _ H t x Hin).
  case_bool_decide as Hc; cbn [negb].
  - pose proof (observe_none _ _ Hc) as He. rewrite He in *. eexists _, _. split; [done|]. exists k, a, b, x, (without k l).
    split; [done|]. split; [apply without_shorter|]. intros Hrun. subst k.
    apply (start_inv s (RemoveReady (key x) s) v a b l t x slot1); try done.
    + by apply (base_relinked s); [apply H|].
    + by rewrite Hq1, Hq.
  - eexists _, _. split; [done|]. set (x' := ObserveCancellation env x) in *.
    assert (Hx : quiet x x') by (apply observe_quiet; congruence). rewrite Hv in H.
    pose proof (inv_mark s a b t x x' l H Hx) as H1.
    exists (a ++ (t, x') :: b), (without k l). split; [rewrite Hv; apply Forall2_app; [reflexivity|constructor; [by split|reflexivity]]|].
    split; [|apply without_shorter; set_solver].
    change (Inv (set_store (<[t := x']> (store (RemoveReady k s))) (RemoveReady k s)) (a ++ (t, x') :: b) (without k l)).
    rewrite Estore, <-RemoveReady_store. apply (inv_unlink k slot _ _ _ t x'); [done|done|set_solver| |done].
    rewrite (stable_waits k _ _ Hx). subst k. by rewrite waits_self, queued_phase.
Qed.

(** The end of a job. *)
Definition finished (env : Env) (code : ErrorCode) (x : KeyedTaskState) : KeyedTaskState :=
  let y := ObserveCancellation env x in
  let code := if bool_decide (cancelReason y = ErrorCode_Ok) then code else cancelReason y in
  with_publishing (Some (code, true)) (with_phase Completing y).

Lemma finish_quiet (env : Env) (code : ErrorCode) (x : KeyedTaskState) :
  phase x = Running -> quiet x (finished env code x) /\ (weight (finished env code x) < weight x)%nat.
Proof.
  intros Hp. destruct (observe_quiet env x) as [Hk Ho Hq Hc Hr Hok _ _]; [congruence|].
  assert (Hw : (2 <= weight x)%nat) by (unfold weight; rewrite Hp; destruct (signalSent x); lia).
  split; [|unfold finished, weight at 1; cbn; lia]. split; cbn; try done.
  - unfold is_queued. cbn. by rewrite Hp.
  - unfold occupies. cbn. by rewrite Hp.
  - intros [Hb ? _ _ _ _]%Hok. split; cbn; try done. intros c d [= <- _] Hn. by rewrite bool_decide_false.
  - cbn. lia.
Qed.

Lemma inv_finish (env : Env) (t : nat) (x : KeyedTaskState) (code : ErrorCode) (s : State) (v : Live) (l : list Z) :
  Inv s v l -> store s !! t = Some x -> phase x = Running -> exists a b, v = a ++ (t, x) :: b
    /\ Inv (WorkerFinish env t code s) (a ++ (t, finished env code x) :: b) l.
Proof.
  intros H Hx Hp. assert (Hin : (t, x) ∈ v) by (apply (inv_live s v l); congruence).
  destruct (in_split_live v t x Hin) as (a & b & ->). exists a, b. split; [done|].
  unfold WorkerFinish. rewrite Hx. by apply (inv_mark s a b t x), finish_quiet.
Qed.

(** ** The coordinator *)

(** A round over the rest [b] of the tasks: those before the task it selects are observed. *)
Definition ScanSpec (a b : Live) (l : list Z) (found : option (nat * bool)) (s' : State) : Prop :=
  match found with
  | None => exists b', quiet_list b b' /\ Inv s' (a ++ b') l
      /\ (forall t x, (t, x) ∈ b' -> phase x <> Completing -> cancelReason x <> ErrorCode_Ok -> signalSent x = true)
  | Some (t, q) => exists s0 b1 x b2, quiet_list b (b1 ++ (t, x) :: b2) /\ Inv s0 (a ++ b1 ++ (t, x) :: b2) l
      /\ s' = put_task t (with_signal x) s0 /\ cancelReason x <> ErrorCode_Ok /\ signalSent x = false
      /\ phase x <> Completing /\ q = is_queued x
  end.

Lemma scan_step (a b : Live) (l : list Z) (t : nat) (x x' : KeyedTaskState) found s' :
  quiet x x' -> ScanSpec (a ++ [(t, x')]) b l found s' ->
  (found = None -> phase x' <> Completing -> cancelReason x' <> ErrorCode_Ok -> signalSent x' = true) ->
  ScanSpec a ((t, x) :: b) l found s'.
Proof.
  intros Hq H Hn. destruct found as [[u q]|].
  - destruct H as (s0 & b1 & y & b2 & Hb & Hi & H). exists s0, ((t, x') :: b1), y, b2.
    rewrite <-app_assoc in Hi. split; [constructor; [by split|done]|]. split; [done|]. done.
  - destruct H as (b' & Hb & Hi & H). exists ((t, x') :: b'). rewrite <-app_assoc in Hi.
    split; [constructor; [by split|done]|]. split; [done|].
    intros u y [[= -> ->]|Hy]%elem_of_cons; [by apply Hn|by apply (H u)].
Qed.

Lemma scan_spec (env : Env) (l : list Z) (b : Live) : forall (s : State) (a : Live), Inv s (a ++ b) l ->
  ScanSpec a b l (ScanTasks env (ids b) s).1 (ScanTasks env (ids b) s).2.
Proof.
  induction b as [|[t x] b IH]; intros s a H.
  - exists []. split; [constructor|]. split; [done|set_solver].
  - rewrite ids_cons. cbn [ScanTasks]. rewrite (i_store _ _ _ H t x) by set_solver. case_bool_decide as Hp.
    + apply scan_step with x; [apply quiet_refl| |by intros _ ?].
      apply IH. by rewrite <-app_assoc.
    + pose proof (observe_quiet env x Hp) as Hq. set (x' := ObserveCancellation env x) in *.
      pose proof (inv_mark s a b t x x' l H Hq) as H1.
      assert (Hp' : phase x' <> Completing) by (subst x'; by rewrite observe_phase).
      destruct (negb _ && _) eqn:Hc.
      * apply andb_true_iff in Hc as [Hc Hs]. apply negb_true_iff in Hs.
        apply negb_true_iff, bool_decide_eq_false in Hc.
        exists (put_task t x' s), [], x', b. split; [constructor; [by split|reflexivity]|]. done.
      * apply scan_step with x'; [done| |].
        { apply IH. by rewrite <-app_assoc. }
        intros _ _ Hr. apply andb_false_iff in Hc as [Hc|Hc]; [|by apply negb_false_iff].
        apply negb_false_iff, bool_decide_eq_true in Hc. done.
Qed.

(** A cancelled task that leaves the queue. *)
Definition dropped (x : KeyedTaskState) : KeyedTaskState :=
  with_publishing (Some (cancelReason x, false)) (with_phase Completing (with_signal x)).

Lemma put_put (t : nat) (x y : KeyedTaskState) (s : State) : put_task t y (put_task t x s) = put_task t y s.
Proof. unfold put_task. cbn. by rewrite insert_insert_eq. Qed.

Lemma ids_pick (p : KeyedTaskState -> bool) (v : Live) (t : nat) : t ∉ ids v -> t ∉ ids (pick p v).
Proof.
  intros Ht [[u y] [-> Hy]]%list_elem_of_fmap. apply Ht. apply pick_in in Hy as [Hy _]. by apply ids_in in Hy.
Qed.

Lemma dropped_ok (x : KeyedTaskState) : TaskOk x -> TaskOk (dropped x).
Proof. intros []. split; cbn; try done. by intros c b [= <- _] _. Qed.

Lemma dropped_waits (k : Z) (x : KeyedTaskState) : waits_in k (dropped x) = false.
Proof. apply andb_false_r. Qed.

Lemma dropped_holds (k : Z) (x : KeyedTaskState) : holds k (dropped x) = false.
Proof. apply andb_false_r. Qed.

Lemma unqueue_base (s : State) (a b : Live) (t : nat) (x : KeyedTaskState) (slot : Key) (l : list Z) :
  Inv s (a ++ (t, x) :: b) l -> phase x = Queued -> keys s !! key x = Some slot ->
  let rest := filter (fun other => other <> t) (queued slot) in
  rest = ids (pick (waits_in (key x)) (a ++ (t, dropped x) :: b))
  /\ Base (set_counts (size_sub (pending s) 1) (running s) (outstanding s) (retained s)
       (put_key (key x) (with_queued rest slot) (put_task t (dropped x) s))) (a ++ (t, dropped x) :: b).
Proof.
  intros H Hp Hk rest. destruct (slot_core _ _ _ _ _ H Hk) as (Hq & Ho & Hb & Hbu & _).
  destruct (sorted_split a b t x (i_order _ _ _ H)) as (Ha & Hb' & _).
  autorewrite with live in Hq, Ho, Hb, Hbu. rewrite (queued_phase x Hp), (queued_holds x Hp) in *.
  assert (Hrest : rest = ids (pick (waits_in (key x)) a) ++ ids (pick (waits_in (key x)) b)).
  { subst rest. rewrite Hq. autorewrite with live. rewrite filter_app, filter_cons_False by naive_solver.
    by rewrite !filter_absent by (by apply ids_pick). }
  split; [rewrite Hrest; autorewrite with live; by rewrite dropped_waits|].
  pose proof (i_counted _ _ _ H) as Hn. pose proof (many_le is_queued (a ++ (t, x) :: b)) as Hle.
  destruct (tasks_max _ _ _ H) as [Hmax _]. rewrite (n_outstanding _ _ Hn) in Hmax.
  pose proof (n_pending _ _ Hn) as Np. pose proof (n_running _ _ Hn) as Nr. autorewrite with live in Np, Nr, Hle, Hmax.
  rewrite (queued_phase x Hp), (queued_holds x Hp) in *.
  pose proof (many_pos is_queued a). pose proof (many_pos is_queued b).
  apply (base_change s a b t x (dropped x)); try done.
  - apply H.
  - apply dropped_ok, (i_ok _ _ _ H t). set_solver.
  - rewrite size_sub_exact by lia. autorewrite with live. change (is_queued (dropped x)) with false. lia.
  - autorewrite with live. change (occupies (dropped x)) with false. lia.
  - apply (n_workers _ _ Hn). by destruct a.
  - change (key x) with (key (dropped x)). rewrite core_change. unfold core.
    change (key (dropped x)) with (key x). change (is_queued (dropped x)) with false.
    change (occupies (dropped x)) with false. change (bytes_of (dropped x)) with (bytes_of x).
    cbn [queued key_outstanding key_bytes busy with_queued app]. by rewrite Hrest, Ho, Hb, Hbu, !Z.add_assoc.
Qed.

Lemma enqueued_longer (k : Z) (slot : Key) (l : list Z) : (length (enqueued k slot l) <= length l + 1)%nat.
Proof. unfold enqueued. case_match; [lia|]. rewrite length_app. cbn. lia. Qed.

Lemma unqueue_spec (s : State) (a b : Live) (t : nat) (x : KeyedTaskState) (l : list Z) :
  Inv s (a ++ (t, x) :: b) l -> phase x = Queued -> exists s' l',
    Unqueue t (put_task t (with_signal x) s) = Some s' /\ Inv s' (a ++ (t, dropped x) :: b) l'
    /\ (length l' <= length l + 1)%nat.
Proof.
  intros H Hp. unfold Unqueue. cbn [store put_task set_store]. rewrite lookup_insert_eq.
  change (with_publishing _ _) with (dropped x). rewrite put_put. change (key (with_signal x)) with (key x).
  pose proof (i_keys _ _ _ H (key x)) as Hc. rewrite core_change in Hc. apply fmap_Some in Hc as (slot & Hk & _).
  cbn [keys set_counts put_task set_store]. rewrite Hk.
  destruct (unqueue_base s a b t x slot l H Hp Hk) as [Hrest Hb]. set (rest := filter _ (queued slot)) in *.
  set (s1 := set_counts _ _ _ _ (put_key _ _ _)) in *. set (v' := a ++ (t, dropped x) :: b) in *.
  change (put_key (key x) (with_queued rest slot) (set_counts _ _ _ _ _)) with s1.
  assert (Ho : same_others (key x) (a ++ (t, x) :: b) v') by (by apply others_change).
  assert (Hr : ReadyList l s1).
  { apply (ready_frame l (put_key (key x) (with_queued rest slot) s)); [|done..].
    apply put_ready; [apply H|by rewrite Hk]. }
  assert (Hh : many (holds (key x)) v' = many (holds (key x)) (a ++ (t, x) :: b)).
  { subst v'. autorewrite with live. by rewrite dropped_holds, (queued_holds x Hp). }
  assert (H1 : many (holds (key x)) v' <= 1) by (rewrite Hh; apply H).
  assert (Hk1 : keys s1 !! key x = Some (with_queued rest slot)) by apply lookup_insert_eq.
  destruct (Nat.eqb_spec (length rest) 0) as [H0|H0].
  - destruct (RemoveReady_list (key x) _ l s1 Hr Hk1) as [Hr' Hs]. eexists _, (without (key x) l).
    split; [done|]. split; [|pose proof (proj1 (without_shorter (key x) l)); lia].
    split; [by apply (base_relinked s1)|exact Hr'|]. apply (scheduled_remove _ (a ++ (t, x) :: b)); [done|apply H|done|].
    intros u y Hy Hw _. exfalso. apply nil_length_inv in H0. rewrite Hrest in H0.
    assert (Hu : u ∈ ids (pick (waits_in (key x)) v')) by (by apply (ids_in _ u y), pick_in). rewrite H0 in Hu. set_solver.
  - eexists _, (enqueued (key x) (with_queued rest slot) l). split; [done|]. split; [|apply enqueued_longer].
    apply (inv_enqueue (key x) _ l s1 (a ++ (t, x) :: b)); try done; [apply H|].
    intros Hl. rewrite Hh. split; [|by apply (q_linked _ _ (i_scheduled _ _ _ H))].
    intros He. rewrite He in Hrest. by rewrite Hrest in H0.
Qed.

(** ** Publishing *)

Lemma publishing_live (s : State) (v : Live) (l : list Z) (t : nat) (x : KeyedTaskState) (code : ErrorCode) (occ : bool) :
  Inv s v l -> store s !! t = Some x -> publishing x = Some (code, occ) ->
  exists a b, v = a ++ (t, x) :: b /\ phase x = Completing /\ occupies x = occ /\ is_queued x = false
    /\ (cancelReason x <> ErrorCode_Ok -> code = cancelReason x).
Proof.
  intros H Hx Hp. destruct (i_done _ _ _ H t x Hx) as [Hin|(_ & _ & Hn & _)]; [|congruence].
  pose proof (i_ok _ _ _ H t x Hin) as [_ _ _ Hc _ Hcode]. destruct (in_split_live v t x Hin) as (a & b & ->).
  assert (phase x = Completing) as Hph by (apply Hc; by rewrite Hp).
  exists a, b. unfold occupies, is_queued. rewrite Hph, Hp. repeat split; try done. by apply (Hcode code occ).
Qed.

Lemma total_nonneg (s : State) (v : Live) (l : list Z) (p : KeyedTaskState -> bool) : Inv s v l -> 0 <= total p v.
Proof. intros H. apply total_bounds, H. Qed.

Lemma base_gone (s : State) (a b : Live) (t : nat) (x x' : KeyedTaskState) (m : gmap Z Key) (mt : Metrics)
    (h tl : option Z) (p r o y : Z) :
  Base s (a ++ (t, x) :: b) -> DoneOk x' -> is_queued x = false ->
  p = pending s -> r = running s - (if occupies x then 1 else 0) -> o = outstanding s - 1 ->
  y = retained s - bytes_of x -> (forall k, core <$> m !! k = core_of (a ++ b) k) ->
  (size m <= size (keys s))%nat ->
  Base (set_ends h tl (set_keys m (set_metrics mt (set_tasks (filter (fun other => other <> t) (tasks s))
         (set_counts p r o y (put_task t x' s)))))) (a ++ b).
Proof.
  intros [] Hd Hq -> -> -> -> Hm Hsz. split; cbn; try done.
  - by apply stored_gone with x.
  - assert (Hne : a ++ (t, x) :: b <> []) by (by destruct a).
    assert (0 <= bytes_of x) by (apply (st_ok _ _ _ b_stored0 t x); set_solver).
    destruct b_counted0. specialize (n_max_tasks0 Hne). specialize (n_max_bytes0 Hne).
    specialize (n_max_keys0 Hne). specialize (n_workers0 Hne).
    split; cbn; autorewrite with live in *; rewrite ?Hq in *; cbn in *; try lia; try done.
    + intros k _. specialize (n_key_tasks0 k Hne). autorewrite with live in *. destruct (of_key k x); lia.
    + intros k _. specialize (n_key_bytes0 k Hne). autorewrite with live in *. destruct (of_key k x); lia.
    + intros _. destruct (occupies x); lia.
  - destruct b_started0 as [? Hn]. split; [done|]. intros Hrd. specialize (Hn Hrd). by destruct a.
  - intros Hs u z Hz. apply (b_stopping0 Hs u). set_solver.
Qed.

(** What is left of the slot of a published task. *)
Lemma gone_slot (s : State) (a b : Live) (l : list Z) (t : nat) (x : KeyedTaskState) (slot : Key) :
  Inv s (a ++ (t, x) :: b) l -> keys s !! key x = Some slot -> is_queued x = false ->
  size_sub (key_outstanding slot) 1 = many (of_key (key x)) (a ++ b)
  /\ size_sub (key_bytes slot) (bytes_of x) = total (of_key (key x)) (a ++ b)
  /\ queued slot = ids (pick (waits_in (key x)) (a ++ b))
  /\ (if occupies x then false else busy slot) = negb (many (holds (key x)) (a ++ b) =? 0)
  /\ many (holds (key x)) (a ++ b) <= 1.
Proof.
  intros H Hk Hq. destruct (slot_core _ _ _ _ _ H Hk) as (Eq & Eo & Eb & Ebu & _).
  destruct (tasks_max _ _ _ H) as [Ho Hr]. pose proof (i_counted _ _ _ H) as Hn.
  rewrite (n_outstanding _ _ Hn) in Ho. rewrite (n_retained _ _ Hn) in Hr.
  pose proof (many_le (of_key (key x)) (a ++ (t, x) :: b)) as Hle.
  pose proof (total_bounds (of_key (key x)) _ (i_ok _ _ _ H)) as Hle'.
  pose proof (q_serial _ _ (i_scheduled _ _ _ H) (key x)) as Hs.
  assert (0 <= bytes_of x) by (apply (i_ok _ _ _ H t x); set_solver).
  assert (Ht : 0 <= total (of_key (key x)) (a ++ b)).
  { apply total_bounds. intros u y Hy. apply (i_ok _ _ _ H u). set_solver. }
  pose proof (many_pos (of_key (key x)) (a ++ b)) as Hm. pose proof (many_pos (holds (key x)) (a ++ b)) as Hm'.
  rewrite Eq, Eo, Eb, Ebu in *. autorewrite with live in *. rewrite Hq in *.
  rewrite !size_sub_exact by lia. repeat split; try lia; [|destruct (occupies x); lia].
  destruct (occupies x); [|done]. symmetry. apply negb_false_iff, Z.eqb_eq. lia.
Qed.

Lemma ready_delete (k : Z) (l : list Z) (s : State) :
  ReadyList l s -> k ∉ l -> ReadyList l (set_keys (delete k (keys s)) s).
Proof.
  intros [] Hk. split; cbn; try done.
  - intros y slot [_ Hy]%lookup_delete_Some. auto.
  - intros y Hy. rewrite lookup_delete_ne by (intros ->; done). auto.
Qed.

Lemma core_none (v : Live) (k : Z) : many (of_key k) v = 0 -> core_of v k = None.
Proof. intros H. unfold core_of. by rewrite H. Qed.

(** The last task of its key: the key goes. *)
Lemma publish_last (s s1 : State) (a b : Live) (t : nat) (x x' : KeyedTaskState) (slot : Key) (l : list Z)
    (mt : Metrics) (p r o y : Z) :
  Inv s (a ++ (t, x) :: b) l -> is_Some (keys s !! key x) -> many (of_key (key x)) (a ++ b) = 0 ->
  s1 = put_key (key x) slot (set_metrics mt (set_tasks (filter (fun other => other <> t) (tasks s))
         (set_counts p r o y (put_task t x' s)))) ->
  ReadyList l s1 -> DoneOk x' -> is_queued x = false ->
  p = pending s -> r = running s - (if occupies x then 1 else 0) -> o = outstanding s - 1 ->
  y = retained s - bytes_of x ->
  Inv (let s2 := RemoveReady (key x) s1 in set_keys (delete (key x) (keys s2)) s2) (a ++ b) (without (key x) l).
Proof.
  intros H [old Hk] H0 -> Hr Hd Hq Hp Hrr Ho Hy. set (s1 := put_key _ _ _) in *. cbv zeta.
  assert (Hk1 : keys s1 !! key x = Some slot) by apply lookup_insert_eq.
  destruct (RemoveReady_list (key x) slot l s1 Hr Hk1) as [Hr' Hs].
  assert (Hout : key x ∉ without (key x) l) by (unfold without; rewrite list_elem_of_filter; naive_solver).
  split; [|by apply ready_delete|].
  - destruct Hs as [Hc (m & h & tl & He)]. rewrite He in *. cbn [keys set_ends set_keys].
    pose proof (base_gone s a b t x x' (delete (key x) m) mt h tl p r o y) as Hg. subst s1. cbn in *. apply Hg; try done; [apply H| |].
    + intros k. destruct (decide (k = key x)) as [->|Hne].
      * rewrite lookup_delete_eq, core_none; done.
      * rewrite lookup_delete_ne by done. specialize (Hc k). cbn in Hc. rewrite Hc, lookup_insert_ne by done.
        rewrite (i_keys _ _ _ H). symmetry. apply (others_core (key x)); [apply others_gone|done].
    + etransitivity; [apply map_subseteq_size, delete_subseteq|]. apply Nat.eq_le_incl.
      transitivity (size (<[key x := slot]> (keys s))); [|by rewrite map_size_insert_Some].
      by apply same_size.
  - apply (scheduled_remove (key x) (a ++ (t, x) :: b)); [apply others_gone|apply H| |].
    + destruct (none_core _ _ H0) as (_ & _ & ->). lia.
    + intros u z Hz Hw _. exfalso. destruct (none_core _ _ H0) as (_ & Hn & _).
      assert (Hu : (u, z) ∈ pick (waits_in (key x)) (a ++ b)) by (by apply pick_in). rewrite Hn in Hu. set_solver.
Qed.

Lemma gone_counts (s : State) (a b : Live) (l : list Z) (t : nat) (x : KeyedTaskState) :
  Inv s (a ++ (t, x) :: b) l ->
  (if occupies x then size_sub (running s) 1 else running s) = running s - (if occupies x then 1 else 0)
  /\ size_sub (outstanding s) 1 = outstanding s - 1 /\ size_sub (retained s) (bytes_of x) = retained s - bytes_of x.
Proof.
  intros H. destruct (tasks_max _ _ _ H) as [Ho Hr]. pose proof (i_counted _ _ _ H) as Hn.
  pose proof (many_le occupies (a ++ (t, x) :: b)) as Hle. rewrite <-(n_outstanding _ _ Hn) in Hle.
  pose proof (n_running _ _ Hn) as Nr. pose proof (n_outstanding _ _ Hn) as No. pose proof (n_retained _ _ Hn) as Nt.
  assert (0 <= total every (a ++ b)).
  { apply total_bounds. intros u y Hy. apply (i_ok _ _ _ H u). set_solver. }
  assert (0 <= bytes_of x) by (apply (i_ok _ _ _ H t x); set_solver). autorewrite with live in *. cbn in No, Nt.
  pose proof (many_pos occupies a). pose proof (many_pos occupies b).
  pose proof (many_pos every a). pose proof (many_pos every b).
  rewrite (size_sub_exact (outstanding s)), (size_sub_exact (retained s)) by lia. split; [|done].
  destruct (occupies x); [rewrite size_sub_exact by lia|]; lia.
Qed.

Lemma publish_spec (s : State) (v : Live) (l : list Z) (t : nat) (x : KeyedTaskState) (code : ErrorCode) (occ : bool) :
  Inv s v l -> store s !! t = Some x -> publishing x = Some (code, occ) ->
  exists a b s' l', v = a ++ (t, x) :: b /\ phase x = Completing /\ Publish t code occ s = Some s'
    /\ Inv s' (a ++ b) l' /\ (length l' <= length l + 1)%nat.
Proof.
  intros H Hx Hp. destruct (publishing_live _ _ _ _ _ _ _ H Hx Hp) as (a & b & -> & Hph & Hocc & Hq & Hcode).
  pose proof (i_keys _ _ _ H (key x)) as Hc. rewrite core_change in Hc. apply fmap_Some in Hc as (slot & Hk & _).
  destruct (gone_slot s a b l t x slot H Hk Hq) as (Eo & Eb & Eq & Ebu & H1).
  destruct (gone_counts s a b l t x H) as (Er & Eout & Eret). rewrite Hocc in Er, Ebu.
  unfold Publish. rewrite Hx, Hk. fold (bytes_of x). rewrite Eo, Eb, Er, Eout, Eret.
  set (slot' := if occ then _ else _). set (x' := with_result code (with_phase Terminal x)).
  assert (Hd : DoneOk x') by (split; [done|split; [done|exact Hcode]]).
  assert (Hs' : core slot' = (queued slot, many (of_key (key x)) (a ++ b), total (of_key (key x)) (a ++ b),
                   if occ then false else busy slot)) by (subst slot'; by destruct occ).
  set (s1 := set_metrics _ _). exists a, b.
  assert (Hr1 : ReadyList l s1).
  { apply (ready_frame l (put_key (key x) slot' s)); [|done..]. apply put_ready; [apply H|].
    rewrite Hk. subst slot'. by destruct occ. }
  assert (Hk1 : keys s1 !! key x = Some slot') by apply lookup_insert_eq.
  replace (key_outstanding slot') with (many (of_key (key x)) (a ++ b)) by (by injection Hs').
  destruct (Z.eqb_spec (many (of_key (key x)) (a ++ b)) 0) as [H0|H0]; eexists; [exists (without (key x) l)|exists (enqueued (key x) slot' l)];
    (split; [done|]; split; [done|]; split; [done|]).
  - split; [|pose proof (proj1 (without_shorter (key x) l)); lia].
    eapply (publish_last s s1 a b t x x' slot' l); try done. by rewrite Hocc.
  - split; [|apply enqueued_longer]. apply (inv_enqueue (key x) slot' l s1 (a ++ (t, x) :: b)); try done.
    + apply (base_gone s a b t x x' (<[key x := slot']> (keys s)) (CountResult code (metrics s)) (readyHead s)
        (readyTail s) _ _ _ _ (i_base _ _ _ H)); try done; [by rewrite Hocc| |by rewrite map_size_insert_Some].
      apply (put_core (key x) slot' s (a ++ (t, x) :: b)); [apply H|apply others_gone|].
      rewrite Hs', Eq, Ebu. unfold core_of. by rewrite (proj2 (Z.eqb_neq _ 0)).
    + apply H.
    + apply others_gone.
    + intros Hl. destruct (q_linked _ _ (i_scheduled _ _ _ H) _ Hl) as [Hw Hh]. autorewrite with live in *.
      rewrite Hq in Hw. pose proof (many_pos (holds (key x)) a). pose proof (many_pos (holds (key x)) b).
      split; [done|]. destruct (occupies x); lia.
Qed.

(** ** Every step *)

Fixpoint load (v : Live) : nat := match v with [] => 0%nat | e :: v => (weight e.2 + load v)%nat end.

Lemma load_app (a b : Live) : load (a ++ b) = (load a + load b)%nat.
Proof. induction a as [|e a IH]; cbn; [|rewrite IH]; lia. Qed.

Lemma quiet_load (v v' : Live) : quiet_list v v' -> (load v' <= load v)%nat.
Proof. induction 1 as [|e e' v v' [_ He] _ IH]; cbn; [lia|]. pose proof (quiet_weight _ _ He). lia. Qed.

(** What the executor's threads can still do: twice the phases left, for a task that leaves its phase
    can put its key into the list, and the keys of the list. *)
Definition todo (v : Live) (l : list Z) : nat := (2 * load v + length l)%nat.

(** How the tasks change at an event. *)
Record StepRel (e : Event) (v v' : Live) : Prop := {
  sr_new : forall t x', (t, x') ∈ v' ->
    (exists x, (t, x) ∈ v /\ key x' = key x /\ (is_queued x' = true -> is_queued x = true))
    \/ e = Accepted t (key x') /\ t ∉ ids v;
  sr_kept : forall t, t ∈ ids v -> t ∈ ids v' \/ exists code, e = Published t code;
  sr_accepted : forall t k, e = Accepted t k -> t ∈ ids v' /\ t ∉ ids v;
  sr_started : forall t, e = Started t ->
    exists k a b x, Head v k a b t x /\ v' = a ++ (t, with_phase Running x) :: b;
  sr_published : forall t code, e = Published t code -> t ∈ ids v /\ t ∉ ids v'
}.

(** Changes of one task that stays. *)
Lemma rel_change (a b : Live) (t : nat) (x x' : KeyedTaskState) (v : Live) :
  quiet_list v (a ++ (t, x) :: b) -> key x' = key x -> (is_queued x' = true -> is_queued x = true) ->
  StepRel Silent v (a ++ (t, x') :: b).
Proof.
  intros Hq Hk Hw. split; try done.
  - intros u y Hy. left. assert (exists z, (u, z) ∈ a ++ (t, x) :: b /\ key y = key z
      /\ (is_queued y = true -> is_queued z = true)) as (z & Hz & Hyz & Hyw).
    { apply elem_of_app in Hy as [Hy|[[= -> ->]|Hy]%elem_of_cons]; [exists y|exists x|exists y]; set_solver. }
    destruct (quiet_in _ _ _ _ Hq Hz) as (w & Hin & Hqw). exists w.
    rewrite <-(quiet_key _ _ Hqw), <-(quiet_queued _ _ Hqw). done.
  - intros u Hu. left. rewrite <-(quiet_ids _ _ Hq) in Hu. autorewrite with live in *. done.
Qed.

Lemma rel_quiet (v v' : Live) : quiet_list v v' -> StepRel Silent v v'.
Proof.
  intros Hq. split; try done.
  - intros t x' Hx'. left. destruct (quiet_in _ _ _ _ Hq Hx') as (x & Hx & Hxx). exists x.
    rewrite (quiet_key _ _ Hxx), (quiet_queued _ _ Hxx). done.
  - intros t Ht. left. by rewrite (quiet_ids _ _ Hq).
Qed.

Lemma rel_gone (a b : Live) (t : nat) (x : KeyedTaskState) (code : ErrorCode) :
  StronglySorted lt (ids (a ++ (t, x) :: b)) -> StepRel (Published t code) (a ++ (t, x) :: b) (a ++ b).
Proof.
  intros (Ha & Hb & _)%sorted_split. split; try done.
  - intros u y Hy. left. exists y. set_solver.
  - intros u. autorewrite with live. intros [?|[->|?]%elem_of_cons]%elem_of_app; [left; set_solver|right; eauto|left; set_solver].
  - intros u c [= -> ->]. autorewrite with live. set_solver.
Qed.

Lemma rel_new (v : Live) (t : nat) (x : KeyedTaskState) :
  t ∉ ids v -> StepRel (Accepted t (key x)) v (v ++ [(t, x)]).
Proof.
  intros Ht. split; try done.
  - intros u y [Hy|[= -> ->]%list_elem_of_singleton]%elem_of_app; [left; by exists y|by right].
  - intros u Hu. left. autorewrite with live. set_solver.
  - intros u k [= <- <-]. autorewrite with live. set_solver.
Qed.

Lemma rel_start (v a b : Live) (k : Z) (t : nat) (x : KeyedTaskState) :
  Head v k a b t x -> StepRel (Started t) v (a ++ (t, with_phase Running x) :: b).
Proof.
  intros Hh. pose proof Hh as [-> _ _ _ _]. split; try done.
  - intros u y Hy. left. apply elem_of_app in Hy as [Hy|[[= -> ->]|Hy]%elem_of_cons];
      [exists y|exists x|exists y]; split; try set_solver; done.
  - intros u. autorewrite with live. by left.
  - intros u [= <-]. by exists k, a, b, x.
Qed.

#[local] Hint Resolve rel_quiet rel_gone rel_new rel_start rel_change : sc.

Lemma coordinate_spec (env : Env) (s : State) (v : Live) (l : list Z) : Inv s v l ->
  exists r s', CoordinateRound env s = Some (r, s') /\
  match r with
  | CoordinatedTask _ _ => exists v' l', Inv s' v' l' /\ StepRel Silent v v' /\ (todo v' l' < todo v l)%nat
  | _ => exists v', quiet_list v v' /\ Inv s' v' l
      /\ (forall t x, (t, x) ∈ v' -> phase x <> Completing -> cancelReason x <> ErrorCode_Ok -> signalSent x = true)
  end.
Proof.
  intros H. pose proof (scan_spec env l v s [] H) as Hs. rewrite <-(i_tasks _ _ _ H) in Hs.
  unfold CoordinateRound. destruct (ScanTasks env (tasks s) s) as [[[t q]|] s']; cbn [fst snd] in Hs.
  - destruct Hs as (s0 & a & x & b & Hq & Hi & -> & Hc & Hsg & Hp & ->). cbn [app] in Hi.
    pose proof (quiet_load _ _ Hq) as Hl. rewrite load_app in Hl. cbn in Hl.
    pose proof (ok_live _ (i_ok _ _ _ Hi t x ltac:(set_solver))) as Hlive. unfold is_queued.
    destruct (phase x) eqn:Hph; try done.
    + rewrite bool_decide_true by done. destruct (unqueue_spec s0 a b t x l Hi Hph) as (s1 & l1 & -> & Hi1 & Hl1).
      eexists _, _. split; [done|]. exists (a ++ (t, dropped x) :: b), l1. split; [done|].
      split; [by apply (rel_change a b t x)|]. unfold todo. rewrite load_app. cbn.
      unfold weight at 1 in Hl. rewrite Hph in Hl. lia.
    + rewrite bool_decide_false by done. eexists _, _. split; [done|].
      exists (a ++ (t, with_signal x) :: b), l. assert (Hx : quiet x (with_signal x)).
      { split; cbn; try done; [|unfold weight; cbn; rewrite Hph, Hsg; lia].
        intros []. split; cbn; try done. rewrite Hph. done. }
      split; [by apply inv_mark with x|]. split; [by apply (rel_change a b t x)|].
      unfold todo. rewrite load_app. cbn. unfold weight in *. cbn. rewrite Hph, ?Hsg in *. lia.
  - destruct Hs as (v' & Hq & Hi & Hn). destruct (_ && _); eexists _, _; (split; [done|]); by exists v'.
Qed.

Lemma advance_inv (s s' : State) (e : Event) (v : Live) (l : list Z) :
  Inv s v l -> Advance s e s' ->
  exists v' l', Inv s' v' l' /\ StepRel e v v' /\ (todo v' l' < todo v l)%nat.
Proof.
  intros H. unfold todo. destruct 1 as [env s t s' Hw He|env s s' Hw He|env s t x code Hx Hp|s t x code occ s' Hx Hp He
    |env s t q s' Hc He].
  - destruct (take_spec env s v l H) as (r & s1 & Ht & Hs). rewrite He in Ht. injection Ht as <- <-.
    destruct Hs as (k & a & b & x & l' & Hh & Hl & Hi). exists (a ++ (t, with_phase Running x) :: b), l'.
    split; [by apply Hi|]. split; [eauto with sc|]. destruct Hh as [-> _ Hp _ _]. rewrite !load_app. cbn.
    unfold weight. cbn. rewrite Hp. destruct (signalSent x); lia.
  - destruct (take_spec env s v l H) as (r & s1 & Ht & Hs). rewrite He in Ht. injection Ht as <- <-.
    destruct Hs as (v' & l' & Hq & Hi & Hl). exists v', l'. split; [done|]. split; [eauto with sc|].
    pose proof (quiet_load _ _ Hq). lia.
  - destruct (inv_finish env t x code s v l H Hx Hp) as (a & b & -> & Hi).
    destruct (finish_quiet env code x Hp) as [Hq Hw]. eexists _, _. split; [done|]. split.
    + apply (rel_change a b t x); [reflexivity|apply Hq|]. by rewrite (quiet_queued _ _ Hq).
    + rewrite !load_app. cbn [load snd]. lia.
  - destruct (publish_spec s v l t x code occ H Hx Hp) as (a & b & s1 & l' & -> & Hph & He' & Hi & Hl).
    rewrite He in He'. injection He' as <-. exists (a ++ b), l'. split; [done|].
    split; [apply rel_gone, (i_order _ _ _ H)|]. rewrite !load_app. cbn. unfold weight. rewrite Hph. lia.
  - destruct (coordinate_spec env s v l H) as (r & s1 & Ht & Hs). rewrite He in Ht. by injection Ht as <- <-.
Qed.

Lemma step_inv (s s' : State) (e : Event) (v : Live) (l : list Z) :
  Inv s v l -> Step s e s' -> exists v' l', Inv s' v' l' /\ StepRel e v v'.
Proof.
  intros H. destruct 1 as [inScope o s s' Ho He|s Hs|env s t reason k o s' Hf Hr Hb He|s|env t s|env s|env s r s' He Hr
    |env s r s' He Hr|s e s' Ha].
  - destruct (inv_claim inScope o s s' v l H Ho He) as [-> Hi]. exists [], l. split; [done|]. by apply rel_quiet.
  - exists v, l. split; [by apply inv_ready|]. by apply rel_quiet.
  - destruct (inv_submit env t reason k o s s' v l H Hf Hr Hb He) as (x & l' & Hi & <- & Hp).
    exists (v ++ [(t, x)]), l'. split; [done|]. apply rel_new. intros [[u y] [-> Hy]]%list_elem_of_fmap.
    specialize (Hf u). rewrite (i_store _ _ _ H u y Hy) in Hf. cbn in Hf. specialize (Hf ltac:(eauto)). lia.
  - exists v, l. split; [by apply inv_metrics|]. by apply rel_quiet.
  - destruct (inv_cancel env t s v l H) as (v' & Hq & Hi). exists v', l. eauto with sc.
  - destruct (inv_stop env s v l H) as (v' & Hq & Hi). exists v', l. eauto with sc.
  - destruct (take_spec env s v l H) as (r1 & s1 & Ht & Hs). rewrite He in Ht. injection Ht as <- <-.
    exists v, l. destruct Hr as [-> | ->]; cbn in Hs; subst s'; (split; [done|]; by apply rel_quiet).
  - destruct (coordinate_spec env s v l H) as (r1 & s1 & Ht & Hs). rewrite He in Ht. injection Ht as <- <-.
    destruct Hr as [-> |[d ->]]; destruct Hs as (v' & Hq & Hi & _); exists v', l; eauto with sc.
  - destruct (advance_inv s s' e v l H Ha) as (v' & l' & Hi & Hr & _). eauto.
Qed.

(** ** Runs *)

Definition started_of (s : State) (k : Z) (tr : list Event) : list nat :=
  List.filter (fun t => match store s !! t with Some x => of_key k x | None => false end) (starts tr).

(** The tasks of a state. *)
Definition view (s : State) : Live := omap (fun t => (fun x => (t, x)) <$> store s !! t) (tasks s).

Lemma view_inv (s : State) (v : Live) (l : list Z) : Inv s v l -> view s = v.
Proof.
  intros H. unfold view. rewrite (i_tasks _ _ _ H). pose proof (i_store _ _ _ H) as Hs. clear H.
  induction v as [|[t x] v IH]; [done|]. cbn. rewrite (Hs t x) by set_solver. cbn. f_equal. apply IH. set_solver.
Qed.

(** ** What the store keeps *)

(** A task keeps its key, and its first reason of cancellation. *)
Definition kept (m m' : gmap nat KeyedTaskState) : Prop := forall t x, m !! t = Some x ->
  exists x', m' !! t = Some x' /\ key x' = key x
    /\ (cancelReason x <> ErrorCode_Ok -> cancelReason x' = cancelReason x).

#[export] Instance kept_preorder : PreOrder kept.
Proof.
  split.
  - intros m t x Hx. by exists x.
  - intros m1 m2 m3 H12 H23 t x Hx. destruct (H12 t x Hx) as (y & Hy & Hk & Hc).
    destruct (H23 t y Hy) as (z & Hz & Hk' & Hc'). exists z. split; [done|]. split; [congruence|].
    intros Hn. pose proof (Hc Hn) as E. rewrite Hc'; congruence.
Qed.

Lemma kept_put (m : gmap nat KeyedTaskState) (t : nat) (x x' : KeyedTaskState) :
  m !! t = Some x -> key x' = key x -> (cancelReason x <> ErrorCode_Ok -> cancelReason x' = cancelReason x) ->
  kept m (<[t := x']> m).
Proof.
  intros Hx Hk Hc u y Hy. destruct (decide (u = t)) as [->|Hu].
  - exists x'. rewrite lookup_insert_eq. naive_solver.
  - exists y. by rewrite lookup_insert_ne.
Qed.

Lemma kept_new (m : gmap nat KeyedTaskState) (t : nat) (x : KeyedTaskState) : m !! t = None -> kept m (<[t := x]> m).
Proof. intros Ht u y Hy. exists y. rewrite lookup_insert_ne; [done|congruence]. Qed.

Lemma observe_kept (env : Env) (x : KeyedTaskState) : key (ObserveCancellation env x) = key x
  /\ (cancelReason x <> ErrorCode_Ok -> cancelReason (ObserveCancellation env x) = cancelReason x).
Proof. unfold ObserveCancellation. case_bool_decide; cbn; [|done]. repeat case_match; done. Qed.

Lemma Enqueue_keeps (k : Z) (s : State) : store (Enqueue k s) = store s.
Proof. unfold Enqueue. by repeat (case_match; cbn). Qed.

Lemma RemoveReady_keeps (k : Z) (s : State) : store (RemoveReady k s) = store s.
Proof. unfold RemoveReady. by repeat (case_match; cbn). Qed.

Lemma stop_kept (env : Env) (ts : list nat) : forall s,
  kept (store s) (store (fold_left (fun s t => StopTask env t s) ts s)).
Proof.
  induction ts as [|t ts IH]; intros s; [reflexivity|]. cbn [fold_left]. etransitivity; [|apply IH].
  unfold StopTask. destruct (store s !! t) as [x|] eqn:Hx; [|reflexivity]. case_bool_decide; [reflexivity|].
  destruct (observe_kept env x) as [Hk Hc]. cbn. apply kept_put with x; [done|by case_match|].
  intros Hn. pose proof (Hc Hn) as E. case_bool_decide; congruence.
Qed.

Lemma scan_kept (env : Env) (ts : list nat) : forall s, kept (store s) (store (ScanTasks env ts s).2).
Proof.
  induction ts as [|t ts IH]; intros s; [reflexivity|]. cbn [ScanTasks].
  destruct (store s !! t) as [x|] eqn:Hx; [|apply IH]. case_bool_decide; [apply IH|].
  destruct (observe_kept env x) as [Hk Hc]. pose proof (kept_put _ _ _ _ Hx Hk Hc) as H1.
  case_match; cbn; [|etransitivity; [exact H1|apply (IH (put_task t (ObserveCancellation env x) s))]]. rewrite insert_insert_eq. by apply kept_put with x.
Qed.

Lemma unqueue_kept (t : nat) (s s' : State) : Unqueue t s = Some s' -> kept (store s) (store s').
Proof.
  unfold Unqueue. destruct (store s !! t) as [x|] eqn:Hx; [|done]. cbn. case_match; [|done]. intros [= <-].
  case_match; rewrite ?Enqueue_keeps, ?RemoveReady_keeps; cbn; by apply kept_put with x.
Qed.

Lemma round_kept (env : Env) (r : Coordinated) (s s' : State) :
  CoordinateRound env s = Some (r, s') -> kept (store s) (store s').
Proof.
  unfold CoordinateRound. pose proof (scan_kept env (tasks s) s) as H.
  destruct (ScanTasks env (tasks s) s) as [[[t []]|] s1]; cbn [snd] in H.
  - destruct (Unqueue t s1) as [s2|] eqn:Hu; [|done]. intros [= <- <-]. etransitivity; [exact H|by apply unqueue_kept with t].
  - by intros [= <- <-].
  - case_match; by intros [= <- <-].
Qed.

Lemma take_kept (env : Env) (r : Taken) (s s' : State) : WorkerTake env s = Some (r, s') -> kept (store s) (store s').
Proof.
  unfold WorkerTake. case_match; [by intros [= <- <-]|]. destruct (readyHead s) as [k|]; [|by intros [= <- <-]].
  case_match; [by intros [= <- <-]|]. case_match; [|done]. case_match; [done|]. rewrite RemoveReady_keeps.
  destruct (store s !! _) as [x|] eqn:Hx; [|done]. destruct (observe_kept env x) as [Hk Hc].
  case_match; intros [= <- <-]; cbn; rewrite RemoveReady_keeps; by apply kept_put with x.
Qed.

Lemma publish_kept (t : nat) (code : ErrorCode) (occ : bool) (s s' : State) :
  Publish t code occ s = Some s' -> kept (store s) (store s').
Proof.
  unfold Publish. destruct (store s !! t) as [x|] eqn:Hx; [|done]. case_match; [|done]. intros [= <-].
  case_match; cbn; rewrite ?Enqueue_keeps, ?RemoveReady_keeps; cbn; by apply kept_put with x.
Qed.

Lemma submit_kept (env : Env) (t : nat) (reason : ErrorCode) (k : Z) (o : TaskOptions) (s s' : State) (st : Status) :
  store s !! t = None -> SubmitCommit env t reason k o s = (st, s') -> kept (store s) (store s').
Proof.
  intros Ht. unfold SubmitCommit. case_match; intros [= <- <-]; [reflexivity|]. rewrite Enqueue_keeps. cbn.
  by apply kept_new.
Qed.

Lemma step_kept (s s' : State) (e : Event) : Step s e s' -> kept (store s) (store s').
Proof.
  destruct 1 as [inScope o s s' Ho He|s Hs|env s t reason k o s' Hf Hr Hb He|s|env t s|env s|env s r s' He Hr
    |env s r s' He Hr|s e s' Ha]; try reflexivity; eauto using take_kept, round_kept.
  - unfold StartClaim in He. repeat case_match; simplify_eq; reflexivity.
  - apply (submit_kept env t reason k o s s' Status.Ok); [|done]. destruct (store s !! t) eqn:E; [|done].
    specialize (Hf t). rewrite E in Hf. specialize (Hf ltac:(eauto)). lia.
  - unfold Cancel. destruct (store s !! t) as [x|] eqn:Hx; [|reflexivity]. case_match eqn:Hc; [reflexivity|]. cbn.
    apply kept_put with x; [done|done|]. intros Hn. apply orb_false_iff in Hc as [_ Hc].
    apply negb_false_iff, bool_decide_eq_true in Hc. done.
  - unfold RequestStop. apply (stop_kept env (tasks s) (set_flags (started s) (ready s) true (options s) s)).
  - destruct Ha as [env s t s' Hw He|env s s' Hw He|env s t x code Hx Hp|s t x code occ s' Hx Hp He
      |env s t q s' Hc He]; eauto using take_kept, round_kept, publish_kept.
    unfold WorkerFinish. rewrite Hx. destruct (observe_kept env x) as [Hk Hc]. by apply kept_put with x.
Qed.

(** ** Runs and their events *)

Definition acceptances (tr : list Event) : list nat :=
  omap (fun e => match e with Accepted t _ => Some t | _ => None end) tr.

Record Traced (tr : list Event) (s : State) (v : Live) : Prop := {
  tr_balance : acceptances tr ≡ₚ publications tr ++ ids v;
  tr_stored : forall t, t ∈ starts tr -> is_Some (store s !! t);
  tr_waiting : forall t x u y, t ∈ starts tr -> store s !! t = Some x -> (u, y) ∈ v -> is_queued y = true ->
    key y = key x -> (t < u)%nat;
  tr_order : forall k, StronglySorted lt (started_of s k tr)
}.

Lemma sorted_snoc (l : list nat) (t : nat) :
  StronglySorted lt l -> (forall u, u ∈ l -> (u < t)%nat) -> StronglySorted lt (l ++ [t]).
Proof.
  induction l as [|u l IH]; cbn; intros Hs Ht; [repeat constructor|].
  apply StronglySorted_inv in Hs as [Hs Hu]. constructor; [apply IH; [done|set_solver]|].
  apply Forall_app. split; [done|]. constructor; [apply Ht; set_solver|done].
Qed.

Lemma starts_snoc (tr : list Event) (e : Event) :
  starts (tr ++ [e]) = starts tr ++ match e with Started t => [t] | _ => [] end.
Proof. unfold starts. rewrite omap_app. by destruct e. Qed.

Lemma sorted_nodup (l : list nat) : StronglySorted lt l -> NoDup l.
Proof.
  induction 1 as [|t l _ IH Ht]; constructor; [|done]. rewrite Forall_forall in Ht. intros Hin. specialize (Ht t Hin). lia.
Qed.

(** A balance of the tasks at one event. *)
Lemma event_balance (e : Event) (v v' : Live) :
  StepRel e v v' -> StronglySorted lt (ids v) -> StronglySorted lt (ids v') ->
  ids v ++ acceptances [e] ≡ₚ publications [e] ++ ids v'.
Proof.
  intros [Hnew Hkept Hacc Hst Hpub] Hs%sorted_nodup Hs'%sorted_nodup.
  assert (Hback : forall t, t ∈ ids v' -> t ∈ ids v \/ exists k, e = Accepted t k).
  { intros t [[u y] [-> Hy]]%list_elem_of_fmap. destruct (Hnew u y Hy) as [(x & Hx & _)|[-> _]]; [left|right; eauto].
    by apply (ids_in _ u x). }
  apply NoDup_Permutation.
  - apply NoDup_app. destruct e; cbn; split; try done; (split; [set_solver|apply NoDup_singleton || apply NoDup_nil_2]).
  - apply NoDup_app. destruct e; cbn; (split; [apply NoDup_singleton || apply NoDup_nil_2|split; [set_solver|done]]).
  - intros t. specialize (Hback t). specialize (Hkept t). rewrite !elem_of_app. clear Hnew Hst.
    destruct e as [|u k|u|u code]; cbn; rewrite ?list_elem_of_singleton, ?elem_of_nil.
    + naive_solver.
    + destruct (Hacc u k eq_refl). naive_solver.
    + naive_solver.
    + destruct (Hpub u code eq_refl). naive_solver.
Qed.

Lemma step_balance (tr : list Event) (e : Event) (v v' : Live) :
  StepRel e v v' -> StronglySorted lt (ids v) -> StronglySorted lt (ids v') ->
  acceptances tr ≡ₚ publications tr ++ ids v ->
  acceptances (tr ++ [e]) ≡ₚ publications (tr ++ [e]) ++ ids v'.
Proof.
  intros Hr Hs Hs' Hb. pose proof (event_balance e v v' Hr Hs Hs') as He.
  unfold acceptances, publications in *. rewrite !omap_app, Hb, <-!app_assoc. by f_equiv.
Qed.

Lemma accepted_fresh (s s' : State) (t : nat) (k : Z) :
  Step s (Accepted t k) s' -> forall u, is_Some (store s !! u) -> (u < t)%nat.
Proof. inversion 1 as [| |env s0 t0 reason k0 o s0' Hf| | | | | |s0 e s0' Ha]; [done|by inversion Ha]. Qed.

Lemma started_kept (s s' : State) (k : Z) (tr : list Event) :
  (forall t, t ∈ starts tr -> is_Some (store s !! t)) -> kept (store s) (store s') ->
  started_of s' k tr = started_of s k tr.
Proof.
  intros Hs Hk. unfold started_of. apply List.filter_ext_in. intros t Ht%list_elem_of_In.
  destruct (Hs t Ht) as [x Hx]. destruct (Hk t x Hx) as (x' & -> & He & _). rewrite Hx. unfold of_key. by rewrite He.
Qed.

Lemma waiting_after (v a b : Live) (k : Z) (t u : nat) (x y : KeyedTaskState) :
  StronglySorted lt (ids v) -> Head v k a b t x -> (u, y) ∈ a ++ (t, with_phase Running x) :: b ->
  is_queued y = true -> key y = k -> (t < u)%nat.
Proof.
  intros Hs [-> Hk _ Ha _] [Hy|[[= -> ->]|Hy]%elem_of_cons]%elem_of_app Hq Hyk; [|done|].
  - assert ((u, y) ∈ pick (waits_in k) a) as Hin.
    { apply pick_in. split; [done|]. unfold waits_in, of_key. by rewrite Hyk, Z.eqb_refl, Hq. }
    rewrite Ha in Hin. set_solver.
  - apply (sorted_split a b t x Hs). by apply (ids_in _ u y).
Qed.

Lemma step_traced (tr : list Event) (s s' : State) (e : Event) (v v' : Live) (l l' : list Z) :
  Inv s v l -> Inv s' v' l' -> Step s e s' -> StepRel e v v' -> Traced tr s v -> Traced (tr ++ [e]) s' v'.
Proof.
  intros H H' Hstep Hrel [Hbal Hsto Hwait Hord]. pose proof (step_kept s s' e Hstep) as Hk.
  assert (Hkeep : forall t, is_Some (store s !! t) -> is_Some (store s' !! t)).
  { intros t [x Hx]. destruct (Hk t x Hx) as (x' & -> & _). eauto. }
  assert (Hold : forall t x' u y', t ∈ starts tr -> store s' !! t = Some x' -> (u, y') ∈ v' -> is_queued y' = true ->
    key y' = key x' -> (t < u)%nat).
  { intros t x' u y' Ht Hx' Hy' Hq Hyx. destruct (Hsto t Ht) as [x Hx]. destruct (Hk t x Hx) as (x1 & Hx1 & Hkx & _).
    destruct (sr_new _ _ _ Hrel u y' Hy') as [(y & Hy & Hky & Hqy)|[-> _]].
    - apply (Hwait t x u y); try done; [by apply Hqy|]. congruence.
    - apply (accepted_fresh s s' u (key y')); [done|eauto]. }
  split.
  - apply (step_balance tr e v v'); [done|apply (i_order _ _ _ H)|apply (i_order _ _ _ H')|done].
  - intros t. rewrite starts_snoc. intros [Ht|Ht]%elem_of_app; [auto|]. destruct e; try (by apply not_elem_of_nil in Ht).
    apply list_elem_of_singleton in Ht as ->. destruct (sr_started _ _ _ Hrel _ eq_refl) as (k & a & b & x & _ & ->).
    rewrite (i_store _ _ _ H' t0 (with_phase Running x)) by set_solver. eauto.
  - intros t x' u y'. rewrite starts_snoc. intros [Ht|Ht]%elem_of_app; [by eapply Hold|]. destruct e; try (by apply not_elem_of_nil in Ht).
    apply list_elem_of_singleton in Ht as ->. destruct (sr_started _ _ _ Hrel _ eq_refl) as (k & a & b & x & Hh & ->).
    rewrite (i_store _ _ _ H' t0 (with_phase Running x)) by set_solver. intros [= <-] Hy Hq Hky.
    apply (waiting_after v a b k t0 u x y'); try done; [apply (i_order _ _ _ H)|]. by rewrite Hky, <-(hd_key _ _ _ _ _ _ Hh).
  - intros k. unfold started_of. rewrite starts_snoc, List.filter_app. fold (started_of s' k tr).
    rewrite (started_kept s s' k tr) by done. destruct e; cbn; rewrite ?app_nil_r; try done.
    destruct (sr_started _ _ _ Hrel _ eq_refl) as (k1 & a & b & x & Hh & ->).
    rewrite (i_store _ _ _ H' t (with_phase Running x)) by set_solver. destruct (of_key k _) eqn:Hkx; [|by rewrite app_nil_r].
    apply sorted_snoc; [done|]. intros u Hu. unfold started_of in Hu. rewrite list_elem_of_In, List.filter_In in Hu.
    destruct Hu as [Hu%list_elem_of_In Huk]. destruct (Hsto u Hu) as [y Hy]. rewrite Hy in Huk.
    destruct Hh as [-> Hxk Hp _ _]. apply (Hwait u y t x); try done; [set_solver|by apply queued_phase|].
    apply Z.eqb_eq in Hkx, Huk. cbn in Hkx. congruence.
Qed.

Lemma run_inv (o : KeyedExecutorOptions) (tr : list Event) (s : State) :
  Run (NewState o) tr s -> exists v l, Inv s v l /\ Traced tr s v.
Proof.
  induction 1 as [|tr s1 e s2 _ (v & l & Hi & Ht) Hs].
  - exists [], []. split; [apply new_inv|]. split; cbn; try set_solver; try done. intros k. constructor.
  - destruct (step_inv s1 s2 e v l Hi Hs) as (v' & l' & Hi' & Hr). exists v', l'.
    split; [done|]. by apply (step_traced tr s1 s2 e v v' l l').
Qed.

(** ** Progress *)





(** The steps that are enabled when every task waits: the coordinator's for a cancelled one, a
    worker's for a key of the list. *)
Section waiting.
Context (s : State) (v : Live) (l : list Z) (H : Inv s v l).
Context (Hq : forall u y, (u, y) ∈ v -> phase y = Queued).




End waiting.



(** The coordinator does not sleep past the deadline of a task that it would have to cancel. *)
Definition EndsBy (best : option Z) (d : Z) : Prop := exists b, best = Some b /\ b <= d.

Lemma deadline_ends (s : State) (ts : list nat) : forall t x d, t ∈ ts -> store s !! t = Some x ->
  phase x <> Completing -> cancelReason x = ErrorCode_Ok -> deadline (task_options x) = Some d ->
  EndsBy (NextDeadline ts s) d.
Proof.
  intros t x d Ht Hx Hp Hc Hd. unfold NextDeadline. set (f := fun (best : option Z) (t : nat) => _).
  assert (Hkeep : forall us best, EndsBy best d -> EndsBy (fold_left f us best) d).
  { induction us as [|u us IH]; intros best Hb; [done|]. cbn. apply IH. destruct Hb as (b & -> & Hb). subst f. cbn.
    repeat (case_match; try (by exists b)). destruct (Z.ltb_spec z b); [|by rewrite andb_false_r in *]. exists z. split; [done|lia]. }
  apply list_elem_of_split in Ht as (a & b & ->). rewrite fold_left_app. cbn. apply Hkeep.
  generalize (fold_left f a None). intros best. subst f. cbn. rewrite Hx, Hd.
  rewrite bool_decide_false, bool_decide_true by done. cbn. destruct best as [c|]; [|exists d; split; [done|lia]].
  destruct (Z.ltb_spec d c); [exists d|exists c]; (split; [done|lia]).
Qed.

Lemma coordinator_sleep (env : Env) (s s' : State) (until : option Z) (t : nat) (x : KeyedTaskState) (d : Z) :
  CoordinateRound env s = Some (CoordinatedWait until, s') -> t ∈ tasks s' -> store s' !! t = Some x ->
  phase x <> Completing -> cancelReason x = ErrorCode_Ok -> deadline (task_options x) = Some d ->
  d < TimePointMax -> EndsBy until d.
Proof.
  unfold CoordinateRound. destruct (ScanTasks env (tasks s) s) as [[[u []]|] s1]; [by destruct (Unqueue u s1)|done|].
  case_match; [done|]. intros [= <- <-] Ht Hx Hp Hc Hd Hm.
  destruct (deadline_ends s1 (tasks s1) t x d Ht Hx Hp Hc Hd) as (b & -> & Hb).
  destruct (Z.eqb_spec b TimePointMax); [lia|]. by exists b.
Qed.

(** ** The properties *)

(** In every state a run can reach, what the executor holds is the tasks accepted and not yet
    published, each once: the counters of tasks, bytes, waiting and occupied keys are theirs, those of
    each key's slot too, a key has a slot exactly while it has a task, and the limits of the options
    hold. *)
Theorem keyed_accounting (o : KeyedExecutorOptions) (tr : list Event) (s : State) :
  Run (NewState o) tr s ->
  let v := view s in
  tasks s = ids v /\ acceptances tr ≡ₚ publications tr ++ tasks s
  /\ outstanding s = Z.of_nat (length (tasks s)) /\ retained s = total every v
  /\ pending s = many is_queued v /\ running s = many occupies v
  /\ (forall k, core <$> keys s !! k = core_of v k)
  /\ (tasks s <> [] ->
       outstanding s <= maxOutstandingTasks (options s) /\ retained s <= maxRetainedBytes (options s)
       /\ Z.of_nat (size (keys s)) <= maxKeys (options s) /\ running s <= workerCount (options s)
       /\ (forall k, many (of_key k) v <= maxOutstandingTasksPerKey (options s)
                     /\ total (of_key k) v <= maxRetainedBytesPerKey (options s))).
Proof.
  intros (v & l & H & Ht)%run_inv. cbv zeta. rewrite (view_inv s v l H).
  pose proof (i_tasks _ _ _ H) as E. pose proof (i_counted _ _ _ H) as [].
  split; [done|]. split; [rewrite E; apply Ht|].
  split; [rewrite n_outstanding0, E; unfold many, ids, pick; rewrite length_map; do 2 f_equal;
          apply (List.forallb_filter_id (fun _ => true)); by apply List.forallb_forall|].
  repeat (split; [done|]). split; [apply H|]. intros Hne.
  assert (v <> []) as Hv by (intros ->; by rewrite E in Hne). auto 10.
Qed.

Lemma submit_store (env : Env) (t : nat) (reason : ErrorCode) (k : Z) (o : TaskOptions) (s s' : State) :
  SubmitCommit env t reason k o s = (Status.Ok, s') -> exists x, store s' = <[t := x]> (store s).
Proof.
  unfold SubmitCommit. case_match eqn:Ha; intros Hq; [injection Hq as He _; by rewrite He in Ha|].
  injection Hq as <-. rewrite Enqueue_keeps. cbn. eauto.
Qed.

(** Identifiers follow the order of acceptance. *)
Lemma run_accepted (o : KeyedExecutorOptions) (tr : list Event) (s : State) : Run (NewState o) tr s ->
  (forall t, t ∈ acceptances tr -> is_Some (store s !! t)) /\ StronglySorted lt (acceptances tr).
Proof.
  induction 1 as [|tr s1 e s2 _ [Hs Ho] Hstep]; [split; [set_solver|constructor]|].
  pose proof (step_kept _ _ _ Hstep) as Hk. unfold acceptances in *. rewrite omap_app.
  assert (Hold : forall t, t ∈ acceptances tr -> is_Some (store s2 !! t)).
  { intros t Ht. destruct (Hs t Ht) as [x Hx]. destruct (Hk t x Hx) as (x' & -> & _). eauto. }
  destruct e as [|t k|t|t c]; cbn; rewrite ?app_nil_r; try done. split.
  - intros u [Hu| ->%list_elem_of_singleton]%elem_of_app; [auto|].
    inversion Hstep as [| |env s0 t0 reason k0 o0 s0' Hf Hr Hb He| | | | | |s0 e s0' Ha]; [|by inversion Ha].
    destruct (submit_store _ _ _ _ _ _ _ He) as [x ->]. rewrite lookup_insert_eq. eauto.
  - apply sorted_snoc; [done|]. intros u Hu. apply (accepted_fresh _ _ _ _ Hstep). auto.
Qed.

(** C17. In every run, at most one task of a key is running or being completed by the worker that ran
    it, so at most one is running; a task that was dropped before it started is completed by the
    coordinator and is not counted, since its completion may overlap a running task of its key.  The
    tasks of a key start in the order in which they were accepted: identifiers grow with the
    acceptances, and so do those of the starts of each key; a worker only starts the first waiting
    task of a key for which no task runs or is being completed by its worker. *)
Theorem keyed_serial_in_order (o : KeyedExecutorOptions) (tr : list Event) (s : State) :
  Run (NewState o) tr s ->
  StronglySorted lt (acceptances tr)
  /\ (forall k, StronglySorted lt (started_of s k tr) /\ many (holds k) (view s) <= 1
                /\ many (runs k) (view s) <= 1)
  /\ (forall env t s', WorkerTake env s = Some (TakenTask t, s') -> exists k a b x, Head (view s) k a b t x).
Proof.
  intros Hr. destruct (run_accepted o tr s Hr) as [_ Ha]. apply run_inv in Hr as (v & l & H & Ht).
  rewrite (view_inv s v l H). split; [done|]. split.
  - intros k. pose proof (q_serial _ _ (i_scheduled _ _ _ H) k) as Hk. split; [apply Ht|].
    split; [done|]. pose proof (runs_holds k v). lia.
  - intros env t s' He. destruct (take_spec env s v l H) as (r & s1 & He' & Hs). rewrite He in He'.
    injection He' as <- <-. destruct Hs as (k & a & b & x & _ & Hh & _). by exists k, a, b, x.
Qed.


Lemma run_app (s1 s2 s3 : State) (tr1 tr2 : list Event) : Run s1 tr1 s2 -> Run s2 tr2 s3 -> Run s1 (tr1 ++ tr2) s3.
Proof.
  intros H1. induction 1 as [|tr s e s' _ IH Hs]; [by rewrite app_nil_r|]. rewrite app_assoc. by apply run_snoc with s.
Qed.

Lemma run_kept (s s' : State) (tr : list Event) : Run s tr s' -> kept (store s) (store s').
Proof. induction 1 as [|tr s1 e s2 _ IH Hs]; [reflexivity|]. etransitivity; [exact IH|by apply step_kept with e]. Qed.

(** A cancellation that is accepted decides the result: whatever happens afterwards, the task keeps
    the reason it was given ([Timeout] when its deadline has passed, else [Cancelled]), and that is
    the status its handle reports once it has finished. *)
Theorem keyed_cancel_decides (o : KeyedExecutorOptions) (tr tr' : list Event) (s s1 s2 : State) (env : Env) (t : nat) :
  Run (NewState o) tr s -> Cancel env t s = (true, s1) -> Run s1 tr' s2 ->
  exists x x2, store s !! t = Some x /\ store s2 !! t = Some x2
    /\ cancelReason x2 = (if match deadline (task_options x) with Some d => d <=? now env | None => false end
                          then Timeout else Cancelled)
    /\ (IsFinished x2 = true -> GetStatus x2 = cancelReason x2).
Proof.
  intros Hr Hc Hr'.
  assert (Hall : Run (NewState o) ((tr ++ [Silent]) ++ tr') s2).
  { apply run_app with s1; [|done]. apply run_snoc with s; [done|]. replace s1 with (Cancel env t s).2 by (by rewrite Hc).
    constructor. }
  destruct (run_inv _ _ _ Hall) as (v & l & H & _).
  unfold Cancel in Hc. destruct (store s !! t) as [x|] eqn:Hx; [|done]. case_match; [done|]. injection Hc as <-.
  set (c := if match deadline (task_options x) with Some d => d <=? now env | None => false end
            then Timeout else Cancelled) in *.
  destruct (run_kept _ _ _ Hr' t (with_reason c x)) as (x2 & Hx2 & _ & Hre); [apply lookup_insert_eq|].
  assert (Hne : c <> ErrorCode_Ok) by (subst c; by case_match). specialize (Hre Hne). cbn in Hre.
  exists x, x2. repeat (split; [done|]). unfold IsFinished, GetStatus. rewrite bool_decide_eq_true. intros Hp.
  destruct (i_done _ _ _ H t x2 Hx2) as [Hin|(_ & _ & _ & Hd)]; [|apply Hd; congruence].
  by destruct (ok_live _ (i_ok _ _ _ H t x2 Hin)).
Qed.

(** No step touches a key or a task that is not there: in every state a run can reach, a worker that
    takes a ready key finds its slot and a waiting task in it, the coordinator finds the slot of the
    task it drops, and a result to publish finds the slot of its key. *)
Theorem keyed_never_faults (o : KeyedExecutorOptions) (tr : list Event) (s : State) (env : Env) :
  Run (NewState o) tr s ->
  is_Some (WorkerTake env s) /\ is_Some (CoordinateRound env s)
  /\ (forall t x code occupied, store s !! t = Some x -> publishing x = Some (code, occupied) ->
        is_Some (Publish t code occupied s)).
Proof.
  intros (v & l & H & _)%run_inv. split; [|split].
  - destruct (take_spec env s v l H) as (r & s' & -> & _). eauto.
  - destruct (coordinate_spec env s v l H) as (r & s' & -> & _). eauto.
  - intros t x code occ Hx Hp. destruct (publish_spec s v l t x code occ H Hx Hp) as (a & b & s' & l' & _ & _ & -> & _).
    eauto.
Qed.

(** ** A run *)

Definition sample_options : KeyedExecutorOptions := MkOptions 2 4 8 1000 3 500.
Definition sample_env : Env := MkEnv 50 (fun _ => false).
Definition sample_task (d : option Z) : TaskOptions := MkTaskOptions 100 None d.

(** Started, two tasks of key 7 and one of key 9 accepted, the first one of key 7 started. *)
Definition sample_ready : State := StartReady (StartClaim false sample_options (NewState sample_options)).2.
Definition sample_submitted : State :=
  (SubmitCommit sample_env 2 ErrorCode_Ok 9 (sample_task None)
    (SubmitCommit sample_env 1 ErrorCode_Ok 7 (sample_task (Some 60))
      (SubmitCommit sample_env 0 ErrorCode_Ok 7 (sample_task None) sample_ready).2).2).2.
Definition sample_running : State :=
  match WorkerTake sample_env sample_submitted with Some (_, s) => s | None => sample_submitted end.

Definition sample_events : list Event :=
  [Silent; Silent; Accepted 0 7; Accepted 1 7; Accepted 2 9; Started 0].

Lemma below_new (m : gmap nat KeyedTaskState) (n : nat) (x : KeyedTaskState) :
  (forall u, is_Some (m !! u) -> (u < n)%nat) -> forall u, is_Some (<[n := x]> m !! u) -> (u < S n)%nat.
Proof. intros Hm u [-> |Hu]%lookup_insert_is_Some'; [lia|]. specialize (Hm u Hu). lia. Qed.

Lemma run_submit (o : KeyedExecutorOptions) (tr : list Event) (s : State) (n : nat) (k : Z) (to : TaskOptions) :
  Run (NewState o) tr s -> (forall u, is_Some (store s !! u) -> (u < n)%nat) -> in_u64 (retainedBytes to) ->
  (SubmitCommit sample_env n ErrorCode_Ok k to s).1 = Status.Ok ->
  let s' := (SubmitCommit sample_env n ErrorCode_Ok k to s).2 in
  Run (NewState o) (tr ++ [Accepted n k]) s' /\ (forall u, is_Some (store s' !! u) -> (u < S n)%nat).
Proof.
  intros Hr Hn Hb Hok s'. assert (He : SubmitCommit sample_env n ErrorCode_Ok k to s = (Status.Ok, s')).
  { rewrite <-Hok. apply surjective_pairing. }
  split; [apply run_snoc with s; [done|]; by apply step_submit with sample_env ErrorCode_Ok to|].
  destruct (submit_store _ _ _ _ _ _ _ He) as [x ->]. by apply below_new.
Qed.

Lemma sample_run : Run (NewState sample_options) sample_events sample_running.
Proof.
  assert (H0 : Run (NewState sample_options) [Silent; Silent] sample_ready).
  { apply (run_snoc _ [Silent] (StartClaim false sample_options (NewState sample_options)).2); [|by constructor].
    apply (run_snoc _ [] (NewState sample_options)); [constructor|].
    by apply step_claim with false sample_options; [unfold sized, in_u64; vm_compute; intuition congruence|]. }
  assert (Hn : forall u, is_Some (store sample_ready !! u) -> (u < 0)%nat).
  { change (store sample_ready) with (∅ : gmap nat KeyedTaskState). intros u [x Hx]. by rewrite lookup_empty in Hx. }
  assert (Hb : forall d, in_u64 (retainedBytes (sample_task d))) by (intros d; split; vm_compute; congruence).
  destruct (run_submit _ _ _ 0 7 (sample_task None) H0 Hn (Hb _)) as [H1 Hn1]; [by vm_compute|].
  destruct (run_submit _ _ _ 1 7 (sample_task (Some 60)) H1 Hn1 (Hb _)) as [H2 Hn2]; [by vm_compute|].
  destruct (run_submit _ _ _ 2 9 (sample_task None) H2 Hn2 (Hb _)) as [H3 _]; [by vm_compute|].
  apply (run_snoc _ _ sample_submitted _ _ H3), step_advance, adv_take with sample_env; by vm_compute.
Qed.

(** The second task of key 7 is cancelled, dropped by the coordinator and published. *)
Definition sample_cancelled : State := (Cancel sample_env 1 sample_running).2.
Definition sample_dropped : State :=
  match CoordinateRound sample_env sample_cancelled with Some (_, s) => s | None => sample_cancelled end.
Definition sample_published : State :=
  match Publish 1 Cancelled false sample_dropped with Some s => s | None => sample_dropped end.

Lemma sample_end : Run sample_cancelled [Silent; Published 1 Cancelled] sample_published.
Proof.
  apply (run_snoc _ [Silent] sample_dropped).
  - apply (run_snoc _ [] sample_cancelled); [constructor|]. apply step_advance, (adv_coordinate sample_env _ 1 true).
    + apply (bool_decide_unpack (map_Forall (fun _ y => coordinating y = false) (store sample_cancelled))). by vm_compute.
    + by vm_compute.
  - apply step_advance. eapply (adv_publish _ _ _ _ false); by vm_compute.
Qed.

Lemma keyed_accounting_witness :
  outstanding sample_running = 3 /\ retained sample_running = 300 /\ pending sample_running = 2
  /\ running sample_running = 1 /\ acceptances sample_events ≡ₚ publications sample_events ++ tasks sample_running.
Proof.
  pose proof (keyed_accounting _ _ _ sample_run) as (_ & H & _). repeat (split; [by vm_compute|]). exact H.
Defined.

Lemma keyed_serial_in_order_witness :
  starts sample_events = [0%nat] /\ many (holds 7) (view sample_running) = 1
  /\ forall k, StronglySorted lt (started_of sample_running k sample_events) /\ many (holds k) (view sample_running) <= 1
               /\ many (runs k) (view sample_running) <= 1.
Proof.
  pose proof (keyed_serial_in_order _ _ _ sample_run) as (_ & H & _). repeat (split; [by vm_compute|]). exact H.
Defined.


Lemma keyed_cancel_decides_witness :
  exists x2, store sample_published !! 1%nat = Some x2 /\ IsFinished x2 = true /\ GetStatus x2 = cancelReason x2.
Proof.
  destruct (keyed_cancel_decides _ _ _ _ sample_cancelled _ sample_env 1 sample_run ltac:(by vm_compute) sample_end)
    as (x & x2 & _ & Hx2 & _ & H).
  exists x2. split; [exact Hx2|]. assert (Hf : IsFinished x2 = true).
  { vm_compute in Hx2. injection Hx2 as <-. reflexivity. }
  split; [exact Hf|exact (H Hf)].
Defined.

Lemma keyed_never_faults_witness : readyHead sample_running = Some 9 /\ is_Some (WorkerTake sample_env sample_running).
Proof.
  split; [by vm_compute|]. exact (proj1 (keyed_never_faults _ _ _ sample_env sample_run)).
Defined.
