(* ===== verification/Endpoint.v ===== *)
(** * Core: IP addresses, endpoints and networks.

    [Core/Endpoint.cpp]: the numeric texts of IPv4 and IPv6 addresses, with the compression of RFC 5952
    and decimal scopes, and CIDR networks.  Characters and bytes are their numbers; [mBytes] has sixteen
    of them.  [std::string_view::find] with [substr] and [remove_prefix] is [cut]. *)

From S2P Require Import Prelude CoreError Charconv.
Import Charconv.

Module Endpoint.

Inductive IpFamily : Type := Unspecified | FamilyV4 | FamilyV6.

#[global] Instance IpFamily_eq_dec : EqDecision IpFamily.
Proof. solve_decision. Defined.

Record IpAddress : Type := MkAddress {
  mFamily : IpFamily;
  mBytes : list Z;
  mScopeId : Z
}.

#[global] Instance IpAddress_eq_dec : EqDecision IpAddress.
Proof. solve_decision. Defined.

Definition NoAddress : IpAddress := MkAddress Unspecified (repeat 0 16) 0.

Definition Invalid {T : Type} : Result T := FromStatus (Status.FailWithoutMessage InvalidArgument).

(** Characters. *)
Definition Dot : Z := char_code ".".
Definition Colon : Z := char_code ":".
Definition Percent : Z := char_code "%".
Definition Slash : Z := char_code "/".

(** The whole text is a decimal number of type [unsigned int] or [std::uint32_t]. *)
Definition Decimal (text : list Z) : option Z :=
  if len text =? 0 then None
  else if negb (forallb isdigit text) then None
  else
    match from_chars_integer 0 UINT32_MAX text with
    | (errc_ok, [], value) => Some value
    | _ => None
    end.

(** [text.contains(c)]. *)
Definition contains (c : Z) (text : list Z) : bool := existsb (Z.eqb c) text.

(** The rounds of [V4] from the one that reads [S n] more bytes. *)
Fixpoint V4Loop (n : nat) (text : list Z) : option (list Z) :=
  let '(part, rest) := cut Dot text in
  if (3 <? len part) || ((1 <? len part) && (nth 0 part 0 =? char_code "0")) then None
  else
    match Decimal part with
    | None => None
    | Some value =>
        if 255 <? value then None
        else
          match n, rest with
          | O, None => Some [value]
          | S n, Some rest => match V4Loop n rest with Some bytes => Some (value :: bytes) | None => None end
          | _, _ => None
          end
    end.

Definition V4 (text : list Z) : option (list Z) := V4Loop 3 text.

Definition HexDigit (digit : Z) : option Z :=
  if (char_code "0" <=? digit) && (digit <=? char_code "9") then Some (digit - char_code "0")
  else if (char_code "a" <=? digit) && (digit <=? char_code "f") then Some (digit - char_code "a" + 10)
  else if (char_code "A" <=? digit) && (digit <=? char_code "F") then Some (digit - char_code "A" + 10)
  else None.

Fixpoint HexWord (part : list Z) (value : Z) : option Z :=
  match part with
  | [] => Some value
  | digit :: part =>
      match HexDigit digit with
      | Some hex => HexWord part (Z.lor (Z.shiftl value 4) hex)
      | None => None
      end
  end.

(** The loop of [Words]: [words] are those read before, [text] is not empty. *)
Fixpoint WordsLoop (fuel : nat) (allowV4 : bool) (text words : list Z) : option (list Z) :=
  match fuel with
  | O => None
  | S fuel =>
      let '(part, rest) := cut Colon text in
      if (len part =? 0) || (len words =? 8) then None
      else if contains Dot part then
        if negb allowV4 || negb (bool_decide (rest = None)) || (6 <? len words) then None
        else
          match V4 part with
          | Some [b0; b1; b2; b3] =>
              Some (words ++ [Z.lor (Z.shiftl b0 8) b1; Z.lor (Z.shiftl b2 8) b3])
          | _ => None
          end
      else if 4 <? len part then None
      else
        match HexWord part 0 with
        | None => None
        | Some value =>
            match rest with
            | None => Some (words ++ [value])
            | Some rest => if len rest =? 0 then None else WordsLoop fuel allowV4 rest (words ++ [value])
            end
        end
  end.

Definition Words (text : list Z) (allowV4 : bool) : option (list Z) :=
  if len text =? 0 then Some [] else WordsLoop (S (length text)) allowV4 text [].

Definition FromBytes (family : IpFamily) (bytes : list Z) (scope : Z) : Result IpAddress :=
  if bool_decide (family = Unspecified) || negb (len bytes =? (if bool_decide (family = FamilyV4) then 4 else 16))
     || (bool_decide (family = FamilyV4) && negb (scope =? 0)) then Invalid
  else FromValue (MkAddress family (write_at 0 bytes (repeat 0 16)) scope).

(** The array [left] after the words on the right were copied to its end. *)
Definition WordArray (lefts rights : list Z) : list Z :=
  write_at (8 - length rights) rights (write_at 0 lefts (repeat 0 8)).

Definition WordBytes (words : list Z) : list Z := flat_map (fun w => [Z.shiftr w 8; Z.land w 255]) words.

(** The eight words of an address without its scope. *)
Definition ParseWords (text : list Z) : option (list Z) :=
  match cut_sub (txt "::") text with
  | (_, None) =>
      match Words text true with
      | Some words => if len words =? 8 then Some words else None
      | None => None
      end
  | (before, Some after) =>
      match cut_sub (txt "::") after with
      | (_, Some _) => None
      | (_, None) =>
          match Words before false, Words after true with
          | Some lefts, Some rights =>
              if 8 <=? len lefts + len rights then None else Some (WordArray lefts rights)
          | _, _ => None
          end
      end
  end.

Definition Parse (text : list Z) : Result IpAddress :=
  if (len text =? 0) || (64 <? len text) then Invalid
  else if negb (contains Colon text) then
    match V4 text with
    | Some bytes => FromValue (MkAddress FamilyV4 (write_at 0 bytes (repeat 0 16)) 0)
    | None => Invalid
    end
  else
    let '(address, zone) := cut Percent text in
    match (match zone with None => Some 0 | Some zone => Decimal zone end) with
    | None => Invalid
    | Some scope =>
        match ParseWords address with
        | Some words => FromValue (MkAddress FamilyV6 (WordBytes words) scope)
        | None => Invalid
        end
    end.

(** [Bytes()]: the bytes that the family uses. *)
Definition Bytes (a : IpAddress) : list Z :=
  match mFamily a with Unspecified => [] | FamilyV4 => take 4 (mBytes a) | FamilyV6 => take 16 (mBytes a) end.

Definition IsValid (a : IpAddress) : bool := negb (bool_decide (mFamily a = Unspecified)).

Definition IsV4Mapped (a : IpAddress) : bool :=
  bool_decide (mFamily a = FamilyV6) && forallb (Z.eqb 0) (take 10 (mBytes a))
  && (nth 10 (mBytes a) 0 =? 255) && (nth 11 (mBytes a) 0 =? 255).

(** [FromBytes(...).Value()] does not fail on four bytes. *)
Definition Normalized (a : IpAddress) : IpAddress :=
  if negb (IsV4Mapped a) || negb (mScopeId a =? 0) then a
  else match FromBytes FamilyV4 (slice 12 4 (mBytes a)) 0 with FromValue b => b | FromStatus _ => a end.

(** ** Texts *)

(** [std::to_chars] to base 16. *)
Fixpoint HexLoop (fuel : nat) (n : Z) (ds : list Z) : list Z :=
  match fuel with
  | O => ds
  | S fuel =>
      let ds := nth (Z.to_nat (n mod 16)) (txt "0123456789abcdef") 0 :: ds in
      if n <? 16 then ds else HexLoop fuel (n / 16) ds
  end.

Definition HexText (n : Z) : list Z := HexLoop (S (Z.to_nat (Z.log2 n))) n [].

Fixpoint PairWords (bytes : list Z) : list Z :=
  match bytes with
  | high :: low :: bytes => Z.lor (Z.shiftl high 8) low :: PairWords bytes
  | _ => []
  end.

(** The zeros from the start of the words: the inner [while] of the search. *)
Fixpoint ZeroRun (words : list Z) : nat :=
  match words with
  | [] => 0%nat
  | w :: words => if w =? 0 then S (ZeroRun words) else 0%nat
  end.

(** The search for the longest run of at least two zero words, the first one of its length. *)
Fixpoint BestRun (fuel : nat) (words : list Z) (index best length : nat) : nat * nat :=
  match fuel, words with
  | O, _ | _, [] => (best, length)
  | S fuel, w :: rest =>
      if negb (w =? 0) then BestRun fuel rest (S index) best length
      else
        let run := ZeroRun words in
        if (2 <=? run)%nat && (length <? run)%nat then BestRun fuel (drop run words) (index + run) index run
        else BestRun fuel (drop run words) (index + run) best length
  end.

Fixpoint PrintWords (fuel : nat) (words : list Z) (index best length : nat) (result : list Z) : list Z :=
  match fuel, words with
  | O, _ | _, [] => result
  | S fuel, w :: rest =>
      if (index =? best)%nat then PrintWords fuel (drop length words) (index + length) best length (result ++ txt "::")
      else
        let result :=
          match last result with
          | Some c => if c =? Colon then result else result ++ [Colon]
          | None => result
          end in
        PrintWords fuel rest (S index) best length (result ++ HexText w)
  end.

Definition ToString (a : IpAddress) : list Z :=
  match mFamily a with
  | Unspecified => []
  | FamilyV4 => join Dot (map Digits (take 4 (mBytes a)))
  | FamilyV6 =>
      let words := PairWords (mBytes a) in
      let '(best, length) := BestRun 8 words 0 8 0 in
      let result := PrintWords 8 words 0 best length [] in
      if negb (mScopeId a =? 0) then result ++ [Percent] ++ Digits (mScopeId a) else result
  end.

Record IpEndpoint : Type := MkEndpoint { address : IpAddress; port : Z }.

#[global] Instance IpEndpoint_eq_dec : EqDecision IpEndpoint.
Proof. solve_decision. Defined.

Definition ParseEndpoint (text : list Z) (port : Z) : Result IpEndpoint :=
  match Parse text with
  | FromValue a => FromValue (MkEndpoint a port)
  | FromStatus s => FromStatus s
  end.

Definition EndpointToString (e : IpEndpoint) : list Z :=
  if negb (IsValid (address e)) then []
  else (if bool_decide (mFamily (address e) = FamilyV6) then txt "[" ++ ToString (address e) ++ txt "]"
        else ToString (address e)) ++ txt ":" ++ Digits (port e).

(** ** Networks *)

Record IpNetwork : Type := MkNetwork { mAddress : IpAddress; mPrefix : Z }.

(** The bits of the byte [index] that a prefix covers. *)
Definition Mask (prefix : Z) (index : nat) : Z :=
  let covered := Z.of_nat index * 8 in
  let remaining := if covered <? prefix then prefix - covered else 0 in
  if 8 <=? remaining then 255 else if remaining =? 0 then 0 else Z.land (Z.shiftl 255 (8 - remaining)) 255.

Definition ParseNetwork (text : list Z) : Result IpNetwork :=
  match cut Slash text with
  | (_, None) => Invalid
  | (before, Some after) =>
      if contains Percent text then Invalid
      else
        match Parse before, Decimal after with
        | FromValue a, Some prefix =>
            if (if bool_decide (mFamily a = FamilyV4) then 32 else 128) <? prefix then Invalid
            else
              FromValue (MkNetwork (MkAddress (mFamily a)
                (imap (fun index byte => if (index <? length (Bytes a))%nat then Z.land byte (Mask prefix index) else byte)
                   (mBytes a)) (mScopeId a)) prefix)
        | _, _ => Invalid
        end
  end.

Definition Contains (n : IpNetwork) (a : IpAddress) : bool :=
  if negb (IsValid (mAddress n)) || negb (bool_decide (mFamily a = mFamily (mAddress n))) then false
  else forallb (fun index => Z.land (nth index (mBytes a) 0) (Mask (mPrefix n) index)
                             =? Z.land (nth index (mBytes (mAddress n)) 0) (Mask (mPrefix n) index))
         (seq 0 (length (Bytes a))).

End Endpoint.

Import Endpoint.

(** ** Hexadecimal texts *)

Definition hex_digit_value (c : Z) : Z := match HexDigit c with Some v => v | None => 0 end.
Definition hex_value (ds : list Z) : Z := fold_left (fun v c => v * 16 + hex_digit_value c) ds 0.

(** The digits [std::to_chars] writes. *)
Definition hex_char (c : Z) : bool := isdigit c || ((97 <=? c) && (c <=? 102)).
Definition hex_chars (ds : list Z) : Prop := Forall (fun c => hex_char c = true) ds.

Lemma hex_table (v : Z) : 0 <= v < 16 ->
  let c := nth (Z.to_nat v) (txt "0123456789abcdef") 0 in
  hex_char c = true /\ HexDigit c = Some v /\ (c = 48 <-> v = 0).
Proof.
  intros Hv. assert (forallb (fun v => let c := nth (Z.to_nat v) (txt "0123456789abcdef") 0 in
    hex_char c && bool_decide (HexDigit c = Some v) && Bool.eqb (c =? 48) (v =? 0)) (map Z.of_nat (seq 0 16)) = true) as H
    by reflexivity.
  rewrite forallb_forall in H. specialize (H v). rewrite in_map_iff in H. cbv zeta in *.
  assert (Hin : exists x, Z.of_nat x = v /\ In x (seq 0 16)) by (exists (Z.to_nat v); rewrite in_seq; lia).
  specialize (H Hin). rewrite !andb_true_iff in H. destruct H as [[H1 H2] H3]. apply bool_decide_eq_true in H2.
  apply Bool.eqb_prop in H3. split; [done|]. split; [done|]. lia.
Qed.

Lemma hex_value_snoc (ds : list Z) (c : Z) : hex_value (ds ++ [c]) = hex_value ds * 16 + hex_digit_value c.
Proof. unfold hex_value. by rewrite fold_left_app. Qed.

Lemma hex_loop_spec (fuel : nat) : forall n ds,
  0 <= n -> (Z.to_nat (Z.log2 n) < fuel)%nat ->
  exists c cs, HexLoop fuel n ds = c :: cs ++ ds /\ hex_chars (c :: cs) /\ hex_value (c :: cs) = n
    /\ (c = 48 -> n = 0) /\ (n = 0 -> cs = []) /\ forall k, 0 < k -> n < 16 ^ k -> len (c :: cs) <= k.
Proof.
  induction fuel as [|fuel IH]; intros n ds Hn Hf; [lia|]. cbn [HexLoop].
  pose proof (Z.mod_pos_bound n 16 ltac:(lia)) as Hm. destruct (hex_table (n mod 16) Hm) as (Hc & Hd & Hz).
  set (c := nth _ _ 0) in *. destruct (n <? 16) eqn:E.
  - exists c, []. rewrite Z.mod_small in * by lia. split; [done|]. split; [by constructor|].
    unfold hex_value. cbn [fold_left]. unfold hex_digit_value. rewrite Hd. unfold len. cbn [length]. repeat split; intros; lia.
  - assert (Z.log2 (n / 16) < Z.log2 n) as Hl.
    { assert (0 < n / 16) by (apply Z.div_str_pos; lia). pose proof (Z.log2_double (n / 16) ltac:(lia)).
      pose proof (Z.log2_le_mono (2 * (n / 16)) n ltac:(dlia)). lia. }
    pose proof (Z.log2_nonneg (n / 16)).
    destruct (IH (n / 16) (c :: ds)) as (d & cs & E1 & H1 & H2 & H3 & _ & H4); [apply Z.div_pos; lia|lia|].
    exists d, (cs ++ [c]). rewrite E1, <-app_assoc. split; [done|].
    split; [rewrite app_comm_cons; apply Forall_app; split; [done|by constructor]|].
    split; [rewrite app_comm_cons, hex_value_snoc, H2; unfold hex_digit_value; rewrite Hd; dlia|].
    split; [intros Hz'; specialize (H3 Hz'); dlia|]. split; [lia|]. intros k Hk Hlt.
    destruct (decide (k = 1)) as [->|]; [lia|].
    specialize (H4 (k - 1) ltac:(lia)). unfold len in *. rewrite !app_comm_cons, length_app. cbn [length] in *.
    replace k with (Z.succ (k - 1)) in Hlt by lia. rewrite Z.pow_succ_r in Hlt by lia.
    assert (n / 16 < 16 ^ (k - 1)) by (apply Z.div_lt_upper_bound; lia). lia.
Qed.

Lemma hex_text_spec (n : Z) : 0 <= n ->
  hex_chars (HexText n) /\ hex_value (HexText n) = n /\ HexText n <> []
  /\ forall k, 0 < k -> n < 16 ^ k -> len (HexText n) <= k.
Proof.
  intros Hn. unfold HexText.
  destruct (hex_loop_spec (S (Z.to_nat (Z.log2 n))) n [] Hn ltac:(lia)) as (c & cs & -> & H1 & H2 & _ & _ & H4).
  by rewrite app_nil_r.
Qed.

Lemma hex_char_digit (c : Z) : hex_char c = true ->
  HexDigit c = Some (hex_digit_value c) /\ 0 <= hex_digit_value c < 16 /\ c <> Colon /\ c <> Dot /\ c <> Percent /\ c <> Slash.
Proof.
  unfold hex_char, hex_digit_value, HexDigit, isdigit. eval_chars.
  unfold Colon, Dot, Percent, Slash. eval_chars. intros H. case_ifs; repeat split; try lia; done.
Qed.

Lemma hex_word_value (ds : list Z) : forall v, 0 <= v -> hex_chars ds ->
  HexWord ds v = Some (fold_left (fun v c => v * 16 + hex_digit_value c) ds v).
Proof.
  induction ds as [|c ds IH]; intros v Hv H; [done|]. apply Forall_cons in H as [Hc H]. cbn.
  destruct (hex_char_digit c Hc) as (-> & Hr & _). rewrite lor_shiftl_add by (change (2 ^ 4) with 16; lia).
  change (2 ^ 4) with 16. rewrite IH; [done|lia|done].
Qed.

(** ** Words between colons *)

Definition is_word (w : Z) : Prop := 0 <= w < 65536.
Definition is_words (ws : list Z) : Prop := Forall is_word ws.

Definition words_text (ws : list Z) : list Z := join Colon (map HexText ws).

Lemma hex_text_word (w : Z) : is_word w ->
  HexText w <> [] /\ len (HexText w) <= 4 /\ HexWord (HexText w) 0 = Some w
  /\ Forall (fun c => c <> Colon /\ c <> Dot /\ c <> Percent /\ c <> Slash) (HexText w).
Proof.
  intros Hw. destruct (hex_text_spec w) as (H1 & H2 & H3 & H4); [apply Hw|]. split; [done|].
  split; [apply H4; [lia|apply Hw]|]. split; [rewrite hex_word_value by done; by f_equal|].
  eapply Forall_impl; [exact H1|]. intros c Hc%hex_char_digit. tauto.
Qed.

Lemma hex_text_absent (w c : Z) : is_word w -> c = Colon \/ c = Dot \/ c = Percent \/ c = Slash -> c ∉ HexText w.
Proof.
  intros Hw Hc Hin. destruct (hex_text_word w Hw) as (_ & _ & _ & H). rewrite Forall_forall in H.
  specialize (H c Hin). tauto.
Qed.

Lemma contains_spec (c : Z) (l : list Z) : contains c l = true <-> c ∈ l.
Proof.
  unfold contains. rewrite existsb_exists. setoid_rewrite Z.eqb_eq. setoid_rewrite <-list_elem_of_In. naive_solver.
Qed.

Lemma contains_absent (c : Z) (l : list Z) : c ∉ l -> contains c l = false.
Proof. intros H. destruct (contains c l) eqn:E; [|done]. by apply contains_spec in E. Qed.

Lemma words_text_cons (w w' : Z) (ws : list Z) :
  words_text (w :: w' :: ws) = HexText w ++ Colon :: words_text (w' :: ws).
Proof. done. Qed.

Lemma words_text_nonempty (w : Z) (ws : list Z) : is_word w -> len (words_text (w :: ws)) =? 0 = false.
Proof.
  intros Hw. destruct (hex_text_word w Hw) as (Hne & _). destruct ws as [|w' ws].
  - unfold words_text. cbn [map join]. unfold len. destruct (HexText w); [done|]. cbn [length]. lia.
  - rewrite words_text_cons. unfold len. rewrite length_app. cbn [length]. lia.
Qed.

Lemma words_loop_text (allowV4 : bool) (ws : list Z) : forall fuel acc,
  ws <> [] -> is_words ws -> len acc + len ws <= 8 -> (length ws <= fuel)%nat ->
  WordsLoop fuel allowV4 (words_text ws) acc = Some (acc ++ ws).
Proof.
  induction ws as [|w ws IH]; intros fuel acc Hne Hw Hl Hf; [done|]. apply Forall_cons in Hw as [Hw Hws].
  destruct (hex_text_word w Hw) as (Hn & H4 & Hv & _). destruct fuel as [|fuel]; [cbn in Hf; lia|].
  assert (len (HexText w) =? 0 = false) as Hn0 by (unfold len; destruct (HexText w); [done|cbn; lia]).
  unfold len in Hl. cbn [length] in Hl, Hf. assert (len acc =? 8 = false) as Ha by (unfold len; lia).
  assert (4 <? len (HexText w) = false) as H4' by lia.
  assert (contains Dot (HexText w) = false) as Hd by (apply contains_absent, hex_text_absent; auto).
  destruct ws as [|w' ws].
  - unfold words_text. cbn [map join WordsLoop]. rewrite cut_none by (apply hex_text_absent; auto).
    by rewrite Hn0, Ha, Hd, H4', Hv.
  - rewrite words_text_cons. cbn [WordsLoop]. rewrite cut_app by (apply hex_text_absent; auto).
    rewrite Hn0, Ha, Hd, H4', Hv. cbn [orb]. rewrite words_text_nonempty by (by apply Forall_inv in Hws).
    rewrite IH; [by rewrite <-app_assoc|done|done| |cbn in *; lia].
    unfold len in *. rewrite length_app. cbn in *. lia.
Qed.

Lemma words_text_length (ws : list Z) : is_words ws -> (length ws <= length (words_text ws))%nat
  /\ len (words_text ws) <= 5 * len ws.
Proof.
  induction ws as [|w ws IH]; intros H; [done|]. apply Forall_cons in H as [Hw H].
  destruct (hex_text_word w Hw) as (Hn & H4 & _). destruct (IH H) as [IH1 IH2].
  assert (0 < length (HexText w))%nat by (destruct (HexText w); [done|cbn; lia]).
  unfold len in *. destruct ws as [|w' ws].
  - unfold words_text. cbn [map join length]. lia.
  - rewrite words_text_cons, length_app. cbn [length] in *. lia.
Qed.

Lemma words_parse (allowV4 : bool) (ws : list Z) : is_words ws -> len ws <= 8 -> Words (words_text ws) allowV4 = Some ws.
Proof.
  intros Hw Hl. unfold Words. destruct ws as [|w ws]; [done|]. rewrite words_text_nonempty by (by apply Forall_inv in Hw).
  rewrite words_loop_text; [done|done|done|unfold len in *; cbn in *; lia|].
  destruct (words_text_length (w :: ws) Hw) as [H _]. lia.
Qed.

(** [find] of [::] passes over words. *)
Lemma starts_double (c d : Z) (l : list Z) : c <> Colon \/ d <> Colon -> starts_with (txt "::") (c :: d :: l) = false.
Proof.
  intros H. change (txt "::") with [Colon; Colon]. cbn [starts_with].
  destruct (Z.eqb_spec Colon c), (Z.eqb_spec Colon d); cbn; try done. by destruct H.
Qed.

Lemma starts_double_one (c : Z) : starts_with (txt "::") [c] = false.
Proof. change (txt "::") with [Colon; Colon]. cbn [starts_with]. apply andb_false_r. Qed.

Lemma cut_double_part (f l : list Z) : Colon ∉ f ->
  cut_sub (txt "::") (f ++ l) = let '(a, r) := cut_sub (txt "::") l in (f ++ a, r).
Proof.
  intros Hf. induction f as [|c f IH]; [cbn [app]; by destruct (cut_sub (txt "::") l)|].
  apply not_elem_of_cons in Hf as [Hc Hf]. change ((c :: f) ++ l) with (c :: f ++ l). cbn [cut_sub].
  replace (starts_with (txt "::") (c :: f ++ l)) with false.
  - rewrite IH by done. by destruct (cut_sub (txt "::") l).
  - destruct (f ++ l); [by rewrite starts_double_one|]. rewrite starts_double; [done|auto].
Qed.

Lemma cut_double_here (t : list Z) : cut_sub (txt "::") (Colon :: Colon :: t) = ([], Some t).
Proof. reflexivity. Qed.

Lemma cut_double_words (tail ws : list Z) : is_words ws -> ws <> [] ->
  (tail = [] \/ exists t, tail = Colon :: Colon :: t) ->
  cut_sub (txt "::") (words_text ws ++ tail) = (words_text ws, match tail with _ :: _ :: t => Some t | _ => None end).
Proof.
  intros Hw Hne Ht. induction ws as [|w ws IH]; [done|]. apply Forall_cons in Hw as [Hw Hws].
  destruct ws as [|w' ws].
  - unfold words_text. cbn [map join]. rewrite cut_double_part by (apply hex_text_absent; auto).
    destruct Ht as [->|[t ->]]; [rewrite cut_sub_nil by done|rewrite cut_double_here]; by rewrite app_nil_r.
  - rewrite words_text_cons, <-app_assoc. rewrite cut_double_part by (apply hex_text_absent; auto).
    change ((Colon :: words_text (w' :: ws)) ++ tail) with (Colon :: (words_text (w' :: ws) ++ tail)).
    cbn [cut_sub]. replace (starts_with (txt "::") (Colon :: (words_text (w' :: ws) ++ tail))) with false.
    + by rewrite IH.
    + apply Forall_inv in Hws. destruct (hex_text_word w' Hws) as (Hn & _ & _ & Ha).
      assert (exists c l, words_text (w' :: ws) ++ tail = c :: l /\ c <> Colon) as (c & l & -> & Hc).
      { destruct (HexText w') as [|c h] eqn:E; [done|]. apply Forall_inv in Ha. exists c.
        destruct ws; unfold words_text; cbn [map join]; rewrite E; eexists; split; (done || tauto). }
      rewrite starts_double; [done|auto].
Qed.

(** ** The printed words *)

(** What the words are separated with from the text before them. *)
Definition sep (result : list Z) : list Z :=
  match last result with Some c => if c =? Colon then [] else [Colon] | None => [] end.

Definition glue (result ws : list Z) : list Z :=
  match ws with [] => result | _ => result ++ sep result ++ words_text ws end.

Lemma sep_after_hex (result : list Z) (w : Z) : is_word w -> sep (result ++ HexText w) = [Colon].
Proof.
  intros Hw. destruct (hex_text_word w Hw) as (Hn & _ & _ & Ha). unfold sep.
  destruct (exists_last Hn) as (h & c & E). rewrite E in *. apply Forall_app in Ha as [_ Ha]. apply Forall_inv in Ha.
  rewrite app_assoc, last_snoc. by rewrite (proj2 (Z.eqb_neq c Colon)) by tauto.
Qed.

Lemma print_word (result : list Z) (w : Z) :
  match last result with Some c => if c =? Colon then result else result ++ [Colon] | None => result end ++ HexText w
  = glue result [w].
Proof.
  unfold glue, sep, words_text. cbn [map join]. destruct (last result) as [c|]; [|done].
  destruct (c =? Colon); [done|]. by rewrite <-app_assoc.
Qed.

Lemma glue_cons (result : list Z) (w : Z) (ws : list Z) : is_word w -> glue (glue result [w]) ws = glue result (w :: ws).
Proof.
  intros Hw. destruct ws as [|w' ws]; [done|]. unfold glue. change (words_text [w]) with (HexText w).
  rewrite (app_assoc result (sep result)), sep_after_hex by done. rewrite words_text_cons, <-!app_assoc. done.
Qed.

Lemma print_prefix (rest : list Z) (best n : nat) (ws : list Z) : forall fuel index result,
  is_words ws -> (index + length ws <= best \/ best < index)%nat ->
  PrintWords (length ws + fuel) (ws ++ rest) index best n result =
  PrintWords fuel rest (index + length ws) best n (glue result ws).
Proof.
  induction ws as [|w ws IH]; intros fuel index result Hw Hi.
  - cbn. by rewrite Nat.add_0_r.
  - apply Forall_cons in Hw as [Hw Hws]. cbn [length] in Hi. cbn [length app Nat.add PrintWords].
    rewrite (proj2 (Nat.eqb_neq index best)) by lia. rewrite print_word, IH by (done || lia).
    rewrite glue_cons by done. f_equal. lia.
Qed.

(** The longest run is a run of zeros. *)
Definition run_of (words : list Z) (best n : nat) : Prop :=
  exists pre post, words = pre ++ repeat 0 n ++ post /\ length pre = best /\ (2 <= n)%nat.

Lemma zero_run (words : list Z) : words = repeat 0 (ZeroRun words) ++ drop (ZeroRun words) words.
Proof.
  induction words as [|w words IH]; [done|]. cbn [ZeroRun]. destruct (Z.eqb_spec w 0) as [->|]; [|done].
  cbn [repeat app drop]. by f_equal.
Qed.

Lemma best_run (fuel : nat) : forall words before best n,
  (length words <= fuel)%nat -> ((best, n) = (8, 0)%nat \/ run_of (before ++ words) best n) ->
  let '(best', n') := BestRun fuel words (length before) best n in
  (best', n') = (8, 0)%nat \/ run_of (before ++ words) best' n'.
Proof.
  induction fuel as [|fuel IH]; intros words before best n Hf H; [by destruct words|].
  destruct words as [|w rest]; [done|]. cbn [BestRun]. destruct (Z.eqb_spec w 0) as [->|Hw]; cbn [negb].
  - set (words := 0 :: rest) in *. pose proof (zero_run words) as Hz. set (k := ZeroRun words) in *.
    assert (Hk : (1 <= k)%nat) by (subst k words; cbn; lia).
    assert (E : before ++ words = (before ++ repeat 0 k) ++ drop k words) by (by rewrite <-app_assoc, <-Hz).
    assert (El : (length before + k)%nat = length (before ++ repeat 0 k)) by (by rewrite length_app, repeat_length).
    assert (Hd : (length (drop k words) <= fuel)%nat) by (rewrite length_drop; lia).
    rewrite E, El. destruct (_ && _) eqn:Hc; apply IH; try done; [right|by rewrite <-E].
    apply andb_true_iff in Hc as [Hc _]. exists before, (drop k words). rewrite <-app_assoc. split; [done|].
    split; [done|]. by apply Nat.leb_le in Hc.
  - replace (S (length before)) with (length (before ++ [w])) by (rewrite length_app; cbn; lia).
    replace (before ++ w :: rest) with ((before ++ [w]) ++ rest) in * by (by rewrite <-app_assoc).
    apply IH; [cbn in Hf; lia|done].
Qed.

(** The words of an address, printed. *)
Definition PrintAddress (words : list Z) : list Z :=
  let '(best, n) := BestRun 8 words 0 8 0 in PrintWords 8 words 0 best n [].

Definition printed (words text : list Z) : Prop :=
  text = words_text words \/
  exists pre n post, words = pre ++ repeat 0 n ++ post /\ (2 <= n)%nat
    /\ text = words_text pre ++ Colon :: Colon :: words_text post.

Lemma glue_nil (ws : list Z) : glue [] ws = words_text ws.
Proof. by destruct ws. Qed.

Lemma glue_double (text ws : list Z) : glue (text ++ txt "::") ws = text ++ Colon :: Colon :: words_text ws.
Proof.
  destruct ws as [|w ws]; [done|]. unfold glue, sep.
  replace (text ++ txt "::") with ((text ++ [Colon]) ++ [Colon]) by (by rewrite <-app_assoc).
  rewrite last_snoc, Z.eqb_refl. by rewrite <-!app_assoc.
Qed.

Lemma print_address (words : list Z) : is_words words -> length words = 8%nat -> printed words (PrintAddress words).
Proof.
  intros Hw Hl. unfold PrintAddress. pose proof (best_run 8 words [] 8 0 ltac:(lia) ltac:(by left)) as H. cbn [length app] in H.
  destruct (BestRun 8 words 0 8 0) as [best n]. destruct H as [[= -> ->]|(pre & post & E & Hb & Hn)].
  - left. pose proof (print_prefix [] 8 0 words 0 0 [] Hw ltac:(lia)) as H. rewrite app_nil_r, Hl in H. cbn [Nat.add] in H.
    rewrite H, glue_nil. done.
  - right. exists pre, n, post. split; [done|]. split; [done|]. rewrite E in Hw, Hl.
    apply Forall_app in Hw as [Hp Hw]. apply Forall_app in Hw as [_ Hq]. rewrite !length_app, repeat_length in Hl.
    replace 8%nat with (length pre + (1 + (length post + (n - 1))))%nat by lia. rewrite E.
    rewrite print_prefix by (done || lia). cbn [Nat.add PrintWords].
    destruct (repeat 0 n ++ post) as [|z r] eqn:Er; [destruct n; [lia|done]|].
    rewrite (proj2 (Nat.eqb_eq _ best)) by lia. rewrite <-Er. rewrite drop_app_length' by (by rewrite repeat_length).
    rewrite <-(app_nil_r post) at 2. rewrite print_prefix by (done || lia). rewrite glue_nil, glue_double.
    by destruct (n - 1)%nat.
Qed.

(** ** Reading back what was printed *)

Lemma decimal_digits (n : Z) : 0 <= n <= UINT32_MAX -> Decimal (Digits n) = Some n.
Proof.
  intros Hn. unfold Decimal, from_chars_integer. pose proof (digits_value_digits n ltac:(lia)) as Hv.
  destruct (digits_spec n ltac:(lia)) as (c & cs & E & Hd & _). rewrite E in *.
  replace (len (c :: cs) =? 0) with false by (unfold len; cbn; lia).
  replace (forallb isdigit (c :: cs)) with true by (symmetry; by apply forallb_forall, List.Forall_forall).
  cbn [negb]. change (0 <? 0) with false. rewrite andb_false_r, span_digits_all by done. rewrite Hv.
  replace (len (c :: cs) =? 0) with false by (unfold len; cbn; lia).
  by replace ((n <? 0) || (UINT32_MAX <? n)) with false by lia.
Qed.

Lemma digits_absent (n c : Z) : 0 <= n -> isdigit c = false -> c ∉ Digits n.
Proof.
  intros Hn Hc Hin. pose proof (digits_all n Hn) as H. unfold all_digits in H. rewrite Forall_forall in H.
  specialize (H c Hin). congruence.
Qed.

Lemma v4_loop_text (bs : list Z) : forall n, is_bytes bs -> length bs = S n ->
  V4Loop n (join Dot (map Digits bs)) = Some bs.
Proof.
  induction bs as [|b bs IH]; intros n Hb Hl; [done|]. apply Forall_cons in Hb as [Hb Hbs]. unfold is_byte in Hb.
  assert (Hd : Dot ∉ Digits b) by (apply digits_absent; [lia|done]).
  assert (Hc : (3 <? len (Digits b)) || ((1 <? len (Digits b)) && (nth 0 (Digits b) 0 =? char_code "0")) = false).
  { pose proof (digits_length b 3 ltac:(lia) ltac:(lia)). destruct (digits_spec b ltac:(lia)) as (c & cs & E & _ & _ & Hz & _).
    rewrite E in *. cbn [nth]. eval_chars. destruct (Z.eqb_spec c 48) as [Ec|]; [|lia].
    destruct (Hz Ec) as [_ ->]. unfold len. cbn. lia. }
  assert (Hv : Decimal (Digits b) = Some b) by (apply decimal_digits; unfold UINT32_MAX; lia).
  assert (H255 : 255 <? b = false) by lia. destruct bs as [|b' bs].
  - cbn [map join]. destruct n; [|done]. cbn [V4Loop]. by rewrite cut_none, Hc, Hv, H255.
  - destruct n as [|n]; [done|].
    change (join Dot (map Digits (b :: b' :: bs))) with (Digits b ++ Dot :: join Dot (map Digits (b' :: bs))).
    cbn [V4Loop]. rewrite cut_app by done. rewrite Hc, Hv, H255, IH; [done|done|]. cbn in *; lia.
Qed.

(** An address as the class makes it: [mBytes] past the family's bytes are zero. *)
Definition well_formed (a : IpAddress) : Prop :=
  is_bytes (mBytes a) /\ length (mBytes a) = 16%nat /\ 0 <= mScopeId a <= UINT32_MAX /\
  match mFamily a with
  | Unspecified => mBytes a = repeat 0 16 /\ mScopeId a = 0
  | FamilyV4 => drop 4 (mBytes a) = repeat 0 12 /\ mScopeId a = 0
  | FamilyV6 => True
  end.

Lemma pair_words (bytes : list Z) : forall n, is_bytes bytes -> length bytes = (2 * n)%nat ->
  is_words (PairWords bytes) /\ length (PairWords bytes) = n /\ WordBytes (PairWords bytes) = bytes.
Proof.
  intros n. revert bytes. induction n as [|n IH]; intros bytes Hb Hl; [destruct bytes; [repeat split; constructor|done]|].
  destruct bytes as [|h [|l bytes]]; cbn [length] in Hl; [lia|lia|].
  apply Forall_cons in Hb as [Hh Hb]. apply Forall_cons in Hb as [Hlo Hb]. unfold is_byte in Hh, Hlo.
  destruct (IH bytes Hb ltac:(lia)) as (H1 & H2 & H3). cbn [PairWords]. rewrite lor_shiftl_add by (eval_pow; lia).
  change (2 ^ 8) with 256. split; [constructor; [unfold is_word; lia|done]|]. split; [cbn; lia|].
  unfold WordBytes in *. cbn [flat_map app]. rewrite H3. rewrite land_255, Z.shiftr_div_pow2 by lia.
  change (2 ^ 8) with 256. f_equal; [dlia|]. f_equal. dlia.
Qed.

Lemma word_array_middle (pre post : list Z) (n : nat) : (length pre + (n + length post))%nat = 8%nat ->
  WordArray pre post = pre ++ repeat 0 n ++ post.
Proof.
  intros H. unfold WordArray, write_at. rewrite take_0, !app_nil_l. rewrite Nat.add_0_l.
  replace (drop (length pre) (repeat 0 8)) with (repeat 0 n ++ repeat 0 (length post)).
  - rewrite (app_assoc pre), take_app_length' by (rewrite length_app, repeat_length; lia).
    rewrite <-app_assoc. do 2 f_equal. rewrite skipn_all2; [apply app_nil_r|].
    rewrite !length_app, !repeat_length. lia.
  - rewrite <-repeat_app, <-H, (repeat_app 0 (length pre)). by rewrite drop_app_length' by (by rewrite repeat_length).
Qed.

Lemma parse_printed (words text : list Z) : is_words words -> length words = 8%nat -> printed words text ->
  ParseWords text = Some words.
Proof.
  intros Hw Hl [->|(pre & n & post & -> & Hn & ->)]; unfold ParseWords.
  - rewrite <-(app_nil_r (words_text words)) at 1. rewrite cut_double_words by (done || (by left) || (by destruct words)).
    rewrite words_parse by (done || (unfold len; lia)). by replace (len words =? 8) with true by (unfold len; lia).
  - apply Forall_app in Hw as [Hp Hw]. apply Forall_app in Hw as [_ Hq]. rewrite !length_app, repeat_length in Hl.
    assert (Ec : cut_sub (txt "::") (words_text pre ++ Colon :: Colon :: words_text post)
      = (words_text pre, Some (words_text post))).
    { destruct pre as [|w pre]; [apply cut_double_here|]. rewrite cut_double_words by (done || (right; eauto)). done. }
    rewrite Ec. assert (Ep : (cut_sub (txt "::") (words_text post)).2 = None).
    { destruct post as [|w post]; [done|]. rewrite <-(app_nil_r (words_text _)).
      rewrite cut_double_words by (done || (by left)). done. }
    destruct (cut_sub (txt "::") (words_text post)) as [a r]. cbn in Ep. subst r.
    rewrite !words_parse by (done || (unfold len; lia)).
    replace (8 <=? len pre + len post) with false by (unfold len; lia). by rewrite word_array_middle with (n := n) by lia.
Qed.

Lemma words_text_absent (c : Z) (ws : list Z) : is_words ws -> c = Dot \/ c = Percent \/ c = Slash -> c ∉ words_text ws.
Proof.
  intros Hw Hc. induction ws as [|w ws IH]; [apply not_elem_of_nil|]. apply Forall_cons in Hw as [Hw Hws].
  pose proof (hex_text_absent w c Hw ltac:(tauto)) as Ha. destruct ws as [|w' ws]; [done|].
  rewrite words_text_cons, not_elem_of_app, not_elem_of_cons. split; [done|]. split; [|by apply IH].
  by destruct Hc as [-> |[-> | ->]].
Qed.

Lemma printed_text (words text : list Z) : is_words words -> length words = 8%nat -> printed words text ->
  Percent ∉ text /\ Slash ∉ text /\ contains Colon text = true /\ len text <= 40.
Proof.
  intros Hw Hl [->|(pre & n & post & -> & Hn & ->)].
  - destruct (words_text_length words Hw) as [_ Hlen]. split; [by apply words_text_absent; auto|].
    split; [by apply words_text_absent; auto|]. split; [|unfold len in *; lia]. apply contains_spec. destruct words as [|w [|w' ws]]; [done|done|].
    rewrite words_text_cons, elem_of_app, elem_of_cons. auto.
  - apply Forall_app in Hw as [Hp Hw]. apply Forall_app in Hw as [_ Hq]. rewrite !length_app, repeat_length in Hl.
    destruct (words_text_length pre Hp) as [_ H1], (words_text_length post Hq) as [_ H2].
    split; [|split; [|split]].
    + rewrite not_elem_of_app, !not_elem_of_cons. repeat split; try done; apply words_text_absent; auto.
    + rewrite not_elem_of_app, !not_elem_of_cons. repeat split; try done; apply words_text_absent; auto.
    + apply contains_spec. rewrite elem_of_app, elem_of_cons. auto.
    + unfold len in *. rewrite length_app. cbn [length]. lia.
Qed.

Lemma v4_text (bs : list Z) : is_bytes bs -> length bs = 4%nat ->
  let text := join Dot (map Digits bs) in
  contains Colon text = false /\ 0 < len text <= 15 /\ V4 text = Some bs.
Proof.
  intros Hb Hl text. split; [|split; [|by apply v4_loop_text]].
  - apply contains_absent. destruct bs as [|b0 [|b1 [|b2 [|b3 [|]]]]]; try done. subst text. cbn [map join].
    unfold is_bytes, is_byte in Hb. rewrite !Forall_cons in Hb. rewrite !not_elem_of_app, !not_elem_of_cons, !not_elem_of_app, !not_elem_of_cons, !not_elem_of_app, !not_elem_of_cons.
    repeat split; try done; apply digits_absent; (done || lia).
  - destruct bs as [|b0 [|b1 [|b2 [|b3 [|]]]]]; try done. subst text. cbn [map join].
    unfold is_bytes, is_byte in Hb. rewrite !Forall_cons in Hb.
    pose proof (digits_length b0 3 ltac:(lia) ltac:(lia)). pose proof (digits_length b1 3 ltac:(lia) ltac:(lia)).
    pose proof (digits_length b2 3 ltac:(lia) ltac:(lia)). pose proof (digits_length b3 3 ltac:(lia) ltac:(lia)).
    unfold len in *. rewrite !length_app. cbn [length]. rewrite !length_app. cbn [length]. rewrite !length_app. cbn [length]. lia.
Qed.

Lemma parse_v4_text (a : IpAddress) : well_formed a -> mFamily a = FamilyV4 -> Parse (ToString a) = FromValue a.
Proof.
  intros (Hb & Hl & _ & H) Hf. destruct a as [f bytes scope]. cbn [mFamily mBytes mScopeId] in *. subst f.
  destruct H as [Hd ->]. unfold ToString. cbn [mFamily mBytes].
  assert (length (take 4 bytes) = 4%nat) as Ht by (rewrite length_take; lia).
  destruct (v4_text (take 4 bytes) ltac:(auto with sc) Ht) as (Hc & Hlen & Hv). unfold Parse.
  replace ((len _ =? 0) || (64 <? len _)) with false by lia. rewrite Hc, Hv. cbn [negb].
  do 2 f_equal. unfold write_at. rewrite take_0, app_nil_l, Ht. rewrite <-(take_drop 4 bytes) at 2. by rewrite Hd.
Qed.

Lemma parse_v6_text (a : IpAddress) : well_formed a -> mFamily a = FamilyV6 -> Parse (ToString a) = FromValue a.
Proof.
  intros (Hb & Hl & Hs & _) Hf. destruct a as [f bytes scope]. cbn [mFamily mBytes mScopeId] in *. subst f.
  destruct (pair_words bytes 8 Hb Hl) as (Hw & Hw8 & Hback). unfold ToString. cbn [mFamily mBytes mScopeId].
  pose proof (print_address _ Hw Hw8) as Hp. unfold PrintAddress in Hp. destruct (BestRun 8 (PairWords bytes) 0 8 0) as [best n].
  set (text := PrintWords 8 (PairWords bytes) 0 best n []) in *.
  destruct (printed_text _ _ Hw Hw8 Hp) as (Hper & _ & Hcol & H40). pose proof (parse_printed _ _ Hw Hw8 Hp) as Hparse.
  clearbody text. assert (0 < len text) by (unfold len; destruct text; [done|cbn; lia]).
  unfold Parse. destruct (Z.eqb_spec scope 0) as [->|Hsc]; cbn [negb].
  - replace ((len text =? 0) || (64 <? len text)) with false by lia. rewrite Hcol. cbn [negb].
    rewrite cut_none by done. by rewrite Hparse, Hback.
  - pose proof (digits_length scope 10 ltac:(unfold UINT32_MAX in *; lia) ltac:(lia)).
    replace (len (text ++ [Percent] ++ Digits scope)) with (len text + 1 + len (Digits scope))
      by (unfold len; rewrite !length_app; cbn [length]; lia).
    pose proof (len_nonneg (Digits scope)). replace ((_ =? 0) || (64 <? _)) with false by lia.
    replace (contains Colon (text ++ [Percent] ++ Digits scope)) with true
      by (symmetry; apply contains_spec; apply contains_spec in Hcol; apply elem_of_app; by left).
    cbn [negb app]. rewrite cut_app by done. by rewrite decimal_digits, Hparse, Hback by done.
Qed.

(** Text round trip: the text [IpAddress::ToString] prints of any valid IPv4 or IPv6 address, with the
    longest run of zero words compressed and the scope after a percent sign, is at most 64 characters that
    [IpAddress::Parse] reads back as the same address, and [IpEndpoint::Parse] as the same endpoint. *)
Theorem address_round_trip (a : IpAddress) (port : Z) :
  well_formed a -> IsValid a = true ->
  Parse (ToString a) = FromValue a /\ ParseEndpoint (ToString a) port = FromValue (MkEndpoint a port).
Proof.
  intros Ha Hv. assert (Parse (ToString a) = FromValue a) as H.
  { destruct (mFamily a) eqn:E; [|by apply parse_v4_text|by apply parse_v6_text].
    unfold IsValid in Hv. rewrite E in Hv. done. }
  split; [done|]. unfold ParseEndpoint. by rewrite H.
Qed.

Lemma address_round_trip_witness :
  let a := MkAddress FamilyV6 [254; 128; 0; 0; 0; 0; 0; 0; 0; 0; 0; 0; 0; 0; 0; 1] 7 in
  ToString a = txt "fe80::1%7" /\ Parse (txt "fe80::1%7") = FromValue a.
Proof.
  intros a. split; [reflexivity|]. refine (proj1 (address_round_trip a 0 _ eq_refl)). split; [|split; [done|split; [|done]]].
  - repeat constructor; cbn; lia.
  - unfold UINT32_MAX. cbn. lia.
Defined.

(** ** What is read is an address *)

Lemma decimal_range (text : list Z) (v : Z) : Decimal text = Some v -> 0 <= v <= UINT32_MAX.
Proof.
  unfold Decimal. destruct (len text =? 0); [done|]. destruct (negb _); [done|].
  unfold from_chars_integer. change (0 <? 0) with false.
  destruct (match text with [] => _ | _ :: _ => _ end) as [negative body]. destruct (span_digits body) as [ds rest].
  destruct (len ds =? 0); [done|]. destruct (_ || _) eqn:E; [done|]. destruct rest; [|done]. intros [= <-]. lia.
Qed.

Lemma v4_loop_bytes (n : nat) : forall text bs, V4Loop n text = Some bs -> is_bytes bs /\ length bs = S n.
Proof.
  induction n as [|n IH]; intros text bs; cbn [V4Loop]; destruct (cut Dot text) as [part rest];
    (destruct (_ || _); [done|]); (destruct (Decimal part) as [v|] eqn:Ed; [|done]); apply decimal_range in Ed;
    (destruct (255 <? v) eqn:Ev; [done|]); assert (is_byte v) by (unfold is_byte; lia).
  - destruct rest; [done|]. intros [= <-]. split; [constructor; [done|constructor]|done].
  - destruct rest as [rest|]; [|done]. destruct (V4Loop n rest) as [bs'|] eqn:E; [|done]. intros [= <-].
    destruct (IH _ _ E). split; [by constructor|]. cbn. lia.
Qed.

Lemma hex_word_bound (part : list Z) : forall v w n, 0 <= v < 16 ^ Z.of_nat n -> HexWord part v = Some w ->
  0 <= w < 16 ^ Z.of_nat (n + length part).
Proof.
  induction part as [|c part IH]; intros v w n Hv; cbn [HexWord length]; [intros [= <-]; by rewrite Nat.add_0_r|].
  destruct (HexDigit c) as [h|] eqn:Eh; [|done]. assert (0 <= h < 16).
  { unfold HexDigit in Eh. eval_chars. revert Eh. case_ifs; intros [= <-]; lia. }
  rewrite lor_shiftl_add by (eval_pow; lia). change (2 ^ 4) with 16. intros Hx.
  replace (n + S (length part))%nat with (S n + length part)%nat by lia. eapply IH; [|exact Hx].
  rewrite Nat2Z.inj_succ, Z.pow_succ_r by lia. lia.
Qed.

Lemma words_loop_words (allowV4 : bool) (fuel : nat) : forall text words ws,
  is_words words -> (length words <= 8)%nat -> WordsLoop fuel allowV4 text words = Some ws ->
  is_words ws /\ (length ws <= 8)%nat.
Proof.
  induction fuel as [|fuel IH]; intros text words ws Hw Hl; cbn [WordsLoop]; [done|].
  destruct (cut Colon text) as [part rest]. destruct (_ || _) eqn:E8; [done|]. unfold len in E8.
  assert (length words < 8)%nat by lia. destruct (contains Dot part).
  - destruct (_ || (6 <? len words)) eqn:E6; [done|]. apply orb_false_iff in E6 as [_ E6]. unfold len in E6. assert (length words <= 6)%nat by lia.
    destruct (V4 part) as [bs|] eqn:Ev; [|done]. apply v4_loop_bytes in Ev as [Hb _].
    destruct bs as [|b0 [|b1 [|b2 [|b3 [|]]]]]; try done. intros [= <-].
    unfold is_bytes, is_byte in Hb. rewrite !Forall_cons in Hb. split; [|rewrite length_app; cbn; lia].
    rewrite !lor_shiftl_add by (eval_pow; lia). change (2 ^ 8) with 256.
    apply Forall_app. split; [done|]. repeat constructor; unfold is_word; lia.
  - destruct (4 <? len part) eqn:E4; [done|]. destruct (HexWord part 0) as [v|] eqn:Ev; [|done].
    apply hex_word_bound with (n := 0%nat) in Ev; [|lia]. cbn [Nat.add] in Ev. unfold len in E4.
    assert (is_words (words ++ [v]) /\ (length (words ++ [v]) <= 8)%nat) as [H1 H2].
    { split; [|rewrite length_app; cbn; lia]. apply Forall_app. split; [done|]. repeat constructor; [lia|].
      pose proof (Z.pow_le_mono_r 16 (Z.of_nat (length part)) 4 ltac:(lia) ltac:(lia)). lia. }
    destruct rest as [rest|]; [|by intros [= <-]]. destruct (len rest =? 0); [done|]. intros H'. by eapply IH.
Qed.

Lemma words_words (text : list Z) (allowV4 : bool) (ws : list Z) : Words text allowV4 = Some ws ->
  is_words ws /\ (length ws <= 8)%nat.
Proof.
  unfold Words. destruct (len text =? 0); [intros [= <-]; split; [constructor|cbn; lia]|].
  apply words_loop_words; [constructor|cbn; lia].
Qed.

Lemma parse_words_words (text ws : list Z) : ParseWords text = Some ws -> is_words ws /\ length ws = 8%nat.
Proof.
  unfold ParseWords. destruct (cut_sub (txt "::") text) as [before [after|]].
  - destruct (cut_sub (txt "::") after) as [? [?|]]; [done|].
    destruct (Words before false) as [ls|] eqn:El; [|done]. destruct (Words after true) as [rs|] eqn:Er; [|done].
    apply words_words in El as [Hl _], Er as [Hr _]. destruct (8 <=? _) eqn:E; [done|]. intros [= <-].
    unfold len in E. rewrite word_array_middle with (n := (8 - length ls - length rs)%nat) by lia. split.
    + apply Forall_app. split; [done|]. apply Forall_app. split; [|done]. apply List.Forall_forall.
      intros w Hin. apply repeat_spec in Hin as ->. unfold is_word. lia.
    + rewrite !length_app, repeat_length. lia.
  - destruct (Words text true) as [words|] eqn:E; [|done]. apply words_words in E as [H _].
    destruct (len words =? 8) eqn:E8; [|done]. intros [= <-]. unfold len in E8. split; [done|lia].
Qed.

Lemma word_bytes (ws : list Z) : is_words ws -> is_bytes (WordBytes ws) /\ length (WordBytes ws) = (2 * length ws)%nat.
Proof.
  induction ws as [|w ws IH]; intros H; [split; [constructor|done]|]. apply Forall_cons in H as [Hw H].
  destruct (IH H) as [H1 H2]. unfold WordBytes in *. cbn [flat_map app length]. rewrite land_255, Z.shiftr_div_pow2 by lia.
  unfold is_word in Hw. split; [|lia]. constructor; [unfold is_byte; change (2 ^ 8) with 256; dlia|].
  constructor; [unfold is_byte; dlia|done].
Qed.

Lemma from_bytes_well_formed (f : IpFamily) (bytes : list Z) (scope : Z) (a : IpAddress) :
  is_bytes bytes -> 0 <= scope <= UINT32_MAX -> FromBytes f bytes scope = FromValue a ->
  well_formed a /\ mFamily a = f /\ IsValid a = true /\ Bytes a = bytes /\ mScopeId a = scope.
Proof.
  intros Hb Hs. unfold FromBytes. case_if; [done|]. intros [= <-].
  rewrite !orb_false_iff in E. destruct E as [[E1 E2] E3]. apply bool_decide_eq_false in E1.
  assert (Hz : is_bytes (repeat 0 16)) by (repeat constructor; unfold is_byte; lia).
  unfold well_formed, Bytes, IsValid, write_at. cbn [mFamily mBytes mScopeId]. rewrite take_0, app_nil_l.
  apply negb_false_iff in E2. apply Z.eqb_eq in E2. unfold len in E2.
  destruct f; [done| |]; cbn [length] in E2, E3; [rewrite (bool_decide_eq_true_2 (FamilyV4 = FamilyV4)) in E2, E3 by done|].
  - destruct bytes as [|b0 [|b1 [|b2 [|b3 [|]]]]]; try (cbn [length] in E2; lia). apply negb_false_iff in E3.
    split; [|done]. split; [apply is_bytes_app; split; [done|auto with sc]|]. split; [done|]. split; [done|]. split; [done|lia].
  - rewrite (bool_decide_eq_false_2 (FamilyV6 = FamilyV4)) in E2 by done. assert (length bytes = 16%nat) as Hl by lia. rewrite Hl. cbn [Nat.add]. change (drop 16 (repeat 0 16)) with (@nil Z).
    rewrite app_nil_r. do 3 (split; [done|]). split; [|done]. by rewrite <-Hl, firstn_all.
Qed.

(** The IPv6 address, without a scope, into which the octets [q] of an IPv4 address are mapped. *)
Definition mapped_address (q : list Z) : IpAddress := MkAddress FamilyV6 (repeat 0 10 ++ 255 :: 255 :: q) 0.

Lemma mapped_inv (a : IpAddress) : length (mBytes a) = 16%nat -> IsV4Mapped a = true -> mScopeId a = 0 ->
  exists q, length q = 4%nat /\ a = mapped_address q.
Proof.
  destruct a as [f bs sc]. unfold IsV4Mapped, mapped_address. cbn [mFamily mBytes mScopeId]. intros Hl Hm ->.
  apply andb_true_iff in Hm as [[[Hf Hz]%andb_true_iff H10]%andb_true_iff H11]. apply bool_decide_eq_true in Hf. subst f.
  exists (drop 12 bs). split; [rewrite length_drop; lia|]. f_equal.
  do 16 (destruct bs as [|? bs]; [discriminate|]). destruct bs; [|discriminate].
  cbn [take forallb nth] in *. apply Z.eqb_eq in H10, H11. rewrite !andb_true_iff, !Z.eqb_eq in Hz. cbn [drop repeat app]. naive_solver.
Qed.

Lemma normalized_mapped (q : list Z) : length q = 4%nat ->
  Normalized (mapped_address q) = MkAddress FamilyV4 (q ++ repeat 0 12) 0.
Proof.
  intros Hq. do 4 (destruct q as [|? q]; [discriminate|]). destruct q; [|discriminate]. reflexivity.
Qed.

Lemma normalized_other (a : IpAddress) : length (mBytes a) = 16%nat ->
  (forall q, length q = 4%nat -> a <> mapped_address q) -> Normalized a = a.
Proof.
  intros Hl Hn. unfold Normalized. destruct (negb _ || _) eqn:E; [done|]. apply orb_false_iff in E as [E1%negb_false_iff E2%negb_false_iff%Z.eqb_eq].
  destruct (mapped_inv a Hl E1 E2) as (q & Hq & Ha). by destruct (Hn q Hq).
Qed.

(** C39. Every address the class makes is well formed: whatever the text, the address [IpAddress::Parse] returns
    has a family, sixteen octets, zeros past the four of an IPv4 address, whose scope is zero, and a scope of 32
    bits; [FromBytes] keeps the family, the bytes and the scope it is given.  [Normalized] turns an IPv4-mapped
    address without a scope into the IPv4 address of its last four octets and leaves every other address, the
    unspecified one included, as it is, so that it keeps addresses well formed, gives an address with a family just
    when it gets one, and leaves no mapped address unless it has a scope. *)
Theorem address_well_formed (text bytes : list Z) (f : IpFamily) (scope : Z) (a : IpAddress) :
  (Parse text = FromValue a -> well_formed a /\ IsValid a = true)
  /\ (is_bytes bytes -> 0 <= scope <= UINT32_MAX -> FromBytes f bytes scope = FromValue a ->
      well_formed a /\ mFamily a = f /\ IsValid a = true /\ Bytes a = bytes /\ mScopeId a = scope)
  /\ (forall q, length q = 4%nat -> Normalized (mapped_address q) = MkAddress FamilyV4 (q ++ repeat 0 12) 0)
  /\ (well_formed a -> (forall q, length q = 4%nat -> a <> mapped_address q) -> Normalized a = a)
  /\ (well_formed a -> well_formed (Normalized a) /\ IsValid (Normalized a) = IsValid a
      /\ (IsV4Mapped (Normalized a) = true -> mScopeId a <> 0)).
Proof.
  split; [|split; [apply from_bytes_well_formed|split; [exact normalized_mapped|split; [intros Ha; apply normalized_other, Ha|]]]].
  - unfold Parse. destruct (_ || _); [done|]. destruct (contains Colon text); cbn [negb].
    + destruct (cut Percent text) as [address zone]. destruct (match zone with Some _ => _ | None => _ end) as [sc|] eqn:Es; [|done].
      destruct (ParseWords address) as [ws|] eqn:Ew; [|done]. intros [= <-]. apply parse_words_words in Ew as [Hw Hl].
      destruct (word_bytes ws Hw) as [Hb Hbl]. split; [|done]. split; [done|]. split; [cbn; lia|]. split; [|done].
      cbn. destruct zone; [by apply decimal_range in Es|]. injection Es as <-. unfold UINT32_MAX. lia.
    + destruct (V4 text) as [bs|] eqn:Ev; [|done]. apply v4_loop_bytes in Ev as [Hb Hl]. intros [= <-].
      assert (FromBytes FamilyV4 bs 0 = FromValue (MkAddress FamilyV4 (write_at 0 bs (repeat 0 16)) 0)) as H.
      { unfold FromBytes. by replace (len bs =? _) with true by (unfold len; rewrite Hl; done). }
      apply from_bytes_well_formed in H; [tauto|done|unfold UINT32_MAX; lia].
  - intros Ha. unfold Normalized. destruct (_ || _) eqn:E.
    + split; [done|]. split; [done|]. intros Hm. rewrite Hm in E. cbn in E. lia.
    + destruct (FromBytes _ _ _) as [b|] eqn:Eb; [|exfalso; revert Eb; unfold FromBytes, len].
      2: { by rewrite length_slice by (rewrite (proj1 (proj2 Ha)); lia). }
      apply from_bytes_well_formed in Eb as (Hb & Hf & Hv & _); [|apply is_bytes_slice, Ha|unfold UINT32_MAX; lia].
      apply orb_false_iff in E as [E%negb_false_iff _]. unfold IsV4Mapped in E. apply andb_true_iff in E as [[[E _]%andb_true_iff _]%andb_true_iff _].
      apply bool_decide_eq_true in E. split; [done|]. split; [unfold IsValid in *; by rewrite Hf, E|]. unfold IsV4Mapped. by rewrite Hf.
Qed.

Lemma address_well_formed_witness :
  let a := mapped_address [10; 0; 0; 1] in
  Parse (txt "::ffff:10.0.0.1") = FromValue a /\ well_formed a /\ IsValid NoAddress = false
  /\ Normalized a = MkAddress FamilyV4 [10; 0; 0; 1; 0; 0; 0; 0; 0; 0; 0; 0; 0; 0; 0; 0] 0
  /\ Normalized (MkAddress FamilyV6 (mBytes a) 7) = MkAddress FamilyV6 (mBytes a) 7.
Proof.
  intros a. pose proof (address_well_formed (txt "::ffff:10.0.0.1") [] FamilyV4 0 a) as (H1 & _ & H3 & _).
  split; [reflexivity|]. split; [exact (proj1 (H1 eq_refl))|]. split; [reflexivity|]. split; [exact (H3 [10; 0; 0; 1] eq_refl)|reflexivity].
Defined.

(** ** Networks *)

(** The bits of an address from the most significant one. *)
Definition address_bit (bytes : list Z) (i : Z) : bool :=
  Z.testbit (nth (Z.to_nat (i / 8)) bytes 0) (7 - i mod 8).

Lemma mask_remaining (r j : Z) : 0 <= j < 8 ->
  Z.testbit (if 8 <=? r then 255 else if r =? 0 then 0 else Z.land (Z.shiftl 255 (8 - r)) 255) j
  = (0 <=? r) && (7 - j <? r) || (r <? 0) && Z.testbit (Z.land (Z.shiftl 255 (8 - r)) 255) j.
Proof.
  intros Hj. change 255 with (Z.ones 8). destruct (8 <=? r) eqn:E8.
  - rewrite Z.testbit_ones_nonneg by lia. lia.
  - destruct (Z.eqb_spec r 0) as [->|]; [rewrite Z.testbit_0_l; lia|].
    destruct (r <? 0) eqn:E0; [by replace (0 <=? r) with false by lia|]. cbn [andb]. rewrite orb_false_r.
    rewrite Z.land_spec, Z.shiftl_spec, (Z.testbit_ones_nonneg 8 j) by lia. rewrite Z.testbit_ones by lia. lia.
Qed.

Lemma mask_bit (prefix : Z) (index : nat) (j : Z) : 0 <= j < 8 ->
  Z.testbit (Mask prefix index) j = (Z.of_nat index * 8 + (7 - j) <? prefix).
Proof.
  intros Hj. unfold Mask. rewrite mask_remaining by done. destruct (_ <? prefix) eqn:E.
  - replace (prefix - Z.of_nat index * 8 <? 0) with false by lia. cbn [andb]. lia.
  - change (0 <? 0) with false. cbn [andb]. lia.
Qed.

Lemma mask_range (prefix : Z) (index : nat) : is_byte (Mask prefix index).
Proof.
  unfold Mask, is_byte. destruct (8 <=? _); [lia|]. destruct (_ =? 0); [lia|]. rewrite land_255.
  apply Z.mod_pos_bound. lia.
Qed.

(** Two octets agree under a mask when the bits it covers agree. *)
Lemma byte_land_eq (x y m : Z) : is_byte m ->
  Z.land x m = Z.land y m <-> (forall j, 0 <= j < 8 -> Z.testbit m j = true -> Z.testbit x j = Z.testbit y j).
Proof.
  unfold is_byte. intros Hm. split.
  - intros H j Hj Hb. apply (f_equal (fun z => Z.testbit z j)) in H. rewrite !Z.land_spec, Hb, !andb_true_r in H. done.
  - intros H. apply Z.bits_inj'. intros j Hj. rewrite !Z.land_spec. destruct (Z.testbit m j) eqn:E; [|by rewrite !andb_false_r].
    rewrite !andb_true_r. apply H; [|done]. split; [done|]. destruct (Z.lt_ge_cases j 8) as [|Hge]; [done|].
    destruct (decide (m = 0)) as [->|]; [by rewrite Z.testbit_0_l in E|].
    rewrite Z.bits_above_log2 in E; [done|lia|]. assert (Z.log2 m < 8); [|lia]. apply Z.log2_lt_pow2; lia.
Qed.

Lemma forallb_masks (prefix : Z) (xs ys : list Z) (k : nat) : prefix <= 8 * Z.of_nat k ->
  forallb (fun index => Z.land (nth index xs 0) (Mask prefix index) =? Z.land (nth index ys 0) (Mask prefix index)) (seq 0 k)
    = true
  <-> (forall i, 0 <= i < prefix -> address_bit xs i = address_bit ys i).
Proof.
  intros Hp. rewrite forallb_forall. setoid_rewrite Z.eqb_eq. setoid_rewrite in_seq.
  setoid_rewrite byte_land_eq; [|apply mask_range]. split.
  - intros H i Hi. unfold address_bit. apply H; [dlia|dlia|]. rewrite mask_bit by dlia. dlia.
  - intros H index Hx j Hj Hm. rewrite mask_bit in Hm by done. specialize (H (Z.of_nat index * 8 + (7 - j)) ltac:(lia)).
    unfold address_bit in H. replace (Z.to_nat _) with index in H by dlia.
    by replace (7 - _) with j in H by dlia.
Qed.

(** Masking keeps the bits of the prefix. *)
Lemma masked_nth (prefix : Z) (k : nat) (bytes : list Z) (index : nat) : (index < length bytes)%nat ->
  nth index (imap (fun index byte => if (index <? k)%nat then Z.land byte (Mask prefix index) else byte) bytes) 0
  = if (index <? k)%nat then Z.land (nth index bytes 0) (Mask prefix index) else nth index bytes 0.
Proof.
  intros Hi. rewrite nth_lookup, list_lookup_imap. destruct (lookup_lt_is_Some_2 bytes index Hi) as [b Hb].
  rewrite Hb. cbn. by rewrite nth_lookup, Hb.
Qed.

Lemma masked_bit (prefix : Z) (k : nat) (bytes : list Z) (i : Z) : 0 <= i < prefix -> i < 8 * len bytes ->
  address_bit (imap (fun index byte => if (index <? k)%nat then Z.land byte (Mask prefix index) else byte) bytes) i
  = address_bit bytes i.
Proof.
  intros Hi Hl. unfold address_bit, len in *. rewrite masked_nth by dlia. destruct (_ <? k)%nat; [|done].
  rewrite Z.land_spec, mask_bit by dlia. replace (_ <? prefix) with true by dlia. apply andb_true_r.
Qed.

Definition width (a : IpAddress) : Z := if bool_decide (mFamily a = FamilyV4) then 32 else 128.

Lemma bytes_width (a : IpAddress) : well_formed a -> IsValid a = true -> width a = 8 * Z.of_nat (length (Bytes a)).
Proof.
  intros (_ & Hl & _) Hv. unfold width, IsValid, Bytes in *. destruct (mFamily a); [done| |]; rewrite length_take, Hl; done.
Qed.

Lemma text_separators (a : IpAddress) (c : Z) : well_formed a -> mScopeId a = 0 -> c = Slash \/ c = Percent -> c ∉ ToString a.
Proof.
  intros (Hb & Hl & _) Hs Hc. unfold ToString. destruct (mFamily a) eqn:Ef; [apply not_elem_of_nil| |].
  - assert (isdigit c = false /\ c <> Dot) as [Hd Hn] by (by destruct Hc as [-> | ->]).
    assert (is_bytes (take 4 (mBytes a))) as H by auto with sc. revert H. generalize (take 4 (mBytes a)). intros bs H.
    induction bs as [|b bs IH]; [apply not_elem_of_nil|]. apply Forall_cons in H as [H1 H]. unfold is_byte in H1.
    assert (c ∉ Digits b) by (apply digits_absent; [lia|done]). destruct bs as [|b' bs]; [done|].
    change (join Dot (map Digits (b :: b' :: bs))) with (Digits b ++ Dot :: join Dot (map Digits (b' :: bs))).
    rewrite not_elem_of_app, not_elem_of_cons. auto.
  - destruct (pair_words (mBytes a) 8 Hb Hl) as (Hw & Hw8 & _). pose proof (print_address _ Hw Hw8) as Hp.
    unfold PrintAddress in Hp. destruct (BestRun 8 _ 0 8 0) as [best n]. rewrite Hs. cbn [negb Z.eqb].
    destruct (printed_text _ _ Hw Hw8 Hp) as (H1 & H2 & _). by destruct Hc as [-> | ->].
Qed.

(** The network that a text in CIDR notation names. *)
Lemma parse_network_text (a : IpAddress) (p : Z) :
  well_formed a -> IsValid a = true -> mScopeId a = 0 -> 0 <= p <= width a ->
  ParseNetwork (ToString a ++ [Slash] ++ Digits p)
  = FromValue (MkNetwork (MkAddress (mFamily a)
      (imap (fun index byte => if (index <? length (Bytes a))%nat then Z.land byte (Mask p index) else byte) (mBytes a))
      (mScopeId a)) p).
Proof.
  intros Ha Hv Hs Hp. unfold ParseNetwork. change ([Slash] ++ Digits p) with (Slash :: Digits p).
  rewrite cut_app by (apply text_separators; auto). assert (p <= 128) by (unfold width in Hp; destruct (bool_decide _); lia).
  rewrite contains_absent.
  - assert (Parse (ToString a) = FromValue a) as ->.
    { destruct (mFamily a) eqn:E; [|by apply parse_v4_text|by apply parse_v6_text]. unfold IsValid in Hv. by rewrite E in Hv. }
    rewrite decimal_digits by (unfold UINT32_MAX; lia). fold (width a). by replace (width a <? p) with false by lia.
  - rewrite not_elem_of_app, not_elem_of_cons. split; [apply text_separators; auto|]. split; [done|].
    apply digits_absent; [lia|done].
Qed.

(** CIDR membership: [IpNetwork::Parse] of the text of an address without a scope, a slash and a prefix
    length within the address gives a network that [Contains] exactly the addresses of the same family whose
    first bits, as many as the prefix has, are those of the written address, whatever its host bits. *)
Theorem network_membership (a b : IpAddress) (p : Z) :
  well_formed a -> IsValid a = true -> mScopeId a = 0 -> 0 <= p <= width a -> well_formed b ->
  exists n, ParseNetwork (ToString a ++ [Slash] ++ Digits p) = FromValue n /\
    (Contains n b = true <->
     mFamily b = mFamily a /\ (forall i, 0 <= i < p -> address_bit (mBytes b) i = address_bit (mBytes a) i)).
Proof.
  intros Ha Hv Hs Hp Hb. eexists. split; [by apply parse_network_text|]. unfold Contains. cbn [mAddress mPrefix mFamily mBytes].
  replace (IsValid _) with true by done. cbn [negb orb]. destruct (decide (mFamily b = mFamily a)) as [E|E].
  - rewrite (bool_decide_eq_true_2 _ E). cbn [negb]. pose proof (bytes_width a Ha Hv) as Hwa.
    assert (length (Bytes b) = length (Bytes a)) as El.
    { unfold Bytes. rewrite E. destruct (mFamily a); [done| |]; rewrite !length_take, (proj1 (proj2 Ha)), (proj1 (proj2 Hb)); done. }
    rewrite forallb_masks by lia.
    assert (width a <= 128) by (unfold width; destruct (bool_decide _); lia).
    assert (Hl : len (mBytes a) = 16) by (unfold len; rewrite (proj1 (proj2 Ha)); done).
    split; [intros Hx; split; [done|]|intros [_ Hx]]; intros i Hi; specialize (Hx i Hi); rewrite masked_bit in * by lia; done.
  - rewrite (bool_decide_eq_false_2 _ E). cbn [negb]. split; [done|]. by intros [? _].
Qed.

Lemma network_membership_witness :
  exists n, ParseNetwork (txt "10.1.2.3/12") = FromValue n
    /\ Contains n (MkAddress FamilyV4 [10; 15; 9; 9; 0; 0; 0; 0; 0; 0; 0; 0; 0; 0; 0; 0] 0) = true
    /\ Contains n (MkAddress FamilyV4 [10; 16; 9; 9; 0; 0; 0; 0; 0; 0; 0; 0; 0; 0; 0; 0] 0) = false.
Proof.
  destruct (network_membership (MkAddress FamilyV4 [10; 1; 2; 3; 0; 0; 0; 0; 0; 0; 0; 0; 0; 0; 0; 0] 0)
    (MkAddress FamilyV4 [10; 15; 9; 9; 0; 0; 0; 0; 0; 0; 0; 0; 0; 0; 0; 0] 0) 12) as (n & H & _);
    try (split; [apply bytesb_iff; reflexivity|split; [reflexivity|split; [unfold UINT32_MAX; cbn; lia|split; reflexivity]]]);
    [reflexivity|reflexivity|vm_compute; split; discriminate|].
  exists n. split; [exact H|]. vm_compute in H. injection H as <-. split; reflexivity.
Defined.
