(* ===== verification/PolicyInternal.v ===== *)
(** * Web: helpers of the policies.

    [Web/PolicyInternal.h]: the case-insensitive comparison, trimming, tokens, ports and authorities that
    the proxy and the request policies share. *)

From S2P Require Import Prelude CoreError RequestData Charconv Endpoint.
Import Charconv.

Module Policy.

Definition HttpHeaders : Type := list (list Z * list Z).

Definition LowerAscii (c : Z) : Z :=
  if (char_code "A" <=? c) && (c <=? char_code "Z") then c + (char_code "a" - char_code "A") else c.

Definition Lower (text : list Z) : list Z := map LowerAscii text.

Definition Same (a b : list Z) : bool :=
  (length a =? length b)%nat && forallb (fun p => LowerAscii p.1 =? LowerAscii p.2) (combine a b).

Definition Trim (s : list Z) : list Z := RequestData.Trim s.

Definition Token (text : list Z) : bool :=
  negb (len text =? 0)
  && forallb (fun c => ((char_code "0" <=? c) && (c <=? char_code "9"))
                       || ((char_code "a" <=? c) && (c <=? char_code "z"))
                       || ((char_code "A" <=? c) && (c <=? char_code "Z"))
                       || existsb (Z.eqb c) (txt "!#$%&'*+-.^_`|~")) text.

Definition HeaderValue (text : list Z) : bool :=
  forallb (fun c => negb (((c <? 32) && negb (c =? 9)) || (c =? 127))) text.

Definition Port (text : list Z) : option Z :=
  match from_chars_integer 0 UINT32_MAX text with
  | (errc_ok, [], parsed) => if (len text =? 0) || (65535 <? parsed) then None else Some parsed
  | _ => None
  end.

Definition IsPort (text : list Z) : bool := match Port text with Some _ => true | None => false end.

Definition AuthorityChar (c : Z) : bool :=
  negb ((c <=? 32) || (127 <=? c) || existsb (Z.eqb c) (txt "/@\?#,;" ++ [34])).

Definition HostChar (c : Z) : bool :=
  (c =? char_code ".") || (c =? char_code "-") || ((char_code "0" <=? c) && (c <=? char_code "9"))
  || ((char_code "a" <=? LowerAscii c) && (LowerAscii c <=? char_code "z")).

Definition HostName (host : list Z) : bool := negb (len host =? 0) && forallb HostChar host.

Definition Authority (text : list Z) : bool :=
  if (len text =? 0) || (255 <? len text) then false
  else if negb (forallb AuthorityChar text) then false
  else if nth 0 text 0 =? char_code "[" then
    match cut (char_code "]") text with
    | (_, None) => false
    | (before, Some after) =>
        if len before <? 2 then false
        else
          match Endpoint.Parse (drop 1 before) with
          | FromStatus _ => false
          | FromValue ip =>
              if negb (bool_decide (Endpoint.mFamily ip = Endpoint.FamilyV6)) || negb (Endpoint.mScopeId ip =? 0) then false
              else
                match after with
                | [] => true
                | c :: port => (c =? char_code ":") && IsPort port
                end
          end
    end
  else
    match cut (char_code ":") text with
    | (host, None) => HostName host
    | (host, Some port) => IsPort port && HostName host
    end.

(** [SetHeader]: a cookie is added, another header is replaced. *)
Definition SetHeader (headers : HttpHeaders) (name value : list Z) : HttpHeaders :=
  (if negb (Same name (txt "set-cookie")) then List.filter (fun item => negb (Same item.1 name)) headers else headers)
  ++ [(name, value)].

End Policy.
Import Policy.

(** ** Comparison without case *)

Lemma same_iff (a b : list Z) : Same a b = true <-> Lower a = Lower b.
Proof.
  unfold Same, Lower. revert b. induction a as [|x a IH]; intros [|y b]; cbn; try done.
  specialize (IH b). rewrite !andb_true_iff in *. rewrite Z.eqb_eq. split.
  - intros (Hl & He & H). f_equal; [done|]. by apply IH.
  - intros [= He H]. apply IH in H. tauto.
Qed.

Lemma same_text_refl (a : list Z) : Same a a = true.
Proof. by apply same_iff. Qed.

Lemma same_sym (a b : list Z) : Same a b = Same b a.
Proof. apply Bool.eq_iff_eq_true. rewrite !same_iff. split; congruence. Qed.

Lemma same_trans (a b c : list Z) : Same a b = true -> Same b c = true -> Same a c = true.
Proof. rewrite !same_iff. congruence. Qed.

(** ** Trimming *)

Definition solid (s : list Z) : Prop :=
  match last s with Some c => RequestData.Blank c = false | None => False end.

Lemma trim_front_app (s t : list Z) (c : Z) : RequestData.Blank c = false ->
  RequestData.TrimFront (s ++ c :: t) = RequestData.TrimFront s ++ c :: t.
Proof.
  intros Hc. induction s as [|x s IH]; cbn [app RequestData.TrimFront]; [by rewrite Hc|].
  by destruct (RequestData.Blank x).
Qed.

Lemma trim_solid_front (s : list Z) : solid s -> Trim s = RequestData.TrimFront s.
Proof.
  unfold solid. intros H. destruct (last s) as [c|] eqn:E; [|done]. apply last_Some in E as [t ->].
  unfold Trim, RequestData.Trim. rewrite trim_front_app by done. rewrite rev_app_distr. cbn [rev app RequestData.TrimFront].
  rewrite H. cbn [rev]. by rewrite rev_involutive.
Qed.

(** Before a text that starts and ends with other characters, the trimming is of the front only. *)
Lemma trim_before (s t : list Z) (c : Z) : RequestData.Blank c = false -> solid (c :: t) ->
  Trim (s ++ c :: t) = RequestData.TrimFront s ++ c :: t.
Proof.
  intros Hc Ht. rewrite trim_solid_front; [by apply trim_front_app|]. unfold solid in *. by rewrite last_app_cons.
Qed.

Lemma trim_front_suffix (s : list Z) : exists b, s = b ++ RequestData.TrimFront s.
Proof.
  induction s as [|c s [b IH]]; [by exists []|]. cbn. destruct (RequestData.Blank c); [|by exists []].
  exists (c :: b). cbn. by f_equal.
Qed.

Lemma trim_front_in (s : list Z) (c : Z) : RequestData.Blank c = false -> c ∈ RequestData.TrimFront s <-> c ∈ s.
Proof.
  intros Hc. induction s as [|x s IH]; cbn [RequestData.TrimFront]; [done|]. destruct (RequestData.Blank x) eqn:E; [|done].
  rewrite IH, elem_of_cons. split; [auto|]. intros [->|]; [congruence|done].
Qed.

Lemma trim_in (s : list Z) (c : Z) : RequestData.Blank c = false -> c ∈ Trim s <-> c ∈ s.
Proof.
  intros Hc. unfold Trim, RequestData.Trim. rewrite <-(trim_front_in s c Hc). rewrite !list_elem_of_In, <-in_rev.
  rewrite <-!list_elem_of_In, trim_front_in by done. by rewrite !list_elem_of_In, <-in_rev.
Qed.
