(* ===== verification/TrustedProxy.v ===== *)
(** * Web: trusted proxies.

    [Web/TrustedProxy.cpp]: the client address behind trusted reverse proxies, from [Forwarded] or
    [X-Forwarded-*] headers, walked from the right.  The [try] block's failures of allocation are not
    modelled; the loops of [ParseForwarded] have the length of their text as fuel, every round consuming
    an equals sign ([hops_fuel]). *)

From S2P Require Import Prelude CoreError RequestData Charconv Endpoint PolicyInternal.
Import Policy Endpoint.

Module TrustedProxy.

Inductive ProxyHeaderMode : Type := Forwarded | XForwarded.

#[global] Instance ProxyHeaderMode_eq_dec : EqDecision ProxyHeaderMode.
Proof. solve_decision. Defined.

Record TrustedProxyOptions : Type := MkOptions {
  trustedNetworks : list IpNetwork;
  mode : ProxyHeaderMode;
  maxHops : Z;
  maxHeaderBytes : Z;
  acceptProto : bool;
  acceptHost : bool;
  normalizeMappedIpv4 : bool
}.

Record ProxyPeer : Type := MkPeer {
  transportPeer : IpEndpoint;
  client : IpEndpoint;
  acceptedHops : Z;
  proto : list Z;
  host : list Z
}.

Record Hop : Type := MkHop { hopNode : list Z; hopProto : list Z; hopHost : list Z }.

Definition Fail {T : Type} (code : ErrorCode) : Result T := FromStatus (Status.FailWithoutMessage code).

Definition Comma : Z := char_code ",".
Definition Semicolon : Z := char_code ";".
Definition Equal : Z := char_code "=".
Definition Quote : Z := 34.
Definition Backslash : Z := 92.

(** A quoted value after its opening quote: what it means and what follows it. *)
Fixpoint QuotedValue (value parsed : list Z) : option (list Z * list Z) :=
  let control c := (c <? 32) || (127 <=? c) in
  match value with
  | [] => None
  | c :: value =>
      if c =? Quote then Some (parsed, value)
      else if c =? Backslash then
        match value with
        | [] => None
        | c :: value => if control c then None else QuotedValue value (parsed ++ [c])
        end
      else if control c then None
      else QuotedValue value (parsed ++ [c])
  end.

Definition Ends (c : Z) : bool := existsb (Z.eqb c) (txt ";, " ++ [9]).

(** Up to the first of [;, \t]. *)
Fixpoint TokenValue (value : list Z) : list Z * list Z :=
  match value with
  | [] => ([], [])
  | c :: rest => if Ends c then ([], value) else let '(token, rest) := TokenValue rest in (c :: token, rest)
  end.

Definition PairValue (value : list Z) : option (list Z * list Z) :=
  match value with
  | c :: rest =>
      if c =? Quote then QuotedValue rest []
      else let '(token, rest) := TokenValue value in if Token token then Some (token, rest) else None
  | [] => None
  end.

Definition SetField (hop : Hop) (name parsed : list Z) : Hop :=
  if bytes_eqb name (txt "for") then MkHop parsed (hopProto hop) (hopHost hop)
  else if bytes_eqb name (txt "proto") then MkHop (hopNode hop) parsed (hopHost hop)
  else if bytes_eqb name (txt "host") then MkHop (hopNode hop) (hopProto hop) parsed
  else hop.

(** The pairs of one element; every way out of the loop follows [hasPair = true]. *)
Fixpoint Pairs (fuel : nat) (value : list Z) (hop : Hop) (names : list (list Z)) : option (Hop * list Z) :=
  match fuel with
  | O => None
  | S fuel =>
      match cut Equal (Trim value) with
      | (_, None) => None
      | (before, Some after) =>
          let name := Lower (Trim before) in
          if negb (Token name) || existsb (bytes_eqb name) names then None
          else
            match PairValue (Trim after) with
            | None => None
            | Some (parsed, rest) =>
                let hop := SetField hop name parsed in
                match Trim rest with
                | [] => Some (hop, [])
                | delimiter :: value =>
                    if delimiter =? Comma then if len (Trim value) =? 0 then None else Some (hop, value)
                    else if negb (delimiter =? Semicolon) || (len value =? 0) then None
                    else Pairs fuel value hop (name :: names)
                end
            end
      end
  end.

Fixpoint Hops (fuel : nat) (value : list Z) (hops : list Hop) (maxHops : Z) : Result (list Hop) :=
  match value, fuel with
  | [], _ => FromValue hops
  | _, O => Fail InvalidFormat
  | _, S fuel =>
      if maxHops <=? len hops then Fail TooLarge
      else
        match Pairs (S (length value)) value (MkHop [] [] []) [] with
        | None => Fail InvalidFormat
        | Some (hop, value) => Hops fuel value (hops ++ [hop]) maxHops
        end
  end.

Definition ParseForwarded (value : list Z) (maxHops : Z) : Result (list Hop) := Hops (length value) value [] maxHops.

(** The pieces between the commas, in order. *)
Fixpoint ListPieces (pieces parts : list (list Z)) (max : Z) : Result (list (list Z)) :=
  match pieces with
  | [] => FromValue parts
  | piece :: pieces =>
      let part := Trim piece in
      if len part =? 0 then Fail InvalidFormat
      else if max <=? len parts then Fail TooLarge
      else ListPieces pieces (parts ++ [part]) max
  end.

Definition List (text : list Z) (max : Z) : Result (list (list Z)) :=
  if len text =? 0 then FromValue [] else ListPieces (split_on Comma text) [] max.

(** [FromValue None]: an unknown or obfuscated node. *)
Definition Node (text : list Z) (forwarded : bool) : Result (option IpEndpoint) :=
  if (len text =? 0) || Same text (txt "unknown") || (nth 0 text 0 =? char_code "_") then FromValue None
  else
    let bracket := nth 0 text 0 =? char_code "[" in
    let split :=
      if bracket then
        match cut (char_code "]") text with
        | (_, None) => None
        | (before, Some []) => Some (drop 1 before, 0)
        | (before, Some (c :: port)) =>
            if negb (c =? char_code ":") then None
            else match Port port with Some port => Some (drop 1 before, port) | None => None end
        end
      else if forwarded then
        match cut (char_code ":") text with
        | (address, None) => Some (address, 0)
        | (address, Some port) => match Port port with Some port => Some (address, port) | None => None end
        end
      else Some (text, 0) in
    match split with
    | None => Fail InvalidFormat
    | Some (address, port) =>
        match Parse address with
        | FromStatus _ => Fail InvalidFormat
        | FromValue parsed =>
            if negb (mScopeId parsed =? 0) then Fail InvalidFormat
            else if forwarded && bool_decide (mFamily parsed = FamilyV6) && negb bracket then Fail InvalidFormat
            else FromValue (Some (MkEndpoint parsed port))
        end
    end.

Definition Create (options : TrustedProxyOptions) : Result TrustedProxyOptions :=
  if (maxHops options =? 0) || (256 <? maxHops options) || (maxHeaderBytes options =? 0)
     || (1024 * 1024 <? maxHeaderBytes options) || (256 <? len (trustedNetworks options)) then Fail InvalidArgument
  else FromValue options.

Definition Trusted (o : TrustedProxyOptions) (input : IpAddress) : bool :=
  let address := if normalizeMappedIpv4 o then Normalized input else input in
  existsb (fun range => Contains range address) (trustedNetworks o).

(** ** The headers *)

Inductive Destination : Type := ToForwarded | ToFor | ToProto | ToHost.

(** The strings that the fields are collected in, and their bytes. *)
Record Collected : Type := MkCollected {
  forwarded : list Z;
  xff : list Z;
  protos : list Z;
  hosts : list Z;
  bytes : Z
}.

Definition DestinationOf (o : TrustedProxyOptions) (name : list Z) : option Destination :=
  match mode o with
  | Forwarded => if Same name (txt "forwarded") then Some ToForwarded else None
  | XForwarded =>
      if acceptHost o && Same name (txt "x-forwarded-host") then Some ToHost
      else if acceptProto o && Same name (txt "x-forwarded-proto") then Some ToProto
      else if Same name (txt "x-forwarded-for") then Some ToFor
      else None
  end.

(** [push_back(',')] to a string that is not empty, and [append]. *)
Definition AppendValue (destination value : list Z) : list Z :=
  (if len destination =? 0 then destination else destination ++ [Comma]) ++ value.

Definition Put (d : Destination) (value : list Z) (c : Collected) : Collected :=
  let bytes := bytes c + len value + 1 in
  match d with
  | ToForwarded => MkCollected (AppendValue (forwarded c) value) (xff c) (protos c) (hosts c) bytes
  | ToFor => MkCollected (forwarded c) (AppendValue (xff c) value) (protos c) (hosts c) bytes
  | ToProto => MkCollected (forwarded c) (xff c) (AppendValue (protos c) value) (hosts c) bytes
  | ToHost => MkCollected (forwarded c) (xff c) (protos c) (AppendValue (hosts c) value) bytes
  end.

Fixpoint Collect (o : TrustedProxyOptions) (headers : HttpHeaders) (c : Collected) : Result Collected :=
  match headers with
  | [] => FromValue c
  | (name, value) :: headers =>
      match DestinationOf o name with
      | None => Collect o headers c
      | Some d =>
          if maxHeaderBytes o - bytes c <=? len value then Fail TooLarge
          else Collect o headers (Put d value c)
      end
  end.

(** [aligned]: the values are paired with the nodes from the right. *)
Definition Aligned (count : nat) (values : list (list Z)) (index : nat) : list Z :=
  if (index + length values <? count)%nat then [] else nth (index + length values - count) values [].

Definition CollectedHops (o : TrustedProxyOptions) (c : Collected) : Result (list Hop) :=
  match mode o with
  | Forwarded => ParseForwarded (forwarded c) (maxHops o)
  | XForwarded =>
      match List (xff c) (maxHops o), List (protos c) (maxHops o), List (hosts c) (maxHops o) with
      | FromValue nodes, FromValue protocols, FromValue hostNames =>
          FromValue (imap (fun i node => MkHop node (Aligned (length nodes) protocols i) (Aligned (length nodes) hostNames i)) nodes)
      | FromStatus s, _, _ => FromStatus s
      | _, FromStatus s, _ => FromStatus s
      | _, _, FromStatus s => FromStatus s
      end
  end.

Definition ProtoOk (text : list Z) : bool :=
  (len text =? 0) || bytes_eqb text (txt "http") || bytes_eqb text (txt "https").

(** The hops from the right. *)
Fixpoint Walk (o : TrustedProxyOptions) (hops : list Hop) (result : ProxyPeer) : Result ProxyPeer :=
  match hops with
  | [] => FromValue result
  | it :: hops =>
      if negb (Trusted o (address (client result))) then FromValue result
      else
        match Node (hopNode it) (bool_decide (mode o = Forwarded)) with
        | FromStatus _ => Fail InvalidFormat
        | FromValue None => FromValue result
        | FromValue (Some node) =>
            if acceptProto o && negb (ProtoOk (hopProto it)) then Fail InvalidFormat
            else if acceptHost o && negb (len (hopHost it) =? 0) && negb (Authority (hopHost it)) then Fail InvalidFormat
            else
              Walk o hops (MkPeer (transportPeer result) node (acceptedHops result + 1)
                (if acceptProto o then hopProto it else []) (if acceptHost o then hopHost it else []))
        end
  end.

Definition Resolve (o : TrustedProxyOptions) (peer : IpEndpoint) (headers : HttpHeaders) : Result ProxyPeer :=
  if bool_decide (mFamily (address peer) = Unspecified) then Fail InvalidArgument
  else
    let result := MkPeer peer peer 0 [] [] in
    if negb (Trusted o (address peer)) then FromValue result
    else
      match Collect o headers (MkCollected [] [] [] [] 0) with
      | FromStatus s => FromStatus s
      | FromValue c =>
          match CollectedHops o c with
          | FromStatus s => Fail (Status.Code s)
          | FromValue hops => Walk o (rev hops) result
          end
      end.

End TrustedProxy.

Import TrustedProxy.

(** ** What a spoofed prefix can do to a quoted value *)

(** The first quote of the text opens a value that does not start with a delimiter. *)
Definition safe_tail (tail : list Z) : Prop :=
  match cut Quote tail with
  | (_, None) => True
  | (before, Some (c :: _)) => Backslash ∉ before /\ Ends c = false
  | (_, Some []) => False
  end.

Lemma quoted_quote (v : list Z) : forall p q, QuotedValue v p = Some q -> Quote ∈ v.
Proof.
  assert (forall n v p q, (length v <= n)%nat -> QuotedValue v p = Some q -> Quote ∈ v) as H; [|by eauto].
  clear v. induction n as [|n IH]; intros v p q Hl H; (destruct v as [|c v]; [done|]); cbn [length] in Hl; [lia|].
  cbn [QuotedValue] in H. rewrite elem_of_cons. destruct (Z.eqb_spec c Quote) as [->|]; [by left|]. right.
  destruct (c =? Backslash).
  - destruct v as [|d v]; [done|]. case_if_in H; [done|]. right. eapply IH; [|exact H]. cbn in Hl. lia.
  - case_if_in H; [done|]. eapply IH; [|exact H]. lia.
Qed.

Lemma cut_absent (c : Z) (l : list Z) : c ∉ (cut c l).1.
Proof.
  induction l as [|x l IH]; cbn [cut]; [apply not_elem_of_nil|]. destruct (Z.eqb_spec x c); [apply not_elem_of_nil|].
  destruct (cut c l) as [a r]. cbn [fst] in *. apply not_elem_of_cons. auto.
Qed.

Lemma quoted_cross (U : list Z) (n : nat) : forall s parsed p rest, (length s <= n)%nat ->
  QuotedValue (s ++ Comma :: U) parsed = Some (p, rest) ->
  (exists s', QuotedValue s parsed = Some (p, s') /\ rest = s' ++ Comma :: U) \/ exists q, QuotedValue U q = Some (p, rest).
Proof.
  assert (forall parsed p rest, QuotedValue (Comma :: U) parsed = Some (p, rest) -> exists q, QuotedValue U q = Some (p, rest)) as H0.
  { intros parsed p rest H. by exists (parsed ++ [Comma]). }
  induction n as [|n IH]; intros s parsed p rest Hl H; (destruct s as [|c s]; [right; by eapply H0|]); cbn [length] in Hl; [lia|].
  change ((c :: s) ++ Comma :: U) with (c :: s ++ Comma :: U) in H. cbn [QuotedValue] in *. destruct (c =? Quote).
  - injection H as <- <-. eauto.
  - destruct (c =? Backslash).
    + destruct s as [|d s]; [right; by exists (parsed ++ [Comma])|].
      change ((d :: s) ++ Comma :: U) with (d :: s ++ Comma :: U) in H. cbn [length] in Hl.
      cbv iota beta in H. case_if_in H; [done|]. apply IH in H; [done|lia].
    + case_if_in H; [done|]. apply IH in H; [done|lia].
Qed.

(** A quoted value that reaches into the tail ends before a character that is not a delimiter. *)
Lemma quoted_tail (U q p rest : list Z) : safe_tail U -> QuotedValue U q = Some (p, rest) ->
  exists c r, rest = c :: r /\ Ends c = false.
Proof.
  intros Hs H. pose proof (quoted_quote _ _ _ H) as Hq. unfold safe_tail in Hs. pose proof (cut_inv Quote U) as Hc. pose proof (cut_absent Quote U) as Ha.
  destruct (cut Quote U) as [before [after|]]; cbn [fst] in Ha; [|by subst].
  destruct after as [|c after]; [done|]. destruct Hs as [Hb He]. subst U.
    assert (forall before q, Backslash ∉ before -> Quote ∉ before ->
      QuotedValue (before ++ Quote :: c :: after) q = Some (p, rest) -> rest = c :: after) as Hr.
    { clear. induction before as [|x before IH]; intros q Hb Hq H; [cbn in H; congruence|].
      apply not_elem_of_cons in Hb as [Hx Hb], Hq as [Hy Hq]. change ((x :: before) ++ Quote :: c :: after) with (x :: before ++ Quote :: c :: after) in H.
      cbn [QuotedValue] in H. rewrite (proj2 (Z.eqb_neq x Quote)), (proj2 (Z.eqb_neq x Backslash)) in H by done.
      case_if_in H; [done|]. by eapply IH. }
    exists c, after. split; [|done]. by eapply Hr.
Qed.

Lemma token_cross (U s : list Z) : exists s', TokenValue (s ++ Comma :: U) = ((TokenValue s).1, s' ++ Comma :: U)
  /\ (length s' <= length s)%nat.
Proof.
  induction s as [|c s (s' & IH & Hl)]; [by exists []|]. change ((c :: s) ++ Comma :: U) with (c :: s ++ Comma :: U).
  cbn [TokenValue length]. destruct (Ends c); [exists (c :: s); split; [done|cbn; lia]|]. rewrite IH. destruct (TokenValue s) as [t r].
  exists s'. split; [done|lia].
Qed.

Lemma blank_ends (c : Z) : Ends c = false -> RequestData.Blank c = false /\ c <> Comma /\ c <> Semicolon.
Proof. unfold Ends, RequestData.Blank, Comma, Semicolon. cbn. lia. Qed.

Lemma comma_solid (U : list Z) : solid U -> RequestData.Blank Comma = false /\ solid (Comma :: U).
Proof. unfold solid. intros H. split; [done|]. by destruct U. Qed.

Lemma quoted_length (v : list Z) : forall p q rest, QuotedValue v p = Some (q, rest) -> (length rest < length v)%nat.
Proof.
  assert (forall n v p q rest, (length v <= n)%nat -> QuotedValue v p = Some (q, rest) -> (length rest < length v)%nat) as H;
    [|by eauto]. clear v.
  induction n as [|n IH]; intros v p q rest Hl H; (destruct v as [|c v]; [done|]); cbn [length] in *; [lia|].
  cbn [QuotedValue] in H. destruct (c =? Quote); [injection H as <- <-; lia|]. destruct (c =? Backslash).
  - destruct v as [|d v]; [done|]. case_if_in H; [done|]. cbn [length] in *. apply IH in H; lia.
  - case_if_in H; [done|]. apply IH in H; lia.
Qed.

Lemma trim_front_length (s : list Z) : (length (RequestData.TrimFront s) <= length s)%nat.
Proof. destruct (trim_front_suffix s) as [b H]. rewrite H at 2. rewrite length_app. lia. Qed.

(** What a pair leaves of a text that ends in the tail. *)
Lemma pair_cross (U s parsed rest : list Z) : safe_tail U -> solid U ->
  PairValue (Trim (s ++ Comma :: U)) = Some (parsed, rest) ->
  (exists s', rest = s' ++ Comma :: U /\ (length s' <= length s)%nat) \/ exists c r, rest = c :: r /\ Ends c = false.
Proof.
  intros Hs Hu. destruct (comma_solid U Hu) as [Hb Hc]. rewrite trim_before by done.
  pose proof (trim_front_length s) as Hl. destruct (RequestData.TrimFront s) as [|c t]; [done|]. cbn [length] in Hl.
  change ((c :: t) ++ Comma :: U) with (c :: t ++ Comma :: U). unfold PairValue. destruct (c =? Quote).
  - intros H. apply (quoted_cross U (length t)) in H as [(s' & H & ->)|[q H]]; [| |lia].
    + left. exists s'. split; [done|]. apply quoted_length in H. lia.
    + right. by eapply quoted_tail.
  - change (c :: t ++ Comma :: U) with ((c :: t) ++ Comma :: U). destruct (token_cross U (c :: t)) as (s' & -> & Hl').
    destruct (Token _); [|done]. intros [= _ <-]. left. exists s'. split; [done|]. cbn [length] in Hl'. lia.
Qed.

Lemma trim_head (c : Z) (r : list Z) : RequestData.Blank c = false -> exists r', Trim (c :: r) = c :: r'.
Proof.
  intros Hc. unfold Trim, RequestData.Trim. cbn [RequestData.TrimFront]. rewrite Hc. cbn [rev].
  rewrite (trim_front_app (rev r) [] c Hc). rewrite rev_app_distr. cbn. eauto.
Qed.

Lemma token_comma (v : list Z) : Comma ∈ v -> Token (Lower (Trim v)) = false.
Proof.
  intros H. unfold Token, Lower. apply andb_false_iff. right. apply not_true_is_false. rewrite forallb_forall. intros Hf.
  specialize (Hf Comma). discriminate Hf. apply in_map_iff. exists Comma. split; [done|].
  by apply list_elem_of_In, trim_in.
Qed.

Lemma cut_cross (c : Z) (s t : list Z) :
  (exists a b, s = a ++ c :: b /\ cut c (s ++ t) = (a, Some (b ++ t)))
  \/ (exists a r, cut c (s ++ t) = (s ++ a, r) /\ cut c t = (a, r)).
Proof.
  induction s as [|x s IH]; [right; cbn [app]; destruct (cut c t); eauto|]. change ((x :: s) ++ t) with (x :: s ++ t).
  cbn [cut]. destruct (Z.eqb_spec x c) as [->|]; [left; by exists [], s|].
  destruct IH as [(a & b & -> & ->)|(a & r & -> & ->)]; [left; by exists (x :: a), b|right; by exists a, r].
Qed.

(** The pairs of an element that starts before the tail end before it, or where it starts. *)
Lemma pairs_cross (U : list Z) (fuel : nat) : forall s hop names hop' rest, safe_tail U -> solid U ->
  Pairs fuel (s ++ Comma :: U) hop names = Some (hop', rest) ->
  rest = U \/ exists s', rest = s' ++ Comma :: U /\ (length s' < length s)%nat.
Proof.
  induction fuel as [|fuel IH]; intros s hop names hop' rest Hs Hu; [done|]. cbn [Pairs].
  destruct (comma_solid U Hu) as [Hb Hc]. rewrite trim_before by done. pose proof (trim_front_length s) as Hl.
  destruct (cut_cross Equal (RequestData.TrimFront s) (Comma :: U)) as [(a & b & Es & ->)|(a & r & -> & Er)].
  2: { destruct r as [after|]; [|done]. rewrite token_comma; [done|]. pose proof (cut_inv Equal (Comma :: U)) as H.
       rewrite Er in H. destruct a as [|x a]; [done|]. injection H as <- _. rewrite elem_of_app, elem_of_cons. auto. }
  rewrite Es, length_app in Hl. cbn [length] in Hl. destruct (_ || _); [done|].
  destruct (PairValue _) as [[parsed r]|] eqn:Ep; [|done].
  apply pair_cross in Ep as [(s' & -> & Hl')|(c & r' & -> & He)]; [| |done|done].
  - rewrite trim_before by done. pose proof (trim_front_length s') as Hl2.
    destruct (RequestData.TrimFront s') as [|d t]; cbn [app].
    + change (Comma =? Comma) with true. cbv iota. case_if; [done|]. intros [= _ <-]. by left.
    + cbn [length] in Hl2. destruct (d =? Comma).
      * case_if; [done|]. intros [= _ <-]. right. exists t. split; [done|lia].
      * case_if; [done|]. intros H. apply IH in H as [H|(u & -> & Hlu)]; [by left| |done|done]. right. exists u. split; [done|lia].
  - apply blank_ends in He as (H1 & H2 & H3). destruct (trim_head c r' H1) as [r'' ->].
    rewrite (proj2 (Z.eqb_neq c Comma)), (proj2 (Z.eqb_neq c Semicolon)) by done. done.
Qed.

(** ** Fuel *)

Lemma hops_unfold (fuel : nat) (c : Z) (v : list Z) (hops : list Hop) (max : Z) :
  Hops (S fuel) (c :: v) hops max =
  if max <=? len hops then Fail TooLarge
  else match Pairs (S (length (c :: v))) (c :: v) (MkHop [] [] []) [] with
       | None => Fail InvalidFormat
       | Some (hop, value) => Hops fuel value (hops ++ [hop]) max
       end.
Proof. done. Qed.

Lemma hops_nil (fuel : nat) (hops : list Hop) (max : Z) : Hops fuel [] hops max = FromValue hops.
Proof. by destruct fuel. Qed.

Lemma trim_length (s : list Z) : (length (Trim s) <= length s)%nat.
Proof.
  unfold Trim, RequestData.Trim. rewrite length_rev. etransitivity; [apply trim_front_length|]. rewrite length_rev.
  apply trim_front_length.
Qed.

Lemma token_rest (v : list Z) : (length (TokenValue v).2 <= length v)%nat.
Proof. induction v as [|c v IH]; [done|]. cbn [TokenValue]. destruct (Ends c); [done|]. destruct (TokenValue v). cbn in *. lia. Qed.

Lemma pair_length (v p rest : list Z) : PairValue v = Some (p, rest) -> (length rest <= length v)%nat.
Proof.
  unfold PairValue. destruct v as [|c v]; [done|]. destruct (c =? Quote).
  - intros H%quoted_length. cbn. lia.
  - pose proof (token_rest (c :: v)). destruct (TokenValue (c :: v)) as [t r]. destruct (Token t); [|done]. by intros [= _ <-].
Qed.

(** Every round of [Pairs] shortens the text, and enough fuel does not matter. *)
Lemma pairs_shrink (fuel : nat) : forall v hop names hop' rest,
  Pairs fuel v hop names = Some (hop', rest) -> (length rest < length v)%nat.
Proof.
  induction fuel as [|fuel IH]; intros v hop names hop' rest; [done|]. cbn [Pairs]. pose proof (trim_length v) as H1.
  destruct (cut Equal (Trim v)) as [before [after|]] eqn:Ec; [|done]. apply cut_length in Ec.
  destruct (_ || _); [done|]. destruct (PairValue _) as [[p r]|] eqn:Ep; [|done]. apply pair_length in Ep.
  pose proof (trim_length after) as H2. pose proof (trim_length r) as H3. destruct (Trim r) as [|d value]; [intros [= _ <-]; cbn; lia|].
  cbn [length] in H3. destruct (d =? Comma); [case_if; [done|]; intros [= _ <-]; lia|]. case_if; [done|]. intros H%IH. lia.
Qed.

Lemma pairs_fuel (fuel : nat) : forall fuel' v hop names, (length v < fuel)%nat -> (length v < fuel')%nat ->
  Pairs fuel v hop names = Pairs fuel' v hop names.
Proof.
  induction fuel as [|fuel IH]; intros [|fuel'] v hop names Hf Hf'; [lia|lia|lia|]. cbn [Pairs]. pose proof (trim_length v) as H1.
  destruct (cut Equal (Trim v)) as [before [after|]] eqn:Ec; [|done]. apply cut_length in Ec.
  destruct (_ || _); [done|]. destruct (PairValue _) as [[p r]|] eqn:Ep; [|done]. apply pair_length in Ep.
  pose proof (trim_length after) as H2. pose proof (trim_length r) as H3. destruct (Trim r) as [|d value]; [done|].
  cbn [length] in H3. destruct (d =? Comma); [done|]. case_if; [done|]. apply IH; lia.
Qed.

(** The fuel of [ParseForwarded] is enough: more of it gives the same result. *)
Lemma hops_fuel (fuel : nat) : forall fuel' v hops max, (length v <= fuel)%nat -> (length v <= fuel')%nat ->
  Hops fuel v hops max = Hops fuel' v hops max.
Proof.
  induction fuel as [|fuel IH]; intros fuel' v hops max Hf Hf'; (destruct v as [|c v]; [by rewrite !hops_nil|]);
    cbn [length] in *; [lia|]. destruct fuel' as [|fuel']; [lia|]. rewrite !hops_unfold. case_if; [done|].
  destruct (Pairs _ _ _ _) as [[hop rest]|] eqn:Ep; [|done]. apply pairs_shrink in Ep. cbn [length] in Ep. apply IH; lia.
Qed.

Lemma hops_acc (fuel : nat) : forall v hops max hs, Hops fuel v hops max = FromValue hs ->
  exists us, hs = hops ++ us /\ forall before, (length before <= length hops)%nat -> Hops fuel v before max = FromValue (before ++ us).
Proof.
  induction fuel as [|fuel IH]; intros v hops max hs; (destruct v as [|c v]; [rewrite hops_nil; intros [= <-]; exists []; split;
    [by rewrite app_nil_r|intros; by rewrite hops_nil, app_nil_r]|]); [done|]. rewrite hops_unfold. unfold len. case_if; [done|].
  destruct (Pairs _ _ _ _) as [[hop rest]|] eqn:Ep; [|done]. intros H. apply IH in H as (us & -> & H). exists (hop :: us).
  split; [by rewrite <-app_assoc|]. intros before Hb. rewrite hops_unfold, Ep. unfold len. replace (max <=? Z.of_nat (length before)) with false by lia.
  rewrite H by (rewrite !length_app; cbn; lia). by rewrite <-app_assoc.
Qed.

Lemma hops_cross (U : list Z) (fuel : nat) : forall s hops max hs, safe_tail U -> solid U -> (length (s ++ Comma :: U) <= fuel)%nat ->
  Hops fuel (s ++ Comma :: U) hops max = FromValue hs ->
  exists hops1, Hops fuel U (hops ++ hops1) max = FromValue hs.
Proof.
  induction fuel as [|fuel IH]; intros s hops max hs Hs Hu Hf H; [rewrite length_app in Hf; cbn in Hf; lia|].
  rewrite length_app in Hf. cbn [length] in Hf.
  destruct (s ++ Comma :: U) as [|c v] eqn:E; [by destruct s|]. rewrite hops_unfold in H. case_if_in H; [done|]. rewrite <-E in H.
  destruct (Pairs _ _ _ _) as [[hop rest]|] eqn:Ep; [|done]. apply pairs_cross in Ep as [->|(s' & -> & Hl)]; [| |done|done].
  - exists [hop]. rewrite <-H. apply hops_fuel; lia.
  - apply IH in H as [hops1 H]; [|done|done|rewrite length_app; cbn; lia]. exists (hop :: hops1).
    rewrite <-app_assoc in H. rewrite <-H. apply hops_fuel; lia.
Qed.

(** A prefix can only add hops on the left. *)
Lemma forwarded_prefix (s U : list Z) (max : Z) (hs us : list Hop) : safe_tail U -> solid U ->
  ParseForwarded (s ++ Comma :: U) max = FromValue hs -> ParseForwarded U max = FromValue us ->
  exists left, hs = left ++ us.
Proof.
  unfold ParseForwarded. intros Hs Hu H1 H2. apply hops_cross in H1 as [hops1 H1]; [|done..]. exists hops1.
  apply hops_acc in H1 as (us' & -> & H1). specialize (H1 [] ltac:(cbn; lia)). cbn [app] in *. f_equal.
  rewrite (hops_fuel _ (length U)) in H1; [congruence|rewrite length_app; cbn; lia|lia].
Qed.

(** ** Lists *)

Lemma list_pieces (pieces : list (list Z)) : forall parts max r, ListPieces pieces parts max = FromValue r ->
  r = parts ++ map Trim pieces /\ (len parts <= max -> len r <= max).
Proof.
  induction pieces as [|piece pieces IH]; intros parts max r; cbn [ListPieces].
  - intros [= <-]. by rewrite app_nil_r.
  - case_if; [done|]. case_if; [done|]. intros H. apply IH in H as [-> Hm]. rewrite <-app_assoc. split; [done|].
    intros _. rewrite <-app_assoc in Hm. apply Hm. unfold len in *. rewrite length_app. cbn. lia.
Qed.

Lemma list_parts (text : list Z) (max : Z) (r : list (list Z)) : 0 <= max -> List text max = FromValue r ->
  r = (if len text =? 0 then [] else map Trim (split_on Comma text)) /\ len r <= max.
Proof.
  unfold List. intros Hm. destruct (len text =? 0); [by intros [= <-]|]. intros H. apply list_pieces in H as [-> H].
  split; [done|]. by apply H.
Qed.

Lemma split_on_two (c : Z) (s t : list Z) : split_on c (s ++ c :: t) = split_on c s ++ split_on c t.
Proof.
  induction s as [|x s IH]; cbn [app split_on]; [by rewrite Z.eqb_refl|]. destruct (x =? c); [by rewrite IH|]. rewrite IH.
  pose proof (split_on_cut c s) as ->. done.
Qed.

(** One collected string is another one with more before it. *)
Definition extends (x1 x0 : list Z) : Prop := x0 = [] \/ x1 = x0 \/ exists s, x1 = s ++ Comma :: x0.

Lemma extends_append (x1 x0 v : list Z) : extends x1 x0 -> extends (AppendValue x1 v) (AppendValue x0 v).
Proof.
  unfold AppendValue. assert (forall x : list Z, x <> [] -> len x =? 0 = false) as Hlen.
  { intros [|? ?]; [done|]. intros _. unfold len. cbn. lia. }
  intros [->|[->|[s ->]]]; [|by right; left|].
  - change (len (@nil Z) =? 0) with true. cbv iota. destruct x1 as [|c x1]; [by right; left|]. right. right.
    rewrite Hlen by done. exists (c :: x1). by rewrite <-app_assoc.
  - right. right. rewrite (Hlen (s ++ Comma :: x0)) by (by destruct s). destruct x0 as [|c x0].
    + exists (s ++ [Comma]). by rewrite <-!app_assoc.
    + rewrite (Hlen (c :: x0)) by done. exists s. by rewrite <-!app_assoc.
Qed.

Lemma list_extends (x1 x0 : list Z) (max : Z) (hs us : list (list Z)) : 0 <= max -> extends x1 x0 ->
  List x1 max = FromValue hs -> List x0 max = FromValue us -> exists left, hs = left ++ us.
Proof.
  intros Hm He H1 H0. pose proof H0 as H0'. apply list_parts in H1 as [-> _], H0 as [-> _]; [|done..].
  destruct He as [->|[->|[s ->]]]; [by eexists; rewrite app_nil_r|by exists []|].
  replace (len (s ++ Comma :: x0) =? 0) with false by (unfold len; rewrite length_app; cbn; lia).
  rewrite split_on_two, map_app. destruct (len x0 =? 0); [by eexists; rewrite app_nil_r|by eexists].
Qed.

Definition collected_extends (c1 c0 : Collected) : Prop :=
  extends (forwarded c1) (forwarded c0) /\ extends (xff c1) (xff c0).

Lemma collect_extends (o : TrustedProxyOptions) (headers : HttpHeaders) : forall c1 c0 d1 d0,
  collected_extends c1 c0 -> Collect o headers c1 = FromValue d1 -> Collect o headers c0 = FromValue d0 ->
  collected_extends d1 d0.
Proof.
  induction headers as [|[name value] headers IH]; intros c1 c0 d1 d0 He; cbn [Collect]; [by intros [= <-] [= <-]|].
  destruct (DestinationOf o name) as [d|]; [|by apply IH]. case_if; [done|]. case_if; [done|]. apply IH.
  destruct He as [H1 H2]. destruct d; split; cbn; try done; by apply extends_append.
Qed.

Lemma collect_app (o : TrustedProxyOptions) (pre headers : HttpHeaders) : forall c,
  Collect o (pre ++ headers) c = match Collect o pre c with FromValue d => Collect o headers d | FromStatus s => FromStatus s end.
Proof.
  induction pre as [|[name value] pre IH]; intros c; [done|]. cbn [app Collect]. destruct (DestinationOf o name); [|done].
  case_if; [done|]. apply IH.
Qed.

(** The values the headers are allowed to have, together. *)
Lemma collect_bytes (o : TrustedProxyOptions) (headers : HttpHeaders) : forall c d, 0 <= bytes c <= maxHeaderBytes o ->
  Collect o headers c = FromValue d -> 0 <= bytes d <= maxHeaderBytes o.
Proof.
  induction headers as [|[name value] headers IH]; intros c d Hb; cbn [Collect]; [by intros [= <-]|].
  destruct (DestinationOf o name) as [t|]; [|by apply IH]. case_if; [done|]. apply IH.
  pose proof (len_nonneg value). destruct t; cbn [bytes Put]; lia.
Qed.

(** ** The walk *)

Definition same_client (r1 r2 : ProxyPeer) : Prop :=
  transportPeer r1 = transportPeer r2 /\ client r1 = client r2 /\ acceptedHops r1 = acceptedHops r2.

(** A walk that has found an untrusted client does not look further, whatever the other fields of the hops. *)
Lemma walk_stops (o : TrustedProxyOptions) (h1 h2 more : list Hop) : forall r1 r2 r r',
  Forall2 (fun a b => hopNode a = hopNode b) h1 h2 -> same_client r1 r2 ->
  Walk o h1 r1 = FromValue r -> Trusted o (address (client r)) = false ->
  Walk o (h2 ++ more) r2 = FromValue r' -> same_client r r'.
Proof.
  revert h2. induction h1 as [|a h1 IH]; intros h2 r1 r2 r r' Hh Hs H1 Hr H2.
  - apply Forall2_nil_inv_l in Hh as ->. injection H1 as <-. cbn [app] in H2. destruct more as [|b more]; [by injection H2 as <-|].
    cbn [Walk] in H2. destruct Hs as (H1' & H2' & H3'). rewrite <-H2', Hr in H2. injection H2 as <-. done.
  - apply Forall2_cons_inv_l in Hh as (b & h2' & Hab & Hh & ->). cbn [app Walk] in *. destruct Hs as (Ht & Hc & Ha).
    rewrite <-Hc, <-Hab in H2. destruct (Trusted o (address (client r1))) eqn:E; cbn [negb] in *.
    + destruct (Node _ _) as [[node|]|]; [|injection H1 as <-; congruence|done].
      case_if_in H1; [done|]. case_if_in H1; [done|]. case_if_in H2; [done|]. case_if_in H2; [done|].
      eapply IH; [exact Hh| |exact H1|exact Hr|exact H2]. split; [done|]. cbn. split; [done|lia].
    + injection H1 as <-. injection H2 as <-. done.
Qed.

Lemma walk_stops_exact (o : TrustedProxyOptions) (h more : list Hop) : forall r0 r,
  Walk o h r0 = FromValue r -> Trusted o (address (client r)) = false -> Walk o (h ++ more) r0 = FromValue r.
Proof.
  induction h as [|a h IH]; intros r0 r H Hr.
  - injection H as <-. destruct more; [done|]. cbn [app Walk]. by rewrite Hr.
  - cbn [app Walk] in *. destruct (negb (Trusted o (address (client r0)))); [done|]. destruct (Node _ _) as [[node|]|]; [|done|done].
    case_if; [done|]. case_if; [done|]. by apply IH.
Qed.

(** ** The client *)

Definition start : Collected := MkCollected [] [] [] [] 0.

(** What a proxy may append to [Forwarded]: no blank at the end, and no quoted value that starts with a
    delimiter. *)
Definition appended (tail : list Z) : Prop := tail = [] \/ (safe_tail tail /\ solid tail).

Lemma forwarded_extends (x1 x0 : list Z) (max : Z) (hs us : list Hop) : appended x0 -> extends x1 x0 ->
  ParseForwarded x1 max = FromValue hs -> ParseForwarded x0 max = FromValue us -> exists left, hs = left ++ us.
Proof.
  intros Ha He H1 H0. destruct (decide (x0 = [])) as [->|Hne]; [injection H0 as <-; exists hs; by rewrite app_nil_r|].
  destruct Ha as [|[Hs Hu]]; [done|]. destruct He as [|[->|[s ->]]]; [done| |by eapply forwarded_prefix].
  exists []. cbn; congruence.
Qed.

Definition same_nodes (a b : Hop) : Prop := hopNode a = hopNode b.

Lemma imap_nodes (f g : nat -> list Z -> Hop) (nodes : list (list Z)) :
  (forall i n, hopNode (f i n) = n) -> (forall i n, hopNode (g i n) = n) -> Forall2 same_nodes (imap f nodes) (imap g nodes).
Proof.
  intros Hf Hg. apply Forall2_same_length_lookup_2; [by rewrite !length_imap|]. intros i a b.
  rewrite !list_lookup_imap. destruct (nodes !! i) as [n|]; [|done]. cbn. intros [= <-] [= <-]. unfold same_nodes. by rewrite Hf, Hg.
Qed.

(** The hops of the longer headers end with those of the shorter ones. *)
Lemma hops_extend (o : TrustedProxyOptions) (d1 d0 : Collected) (hs us : list Hop) : 0 <= maxHops o ->
  collected_extends d1 d0 -> (mode o = Forwarded -> appended (forwarded d0)) ->
  CollectedHops o d1 = FromValue hs -> CollectedHops o d0 = FromValue us ->
  exists left us', hs = left ++ us' /\ Forall2 same_nodes us us' /\ (mode o = Forwarded -> us' = us).
Proof.
  intros Hm [Hf Hx] Ha. unfold CollectedHops. destruct (mode o) eqn:Em.
  - intros H1 H0. destruct (forwarded_extends _ _ _ _ _ (Ha eq_refl) Hf H1 H0) as [left ->]. exists left, us.
    split; [done|]. split; [|done]. by apply Forall_Forall2_diag, Forall_true.
  - destruct (List (xff d1) _) as [n1|] eqn:E1; [|done]. destruct (List (protos d1) _) as [p1|]; [|done].
    destruct (List (hosts d1) _) as [h1|]; [|done]. intros [= <-].
    destruct (List (xff d0) _) as [n0|] eqn:E0; [|done]. destruct (List (protos d0) _) as [p0|]; [|done].
    destruct (List (hosts d0) _) as [h0|]; [|done]. intros [= <-].
    destruct (list_extends _ _ _ _ _ Hm Hx E1 E0) as [left ->]. rewrite imap_app. do 2 eexists. split; [done|].
    split; [|done]. by apply imap_nodes.
Qed.

(** C10. No spoofing: when the headers after an attacker's give a client that is not a trusted proxy, then whatever
    headers the attacker puts before them (proxies append theirs), [Resolve] either refuses the request or returns
    the same client after the same number of hops, and in [Forwarded] mode the same protocol and host too.  What
    the proxies appended to [Forwarded] does not end in a blank and opens no quoted value with a delimiter. *)
Theorem proxy_spoof_resistance (o : TrustedProxyOptions) (peer : IpEndpoint) (spoofed headers : HttpHeaders) (r r' : ProxyPeer) :
  0 <= maxHops o ->
  Resolve o peer headers = FromValue r -> Trusted o (address (client r)) = false ->
  (mode o = Forwarded -> forall c, Collect o headers start = FromValue c -> appended (forwarded c)) ->
  Resolve o peer (spoofed ++ headers) = FromValue r' ->
  same_client r r' /\ (mode o = Forwarded -> r' = r).
Proof.
  intros Hm H0 Hr Ha H1. unfold Resolve in *. destruct (bool_decide _); [done|].
  destruct (negb (Trusted o (address peer))); [injection H0 as <-; injection H1 as <-; done|].
  rewrite collect_app in H1. fold start in H0, H1. destruct (Collect o spoofed start) as [d|]; [|done].
  destruct (Collect o headers d) as [d1|] eqn:E1; [|done]. destruct (Collect o headers start) as [d0|] eqn:E0; [|done].
  assert (He : collected_extends d1 d0) by (eapply collect_extends; [|exact E1|exact E0]; split; by left).
  destruct (CollectedHops o d1) as [hs|] eqn:Eh; [|done]. destruct (CollectedHops o d0) as [us|] eqn:Eu; [|done].
  destruct (hops_extend o d1 d0 hs us Hm He (fun Hf => Ha Hf d0 eq_refl) Eh Eu) as (left & us' & -> & Hn & Hf).
  rewrite rev_app_distr in H1. split.
  - eapply walk_stops; [|done|exact H0|done|exact H1]. rewrite !rev_alt. by apply (Forall2_reverse same_nodes).
  - intros Hmode. rewrite Hf in H1 by done. rewrite (walk_stops_exact o (rev us) _ _ r H0 Hr) in H1. congruence.
Qed.

(** The network 10.0.0.0/8, and an endpoint in it. *)
Definition private_network : IpNetwork := MkNetwork (MkAddress FamilyV4 ([10] ++ repeat 0 15) 0) 8.
Definition v4_endpoint (b0 b1 b2 b3 port : Z) : IpEndpoint := MkEndpoint (MkAddress FamilyV4 ([b0; b1; b2; b3] ++ repeat 0 12) 0) port.
Definition private_proxies : TrustedProxyOptions := MkOptions [private_network] Forwarded 32 8192 false false true.

Lemma proxy_spoof_resistance_witness :
  let r := MkPeer (v4_endpoint 10 0 0 1 443) (v4_endpoint 192 0 2 7 0) 1 [] [] in
  Resolve private_proxies (v4_endpoint 10 0 0 1 443)
    ([(txt "Forwarded", txt "for=10.1.1.1")] ++ [(txt "forwarded", txt "for=192.0.2.7")]) = FromValue r
  /\ same_client r r.
Proof.
  intros r. split; [reflexivity|].
  refine (proj1 (proxy_spoof_resistance private_proxies (v4_endpoint 10 0 0 1 443) [(txt "Forwarded", txt "for=10.1.1.1")]
    [(txt "forwarded", txt "for=192.0.2.7")] r r ltac:(cbn; lia) eq_refl eq_refl _ eq_refl)).
  intros _ c [= <-]. right. split; [exact I|reflexivity].
Defined.

(** The hops of the headers. *)
Lemma hops_count (fuel : nat) : forall v hops max hs, len hops <= max -> Hops fuel v hops max = FromValue hs -> len hs <= max.
Proof.
  induction fuel as [|fuel IH]; intros v hops max hs Hm; (destruct v as [|c v]; [rewrite hops_nil; by intros [= <-]|]); [done|].
  rewrite hops_unfold. case_if; [done|]. destruct (Pairs _ _ _ _) as [[hop rest]|]; [|done]. apply IH.
  unfold len in *. rewrite length_app. cbn. lia.
Qed.

Lemma collected_count (o : TrustedProxyOptions) (c : Collected) (hops : list Hop) : 0 <= maxHops o ->
  CollectedHops o c = FromValue hops -> len hops <= maxHops o.
Proof.
  intros Hm. unfold CollectedHops. destruct (mode o).
  - apply hops_count. done.
  - destruct (List (xff c) _) as [n|] eqn:E; [|done]. destruct (List (protos c) _); [|done]. destruct (List (hosts c) _); [|done].
    intros [= <-]. apply list_parts in E as [_ H]; [|done]. unfold len in *. by rewrite length_imap.
Qed.

(** Each endpoint of a chain was reached from a trusted one before it. *)
Fixpoint trusted_chain (o : TrustedProxyOptions) (from : IpEndpoint) (nodes : list IpEndpoint) (last : IpEndpoint) : Prop :=
  match nodes with
  | [] => last = from
  | node :: nodes => Trusted o (address from) = true /\ trusted_chain o node nodes last
  end.

Lemma walk_chain (o : TrustedProxyOptions) (hops : list Hop) : forall r0 r, Walk o hops r0 = FromValue r ->
  transportPeer r = transportPeer r0 /\ exists nodes, (length nodes <= length hops)%nat
    /\ trusted_chain o (client r0) nodes (client r) /\ acceptedHops r = acceptedHops r0 + len nodes
    /\ (forall n, In n nodes -> exists h, In h hops /\ Node (hopNode h) (bool_decide (mode o = Forwarded)) = FromValue (Some n)).
Proof.
  induction hops as [|h hops IH]; intros r0 r; cbn [Walk].
  - intros [= <-]. split; [done|]. exists []. repeat split; try done. unfold len. cbn. lia.
  - assert (FromValue r0 = FromValue r -> transportPeer r = transportPeer r0 /\ exists nodes, (length nodes <= S (length hops))%nat
      /\ trusted_chain o (client r0) nodes (client r) /\ acceptedHops r = acceptedHops r0 + len nodes
      /\ (forall n, In n nodes -> exists h', In h' (h :: hops) /\ Node (hopNode h') (bool_decide (mode o = Forwarded)) = FromValue (Some n))) as Hstop.
    { intros [= ->]. split; [done|]. exists []. split; [cbn; lia|]. split; [done|]. split; [unfold len; cbn; lia|done]. }
    destruct (Trusted o (address (client r0))) eqn:Et; cbn [negb]; [|done]. destruct (Node _ _) as [[node|]|] eqn:En; [|done|done].
    case_if; [done|]. case_if; [done|]. intros H. apply IH in H as (H1 & nodes & Hl & Hc & Ha & Hn). split; [done|].
    exists (node :: nodes). cbn [client acceptedHops] in *. split; [cbn; lia|]. split; [done|]. split; [unfold len in *; cbn [length]; lia|].
    intros n [<-|Hin]; [exists h; split; [by left|done]|]. destruct (Hn n Hin) as (h' & Hh & H'). exists h'. split; [by right|done].
Qed.

(** The client is reached through trusted proxies only: from an untrusted peer no header is read and the client
    is the peer; otherwise the accepted hops are a chain of at most [maxHops] nodes of the headers that starts at the
    peer, in which each one but the client is in a trusted network; the headers read have at most [maxHeaderBytes]
    bytes.  A peer without an address is refused. *)
Theorem proxy_chain_trusted (o : TrustedProxyOptions) (peer : IpEndpoint) (headers : HttpHeaders) :
  0 <= maxHops o -> 0 <= maxHeaderBytes o ->
  (IsValid (address peer) = false -> Resolve o peer headers = Fail InvalidArgument)
  /\ (IsValid (address peer) = true -> Trusted o (address peer) = false ->
      Resolve o peer headers = FromValue (MkPeer peer peer 0 [] []))
  /\ (forall r, Resolve o peer headers = FromValue r ->
      transportPeer r = peer /\ exists nodes, acceptedHops r = len nodes /\ len nodes <= maxHops o
        /\ trusted_chain o peer nodes (client r)
        /\ (nodes <> [] -> exists c, Collect o headers start = FromValue c /\ bytes c <= maxHeaderBytes o)).
Proof.
  intros Hm Hb. unfold Resolve, IsValid. fold start. destruct (bool_decide _) eqn:Ef; [split; [done|split; [done|done]]|].
  split; [done|]. split; [by intros _ ->|]. intros r. destruct (Trusted o (address peer)) eqn:Et; cbn [negb].
  - destruct (Collect o headers start) as [c|] eqn:Ec; [|done]. destruct (CollectedHops o c) as [hops|] eqn:Eh; [|done].
    intros H. apply walk_chain in H as (H1 & nodes & Hl & Hc & Ha & _). cbn [transportPeer client acceptedHops] in *.
    split; [done|]. exists nodes. split; [done|]. apply collected_count in Eh; [|done]. unfold len in *. rewrite length_rev in Hl.
    split; [lia|]. split; [done|]. intros _. exists c. split; [done|]. apply (collect_bytes o headers start); [cbn; lia|done].
  - intros [= <-]. split; [done|]. exists []. repeat split; try done.
Qed.

Lemma proxy_chain_trusted_witness :
  0 <= maxHops private_proxies /\ 0 <= maxHeaderBytes private_proxies
  /\ Resolve private_proxies (v4_endpoint 192 0 2 1 80) [(txt "forwarded", txt "for=10.0.0.9")]
     = FromValue (MkPeer (v4_endpoint 192 0 2 1 80) (v4_endpoint 192 0 2 1 80) 0 [] []).
Proof.
  split; [cbn; lia|]. split; [cbn; lia|].
  exact (proj1 (proj2 (proxy_chain_trusted private_proxies (v4_endpoint 192 0 2 1 80) [(txt "forwarded", txt "for=10.0.0.9")]
    ltac:(cbn; lia) ltac:(cbn; lia))) eq_refl eq_refl).
Defined.
