(* ===== verification/ResponseHead.v ===== *)
(** * Web: response heads and chunks.

    [Web/ResponseEncoding.h|cpp] with [ReasonPhrase], [HttpDate] and [SerializeResponse] of
    [Web/WebProtocol.cpp]: the wire text of a response's head, in which the framing fields belong to the
    server, and of a chunk.  The clock is an argument, in nanoseconds since the epoch; failures of
    allocation are left out.  The civil date of a day is [std::chrono::year_month_day]'s. *)

From S2P Require Import Prelude CoreError RequestData Charconv HttpParser HttpWire Endpoint.
Import Charconv HttpParser.

Module ResponseHead.

Inductive ResponseBodyMode : Type := NoBody | FixedLength | Chunked | CloseDelimited.

#[global] Instance ResponseBodyMode_eq_dec : EqDecision ResponseBodyMode.
Proof. solve_decision. Defined.

Record PreparedResponseHead : Type := MkPrepared { wire : list Z; mode : ResponseBodyMode; length : Z }.

Record HttpResponseHead : Type := MkHead {
  status : Z;
  headers : Fields;
  contentLength : option Z;
  close : bool
}.

Record HttpResponse : Type := MkResponse {
  respStatus : Z;
  respHeaders : Fields;
  respBody : list Z;
  respClose : bool
}.

Definition Fail {T : Type} (code : ErrorCode) : Result T := FromStatus (Status.FailWithoutMessage code).

Definition ReasonPhrase (status : Z) : list Z :=
  txt (if status =? 200 then "OK" else if status =? 201 then "Created" else if status =? 202 then "Accepted"
       else if status =? 204 then "No Content" else if status =? 205 then "Reset Content"
       else if status =? 206 then "Partial Content" else if status =? 301 then "Moved Permanently"
       else if status =? 302 then "Found" else if status =? 304 then "Not Modified"
       else if status =? 400 then "Bad Request" else if status =? 401 then "Unauthorized"
       else if status =? 403 then "Forbidden" else if status =? 404 then "Not Found"
       else if status =? 405 then "Method Not Allowed" else if status =? 408 then "Request Timeout"
       else if status =? 412 then "Precondition Failed" else if status =? 413 then "Content Too Large"
       else if status =? 416 then "Range Not Satisfiable" else if status =? 417 then "Expectation Failed"
       else if status =? 426 then "Upgrade Required" else if status =? 431 then "Request Header Fields Too Large"
       else if status =? 500 then "Internal Server Error" else if status =? 501 then "Not Implemented"
       else if status =? 503 then "Service Unavailable" else if status =? 505 then "HTTP Version Not Supported"
       else "Response").

(** ** Dates *)

(** The civil date of a count of days since 1970-01-01: year, month and day. *)
Definition CivilDate (days : Z) : Z * Z * Z :=
  let z := days + 719468 in
  let era := z / 146097 in
  let doe := z mod 146097 in
  let yoe := (doe - doe / 1460 + doe / 36524 - doe / 146096) / 365 in
  let doy := doe - (365 * yoe + yoe / 4 - yoe / 100) in
  let mp := (5 * doy + 2) / 153 in
  let day := doy - (153 * mp + 2) / 5 + 1 in
  let month := if mp <? 10 then mp + 3 else mp - 9 in
  (yoe + era * 400 + (if month <=? 2 then 1 else 0), month, day).

(** [%0<width>d] of [snprintf]. *)
Definition Padded (width : nat) (n : Z) : list Z :=
  let ds := Digits (Z.abs n) in
  let sign := if n <? 0 then [char_code "-"] else [] in
  sign ++ repeat (char_code "0") (width - List.length sign - List.length ds) ++ ds.

Definition DaysOfWeek : list (list Z) := map txt ["Sun"; "Mon"; "Tue"; "Wed"; "Thu"; "Fri"; "Sat"]%string.
Definition Months : list (list Z) :=
  map txt ["Jan"; "Feb"; "Mar"; "Apr"; "May"; "Jun"; "Jul"; "Aug"; "Sep"; "Oct"; "Nov"; "Dec"]%string.

(** A text that does not have 29 characters is replaced by an empty one. *)
Definition HttpDate (time : Z) : list Z :=
  let seconds := time / 1000000000 in
  let dayPoint := seconds / 86400 in
  let timeOfDay := seconds mod 86400 in
  let '(year, month, day) := CivilDate dayPoint in
  let text := nth (Z.to_nat ((dayPoint + 4) mod 7)) DaysOfWeek [] ++ txt ", " ++ Padded 2 day ++ txt " "
    ++ nth (Z.to_nat (month - 1)) Months [] ++ txt " " ++ Padded 4 year ++ txt " " ++ Padded 2 (timeOfDay / 3600)
    ++ txt ":" ++ Padded 2 (timeOfDay / 60 mod 60) ++ txt ":" ++ Padded 2 (timeOfDay mod 60) ++ txt " GMT" in
  if len text =? 29 then text else [].

(** ** Heads *)

Definition Append (output value : list Z) (limit : Z) : option (list Z) :=
  if (limit <? len output) || (limit - len output <? len value) then None else Some (output ++ value).

(** Successive calls of [Append], the first failure ending them. *)
Fixpoint AppendAll (output : list Z) (values : list (list Z)) (limit : Z) : option (list Z) :=
  match values with
  | [] => Some output
  | value :: values =>
      match Append output value limit with
      | Some output => AppendAll output values limit
      | None => None
      end
  end.

Definition OwnedField (name : list Z) : bool :=
  EqualInsensitive name (txt "content-length") || EqualInsensitive name (txt "transfer-encoding")
  || EqualInsensitive name (txt "connection") || EqualInsensitive name (txt "trailer").

(** The loop over the headers: the wire, and whether there was a Date and an Upgrade. *)
Fixpoint HeadFields (headers : Fields) (wire : list Z) (haveDate haveUpgrade : bool) (maxHeaders : Z)
  : Result (list Z * bool * bool) :=
  match headers with
  | [] => FromValue (wire, haveDate, haveUpgrade)
  | (name, value) :: headers =>
      if negb (IsToken name) || negb (ValidHeaderValue value) || OwnedField name then Fail InvalidArgument
      else if EqualInsensitive name (txt "upgrade") && negb (UpgradeProtocols value) then Fail InvalidArgument
      else
        let haveUpgrade := haveUpgrade || EqualInsensitive name (txt "upgrade") in
        if EqualInsensitive name (txt "date") && haveDate then Fail InvalidArgument
        else
          let haveDate := haveDate || EqualInsensitive name (txt "date") in
          match AppendAll wire [name; txt ": "; value; Crlf] maxHeaders with
          | None => Fail TooLarge
          | Some wire => HeadFields headers wire haveDate haveUpgrade maxHeaders
          end
  end.

Definition NoContent (status : Z) : bool := (status =? 204) || (status =? 205) || (status =? 304).

(** The end of the head, from the fields on. *)
Definition HeadTail (status : Z) (length : option Z) (mode : ResponseBodyMode) (close haveUpgrade : bool) : list (list Z) :=
  (if (status =? 205) || (negb (status =? 204) && negb (status =? 304) && bool_decide (length <> None))
   then [txt "Content-Length: "; Digits (if NoContent status then 0 else default 0 length); Crlf]
   else if bool_decide (mode = Chunked) then [txt "Transfer-Encoding: chunked" ++ Crlf] else [])
  ++ [if close then txt "Connection: close" else txt "Connection: keep-alive"]
  ++ (if haveUpgrade then [txt ", Upgrade"] else []) ++ [Crlf ++ Crlf].

Definition BodyMode (status : Z) (length : option Z) (head chunkedAllowed : bool) : ResponseBodyMode :=
  if head || NoContent status then NoBody
  else if bool_decide (length <> None) then FixedLength
  else if chunkedAllowed then Chunked else CloseDelimited.

Definition PrepareResponseHead (now status : Z) (headers : Fields) (length : option Z) (head close : bool)
  (maxHeaders : Z) (chunkedAllowed : bool) : Result PreparedResponseHead :=
  if (status <? 200) || (599 <? status) then Fail InvalidArgument
  else
    match AppendAll [] [txt "HTTP/1.1 "; Digits status; txt " "; ReasonPhrase status; Crlf] maxHeaders with
    | None => Fail TooLarge
    | Some wire =>
        match HeadFields headers wire false false maxHeaders with
        | FromStatus s => FromStatus s
        | FromValue (wire, haveDate, haveUpgrade) =>
            if (status =? 426) && negb haveUpgrade then Fail InvalidArgument
            else
              match (if haveDate then Some wire else AppendAll wire [txt "Date: "; HttpDate now; Crlf] maxHeaders) with
              | None => Fail TooLarge
              | Some wire =>
                  let mode := BodyMode status length head chunkedAllowed in
                  let close := close || bool_decide (mode = CloseDelimited) in
                  match AppendAll wire (HeadTail status length mode close haveUpgrade) maxHeaders with
                  | None => Fail TooLarge
                  | Some wire =>
                      FromValue (MkPrepared wire mode (if NoContent status then 0 else default 0 length))
                  end
              end
        end
    end.

(** The overload for [HttpResponseHead]. *)
Definition PrepareHead (now : Z) (response : HttpResponseHead) (head : bool) (maxHeaders : Z) (chunkedAllowed : bool)
  : Result PreparedResponseHead :=
  PrepareResponseHead now (status response) (headers response) (contentLength response) head (close response) maxHeaders
    chunkedAllowed.

Definition EncodeChunk (bytes : list Z) (maxChunkBytes : Z) : Result (list Z) :=
  if len bytes =? 0 then Fail InvalidArgument
  else if maxChunkBytes <? len bytes then Fail TooLarge
  else
    let digits := Endpoint.HexText (len bytes) in
    if (16 <? len digits) || (SIZE_MAX - len digits - 4 <? len bytes) then Fail TooLarge
    else FromValue (digits ++ Crlf ++ bytes ++ Crlf).

Definition FinalChunk : list Z := txt "0" ++ Crlf ++ Crlf.

(** [None]: [SerializeResponse] returns false. *)
Definition SerializeResponse (now : Z) (response : HttpResponse) (head close : bool) (maxHeaders maxBody : Z)
  : option (list Z) :=
  if maxBody <? len (respBody response) then None
  else
    match PrepareResponseHead now (respStatus response) (respHeaders response) (Some (len (respBody response))) head close
            maxHeaders true with
    | FromStatus _ => None
    | FromValue prepared =>
        Some (wire prepared ++ (if bool_decide (mode prepared = NoBody) then [] else respBody response))
    end.

End ResponseHead.

Import ResponseHead.

(** ** A client *)

(** The reader of a head: its first line, its fields with lower-case names, and what follows. *)
Fixpoint read_fields (fuel : nat) (text : list Z) : option (Fields * list Z) :=
  match fuel with
  | O => None
  | S fuel =>
      match cut_sub Crlf text with
      | (_, None) => None
      | ([], Some rest) => Some ([], rest)
      | (line, Some rest) =>
          match ParseHeader line, read_fields fuel rest with
          | Some field, Some (fields, rest) => Some (field :: fields, rest)
          | _, _ => None
          end
      end
  end.

Definition read_head (text : list Z) : option (list Z * Fields * list Z) :=
  match cut_sub Crlf text with
  | (line, Some rest) =>
      match read_fields (S (List.length text)) rest with
      | Some (fields, rest) => Some (line, fields, rest)
      | None => None
      end
  | (_, None) => None
  end.

Definition values_of (name : list Z) (fields : Fields) : list (list Z) :=
  map snd (List.filter (fun f => bytes_eqb f.1 name) fields).

(** How the body that follows a head is delimited (RFC 9112, 6.3), for a client that accepts no doubt. *)
Inductive framing : Type := Nothing | Bytes (n : Z) | Chunks | UntilClose | Ambiguous.

Definition client_framing (head : bool) (status : Z) (fields : Fields) : framing :=
  if head || (status =? 204) || (status =? 304) then Nothing
  else
    match values_of (txt "transfer-encoding") fields, values_of (txt "content-length") fields with
    | [], [] => UntilClose
    | [te], [] => if bytes_eqb te (txt "chunked") then Chunks else Ambiguous
    | [], [cl] => match from_chars_uint64 cl with (errc_ok, [], n) => Bytes n | _ => Ambiguous end
    | _, _ => Ambiguous
    end.

Definition norm (f : list Z * list Z) : list Z * list Z := (map Lower f.1, Trim f.2).

Definition sendable (f : list Z * list Z) : Prop := IsToken f.1 = true /\ ValidHeaderValue f.2 = true.

(** ** Lines *)

Lemma trim_front_valid v : ValidHeaderValue v = true -> ValidHeaderValue (RequestData.TrimFront v) = true.
Proof.
  unfold ValidHeaderValue. induction v as [|c v IH]; [done|]. cbn. intros [H1 H2]%andb_prop. destruct (RequestData.Blank c); [auto|].
  cbn. by rewrite H1.
Qed.

Lemma rev_valid v : ValidHeaderValue v = true -> ValidHeaderValue (rev v) = true.
Proof. unfold ValidHeaderValue. rewrite !forallb_forall. intros H x Hx. apply H. by apply in_rev. Qed.

Lemma trim_valid v : ValidHeaderValue v = true -> ValidHeaderValue (Trim v) = true.
Proof. intros H. by apply rev_valid, trim_front_valid, rev_valid, trim_front_valid. Qed.

Lemma sendable_line f : sendable f -> line_ok (field_line f) /\ ParseHeader (field_line f) = Some (norm f).
Proof.
  intros [H1 H3]. destruct (is_token_chars _ H1) as [Hne Hch]. split.
  - split; [unfold field_line; by destruct f.1|]. unfold field_line. rewrite !Forall_app. split_and!.
    + eapply Forall_impl; [exact Hch|]. intros c Hc%token_char_range. lia.
    + repeat constructor; done.
    + by apply valid_value_chars.
  - unfold ParseHeader, field_line. change (txt ": " ++ f.2) with (char_code ":" :: 32 :: f.2). rewrite cut_app.
    2:{ eapply not_in_forall; [exact Hch|]. intros [_ H]%token_char_range. done. }
    rewrite H1. cbn [negb]. change (Trim (32 :: f.2)) with (Trim f.2). by rewrite trim_valid.
Qed.

Lemma read_fields_text fs rest : Forall sendable fs -> forall fuel, (List.length fs < fuel)%nat ->
  read_fields fuel (lines_text (map field_line fs) ++ Crlf ++ rest) = Some (map norm fs, rest).
Proof.
  intros H. induction H as [|f fs Hf H IH]; intros fuel Hl; (destruct fuel as [|fuel]; [cbn in Hl; lia|]); [done|].
  destruct (sendable_line f Hf) as [Hok Hp]. unfold lines_text in *. cbn [map concat read_fields]. rewrite <-!app_assoc.
  rewrite cut_crlf by (by apply line_ok_no_cr). destruct Hok as [Hne _]. destruct (field_line f) as [|c l] eqn:E; [done|].
  rewrite Hp, IH by (cbn in Hl; lia). done.
Qed.

Lemma lines_text_length lines : (List.length lines <= List.length (lines_text lines))%nat.
Proof.
  unfold lines_text. induction lines as [|l lines IH]; [done|]. cbn [map concat List.length]. rewrite !length_app. cbn. lia.
Qed.

Lemma read_head_text line fs rest : 13 ∉ line -> Forall sendable fs ->
  read_head (line ++ Crlf ++ lines_text (map field_line fs) ++ Crlf ++ rest) = Some (line, map norm fs, rest).
Proof.
  intros Hl Hf. unfold read_head. rewrite cut_crlf by done. rewrite read_fields_text; [done|done|].
  pose proof (lines_text_length (map field_line fs)) as H. rewrite length_map in H. rewrite !length_app. lia.
Qed.

(** ** What is appended *)

Lemma append_all values : forall output limit w, len output <= limit -> AppendAll output values limit = Some w ->
  w = output ++ concat values /\ len w <= limit.
Proof.
  induction values as [|v values IH]; intros output limit w Hl; cbn [AppendAll concat].
  - intros [= <-]. by rewrite app_nil_r.
  - unfold Append. destruct (_ || _) eqn:E; [done|]. intros H. apply IH in H as [-> H]; [|rewrite len_app; lia].
    rewrite <-app_assoc in *. done.
Qed.

Definition date_field (f : list Z * list Z) : bool := EqualInsensitive f.1 (txt "date").
Definition upgrade_field (f : list Z * list Z) : bool := EqualInsensitive f.1 (txt "upgrade").

Lemma head_fields hs : forall w d u max w' d' u', len w <= max -> HeadFields hs w d u max = FromValue (w', d', u') ->
  w' = w ++ lines_text (map field_line hs) /\ d' = d || existsb date_field hs /\ u' = u || existsb upgrade_field hs
  /\ len w' <= max /\ Forall sendable hs /\ Forall (fun f => OwnedField f.1 = false) hs.
Proof.
  induction hs as [|[n v] hs IH]; intros w d u max w' d' u' Hw; cbn [HeadFields existsb].
  - intros [= <- <- <-]. rewrite !orb_false_r. unfold lines_text. cbn. by rewrite app_nil_r.
  - destruct (_ || OwnedField n) eqn:E1; [done|]. case_if; [done|]. case_if; [done|].
    destruct (AppendAll _ _ _) as [w1|] eqn:Ea; [|done]. apply append_all in Ea as [-> Hl]; [|done]. intros H.
    apply IH in H as (-> & -> & -> & Hl' & Hs & Ho); [|done]. rewrite !orb_false_iff, !negb_false_iff in E1. destruct E1 as [[E1 E2] E3].
    unfold lines_text in *. cbn [map concat] in *. unfold field_line, date_field, upgrade_field in *. cbn [fst snd] in *.
    rewrite app_nil_r, <-!app_assoc, <-!orb_assoc in *. split; [done|]. split; [done|]. split; [done|]. split; [done|].
    split; (constructor; [done|done]).
Qed.

(** ** Values the server writes are sendable *)

Lemma valid_app a b : ValidHeaderValue (a ++ b) = ValidHeaderValue a && ValidHeaderValue b.
Proof. apply forallb_app. Qed.

Lemma valid_digits n : ValidHeaderValue (Digits (Z.abs n)) = true.
Proof. apply digits_value_ok. lia. Qed.

Lemma valid_zeros k : ValidHeaderValue (repeat (char_code "0") k) = true.
Proof. induction k; [done|]. cbn. done. Qed.

Lemma valid_padded width n : ValidHeaderValue (Padded width n) = true.
Proof. unfold Padded. rewrite !valid_app, valid_zeros, valid_digits. by destruct (n <? 0). Qed.

Lemma valid_nth k (l : list (list Z)) : forallb ValidHeaderValue l = true -> ValidHeaderValue (nth k l []) = true.
Proof.
  intros H. destruct (nth_in_or_default k l []) as [Hin| ->]; [|done]. rewrite forallb_forall in H. auto.
Qed.

Lemma valid_date now : ValidHeaderValue (HttpDate now) = true.
Proof.
  unfold HttpDate. destruct (CivilDate _) as [[year month] day]. case_if; [|done].
  rewrite !valid_app, !valid_padded, !valid_nth by reflexivity. reflexivity.
Qed.

Lemma reason_no_cr s : Forall (fun c => c <> 13) (ReasonPhrase s).
Proof. unfold ReasonPhrase. case_ifs; repeat constructor; done. Qed.

(** ** The head *)

Definition status_line (status : Z) : list Z := txt "HTTP/1.1 " ++ Digits status ++ txt " " ++ ReasonPhrase status.

Definition connection_value (close upgrade : bool) : list Z :=
  (if close then txt "close" else txt "keep-alive") ++ (if upgrade then txt ", Upgrade" else []).

(** The fields the server adds. *)
Definition framing_fields (status : Z) (length : option Z) (mode : ResponseBodyMode) : Fields :=
  if (status =? 205) || (negb (status =? 204) && negb (status =? 304) && bool_decide (length <> None))
  then [(txt "Content-Length", Digits (if NoContent status then 0 else default 0 length))]
  else if bool_decide (mode = Chunked) then [(txt "Transfer-Encoding", txt "chunked")] else [].

Definition head_fields_of (now status : Z) (hs : Fields) (length : option Z) (head close chunkedAllowed : bool) : Fields :=
  let mode := BodyMode status length head chunkedAllowed in
  hs ++ (if existsb date_field hs then [] else [(txt "Date", HttpDate now)]) ++ framing_fields status length mode
  ++ [(txt "Connection", connection_value (close || bool_decide (mode = CloseDelimited)) (existsb upgrade_field hs))].

Lemma lines_text_app a b : lines_text (a ++ b) = lines_text a ++ lines_text b.
Proof. unfold lines_text. by rewrite map_app, concat_app. Qed.

Lemma connection_line (close up : bool) :
  concat ([if close then txt "Connection: close" else txt "Connection: keep-alive"]
    ++ (if up then [txt ", Upgrade"] else []) ++ [Crlf ++ Crlf])
  = lines_text [field_line (txt "Connection", connection_value close up)] ++ Crlf.
Proof. by destruct close, up. Qed.

Lemma head_tail status length mode close up :
  concat (HeadTail status length mode close up)
  = lines_text (map field_line (framing_fields status length mode ++ [(txt "Connection", connection_value close up)])) ++ Crlf.
Proof.
  unfold HeadTail. rewrite concat_app, connection_line, map_app, lines_text_app, <-app_assoc. f_equal.
  unfold framing_fields, lines_text. case_if; [|by case_if]. unfold field_line. cbn [map concat fst snd].
  by rewrite <-!app_assoc.
Qed.

Record prepared_ok (now status : Z) (hs : Fields) (length : option Z) (head close : bool) (max : Z) (chunkedAllowed : bool)
  (p : PreparedResponseHead) : Prop := MkPreparedOk {
  prepared_status : 200 <= status <= 599;
  prepared_wire : wire p = status_line status ++ Crlf
    ++ lines_text (map field_line (head_fields_of now status hs length head close chunkedAllowed)) ++ Crlf;
  prepared_mode : mode p = BodyMode status length head chunkedAllowed;
  prepared_length : ResponseHead.length p = if NoContent status then 0 else default 0 length;
  prepared_size : len (wire p) <= max;
  prepared_sendable : Forall sendable (head_fields_of now status hs length head close chunkedAllowed);
  prepared_owned : Forall (fun f => OwnedField f.1 = false) hs
}.

Lemma sendable_const (n v : list Z) : IsToken n && ValidHeaderValue v = true -> sendable (n, v).
Proof. intros [H1 H2]%andb_prop. done. Qed.

Lemma length_nonneg_valid status length : match length with Some n => 0 <= n | None => True end ->
  ValidHeaderValue (Digits (if NoContent status then 0 else default 0 length)) = true.
Proof. intros H. apply digits_value_ok. destruct (NoContent status), length; cbn; lia. Qed.

Lemma prepare_ok now status hs length head close max ch p : match length with Some n => 0 <= n | None => True end -> 0 <= max ->
  PrepareResponseHead now status hs length head close max ch = FromValue p ->
  prepared_ok now status hs length head close max ch p.
Proof.
  intros Hn Hmax. unfold PrepareResponseHead. destruct (_ || _) eqn:Es; [done|].
  destruct (AppendAll [] _ _) as [w0|] eqn:E0; [|done]. apply append_all in E0 as [Ew0 H0]; [|done].
  assert (w0 = status_line status ++ Crlf) as -> by (rewrite Ew0; unfold status_line; by rewrite <-!app_assoc).
  destruct (HeadFields _ _ _ _ _) as [[[w1 d] u]|] eqn:E1; [|done]. apply head_fields in E1 as (-> & -> & -> & H1 & Hs & Ho); [|done].
  case_if; [done|]. cbn [orb] in *.
  destruct (if existsb date_field hs then _ else _) as [w2|] eqn:E2; [|done].
  assert (exists dl, w2 = ((status_line status ++ Crlf) ++ lines_text (map field_line hs)) ++ dl /\ len w2 <= max
    /\ dl = lines_text (map field_line (if existsb date_field hs then [] else [(txt "Date", HttpDate now)]))) as (dl & -> & H2 & ->).
  { destruct (existsb date_field hs); [injection E2 as <-; exists []; by rewrite app_nil_r|].
    apply append_all in E2 as [-> H2]; [|done]. eexists. split; [done|]. split; [done|]. unfold lines_text, field_line. cbn [map concat fst snd].
    by rewrite !app_nil_r, <-!app_assoc. }
  destruct (AppendAll _ (HeadTail _ _ _ _ _) _) as [w3|] eqn:E3; [|done]. apply append_all in E3 as [-> H3]; [|done].
  intros [= <-]. split; cbn [wire mode ResponseHead.length]; try done; [lia| |].
  - rewrite head_tail. unfold head_fields_of.
    rewrite !map_app, !lines_text_app. unfold status_line. by rewrite <-!app_assoc.
  - unfold head_fields_of. rewrite !Forall_app. split; [done|]. split; [|split].
    + case_if; constructor; [split; [done|apply valid_date]|constructor].
    + unfold framing_fields. case_if; [|case_if]; repeat constructor; try done. by apply length_nonneg_valid.
    + constructor; [|constructor]. split; [done|]. unfold connection_value. by destruct (_ || bool_decide _), (existsb upgrade_field hs).
Qed.

(** ** Reading the head back *)

Lemma status_line_no_cr s : 0 <= s -> 13 ∉ status_line s.
Proof.
  intros Hs. unfold status_line. rewrite !not_elem_of_app. split; [cbn; rewrite !not_elem_of_cons; repeat split; try done; apply not_elem_of_nil|].
  split; [apply digits_absent; [done|reflexivity]|]. split; [cbn; rewrite not_elem_of_cons; split; [done|apply not_elem_of_nil]|].
  intros Hin. pose proof (reason_no_cr s) as H. rewrite Forall_forall in H. by specialize (H 13 Hin).
Qed.

Lemma read_prepared now status hs length head close max ch p rest :
  prepared_ok now status hs length head close max ch p ->
  read_head (wire p ++ rest) = Some (status_line status, map norm (head_fields_of now status hs length head close ch), rest).
Proof.
  intros [Hs Hw _ _ _ Hf _]. rewrite Hw, <-!app_assoc. apply read_head_text; [apply status_line_no_cr; lia|done].
Qed.

Lemma values_of_app name a b : values_of name (a ++ b) = values_of name a ++ values_of name b.
Proof. unfold values_of. by rewrite List.filter_app, map_app. Qed.

Lemma lower_idem c : Lower (Lower c) = Lower c.
Proof. unfold Lower. eval_chars. case_ifs; lia. Qed.

Lemma equal_insensitive_iff a b : EqualInsensitive a b = true <-> map Lower a = map Lower b.
Proof.
  unfold EqualInsensitive. revert b. induction a as [|x a IH]; intros [|y b]; cbn; try done.
  specialize (IH b). rewrite !andb_true_iff in *. rewrite Z.eqb_eq. split.
  - intros (Hl & He & H). f_equal; [done|]. by apply IH.
  - intros [= He H]. apply IH in H. tauto.
Qed.

Lemma values_of_other name hs : map Lower name = name -> Forall (fun f => EqualInsensitive f.1 name = false) hs ->
  values_of name (map norm hs) = [].
Proof.
  intros Hn H. unfold values_of. induction H as [|f hs Hf H IH]; [done|]. cbn [map List.filter norm fst].
  replace (bytes_eqb (map Lower f.1) name) with false; [done|]. symmetry. apply bytes_eqb_neq. intros E.
  assert (EqualInsensitive f.1 name = true); [|congruence]. apply equal_insensitive_iff. congruence.
Qed.

(** The application's fields do not say where the body ends. *)
Lemma owned_absent hs : Forall (fun f => OwnedField f.1 = false) hs ->
  values_of (txt "content-length") (map norm hs) = [] /\ values_of (txt "transfer-encoding") (map norm hs) = [].
Proof.
  intros H. split; apply values_of_other; try reflexivity; eapply Forall_impl; try exact H;
    intros f Hf; unfold OwnedField in Hf; rewrite !orb_false_iff in Hf; tauto.
Qed.

Definition mode_framing (status : Z) (p : PreparedResponseHead) : framing :=
  match mode p with
  | NoBody => if status =? 205 then Bytes 0 else Nothing
  | FixedLength => Bytes (ResponseHead.length p)
  | Chunked => Chunks
  | CloseDelimited => UntilClose
  end.

Lemma date_no_framing hs now name : name = txt "content-length" \/ name = txt "transfer-encoding" ->
  values_of name (map norm (if existsb date_field hs then [] else [(txt "Date", HttpDate now)])) = [].
Proof. intros [-> | ->]; by destruct (existsb date_field hs). Qed.

Lemma client_reads_framing now status hs length head close max ch p :
  match length with Some n => 0 <= n < 2 ^ 64 | None => True end ->
  prepared_ok now status hs length head close max ch p ->
  client_framing head status (map norm (head_fields_of now status hs length head close ch))
  = if head then Nothing else mode_framing status p.
Proof.
  intros Hl [Hs _ Hm Hlen _ _ Ho]. destruct (owned_absent hs Ho) as [H1 H2]. unfold client_framing, mode_framing.
  rewrite Hm, Hlen. destruct head; [done|]. cbn [orb]. unfold head_fields_of. rewrite !map_app, !values_of_app, H1, H2.
  rewrite !date_no_framing by auto. cbn [app]. unfold framing_fields, BodyMode, NoContent. cbn [orb].
  destruct (Z.eqb_spec status 204) as [->|]; [done|]. destruct (Z.eqb_spec status 304) as [->|]; [done|]. cbn [orb negb andb].
  destruct (Z.eqb_spec status 205) as [->|]; [done|]. cbn [orb]. destruct length as [sz|].
  - rewrite bool_decide_eq_true_2 by done. cbn [default]. unfold values_of. cbn [map List.filter norm fst snd app].
    change (bytes_eqb (map Lower (txt "Content-Length")) (txt "transfer-encoding")) with false.
    change (bytes_eqb (map Lower (txt "Content-Length")) (txt "content-length")) with true.
    change (bytes_eqb (map Lower (txt "Connection")) (txt "transfer-encoding")) with false.
    change (bytes_eqb (map Lower (txt "Connection")) (txt "content-length")) with false. cbn [map app snd].
    unfold norm, id. cbn [snd]. rewrite trim_solid by (apply solid_digits; lia). by rewrite from_chars_digits_unsigned.
  - rewrite bool_decide_eq_false_2 by (by intros []). destruct ch; reflexivity.
Qed.

(** Heads are unambiguous: when [PrepareResponseHead] succeeds, a strict client that reads the wire text gets the
    status line, the application's header fields one by one in their order (no value can end a line), a Date, and
    the server's own framing fields, with what follows the head untouched; the framing RFC 9112 gives from those
    fields is the mode and length the server uses for the body, and the head is within the limit. *)
Theorem response_head_unambiguous (now status : Z) (hs : Fields) (length : option Z) (head close : bool) (max : Z) (ch : bool)
  (p : PreparedResponseHead) (rest : list Z) :
  match length with Some n => 0 <= n < 2 ^ 64 | None => True end -> 0 <= max ->
  PrepareResponseHead now status hs length head close max ch = FromValue p ->
  exists own, read_head (wire p ++ rest) = Some (status_line status, map norm hs ++ own, rest)
    /\ client_framing head status (map norm hs ++ own) = (if head then Nothing else mode_framing status p)
    /\ values_of (txt "connection") (map norm hs ++ own)
       = [connection_value (close || bool_decide (mode p = CloseDelimited)) (existsb upgrade_field hs)]
    /\ len (wire p) <= max.
Proof.
  intros Hl Hmax H. apply prepare_ok in H; [|by destruct length; [lia|]|done].
  pose proof (read_prepared _ _ _ _ _ _ _ _ _ rest H) as Hr. pose proof (client_reads_framing _ _ _ _ _ _ _ _ _ Hl H) as Hc.
  unfold head_fields_of in Hr, Hc. rewrite map_app in Hr, Hc. eexists. split; [exact Hr|]. split; [exact Hc|].
  destruct H as [_ _ Hm _ Hsz _ Ho]. split; [|done]. rewrite !map_app, !values_of_app, Hm.
  rewrite values_of_other; [|done|eapply Forall_impl; [exact Ho|]; intros f Hf; unfold OwnedField in Hf; rewrite !orb_false_iff in Hf; tauto].
  replace (values_of _ (map norm (if existsb date_field hs then _ else _))) with (@nil (list Z)) by (by destruct (existsb date_field hs)).
  replace (values_of _ (map norm (framing_fields _ _ _))) with (@nil (list Z)) by (unfold framing_fields; case_if; [done|by case_if]).
  by destruct (close || _), (existsb upgrade_field hs).
Qed.

Lemma response_head_unambiguous_witness : exists p,
  PrepareResponseHead 784111777000000000 200 [(txt "X-Test", txt "a: b")] None false false 1024 true = FromValue p
  /\ mode p = Chunked
  /\ values_of (txt "connection") (map norm [(txt "X-Test", txt "a: b")]
       ++ map norm [(txt "Date", txt "Sun, 06 Nov 1994 08:49:37 GMT"); (txt "Transfer-Encoding", txt "chunked"); (txt "Connection", txt "keep-alive")])
     = [txt "keep-alive"].
Proof.
  eexists. split; [vm_compute; reflexivity|]. split; [reflexivity|].
  destruct (response_head_unambiguous 784111777000000000 200 [(txt "X-Test", txt "a: b")] None false false 1024 true _ [] I
    ltac:(lia) ltac:(vm_compute; reflexivity)) as (own & H & _ & Hc & _).
  vm_compute in H. injection H as <-. exact Hc.
Defined.
