(* ===== verification/HttpResponse.v ===== *)
(** * Web: one response.

    [Web/HttpResponseInternal.h|cpp]: the writer of one response, in its buffered ([Complete]) and its
    streamed form ([Start], [Write], [Finish]), with cancellation.  A transaction selects its wire text in
    the lock ([...Begin]), sends it outside ([SenderSend]) and records the result in the lock again
    ([SendCommit]); [Step] interleaves these with the calls of other threads.  What follows a lock outside
    it (stop sources, the observation, the connection's closing) is part of the step of its lock.  The
    result of [Connection::Send] and the clock are chosen by the environment; failures of allocation are
    left out. *)

From S2P Require Import Prelude CoreError RequestData Charconv HttpParser HttpWire Endpoint ResponseHead.
Import Charconv HttpParser ResponseHead.

Module HttpResponseState.

Definition SendQueueLimitBytes : Z := 1024 * 1024.

(** What the writer uses of [HttpServerOptions]. *)
Record HttpServerOptions : Type := MkOptions {
  maxHeaderBytes : Z;
  maxResponseBodyBytes : Z;
  maxStreamChunkBytes : Z;
  maxTotalSendQueueCapacityBytes : Z;
  handlerTimeout : Z;
  streamIdleTimeout : Z
}.

(** The constant members. *)
Record Config : Type := MkConfig {
  mOptions : HttpServerOptions;
  mHead : bool;
  mRequestClose : bool;
  mConnect : bool;
  mCloseDelimited : bool;
  mPolicyHeaders : Fields
}.

Definition NewConfig (options : HttpServerOptions) (head close connect : bool) (policyHeaders : Fields) (closeDelimited : bool) : Config :=
  MkConfig options head (close || closeDelimited) connect closeDelimited policyHeaders.

Inductive Phase : Type := New | Streaming | Finished | Aborted.

#[global] Instance Phase_eq_dec : EqDecision Phase.
Proof. solve_decision. Defined.

Record State : Type := MkState {
  mPhase : Phase;
  mMode : ResponseBodyMode;
  mLength : Z;
  mWritten : Z;
  mLastWrite : Z;
  mHandlerStarted : Z;
  mClose : bool;
  mSending : bool;
  mWaitsRetired : bool;
  mBlockedWireBytes : Z;
  mReservation : bool;
  mStatus : Z;
  mWaitCancelled : bool;
  mCancelled : bool
}.

Definition NewState (now : Z) : State := MkState New NoBody 0 0 now now false false false 0 true 0 false false.

Definition set_sending (s : State) : State :=
  MkState (mPhase s) (mMode s) (mLength s) (mWritten s) (mLastWrite s) (mHandlerStarted s) (mClose s) true (mWaitsRetired s)
    (mBlockedWireBytes s) (mReservation s) (mStatus s) (mWaitCancelled s) (mCancelled s).

(** The arguments of [SendTransaction]. *)
Record Transaction : Type := MkTransaction {
  tWire : list Z;
  tNext : Phase;
  tMode : ResponseBodyMode;
  tLength : Z;
  tWritten : Z;
  tClose : bool;
  tStatus : Z
}.

Definition MergePolicyHeaders (headers policy : Fields) : Fields :=
  fold_left (fun headers field =>
    let same entry :=
      EqualInsensitive entry.1 field.1
      && (negb (EqualInsensitive field.1 (txt "vary")) || EqualInsensitive entry.2 field.2) in
    if EqualInsensitive field.1 (txt "set-cookie") || negb (existsb same headers) then headers ++ [field] else headers)
    policy headers.

Definition MaxWriteBytes (c : Config) : Z :=
  let maximum := Z.min (maxTotalSendQueueCapacityBytes (mOptions c)) SendQueueLimitBytes in
  Z.min (maxStreamChunkBytes (mOptions c)) (if 32 <? maximum then maximum - 32 else 0).

Definition Fail (code : ErrorCode) : Status := Status.FailWithoutMessage code.

(** The checks every operation starts with. *)
Definition Busy (s : State) : option Status :=
  match mPhase s with
  | Finished | Aborted => Some (Fail Closed)
  | New | Streaming => if mSending s then Some (Fail WouldBlock) else None
  end.

Definition Success2xx (status : Z) : bool := (200 <=? status) && (status <? 300).

(** The locked part of [Start]: a status, or the transaction that [mSending] now stands for. *)
Definition StartBegin (c : Config) (now : Z) (value : HttpResponseHead) (s : State) : (Status + Transaction) * State :=
  match Busy s with
  | Some status => (inl status, s)
  | None =>
      if negb (bool_decide (mPhase s = New)) then (inl (Fail AlreadyExists), s)
      else if mConnect c && Success2xx (status value) then (inl (Fail InvalidArgument), s)
      else
        let head := MkHead (status value) (MergePolicyHeaders (headers value) (mPolicyHeaders c)) (contentLength value)
          (close value || mRequestClose c) in
        match PrepareHead now head (mHead c) (maxHeaderBytes (mOptions c)) (negb (mCloseDelimited c)) with
        | FromStatus status => (inl status, s)
        | FromValue prepared =>
            (inr (MkTransaction (wire prepared) Streaming (mode prepared) (ResponseHead.length prepared) 0
               (close head || bool_decide (mode prepared = CloseDelimited)) (status value)), set_sending s)
        end
  end.

Definition WriteBegin (c : Config) (bytes : list Z) (s : State) : (Status + Transaction) * State :=
  match Busy s with
  | Some status => (inl status, s)
  | None =>
      if negb (bool_decide (mPhase s = Streaming)) then (inl (Fail InvalidArgument), s)
      else if len bytes =? 0 then (inl Status.Ok, s)
      else if bool_decide (mMode s = NoBody) then (inl (Fail InvalidArgument), s)
      else if MaxWriteBytes c <? len bytes then (inl (Fail TooLarge), s)
      else if bool_decide (mMode s = FixedLength) && (wrap64 (mLength s - mWritten s) <? len bytes)
      then (inl (Fail InvalidArgument), s)
      else
        match (if bool_decide (mMode s = Chunked) then EncodeChunk bytes (maxStreamChunkBytes (mOptions c))
               else FromValue bytes) with
        | FromStatus status => (inl status, s)
        | FromValue text =>
            (inr (MkTransaction text Streaming (mMode s) (mLength s) (wrap64 (mWritten s + len bytes)) (mClose s) 0),
             set_sending s)
        end
  end.

Definition FinishBegin (s : State) : (Status + Transaction) * State :=
  match Busy s with
  | Some status => (inl status, s)
  | None =>
      if negb (bool_decide (mPhase s = Streaming)) then (inl (Fail InvalidArgument), s)
      else if bool_decide (mMode s = FixedLength) && negb (mWritten s =? mLength s) then (inl (Fail InvalidArgument), s)
      else
        (inr (MkTransaction (if bool_decide (mMode s = Chunked) then FinalChunk else []) Finished (mMode s) (mLength s)
           (mWritten s) (mClose s) 0), set_sending s)
  end.

Definition CompleteBegin (c : Config) (now : Z) (response : HttpResponse) (s : State) : (Status + Transaction) * State :=
  match Busy s with
  | Some status => (inl status, s)
  | None =>
      if negb (bool_decide (mPhase s = New)) then (inl (Fail AlreadyExists), s)
      else if maxResponseBodyBytes (mOptions c) <? len (respBody response) then (inl (Fail TooLarge), s)
      else if mConnect c && Success2xx (respStatus response) then (inl (Fail InvalidArgument), s)
      else
        let close := respClose response || mRequestClose c in
        let actual := MkResponse (respStatus response) (MergePolicyHeaders (respHeaders response) (mPolicyHeaders c))
          (respBody response) (respClose response) in
        match SerializeResponse now actual (mHead c) close (maxHeaderBytes (mOptions c)) (maxResponseBodyBytes (mOptions c)) with
        | None => (inl (Fail InvalidArgument), s)
        | Some text => (inr (MkTransaction text Finished NoBody 0 0 close (respStatus response)), set_sending s)
        end
  end.

(** The lock after the sending.  [None]: the response was aborted meanwhile, and [Closed] is returned. *)
Definition SendCommit (now : Z) (t : Transaction) (result : Status) (s : State) : option unit * State :=
  let s := MkState (mPhase s) (mMode s) (mLength s) (mWritten s) (mLastWrite s) (mHandlerStarted s) (mClose s) false
    (mWaitsRetired s) (mBlockedWireBytes s) (mReservation s) (mStatus s) (mWaitCancelled s) (mCancelled s) in
  if bool_decide (mPhase s = Aborted) then (None, s)
  else if Status.IsOk result then
    (Some tt, MkState (tNext t) (tMode t) (tLength t) (tWritten t) now (mHandlerStarted s) (tClose t) false (mWaitsRetired s) 0
       (if bool_decide (tNext t = Finished) then false else mReservation s)
       (if tStatus t =? 0 then mStatus s else tStatus t)
       (if bool_decide (tNext t = Finished) then true else mWaitCancelled s) (mCancelled s))
  else if bool_decide (Status.Code result = WouldBlock) then
    (Some tt, MkState (mPhase s) (mMode s) (mLength s) (mWritten s) (mLastWrite s) (mHandlerStarted s) (mClose s) false
       (mWaitsRetired s) (len (tWire t)) (mReservation s) (mStatus s) (mWaitCancelled s) (mCancelled s))
  else (Some tt, s).

(** The second lock of a finished response. *)
Definition Retire (s : State) : State :=
  MkState (mPhase s) (mMode s) (mLength s) (mWritten s) (mLastWrite s) (mHandlerStarted s) (mClose s) (mSending s) true
    (mBlockedWireBytes s) (mReservation s) (mStatus s) (mWaitCancelled s) (mCancelled s).

Definition MarkCancelled (s : State) : bool * State :=
  match mPhase s with
  | Finished | Aborted => (false, s)
  | New | Streaming =>
      (true, MkState Aborted (mMode s) (mLength s) (mWritten s) (mLastWrite s) (mHandlerStarted s) (mClose s) (mSending s)
         (mWaitsRetired s) (mBlockedWireBytes s) false (mStatus s) true true)
  end.

Definition IsFinished (s : State) : bool := bool_decide (mPhase s = Finished) && mWaitsRetired s.
Definition IsAborted (s : State) : bool := bool_decide (mPhase s = Aborted).
Definition ShouldClose (s : State) : bool := mClose s.
Definition HasStarted (s : State) : bool := negb (bool_decide (mPhase s = New)).

Definition TimedOut (c : Config) (now : Z) (handlerDeadline : bool) (s : State) : bool :=
  (handlerDeadline && bool_decide (mPhase s = New) && (handlerTimeout (mOptions c) <=? now - mHandlerStarted s))
  || (bool_decide (mPhase s = Streaming) && (streamIdleTimeout (mOptions c) <=? now - mLastWrite s)).

Definition RestartHandlerDeadline (now : Z) (s : State) : State :=
  MkState (mPhase s) (mMode s) (mLength s) (mWritten s) (mLastWrite s) now (mClose s) (mSending s) (mWaitsRetired s)
    (mBlockedWireBytes s) (mReservation s) (mStatus s) (mWaitCancelled s) (mCancelled s).

(** The bytes [WaitForWriteCapacity] asks the connection for, with a callback. *)
Definition RequiredCapacity (c : Config) (bytes : Z) (s : State) : Result Z :=
  match mPhase s with
  | Finished | Aborted => FromStatus (Fail Closed)
  | New | Streaming =>
      if MaxWriteBytes c <? bytes then FromStatus (Fail TooLarge)
      else if mSending s then FromStatus (Fail WouldBlock)
      else
        FromValue
          (if (bool_decide (mPhase s = New) || (bytes =? 0)) && negb (mBlockedWireBytes s =? 0) then mBlockedWireBytes s
           else if bool_decide (mPhase s = New)
                then Z.min (maxHeaderBytes (mOptions c)) (maxTotalSendQueueCapacityBytes (mOptions c))
           else if bytes =? 0 then 5 else bytes + (if bool_decide (mMode s = Chunked) then 32 else 0))
  end.

(** ** Threads *)

(** [TrackedSender] with what its connection has accepted, and how it is told to close. *)
Record Sender : Type := MkSender {
  stream : list Z;
  admitted : Z;
  lastWrite : Z;
  closeAfterSend : bool;
  closed : bool
}.

Definition SenderSend (now : Z) (bytes : list Z) (result : Status) (s : Sender) : Sender :=
  if Status.IsOk result then MkSender (stream s ++ bytes) (wrap64 (admitted s + len bytes)) now (closeAfterSend s) (closed s) else s.

Definition CloseConnection (s : Sender) : Sender := MkSender (stream s) (admitted s) (lastWrite s) (closeAfterSend s) true.
Definition DrainConnection (s : Sender) : Sender := MkSender (stream s) (admitted s) (lastWrite s) true (closed s).

(** The transaction of [mSending], before and after its sending, with the body bytes it carries. *)
Inductive Pending : Type :=
| Idle
| Selected (t : Transaction) (body : list Z)
| Sent (t : Transaction) (body : list Z) (result : Status).

(** [aborts]: failed transactions that have still to call [AbortWithReason]; [reports]: the calls of the
    observation; [pieces]: the body bytes of the accepted sendings. *)
Record World : Type := MkWorld {
  state : State;
  sender : Sender;
  pending : Pending;
  aborts : list ErrorCode;
  reports : list (ErrorCode * Z);
  pieces : list (list Z)
}.

Definition NewWorld (now : Z) : World := MkWorld (NewState now) (MkSender [] 0 0 false false) Idle [] [] [].

(** [Report] and what follows it in [Cancel] and [AbortWithReason]. *)
Definition CancelWorld (reason : ErrorCode) (close : bool) (w : World) : World :=
  match MarkCancelled (state w) with
  | (false, _) => w
  | (true, s) =>
      MkWorld s (if close then CloseConnection (sender w) else sender w) (pending w) (aborts w) (reports w ++ [(reason, mStatus s)]) (pieces w)
  end.

Definition SendBytes (t : Transaction) (now : Z) (result : Status) (s : Sender) : Sender :=
  if len (tWire t) =? 0 then s else SenderSend now (tWire t) result s.

(** The end of [SendTransaction], with the lock of [Retire] and the call of [AbortWithReason] left to
    steps of their own. *)
Definition CommitWorld (now : Z) (t : Transaction) (result : Status) (w : World) : World :=
  match SendCommit now t result (state w) with
  | (None, s) => MkWorld s (sender w) Idle (aborts w) (reports w) (pieces w)
  | (Some _, s) =>
      if Status.IsOk result then
        if bool_decide (tNext t = Finished) then
          MkWorld s (if tClose t then DrainConnection (sender w) else sender w) Idle (aborts w)
            (reports w ++ [(ErrorCode_Ok, mStatus s)]) (pieces w)
        else MkWorld s (sender w) Idle (aborts w) (reports w) (pieces w)
      else
        MkWorld s (sender w) Idle
          (if bool_decide (Status.Code result = WouldBlock) then aborts w else aborts w ++ [Status.Code result])
          (reports w) (pieces w)
  end.

Definition Carried (body : list Z) : list (list Z) := match body with [] => [] | _ => [body] end.

(** The widths of the arguments: [std::uint64_t] and [std::size_t]. *)
Definition HeadWidth (value : HttpResponseHead) : Prop :=
  match contentLength value with Some n => 0 <= n < 2 ^ 64 | None => True end.
Definition BodyWidth (response : HttpResponse) : Prop := len (respBody response) <= SIZE_MAX.

Inductive Step (c : Config) : World -> World -> Prop :=
| step_start now value t s w :
    HeadWidth value -> StartBegin c now value (state w) = (inr t, s) ->
    Step c w (MkWorld s (sender w) (Selected t []) (aborts w) (reports w) (pieces w))
| step_write bytes t s w :
    WriteBegin c bytes (state w) = (inr t, s) ->
    Step c w (MkWorld s (sender w) (Selected t bytes) (aborts w) (reports w) (pieces w))
| step_finish t s w :
    FinishBegin (state w) = (inr t, s) ->
    Step c w (MkWorld s (sender w) (Selected t []) (aborts w) (reports w) (pieces w))
| step_complete now response t s w :
    BodyWidth response -> CompleteBegin c now response (state w) = (inr t, s) ->
    Step c w (MkWorld s (sender w)
      (Selected t (if mHead c || NoContent (respStatus response) then [] else respBody response)) (aborts w) (reports w) (pieces w))
| step_send now t body result w :
    pending w = Selected t body -> (len (tWire t) =? 0 = true -> result = Status.Ok) ->
    Step c w (MkWorld (state w) (SendBytes t now result (sender w)) (Sent t body result) (aborts w) (reports w)
      (if Status.IsOk result then pieces w ++ Carried body else pieces w))
| step_commit now t body result w :
    pending w = Sent t body result -> Step c w (CommitWorld now t result w)
| step_retire w :
    mPhase (state w) = Finished ->
    Step c w (MkWorld (Retire (state w)) (sender w) (pending w) (aborts w) (reports w) (pieces w))
| step_abort before reason after w :
    aborts w = before ++ reason :: after ->
    Step c w (CancelWorld reason true (MkWorld (state w) (sender w) (pending w) (before ++ after) (reports w) (pieces w)))
| step_cancel reason close w : Step c w (CancelWorld reason close w)
| step_restart now w :
    Step c w (MkWorld (RestartHandlerDeadline now (state w)) (sender w) (pending w) (aborts w) (reports w) (pieces w)).

Inductive Run (c : Config) : World -> Prop :=
| run_new now : Run c (NewWorld now)
| run_step w w' : Run c w -> Step c w w' -> Run c w'.

End HttpResponseState.

Import HttpResponseState.

(** ** Chunks, read back *)

Definition chunk (body : list Z) : list Z := Endpoint.HexText (len body) ++ Crlf ++ body ++ Crlf.

Fixpoint decode_chunks (fuel : nat) (text : list Z) : option (list Z) :=
  match fuel with
  | O => None
  | S fuel =>
      match cut_sub Crlf text with
      | (_, None) => None
      | (line, Some rest) =>
          match Endpoint.HexWord line 0 with
          | None => None
          | Some size =>
              let n := Z.to_nat size in
              if size =? 0 then if bytes_eqb rest Crlf then Some [] else None
              else if negb (bytes_eqb (slice n 2 rest) Crlf) then None
              else
                match decode_chunks fuel (drop (n + 2) rest) with
                | Some body => Some (take n rest ++ body)
                | None => None
                end
          end
      end
  end.

Lemma hex_text_line n : 0 <= n -> 13 ∉ Endpoint.HexText n /\ Endpoint.HexWord (Endpoint.HexText n) 0 = Some n.
Proof.
  intros Hn. destruct (hex_text_spec n Hn) as (H1 & H2 & _ & _). split.
  - intros Hin. unfold hex_chars in H1. rewrite Forall_forall in H1. by specialize (H1 13 Hin).
  - rewrite hex_word_value by done. by f_equal.
Qed.

Lemma decode_chunks_text ps : Forall (fun b => b <> []) ps -> forall fuel, (List.length ps < fuel)%nat ->
  decode_chunks fuel (concat (map chunk ps) ++ FinalChunk) = Some (concat ps).
Proof.
  intros H. induction H as [|b ps Hb H IH]; intros fuel Hf; (destruct fuel as [|fuel]; [cbn in Hf; lia|]); [done|].
  cbn [map concat decode_chunks]. unfold chunk at 1. rewrite <-!app_assoc.
  destruct (hex_text_line (len b) (len_nonneg b)) as [H1 H2]. rewrite cut_crlf by done. rewrite H2.
  replace (len b =? 0) with false by (unfold len; destruct b; [done|cbn; lia]).
  unfold len. rewrite Nat2Z.id. unfold slice. rewrite drop_app_length, take_app_length.
  change (take 2 (Crlf ++ _)) with Crlf. rewrite bytes_eqb_refl. cbn [negb].
  rewrite <-drop_drop, drop_app_length. change (drop 2 (Crlf ++ _)) with (concat (map chunk ps) ++ FinalChunk).
  rewrite IH by (cbn in Hf; lia). done.
Qed.

Lemma chunks_length ps : (List.length ps <= List.length (concat (map chunk ps)))%nat.
Proof. induction ps as [|b ps IH]; [done|]. cbn [map concat List.length]. unfold chunk at 1. rewrite !length_app. cbn. lia. Qed.

(** The body of a stream that ends with it. *)
Definition decode_body (f : framing) (rest : list Z) : option (list Z) :=
  match f with
  | Nothing => if len rest =? 0 then Some [] else None
  | Bytes n => if len rest =? n then Some rest else None
  | Chunks => decode_chunks (S (List.length rest)) rest
  | UntilClose => Some rest
  | Ambiguous => None
  end.

(** ** What has been sent *)

Definition body_wire (m : ResponseBodyMode) (ps : list (list Z)) : list Z :=
  match m with Chunked => concat (map chunk ps) | _ => concat ps end.

Definition final_wire (m : ResponseBodyMode) : list Z := match m with Chunked => FinalChunk | _ => [] end.

(** The head of a response of this connection, and whether the connection closes after it. *)
Definition head_of (c : Config) (p : PreparedResponseHead) (closes : bool) : Prop :=
  exists now status hs length close ch, match length with Some n => 0 <= n < 2 ^ 64 | None => True end
    /\ PrepareResponseHead now status hs length (mHead c) close (maxHeaderBytes (mOptions c)) ch = FromValue p
    /\ closes = close || bool_decide (mode p = CloseDelimited).

Record body_ok (p : PreparedResponseHead) (ps : list (list Z)) : Prop := MkBodyOk {
  body_pieces : Forall (fun b => b <> []) ps;
  body_none : mode p = NoBody -> ps = [];
  body_length : mode p = FixedLength -> len (concat ps) <= length p < 2 ^ 64
}.

Definition described (c : Config) (ph : Phase) (m : ResponseBodyMode) (l wr : Z) (closes : bool) (st : list Z) (ps : list (list Z)) : Prop :=
  match ph with
  | New => st = [] /\ ps = []
  | Streaming => exists p, head_of c p closes /\ body_ok p ps /\ m = mode p /\ l = length p
      /\ (m = FixedLength -> wr = len (concat ps)) /\ st = wire p ++ body_wire m ps
  | Finished => exists p, head_of c p closes /\ body_ok p ps /\ (mode p = FixedLength -> len (concat ps) = length p)
      /\ st = wire p ++ body_wire (mode p) ps ++ final_wire (mode p)
  | Aborted => True
  end.

Definition state_described (c : Config) (s : State) (st : list Z) (ps : list (list Z)) : Prop :=
  described c (mPhase s) (mMode s) (mLength s) (mWritten s) (mClose s) st ps.
Definition target_described (c : Config) (t : Transaction) (st : list Z) (ps : list (list Z)) : Prop :=
  described c (tNext t) (tMode t) (tLength t) (tWritten t) (tClose t) st ps.

(** A selected transaction takes what was sent to what its target describes. *)
Definition selects (c : Config) (t : Transaction) (body : list Z) (st : list Z) (ps : list (list Z)) : Prop :=
  target_described c t (st ++ tWire t) (ps ++ Carried body) /\ (tNext t = Streaming \/ tNext t = Finished).

Definition terminal (ph : Phase) : bool := bool_decide (ph = Finished) || bool_decide (ph = Aborted).

Record inv (c : Config) (w : World) : Prop := MkInv {
  inv_sending : mSending (state w) = true <-> pending w <> Idle;
  inv_sent : mPhase (state w) <> Aborted ->
    match pending w with
    | Idle => state_described c (state w) (stream (sender w)) (pieces w)
    | Selected t body =>
        state_described c (state w) (stream (sender w)) (pieces w) /\ selects c t body (stream (sender w)) (pieces w)
        /\ mPhase (state w) <> Finished
    | Sent t body result =>
        (if Status.IsOk result then target_described c t (stream (sender w)) (pieces w) /\ (tNext t = Streaming \/ tNext t = Finished)
         else state_described c (state w) (stream (sender w)) (pieces w))
        /\ mPhase (state w) <> Finished
    end;
  inv_reports : List.length (reports w) = if terminal (mPhase (state w)) then 1%nat else 0%nat;
  inv_drain : mPhase (state w) = Finished -> mClose (state w) = true -> closeAfterSend (sender w) = true
}.

(** ** Selections *)

Definition began (s s' : State) : Prop :=
  s' = set_sending s /\ mSending s = false /\ (mPhase s = New \/ mPhase s = Streaming).

Lemma busy_none s : Busy s = None -> mSending s = false /\ (mPhase s = New \/ mPhase s = Streaming).
Proof. unfold Busy. destruct (mPhase s); try done; (destruct (mSending s); [done|]); auto. Qed.

(** Split the checks of an operation that selected a transaction. *)
Ltac began H Hd :=
  let E := fresh "Eb" in
  destruct (Busy _) eqn:E; [done|]; apply busy_none in E;
  specialize (Hd (proj1 E) ltac:(destruct E as [_ [-> | ->]]; done));
  repeat (case_if_in H; [discriminate H|]).

(** What is known of a response of which nothing is pending. *)
Definition known (c : Config) (s : State) (st : list Z) (ps : list (list Z)) : Prop :=
  mSending s = false -> mPhase s <> Aborted -> state_described c s st ps.

Section Responses.

Context (c : Config) (Hmax : 0 <= maxHeaderBytes (mOptions c)).

Lemma head_length p closes : head_of c p closes -> 0 <= length p < 2 ^ 64.
Proof.
  intros (now & status & hs & l & close & ch & Hl & H & _). apply prepare_ok in H as [_ _ _ -> _ _ _]; [|by destruct l; [lia|]|done].
  destruct (NoContent status), l; unfold default, id; try lia; done.
Qed.

Lemma start_selects now value s t s' st ps :
  HeadWidth value -> StartBegin c now value s = (inr t, s') -> known c s st ps ->
  began s s' /\ selects c t [] st ps.
Proof.
  unfold StartBegin, PrepareHead. intros Hw H Hd. began H Hd.
  destruct (PrepareResponseHead _ _ _ _ _ _ _ _) as [p|] eqn:Ep; [|done]. injection H as <- <-. split; [done|].
  apply negb_false_iff, bool_decide_eq_true in E. unfold state_described in Hd. rewrite E in Hd. destruct Hd as [-> ->].
  split; [|by left]. unfold target_described, described. cbn [tNext tMode tLength tWritten tClose tWire app Carried].
  cbn [ResponseHead.status ResponseHead.headers contentLength close] in Ep.
  assert (Hh : head_of c p (close value || mRequestClose c || bool_decide (mode p = CloseDelimited))) by (by do 6 eexists).
  exists p. split; [done|]. split; [split; [constructor|done|]|].
  - intros _. apply head_length in Hh. change (len (concat [])) with 0. lia.
  - repeat split; try done. unfold body_wire. destruct (mode p); by rewrite app_nil_r.
Qed.

Lemma encode_chunk bytes max text : EncodeChunk bytes max = FromValue text -> text = chunk bytes.
Proof. unfold EncodeChunk. case_if; [done|]. case_if; [done|]. case_if; [done|]. by intros [= <-]. Qed.

Lemma body_wire_snoc m ps b : b <> [] -> body_wire m (ps ++ [b]) = body_wire m ps ++ (if bool_decide (m = Chunked) then chunk b else b).
Proof. intros _. unfold body_wire. destruct m; cbn; rewrite ?map_app, !concat_app; cbn; by rewrite app_nil_r. Qed.

Lemma write_selects bytes s t s' st ps :
  WriteBegin c bytes s = (inr t, s') -> known c s st ps -> began s s' /\ selects c t bytes st ps.
Proof.
  unfold WriteBegin. intros H Hd. began H Hd. apply negb_false_iff, bool_decide_eq_true in E. apply bool_decide_eq_false in E1.
  unfold state_described in Hd. rewrite E in Hd. destruct Hd as (p & Hh & [B1 B2 B3] & Hm & Hl & Hw & ->).
  assert (Hne : bytes <> []) by (by intros ->).
  destruct (if bool_decide (mMode s = Chunked) then _ else _) as [text|] eqn:Et; [|done]. injection H as <- <-. split; [done|].
  assert (text = if bool_decide (mMode s = Chunked) then chunk bytes else bytes) as ->.
  { revert Et. destruct (bool_decide (mMode s = Chunked)); [apply encode_chunk|by intros [= <-]]. }
  split; [|by left]. unfold target_described, described. cbn [tNext tMode tLength tWritten tClose tWire].
  assert (Carried bytes = [bytes]) as -> by (by destruct bytes). pose proof (head_length p _ Hh) as Hr.
  assert (Hfix : mode p = FixedLength -> len (concat (ps ++ [bytes])) <= length p /\ wrap64 (mWritten s + len bytes) = len (concat (ps ++ [bytes]))).
  { intros Hf. specialize (B3 Hf). rewrite Hw in * by congruence. rewrite concat_app, len_app. cbn [concat]. rewrite app_nil_r.
    pose proof (len_nonneg bytes). pose proof (len_nonneg (concat ps)). unfold wrap64 in *.
    rewrite bool_decide_eq_true_2 in E3 by congruence. cbn [andb] in E3. rewrite Hl in E3. rewrite Z.mod_small in E3 by lia.
    split; [lia|]. apply Z.mod_small. lia. }
  exists p. split; [done|]. split; [split|].
  - apply Forall_app. split; [done|]. by constructor; [|constructor].
  - congruence.
  - intros Hf. destruct (Hfix Hf). lia.
  - split; [done|]. split; [done|]. split; [intros Hf; apply Hfix; congruence|]. by rewrite body_wire_snoc, app_assoc.
Qed.

Lemma finish_selects s t s' st ps :
  FinishBegin s = (inr t, s') -> known c s st ps -> began s s' /\ selects c t [] st ps.
Proof.
  unfold FinishBegin. intros H Hd. began H Hd. injection H as <- <-. apply negb_false_iff, bool_decide_eq_true in E. split; [done|].
  unfold state_described in Hd. rewrite E in Hd. destruct Hd as (p & Hh & B & Hm & Hl & Hw & ->).
  split; [|by right]. unfold target_described, described. cbn [tNext tMode tLength tWritten tClose tWire Carried].
  rewrite app_nil_r. exists p. split; [done|]. split; [done|]. split.
  - intros Hf. rewrite bool_decide_eq_true_2 in E0 by congruence. cbn [andb] in E0. rewrite <-Hw by congruence. lia.
  - rewrite Hm, <-app_assoc. unfold final_wire. by destruct (mode p).
Qed.

Lemma complete_selects now response s t s' st ps :
  BodyWidth response -> CompleteBegin c now response s = (inr t, s') -> known c s st ps ->
  began s s' /\ selects c t (if mHead c || NoContent (respStatus response) then [] else respBody response) st ps.
Proof.
  unfold CompleteBegin, SerializeResponse, BodyWidth. intros Hw H Hd. began H Hd. apply negb_false_iff, bool_decide_eq_true in E.
  cbn [respStatus respHeaders respBody] in H.
  destruct (PrepareResponseHead _ _ _ _ _ _ _ _) as [p|] eqn:Ep; [|done]. injection H as <- <-. split; [done|].
  unfold state_described in Hd. rewrite E in Hd. destruct Hd as [-> ->]. split; [|by right].
  pose proof (len_nonneg (respBody response)) as Hn. unfold SIZE_MAX, UINT64_MAX in Hw.
  pose proof (prepare_ok _ _ _ (Some (len (respBody response))) _ _ _ _ _ Hn Hmax Ep) as [_ _ Hm Hl _ _ _]. unfold BodyMode in Hm.
  rewrite (bool_decide_eq_true_2 (Some _ <> None)) in Hm by done. cbn [default] in Hl. unfold id in Hl.
  unfold target_described, described. cbn [tNext tMode tLength tWritten tClose tWire app].
  exists p. split; [|split].
  - do 6 eexists. split; [|split; [exact Ep|]]; [cbn; eval_pow; lia|]. by destruct (mHead c || _); rewrite Hm, orb_false_r.
  - destruct (mHead c || NoContent (respStatus response)) eqn:Eh; split; cbn [Carried]; rewrite ?Hm; try done.
    + destruct (respBody response) as [|b l] eqn:Er; cbn [Carried]; [constructor|]. by constructor; [|constructor].
    + intros _. apply orb_false_iff in Eh as [_ Eh]. rewrite Eh in Hl. rewrite Hl.
      assert (concat (Carried (respBody response)) = respBody response) as -> by (destruct (respBody response); cbn; by rewrite ?app_nil_r).
      split; [done|]. eval_pow. lia.
  - destruct (mHead c || NoContent (respStatus response)) eqn:Eh; rewrite Hm; cbn [body_wire final_wire].
    + split; [done|]. rewrite bool_decide_eq_true_2 by done. done.
    + apply orb_false_iff in Eh as [_ Eh]. rewrite Eh in Hl. rewrite bool_decide_eq_false_2 by done.
      assert (concat (Carried (respBody response)) = respBody response) as -> by (destruct (respBody response); cbn; by rewrite ?app_nil_r).
      by rewrite app_nil_r.
Qed.

(** ** The invariant *)

Lemma inv_begin w s' t body : inv c w -> mPhase (state w) <> Aborted ->
  (forall st ps, known c (state w) st ps -> began (state w) s' /\ selects c t body st ps) ->
  inv c (MkWorld s' (sender w) (Selected t body) (aborts w) (reports w) (pieces w)).
Proof.
  intros [H1 H2 H3 H4] Ha Hb. destruct (Hb (stream (sender w)) (pieces w)) as [(-> & Hs & Hp) Hsel].
  { intros Hs _. destruct (pending w); [by apply H2|exfalso; by rewrite (proj2 H1) in Hs..]. }
  assert (pending w = Idle) as Ep by (destruct (pending w); [done|exfalso; by rewrite (proj2 H1) in Hs..]).
  rewrite Ep in H2. split; cbn [state sender pending reports pieces]; try done.
  intros _. split; [by apply H2|]. split; [done|]. cbn. by destruct Hp as [-> | ->].
Qed.

Lemma begin_open s : Busy s = None -> mPhase s <> Aborted.
Proof. intros [_ [H|H]]%busy_none; by rewrite H. Qed.

Lemma world_inv_send now t body result w : inv c w -> pending w = Selected t body -> (len (tWire t) =? 0 = true -> result = Status.Ok) ->
  inv c (MkWorld (state w) (SendBytes t now result (sender w)) (Sent t body result) (aborts w) (reports w)
    (if Status.IsOk result then pieces w ++ Carried body else pieces w)).
Proof.
  intros [H1 H2 H3 H4] Hp Hr. rewrite Hp in *.
  assert (Hst : stream (SendBytes t now result (sender w)) = stream (sender w) ++ (if Status.IsOk result then tWire t else [])
    /\ closeAfterSend (SendBytes t now result (sender w)) = closeAfterSend (sender w)).
  { unfold SendBytes, SenderSend. destruct (len (tWire t) =? 0) eqn:El.
    - assert (tWire t = []) as -> by (unfold len in El; destruct (tWire t); [done|cbn in El; lia]). by destruct (Status.IsOk result); rewrite app_nil_r.
    - destruct (Status.IsOk result); [done|]. by rewrite app_nil_r. }
  destruct Hst as [Hst Hcl]. split; cbn [state sender pending reports pieces]; [|intros Ha|done|by rewrite Hcl].
  - split; [done|]. intros _. by apply H1.
  - destruct (H2 Ha) as (Hd & [Hs Hn] & Hf). rewrite Hst. destruct (Status.IsOk result); [done|]. by rewrite app_nil_r.
Qed.

Lemma world_inv_commit now t body result w : inv c w -> pending w = Sent t body result -> inv c (CommitWorld now t result w).
Proof.
  intros [H1 H2 H3 H4] Hp. rewrite Hp in *. unfold CommitWorld, SendCommit. cbn [mPhase].
  destruct (bool_decide (mPhase (state w) = Aborted)) eqn:Ea.
  - apply bool_decide_eq_true in Ea. split; cbn [state sender pending reports pieces mSending mPhase mClose]; try done.
  - apply bool_decide_eq_false in Ea. destruct (H2 Ea) as [Hd Hf]. destruct (Status.IsOk result) eqn:Er.
    + destruct Hd as [Hd Hn]. assert (terminal (mPhase (state w)) = false) as Ht by (unfold terminal; by rewrite !bool_decide_eq_false_2).
      rewrite Ht in H3. destruct (bool_decide (tNext t = Finished)) eqn:En; [apply bool_decide_eq_true in En|apply bool_decide_eq_false in En].
      * split; cbn [state sender pending reports pieces mSending mPhase mClose].
        -- done.
        -- intros _. assert (stream (if tClose t then DrainConnection (sender w) else sender w) = stream (sender w)) as -> by (by destruct (tClose t)).
           exact Hd.
        -- rewrite length_app, H3, En. done.
        -- intros _ ->. done.
      * assert (tNext t = Streaming) as En' by (by destruct Hn). split; cbn [state sender pending reports pieces mSending mPhase mClose]; try done.
        by rewrite H3, En'.
    + destruct (bool_decide (Status.Code result = WouldBlock)); split;
        cbn [state sender pending reports pieces mSending mPhase mClose]; done.
Qed.

Lemma world_inv_cancel reason close w : inv c w -> inv c (CancelWorld reason close w).
Proof.
  intros Hi. unfold CancelWorld, MarkCancelled. destruct (mPhase (state w)) eqn:Ep; [| |done|done];
    destruct Hi as [H1 H2 H3 H4]; split; cbn [state sender pending reports pieces mSending mPhase mClose]; try done;
    rewrite length_app, H3, Ep; done.
Qed.

Lemma world_step_inv w w' : inv c w -> Step c w w' -> inv c w'.
Proof.
  intros Hi Hs. destruct Hs as [now value t s w Hw H|bytes t s w H|t s w H|now response t s w Hw H|now t body result w Hp Hr
    |now t body result w Hp|w Hp|before reason after w Ha|reason close w|now w].
  - apply inv_begin; [done|apply begin_open; unfold StartBegin in H; by destruct (Busy _)|]. intros st ps Hk. by eapply start_selects.
  - apply inv_begin; [done|apply begin_open; unfold WriteBegin in H; by destruct (Busy _)|]. intros st ps Hk. by eapply write_selects.
  - apply inv_begin; [done|apply begin_open; unfold FinishBegin in H; by destruct (Busy _)|]. intros st ps Hk. by eapply finish_selects.
  - apply inv_begin; [done|apply begin_open; unfold CompleteBegin in H; by destruct (Busy _)|]. intros st ps Hk. by eapply complete_selects.
  - by eapply world_inv_send.
  - by eapply world_inv_commit.
  - destruct Hi as [H1 H2 H3 H4]. split; done.
  - apply world_inv_cancel. destruct Hi as [H1 H2 H3 H4]. split; done.
  - by apply world_inv_cancel.
  - destruct Hi as [H1 H2 H3 H4]. split; done.
Qed.

Lemma world_run_inv w : Run c w -> inv c w.
Proof.
  induction 1 as [now|w w' _ IH Hs]; [|by eapply world_step_inv]. split; try done.
Qed.

(** A finished response decodes. *)
Lemma head_of_decodes p closes ps : head_of c p closes -> body_ok p ps -> (mode p = FixedLength -> len (concat ps) = length p) ->
  exists status fields, read_head (wire p ++ body_wire (mode p) ps ++ final_wire (mode p))
    = Some (status_line status, fields, body_wire (mode p) ps ++ final_wire (mode p))
  /\ decode_body (client_framing (mHead c) status fields) (body_wire (mode p) ps ++ final_wire (mode p)) = Some (concat ps)
  /\ (client_framing (mHead c) status fields = UntilClose -> closes = true).
Proof.
  intros (now & status & hs & l & close & ch & Hl & Hp & ->) [B1 B2 _] Hlen.
  apply prepare_ok in Hp; [|by destruct l; [lia|]|done]. exists status, (map norm (head_fields_of now status hs l (mHead c) close ch)).
  split; [by eapply read_prepared|]. rewrite (client_reads_framing _ _ _ _ _ _ _ _ _ Hl Hp).
  pose proof (prepared_mode _ _ _ _ _ _ _ _ _ Hp) as Hm. unfold mode_framing. destruct (mHead c).
  - cbn [BodyMode orb] in Hm. rewrite Hm, B2 by done. done.
  - destruct (mode p) eqn:Em; cbn [body_wire final_wire].
    + rewrite B2 by done. by destruct (status =? 205).
    + rewrite app_nil_r. cbn [decode_body]. by rewrite Hlen, Z.eqb_refl.
    + cbn [decode_body]. split; [|done]. apply decode_chunks_text; [done|]. pose proof (chunks_length ps). rewrite length_app. lia.
    + rewrite app_nil_r. split; [done|]. intros _. apply orb_true_r.
Qed.

Lemma finished_idle w : inv c w -> mPhase (state w) = Finished -> pending w = Idle.
Proof.
  intros [_ H2 _ _] Hf. rewrite Hf in H2. specialize (H2 ltac:(done)). destruct (pending w); [done|tauto|tauto].
Qed.

Lemma finished_stable w w' : inv c w -> mPhase (state w) = Finished -> Step c w w' ->
  mPhase (state w') = Finished /\ stream (sender w') = stream (sender w) /\ pieces w' = pieces w /\ reports w' = reports w.
Proof.
  intros Hi Hf Hs. pose proof (finished_idle w Hi Hf) as Hp. assert (Hb : Busy (state w) = Some (Fail Closed)) by (unfold Busy; by rewrite Hf).
  destruct Hs as [now value t s w Hw H|bytes t s w H|t s w H|now response t s w Hw H|now t body result w Hp' Hr
    |now t body result w Hp'|w _|before reason after w Ha|reason close w|now w]; try congruence.
  - unfold StartBegin in H. by rewrite Hb in H.
  - unfold WriteBegin in H. by rewrite Hb in H.
  - unfold FinishBegin in H. by rewrite Hb in H.
  - unfold CompleteBegin in H. by rewrite Hb in H.
  - done.
  - unfold CancelWorld, MarkCancelled. cbn [state]. by rewrite Hf.
  - unfold CancelWorld, MarkCancelled. by rewrite Hf.
  - done.
Qed.

End Responses.

(** C9. A finished response is what was written: in every run of the operations, of the sender's results, of
    cancellations and of the interleaving of threads, once the response is finished the bytes the connection has
    accepted are one head and one body that a strict client decodes to exactly the bytes of the accepted writes
    (or of the buffered body), whichever way the body is delimited; where it ends with the connection, the
    connection was told to close.  The end is reported once, and no later step sends a byte or changes it. *)
Theorem finished_response_decodes (c : Config) (w : World) :
  0 <= maxHeaderBytes (mOptions c) -> Run c w -> mPhase (state w) = Finished ->
  (exists status fields rest, read_head (stream (sender w)) = Some (status_line status, fields, rest)
    /\ decode_body (client_framing (mHead c) status fields) rest = Some (concat (pieces w))
    /\ (client_framing (mHead c) status fields = UntilClose -> closeAfterSend (sender w) = true))
  /\ List.length (reports w) = 1%nat
  /\ (forall w', Step c w w' -> mPhase (state w') = Finished /\ stream (sender w') = stream (sender w)
        /\ pieces w' = pieces w /\ reports w' = reports w).
Proof.
  intros Hmax Hr Hf. pose proof (world_run_inv c Hmax w Hr) as Hi. pose proof (finished_idle c w Hi Hf) as Hp.
  split; [|split; [|intros w'; by apply (finished_stable c)]].
  - destruct Hi as [_ H2 _ H4]. rewrite Hp in H2. unfold state_described in H2. rewrite Hf in *. specialize (H2 ltac:(done)).
    destruct H2 as (p & Hh & Hb & Hl & ->). destruct (head_of_decodes c Hmax p _ _ Hh Hb Hl) as (status & fields & H1 & H2 & H3).
    exists status, fields, (body_wire (mode p) (pieces w) ++ final_wire (mode p)). split; [done|]. split; [done|]. auto.
  - rewrite (inv_reports c w Hi), Hf. done.
Qed.

Definition sample_config : Config := NewConfig (MkOptions 1024 1024 64 4096 30000 120000) false false false [] false.
Definition sample_head : HttpResponseHead := MkHead 200 [(txt "Date", txt "now")] None false.

(** A streamed response of one chunk: its selections, sendings and commits. *)
Lemma finished_response_decodes_witness : exists w, Run sample_config w /\ mPhase (state w) = Finished
  /\ pieces w = [txt "hello"] /\ List.length (reports w) = 1%nat.
Proof.
  assert (exists w, Run sample_config w /\ mPhase (state w) = Finished /\ pieces w = [txt "hello"]) as (w & Hr & Hf & Hp).
  { pose proof (run_new sample_config 0) as R0.
    eassert (R1 : Run sample_config _) by (eapply run_step; [exact R0|eapply (step_start _ 0 sample_head); [exact I|vm_compute; reflexivity]]).
    eassert (R2 : Run sample_config _) by (eapply run_step; [exact R1|eapply (step_send _ 0 _ _ Status.Ok); [reflexivity|done]]).
    eassert (R3 : Run sample_config _) by (eapply run_step; [exact R2|eapply (step_commit _ 0); reflexivity]).
    eassert (R4 : Run sample_config _) by (eapply run_step; [exact R3|eapply (step_write _ (txt "hello")); vm_compute; reflexivity]).
    eassert (R5 : Run sample_config _) by (eapply run_step; [exact R4|eapply (step_send _ 0 _ _ Status.Ok); [reflexivity|done]]).
    eassert (R6 : Run sample_config _) by (eapply run_step; [exact R5|eapply (step_commit _ 0); reflexivity]).
    eassert (R7 : Run sample_config _) by (eapply run_step; [exact R6|eapply step_finish; vm_compute; reflexivity]).
    eassert (R8 : Run sample_config _) by (eapply run_step; [exact R7|eapply (step_send _ 0 _ _ Status.Ok); [reflexivity|done]]).
    eassert (R9 : Run sample_config _) by (eapply run_step; [exact R8|eapply (step_commit _ 0); reflexivity]).
    eexists. split; [exact R9|]. split; vm_compute; reflexivity. }
  exists w. split; [exact Hr|]. split; [exact Hf|]. split; [exact Hp|].
  exact (proj1 (proj2 (finished_response_decodes sample_config w ltac:(vm_compute; discriminate) Hr Hf))).
Defined.

(** The capacity [WaitForWriteCapacity] waits for is enough for the wire text of the write it was asked for. *)
Lemma write_capacity_suffices (c : Config) (bytes : list Z) (s s' : State) (t : Transaction) (r : Z) :
  RequiredCapacity c (len bytes) s = FromValue r -> WriteBegin c bytes s = (inr t, s') -> len (tWire t) <= r.
Proof.
  unfold RequiredCapacity, WriteBegin. intros Hr H. destruct (Busy s) eqn:Eb; [done|]. repeat (case_if_in H; [discriminate H|]).
  apply negb_false_iff, bool_decide_eq_true in E. rewrite E in Hr. do 2 (case_if_in Hr; [done|]).
  change (bool_decide (Streaming = New)) with false in Hr. rewrite ?E0 in Hr. cbn [orb andb] in Hr. injection Hr as <-.
  destruct (bool_decide (mMode s = Chunked)).
  - destruct (EncodeChunk _ _) as [text|] eqn:Et; [|done]. injection H as <- _. cbn [tWire].
    unfold EncodeChunk in Et. rewrite E0 in Et. case_if_in Et; [done|]. case_if_in Et; [done|]. injection Et as <-.
    match goal with H : (16 <? _) || _ = false |- _ => apply orb_false_iff in H as [H _] end.
    unfold len in *. rewrite length_app. cbn [List.length]. rewrite length_app. change (List.length Crlf) with 2%nat. lia.
  - injection H as <- _. cbn [tWire]. lia.
Qed.
