(* ===== verification/DatagramTransport.v ===== *)
(** * Runtime: the datagram transport.

    [Runtime/DatagramTransport.cpp]: sessions registered with bearer tokens, sending with consecutive
    sequence numbers under byte rates, and the receiving of [PollPayload], whose critical sections other
    threads interleave with ([Step]).  The socket's and the generator's results, the clock and the callbacks
    are chosen by the environment.  [long double] values are rationals with the rounding [rnd] of the
    format after every operation.  The readiness monitor and the receive pump, which call [PollDatagrams]
    from other threads, and failures of allocation are left out. *)

From S2P Require Import Prelude CoreError Envelopes Message Endpoint.
From Stdlib Require Import QArith Qminmax.
From stdpp Require Import gmap.
Import DatagramCodec Endpoint.
#[local] Open Scope Z_scope.

Module DatagramTransport.

Inductive PayloadMode : Type := Json | Binary.

#[global] Instance PayloadMode_eq_dec : EqDecision PayloadMode.
Proof. solve_decision. Defined.

Record SendRate : Type := MkRate { bytesPerInterval : Z; burstBytes : Z; interval : Z }.

Record DatagramPollBudget : Type := MkBudget { maximumDatagrams : Z; maximumBytes : Z }.

Record DatagramTransportOptions : Type := MkOptions {
  maxRegisteredSessions : Z;
  payloadMode : PayloadMode;
  totalSendRate : SendRate;
  peerSendRate : SendRate;
  allowEndpointMigration : bool;
  maxSequenceJump : Z
}.

Definition DefaultOptions : DatagramTransportOptions :=
  MkOptions 256 Json (MkRate 0 0 1000) (MkRate 0 0 1000) false 1024.

(** The counters of [Metrics]. *)
Inductive Counter : Type :=
| receivedDatagrams | receivedBytes | sentDatagrams | sentBytes | rejectedDatagrams | sendWouldBlock | socketErrors
| truncatedDatagrams | malformedDatagrams | unknownTokenDatagrams | replayedDatagrams | invalidPayloadDatagrams
| admissionRejectedDatagrams | staleDatagrams | callbackFailures | endpointMismatchDatagrams | sequenceJumpDatagrams
| sendRateLimited | sendLimitedGlobal | sendLimitedPeer | sendNotReady | pollContentions.

#[global] Instance Counter_eq_dec : EqDecision Counter.
Proof. solve_decision. Defined.

Definition Metrics : Type := Counter -> Z.

Definition Add (c : Counter) (n : Z) (m : Metrics) : Metrics :=
  fun k => if decide (k = c) then wrap64 (m k + n) else m k.

(** [ConsumeBytes]: an addition that saturates. *)
Definition ConsumeBytes (consumed count : Z) : Z :=
  let remaining := SIZE_MAX - consumed in consumed + (if count <? remaining then count else remaining).

Definition ValidRate (rate : SendRate) : bool :=
  if (bytesPerInterval rate =? 0) && (burstBytes rate =? 0) then true
  else negb (bytesPerInterval rate =? 0) && (bytesPerInterval rate <=? 2 ^ 40) && (MaximumDatagramBytes <=? burstBytes rate)
       && (burstBytes rate <=? 2 ^ 40) && (0 <? interval rate) && (interval rate <=? 24 * 3600 * 1000).

Record SendBucket : Type := MkBucket { bytes : Q; updated : Z }.

Record Peer : Type := MkPeer {
  token : list Z;
  endpoint : IpEndpoint;
  registration : Z;
  receivedSequence : Z;
  sentSequence : Z;
  ready : bool;
  peerBucket : SendBucket
}.

Record Impl : Type := MkImpl {
  isOpen : bool;
  bindingGeneration : Z;
  registrationGeneration : Z;
  peers : gmap Z Peer;
  tokens : gmap (list Z) Z;
  metrics : Metrics;
  options : DatagramTransportOptions;
  sendBucket : SendBucket;
  polling : bool
}.

Definition NewImpl : Impl :=
  MkImpl false 0 0 ∅ ∅ (fun _ => 0) DefaultOptions (MkBucket 0 0) false.

Definition Fail (code : ErrorCode) : Status := Status.FailWithoutMessage code.

Definition count (c : Counter) (s : Impl) : Impl :=
  MkImpl (isOpen s) (bindingGeneration s) (registrationGeneration s) (peers s) (tokens s) (Add c 1 (metrics s)) (options s)
    (sendBucket s) (polling s).

Definition count_by (c : Counter) (n : Z) (s : Impl) : Impl :=
  MkImpl (isOpen s) (bindingGeneration s) (registrationGeneration s) (peers s) (tokens s) (Add c n (metrics s)) (options s)
    (sendBucket s) (polling s).

(** Both counters of a refused datagram. *)
Definition reject (reason : Counter) (s : Impl) : Impl := count reason (count rejectedDatagrams s).

Definition set_polling (b : bool) (s : Impl) : Impl :=
  MkImpl (isOpen s) (bindingGeneration s) (registrationGeneration s) (peers s) (tokens s) (metrics s) (options s) (sendBucket s) b.

Definition set_peer (id : Z) (p : Peer) (s : Impl) : Impl :=
  MkImpl (isOpen s) (bindingGeneration s) (registrationGeneration s) (<[id := p]> (peers s)) (tokens s) (metrics s) (options s)
    (sendBucket s) (polling s).

Definition set_bucket (b : SendBucket) (s : Impl) : Impl :=
  MkImpl (isOpen s) (bindingGeneration s) (registrationGeneration s) (peers s) (tokens s) (metrics s) (options s) b (polling s).

Section Rates.

Context (rnd : Q -> Q).

Definition ToLongDouble (z : Z) : Q := rnd (inject_Z z).

Definition ResetBucket (rate : SendRate) (now : Z) : SendBucket := MkBucket (ToLongDouble (burstBytes rate)) now.

(** Whether the bucket has [count] bytes, and the bucket filled up to [now]. *)
Definition Available (rate : SendRate) (count now : Z) (b : SendBucket) : bool * SendBucket :=
  if bytesPerInterval rate =? 0 then (true, b)
  else
    let elapsed := rnd (ToLongDouble (now - updated b) / inject_Z 1000000) in
    let added := rnd (rnd (elapsed * ToLongDouble (bytesPerInterval rate)) / ToLongDouble (interval rate)) in
    let filled := Qmin (ToLongDouble (burstBytes rate)) (rnd (bytes b + added)) in
    (Qle_bool (ToLongDouble count) filled, MkBucket filled now).

Definition Consume (rate : SendRate) (count : Z) (b : SendBucket) : SendBucket :=
  if bytesPerInterval rate =? 0 then b else MkBucket (rnd (bytes b - ToLongDouble count)) (updated b).

(** ** Configuration and registration *)

Definition Configure (o : DatagramTransportOptions) (s : Impl) : Status * Impl :=
  if (maxRegisteredSessions o =? 0) || (maxSequenceJump o =? 0) || negb (ValidRate (totalSendRate o))
     || negb (ValidRate (peerSendRate o)) then (Fail InvalidArgument, s)
  else if 65536 <? maxRegisteredSessions o then (Fail TooLarge, s)
  else if negb (bindingGeneration s =? 0) then (Fail Closed, s)
  else (Status.Ok, MkImpl (isOpen s) (bindingGeneration s) (registrationGeneration s) (peers s) (tokens s) (metrics s) o
          (sendBucket s) (polling s)).

(** [result] is the socket's. *)
Definition Bind (now : Z) (result : Status) (s : Impl) : Status * Impl :=
  if isOpen s then (Fail AlreadyExists, s)
  else if bindingGeneration s =? UINT64_MAX then (Fail Closed, s)
  else if Status.IsOk result then
    (result, MkImpl true (bindingGeneration s + 1) (registrationGeneration s) (peers s) (tokens s) (metrics s) (options s)
       (ResetBucket (totalSendRate (options s)) now) (polling s))
  else (result, s).

Definition Close (s : Impl) : Impl :=
  MkImpl false (bindingGeneration s) (registrationGeneration s) ∅ ∅ (metrics s) (options s) (sendBucket s) (polling s).

Definition RemoteEndpoint (id : Z) (s : Impl) : Result IpEndpoint :=
  match peers s !! id with
  | None => FromStatus (Fail NotFound)
  | Some p => if negb (ready p) then FromStatus (Fail WouldBlock) else FromValue (endpoint p)
  end.

(** The generator's results until a token that is not in use; [None]: none of them is one. *)
Fixpoint FreshToken (draws : list (Result (list Z))) (s : Impl) : option (Result (list Z)) :=
  match draws with
  | [] => None
  | FromStatus status :: _ => Some (FromStatus status)
  | FromValue t :: draws => if decide (is_Some (tokens s !! t)) then FreshToken draws s else Some (FromValue t)
  end.

Definition RegisterSession (now id : Z) (draws : list (Result (list Z))) (s : Impl) : option (Result (list Z) * Impl) :=
  if negb (isOpen s) then Some (FromStatus (Fail Closed), s)
  else if (id =? 0) || bool_decide (is_Some (peers s !! id)) then Some (FromStatus (Fail InvalidArgument), s)
  else if maxRegisteredSessions (options s) <=? Z.of_nat (size (peers s)) then Some (FromStatus (Fail WouldBlock), s)
  else if registrationGeneration s =? UINT64_MAX then Some (FromStatus (Fail Closed), s)
  else
    match FreshToken draws s with
    | None => None
    | Some (FromStatus status) => Some (FromStatus status, s)
    | Some (FromValue t) =>
        let generation := registrationGeneration s + 1 in
        let peer := MkPeer t (MkEndpoint NoAddress 0) generation 0 0 false (ResetBucket (peerSendRate (options s)) now) in
        Some (FromValue t,
          MkImpl (isOpen s) (bindingGeneration s) generation (<[id := peer]> (peers s)) (<[t := id]> (tokens s)) (metrics s)
            (options s) (sendBucket s) (polling s))
    end.

Definition UnregisterSession (id : Z) (s : Impl) : Impl :=
  match peers s !! id with
  | None => s
  | Some p =>
      MkImpl (isOpen s) (bindingGeneration s) (registrationGeneration s) (delete id (peers s)) (delete (token p) (tokens s))
        (metrics s) (options s) (sendBucket s) (polling s)
  end.

Definition IsReady (id : Z) (s : Impl) : bool := match peers s !! id with Some p => ready p | None => false end.

Definition RegisteredSessionCount (s : Impl) : Z := Z.of_nat (size (peers s)).

Definition GetToken (id : Z) (s : Impl) : Result (list Z) :=
  match peers s !! id with None => FromStatus (Fail NotFound) | Some p => FromValue (token p) end.

(** ** Sending *)

(** What the socket was given. *)
Record Datagram : Type := MkDatagram { dTo : IpEndpoint; dBytes : list Z }.

Definition SendPayload (now id : Z) (payload : list Z) (socket : Status) (s : Impl) : Status * option Datagram * Impl :=
  match peers s !! id with
  | None => (Fail Closed, None, s)
  | Some p =>
      if negb (ready p) || negb (isOpen s) then (Fail WouldBlock, None, count sendNotReady s)
      else if sentSequence p =? UINT64_MAX then (Fail Closed, None, s)
      else
        let '(n, buffer) := Encode (repeat 0 (Z.to_nat MaximumDatagramBytes)) (token p) (sentSequence p + 1) payload in
        if n =? 0 then (Fail TooLarge, None, s)
        else
          let '(global, total) := Available (totalSendRate (options s)) n now (sendBucket s) in
          let '(perPeer, own) := Available (peerSendRate (options s)) n now (peerBucket p) in
          let filled := MkPeer (token p) (endpoint p) (registration p) (receivedSequence p) (sentSequence p) (ready p) own in
          let s := set_bucket total (set_peer id filled s) in
          if negb global || negb perPeer then
            let s := count sendRateLimited s in
            let s := if global then s else count sendLimitedGlobal s in
            (Fail WouldBlock, None, if perPeer then s else count sendLimitedPeer s)
          else if negb (Status.IsOk socket) then
            (socket, None, if bool_decide (Status.Code socket = WouldBlock) then count sendWouldBlock s else count socketErrors s)
          else
            let sent := MkPeer (token p) (endpoint p) (registration p) (receivedSequence p) (wrap64 (sentSequence p + 1)) (ready p)
              (Consume (peerSendRate (options s)) n own) in
            (Status.Ok, Some (MkDatagram (endpoint p) (take (Z.to_nat n) buffer)),
             count_by sentBytes n (count sentDatagrams
               (set_bucket (Consume (totalSendRate (options s)) n total) (set_peer id sent s))))
  end.

Definition SendSerialized (now id : Z) (payload : list Z) (socket : Status) (s : Impl) : Status * option Datagram * Impl :=
  if negb (bool_decide (payloadMode (options s) = Json)) then (Fail InvalidArgument, None, s)
  else SendPayload now id payload socket s.

Definition SendBinary (now id type : Z) (payload : list Z) (socket : Status) (s : Impl) : Status * option Datagram * Impl :=
  if negb (bool_decide (payloadMode (options s) = Binary)) then (Fail InvalidArgument, None, s)
  else
    match BinaryMessage.EncodeBinaryMessage true type payload MaximumPayloadBytes with
    | FromStatus status => (status, None, s)
    | FromValue encoded => SendPayload now id encoded socket s
    end.

End Rates.

(** ** Receiving *)

(** [DatagramReceiveResult] with the bytes received. *)
Record Received : Type := MkReceived { rStatus : Status; rEndpoint : IpEndpoint; rBytes : list Z; rRetryable : bool }.

(** The locals of [PollPayload]. *)
Record PollLocals : Type := MkLocals { lBinding : Z; lAttempt : Z; lConsumed : Z; lBudget : DatagramPollBudget }.

(** A datagram that passed the checks under the lock. *)
Record Candidate : Type := MkCandidate { cSession : Z; cRegistration : Z; cEndpoint : IpEndpoint; cPacket : PacketView }.

Inductive PollNext : Type :=
| PollReturn
| PollContinue (l : PollLocals)
| PollAdmission (l : PollLocals) (c : Candidate).

Definition next_attempt (l : PollLocals) : PollLocals := MkLocals (lBinding l) (lAttempt l + 1) (lConsumed l) (lBudget l).
Definition consume (n : Z) (l : PollLocals) : PollLocals :=
  MkLocals (lBinding l) (lAttempt l) (ConsumeBytes (lConsumed l) n) (lBudget l).

(** The condition of the loop. *)
Definition MorePolls (l : PollLocals) : bool :=
  (lAttempt l <? maximumDatagrams (lBudget l)) && (lConsumed l <? maximumBytes (lBudget l)).

(** The first critical section of a round. *)
Definition PollReceive (r : Received) (l : PollLocals) (s : Impl) : PollNext * Impl :=
  if negb (isOpen s) || negb (bindingGeneration s =? lBinding l) then (PollReturn, s)
  else if negb (Status.IsOk (rStatus r)) then
    if bool_decide (Status.Code (rStatus r) = WouldBlock) then (PollReturn, s)
    else if bool_decide (Status.Code (rStatus r) = TooLarge) then
      (PollContinue (next_attempt (consume (MaximumDatagramBytes + 1) l)), reject truncatedDatagrams s)
    else (if rRetryable r then PollContinue (next_attempt l) else PollReturn, count socketErrors s)
  else if MaximumDatagramBytes + 1 <? len (rBytes r) then (PollReturn, count socketErrors s)
  else
    let s := count_by receivedBytes (len (rBytes r)) (count receivedDatagrams s) in
    let l := consume (len (rBytes r)) l in
    let refuse reason := (PollContinue (next_attempt l), reject reason s) in
    match Decode (rBytes r) with
    | None => refuse malformedDatagrams
    | Some packet =>
        if negb (IsValid (address (rEndpoint r))) then refuse malformedDatagrams
        else
          match tokens s !! DatagramCodec.token packet with
          | None => refuse unknownTokenDatagrams
          | Some id =>
              match peers s !! id with
              | None => refuse replayedDatagrams
              | Some p =>
                  if sequence packet <=? receivedSequence p then refuse replayedDatagrams
                  else if negb (allowEndpointMigration (options s)) && ready p && negb (bool_decide (endpoint p = rEndpoint r))
                  then refuse endpointMismatchDatagrams
                  else if maxSequenceJump (options s) <? sequence packet - receivedSequence p then refuse sequenceJumpDatagrams
                  else (PollAdmission l (MkCandidate id (registration p) (rEndpoint r) packet), s)
              end
          end
    end.

Inductive PayloadDecision : Type := Allow | InvalidPayload | Reject.

(** The admissions of [Poll], [PollBinary] and [PollDatagrams], over the application's. *)
Definition JsonDecision (admission : Message.Message -> bool) (payload : list Z) : PayloadDecision :=
  match Message.ParseMessage payload SIZE_MAX with
  | Some (FromValue message) => if admission message then Allow else Reject
  | _ => InvalidPayload
  end.

Definition BinaryDecision (admission : BinaryMessage.BinaryMessageView -> bool) (payload : list Z) : PayloadDecision :=
  match BinaryMessage.DecodeBinaryMessage payload with
  | FromStatus _ => InvalidPayload
  | FromValue message => if admission message then Allow else Reject
  end.

Definition DatagramDecision (mode : PayloadMode) (admission : list Z -> bool) (payload : list Z) : PayloadDecision :=
  let valid :=
    match mode with
    | Json => match Message.ParseMessage payload SIZE_MAX with Some (FromValue _) => true | _ => false end
    | Binary => Result.IsOk (BinaryMessage.DecodeBinaryMessage payload)
    end in
  if negb valid then InvalidPayload else if admission payload then Allow else Reject.

(** A refusal by the admission callback. *)
Definition PollRefuse (d : PayloadDecision) (s : Impl) : Impl :=
  match d with
  | InvalidPayload => reject invalidPayloadDatagrams s
  | Allow | Reject => reject admissionRejectedDatagrams s
  end.

Inductive PollCommitted : Type := CommitReturn | CommitStale | CommitDeliver.

(** The critical section after the admission. *)
Definition PollCommit (c : Candidate) (l : PollLocals) (s : Impl) : PollCommitted * Impl :=
  if negb (isOpen s) || negb (bindingGeneration s =? lBinding l) then (CommitReturn, reject staleDatagrams s)
  else
    match peers s !! cSession c with
    | None => (CommitStale, reject staleDatagrams s)
    | Some p =>
        if negb (registration p =? cRegistration c) || negb (bool_decide (token p = DatagramCodec.token (cPacket c)))
           || (sequence (cPacket c) <=? receivedSequence p)
        then (CommitStale, reject staleDatagrams s)
        else
          (CommitDeliver, set_peer (cSession c)
             (MkPeer (token p) (cEndpoint c) (registration p) (sequence (cPacket c)) (sentSequence p) true (peerBucket p)) s)
    end.

(** ** Threads *)

(** Where the thread that polls is. *)
Inductive PollState : Type :=
| NotPolling
| Entered (budget : DatagramPollBudget)
| AtLoop (l : PollLocals)
| Asking (l : PollLocals) (c : Candidate)
| Delivering (l : PollLocals) (c : Candidate).

(** What receivers were given and what was sent, with the registration it belongs to. *)
Record Delivery : Type := MkDelivery { dRegistration : Z; dSession : Z; dEndpoint : IpEndpoint; dSequence : Z; dPayload : list Z }.
Record SentDatagram : Type := MkSent { sRegistration : Z; sToken : list Z; sSequence : Z; sPayload : list Z; sDatagram : Datagram }.

Record World : Type := MkWorld { impl : Impl; poll : PollState; delivered : list Delivery; sent : list SentDatagram }.

Definition NewWorld : World := MkWorld NewImpl NotPolling [] [].

Definition with_impl (s : Impl) (w : World) : World := MkWorld s (poll w) (delivered w) (sent w).
Definition with_poll (s : Impl) (p : PollState) (w : World) : World := MkWorld s p (delivered w) (sent w).

(** The poll returns: [ReleasePoll]. *)
Definition leave (s : Impl) (w : World) : World := with_poll (set_polling false s) NotPolling w.

Definition BudgetValid (b : DatagramPollBudget) : Prop :=
  0 < maximumDatagrams b <= SIZE_MAX /\ 0 < maximumBytes b <= SIZE_MAX.

Definition delivery (c : Candidate) : Delivery :=
  MkDelivery (cRegistration c) (cSession c) (cEndpoint c) (sequence (cPacket c)) (packet_payload (cPacket c)).

(** The trace entry of an accepted sending. *)
Definition sent_by (s : Impl) (id : Z) (payload : list Z) (d : option Datagram) : list SentDatagram :=
  match d, peers s !! id with
  | Some d, Some p => [MkSent (registration p) (token p) (sentSequence p + 1) payload d]
  | _, _ => []
  end.

Inductive Step (rnd : Q -> Q) : World -> World -> Prop :=
| step_configure o w : 0 <= maxSequenceJump o -> 0 <= maxRegisteredSessions o -> Step rnd w (with_impl (Configure o (impl w)).2 w)
| step_bind now result w : Step rnd w (with_impl (Bind rnd now result (impl w)).2 w)
| step_close w : Step rnd w (with_impl (Close (impl w)) w)
| step_register now id draws r s w :
    Forall (fun d => match d with FromValue t => is_token t | FromStatus _ => True end) draws ->
    RegisterSession rnd now id draws (impl w) = Some (r, s) -> Step rnd w (with_impl s w)
| step_unregister id w : Step rnd w (with_impl (UnregisterSession id (impl w)) w)
| step_send now id payload socket r d s w :
    SendPayload rnd now id payload socket (impl w) = (r, d, s) ->
    Step rnd w (MkWorld s (poll w) (delivered w) (sent w ++ sent_by (impl w) id payload d))
| step_contend w : polling (impl w) = true -> Step rnd w (with_impl (count pollContentions (impl w)) w)
| step_enter budget w : polling (impl w) = false -> BudgetValid budget ->
    Step rnd w (with_poll (set_polling true (impl w)) (Entered budget) w)
| step_open budget w : poll w = Entered budget ->
    Step rnd w (if isOpen (impl w) then with_poll (impl w) (AtLoop (MkLocals (bindingGeneration (impl w)) 0 0 budget)) w
                else leave (impl w) w)
| step_end l w : poll w = AtLoop l -> MorePolls l = false -> Step rnd w (leave (impl w) w)
| step_receive l r n s w : poll w = AtLoop l -> MorePolls l = true -> is_bytes (rBytes r) ->
    PollReceive r l (impl w) = (n, s) ->
    Step rnd w (match n with
                | PollReturn => leave s w
                | PollContinue l => with_poll s (AtLoop l) w
                | PollAdmission l c => with_poll s (Asking l c) w
                end)
| step_refuse l c d w : poll w = Asking l c -> d <> Allow ->
    Step rnd w (with_poll (PollRefuse d (impl w)) (AtLoop (next_attempt l)) w)
| step_commit l c r s w : poll w = Asking l c -> PollCommit c l (impl w) = (r, s) ->
    Step rnd w (match r with
                | CommitReturn => leave s w
                | CommitStale => with_poll s (AtLoop (next_attempt l)) w
                | CommitDeliver => MkWorld s (Delivering l c) (delivered w ++ [delivery c]) (sent w)
                end)
| step_return l c w : poll w = Delivering l c -> Step rnd w (with_poll (impl w) (AtLoop (next_attempt l)) w)
| step_throw l c w : poll w = Asking l c \/ poll w = Delivering l c ->
    Step rnd w (leave (reject callbackFailures (impl w)) w).

Inductive Run (rnd : Q -> Q) : World -> Prop :=
| run_new : Run rnd NewWorld
| run_step w w' : Run rnd w -> Step rnd w w' -> Run rnd w'.

End DatagramTransport.

Import DatagramTransport.

(** ** Traces *)

(** The deliveries and sendings of one registration. *)
Definition deliveries (g : Z) (ds : list Delivery) : list Delivery := List.filter (fun d => dRegistration d =? g) ds.
Definition sequences (g : Z) (ds : list Delivery) : list Z := map dSequence (deliveries g ds).
Definition sendings (g : Z) (ss : list SentDatagram) : list SentDatagram := List.filter (fun d => sRegistration d =? g) ss.

(** Each number is above the one before it, by at most [jump]. *)
Fixpoint advances (jump from : Z) (l : list Z) : Prop :=
  match l with
  | [] => True
  | x :: l => from < x <= from + jump /\ advances jump x l
  end.

Lemma advances_snoc jump l x : forall from, advances jump from (l ++ [x]) <->
  advances jump from l /\ List.last l from < x <= List.last l from + jump.
Proof.
  induction l as [|y l IH]; intros from; cbn [app advances]; [cbn; tauto|]. rewrite IH.
  assert (List.last (y :: l) from = List.last l y) as ->; [|tauto].
  clear. revert y from. induction l as [|z l IH]; intros y from; [done|].
  change (List.last (z :: l) from = List.last (z :: l) y). by rewrite !IH.
Qed.

Lemma sequences_snoc g ds d : sequences g (ds ++ [d]) = sequences g ds ++ (if dRegistration d =? g then [dSequence d] else []).
Proof. unfold sequences, deliveries. rewrite List.filter_app, map_app. cbn. by destruct (dRegistration d =? g). Qed.

Lemma sendings_app g a b : sendings g (a ++ b) = sendings g a ++ sendings g b.
Proof. apply List.filter_app. Qed.

(** The numbers from one. *)
Definition from_one (n : Z) : list Z := map Z.of_nat (seq 1 (Z.to_nat n)).

Lemma from_one_next n : 0 <= n -> from_one (n + 1) = from_one n ++ [n + 1].
Proof.
  intros Hn. unfold from_one. rewrite Z2Nat.inj_add by lia. change (Z.to_nat 1) with 1%nat. rewrite seq_app, map_app. cbn.
  do 2 f_equal. lia.
Qed.

(** What is known of the traces of the registrations a transport has made. *)
Record gen_ok (o : DatagramTransportOptions) (g : Z) (ds : list Delivery) (ss : list SentDatagram) : Prop := MkGenOk {
  gen_advances : advances (maxSequenceJump o) 0 (sequences g ds);
  gen_session : forall d d', In d (deliveries g ds) -> In d' (deliveries g ds) -> dSession d = dSession d';
  gen_endpoint : allowEndpointMigration o = false ->
    forall d d', In d (deliveries g ds) -> In d' (deliveries g ds) -> dEndpoint d = dEndpoint d';
  gen_sent : exists n, 0 <= n <= UINT64_MAX /\ map sSequence (sendings g ss) = from_one n;
  gen_token : forall d d', In d (sendings g ss) -> In d' (sendings g ss) -> sToken d = sToken d';
  gen_bytes : forall d, In d (sendings g ss) -> Decode (dBytes (sDatagram d)) = Some (MkPacket (sToken d) (sSequence d) (sPayload d))
}.

(** What a registered peer remembers of its traces. *)
Record peer_ok (o : DatagramTransportOptions) (id : Z) (p : Peer) (ds : list Delivery) (ss : list SentDatagram) : Prop := MkPeerOk {
  peer_token : is_token (token p);
  peer_last : List.last (sequences (registration p) ds) 0 = receivedSequence p;
  peer_received : 0 <= receivedSequence p;
  peer_session : forall d, In d (deliveries (registration p) ds) -> dSession d = id /\ ready p = true;
  peer_endpoint : allowEndpointMigration o = false -> forall d, In d (deliveries (registration p) ds) -> dEndpoint d = endpoint p;
  peer_fresh : ready p = true -> deliveries (registration p) ds <> [];
  peer_sent : 0 <= sentSequence p <= UINT64_MAX /\ map sSequence (sendings (registration p) ss) = from_one (sentSequence p);
  peer_tokens : forall d, In d (sendings (registration p) ss) -> sToken d = token p
}.

Definition poll_locals (p : PollState) : option PollLocals :=
  match p with NotPolling | Entered _ => None | AtLoop l | Asking l _ | Delivering l _ => Some l end.

(** The checks of a candidate still hold of the registration it was made for. *)
Definition candidate_ok (s : Impl) (c : Candidate) : Prop :=
  cRegistration c <= registrationGeneration s /\ 0 < sequence (cPacket c) /\
  forall p, peers s !! cSession c = Some p -> registration p = cRegistration c ->
    receivedSequence p < sequence (cPacket c) <= receivedSequence p + maxSequenceJump (options s)
    /\ (allowEndpointMigration (options s) = false -> ready p = true -> endpoint p = cEndpoint c).

Record inv (w : World) : Prop := MkInv {
  inv_tokens : forall t id, tokens (impl w) !! t = Some id <-> exists p, peers (impl w) !! id = Some p /\ token p = t;
  inv_range : forall id p, peers (impl w) !! id = Some p -> 0 < registration p <= registrationGeneration (impl w);
  inv_unique : forall id id' p p', peers (impl w) !! id = Some p -> peers (impl w) !! id' = Some p' ->
    registration p = registration p' -> id = id';
  inv_past : (forall d, In d (delivered w) -> dRegistration d <= registrationGeneration (impl w))
    /\ (forall d, In d (sent w) -> sRegistration d <= registrationGeneration (impl w));
  inv_gens : forall g, gen_ok (options (impl w)) g (delivered w) (sent w);
  inv_peers : forall id p, peers (impl w) !! id = Some p -> peer_ok (options (impl w)) id p (delivered w) (sent w);
  inv_unbound : bindingGeneration (impl w) = 0 ->
    isOpen (impl w) = false /\ peers (impl w) = ∅ /\ delivered w = [] /\ poll_locals (poll w) = None;
  inv_binding : 0 <= bindingGeneration (impl w);
  inv_polling : polling (impl w) = true <-> poll w <> NotPolling;
  inv_asking : forall l c, poll w = Asking l c -> candidate_ok (impl w) c;
  inv_size : Z.of_nat (size (peers (impl w))) <= maxRegisteredSessions (options (impl w));
  inv_generation : 0 <= registrationGeneration (impl w)
}.

(** ** The invariant *)

(** A step that changes neither the registry nor the traces. *)
Definition same_registry (s s' : Impl) : Prop :=
  isOpen s' = isOpen s /\ bindingGeneration s' = bindingGeneration s /\ registrationGeneration s' = registrationGeneration s
  /\ peers s' = peers s /\ tokens s' = tokens s /\ options s' = options s.

Lemma same_registry_refl s : same_registry s s.
Proof. done. Qed.

Lemma same_registry_count c s s' : same_registry s s' -> same_registry s (count c s').
Proof. done. Qed.

Lemma same_registry_count_by c n s s' : same_registry s s' -> same_registry s (count_by c n s').
Proof. done. Qed.

Lemma same_registry_reject c s s' : same_registry s s' -> same_registry s (reject c s').
Proof. done. Qed.

Lemma same_registry_polling b s s' : same_registry s s' -> same_registry s (set_polling b s').
Proof. done. Qed.

#[local] Hint Resolve same_registry_refl same_registry_count same_registry_count_by same_registry_reject same_registry_polling : datagram.

Lemma inv_frame w s p : inv w -> same_registry (impl w) s ->
  (bindingGeneration s = 0 -> poll_locals p = None) -> (polling s = true <-> p <> NotPolling) ->
  (forall l c, p = Asking l c -> candidate_ok s c) -> inv (with_poll s p w).
Proof.
  intros [H1 H2 H3 H4 H5 H6 H7 H8 H9 H10 H11 H12] (E1 & E2 & E3 & E4 & E5 & E6) Hb Hp Ha.
  split; cbn [with_poll impl poll delivered sent]; rewrite ?E1, ?E2, ?E3, ?E4, ?E5, ?E6; try done.
  intros Hz. destruct (H7 Hz) as (? & ? & ? & ?). rewrite E2 in Hb. auto.
Qed.

Lemma candidate_frame s s' c : same_registry s s' -> candidate_ok s c -> candidate_ok s' c.
Proof. intros (E1 & E2 & E3 & E4 & E5 & E6). unfold candidate_ok. by rewrite E3, E4, E6. Qed.

Lemma inv_count w c : inv w -> inv (with_impl (count c (impl w)) w).
Proof.
  intros Hi. change (with_impl (count c (impl w)) w) with (with_poll (count c (impl w)) (poll w) w).
  destruct Hi as [H1 H2 H3 H4 H5 H6 H7 H8 H9 H10 H11 H12] eqn:Hi'. apply inv_frame; [done|auto with datagram| |done|].
  - intros Hz. by apply H7.
  - intros l c' Hc. eapply candidate_frame; [|by eapply H10]. auto with datagram.
Qed.

(** The poll's thread returns. *)
Lemma inv_leave w s : inv w -> same_registry (impl w) s -> inv (leave s w).
Proof.
  intros Hi Hs. unfold leave. apply inv_frame; [done|auto with datagram|done|done|done].
Qed.

Lemma inv_at_loop w s l : inv w -> same_registry (impl w) s -> polling s = true -> bindingGeneration s <> 0 -> inv (with_poll s (AtLoop l) w).
Proof. intros Hi Hs Hp Hb. by apply inv_frame. Qed.

Lemma locals_bound w l : inv w -> poll_locals (poll w) = Some l -> bindingGeneration (impl w) <> 0 /\ polling (impl w) = true.
Proof.
  intros [H1 H2 H3 H4 H5 H6 H7 H8 H9 H10 H11 H12] Hl. split; [intros Hz|apply H9; by intros E; rewrite E in Hl].
  destruct (H7 Hz) as (_ & _ & _ & E). congruence.
Qed.

Lemma gen_ok_empty o o' g ss : gen_ok o g [] ss -> gen_ok o' g [] ss.
Proof. intros [H1 H2 H3 H4 H5 H6]. by split. Qed.

Lemma inv_configure o w : 0 <= maxSequenceJump o -> 0 <= maxRegisteredSessions o -> inv w -> inv (with_impl (Configure o (impl w)).2 w).
Proof.
  intros Hj Hm Hi. unfold Configure. case_if; [by destruct w|]. case_if; [by destruct w|]. case_if; [by destruct w|].
  assert (Hz : bindingGeneration (impl w) = 0) by lia. destruct Hi as [H1 H2 H3 H4 H5 H6 H7 H8 H9 H10 H11 H12].
  destruct (H7 Hz) as (Ho & Hp & Hd & Hl). split; cbn [with_impl impl poll delivered sent snd peers tokens options registrationGeneration
    bindingGeneration isOpen polling]; try done.
  - intros g. specialize (H5 g). rewrite Hd in *. by eapply gen_ok_empty.
  - intros id p. by rewrite Hp, lookup_empty.
  - intros l c E'. by rewrite E' in Hl.
  - by rewrite Hp, map_size_empty.
Qed.

Lemma inv_bind rnd now result w : inv w -> inv (with_impl (Bind rnd now result (impl w)).2 w).
Proof.
  intros Hi. unfold Bind. case_if; [by destruct w|]. case_if; [by destruct w|]. case_if; [|by destruct w].
  destruct Hi as [H1 H2 H3 H4 H5 H6 H7 H8 H9 H10 H11 H12]. split; cbn [with_impl impl poll delivered sent snd peers tokens options
    registrationGeneration bindingGeneration isOpen polling]; try done; lia.
Qed.

Lemma inv_close w : inv w -> inv (with_impl (Close (impl w)) w).
Proof.
  intros [H1 H2 H3 H4 H5 H6 H7 H8 H9 H10 H11 H12]. split; cbn [with_impl impl poll delivered sent snd peers tokens options
    registrationGeneration bindingGeneration isOpen polling Close]; try done.
  - intros t id. rewrite lookup_empty. split; [done|]. intros (p & H & _). by rewrite lookup_empty in H.
  - intros Hz. destruct (H7 Hz) as (_ & _ & ? & ?). auto.
  - intros l c E. destruct (H10 l c E) as (Ha & Hb & _). split; [done|]. split; [done|]. intros p Hx. cbn in Hx. by rewrite lookup_empty in Hx.
  - rewrite map_size_empty. pose proof (Nat2Z.is_nonneg (size (peers (impl w)))). lia.
Qed.

Lemma inv_unregister id w : inv w -> inv (with_impl (UnregisterSession id (impl w)) w).
Proof.
  intros Hi. unfold UnregisterSession. destruct (peers (impl w) !! id) as [p|] eqn:Ep; [|by destruct w].
  destruct Hi as [H1 H2 H3 H4 H5 H6 H7 H8 H9 H10 H11 H12].
  assert (Hd : forall id' p', delete id (peers (impl w)) !! id' = Some p' -> peers (impl w) !! id' = Some p' /\ id' <> id).
  { intros id' p' [? ?]%lookup_delete_Some. auto. }
  split; cbn [with_impl impl poll delivered sent peers tokens options registrationGeneration bindingGeneration isOpen polling]; try done.
  - intros t id'. rewrite lookup_delete_Some. split.
    + intros [Ht H]. apply H1 in H as (q & Hq & <-). exists q. split; [|done]. rewrite lookup_delete_ne; [done|].
      intros ->. rewrite Ep in Hq. congruence.
    + intros (q & [Hq Hne]%Hd & <-). split; [|apply H1; eauto]. intros E.
      assert (tokens (impl w) !! token p = Some id) as H by (apply H1; eauto).
      assert (tokens (impl w) !! token q = Some id') as H' by (apply H1; eauto). congruence.
  - intros id' p' [Hq _]%Hd. eauto.
  - intros i i' q q' [Hq _]%Hd [Hq' _]%Hd. eauto.
  - intros id' p' [Hq _]%Hd. eauto.
  - intros Hz. destruct (H7 Hz) as (? & E & ? & ?). by rewrite E, lookup_empty in Ep.
  - intros l c E. destruct (H10 l c E) as (Ha & Hb & Hc). split; [done|]. split; [done|]. intros q [Hq _]%Hd. by apply Hc.
  - rewrite map_size_delete, Ep. lia.
Qed.

Lemma past_empty w g : inv w -> registrationGeneration (impl w) < g -> deliveries g (delivered w) = [] /\ sendings g (sent w) = [].
Proof.
  intros Hi Hg. destruct (inv_past w Hi) as [Hd Hs]. split.
  - destruct (deliveries g (delivered w)) as [|d l] eqn:E; [done|].
    assert (In d (deliveries g (delivered w))) as H by (rewrite E; by left). apply filter_In in H as [H He]. specialize (Hd d H). lia.
  - destruct (sendings g (sent w)) as [|d l] eqn:E; [done|].
    assert (In d (sendings g (sent w))) as H by (rewrite E; by left). apply filter_In in H as [H He]. specialize (Hs d H). lia.
Qed.

Lemma fresh_token draws s t : Forall (fun d => match d with FromValue t => is_token t | FromStatus _ => True end) draws ->
  FreshToken draws s = Some (FromValue t) -> is_token t /\ tokens s !! t = None.
Proof.
  induction 1 as [|d draws Hd H IH]; [done|]. cbn. destruct d as [u|]; [|done]. destruct (decide _) as [|Hn]; [done|].
  intros [= ->]. split; [done|]. by apply eq_None_not_Some.
Qed.

Lemma inv_register rnd now id draws r s w :
  Forall (fun d => match d with FromValue t => is_token t | FromStatus _ => True end) draws ->
  RegisterSession rnd now id draws (impl w) = Some (r, s) -> inv w -> inv (with_impl s w).
Proof.
  intros Hd H Hi. unfold RegisterSession in H. assert (Hsame : inv (with_impl (impl w) w)) by (by destruct w).
  case_if_in H; [by injection H as _ <-|]. case_if_in H; [by injection H as _ <-|]. case_if_in H; [by injection H as _ <-|].
  case_if_in H; [by injection H as _ <-|]. destruct (FreshToken draws (impl w)) as [[t|]|] eqn:Ef; [|by injection H as _ <-|done].
  destruct (fresh_token _ _ _ Hd Ef) as [Ht Hn]. injection H as _ <-. apply orb_false_iff in E0 as [_ E0].
  apply bool_decide_eq_false, eq_None_not_Some in E0. apply negb_false_iff in E.
  destruct (past_empty w (registrationGeneration (impl w) + 1) Hi ltac:(lia)) as [Hde Hse].
  destruct Hi as [H1 H2 H3 H4 H5 H6 H7 H8 H9 H10 H11 H12].
  assert (Hb : bindingGeneration (impl w) <> 0) by (intros Hz; destruct (H7 Hz); congruence).
  split; cbn [with_impl impl poll delivered sent peers tokens options registrationGeneration bindingGeneration isOpen polling]; try done.
  - intros u id'. destruct (decide (u = t)) as [->|Hu].
    + rewrite lookup_insert. case_decide; [|done]. split; [intros [= <-]; eexists; rewrite lookup_insert; by case_decide|]. intros (p & Hp & Htk).
      destruct (decide (id' = id)) as [->|Hne]; [done|]. rewrite lookup_insert_ne in Hp by done.
      assert (tokens (impl w) !! t = Some id') by (apply H1; eauto). congruence.
    + rewrite lookup_insert_ne, H1 by done. split; intros (p & Hp & Htk).
      * exists p. rewrite lookup_insert_ne; [done|congruence].
      * apply lookup_insert_Some in Hp as [[-> <-]|[Hne Hp]]; [done|eauto].
  - intros id' p [[_ <-]|[_ Hp]]%lookup_insert_Some; [cbn; lia|]. specialize (H2 _ _ Hp). lia.
  - intros i i' p p' [[<- <-]|[Hi Hp]]%lookup_insert_Some [[<- <-]|[Hi' Hp']]%lookup_insert_Some Hr; cbn in Hr; try done.
    + specialize (H2 _ _ Hp'). lia.
    + specialize (H2 _ _ Hp). lia.
    + eauto.
  - destruct H4 as [Ha Hs]. split; intros d Hin; [specialize (Ha d Hin)|specialize (Hs d Hin)]; lia.
  - intros id' p [[-> <-]|[_ Hp]]%lookup_insert_Some; [|eauto].
    split; cbn [token registration receivedSequence sentSequence ready endpoint]; unfold sequences; rewrite ?Hde, ?Hse; try done.
  - intros l c Ea. destruct (H10 l c Ea) as (Ha & Hs & Hc). split; [cbn; lia|]. split; [done|].
    cbn [peers options]. intros p [[-> <-]|[_ Hp]]%lookup_insert_Some; [intros Hr; cbn in Hr; lia|by apply Hc].
  - rewrite map_size_insert, E0. lia.
  - lia.
Qed.

Lemma deliveries_other g g0 ds new : Forall (fun d => dRegistration d = g0) new -> g <> g0 -> deliveries g (ds ++ new) = deliveries g ds.
Proof.
  intros H Hg. unfold deliveries. rewrite List.filter_app. induction H as [|d new Hd H IH]; cbn; [by rewrite app_nil_r|].
  by replace (dRegistration d =? g) with false by lia.
Qed.

Lemma sendings_other g g0 ss new : Forall (fun d => sRegistration d = g0) new -> g <> g0 -> sendings g (ss ++ new) = sendings g ss.
Proof.
  intros H Hg. unfold sendings. rewrite List.filter_app. induction H as [|d new Hd H IH]; cbn; [by rewrite app_nil_r|].
  by replace (sRegistration d =? g) with false by lia.
Qed.

Lemma gen_ok_traces o g ds ds' ss ss' : deliveries g ds' = deliveries g ds -> sendings g ss' = sendings g ss ->
  gen_ok o g ds ss -> gen_ok o g ds' ss'.
Proof. intros E1 E2 [H1 H2 H3 H4 H5 H6]. split; unfold sequences; rewrite ?E1, ?E2; done. Qed.

Lemma peer_ok_traces o id p ds ds' ss ss' : deliveries (registration p) ds' = deliveries (registration p) ds ->
  sendings (registration p) ss' = sendings (registration p) ss -> peer_ok o id p ds ss -> peer_ok o id p ds' ss'.
Proof. intros E1 E2 [H1 H2 H3 H4 H5 H6 H7 H8]. split; unfold sequences; rewrite ?E1, ?E2; done. Qed.

(** A step that replaces one peer of a registration and adds to its traces. *)
Lemma inv_replace w id p p' s pl dnew snew : inv w -> peers (impl w) !! id = Some p ->
  token p' = token p -> registration p' = registration p ->
  isOpen s = isOpen (impl w) -> bindingGeneration s = bindingGeneration (impl w) ->
  registrationGeneration s = registrationGeneration (impl w) -> tokens s = tokens (impl w) -> options s = options (impl w) ->
  peers s = <[id := p']> (peers (impl w)) ->
  Forall (fun d => dRegistration d = registration p) dnew -> Forall (fun d => sRegistration d = registration p) snew ->
  gen_ok (options s) (registration p) (delivered w ++ dnew) (sent w ++ snew) ->
  peer_ok (options s) id p' (delivered w ++ dnew) (sent w ++ snew) ->
  (polling s = true <-> pl <> NotPolling) -> (forall l c, pl = Asking l c -> candidate_ok s c) ->
  inv (MkWorld s pl (delivered w ++ dnew) (sent w ++ snew)).
Proof.
  intros Hi Hp Et Er E1 E2 E3 E4 E5 E6 Hd Hs Hg Hk Hpl Ha. pose proof Hi as [H1 H2 H3 H4 H5 H6 H7 H8 H9 H10 H11 H12].
  assert (Hne : forall i q, peers (impl w) !! i = Some q -> i <> id -> registration q <> registration p).
  { intros i q Hq Hn E. by apply Hn, (H3 i id q p). }
  split; cbn [impl poll delivered sent]; rewrite ?E1, ?E2, ?E3, ?E4, ?E5, ?E6 in *; try done.
  - intros t i. rewrite H1. split; intros (q & Hq & <-).
    + destruct (decide (i = id)) as [->|Hn]; [exists p'; rewrite lookup_insert; case_decide; [split; [done|congruence]|done]|].
      exists q. by rewrite lookup_insert_ne.
    + apply lookup_insert_Some in Hq as [[<- <-]|[_ Hq]]; [exists p; split; [done|congruence]|eauto].
  - intros i q [[<- <-]|[_ Hq]]%lookup_insert_Some; [rewrite Er|]; eauto.
  - intros i i' q q' [[<- <-]|[Hn Hq]]%lookup_insert_Some [[<- <-]|[Hn' Hq']]%lookup_insert_Some Hr; try done; try (rewrite Er in Hr); eauto.
  - destruct H4 as [Ha1 Ha2]. specialize (H2 id p Hp). split; intros d [Hin|Hin]%in_app_or; auto.
    + rewrite List.Forall_forall in Hd. rewrite (Hd d Hin). lia.
    + rewrite List.Forall_forall in Hs. rewrite (Hs d Hin). lia.
  - intros g. destruct (decide (g = registration p)) as [->|Hn]; [done|]. eapply gen_ok_traces; [| |apply H5].
    + by eapply deliveries_other.
    + by eapply sendings_other.
  - intros i q [[<- <-]|[Hn Hq]]%lookup_insert_Some; [done|]. specialize (Hne i q Hq ltac:(done)). eapply peer_ok_traces; [| |by apply H6].
    + by eapply deliveries_other.
    + by eapply sendings_other.
  - intros Hz. destruct (H7 Hz) as (_ & E & _). by rewrite E, lookup_empty in Hp.
  - rewrite map_size_insert, Hp. done.
Qed.

(** ** Sending *)

Lemma encode_decodes t q p n b : is_token t -> 0 < q <= UINT64_MAX ->
  Encode (repeat 0 (Z.to_nat MaximumDatagramBytes)) t q p = (n, b) -> n <> 0 -> Decode (take (Z.to_nat n) b) = Some (MkPacket t q p).
Proof.
  intros Ht Hq He Hn. pose proof He as He'. unfold Encode in He'. destruct (_ || _) eqn:Eg; [congruence|].
  rewrite !orb_false_iff in Eg. destruct Eg as [[[G1 G2] G3] G4]. clear He'.
  assert (p <> []) as Hp by (by intros ->).
  rewrite encode_datagram_bytes in He; [|done|lia|done|lia|lia].
  assert (b = datagram_bytes t q p ++ drop (28 + length p) (repeat 0 (Z.to_nat MaximumDatagramBytes))) as -> by congruence.
  assert (n = HeaderBytes + len p) as -> by congruence.
  rewrite take_app_length'; [apply decode_datagram_bytes; done || lia|].
  unfold datagram_bytes. rewrite !length_app. destruct Ht as [_ Htl]. rewrite Htl. unfold HeaderBytes, len.
  change (length Magic) with 4%nat. change (length (SequenceBytes q)) with 8%nat. unfold TokenSize. lia.
Qed.

Definition same_traces (p p' : Peer) : Prop :=
  token p' = token p /\ endpoint p' = endpoint p /\ registration p' = registration p
  /\ receivedSequence p' = receivedSequence p /\ ready p' = ready p.

Lemma peer_ok_same o id p p' ds ss : same_traces p p' -> sentSequence p' = sentSequence p -> peer_ok o id p ds ss -> peer_ok o id p' ds ss.
Proof.
  intros (E1 & E2 & E3 & E4 & E5) E6 [H1 H2 H3 H4 H5 H6 H7 H8]. split; rewrite ?E1, ?E2, ?E3, ?E4, ?E5, ?E6; done.
Qed.

Lemma candidate_replace s s' id p p' c : peers s !! id = Some p -> same_traces p p' -> peers s' = <[id := p']> (peers s) ->
  registrationGeneration s' = registrationGeneration s -> options s' = options s -> candidate_ok s c -> candidate_ok s' c.
Proof.
  intros Hp (E1 & E2 & E3 & E4 & E5) Ep Eg Eo (H1 & H2 & H3). unfold candidate_ok. rewrite Ep, Eg, Eo. split; [done|]. split; [done|].
  intros q [[-> <-]|[_ Hq]]%lookup_insert_Some; [rewrite E2, E3, E4, E5; by apply H3|by apply H3].
Qed.

(** One more datagram of a registration. *)
Lemma gen_ok_sent o g ds ss d n t : gen_ok o g ds ss -> sRegistration d = g -> map sSequence (sendings g ss) = from_one n ->
  0 <= n < UINT64_MAX -> sSequence d = n + 1 -> (forall e, In e (sendings g ss) -> sToken e = t) -> sToken d = t ->
  Decode (dBytes (sDatagram d)) = Some (MkPacket (sToken d) (sSequence d) (sPayload d)) -> gen_ok o g ds (ss ++ [d]).
Proof.
  intros [H1 H2 H3 H4 H5 H6] Hg Hm Hn Hs Ht Hdt Hd.
  assert (Es : sendings g (ss ++ [d]) = sendings g ss ++ [d]).
  { rewrite sendings_app. unfold sendings at 2. cbn. by rewrite Hg, Z.eqb_refl. }
  assert (Hin : forall e, In e (sendings g (ss ++ [d])) -> In e (sendings g ss) \/ e = d).
  { intros e. rewrite Es, in_app_iff. cbn. intros [?|[->|[]]]; auto. }
  split; try done.
  - exists (n + 1). split; [lia|]. rewrite Es, map_app, Hm, from_one_next by lia. cbn. by rewrite Hs.
  - intros e e' He He'. apply Hin in He as [He| ->], He' as [He'| ->]; rewrite ?Hdt, ?(Ht e), ?(Ht e') by done; done.
  - intros e [He| ->]%Hin; auto.
Qed.

Lemma datagram_inv_send rnd now id payload socket r d s w :
  SendPayload rnd now id payload socket (impl w) = (r, d, s) -> inv w ->
  inv (MkWorld s (poll w) (delivered w) (sent w ++ sent_by (impl w) id payload d)).
Proof.
  intros H Hi. assert (Hsame : inv (MkWorld (impl w) (poll w) (delivered w) (sent w ++ []))) by (rewrite app_nil_r; by destruct w).
  assert (Hcount : forall c, inv (MkWorld (count c (impl w)) (poll w) (delivered w) (sent w ++ []))) by (intros; rewrite app_nil_r; by apply inv_count).
  unfold SendPayload in H. unfold sent_by. destruct (peers (impl w) !! id) as [p|] eqn:Ep; [|by injection H as _ <- <-].
  case_if_in H; [by injection H as _ <- <-|]. case_if_in H; [by injection H as _ <- <-|].
  destruct (Encode _ _ _ _) as [n b] eqn:Ee. case_if_in H; [by injection H as _ <- <-|].
  destruct (Available _ _ _ _ (sendBucket (impl w))) as [global total]. destruct (Available _ _ _ _ (peerBucket p)) as [perPeer own].
  pose proof (inv_peers w Hi id p Ep) as Hk. pose proof (peer_sent _ _ _ _ _ Hk) as [Hr Hm].
  assert (Hupd : forall p' snew s', same_traces p p' ->
    isOpen s' = isOpen (impl w) -> bindingGeneration s' = bindingGeneration (impl w) ->
    registrationGeneration s' = registrationGeneration (impl w) -> tokens s' = tokens (impl w) -> options s' = options (impl w) ->
    polling s' = polling (impl w) -> peers s' = <[id := p']> (peers (impl w)) -> Forall (fun e => sRegistration e = registration p) snew ->
    gen_ok (options (impl w)) (registration p) (delivered w) (sent w ++ snew) ->
    peer_ok (options (impl w)) id p' (delivered w) (sent w ++ snew) -> inv (MkWorld s' (poll w) (delivered w) (sent w ++ snew))).
  { intros p' snew s' Ht F1 F2 F3 F4 F5 F6 F7 Hs Hg Hk'. rewrite <-(app_nil_r (delivered w)). pose proof Ht as (T1 & _ & T3 & _).
    eapply (inv_replace w id p p'); rewrite ?F5, ?F6, ?app_nil_r; try done; [by apply inv_polling|].
    intros l c Hc. eapply candidate_replace; try done. by eapply inv_asking. }
  assert (Hfill : forall p' s', same_traces p p' -> sentSequence p' = sentSequence p ->
    isOpen s' = isOpen (impl w) -> bindingGeneration s' = bindingGeneration (impl w) ->
    registrationGeneration s' = registrationGeneration (impl w) -> tokens s' = tokens (impl w) -> options s' = options (impl w) ->
    polling s' = polling (impl w) -> peers s' = <[id := p']> (peers (impl w)) -> inv (MkWorld s' (poll w) (delivered w) (sent w ++ []))).
  { intros. eapply Hupd; try done; rewrite app_nil_r; [by apply inv_gens|by eapply peer_ok_same]. }
  set (filled := MkPeer (token p) (endpoint p) (registration p) (receivedSequence p) (sentSequence p) (ready p) own) in *.
  case_if_in H; [injection H as _ <- <-; apply (Hfill filled); try done; by destruct global, perPeer|].
  case_if_in H; [injection H as _ <- <-; apply (Hfill filled); try done; by destruct (bool_decide _)|].
  injection H as _ <- <-. assert (Hw : wrap64 (sentSequence p + 1) = sentSequence p + 1).
  { unfold wrap64. apply Z.mod_small. unfold UINT64_MAX in *. change (2 ^ 64) with 18446744073709551616. lia. }
  assert (Hdec : Decode (take (Z.to_nat n) b) = Some (MkPacket (token p) (sentSequence p + 1) payload)).
  { eapply encode_decodes; [apply Hk|lia|exact Ee|lia]. }
  apply (Hupd (MkPeer (token p) (endpoint p) (registration p) (receivedSequence p) (sentSequence p + 1) (ready p)
    (Consume rnd (peerSendRate (options (impl w))) n own))); try done.
  - cbn [peers count_by count set_bucket set_peer]. by rewrite insert_insert_eq, Hw.
  - by constructor; [|constructor].
  - eapply gen_ok_sent; [by apply inv_gens|done|exact Hm|lia|done|apply Hk|done|done].
  - destruct Hk as [K1 K2 K3 K4 K5 K6 K7 K8].
    assert (Es : sendings (registration p) (sent w ++ [MkSent (registration p) (token p) (sentSequence p + 1) payload
      (MkDatagram (endpoint p) (take (Z.to_nat n) b))]) = sendings (registration p) (sent w) ++ [MkSent (registration p) (token p)
      (sentSequence p + 1) payload (MkDatagram (endpoint p) (take (Z.to_nat n) b))]).
    { rewrite sendings_app. unfold sendings at 2. cbn. by rewrite Z.eqb_refl. }
    split; cbn [token endpoint registration receivedSequence sentSequence ready]; rewrite ?Es; try done.
    + split; [lia|]. rewrite map_app, Hm, from_one_next by lia. done.
    + intros e [He|[<-|[]]]%in_app_or; auto.
Qed.

(** ** Receiving *)

Lemma decode_positive b pk : is_bytes b -> Decode b = Some pk -> 0 < sequence pk.
Proof.
  intros Hb. unfold Decode. destruct (_ || _) eqn:E; [done|]. apply orb_false_iff in E as [E _]. apply orb_false_iff in E as [E _].
  destruct (sequence_bytes_fold (slice 20 8 b)) as [Hr _]; [auto with sc|apply length_slice; unfold len, HeaderBytes in E; lia|].
  case_if; [done|]. intros [= <-]. cbn [sequence]. lia.
Qed.

Lemma receive_registry r l s n s' : PollReceive r l s = (n, s') -> same_registry s s' /\ polling s' = polling s.
Proof.
  unfold PollReceive. intros H.
  repeat match type of H with
  | (if ?b then _ else _) = _ => destruct b
  | match ?x with _ => _ end = _ => destruct x
  end; injection H as _ <-; done.
Qed.

Lemma receive_candidate r l l' c s s' : is_bytes (rBytes r) -> PollReceive r l s = (PollAdmission l' c, s') ->
  exists p, peers s !! cSession c = Some p /\ cRegistration c = registration p /\ 0 < sequence (cPacket c)
    /\ receivedSequence p < sequence (cPacket c) <= receivedSequence p + maxSequenceJump (options s)
    /\ (allowEndpointMigration (options s) = false -> ready p = true -> endpoint p = cEndpoint c).
Proof.
  unfold PollReceive. intros Hb H. case_if_in H; [done|]. case_if_in H; [case_if_in H; [done|]; case_if_in H; [done|]; by destruct (rRetryable r)|].
  case_if_in H; [done|]. destruct (Decode (rBytes r)) as [pk|] eqn:Ed; [|done]. apply decode_positive in Ed; [|done].
  case_if_in H; [done|]. cbn [tokens peers options count_by count] in H.
  destruct (tokens s !! DatagramCodec.token pk) as [id|]; [|done]. destruct (peers s !! id) as [p|] eqn:Ep; [|done].
  case_if_in H; [done|]. case_if_in H; [done|]. case_if_in H; [done|]. injection H as _ <- _. cbn [cSession cRegistration cPacket cEndpoint].
  exists p. split; [done|]. split; [done|]. split; [done|]. split; [lia|]. intros Hm Hr. rewrite Hm, Hr in E4. cbn [negb andb] in E4.
  by apply negb_false_iff, bool_decide_eq_true in E4.
Qed.

Lemma inv_receive r l n s w : inv w -> poll w = AtLoop l -> is_bytes (rBytes r) -> PollReceive r l (impl w) = (n, s) ->
  inv (match n with
       | PollReturn => leave s w
       | PollContinue l => with_poll s (AtLoop l) w
       | PollAdmission l c => with_poll s (Asking l c) w
       end).
Proof.
  intros Hi Hp Hb H. destruct (receive_registry _ _ _ _ _ H) as [Hs He].
  destruct (locals_bound w l Hi ltac:(by rewrite Hp)) as [Hz Hpo]. assert (bindingGeneration s <> 0) by (destruct Hs as (_ & -> & _); done).
  destruct n as [|l'|l' c]; [by apply inv_leave|apply inv_at_loop; congruence|]. apply inv_frame; try done; [by rewrite He|].
  intros ? ? [= _ <-]. eapply candidate_frame; [exact Hs|].
  destruct (receive_candidate _ _ _ _ _ _ Hb H) as (p & Hpe & Hr & Hq & Hrange & Hend). split; [|split; [done|]].
  - rewrite Hr. by apply (inv_range w Hi (cSession c) p).
  - intros q Hq' Hr'. rewrite Hpe in Hq'. injection Hq' as <-. done.
Qed.

Lemma deliveries_snoc g ds d : dRegistration d = g -> deliveries g (ds ++ [d]) = deliveries g ds ++ [d].
Proof. intros <-. unfold deliveries. rewrite List.filter_app. cbn. by rewrite Z.eqb_refl. Qed.

(** A committed candidate extends the trace of its registration. *)
Lemma commit_traces o id p c ds ss : gen_ok o (registration p) ds ss -> peer_ok o id p ds ss ->
  cSession c = id -> cRegistration c = registration p -> 0 < sequence (cPacket c) ->
  receivedSequence p < sequence (cPacket c) <= receivedSequence p + maxSequenceJump o ->
  (allowEndpointMigration o = false -> ready p = true -> endpoint p = cEndpoint c) ->
  gen_ok o (registration p) (ds ++ [delivery c]) ss
  /\ peer_ok o id (MkPeer (token p) (cEndpoint c) (registration p) (sequence (cPacket c)) (sentSequence p) true (peerBucket p))
       (ds ++ [delivery c]) ss.
Proof.
  intros [G1 G2 G3 G4 G5 G6] [K1 K2 K3 K4 K5 K6 K7 K8] Hs Hr Hq Hrange Hend.
  assert (Ed : deliveries (registration p) (ds ++ [delivery c]) = deliveries (registration p) ds ++ [delivery c]) by (by apply deliveries_snoc).
  assert (Esq : sequences (registration p) (ds ++ [delivery c]) = sequences (registration p) ds ++ [sequence (cPacket c)]).
  { unfold sequences. by rewrite Ed, map_app. }
  assert (Hin : forall d, In d (deliveries (registration p) (ds ++ [delivery c])) -> dSession d = id
    /\ (allowEndpointMigration o = false -> dEndpoint d = cEndpoint c)).
  { intros d. rewrite Ed, in_app_iff. intros [H|[<-|[]]]; [|done]. destruct (K4 d H) as [H1 H2]. split; [done|]. intros Hm.
    rewrite (K5 Hm d H). auto. }
  split; split; cbn [token endpoint registration receivedSequence sentSequence ready]; rewrite ?Esq; try done.
  - apply advances_snoc. rewrite K2. done.
  - intros d d' [H1 _]%Hin [H2 _]%Hin. congruence.
  - intros Hm d d' [_ H1]%Hin [_ H2]%Hin. rewrite H1, H2 by done. done.
  - apply last_last.
  - lia.
  - intros d [H1 _]%Hin. done.
  - intros Hm d [_ H1]%Hin. auto.
  - intros _. rewrite Ed. by destruct (deliveries _ ds).
Qed.

Lemma datagram_inv_commit l c r s w : inv w -> poll w = Asking l c -> PollCommit c l (impl w) = (r, s) ->
  inv (match r with
       | CommitReturn => leave s w
       | CommitStale => with_poll s (AtLoop (next_attempt l)) w
       | CommitDeliver => MkWorld s (Delivering l c) (delivered w ++ [delivery c]) (sent w)
       end).
Proof.
  intros Hi Hp H. destruct (locals_bound w l Hi ltac:(by rewrite Hp)) as [Hz Hpo].
  assert (Hst : inv (with_poll (reject staleDatagrams (impl w)) (AtLoop (next_attempt l)) w)) by (by apply inv_at_loop).
  unfold PollCommit in H. case_if_in H; [injection H as <- <-; by apply inv_leave|].
  destruct (peers (impl w) !! cSession c) as [p|] eqn:Ep; [|by injection H as <- <-].
  case_if_in H; [by injection H as <- <-|]. injection H as <- <-. rewrite !orb_false_iff in E0. destruct E0 as [[E0 _] _].
  destruct (inv_asking w Hi l c Hp) as (_ & Hq & Hc). destruct (Hc p Ep ltac:(lia)) as [Hrange Hend].
  destruct (commit_traces (options (impl w)) (cSession c) p c (delivered w) (sent w)) as [Hg Hk]; try done;
    [by apply inv_gens|by apply inv_peers|lia|]. rewrite <-(app_nil_r (sent w)).
  apply (inv_replace w (cSession c) p (MkPeer (token p) (cEndpoint c) (registration p) (sequence (cPacket c)) (sentSequence p) true
    (peerBucket p))); rewrite ?app_nil_r; try done.
  constructor; [cbn; lia|constructor].
Qed.

Lemma inv_throw l c w : inv w -> poll w = Asking l c \/ poll w = Delivering l c -> inv (leave (reject callbackFailures (impl w)) w).
Proof. intros Hi _. by apply inv_leave. Qed.

Lemma datagram_step_inv rnd w w' : inv w -> Step rnd w w' -> inv w'.
Proof.
  intros Hi Hs. destruct Hs as [o w Hj Hm|now result w|w|now id draws r s w Hd H|id w|now id payload socket r d s w H|w Hc|budget w Hc Hb
    |budget w Hp|l w Hp Hm|l r n s w Hp Hm Hb H|l c d w Hp Hd|l c r s w Hp H|l c w Hp|l c w Hp].
  - by apply inv_configure.
  - by apply inv_bind.
  - by apply inv_close.
  - by eapply inv_register.
  - by apply inv_unregister.
  - by eapply datagram_inv_send.
  - by apply inv_count.
  - by apply inv_frame.
  - assert (polling (impl w) = true) as Ho by (apply inv_polling; [done|]; by rewrite Hp).
    destruct (isOpen (impl w)) eqn:Eo; [|by apply inv_leave]. apply inv_at_loop; try done. intros Hz. destruct (inv_unbound w Hi Hz). congruence.
  - by apply inv_leave.
  - by eapply inv_receive.
  - destruct (locals_bound w l Hi ltac:(by rewrite Hp)) as [Hz Hpo]. apply inv_at_loop; try done; by destruct d.
  - by eapply datagram_inv_commit.
  - destruct (locals_bound w l Hi ltac:(by rewrite Hp)) as [Hz Hpo]. by apply inv_at_loop.
  - by eapply inv_throw.
Qed.

Lemma datagram_run_inv rnd w : Run rnd w -> inv w.
Proof.
  induction 1 as [|w w' _ IH Hs]; [|by eapply datagram_step_inv]. split; cbn [NewWorld impl poll delivered sent NewImpl peers tokens options
    registrationGeneration bindingGeneration isOpen polling]; try done.
  - intros t id. rewrite lookup_empty. split; [done|]. intros (p & H & _). by rewrite lookup_empty in H.
  - intros g. split; try done. exists 0. split; [unfold UINT64_MAX; lia|done].
Qed.

(** ** The budget of a poll *)

Definition locals_ok (l : PollLocals) : Prop :=
  BudgetValid (lBudget l) /\ 0 <= lAttempt l <= maximumDatagrams (lBudget l)
  /\ 0 <= lConsumed l < maximumBytes (lBudget l) + (MaximumDatagramBytes + 1).

Definition poll_ok (p : PollState) : Prop :=
  match p with
  | NotPolling => True
  | Entered budget => BudgetValid budget
  | AtLoop l => locals_ok l
  | Asking l _ | Delivering l _ => locals_ok (next_attempt l)
  end.

Lemma consume_bound n l : MorePolls l = true -> locals_ok l -> 0 <= n <= MaximumDatagramBytes + 1 -> locals_ok (next_attempt (consume n l)).
Proof.
  unfold MorePolls, locals_ok, BudgetValid, consume, next_attempt, ConsumeBytes. intros [H1 H2]%andb_prop (Hb & Ha & Hc) Hn.
  cbn [lAttempt lConsumed lBudget]. unfold SIZE_MAX, UINT64_MAX, MaximumDatagramBytes in *. split; [done|]. split; [lia|]. case_if; lia.
Qed.

Lemma receive_ok r l n s s' : MorePolls l = true -> locals_ok l -> PollReceive r l s = (n, s') ->
  match n with PollReturn => True | PollContinue l' => locals_ok l' | PollAdmission l' _ => locals_ok (next_attempt l') end.
Proof.
  intros Hm Hl. assert (Hn : locals_ok (next_attempt l)).
  { unfold MorePolls in Hm. apply andb_prop in Hm as [H1 H2]. destruct Hl as (Hb & Ha & Hc). unfold locals_ok, next_attempt.
    cbn [lAttempt lConsumed lBudget]. split; [done|]. lia. }
  pose proof (len_nonneg (rBytes r)). unfold PollReceive. case_if; [by intros [= <- _]|].
  case_if; [case_if; [by intros [= <- _]|]; case_if; [intros [= <- _]; apply consume_bound; [done|done|unfold MaximumDatagramBytes; lia]
    |intros [= <- _]; by destruct (rRetryable r)]|].
  destruct (_ <? len (rBytes r)) eqn:El; [by intros [= <- _]|].
  assert (Hc : locals_ok (next_attempt (consume (len (rBytes r)) l))) by (apply consume_bound; [done|done|lia]).
  destruct (Decode _); [|by intros [= <- _]]. case_if; [by intros [= <- _]|]. destruct (tokens _ !! _); [|by intros [= <- _]].
  destruct (peers _ !! _); [|by intros [= <- _]]. case_if; [by intros [= <- _]|]. case_if; [by intros [= <- _]|].
  case_if; [by intros [= <- _]|]. by intros [= <- _].
Qed.

(** ** Accounting *)

Definition reasons : list Counter :=
  [truncatedDatagrams; malformedDatagrams; unknownTokenDatagrams; replayedDatagrams; invalidPayloadDatagrams;
   admissionRejectedDatagrams; staleDatagrams; callbackFailures; endpointMismatchDatagrams; sequenceJumpDatagrams].

Definition total (m : Metrics) : Z := fold_right (fun c n => m c + n) 0 reasons.

(** Modulo the width of the counters. *)
Definition balanced (m : Metrics) : Prop := exists k, m rejectedDatagrams = total m + k * 2 ^ 64.

Lemma wrap64_shift z : exists k, wrap64 z = z + k * 2 ^ 64.
Proof. exists (- (z / 2 ^ 64)). unfold wrap64. rewrite Z.mod_eq by lia. lia. Qed.

Lemma balanced_reject reason m : In reason reasons -> balanced m -> balanced (Add reason 1 (Add rejectedDatagrams 1 m)).
Proof.
  intros Hin [k Hk]. destruct (wrap64_shift (m rejectedDatagrams + 1)) as [k1 H1]. destruct (wrap64_shift (m reason + 1)) as [k2 H2].
  exists (k + k1 - k2). unfold total, reasons in *. cbn [fold_right] in *.
  repeat (destruct Hin as [<-|Hin]; [unfold Add; repeat (case_decide; [congruence || idtac|congruence || idtac]); lia|]). destruct Hin.
Qed.

Lemma balanced_other c n m : c <> rejectedDatagrams -> ~ In c reasons -> balanced m -> balanced (Add c n m).
Proof.
  intros Hr Hin [k Hk]. exists k. unfold Add, total, reasons in *. cbn [fold_right In] in *.
  repeat (rewrite decide_False by (intros <-; tauto)). done.
Qed.

Lemma balanced_receive r l s n s' : balanced (metrics s) -> PollReceive r l s = (n, s') -> balanced (metrics s').
Proof.
  intros Hb. assert (Hc : balanced (metrics (count_by receivedBytes (len (rBytes r)) (count receivedDatagrams s)))).
  { apply balanced_other; [done|cbn; naive_solver|]. apply balanced_other; [done|cbn; naive_solver|done]. }
  assert (He : balanced (metrics (count socketErrors s))) by (apply balanced_other; [done|cbn; naive_solver|done]).
  unfold PollReceive. intros H. set (s1 := count_by _ _ _) in *. clearbody s1.
  repeat match type of H with
  | (if ?b then _ else _) = _ => destruct b
  | match ?x with _ => _ end = _ => destruct x
  end; injection H as _ <-; try done; apply balanced_reject; try done; cbn; tauto.
Qed.

Lemma balanced_send rnd now id payload socket s r d s' : balanced (metrics s) ->
  SendPayload rnd now id payload socket s = (r, d, s') -> balanced (metrics s').
Proof.
  intros Hb H. assert (Ho : forall c n m, (c = sendNotReady \/ c = sendRateLimited \/ c = sendLimitedGlobal \/ c = sendLimitedPeer \/
    c = sendWouldBlock \/ c = socketErrors \/ c = sentDatagrams \/ c = sentBytes) -> balanced m -> balanced (Add c n m)).
  { intros c n m Hc. apply balanced_other; [naive_solver|cbn; naive_solver]. }
  unfold SendPayload in H. destruct (peers s !! id) as [p|]; [|by injection H as _ _ <-].
  case_if_in H; [injection H as _ _ <-; apply Ho; tauto|]. case_if_in H; [by injection H as _ _ <-|].
  destruct (Encode _ _ _ _) as [n b]. case_if_in H; [by injection H as _ _ <-|].
  destruct (Available _ _ _ _ (sendBucket s)) as [global tot]. destruct (Available _ _ _ _ (peerBucket p)) as [perPeer own].
  case_if_in H; [|case_if_in H]; injection H as _ _ <-.
  - destruct global, perPeer; cbn [metrics count set_bucket set_peer]; repeat (apply Ho; [tauto|]); done.
  - destruct (bool_decide _); apply Ho; try tauto; done.
  - cbn [metrics count_by count set_bucket set_peer]. repeat (apply Ho; [tauto|]). done.
Qed.

Lemma step_accounts rnd w w' : balanced (metrics (impl w)) -> poll_ok (poll w) -> Step rnd w w' ->
  balanced (metrics (impl w')) /\ poll_ok (poll w').
Proof.
  intros Hb Hp Hs. destruct Hs as [o w Hj Hm|now result w|w|now id draws r s w Hd H|id w|now id payload socket r d s w H|w Hc|budget w Hc Hbu
    |budget w Hp'|l w Hp' Hm|l r n s w Hp' Hm Hby H|l c d w Hp' Hd|l c r s w Hp' H|l c w Hp'|l c w Hp'];
    rewrite ?Hp' in Hp; cbn [poll_ok] in Hp.
  - unfold Configure. case_if; [done|]. case_if; [done|]. by case_if.
  - unfold Bind. case_if; [done|]. case_if; [done|]. by case_if.
  - done.
  - unfold RegisterSession in H. case_if_in H; [by injection H as _ <-|]. case_if_in H; [by injection H as _ <-|].
    case_if_in H; [by injection H as _ <-|]. case_if_in H; [by injection H as _ <-|]. destruct (FreshToken _ _) as [[t|]|]; [|by injection H as _ <-|done].
    by injection H as _ <-.
  - unfold UnregisterSession. by destruct (peers (impl w) !! id).
  - split; [by eapply balanced_send|done].
  - split; [|done]. apply balanced_other; [done|cbn; naive_solver|done].
  - done.
  - destruct (isOpen (impl w)); [|done]. split; [done|]. cbn [with_poll poll poll_ok]. unfold locals_ok, BudgetValid in *. cbn [lAttempt lConsumed lBudget]. unfold MaximumDatagramBytes. lia.
  - done.
  - pose proof (receive_ok _ _ _ _ _ Hm Hp H). pose proof (balanced_receive _ _ _ _ _ Hb H). by destruct n.
  - split; [|done]. destruct d; [done| |]; apply balanced_reject; try done; cbn; tauto.
  - unfold PollCommit in H. assert (balanced (metrics (reject staleDatagrams (impl w)))) by (apply balanced_reject; [cbn; tauto|done]).
    case_if_in H; [by injection H as <- <-|]. destruct (peers _ !! _); [|by injection H as <- <-]. case_if_in H; by injection H as <- <-.
  - done.
  - split; [|done]. apply balanced_reject; [cbn; tauto|done].
Qed.

Lemma run_accounts rnd w : Run rnd w -> balanced (metrics (impl w)) /\ poll_ok (poll w).
Proof.
  induction 1 as [|w w' _ [IH1 IH2] Hs]; [|by eapply step_accounts]. split; [|done]. exists 0. done.
Qed.

(** ** Theorems *)

(** C13. No replays: in every run of registrations, sendings, closings, rebindings and polls, whatever packets arrive and
    however the threads interleave, the datagrams delivered for one registration have strictly increasing sequence
    numbers, each at most [maxSequenceJump] above the one before it; they all go to the session of that registration,
    and unless migration is allowed they all come from the endpoint of the first one. *)
Theorem datagram_no_replay (rnd : Q -> Q) (w : World) (g : Z) :
  Run rnd w ->
  advances (maxSequenceJump (options (impl w))) 0 (sequences g (delivered w))
  /\ (forall d d', In d (deliveries g (delivered w)) -> In d' (deliveries g (delivered w)) ->
        dSession d = dSession d' /\ (allowEndpointMigration (options (impl w)) = false -> dEndpoint d = dEndpoint d')).
Proof.
  intros Hr. destruct (inv_gens w (datagram_run_inv rnd w Hr) g) as [H1 H2 H3 _ _ _]. split; [done|]. intros d d' Hd Hd'. split; [auto|]. intros Hm. auto.
Qed.

(** Sent datagrams are numbered without gaps: in every run the datagrams the socket accepted for one registration
    have the sequence numbers 1, 2, 3 and so on in that order, and the receiver's codec reads each of them as the
    registration's token, that number and the payload that was passed to the call. *)
Theorem datagram_sending_numbered (rnd : Q -> Q) (w : World) (g : Z) :
  Run rnd w ->
  (exists n, map sSequence (sendings g (sent w)) = from_one n)
  /\ (forall d d', In d (sendings g (sent w)) -> In d' (sendings g (sent w)) -> sToken d = sToken d')
  /\ (forall d, In d (sendings g (sent w)) -> Decode (dBytes (sDatagram d)) = Some (MkPacket (sToken d) (sSequence d) (sPayload d))).
Proof.
  intros Hr. destruct (inv_gens w (datagram_run_inv rnd w Hr) g) as [_ _ _ (n & _ & Hn) H5 H6]. split; [by exists n|]. done.
Qed.

(** The registry is consistent: in every run the token table is the inverse of the table of peers (a token names one
    session and every session's token is in the table), two sessions never share a registration, the number of
    sessions keeps to its limit, rejected datagrams are the sum of their reasons modulo the width of the counters,
    and a poll makes at most [maximumDatagrams] rounds and consumes less than [maximumBytes] and one datagram more. *)
Theorem datagram_registry_consistent (rnd : Q -> Q) (w : World) :
  Run rnd w ->
  (forall t id, tokens (impl w) !! t = Some id <-> exists p, peers (impl w) !! id = Some p /\ token p = t)
  /\ (forall id id' p p', peers (impl w) !! id = Some p -> peers (impl w) !! id' = Some p' -> registration p = registration p' -> id = id')
  /\ Z.of_nat (size (peers (impl w))) <= maxRegisteredSessions (options (impl w))
  /\ balanced (metrics (impl w)) /\ poll_ok (poll w).
Proof.
  intros Hr. destruct (datagram_run_inv rnd w Hr) as [H1 H2 H3 H4 H5 H6 H7 H8 H9 H10 H11 H12]. destruct (run_accounts rnd w Hr). done.
Qed.

(** A run: bind, register session 7, receive one datagram and answer it. *)
Definition sample_token : list Z := map Z.of_nat (seq 1 16).
Definition sample_peer : IpEndpoint := MkEndpoint (MkAddress FamilyV4 ([192; 0; 2; 1] ++ repeat 0 12) 0) 9999.
Definition sample_packet : Received := MkReceived Status.Ok sample_peer (datagram_bytes sample_token 3 (txt "hi")) false.

Lemma triple_eta {A B C : Type} (x : A * B * C) : x = (x.1.1, x.1.2, x.2).
Proof. by destruct x as [[a b] c]. Qed.

Lemma datagram_sample_run : exists w, Run (fun q => q) w /\ sequences 1 (delivered w) = [3]
  /\ map sSequence (sendings 1 (sent w)) = [1] /\ peers (impl w) !! 7 <> None.
Proof.
  pose proof (run_new (fun q => q)) as R0.
  eassert (R1 : Run (fun q => q) _) by (eapply run_step; [exact R0|eapply (step_bind _ 0 Status.Ok)]).
  eassert (R2 : Run (fun q => q) _).
  { eapply run_step; [exact R1|eapply (step_register _ 0 7 [FromValue sample_token]); [|vm_compute; reflexivity]].
    constructor; [|constructor]. split; [apply bytesb_iff; reflexivity|reflexivity]. }
  eassert (R3 : Run (fun q => q) _) by (eapply run_step; [exact R2|eapply (step_enter _ (MkBudget 8 4096)); [reflexivity|vm_compute; repeat split; discriminate]]).
  eassert (R4 : Run (fun q => q) _) by (eapply run_step; [exact R3|eapply step_open; reflexivity]).
  eassert (R5 : Run (fun q => q) _).
  { eapply run_step; [exact R4|eapply (step_receive _ _ sample_packet); [vm_compute; reflexivity|vm_compute; reflexivity|apply bytesb_iff; reflexivity|apply surjective_pairing]]. }
  eassert (R6 : Run (fun q => q) _) by (eapply run_step; [exact R5|eapply step_commit; [vm_compute; reflexivity|apply surjective_pairing]]).
  eassert (R7 : Run (fun q => q) _).
  { eapply run_step; [exact R6|eapply (step_send _ 0 7 (txt "ok") Status.Ok)]. apply triple_eta. }
  eexists. split; [exact R7|]. split; [vm_compute; reflexivity|]. split; [vm_compute; reflexivity|]. vm_compute. discriminate.
Qed.

Lemma datagram_no_replay_witness : exists w, Run (fun q => q) w /\ sequences 1 (delivered w) = [3]
  /\ advances (maxSequenceJump (options (impl w))) 0 (sequences 1 (delivered w)).
Proof.
  destruct datagram_sample_run as (w & Hr & Hs & _). exists w. split; [exact Hr|]. split; [exact Hs|].
  exact (proj1 (datagram_no_replay (fun q => q) w 1 Hr)).
Defined.

Lemma datagram_sending_numbered_witness : exists w, Run (fun q => q) w /\ map sSequence (sendings 1 (sent w)) = [1]
  /\ exists n, map sSequence (sendings 1 (sent w)) = from_one n.
Proof.
  destruct datagram_sample_run as (w & Hr & _ & Hs & _). exists w. split; [exact Hr|]. split; [exact Hs|].
  exact (proj1 (datagram_sending_numbered (fun q => q) w 1 Hr)).
Defined.

Lemma datagram_registry_consistent_witness : exists w, Run (fun q => q) w /\ peers (impl w) !! 7 <> None
  /\ Z.of_nat (size (peers (impl w))) <= maxRegisteredSessions (options (impl w)).
Proof.
  destruct datagram_sample_run as (w & Hr & _ & _ & Hp). exists w. split; [exact Hr|]. split; [exact Hp|].
  exact (proj1 (proj2 (proj2 (datagram_registry_consistent (fun q => q) w Hr)))).
Defined.
