(* ===== verification/HttpPolicy.v ===== *)
(** * Web: request policies.

    [Web/HttpPolicy.h|cpp]: the chain of policy rules a server consults before a handler, with its path
    prefixes, its limits and its merging of headers, and the policies the library provides: CORS, common
    headers, request identifiers, proxy metadata; the JSON bodies and error responses.  A rule's step is
    arbitrary code: it acts on a world, an argument of the model, and returns a result or throws.  Failures of
    allocation are left out. *)

From S2P Require Import Prelude CoreError RequestData Charconv Json HttpParser Endpoint PolicyInternal TrustedProxy ResponseHead.
Import Charconv Json Policy.

Module HttpPolicy.

(** What the policies read of a request: the parsed request and the peer's endpoint. *)
Record HttpRequest : Type := MkRequest { parsed : HttpParser.HttpRequest; remoteEndpoint : Endpoint.IpEndpoint }.

Definition method (r : HttpRequest) : list Z := HttpParser.method (parsed r).
Definition headers (r : HttpRequest) : HttpHeaders := HttpParser.headers (parsed r).
Definition body (r : HttpRequest) : list Z := HttpParser.body (parsed r).

Record HttpPolicyResult : Type := MkResult {
  responseHeaders : HttpHeaders;
  attributes : HttpHeaders;
  response : option ResponseHead.HttpResponse
}.

Definition NewResult : HttpPolicyResult := MkResult [] [] None.

(** What a step does: it returns a result, or it throws. *)
Inductive Outcome : Type := Returned (value : Result HttpPolicyResult) | Threw.

Section World.
Context {W : Type}.

Definition HttpPolicyStep : Type := HttpRequest -> bool -> W -> Outcome * W.

(** An empty [std::function] is [None]. *)
Record HttpPolicyRule : Type := MkRule { pathPrefix : list Z; step : option HttpPolicyStep }.

End World.
Arguments HttpPolicyStep : clear implicits.
Arguments HttpPolicyRule : clear implicits.

Record HttpPolicyLimits : Type := MkLimits { maxRules : Z; maxMetadataBytes : Z; maxResponseBodyBytes : Z }.

Definition Fail {T : Type} (code : ErrorCode) : Result T := FromStatus (Status.FailWithoutMessage code).

(** ** Paths *)

Definition Slash : Z := char_code "/".

(** A byte that no decoded segment may have. *)
Definition BadPathChar (c : Z) : bool := (c <? 32) || (c =? 127) || (c =? Slash) || (c =? 92).

(** The loop of [CanonicalPath] over the segments; [path] is what was written so far. *)
Fixpoint CanonicalSegments (segments : list (list Z)) (path : list Z) : Result (list Z) :=
  match segments with
  | [] => FromValue path
  | raw :: segments =>
      match RequestData.PercentDecodeComponent raw false 16384 with
      | FromStatus s => Fail (Status.Code s)
      | FromValue part =>
          if bytes_eqb part (txt ".") || bytes_eqb part (txt "..") then Fail InvalidFormat
          else if existsb BadPathChar part then Fail InvalidFormat
          else
            match segments with
            | [] => FromValue (path ++ part)
            | _ => CanonicalSegments segments (path ++ part ++ [Slash])
            end
      end
  end.

Definition CanonicalPath (raw : list Z) : Result (list Z) :=
  match raw with
  | [] => Fail InvalidFormat
  | c :: rest =>
      if negb (c =? Slash) || (16384 <? len raw) || existsb (fun c => (c =? char_code "?") || (c =? char_code "#")) raw
      then Fail InvalidFormat
      else CanonicalSegments (split_on Slash rest) [Slash]
  end.

Definition Prefix (path prefix : list Z) : bool :=
  bytes_eqb prefix (txt "/")
  || (starts_with prefix path && ((len path =? len prefix) || (nth (length prefix) path 0 =? Slash))).

(** ** Headers *)

(** A header a policy may set: the framing fields belong to the server. *)
Definition PolicyHeader (name value : list Z) : bool :=
  Token name && HeaderValue value && negb (Same name (txt "content-length")) && negb (Same name (txt "transfer-encoding"))
  && negb (Same name (txt "connection")) && negb (Same name (txt "trailer")) && negb (Same name (txt "upgrade")).

(** The loop of [Account]; the result is the new value of [bytes], [None] stands for [false]. *)
Fixpoint AccountLoop (fields : HttpHeaders) (bytes max : Z) (isHeaders : bool) : option Z :=
  match fields with
  | [] => Some bytes
  | (name, value) :: fields =>
      if isHeaders && negb (PolicyHeader name value) then None
      else if HttpParser.size_sub max bytes <? len name then None
      else
        let bytes := bytes + len name in
        if HttpParser.size_sub max bytes <? len value then None else AccountLoop fields (bytes + len value) max isHeaders
  end.

Definition Account (fields : HttpHeaders) (bytes max : Z) (isHeaders : bool) : option Z :=
  if 256 <? len fields then None else AccountLoop fields bytes max isHeaders.

(** The value of a [Vary] header after those of the target. *)
Definition MergedVary (target : HttpHeaders) (value : list Z) : list Z :=
  fold_left (fun value previous =>
    if Same previous.1 (txt "vary") then previous.2 ++ txt ", " ++ value else value) target value.

Definition MergeField (isHeaders : bool) (target : HttpHeaders) (field : list Z * list Z) : HttpHeaders :=
  let (name, value) := field in
  let value := if isHeaders && Same name (txt "vary") then MergedVary target value else value in
  if isHeaders then SetHeader target name value
  else List.filter (fun item => negb (bytes_eqb item.1 name)) target ++ [(name, value)].

Definition Merge (target source : HttpHeaders) (isHeaders : bool) : HttpHeaders := fold_left (MergeField isHeaders) source target.

(** The single header of a name, without the blanks around it. *)
Fixpoint SingleLoop (fields : HttpHeaders) (name : list Z) (value : option (list Z)) : Result (option (list Z)) :=
  match fields with
  | [] => FromValue value
  | field :: fields =>
      if Same field.1 name then
        match value with
        | Some _ => Fail InvalidFormat
        | None => SingleLoop fields name (Some (Trim field.2))
        end
      else SingleLoop fields name value
  end.

Definition Single (fields : HttpHeaders) (name : list Z) : Result (option (list Z)) := SingleLoop fields name None.

Definition Origin (text : list Z) : bool :=
  if bytes_eqb text (txt "null") then true
  else
    match cut_sub (txt "://") text with
    | (_, None) => false
    | (scheme, Some authority) => (bytes_eqb scheme (txt "http") || bytes_eqb scheme (txt "https")) && Authority authority
    end.

Definition Join (values : list (list Z)) : list Z :=
  fold_left (fun out value => (if negb (len out =? 0) then out ++ txt ", " else out) ++ value) values [].

Definition Rejected (status : Z) : HttpPolicyResult :=
  MkResult [(txt "vary", txt "Origin")] [] (Some (ResponseHead.MkResponse status [] [] false)).

(** ** The pipeline *)

Section Pipeline.
Context {W : Type}.

Record State : Type := MkState { rules : list (HttpPolicyRule W); limits : HttpPolicyLimits }.

Definition LimitsOk (count : Z) (l : HttpPolicyLimits) : bool :=
  negb ((maxRules l =? 0) || (256 <? maxRules l) || (maxRules l <? count)
        || (maxMetadataBytes l =? 0) || (1024 * 1024 <? maxMetadataBytes l)
        || (maxResponseBodyBytes l =? 0) || (16 * 1024 * 1024 <? maxResponseBodyBytes l)).

(** A canonical prefix loses the slash at its end. *)
Definition StripSlash (path : list Z) : list Z :=
  if (1 <? len path) && (default 0 (last path) =? Slash) then removelast path else path.

(** The loop of [Create] over the rules. *)
Fixpoint CreateRules (l : HttpPolicyLimits) (rs done : list (HttpPolicyRule W)) (bytes : Z) : Result (list (HttpPolicyRule W)) :=
  match rs with
  | [] => FromValue done
  | rule :: rs =>
      match step rule with
      | None => Fail InvalidArgument
      | Some s =>
          match CanonicalPath (pathPrefix rule) with
          | FromStatus _ => Fail InvalidArgument
          | FromValue path =>
              let prefix := StripSlash path in
              if HttpParser.size_sub (maxMetadataBytes l) bytes <? len prefix then Fail TooLarge
              else CreateRules l rs (done ++ [MkRule prefix (Some s)]) (bytes + len prefix)
          end
      end
  end.

Definition Create (rs : list (HttpPolicyRule W)) (l : HttpPolicyLimits) : Result State :=
  if negb (LimitsOk (len rs) l) then Fail InvalidArgument
  else
    match CreateRules l rs [] 0 with
    | FromStatus s => FromStatus s
    | FromValue rs => FromValue (MkState rs l)
    end.

(** Both lists are accounted against one limit. *)
Definition AccountBoth (headers attributes : HttpHeaders) (max : Z) : option Z :=
  match Account headers 0 max true with
  | None => None
  | Some size => Account attributes size max false
  end.

(** What a rule's value does to the result so far; [inr] when a response ends the loop. *)
Definition Apply (l : HttpPolicyLimits) (value result : HttpPolicyResult) : Result (HttpPolicyResult + HttpPolicyResult) :=
  match AccountBoth (responseHeaders value) (attributes value) (maxMetadataBytes l) with
  | None => Fail TooLarge
  | Some _ =>
      let merged := Merge (responseHeaders result) (responseHeaders value) true in
      let mergedAttributes := Merge (attributes result) (attributes value) false in
      match AccountBoth merged mergedAttributes (maxMetadataBytes l) with
      | None => Fail TooLarge
      | Some size =>
          match response value with
          | None => FromValue (inl (MkResult merged mergedAttributes (response result)))
          | Some r =>
              if maxResponseBodyBytes l <? len (ResponseHead.respBody r) then Fail TooLarge
              else
                match Account (ResponseHead.respHeaders r) size (maxMetadataBytes l) true with
                | None => Fail TooLarge
                | Some _ =>
                    FromValue (inr (MkResult [] mergedAttributes
                      (Some (ResponseHead.MkResponse (ResponseHead.respStatus r) (Merge merged (ResponseHead.respHeaders r) true)
                        (ResponseHead.respBody r) (ResponseHead.respClose r)))))
                end
          end
      end
  end.

(** The loop of [Evaluate] over the rules.  Calling an empty function throws. *)
Fixpoint EvaluateRules (l : HttpPolicyLimits) (rs : list (HttpPolicyRule W)) (path : list Z) (request : HttpRequest)
    (upgrade : bool) (result : HttpPolicyResult) (w : W) : Result HttpPolicyResult * W :=
  match rs with
  | [] => (FromValue result, w)
  | rule :: rs =>
      if negb (Prefix path (pathPrefix rule)) then EvaluateRules l rs path request upgrade result w
      else
        match match step rule with Some s => s request upgrade w | None => (Threw, w) end with
        | (Threw, w) => (Fail PlatformError, w)
        | (Returned (FromStatus s), w) => (Fail (Status.Code s), w)
        | (Returned (FromValue value), w) =>
            match Apply l value result with
            | FromStatus s => (FromStatus s, w)
            | FromValue (inr answer) => (FromValue answer, w)
            | FromValue (inl result) => EvaluateRules l rs path request upgrade result w
            end
        end
  end.

Definition Evaluate (s : State) (request : HttpRequest) (upgrade : bool) (w : W) : Result HttpPolicyResult * W :=
  match CanonicalPath (HttpParser.Path (parsed request)) with
  | FromStatus e => (Fail (Status.Code e), w)
  | FromValue path => EvaluateRules (limits s) (rules s) path request upgrade NewResult w
  end.

End Pipeline.
Arguments State : clear implicits.

(** ** JSON bodies and error responses *)

(** The default of [JsonParseLimits]. *)
Definition DefaultMaxValues : Z := SIZE_MAX.

Definition IsJsonType (value : list Z) : bool :=
  match cut (char_code ";") value with
  | (media, parameters) =>
      Same (Trim media) (txt "application/json")
      && match parameters with
         | None => true
         | Some text => Same (Trim text) (txt "charset=utf-8")
                        || Same (Trim text) (txt "charset=" ++ [34] ++ txt "utf-8" ++ [34])
         end
  end.

Definition ParseJsonBody (request : HttpRequest) (maxBytes : Z) : option (Result JsonValue) :=
  if (maxBytes =? 0) || (maxBytes <? len (body request)) then Some (Fail TooLarge)
  else
    match Single (headers request) (txt "content-type") with
    | FromValue (Some value) => if IsJsonType value then Parse (body request) DefaultMaxValues else Some (Fail InvalidFormat)
    | _ => Some (Fail InvalidFormat)
    end.

Definition JsonResponse (value : JsonValue) (status maxBytes : Z) : Result ResponseHead.HttpResponse :=
  if (status <? 200) || (599 <? status) || (maxBytes =? 0) then Fail InvalidArgument
  else
    match Dump value with
    | FromStatus s => Fail (Status.Code s)
    | FromValue encoded =>
        if maxBytes <? len encoded then Fail TooLarge
        else FromValue (ResponseHead.MkResponse status [(txt "content-type", txt "application/json")] encoded false)
    end.

Definition ErrorStatus (error : ErrorCode) : Z :=
  match error with
  | InvalidArgument | InvalidFormat => 400
  | TooLarge => 413
  | NotFound => 404
  | AlreadyExists => 409
  | Closed => 503
  | WouldBlock => 429
  | Timeout => 504
  | Cancelled => 408
  | UnimplementedCode => 501
  | _ => 500
  end.

Definition ErrorTitle (status : Z) : list Z :=
  if status =? 409 then txt "Conflict" else if status =? 429 then txt "Too Many Requests"
  else if status =? 504 then txt "Gateway Timeout" else ResponseHead.ReasonPhrase status.

(** [std::map::emplace]: a key that is there is left alone. *)
Definition AddMember (key : list Z) (value : JsonValue) (o : Object) : Object := default o (Emplace key value o).

Definition ErrorBody (error : ErrorCode) (requestId : list Z) (status : Z) : Object :=
  let o := AddMember (txt "type") (JString (txt "about:blank")) [] in
  let o := AddMember (txt "title") (JString (ErrorTitle status)) o in
  let o := AddMember (txt "status") (JNumber (UInt64 status)) o in
  let o := AddMember (txt "code") (JNumber (UInt64 (ErrorCode_to_Z error))) o in
  if negb (len requestId =? 0) then AddMember (txt "request_id") (JString requestId) o else o.

Definition ErrorResponse (error : ErrorCode) (requestId : list Z) (status : Z) : Result ResponseHead.HttpResponse :=
  if bool_decide (error = ErrorCode_Ok) || (1024 <? len requestId) then Fail InvalidArgument
  else
    let status := if status =? 0 then ErrorStatus error else status in
    if (status <? 400) || (599 <? status) then Fail InvalidArgument
    else
      match JsonResponse (JObject (ErrorBody error requestId status)) status 16384 with
      | FromStatus s => FromStatus s
      | FromValue r =>
          FromValue (ResponseHead.MkResponse (ResponseHead.respStatus r)
            (match ResponseHead.respHeaders r with
             | (name, _) :: rest => (name, txt "application/problem+json") :: rest
             | [] => []
             end) (ResponseHead.respBody r) (ResponseHead.respClose r))
      end.

(** ** The request policy of a pipeline *)

(** What is called on the decision of a context. *)
Inductive DecisionCall : Type :=
| Reject (response : ResponseHead.HttpResponse)
| Allow (responseHeaders attributes : HttpHeaders)
| AbortCall.

(** [accepts]: whether the decision answers a call with [Ok].  The calls made, in order. *)
Definition AsRequestPolicy {W : Type} (s : State W) (accepts : DecisionCall -> bool) (request : HttpRequest) (upgrade : bool) (w : W)
    : list DecisionCall * W :=
  match Evaluate s request upgrade w with
  | (FromStatus e, w) =>
      match ErrorResponse (Status.Code e) [] 0 with
      | FromStatus _ => ([AbortCall], w)
      | FromValue r => (if accepts (Reject r) then [Reject r] else [Reject r; AbortCall], w)
      end
  | (FromValue result, w) =>
      let call := match response result with
                  | Some r => Reject r
                  | None => Allow (responseHeaders result) (attributes result)
                  end in
      (if accepts call then [call] else [call; AbortCall], w)
  end.

(** ** The policies of the library *)

(** Steps without a state of their own. *)
Definition CommonHeadersStep (fields : HttpHeaders) : Result HttpPolicyResult := FromValue (MkResult fields [] None).

Definition CommonHeadersPolicy {W : Type} (fields : HttpHeaders) : Result (HttpPolicyStep W) :=
  match Account fields 0 16384 true with
  | None => Fail InvalidArgument
  | Some _ => FromValue (fun _ _ w => (Returned (CommonHeadersStep fields), w))
  end.

Record RequestIdOptions : Type := MkRequestId { headerName : list Z; acceptIncoming : bool; maxBytes : Z }.

Definition RequestIdOptionsOk (o : RequestIdOptions) : bool :=
  negb (negb (Token (headerName o)) || negb (PolicyHeader (headerName o) (txt "id")) || (128 <? len (headerName o))
        || (maxBytes o <? 24) || (1024 <? maxBytes o)).

(** The identifier the client sent, if one is accepted. *)
Definition IncomingId (o : RequestIdOptions) (request : HttpRequest) : Result (list Z) :=
  if acceptIncoming o then
    match Single (headers request) (headerName o) with
    | FromStatus _ => Fail InvalidFormat
    | FromValue None => FromValue []
    | FromValue (Some id) => if (maxBytes o <? len id) || negb (Token id) then Fail InvalidFormat else FromValue id
    end
  else FromValue [].

Definition IdResult (o : RequestIdOptions) (id : list Z) : HttpPolicyResult :=
  MkResult [(headerName o, id)] [(txt "request_id", id)] None.

(** The counter is the process's; the loop of [compare_exchange_weak] is one atomic update of it. *)
Definition RequestIdStep (o : RequestIdOptions) (request : HttpRequest) (counter : Z) : Result HttpPolicyResult * Z :=
  match IncomingId o request with
  | FromStatus s => (FromStatus s, counter)
  | FromValue id =>
      if len id =? 0 then
        if counter =? UINT64_MAX then (Fail TooLarge, counter)
        else (FromValue (IdResult o (txt "sc-" ++ Digits counter)), counter + 1)
      else (FromValue (IdResult o id), counter)
  end.

(** [counter] and [set_counter]: where the world keeps the counter. *)
Definition RequestIdPolicy {W : Type} (counter : W -> Z) (set_counter : Z -> W -> W) (o : RequestIdOptions) : Result (HttpPolicyStep W) :=
  if negb (RequestIdOptionsOk o) then Fail InvalidArgument
  else FromValue (fun request _ w => let (r, n) := RequestIdStep o request (counter w) in (Returned r, set_counter n w)).

Record CorsOptions : Type := MkCors {
  allowedOrigins : list (list Z);
  allowedMethods : list (list Z);
  allowedHeaders : list (list Z);
  exposedHeaders : list (list Z);
  allowCredentials : bool;
  maxAge : Z
}.

Definition Any : list Z := txt "*".

Definition CorsSizesOk (o : CorsOptions) : bool :=
  negb ((len (allowedOrigins o) =? 0) || (128 <? len (allowedOrigins o)) || (len (allowedMethods o) =? 0)
        || (64 <? len (allowedMethods o)) || (128 <? len (allowedHeaders o)) || (128 <? len (exposedHeaders o))
        || (maxAge o <? 0) || (24 * 3600 <? maxAge o)).

Definition Bytes (values : list (list Z)) : Z := fold_right Z.add 0 (map len values).

Definition CorsValues (o : CorsOptions) : list (list Z) := allowedMethods o ++ allowedHeaders o ++ exposedHeaders o.

(** The checks of [CorsPolicy]; the options the step captures, with their header names in lower case. *)
Definition CheckCors (o : CorsOptions) : Result (CorsOptions * bool) :=
  if negb (CorsSizesOk o) then Fail InvalidArgument
  else if negb (forallb (fun origin => bytes_eqb origin Any || Origin origin) (allowedOrigins o)) then Fail InvalidArgument
  else
    let wildcard := existsb (bytes_eqb Any) (allowedOrigins o) in
    if wildcard && (allowCredentials o || negb (len (allowedOrigins o) =? 1)) then Fail InvalidArgument
    else if negb (forallb (fun value => Token value && negb (bytes_eqb value Any)) (CorsValues o)) then Fail InvalidArgument
    else if 16384 <? Bytes (allowedOrigins o) + Bytes (CorsValues o) then Fail TooLarge
    else FromValue (MkCors (allowedOrigins o) (allowedMethods o) (map Lower (allowedHeaders o)) (exposedHeaders o)
                      (allowCredentials o) (maxAge o), wildcard).

Definition contains (values : list (list Z)) (value : list Z) : bool := existsb (bytes_eqb value) values.

(** The loop over the requested header names: an error, a rejection ([None]) or the allowed names. *)
Fixpoint RequestedHeaders (o : CorsOptions) (names allowed : list (list Z)) : Result (option (list (list Z))) :=
  match names with
  | [] => FromValue (Some allowed)
  | raw :: names =>
      let name := Lower (Trim raw) in
      if negb (Token name) || (128 <=? len allowed) then Fail InvalidFormat
      else if negb (contains (allowedHeaders o) name) then FromValue None
      else RequestedHeaders o names (if contains allowed name then allowed else allowed ++ [name])
  end.

Definition AllowedNames (o : CorsOptions) (requested : option (list Z)) : Result (option (list (list Z))) :=
  match requested with
  | None => FromValue (Some [])
  | Some text => if 8192 <? len text then Fail TooLarge else RequestedHeaders o (split_on (char_code ",") text) []
  end.

(** The answer to a preflight request, after the headers every answer has. *)
Definition Preflight (o : CorsOptions) (request : HttpRequest) (common : HttpHeaders) (requestMethod : list Z) : Result HttpPolicyResult :=
  if negb (Token requestMethod) then Fail InvalidFormat
  else if negb (contains (allowedMethods o) requestMethod) then FromValue (Rejected 403)
  else
    match Single (headers request) (txt "access-control-request-headers") with
    | FromStatus _ => Fail InvalidFormat
    | FromValue requested =>
        match AllowedNames o requested with
        | FromStatus s => FromStatus s
        | FromValue None => FromValue (Rejected 403)
        | FromValue (Some allowed) =>
            FromValue (MkResult (common ++ [(txt "access-control-allow-methods", Join (allowedMethods o))]
              ++ (if negb (len allowed =? 0) then [(txt "access-control-allow-headers", Join allowed)] else [])
              ++ [(txt "access-control-max-age", Digits (maxAge o));
                  (txt "vary", txt "Access-Control-Request-Method, Access-Control-Request-Headers")])
              [] (Some (ResponseHead.MkResponse 204 [] [] false)))
        end
    end.

Definition OriginHeaders (o : CorsOptions) (wildcard : bool) (origin : list Z) : HttpHeaders :=
  [(txt "vary", txt "Origin"); (txt "access-control-allow-origin", if wildcard then Any else origin)]
  ++ (if allowCredentials o then [(txt "access-control-allow-credentials", txt "true")] else []).

Definition CorsStep (o : CorsOptions) (wildcard : bool) (request : HttpRequest) (upgrade : bool) : Result HttpPolicyResult :=
  if upgrade then FromValue NewResult
  else
    match Single (headers request) (txt "origin") with
    | FromStatus _ => Fail InvalidFormat
    | FromValue None => FromValue (MkResult [(txt "vary", txt "Origin")] [] None)
    | FromValue (Some origin) =>
        if negb (Origin origin) then Fail InvalidFormat
        else if negb wildcard && negb (contains (allowedOrigins o) origin) then FromValue (Rejected 403)
        else
          let common := OriginHeaders o wildcard origin in
          match Single (headers request) (txt "access-control-request-method") with
          | FromStatus _ => Fail InvalidFormat
          | FromValue requestMethod =>
              match bytes_eqb (method request) (txt "OPTIONS"), requestMethod with
              | true, Some m => Preflight o request common m
              | _, _ =>
                  FromValue (MkResult (common ++ (if negb (len (exposedHeaders o) =? 0)
                    then [(txt "access-control-expose-headers", Join (exposedHeaders o))] else [])) [] None)
              end
          end
    end.

Definition CorsPolicy {W : Type} (o : CorsOptions) : Result (HttpPolicyStep W) :=
  match CheckCors o with
  | FromStatus s => FromStatus s
  | FromValue (o, wildcard) => FromValue (fun request upgrade w => (Returned (CorsStep o wildcard request upgrade), w))
  end.

Definition ProxyMetadataStep (o : TrustedProxy.TrustedProxyOptions) (request : HttpRequest) : Result HttpPolicyResult :=
  match TrustedProxy.Resolve o (remoteEndpoint request) (headers request) with
  | FromStatus s => Fail (Status.Code s)
  | FromValue peer =>
      FromValue (MkResult []
        ([(txt "client_ip", Endpoint.ToString (Endpoint.address (TrustedProxy.client peer)));
          (txt "client_port", Digits (Endpoint.port (TrustedProxy.client peer)))]
         ++ (if negb (len (TrustedProxy.proto peer) =? 0) then [(txt "forwarded_proto", TrustedProxy.proto peer)] else [])
         ++ (if negb (len (TrustedProxy.host peer) =? 0) then [(txt "forwarded_host", TrustedProxy.host peer)] else [])) None)
  end.

Definition ProxyMetadataPolicy {W : Type} (o : TrustedProxy.TrustedProxyOptions) : HttpPolicyStep W :=
  fun request _ w => (Returned (ProxyMetadataStep o request), w).

End HttpPolicy.
Import HttpPolicy.

(** ** Canonical paths *)

(** [parts]: what the segments of a path decode to, one by one. *)
Definition decodes (raw : list Z) (parts : list (list Z)) : Prop :=
  Forall2 (fun piece part => RequestData.PercentDecodeComponent piece false 16384 = FromValue part) (split_on Slash (drop 1 raw)) parts.

(** A segment that cannot lead out of its directory nor hide a separator. *)
Definition safe_segment (part : list Z) : Prop :=
  part <> txt "." /\ part <> txt ".." /\ Forall (fun c => 32 <= c /\ c <> 127 /\ c <> Slash /\ c <> 92) part.

Lemma safe_no_slash (parts : list (list Z)) : Forall safe_segment parts -> Forall (fun f => Slash ∉ f) parts.
Proof.
  intros H. eapply Forall_impl; [exact H|]. intros part (_ & _ & Hp) Hin. rewrite Forall_forall in Hp. by destruct (Hp _ Hin) as (_ & _ & ? & _).
Qed.

Lemma canonical_segments_inv (segments : list (list Z)) (path out : list Z) : segments <> [] ->
  CanonicalSegments segments path = FromValue out ->
  exists parts, out = path ++ join Slash parts /\ parts <> [] /\ Forall safe_segment parts
    /\ Forall2 (fun piece part => RequestData.PercentDecodeComponent piece false 16384 = FromValue part) segments parts.
Proof.
  revert path. induction segments as [|raw segments IH]; intros path Hne H; [done|]. cbn [CanonicalSegments] in H.
  destruct (RequestData.PercentDecodeComponent raw false 16384) as [part|] eqn:Ed; [|done].
  destruct (bytes_eqb part (txt ".") || bytes_eqb part (txt "..")) eqn:Edot; [done|]. destruct (existsb BadPathChar part) eqn:Ebad; [done|].
  assert (safe_segment part) as Hsafe.
  { apply orb_false_iff in Edot as [H1 H2]. apply bytes_eqb_neq in H1, H2. split; [done|]. split; [done|]. apply Forall_forall.
    intros c Hc. assert (BadPathChar c = false) as Hb; [|unfold BadPathChar, Slash in *; lia].
    destruct (BadPathChar c) eqn:Eb; [|done]. rewrite <-Ebad. symmetry. apply existsb_exists. exists c. by rewrite <-list_elem_of_In. }
  destruct segments as [|next segments].
  - injection H as <-. exists [part]. split; [done|]. split; [done|]. split; by constructor.
  - apply IH in H as (parts & -> & Hn & Hs & H2); [|done]. exists (part :: parts). split; [|split; [done|split; [by constructor|by constructor]]].
    destruct parts; [done|]. cbn [join]. by rewrite <-!app_assoc.
Qed.

(** What [CanonicalPath] accepts is a slash and the decoded segments between slashes. *)
Lemma canonical_path_inv (raw path : list Z) : CanonicalPath raw = FromValue path ->
  exists parts, path = Slash :: join Slash parts /\ parts <> [] /\ Forall safe_segment parts /\ decodes raw parts.
Proof.
  unfold CanonicalPath. destruct raw as [|c rest]; [done|]. case_if; [done|]. intros H.
  by apply canonical_segments_inv in H as (parts & -> & H); [exists parts|apply split_on_not_nil].
Qed.

Lemma join_app (c : Z) (a b : list (list Z)) : a <> [] ->
  join c (a ++ b) = join c a ++ match b with [] => [] | _ => c :: join c b end.
Proof.
  induction a as [|f a IH]; intros H; [done|]. destruct a as [|g a].
  - destruct b; cbn; [by rewrite !app_nil_r|done].
  - change ((f :: g :: a) ++ b) with (f :: (g :: a) ++ b). change (join c (f :: (g :: a) ++ b)) with (f ++ c :: join c ((g :: a) ++ b)).
    rewrite IH by done. cbn [join]. by rewrite <-app_assoc.
Qed.

Lemma nth_middle_app (a r : list Z) : nth (length a) (a ++ r) 0 = nth 0 r 0.
Proof. by induction a. Qed.

(** A prefix other than the root matches on whole segments. *)
Lemma prefix_segments (ps parts : list (list Z)) :
  ps <> [] -> parts <> [] -> Forall (fun f => Slash ∉ f) ps -> Forall (fun f => Slash ∉ f) parts -> ps <> [[]] ->
  Prefix (Slash :: join Slash parts) (Slash :: join Slash ps) = true <-> ps `prefix_of` parts.
Proof.
  intros Hn Hm Hp Hq Hr. unfold Prefix.
  replace (bytes_eqb (Slash :: join Slash ps) (txt "/")) with false; [cbn [orb]|].
  2: { symmetry. apply bytes_eqb_neq. intros [= E]. apply Hr. rewrite <-(split_on_join Slash ps), E by done. done. }
  rewrite andb_true_iff, starts_with_iff, orb_true_iff, !Z.eqb_eq. split.
  - intros [[r E] Ht]. injection E as E. rewrite E in Ht. unfold len in Ht. cbn [length nth] in Ht. rewrite length_app in Ht.
    rewrite nth_middle_app in Ht. destruct r as [|c r].
    + rewrite app_nil_r in E. rewrite <-(split_on_join Slash ps), <-(split_on_join Slash parts), E by done. done.
    + destruct Ht as [Ht|Ht]; [cbn [length] in Ht; lia|]. cbn [nth] in Ht. subst c. exists (split_on Slash r).
      by rewrite <-(split_on_join Slash parts), E, split_on_two, split_on_join.
  - intros [rest ->]. rewrite join_app by done. split; [eexists; cbn [app]; reflexivity|]. unfold len. cbn [length nth].
    rewrite length_app, nth_middle_app. destruct rest; [left; cbn [length]; lia|right; done].
Qed.

(** The segments a rule's prefix asks for: an empty one at the end is the slash that [Create] drops, and the root
    asks for none. *)
Definition rule_scope (parts : list (list Z)) : list (list Z) :=
  let ps := if bool_decide (last parts = Some []) then removelast parts else parts in
  if bool_decide (ps = [[]]) then [] else ps.

Lemma prefix_root (path : list Z) : Prefix path [Slash] = true.
Proof. done. Qed.

Lemma strip_keep (a q : list Z) (c : Z) : c <> Slash -> StripSlash (a ++ q ++ [c]) = a ++ q ++ [c].
Proof.
  intros Hc. unfold StripSlash. rewrite app_assoc, last_snoc. change (default 0 (Some c)) with c. replace (c =? Slash) with false by lia. by rewrite andb_false_r.
Qed.

Lemma strip_slash (a : list Z) : a <> [] -> StripSlash (a ++ [Slash]) = a.
Proof.
  intros Ha. unfold StripSlash. rewrite last_snoc. change (default 0 (Some Slash)) with Slash. rewrite Z.eqb_refl, removelast_last.
  destruct a; [done|]. by replace (1 <? len _) with true by (unfold len; cbn [length app]; rewrite length_app; cbn [length]; lia).
Qed.

Lemma strip_scope (parts others : list (list Z)) : parts <> [] -> others <> [] ->
  Forall (fun f => Slash ∉ f) parts -> Forall (fun f => Slash ∉ f) others ->
  Prefix (Slash :: join Slash others) (StripSlash (Slash :: join Slash parts)) = true <-> rule_scope parts `prefix_of` others.
Proof.
  intros Hn Hm Hp Hq. destruct (exists_last Hn) as (qs & q & ->).
  unfold rule_scope. rewrite last_snoc, removelast_last. apply Forall_app in Hp as [Hqs Hlq]. rewrite Forall_singleton in Hlq.
  destruct q as [|c q' _] using rev_ind.
  - rewrite (bool_decide_eq_true_2 (Some [] = Some [])) by done. destruct (decide (qs = [])) as [->|Hqn].
    + cbn [app join]. rewrite bool_decide_eq_false_2 by done. split; [intros _; apply prefix_nil|intros _; apply prefix_root].
    + rewrite join_app by done. cbn [join].
      change (Slash :: join Slash qs ++ [Slash]) with ((Slash :: join Slash qs) ++ [Slash]). rewrite strip_slash by done.
      destruct (decide (qs = [[]])) as [->|Hr]; [rewrite bool_decide_eq_true_2 by done; split; [intros _; apply prefix_nil|intros _; apply prefix_root]|].
      rewrite bool_decide_eq_false_2 by done. by apply prefix_segments.
  - rewrite (bool_decide_eq_false_2 (Some (q' ++ [c]) = _)) by (intros [= E]; by destruct q'). rewrite bool_decide_eq_false_2.
    + replace (StripSlash _) with (Slash :: join Slash (qs ++ [q' ++ [c]])); [apply prefix_segments; [by destruct qs|done|apply Forall_app; split; [done|by apply Forall_singleton]|done|]|].
      * destruct qs as [|? [|? ?]]; intros [= E]; by destruct q'.
      * assert (c <> Slash) as Hc by (intros ->; apply Hlq; rewrite elem_of_app; right; by constructor).
        symmetry. destruct (decide (qs = [])) as [->|Hqn]; [by apply (strip_keep [Slash])|]. rewrite join_app by done.
        cbn [join]. change (Slash :: q' ++ [c]) with ([Slash] ++ q' ++ [c]). rewrite app_assoc.
        by apply (strip_keep (Slash :: join Slash qs ++ [Slash]) q').
    + destruct qs as [|? [|? ?]]; intros [= E]; by destruct q'.
Qed.

(** A rule as [Create] keeps it. *)
Definition kept_rule {W : Type} (rule kept : HttpPolicyRule W) : Prop :=
  step kept = step rule /\ is_Some (step rule)
  /\ exists path, CanonicalPath (pathPrefix rule) = FromValue path /\ pathPrefix kept = StripSlash path.

Lemma create_rules_inv {W : Type} (l : HttpPolicyLimits) (rs before out : list (HttpPolicyRule W)) (bytes : Z) :
  CreateRules l rs before bytes = FromValue out -> exists kept, out = before ++ kept /\ Forall2 kept_rule rs kept.
Proof.
  revert before bytes. induction rs as [|rule rs IH]; intros before bytes H; cbn [CreateRules] in H.
  - injection H as <-. exists []. by rewrite app_nil_r.
  - destruct (step rule) as [s|] eqn:Es; [|done]. destruct (CanonicalPath (pathPrefix rule)) as [path|] eqn:Ep; [|done].
    case_if_in H; [done|]. apply IH in H as (kept & -> & H). eexists (_ :: kept). rewrite <-app_assoc. split; [done|]. constructor; [|done].
    split; [by rewrite Es|]. split; [by rewrite Es|]. by exists path.
Qed.

Lemma create_inv {W : Type} (rs : list (HttpPolicyRule W)) (l : HttpPolicyLimits) (s : State W) :
  Create rs l = FromValue s -> limits s = l /\ LimitsOk (len rs) l = true /\ Forall2 kept_rule rs (rules s).
Proof.
  unfold Create. destruct (LimitsOk (len rs) l) eqn:El; [cbn [negb]|done].
  destruct (CreateRules l rs [] 0) as [out|] eqn:E; [|done]. intros [= <-].
  apply create_rules_inv in E as (kept & -> & H). done.
Qed.

(** Rules apply to whole decoded segments: for every pipeline [Create] accepts and every path that
    [CanonicalPath] accepts, no decoded segment is a dot segment or contains a slash, a backslash or a control byte,
    and the pipeline's rule of each position, whose step is the one that was given, applies to the path exactly
    when the decoded segments of the rule's prefix (a slash at its end apart) are the first of the path's. *)
Theorem policy_whole_segments {W : Type} (rs : list (HttpPolicyRule W)) (l : HttpPolicyLimits) (s : State W) (i : nat)
  (rule : HttpPolicyRule W) (raw path : list Z) :
  Create rs l = FromValue s -> rs !! i = Some rule -> CanonicalPath raw = FromValue path ->
  exists kept prefixParts parts, rules s !! i = Some kept /\ step kept = step rule
    /\ decodes (pathPrefix rule) prefixParts /\ decodes raw parts /\ Forall safe_segment parts
    /\ (Prefix path (pathPrefix kept) = true <-> rule_scope prefixParts `prefix_of` parts).
Proof.
  intros Hc Hi Hp. apply create_inv in Hc as (_ & _ & Hf). destruct (Forall2_lookup_l _ _ _ _ _ Hf Hi) as (kept & Hk & Hs & _ & own & Ho & Hx).
  apply canonical_path_inv in Hp as (parts & -> & Hn & Hsafe & Hd). apply canonical_path_inv in Ho as (ps & -> & Hm & Hsafe' & Hd').
  exists kept, ps, parts. repeat split; try done; rewrite Hx; apply strip_scope; try done; by apply safe_no_slash.
Qed.

Definition sample_step (r : HttpPolicyResult) : HttpPolicyStep Z := fun _ _ w => (Returned (FromValue r), w + 1).
Definition sample_rules : list (HttpPolicyRule Z) :=
  [MkRule (txt "/") (Some (sample_step (MkResult [(txt "vary", txt "Accept"); (txt "x-a", txt "1")] [] None)));
   MkRule (txt "/admin%2Dpages/") (Some (sample_step (Rejected 403)))].
Definition sample_limits : HttpPolicyLimits := MkLimits 64 16384 65536.
Definition sample_state : State Z :=
  MkState [MkRule (txt "/") (Some (sample_step (MkResult [(txt "vary", txt "Accept"); (txt "x-a", txt "1")] [] None)));
           MkRule (txt "/admin-pages") (Some (sample_step (Rejected 403)))] sample_limits.

Lemma sample_created : Create sample_rules sample_limits = FromValue sample_state.
Proof. reflexivity. Qed.

Lemma policy_whole_segments_witness :
  exists kept, rules sample_state !! 1%nat = Some kept
    /\ Prefix (txt "/admin-pages/x") (pathPrefix kept) = true /\ Prefix (txt "/admin-pagesx") (pathPrefix kept) = false.
Proof.
  destruct (policy_whole_segments sample_rules sample_limits _ 1 _ (txt "/admin%2dpages/x") (txt "/admin-pages/x") sample_created eq_refl eq_refl)
    as (kept & _ & _ & Hk & _). exists kept. split; [exact Hk|]. injection Hk as <-. split; reflexivity.
Defined.

(** ** Merging headers *)

Definition values_named (name : list Z) (fields : HttpHeaders) : list (list Z) :=
  map snd (List.filter (fun item => Same item.1 name) fields).

Definition values_exactly (name : list Z) (fields : HttpHeaders) : list (list Z) :=
  map snd (List.filter (fun item => bytes_eqb item.1 name) fields).

(** [a, b, c]: the values of a combined header. *)
Fixpoint comma_list (values : list (list Z)) : list Z :=
  match values with
  | [] => []
  | [v] => v
  | v :: values => v ++ txt ", " ++ comma_list values
  end.

Definition last_value (values : list (list Z)) : list (list Z) := match last values with Some v => [v] | None => [] end.

(** The values a header has in the end, from all that were set in order. *)
Definition combined (name : list Z) (values : list (list Z)) : list (list Z) :=
  if Same name (txt "set-cookie") then values
  else if Same name (txt "vary") then match values with [] => [] | _ => [comma_list values] end
  else last_value values.

Lemma values_named_app (name : list Z) (a b : HttpHeaders) : values_named name (a ++ b) = values_named name a ++ values_named name b.
Proof. unfold values_named. by rewrite List.filter_app, map_app. Qed.

Lemma same_right (a b c : list Z) : Same b c = true -> Same a b = Same a c.
Proof. intros H. apply Bool.eq_iff_eq_true. rewrite !same_iff in *. by rewrite H. Qed.

Lemma same_left (a b c : list Z) : Same a b = true -> Same a c = Same b c.
Proof. intros H. apply Bool.eq_iff_eq_true. rewrite !same_iff in *. by rewrite H. Qed.

Lemma filter_filter_same (name n : list Z) (t : HttpHeaders) :
  List.filter (fun item => Same item.1 name) (List.filter (fun item => negb (Same item.1 n)) t)
  = if Same n name then [] else List.filter (fun item => Same item.1 name) t.
Proof.
  induction t as [|f t IH]; [by destruct (Same n name)|]. cbn [List.filter]. destruct (Same f.1 n) eqn:E1; cbn [negb].
  - rewrite IH. destruct (Same n name) eqn:E2; [done|]. by rewrite (same_left _ _ _ E1), E2.
  - cbn [List.filter]. rewrite IH. destruct (Same n name) eqn:E2; [|done]. by rewrite <-(same_right _ _ _ E2), E1.
Qed.

Lemma set_header_values (t : HttpHeaders) (n v name : list Z) :
  values_named name (SetHeader t n v) =
  if Same n name then (if Same name (txt "set-cookie") then values_named name t else []) ++ [v] else values_named name t.
Proof.
  unfold SetHeader. rewrite values_named_app. unfold values_named at 2. cbn [List.filter fst].
  destruct (Same n name) eqn:E; cbn [map snd].
  - f_equal. rewrite (same_left _ _ _ E). destruct (Same name (txt "set-cookie")); cbn [negb]; [done|].
    unfold values_named. by rewrite filter_filter_same, E.
  - rewrite app_nil_r. destruct (Same n (txt "set-cookie")); cbn [negb]; [done|]. unfold values_named. by rewrite filter_filter_same, E.
Qed.

Lemma merged_vary_values (t : HttpHeaders) (v : list Z) :
  MergedVary t v = fold_left (fun v p => p ++ txt ", " ++ v) (values_named (txt "vary") t) v.
Proof.
  revert v. induction t as [|f t IH]; intros v; [done|]. unfold MergedVary, values_named in *. cbn [fold_left List.filter].
  destruct (Same f.1 (txt "vary")); by rewrite IH.
Qed.

Lemma comma_list_snoc (vs : list (list Z)) (v : list Z) : vs <> [] -> comma_list (vs ++ [v]) = comma_list vs ++ txt ", " ++ v.
Proof.
  induction vs as [|a vs IH]; intros H; [done|]. destruct vs as [|b vs]; [done|].
  change (comma_list ((a :: b :: vs) ++ [v])) with (a ++ txt ", " ++ comma_list ((b :: vs) ++ [v])). rewrite IH by done.
  cbn [comma_list]. by rewrite <-!app_assoc.
Qed.

(** What [Merge] makes of headers, name by name: every cookie, the list of the [Vary] values, the last of others. *)
Lemma merge_values (name : list Z) (fs : HttpHeaders) :
  values_named name (Merge [] fs true) = combined name (values_named name fs).
Proof.
  revert name. induction fs as [|[n v] fs IH] using rev_ind; intros name.
  { unfold combined. change (values_named name _) with (@nil (list Z)). by destruct (Same name (txt "set-cookie")), (Same name (txt "vary")). }
  unfold Merge in *. rewrite fold_left_app. cbn [fold_left MergeField andb]. rewrite set_header_values, values_named_app.
  unfold values_named at 4. cbn [List.filter fst]. destruct (Same n name) eqn:E; cbn [map snd]; [|by rewrite app_nil_r, IH].
  rewrite IH. unfold combined. rewrite (same_left _ _ _ E). destruct (Same name (txt "set-cookie")) eqn:Ec.
  { apply same_iff in Ec. replace (Same name (txt "vary")) with false; [done|]. symmetry. apply Bool.not_true_iff_false. rewrite same_iff, Ec. done. }
  destruct (Same name (txt "vary")) eqn:Ev; [|cbn [app]; unfold last_value; by rewrite last_snoc].
  rewrite merged_vary_values, IH. unfold combined. replace (values_named (txt "vary") fs) with (values_named name fs).
  2: { unfold values_named. f_equal. apply List.filter_ext. intros f. by apply same_right. }
  destruct (values_named name fs) as [|a vs] eqn:Ef; [done|]. cbn [fold_left app].
  change (a :: vs ++ [v]) with ((a :: vs) ++ [v]). by rewrite comma_list_snoc.
Qed.

Lemma filter_filter_exactly (name n : list Z) (t : HttpHeaders) :
  List.filter (fun item => bytes_eqb item.1 name) (List.filter (fun item => negb (bytes_eqb item.1 n)) t)
  = if bytes_eqb n name then [] else List.filter (fun item => bytes_eqb item.1 name) t.
Proof.
  induction t as [|f t IH]; [by destruct (bytes_eqb n name)|]. cbn [List.filter]. destruct (bytes_eqb f.1 n) eqn:E1; cbn [negb].
  - rewrite IH. apply bytes_eqb_eq in E1 as ->. by destruct (bytes_eqb n name).
  - cbn [List.filter]. rewrite IH. destruct (bytes_eqb n name) eqn:E2; [|done]. apply bytes_eqb_eq in E2 as <-. by rewrite E1.
Qed.

(** An attribute has the value that was set last. *)
Lemma merge_attributes (name : list Z) (fs : HttpHeaders) :
  values_exactly name (Merge [] fs false) = last_value (values_exactly name fs).
Proof.
  induction fs as [|[n v] fs IH] using rev_ind; [done|]. unfold Merge in *. rewrite fold_left_app. cbn [fold_left MergeField andb].
  unfold values_exactly in *. rewrite !List.filter_app, !map_app, filter_filter_exactly. cbn [List.filter fst].
  destruct (bytes_eqb n name); cbn [map snd app]; [unfold last_value; by rewrite last_snoc|]. by rewrite !app_nil_r, IH.
Qed.

(** ** Limits *)

Definition fields_size (fs : HttpHeaders) : Z := fold_right (fun f n => len f.1 + len f.2 + n) 0 fs.

Lemma fields_size_app (a b : HttpHeaders) : fields_size (a ++ b) = fields_size a + fields_size b.
Proof. induction a as [|f a IH]; [done|]. unfold fields_size in *. cbn [app fold_right]. lia. Qed.

Lemma fields_size_cons (f : list Z * list Z) (fs : HttpHeaders) : fields_size (f :: fs) = len f.1 + len f.2 + fields_size fs.
Proof. done. Qed.

Lemma fields_size_nonneg (fs : HttpHeaders) : 0 <= fields_size fs.
Proof. induction fs as [|f fs IH]; [done|]. rewrite fields_size_cons. pose proof (len_nonneg f.1). pose proof (len_nonneg f.2). lia. Qed.

Definition policy_headers (fs : HttpHeaders) : Prop := Forall (fun f => PolicyHeader f.1 f.2 = true) fs.

Lemma account_loop_inv (fs : HttpHeaders) (bytes max n : Z) (h : bool) : 0 <= bytes <= max -> max < 2 ^ 64 ->
  AccountLoop fs bytes max h = Some n -> n = bytes + fields_size fs /\ n <= max /\ (h = true -> policy_headers fs).
Proof.
  revert bytes. induction fs as [|[name value] fs IH]; intros bytes Hb Hm H; cbn [AccountLoop] in H.
  - injection H as <-. change (fields_size []) with 0. split; [lia|]. split; [lia|]. constructor.
  - destruct (h && negb (PolicyHeader name value)) eqn:Eh; [done|]. pose proof (len_nonneg name). pose proof (len_nonneg value).
    rewrite HttpParser.size_sub_le in H by lia. destruct (max - bytes <? len name) eqn:En; [done|].
    rewrite HttpParser.size_sub_le in H by lia. destruct (_ <? len value) eqn:Ev; [done|].
    apply IH in H as (-> & Hle & Hp); [|lia|done]. rewrite fields_size_cons. cbn [fst snd]. split; [lia|]. split; [lia|].
    intros ->. constructor; [|by apply Hp]. cbn [fst snd]. by destruct (PolicyHeader name value).
Qed.

Lemma account_inv (fs : HttpHeaders) (bytes max n : Z) (h : bool) : 0 <= bytes <= max -> max < 2 ^ 64 ->
  Account fs bytes max h = Some n -> n = bytes + fields_size fs /\ n <= max /\ (h = true -> policy_headers fs).
Proof. unfold Account. case_if; [done|]. apply account_loop_inv. Qed.

Lemma account_both_inv (headers attributes : HttpHeaders) (max n : Z) : 0 <= max < 2 ^ 64 ->
  AccountBoth headers attributes max = Some n ->
  n = fields_size headers + fields_size attributes /\ n <= max /\ policy_headers headers.
Proof.
  intros Hm. unfold AccountBoth. destruct (Account headers 0 max true) as [k|] eqn:E; [|done].
  apply account_inv in E as (-> & Hk & Hp); [|lia|lia]. intros H. pose proof (fields_size_nonneg headers).
  apply account_inv in H as (-> & Hn & _); [|lia|lia]. split; [lia|]. split; [lia|auto].
Qed.

(** *** Merging does not enlarge *)

Lemma filter_size (p : list Z * list Z -> bool) (t : HttpHeaders) : fields_size (List.filter p t) <= fields_size t.
Proof.
  induction t as [|f t IH]; [done|]. cbn [List.filter]. pose proof (len_nonneg f.1). pose proof (len_nonneg f.2).
  destruct (p f); rewrite ?fields_size_cons; lia.
Qed.

Lemma same_len (a b : list Z) : Same a b = true -> len a = len b.
Proof. rewrite same_iff. unfold Lower, len. intros H. apply (f_equal length) in H. rewrite !length_map in H. by rewrite H. Qed.

(** What a combined [Vary] takes is at most what the headers it replaces took. *)
Lemma merged_vary_size (t : HttpHeaders) (v : list Z) :
  len (MergedVary t v) <= len v + fields_size (List.filter (fun item => Same item.1 (txt "vary")) t).
Proof.
  revert v. induction t as [|f t IH]; intros v; [cbn; lia|]. unfold MergedVary in *. cbn [fold_left List.filter].
  destruct (Same f.1 (txt "vary")) eqn:E; [|apply IH]. etrans; [apply IH|]. rewrite fields_size_cons, (same_len _ _ E), !len_app.
  change (len (txt ", ")) with 2. change (len (txt "vary")) with 4. lia.
Qed.

Lemma filter_split_size (p : list Z * list Z -> bool) (t : HttpHeaders) :
  fields_size (List.filter p t) + fields_size (List.filter (fun f => negb (p f)) t) = fields_size t.
Proof. induction t as [|f t IH]; [done|]. cbn [List.filter]. destruct (p f); cbn [negb]; rewrite !fields_size_cons; lia. Qed.

Lemma set_header_size (t : HttpHeaders) (n v : list Z) : fields_size (SetHeader t n v) <= fields_size t + len n + len v.
Proof.
  unfold SetHeader. rewrite fields_size_app, fields_size_cons. change (fields_size []) with 0. cbn [fst snd].
  destruct (negb _); [pose proof (filter_size (fun item => negb (Same item.1 n)) t)|]; lia.
Qed.

Lemma merge_field_size (h : bool) (t : HttpHeaders) (f : list Z * list Z) :
  fields_size (MergeField h t f) <= fields_size t + len f.1 + len f.2.
Proof.
  destruct f as [n v]. unfold MergeField. cbn [fst snd]. destruct h; cbn [andb].
  - destruct (Same n (txt "vary")) eqn:E; [|apply set_header_size]. unfold SetHeader. rewrite (same_left _ _ _ E).
    change (Same (txt "vary") (txt "set-cookie")) with false. cbn [negb]. rewrite fields_size_app, fields_size_cons. cbn [fst snd].
    change (fields_size []) with 0. pose proof (merged_vary_size t v). pose proof (filter_split_size (fun item => Same item.1 (txt "vary")) t) as Hs.
    cbv beta in Hs.
    rewrite (List.filter_ext _ (fun f => negb (Same f.1 (txt "vary")))); [lia|]. intros f. by rewrite (same_right _ _ _ E).
  - rewrite fields_size_app, fields_size_cons. change (fields_size []) with 0. cbn [fst snd].
    pose proof (filter_size (fun item => negb (bytes_eqb item.1 n)) t). lia.
Qed.

Lemma merge_size (h : bool) (src t : HttpHeaders) : fields_size (Merge t src h) <= fields_size t + fields_size src.
Proof.
  unfold Merge. revert t. induction src as [|f src IH]; intros t; cbn [fold_left]; [change (fields_size []) with 0; lia|].
  rewrite fields_size_cons. pose proof (IH (MergeField h t f)). pose proof (merge_field_size h t f). lia.
Qed.

Lemma header_value_app (a b : list Z) : HeaderValue (a ++ b) = HeaderValue a && HeaderValue b.
Proof. apply forallb_app. Qed.

Lemma policy_header_value (n v v' : list Z) : PolicyHeader n v = true -> HeaderValue v' = true -> PolicyHeader n v' = true.
Proof. unfold PolicyHeader. rewrite !andb_true_iff. tauto. Qed.

Lemma policy_header_text (n v : list Z) : PolicyHeader n v = true -> HeaderValue v = true.
Proof. unfold PolicyHeader. rewrite !andb_true_iff. tauto. Qed.

Lemma merged_vary_header (t : HttpHeaders) (v : list Z) : policy_headers t -> HeaderValue v = true -> HeaderValue (MergedVary t v) = true.
Proof.
  intros H. revert v. induction H as [|f t Hf H IH]; intros v Hv; [done|]. unfold MergedVary in *. cbn [fold_left]. apply IH.
  destruct (Same f.1 (txt "vary")); [|done]. by rewrite !header_value_app, (policy_header_text _ _ Hf), Hv.
Qed.

Lemma merge_headers_ok (src t : HttpHeaders) : policy_headers t -> policy_headers src -> policy_headers (Merge t src true).
Proof.
  unfold Merge. intros Ht Hs. revert t Ht. induction Hs as [|[n v] src Hf Hs IH]; intros t Ht; [done|]. cbn [fold_left]. apply IH.
  cbn [MergeField andb fst snd] in *. unfold SetHeader, policy_headers. apply Forall_app. split.
  - destruct (negb _); [|done]. apply Forall_forall. intros f Hin. apply list_elem_of_In, filter_In in Hin as [Hin _].
    rewrite <-list_elem_of_In in Hin. revert f Hin. by apply Forall_forall.
  - apply Forall_singleton. cbn [fst snd]. destruct (Same n (txt "vary")); [|done].
    eapply policy_header_value; [exact Hf|]. apply merged_vary_header; [done|]. by eapply policy_header_text.
Qed.

(** ** Evaluation *)

Section Evaluation.
Context {W : Type} (request : HttpRequest) (upgrade : bool).

Definition applies (path : list Z) (rule : HttpPolicyRule W) : bool := Prefix path (pathPrefix rule).

(** The steps of these rules run one after the other and return these values. *)
Inductive runs : list (HttpPolicyRule W) -> W -> list HttpPolicyResult -> W -> Prop :=
| runs_nil (w : W) : runs [] w [] w
| runs_cons (rule : HttpPolicyRule W) (f : HttpPolicyStep W) (rs : list (HttpPolicyRule W)) (w w1 w2 : W)
    (v : HttpPolicyResult) (vs : list HttpPolicyResult) :
    step rule = Some f -> f request upgrade w = (Returned (FromValue v), w1) -> runs rs w1 vs w2 -> runs (rule :: rs) w (v :: vs) w2.

Definition silent (v : HttpPolicyResult) : Prop := response v = None.

Definition response_headers (v : HttpPolicyResult) : HttpHeaders :=
  match response v with Some r => ResponseHead.respHeaders r | None => [] end.

(** All headers, and all attributes, that values set, in order. *)
Definition given_headers (vs : list HttpPolicyResult) : HttpHeaders := flat_map (fun v => responseHeaders v ++ response_headers v) vs.
Definition given_attributes (vs : list HttpPolicyResult) : HttpHeaders := flat_map attributes vs.

(** The headers the client gets: those of the response, or those added to the handler's. *)
Definition final_headers (v : HttpPolicyResult) : HttpHeaders := responseHeaders v ++ response_headers v.

(** The answer of a value is another's, up to the headers. *)
Definition same_answer (v v' : HttpPolicyResult) : Prop :=
  match response v, response v' with
  | Some r, Some r' => ResponseHead.respStatus r = ResponseHead.respStatus r' /\ ResponseHead.respBody r = ResponseHead.respBody r'
                       /\ ResponseHead.respClose r = ResponseHead.respClose r'
  | None, None => True
  | _, _ => False
  end.

Lemma merge_app (t a b : HttpHeaders) (h : bool) : Merge t (a ++ b) h = Merge (Merge t a h) b h.
Proof. apply fold_left_app. Qed.

(** What the loop returns, by the values of the steps that ran. *)
Definition evaluated (rs : list (HttpPolicyRule W)) (path : list Z) (result : HttpPolicyResult) (w : W) (out : HttpPolicyResult) (w' : W) : Prop :=
  exists ran rest vs, List.filter (applies path) rs = ran ++ rest /\ runs ran w vs w'
    /\ final_headers out = Merge (responseHeaders result) (given_headers vs) true
    /\ attributes out = Merge (attributes result) (given_attributes vs) false
    /\ ((rest = [] /\ Forall silent vs /\ response out = None)
        \/ (exists before v, vs = before ++ [v] /\ Forall silent before /\ response v <> None /\ same_answer out v /\ responseHeaders out = [])).

Lemma apply_inv (l : HttpPolicyLimits) (value result : HttpPolicyResult) (x : HttpPolicyResult + HttpPolicyResult) :
  response result = None -> Apply l value result = FromValue x ->
  match x with
  | inl next => silent value /\ next = MkResult (Merge (responseHeaders result) (responseHeaders value) true)
                                 (Merge (attributes result) (attributes value) false) None
  | inr out => response value <> None /\ same_answer out value /\ responseHeaders out = []
               /\ final_headers out = Merge (responseHeaders result) (responseHeaders value ++ response_headers value) true
               /\ attributes out = Merge (attributes result) (attributes value) false
  end.
Proof.
  intros Hr. unfold Apply, silent. destruct (AccountBoth _ _ _); [|done]. destruct (AccountBoth _ _ _); [|done].
  destruct (response value) as [r|] eqn:Ev; [|intros [= <-]; by rewrite Hr].
  case_if; [done|]. destruct (Account _ _ _ _); [|done]. intros [= <-]. unfold same_answer, final_headers, response_headers.
  cbn [response responseHeaders attributes app ResponseHead.respHeaders]. rewrite Ev, merge_app. done.
Qed.

Lemma evaluate_rules_inv (l : HttpPolicyLimits) (rs : list (HttpPolicyRule W)) (path : list Z) (result : HttpPolicyResult) (w w' : W) (out : HttpPolicyResult) :
  response result = None -> EvaluateRules l rs path request upgrade result w = (FromValue out, w') -> evaluated rs path result w out w'.
Proof.
  revert result w. induction rs as [|rule rs IH]; intros result w Hr H; cbn [EvaluateRules] in H.
  - injection H as <- <-. exists [], [], []. unfold final_headers, response_headers. rewrite Hr.
    split; [done|]. split; [constructor|]. split; [apply app_nil_r|]. split; [done|]. by left.
  - unfold evaluated. cbn [List.filter]. unfold applies at 1. destruct (Prefix path (pathPrefix rule)); cbn [negb] in H; [|by apply IH].
    destruct (step rule) as [f|] eqn:Ef; [|done]. destruct (f request upgrade w) as [[[v|]|] w1] eqn:Ew; try done.
    destruct (Apply l v result) as [x|] eqn:Ea; [|done]. apply apply_inv in Ea; [|done]. destruct x as [next|out1].
    + destruct Ea as [Hs ->]. apply IH in H as (ran & rest & vs & Hf & Hruns & Hh & Ha & Hend); [|done].
      exists (rule :: ran), rest, (v :: vs). rewrite Hf. split; [done|]. split; [by econstructor|]. cbn [given_headers given_attributes flat_map].
      unfold response_headers at 1. rewrite Hs, app_nil_r, !merge_app. split; [done|]. split; [done|].
      destruct Hend as [(H1 & H2 & H3)|(before & u & -> & H2 & H3)]; [left; split; [done|split; [by constructor|done]]|right].
      exists (v :: before), u. split; [done|]. split; [by constructor|done].
    + injection H as <- <-. destruct Ea as (H1 & H2 & H3 & H4 & H5). exists [rule], (List.filter (applies path) rs), [v].
      split; [done|]. split; [econstructor; [done|done|constructor]|]. cbn [given_headers given_attributes flat_map]. rewrite !app_nil_r.
      split; [done|]. split; [done|]. right. exists [], v. split; [done|split; [constructor|done]].
Qed.

(** Within the limits, and without a header of the framing. *)
Definition within (l : HttpPolicyLimits) (out : HttpPolicyResult) : Prop :=
  policy_headers (final_headers out)
  /\ fields_size (final_headers out) + fields_size (attributes out) <= maxMetadataBytes l
  /\ forall r, response out = Some r -> len (ResponseHead.respBody r) <= maxResponseBodyBytes l.

Lemma apply_within (l : HttpPolicyLimits) (value result : HttpPolicyResult) (x : HttpPolicyResult + HttpPolicyResult) :
  0 <= maxMetadataBytes l < 2 ^ 64 -> response result = None -> Apply l value result = FromValue x -> within l (match x with inl y | inr y => y end).
Proof.
  intros Hl Hr. unfold Apply. destruct (AccountBoth _ _ _); [|done]. destruct (AccountBoth _ _ _) as [n|] eqn:E; [|done].
  apply account_both_inv in E as (-> & Hn & Hp); [|done].
  destruct (response value) as [r|] eqn:Ev.
  - case_if; [done|]. destruct (Account _ _ _ _) as [k|] eqn:Ek; [|done]. intros [= <-].
    pose proof (fields_size_nonneg (Merge (responseHeaders result) (responseHeaders value) true)).
    pose proof (fields_size_nonneg (Merge (attributes result) (attributes value) false)).
    apply account_inv in Ek as (-> & Hk & Hp'); [|lia|lia]. unfold within, final_headers, response_headers. cbn [response responseHeaders attributes app ResponseHead.respHeaders].
    split; [by apply merge_headers_ok; auto|]. split; [|intros r' [= <-]; cbn; lia].
    pose proof (merge_size true (ResponseHead.respHeaders r) (Merge (responseHeaders result) (responseHeaders value) true)). lia.
  - intros [= <-]. unfold within, final_headers, response_headers. cbn [response responseHeaders attributes]. rewrite Hr, app_nil_r.
    split; [done|]. split; [lia|]. by intros r.
Qed.

Lemma evaluate_rules_within (l : HttpPolicyLimits) (rs : list (HttpPolicyRule W)) (path : list Z) (result : HttpPolicyResult) (w w' : W) (out : HttpPolicyResult) :
  0 <= maxMetadataBytes l < 2 ^ 64 -> response result = None -> within l result ->
  EvaluateRules l rs path request upgrade result w = (FromValue out, w') -> within l out.
Proof.
  intros Hl. revert result w. induction rs as [|rule rs IH]; intros result w Hr Hw H; cbn [EvaluateRules] in H; [by injection H as <- <-|].
  destruct (Prefix path (pathPrefix rule)); cbn [negb] in H; [|by eapply IH]. destruct (step rule) as [f|]; [|done].
  destruct (f request upgrade w) as [[[v|]|] w1]; try done. destruct (Apply l v result) as [x|] eqn:Ea; [|done].
  pose proof (apply_within l v result x Hl Hr Ea) as Hx. apply apply_inv in Ea; [|done]. destruct x as [next|out1].
  - destruct Ea as [_ ->]. by eapply IH in H.
  - by injection H as <- <-.
Qed.

End Evaluation.

Lemma evaluate_inv {W : Type} (s : State W) (request : HttpRequest) (upgrade : bool) (w w' : W) (out : HttpPolicyResult) :
  Evaluate s request upgrade w = (FromValue out, w') ->
  exists path, CanonicalPath (HttpParser.Path (parsed request)) = FromValue path
    /\ EvaluateRules (limits s) (rules s) path request upgrade NewResult w = (FromValue out, w').
Proof. unfold Evaluate. destruct (CanonicalPath _) as [path|]; [|done]. intros H. by exists path. Qed.

Lemma limits_ok_range (n : Z) (l : HttpPolicyLimits) : LimitsOk n l = true -> maxMetadataBytes l < 2 ^ 64.
Proof. unfold LimitsOk. lia. Qed.

(** What an evaluation returns: the applicable rules ran in their order, up to the one that answered or else all
    of them, each header of the result has the value set last (every [Set-Cookie], the list of all [Vary] values in
    order), each attribute the value set last; the headers are those a policy may set, none of the message's framing;
    headers and attributes, also those merged into a response, keep to [maxMetadataBytes] together and the body to
    [maxResponseBodyBytes]. *)
Theorem policy_result_merged {W : Type} (rs : list (HttpPolicyRule W)) (l : HttpPolicyLimits) (s : State W) (request : HttpRequest)
  (upgrade : bool) (w w' : W) (out : HttpPolicyResult) :
  Create rs l = FromValue s -> 0 <= maxMetadataBytes l -> 0 <= maxResponseBodyBytes l -> Evaluate s request upgrade w = (FromValue out, w') ->
  exists path ran rest vs, CanonicalPath (HttpParser.Path (parsed request)) = FromValue path
    /\ List.filter (applies path) (rules s) = ran ++ rest /\ runs request upgrade ran w vs w' /\ (response out = None -> rest = [])
    /\ (forall name, values_named name (final_headers out) = combined name (values_named name (given_headers vs)))
    /\ (forall name, values_exactly name (attributes out) = last_value (values_exactly name (given_attributes vs)))
    /\ policy_headers (final_headers out)
    /\ fields_size (final_headers out) + fields_size (attributes out) <= maxMetadataBytes l
    /\ forall r, response out = Some r -> len (ResponseHead.respBody r) <= maxResponseBodyBytes l.
Proof.
  intros Hc Hm Hb He. apply create_inv in Hc as (Hs & Hl & _). apply limits_ok_range in Hl. apply evaluate_inv in He as (path & Hp & He).
  rewrite Hs in He. assert (within l out) as (H1 & H2 & H3).
  { eapply evaluate_rules_within; [| | |exact He]; [lia|done|]. split; [constructor|]. split; [cbn; lia|done]. }
  apply evaluate_rules_inv in He as (ran & rest & vs & Hf & Hr & Hh & Ha & Hend); [|done]. exists path, ran, rest, vs.
  split; [done|]. split; [done|]. split; [done|]. split; [|split; [|split; [|split; [done|split; [done|done]]]]].
  - intros Hn. destruct Hend as [[-> _]|(before & v & -> & _ & Hv & Hsame & _)]; [done|]. unfold same_answer in Hsame. rewrite Hn in Hsame. by destruct (response v).
  - intros name. rewrite Hh. apply merge_values.
  - intros name. rewrite Ha. apply merge_attributes.
Qed.

Definition sample_request (path : string) : HttpRequest :=
  MkRequest (HttpParser.MkRequest (txt "GET") (txt path) [] []) (Endpoint.MkEndpoint Endpoint.NoAddress 0).

Lemma policy_result_merged_witness :
  let out := MkResult [] [] (Some (ResponseHead.MkResponse 403 [(txt "x-a", txt "1"); (txt "vary", txt "Accept, Origin")] [] false)) in
  Evaluate sample_state (sample_request "/admin-pages/x") false 0 = (FromValue out, 2)
  /\ exists vs, values_named (txt "Vary") (final_headers out) = combined (txt "Vary") (values_named (txt "Vary") (given_headers vs)).
Proof.
  intros out. assert (Evaluate sample_state (sample_request "/admin-pages/x") false 0 = (FromValue out, 2)) as He by reflexivity.
  split; [exact He|].
  destruct (policy_result_merged _ _ _ _ _ _ _ _ sample_created ltac:(cbn; lia) ltac:(cbn; lia) He) as (path & ran & rest & vs & _ & _ & _ & _ & Hv & _).
  exists vs. apply Hv.
Defined.

(** C12. The request policy fails closed: whatever the steps do, throw or answer, a request is allowed only when its path
    is canonical and every rule that applies to it ran, in order, and returned without an error and without a
    response, and then with those results merged; in every case the decision gets one call, followed by an abort
    exactly when it is not accepted, or an abort alone. *)
Theorem policy_fails_closed {W : Type} (s : State W) (accepts : DecisionCall -> bool) (request : HttpRequest) (upgrade : bool)
  (w w' : W) (calls : list DecisionCall) :
  AsRequestPolicy s accepts request upgrade w = (calls, w') ->
  (forall hs attrs, In (Allow hs attrs) calls -> exists path vs,
     CanonicalPath (HttpParser.Path (parsed request)) = FromValue path
     /\ runs request upgrade (List.filter (applies path) (rules s)) w vs w' /\ Forall silent vs
     /\ hs = Merge [] (given_headers vs) true /\ attrs = Merge [] (given_attributes vs) false)
  /\ (calls = [AbortCall] \/ exists c, c <> AbortCall /\ calls = if accepts c then [c] else [c; AbortCall]).
Proof.
  unfold AsRequestPolicy. destruct (Evaluate s request upgrade w) as [[out|e] w1] eqn:Ee.
  - intros H. assert (w1 = w') as -> by (by injection H). injection H as <-. split.
    + intros hs attrs Hin. destruct (response out) as [r|] eqn:Er; [case_if_in Hin; cbn in Hin; naive_solver|].
      assert (hs = responseHeaders out /\ attrs = attributes out) as [-> ->] by (case_if_in Hin; cbn in Hin; naive_solver).
      apply evaluate_inv in Ee as (path & Hp & He). apply evaluate_rules_inv in He as (ran & rest & vs & Hf & Hr & Hh & Ha & Hend); [|done].
      unfold final_headers, response_headers in Hh. rewrite Er, app_nil_r in Hh.
      destruct Hend as [(-> & Hs & _)|(before & v & -> & _ & Hv & Hsame & _)]; [|unfold same_answer in Hsame; rewrite Er in Hsame; by destruct (response v)].
      exists path, vs. rewrite Hf, app_nil_r. done.
    + right. destruct (response out); (eexists; split; [|reflexivity]; done).
  - destruct (ErrorResponse (Status.Code e) [] 0) as [r|]; intros [= <- <-]; (split; [|first [by left|right; eexists; split; [|reflexivity]; done]]).
    + intros hs attrs Hin. case_if_in Hin; cbn in Hin; naive_solver.
    + intros hs attrs Hin. cbn in Hin. naive_solver.
Qed.

Lemma policy_fails_closed_witness :
  let calls := [Allow [(txt "vary", txt "Accept"); (txt "x-a", txt "1")] []] in
  AsRequestPolicy sample_state (fun _ => true) (sample_request "/open") false 0 = (calls, 1)
  /\ exists path vs, runs (sample_request "/open") false (List.filter (applies path) (rules sample_state)) 0 vs 1.
Proof.
  intros calls. assert (AsRequestPolicy sample_state (fun _ => true) (sample_request "/open") false 0 = (calls, 1)) as Ha by reflexivity.
  split; [exact Ha|]. destruct (proj1 (policy_fails_closed _ _ _ _ _ _ _ Ha) _ _ (or_introl eq_refl)) as (path & vs & _ & Hr & _).
  exists path, vs. exact Hr.
Defined.

(** ** Cross-origin requests *)

Definition AllowOrigin : list Z := txt "access-control-allow-origin".
Definition AllowCredentials : list Z := txt "access-control-allow-credentials".

Lemma contains_in (values : list (list Z)) (v : list Z) : contains values v = true <-> In v values.
Proof.
  unfold contains. rewrite existsb_exists. split; [intros (x & Hx & E)|intros H; exists v; split; [done|apply bytes_eqb_refl]].
  by apply bytes_eqb_eq in E as ->.
Qed.

Lemma check_cors_inv (o o' : CorsOptions) (wildcard : bool) : CheckCors o = FromValue (o', wildcard) ->
  o' = MkCors (allowedOrigins o) (allowedMethods o) (map Lower (allowedHeaders o)) (exposedHeaders o) (allowCredentials o) (maxAge o)
  /\ (if wildcard then allowedOrigins o = [Any] /\ allowCredentials o = false else ~ In Any (allowedOrigins o)).
Proof.
  unfold CheckCors. destruct (negb _); [done|]. destruct (negb _); [done|].
  destruct (existsb (bytes_eqb Any) (allowedOrigins o)) eqn:Ew; cbn [andb].
  - destruct (allowCredentials o) eqn:Ec; [done|]. cbn [orb]. destruct (len (allowedOrigins o) =? 1) eqn:El; [cbn [negb]|done].
    destruct (negb _); [done|]. destruct (_ <? _); [done|]. intros [= <- <-]. split; [done|]. split; [|done].
    destruct (allowedOrigins o) as [|a [|b rest]]; cbn [existsb] in Ew; [done| |unfold len in El; cbn [length] in El; lia].
    rewrite orb_false_r in Ew. by apply bytes_eqb_eq in Ew as <-.
  - destruct (negb _); [done|]. destruct (_ <? _); [done|]. intros [= <- <-]. split; [done|].
    intros Hin. rewrite <-contains_in in Hin. unfold contains in Hin. congruence.
Qed.

Lemma requested_headers_inv (o : CorsOptions) (names allowed out : list (list Z)) :
  RequestedHeaders o names allowed = FromValue (Some out) -> Forall (fun raw => In (Lower (Trim raw)) (allowedHeaders o)) names.
Proof.
  revert allowed. induction names as [|raw names IH]; intros allowed H; [constructor|]. cbn [RequestedHeaders] in H.
  destruct (_ || _); [done|]. destruct (contains (allowedHeaders o) (Lower (Trim raw))) eqn:E; [cbn [negb] in H|done].
  constructor; [by apply contains_in|by eapply IH].
Qed.

(** The names of an [Access-Control-Request-Headers] value, if there is one. *)
Definition requested_names (request : HttpRequest) : list (list Z) :=
  match Single (headers request) (txt "access-control-request-headers") with
  | FromValue (Some text) => split_on (char_code ",") text
  | _ => []
  end.

(** What a preflight was allowed for. *)
Definition preflight_ok (o : CorsOptions) (request : HttpRequest) : Prop :=
  method request = txt "OPTIONS"
  /\ (exists m, Single (headers request) (txt "access-control-request-method") = FromValue (Some m) /\ In m (allowedMethods o))
  /\ Forall (fun raw => exists name, In name (allowedHeaders o) /\ Same (Trim raw) name = true) (requested_names request).

(** How a step answers a request that is no upgrade, by its origin. *)
Inductive cors_answer (o : CorsOptions) (wildcard : bool) (request : HttpRequest) (out : HttpPolicyResult) : option (list Z) -> Prop :=
| AnswerPlain : out = MkResult [(txt "vary", txt "Origin")] [] None -> cors_answer o wildcard request out None
| AnswerRejected (origin : list Z) : out = Rejected 403 -> cors_answer o wildcard request out (Some origin)
| AnswerAllowed (origin : list Z) (more : HttpHeaders) (r : option ResponseHead.HttpResponse) :
    Origin origin = true -> (wildcard = true \/ In origin (allowedOrigins o)) ->
    out = MkResult (OriginHeaders o wildcard origin ++ more) [] r ->
    values_named AllowOrigin more = [] -> values_named AllowCredentials more = [] ->
    (r = None \/ (r = Some (ResponseHead.MkResponse 204 [] [] false) /\ method request = txt "OPTIONS"
       /\ (exists m, Single (headers request) (txt "access-control-request-method") = FromValue (Some m) /\ In m (allowedMethods o))
       /\ Forall (fun raw => In (Lower (Trim raw)) (allowedHeaders o)) (requested_names request))) ->
    cors_answer o wildcard request out (Some origin).

Lemma preflight_inv (o : CorsOptions) (wildcard : bool) (request : HttpRequest) (origin m : list Z) (out : HttpPolicyResult) :
  Origin origin = true -> (wildcard = true \/ In origin (allowedOrigins o)) -> method request = txt "OPTIONS" ->
  Single (headers request) (txt "access-control-request-method") = FromValue (Some m) ->
  Preflight o request (OriginHeaders o wildcard origin) m = FromValue out -> cors_answer o wildcard request out (Some origin).
Proof.
  intros Ho Hl Hm Hs. unfold Preflight. destruct (negb (Token m)); [done|].
  destruct (contains (allowedMethods o) m) eqn:Ec; cbn [negb]; [|intros [= <-]; by constructor].
  destruct (Single (headers request) (txt "access-control-request-headers")) as [requested|] eqn:Er; [|done].
  destruct (AllowedNames o requested) as [[allowed|]|] eqn:Ea; [|intros [= <-]; by constructor|done]. intros [= <-].
  eapply AnswerAllowed; [done|done|reflexivity| | |].
  1-2: by destruct (negb (len allowed =? 0)).
  right. split; [done|]. split; [done|]. split; [exists m; split; [done|by apply contains_in]|]. unfold requested_names. rewrite Er.
  destruct requested as [text|]; [|constructor]. unfold AllowedNames in Ea. destruct (8192 <? len text); [done|]. by eapply requested_headers_inv.
Qed.

Lemma cors_step_inv (o : CorsOptions) (wildcard : bool) (request : HttpRequest) (out : HttpPolicyResult) :
  CorsStep o wildcard request false = FromValue out ->
  exists origin, Single (headers request) (txt "origin") = FromValue origin /\ cors_answer o wildcard request out origin.
Proof.
  unfold CorsStep. destruct (Single (headers request) (txt "origin")) as [[origin|]|] eqn:Es; [| |done].
  - destruct (Origin origin) eqn:Eo; [cbn [negb]|done]. intros H. exists (Some origin). split; [done|].
    destruct (negb wildcard && negb (contains (allowedOrigins o) origin)) eqn:Ew; [injection H as <-; by constructor|].
    assert (wildcard = true \/ In origin (allowedOrigins o)) as Hl.
    { rewrite <-contains_in. destruct wildcard; [by left|]. right. by destruct (contains _ _). }
    destruct (Single (headers request) (txt "access-control-request-method")) as [m|] eqn:Em; [|done].
    destruct (bytes_eqb (method request) (txt "OPTIONS")) eqn:Eopt; [destruct m as [m|]|].
    + apply bytes_eqb_eq in Eopt. by eapply preflight_inv.
    + injection H as <-. eapply AnswerAllowed; [done|done|reflexivity| | |by left]; by destruct (negb (len (exposedHeaders o) =? 0)).
    + injection H as <-. eapply AnswerAllowed; [done|done|reflexivity| | |by left]; by destruct (negb (len (exposedHeaders o) =? 0)).
  - intros [= <-]. exists None. split; [done|]. by constructor.
Qed.

Lemma origin_not_any (origin : list Z) : Origin origin = true -> origin <> Any.
Proof. by intros H ->. Qed.

Lemma origin_header_values (o : CorsOptions) (wildcard : bool) (origin : list Z) (more : HttpHeaders) :
  values_named AllowOrigin more = [] -> values_named AllowCredentials more = [] ->
  values_named AllowOrigin (OriginHeaders o wildcard origin ++ more) = [if wildcard then Any else origin]
  /\ values_named AllowCredentials (OriginHeaders o wildcard origin ++ more) = (if allowCredentials o then [txt "true"] else []).
Proof. intros H1 H2. rewrite !values_named_app, H1, H2. unfold OriginHeaders. by destruct (allowCredentials o), wildcard. Qed.

Lemma rejected_values (name : list Z) : Same (txt "vary") name = false -> values_named name (responseHeaders (Rejected 403)) = [].
Proof. intros H. unfold values_named. cbn [Rejected responseHeaders List.filter fst]. by rewrite H. Qed.

(** C11. CORS never widens, for every configuration [CorsPolicy] accepts.  For an upgrade to WebSocket the step decides nothing: its result is empty, with no header and no answer, since CORS is a
    policy of HTTP.  For every other request a result varies by origin, and a request from an origin that is not allowed is answered with 403.  In either case a result that allows an origin
    allows the one origin of the request, which is in the list, or any origin when the list is the asterisk, and credentials only when they are configured and never with the asterisk; and a
    request that is answered gets that 403, or 204 when it is a preflight whose method and each header it names, whatever its case, is allowed. *)
Theorem cors_never_widens {W : Type} (o : CorsOptions) (f : HttpPolicyStep W) (request : HttpRequest) (upgrade : bool) (w w' : W) (out : HttpPolicyResult) :
  CorsPolicy o = FromValue f -> f request upgrade w = (Returned (FromValue out), w') ->
  w' = w /\ (if upgrade then out = NewResult else In (txt "vary", txt "Origin") (responseHeaders out))
  /\ (forall v, In v (values_named AllowOrigin (responseHeaders out)) ->
        exists origin, Single (headers request) (txt "origin") = FromValue (Some origin) /\ Origin origin = true
        /\ ((allowedOrigins o = [Any] /\ v = Any /\ values_named AllowCredentials (responseHeaders out) = [])
            \/ (In origin (allowedOrigins o) /\ v = origin /\ v <> Any)))
  /\ (values_named AllowCredentials (responseHeaders out) <> [] -> allowCredentials o = true)
  /\ (upgrade = false -> forall origin, Single (headers request) (txt "origin") = FromValue (Some origin) -> allowedOrigins o <> [Any] ->
        ~ In origin (allowedOrigins o) -> out = Rejected 403)
  /\ (forall r, response out = Some r ->
        (out = Rejected 403 /\ r = ResponseHead.MkResponse 403 [] [] false) \/ (ResponseHead.respStatus r = 204 /\ preflight_ok o request)).
Proof.
  unfold CorsPolicy. destruct (CheckCors o) as [[o' wildcard]|] eqn:Ec; [|done]. intros [= <-]. cbv beta. intros [= H <-]. split; [done|].
  destruct upgrade; [injection H as <-; by split_and!|].
  apply check_cors_inv in Ec as [-> Hw]. apply cors_step_inv in H as (origin & Hs & Ha). destruct Ha as [->|origin ->|origin more r Ho Hl -> H1 H2 Hr].
  - split; [by left|]. split; [done|]. split; [done|]. split; [intros _ ? E; congruence|done].
  - split; [by left|]. split; [done|]. split; [done|]. split; [done|]. intros r [= <-]. by left.
  - cbn [allowedOrigins] in Hl. destruct (origin_header_values (MkCors (allowedOrigins o) (allowedMethods o) (map Lower (allowedHeaders o))
      (exposedHeaders o) (allowCredentials o) (maxAge o)) wildcard origin more H1 H2) as [H3 H4].
    cbn [responseHeaders response]. rewrite H3, H4. cbn [allowCredentials]. split; [by left|]. split.
    { intros v [<-|[]]. exists origin. split; [done|]. split; [done|]. destruct wildcard; [left; by destruct Hw as [-> ->]|right].
      destruct Hl as [|Hl]; [done|]. split; [done|]. split; [done|]. by apply origin_not_any. }
    split; [by destruct (allowCredentials o)|]. split.
    { intros _ origin' Hs' Hn Hx. rewrite Hs in Hs'. injection Hs' as <-. destruct wildcard; [by destruct Hw|]. by destruct Hl. }
    intros r0 ->. destruct Hr as [|([= ->] & Hm & Hme & Hf)]; [done|]. right. split; [done|]. split; [done|]. split; [done|].
    eapply Forall_impl; [exact Hf|]. intros raw Hin. cbn [allowedHeaders] in Hin. apply in_map_iff in Hin as (name & E & Hin).
    exists name. split; [done|]. by apply same_iff.
Qed.

Definition sample_cors : CorsOptions :=
  MkCors [txt "https://app.example"] [txt "GET"; txt "PUT"] [txt "X-Token"] [] true 600.
Definition sample_preflight : HttpRequest :=
  MkRequest (HttpParser.MkRequest (txt "OPTIONS") (txt "/")
    [(txt "origin", txt "https://app.example"); (txt "access-control-request-method", txt "PUT");
     (txt "access-control-request-headers", txt " x-token ")] []) (Endpoint.MkEndpoint Endpoint.NoAddress 0).

Lemma cors_never_widens_witness :
  exists (f : HttpPolicyStep unit) out, CorsPolicy sample_cors = FromValue f /\ f sample_preflight false tt = (Returned (FromValue out), tt)
    /\ response out = Some (ResponseHead.MkResponse 204 [] [] false) /\ preflight_ok sample_cors sample_preflight.
Proof.
  eexists _, _. split; [reflexivity|]. split; [reflexivity|]. split; [reflexivity|].
  destruct (proj2 (proj2 (proj2 (proj2 (proj2 (cors_never_widens sample_cors _ sample_preflight false tt tt _ eq_refl eq_refl))))) _ eq_refl)
    as [[E _]|[_ H]]; [discriminate E|exact H].
Defined.

(** ** Request identifiers *)

(** Calls of the step, from one counter, by whichever policies and threads; the identifiers they set. *)
Fixpoint id_calls (calls : list (RequestIdOptions * HttpRequest)) (counter : Z) : list (list Z * bool) :=
  match calls with
  | [] => []
  | (o, request) :: calls =>
      match RequestIdStep o request counter with
      | (FromValue r, next) => map (fun a => (a.2, counter <? next)) (attributes r) ++ id_calls calls next
      | (FromStatus _, next) => id_calls calls next
      end
  end.

Definition generated (ids : list (list Z * bool)) : list (list Z) := map fst (List.filter snd ids).

Lemma request_id_step_inv (o : RequestIdOptions) (request : HttpRequest) (counter next : Z) (r : HttpPolicyResult) :
  RequestIdStep o request counter = (FromValue r, next) ->
  (next = counter + 1 /\ counter <> UINT64_MAX /\ attributes r = [(txt "request_id", txt "sc-" ++ Digits counter)])
  \/ (next = counter /\ exists id, attributes r = [(txt "request_id", id)] /\ Token id = true /\ len id <= maxBytes o).
Proof.
  unfold RequestIdStep, IncomingId. destruct (acceptIncoming o).
  - destruct (Single _ _) as [[id|]|]; [| |done].
    + destruct (maxBytes o <? len id) eqn:El; [done|]. destruct (Token id) eqn:Et; [|done]. cbn [orb negb].
      destruct (len id =? 0) eqn:E0; [unfold Token in Et; by rewrite E0 in Et|]. intros [= <- <-]. right. split; [done|]. exists id. split; [done|]. split; [done|lia].
    + cbn [len]. change (len [] =? 0) with true. cbn iota. destruct (counter =? UINT64_MAX) eqn:E; [done|]. intros [= <- <-]. left. split; [done|]. split; [lia|done].
  - change (len [] =? 0) with true. cbn iota. destruct (counter =? UINT64_MAX) eqn:E; [done|]. intros [= <- <-]. left. split; [done|]. split; [lia|done].
Qed.

Lemma request_id_step_error (o : RequestIdOptions) (request : HttpRequest) (counter next : Z) (s : Status) :
  RequestIdStep o request counter = (FromStatus s, next) -> next = counter.
Proof. unfold RequestIdStep. destruct (IncomingId o request) as [id|]; [|by intros [= _ <-]]. destruct (_ =? 0); [|done]. destruct (_ =? _); [by intros [= _ <-]|done]. Qed.

Lemma generated_ids (calls : list (RequestIdOptions * HttpRequest)) (counter : Z) (id : list Z) :
  In id (generated (id_calls calls counter)) -> exists n, counter <= n /\ id = txt "sc-" ++ Digits n.
Proof.
  revert counter. induction calls as [|[o request] calls IH]; intros counter H; [done|]. cbn [id_calls] in H.
  destruct (RequestIdStep o request counter) as [[r|s] next] eqn:E; [|apply request_id_step_error in E as ->; by apply IH].
  apply request_id_step_inv in E as [(-> & _ & Ha)|(-> & i & Ha & _)]; rewrite Ha in H; cbn [map snd app] in H.
  - replace (counter <? counter + 1) with true in H by lia. unfold generated in H. cbn [List.filter snd map fst] in H. destruct H as [<-|H]; [by exists counter|].
    apply IH in H as (n & Hn & ->). exists n. split; [lia|done].
  - replace (counter <? counter) with false in H by lia. by apply IH in H.
Qed.

(** Identifiers the process makes are never given to two requests, whatever requests and policies there are. *)
Theorem request_ids_distinct (calls : list (RequestIdOptions * HttpRequest)) (counter : Z) :
  0 <= counter -> NoDup (generated (id_calls calls counter)).
Proof.
  revert counter. induction calls as [|[o request] calls IH]; intros counter Hc; [constructor|]. cbn [id_calls].
  destruct (RequestIdStep o request counter) as [[r|s] next] eqn:E; [|apply request_id_step_error in E as ->; by apply IH].
  apply request_id_step_inv in E as [(-> & _ & Ha)|(-> & i & Ha & _)]; rewrite Ha; cbn [map snd app].
  - replace (counter <? counter + 1) with true by lia. unfold generated. cbn [List.filter snd map fst]. constructor; [|by apply IH; lia].
    rewrite list_elem_of_In. intros Hin. apply generated_ids in Hin as (n & Hn & E). apply app_inv_head in E.
    apply (f_equal digits_value) in E. rewrite !digits_value_digits in E by lia. lia.
  - replace (counter <? counter) with false by lia. by apply IH.
Qed.

(** ** Error responses *)

(** Every error has a response: a problem document of a client or server error, which no framing header spoils. *)
Theorem error_response_total (error : ErrorCode) :
  error <> ErrorCode_Ok -> exists r, ErrorResponse error [] 0 = FromValue r /\ ResponseHead.respStatus r = ErrorStatus error
    /\ ResponseHead.respHeaders r = [(txt "content-type", txt "application/problem+json")]
    /\ Parse (ResponseHead.respBody r) SIZE_MAX = Some (FromValue (JObject (ErrorBody error [] (ErrorStatus error)))).
Proof. intros H. destruct error; [done|..]; (eexists; split; [vm_compute; reflexivity|]; split; [reflexivity|]; split; [reflexivity|vm_compute; reflexivity]). Qed.

(** JSON bodies round trip: what [JsonResponse] writes is read by [ParseJsonBody] from a request with that body. *)
Theorem json_body_round_trip (value : JsonValue) (status max : Z) (r : ResponseHead.HttpResponse) (peer : Endpoint.IpEndpoint) (m target : list Z) :
  json_wf value = true -> count value <= SIZE_MAX -> JsonResponse value status max = FromValue r ->
  ParseJsonBody (MkRequest (HttpParser.MkRequest m target (ResponseHead.respHeaders r) (ResponseHead.respBody r)) peer) max
  = Some (FromValue (normal value)).
Proof.
  intros Hw Hc. unfold JsonResponse. destruct ((status <? 200) || _) eqn:Es; [done|]. cbn [orb]. destruct (max =? 0) eqn:Em; [done|].
  destruct (Dump value) as [text|] eqn:Ed; [|done]. destruct (max <? len text) eqn:El; [done|]. intros [= <-]. unfold ParseJsonBody.
  cbn [body headers parsed HttpParser.body HttpParser.headers ResponseHead.respBody ResponseHead.respHeaders]. rewrite Em, El. cbn [orb].
  change (Single _ _) with (FromValue (Some (txt "application/json"))). cbn iota. change (IsJsonType (txt "application/json")) with true. cbn iota.
  unfold Parse, ParseText, DefaultMaxValues. destruct (dump_utf8 value Hw 0 text Ed) as [_ ->]. cbn [negb].
  rewrite (parse_document_reads value) by (first [done|unfold SIZE_MAX, UINT64_MAX; lia|eauto using dump_reads]). unfold Json.within. by replace (count value <=? SIZE_MAX) with true by lia.
Qed.
