(* ===== verification/OutboundQueue.v ===== *)
(** * Runtime: the outbound queue.

    [Runtime/OutboundQueue.h|cpp]: messages staged before a transport takes them, with limits on their
    number and bytes, replacement by key, expiry, one pump, one capacity wait and one wake-up timer.  Every
    section under the queue's mutex is a function of the [State]; between them threads interleave.  A thread
    is the stack of the calls and sections it has before it ([Frame]), so that what the code does in sequence
    stays in sequence.  The sink's results, the clock and the timer scheduler are the environment: a timer that
    is scheduled waits, may be dispatched and bounce off a saturated executor, runs once and finishes, as
    [TimerScheduler] promises while it is usable, which the queue requires.  Moving a subscription out under the
    mutex and resetting it after is one step: what fires in between could as well have fired before.  Failures of
    allocation are left out; a sink that throws is not. *)

From S2P Require Import Prelude CoreError HttpParser.
From stdpp Require Import gmap sorting.
#[local] Open Scope Z_scope.

Module OutboundQueue.

(** ** Payloads *)

Inductive Kind : Type := Raw | Prepared | Binary.

#[global] Instance Kind_eq_dec : EqDecision Kind.
Proof. solve_decision. Defined.

Record OutboundPayload : Type := MkPayload { mKind : Kind; mBinaryType : Z; mBytes : list Z; mPrepared : option (list Z) }.

Definition Bytes (p : OutboundPayload) : list Z := match mPrepared p with Some bytes => bytes | None => mBytes p end.

Definition WireBytes (p : OutboundPayload) : Z :=
  len (Bytes p) + match mKind p with Raw => 0 | Prepared => 4 | Binary => 8 end.

Definition Fail (code : ErrorCode) : Status := Status.FailWithoutMessage code.
Definition Error {T : Type} (code : ErrorCode) : Result T := FromStatus (Fail code).

Definition CopyBytes (bytes : list Z) (max : Z) : Result OutboundPayload :=
  if (max =? 0) || (len bytes =? 0) then Error InvalidArgument
  else if max <? len bytes then Error TooLarge
  else FromValue (MkPayload Raw 0 bytes None).

Definition CopyBinary (type : Z) (bytes : list Z) (max : Z) : Result OutboundPayload :=
  if (type =? 0) || (max =? 0) then Error InvalidArgument
  else if (max <? 8) || (max - 8 <? len bytes) then Error TooLarge
  else FromValue (MkPayload Binary type bytes None).

Definition CopyPrepared (message : list Z) (max : Z) : Result OutboundPayload :=
  if (max =? 0) || (len message =? 0) then Error InvalidArgument
  else if (max <? 4) || (max - 4 <? len message) then Error TooLarge
  else FromValue (MkPayload Prepared 0 [] (Some message)).

(** ** The state *)

Record OutboundQueueOptions : Type := MkOptions { maxMessages : Z; maxRetainedBytes : Z; maxPumpMessages : Z }.
Record OutboundEnqueueOptions : Type := MkEnqueue { latestKey : option Z; expires : option Z }.

Inductive Target : Type := Any | RawTarget | SessionTarget.

Record Config : Type := MkConfig { options : OutboundQueueOptions; target : Target }.

Definition OptionsOk (o : OutboundQueueOptions) : bool :=
  negb ((maxMessages o =? 0) || (65536 <? maxMessages o) || (maxRetainedBytes o =? 0)
        || (maxPumpMessages o =? 0) || (1024 <? maxPumpMessages o)).

(** [entryId] is the entry's identity; [slot] numbers its place in the queue, which a replacement inherits. *)
Record Entry : Type := MkEntry { entryId : Z; slot : Z; payload : OutboundPayload; entryOptions : OutboundEnqueueOptions }.

Definition same_entry (a b : Entry) : bool := entryId a =? entryId b.

Record OutboundMetrics : Type := MkMetrics {
  pending : Z; retainedBytes : Z;
  enqueued : Z; sent : Z; replaced : Z; expired : Z; discarded : Z; deferredWakes : Z
}.

(** The flags of the state. *)
Record Flags : Type := MkFlags {
  pumping : bool; changed : bool; draining : bool; closed : bool; terminal : bool; halting : bool
}.

Record State : Type := MkState {
  queue : list Entry;
  active : option Entry;
  metrics : OutboundMetrics;
  flags : Flags;
  result : ErrorCode;
  capacity : option Z;
  timer : option Z;
  wakeRetry : option Z;
  timerGeneration : Z
}.

Definition NewState : State :=
  MkState [] None (MkMetrics 0 0 0 0 0 0 0 0) (MkFlags false false false false false false) WouldBlock None None None 0.

(** Assignments. *)
Definition set_queue (q : list Entry) (s : State) : State :=
  MkState q (active s) (metrics s) (flags s) (result s) (capacity s) (timer s) (wakeRetry s) (timerGeneration s).
Definition set_active (a : option Entry) (s : State) : State :=
  MkState (queue s) a (metrics s) (flags s) (result s) (capacity s) (timer s) (wakeRetry s) (timerGeneration s).
Definition set_metrics (m : OutboundMetrics) (s : State) : State :=
  MkState (queue s) (active s) m (flags s) (result s) (capacity s) (timer s) (wakeRetry s) (timerGeneration s).
Definition set_flags (f : Flags) (s : State) : State :=
  MkState (queue s) (active s) (metrics s) f (result s) (capacity s) (timer s) (wakeRetry s) (timerGeneration s).
Definition set_result (r : ErrorCode) (s : State) : State :=
  MkState (queue s) (active s) (metrics s) (flags s) r (capacity s) (timer s) (wakeRetry s) (timerGeneration s).
Definition set_capacity (c : option Z) (s : State) : State :=
  MkState (queue s) (active s) (metrics s) (flags s) (result s) c (timer s) (wakeRetry s) (timerGeneration s).
Definition set_timer (t : option Z) (s : State) : State :=
  MkState (queue s) (active s) (metrics s) (flags s) (result s) (capacity s) t (wakeRetry s) (timerGeneration s).
Definition set_wakeRetry (r : option Z) (s : State) : State :=
  MkState (queue s) (active s) (metrics s) (flags s) (result s) (capacity s) (timer s) r (timerGeneration s).
Definition set_generation (g : Z) (s : State) : State :=
  MkState (queue s) (active s) (metrics s) (flags s) (result s) (capacity s) (timer s) (wakeRetry s) g.

Definition set_pumping (b : bool) (s : State) : State :=
  let f := flags s in set_flags (MkFlags b (changed f) (draining f) (closed f) (terminal f) (halting f)) s.
Definition set_changed (b : bool) (s : State) : State :=
  let f := flags s in set_flags (MkFlags (pumping f) b (draining f) (closed f) (terminal f) (halting f)) s.
Definition set_draining (s : State) : State :=
  let f := flags s in set_flags (MkFlags (pumping f) (changed f) true (closed f) (terminal f) (halting f)) s.
Definition set_closed (s : State) : State :=
  let f := flags s in set_flags (MkFlags (pumping f) (changed f) (draining f) true (terminal f) (halting f)) s.
Definition set_terminal (s : State) : State :=
  let f := flags s in set_flags (MkFlags (pumping f) (changed f) (draining f) (closed f) true (halting f)) s.
Definition set_halting (b : bool) (s : State) : State :=
  let f := flags s in set_flags (MkFlags (pumping f) (changed f) (draining f) (closed f) (terminal f) b) s.

(** The counters are 64 bits wide; a difference of sizes wraps around. *)
Definition charge (count bytes : Z) (m : OutboundMetrics) : OutboundMetrics :=
  MkMetrics (pending m + count) (retainedBytes m + bytes) (enqueued m) (sent m) (replaced m) (expired m) (discarded m) (deferredWakes m).
Definition refund (count bytes : Z) (m : OutboundMetrics) : OutboundMetrics :=
  MkMetrics (HttpParser.size_sub (pending m) count) (HttpParser.size_sub (retainedBytes m) bytes)
    (enqueued m) (sent m) (replaced m) (expired m) (discarded m) (deferredWakes m).
Definition tally (e s r x d : Z) (m : OutboundMetrics) : OutboundMetrics :=
  MkMetrics (pending m) (retainedBytes m) (wrap64 (enqueued m + e)) (wrap64 (sent m + s)) (wrap64 (replaced m + r))
    (wrap64 (expired m + x)) (wrap64 (discarded m + d)) (deferredWakes m).
Definition defer (m : OutboundMetrics) : OutboundMetrics :=
  MkMetrics (pending m) (retainedBytes m) (enqueued m) (sent m) (replaced m) (expired m) (discarded m) (wrap64 (deferredWakes m + 1)).

Definition wire (e : Entry) : Z := WireBytes (payload e).
Definition wires (q : list Entry) : Z := fold_right (fun e n => wire e + n) 0 q.

(** ** Enqueue *)

(** The entry of a latest key and what is before and after it. *)
Fixpoint find_key (key : Z) (q : list Entry) : option (list Entry * Entry * list Entry) :=
  match q with
  | [] => None
  | e :: q =>
      if bool_decide (latestKey (entryOptions e) = Some key) then Some ([], e, q)
      else match find_key key q with Some (a, x, b) => Some (e :: a, x, b) | None => None end
  end.

Definition find_latest (o : OutboundEnqueueOptions) (q : list Entry) : option (list Entry * Entry * list Entry) :=
  match latestKey o with Some key => find_key key q | None => None end.

Definition TargetOk (t : Target) (k : Kind) : bool :=
  match t with Any => true | RawTarget => bool_decide (k = Raw) | SessionTarget => negb (bool_decide (k = Raw)) end.

(** The section of [Enqueue]; [id] is the identity of the prepared entry. *)
Definition EnqueueCommit (c : Config) (id : Z) (p : OutboundPayload) (o : OutboundEnqueueOptions) (s : State) : Status * State :=
  let m := metrics s in
  if closed (flags s) || draining (flags s) then (Fail Closed, s)
  else
    match find_latest o (queue s) with
    | Some (a, x, b) =>
        if bool_decide (Some (entryId x) = option_map entryId (active s)) then (Fail WouldBlock, s)
        else if maxRetainedBytes (options c) - (retainedBytes m - wire x) <? WireBytes p then (Fail WouldBlock, s)
        else
          (Status.Ok, set_changed true (set_metrics (tally 1 0 1 0 0 (charge 0 (WireBytes p - wire x) m))
             (set_queue (a ++ MkEntry id (slot x) p o :: b) s)))
    | None =>
        if (pending m =? maxMessages (options c)) || (maxRetainedBytes (options c) - retainedBytes m <? WireBytes p) then (Fail WouldBlock, s)
        else
          (Status.Ok, set_changed true (set_metrics (tally 1 0 0 0 0 (charge 1 (WireBytes p) m))
             (set_queue (queue s ++ [MkEntry id id p o]) s)))
    end.

Definition Enqueue (c : Config) (now id : Z) (value : option OutboundPayload) (o : OutboundEnqueueOptions) (s : State) : Status * State :=
  match value with
  | None => (Fail InvalidArgument, s)
  | Some p =>
      if WireBytes p =? 0 then (Fail InvalidArgument, s)
      else if negb (TargetOk (target c) (mKind p)) then (Fail InvalidArgument, s)
      else if maxRetainedBytes (options c) <? WireBytes p then (Fail TooLarge, s)
      else if match expires o with Some due => due <=? now | None => false end then (Fail Timeout, s)
      else EnqueueCommit c id p o s
  end.

(** ** Sections of the pump *)

(** Entering [Drive]: whether this thread pumps. *)
Definition DriveEnter (s : State) : bool * State :=
  let s := set_changed true s in
  if pumping (flags s) || closed (flags s) then (false, s) else (true, set_pumping true s).

Definition Expired (now : Z) (e : Entry) : bool := match expires (entryOptions e) with Some due => due <=? now | None => false end.

Record Selected : Type := MkSelected { retiredCount : Z; retiredBytes : Z; item : option Entry; continuation : bool }.

Definition DriveSelect (c : Config) (now attempts : Z) (s : State) : Selected * State :=
  let old := List.filter (Expired now) (queue s) in
  let s := set_metrics (tally 0 0 0 (len old) 0 (metrics s))
             (set_queue (List.filter (fun e => negb (Expired now e)) (queue s)) (set_changed false s)) in
  match queue s with
  | e :: _ =>
      if negb (closed (flags s)) && (attempts <? maxPumpMessages (options c)) then
        (MkSelected (len old) (wires old) (Some e) false, set_active (Some e) s)
      else (MkSelected (len old) (wires old) None (negb (closed (flags s))), s)
  | [] => (MkSelected (len old) (wires old) None false, s)
  end.

(** The second part of [Release]. *)
Definition ReleaseCommit (count bytes : Z) (s : State) : State :=
  if count =? 0 then s else set_metrics (refund count bytes (metrics s)) s.

(** The queue without an entry. *)
Fixpoint remove_entry (x : Entry) (q : list Entry) : option (list Entry) :=
  match q with
  | [] => None
  | e :: q => if same_entry e x then Some q else match remove_entry x q with Some q => Some (e :: q) | None => None end
  end.

(** After the sink has returned: the number and the bytes of what is retired. *)
Definition DriveSent (x : Entry) (ok : bool) (s : State) : (Z * Z) * State :=
  let s := set_active None s in
  if ok || closed (flags s) then
    let s' := set_metrics (if ok then tally 0 1 0 0 0 (metrics s) else tally 0 0 0 0 1 (metrics s)) s in
    match remove_entry x (queue s) with
    | Some q => ((1, wire x), set_queue q s')
    | None => ((0, 0), s')
    end
  else ((0, 0), s).

(** A capacity wait was registered: whether to try again, and the subscription that is let go. *)
Definition DriveStore (sub : Z) (s : State) : bool * option Z * State :=
  if closed (flags s) then (changed (flags s), Some sub, s)
  else (changed (flags s), capacity s, set_capacity (Some sub) s).

Definition earliest (next : option Z) (e : Entry) : option Z :=
  match expires (entryOptions e), next with
  | Some due, Some n => Some (if due <? n then due else n)
  | Some due, None => Some due
  | None, _ => next
  end.

(** When to wake up next; without a time the pump is over. *)
Definition DriveNext (now : Z) (continuation : bool) (s : State) : option Z * State :=
  let next :=
    if closed (flags s) then None
    else fold_left earliest (queue s) (if continuation || changed (flags s) then Some now else None) in
  (next, match next with None => set_pumping false s | Some _ => s end).

Definition DriveCatch (s : State) : State := set_pumping false (set_active None s).

(** ** Halting and finishing *)

(** Entering [Halt]: the subscriptions and the timer it lets go; [None]: nothing to do. *)
Definition HaltEnter (code : ErrorCode) (s : State) : option (option Z * option Z * option Z) * State :=
  let f := flags s in
  if terminal f || halting f then (None, s)
  else
    let s := set_halting true s in
    let s := if closed f then s else set_result code (set_closed s) in
    (Some (capacity s, wakeRetry s, timer s),
     set_generation (wrap64 (timerGeneration s + 1)) (set_wakeRetry None (set_capacity None (set_changed true s)))).

(** The first entry that is not being sent, and the queue without it. *)
Fixpoint take_inactive (a : option Entry) (q : list Entry) : option (Entry * list Entry) :=
  match q with
  | [] => None
  | e :: q =>
      if bool_decide (Some (entryId e) = option_map entryId a) then
        match take_inactive a q with Some (x, q) => Some (x, e :: q) | None => None end
      else Some (e, q)
  end.

Definition HaltTake (s : State) : option Z * State :=
  match take_inactive (active s) (queue s) with
  | None => (None, set_halting false s)
  | Some (x, q) => (Some (wire x), set_metrics (tally 0 0 0 0 1 (metrics s)) (set_queue q s))
  end.

Definition HaltRelease (bytes : Z) (s : State) : State := set_metrics (refund 1 bytes (metrics s)) s.

Definition FinishIfReady (s : State) : option ErrorCode * State :=
  let f := flags s in
  if negb (terminal f) && negb (pumping f) && bool_decide (active s = None) && negb (halting f) && (pending (metrics s) =? 0)
     && (closed f || draining f) then
    let s := set_terminal s in
    let s := if closed f then s else set_result ErrorCode_Ok s in
    (Some (result s), s)
  else (None, s).

Definition IsFinished (s : State) : bool := terminal (flags s).

Definition GetStatus (s : State) : Status :=
  if terminal (flags s) then (if bool_decide (result s = ErrorCode_Ok) then Status.Ok else Fail (result s)) else Fail WouldBlock.

(** ** Timers *)

Inductive Phase : Type := Waiting | Dispatched | Running | Done.

#[global] Instance Phase_eq_dec : EqDecision Phase.
Proof. solve_decision. Defined.

Record Timer : Type := MkTimer { generation : Z; due : Z; phase : Phase; cancelled : bool }.

(** What [Schedule] answers; [Reschedule] succeeds for a timer that waits and was not cancelled. *)
Inductive Scheduled : Type := ScheduledAs (id : Z) | ScheduleFailed (code : ErrorCode).

Inductive Armed : Type := ArmDone (moved : bool) (due : Z) | ArmScheduled (id : Z) (due : Z) | ArmDeferred (running generation : Z) | ArmHalt (code : ErrorCode).

(** [Arm], but for what follows a deferral: [movable] is the timer's readiness for [Reschedule], [unfinished]
    whether it has not ended. *)
Definition Arm (now due : Z) (movable unfinished : bool) (answer : Scheduled) (s : State) : Armed * State :=
  if closed (flags s) then (ArmDone false due, set_pumping false s)
  else
    let due := if changed (flags s) then Z.min due now else due in
    if movable then (ArmDone true due, set_pumping false s)
    else
      let s := set_pumping false (set_generation (wrap64 (timerGeneration s + 1)) s) in
      match answer, timer s with
      | ScheduledAs id, _ => (ArmScheduled id due, set_timer (Some id) s)
      | ScheduleFailed code, Some running =>
          if bool_decide (code = WouldBlock) && unfinished then
            (ArmDeferred running (timerGeneration s), set_metrics (defer (metrics s)) s)
          else (ArmHalt code, s)
      | ScheduleFailed code, None => (ArmHalt code, s)
      end.

(** The section of [RetryWake]: what to halt with. *)
Definition RetryWake (generation : Z) (answer : Scheduled) (s : State) : option ErrorCode * option Z * State :=
  if closed (flags s) || negb (timerGeneration s =? generation) then (None, None, s)
  else
    match answer with
    | ScheduledAs id => (None, Some id, set_timer (Some id) s)
    | ScheduleFailed code => (Some code, None, s)
    end.

(** ** Threads *)

(** What a thread has before it.  [FRelease] carries what comes after it. *)
Inductive Frame : Type :=
| FDrive
| FPrevious
| FSelect (attempts : Z)
| FSend (x : Entry) (attempts : Z)
| FSent (x : Entry) (attempts : Z) (status : Status)
| FAfter (required attempts : Z) (status : Status)
| FCheck (required attempts : Z)
| FWait (required attempts : Z)
| FStore (sub attempts : Z)
| FOld (attempts : Z)
| FNext (continuation : bool)
| FArm (due : Z)
| FArmRetry (running generation : Z)
| FStoreRetry (sub : Z)
| FCatch
| FRelease (count bytes : Z) (next : Frame)
| FFinish
| FHalt (code : ErrorCode)
| FHaltTake
| FHaltRelease (bytes : Z)
| FCancel (t : option Z)
| FTimer (generation : Z)
| FTimerDone (t : Z)
| FRetryWake (generation : Z).

(** Everything but the threads: the queue's state, the timers of the scheduler, the live subscriptions for capacity
    and for the end of a timer (with the timer and the generation), fresh identities; the entries the sink has
    accepted, the deferred wake-ups and the completions, in order. *)
Record World : Type := MkWorld {
  state : State;
  timers : gmap Z Timer;
  subs : gset Z;
  retries : gmap Z (Z * Z);
  fresh : Z;
  accepted : list Entry;
  deferrals : Z;
  completions : list ErrorCode
}.

Definition NewWorld : World := MkWorld NewState ∅ ∅ ∅ 1 [] 0 [].

Definition with_state (s : State) (w : World) : World :=
  MkWorld s (timers w) (subs w) (retries w) (fresh w) (accepted w) (deferrals w) (completions w).
Definition with_timers (t : gmap Z Timer) (w : World) : World :=
  MkWorld (state w) t (subs w) (retries w) (fresh w) (accepted w) (deferrals w) (completions w).
Definition with_subs (u : gset Z) (w : World) : World :=
  MkWorld (state w) (timers w) u (retries w) (fresh w) (accepted w) (deferrals w) (completions w).
Definition with_retries (r : gmap Z (Z * Z)) (w : World) : World :=
  MkWorld (state w) (timers w) (subs w) r (fresh w) (accepted w) (deferrals w) (completions w).
Definition with_fresh (n : Z) (w : World) : World :=
  MkWorld (state w) (timers w) (subs w) (retries w) n (accepted w) (deferrals w) (completions w).
Definition with_accepted (l : list Entry) (w : World) : World :=
  MkWorld (state w) (timers w) (subs w) (retries w) (fresh w) l (deferrals w) (completions w).
Definition with_deferrals (n : Z) (w : World) : World :=
  MkWorld (state w) (timers w) (subs w) (retries w) (fresh w) (accepted w) n (completions w).
Definition with_completions (l : list ErrorCode) (w : World) : World :=
  MkWorld (state w) (timers w) (subs w) (retries w) (fresh w) (accepted w) (deferrals w) l.

(** [Reset] of a subscription, if there is one. *)
Definition reset_sub (sub : option Z) (w : World) : World :=
  match sub with Some i => with_subs (subs w ∖ {[i]}) w | None => w end.
Definition reset_retry (sub : option Z) (w : World) : World :=
  match sub with Some i => with_retries (delete i (retries w)) w | None => w end.

Definition Ready (t : option Timer) : bool :=
  match t with Some x => bool_decide (phase x = Waiting) && negb (cancelled x) | None => false end.
Definition Unfinished (t : option Timer) : bool :=
  match t with Some x => negb (bool_decide (phase x = Done)) | None => false end.
Definition timer_of (w : World) : option Timer := match timer (state w) with Some t => timers w !! t | None => None end.

Definition set_phase (p : Phase) (x : Timer) : Timer := MkTimer (generation x) (due x) p (cancelled x).
Definition set_cancelled (x : Timer) : Timer :=
  if bool_decide (phase x = Done) then x else MkTimer (generation x) (due x) (phase x) true.
Definition finish_timer (x : Timer) : Timer := if bool_decide (phase x = Running) then set_phase Done x else x.
Definition move_timer (due : Z) (x : Timer) : Timer := MkTimer (generation x) due (phase x) (cancelled x).

(** The threads that the end of a timer starts: the waits for it fire. *)
Definition retry_threads (t : Z) (w : World) : list (list Frame) :=
  flat_map (fun r => if r.2.1 =? t then [[FRetryWake r.2.2]] else []) (map_to_list (retries w)).
Definition keep_retries (t : Z) (w : World) : gmap Z (Z * Z) := filter (fun r => r.2.1 <> t) (retries w).

Definition after_sent (required attempts : Z) (status : Status) : list Frame :=
  if Status.IsOk status then [FSelect attempts]
  else if bool_decide (Status.Code status = WouldBlock) then [FCheck required attempts]
  else [FHalt (Status.Code status); FNext false].

Section Steps.
Context (c : Config).

(** One step of a thread: the frame at its top, the frames that take its place and the threads it starts. *)
Inductive Exec : Frame -> World -> list Frame -> list (list Frame) -> World -> Prop :=
| ExecDrive (w : World) (s : State) (b : bool) : DriveEnter (state w) = (b, s) ->
    Exec FDrive w (if b then [FPrevious] else []) [] (with_state s w)
| ExecPrevious (w : World) :
    Exec FPrevious w [FSelect 0] [] (reset_sub (capacity (state w)) (with_state (set_capacity None (state w)) w))
| ExecSelect (w : World) (now n : Z) (r : Selected) (s : State) : DriveSelect c now n (state w) = (r, s) ->
    Exec (FSelect n) w
      [FRelease (retiredCount r) (retiredBytes r) (match item r with Some x => FSend x (n + 1) | None => FNext (continuation r) end)] []
      (with_state s w)
| ExecRelease (w : World) (count bytes : Z) (next : Frame) :
    Exec (FRelease count bytes next) w [next] [] (with_state (ReleaseCommit count bytes (state w)) w)
| ExecSend (w : World) (x : Entry) (n : Z) (status : Status) : Exec (FSend x n) w [FSent x n status] [] w
| ExecSendThrows (w : World) (x : Entry) (n : Z) : Exec (FSend x n) w [FCatch] [] w
| ExecSent (w : World) (x : Entry) (n : Z) (status : Status) (count bytes : Z) (s : State) :
    DriveSent x (Status.IsOk status) (state w) = ((count, bytes), s) ->
    Exec (FSent x n status) w [FRelease count bytes (FAfter (wire x) n status)] []
      (with_accepted (accepted w ++ if Status.IsOk status then [x] else []) (with_state s w))
| ExecAfter (w : World) (required n : Z) (status : Status) : Exec (FAfter required n status) w (after_sent required n status) [] w
| ExecCheck (w : World) (required n : Z) :
    Exec (FCheck required n) w (if closed (flags (state w)) then [FNext false] else [FWait required n]) [] w
| ExecWait (w : World) (required n sub : Z) : sub ∉ subs w ->
    Exec (FWait required n) w [FStore sub n] [] (with_subs ({[sub]} ∪ subs w) w)
| ExecWaitFails (w : World) (required n : Z) (code : ErrorCode) : Exec (FWait required n) w [FHalt code; FNext false] [] w
| ExecWaitThrows (w : World) (required n : Z) : Exec (FWait required n) w [FCatch] [] w
| ExecStore (w : World) (sub n : Z) (retry : bool) (gone : option Z) (s : State) : DriveStore sub (state w) = (retry, gone, s) ->
    Exec (FStore sub n) w (if retry then [FOld n] else [FNext false]) [] (reset_sub gone (with_state s w))
| ExecOld (w : World) (n : Z) :
    Exec (FOld n) w [FSelect n] [] (reset_sub (capacity (state w)) (with_state (set_capacity None (state w)) w))
| ExecNext (w : World) (now : Z) (continuation : bool) (next : option Z) (s : State) : DriveNext now continuation (state w) = (next, s) ->
    Exec (FNext continuation) w (match next with Some due => [FArm due] | None => [FFinish] end) [] (with_state s w)
| ExecArmDone (w : World) (now d due : Z) (answer : Scheduled) (moved : bool) (s : State) :
    Arm now d (Ready (timer_of w)) (Unfinished (timer_of w)) answer (state w) = (ArmDone moved due, s) ->
    Exec (FArm d) w [FFinish] []
      (with_timers (match moved, timer s with true, Some t => alter (move_timer due) t (timers w) | _, _ => timers w end) (with_state s w))
| ExecArmScheduled (w : World) (now d due id : Z) (s : State) : timers w !! id = None ->
    Arm now d (Ready (timer_of w)) (Unfinished (timer_of w)) (ScheduledAs id) (state w) = (ArmScheduled id due, s) ->
    Exec (FArm d) w [FFinish] [] (with_timers (<[id := MkTimer (timerGeneration s) due Waiting false]> (timers w)) (with_state s w))
| ExecArmDeferred (w : World) (now d : Z) (code : ErrorCode) (running gen : Z) (s : State) :
    Arm now d (Ready (timer_of w)) (Unfinished (timer_of w)) (ScheduleFailed code) (state w) = (ArmDeferred running gen, s) ->
    Exec (FArm d) w [FArmRetry running gen; FFinish] [] (with_deferrals (deferrals w + 1) (with_state s w))
| ExecArmHalt (w : World) (now d : Z) (answer : Scheduled) (code : ErrorCode) (s : State) :
    Arm now d (Ready (timer_of w)) (Unfinished (timer_of w)) answer (state w) = (ArmHalt code, s) ->
    Exec (FArm d) w [FHalt code; FFinish] [] (with_state s w)
| ExecArmRetry (w : World) (running gen sub : Z) : Unfinished (timers w !! running) = true -> retries w !! sub = None ->
    Exec (FArmRetry running gen) w [FStoreRetry sub] [] (with_retries (<[sub := (running, gen)]> (retries w)) w)
| ExecArmRetryLate (w : World) (running gen sub : Z) : Unfinished (timers w !! running) = false -> retries w !! sub = None ->
    Exec (FArmRetry running gen) w [FRetryWake gen; FStoreRetry sub] [] w
| ExecArmRetryFails (w : World) (running gen : Z) (code : ErrorCode) : Exec (FArmRetry running gen) w [FHalt code] [] w
| ExecStoreRetry (w : World) (sub : Z) :
    Exec (FStoreRetry sub) w [] [] (reset_retry (wakeRetry (state w)) (with_state (set_wakeRetry (Some sub) (state w)) w))
| ExecCatch (w : World) : Exec FCatch w [FHalt PlatformError] [] (with_state (DriveCatch (state w)) w)
| ExecFinish (w : World) (code : option ErrorCode) (s : State) : FinishIfReady (state w) = (code, s) ->
    Exec FFinish w [] [] (with_completions (completions w ++ match code with Some x => [x] | None => [] end) (with_state s w))
| ExecHaltSkip (w : World) (code : ErrorCode) (s : State) : HaltEnter code (state w) = (None, s) -> Exec (FHalt code) w [] [] (with_state s w)
| ExecHalt (w : World) (code : ErrorCode) (wait retry wake : option Z) (s : State) : HaltEnter code (state w) = (Some (wait, retry, wake), s) ->
    Exec (FHalt code) w [FCancel wake; FHaltTake] []
      (reset_retry retry (reset_sub wait (with_state s w)))
| ExecHaltTake (w : World) (bytes : option Z) (s : State) : HaltTake (state w) = (bytes, s) ->
    Exec FHaltTake w (match bytes with Some b => [FHaltRelease b] | None => [FFinish] end) [] (with_state s w)
| ExecHaltRelease (w : World) (bytes : Z) : Exec (FHaltRelease bytes) w [FHaltTake] [] (with_state (HaltRelease bytes (state w)) w)
| ExecCancel (w : World) (t : option Z) :
    Exec (FCancel t) w [] [] (with_timers (match t with Some i => alter set_cancelled i (timers w) | None => timers w end) w)
| ExecTimer (w : World) (gen : Z) : Exec (FTimer gen) w (if timerGeneration (state w) =? gen then [FDrive] else []) [] w
| ExecTimerDone (w : World) (t : Z) :
    Exec (FTimerDone t) w [] (retry_threads t w) (with_retries (keep_retries t w) (with_timers (alter finish_timer t (timers w)) w))
| ExecRetryWake (w : World) (now gen : Z) (answer : Scheduled) (code : option ErrorCode) (id : option Z) (s : State) :
    (forall i, answer = ScheduledAs i -> timers w !! i = None) -> RetryWake gen answer (state w) = (code, id, s) ->
    Exec (FRetryWake gen) w (match code with Some x => [FHalt x] | None => [] end) []
      (with_timers (match id with Some i => <[i := MkTimer gen now Waiting false]> (timers w) | None => timers w end) (with_state s w)).

(** What starts threads: the callers of the queue, capacity that becomes free or fails, and the scheduler. *)
Inductive Call : World -> list (list Frame) -> World -> Prop :=
| CallEnqueue (w : World) (now : Z) (p : option OutboundPayload) (o : OutboundEnqueueOptions) (status : Status) (s : State) :
    Enqueue c now (fresh w) p o (state w) = (status, s) ->
    Call w (if Status.IsOk status then [[FDrive]] else []) (with_fresh (fresh w + 1) (with_state s w))
| CallDrain (w : World) : Call w [[FDrive; FFinish]] (with_state (set_draining (state w)) w)
| CallClose (w : World) : Call w [[FHalt Cancelled]] w
| CallWake (w : World) (sub : Z) (code : ErrorCode) : sub ∈ subs w ->
    Call w [[if bool_decide (code = ErrorCode_Ok) then FDrive else FHalt code]] (with_subs (subs w ∖ {[sub]}) w)
| CallDispatch (w : World) (t : Z) (x : Timer) : timers w !! t = Some x -> phase x = Waiting -> cancelled x = false ->
    Call w [] (with_timers (<[t := set_phase Dispatched x]> (timers w)) w)
| CallBounce (w : World) (t : Z) (x : Timer) : timers w !! t = Some x -> phase x = Dispatched ->
    Call w [] (with_timers (<[t := set_phase Waiting x]> (timers w)) w)
| CallRun (w : World) (t : Z) (x : Timer) (stopped : bool) : timers w !! t = Some x -> phase x = Dispatched -> (stopped = true -> cancelled x = true) ->
    Call w [if stopped then [FTimerDone t] else [FTimer (generation x); FTimerDone t]]
      (with_timers (<[t := set_phase Running x]> (timers w)) w)
| CallRetire (w : World) (t : Z) (x : Timer) : timers w !! t = Some x -> phase x = Waiting -> cancelled x = true ->
    Call w (retry_threads t w) (with_retries (keep_retries t w) (with_timers (<[t := set_phase Done x]> (timers w)) w)).

(** The system: the world and the threads' stacks. *)
Definition System : Type := World * list (list Frame).

Inductive Step : System -> System -> Prop :=
| StepFrame (w w' : World) (a b : list (list Frame)) (f : Frame) (k pushed : list Frame) (started : list (list Frame)) :
    Exec f w pushed started w' -> Step (w, a ++ (f :: k) :: b) (w', a ++ (pushed ++ k) :: b ++ started)
| StepCall (w w' : World) (ts started : list (list Frame)) : Call w started w' -> Step (w, ts) (w', ts ++ started).

Inductive Run : System -> Prop :=
| RunStart : Run (NewWorld, [])
| RunStep (x y : System) : Run x -> Step x y -> Run y.

End Steps.

End OutboundQueue.
Import OutboundQueue.

(** ** Measures of frames *)

(** The frames of a thread that pumps. *)
Fixpoint owner (f : Frame) : Z :=
  match f with
  | FPrevious | FSelect _ | FSend _ _ | FSent _ _ _ | FAfter _ _ _ | FCheck _ _ | FWait _ _ | FStore _ _ | FOld _ | FNext _ | FArm _ | FCatch => 1
  | FRelease _ _ next => owner next
  | _ => 0
  end.

(** What a pumping thread knows of [active]; a thread that was interrupted by the sink knows nothing. *)
Fixpoint expects (f : Frame) : option (option Entry) :=
  match f with
  | FSend x _ | FSent x _ _ => Some (Some x)
  | FRelease _ _ next => expects next
  | FPrevious | FSelect _ | FAfter _ _ _ | FCheck _ _ | FWait _ _ | FStore _ _ | FOld _ | FNext _ | FArm _ => Some None
  | _ => None
  end.

(** The number and the bytes of what was taken from the queue and is not yet refunded. *)
Fixpoint owed (f : Frame) : Z := match f with FRelease n _ next => n + owed next | FHaltRelease _ => 1 | _ => 0 end.
Fixpoint owed_bytes (f : Frame) : Z := match f with FRelease _ b next => b + owed_bytes next | FHaltRelease b => b | _ => 0 end.

Fixpoint halter (f : Frame) : Z := match f with FHaltTake | FHaltRelease _ => 1 | FRelease _ _ next => halter next | _ => 0 end.

Definition total (m : Frame -> Z) (fs : list Frame) : Z := fold_right (fun f n => m f + n) 0 fs.

Lemma measure_app (m : Frame -> Z) (a b : list Frame) : total m (a ++ b) = total m a + total m b.
Proof. unfold total. induction a as [|f a IH]; [done|]. cbn [app fold_right]. lia. Qed.

Lemma measure_cons (m : Frame -> Z) (f : Frame) (fs : list Frame) : total m (f :: fs) = m f + total m fs.
Proof. done. Qed.

Lemma measure_nil (m : Frame -> Z) : total m [] = 0.
Proof. done. Qed.

Lemma total_perm (m : Frame -> Z) (a b : list Frame) : a ≡ₚ b -> total m a = total m b.
Proof. induction 1; rewrite ?measure_cons in *; lia. Qed.

Lemma measure_nonneg (m : Frame -> Z) (fs : list Frame) : (forall f, 0 <= m f) -> 0 <= total m fs.
Proof. intros H. induction fs as [|f fs IH]; [done|]. rewrite measure_cons. specialize (H f). lia. Qed.

Lemma owner_range (f : Frame) : 0 <= owner f.
Proof. induction f; cbn; lia. Qed.

Lemma halter_range (f : Frame) : 0 <= halter f.
Proof. induction f; cbn; lia. Qed.

Lemma owner_expects (f : Frame) : owner f = 0 -> expects f = None.
Proof. induction f; cbn; done. Qed.

Lemma no_owner (fs : list Frame) (a : option Entry) : total owner fs = 0 -> Forall (fun f => expects f = None) fs.
Proof.
  induction fs as [|f fs IH]; intros H; [constructor|]. rewrite measure_cons in H. pose proof (owner_range f).
  pose proof (measure_nonneg owner fs owner_range). constructor; [apply owner_expects; lia|apply IH; lia].
Qed.

(** ** Flattening *)

Lemma flat_frame (a b started : list (list Frame)) (f : Frame) (k pushed : list Frame) :
  concat (a ++ (f :: k) :: b) ≡ₚ f :: (concat a ++ k ++ concat b)
  /\ concat (a ++ (pushed ++ k) :: b ++ started) ≡ₚ pushed ++ concat started ++ (concat a ++ k ++ concat b).
Proof.
  rewrite !concat_app, !concat_cons, concat_app. split; [by rewrite Permutation_middle|]. rewrite !app_assoc.
  rewrite (Permutation_app_comm _ (concat started)). rewrite (Permutation_app_comm (concat a) pushed), <-!app_assoc.
  rewrite !(Permutation_app_swap_app (concat started)). done.
Qed.

(** ** The pump *)

(** What is known of [active] by a frame. *)
Definition agrees (a : option Entry) (f : Frame) : Prop := match expects f with Some x => a = x | None => True end.

Record pump_ok (w : World) (fs : list Frame) : Prop := MkPumpOk {
  p_owner : total owner fs = Z.b2z (pumping (flags (state w)));
  p_expects : Forall (agrees (active (state w))) fs;
  p_idle : pumping (flags (state w)) = false -> active (state w) = None;
  p_head : forall e, active (state w) = Some e -> exists q, queue (state w) = e :: q;
  p_halter : total halter fs = Z.b2z (halting (flags (state w)));
  p_closed : halting (flags (state w)) = true -> closed (flags (state w)) = true
}.

Lemma pump_ok_perm (w : World) (a b : list Frame) : a ≡ₚ b -> pump_ok w a -> pump_ok w b.
Proof. intros Hp [H1 H2 H3 H4 H5 H6]. constructor; rewrite <-?(total_perm _ _ _ Hp); try done. by rewrite <-Hp. Qed.

Lemma find_key_spec (key : Z) (q a b : list Entry) (x : Entry) : find_key key q = Some (a, x, b) -> q = a ++ x :: b.
Proof.
  revert a x b. induction q as [|e q IH]; intros a x b H; cbn [find_key] in H; [done|]. case_if_in H; [by injection H as <- <- <-|].
  destruct (find_key key q) as [[[a' x'] b']|]; [|done]. injection H as <- <- <-. by rewrite (IH a' x' b').
Qed.

Lemma find_latest_spec (o : OutboundEnqueueOptions) (q a b : list Entry) (x : Entry) : find_latest o q = Some (a, x, b) -> q = a ++ x :: b.
Proof. unfold find_latest. destruct (latestKey o); [|done]. apply find_key_spec. Qed.

Lemma take_inactive_spec (a : option Entry) (q q' : list Entry) (x : Entry) : take_inactive a q = Some (x, q') ->
  exists l r, q = l ++ x :: r /\ q' = l ++ r /\ Some (entryId x) <> option_map entryId a.
Proof.
  revert q'. induction q as [|e q IH]; intros q' H; cbn [take_inactive] in H; [done|]. destruct (bool_decide _) eqn:E.
  - destruct (take_inactive a q) as [[x' q1]|] eqn:Et; [|done]. injection H as -> <-. destruct (IH q1 eq_refl) as (l & r & -> & -> & Hn).
    by exists (e :: l), r.
  - injection H as <- <-. apply bool_decide_eq_false in E. by exists [], q.
Qed.

(** Reads off the result of the section in [H]. *)
Ltac open_section H :=
  unfold DriveEnter, DriveSelect, DriveSent, DriveStore, DriveNext, HaltEnter, HaltTake, FinishIfReady, Arm, RetryWake, Enqueue, EnqueueCommit in H;
  repeat case_match_in H; simplify_eq.
Ltac open_sections :=
  repeat match goal with
  | H : DriveEnter _ = _ |- _ => open_section H
  | H : DriveSelect _ _ _ _ = _ |- _ => open_section H
  | H : DriveSent _ _ _ = _ |- _ => open_section H
  | H : DriveStore _ _ = _ |- _ => open_section H
  | H : DriveNext _ _ _ = _ |- _ => open_section H
  | H : HaltEnter _ _ = _ |- _ => open_section H
  | H : HaltTake _ = _ |- _ => open_section H
  | H : FinishIfReady _ = _ |- _ => open_section H
  | H : Arm _ _ _ _ _ _ = _ |- _ => open_section H
  | H : RetryWake _ _ _ = _ |- _ => open_section H
  | H : Enqueue _ _ _ _ _ _ = _ |- _ => open_section H
  end.

(** Computes the components of a changed world. *)
Ltac components :=
  cbn [state timers subs retries fresh accepted deferrals completions with_state with_timers with_subs with_retries with_fresh with_accepted
    with_deferrals with_completions set_queue set_active set_metrics set_flags set_result set_capacity set_timer set_wakeRetry set_generation
    set_changed set_pumping set_draining set_closed set_terminal set_halting DriveCatch HaltRelease
    charge refund tally defer pending retainedBytes enqueued sent replaced expired discarded deferredWakes
    queue active metrics flags result capacity timer wakeRetry timerGeneration pumping changed draining closed terminal halting
    app concat option_map retiredCount retiredBytes item continuation] in *.

(** Sums of a measure over the frames. *)
Ltac solve_total :=
  match goal with
  | |- @eq Z _ _ =>
      components; repeat case_if; components; cbn [owner halter owed owed_bytes Z.b2z app] in *; rewrite ?measure_cons, ?measure_nil in *; cbn [owner halter owed owed_bytes] in *; lia
  end.

Lemma reset_sub_state (o : option Z) (w : World) : state (reset_sub o w) = state w.
Proof. by destruct o. Qed.
Lemma reset_retry_state (o : option Z) (w : World) : state (reset_retry o w) = state w.
Proof. by destruct o. Qed.

Lemma retry_frames (t : Z) (w : World) : Forall (fun f => exists g, f = FRetryWake g) (concat (retry_threads t w)).
Proof.
  unfold retry_threads. induction (map_to_list (retries w)) as [|r l IH]; [constructor|]. cbn [flat_map]. rewrite concat_app. apply Forall_app.
  split; [|done]. destruct (r.2.1 =? t); cbn [concat app]; repeat constructor. by eexists.
Qed.

Lemma retry_total (m : Frame -> Z) (t : Z) (w : World) : (forall g, m (FRetryWake g) = 0) -> total m (concat (retry_threads t w)) = 0.
Proof.
  intros H. pose proof (retry_frames t w) as Hf. induction Hf as [|f fs [g ->] _ IH]; [done|]. rewrite measure_cons, H. lia.
Qed.

Lemma agrees_retry (a : option Entry) (t : Z) (w : World) : Forall (agrees a) (concat (retry_threads t w)).
Proof. eapply Forall_impl; [apply retry_frames|]. by intros f [g ->]. Qed.

Lemma agrees_free (a : option Entry) (fs : list Frame) : total owner fs = 0 -> Forall (agrees a) fs.
Proof. intros H. eapply Forall_impl; [by apply no_owner|]. intros f Hf. unfold agrees. by rewrite Hf. Qed.

Lemma pump_exec (c : Config) (f : Frame) (w w' : World) (pushed rest : list Frame) (started : list (list Frame)) :
  Exec c f w pushed started w' -> pump_ok w (f :: rest) -> pump_ok w' (pushed ++ concat started ++ rest).
Proof.
  intros He [H1 H2 H3 H4 H5 H6]. apply Forall_cons in H2 as [H2 H2']. rewrite measure_cons in H1, H5.
  pose proof (measure_nonneg owner rest owner_range). pose proof (measure_nonneg halter rest halter_range).
  destruct He; open_sections; unfold after_sent, ReleaseCommit; cbn [owner halter expects] in *.
  all: constructor; rewrite ?reset_retry_state, ?reset_sub_state.
  all: rewrite ?measure_app, ?measure_cons, ?measure_nil, ?retry_total by done.
  all: try solve_total.
  all: try (components; repeat case_if; components; repeat constructor; unfold agrees; cbn [expects]; auto; apply agrees_free; lia).
  all: components; unfold agrees in *; cbn [expects] in *.
  all: try (intros ? Ha; rewrite ?H2 in Ha; simplify_eq; eauto; congruence).
  all: try done; try (intros Hh; specialize (H6 Hh); congruence); try (intros Hp; rewrite Hp in H1; cbn [Z.b2z] in H1; lia).
  - apply orb_false_iff in E as [E _]. constructor; [by apply H3|done].
  - intros y0 He. destruct (H4 y0 He) as [q Hq]. destruct (take_inactive_spec _ _ _ _ E) as (a & b & Hq' & -> & Hn). rewrite Hq in Hq'.
    destruct a as [|y a]; cbn [app] in Hq'; injection Hq' as <- _; [|by eexists]. by rewrite He in Hn.
  - apply Forall_app. split; [apply agrees_retry|done].
Qed.

(** What [Enqueue] does: nothing, a replacement in place, or a new entry at the end. *)
Inductive enqueued_as (c : Config) (id : Z) (s : State) : Status -> State -> Prop :=
| EnqueueRefused (status : Status) : Status.IsOk status = false -> enqueued_as c id s status s
| EnqueueReplaces (p : OutboundPayload) (o : OutboundEnqueueOptions) (a b : list Entry) (x : Entry) :
    queue s = a ++ x :: b -> (forall e, active s = Some e -> entryId e <> entryId x) -> closed (flags s) = false -> draining (flags s) = false ->
    retainedBytes (metrics s) - wire x + WireBytes p <= maxRetainedBytes (options c) ->
    enqueued_as c id s Status.Ok (set_changed true (set_metrics (tally 1 0 1 0 0 (charge 0 (WireBytes p - wire x) (metrics s)))
      (set_queue (a ++ MkEntry id (slot x) p o :: b) s)))
| EnqueueAppends (p : OutboundPayload) (o : OutboundEnqueueOptions) :
    closed (flags s) = false -> draining (flags s) = false -> pending (metrics s) <> maxMessages (options c) ->
    retainedBytes (metrics s) + WireBytes p <= maxRetainedBytes (options c) ->
    enqueued_as c id s Status.Ok (set_changed true (set_metrics (tally 1 0 0 0 0 (charge 1 (WireBytes p) (metrics s)))
      (set_queue (queue s ++ [MkEntry id id p o]) s))).

Lemma enqueue_inv (c : Config) (now id : Z) (value : option OutboundPayload) (o : OutboundEnqueueOptions) (s s' : State) (status : Status) :
  Enqueue c now id value o s = (status, s') -> enqueued_as c id s status s'.
Proof.
  unfold Enqueue. destruct value as [p|]; [|intros [= <- <-]; by constructor].
  repeat (case_if; [intros [= <- <-]; by constructor|]). unfold EnqueueCommit. destruct (_ || _) eqn:Ec; [intros [= <- <-]; by constructor|].
  apply orb_false_iff in Ec as [Ec Ed]. destruct (find_latest o (queue s)) as [[[a x] b]|] eqn:Ef.
  - case_if; [intros [= <- <-]; by constructor|]. case_if; [intros [= <- <-]; by constructor|]. intros [= <- <-].
    apply bool_decide_eq_false in E3. apply EnqueueReplaces; [by eapply find_latest_spec| |done|done|lia].
    intros e He Hi. apply E3. rewrite He. cbn [option_map]. by rewrite Hi.
  - destruct (_ || _) eqn:El; [intros [= <- <-]; by constructor|]. intros [= <- <-]. apply orb_false_iff in El as [El1 El2]. apply EnqueueAppends; [done|done|lia|lia].
Qed.

Lemma pump_call (c : Config) (w w' : World) (fs : list Frame) (started : list (list Frame)) :
  Call c w started w' -> pump_ok w fs -> pump_ok w' (concat started ++ fs).
Proof.
  intros He [H1 H2 H3 H4 H5 H6]. destruct He as [w now p o status s He|w|w|w sub code Hs|w t x Ht Hp Hc|w t x Ht Hp|w t x stopped Ht Hp Hc|w t x Ht Hp Hc].
  1: apply enqueue_inv in He; destruct He as [status Hs|p' o' a b x Hq Hn Hc Hd Hr|p' o' Hc Hd Hm Hr]; [rewrite Hs|..].
  all: constructor; rewrite ?measure_app, ?retry_total by done; components; try done.
  all: try solve_total; try (repeat case_if; cbn [app]; repeat constructor; done).
  - intros e He. destruct (H4 e He) as [q Hq']. rewrite Hq in Hq'. destruct a as [|y a]; cbn [app] in Hq' |- *; injection Hq' as -> _; [|by eexists]. by destruct (Hn e He).
  - intros e He. destruct (H4 e He) as [q ->]. by eexists.
  - apply Forall_app. split; [apply agrees_retry|done].
Qed.

(** ** Accounting *)

Lemma wires_app (a b : list Entry) : wires (a ++ b) = wires a + wires b.
Proof. unfold wires. induction a as [|e a IH]; [done|]. cbn [app fold_right]. lia. Qed.

Lemma wires_cons (e : Entry) (q : list Entry) : wires (e :: q) = wire e + wires q.
Proof. done. Qed.

Lemma wire_nonneg (e : Entry) : 0 <= wire e.
Proof. unfold wire, WireBytes. pose proof (len_nonneg (Bytes (payload e))). destruct (mKind (payload e)); lia. Qed.

Lemma wires_nonneg (q : list Entry) : 0 <= wires q.
Proof. induction q as [|e q IH]; [done|]. rewrite wires_cons. pose proof (wire_nonneg e). lia. Qed.

Lemma len_more {A : Type} (e : A) (q : list A) : len (e :: q) = 1 + len q.
Proof. unfold len. cbn [length]. lia. Qed.

Lemma filter_split (p : Entry -> bool) (q : list Entry) :
  len q = len (List.filter p q) + len (List.filter (fun e => negb (p e)) q)
  /\ wires q = wires (List.filter p q) + wires (List.filter (fun e => negb (p e)) q).
Proof.
  induction q as [|e q [IH1 IH2]]; [done|]. cbn [List.filter]. destruct (p e); cbn [negb]; rewrite ?wires_cons, ?len_more; lia.
Qed.

Lemma remove_head (x : Entry) (q : list Entry) : remove_entry x (x :: q) = Some q.
Proof. cbn [remove_entry]. unfold same_entry. by rewrite Z.eqb_refl. Qed.

(** What is to be refunded, by the pump or while halting. *)
Fixpoint owes (f : Frame) : Prop :=
  match f with
  | FRelease n b next => 0 <= n /\ 0 <= b /\ (n = 0 -> b = 0) /\ owner next = 1 /\ owes next
  | FHaltRelease b => 0 <= b
  | _ => True
  end.

Lemma owes_nonneg (f : Frame) : owes f -> 0 <= owed f /\ 0 <= owed_bytes f.
Proof. induction f; cbn; try lia. intros (? & ? & ? & ? & H). specialize (IHf H). lia. Qed.

Lemma owes_total (fs : list Frame) : Forall owes fs -> 0 <= total owed fs /\ 0 <= total owed_bytes fs.
Proof. induction 1 as [|f fs Hf H IH]; [done|]. rewrite !measure_cons. apply owes_nonneg in Hf. lia. Qed.

Lemma owes_retry (t : Z) (w : World) : Forall owes (concat (retry_threads t w)).
Proof. eapply Forall_impl; [apply retry_frames|]. by intros f [g ->]. Qed.

Record account_ok (c : Config) (w : World) (fs : list Frame) : Prop := MkAccountOk {
  a_pending : pending (metrics (state w)) = len (queue (state w)) + total owed fs;
  a_bytes : retainedBytes (metrics (state w)) = wires (queue (state w)) + total owed_bytes fs;
  a_owes : Forall owes fs;
  a_messages : pending (metrics (state w)) <= maxMessages (options c);
  a_limit : retainedBytes (metrics (state w)) <= maxRetainedBytes (options c)
}.

Lemma account_ok_perm (c : Config) (w : World) (a b : list Frame) : a ≡ₚ b -> account_ok c w a -> account_ok c w b.
Proof. intros Hp [H1 H2 H3 H4 H5]. constructor; rewrite <-?(total_perm _ _ _ Hp); try done. by rewrite <-Hp. Qed.

Section Accounting.
Context (c : Config).
Hypothesis options_width : maxMessages (options c) < 2 ^ 64 /\ maxRetainedBytes (options c) < 2 ^ 64.

Lemma release_metrics (n b : Z) (s : State) :
  0 <= n <= pending (metrics s) -> 0 <= b <= retainedBytes (metrics s) -> (n = 0 -> b = 0) ->
  pending (metrics s) <= maxMessages (options c) -> retainedBytes (metrics s) <= maxRetainedBytes (options c) ->
  pending (metrics (ReleaseCommit n b s)) = pending (metrics s) - n /\ retainedBytes (metrics (ReleaseCommit n b s)) = retainedBytes (metrics s) - b
  /\ queue (ReleaseCommit n b s) = queue s.
Proof.
  intros Hn Hb H0 H1 H2. unfold ReleaseCommit. destruct (n =? 0) eqn:E; [split; [lia|split; [lia|done]]|]. components. rewrite !HttpParser.size_sub_le by lia. done.
Qed.

Lemma account_exec (f : Frame) (w w' : World) (pushed rest : list Frame) (started : list (list Frame)) :
  Exec c f w pushed started w' -> pump_ok w (f :: rest) -> account_ok c w (f :: rest) -> account_ok c w' (pushed ++ concat started ++ rest).
Proof.
  intros He Hp [H1 H2 H3 H4 H5]. apply Forall_cons in H3 as [H3 H3']. rewrite measure_cons in H1, H2. destruct (owes_total _ H3') as [Ho Ho'].
  pose proof (len_nonneg (queue (state w))) as Hq. pose proof (wires_nonneg (queue (state w))) as Hw.
  destruct He as [ | |w now n r s Hs|w n b next| | |w x n status count bytes s Hs| | | | | | | | | | | | | | | | | | | | |w bytes s Hs|w bytes| | | |].
  3: { pose proof (filter_split (Expired now) (queue (state w))) as [Hf1 Hf2]. pose proof (len_nonneg (List.filter (Expired now) (queue (state w)))) as Hn.
       pose proof (wires_nonneg (List.filter (Expired now) (queue (state w)))) as Hb.
       assert (len (List.filter (Expired now) (queue (state w))) = 0 -> wires (List.filter (Expired now) (queue (state w))) = 0) as H0.
       { destruct (List.filter (Expired now) (queue (state w))) as [|e l]; [done|]. intros HH. exfalso. rewrite len_more in HH. unfold len in HH. lia. }
       unfold DriveSelect in Hs. repeat case_match_in Hs; simplify_eq; (constructor; components; try solve_total; [|done|done]); constructor; done. }
  3: { cbn [owed owed_bytes owes] in *. destruct H3 as (Hn & Hb & H0 & _ & H3). pose proof (owes_nonneg _ H3) as [Hx Hy].
       destruct (release_metrics n b (state w)) as (E1 & E2 & E3); [lia|lia|done|done|done|].
       constructor; components; rewrite ?E1, ?E2, ?E3; try solve_total; [by constructor|lia|lia]. }
  5: { destruct (p_head _ _ Hp x) as [q Hx]; [by pose proof (Forall_inv (p_expects _ _ Hp))|].
       pose proof (wire_nonneg x). unfold DriveSent in Hs. components. rewrite Hx, remove_head in Hs. rewrite Hx in *. rewrite len_more, wires_cons in *.
       destruct (Status.IsOk status || closed (flags (state w))); simplify_eq; constructor; components; rewrite ?Hx, ?len_more, ?wires_cons.
       all: try solve_total; try (repeat case_if; components; done).
       all: constructor; [cbn; lia|done]. }
  25: { unfold HaltTake in Hs. destruct (take_inactive _ _) as [[e q]|] eqn:Et; simplify_eq; [|constructor; components; try done; first [solve_total|by constructor]].
       destruct (take_inactive_spec _ _ _ _ Et) as (a & b & Hq' & -> & _). rewrite Hq' in *. unfold len in *. rewrite length_app in *. cbn [length] in *.
       rewrite wires_app, wires_cons in *. constructor; components; try done; unfold len; rewrite ?length_app, ?wires_app; try solve_total.
       constructor; [apply wire_nonneg|done]. }
  25: { cbn [owed owed_bytes owes] in *. constructor; components; try done; rewrite ?HttpParser.size_sub_le by lia; try solve_total; try lia. by constructor. }
  all: open_sections; unfold after_sent; constructor; rewrite ?reset_retry_state, ?reset_sub_state.
  all: rewrite ?measure_app, ?measure_cons, ?measure_nil, ?retry_total by done; components; try done.
  all: try solve_total; try (repeat case_if; cbn [app]; repeat constructor; done).
  apply Forall_app. split; [apply owes_retry|done].
Qed.

Lemma account_call (w w' : World) (fs : list Frame) (started : list (list Frame)) :
  Call c w started w' -> account_ok c w fs -> account_ok c w' (concat started ++ fs).
Proof.
  intros He [H1 H2 H3 H4 H5]. destruct He as [w now p o status s He|w|w|w sub code Hs|w t x Ht Hp Hc|w t x Ht Hp|w t x stopped Ht Hp Hc|w t x Ht Hp Hc].
  1: apply enqueue_inv in He; destruct He as [status Hs|p' o' a b x Hq Hn Hc Hd Hr|p' o' Hc Hd Hm Hr]; [rewrite Hs|..]; try change (Status.IsOk Status.Ok) with true.
  2: rewrite Hq in H1, H2; unfold len in H1; rewrite length_app in H1; cbn [length] in H1; rewrite wires_app, wires_cons in H2.
  all: constructor; rewrite ?measure_app, ?retry_total by done; components; try done; try lia.
  all: unfold len in *; rewrite ?length_app, ?wires_app, ?wires_cons; cbn [length]; rewrite ?measure_cons, ?measure_nil; cbn [owed owed_bytes].
  all: try (unfold wire in *; cbn [payload] in *; change (wires []) with 0; repeat case_if; rewrite ?measure_cons, ?measure_nil; cbn [owed owed_bytes]; lia).
  all: try (repeat case_if; cbn [app]; repeat constructor; done).
  apply Forall_app. split; [apply owes_retry|done].
Qed.

End Accounting.

(** ** Order *)

(** What is neither sent, replaced, expired nor discarded is in the queue, modulo the width of the counters. *)
Definition balance (m : OutboundMetrics) (q : list Entry) : Prop :=
  (enqueued m - sent m - replaced m - expired m - discarded m - len q) mod 2 ^ 64 = 0.

Record order_ok (w : World) : Prop := MkOrderOk {
  o_slots : StronglySorted Z.lt (map slot (accepted w ++ queue (state w)));
  o_fresh : Forall (fun e => slot e < fresh w) (accepted w ++ queue (state w));
  o_balance : balance (metrics (state w)) (queue (state w))
}.

Lemma balance_tally (m : OutboundMetrics) (q q' : list Entry) (e s r x d : Z) :
  balance m q -> len q' = len q + e - s - r - x - d -> balance (tally e s r x d m) q'.
Proof. unfold balance, wrap64. cbn [tally enqueued sent replaced expired discarded]. unfold wrap64. intros H1 H2. dlia. Qed.

Lemma sorted_sublist (a b : list Z) : a `sublist_of` b -> StronglySorted Z.lt b -> StronglySorted Z.lt a.
Proof.
  induction 1 as [|x a b Hs IH|x a b Hs IH]; intros H; [done| |]; apply StronglySorted_inv in H as [H Hf]; [|auto].
  constructor; [auto|]. apply Forall_forall. intros y Hy. rewrite Forall_forall in Hf. apply Hf. by eapply elem_of_sublist.
Qed.

Lemma order_sublist (acc q acc' q' : list Entry) (n : Z) : (acc' ++ q') `sublist_of` (acc ++ q) ->
  StronglySorted Z.lt (map slot (acc ++ q)) -> Forall (fun e => slot e < n) (acc ++ q) ->
  StronglySorted Z.lt (map slot (acc' ++ q')) /\ Forall (fun e => slot e < n) (acc' ++ q').
Proof.
  intros Hs H1 H2. split; [eapply sorted_sublist; [|exact H1]; by apply (fmap_sublist slot)|].
  apply Forall_forall. intros e He. rewrite Forall_forall in H2. apply H2. by eapply elem_of_sublist.
Qed.

Lemma filter_sublist {A : Type} (p : A -> bool) (l : list A) : List.filter p l `sublist_of` l.
Proof. induction l as [|x l IH]; [done|]. cbn [List.filter]. destruct (p x); by constructor. Qed.

Lemma order_exec (c : Config) (f : Frame) (w w' : World) (pushed rest : list Frame) (started : list (list Frame)) :
  Exec c f w pushed started w' -> pump_ok w (f :: rest) -> order_ok w -> order_ok w'.
Proof.
  intros He Hp [H1 H2 H3].
  destruct He as [ |  | w now n r s Hs | w n b next |  |  | w x n status count bytes s Hs |  |  |  |  |  |  |  |  |  |  |  |  |  |  |  |  |  |  |  |  | w bytes s Hs | w bytes |  |  |  | ].
  3: { pose proof (filter_split (Expired now) (queue (state w))) as [Hf _].
       destruct (order_sublist (accepted w) (queue (state w)) (accepted w) (List.filter (fun e => negb (Expired now e)) (queue (state w))) (fresh w)) as [G1 G2];
         [by apply sublist_app, filter_sublist|done|done|].
       unfold DriveSelect in Hs. repeat case_match_in Hs; simplify_eq; (constructor; [done|done|]); (eapply balance_tally; [exact H3|]); components; lia. }
  3: { unfold ReleaseCommit. case_if; by constructor. }
  5: { destruct (p_head _ _ Hp x) as [q Hx]; [by pose proof (Forall_inv (p_expects _ _ Hp))|].
       unfold DriveSent in Hs. components. rewrite Hx, remove_head in Hs. rewrite Hx in *.
       destruct (Status.IsOk status) eqn:Eo; cbn [orb] in Hs; [|destruct (closed (flags (state w)))]; simplify_eq; constructor; try (eapply balance_tally; [exact H3|]); components; rewrite <-?app_assoc; rewrite ?app_nil_r, ?Hx; try done.
       all: rewrite ?len_more; try lia.
       all: eapply order_sublist; [|exact H1|exact H2]; apply sublist_app; [done|]; by constructor. }
  25: { unfold HaltTake in Hs. destruct (take_inactive _ _) as [[e q]|] eqn:Et; simplify_eq; [|by constructor].
       destruct (take_inactive_spec _ _ _ _ Et) as (a & b & Hq' & -> & _). rewrite Hq' in *.
       destruct (order_sublist (accepted w) (a ++ e :: b) (accepted w) (a ++ b) (fresh w)) as [G1 G2];
         [apply sublist_app; [done|]; apply sublist_app; [done|]; by constructor|done|done|].
       constructor; [done|done|]. eapply balance_tally; [exact H3|]. components. unfold len. rewrite !length_app. cbn [length]. lia. }
  all: open_sections; constructor; rewrite ?reset_retry_state, ?reset_sub_state; components; try done.
  all: by destruct (wakeRetry (state w)), (capacity (state w)).
Qed.

Lemma slots_snoc (l : list Z) (n : Z) : StronglySorted Z.lt l -> Forall (fun x => x < n) l -> StronglySorted Z.lt (l ++ [n]).
Proof.
  induction 1 as [|x l Hs IH Hf]; intros H; [by repeat constructor|]. apply Forall_cons in H as [Hx H]. cbn [app]. constructor; [auto|].
  apply Forall_app. split; [done|by constructor].
Qed.

Lemma order_call (c : Config) (w w' : World) (started : list (list Frame)) : Call c w started w' -> order_ok w -> order_ok w'.
Proof.
  intros He [H1 H2 H3]. destruct He as [w now p o status s He| | | | | | |].
  2-8: by constructor.
  assert (Forall (fun e => slot e < fresh w + 1) (accepted w ++ queue (state w))) as H2' by (eapply Forall_impl; [exact H2|]; cbn; lia).
  apply enqueue_inv in He. destruct He as [status Hs|p' o' a b x Hq _ _ _ _|p' o' _ _ _ _]; constructor; components; try done.
  - rewrite Hq in H1. rewrite !map_app in *. cbn [map slot] in *. done.
  - rewrite Hq in H2'. rewrite !Forall_app, !Forall_cons in *. cbn [slot]. tauto.
  - apply balance_tally with (q := queue (state w)); [done|]. rewrite Hq. unfold len. rewrite !length_app. cbn [length]. lia.
  - rewrite app_assoc, map_app. apply slots_snoc; [done|]. apply Forall_fmap. eapply Forall_impl; [exact H2|]. done.
  - rewrite app_assoc. apply Forall_app. split; [done|]. constructor; [cbn; lia|done].
  - apply balance_tally with (q := queue (state w)); [done|]. unfold len. rewrite !length_app. cbn [length]. lia.
Qed.

(** ** Finishing *)

(** Frames on the way to [FinishIfReady]. *)
Fixpoint finisher (f : Frame) : Z := match f with FFinish | FHalt _ => 1 | FRelease _ _ next => finisher next | _ => 0 end.

Lemma finisher_range (f : Frame) : 0 <= finisher f.
Proof. induction f; cbn; lia. Qed.

Record finish_ok (w : World) (fs : list Frame) : Prop := MkFinishOk {
  f_terminal : terminal (flags (state w)) = true ->
    queue (state w) = [] /\ pending (metrics (state w)) = 0 /\ halting (flags (state w)) = false
    /\ closed (flags (state w)) || draining (flags (state w)) = true /\ completions w = [result (state w)];
  f_open : terminal (flags (state w)) = false -> completions w = [];
  f_ready : terminal (flags (state w)) = false -> pumping (flags (state w)) = false -> active (state w) = None ->
    halting (flags (state w)) = false -> pending (metrics (state w)) = 0 ->
    closed (flags (state w)) || draining (flags (state w)) = true -> 1 <= total finisher fs
}.

Lemma finish_ok_perm (w : World) (a b : list Frame) : a ≡ₚ b -> finish_ok w a -> finish_ok w b.
Proof. intros Hp [H1 H2 H3]. constructor; rewrite <-?(total_perm _ _ _ Hp); done. Qed.

Lemma reset_sub_completions (o : option Z) (w : World) : completions (reset_sub o w) = completions w.
Proof. by destruct o. Qed.
Lemma reset_retry_completions (o : option Z) (w : World) : completions (reset_retry o w) = completions w.
Proof. by destruct o. Qed.

Lemma finish_release (c : Config) (n b : Z) (next : Frame) (w : World) (rest : list Frame) :
  pump_ok w (FRelease n b next :: rest) -> account_ok c w (FRelease n b next :: rest) -> finish_ok w (FRelease n b next :: rest) ->
  finish_ok (with_state (ReleaseCommit n b (state w)) w) (next :: rest).
Proof.
  intros Hp Ha [H1 H2 H3]. pose proof (p_owner _ _ Hp) as Po. rewrite measure_cons in Po. pose proof (measure_nonneg owner rest owner_range).
  pose proof (Forall_inv (a_owes _ _ _ Ha)) as (Hn & Hb & _ & Hw & Hx). cbn [owner] in Po. rewrite Hw in Po. pose proof (a_pending _ _ _ Ha) as Hq.
  rewrite measure_cons in Hq. cbn [owed] in Hq. apply owes_nonneg in Hx as [Hx _]. pose proof (Forall_inv_tail (a_owes _ _ _ Ha)) as Hy.
  apply owes_total in Hy as [Hy _]. pose proof (len_nonneg (queue (state w))). unfold ReleaseCommit.
  constructor; components; (destruct (n =? 0) eqn:En; components); try done.
  - intros Ht. apply H1 in Ht as (_ & Hz & _). lia.
  - intros _ Hpm. rewrite Hpm in Po. cbn [Z.b2z] in Po. lia.
Qed.

(** A pump that sends has an entry, a thread that halts sees the flag: neither is there in the end. *)
Lemma terminal_quiet (w : World) (f : Frame) (rest : list Frame) : pump_ok w (f :: rest) -> finish_ok w (f :: rest) -> terminal (flags (state w)) = true ->
  halter f = 0 /\ active (state w) = None.
Proof.
  intros Hp Hf Ht. destruct (f_terminal _ _ Hf Ht) as (Hq & _ & Hh & _). split.
  - pose proof (p_halter _ _ Hp) as Ph. rewrite measure_cons, Hh in Ph. cbn [Z.b2z] in Ph. pose proof (halter_range f). pose proof (measure_nonneg halter rest halter_range). lia.
  - destruct (active (state w)) as [e|] eqn:E; [|done]. destruct (p_head _ _ Hp e E) as [q Hx]. congruence.
Qed.

(** Nothing pending: the queue is empty. *)
Lemma account_empty (c : Config) (w : World) (fs : list Frame) : account_ok c w fs -> pending (metrics (state w)) = 0 -> queue (state w) = [].
Proof.
  intros Ha H0. pose proof (a_pending _ _ _ Ha) as H. destruct (owes_total _ (a_owes _ _ _ Ha)) as [Ho _].
  destruct (queue (state w)) as [|e q]; [done|]. rewrite len_more in H. pose proof (len_nonneg q). lia.
Qed.

Lemma finish_exec (c : Config) (f : Frame) (w w' : World) (pushed rest : list Frame) (started : list (list Frame)) :
  Exec c f w pushed started w' -> pump_ok w (f :: rest) -> account_ok c w (f :: rest) -> finish_ok w (f :: rest) -> finish_ok w' (pushed ++ concat started ++ rest).
Proof.
  intros He Hp Ha Hf.
  destruct He as [ |  |  | w n b next |  |  |  |  |  |  |  |  |  |  |  |  |  |  |  |  |  |  |  |  |  |  |  |  |  |  |  |  | ]; [..|by apply (finish_release c)| | | | | | | | | | | | | | | | | | | | | | | | | | | | |].
  all: open_sections; unfold after_sent; pose proof (p_owner _ _ Hp) as Po; pose proof (p_halter _ _ Hp) as Ph; pose proof (terminal_quiet _ _ _ Hp Hf) as Hq.
  all: destruct Hf as [H1 H2 H3]; rewrite measure_cons in Po, Ph, H3; cbn [owner halter finisher] in *.
  all: pose proof (measure_nonneg owner rest owner_range); pose proof (measure_nonneg halter rest halter_range); pose proof (measure_nonneg finisher rest finisher_range).
  all: constructor; rewrite ?reset_retry_state, ?reset_sub_state, ?reset_retry_completions, ?reset_sub_completions; components.
  all: try done.
  all: try (intros Ht Hpm Hac Hh Hpd Hcl; rewrite ?measure_app, ?measure_cons, ?measure_nil, ?retry_total by done; cbn [finisher];
    first [ lia | exfalso; rewrite Hpm in Po; cbn [Z.b2z] in Po; lia | exfalso; rewrite Hh in Ph; cbn [Z.b2z] in Ph; lia
          | specialize (H3 Ht Hpm Hac Hh Hpd Hcl); repeat case_if; rewrite ?measure_cons, ?measure_nil; cbn [finisher]; lia ]).
  all: try (intros Ht; destruct (Hq Ht) as [Hz Hy]; first [discriminate Hz | pose proof (Forall_inv (p_expects _ _ Hp)) as Hx; unfold agrees in Hx; cbn [expects] in Hx; congruence]).
  all: try (intros Ht; pose proof (H1 Ht) as (G & ?); rewrite G; done).
  all: try (intros Ht; rewrite Ht in E; discriminate E).
  1-2: intros _; rewrite !andb_true_iff, !negb_true_iff, Z.eqb_eq in E; destruct E as (((((E1 & E2) & E3) & E4) & E5) & E6);
    (split; [by apply (account_empty c _ _ Ha)|]); rewrite (H2 E1), E0; done.
  1-2: by rewrite app_nil_r.
  intros Ht Hpm Hac Hh Hpd Hcl. rewrite Ht, Hpm, Hh, Hcl, Hac, Hpd, bool_decide_eq_true_2 in E by done. discriminate E.
Qed.

Lemma finish_call (c : Config) (w w' : World) (fs : list Frame) (started : list (list Frame)) :
  Call c w started w' -> finish_ok w fs -> finish_ok w' (concat started ++ fs).
Proof.
  intros He [H1 H2 H3]. pose proof (measure_nonneg finisher fs finisher_range).
  destruct He as [w now p o status s He|w|w|w sub code Hs|w t x Ht Hp Hc|w t x Ht Hp|w t x stopped Ht Hp Hc|w t x Ht Hp Hc].
  1: apply enqueue_inv in He; destruct He as [status Hs|p' o' a b x Hq Hn Hc Hd Hr|p' o' Hc Hd Hm Hr]; [rewrite Hs; by constructor|..].
  all: constructor; components; rewrite ?measure_app, ?retry_total by done; try done.
  all: try (intros Hx; destruct (H1 Hx) as (_ & _ & _ & Hy & _); rewrite Hc, Hd in Hy; done).
  all: try (rewrite Hc, Hd; done).
  - intros Hx. destruct (H1 Hx) as (? & ? & ? & Hy & ?). repeat split; try done. by destruct (closed _).
  - intros. rewrite ?measure_cons, ?measure_nil. cbn [finisher]. lia.
  - intros. rewrite ?measure_cons, ?measure_nil. cbn [finisher]. lia.
  - intros. specialize (H3 ltac:(done) ltac:(done) ltac:(done) ltac:(done) ltac:(done) ltac:(done)). case_if; cbn [app]; rewrite ?measure_cons, ?measure_nil; cbn [finisher]; lia.
  - intros. specialize (H3 ltac:(done) ltac:(done) ltac:(done) ltac:(done) ltac:(done) ltac:(done)). case_if; cbn [app]; rewrite ?measure_cons, ?measure_nil; cbn [finisher]; lia.
Qed.
