(* ===== verification/OutboundRuns.v ===== *)
(** * Runtime: wake-ups of the outbound queue, and its runs.

    The threads of [OutboundQueue]: while messages wait in an open queue, something will wake the pump, unless a
    wake-up had to be deferred because the scheduler was full; what every run keeps; and a run in which two
    deferred wake-ups overlap and messages are left waiting. *)

From stdpp Require Import gmap sorting.
From S2P Require Import Prelude CoreError OutboundQueue.
Import OutboundQueue.
#[local] Open Scope Z_scope.

(** ** Wake-ups *)

(** Frames that will pump or halt; a timer's frame does when its generation is current. *)
Fixpoint waker (g : Z) (f : Frame) : Z :=
  match f with FDrive | FHalt _ => 1 | FTimer h => if h =? g then 1 else 0 | FRelease _ _ next => waker g next | _ => 0 end.
Fixpoint stopper (f : Frame) : Z := match f with FHalt _ => 1 | FRelease _ _ next => stopper next | _ => 0 end.

(** The pump has no capacity wait; a timer is to be cancelled; a wait is to be stored; the pump is about to end. *)
Fixpoint without_wait (f : Frame) : bool :=
  match f with
  | FSelect _ | FSend _ _ | FSent _ _ _ | FAfter _ _ _ | FCheck _ _ | FWait _ _ | FStore _ _ => true
  | FRelease _ _ next => without_wait next
  | _ => false
  end.
Fixpoint cancels (f : Frame) : bool := match f with FCancel _ => true | FRelease _ _ next => cancels next | _ => false end.
Fixpoint stores (f : Frame) : option Z := match f with FStore sub _ => Some sub | FRelease _ _ next => stores next | _ => None end.
Fixpoint ending (f : Frame) : option bool := match f with FNext b => Some b | FRelease _ _ next => ending next | _ => None end.

Definition wakers (w : World) (fs : list Frame) : Z := total (waker (timerGeneration (state w))) fs.

(** A capacity wait that has not fired; a wake-up timer that has not run. *)
Definition live_capacity (w : World) : Prop := exists sub, capacity (state w) = Some sub /\ sub ∈ subs w.
Definition awaited (x : Timer) : Prop := phase x = Waiting \/ phase x = Dispatched.
Definition live_timer (w : World) : Prop :=
  exists t x, timer (state w) = Some t /\ timers w !! t = Some x /\ awaited x /\ cancelled x = false /\ generation x = timerGeneration (state w).

Record wake_ok (w : World) (fs : list Frame) : Prop := MkWakeOk {
  w_deferrals : 0 <= deferrals w;
  w_none : Forall (fun f => without_wait f = true -> capacity (state w) = None) fs;
  w_cancels : Forall (fun f => cancels f = true -> closed (flags (state w)) = true) fs;
  w_timer : deferrals w = 0 -> closed (flags (state w)) = false -> terminal (flags (state w)) = false ->
    forall t x, timer (state w) = Some t -> timers w !! t = Some x -> awaited x ->
      cancelled x = false /\ (generation x = timerGeneration (state w) \/ 1 <= total stopper fs);
  w_store : deferrals w = 0 -> closed (flags (state w)) = false -> terminal (flags (state w)) = false ->
    Forall (fun f => forall sub, stores f = Some sub -> changed (flags (state w)) = true \/ sub ∈ subs w \/ 1 <= wakers w fs) fs;
  w_ending : deferrals w = 0 -> closed (flags (state w)) = false -> queue (state w) <> [] ->
    Forall (fun f => ending f = Some false -> changed (flags (state w)) = true \/ live_capacity w \/ 1 <= wakers w fs) fs;
  w_idle : deferrals w = 0 -> closed (flags (state w)) = false -> queue (state w) <> [] -> pumping (flags (state w)) = false ->
    live_capacity w \/ live_timer w \/ 1 <= wakers w fs
}.

Lemma wakers_perm (w : World) (a b : list Frame) : a ≡ₚ b -> wakers w a = wakers w b.
Proof. apply total_perm. Qed.

Lemma wake_ok_perm (w : World) (a b : list Frame) : a ≡ₚ b -> wake_ok w a -> wake_ok w b.
Proof.
  intros Hp [H1 H2 H3 H4 H5 H6 H7]. constructor; rewrite <-?(wakers_perm _ _ _ Hp), <-?(total_perm stopper _ _ Hp); try done; by rewrite <-Hp.
Qed.

Lemma waker_range (g : Z) (f : Frame) : 0 <= waker g f.
Proof. induction f; cbn; try lia. case_if; lia. Qed.

Lemma stopper_range (f : Frame) : 0 <= stopper f.
Proof. induction f; cbn; lia. Qed.

Lemma stopper_waker (g : Z) (fs : list Frame) : total stopper fs <= total (waker g) fs.
Proof.
  induction fs as [|f fs IH]; [done|]. rewrite !measure_cons. assert (stopper f <= waker g f); [|lia]. induction f; cbn; try lia. case_if; lia.
Qed.

Lemma no_owner_frames (fs : list Frame) : total owner fs = 0 ->
  Forall (fun f => without_wait f = false /\ stores f = None /\ ending f = None) fs.
Proof.
  induction fs as [|f fs IH]; intros H; [constructor|]. rewrite measure_cons in H. pose proof (owner_range f). pose proof (measure_nonneg owner fs owner_range).
  constructor; [|apply IH; lia]. assert (owner f = 0) as Hf by lia. clear -Hf. induction f; cbn in *; done || auto.
Qed.

(** *** Steps in general *)

Definition none_ok (w : World) (f : Frame) : Prop := without_wait f = true -> capacity (state w) = None.
Definition cancels_ok (w : World) (f : Frame) : Prop := cancels f = true -> closed (flags (state w)) = true.

Lemma wake_closed (w : World) (fs : list Frame) :
  0 <= deferrals w -> Forall (none_ok w) fs -> closed (flags (state w)) = true -> wake_ok w fs.
Proof. intros H1 H2 H3. constructor; try done; try (intros; congruence). by apply Forall_true. Qed.

Lemma wake_done (w : World) (fs : list Frame) :
  0 <= deferrals w -> Forall (none_ok w) fs -> Forall (cancels_ok w) fs -> terminal (flags (state w)) = true -> queue (state w) = [] -> wake_ok w fs.
Proof. intros H1 H2 H3 H4 H5. constructor; try done; intros; congruence. Qed.

(** A step of the pump after which it still pumps: only its own frames matter. *)
Lemma wake_pump (w w' : World) (f : Frame) (pushed rest : list Frame) :
  wake_ok w (f :: rest) -> total owner rest = 0 -> stopper f = 0 -> pumping (flags (state w')) = true ->
  deferrals w' = deferrals w -> timer (state w') = timer (state w) -> timers w' = timers w -> timerGeneration (state w') = timerGeneration (state w) ->
  closed (flags (state w')) = closed (flags (state w)) -> terminal (flags (state w')) = terminal (flags (state w)) ->
  Forall (none_ok w') pushed -> Forall (fun f => cancels f = false) pushed ->
  (deferrals w = 0 -> closed (flags (state w)) = false -> terminal (flags (state w)) = false ->
     Forall (fun f => forall sub, stores f = Some sub -> changed (flags (state w')) = true \/ sub ∈ subs w' \/ 1 <= wakers w' (pushed ++ rest)) pushed) ->
  (deferrals w = 0 -> closed (flags (state w)) = false -> queue (state w') <> [] ->
     Forall (fun f => ending f = Some false -> changed (flags (state w')) = true \/ live_capacity w' \/ 1 <= wakers w' (pushed ++ rest)) pushed) ->
  wake_ok w' (pushed ++ rest).
Proof.
  intros [H1 H2 H3 H4 H5 H6 H7] Hr Hs Hp Hd Ht Hts Hg Hc Hterm Hn Hx Hst He. apply no_owner_frames in Hr. constructor.
  - by rewrite Hd.
  - apply Forall_app. split; [done|]. eapply Forall_impl; [exact Hr|]. intros g (Hg' & _). congruence.
  - apply Forall_app. split; [eapply Forall_impl; [exact Hx|]; cbn; congruence|]. rewrite Hc. by apply Forall_inv_tail in H3.
  - rewrite Hd, Ht, Hts, Hg, Hc, Hterm, measure_app. intros D C T t x G1 G2 G3. destruct (H4 D C T t x G1 G2 G3) as [G4 G5]. split; [done|].
    rewrite measure_cons, Hs in G5. pose proof (measure_nonneg stopper pushed stopper_range). destruct G5; [by left|right; lia].
  - rewrite Hd, Hc, Hterm. intros D C T. apply Forall_app. split; [by apply Hst|]. eapply Forall_impl; [exact Hr|]. intros g (_ & Hg' & _). congruence.
  - rewrite Hd, Hc. intros D C T. apply Forall_app. split; [by apply He|]. eapply Forall_impl; [exact Hr|]. intros g (_ & _ & Hg'). congruence.
  - congruence.
Qed.

(** A step of the pump with which it gives up the pump. *)
Lemma wake_release (w w' : World) (f : Frame) (pushed rest : list Frame) :
  wake_ok w (f :: rest) -> total owner rest = 0 -> 0 <= deferrals w' ->
  closed (flags (state w')) = closed (flags (state w)) ->
  Forall (fun f => without_wait f = false /\ cancels f = false /\ stores f = None /\ ending f = None) pushed ->
  (deferrals w' = 0 -> closed (flags (state w)) = false -> terminal (flags (state w')) = false ->
     forall t x, timer (state w') = Some t -> timers w' !! t = Some x -> awaited x ->
       cancelled x = false /\ (generation x = timerGeneration (state w') \/ 1 <= total stopper (pushed ++ rest))) ->
  (deferrals w' = 0 -> closed (flags (state w)) = false -> queue (state w') <> [] ->
     live_capacity w' \/ live_timer w' \/ 1 <= wakers w' (pushed ++ rest)) ->
  wake_ok w' (pushed ++ rest).
Proof.
  intros [H1 H2 H3 H4 H5 H6 H7] Hr Hd Hc Hp Ht Hi. apply no_owner_frames in Hr. constructor.
  - done.
  - apply Forall_app. split; [eapply Forall_impl; [exact Hp|]|eapply Forall_impl; [exact Hr|]]; intros g (Hg' & _); congruence.
  - apply Forall_app. split; [eapply Forall_impl; [exact Hp|]; intros g (_ & Hg' & _); congruence|]. rewrite Hc. by apply Forall_inv_tail in H3.
  - by rewrite Hc.
  - intros _ _ _. apply Forall_app. split; [eapply Forall_impl; [exact Hp|]|eapply Forall_impl; [exact Hr|]]; naive_solver congruence.
  - intros _ _ _. apply Forall_app. split; [eapply Forall_impl; [exact Hp|]|eapply Forall_impl; [exact Hr|]]; naive_solver congruence.
  - rewrite Hc. intros D C Q _. by apply Hi.
Qed.

(** The timers that are waited for are the same ones. *)
Definition awaited_as (w : World) (t g : Z) (k : bool) : Prop := exists x, timers w !! t = Some x /\ awaited x /\ generation x = g /\ cancelled x = k.

(** A step of another thread: it changes nothing the others wait for, and what it was to wake it wakes or hands on. *)
Lemma wake_other (w w' : World) (old pushed rest : list Frame) :
  wake_ok w (old ++ rest) -> 
  capacity (state w') = capacity (state w) -> subs w ⊆ subs w' -> queue (state w') = queue (state w) ->
  pumping (flags (state w')) = pumping (flags (state w)) -> timer (state w') = timer (state w) ->
  timerGeneration (state w') = timerGeneration (state w) -> deferrals w' = deferrals w -> closed (flags (state w')) = closed (flags (state w)) ->
  (terminal (flags (state w')) = false -> terminal (flags (state w)) = false) ->
  (changed (flags (state w)) = true -> changed (flags (state w')) = true) ->
  (forall t g k, awaited_as w' t g k -> awaited_as w t g k) -> (forall t g, awaited_as w t g false -> awaited_as w' t g false) ->
  Forall (fun f => without_wait f = false /\ cancels f = false /\ stores f = None /\ ending f = None) pushed ->
  total stopper old <= total stopper pushed ->
  (wakers w old <= wakers w pushed \/ (changed (flags (state w')) = true /\ pumping (flags (state w')) = true)) ->
  wake_ok w' (pushed ++ rest).
Proof.
  intros [H1 H2 H3 H4 H5 H6 H7] Hcap Hsub Hq Hpm Ht Hg Hd Hc Hterm Hch Hts Hts' Hp Hst Hw.
  assert (live_capacity w -> live_capacity w') as Hl by (intros (sub & G1 & G2); exists sub; rewrite Hcap; split; [done|set_solver]).
  apply Forall_app in H2 as [_ H2], H3 as [_ H3]. constructor.
  - lia.
  - rewrite Hcap. apply Forall_app. split; [eapply Forall_impl; [exact Hp|]; intros g (Hg' & _); congruence|done].
  - rewrite Hc. apply Forall_app. split; [eapply Forall_impl; [exact Hp|]; intros g (_ & Hg' & _); congruence|done].
  - rewrite Hd, Hc, Ht, Hg, measure_app. intros D C T t x G1 G2 G3.
    destruct (Hts t (generation x) (cancelled x) (ex_intro _ x (conj G2 (conj G3 (conj eq_refl eq_refl))))) as (y & F1 & F2 & F3 & F4).
    destruct (H4 D C (Hterm T) t y G1 F1 F2) as [F5 F6]. rewrite measure_app in F6. split; [congruence|]. destruct F6; [left; congruence|right; lia].
  - rewrite Hd, Hc. intros D C T. specialize (H5 D C (Hterm T)). apply Forall_app in H5 as [_ H5]. apply Forall_app. split.
    + eapply Forall_impl; [exact Hp|]. intros g (_ & _ & Hg' & _). congruence.
    + eapply Forall_impl; [exact H5|]. intros g Hgs sub Hs. destruct (Hgs sub Hs) as [G|[G|G]]; [by left; auto|right; left; set_solver|].
      unfold wakers in *. rewrite Hg, measure_app in *. destruct Hw as [Hw|[Hw _]]; [right; right; lia|by left].
  - rewrite Hd, Hc, Hq. intros D C Q. specialize (H6 D C Q). apply Forall_app in H6 as [_ H6]. apply Forall_app. split.
    + eapply Forall_impl; [exact Hp|]. intros g (_ & _ & _ & Hg'). congruence.
    + eapply Forall_impl; [exact H6|]. intros g Hgs Hs. destruct (Hgs Hs) as [G|[G|G]]; [by left; auto|right; left; auto|].
      unfold wakers in *. rewrite Hg, measure_app in *. destruct Hw as [Hw|[Hw _]]; [right; right; lia|by left].
  - rewrite Hd, Hc, Hq, Hpm. intros D C Q Pm. destruct (H7 D C Q Pm) as [G|[(t & x & G1 & G2 & G3 & G4 & G5)|G]]; [by left; auto|right; left|right; right].
    + destruct (Hts' t (generation x) (ex_intro _ x (conj G2 (conj G3 (conj eq_refl G4))))) as (y & F1 & F2 & F3 & F4).
      exists t, y. rewrite Ht, Hg. repeat split; try done; congruence.
    + unfold wakers in *. rewrite Hg, measure_app in *. destruct Hw as [Hw|[_ Hw]]; [lia|congruence].
Qed.

Lemma fold_earliest_some (q : list Entry) (n : Z) : is_Some (fold_left earliest q (Some n)).
Proof.
  revert n. induction q as [|e q IH]; intros n; [done|]. cbn [fold_left]. unfold earliest at 2. destruct (expires (entryOptions e)) as [d|]; apply IH.
Qed.

Lemma owner_step (w : World) (f : Frame) (rest : list Frame) : pump_ok w (f :: rest) -> owner f = 1 ->
  total owner rest = 0 /\ pumping (flags (state w)) = true.
Proof.
  intros Hp Hf. pose proof (p_owner _ _ Hp) as H. rewrite measure_cons, Hf in H. pose proof (measure_nonneg owner rest owner_range).
  destruct (pumping _); cbn [Z.b2z] in H; [split; [lia|done]|lia].
Qed.

Lemma halt_wakes (w : World) (code : ErrorCode) (b : bool) (rest : list Frame) : 1 <= wakers w ([FHalt code; FNext b] ++ rest).
Proof. unfold wakers. rewrite measure_app, !measure_cons, measure_nil. pose proof (measure_nonneg _ rest (waker_range (timerGeneration (state w)))). cbn [waker]. lia. Qed.

(** Frames after which the thread still pumps. *)
Definition keeps (f : Frame) : bool :=
  match f with
  | FPrevious | FSelect _ | FSend _ _ | FSent _ _ _ | FAfter _ _ _ | FCheck _ _ | FWait _ _ | FStore _ _ | FOld _ => true
  | _ => false
  end.

Lemma wake_exec_pump (c : Config) (f : Frame) (w w' : World) (pushed rest : list Frame) (started : list (list Frame)) :
  Exec c f w pushed started w' -> keeps f = true -> pump_ok w (f :: rest) -> finish_ok w (f :: rest) -> wake_ok w (f :: rest) -> started = [] /\ wake_ok w' (pushed ++ rest).
Proof.
  intros He Hk Hp Hf Hw. destruct (owner_step _ _ _ Hp) as [Hr Hpm]; [by destruct f|]. pose proof (Forall_inv (w_none _ _ Hw)) as Hn. cbn beta in Hn.
  destruct He; try discriminate Hk; (split; [done|]).
  all: eapply wake_pump; [exact Hw|done|done|..]; rewrite ?reset_sub_state.
  all: try (open_sections; components; repeat case_if; components; try (by destruct (capacity (state w))); done).
  all: try (unfold after_sent; repeat case_if; by repeat constructor).
  all: unfold none_ok; rewrite ?reset_sub_state.
  all: try (unfold after_sent; repeat case_if; repeat constructor; cbn [without_wait] in *; components; auto; done).
  1-4: unfold DriveSelect in H; repeat case_match_in H; simplify_eq; components; try (repeat constructor; cbn [without_wait cancels stores ending] in *; auto; done).
  - intros _ C _. constructor; [|constructor]. cbn [ending]. by rewrite C.
  - constructor; [|constructor]. intros _. open_sections; components; by apply Hn.
  - intros _ _ _. unfold after_sent. case_if; [by constructor|]. case_if; [by constructor|].
    constructor; [done|]. constructor; [|done]. intros _. right. right. apply halt_wakes.
  - intros _ _ _. constructor; [|constructor]. intros sub' [= <-]. right. left. components. set_solver.
  - intros _ _ _. constructor; [done|]. constructor; [|done]. intros _. right. right. apply halt_wakes.
  - intros D C Q. unfold DriveStore in H. rewrite C in H. injection H as <- <- <-. destruct (changed (flags (state w))) eqn:Ech; [by constructor|].
    constructor; [|done]. intros _. right. rewrite (Hn eq_refl).
    assert (terminal (flags (state w)) = false) as T by (destruct (terminal (flags (state w))) eqn:T; [by destruct (f_terminal _ _ Hf T)|done]).
    pose proof (Forall_inv (w_store _ _ Hw D C T) sub eq_refl) as [G|[G|G]]; [congruence|left; by exists sub|right].
    unfold wakers in *. rewrite measure_cons in *. cbn [app reset_sub]. rewrite measure_cons. components. cbn [waker] in *. lia.
Qed.

Lemma wakers_cons (w : World) (f : Frame) (fs : list Frame) : wakers w (f :: fs) = waker (timerGeneration (state w)) f + wakers w fs.
Proof. done. Qed.

Lemma wakers_nonneg (w : World) (fs : list Frame) : 0 <= wakers w fs.
Proof. apply measure_nonneg, waker_range. Qed.

(** The pump ends without a time to wake up: what waits is waited for. *)
Lemma wake_exec_next (c : Config) (now : Z) (b : bool) (next : option Z) (s : State) (w : World) (rest : list Frame) :
  DriveNext now b (state w) = (next, s) -> pump_ok w (FNext b :: rest) -> wake_ok w (FNext b :: rest) ->
  wake_ok (with_state s w) (match next with Some due => [FArm due] | None => [FFinish] end ++ rest).
Proof.
  intros H Hp Hw. destruct (owner_step _ _ _ Hp eq_refl) as [Hr Hpm]. unfold DriveNext in H. injection H as <- <-.
  destruct (if closed (flags (state w)) then None else _) as [due|] eqn:E.
  - eapply wake_pump; [exact Hw|done|done|done|done|done|done|done|done|done|..]; by repeat constructor.
  - eapply wake_release; [exact Hw|done|by destruct Hw|done|by repeat constructor| |].
    + intros D C T t x G1 G2 G3. destruct (w_timer _ _ Hw D C T t x G1 G2 G3) as [G4 G5]. by split.
    + components. intros D C Q. rewrite C in E.
      destruct (b || changed (flags (state w))) eqn:Eb; [destruct (fold_earliest_some (queue (state w)) now) as [y Hy]; congruence|].
      apply orb_false_iff in Eb as [-> Ech]. destruct (Forall_inv (w_ending _ _ Hw D C Q) eq_refl) as [G|[G|G]]; [congruence|by left|by right; right].
Qed.

Lemma open_waiting (w : World) (fs : list Frame) : finish_ok w fs -> queue (state w) <> [] -> terminal (flags (state w)) = false.
Proof. intros Hf Q. destruct (terminal (flags (state w))) eqn:T; [|done]. by destruct (f_terminal _ _ Hf T). Qed.

(** The waiting timer is moved. *)
Lemma wake_arm_moved (d due : Z) (w : World) (rest : list Frame) :
  Ready (timer_of w) = true -> pump_ok w (FArm d :: rest) -> finish_ok w (FArm d :: rest) -> wake_ok w (FArm d :: rest) ->
  wake_ok (with_timers (match timer (state w) with Some t => alter (move_timer due) t (timers w) | None => timers w end)
    (with_state (set_pumping false (state w)) w)) ([FFinish] ++ rest).
Proof.
  intros Hm Hp Hf Hw. destruct (owner_step _ _ _ Hp eq_refl) as [Hr Hpm]. unfold timer_of in Hm.
  destruct (timer (state w)) as [t|] eqn:Et; [|done]. destruct (timers w !! t) as [x|] eqn:Ex; [|done]. unfold Ready in Hm.
  apply andb_true_iff in Hm as [Hx1 Hx2]. apply bool_decide_eq_true in Hx1. apply negb_true_iff in Hx2.
  eapply wake_release; [exact Hw|done|by destruct Hw|done|by repeat constructor|..]; components; intros D C.
  - intros T t0 y G1 G2 G3. rewrite Et in G1. injection G1 as <-. rewrite lookup_alter_eq, Ex in G2. injection G2 as <-.
    destruct (w_timer _ _ Hw D C T t x Et Ex (or_introl Hx1)) as [G4 G5]. by split.
  - intros Q. destruct (w_timer _ _ Hw D C (open_waiting _ _ Hf Q) t x Et Ex (or_introl Hx1)) as [_ [G5|G5]].
    + right. left. exists t, (move_timer due x). components. rewrite lookup_alter_eq, Ex. repeat split; try done. by left.
    + right. right. rewrite measure_cons in G5. pose proof (stopper_waker (timerGeneration (state w)) rest). unfold wakers. components. rewrite measure_cons. cbn [stopper waker] in *. lia.
Qed.

Lemma wake_exec_arm (c : Config) (d : Z) (w w' : World) (pushed rest : list Frame) (started : list (list Frame)) :
  Exec c (FArm d) w pushed started w' -> pump_ok w (FArm d :: rest) -> finish_ok w (FArm d :: rest) -> wake_ok w (FArm d :: rest) ->
  started = [] /\ wake_ok w' (pushed ++ rest).
Proof.
  intros He Hp Hf Hw. destruct (owner_step _ _ _ Hp eq_refl) as [Hr Hpm]. pose proof (w_deferrals _ _ Hw) as Hd.
  inversion He as [| | | | | | | | | | | | | | |w0 now d0 due answer moved s Ha|w0 now d0 due id s Hn Ha|w0 now d0 code running gen s Ha|w0 now d0 answer code s Ha
    | | | | | | | | | | | | | |]; subst; (split; [done|]); unfold Arm in Ha.
  - destruct (closed (flags (state w))) eqn:Ec.
    { injection Ha as <- <- <-. eapply wake_release; [exact Hw|done|done|done|by repeat constructor|..]; congruence. }
    destruct (Ready (timer_of w)) eqn:Em; [injection Ha as <- <- <-; by apply (wake_arm_moved d)|]. repeat case_match_in Ha; discriminate Ha.
  - destruct (closed (flags (state w))) eqn:Ec; [discriminate Ha|]. destruct (Ready (timer_of w)); [discriminate Ha|]. injection Ha as <- <-.
    eapply wake_release; [exact Hw|done|done|done|by repeat constructor|..]; components; intros D C.
    + intros T t x [= <-]. rewrite lookup_insert_eq. intros [= <-] _. split; [done|by left].
    + intros Q. right. left. eexists _, _. components. rewrite lookup_insert_eq. repeat split; try done. by left.
  - eapply wake_release; [exact Hw|done| | |by repeat constructor|..]; components.
    + lia.
    + repeat case_match_in Ha; try discriminate Ha. by injection Ha as <- <- <-.
    + intros D. lia.
    + intros D. lia.
  - assert (s = set_pumping false (set_generation (wrap64 (timerGeneration (state w) + 1)) (state w))) as ->.
    { repeat case_match_in Ha; try discriminate Ha; by injection Ha as <- <-. }
    eapply wake_release; [exact Hw|done|done|done|by repeat constructor|..]; components; intros D C.
    + intros T t x G1 G2 G3. destruct (w_timer _ _ Hw D C T t x G1 G2 G3) as [G4 _]. split; [done|right]. cbn [app]. rewrite measure_cons.
      pose proof (measure_nonneg stopper (FFinish :: rest) stopper_range). cbn [stopper]. lia.
    + intros Q. right. right. cbn [app]. rewrite wakers_cons. match goal with |- context [wakers ?u ?l] => pose proof (wakers_nonneg u l) end. cbn [waker]. lia.
Qed.

Lemma wake_exec_catch (w : World) (rest : list Frame) : pump_ok w (FCatch :: rest) -> wake_ok w (FCatch :: rest) ->
  wake_ok (with_state (DriveCatch (state w)) w) ([FHalt PlatformError] ++ rest).
Proof.
  intros Hp Hw. destruct (owner_step _ _ _ Hp eq_refl) as [Hr Hpm].
  eapply wake_release; [exact Hw|done|by destruct Hw|done|by repeat constructor|..]; components; intros D C.
  - intros T t x G1 G2 G3. destruct (w_timer _ _ Hw D C T t x G1 G2 G3) as [G4 _]. split; [done|right]. rewrite measure_cons.
    pose proof (measure_nonneg stopper rest stopper_range). cbn [stopper]. lia.
  - intros Q. right. right. rewrite wakers_cons. match goal with |- context [wakers ?u ?l] => pose proof (wakers_nonneg u l) end. cbn [waker]. lia.
Qed.

(** Refunding changes nothing that is waited for. *)
Lemma wake_exec_release (n b : Z) (next : Frame) (w : World) (rest : list Frame) : wake_ok w (FRelease n b next :: rest) ->
  wake_ok (with_state (ReleaseCommit n b (state w)) w) (next :: rest).
Proof.
  intros [H1 H2 H3 H4 H5 H6 H7]. unfold ReleaseCommit.
  destruct (n =? 0); constructor; unfold live_capacity, live_timer, wakers in *; components; try done.
  all: try (apply Forall_cons in H2 as [? ?]; by constructor); try (apply Forall_cons in H3 as [? ?]; by constructor).
  all: intros D C T; first [specialize (H5 D C T); apply Forall_cons in H5 as [? ?]; by constructor|specialize (H6 D C T); apply Forall_cons in H6 as [? ?]; by constructor].
Qed.

(** A step that is seen by no one who waits. *)
Ltac unseen Hw fs :=
  eapply (wake_other _ _ [_] fs); [exact Hw|..]; rewrite ?reset_retry_state; components; try done; try (by repeat constructor); try (left; unfold wakers; rewrite ?measure_cons, ?measure_nil; cbn [waker]; lia).

Lemma reset_retry_fields (o : option Z) (w : World) :
  subs (reset_retry o w) = subs w /\ timers (reset_retry o w) = timers w /\ deferrals (reset_retry o w) = deferrals w.
Proof. by destruct o. Qed.

Lemma reset_sub_deferrals (o : option Z) (w : World) : deferrals (reset_sub o w) = deferrals w.
Proof. by destruct o. Qed.

Lemma halter_closed (w : World) (f : Frame) (rest : list Frame) : pump_ok w (f :: rest) -> halter f = 1 -> closed (flags (state w)) = true.
Proof.
  intros Hp Hf. apply (p_closed _ _ Hp). pose proof (p_halter _ _ Hp) as H. rewrite measure_cons, Hf in H. pose proof (measure_nonneg halter rest halter_range).
  destruct (halting _); cbn [Z.b2z] in H; [done|lia].
Qed.

(** The end of a timer touches none that is waited for. *)
Lemma awaited_finish (w : World) (t t0 g : Z) (k : bool) (r : gmap Z (Z * Z)) :
  awaited_as w t0 g k <-> awaited_as (with_retries r (with_timers (alter finish_timer t (timers w)) w)) t0 g k.
Proof.
  unfold awaited_as. components. destruct (decide (t = t0)) as [<-|Hne]; [|by rewrite lookup_alter_ne]. rewrite lookup_alter_eq.
  split; intros (x & H1 & H2 & H3 & H4).
  - exists x. rewrite H1. cbn. unfold finish_timer. rewrite bool_decide_eq_false_2; [done|]. by destruct H2 as [->| ->].
  - destruct (timers w !! t) as [y|]; [|done]. cbn in H1. injection H1 as <-. exists y. unfold finish_timer in *. by destruct (bool_decide (phase y = Running)); [destruct H2|].
Qed.

Lemma retry_unowned (t : Z) (w : World) :
  Forall (fun f => without_wait f = false /\ cancels f = false /\ stores f = None /\ ending f = None) (concat (retry_threads t w)).
Proof. eapply Forall_impl; [apply retry_frames|]. by intros f [g ->]. Qed.

(** The retry schedules a new timer of the current generation. *)
Lemma wake_retry_scheduled (w : World) (now gen id : Z) (rest : list Frame) :
  closed (flags (state w)) = false -> timerGeneration (state w) = gen -> timers w !! id = None -> wake_ok w (FRetryWake gen :: rest) ->
  wake_ok (with_timers (<[id := MkTimer gen now Waiting false]> (timers w)) (with_state (set_timer (Some id) (state w)) w)) rest.
Proof.
  intros Hc Hg Hi [H1 H2 H3 H4 H5 H6 H7]. apply Forall_cons in H2 as [_ H2], H3 as [_ H3].
  constructor; unfold live_capacity, live_timer, wakers in *; components; try done.
  - intros D C T t x [= <-]. rewrite lookup_insert_eq. intros [= <-] _. split; [done|by left].
  - intros D C T. specialize (H5 D C T). by apply Forall_cons in H5 as [_ H5].
  - intros D C T. specialize (H6 D C T). by apply Forall_cons in H6 as [_ H6].
  - intros _ _ _ _. right. left. eexists _, _. rewrite lookup_insert_eq. repeat split; try done. by left.
Qed.

Lemma reset_retry_deferrals (o : option Z) (w : World) : deferrals (reset_retry o w) = deferrals w.
Proof. by destruct o. Qed.

Lemma halt_enter_inv (code : ErrorCode) (s s' : State) (x : option Z * option Z * option Z) :
  HaltEnter code s = (Some x, s') -> capacity s' = None /\ closed (flags s') = true.
Proof. unfold HaltEnter. destruct (_ || _); [done|]. intros [= _ <-]. components. by destruct (closed (flags s)) eqn:E. Qed.

(** Frames of the other threads. *)
Lemma wake_exec_other (c : Config) (f : Frame) (w w' : World) (pushed rest : list Frame) (started : list (list Frame)) :
  Exec c f w pushed started w' -> owner f = 0 -> (forall n b next, f <> FRelease n b next) -> pump_ok w (f :: rest) -> finish_ok w (f :: rest) -> wake_ok w (f :: rest) ->
  wake_ok w' (pushed ++ concat started ++ rest).
Proof.
  intros He Ho Hnr Hp Hf Hw. pose proof (w_deferrals _ _ Hw) as Hd. pose proof (Forall_inv_tail (w_none _ _ Hw)) as Hn. pose proof (Forall_inv_tail (w_cancels _ _ Hw)) as Hc.
  destruct He; try discriminate Ho; try (by destruct (Hnr _ _ _ eq_refl)); rewrite ?app_assoc; cbn [concat app].
  - unfold DriveEnter in H. destruct (_ || _) eqn:E; injection H as <- <-; components.
    + destruct (closed (flags (state w))) eqn:Ec; [by apply wake_closed; [|exact Hn|]|]. rewrite orb_false_r in E. unseen Hw (@nil Frame).
    + apply orb_false_iff in E as [E1 E2]. pose proof (p_owner _ _ Hp) as Po. rewrite measure_cons, E1 in Po.
      apply (wake_pump w _ FDrive [FPrevious] rest); try done; by repeat constructor.
  - unseen Hw [FStoreRetry sub].
  - unseen Hw [FRetryWake gen; FStoreRetry sub].
  - unseen Hw [FHalt code].
  - destruct (reset_retry_fields (wakeRetry (state w)) (with_state (set_wakeRetry (Some sub) (state w)) w)) as (E1 & E2 & E3).
    eapply (wake_other _ _ [_] []); [exact Hw|..]; unfold awaited_as; rewrite ?reset_retry_state, ?E1, ?E2, ?E3; try done. by left.
  - unfold FinishIfReady in H. repeat case_match_in H; simplify_eq; unseen Hw (@nil Frame).
  - unfold HaltEnter in H. destruct (_ || _) eqn:E; [|discriminate H]. injection H as <-. destruct (terminal (flags (state w))) eqn:T.
    + destruct (f_terminal _ _ Hf T) as (Q & _). by apply wake_done; [|exact Hn|exact Hc| |].
    + apply (p_closed _ _ Hp) in E. by apply wake_closed; [|exact Hn|].
  - apply halt_enter_inv in H as [H1 H2]. apply wake_closed; rewrite ?reset_retry_state, ?reset_sub_state; [by rewrite reset_retry_deferrals, reset_sub_deferrals| |done].
    apply Forall_true. intros f. unfold none_ok. by rewrite reset_retry_state, reset_sub_state.
  - pose proof (halter_closed _ _ _ Hp eq_refl). unfold HaltTake in H. repeat case_match_in H; simplify_eq; (apply wake_closed; [done| |done]); constructor; done.
  - pose proof (halter_closed _ _ _ Hp eq_refl). apply wake_closed; [done| |done]. by constructor.
  - pose proof (Forall_inv (w_cancels _ _ Hw) eq_refl) as Hx. by apply wake_closed; [|exact Hn|].
  - rewrite app_nil_r. unseen Hw (if timerGeneration (state w) =? gen then [FDrive] else []); [by case_if; repeat constructor|by case_if|]. left. unfold wakers. rewrite measure_cons, measure_nil. cbn [waker]. rewrite (Z.eqb_sym gen). case_if; rewrite ?measure_cons, ?measure_nil; cbn [waker]; lia.
  - eapply (wake_other _ _ [_] (concat (retry_threads t w))); [exact Hw|..]; components; try done; [intros t0 g k; apply awaited_finish|intros t0 g; apply awaited_finish|apply retry_unowned|by rewrite retry_total|].
    left. unfold wakers. by rewrite retry_total.
  - unfold RetryWake in H0. destruct (_ || _) eqn:E; [injection H0 as <- <- <-; unseen Hw (@nil Frame)|]. apply orb_false_iff in E as [E1 E2]. apply negb_false_iff, Z.eqb_eq in E2.
    destruct answer as [i|e]; injection H0 as <- <- <-; [by apply wake_retry_scheduled; auto|unseen Hw [FHalt e]].
Qed.

(** A new thread that will pump or halt makes up for whatever changed, but for the timers. *)
Lemma wake_started (w w' : World) (f : Frame) (fs : list Frame) :
  wake_ok w fs -> waker (timerGeneration (state w')) f = 1 -> without_wait f = false -> cancels f = false ->
  capacity (state w') = capacity (state w) -> timer (state w') = timer (state w) -> timers w' = timers w ->
  timerGeneration (state w') = timerGeneration (state w) -> deferrals w' = deferrals w ->
  closed (flags (state w')) = closed (flags (state w)) -> terminal (flags (state w')) = terminal (flags (state w)) ->
  wake_ok w' (f :: fs).
Proof.
  intros [H1 H2 H3 H4 H5 H6 H7] Hf Hn Hx Hcap Ht Hts Hg Hd Hc Hterm.
  assert (1 <= wakers w' (f :: fs)) as Hw by (rewrite wakers_cons; pose proof (wakers_nonneg w' fs); lia).
  constructor; try (intros; by right; right).
  - lia.
  - rewrite Hcap. constructor; [congruence|done].
  - rewrite Hc. constructor; [congruence|done].
  - rewrite Hd, Hc, Hterm, Ht, Hts, Hg, measure_cons. intros D C T t x G1 G2 G3. destruct (H4 D C T t x G1 G2 G3) as [G4 G5]. split; [done|].
    pose proof (stopper_range f). destruct G5; [by left|right; lia].
  - intros _ _ _. apply Forall_true. intros g sub _. by right; right.
  - intros _ _ _. apply Forall_true. intros g _. by right; right.
Qed.

Lemma awaited_insert (w : World) (t t0 g : Z) (k : bool) (x y : Timer) : timers w !! t = Some x -> awaited x -> awaited y ->
  generation y = generation x -> cancelled y = cancelled x ->
  awaited_as w t0 g k <-> awaited_as (with_timers (<[t := y]> (timers w)) w) t0 g k.
Proof.
  intros Hx Ax Ay Hg Hk. unfold awaited_as. components. destruct (decide (t = t0)) as [<-|Hne]; [|by rewrite lookup_insert_ne].
  rewrite lookup_insert_eq, Hx. split; intros (z & [= <-] & H2 & H3 & H4); eexists; (split; [done|]); repeat split; try done; congruence.
Qed.

(** The scheduler runs a timer: its frame takes over. *)
Lemma wake_run_timer (w : World) (t : Z) (x : Timer) (stopped : bool) (fs : list Frame) :
  timers w !! t = Some x -> phase x = Dispatched -> (stopped = true -> cancelled x = true) -> wake_ok w fs ->
  wake_ok (with_timers (<[t := set_phase Running x]> (timers w)) w) ((if stopped then [FTimerDone t] else [FTimer (generation x); FTimerDone t]) ++ fs).
Proof.
  intros Hx Hp Hs [H1 H2 H3 H4 H5 H6 H7].
  assert (forall u : World, state u = state w -> wakers w fs <= wakers u ((if stopped then [FTimerDone t] else [FTimer (generation x); FTimerDone t]) ++ fs)) as Hw.
  { intros u Hu. unfold wakers. rewrite measure_app, Hu. destruct stopped; rewrite ?measure_cons, ?measure_nil; cbn [waker]; [lia|]. case_if; lia. }
  constructor; components; try done.
  - apply Forall_app. split; [by destruct stopped; repeat constructor|done].
  - apply Forall_app. split; [by destruct stopped; repeat constructor|done].
  - intros D C T t0 y G1 G2 G3. destruct (decide (t = t0)) as [<-|Hne]; [rewrite lookup_insert_eq in G2; injection G2 as <-; by destruct G3|].
    rewrite lookup_insert_ne in G2 by done. destruct (H4 D C T t0 y G1 G2 G3) as [G4 G5]. split; [done|]. rewrite measure_app.
    match goal with |- context [total stopper ?l + _] => pose proof (measure_nonneg stopper l stopper_range) end. destruct G5; [by left|right; lia].
  - intros D C T. apply Forall_app. split; [by destruct stopped; repeat constructor|]. eapply Forall_impl; [exact (H5 D C T)|].
    intros f Hf sub Hsub. destruct (Hf sub Hsub) as [G|[G|G]]; [by left|by right; left|right; right]. etrans; [exact G|by apply Hw].
  - intros D C T. apply Forall_app. split; [by destruct stopped; repeat constructor|]. eapply Forall_impl; [exact (H6 D C T)|].
    intros f Hf Hsub. destruct (Hf Hsub) as [G|[G|G]]; [by left|by right; left|right; right]. etrans; [exact G|by apply Hw].
  - intros D C Q P. destruct (H7 D C Q P) as [G|[(t0 & y & G1 & G2 & G3 & G4 & G5)|G]]; [by left| |right; right; etrans; [exact G|by apply Hw]].
    destruct (decide (t = t0)) as [<-|Hne].
    + rewrite Hx in G2. injection G2 as <-. destruct stopped; [rewrite Hs in G4 by done; done|]. right. right. unfold wakers. components. cbn [app].
      rewrite measure_cons. cbn [waker]. rewrite G5, Z.eqb_refl. pose proof (measure_nonneg _ (FTimerDone t :: fs) (waker_range (timerGeneration (state w)))). lia.
    + right. left. exists t0, y. components. by rewrite lookup_insert_ne.
Qed.

Lemma wake_call (c : Config) (w w' : World) (fs : list Frame) (started : list (list Frame)) :
  Call c w started w' -> wake_ok w fs -> wake_ok w' (concat started ++ fs).
Proof.
  intros He Hw. destruct He as [w now p o status s He|w|w|w sub code Hs|w t x Ht Hp Hc|w t x Ht Hp|w t x stopped Ht Hp Hc|w t x Ht Hp Hc].
  - apply enqueue_inv in He. destruct He as [status Hs|p' o' a b x Hq Hn Hc Hd Hr|p' o' Hc Hd Hm Hr].
    + rewrite Hs. apply (wake_other w _ [] []); try done. by left.
    + by apply (wake_started w).
    + by apply (wake_started w).
  - apply (wake_other w _ [] [FDrive; FFinish]); try done; [by repeat constructor|left; unfold wakers; rewrite !measure_cons, measure_nil; cbn; lia].
  - apply (wake_other w _ [] [FHalt Cancelled]); try done; [by repeat constructor|left; unfold wakers; rewrite !measure_cons, measure_nil; cbn; lia].
  - by apply (wake_started w); try done; case_if.
  - assert (forall t0 g k, awaited_as w t0 g k <-> awaited_as (with_timers (<[t := set_phase Dispatched x]> (timers w)) w) t0 g k) as Hi.
    { intros t0 g k. apply (awaited_insert w t t0 g k x); try done; [by left|by right]. }
    apply (wake_other w _ [] []); try done; [intros; by apply Hi|intros; by apply Hi|by left].
  - assert (forall t0 g k, awaited_as w t0 g k <-> awaited_as (with_timers (<[t := set_phase Waiting x]> (timers w)) w) t0 g k) as Hi.
    { intros t0 g k. apply (awaited_insert w t t0 g k x); try done; [by right|by left]. }
    apply (wake_other w _ [] []); try done; [intros; by apply Hi|intros; by apply Hi|by left].
  - cbn [concat]. rewrite app_nil_r. by apply wake_run_timer.
  - apply (wake_other w _ [] (concat (retry_threads t w))); try done; components; [intros t0 g k Hx|intros t0 g Hx|apply retry_unowned|by rewrite retry_total|left; unfold wakers; by rewrite retry_total].
    + destruct Hx as (y & F1 & F2 & F3 & F4). components. destruct (decide (t = t0)) as [<-|Hne]; [rewrite lookup_insert_eq in F1; injection F1 as <-; by destruct F2|].
      rewrite lookup_insert_ne in F1 by done. by exists y.
    + destruct Hx as (y & F1 & F2 & F3 & F4). exists y. components. destruct (decide (t = t0)) as [<-|Hne]; [congruence|by rewrite lookup_insert_ne].
Qed.

Lemma wake_exec (c : Config) (f : Frame) (w w' : World) (pushed rest : list Frame) (started : list (list Frame)) :
  Exec c f w pushed started w' -> pump_ok w (f :: rest) -> finish_ok w (f :: rest) -> wake_ok w (f :: rest) ->
  wake_ok w' (pushed ++ concat started ++ rest).
Proof.
  intros He Hp Hf Hw. destruct (keeps f) eqn:Ek; [by destruct (wake_exec_pump c f w w' pushed rest started) as [-> H]|].
  destruct (owner f) eqn:Eo; [destruct f; try (by eapply wake_exec_other; eauto; congruence)|destruct f; try discriminate..|by pose proof (owner_range f); lia].
  - inversion He; subst. by apply wake_exec_release.
  - inversion He; subst. by eapply (wake_exec_next c).
  - by destruct (wake_exec_arm _ _ _ _ _ rest _ He) as [-> H].
  - inversion He; subst. by apply wake_exec_catch.
  - inversion He; subst. by apply wake_exec_release.
Qed.

(** ** What halting leaves *)

(** Entries have their own identity, and a closed queue that no thread halts has at most the entry that is being sent. *)
Record drain_ok (w : World) (fs : list Frame) : Prop := MkDrainOk {
  d_ids : NoDup (map entryId (queue (state w)));
  d_fresh : Forall (fun e => entryId e < fresh w) (queue (state w));
  d_left : closed (flags (state w)) = true -> halting (flags (state w)) = false ->
    1 <= total stopper fs \/ take_inactive (active (state w)) (queue (state w)) = None
}.

Lemma drain_ok_perm (w : World) (a b : list Frame) : a ≡ₚ b -> drain_ok w a -> drain_ok w b.
Proof. intros Hp [H1 H2 H3]. constructor; rewrite <-?(total_perm _ _ _ Hp); done. Qed.

(** Only the entry being sent is left. *)
Lemma take_inactive_none (a : option Entry) (q : list Entry) :
  take_inactive a q = None <-> Forall (fun e => Some (entryId e) = option_map entryId a) q.
Proof.
  induction q as [|e q IH]; cbn [take_inactive]; [split; [constructor|done]|]. rewrite Forall_cons. case_bool_decide as E.
  - rewrite <-IH. split; [intros H; split; [done|]|intros [_ ->]; done]. by destruct (take_inactive a q) as [[]|].
  - split; [done|]. by intros [? _].
Qed.

Lemma drain_queue (w w' : World) : queue (state w') `sublist_of` queue (state w) -> fresh w <= fresh w' ->
  NoDup (map entryId (queue (state w))) -> Forall (fun e => entryId e < fresh w) (queue (state w)) ->
  NoDup (map entryId (queue (state w'))) /\ Forall (fun e => entryId e < fresh w') (queue (state w')).
Proof.
  intros Hs Hf H1 H2. split; [eapply sublist_NoDup; [exact H1|by apply (fmap_sublist entryId)]|].
  apply Forall_forall. intros e He. rewrite Forall_forall in H2. eapply Z.lt_le_trans; [apply H2; by eapply elem_of_sublist|done].
Qed.

Lemma left_sublist (a : option Entry) (q q' : list Entry) : q' `sublist_of` q -> take_inactive a q = None -> take_inactive a q' = None.
Proof.
  rewrite !take_inactive_none. intros Hs H. apply Forall_forall. intros e He. rewrite Forall_forall in H. apply H. by eapply elem_of_sublist.
Qed.

Lemma reset_sub_fresh (o : option Z) (w : World) : fresh (reset_sub o w) = fresh w.
Proof. by destruct o. Qed.
Lemma reset_retry_fresh (o : option Z) (w : World) : fresh (reset_retry o w) = fresh w.
Proof. by destruct o. Qed.

Lemma drain_exec (c : Config) (f : Frame) (w w' : World) (pushed rest : list Frame) (started : list (list Frame)) :
  Exec c f w pushed started w' -> pump_ok w (f :: rest) -> finish_ok w (f :: rest) -> drain_ok w (f :: rest) ->
  drain_ok w' (pushed ++ concat started ++ rest).
Proof.
  intros He Hp Hf [H1 H2 H3]. rewrite measure_cons in H3. pose proof (measure_nonneg stopper rest stopper_range) as Hr.
  destruct He as [ |  | w now n r s Hs | w n b next |  |  | w x n status count bytes s Hs |  |  |  |  |  |  |  |  |  |  |  |  |  |  |  |  |  |  | w code s Hs |  | w bytes s Hs | w bytes |  |  |  | ].
  3: { pose proof (filter_sublist (fun e => negb (Expired now e)) (queue (state w))) as Hq.
       destruct (drain_queue w (with_state (set_queue (List.filter (fun e => negb (Expired now e)) (queue (state w))) (state w)) w)) as [G1 G2]; [done|done|done|done|].
       unfold DriveSelect in Hs. repeat case_match_in Hs; simplify_eq; (constructor; [done|done|]); components; rewrite measure_cons; cbn [stopper] in *; intros C Hh.
       all: try (apply andb_true_iff in E0 as [E0 _]; by rewrite C in E0).
       all: destruct (H3 C Hh); [by left|right; by eapply left_sublist]. }
  3: { unfold ReleaseCommit. case_if; constructor; components; cbn [stopper] in *; done. }
  5: { destruct (p_head _ _ Hp x) as [q Hx]; [by pose proof (Forall_inv (p_expects _ _ Hp))|].
       pose proof (Forall_inv (p_expects _ _ Hp)) as Ha. unfold agrees in Ha. cbn [expects] in Ha.
       destruct (drain_queue w (with_state (set_queue q (state w)) w)) as [G1 G2]; [components; rewrite Hx; by constructor|done|done|done|].
       unfold DriveSent in Hs. components. rewrite Hx, remove_head in Hs. rewrite Hx in H1, H2, H3. apply NoDup_cons in H1 as [H1 _].
       destruct (Status.IsOk status || closed (flags (state w))) eqn:Eo; simplify_eq; (constructor; components; rewrite ?Hx; try done; [..|rewrite measure_cons; cbn [stopper] in *; intros C Hh]).
       - destruct (H3 C Hh) as [G|G]; [by left|right]. rewrite Ha in G. apply take_inactive_none, Forall_cons in G as [_ G]. cbn [option_map] in G.
         destruct q as [|y q]; [done|]. apply Forall_inv in G. injection G as G. destruct H1. cbn [map]. rewrite G. constructor.
       - apply NoDup_cons. split; [done|]. done.
       - rewrite C, orb_true_r in Eo. done. }
  23: { unfold HaltEnter in Hs. destruct (_ || _) eqn:E; [|discriminate Hs]. injection Hs as <-. constructor; components; try done. intros C Hh. right.
        rewrite Hh, orb_false_r in E. destruct (f_terminal _ _ Hf E) as [-> _]. done. }
  24: { pose proof (p_halter _ _ Hp) as Ph. rewrite measure_cons in Ph. pose proof (measure_nonneg halter rest halter_range). cbn [halter] in Ph.
        unfold HaltTake in Hs. destruct (take_inactive _ _) as [[e q]|] eqn:Et; simplify_eq; [|constructor; components; try done; by right].
        destruct (take_inactive_spec _ _ _ _ Et) as (a & b & Hq & -> & _).
        destruct (drain_queue w (with_state (set_queue (a ++ b) (state w)) w)) as [G1 G2]; [components; rewrite Hq; apply sublist_app; [done|]; by constructor|done|done|done|].
        constructor; components; try done; intros _ Hh; rewrite Hh in Ph; cbn [Z.b2z] in Ph; lia. }
  24: { pose proof (p_halter _ _ Hp) as Ph. rewrite measure_cons in Ph. pose proof (measure_nonneg halter rest halter_range). cbn [halter] in Ph.
        constructor; components; try done; intros _ Hh; rewrite Hh in Ph; cbn [Z.b2z] in Ph; lia. }
  all: open_sections; unfold after_sent; constructor; rewrite ?reset_retry_state, ?reset_sub_state, ?reset_retry_fresh, ?reset_sub_fresh; components; try done.
  all: rewrite ?measure_app, ?measure_cons, ?measure_nil, ?retry_total by done; cbn [stopper] in *; try done.
  all: try (intros C Hh; repeat case_if; rewrite ?measure_cons, ?measure_nil; cbn [stopper]; first [left; lia|destruct (H3 ltac:(done) ltac:(done)); [left; lia|by right]]).
Qed.

Lemma drain_call (c : Config) (w w' : World) (fs : list Frame) (started : list (list Frame)) :
  Call c w started w' -> drain_ok w fs -> drain_ok w' (concat started ++ fs).
Proof.
  intros He [H1 H2 H3]. destruct He as [w now p o status s He| | | | | | |].
  2-8: constructor; rewrite ?measure_app, ?retry_total by done; components; try done.
  2-4: intros C Hh; destruct (H3 C Hh) as [G|G]; [left|by right]; rewrite ?app_nil_r; repeat case_if; rewrite ?measure_cons, ?measure_nil; cbn [stopper]; lia.
  assert (Forall (fun e => entryId e < fresh w + 1) (queue (state w))) as H2' by (eapply Forall_impl; [exact H2|]; cbn; lia).
  assert (fresh w ∉ map entryId (queue (state w))) as Hn.
  { intros Hi. apply list_elem_of_fmap in Hi as (e & He' & Hi). rewrite Forall_forall in H2. specialize (H2 e Hi). cbn in H2. lia. }
  apply enqueue_inv in He. destruct He as [status Hs|p' o' a b x Hq _ Hc _ _|p' o' Hc _ _ _].
  - rewrite Hs. by constructor.
  - rewrite Hq in *. rewrite map_app in *. cbn [map] in *. constructor; components; rewrite ?map_app; cbn [map entryId]; [| |congruence].
    + rewrite !NoDup_app, !NoDup_cons in *. set_solver.
    + rewrite !Forall_app, !Forall_cons in *. cbn [entryId]. split; [tauto|]. split; [lia|tauto].
  - constructor; components; rewrite ?map_app; cbn [map entryId]; [| |congruence].
    + rewrite NoDup_app. repeat split; [done|set_solver|]. apply NoDup_singleton.
    + apply Forall_app. split; [done|]. constructor; [cbn; lia|done].
Qed.

(** ** Runs *)

Record run_ok (c : Config) (w : World) (fs : list Frame) : Prop := MkRunOk {
  r_pump : pump_ok w fs;
  r_account : account_ok c w fs;
  r_order : order_ok w;
  r_finish : finish_ok w fs;
  r_wake : wake_ok w fs;
  r_drain : drain_ok w fs
}.

Lemma run_ok_perm (c : Config) (w : World) (a b : list Frame) : a ≡ₚ b -> run_ok c w a -> run_ok c w b.
Proof.
  intros Hp [H1 H2 H3 H4 H5 H6]. constructor;
    [by eapply pump_ok_perm|by eapply account_ok_perm|done|by eapply finish_ok_perm|by eapply wake_ok_perm|by eapply drain_ok_perm].
Qed.

Lemma run_ok_start (c : Config) : 0 <= maxMessages (options c) -> 0 <= maxRetainedBytes (options c) -> run_ok c NewWorld [].
Proof. intros Hm Hr. constructor; constructor; cbn; try done; try (by constructor); try (intros; congruence). Qed.

Section Runs.
Context (c : Config).
Hypothesis options_width : 0 <= maxMessages (options c) < 2 ^ 64 /\ 0 <= maxRetainedBytes (options c) < 2 ^ 64.

Lemma run_ok_step (x y : System) : Step c x y -> run_ok c x.1 (concat x.2) -> run_ok c y.1 (concat y.2).
Proof.
  intros [w w' a b f k pushed started He|w w' ts started Hc] H; cbn [fst snd] in *.
  - destruct (flat_frame a b started f k pushed) as [E1 E2]. eapply run_ok_perm in H; [|exact E1]. eapply run_ok_perm; [symmetry; exact E2|].
    destruct H as [H1 H2 H3 H4 H5 H6]. constructor;
      [by eapply pump_exec|eapply account_exec; eauto; lia|by eapply order_exec|by eapply (finish_exec c)|by eapply (wake_exec c)|by eapply (drain_exec c)].
  - rewrite concat_app. eapply run_ok_perm; [apply Permutation_app_comm|]. destruct H as [H1 H2 H3 H4 H5 H6]. constructor;
      [by eapply pump_call|eapply account_call; eauto; lia|by eapply order_call|by eapply (finish_call c)|by eapply (wake_call c)|by eapply (drain_call c)].
Qed.

Lemma run_ok_run (x : System) : Run c x -> run_ok c x.1 (concat x.2).
Proof. induction 1 as [|x y Hr IH Hs]; [apply run_ok_start; lia|by eapply run_ok_step]. Qed.

End Runs.

(** ** Executing runs *)

(** What the environment answers to a frame: the clock, the sink's result, unless it throws, the subscription made,
    the code of what fails, the scheduler's answer. *)
Record Answer : Type := MkAnswer { clock : Z; sink : option Status; made : option Z; failure : ErrorCode; schedule : Scheduled }.

Definition Result3 : Type := option (list Frame * list (list Frame) * World).
Definition on (w : World) (pushed : list Frame) : Result3 := Some (pushed, [], w).

Definition exec_arm (a : Answer) (d : Z) (w : World) : Result3 :=
  match Arm (clock a) d (Ready (timer_of w)) (Unfinished (timer_of w)) (schedule a) (state w) with
  | (ArmDone moved due, s) =>
      on (with_timers (match moved, timer s with true, Some t => alter (move_timer due) t (timers w) | _, _ => timers w end) (with_state s w)) [FFinish]
  | (ArmScheduled id due, s) =>
      if bool_decide (timers w !! id = None) then
        on (with_timers (<[id := MkTimer (timerGeneration s) due Waiting false]> (timers w)) (with_state s w)) [FFinish]
      else None
  | (ArmDeferred running gen, s) =>
      on (with_deferrals (deferrals w + 1) (with_state s w)) [FArmRetry running gen; FFinish]
  | (ArmHalt code, s) => on (with_state s w) [FHalt code; FFinish]
  end.

Definition exec (c : Config) (a : Answer) (f : Frame) (w : World) : Result3 :=
  match f with
  | FDrive => let '(b, s) := DriveEnter (state w) in on (with_state s w) (if b then [FPrevious] else [])
  | FPrevious => on (reset_sub (capacity (state w)) (with_state (set_capacity None (state w)) w)) [FSelect 0]
  | FSelect n =>
      let '(r, s) := DriveSelect c (clock a) n (state w) in
      on (with_state s w) [FRelease (retiredCount r) (retiredBytes r) (match item r with Some x => FSend x (n + 1) | None => FNext (continuation r) end)]
  | FRelease count bytes next => on (with_state (ReleaseCommit count bytes (state w)) w) [next]
  | FSend x n => on w (match sink a with Some status => [FSent x n status] | None => [FCatch] end)
  | FSent x n status =>
      let '((count, bytes), s) := DriveSent x (Status.IsOk status) (state w) in
      on (with_accepted (accepted w ++ if Status.IsOk status then [x] else []) (with_state s w)) [FRelease count bytes (FAfter (wire x) n status)]
  | FAfter required n status => on w (after_sent required n status)
  | FCheck required n => on w (if closed (flags (state w)) then [FNext false] else [FWait required n])
  | FWait required n =>
      match made a with
      | Some sub => if bool_decide (sub ∉ subs w) then on (with_subs ({[sub]} ∪ subs w) w) [FStore sub n] else None
      | None => on w [FHalt (failure a); FNext false]
      end
  | FStore sub n =>
      let '(retry, gone, s) := DriveStore sub (state w) in on (reset_sub gone (with_state s w)) (if retry then [FOld n] else [FNext false])
  | FOld n => on (reset_sub (capacity (state w)) (with_state (set_capacity None (state w)) w)) [FSelect n]
  | FNext continuation =>
      let '(next, s) := DriveNext (clock a) continuation (state w) in
      on (with_state s w) (match next with Some due => [FArm due] | None => [FFinish] end)
  | FArm d => exec_arm a d w
  | FArmRetry running gen =>
      match made a with
      | Some sub =>
          if bool_decide (retries w !! sub = None) then
            if Unfinished (timers w !! running) then on (with_retries (<[sub := (running, gen)]> (retries w)) w) [FStoreRetry sub]
            else on w [FRetryWake gen; FStoreRetry sub]
          else None
      | None => on w [FHalt (failure a)]
      end
  | FStoreRetry sub => on (reset_retry (wakeRetry (state w)) (with_state (set_wakeRetry (Some sub) (state w)) w)) []
  | FCatch => on (with_state (DriveCatch (state w)) w) [FHalt PlatformError]
  | FFinish =>
      let '(code, s) := FinishIfReady (state w) in
      on (with_completions (completions w ++ match code with Some x => [x] | None => [] end) (with_state s w)) []
  | FHalt code =>
      match HaltEnter code (state w) with
      | (None, s) => on (with_state s w) []
      | (Some (wait, retry, wake), s) => on (reset_retry retry (reset_sub wait (with_state s w))) [FCancel wake; FHaltTake]
      end
  | FHaltTake => let '(bytes, s) := HaltTake (state w) in on (with_state s w) (match bytes with Some b => [FHaltRelease b] | None => [FFinish] end)
  | FHaltRelease bytes => on (with_state (HaltRelease bytes (state w)) w) [FHaltTake]
  | FCancel t => on (with_timers (match t with Some i => alter set_cancelled i (timers w) | None => timers w end) w) []
  | FTimer gen => on w (if timerGeneration (state w) =? gen then [FDrive] else [])
  | FTimerDone t => Some ([], retry_threads t w, with_retries (keep_retries t w) (with_timers (alter finish_timer t (timers w)) w))
  | FRetryWake gen =>
      let '(code, id, s) := RetryWake gen (schedule a) (state w) in
      if match schedule a with ScheduledAs i => bool_decide (timers w !! i = None) | _ => true end then
        on (with_timers (match id with Some i => <[i := MkTimer gen (clock a) Waiting false]> (timers w) | None => timers w end) (with_state s w))
          (match code with Some x => [FHalt x] | None => [] end)
      else None
  end.

Lemma exec_arm_sound (c : Config) (a : Answer) (d : Z) (w w' : World) (pushed : list Frame) (started : list (list Frame)) :
  exec_arm a d w = Some (pushed, started, w') -> Exec c (FArm d) w pushed started w'.
Proof.
  unfold exec_arm. destruct (Arm _ _ _ _ _ _) as [r s] eqn:E. destruct r as [moved due|id due|running gen|code].
  - intros [= <- <- <-]. by eapply ExecArmDone.
  - case_bool_decide as Hi; [|done]. intros [= <- <- <-]. assert (schedule a = ScheduledAs id) as Hs by (clear -E; unfold Arm in E; repeat case_match; by simplify_eq).
    rewrite Hs in E. by eapply ExecArmScheduled.
  - intros [= <- <- <-]. destruct (schedule a) as [id|code] eqn:Es; [unfold Arm in E; repeat case_match_in E; discriminate E|]. by eapply ExecArmDeferred.
  - intros [= <- <- <-]. by eapply ExecArmHalt.
Qed.

Lemma exec_sound (c : Config) (a : Answer) (f : Frame) (w w' : World) (pushed : list Frame) (started : list (list Frame)) :
  exec c a f w = Some (pushed, started, w') -> Exec c f w pushed started w'.
Proof.
  destruct f; cbn [exec]; unfold on; try (intros [= <- <- <-]; by constructor).
  - destruct (DriveEnter _) eqn:E. intros [= <- <- <-]. by constructor.
  - destruct (DriveSelect _ _ _ _) eqn:E. intros [= <- <- <-]. by econstructor.
  - destruct (sink a); intros [= <- <- <-]; constructor.
  - destruct (DriveSent _ _ _) as [[] ?] eqn:E. intros [= <- <- <-]. by constructor.
  - destruct (made a); [|intros [= <- <- <-]; by constructor]. case_bool_decide; [|done]. intros [= <- <- <-]. by constructor.
  - destruct (DriveStore _ _) as [[] ?] eqn:E. intros [= <- <- <-]. by constructor.
  - destruct (DriveNext _ _ _) eqn:E. intros [= <- <- <-]. by econstructor.
  - apply exec_arm_sound.
  - destruct (made a); [|intros [= <- <- <-]; by constructor]. case_bool_decide; [|done]. destruct (Unfinished _) eqn:E; intros [= <- <- <-]; by constructor.
  - destruct (FinishIfReady _) eqn:E. intros [= <- <- <-]. by constructor.
  - destruct (HaltEnter _ _) as [[[[] ?]|] ?] eqn:E; intros [= <- <- <-]; by constructor.
  - destruct (HaltTake _) eqn:E. intros [= <- <- <-]. by constructor.
  - destruct (RetryWake _ _ _) as [[] ?] eqn:E. destruct (match schedule a with ScheduledAs i => _ | _ => _ end) eqn:Eb; [|done]. intros [= <- <- <-].
    eapply ExecRetryWake; [|exact E]. intros i Hi. rewrite Hi in Eb. by apply bool_decide_eq_true in Eb.
Qed.

(** A move: a thread's top frame, a call of the queue or of the scheduler. *)
Inductive Move : Type :=
| MoveFrame (i : nat) (a : Answer)
| MoveEnqueue (now : Z) (p : OutboundPayload) (o : OutboundEnqueueOptions)
| MoveDrain
| MoveClose
| MoveDispatch (t : Z)
| MoveRun (t : Z).

Definition move (c : Config) (m : Move) (x : System) : option System :=
  let '(w, ts) := x in
  match m with
  | MoveFrame i a =>
      match drop i ts with
      | (f :: k) :: b =>
          match exec c a f w with
          | Some (pushed, started, w') => Some (w', take i ts ++ (pushed ++ k) :: b ++ started)
          | None => None
          end
      | _ => None
      end
  | MoveEnqueue now p o =>
      let '(status, s) := Enqueue c now (fresh w) (Some p) o (state w) in
      Some (with_fresh (fresh w + 1) (with_state s w), ts ++ if Status.IsOk status then [[FDrive]] else [])
  | MoveDrain => Some (with_state (set_draining (state w)) w, ts ++ [[FDrive; FFinish]])
  | MoveClose => Some (w, ts ++ [[FHalt Cancelled]])
  | MoveDispatch t =>
      match timers w !! t with
      | Some x =>
          if bool_decide (phase x = Waiting) && negb (cancelled x) then Some (with_timers (<[t := set_phase Dispatched x]> (timers w)) w, ts) else None
      | None => None
      end
  | MoveRun t =>
      match timers w !! t with
      | Some x =>
          if bool_decide (phase x = Dispatched) then
            Some (with_timers (<[t := set_phase Running x]> (timers w)) w, ts ++ [[FTimer (generation x); FTimerDone t]])
          else None
      | None => None
      end
  end.

Lemma move_sound (c : Config) (m : Move) (x y : System) : move c m x = Some y -> Step c x y.
Proof.
  destruct x as [w ts]. destruct m as [i a|now p o| | |t|t]; cbn [move].
  - rewrite <-(take_drop i ts) at 2. destruct (drop i ts) as [|[|f k] b]; [done..|]. destruct (exec c a f w) as [[[pushed started] w']|] eqn:E; [|done].
    intros [= <-]. by apply StepFrame, (exec_sound c a).
  - destruct (Enqueue _ _ _ _ _ _) as [status s] eqn:E. intros [= <-]. apply StepCall. by eapply CallEnqueue.
  - intros [= <-]. apply StepCall, CallDrain.
  - intros [= <-]. apply StepCall, CallClose.
  - destruct (timers w !! t) as [x|] eqn:Ht; [|done]. destruct (_ && _) eqn:E; [|done]. intros [= <-]. apply andb_true_iff in E as [E1 E2].
    apply bool_decide_eq_true in E1. apply negb_true_iff in E2. rewrite <-(app_nil_r ts) at 2. by apply StepCall, CallDispatch.
  - destruct (timers w !! t) as [x|] eqn:Ht; [|done]. case_bool_decide as E; [|done]. intros [= <-]. apply StepCall. by apply (CallRun c w t x false).
Qed.

Fixpoint moves (c : Config) (ms : list Move) (x : System) : option System :=
  match ms with
  | [] => Some x
  | m :: ms => match move c m x with Some y => moves c ms y | None => None end
  end.

Lemma moves_run (c : Config) (ms : list Move) (x y : System) : Run c x -> moves c ms x = Some y -> Run c y.
Proof.
  revert x. induction ms as [|m ms IH]; intros x Hr; cbn [moves]; [by intros [= <-]|]. destruct (move c m x) as [z|] eqn:E; [|done].
  apply IH. eapply RunStep; [exact Hr|by eapply move_sound].
Qed.

(** ** What every run keeps *)

Definition valid_config (c : Config) : Prop :=
  OptionsOk (options c) = true /\ 0 <= maxMessages (options c) /\ 0 <= maxRetainedBytes (options c) < 2 ^ 64.

Lemma valid_width (c : Config) : valid_config c -> 0 <= maxMessages (options c) < 2 ^ 64 /\ 0 <= maxRetainedBytes (options c) < 2 ^ 64.
Proof. intros (H1 & H2 & H3). unfold OptionsOk in H1. apply negb_true_iff in H1. rewrite !orb_false_iff in H1. lia. Qed.

(** No thread is in the queue's code. *)
Definition idle (x : System) : Prop := concat x.2 = [].

Lemma idle_flags (c : Config) (x : System) : run_ok c x.1 (concat x.2) -> idle x ->
  pumping (flags (state x.1)) = false /\ active (state x.1) = None /\ halting (flags (state x.1)) = false
  /\ pending (metrics (state x.1)) = len (queue (state x.1)) /\ retainedBytes (metrics (state x.1)) = wires (queue (state x.1)).
Proof.
  intros H Hi. unfold idle in Hi. rewrite Hi in H. destruct H as [H1 H2 _ _ _ _].
  assert (pumping (flags (state x.1)) = false) as Hp by (pose proof (p_owner _ _ H1) as G; rewrite measure_nil in G; by destruct (pumping _)).
  assert (halting (flags (state x.1)) = false) as Hh by (pose proof (p_halter _ _ H1) as G; rewrite measure_nil in G; by destruct (halting _)).
  pose proof (a_pending _ _ _ H2) as G1. pose proof (a_bytes _ _ _ H2) as G2. rewrite measure_nil in G1, G2.
  repeat split; [done|by apply (p_idle _ _ H1)|done|lia|lia].
Qed.

(** C15. However threads interleave, what the sink has taken followed by what waits is in the order of the places in the
    queue, each place at most once (a replacement keeps its place); the number and the bytes charged cover the queue, are
    within the limits and are exact when no thread is in the queue; and what was enqueued and is neither sent, replaced,
    expired nor discarded is in the queue. *)
Theorem outbound_order_and_accounting (c : Config) (x : System) : valid_config c -> Run c x ->
  let s := state x.1 in
  StronglySorted Z.lt (map slot (accepted x.1 ++ queue s))
  /\ len (queue s) <= pending (metrics s) <= maxMessages (options c)
  /\ wires (queue s) <= retainedBytes (metrics s) <= maxRetainedBytes (options c)
  /\ (idle x -> pending (metrics s) = len (queue s) /\ retainedBytes (metrics s) = wires (queue s))
  /\ balance (metrics s) (queue s).
Proof.
  intros Hc Hr. apply run_ok_run in Hr; [|by apply valid_width]. pose proof (r_account _ _ _ Hr) as [H1 H2 H3 H4 H5]. apply owes_total in H3 as [H3 H3'].
  destruct (r_order _ _ _ Hr) as [G1 _ G2]. cbn zeta. split; [done|]. split; [lia|]. split; [lia|]. split; [|done].
  intros Hi. by apply (idle_flags c).
Qed.

(** C14. Unless a wake-up had to be deferred, no wake-up is lost: while messages wait in an open queue and no thread pumps,
    the capacity wait is registered, or the current timer has yet to run, or a thread is on its way to pump or to halt. *)
Theorem outbound_no_lost_wakeup (c : Config) (x : System) : valid_config c -> Run c x -> deferrals x.1 = 0 ->
  let s := state x.1 in
  closed (flags s) = false -> queue s <> [] -> pumping (flags s) = false ->
  live_capacity x.1 \/ live_timer x.1 \/ 1 <= wakers x.1 (concat x.2).
Proof. intros Hc Hr Hd s H1 H2 H3. apply run_ok_run in Hr; [|by apply valid_width]. by apply (w_idle _ _ (r_wake _ _ _ Hr)). Qed.

(** The queue completes at most once, with its result, and then nothing waits in it; once no thread is in it, a closed
    queue is finished, and so is a draining one with nothing left. *)
Theorem outbound_finishes_once (c : Config) (x : System) : valid_config c -> Run c x ->
  let s := state x.1 in
  completions x.1 = (if IsFinished s then [result s] else [])
  /\ (IsFinished s = true -> queue s = [] /\ pending (metrics s) = 0 /\ (closed (flags s) = true \/ draining (flags s) = true))
  /\ (idle x -> closed (flags s) = true \/ (draining (flags s) = true /\ queue s = []) -> IsFinished s = true).
Proof.
  intros Hc Hr. apply run_ok_run in Hr; [|by apply valid_width]. pose proof (r_finish _ _ _ Hr) as [H1 H2 H3]. cbn zeta. unfold IsFinished.
  split; [destruct (terminal (flags (state x.1))); [apply H1; done|auto]|].
  split; [intros T; destruct (H1 T) as (G1 & G2 & _ & G3 & _); repeat split; try done; by apply orb_true_iff|].
  intros Hi Hx. destruct (terminal (flags (state x.1))) eqn:T; [done|]. exfalso. destruct (idle_flags c x Hr Hi) as (I1 & I2 & I3 & I4 & _).
  unfold idle in Hi. assert (queue (state x.1) = []) as Q.
  { destruct Hx as [C|[_ Q]]; [|done]. destruct (d_left _ _ (r_drain _ _ _ Hr) C I3) as [G|G]; [rewrite Hi in G; by cbn in G|].
    rewrite I2 in G. destruct (queue (state x.1)) as [|e q]; [done|]. cbn in G. by case_bool_decide. }
  rewrite Hi in H3. rewrite Q in I4. assert (closed (flags (state x.1)) || draining (flags (state x.1)) = true) as Hcd
    by (destruct Hx as [->|[-> _]]; [done|apply orb_true_r]).
  specialize (H3 eq_refl I1 I2 I3 I4 Hcd). by cbn in H3.
Qed.

(** ** Two deferred wake-ups *)

Definition example_config : Config := MkConfig (MkOptions 8 100 1) Any.
Definition example_message : OutboundPayload := MkPayload Raw 0 [1; 2] None.

(** The sink takes everything; subscription [sub]; the scheduler answers [scheduled]. *)
Definition answers (sub : Z) (scheduled : Scheduled) : Answer := MkAnswer 0 (Some Status.Ok) (Some sub) WouldBlock scheduled.
Definition steps (n i : nat) (sub : Z) (scheduled : Scheduled) : list Move := replicate n (MoveFrame i (answers sub scheduled)).
Definition example_enqueue : Move := MoveEnqueue 0 example_message (MkEnqueue None None).

(** Four messages are enqueued, the first is sent and timer 100 set. *)
Definition example_first : list Move :=
  replicate 4 example_enqueue ++ steps 1 0 0 (ScheduledAs 100) ++ steps 1 1 0 (ScheduledAs 100) ++ steps 1 2 0 (ScheduledAs 100)
  ++ steps 1 3 0 (ScheduledAs 100) ++ steps 12 0 0 (ScheduledAs 100).

(** The timer runs, its thread sends the second message and, the scheduler being full, defers its wake-up; before it has
    registered its wait for the end of the timer, a thread that begins to drain sends the third and defers too. *)
Definition example_overlap : list Move :=
  [MoveDispatch 100; MoveRun 100] ++ steps 13 4 10 (ScheduleFailed WouldBlock) ++ [MoveDrain] ++ steps 16 5 11 (ScheduleFailed WouldBlock)
  ++ steps 4 4 10 (ScheduleFailed WouldBlock) ++ steps 1 6 0 (ScheduledAs 101).

Definition stalled (x : System) : bool :=
  bool_decide (concat x.2 = []) && bool_decide (queue (state x.1) <> []) && draining (flags (state x.1)) && negb (closed (flags (state x.1)))
  && negb (IsFinished (state x.1)) && bool_decide (subs x.1 = ∅) && bool_decide (retries x.1 = ∅)
  && forallb (fun t => bool_decide (phase t.2 = Done)) (map_to_list (timers x.1)).

Lemma stalled_spec (x : System) : stalled x = true ->
  idle x /\ queue (state x.1) <> [] /\ draining (flags (state x.1)) = true /\ closed (flags (state x.1)) = false /\ IsFinished (state x.1) = false
  /\ subs x.1 = ∅ /\ retries x.1 = ∅ /\ (forall t y, timers x.1 !! t = Some y -> phase y = Done).
Proof.
  unfold stalled. rewrite !andb_true_iff, !bool_decide_eq_true, !negb_true_iff. intros (((((((H1 & H2) & H3) & H4) & H5) & H6) & H7) & H8).
  repeat split; try done. intros t y Ht. apply elem_of_map_to_list in Ht. rewrite forallb_forall in H8.
  specialize (H8 (t, y) ltac:(by apply list_elem_of_In)). by apply bool_decide_eq_true in H8.
Qed.

(** C40. Two deferred wake-ups can be lost: when a second thread pumps and defers before the first has registered its wait
    for the end of the running timer, the first one's wait takes the place of the second's, which is reset, and finds its
    generation outdated when the timer ends.  The run reaches a queue that drains with a message left, with no thread,
    no capacity wait, no wait for a timer and no timer that will run: it never sends the message and never finishes by itself. *)
Theorem outbound_deferred_wake_lost : exists x : System,
  Run example_config x /\ idle x /\ queue (state x.1) <> [] /\ draining (flags (state x.1)) = true /\ closed (flags (state x.1)) = false
  /\ IsFinished (state x.1) = false /\ subs x.1 = ∅ /\ retries x.1 = ∅ /\ (forall t y, timers x.1 !! t = Some y -> phase y = Done).
Proof.
  assert (match moves example_config (example_first ++ example_overlap) (NewWorld, []) with Some x => stalled x | None => false end = true) as H
    by (vm_compute; reflexivity).
  destruct (moves _ _ _) as [x|] eqn:E; [|done]. exists x. split; [eapply moves_run; [constructor|exact E]|by apply stalled_spec].
Qed.

(** The queue of the example is closed after the first message. *)
Definition example_closed : list Move := example_first ++ [MoveClose] ++ steps 10 4 0 (ScheduledAs 101).

Definition after (ms : list Move) : System := match moves example_config ms (NewWorld, []) with Some x => x | None => (NewWorld, []) end.

Lemma after_run (ms : list Move) : Run example_config (after ms).
Proof. unfold after. destruct (moves _ _ _) as [x|] eqn:E; [eapply moves_run; [constructor|exact E]|constructor]. Qed.

Lemma outbound_order_and_accounting_witness :
  len (queue (state (after example_first).1)) = 3 /\ pending (metrics (state (after example_first).1)) = 3
  /\ map slot (accepted (after example_first).1 ++ queue (state (after example_first).1)) = [1; 2; 3; 4]
  /\ StronglySorted Z.lt (map slot (accepted (after example_first).1 ++ queue (state (after example_first).1))).
Proof.
  split; [vm_compute; reflexivity|]. split; [vm_compute; reflexivity|]. split; [vm_compute; reflexivity|].
  apply (outbound_order_and_accounting example_config (after example_first)); [repeat split; vm_compute; congruence|apply after_run].
Defined.

Lemma outbound_no_lost_wakeup_witness :
  live_capacity (after example_first).1 \/ live_timer (after example_first).1 \/ 1 <= wakers (after example_first).1 (concat (after example_first).2).
Proof.
  apply (outbound_no_lost_wakeup example_config (after example_first));
    [repeat split; vm_compute; congruence|apply after_run|vm_compute; reflexivity|vm_compute; reflexivity|vm_compute; congruence|vm_compute; reflexivity].
Defined.

Lemma outbound_finishes_once_witness : IsFinished (state (after example_closed).1) = true /\ completions (after example_closed).1 = [Cancelled].
Proof.
  split; [|vm_compute; reflexivity].
  apply (outbound_finishes_once example_config (after example_closed)); [repeat split; vm_compute; congruence|apply after_run|vm_compute; reflexivity|].
  left. vm_compute. reflexivity.
Defined.
