(* ===== verification/Config.v ===== *)
(** * Core: the configuration reader.

    [Core/Config.h|cpp]: a text of [key = value] lines with comments and blank lines, read as a whole or refused.
    [Values], a [std::map], is a [gmap]; [open] and [read] of the system answer from a list, in the order of the
    calls, so that interruptions and short reads are part of the model.  The theorems state the accepted language
    by a grammar of lines and relate it to the parser in both directions. *)

From stdpp Require Import gmap.
From S2P Require Import Prelude CoreError Utf8 Charconv.
Import Utf8 Charconv.

Module Config.

Definition Utf8ByteOrderMark : list Z := [0xEF; 0xBB; 0xBF].
Notation Values := (gmap (list Z) (list Z)).

Definition IsHorizontalWhitespace (character : Z) : bool := (character =? char_code " ") || (character =? 9).

Fixpoint TrimFront (text : list Z) : list Z :=
  match text with
  | c :: rest => if IsHorizontalWhitespace c then TrimFront rest else text
  | [] => []
  end.

Definition TrimHorizontalWhitespace (text : list Z) : list Z := rev (TrimFront (rev (TrimFront text))).

Definition KeyCharacter (c : Z) : bool :=
  ((char_code "A" <=? c) && (c <=? char_code "Z")) || ((char_code "a" <=? c) && (c <=? char_code "z"))
  || ((char_code "0" <=? c) && (c <=? char_code "9")) || (c =? char_code ".") || (c =? char_code "_") || (c =? char_code "-").

Definition IsValidKey (key : list Z) : bool := negb (len key =? 0) && forallb KeyCharacter key.

(** A carriage return that no line feed follows. *)
Fixpoint HasUnsupportedLineEnding (text : list Z) : bool :=
  match text with
  | [] => false
  | c :: rest =>
      ((c =? 13) && match rest with [] => true | d :: _ => negb (d =? 10) end) || HasUnsupportedLineEnding rest
  end.

Definition InvalidLine (line : Z) (reason : string) : Status :=
  Status.Fail InvalidFormat (("config line " +:+ str (Digits line)) +:+ (": " +:+ reason)).

(** ** Reading the file *)

Inductive SystemCall (A : Type) : Type := Returned (value : A) | Failed (errno : Z).
Arguments Returned {A} value.
Arguments Failed {A} errno.

Definition ENOENT : Z := 2.
Definition EINTR : Z := 4.
Definition ENOTDIR : Z := 20.

(** The loop around [open]; [None]: the list of answers is too short. *)
Fixpoint OpenFile (opens : list (SystemCall unit)) : option Status :=
  match opens with
  | [] => None
  | Returned _ :: _ => Some Status.Ok
  | Failed error :: opens =>
      if error =? EINTR then OpenFile opens
      else
        Some (Status.Fail (if (error =? ENOENT) || (error =? ENOTDIR) then NotFound else PlatformError)
                ("open(config file) failed, errno=" +:+ str (Digits error)))
  end.

(** The loop around [read]; an empty read is the end of the file. *)
Fixpoint ReadFile (reads : list (SystemCall (list Z))) (text : list Z) : option (Result (list Z)) :=
  match reads with
  | [] => None
  | Returned bytes :: reads => if len bytes =? 0 then Some (FromValue text) else ReadFile reads (text ++ bytes)
  | Failed error :: reads =>
      if error =? EINTR then ReadFile reads text
      else Some (FromStatus (Status.Fail PlatformError ("read(config file) failed, errno=" +:+ str (Digits error))))
  end.

Definition ReadConfigText (opens : list (SystemCall unit)) (reads : list (SystemCall (list Z))) : option (Result (list Z)) :=
  match OpenFile opens with
  | Some status => if Status.IsOk status then ReadFile reads [] else Some (FromStatus status)
  | None => None
  end.

(** ** Parsing *)

Definition StripCarriageReturn (line : list Z) : list Z :=
  match last line with Some c => if c =? 13 then removelast line else line | None => line end.

(** The body of the loop: the values with the entry of the line. *)
Definition ParseLine (lineNumber : Z) (line : list Z) (values : Values) : Result Values :=
  let trimmedLine := TrimHorizontalWhitespace (StripCarriageReturn line) in
  match trimmedLine with
  | [] => FromValue values
  | c :: _ =>
      if c =? char_code "#" then FromValue values
      else
        match cut (char_code "=") trimmedLine with
        | (_, None) => FromStatus (InvalidLine lineNumber "missing '=' separator")
        | (before, Some after) =>
            let key := TrimHorizontalWhitespace before in
            if negb (IsValidKey key) then FromStatus (InvalidLine lineNumber "key is not valid")
            else
              let value := TrimHorizontalWhitespace after in
              match values !! key with
              | Some _ => FromStatus (InvalidLine lineNumber "key is declared more than once")
              | None => FromValue (<[key := value]> values)
              end
        end
  end.

Fixpoint ParseLines (fuel : nat) (text : list Z) (lineNumber : Z) (values : Values) : Result Values :=
  match text, fuel with
  | [], _ => FromValue values
  | _ :: _, O => FromValue values
  | _ :: _, S fuel =>
      let '(line, rest) := cut 10 text in
      match ParseLine lineNumber line values with
      | FromStatus s => FromStatus s
      | FromValue values =>
          match rest with
          | None => FromValue values
          | Some rest => ParseLines fuel rest (lineNumber + 1) values
          end
      end
  end.

Definition ParseConfigText (text : list Z) : Result Values :=
  if existsb (Z.eqb 0) text then FromStatus (Status.Fail InvalidFormat "config text contains a NUL byte")
  else if negb (IsValidUtf8 text) then FromStatus (Status.Fail InvalidFormat "config text is not valid UTF-8")
  else if HasUnsupportedLineEnding text then
    FromStatus (Status.Fail InvalidFormat "config text uses an unsupported line ending")
  else
    let text := if starts_with Utf8ByteOrderMark text then drop (length Utf8ByteOrderMark) text else text in
    ParseLines (length text) text 1 ∅.

Definition MissingKey : Status := Status.Fail NotFound "config key was not found".

Definition LoadFromFile (path : list Z) (opens : list (SystemCall unit)) (reads : list (SystemCall (list Z))) : option (Result Values) :=
  if (len path =? 0) || existsb (Z.eqb 0) path || negb (IsValidUtf8 path) then
    Some (FromStatus (Status.Fail InvalidArgument "config path must be non-empty UTF-8 text"))
  else
    match ReadConfigText opens reads with
    | Some (FromValue text) => Some (ParseConfigText text)
    | Some (FromStatus s) => Some (FromStatus s)
    | None => None
    end.

(** A [Config] that has been moved from has no storage. *)
Definition FindValue (storage : option Values) (key : list Z) : option (list Z) :=
  match storage with Some values => values !! key | None => None end.

Definition INT_MIN : Z := - 2 ^ 31.
Definition INT_MAX : Z := 2 ^ 31 - 1.

Definition GetInt (storage : option Values) (key : list Z) : Result Z :=
  if negb (IsValidKey key) then FromStatus (Status.Fail InvalidArgument "config key is not valid")
  else
    match FindValue storage key with
    | None => FromStatus MissingKey
    | Some value =>
        match from_chars_integer INT_MIN INT_MAX value with
        | (errc_ok, [], integer) => FromValue integer
        | _ => FromStatus (Status.Fail InvalidFormat "config value is not a decimal int")
        end
    end.

Definition GetString (storage : option Values) (key : list Z) : Result (list Z) :=
  if negb (IsValidKey key) then FromStatus (Status.Fail InvalidArgument "config key is not valid")
  else match FindValue storage key with None => FromStatus MissingKey | Some value => FromValue value end.

End Config.
Import Config.

(** ** Trimming *)

Definition blank (p : list Z) : Prop := Forall (fun c => IsHorizontalWhitespace c = true) p.

(** Neither end is white space. *)
Definition trimmed (v : list Z) : Prop :=
  (forall c, head v = Some c -> IsHorizontalWhitespace c = false) /\ (forall c, last v = Some c -> IsHorizontalWhitespace c = false).

Lemma trim_front_spec (s : list Z) : exists p, blank p /\ s = p ++ TrimFront s /\ (forall c, head (TrimFront s) = Some c -> IsHorizontalWhitespace c = false).
Proof.
  induction s as [|c s (p & Hp & Hs & Hh)]; [exists []; repeat split; [constructor|done]|]. cbn [TrimFront]. destruct (IsHorizontalWhitespace c) eqn:E.
  - exists (c :: p). split; [by constructor|]. split; [cbn [app]; congruence|done].
  - exists []. repeat split; [constructor|]. by intros x [= <-].
Qed.

Lemma trim_front_blank (p s : list Z) : blank p -> (forall c, head s = Some c -> IsHorizontalWhitespace c = false) -> TrimFront (p ++ s) = s.
Proof.
  induction 1 as [|c p Hc Hp IH]; intros Hs; cbn [app TrimFront]; [|rewrite Hc; by apply IH].
  destruct s as [|c s]; [done|]. cbn [TrimFront]. by rewrite (Hs c eq_refl).
Qed.

Lemma blank_rev (p : list Z) : blank p -> blank (rev p).
Proof. apply Forall_rev. Qed.

Lemma head_rev (s : list Z) : head (rev s) = last s.
Proof. induction s as [|x s _] using rev_ind; [done|]. by rewrite rev_app_distr, last_snoc. Qed.

Lemma last_rev (s : list Z) : last (rev s) = head s.
Proof. rewrite <-head_rev. by rewrite rev_involutive. Qed.

Lemma trim_unique (p v q : list Z) : blank p -> blank q -> trimmed v -> TrimHorizontalWhitespace (p ++ v ++ q) = v.
Proof.
  intros Hp Hq [Hh Hl]. unfold TrimHorizontalWhitespace. destruct v as [|c v].
  - cbn [app]. assert (TrimFront (p ++ q) = []) as ->; [|done]. rewrite <-(app_nil_r (p ++ q)). apply trim_front_blank; [by apply Forall_app|done].
  - rewrite trim_front_blank; [|done|intros x [= <-]; by apply Hh]. rewrite rev_app_distr, trim_front_blank; [by rewrite rev_involutive|by apply blank_rev|].
    rewrite head_rev. done.
Qed.

Lemma trim_spec (s : list Z) : exists p q, blank p /\ blank q /\ s = p ++ TrimHorizontalWhitespace s ++ q /\ trimmed (TrimHorizontalWhitespace s).
Proof.
  unfold TrimHorizontalWhitespace. destruct (trim_front_spec s) as (p & Hp & Hs & Hh). destruct (trim_front_spec (rev (TrimFront s))) as (q & Hq & Ht & Hl).
  exists p, (rev q). assert (TrimFront s = rev (TrimFront (rev (TrimFront s))) ++ rev q) as E by (rewrite <-rev_app_distr, <-Ht; by rewrite rev_involutive).
  split; [done|]. split; [by apply blank_rev|]. split; [by rewrite <-E|]. split; [|by intros c; rewrite last_rev; apply Hl].
  intros c Hc. apply Hh. rewrite E. by destruct (rev (TrimFront (rev (TrimFront s)))).
Qed.

(** ** Lines *)

(** The grammar of a line, without its ending: what it declares. *)
Inductive Line : list Z -> option (list Z * list Z) -> Prop :=
| LineBlank (pad : list Z) : blank pad -> Line pad None
| LineComment (pad text : list Z) : blank pad -> Line (pad ++ char_code "#" :: text) None
| LineEntry (p1 key p2 p3 value p4 : list Z) : blank p1 -> blank p2 -> blank p3 -> blank p4 -> IsValidKey key = true -> trimmed value ->
    Line (p1 ++ key ++ p2 ++ char_code "=" :: p3 ++ value ++ p4) (Some (key, value)).

(** The values with what a line declares; a key is declared once. *)
Definition declares (e : option (list Z * list Z)) (values values' : Values) : Prop :=
  match e with None => values' = values | Some (k, v) => values !! k = None /\ values' = <[k := v]> values end.

Lemma key_character (c : Z) : KeyCharacter c = true -> IsHorizontalWhitespace c = false /\ c <> char_code "=" /\ c <> char_code "#".
Proof. unfold KeyCharacter, IsHorizontalWhitespace. eval_chars. lia. Qed.

Lemma key_spec (key : list Z) : IsValidKey key = true -> (exists c k, key = c :: k) /\ Forall (fun c => KeyCharacter c = true) key.
Proof.
  unfold IsValidKey. rewrite andb_true_iff. intros [H1 H2]. split; [destruct key; [done|eauto]|]. apply Forall_forall. intros c Hc.
  rewrite forallb_forall in H2. by apply H2, list_elem_of_In.
Qed.

Lemma key_trimmed (key : list Z) : IsValidKey key = true -> trimmed key.
Proof.
  intros H. destruct (key_spec key H) as [_ Hk]. rewrite Forall_forall in Hk. split; intros c Hc; apply key_character, Hk.
  - destruct key; [done|]. injection Hc as ->. by left.
  - apply last_Some in Hc as [l ->]. set_solver.
Qed.

Lemma blank_no (p : list Z) (c : Z) : blank p -> IsHorizontalWhitespace c = false -> c ∉ p.
Proof. intros H Hc Hin. unfold blank in H. rewrite Forall_forall in H. specialize (H c Hin). cbn in H. congruence. Qed.

Lemma trim_blank (p : list Z) : blank p -> TrimHorizontalWhitespace p = [].
Proof. intros H. rewrite <-(app_nil_r p). by apply (trim_unique p [] []); [|constructor|split]. Qed.

Lemma trim_hash (pad text : list Z) : blank pad -> exists t, TrimHorizontalWhitespace (pad ++ char_code "#" :: text) = char_code "#" :: t.
Proof.
  intros Hp. unfold TrimHorizontalWhitespace. rewrite trim_front_blank by (done || by intros x [= <-]).
  destruct (trim_front_spec (rev (char_code "#" :: text))) as (q & Hq & Hs & _). cbn [rev] in *.
  assert (rev text ++ [char_code "#"] = q ++ TrimFront (rev text ++ [char_code "#"])) as E by done.
  destruct (TrimFront (rev text ++ [char_code "#"])) as [|x l _] using rev_ind.
  - rewrite app_nil_r in E. exfalso. assert (char_code "#" ∈ q) as Hin by (rewrite <-E; set_solver). by apply (blank_no q (char_code "#") Hq).
  - rewrite app_assoc in E. apply app_inj_tail in E as [_ <-]. exists (rev l). by rewrite rev_app_distr.
Qed.

(** A line with a declaration: it is trimmed to the key, the separator and the value with the white space between them. *)
Lemma trim_entry (p1 key p2 p3 value p4 : list Z) : blank p1 -> blank p2 -> blank p3 -> blank p4 -> IsValidKey key = true -> trimmed value ->
  exists a, TrimHorizontalWhitespace (p1 ++ key ++ p2 ++ char_code "=" :: p3 ++ value ++ p4) = key ++ p2 ++ char_code "=" :: a
    /\ TrimHorizontalWhitespace a = value.
Proof.
  intros H1 H2 H3 H4 Hk Hv. destruct (key_spec key Hk) as [(c & k & ->) _]. pose proof (key_trimmed _ Hk) as [Ht _].
  destruct value as [|v0 value0 _] using rev_ind.
  - exists []. split; [|done]. cbn [app].
    replace (p1 ++ c :: k ++ p2 ++ char_code "=" :: p3 ++ p4) with (p1 ++ ((c :: k) ++ p2 ++ [char_code "="]) ++ (p3 ++ p4)) by (by rewrite <-!app_assoc).
    apply trim_unique; [done|by apply Forall_app|]. split; [intros x [= <-]; by apply Ht|]. intros x.
    change ((c :: k) ++ p2 ++ [char_code "="]) with (c :: (k ++ p2 ++ [char_code "="])). rewrite app_assoc, app_comm_cons, last_snoc. by intros [= <-].
  - exists (p3 ++ value0 ++ [v0]). split; [|rewrite <-(app_nil_r (p3 ++ _)), <-app_assoc; by apply trim_unique; [|constructor|]].
    replace (p1 ++ (c :: k) ++ p2 ++ char_code "=" :: p3 ++ (value0 ++ [v0]) ++ p4)
      with (p1 ++ ((c :: k) ++ p2 ++ char_code "=" :: p3 ++ value0 ++ [v0]) ++ p4) by (rewrite <-!app_assoc; cbn [app]; by rewrite <-!app_assoc).
    apply trim_unique; [done|done|]. split; [intros x [= <-]; by apply Ht|]. intros x.
    replace ((c :: k) ++ p2 ++ char_code "=" :: p3 ++ value0 ++ [v0]) with (((c :: k) ++ p2 ++ char_code "=" :: p3 ++ value0) ++ [v0])
      by (rewrite <-!app_assoc; cbn [app]; by rewrite <-!app_assoc).
    rewrite last_snoc. intros [= <-]. apply Hv. by rewrite last_snoc.
Qed.

Lemma key_cut (key p2 a : list Z) : IsValidKey key = true -> blank p2 ->
  cut (char_code "=") (key ++ p2 ++ char_code "=" :: a) = (key ++ p2, Some a).
Proof.
  intros Hk Hp. rewrite app_assoc. apply cut_app. rewrite elem_of_app. intros [Hin|Hin]; [|by apply (blank_no p2 (char_code "=") Hp)].
  destruct (key_spec key Hk) as [_ Hf]. rewrite Forall_forall in Hf. by apply Hf, key_character in Hin as (_ & Hin & _).
Qed.

Lemma parse_line_complete (n : Z) (line : list Z) (e : option (list Z * list Z)) (values values' : Values) :
  Line (StripCarriageReturn line) e -> declares e values values' -> ParseLine n line values = FromValue values'.
Proof.
  unfold ParseLine. intros Hl Hd. destruct Hl as [pad Hp|pad text Hp|p1 key p2 p3 value p4 H1 H2 H3 H4 Hk Hv].
  - rewrite trim_blank by done. cbn in Hd. congruence.
  - destruct (trim_hash pad text Hp) as [t ->]. rewrite Z.eqb_refl. cbn in Hd. congruence.
  - destruct (trim_entry p1 key p2 p3 value p4 H1 H2 H3 H4 Hk Hv) as (a & -> & Ha). destruct (key_spec key Hk) as [(c & k & ->) Hc].
    apply Forall_inv, key_character in Hc as (_ & _ & Hc). cbn [app]. replace (c =? char_code "#") with false by lia.
    change (c :: k ++ p2 ++ char_code "=" :: a) with ((c :: k) ++ p2 ++ char_code "=" :: a). rewrite key_cut by done.
    change ((c :: k) ++ p2) with ([] ++ (c :: k) ++ p2).
    rewrite (trim_unique [] (c :: k) p2 (Forall_nil_2 _) H2 (key_trimmed _ Hk)). rewrite Hk, Ha. cbn [negb].
    destruct Hd as [Hn ->]. by rewrite Hn.
Qed.

Lemma parse_line_sound (n : Z) (line : list Z) (values values' : Values) : ParseLine n line values = FromValue values' ->
  exists e, Line (StripCarriageReturn line) e /\ declares e values values'.
Proof.
  unfold ParseLine. destruct (trim_spec (StripCarriageReturn line)) as (p & q & Hp & Hq & Hs & Ht).
  destruct (TrimHorizontalWhitespace (StripCarriageReturn line)) as [|c t]; [|destruct (c =? char_code "#") eqn:Eh].
  - intros [= <-]. exists None. split; [|done]. rewrite Hs. apply LineBlank. by apply Forall_app.
  - intros [= <-]. exists None. split; [|done]. rewrite Hs. apply Z.eqb_eq in Eh as ->. by apply LineComment.
  - destruct (cut (char_code "=") (c :: t)) as [before [after|]] eqn:Ec; [|done]. pose proof (cut_inv (char_code "=") (c :: t)) as Hc. rewrite Ec in Hc. clear Ec. rename Hc into Ec.
    destruct (IsValidKey (TrimHorizontalWhitespace before)) eqn:Ek; [|done]. cbn [negb]. destruct (values !! _) eqn:Ev; [done|]. intros [= <-].
    destruct (trim_spec before) as (p' & q' & Hp' & Hq' & Hs' & Ht'). destruct (trim_spec after) as (p3 & q3 & Hp3 & Hq3 & Hs3 & Ht3).
    exists (Some (TrimHorizontalWhitespace before, TrimHorizontalWhitespace after)). split; [|done].
    rewrite Hs, Ec, Hs', Hs3 at 1. clear Hs Ec.
    replace (p ++ ((p' ++ TrimHorizontalWhitespace before ++ q') ++ char_code "=" :: p3 ++ TrimHorizontalWhitespace after ++ q3) ++ q)
      with ((p ++ p') ++ TrimHorizontalWhitespace before ++ q' ++ char_code "=" :: p3 ++ TrimHorizontalWhitespace after ++ (q3 ++ q))
      by (rewrite <-!app_assoc; cbn [app]; by rewrite <-!app_assoc).
    apply LineEntry; try done; by apply Forall_app.
Qed.

(** ** Texts *)

Inductive declared : list (option (list Z * list Z)) -> Values -> Values -> Prop :=
| declared_nil (values : Values) : declared [] values values
| declared_cons (e : option (list Z * list Z)) (es : list (option (list Z * list Z))) (values values' values'' : Values) :
    declares e values values' -> declared es values' values'' -> declared (e :: es) values values''.

Definition line_of (line : list Z) (e : option (list Z * list Z)) : Prop := Line (StripCarriageReturn line) e.

Lemma parse_lines_complete (fuel : nat) (text : list Z) (n : Z) (es : list (option (list Z * list Z))) (values values' : Values) :
  (length text <= fuel)%nat -> Forall2 line_of (split_on 10 text) es -> declared es values values' -> ParseLines fuel text n values = FromValue values'.
Proof.
  revert text n es values. induction fuel as [|fuel IH]; intros text n es values Hf H2 Hd.
  all: destruct text as [|c text]; [apply Forall2_cons_inv_l in H2 as (e & es' & Hl & H2 & ->); apply Forall2_nil_inv_l in H2 as ->;
    inversion Hd as [|? ? ? v1 ? Hd1 Hd2]; subst; inversion Hd2; subst; pose proof (parse_line_complete n [] e _ _ Hl Hd1); by destruct values|].
  { cbn in Hf. lia. }
  cbn [ParseLines]. pose proof (split_on_cut 10 (c :: text)) as Hs. destruct (cut 10 (c :: text)) as [line rest] eqn:Ec.
  destruct rest as [rest|]; rewrite Hs in H2; apply Forall2_cons_inv_l in H2 as (e & es' & Hl & H2 & ->); inversion Hd as [|? ? ? v1 ? Hd1 Hd2]; subst;
    rewrite (parse_line_complete n line e values v1 Hl Hd1).
  - apply (IH rest (n + 1) es'); [|done|done]. apply cut_length in Ec. cbn in *. lia.
  - apply Forall2_nil_inv_l in H2 as ->. by inversion Hd2; subst.
Qed.

Lemma parse_lines_sound (fuel : nat) (text : list Z) (n : Z) (values values' : Values) : (length text <= fuel)%nat ->
  ParseLines fuel text n values = FromValue values' -> exists es, Forall2 line_of (split_on 10 text) es /\ declared es values values'.
Proof.
  revert text n values. induction fuel as [|fuel IH]; intros text n values Hf H.
  all: destruct text as [|c text]; [injection H as <-; exists [None]; split; [by repeat constructor|by econstructor; [|constructor]]|].
  { cbn in Hf. lia. }
  cbn [ParseLines] in H. pose proof (split_on_cut 10 (c :: text)) as Hs. destruct (cut 10 (c :: text)) as [line rest] eqn:Ec.
  destruct (ParseLine n line values) as [v1|] eqn:El; [|done]. apply parse_line_sound in El as (e & Hl & Hd).
  destruct rest as [rest|]; rewrite Hs.
  - apply IH in H as (es & H2 & Hes); [|apply cut_length in Ec; cbn in *; lia]. exists (e :: es). split; [by constructor|by econstructor].
  - injection H as <-. exists [e]. split; [by repeat constructor|by econstructor; [|constructor]].
Qed.

(** The declarations of the lines, in order. *)
Definition entries (es : list (option (list Z * list Z))) : list (list Z * list Z) := omap id es.

Lemma declared_spec (es : list (option (list Z * list Z))) (values values' : Values) : declared es values values' <->
  NoDup (entries es).*1 /\ (forall k, k ∈ (entries es).*1 -> values !! k = None) /\ values' = list_to_map (entries es) ∪ values.
Proof.
  revert values. induction es as [|e es IH]; intros values.
  - change (entries []) with (@nil (list Z * list Z)). split; [intros H; inversion H; subst; split; [by apply NoDup_nil|]; split; [set_solver|symmetry; apply (map_empty_union values')]|].
    intros (_ & _ & ->). rewrite (map_empty_union values : list_to_map [] ∪ values = values). constructor.
  - transitivity (exists v1, declares e values v1 /\ declared es v1 values').
    { split; [intros H; inversion H; subst; eauto|intros (v1 & H1 & H2); by econstructor]. }
    setoid_rewrite IH. clear IH. destruct e as [[k v]|]; cbn [declares].
    + change (entries (Some (k, v) :: es)) with ((k, v) :: entries es). rewrite !fmap_cons. cbn [fst list_to_map foldr]. rewrite NoDup_cons. split.
      * intros (v1 & [Hk ->] & Hn & Hl & ->). assert (k ∉ (entries es).*1) as Hi.
        { intros Hi. specialize (Hl k Hi). by rewrite lookup_insert_eq in Hl. }
        split; [done|]. split.
        -- intros x [->|Hx]%elem_of_cons; [done|]. specialize (Hl x Hx). rewrite lookup_insert_ne in Hl by (intros <-; done). done.
        -- rewrite <-insert_union_r by (by apply not_elem_of_list_to_map_1). by rewrite insert_union_l.
      * intros ([Hi Hn] & Hl & ->). exists (<[k := v]> values). split; [split; [apply Hl; set_solver|done]|]. split; [done|]. split.
        -- intros x Hx. rewrite lookup_insert_ne by (intros <-; done). apply Hl. set_solver.
        -- rewrite <-insert_union_r by (by apply not_elem_of_list_to_map_1). by rewrite insert_union_l.
    + split; [intros (v1 & -> & H); exact H|intros H; exists values; split; [done|exact H]].
Qed.

Lemma parse_line_code (n : Z) (line : list Z) (values : Values) (s : Status) : ParseLine n line values = FromStatus s -> Status.Code s = InvalidFormat.
Proof. unfold ParseLine. intros H. repeat case_match_in H; simplify_eq; done. Qed.

Lemma parse_lines_code (fuel : nat) (text : list Z) (n : Z) (values : Values) (s : Status) : ParseLines fuel text n values = FromStatus s -> Status.Code s = InvalidFormat.
Proof.
  revert text n values. induction fuel as [|fuel IH]; intros [|c text] n values H; try done. cbn [ParseLines] in H. destruct (cut 10 (c :: text)) as [line rest].
  destruct (ParseLine n line values) eqn:El; [destruct rest; [by eapply IH|done]|]. injection H as <-. by eapply parse_line_code.
Qed.

(** The lines of a text, without its byte order mark. *)
Definition lines (text : list Z) : list (list Z) :=
  split_on 10 (if starts_with Utf8ByteOrderMark text then drop (length Utf8ByteOrderMark) text else text).

Lemma no_nul (text : list Z) : existsb (Z.eqb 0) text = false <-> 0 ∉ text.
Proof.
  rewrite <-not_true_iff_false, existsb_exists. split.
  - intros H Hin. apply H. exists 0. split; [by apply list_elem_of_In|done].
  - intros H (x & Hx & Hz). apply Z.eqb_eq in Hz as <-. by apply H, list_elem_of_In.
Qed.

(** ** Writing and loading *)

(** A value that can be written on a line. *)
Definition printable (v : list Z) : Prop := trimmed v /\ utf8 v /\ 0 ∉ v /\ 10 ∉ v /\ 13 ∉ v.

Definition print_entry (entry : list Z * list Z) : list Z := entry.1 ++ txt " = " ++ entry.2.
Definition print_line (crlf : bool) (entry : list Z * list Z) : list Z := print_entry entry ++ if crlf then [13; 10] else [10].
Definition print (crlf : bool) (values : Values) : list Z := concat (map (print_line crlf) (map_to_list values)).

(** Any number of interruptions, then a file; a text in pieces with interruptions in between. *)
Inductive opened : list (SystemCall unit) -> Prop :=
| opened_now (opens : list (SystemCall unit)) : opened (Returned () :: opens)
| opened_later (opens : list (SystemCall unit)) : opened opens -> opened (Failed EINTR :: opens).

Inductive delivered : list (SystemCall (list Z)) -> list Z -> Prop :=
| delivered_end (reads : list (SystemCall (list Z))) : delivered (Returned [] :: reads) []
| delivered_piece (c : Z) (piece : list Z) (reads : list (SystemCall (list Z))) (text : list Z) :
    delivered reads text -> delivered (Returned (c :: piece) :: reads) ((c :: piece) ++ text)
| delivered_later (reads : list (SystemCall (list Z))) (text : list Z) : delivered reads text -> delivered (Failed EINTR :: reads) text.

Lemma open_file_opened (opens : list (SystemCall unit)) : opened opens -> OpenFile opens = Some Status.Ok.
Proof. by induction 1. Qed.

Lemma read_file_delivered (reads : list (SystemCall (list Z))) (text before : list Z) :
  delivered reads text -> ReadFile reads before = Some (FromValue (before ++ text)).
Proof.
  intros H. revert before. induction H as [reads|c piece reads text H IH|reads text H IH]; intros before; cbn [ReadFile].
  - by rewrite app_nil_r.
  - replace (len (c :: piece) =? 0) with false by (unfold len; cbn [length]; lia). rewrite IH. by rewrite app_assoc.
  - apply IH.
Qed.

Lemma key_ascii (key : list Z) : IsValidKey key = true -> Forall (fun c => ascii_byte c /\ 32 < c) key.
Proof.
  intros H. destruct (key_spec key H) as [_ Hk]. eapply Forall_impl; [exact Hk|]. intros c Hc. cbn in Hc. unfold KeyCharacter in Hc. unfold ascii_byte. eval_chars. lia.
Qed.

Lemma print_entry_spec (entry : list Z * list Z) : IsValidKey entry.1 = true -> printable entry.2 ->
  utf8 (print_entry entry) /\ 0 ∉ print_entry entry /\ 10 ∉ print_entry entry /\ 13 ∉ print_entry entry.
Proof.
  destruct entry as [k v]. cbn [fst snd]. unfold print_entry. intros Hk (Ht & Hu & H0 & H10 & H13). apply key_ascii in Hk. cbn [fst snd]. split.
  - apply utf8_app; [apply utf8_ascii; eapply Forall_impl; [exact Hk|]; by intros c [? _]|]. apply utf8_app; [|done]. apply utf8_ascii. by repeat constructor.
  - assert (forall c, c <= 13 -> c ∉ k) as Hn by (intros c Hc Hin; rewrite Forall_forall in Hk; apply Hk in Hin as [_ Hin]; lia).
    rewrite !not_elem_of_app. repeat split; try (apply Hn; lia); try done; intros Hin; vm_compute in Hin; repeat (apply elem_of_cons in Hin as [Hin|Hin]; [done|]); by apply elem_of_nil in Hin.
Qed.

Lemma print_entry_line (crlf : bool) (entry : list Z * list Z) : IsValidKey entry.1 = true -> printable entry.2 ->
  line_of (print_entry entry ++ if crlf then [13] else []) (Some entry).
Proof.
  intros Hk Hv. pose proof (print_entry_spec entry Hk Hv) as (_ & _ & _ & H13). unfold line_of.
  assert (StripCarriageReturn (print_entry entry ++ if crlf then [13] else []) = print_entry entry) as ->.
  { unfold StripCarriageReturn. destruct crlf; [rewrite last_snoc; apply removelast_last|]. rewrite app_nil_r.
    destruct (last (print_entry entry)) as [c|] eqn:E; [|done]. apply last_Some in E as [l El]. rewrite El in H13. replace (c =? 13) with false; [done|]. set_solver by lia. }
  destruct entry as [k v]. assert (print_entry (k, v) = [] ++ k ++ [32] ++ char_code "=" :: [32] ++ v ++ []) as -> by (by rewrite app_nil_r).
  apply LineEntry; try done; [by repeat constructor..|apply Hv].
Qed.

Lemma unsupported_line (crlf : bool) (l t : list Z) : 13 ∉ l ->
  HasUnsupportedLineEnding (l ++ (if crlf then [13; 10] else [10]) ++ t) = HasUnsupportedLineEnding t.
Proof.
  induction l as [|c l IH]; intros H; [by destruct crlf|]. cbn [app HasUnsupportedLineEnding]. rewrite IH by set_solver. replace (c =? 13) with false by set_solver by lia. done.
Qed.

Lemma print_spec (crlf : bool) (l : list (list Z * list Z)) : Forall (fun e => IsValidKey e.1 = true /\ printable e.2) l ->
  let text := concat (map (print_line crlf) l) in
  utf8 text /\ 0 ∉ text /\ HasUnsupportedLineEnding text = false
  /\ Forall2 line_of (split_on 10 text) (map Some l ++ [None]).
Proof.
  cbn zeta. induction 1 as [|e l [Hk Hv] _ (H1 & H2 & H3 & H4)]; cbn [map concat app].
  - split; [apply utf8_nil|]. split; [set_solver|]. split; [done|]. repeat constructor.
  - destruct (print_entry_spec e Hk Hv) as (E1 & E2 & E3 & E4). unfold print_line at 1 3 5 7. split.
    { apply utf8_app; [|done]. apply utf8_app; [done|]. apply utf8_ascii. by destruct crlf; repeat constructor. }
    split; [rewrite !not_elem_of_app; repeat split; try done; destruct crlf; set_solver by lia|].
    split; [by rewrite <-app_assoc, unsupported_line|].
    assert ((print_entry e ++ (if crlf then [13; 10] else [10])) ++ concat (map (print_line crlf) l)
      = (print_entry e ++ if crlf then [13] else []) ++ 10 :: concat (map (print_line crlf) l)) as -> by (destruct crlf; by rewrite <-!app_assoc).
    rewrite split_on_cut, cut_app by (destruct crlf; set_solver by lia). constructor; [by apply print_entry_line|done].
Qed.

Lemma print_no_mark (crlf : bool) (l : list (list Z * list Z)) : Forall (fun e => IsValidKey e.1 = true /\ printable e.2) l ->
  starts_with Utf8ByteOrderMark (concat (map (print_line crlf) l)) = false.
Proof.
  intros H. destruct H as [|[k v] l [Hk _] _]; [done|]. apply key_ascii in Hk as Ha. destruct (key_spec _ Hk) as [(c & k' & E) _]. cbn [fst] in E. subst k.
  apply Forall_inv in Ha as [Ha _]. unfold ascii_byte in Ha. cbn [map concat print_line print_entry fst app starts_with Utf8ByteOrderMark]. destruct (239 =? c) eqn:E; [lia|done].
Qed.

(** Every key and value of a map. *)
Lemma map_entries (values : Values) (P : list Z * list Z -> Prop) : (forall k v, values !! k = Some v -> P (k, v)) -> Forall P (map_to_list values).
Proof. intros H. apply Forall_forall. intros [k v] Hin. by apply H, elem_of_map_to_list. Qed.

Lemma entries_some (l : list (list Z * list Z)) : entries (map Some l ++ [None]) = l.
Proof. unfold entries. induction l as [|e l IH]; [done|]. cbn. by f_equal. Qed.

(** ** Properties *)

(** The reader accepts exactly its grammar: valid UTF-8 without NUL, with LF or CRLF line ends, whose lines are blank, comments
    or declarations of different keys; the values are those declared, and everything else is refused as InvalidFormat. *)
Theorem config_grammar (text : list Z) (values : Values) :
  (ParseConfigText text = FromValue values <->
     0 ∉ text /\ IsValidUtf8 text = true /\ HasUnsupportedLineEnding text = false
     /\ exists es, Forall2 line_of (lines text) es /\ NoDup (entries es).*1 /\ values = list_to_map (entries es))
  /\ (Result.IsOk (ParseConfigText text) = false -> Result.code (ParseConfigText text) = InvalidFormat).
Proof.
  unfold ParseConfigText. rewrite <-no_nul. split.
  - destruct (existsb (Z.eqb 0) text) eqn:E1; [by split; [|intros [? _]]|]. destruct (IsValidUtf8 text) eqn:E2; [|by split; [|intros (_ & ? & _)]].
    destruct (HasUnsupportedLineEnding text) eqn:E3; [by split; [|intros (_ & _ & ? & _)]|]. cbn [negb]. unfold lines.
    set (t := if starts_with _ _ then _ else _). split.
    + intros H. repeat split. apply parse_lines_sound in H as (es & H1 & H2); [|done]. apply declared_spec in H2 as (H2 & _ & ->). exists es.
      rewrite map_union_empty. done.
    + intros (_ & _ & _ & es & H1 & H2 & ->). apply (parse_lines_complete _ _ _ es); [done|done|]. apply declared_spec. rewrite map_union_empty.
      split; [done|]. split; [|done]. intros k _. apply lookup_empty.
  - do 3 (case_if; [done|]). set (t := if starts_with _ _ then _ else _). destruct (ParseLines _ t 1 ∅) eqn:E4; [done|]. intros _. by apply parse_lines_code in E4.
Qed.

(** What is written key by key is loaded again: the text of any values with valid keys and printable values, with either line ending,
    read in any pieces and with any interruptions, loads as these values. *)
Theorem config_round_trip (path : list Z) (crlf : bool) (values : Values) (opens : list (SystemCall unit)) (reads : list (SystemCall (list Z))) :
  path <> [] -> 0 ∉ path -> IsValidUtf8 path = true ->
  (forall k v, values !! k = Some v -> IsValidKey k = true /\ printable v) ->
  opened opens -> delivered reads (print crlf values) ->
  LoadFromFile path opens reads = Some (FromValue values).
Proof.
  intros Hp H0 Hu Hv Ho Hr. unfold LoadFromFile, ReadConfigText. rewrite (open_file_opened opens Ho), (read_file_delivered reads _ [] Hr).
  replace (len path =? 0) with false by (destruct path; [done|unfold len; cbn [length]; lia]). rewrite (proj2 (no_nul path) H0), Hu. change (Status.IsOk Status.Ok) with true. cbn [orb negb].
  assert (Forall (fun e => IsValidKey e.1 = true /\ printable e.2) (map_to_list values)) as Hf by (by apply map_entries).
  destruct (print_spec crlf _ Hf) as ((_ & H1) & H2 & H3 & H4). fold (print crlf values) in H1, H2, H3, H4. change ([] ++ print crlf values) with (print crlf values).
  unfold ParseConfigText. rewrite (proj2 (no_nul _) H2), H1, H3. cbn [negb].
  rewrite (print_no_mark crlf _ Hf : starts_with Utf8ByteOrderMark (print crlf values) = false). f_equal.
  apply (parse_lines_complete _ _ _ (map Some (map_to_list values) ++ [None])); [done|done|]. apply declared_spec. rewrite entries_some, map_union_empty.
  split; [apply NoDup_fst_map_to_list|]. split; [intros k _; apply lookup_empty|]. symmetry. apply list_to_map_to_list.
Qed.

Lemma config_round_trip_witness :
  LoadFromFile (txt "server.conf") [Failed EINTR; Returned ()] [Returned (txt "port "); Failed EINTR; Returned (txt "= 80" ++ [13; 10]); Returned []]
    = Some (FromValue {[ txt "port" := txt "80" ]})
  /\ GetInt (Some {[ txt "port" := txt "80" ]}) (txt "port") = FromValue 80.
Proof.
  split; [|vm_compute; reflexivity].
  apply (config_round_trip (txt "server.conf") true {[ txt "port" := txt "80" ]}); try (vm_compute; congruence).
  - apply no_nul. reflexivity.
  - intros k v H. apply lookup_singleton_Some in H as [<- <-]. split; [reflexivity|]. split; [split; intros c [= <-]; reflexivity|].
    split; [apply utf8_ascii; by repeat constructor|]. repeat split; intros Hin; vm_compute in Hin;
    repeat (apply elem_of_cons in Hin as [Hin|Hin]; [discriminate Hin|]); by apply elem_of_nil in Hin.
  - repeat constructor.
  - change (print true {[ txt "port" := txt "80" ]}) with (txt "port " ++ ((txt "= 80" ++ [13; 10]) ++ [])).
    apply delivered_piece, delivered_later, delivered_piece, delivered_end.
Defined.
