(* ===== verification/FileResponse.v ===== *)
(** * Web: conditional and range requests for files.

    [Web/FileResponseInternal.h]: entity tags, the dates of conditional fields and the plan of the response to a
    request for a file: its status, the bytes it sends and its Content-Range.  [std::get_time] of the standard
    library is an argument of the date reader (it depends on the locale's names); times are nanoseconds since the
    epoch, dates seconds, [std::chrono]'s day count is written out. *)

From S2P Require Import Prelude CoreError Charconv RequestData HttpParser PolicyInternal ResponseHead.
Import Charconv.

Module FileResponse.

Definition Quote : Z := 34.

Definition FileTrim (text : list Z) : list Z := RequestData.Trim text.

Definition StripWeak (tag : list Z) : list Z := if starts_with (txt "W/") tag then drop 2 tag else tag.

Definition TagByte (byte : Z) : bool := negb ((byte <? 0x21) || (byte =? 0x22) || (byte =? 0x7f)).

Definition ValidEntityTag (tag : list Z) : bool :=
  match StripWeak tag with
  | first :: rest =>
      match last rest with
      | Some final => (first =? Quote) && (final =? Quote) && forallb TagByte (removelast rest)
      | None => false
      end
  | [] => false
  end.

(** Whether one tag of a field is the actual one. *)
Definition TagMatches (tag actual : list Z) (weak : bool) : bool :=
  let tag := if weak then StripWeak tag else tag in
  let target := if weak then StripWeak actual else actual in
  bytes_eqb tag target && (weak || (negb (starts_with (txt "W/") tag) && negb (starts_with (txt "W/") target))).

(** The tag at the front of the list and what follows it; [None]: the list is not valid. *)
Definition NextTag (list_ : list Z) : option (list Z * list Z) :=
  let prefix := if starts_with (txt "W/") list_ then 2%nat else 0%nat in
  match drop prefix list_ with
  | c :: rest =>
      if negb (c =? Quote) then None
      else
        match cut Quote rest with
        | (_, None) => None
        | (inside, Some after) =>
            let tag := take prefix list_ ++ Quote :: inside ++ [Quote] in
            if ValidEntityTag tag then Some (tag, after) else None
        end
  | [] => None
  end.

Fixpoint TagLoop (fuel : nat) (list_ actual : list Z) (weak matched : bool) : bool :=
  match list_, fuel with
  | [], _ => matched
  | _ :: _, O => matched
  | _ :: _, S fuel =>
      match NextTag (FileTrim list_) with
      | None => false
      | Some (tag, after) =>
          let matched := if TagMatches tag actual weak then true else matched in
          match FileTrim after with
          | [] => matched
          | c :: rest => if c =? char_code "," then TagLoop fuel rest actual weak matched else false
          end
      end
  end.

Definition EntityTagMatches (list_ actual : list Z) (weak : bool) : bool :=
  let list_ := FileTrim list_ in
  if bytes_eqb list_ (txt "*") then true else TagLoop (length list_) list_ actual weak false.

(** ** Dates *)

Record Tm : Type := MkTm { tm_sec : Z; tm_min : Z; tm_hour : Z; tm_mday : Z; tm_mon : Z; tm_year : Z }.

Definition IsLeap (year : Z) : bool := (year mod 4 =? 0) && (negb (year mod 100 =? 0) || (year mod 400 =? 0)).

Definition LastDay (year month : Z) : Z :=
  if month =? 2 then (if IsLeap year then 29 else 28)
  else if (month =? 4) || (month =? 6) || (month =? 9) || (month =? 11) then 30 else 31.

(** [year_month_day::ok]. *)
Definition DateOk (year month day : Z) : bool :=
  (-32767 <=? year) && (year <=? 32767) && (1 <=? month) && (month <=? 12) && (1 <=? day) && (day <=? LastDay year month).

(** [std::chrono::sys_days]: the days since 1970-01-01. *)
Definition SysDays (year month day : Z) : Z :=
  let y := if month <=? 2 then year - 1 else year in
  let era := y / 400 in
  let yoe := y - era * 400 in
  let doy := (153 * (if 2 <? month then month - 3 else month + 9) + 2) / 5 + day - 1 in
  let doe := yoe * 365 + yoe / 4 - yoe / 100 + doy in
  era * 146097 + doe - 719468.

Definition DateFormats : list (list Z) :=
  map txt ["%a, %d %b %Y %H:%M:%S GMT"; "%A, %d-%b-%y %H:%M:%S GMT"; "%a %b %d %H:%M:%S %Y"]%string.

Section Dates.
(** What [std::get_time] reads of a text in a format, and what it leaves; [None]: it fails. *)
Context (get_time : list Z -> list Z -> option (Tm * list Z)).

(** The full year of a format; [current] is this year. *)
Definition FullYear (current : Z) (format : list Z) (parsed : Tm) : Z :=
  let year := tm_year parsed + 1900 in
  match cut_sub (txt "%y") format with
  | (_, Some _) =>
      let year := Z.quot current 100 * 100 + Z.rem year 100 in
      if current + 50 <? year then year - 100 else year
  | _ => year
  end.

Definition ReadDate (current : Z) (format value : list Z) : option Z :=
  match get_time format value with
  | Some (parsed, []) =>
      let year := FullYear current format parsed in
      if (59 <? tm_sec parsed) || (year <? 1601) || (9999 <? year) || negb (DateOk year (tm_mon parsed + 1) (tm_mday parsed))
         || (tm_hour parsed <? 0) || (23 <? tm_hour parsed) || (tm_min parsed <? 0) || (59 <? tm_min parsed) || (tm_sec parsed <? 0) then None
      else Some (SysDays year (tm_mon parsed + 1) (tm_mday parsed) * 86400 + tm_hour parsed * 3600 + tm_min parsed * 60 + tm_sec parsed)
  | _ => None
  end.

Fixpoint FirstDate (current : Z) (formats : list (list Z)) (value : list Z) : option Z :=
  match formats with
  | [] => None
  | format :: formats => match ReadDate current format value with Some date => Some date | None => FirstDate current formats value end
  end.

Definition ParseFileDate (current : Z) (value : list Z) : option Z := FirstDate current DateFormats value.

(** ** The plan *)

Record FileResponsePlan : Type := MkPlan { status : Z; offset : Z; length_ : Z; contentRange : list Z }.

(** The values of a field, joined. *)
Fixpoint Field (headers : HttpParser.Fields) (name : list Z) (joined : option (list Z)) : option (list Z) :=
  match headers with
  | [] => joined
  | (key, value) :: headers =>
      Field headers name
        (if HttpParser.EqualInsensitive key name then Some (match joined with Some j => j ++ txt "," ++ value | None => value end) else joined)
  end.
Definition FieldOf (request : HttpParser.HttpRequest) (name : string) : option (list Z) := Field (HttpParser.headers request) (txt name) None.

Definition Retrieval (request : HttpParser.HttpRequest) : bool :=
  bytes_eqb (HttpParser.method request) (txt "GET") || bytes_eqb (HttpParser.method request) (txt "HEAD").

(** The status after the conditional fields; [modified] in nanoseconds. *)
Definition ConditionStatus (current : Z) (request : HttpParser.HttpRequest) (entityTag : list Z) (modified : Z) : Z :=
  let lastModified := modified / 1000000000 in
  let match_ := FieldOf request "if-match" in
  let status :=
    match match_ with
    | Some m => if negb (EntityTagMatches m entityTag false) then 412 else 200
    | None =>
        match FieldOf request "if-unmodified-since" with
        | Some value => match ParseFileDate current value with Some date => if date <? lastModified then 412 else 200 | None => 200 end
        | None => 200
        end
    end in
  let noneMatch := FieldOf request "if-none-match" in
  let status :=
    match noneMatch with
    | Some n => if (status =? 200) && EntityTagMatches n entityTag true then (if Retrieval request then 304 else 412) else status
    | None => status
    end in
  match noneMatch with
  | None =>
      if (status =? 200) && Retrieval request then
        match FieldOf request "if-modified-since" with
        | Some value => match ParseFileDate current value with Some date => if lastModified <=? date then 304 else status | None => status end
        | None => status
        end
      else status
  | Some _ => status
  end.

(** [integer]: a whole decimal number of 64 bits. *)
Definition Integer (text : list Z) : option Z :=
  if len text =? 0 then None else match from_chars_uint64 text with (errc_ok, [], number) => Some number | _ => None end.

Definition Unsatisfiable (size : Z) : FileResponsePlan := MkPlan 416 0 0 (txt "bytes */" ++ Digits size).
Definition Partial (offset length size : Z) : FileResponsePlan :=
  MkPlan 206 offset length (txt "bytes " ++ Digits offset ++ txt "-" ++ Digits (offset + length - 1) ++ txt "/" ++ Digits size).

(** A Range field without its conditions; [None]: it is ignored. *)
Definition PlanRange (range : list Z) (size : Z) : option FileResponsePlan :=
  let value := FileTrim range in
  if (len value <? 6) || negb (HttpParser.EqualInsensitive (take 6 value) (txt "bytes=")) then None
  else
    let value := drop 6 value in
    if bool_decide (char_code "," ∈ value) then None
    else
      match cut (char_code "-") value with
      | (_, None) => None
      | (before, Some after) =>
          if len before =? 0 then
            match Integer after with
            | None => None
            | Some last =>
                if (last =? 0) || (size =? 0) then Some (Unsatisfiable size)
                else let offset := size - Z.min size last in Some (Partial offset (size - offset) size)
            end
          else
            match Integer before with
            | None => None
            | Some first =>
                let rest last :=
                  if size <=? first then Some (Unsatisfiable size)
                  else Some (Partial first ((match last with None => size - 1 | Some last => Z.min last (size - 1) end) - first + 1) size) in
                if len after =? 0 then rest None
                else
                  match Integer after with
                  | None => None
                  | Some last => if last <? first then None else rest (Some last)
                  end
            end
      end.

(** If-Range selects the whole file unless it is the strong entity tag. *)
Definition RangeHolds (request : HttpParser.HttpRequest) (entityTag : list Z) : bool :=
  match FieldOf request "if-range" with
  | None => true
  | Some condition =>
      negb (negb (ValidEntityTag condition) || starts_with (txt "W/") condition || starts_with (txt "W/") entityTag
            || negb (bytes_eqb condition entityTag))
  end.

Definition PlanFileResponse (current : Z) (request : HttpParser.HttpRequest) (size : Z) (entityTag : list Z) (modified : Z) : FileResponsePlan :=
  let whole := MkPlan 200 0 size [] in
  let status := ConditionStatus current request entityTag modified in
  if negb (status =? 200) then MkPlan status 0 0 []
  else if negb (bytes_eqb (HttpParser.method request) (txt "GET")) then whole
  else
    match FieldOf request "range" with
    | None => whole
    | Some range => if RangeHolds request entityTag then match PlanRange range size with Some plan => plan | None => whole end else whole
    end.

End Dates.

End FileResponse.
Import FileResponse.

(** ** Ranges *)

Lemma from_chars_uint64_value (text : list Z) (n : Z) : from_chars_uint64 text = (errc_ok, [], n) -> 0 <= n.
Proof.
  unfold from_chars_uint64, from_chars_integer. intros H. destruct (match text with [] => _ | _ => _ end) as [negative body].
  destruct (span_digits body) as [ds rest]. case_if_in H; [done|]. case_if_in H; [done|]. injection H as _ <-. lia.
Qed.

Lemma integer_nonneg (text : list Z) (n : Z) : Integer text = Some n -> 0 <= n.
Proof.
  unfold Integer. intros H. case_if_in H; [done|]. destruct (from_chars_uint64 text) as [[e r] m] eqn:Ef. destruct e, r; try done. injection H as <-.
  by apply from_chars_uint64_value in Ef.
Qed.

(** What a plan with a range promises. *)
Definition partial_ok (size : Z) (p : FileResponsePlan) : Prop :=
  (status p = 206 /\ 0 <= offset p /\ 1 <= length_ p /\ offset p + length_ p <= size
   /\ contentRange p = txt "bytes " ++ Digits (offset p) ++ txt "-" ++ Digits (offset p + length_ p - 1) ++ txt "/" ++ Digits size)
  \/ p = Unsatisfiable size.

Lemma plan_range_ok (range : list Z) (size : Z) (p : FileResponsePlan) : 0 <= size -> PlanRange range size = Some p -> partial_ok size p.
Proof.
  unfold PlanRange. intros Hs H. case_if_in H; [done|]. case_if_in H; [done|]. destruct (cut _ _) as [before [after|]]; [|done]. case_if_in H.
  - destruct (Integer after) as [n|] eqn:En; [|done]. apply integer_nonneg in En. case_if_in H; injection H as <-; [by right|left].
    repeat split; cbn [Partial status offset length_]; lia.
  - destruct (Integer before) as [n|] eqn:En; [|done]. apply integer_nonneg in En.
    assert (forall last, match last with Some m => n <= m | None => True end ->
      (if size <=? n then Some (Unsatisfiable size) else Some (Partial n ((match last with None => size - 1 | Some m => Z.min m (size - 1) end) - n + 1) size)) = Some p ->
      partial_ok size p) as Hr.
    { intros last Hl H'. case_if_in H'; injection H' as <-; [by right|left]. repeat split; cbn [Partial status offset length_]; destruct last; lia. }
    case_if_in H; [by apply (Hr None)|]. destruct (Integer after) as [m|]; [|done]. case_if_in H; [done|]. apply (Hr (Some m)); [lia|done].
Qed.

(** A byte range as a client means it, its text and the positions it asks for. *)
Inductive range : Type := From (first : Z) | Between (first final : Z) | Suffix (count : Z).

Definition range_text (r : range) : list Z :=
  txt "bytes=" ++ match r with
                  | From a => Digits a ++ txt "-"
                  | Between a b => Digits a ++ txt "-" ++ Digits b
                  | Suffix n => txt "-" ++ Digits n
                  end.

Definition range_valid (r : range) : Prop :=
  match r with From a => 0 <= a < 2 ^ 64 | Between a b => 0 <= a <= b /\ b < 2 ^ 64 | Suffix n => 0 <= n < 2 ^ 64 end.

(** Position [i] of a file of [size] bytes is asked for. *)
Definition wanted (r : range) (size i : Z) : Prop :=
  0 <= i < size /\ match r with From a => a <= i | Between a b => a <= i <= b | Suffix n => size - n <= i end.

Lemma digits_nonempty (n : Z) : 0 <= n -> (len (Digits n) =? 0) = false.
Proof. intros Hn. destruct (digits_spec n Hn) as (c & cs & -> & _). unfold len. cbn [length]. lia. Qed.

Lemma integer_digits (n : Z) : 0 <= n < 2 ^ 64 -> Integer (Digits n) = Some n.
Proof. intros Hn. unfold Integer. by rewrite digits_nonempty, from_chars_digits_unsigned by lia. Qed.

Lemma digits_last (n : Z) : 0 <= n -> exists c, last (Digits n) = Some c /\ isdigit c = true.
Proof.
  intros Hn. pose proof (digits_all n Hn) as Hd. destruct (digits_spec n Hn) as (c & cs & E & _). rewrite E in *. clear E.
  destruct (last (c :: cs)) as [x|] eqn:El; [|by apply last_None in El]. exists x. split; [done|]. apply last_Some in El as [l El].
  rewrite El in Hd. apply Forall_app in Hd as [_ Hd]. by apply Forall_inv in Hd.
Qed.

(** No digit is one of the separators, nor blank. *)
Lemma digits_no (n c : Z) : 0 <= n -> isdigit c = false -> c ∉ Digits n.
Proof. intros Hn Hc Hin. pose proof (digits_all n Hn) as Hd. unfold all_digits in Hd. rewrite Forall_forall in Hd. apply Hd in Hin. congruence. Qed.

Lemma file_trim_solid (c : Z) (t : list Z) : RequestData.Blank c = false -> solid (c :: t) -> FileTrim (c :: t) = c :: t.
Proof. intros Hc Hs. unfold FileTrim. pose proof (trim_before [] t c Hc Hs) as H. exact H. Qed.

Lemma digit_not_blank (c : Z) : isdigit c = true -> RequestData.Blank c = false.
Proof. rewrite isdigit_spec. unfold RequestData.Blank. eval_chars. lia. Qed.

Lemma solid_app (s t : list Z) (c : Z) : last t = Some c -> RequestData.Blank c = false -> solid (s ++ t).
Proof.
  intros Hl Hc. unfold solid. apply last_Some in Hl as [l ->]. by rewrite app_assoc, last_snoc.
Qed.

Lemma range_text_trim (r : range) : range_valid r -> FileTrim (range_text r) = range_text r.
Proof.
  intros Hr. unfold range_text. change (txt "bytes=") with (char_code "b" :: txt "ytes="). rewrite <-!app_comm_cons. apply file_trim_solid; [done|].
  rewrite app_comm_cons. destruct r as [a|a b|n]; cbn [range_valid] in Hr.
  - rewrite app_assoc. by apply (solid_app _ _ (char_code "-")).
  - destruct (digits_last b ltac:(lia)) as (c & Hl & Hc). rewrite !app_assoc. apply (solid_app _ _ c); [done|by apply digit_not_blank].
  - destruct (digits_last n ltac:(lia)) as (c & Hl & Hc). rewrite !app_assoc. apply (solid_app _ _ c); [done|by apply digit_not_blank].
Qed.

Lemma dash_no_comma : char_code "," ∉ txt "-".
Proof. by apply (bool_decide_unpack (char_code "," ∉ txt "-")). Qed.

Definition range_rest (r : range) : list Z * list Z :=
  match r with From a => (Digits a, []) | Between a b => (Digits a, Digits b) | Suffix n => ([], Digits n) end.

(** The parts of a range field. *)
Lemma range_text_parts (r : range) : range_valid r ->
  (len (range_text r) <? 6) = false /\ take 6 (range_text r) = txt "bytes=" /\ char_code "," ∉ drop 6 (range_text r)
  /\ cut (char_code "-") (drop 6 (range_text r)) = ((range_rest r).1, Some (range_rest r).2).
Proof.
  intros Hr. unfold range_text. set (x := match r with From a => _ | Between a b => _ | Suffix n => _ end).
  split; [rewrite len_app; change (len (txt "bytes=")) with 6; pose proof (len_nonneg x); lia|].
  split; [done|]. change (drop 6 (txt "bytes=" ++ x)) with x. subst x. assert (forall n, 0 <= n -> char_code "," ∉ Digits n /\ char_code "-" ∉ Digits n) as Hn
    by (intros n Hn; split; by apply digits_no).
  destruct r as [a|a b|n]; cbn [range_valid range_rest fst snd] in *.
  - destruct (Hn a ltac:(lia)). split; [rewrite not_elem_of_app; split; [done|]; apply dash_no_comma|]. by apply (cut_app _ _ []).
  - destruct (Hn a ltac:(lia)), (Hn b ltac:(lia)). split; [rewrite !not_elem_of_app; repeat split; try done; apply dash_no_comma|]. by apply cut_app.
  - destruct (Hn n ltac:(lia)). split; [rewrite not_elem_of_app; split; [|done]; apply dash_no_comma|]. done.
Qed.

Lemma plan_range_text (r : range) (size : Z) : 0 <= size -> range_valid r -> exists p, PlanRange (range_text r) size = Some p
  /\ ((status p = 206 /\ exists i, wanted r size i) \/ (status p = 416 /\ forall i, ~ wanted r size i))
  /\ (forall i, offset p <= i < offset p + length_ p <-> wanted r size i).
Proof.
  intros Hs Hr. destruct (range_text_parts r Hr) as (H1 & H2 & H3 & H4). unfold PlanRange. rewrite range_text_trim by done.
  rewrite H1, H2, bool_decide_eq_false_2, H4 by done. cbn [orb negb]. change (negb _) with false at 1. cbn iota.
  unfold wanted. destruct r as [a|a b|n]; cbn [range_valid range_rest fst snd] in *.
  - rewrite digits_nonempty, integer_digits by lia. change (len (@nil Z) =? 0) with true. cbn iota. destruct (size <=? a) eqn:E; eexists; (split; [done|]); cbn [status offset length_ Unsatisfiable Partial].
    + split; [right; split; [done|]; lia|lia].
    + split; [left; split; [done|]; exists a; lia|lia].
  - rewrite digits_nonempty, integer_digits, digits_nonempty, integer_digits by lia. replace (b <? a) with false by lia. destruct (size <=? a) eqn:E; eexists; (split; [done|]); cbn [status offset length_ Unsatisfiable Partial].
    + split; [right; split; [done|]; lia|lia].
    + split; [left; split; [done|]; exists a; lia|lia].
  - change (len (@nil Z) =? 0) with true. cbn iota. rewrite integer_digits by lia. destruct ((n =? 0) || (size =? 0)) eqn:E; eexists; (split; [done|]); cbn [status offset length_ Unsatisfiable Partial].
    + split; [right; split; [done|]; lia|lia].
    + split; [left; split; [done|]; exists (size - 1); lia|lia].
Qed.

(** ** The calendar *)

(** The first 400 years, day by day: the date of a day is one of its year's, and its day count is the day. *)
Definition era_day (doe : Z) : Z * Z * Z :=
  let yoe := (doe - doe / 1460 + doe / 36524 - doe / 146096) / 365 in
  let doy := doe - (365 * yoe + yoe / 4 - yoe / 100) in
  let mp := (5 * doy + 2) / 153 in
  (yoe, (if mp <? 10 then mp + 3 else mp - 9), doy - (153 * mp + 2) / 5 + 1).

Definition era_count (yoe month day : Z) : Z :=
  yoe * 365 + yoe / 4 - yoe / 100 + ((153 * (if 2 <? month then month - 3 else month + 9) + 2) / 5 + day - 1).

Definition era_ok (doe : Z) : bool :=
  let '(yoe, month, day) := era_day doe in
  (0 <=? yoe) && (yoe <? 400) && (1 <=? month) && (month <=? 12) && (1 <=? day)
  && (day <=? LastDay (yoe + if month <=? 2 then 1 else 0) month) && (era_count yoe month day =? doe).

Definition era_step (x : Z * bool) : Z * bool := (x.1 + 1, x.2 && era_ok x.1).

Lemma era_iter (p : positive) : let x := Pos.iter era_step (0, true) p in x.1 = Zpos p /\ (x.2 = true -> forall d, 0 <= d < Zpos p -> era_ok d = true).
Proof.
  induction p as [|p IH] using Pos.peano_ind; cbn zeta.
  - split; [done|]. cbn [Pos.iter era_step fst snd andb]. intros H d Hd. by replace d with 0 by lia.
  - rewrite Pos.iter_succ. destruct (Pos.iter era_step (0, true) p) as [i b]. cbn [era_step fst snd] in *. destruct IH as [-> IH]. split; [lia|].
    intros [-> H]%andb_true_iff d Hd. destruct (Z.eq_dec d (Zpos p)) as [->|Hne]; [done|]. apply IH; [done|lia].
Qed.

Lemma era_all (d : Z) : 0 <= d < 146097 -> era_ok d = true.
Proof.
  intros Hd. destruct (era_iter 146097) as [_ H]. apply H; [|done]. vm_compute. reflexivity.
Qed.

Lemma leap_period (year k : Z) : IsLeap (year + 400 * k) = IsLeap year.
Proof.
  unfold IsLeap. replace (year + 400 * k) with (year + (100 * k) * 4) at 1 by lia. replace (year + 400 * k) with (year + (4 * k) * 100) at 1 by lia.
  replace (year + 400 * k) with (year + k * 400) by lia. by rewrite !Z_mod_plus_full.
Qed.

Lemma civil_date_spec (days year month day : Z) : ResponseHead.CivilDate days = (year, month, day) ->
  1 <= month <= 12 /\ 1 <= day <= LastDay year month /\ SysDays year month day = days.
Proof.
  set (z := days + 719468). assert (ResponseHead.CivilDate days = let '(yoe, m, d) := era_day (z mod 146097) in
    (yoe + z / 146097 * 400 + (if m <=? 2 then 1 else 0), m, d)) as -> by reflexivity.
  pose proof (Z.mod_pos_bound z 146097 ltac:(lia)) as Hm. pose proof (era_all _ Hm) as Ho. unfold era_ok in Ho. pose proof (Z.div_mod z 146097 ltac:(lia)) as Hz.
  destruct (era_day (z mod 146097)) as [[yoe m] d]. rewrite !andb_true_iff in Ho. destruct Ho as ((((((Ho1 & Ho2) & Ho3) & Ho4) & Ho5) & Ho6) & Ho7).
  intros [= <- <- <-]. split; [lia|]. split.
  - split; [lia|]. unfold LastDay in *. replace (yoe + z / 146097 * 400 + (if m <=? 2 then 1 else 0)) with ((yoe + if m <=? 2 then 1 else 0) + 400 * (z / 146097)) by lia.
    rewrite leap_period. lia.
  - unfold SysDays. unfold era_count in Ho7. set (y := if m <=? 2 then _ else _). assert (y = yoe + z / 146097 * 400) as Hy by (subst y; destruct (m <=? 2); lia).
    rewrite Hy. rewrite Z.div_add, (Z.div_small yoe 400) by lia. rewrite Z.add_0_l. replace (yoe + z / 146097 * 400 - z / 146097 * 400) with yoe by lia. lia.
Qed.

(** ** Dates *)

(** A date in the preferred format of HTTP. *)
Definition imf (weekday mon day year h m s : Z) : list Z :=
  nth (Z.to_nat weekday) ResponseHead.DaysOfWeek [] ++ txt ", " ++ ResponseHead.Padded 2 day ++ txt " "
  ++ nth (Z.to_nat mon) ResponseHead.Months [] ++ txt " " ++ ResponseHead.Padded 4 year ++ txt " " ++ ResponseHead.Padded 2 h
  ++ txt ":" ++ ResponseHead.Padded 2 m ++ txt ":" ++ ResponseHead.Padded 2 s ++ txt " GMT".

(** [std::get_time] reads the fields of such a text, and all of it. *)
Definition reads_imf (get_time : list Z -> list Z -> option (Tm * list Z)) : Prop :=
  forall weekday mon day year h m s, 0 <= weekday < 7 -> 0 <= mon < 12 -> 1 <= day <= 31 -> 0 <= year <= 9999 -> 0 <= h <= 23 -> 0 <= m <= 59 -> 0 <= s <= 59 ->
    get_time (txt "%a, %d %b %Y %H:%M:%S GMT") (imf weekday mon day year h m s) = Some (MkTm s m h day mon (year - 1900), []).

Lemma padded_length (width : nat) (n : Z) : (0 < width)%nat -> 0 <= n < 10 ^ Z.of_nat width -> length (ResponseHead.Padded width n) = width.
Proof.
  intros Hw Hn. unfold ResponseHead.Padded. replace (n <? 0) with false by lia. rewrite Z.abs_eq by lia. cbn [app]. rewrite length_app, repeat_length.
  pose proof (digits_length n (Z.of_nat width) Hn ltac:(lia)) as Hl. unfold len in Hl. cbn [length]. lia.
Qed.

Lemma nth_length (l : list (list Z)) (k n : nat) : forallb (fun t => (length t =? n)%nat) l = true -> (k < length l)%nat -> length (nth k l []) = n.
Proof.
  intros H Hk. rewrite forallb_forall in H. specialize (H (nth k l [])). apply Nat.eqb_eq. apply H, nth_In. done.
Qed.

Lemma imf_length (weekday mon day year h m s : Z) : 0 <= weekday < 7 -> 0 <= mon < 12 -> 1 <= day <= 31 -> 0 <= year <= 9999 -> 0 <= h <= 23 -> 0 <= m <= 59 -> 0 <= s <= 59 ->
  len (imf weekday mon day year h m s) = 29.
Proof.
  intros. unfold imf, len. rewrite !length_app, !padded_length by (cbn; lia). rewrite (nth_length _ _ 3) by (reflexivity || cbn; lia).
  rewrite (nth_length _ _ 3) by (reflexivity || cbn; lia). reflexivity.
Qed.

Definition year_of (time : Z) : Z := (ResponseHead.CivilDate (time / 1000000000 / 86400)).1.1.

Lemma http_date_imf (time : Z) : 0 <= year_of time <= 9999 ->
  let seconds := time / 1000000000 in
  let '(year, month, day) := ResponseHead.CivilDate (seconds / 86400) in
  ResponseHead.HttpDate time = imf ((seconds / 86400 + 4) mod 7) (month - 1) day year (seconds mod 86400 / 3600) (seconds mod 86400 / 60 mod 60) (seconds mod 86400 mod 60).
Proof.
  unfold year_of, ResponseHead.HttpDate. cbn zeta. destruct (ResponseHead.CivilDate (time / 1000000000 / 86400)) as [[year month] day] eqn:E. cbn [fst]. intros Hy.
  apply civil_date_spec in E as (Hm & Hd & _). fold (imf ((time / 1000000000 / 86400 + 4) mod 7) (month - 1) day year (time / 1000000000 mod 86400 / 3600)
    (time / 1000000000 mod 86400 / 60 mod 60) (time / 1000000000 mod 86400 mod 60)).
  assert (LastDay year month <= 31) by (unfold LastDay; repeat case_if; lia).
  rewrite imf_length; [done|dlia|lia|lia|lia|dlia|dlia|dlia].
Qed.

Lemma date_reads_back (get_time : list Z -> list Z -> option (Tm * list Z)) (current time : Z) : reads_imf get_time -> 1601 <= year_of time <= 9999 ->
  ParseFileDate get_time current (ResponseHead.HttpDate time) = Some (time / 1000000000).
Proof.
  intros Hg Hy. pose proof (http_date_imf time ltac:(lia)) as H. unfold year_of in Hy. cbn zeta in H.
  destruct (ResponseHead.CivilDate (time / 1000000000 / 86400)) as [[year month] day] eqn:E. cbn [fst] in Hy. rewrite H. clear H.
  apply civil_date_spec in E as (Hm & Hd & Hs). assert (LastDay year month <= 31) by (unfold LastDay; repeat case_if; lia).
  unfold ParseFileDate, DateFormats. cbn [map FirstDate]. set (rest := match ReadDate get_time current (txt "%A, %d-%b-%y %H:%M:%S GMT") _ with Some _ => _ | None => _ end).
  clearbody rest. set (s := time / 1000000000) in *. unfold ReadDate. rewrite Hg by dlia. cbn [tm_sec tm_min tm_hour tm_mday tm_mon tm_year].
  assert (FullYear current (txt "%a, %d %b %Y %H:%M:%S GMT") (MkTm (s mod 86400 mod 60) (s mod 86400 / 60 mod 60) (s mod 86400 / 3600) day (month - 1) (year - 1900)) = year)
    as -> by (unfold FullYear; cbn [tm_year]; assert (cut_sub (txt "%y") (txt "%a, %d %b %Y %H:%M:%S GMT") = (txt "%a, %d %b %Y %H:%M:%S GMT", None)) as -> by reflexivity; lia).
  replace (month - 1 + 1) with month by lia. unfold DateOk. rewrite Hs.
  match goal with |- context [if ?b then None else _] => destruct b eqn:Eb; [exfalso; dlia|] end. f_equal. dlia.
Qed.

(** ** Entity tags *)

Lemma tag_byte_quote (s : list Z) : forallb TagByte s = true -> Quote ∉ s.
Proof. intros H Hin. rewrite forallb_forall in H. apply list_elem_of_In, H in Hin. done. Qed.

Lemma valid_tag_shape (t : list Z) : ValidEntityTag t = true -> exists w inside, t = w ++ Quote :: inside ++ [Quote] /\ (w = txt "W/" \/ w = []) /\ forallb TagByte inside = true.
Proof.
  unfold ValidEntityTag. intros H. assert (exists w, t = w ++ StripWeak t /\ (w = txt "W/" \/ w = [])) as (w & Ht & Hw).
  { unfold StripWeak. destruct (starts_with (txt "W/") t) eqn:E; [|exists []; auto]. apply starts_with_inv in E. exists (txt "W/"). auto. }
  destruct (StripWeak t) as [|c r]; [done|]. destruct (last r) as [x|] eqn:El; [|done]. apply last_Some in El as [l ->]. rewrite removelast_last in H.
  rewrite !andb_true_iff, !Z.eqb_eq in H. destruct H as [[-> ->] H]. exists w, l. auto.
Qed.

Lemma next_tag_app (t rest : list Z) : ValidEntityTag t = true -> NextTag (t ++ rest) = Some (t, rest).
Proof.
  intros Hv. destruct (valid_tag_shape t Hv) as (w & inside & Ht & Hw & Hi). pose proof (tag_byte_quote _ Hi) as Hq. unfold NextTag.
  assert (starts_with (txt "W/") (t ++ rest) = bool_decide (w = txt "W/")) as -> by (rewrite Ht; by destruct Hw as [-> | ->]).
  assert (drop (if bool_decide (w = txt "W/") then 2%nat else 0%nat) (t ++ rest) = Quote :: inside ++ Quote :: rest) as ->
    by (rewrite Ht; destruct Hw as [-> | ->]; cbn; by rewrite <-app_assoc).
  assert (take (if bool_decide (w = txt "W/") then 2%nat else 0%nat) (t ++ rest) = w) as -> by (rewrite Ht; by destruct Hw as [-> | ->]).
  rewrite Z.eqb_refl. cbn [negb]. rewrite cut_app by done. rewrite <-Ht, Hv. done.
Qed.

(** A field's text for a list of tags. *)
Fixpoint tags_text (tags : list (list Z)) : list Z :=
  match tags with [] => [] | [t] => t | t :: tags => t ++ txt ", " ++ tags_text tags end.

Lemma tags_text_ends (tags : list (list Z)) : tags <> [] -> Forall (fun t => ValidEntityTag t = true) tags ->
  exists c r, tags_text tags = c :: r /\ RequestData.Blank c = false /\ c <> char_code "*" /\ solid (c :: r).
Proof.
  intros Hn H. assert (exists c r, tags_text tags = c :: r /\ RequestData.Blank c = false /\ c <> char_code "*") as (c & r & E & Hc & Hs).
  { destruct H as [|t tags Ht _]; [done|]. destruct (valid_tag_shape t Ht) as (w & inside & -> & [-> | ->] & _); destruct tags; cbn; eauto. }
  exists c, r. split; [done|]. split; [done|]. split; [done|]. rewrite <-E. clear -Hn H. induction H as [|t tags Ht H IH]; [done|].
  destruct (valid_tag_shape t Ht) as (w & inside & -> & _ & _). destruct tags as [|t' tags].
  - cbn [tags_text]. rewrite app_comm_cons, app_assoc. by apply (solid_app _ _ Quote).
  - change (tags_text _) with ((w ++ Quote :: inside ++ [Quote]) ++ txt ", " ++ tags_text (t' :: tags)).
    specialize (IH ltac:(done)). unfold solid in *. destruct (last (tags_text (t' :: tags))) as [x|] eqn:El; [|done]. apply last_Some in El as [l ->].
    by rewrite !app_assoc, last_snoc.
Qed.

Lemma trim_tags (pad : list Z) (tags : list (list Z)) : RequestData.TrimFront pad = [] -> tags <> [] -> Forall (fun t => ValidEntityTag t = true) tags ->
  FileTrim (pad ++ tags_text tags) = tags_text tags.
Proof.
  intros Hp Hn H. destruct (tags_text_ends tags Hn H) as (c & r & E & Hc & _ & Hs). rewrite E. unfold FileTrim. pose proof (trim_before pad r c Hc Hs) as Ht.
  rewrite Hp in Ht. exact Ht.
Qed.

Lemma tag_loop_tags (fuel : nat) (pad : list Z) (tags : list (list Z)) (actual : list Z) (weak matched : bool) :
  (length (pad ++ tags_text tags) <= fuel)%nat -> RequestData.TrimFront pad = [] -> tags <> [] -> Forall (fun t => ValidEntityTag t = true) tags ->
  TagLoop fuel (pad ++ tags_text tags) actual weak matched = existsb (fun t => TagMatches t actual weak) tags || matched.
Proof.
  intros Hf Hp Hn H. revert pad fuel matched Hf Hp. induction H as [|t tags Ht H IH]; intros pad fuel matched Hf Hp; [done|].
  pose proof (trim_tags pad (t :: tags) Hp ltac:(done) ltac:(by constructor)) as Htrim.
  destruct (pad ++ tags_text (t :: tags)) as [|c0 l0] eqn:Etext.
  { destruct (tags_text_ends (t :: tags) ltac:(done) ltac:(by constructor)) as (c & r & E & _). rewrite E in Etext. by destruct pad. }
  destruct fuel as [|fuel]; [cbn in Hf; lia|]. cbn [TagLoop]. rewrite Htrim. destruct tags as [|t' tags].
  - cbn [tags_text]. rewrite <-(app_nil_r t) at 1. rewrite next_tag_app by done. change (FileTrim []) with (@nil Z). cbn [existsb]. by destruct (TagMatches t actual weak).
  - change (tags_text (t :: t' :: tags)) with (t ++ txt ", " ++ tags_text (t' :: tags)). rewrite next_tag_app by done.
    assert (FileTrim (txt ", " ++ tags_text (t' :: tags)) = txt ", " ++ tags_text (t' :: tags)) as ->.
    { destruct (tags_text_ends (t' :: tags) ltac:(done) H) as (c & r & E & _ & _ & Hs). rewrite E. change (txt ", " ++ c :: r) with (44 :: [32] ++ c :: r).
      apply file_trim_solid; [done|]. unfold solid in *. destruct (last (c :: r)) as [x|] eqn:El; [|done]. apply last_Some in El as [l ->].
      change (44 :: [32] ++ l ++ [x]) with ((44 :: 32 :: l) ++ [x]). by rewrite last_snoc. }
    change (txt ", " ++ tags_text (t' :: tags)) with (44 :: [32] ++ tags_text (t' :: tags)). cbn iota beta. change (44 =? char_code ",") with true. cbn iota.
    rewrite IH; [|done| |done].
    + cbn [existsb]. by destruct (TagMatches t actual weak), (TagMatches t' actual weak), (existsb _ tags).
    + assert (length (pad ++ tags_text (t :: t' :: tags)) = S (length l0)) as El by (by rewrite Etext). change (tags_text (t :: t' :: tags)) with (t ++ txt ", " ++ tags_text (t' :: tags)) in El.
      rewrite !length_app in El. rewrite length_app. cbn [length] in *. change (length (txt ", ")) with 2%nat in El. lia.
Qed.

(** ** Properties *)

(** The plan for a file never sends what is not in it: a whole file, a range within it of at least one byte with its Content-Range, for GET only,
    or nothing, with one of the statuses 304, 412 and 416; and a header list of valid entity tags matches exactly when one of its tags does. *)
Theorem file_plan_sound (get_time : list Z -> list Z -> option (Tm * list Z)) (current : Z) (request : HttpParser.HttpRequest) (size : Z) (entityTag : list Z) (modified : Z) :
  0 <= size ->
  let p := PlanFileResponse get_time current request size entityTag modified in
  (p = MkPlan 200 0 size [] \/ p = MkPlan 304 0 0 [] \/ p = MkPlan 412 0 0 []
   \/ (HttpParser.method request = txt "GET" /\ partial_ok size p))
  /\ (forall tags weak, tags <> [] -> Forall (fun t => ValidEntityTag t = true) tags ->
        EntityTagMatches (tags_text tags) entityTag weak = existsb (fun t => TagMatches t entityTag weak) tags).
Proof.
  intros Hs. cbn zeta. split.
  - unfold PlanFileResponse. set (st := ConditionStatus _ _ _ _ _). assert (st = 200 \/ st = 304 \/ st = 412) as Hst.
    { subst st. unfold ConditionStatus. repeat case_match; auto. }
    destruct (negb (st =? 200)) eqn:E; [destruct Hst as [-> |[-> | ->]]; auto; done|]. destruct (bytes_eqb _ (txt "GET")) eqn:Em; [|auto].
    apply bytes_eqb_eq in Em. cbn [negb]. destruct (FieldOf request "range") as [range|]; [|auto]. destruct (RangeHolds request entityTag); [|auto].
    destruct (PlanRange range size) as [p|] eqn:Ep; [|auto]. right. right. right. split; [done|]. by eapply plan_range_ok.
  - intros tags weak Hn Ht. unfold EntityTagMatches. pose proof (trim_tags [] tags eq_refl Hn Ht) as E. cbn [app] in E. rewrite E.
    destruct (tags_text_ends tags Hn Ht) as (c & r & Ec & _ & Hc & _).
    assert (bytes_eqb (tags_text tags) (txt "*") = false) as -> by (apply bytes_eqb_neq; rewrite Ec; intros [= -> _]; done).
    pose proof (tag_loop_tags (length (tags_text tags)) [] tags entityTag weak false) as Hl. cbn [app] in Hl. rewrite Hl by done. by rewrite orb_false_r.
Qed.

(** C33. A GET with a byte range and no condition is answered by exactly the bytes of the file that the range asks for: 206 when there are any, 416 when
    there is none. *)
Theorem file_range_exact (get_time : list Z -> list Z -> option (Tm * list Z)) (current : Z) (request : HttpParser.HttpRequest) (size : Z) (entityTag : list Z) (modified : Z) (r : range) :
  0 <= size -> range_valid r -> HttpParser.method request = txt "GET" -> FieldOf request "range" = Some (range_text r) ->
  Forall (fun name => FieldOf request name = None) ["if-match"; "if-unmodified-since"; "if-none-match"; "if-modified-since"; "if-range"]%string ->
  let p := PlanFileResponse get_time current request size entityTag modified in
  ((status p = 206 /\ exists i, wanted r size i) \/ (status p = 416 /\ forall i, ~ wanted r size i))
  /\ (forall i, offset p <= i < offset p + length_ p <-> wanted r size i).
Proof.
  intros Hs Hr Hm Hf Hn. rewrite !Forall_cons in Hn. destruct Hn as (H1 & H2 & H3 & H4 & H5 & _). cbn zeta. unfold PlanFileResponse.
  assert (ConditionStatus get_time current request entityTag modified = 200) as ->.
  { unfold ConditionStatus. rewrite H1, H2, H3, H4. by destruct (Retrieval request). }
  rewrite Hm, bytes_eqb_refl, Hf. cbn [negb Z.eqb]. unfold RangeHolds. rewrite H5. destruct (plan_range_text r size Hs Hr) as (p & -> & Hp). exact Hp.
Qed.

(** The dates of the library's own Last-Modified field are understood: a request whose If-Modified-Since is the HTTP date of a time is answered 304 exactly when
    the file has not been modified in a later second. *)
Theorem file_not_modified (get_time : list Z -> list Z -> option (Tm * list Z)) (current : Z) (request : HttpParser.HttpRequest) (size : Z) (entityTag : list Z) (modified since : Z) :
  reads_imf get_time -> 1601 <= year_of since <= 9999 -> Retrieval request = true -> FieldOf request "if-modified-since" = Some (ResponseHead.HttpDate since) ->
  Forall (fun name => FieldOf request name = None) ["if-match"; "if-unmodified-since"; "if-none-match"]%string ->
  status (PlanFileResponse get_time current request size entityTag modified) = 304 <-> modified / 1000000000 <= since / 1000000000.
Proof.
  intros Hg Hy Hr Hf Hn. rewrite !Forall_cons in Hn. destruct Hn as (H1 & H2 & H3 & _). unfold PlanFileResponse, ConditionStatus.
  rewrite H1, H2, H3, Hf, Hr, (date_reads_back get_time current since Hg Hy). cbn [andb Z.eqb Pos.eqb].
  destruct (modified / 1000000000 <=? since / 1000000000) eqn:E; [split; [lia|done]|]. split; [|lia]. cbn [Z.eqb Pos.eqb negb].
  destruct (negb _); [done|]. destruct (FieldOf request "range") as [range|]; [|done]. destruct (RangeHolds request entityTag); [|done].
  destruct (PlanRange range size) as [p|] eqn:Ep; [|done]. unfold PlanRange in Ep. repeat case_match_in Ep; simplify_eq; done.
Qed.

(** ** A reader of dates, for the example *)

Fixpoint month_index (name : list Z) (months : list (list Z)) (i : Z) : Z :=
  match months with [] => i | m :: months => if bytes_eqb m name then i else month_index name months (i + 1) end.

Definition imf_reader (format value : list Z) : option (Tm * list Z) :=
  let field i n := digits_value (slice i n value) in
  if bytes_eqb format (txt "%a, %d %b %Y %H:%M:%S GMT") then
    Some (MkTm (field 23 2)%nat (field 20 2)%nat (field 17 2)%nat (field 5 2)%nat (month_index (slice 8 3 value) ResponseHead.Months 0) (field 12%nat 4%nat - 1900), [])
  else None.

Lemma slice_middle (a b c : list Z) (i n : nat) : i = length a -> n = length b -> slice i n (a ++ b ++ c) = b.
Proof. intros -> ->. unfold slice. by rewrite drop_app_length, take_app_length. Qed.

Lemma digits_value_zeros (k : nat) : digits_value (repeat (char_code "0") k) = 0.
Proof. induction k as [|k IH]; [done|]. cbn [repeat]. rewrite repeat_cons. by rewrite digits_value_snoc, IH. Qed.

Lemma padded_value (width : nat) (n : Z) : 0 <= n -> digits_value (ResponseHead.Padded width n) = n.
Proof.
  intros Hn. unfold ResponseHead.Padded. replace (n <? 0) with false by lia. rewrite Z.abs_eq by lia. cbn [app].
  by rewrite digits_value_app, digits_value_zeros, digits_value_digits.
Qed.

Lemma imf_reader_reads : reads_imf imf_reader.
Proof.
  intros wd mon day year h m s Hwd Hmon Hday Hyear Hh Hm Hs. unfold imf_reader, imf. rewrite bytes_eqb_refl.
  pose proof (nth_length ResponseHead.DaysOfWeek (Z.to_nat wd) 3 eq_refl ltac:(cbn; lia)) as L1.
  pose proof (nth_length ResponseHead.Months (Z.to_nat mon) 3 eq_refl ltac:(cbn; lia)) as L2.
  assert (forall n, 0 <= n <= 59 -> length (ResponseHead.Padded 2 n) = 2%nat) as L3 by (intros n Hn; apply padded_length; cbn; lia).
  assert (length (ResponseHead.Padded 4 year) = 4%nat) as L4 by (apply padded_length; cbn; lia).
  set (D := nth (Z.to_nat wd) ResponseHead.DaysOfWeek []) in *. set (M := nth (Z.to_nat mon) ResponseHead.Months []) in *.
  assert (month_index M ResponseHead.Months 0 = mon) as HM.
  { subst M. clear -Hmon. assert (mon = 0 \/ mon = 1 \/ mon = 2 \/ mon = 3 \/ mon = 4 \/ mon = 5 \/ mon = 6 \/ mon = 7 \/ mon = 8 \/ mon = 9 \/ mon = 10 \/ mon = 11) as H by lia.
    repeat destruct H as [-> |H]; [reflexivity..|by subst]. }
  pose proof (L3 day ltac:(lia)) as Lday. pose proof (L3 h ltac:(lia)) as Lh. pose proof (L3 m ltac:(lia)) as Lm. pose proof (L3 s ltac:(lia)) as Ls.
  pose proof (padded_value 2 day ltac:(lia)) as Vday. pose proof (padded_value 2 h ltac:(lia)) as Vh. pose proof (padded_value 2 m ltac:(lia)) as Vm.
  pose proof (padded_value 2 s ltac:(lia)) as Vs. pose proof (padded_value 4 year ltac:(lia)) as Vy.
  set (PD := ResponseHead.Padded 2 day) in *. set (PY := ResponseHead.Padded 4 year) in *. set (PH := ResponseHead.Padded 2 h) in *. set (PM := ResponseHead.Padded 2 m) in *. set (PS := ResponseHead.Padded 2 s) in *.
  clearbody D M PD PY PH PM PS. clear Hwd Hmon Hday Hyear Hh Hm Hs L3.
  destruct D as [|d1 [|d2 [|d3 [|]]]]; try discriminate L1. destruct M as [|m1 [|m2 [|m3 [|]]]]; try discriminate L2.
  destruct PD as [|e1 [|e2 [|]]]; try discriminate Lday. destruct PY as [|y1 [|y2 [|y3 [|y4 [|]]]]]; try discriminate L4.
  destruct PH as [|h1 [|h2 [|]]]; try discriminate Lh. destruct PM as [|p1 [|p2 [|]]]; try discriminate Lm. destruct PS as [|s1 [|s2 [|]]]; try discriminate Ls.
  unfold slice. cbn [app txt drop take]. by rewrite HM, Vday, Vh, Vm, Vs, Vy.
Qed.

Definition example_request (fields : HttpParser.Fields) : HttpParser.HttpRequest := HttpParser.MkRequest (txt "GET") (txt "/") fields [].
Definition example_time : Z := 784111777 * 1000000000.

Lemma file_plan_sound_witness :
  PlanFileResponse imf_reader 2024 (example_request [(txt "Range", txt "bytes=2-3")]) 10 (txt "W/x") 0 = MkPlan 206 2 2 (txt "bytes 2-3/10")
  /\ EntityTagMatches (tags_text [[34; 97; 34]; [34; 98; 34]]) [34; 98; 34] false = existsb (fun t => TagMatches t [34; 98; 34] false) [[34; 97; 34]; [34; 98; 34]].
Proof.
  split; [vm_compute; reflexivity|].
  apply (file_plan_sound imf_reader 2024 (example_request []) 10 [34; 98; 34] 0); [lia|congruence|repeat constructor].
Defined.

Lemma file_range_exact_witness :
  let p := PlanFileResponse imf_reader 2024 (example_request [(txt "Range", range_text (Suffix 4))]) 10 [34; 98; 34] 0 in
  p = MkPlan 206 6 4 (txt "bytes 6-9/10") /\ (forall i, offset p <= i < offset p + length_ p <-> wanted (Suffix 4) 10 i).
Proof.
  split; [vm_compute; reflexivity|].
  apply (file_range_exact imf_reader 2024 (example_request [(txt "Range", range_text (Suffix 4))]) 10 [34; 98; 34] 0 (Suffix 4)); [lia|cbn; lia|reflexivity|reflexivity|].
  repeat constructor.
Defined.

Lemma file_not_modified_witness :
  ResponseHead.HttpDate example_time = txt "Sun, 06 Nov 1994 08:49:37 GMT"
  /\ status (PlanFileResponse imf_reader 2024 (example_request [(txt "If-Modified-Since", ResponseHead.HttpDate example_time)]) 10 [34; 98; 34] example_time) = 304.
Proof.
  split; [vm_compute; reflexivity|].
  apply (file_not_modified imf_reader 2024 (example_request [(txt "If-Modified-Since", ResponseHead.HttpDate example_time)]) 10 [34; 98; 34] example_time example_time);
    [apply imf_reader_reads|vm_compute; split; congruence|reflexivity|reflexivity|repeat constructor|lia].
Defined.
