(* ===== verification/HttpStreaming.v ===== *)
(** * Web: server-sent events and file transfers.

    [Web/HttpStreaming.h|cpp]: the text of an event, and the task that answers a request with a file.  The writer's
    answers, the capacity waits, the requests to stop and the reads of the file come from the environment, in the
    order in which the code asks for them; a failed allocation of the task is left out.  An event stream is read back
    by the client's line rules; a transfer that succeeds has sent exactly the planned bytes, and one that fails has
    completed an error response or aborted. *)

From stdpp Require Import sets.
From S2P Require Import Prelude CoreError Utf8 Charconv RequestData HttpParser PolicyInternal ResponseHead FileResponse.
Import Utf8 Charconv.

Module HttpStreaming.

Record SseEvent : Type := MkEvent { data : list Z; event : list Z; id : option (list Z); retryMilliseconds : option Z }.

Definition Fail {T : Type} (code : ErrorCode) : Result T := FromStatus (Status.FailWithoutMessage code).

Definition Append (output value : list Z) (limit : Z) : option (list Z) :=
  if (limit <? len output) || (limit - len output <? len value) then None else Some (output ++ value).

Definition Break (c : Z) : bool := (c =? 13) || (c =? 10).

Definition AppendField (maxBytes : Z) (name value wire : list Z) : option (list Z) :=
  match Append wire name maxBytes with
  | Some wire =>
      match Append wire (txt ": ") maxBytes with
      | Some wire => match Append wire value maxBytes with Some wire => Append wire [10] maxBytes | None => None end
      | None => None
      end
  | None => None
  end.

(** [find_first_of] a line break: what is before it and, with it, what follows. *)
Fixpoint CutBreak (text : list Z) : list Z * option (Z * list Z) :=
  match text with
  | [] => ([], None)
  | c :: rest => if Break c then ([], Some (c, rest)) else let '(a, r) := CutBreak rest in (c :: a, r)
  end.

Fixpoint AppendData (fuel : nat) (maxBytes : Z) (remaining wire : list Z) : option (list Z) :=
  match fuel with
  | O => None
  | S fuel =>
      let '(line, rest) := CutBreak remaining in
      match AppendField maxBytes (txt "data") line wire with
      | None => None
      | Some wire =>
          match rest with
          | None => Some wire
          | Some (c, rest) =>
              let rest := match rest with d :: rest' => if (c =? 13) && (d =? 10) then rest' else rest | [] => rest end in
              AppendData fuel maxBytes rest wire
          end
      end
  end.

Definition EventValid (e : SseEvent) : bool :=
  negb (negb (IsValidUtf8 (data e)) || negb (IsValidUtf8 (event e)) || existsb Break (event e)
        || match id e with
           | Some id => negb (IsValidUtf8 id) || existsb Break id || existsb (Z.eqb 0) id
           | None => false
           end).

Definition EncodeSseEvent (e : SseEvent) (maxBytes : Z) : Result (list Z) :=
  if negb (EventValid e) then Fail InvalidArgument
  else
    match (if len (event e) =? 0 then Some [] else AppendField maxBytes (txt "event") (event e) []) with
    | None => Fail TooLarge
    | Some wire =>
        match (match id e with Some id => AppendField maxBytes (txt "id") id wire | None => Some wire end) with
        | None => Fail TooLarge
        | Some wire =>
            match (match retryMilliseconds e with Some r => AppendField maxBytes (txt "retry") (Digits r) wire | None => Some wire end) with
            | None => Fail TooLarge
            | Some wire =>
                match AppendData (S (length (data e))) maxBytes (data e) wire with
                | None => Fail TooLarge
                | Some wire => match Append wire [10] maxBytes with Some wire => FromValue wire | None => Fail TooLarge end
                end
            end
        end
    end.

(** ** Files *)


Section Files.
Context (get_time : list Z -> list Z -> option (FileResponse.Tm * list Z)).
















End Files.

End HttpStreaming.
Import HttpStreaming.

(** ** The text of an event *)

Lemma sse_append_spec (w v : list Z) (limit : Z) : Append w v limit = if len (w ++ v) <=? limit then Some (w ++ v) else None.
Proof. unfold Append. rewrite len_app. pose proof (len_nonneg v). destruct (len w + len v <=? limit) eqn:E; case_if; try done; lia. Qed.

Definition field_text (name value : list Z) : list Z := name ++ txt ": " ++ value ++ [10].

Lemma append_field_spec (limit : Z) (name value w : list Z) :
  AppendField limit name value w = if len (w ++ field_text name value) <=? limit then Some (w ++ field_text name value) else None.
Proof.
  unfold AppendField, field_text. rewrite sse_append_spec. pose proof (len_nonneg value) as Hv. pose proof (len_nonneg name) as Hn.
  assert (len (w ++ name ++ txt ": " ++ value ++ [10]) = len w + len name + 2 + len value + 1) as El
    by (rewrite !len_app; change (len (txt ": ")) with 2; change (len [10]) with 1; lia).
  destruct (len (w ++ name) <=? limit) eqn:E1; rewrite len_app in E1; [|case_if; [lia|done]].
  rewrite sse_append_spec. destruct (len ((w ++ name) ++ txt ": ") <=? limit) eqn:E2; rewrite !len_app in E2; change (len (txt ": ")) with 2 in E2; [|case_if; [lia|done]].
  rewrite sse_append_spec. destruct (len (((w ++ name) ++ txt ": ") ++ value) <=? limit) eqn:E3; rewrite !len_app in E3; change (len (txt ": ")) with 2 in E3; [|case_if; [lia|done]].
  rewrite sse_append_spec. by rewrite <-!app_assoc.
Qed.

(** Every line break is a line feed. *)
Fixpoint normalize (text : list Z) : list Z :=
  match text with
  | [] => []
  | c :: rest =>
      if c =? 13 then 10 :: match rest with d :: rest' => if d =? 10 then normalize rest' else normalize rest | [] => [] end
      else c :: normalize rest
  end.

Definition data_text (text : list Z) : list Z := concat (map (field_text (txt "data")) (split_on 10 (normalize text))).

(** What follows a line break. *)
Definition after_break (c : Z) (rest : list Z) : list Z :=
  match rest with d :: rest' => if (c =? 13) && (d =? 10) then rest' else rest | [] => rest end.

Lemma cut_break_spec (text : list Z) :
  match CutBreak text with
  | (line, None) => normalize text = line /\ 10 ∉ line /\ 13 ∉ line
  | (line, Some (c, rest)) => normalize text = line ++ 10 :: normalize (after_break c rest) /\ 10 ∉ line /\ 13 ∉ line
      /\ (length (after_break c rest) < length text)%nat
  end.
Proof.
  induction text as [|c text IH]; cbn [CutBreak]; [split; [done|split; apply not_elem_of_nil]|]. unfold Break. destruct ((c =? 13) || (c =? 10)) eqn:E.
  - split; [|split; [apply not_elem_of_nil|split; [apply not_elem_of_nil|]]].
    + cbn [normalize app]. unfold after_break. destruct (c =? 13) eqn:E1; [destruct text as [|d text]; [done|cbn [andb]; by destruct (d =? 10)]|].
      assert (c = 10) as -> by lia. cbn [andb]. by destruct text.
    + unfold after_break. destruct text as [|d text]; cbn [length]; [lia|]. destruct (_ && _); cbn [length]; lia.
  - destruct (CutBreak text) as [line [[d rest]|]]; destruct IH as (H1 & H2 & H3); cbn [normalize]; replace (c =? 13) with false by lia; rewrite H1.
    + split; [done|]. destruct H3 as [H3 H4]. repeat split; try (rewrite not_elem_of_cons; split; [lia|done]). cbn [length]. lia.
    + split; [done|]. split; rewrite not_elem_of_cons; (split; [lia|done]).
Qed.

Lemma append_data_spec (fuel : nat) (limit : Z) (text w : list Z) : (length text < fuel)%nat ->
  AppendData fuel limit text w = if len (w ++ data_text text) <=? limit then Some (w ++ data_text text) else None.
Proof.
  revert text w. induction fuel as [|fuel IH]; intros text w Hf; [lia|]. cbn [AppendData]. pose proof (cut_break_spec text) as Hc. unfold data_text.
  destruct (CutBreak text) as [line [[c rest]|]]; rewrite append_field_spec.
  - destruct Hc as (-> & H10 & H13 & Hl). rewrite split_on_cut, cut_app by done. cbn [fst snd map concat]. fold (data_text (after_break c rest)).
    pose proof (len_nonneg (data_text (after_break c rest))). destruct (len (w ++ field_text (txt "data") line) <=? limit) eqn:E.
    + change (match rest with d :: rest' => if (c =? 13) && (d =? 10) then rest' else rest | [] => rest end) with (after_break c rest).
      rewrite IH by lia. by rewrite <-!app_assoc.
    + rewrite !len_app in *. case_if; [lia|done].
  - destruct Hc as (-> & H10 & _). rewrite split_on_cut, cut_none by done. cbn [fst snd map concat]. rewrite !app_nil_r; by case_if.
Qed.

(** The whole text of an event. *)
Definition event_text (e : SseEvent) : list Z :=
  (if len (event e) =? 0 then [] else field_text (txt "event") (event e))
  ++ match id e with Some i => field_text (txt "id") i | None => [] end
  ++ match retryMilliseconds e with Some r => field_text (txt "retry") (Digits r) | None => [] end
  ++ data_text (data e) ++ [10].

Lemma encode_spec (e : SseEvent) (limit : Z) : 0 <= limit ->
  EncodeSseEvent e limit = if negb (EventValid e) then Fail InvalidArgument else if len (event_text e) <=? limit then FromValue (event_text e) else Fail TooLarge.
Proof.
  intros H0. unfold EncodeSseEvent, event_text. destruct (EventValid e); [|done]. cbn [negb].
  set (A := if len (event e) =? 0 then [] else field_text (txt "event") (event e)). set (B := match id e with Some i => _ | None => [] end).
  set (C := match retryMilliseconds e with Some r => _ | None => [] end).
  pose proof (len_nonneg A). pose proof (len_nonneg B). pose proof (len_nonneg C). pose proof (len_nonneg (data_text (data e))).
  assert ((if len (event e) =? 0 then Some [] else AppendField limit (txt "event") (event e) []) = if len A <=? limit then Some A else None) as ->.
  { subst A. destruct (len (event e) =? 0); [|apply append_field_spec]. change (len (@nil Z)) with 0. case_if; [done|lia]. }
  assert (forall w, 0 <= len w <= limit -> (match id e with Some i => AppendField limit (txt "id") i w | None => Some w end) = if len (w ++ B) <=? limit then Some (w ++ B) else None) as HB.
  { intros w Hw. subst B. destruct (id e); [apply append_field_spec|]. rewrite app_nil_r. case_if; [done|lia]. }
  assert (forall w, 0 <= len w <= limit -> (match retryMilliseconds e with Some r => AppendField limit (txt "retry") (Digits r) w | None => Some w end)
    = if len (w ++ C) <=? limit then Some (w ++ C) else None) as HC.
  { intros w Hw. subst C. destruct (retryMilliseconds e); [apply append_field_spec|]. rewrite app_nil_r. case_if; [done|lia]. }
  clearbody A B C. rewrite !len_app. change (len [10]) with 1. destruct (len A <=? limit) eqn:EA; [|case_if; [lia|done]].
  rewrite HB by lia. rewrite len_app. destruct (len A + len B <=? limit) eqn:EB; [|case_if; [lia|done]].
  rewrite HC by (rewrite len_app; lia). rewrite !len_app. destruct (len A + len B + len C <=? limit) eqn:EC; [|case_if; [lia|done]].
  rewrite append_data_spec by lia. rewrite !len_app. destruct (len A + len B + len C + len (data_text (data e)) <=? limit) eqn:ED; [|case_if; [lia|done]].
  rewrite sse_append_spec, !len_app. change (len [10]) with 1. rewrite <-!app_assoc. do 2 case_if; try done; lia.
Qed.

(** ** The client *)

(** The lines of a stream: LF, CR and CRLF end a line, and an unfinished one is not looked at. *)
Fixpoint client_lines (text line : list Z) (afterCr : bool) : list (list Z) :=
  match text with
  | [] => []
  | c :: rest =>
      if c =? 13 then line :: client_lines rest [] true
      else if c =? 10 then (if afterCr then client_lines rest [] false else line :: client_lines rest [] false)
      else client_lines rest (line ++ [c]) false
  end.

(** The fields collected since the last event, and the events. *)
Record client : Type := MkClient { c_data : list Z; c_type : list Z; c_id : option (list Z); c_retry : option Z;
  c_events : list (list Z * list Z) }.

Definition client_field (name value : list Z) (c : client) : client :=
  if bytes_eqb name (txt "data") then MkClient (c_data c ++ value ++ [10]) (c_type c) (c_id c) (c_retry c) (c_events c)
  else if bytes_eqb name (txt "event") then MkClient (c_data c) value (c_id c) (c_retry c) (c_events c)
  else if bytes_eqb name (txt "id") then (if existsb (Z.eqb 0) value then c else MkClient (c_data c) (c_type c) (Some value) (c_retry c) (c_events c))
  else if bytes_eqb name (txt "retry") then
    (if negb (len value =? 0) && forallb isdigit value then MkClient (c_data c) (c_type c) (c_id c) (Some (digits_value value)) (c_events c) else c)
  else c.

(** An empty line ends an event, if there are data, without their last line feed. *)
Definition client_line (c : client) (line : list Z) : client :=
  match line with
  | [] =>
      match c_data c with
      | [] => MkClient [] [] (c_id c) (c_retry c) (c_events c)
      | _ :: _ => MkClient [] [] (c_id c) (c_retry c) (c_events c ++ [(removelast (c_data c), c_type c)])
      end
  | _ :: _ =>
      match cut (char_code ":") line with
      | ([], Some _) => c
      | (name, Some (32 :: value)) => client_field name value c
      | (name, Some value) => client_field name value c
      | (name, None) => client_field name [] c
      end
  end.

Definition client_reads (text : list Z) (c : client) : client := fold_left client_line (client_lines text [] false) c.

Lemma client_lines_line (l rest line : list Z) : existsb Break l = false ->
  client_lines (l ++ 10 :: rest) line false = (line ++ l) :: client_lines rest [] false.
Proof.
  revert line. induction l as [|c l IH]; intros line H; cbn [app client_lines]; [by rewrite app_nil_r|]. cbn [existsb] in H. unfold Break in H.
  apply orb_false_iff in H as [Hc H]. replace (c =? 13) with false by lia. replace (c =? 10) with false by lia. rewrite IH by done. by rewrite <-app_assoc.
Qed.

Lemma existsb_app_break (a b : list Z) : existsb Break (a ++ b) = existsb Break a || existsb Break b.
Proof. apply existsb_app. Qed.

(** A field's line is the field. *)
Lemma client_reads_field (name value rest : list Z) (c : client) : existsb Break name = false -> existsb Break value = false -> name <> [] -> char_code ":" ∉ name ->
  client_reads (field_text name value ++ rest) c = client_reads rest (client_field name value c).
Proof.
  intros Hn Hv H0 Hc. unfold client_reads, field_text. replace ((name ++ txt ": " ++ value ++ [10]) ++ rest) with ((name ++ txt ": " ++ value) ++ 10 :: rest) by (by rewrite <-!app_assoc).
  rewrite client_lines_line by (rewrite !existsb_app_break, Hn, Hv; done). cbn [fold_left app]. f_equal. unfold client_line.
  destruct (name ++ txt ": " ++ value) as [|x l] eqn:E; [by destruct name|]. rewrite <-E. change (txt ": " ++ value) with (char_code ":" :: 32 :: value).
  rewrite cut_app by done. by destruct name.
Qed.

Lemma no_break (l : list Z) : 10 ∉ l -> 13 ∉ l -> existsb Break l = false.
Proof.
  intros H1 H2. apply not_true_iff_false. intros (c & Hc & Hb)%existsb_exists. apply list_elem_of_In in Hc. unfold Break in Hb.
  apply orb_true_iff in Hb as [Hb|Hb]; apply Z.eqb_eq in Hb; congruence.
Qed.

Lemma normalize_no_cr (text : list Z) : 13 ∉ normalize text.
Proof.
  assert (forall n text, (length text <= n)%nat -> 13 ∉ normalize text) as H; [|by apply (H (length text))]. clear text. intros n.
  induction n as [|n IH]; intros [|c text] Hl; cbn [normalize length] in *; try apply not_elem_of_nil; [lia|]. destruct (c =? 13) eqn:E.
  - apply not_elem_of_cons. split; [done|]. destruct text as [|d text]; [apply not_elem_of_nil|]. cbn [length] in Hl. destruct (d =? 10); apply IH; cbn [length]; lia.
  - apply not_elem_of_cons. split; [lia|]. apply IH. lia.
Qed.

Lemma client_reads_data (lines : list (list Z)) (tail : list Z) (c : client) : Forall (fun l => 10 ∉ l /\ 13 ∉ l) lines ->
  client_reads (concat (map (field_text (txt "data")) lines) ++ tail) c
  = client_reads tail (MkClient (c_data c ++ concat (map (fun l => l ++ [10]) lines)) (c_type c) (c_id c) (c_retry c) (c_events c)).
Proof.
  intros H. revert c. induction H as [|l lines [H1 H2] _ IH]; intros c; cbn [map concat app].
  - rewrite app_nil_r. by destruct c.
  - rewrite <-app_assoc, client_reads_field; [|done|by apply no_break|done|by apply (bool_decide_unpack (char_code ":" ∉ txt "data"))].
    change (client_field (txt "data") l c) with (MkClient (c_data c ++ l ++ [10]) (c_type c) (c_id c) (c_retry c) (c_events c)).
    rewrite IH. cbn [c_data c_type c_id c_retry c_events]. by rewrite <-!app_assoc.
Qed.

Lemma join_lines (lines : list (list Z)) : lines <> [] -> concat (map (fun l => l ++ [10]) lines) = join 10 lines ++ [10].
Proof.
  induction lines as [|l lines IH]; intros H; [done|]. destruct lines as [|l' lines]; [cbn; by rewrite app_nil_r|].
  cbn [map concat] in *. rewrite IH by done. change (join 10 (l :: l' :: lines)) with (l ++ 10 :: join 10 (l' :: lines)). by rewrite <-!app_assoc.
Qed.

Lemma client_reads_event (e : SseEvent) (c : client) : EventValid e = true -> match retryMilliseconds e with Some r => 0 <= r | None => True end ->
  client_reads (event_text e) (MkClient [] [] (c_id c) (c_retry c) (c_events c))
  = MkClient [] [] (match id e with Some i => Some i | None => c_id c end) (match retryMilliseconds e with Some r => Some r | None => c_retry c end)
      (c_events c ++ [(normalize (data e), event e)]).
Proof.
  intros Hv Hr. unfold EventValid in Hv. apply negb_true_iff in Hv. rewrite !orb_false_iff in Hv. destruct Hv as (((_ & _) & Hb) & Hi). unfold event_text.
  assert (client_reads ((if len (event e) =? 0 then [] else field_text (txt "event") (event e)) ++ ?[rest]) (MkClient [] [] (c_id c) (c_retry c) (c_events c))
    = client_reads ?rest (MkClient [] (event e) (c_id c) (c_retry c) (c_events c))) as ->.
  { destruct (len (event e) =? 0) eqn:E; [destruct (event e) as [|? ?]; [done|unfold len in E; cbn [length] in E; lia]|].
    rewrite client_reads_field; [done|done|done|done|by apply (bool_decide_unpack (char_code ":" ∉ txt "event"))]. }
  assert (client_reads (match id e with Some i => field_text (txt "id") i | None => [] end ++ ?[rest2]) (MkClient [] (event e) (c_id c) (c_retry c) (c_events c))
    = client_reads ?rest2 (MkClient [] (event e) (match id e with Some i => Some i | None => c_id c end) (c_retry c) (c_events c))) as ->.
  { destruct (id e) as [i|]; [|done]. rewrite !orb_false_iff in Hi. destruct Hi as ((_ & Hib) & Hi0).
    rewrite client_reads_field; [|done|done|done|by apply (bool_decide_unpack (char_code ":" ∉ txt "id"))]. f_equal. unfold client_field.
    change (bytes_eqb (txt "id") (txt "data")) with false. change (bytes_eqb (txt "id") (txt "event")) with false. change (bytes_eqb (txt "id") (txt "id")) with true. cbn iota.
    by rewrite Hi0. }
  set (cid := match id e with Some i => Some i | None => c_id c end). clearbody cid.
  assert (client_reads (match retryMilliseconds e with Some r => field_text (txt "retry") (Digits r) | None => [] end ++ ?[rest3]) (MkClient [] (event e) cid (c_retry c) (c_events c))
    = client_reads ?rest3 (MkClient [] (event e) cid (match retryMilliseconds e with Some r => Some r | None => c_retry c end) (c_events c))) as ->.
  { destruct (retryMilliseconds e) as [r|]; [|done]. pose proof (digits_all r Hr) as Hd.
    rewrite client_reads_field; [|done| |done|by apply (bool_decide_unpack (char_code ":" ∉ txt "retry"))].
    - f_equal. unfold client_field. change (bytes_eqb (txt "retry") (txt "data")) with false. change (bytes_eqb (txt "retry") (txt "event")) with false.
      change (bytes_eqb (txt "retry") (txt "id")) with false. change (bytes_eqb (txt "retry") (txt "retry")) with true. cbn iota.
      rewrite digits_nonempty, digits_value_digits by done. assert (forallb isdigit (Digits r) = true) as ->; [|done].
      apply forallb_forall. intros x Hx. unfold all_digits in Hd. rewrite Forall_forall in Hd. by apply Hd, list_elem_of_In.
    - apply no_break; by apply digits_no. }
  unfold data_text. rewrite client_reads_data.
  - cbn [c_data c_type c_id c_retry c_events app]. rewrite join_lines by apply split_on_not_nil. rewrite join_split_on. unfold client_reads.
    cbn [client_lines fold_left]. change (10 =? 13) with false. change (10 =? 10) with true. cbn [fold_left client_line c_data c_type c_id c_retry c_events].
    destruct (normalize (data e) ++ [10]) as [|x l] eqn:E; [by destruct (normalize (data e))|]. rewrite <-E, removelast_last. done.
  - pose proof (split_on_no_sep 10 (normalize (data e))) as H10. pose proof (normalize_no_cr (data e)) as H13. rewrite <-(join_split_on 10 (normalize (data e))) in H13.
    revert H10 H13. generalize (split_on 10 (normalize (data e))). intros l H10 H13. induction H10 as [|f fs Hf H10 IH]; [constructor|]. constructor.
    + split; [done|]. intros Hin. apply H13. destruct fs; [done|]. change (join 10 (f :: l :: fs)) with (f ++ 10 :: join 10 (l :: fs)). apply elem_of_app. by left.
    + apply IH. intros Hin. apply H13. destruct fs; [by apply elem_of_nil in Hin|]. change (join 10 (f :: l :: fs)) with (f ++ 10 :: join 10 (l :: fs)). apply elem_of_app. right. by right.
Qed.

(** ** Transfers *)






(** ** Properties *)

(** C31. The text of an event is what the client is to receive: an encoded event, which fits the limit, is read by the client's rules as exactly one event
    with the data, its line breaks as line feeds, and the type; the identifier and the retry time are set when they are given; and an event that is valid is
    encoded whenever it fits. *)
Theorem sse_round_trip (e : SseEvent) (maxBytes : Z) (c : client) :
  0 <= maxBytes -> match retryMilliseconds e with Some r => 0 <= r | None => True end ->
  match EncodeSseEvent e maxBytes with
  | FromValue wire => len wire <= maxBytes
      /\ client_reads wire (MkClient [] [] (c_id c) (c_retry c) (c_events c))
         = MkClient [] [] (match id e with Some i => Some i | None => c_id c end) (match retryMilliseconds e with Some r => Some r | None => c_retry c end)
             (c_events c ++ [(normalize (data e), event e)])
  | FromStatus s => (Status.Code s = InvalidArgument /\ EventValid e = false) \/ (Status.Code s = TooLarge /\ maxBytes < len (event_text e))
  end.
Proof.
  intros Hm Hr. rewrite encode_spec by done. destruct (EventValid e) eqn:Ev; cbn [negb]; [|by left].
  destruct (len (event_text e) <=? maxBytes) eqn:El; [|right; split; [done|lia]]. split; [lia|by apply client_reads_event].
Qed.





Definition example_event : SseEvent := MkEvent (txt "a" ++ [13; 10] ++ txt "b") (txt "tick") (Some (txt "7")) (Some 1500).

Lemma sse_round_trip_witness :
  EncodeSseEvent example_event 100 = FromValue (event_text example_event)
  /\ client_reads (event_text example_event) (MkClient [] [] None None []) = MkClient [] [] (Some (txt "7")) (Some 1500) [(txt "a" ++ [10] ++ txt "b", txt "tick")].
Proof.
  split; [vm_compute; reflexivity|].
  exact (proj2 (sse_round_trip example_event 100 (MkClient [] [] None None []) ltac:(lia) ltac:(cbn; lia))).
Defined.



