(* ===== verification/RequestInput.v ===== *)
(** * Web: the body of a streamed request and the decision about it.

    [Web/RequestInputInternal.h].  [RequestBodyState]: the pieces of a body between the connection, which pushes them, and
    the handler, which reads them; a credit of bytes and pieces, in two atomics that every release lowers from its own thread,
    bounds what is retained.  The sections of the mutex are functions of the state; [Push] is cut where it reads the atomics,
    since releases come in between.  [RequestDecisionState]: the decision of a policy, made once.  Failures of allocation are
    left out, but for the [bad_alloc] by which [Push] refuses a piece. *)

From stdpp Require Import gmap.
From S2P Require Import Prelude CoreError Utf8 Charconv RequestData HttpParser HttpWire Endpoint ResponseHead.

Module RequestInput.

(** ** The body *)

Definition PieceOverheadBytes : Z := 160.

Record Body : Type := MkBody {
  mMaximum : Z;
  mQueue : option (list (list Z));
  mReadWait : option Z;
  mError : ErrorCode;
  mDone : bool;
  retained : Z;
  pieces : Z
}.

Definition NewBody (maximum : Z) : Body := MkBody maximum (Some []) None ErrorCode_Ok false 0 0.

Definition Open (b : Body) : bool := negb (mDone b) && bool_decide (mError b = ErrorCode_Ok).
Definition HasPiece (b : Body) : bool := match mQueue b with Some (_ :: _) => true | _ => false end.

(** [Available], from the two numbers it loads. *)
Definition Available (maximum retained pieces : Z) : Z :=
  if pieces =? 0 then maximum - Z.min maximum retained
  else
    let bookkeeping := wrap64 ((pieces + 1) * PieceOverheadBytes) in
    if (maximum <=? retained) || (maximum - retained <=? bookkeeping) then 0 else maximum - retained - bookkeeping.

(** An empty value is the end of the body. *)
Definition Read (b : Body) : Result (option (list Z)) * Body :=
  if negb (bool_decide (mError b = ErrorCode_Ok)) then (FromStatus (Status.FailWithoutMessage (mError b)), b)
  else
    match mQueue b with
    | Some (value :: queue) => (FromValue (Some value), MkBody (mMaximum b) (Some queue) (mReadWait b) (mError b) (mDone b) (retained b) (pieces b))
    | _ => if mDone b then (FromValue None, b) else (FromStatus (Status.FailWithoutMessage WouldBlock), b)
    end.

(** The last part of [Push]; [None]: the piece is refused.  The wait that is to be completed comes with it.  The two additions to
    the credit are one step here: releases on other threads only subtract, which commutes with them, and the pushing thread is the
    only one that decides on both numbers ([Available]). *)
Definition PushCommit (bytes : list Z) (available : Z) (b : Body) : option (option Z * Body) :=
  if available <? len bytes then None
  else
    Some (mReadWait b, MkBody (mMaximum b) (option_map (fun q => q ++ [bytes]) (mQueue b)) None (mError b) (mDone b)
      (wrap64 (retained b + len bytes)) (wrap64 (pieces b + 1))).

(** What [End] takes out, if it ends the body: the wait and the pieces it drops. *)
Definition End (error : ErrorCode) (b : Body) : option (option Z * list (list Z)) * Body :=
  if negb (Open b) then (None, b)
  else
    let ok := bool_decide (error = ErrorCode_Ok) in
    (Some (mReadWait b, if ok then [] else default [] (mQueue b)),
     MkBody (mMaximum b) (if ok then mQueue b else None) None error ok (retained b) (pieces b)).

(** [WaitForReadReady]: [pending] tells whether the wait before it still waits; whether the new one is ready. *)
Definition WaitForReadReady (wait : Z) (pending : bool) (b : Body) : Result bool * Body :=
  if pending then (FromStatus (Status.FailWithoutMessage AlreadyExists), b)
  else
    let ready := mDone b || negb (bool_decide (mError b = ErrorCode_Ok)) || HasPiece b in
    (FromValue ready, if ready then b else MkBody (mMaximum b) (mQueue b) (Some wait) (mError b) (mDone b) (retained b) (pieces b)).

(** A piece is let go, in two updates. *)
Definition ReleaseBytes (bytes : list Z) (b : Body) : Body :=
  MkBody (mMaximum b) (mQueue b) (mReadWait b) (mError b) (mDone b) (wrap64 (retained b - len bytes)) (pieces b).
Definition ReleasePiece (b : Body) : Body :=
  MkBody (mMaximum b) (mQueue b) (mReadWait b) (mError b) (mDone b) (retained b) (wrap64 (pieces b - 1)).

(** *** Threads *)

(** Where [Push] stands, which holds the mutex. *)
Inductive Pushing : Type := PushIdle | PushLoaded (bytes : list Z) (retained : Z) | PushReady (bytes : list Z) (available : Z).

(** The body; the waits that have not fired, those that a section has taken out and is to complete once the mutex is free, and
    those that have fired; the pieces owned outside the queue, and those of which only the bytes were given back; the bytes
    accepted, delivered to the handler, and dropped by the end. *)
Record World : Type := MkWorld {
  body : Body;
  pushing : Pushing;
  waiting : gset Z;
  owed : list Z;
  fired : list Z;
  held : list (list Z);
  half : list (list Z);
  accepted : list Z;
  delivered : list Z;
  lost : list Z
}.

Definition NewWorld (maximum : Z) : World := MkWorld (NewBody maximum) PushIdle ∅ [] [] [] [] [] [] [].

Definition owe (wait : option Z) (l : list Z) : list Z := match wait with Some i => l ++ [i] | None => l end.

Definition Fresh (w : World) (wait : Z) : Prop :=
  wait ∉ waiting w /\ mReadWait (body w) <> Some wait /\ wait ∉ owed w /\ wait ∉ fired w.

Inductive Step : World -> World -> Prop :=
| StepPush (b : Body) (wt : gset Z) (ow fi : list Z) (he ha : list (list Z)) (ac de lo bytes : list Z) :
    Open b = true -> mQueue b <> None -> bytes <> [] ->
    Step (MkWorld b PushIdle wt ow fi he ha ac de lo) (MkWorld b (PushLoaded bytes (retained b)) wt ow fi he ha ac de lo)
| StepPushPieces (b : Body) (wt : gset Z) (ow fi : list Z) (he ha : list (list Z)) (ac de lo bytes : list Z) (r : Z) :
    Step (MkWorld b (PushLoaded bytes r) wt ow fi he ha ac de lo)
      (MkWorld b (PushReady bytes (Available (mMaximum b) r (pieces b))) wt ow fi he ha ac de lo)
| StepPushRefused (b : Body) (wt : gset Z) (ow fi : list Z) (he ha : list (list Z)) (ac de lo bytes : list Z) (available : Z) :
    PushCommit bytes available b = None ->
    Step (MkWorld b (PushReady bytes available) wt ow fi he ha ac de lo) (MkWorld b PushIdle wt ow fi he ha ac de lo)
| StepPushed (b : Body) (wt : gset Z) (ow fi : list Z) (he ha : list (list Z)) (ac de lo bytes : list Z) (available : Z) (wait : option Z) (b' : Body) :
    PushCommit bytes available b = Some (wait, b') ->
    Step (MkWorld b (PushReady bytes available) wt ow fi he ha ac de lo) (MkWorld b' PushIdle wt (owe wait ow) fi he ha (ac ++ bytes) de lo)
| StepRead (b : Body) (wt : gset Z) (ow fi : list Z) (he ha : list (list Z)) (ac de lo x : list Z) (b' : Body) :
    Read b = (FromValue (Some x), b') ->
    Step (MkWorld b PushIdle wt ow fi he ha ac de lo) (MkWorld b' PushIdle wt ow fi (x :: he) ha ac (de ++ x) lo)
| StepEnd (b : Body) (wt : gset Z) (ow fi : list Z) (he ha : list (list Z)) (ac de lo : list Z) (error : ErrorCode) (wait : option Z) (dropped : list (list Z)) (b' : Body) :
    End error b = (Some (wait, dropped), b') ->
    Step (MkWorld b PushIdle wt ow fi he ha ac de lo) (MkWorld b' PushIdle wt (owe wait ow) fi (dropped ++ he) ha ac de (lo ++ concat dropped))
| StepWait (b : Body) (wt : gset Z) (ow fi : list Z) (he ha : list (list Z)) (ac de lo : list Z) (wait : Z) (ready : bool) (b' : Body) :
    Fresh (MkWorld b PushIdle wt ow fi he ha ac de lo) wait ->
    WaitForReadReady wait (match mReadWait b with Some i => bool_decide (i ∈ wt) | None => false end) b = (FromValue ready, b') ->
    Step (MkWorld b PushIdle wt ow fi he ha ac de lo)
      (MkWorld b' PushIdle ({[wait]} ∪ wt) (if ready then ow ++ [wait] else ow) fi he ha ac de lo)
| StepComplete (b : Body) (p : Pushing) (wt : gset Z) (l r fi : list Z) (he ha : list (list Z)) (ac de lo : list Z) (wait : Z) :
    Step (MkWorld b p wt (l ++ wait :: r) fi he ha ac de lo)
      (MkWorld b p (wt ∖ {[wait]}) (l ++ r) (if bool_decide (wait ∈ wt) then fi ++ [wait] else fi) he ha ac de lo)
| StepCancel (b : Body) (p : Pushing) (wt : gset Z) (ow fi : list Z) (he ha : list (list Z)) (ac de lo : list Z) (wait : Z) :
    wait ∈ wt -> Step (MkWorld b p wt ow fi he ha ac de lo) (MkWorld b p (wt ∖ {[wait]}) ow (fi ++ [wait]) he ha ac de lo)
| StepReleaseBytes (b : Body) (p : Pushing) (wt : gset Z) (ow fi : list Z) (l r ha : list (list Z)) (ac de lo x : list Z) :
    Step (MkWorld b p wt ow fi (l ++ x :: r) ha ac de lo) (MkWorld (ReleaseBytes x b) p wt ow fi (l ++ r) (x :: ha) ac de lo)
| StepReleasePiece (b : Body) (p : Pushing) (wt : gset Z) (ow fi : list Z) (he l r : list (list Z)) (ac de lo x : list Z) :
    Step (MkWorld b p wt ow fi he (l ++ x :: r) ac de lo) (MkWorld (ReleasePiece b) p wt ow fi he (l ++ r) ac de lo).

Inductive Run (maximum : Z) : World -> Prop :=
| RunStart : Run maximum (NewWorld maximum)
| RunStep (w w' : World) : Run maximum w -> Step w w' -> Run maximum w'.

(** ** The decision *)

Inductive Phase : Type := Pending | Allowed | Rejected | Aborted.

#[global] Instance Phase_eq_dec : EqDecision Phase.
Proof. solve_decision. Defined.

Record Decision : Type := MkDecision {
  mMaxHeaders : Z;
  mMaxBody : Z;
  mStarted : Z;
  mTimeout : Z;
  mPhase : Phase;
  mResponse : ResponseHead.HttpResponse;
  mAttributes : HttpParser.Fields;
  mCancelled : bool
}.

Definition EmptyResponse : ResponseHead.HttpResponse := ResponseHead.MkResponse 200 [] [] false.

Definition NewDecision (headers body started timeout : Z) : Decision := MkDecision headers body started timeout Pending EmptyResponse [] false.

Definition SetPhase (p : Phase) (response : ResponseHead.HttpResponse) (attributes : HttpParser.Fields) (d : Decision) : Decision :=
  MkDecision (mMaxHeaders d) (mMaxBody d) (mStarted d) (mTimeout d) p response attributes (mCancelled d).

Definition Expired (now : Z) (d : Decision) : bool := mTimeout d <=? now - mStarted d.

(** The number of bytes of the fields; the code with which they are refused.  What is left of the limit is never negative, since
    a name that is a token has a byte ([field_bytes_spec]). *)
Fixpoint FieldBytes (max : Z) (fields : HttpParser.Fields) (bytes : Z) : ErrorCode + Z :=
  match fields with
  | [] => inr bytes
  | (name, value) :: fields =>
      if negb (HttpParser.IsToken name) || negb (HttpParser.ValidHeaderValue value) then inl InvalidArgument
      else if max - bytes <? len name then inl TooLarge
      else
        let bytes := bytes + len name in
        if max - bytes <? len value then inl TooLarge
        else
          let bytes := bytes + len value in
          if max - Z.min max 4 <? bytes then inl TooLarge else FieldBytes max fields (bytes + 4)
  end.

(** [Abort]: whether it decided. *)
Definition Abort (d : Decision) : bool * Decision :=
  if negb (bool_decide (mPhase d = Pending)) then (false, d)
  else
    (true, MkDecision (mMaxHeaders d) (mMaxBody d) (mStarted d) (mTimeout d) Aborted (mResponse d) (mAttributes d) true).

(** The section of [Allow] and [Reject]: whether it decided. *)
Definition Decide (p : Phase) (response : ResponseHead.HttpResponse) (attributes : HttpParser.Fields) (d : Decision) : Status * bool * Decision :=
  if negb (bool_decide (mPhase d = Pending)) then (Status.FailWithoutMessage Closed, false, d)
  else (Status.Ok, true, SetPhase p response attributes d).

Definition Refuse (code : ErrorCode) (d : Decision) : Status * bool * Decision := (Status.FailWithoutMessage code, false, d).

Definition Allow (now clock : Z) (headers attributes : HttpParser.Fields) (d : Decision) : Status * bool * Decision :=
  if Expired now d then let '(decided, d) := Abort d in (Status.FailWithoutMessage Closed, decided, d)
  else if (128 <? len headers) || (128 - len headers <? len attributes) then Refuse TooLarge d
  else
    match FieldBytes (mMaxHeaders d) headers 0 with
    | inl code => Refuse code d
    | inr bytes =>
        match FieldBytes (mMaxHeaders d) attributes bytes with
        | inl code => Refuse code d
        | inr _ =>
            match ResponseHead.SerializeResponse clock (ResponseHead.MkResponse 200 headers [] false) false false (mMaxHeaders d) (mMaxBody d) with
            | None => Refuse InvalidArgument d
            | Some _ =>
                Decide Allowed (ResponseHead.MkResponse (ResponseHead.respStatus (mResponse d)) headers (ResponseHead.respBody (mResponse d)) (ResponseHead.respClose (mResponse d)))
                  attributes d
            end
        end
    end.

Definition Reject (now clock : Z) (response : ResponseHead.HttpResponse) (d : Decision) : Status * bool * Decision :=
  if Expired now d then let '(decided, d) := Abort d in (Status.FailWithoutMessage Closed, decided, d)
  else if (ResponseHead.respStatus response <? 200) || (ResponseHead.respStatus response =? 101) then Refuse InvalidArgument d
  else if mMaxBody d <? len (ResponseHead.respBody response) then Refuse TooLarge d
  else
    match ResponseHead.SerializeResponse clock response false true (mMaxHeaders d) (mMaxBody d) with
    | None => Refuse InvalidArgument d
    | Some _ => Decide Rejected response (mAttributes d) d
    end.

(** [Take] moves the response and the attributes out. *)
Definition Take (d : Decision) : (Phase * ResponseHead.HttpResponse * HttpParser.Fields) * Decision :=
  ((mPhase d, mResponse d, mAttributes d),
   SetPhase (mPhase d) (ResponseHead.MkResponse (ResponseHead.respStatus (mResponse d)) [] [] (ResponseHead.respClose (mResponse d))) [] d).

End RequestInput.
Import RequestInput.

(** ** The credit *)

Definition sizes (l : list (list Z)) : Z := fold_right (fun x n => len x + n) 0 l.

Lemma sizes_app (a b : list (list Z)) : sizes (a ++ b) = sizes a + sizes b.
Proof. unfold sizes. induction a as [|x a IH]; [done|]. cbn [app fold_right]. lia. Qed.

Lemma sizes_cons (x : list Z) (l : list (list Z)) : sizes (x :: l) = len x + sizes l.
Proof. done. Qed.

Lemma sizes_nonneg (l : list (list Z)) : 0 <= sizes l.
Proof. induction l as [|x l IH]; [done|]. rewrite sizes_cons. pose proof (len_nonneg x). lia. Qed.

Definition queued (b : Body) : list (list Z) := default [] (mQueue b).

(** What [Push] may count on: releases only lower the two numbers. *)
Definition push_ok (maximum : Z) (b : Body) (p : Pushing) : Prop :=
  match p with
  | PushIdle => True
  | PushLoaded bytes r => Open b = true /\ mQueue b <> None /\ bytes <> [] /\ retained b <= r <= maximum
  | PushReady bytes available => Open b = true /\ mQueue b <> None /\ bytes <> []
      /\ (len bytes <= available -> retained b + len bytes <= maximum
            /\ (pieces b = 0 \/ retained b + len bytes + PieceOverheadBytes * (pieces b + 1) <= maximum))
  end.

Record credit_ok (maximum : Z) (w : World) : Prop := MkCreditOk {
  k_maximum : mMaximum (body w) = maximum;
  k_retained : retained (body w) = sizes (queued (body w)) + sizes (held w);
  k_pieces : pieces (body w) = len (queued (body w)) + len (held w) + len (half w);
  k_limit : retained (body w) <= maximum;
  k_overhead : pieces (body w) <= 1 \/ retained (body w) + PieceOverheadBytes * pieces (body w) <= maximum;
  k_push : push_ok maximum (body w) (pushing w)
}.

Lemma body_one {A : Type} (x : A) (l : list A) : len (x :: l) = 1 + len l.
Proof. unfold len. cbn [length]. lia. Qed.

Lemma body_wrap (n : Z) : 0 <= n < 2 ^ 64 -> wrap64 n = n.
Proof. apply Z.mod_small. Qed.

Lemma available_spec (maximum r p : Z) (bytes : list Z) : 0 <= p -> r <= maximum -> PieceOverheadBytes * (p + 1) < 2 ^ 64 -> bytes <> [] ->
  len bytes <= Available maximum r p -> r + len bytes <= maximum /\ (p = 0 \/ r + len bytes + PieceOverheadBytes * (p + 1) <= maximum).
Proof.
  unfold Available. intros Hp Hr Hw Hne. destruct (p =? 0) eqn:E; [intros H; split; [lia|left; lia]|]. cbn zeta.
  unfold PieceOverheadBytes in *. rewrite body_wrap by lia. case_if; intros H.
  - destruct bytes as [|x l]; [done|rewrite body_one in H; pose proof (len_nonneg l); lia].
  - split; [lia|right; lia].
Qed.

Lemma credit_bounds (maximum : Z) (w : World) : 0 <= maximum < 2 ^ 63 -> credit_ok maximum w ->
  0 <= retained (body w) <= maximum /\ 0 <= pieces (body w) /\ PieceOverheadBytes * (pieces (body w) + 1) < 2 ^ 64.
Proof.
  intros Hm [_ H2 H3 H4 H5 _]. unfold PieceOverheadBytes in *.
  pose proof (sizes_nonneg (queued (body w))). pose proof (sizes_nonneg (held w)). pose proof (len_nonneg (queued (body w))).
  pose proof (len_nonneg (held w)). pose proof (len_nonneg (half w)). lia.
Qed.

(** A release, of bytes or of the count, keeps what [Push] counts on. *)
Lemma push_ok_lower (maximum : Z) (b b' : Body) (p : Pushing) : Open b' = Open b -> mQueue b' = mQueue b ->
  retained b' <= retained b -> 0 <= pieces b' <= pieces b -> push_ok maximum b p -> push_ok maximum b' p.
Proof.
  intros Ho Hq Hr Hp. destruct p as [|bytes r|bytes available]; cbn [push_ok]; rewrite ?Ho, ?Hq; [done| |].
  - intros (A & B & C & D). split_and!; try done; lia.
  - intros (A & B & C & D). split_and!; try done. intros Hl. destruct (D Hl) as [D1 D2]. unfold PieceOverheadBytes in *.
    split; [lia|]. destruct (decide (pieces b' = 0)); [by left|right; lia].
Qed.

Lemma credit_pushed (maximum available : Z) (b b' : Body) (bytes : list Z) (wait : option Z) : 0 <= maximum < 2 ^ 63 -> 0 <= retained b ->
  0 <= pieces b -> PieceOverheadBytes * (pieces b + 1) < 2 ^ 64 -> push_ok maximum b (PushReady bytes available) ->
  PushCommit bytes available b = Some (wait, b') ->
  mMaximum b' = mMaximum b /\ queued b' = queued b ++ [bytes] /\ retained b' = retained b + len bytes /\ pieces b' = pieces b + 1
  /\ retained b' <= maximum /\ (pieces b' <= 1 \/ retained b' + PieceOverheadBytes * pieces b' <= maximum).
Proof.
  unfold PushCommit. intros Hm Hr Hp Hw (Ho & Hq & Hne & Hfit). destruct (available <? len bytes) eqn:E; [done|]. intros [= <- <-].
  destruct Hfit as [Hl Hover]; [lia|]. pose proof (len_nonneg bytes). unfold PieceOverheadBytes in *.
  cbn [mMaximum retained pieces]. rewrite !body_wrap by lia. unfold queued. cbn [mQueue].
  destruct (mQueue b) as [q|]; [|done]. cbn [option_map from_option]. split_and!; try done; lia.
Qed.

Lemma credit_read (b b' : Body) (x : list Z) : Read b = (FromValue (Some x), b') ->
  mMaximum b' = mMaximum b /\ queued b = x :: queued b' /\ retained b' = retained b /\ pieces b' = pieces b.
Proof.
  unfold Read, queued. case_if; [done|]. destruct (mQueue b) as [[|y q]|]; [by destruct (mDone b)| |by destruct (mDone b)].
  by intros [= <- <-].
Qed.

Lemma credit_end (b b' : Body) (error : ErrorCode) (wait : option Z) (dropped : list (list Z)) :
  End error b = (Some (wait, dropped), b') ->
  mMaximum b' = mMaximum b /\ queued b = dropped ++ queued b' /\ retained b' = retained b /\ pieces b' = pieces b.
Proof.
  unfold End, queued. destruct (Open b); [|done]. cbn [negb]. intros [= <- <- <-]. by destruct (bool_decide _); cbn [mQueue]; rewrite ?app_nil_r.
Qed.

Lemma credit_wait (b b' : Body) (wait : Z) (pending ready : bool) : WaitForReadReady wait pending b = (FromValue ready, b') ->
  mMaximum b' = mMaximum b /\ queued b' = queued b /\ retained b' = retained b /\ pieces b' = pieces b.
Proof. unfold WaitForReadReady. destruct pending; [done|]. intros [= <- <-]. by case_if. Qed.

Lemma credit_step (maximum : Z) (w w' : World) : 0 <= maximum < 2 ^ 63 -> Step w w' -> credit_ok maximum w -> credit_ok maximum w'.
Proof.
  intros Hm Hs Hk. destruct (credit_bounds _ _ Hm Hk) as ([Hr0 Hr1] & Hp & Hw). destruct Hk as [H1 H2 H3 H4 H5 H6].
  destruct Hs; cbn [body pushing held half] in *.
  - by constructor.
  - constructor; cbn [body pushing held half]; try done. destruct H6 as (A & B & C & D). cbn [push_ok]. split_and!; try done.
    intros Hl. rewrite H1 in Hl. destruct (available_spec maximum r (pieces b) bytes) as [E1 E2]; try done; lia.
  - by constructor.
  - destruct (credit_pushed maximum available b b' bytes wait) as (E1 & E2 & E3 & E4 & E5 & E6); try done.
    constructor; cbn [body pushing held half]; try done; rewrite ?E2, ?sizes_app, ?len_app; cbn [sizes fold_right]; rewrite ?body_one;
      change (len (@nil (list Z))) with 0; lia.
  - destruct (credit_read b b' x) as (E1 & E2 & E3 & E4); [done|]. rewrite E2, ?sizes_cons, ?body_one in *.
    constructor; cbn [body pushing held half]; rewrite ?sizes_cons, ?body_one, ?E3, ?E4; try done; lia.
  - destruct (credit_end b b' error wait dropped) as (E1 & E2 & E3 & E4); [done|]. rewrite E2, ?sizes_app, ?len_app in *.
    constructor; cbn [body pushing held half]; rewrite ?sizes_app, ?len_app, ?E3, ?E4; try done; lia.
  - destruct (credit_wait b b' wait _ ready H0) as (E1 & E2 & E3 & E4). constructor; cbn [body pushing held half]; rewrite ?E2, ?E3, ?E4; try done; lia.
  - by constructor.
  - by constructor.
  - rewrite sizes_app, sizes_cons in H2. rewrite len_app, body_one in H3. pose proof (len_nonneg x). pose proof (sizes_nonneg (queued b)).
    pose proof (sizes_nonneg l). pose proof (sizes_nonneg r). assert (E : wrap64 (retained b - len x) = retained b - len x) by (apply body_wrap; lia).
    constructor; cbn [body pushing held half]; change (queued (ReleaseBytes x b)) with (queued b); unfold ReleaseBytes;
      cbn [mMaximum retained pieces]; rewrite ?E, ?sizes_app, ?len_app, ?body_one; try lia.
    apply (push_ok_lower _ b); try done; cbn [retained pieces]; lia.
  - rewrite len_app, body_one in H3. pose proof (len_nonneg l). pose proof (len_nonneg r). pose proof (len_nonneg (queued b)). pose proof (len_nonneg he).
    unfold PieceOverheadBytes in *.
    assert (E : wrap64 (pieces b - 1) = pieces b - 1) by (apply body_wrap; lia).
    constructor; cbn [body pushing held half]; change (queued (ReleasePiece b)) with (queued b); unfold ReleasePiece;
      cbn [mMaximum retained pieces]; rewrite ?E, ?len_app; unfold PieceOverheadBytes; try lia.
    apply (push_ok_lower _ b); try done; cbn [retained pieces]; lia.
Qed.

Lemma credit_run (maximum : Z) (w : World) : 0 <= maximum < 2 ^ 63 -> Run maximum w -> credit_ok maximum w.
Proof.
  intros Hm. induction 1 as [|w w' _ IH Hs]; [|by eapply credit_step].
  constructor; cbn; try done; lia.
Qed.

(** ** The stream and the waits *)

Record stream_ok (w : World) : Prop := MkStreamOk {
  s_open : mError (body w) = ErrorCode_Ok -> exists q, mQueue (body w) = Some q /\ accepted w = delivered w ++ concat q /\ lost w = [];
  s_error : mError (body w) <> ErrorCode_Ok -> mQueue (body w) = None /\ mDone (body w) = false /\ accepted w = delivered w ++ lost w;
  s_wait : forall i, mReadWait (body w) = Some i -> Open (body w) = true /\ mQueue (body w) = Some [];
  s_waiting : forall i, i ∈ waiting w -> mReadWait (body w) = Some i \/ i ∈ owed w;
  s_push : pushing w <> PushIdle -> Open (body w) = true;
  s_fired : NoDup (fired w) /\ forall i, i ∈ fired w -> i ∉ waiting w
}.

Lemma open_spec (b : Body) : Open b = true <-> mDone b = false /\ mError b = ErrorCode_Ok.
Proof. unfold Open. rewrite andb_true_iff, negb_true_iff, bool_decide_eq_true. done. Qed.

Lemma owe_elem (wait : option Z) (l : list Z) (i : Z) : i ∈ owe wait l <-> wait = Some i \/ i ∈ l.
Proof. destruct wait as [j|]; cbn [owe]; [rewrite elem_of_app, list_elem_of_singleton|]; naive_solver. Qed.

Lemma stream_pushed (available : Z) (b b' : Body) (wt : gset Z) (ow fi : list Z) (he ha : list (list Z)) (ac de lo bytes : list Z) (wait : option Z) :
  PushCommit bytes available b = Some (wait, b') -> stream_ok (MkWorld b (PushReady bytes available) wt ow fi he ha ac de lo) ->
  stream_ok (MkWorld b' PushIdle wt (owe wait ow) fi he ha (ac ++ bytes) de lo).
Proof.
  unfold PushCommit. destruct (available <? len bytes); [done|]. intros [= <- <-] [H1 H2 H3 H4 H5 H6].
  cbn [body pushing waiting owed fired accepted delivered lost] in *. destruct (proj1 (open_spec b) (H5 ltac:(done))) as [Hd He].
  destruct (H1 He) as (q & Hq & -> & ->). constructor; cbn [body pushing waiting owed fired accepted delivered lost mError mQueue mReadWait mDone].
  - intros _. exists (q ++ [bytes]). rewrite Hq, concat_app. cbn [concat option_map]. by rewrite app_nil_r, app_assoc.
  - by intros [].
  - done.
  - intros i Hi. right. apply owe_elem, H4, Hi.
  - done.
  - done.
Qed.

Lemma stream_read (b b' : Body) (wt : gset Z) (ow fi : list Z) (he he' ha : list (list Z)) (ac de lo x : list Z) :
  Read b = (FromValue (Some x), b') -> stream_ok (MkWorld b PushIdle wt ow fi he ha ac de lo) ->
  stream_ok (MkWorld b' PushIdle wt ow fi he' ha ac (de ++ x) lo).
Proof.
  unfold Read. case_bool_decide as He; [|done]. cbn [negb]. destruct (mQueue b) as [[|y q]|] eqn:Eq; [by destruct (mDone b)| |by destruct (mDone b)].
  intros [= <- <-] [H1 H2 H3 H4 H5 H6]. cbn [body pushing waiting owed fired accepted delivered lost] in *.
  destruct (H1 He) as (q' & Hq & -> & ->). rewrite Eq in Hq. injection Hq as <-.
  constructor; cbn [body pushing waiting owed fired accepted delivered lost mError mQueue mReadWait mDone]; try done.
  - intros _. exists q. cbn [concat]. by rewrite app_assoc.
  - intros i Hi. destruct (H3 i Hi) as [_ Hq]. by rewrite Eq in Hq.
Qed.

Lemma stream_end (error : ErrorCode) (b b' : Body) (wt : gset Z) (ow fi : list Z) (he he' ha dropped : list (list Z)) (ac de lo : list Z) (wait : option Z) :
  End error b = (Some (wait, dropped), b') -> stream_ok (MkWorld b PushIdle wt ow fi he ha ac de lo) ->
  stream_ok (MkWorld b' PushIdle wt (owe wait ow) fi he' ha ac de (lo ++ concat dropped)).
Proof.
  unfold End. destruct (Open b) eqn:Ho; [|done]. cbn [negb]. intros [= <- <- <-] [H1 H2 H3 H4 H5 H6].
  cbn [body pushing waiting owed fired accepted delivered lost] in *. destruct (proj1 (open_spec b) Ho) as [Hd He].
  destruct (H1 He) as (q & Hq & -> & ->). rewrite Hq.
  constructor; cbn [body pushing waiting owed fired accepted delivered lost mError mQueue mReadWait mDone]; try done.
  - intros ->. rewrite bool_decide_true by done. by exists q.
  - intros Hne. by rewrite bool_decide_false.
  - intros i Hi. right. apply owe_elem, H4, Hi.
Qed.

Lemma stream_wait (b b' : Body) (wt : gset Z) (ow fi : list Z) (he ha : list (list Z)) (ac de lo : list Z) (wait : Z) (ready : bool) :
  Fresh (MkWorld b PushIdle wt ow fi he ha ac de lo) wait ->
  WaitForReadReady wait (match mReadWait b with Some i => bool_decide (i ∈ wt) | None => false end) b = (FromValue ready, b') ->
  stream_ok (MkWorld b PushIdle wt ow fi he ha ac de lo) ->
  stream_ok (MkWorld b' PushIdle ({[wait]} ∪ wt) (if ready then ow ++ [wait] else ow) fi he ha ac de lo).
Proof.
  intros (F1 & F2 & F3 & F4). unfold WaitForReadReady. destruct (match mReadWait b with Some i => _ | None => _ end) eqn:Ep; [done|].
  set (r := mDone b || _ || _). intros [= <- <-] [H1 H2 H3 H4 H5 H6]. cbn [body pushing waiting owed fired accepted delivered lost] in *.
  assert (F : NoDup fi /\ forall i, i ∈ fi -> i ∉ ({[wait]} ∪ wt : gset Z)) by (split; [apply H6|]; intros i Hi; pose proof (proj2 H6 i Hi); set_solver).
  destruct r eqn:Er; constructor; cbn [body pushing waiting owed fired accepted delivered lost mError mQueue mReadWait mDone]; try done.
  - intros i [->%elem_of_singleton|Hi]%elem_of_union; [right; set_solver|]. destruct (H4 i Hi); [by left|right; set_solver].
  - intros i [= <-]. subst r. apply orb_false_iff in Er as [[Hd He]%orb_false_iff Hh]. apply negb_false_iff, bool_decide_eq_true in He.
    split; [by apply open_spec|]. destruct (H1 He) as (q & Hq & _). unfold HasPiece in Hh. rewrite Hq in Hh |- *. by destruct q.
  - intros i [->%elem_of_singleton|Hi]%elem_of_union; [by left|]. destruct (H4 i Hi) as [Hr|Ho]; [|by right].
    rewrite Hr in Ep. by apply bool_decide_eq_false in Ep.
Qed.

Lemma stream_complete (b : Body) (p : Pushing) (wt : gset Z) (l r fi : list Z) (he ha : list (list Z)) (ac de lo : list Z) (wait : Z) :
  stream_ok (MkWorld b p wt (l ++ wait :: r) fi he ha ac de lo) ->
  stream_ok (MkWorld b p (wt ∖ {[wait]}) (l ++ r) (if bool_decide (wait ∈ wt) then fi ++ [wait] else fi) he ha ac de lo).
Proof.
  intros [H1 H2 H3 H4 H5 [H6 H7]]. constructor; cbn [body pushing waiting owed fired accepted delivered lost] in *; try done.
  - intros i [Hi Hn]%elem_of_difference. destruct (H4 i Hi); [by left|right; set_solver].
  - case_bool_decide as Hw; [|split; [done|set_solver]]. split; [|set_solver]. apply NoDup_app. split; [done|].
    split; [|apply NoDup_singleton]. intros i Hi. set_solver.
Qed.

Lemma stream_cancel (b : Body) (p : Pushing) (wt : gset Z) (ow fi : list Z) (he ha : list (list Z)) (ac de lo : list Z) (wait : Z) :
  wait ∈ wt -> stream_ok (MkWorld b p wt ow fi he ha ac de lo) ->
  stream_ok (MkWorld b p (wt ∖ {[wait]}) ow (fi ++ [wait]) he ha ac de lo).
Proof.
  intros Hw [H1 H2 H3 H4 H5 [H6 H7]]. constructor; cbn [body pushing waiting owed fired accepted delivered lost] in *; try done.
  - intros i [Hi Hn]%elem_of_difference. by apply H4.
  - split; [|set_solver]. apply NoDup_app. split; [done|]. split; [|apply NoDup_singleton]. intros i Hi. set_solver.
Qed.

Lemma stream_step (w w' : World) : Step w w' -> stream_ok w -> stream_ok w'.
Proof.
  destruct 1; [| | | |by apply stream_read| |by apply stream_wait|by apply stream_complete|by apply stream_cancel| |].
  all: try (intros [K1 K2 K3 K4 K5 K6]; constructor; cbn [body pushing waiting owed fired accepted delivered lost] in *;
    solve [done | intros _; by apply K5]).
  - by eapply stream_pushed.
  - by eapply stream_end.
Qed.

Lemma stream_run (maximum : Z) (w : World) : Run maximum w -> stream_ok w.
Proof.
  induction 1 as [|w w' _ IH Hs]; [|by eapply stream_step]. constructor; cbn; try done; [by exists []|].
  split; [apply NoDup_nil_2|set_solver].
Qed.

(** An ended body stays ended, with the same outcome. *)
Lemma ended_step (w w' : World) : Step w w' -> stream_ok w -> Open (body w) = false -> mError (body w') = mError (body w) /\ mDone (body w') = mDone (body w).
Proof.
  intros Hs Hk Ho. destruct Hs as [| | |b wt ow fi he ha ac de lo bytes available wait b' Hb|b wt ow fi he ha ac de lo x b' Hb
    |b wt ow fi he ha ac de lo error wait dropped b' Hb|b wt ow fi he ha ac de lo wait ready b' _ Hb| | | |]; cbn [body] in *; try done.
  - pose proof (s_push _ Hk ltac:(done)) as Hp. cbn [body] in Hp. congruence.
  - unfold Read in Hb. case_if_in Hb; [done|]. by destruct (mQueue b) as [[|y q]|]; [destruct (mDone b)|injection Hb as <- <-|destruct (mDone b)].
  - unfold End in Hb. by rewrite Ho in Hb.
  - unfold WaitForReadReady in Hb. case_if_in Hb; [done|]. injection Hb as <- <-. by case_if.
Qed.

(** ** The decision *)

Lemma token_nonempty (name : list Z) : HttpParser.IsToken name = true -> 1 <= len name.
Proof. destruct name as [|c name]; [done|]. intros _. rewrite body_one. pose proof (len_nonneg name). lia. Qed.

Definition field_total (fields : HttpParser.Fields) : Z := fold_right (fun f n => len f.1 + len f.2 + 4 + n) 0 fields.

Lemma field_bytes_spec (max : Z) (fields : HttpParser.Fields) (bytes total : Z) : 0 <= bytes -> FieldBytes max fields bytes = inr total ->
  Forall (fun f => HttpParser.IsToken f.1 = true /\ HttpParser.ValidHeaderValue f.2 = true) fields
  /\ total = bytes + field_total fields /\ (fields <> [] -> total <= max).
Proof.
  unfold field_total. revert bytes. induction fields as [|[name value] fields IH]; intros bytes Hb; cbn [FieldBytes fold_right].
  - intros [= <-]. split_and!; [constructor|lia|done].
  - destruct (HttpParser.IsToken name && HttpParser.ValidHeaderValue value) eqn:E; [|apply andb_false_iff in E as [->| ->]; by rewrite ?orb_true_r].
    apply andb_true_iff in E as [E1 E2]. rewrite E1, E2. cbn [negb orb]. pose proof (token_nonempty _ E1). pose proof (len_nonneg value).
    case_if; [done|]. case_if; [done|]. case_if; [done|].
    intros Hf. apply IH in Hf as (F1 & F2 & F3); [|lia]. cbn [fst snd]. split_and!; [by constructor|lia|].
    intros _. destruct fields as [|f fields]; [|by apply F3]. cbn in F2. lia.
Qed.

Definition valid_fields (fields : HttpParser.Fields) : Prop :=
  Forall (fun f => HttpParser.IsToken f.1 = true /\ HttpParser.ValidHeaderValue f.2 = true) fields.

(** Two loops over one count: the headers, then the attributes. *)
Lemma field_bytes_both (max : Z) (headers attributes : HttpParser.Fields) (bytes total : Z) :
  FieldBytes max headers 0 = inr bytes -> FieldBytes max attributes bytes = inr total ->
  valid_fields (headers ++ attributes) /\ field_total headers + field_total attributes <= Z.max 0 max.
Proof.
  intros H1 H2. destruct (field_bytes_spec max headers 0 bytes) as (A1 & A2 & A3); [lia|done|].
  assert (Hn : 0 <= field_total headers).
  { unfold field_total. clear. induction headers as [|f l IH]; cbn [fold_right]; [lia|]. pose proof (len_nonneg f.1). pose proof (len_nonneg f.2). lia. }
  destruct (field_bytes_spec max attributes bytes total) as (B1 & B2 & B3); [lia|done|].
  split; [by apply Forall_app|]. destruct attributes as [|f l].
  - unfold field_total at 2. cbn [fold_right]. destruct headers as [|g l']; [cbn; lia|]. specialize (A3 ltac:(done)). lia.
  - specialize (B3 ltac:(done)). lia.
Qed.

(** What can decide: the three operations of a policy and of its connection; whether the operation decided. *)
Inductive Operation : Type :=
| DoAllow (now clock : Z) (headers attributes : HttpParser.Fields)
| DoReject (now clock : Z) (response : ResponseHead.HttpResponse)
| DoAbort.

Definition perform (op : Operation) (d : Decision) : bool * Decision :=
  match op with
  | DoAllow now clock headers attributes => let '(_, decided, d) := Allow now clock headers attributes d in (decided, d)
  | DoReject now clock response => let '(_, decided, d) := Reject now clock response d in (decided, d)
  | DoAbort => Abort d
  end.

Fixpoint performs (ops : list Operation) (d : Decision) : list bool * Decision :=
  match ops with
  | [] => ([], d)
  | op :: ops => let '(decided, d) := perform op d in let '(l, d) := performs ops d in (decided :: l, d)
  end.

(** The outcome that a decision leaves is one its operation may leave. *)
Definition outcome_of (op : Operation) (d d' : Decision) : Prop :=
  match op with
  | DoAllow now clock headers attributes =>
      if Expired now d then mPhase d' = Aborted
      else mPhase d' = Allowed /\ ResponseHead.respHeaders (mResponse d') = headers /\ mAttributes d' = attributes
        /\ len headers + len attributes <= 128 /\ valid_fields (headers ++ attributes)
        /\ field_total headers + field_total attributes <= Z.max 0 (mMaxHeaders d)
        /\ is_Some (ResponseHead.SerializeResponse clock (ResponseHead.MkResponse 200 headers [] false) false false (mMaxHeaders d) (mMaxBody d))
  | DoReject now clock response =>
      if Expired now d then mPhase d' = Aborted
      else mPhase d' = Rejected /\ mResponse d' = response /\ 200 <= ResponseHead.respStatus response
        /\ len (ResponseHead.respBody response) <= mMaxBody d
        /\ is_Some (ResponseHead.SerializeResponse clock response false true (mMaxHeaders d) (mMaxBody d))
  | DoAbort => mPhase d' = Aborted
  end.

Lemma abort_decides (d d' : Decision) (decided : bool) : Abort d = (decided, d') ->
  if decided then mPhase d = Pending /\ mPhase d' = Aborted else d' = d /\ mPhase d <> Pending.
Proof. unfold Abort. case_bool_decide; cbn [negb]; by intros [= <- <-]. Qed.

Lemma decide_decides (p : Phase) (response : ResponseHead.HttpResponse) (attributes : HttpParser.Fields) (d d' : Decision) (s : Status) (decided : bool) :
  Decide p response attributes d = (s, decided, d') ->
  if decided then mPhase d = Pending /\ mPhase d' = p /\ mResponse d' = response /\ mAttributes d' = attributes else d' = d.
Proof. unfold Decide. case_bool_decide; cbn [negb]; by intros [= <- <- <-]. Qed.

Lemma perform_decides (op : Operation) (d d' : Decision) (decided : bool) : perform op d = (decided, d') ->
  if decided then mPhase d = Pending /\ mPhase d' <> Pending /\ outcome_of op d d' else d' = d.
Proof.
  destruct op as [now clock headers attributes|now clock response|]; cbn [perform outcome_of].
  - unfold Allow. destruct (Expired now d).
    { destruct (Abort d) as [x d1] eqn:Ea. intros [= <- <-]. apply abort_decides in Ea. destruct x; naive_solver congruence. }
    destruct (_ || _) eqn:E1; [by intros [= <- <-]|].
    destruct (FieldBytes _ headers 0) as [code|bytes] eqn:E2; [by intros [= <- <-]|].
    destruct (FieldBytes _ attributes bytes) as [code|total] eqn:E3; [by intros [= <- <-]|].
    destruct (ResponseHead.SerializeResponse _ _ _ _ _ _) as [wire|] eqn:E4; [|by intros [= <- <-]].
    destruct (Decide _ _ _ _) as [[s x] d1] eqn:E5. intros [= <- <-]. apply decide_decides in E5. destruct x; [|done].
    destruct E5 as (A & B & C & D). destruct (field_bytes_both _ _ _ _ _ E2 E3) as [F1 F2]. rewrite B, C, D.
    cbn [ResponseHead.respHeaders]. split_and!; try done. lia.
  - unfold Reject. destruct (Expired now d).
    { destruct (Abort d) as [x d1] eqn:Ea. intros [= <- <-]. apply abort_decides in Ea. destruct x; naive_solver congruence. }
    destruct (_ || _) eqn:E1; [by intros [= <- <-]|].
    destruct (mMaxBody d <? _) eqn:E2; [by intros [= <- <-]|].
    destruct (ResponseHead.SerializeResponse _ _ _ _ _ _) as [wire|] eqn:E4; [|by intros [= <- <-]].
    destruct (Decide _ _ _ _) as [[s x] d1] eqn:E5. intros [= <- <-]. apply decide_decides in E5. destruct x; [|done].
    destruct E5 as (A & B & C & D). rewrite B, C. split_and!; try done; lia.
  - intros H%abort_decides. destruct decided; naive_solver congruence.
Qed.

Lemma performs_decided (ops : list Operation) (d : Decision) : mPhase d <> Pending -> performs ops d = (map (fun _ => false) ops, d).
Proof.
  intros Hp. induction ops as [|op ops IH]; [done|]. cbn [performs map]. destruct (perform op d) as [x d'] eqn:E. apply perform_decides in E.
  destruct x; [tauto|]. subst d'. by rewrite IH.
Qed.

(** However many times a policy and its connection decide about a request, and in whatever order, at most one of the operations decides, the first that can: it
    alone makes the call that wakes the connection, and every other leaves the state as it is.  The outcome is the one that operation may leave: headers and
    attributes that are valid fields within the limits and that can be written in front of a response, a response that can be written, or an abort where the
    policy was late. *)
Theorem decision_once (headers body started timeout : Z) (ops : list Operation) (l : list bool) (d : Decision) :
  performs ops (NewDecision headers body started timeout) = (l, d) ->
  (d = NewDecision headers body started timeout /\ l = map (fun _ => false) ops)
  \/ exists before op after, ops = before ++ op :: after
      /\ l = map (fun _ => false) before ++ true :: map (fun _ => false) after
      /\ perform op (NewDecision headers body started timeout) = (true, d)
      /\ mPhase d <> Pending /\ outcome_of op (NewDecision headers body started timeout) d.
Proof.
  set (d0 := NewDecision _ _ _ _). revert l. induction ops as [|op ops IH]; intros l; cbn [performs]; [intros [= <- <-]; by left|].
  destruct (perform op d0) as [x d1] eqn:E. pose proof (perform_decides _ _ _ _ E) as H. destruct x.
  - destruct H as (_ & Hp & Ho). rewrite (performs_decided ops d1 Hp). intros [= <- <-]. right. by exists [], op, ops.
  - subst d1. destruct (performs ops d0) as [l' d'] eqn:E'. intros [= <- <-]. destruct (IH l' eq_refl) as [[-> ->]|(before & op' & after & -> & -> & R)]; [by left|].
    right. by exists (op :: before), op', after.
Qed.

(** A header that would own the framing is refused, a rejection comes after it, and a permission too late. *)
Definition decision_ops : list Operation :=
  [DoAllow 10 0 [(txt "Content-Length", txt "5")] []; DoReject 20 0 (ResponseHead.MkResponse 403 [] (txt "no") false); DoAllow 30 0 [(txt "X-A", txt "b")] []; DoAbort].

Lemma decision_once_witness :
  let r := performs decision_ops (NewDecision 4096 4096 0 1000) in
  r.1 = [false; true; false; false] /\ mPhase r.2 = Rejected
  /\ ((r.2 = NewDecision 4096 4096 0 1000 /\ r.1 = map (fun _ => false) decision_ops)
      \/ exists before op after, decision_ops = before ++ op :: after
          /\ r.1 = map (fun _ => false) before ++ true :: map (fun _ => false) after
          /\ perform op (NewDecision 4096 4096 0 1000) = (true, r.2)
          /\ mPhase r.2 <> Pending /\ outcome_of op (NewDecision 4096 4096 0 1000) r.2).
Proof.
  intros r. split; [vm_compute; reflexivity|]. split; [vm_compute; reflexivity|].
  apply (decision_once 4096 4096 0 1000 decision_ops r.1 r.2). vm_compute. reflexivity.
Defined.

(** C32. Whatever the interleaving of pushes, reads, releases and the end, what a streamed body retains is exactly what its pieces hold that are not let go, in
    the queue or with a reader; it stays within the credit of the request, and with the cost of the bookkeeping of every piece it does too, unless there is a
    single piece.  So a client that sends one byte at a time cannot make the server keep more than the credit. *)
Theorem request_body_bounded (maximum : Z) (w : World) (Hm : 0 <= maximum < 2 ^ 63) (Hr : Run maximum w) :
  retained (body w) = sizes (queued (body w)) + sizes (held w)
  /\ pieces (body w) = len (queued (body w)) + len (held w) + len (half w)
  /\ retained (body w) <= maximum
  /\ (pieces (body w) <= 1 \/ retained (body w) + PieceOverheadBytes * pieces (body w) <= maximum).
Proof. by destruct (credit_run maximum w Hm Hr) as [? ? ? ? ? ?]. Qed.

(** C27. The handler reads the bytes in the order in which they came, none twice and none left out: those accepted are those delivered, then those of the queue,
    or those an error dropped; a body that ended well and has been read to the end has delivered all of it.  An end is final.  No wait for the body is lost:
    one that has not fired is to be completed by a section that has taken it out, or a read would block; and none fires twice. *)
Theorem request_body_delivered (maximum : Z) (w : World) (Hr : Run maximum w) :
  (mError (body w) = ErrorCode_Ok -> accepted w = delivered w ++ concat (queued (body w)) /\ lost w = [])
  /\ (mError (body w) <> ErrorCode_Ok -> accepted w = delivered w ++ lost w /\ (Read (body w)).1 = FromStatus (Status.FailWithoutMessage (mError (body w))))
  /\ ((Read (body w)).1 = FromValue None -> accepted w = delivered w)
  /\ (forall w', Step w w' -> Open (body w) = false -> mError (body w') = mError (body w) /\ mDone (body w') = mDone (body w))
  /\ (forall i, i ∈ waiting w -> i ∈ owed w \/ (mReadWait (body w) = Some i /\ (Read (body w)).1 = FromStatus (Status.FailWithoutMessage WouldBlock)))
  /\ NoDup (fired w).
Proof.
  pose proof (stream_run _ _ Hr) as Hk. pose proof Hk as [H1 H2 H3 H4 H5 [H6 _]]. split_and!.
  - intros He. destruct (H1 He) as (q & Hq & -> & ->). unfold queued. by rewrite Hq.
  - intros He. destruct (H2 He) as (_ & _ & ->). unfold Read. by rewrite bool_decide_false.
  - unfold Read. case_bool_decide as He; [|done]. destruct (H1 He) as (q & -> & -> & _). cbn [negb]. destruct q as [|x q]; [|done]. by rewrite app_nil_r.
  - intros w' Hs Ho. by apply ended_step.
  - intros i Hi. destruct (H4 i Hi) as [Hw|]; [right|by left]. destruct (H3 i Hw) as [[Hd He]%open_spec Hq]. split; [done|].
    unfold Read. by rewrite bool_decide_true, Hq, Hd.
  - done.
Qed.

(** A wait, a piece that completes it, and a second piece; the first is read, and its bytes are given back. *)
Definition example_world (wt : gset Z) : World :=
  MkWorld (MkBody 1000 (Some [[3]]) None ErrorCode_Ok false 1 2) PushIdle wt [] [7] [] [[1; 2]] [1; 2; 3] [1; 2] [].

Lemma example_run : exists wt, Run 1000 (example_world wt).
Proof.
  pose proof (RunStart 1000) as R.
  eapply RunStep in R; [|eapply (StepWait _ ∅ _ _ _ _ _ _ _ 7); [unfold Fresh; cbn; set_solver|reflexivity]].
  eapply RunStep in R; [|by eapply (StepPush _ _ _ _ _ _ _ _ _ [1; 2])].
  eapply RunStep in R; [|eapply StepPushPieces].
  eapply RunStep in R; [|eapply StepPushed; vm_compute; reflexivity].
  eapply RunStep in R; [|eapply (StepComplete _ _ _ [] [])].
  eapply RunStep in R; [|by eapply (StepPush _ _ _ _ _ _ _ _ _ [3])].
  eapply RunStep in R; [|eapply StepPushPieces].
  eapply RunStep in R; [|eapply StepPushed; vm_compute; reflexivity].
  eapply RunStep in R; [|eapply StepRead; vm_compute; reflexivity].
  eapply RunStep in R; [|eapply (StepReleaseBytes _ _ _ _ _ [] [])].
  rewrite bool_decide_true in R by set_solver. eexists. exact R.
Qed.

Lemma request_body_bounded_witness : exists wt, Run 1000 (example_world wt)
  /\ retained (body (example_world wt)) = sizes (queued (body (example_world wt))) + sizes (held (example_world wt))
  /\ pieces (body (example_world wt)) = len (queued (body (example_world wt))) + len (held (example_world wt)) + len (half (example_world wt))
  /\ retained (body (example_world wt)) <= 1000
  /\ (pieces (body (example_world wt)) <= 1
      \/ retained (body (example_world wt)) + PieceOverheadBytes * pieces (body (example_world wt)) <= 1000).
Proof. destruct example_run as [wt R]. exists wt. split; [exact R|]. apply (request_body_bounded 1000 (example_world wt)); [lia|exact R]. Defined.

Lemma request_body_delivered_witness : exists wt, Run 1000 (example_world wt)
  /\ (accepted (example_world wt) = delivered (example_world wt) ++ concat (queued (body (example_world wt))) /\ lost (example_world wt) = [])
  /\ (forall i, i ∈ waiting (example_world wt) -> i ∈ owed (example_world wt)
        \/ (mReadWait (body (example_world wt)) = Some i /\ (Read (body (example_world wt))).1 = FromStatus (Status.FailWithoutMessage WouldBlock)))
  /\ NoDup (fired (example_world wt)).
Proof.
  destruct example_run as [wt R]. exists wt. split; [exact R|].
  destruct (request_body_delivered 1000 (example_world wt) R) as (A & _ & _ & _ & B & C). split; [apply A; reflexivity|]. split; [exact B|exact C].
Defined.
