(* ===== verification/TimerScheduler.v ===== *)
(** * Runtime: timers.

    [Runtime/TimerScheduler.cpp|h].  One timing thread scans the list of timers under the scheduler's mutex and leaves it with
    one action: to signal a cancelled timer, to submit a due one to the executor, or to retire one.  The sections of the mutex
    are functions of the state, and the threads interleave at them: callers schedule, cancel, reschedule and stop, tasks end on
    the executor, and the timing thread goes from its action to the next scan.  What the executor answers, when a task ends and
    what the clock says are arguments.  Times are numbers of ticks of the steady clock, 64-bit and signed.  The callback's
    captures, the waits of a handle and test hooks are left out. *)

From stdpp Require Import gmap.
From S2P Require Import Prelude CoreError.

Module TimerScheduler.

(** ** Time *)

Definition TIME_MAX : Z := 2 ^ 63 - 1.

Definition After (now interval : Z) : Z := if TIME_MAX - now <? interval then TIME_MAX else now + interval.

Definition NextSlot (served interval now : Z) : Z :=
  let next := After served interval in
  if (now <? next) || (next =? TIME_MAX) then next else served + Z.quot (now - served) interval * interval.

(** ** State *)

Inductive TimerRepeatMode : Type := FixedDelay | FixedRate | OtherMode.

#[global] Instance TimerRepeatMode_eq_dec : EqDecision TimerRepeatMode.
Proof. solve_decision. Defined.

Record TimerOptions : Type := MkTimerOptions {
  optDue : Z;
  repeatInterval : Z;
  retainedBytes : Z;
  repeatMode : TimerRepeatMode
}.

Record TimerState : Type := MkTimer {
  key : Z;
  options : TimerOptions;
  due : Z;
  cancelled : bool;
  signalSent : bool;
  inFlight : bool;
  published : bool;
  completionReady : bool;
  retiring : bool;
  completionCode : ErrorCode;
  terminal : bool;
  result : ErrorCode
}.

Definition NewTimer (key : Z) (o : TimerOptions) (stopped : bool) : TimerState :=
  MkTimer key o (optDue o) stopped false false false false false ErrorCode_Ok false WouldBlock.

Definition set_cancelled (t : TimerState) : TimerState :=
  MkTimer (key t) (options t) (due t) true (signalSent t) (inFlight t) (published t) (completionReady t) (retiring t) (completionCode t) (terminal t) (result t).
Definition set_signal (t : TimerState) : TimerState :=
  MkTimer (key t) (options t) (due t) (cancelled t) true (inFlight t) (published t) (completionReady t) (retiring t) (completionCode t) (terminal t) (result t).
Definition set_due (d : Z) (t : TimerState) : TimerState :=
  MkTimer (key t) (options t) d (cancelled t) (signalSent t) (inFlight t) (published t) (completionReady t) (retiring t) (completionCode t) (terminal t) (result t).
Definition set_flight (f p r : bool) (t : TimerState) : TimerState :=
  MkTimer (key t) (options t) (due t) (cancelled t) (signalSent t) f p r (retiring t) (completionCode t) (terminal t) (result t).
Definition set_retiring (t : TimerState) : TimerState :=
  MkTimer (key t) (options t) (due t) (cancelled t) (signalSent t) (inFlight t) (published t) (completionReady t) true (completionCode t) (terminal t) (result t).
Definition set_code (c : ErrorCode) (t : TimerState) : TimerState :=
  MkTimer (key t) (options t) (due t) (cancelled t) (signalSent t) (inFlight t) (published t) (completionReady t) (retiring t) c (terminal t) (result t).
Definition set_result (c : ErrorCode) (t : TimerState) : TimerState :=
  MkTimer (key t) (options t) (due t) (cancelled t) (signalSent t) (inFlight t) (published t) (completionReady t) (retiring t) (completionCode t) true c.

(** [executor] tells whether the pointer is set; [gone]: the timers that were retired, of which handles remain. *)
Record State : Type := MkState {
  maxTimers : Z;
  maxRetainedBytes : Z;
  timers : list TimerState;
  gone : list TimerState;
  retained : Z;
  saturatedUntil : Z;
  started : bool;
  ready : bool;
  stopping : bool;
  executor : bool
}.

Definition NewState : State := MkState 1024 (4 * 1024 * 1024) [] [] 0 0 false false false false.

Definition set_timers (l : list TimerState) (s : State) : State :=
  MkState (maxTimers s) (maxRetainedBytes s) l (gone s) (retained s) (saturatedUntil s) (started s) (ready s) (stopping s) (executor s).
Definition set_saturated (until : Z) (s : State) : State :=
  MkState (maxTimers s) (maxRetainedBytes s) (timers s) (gone s) (retained s) until (started s) (ready s) (stopping s) (executor s).
Definition set_flags (ready stopping executor : bool) (s : State) : State :=
  MkState (maxTimers s) (maxRetainedBytes s) (timers s) (gone s) (retained s) (saturatedUntil s) (started s) ready stopping executor.

Definition find_timer (k : Z) (l : list TimerState) : option TimerState := find (fun t => key t =? k) l.
Definition update_timer (k : Z) (f : TimerState -> TimerState) (l : list TimerState) : list TimerState :=
  map (fun t => if key t =? k then f t else t) l.
Definition on_timer (k : Z) (f : TimerState -> TimerState) (s : State) : State := set_timers (update_timer k f (timers s)) s.

(** ** The calls *)

(** The first section of [Start]; the second, when the thread could not be made; and the last. *)
Definition StartBegin (maxT maxB : Z) (s : State) : Status * State :=
  if (maxT =? 0) || (maxB =? 0) then (Status.FailWithoutMessage InvalidArgument, s)
  else if started s || stopping s then (Status.FailWithoutMessage Closed, s)
  else (Status.Ok, MkState maxT maxB (timers s) (gone s) (retained s) (saturatedUntil s) true (ready s) (stopping s) true).
Definition StartFailed (s : State) : State := set_flags (ready s) true false s.
Definition StartReady (s : State) : State := set_flags true (stopping s) (executor s) s.

(** [parentStopped]: the parent token has cancelled the timer by then. *)
Definition Schedule (k : Z) (callback parentStopped : bool) (o : TimerOptions) (s : State) : Result Z * State :=
  let fail code := (FromStatus (Status.FailWithoutMessage code), s) in
  if negb callback || (repeatInterval o <? 0) || bool_decide (repeatMode o = OtherMode) then fail InvalidArgument
  else if negb (ready s) || stopping s then fail Closed
  else if maxRetainedBytes s <? retainedBytes o then fail TooLarge
  else if (maxTimers s <=? len (timers s)) || (maxRetainedBytes s - retained s <? retainedBytes o) then fail WouldBlock
  else
    (FromValue k,
     MkState (maxTimers s) (maxRetainedBytes s) (timers s ++ [NewTimer k o parentStopped]) (gone s) (retained s + retainedBytes o)
       (saturatedUntil s) (started s) (ready s) (stopping s) (executor s)).

(** A handle's timer, whether it is still in the list or not. *)
Definition handle (k : Z) (s : State) : option TimerState :=
  match find_timer k (timers s) with Some t => Some t | None => find_timer k (gone s) end.

Definition Cancel (k : Z) (s : State) : bool * State :=
  match handle k s with
  | None => (false, s)
  | Some t => if cancelled t || retiring t || terminal t then (false, s) else (true, on_timer k set_cancelled s)
  end.

Definition RequestStop (s : State) : State := set_flags (ready s) true (executor s) (set_timers (map set_cancelled (timers s)) s).

(** The end of [Stop], after the join. *)
Definition StopJoined (s : State) : State := set_flags false (stopping s) false s.

Definition Reschedule (k d : Z) (s : State) : Status * State :=
  match handle k s with
  | None => (Status.FailWithoutMessage InvalidArgument, s)
  | Some t =>
      if stopping s || cancelled t || retiring t || (negb (inFlight t) && completionReady t) then (Status.FailWithoutMessage Closed, s)
      else if inFlight t then (Status.FailWithoutMessage WouldBlock, s)
      else (Status.Ok, on_timer k (set_due d) s)
  end.

Definition IsFinished (k : Z) (s : State) : bool := match handle k s with Some t => terminal t | None => false end.

Definition GetStatus (k : Z) (s : State) : Status :=
  match handle k s with
  | Some t => if bool_decide (result t = ErrorCode_Ok) then Status.Ok else Status.FailWithoutMessage (result t)
  | None => Status.FailWithoutMessage InvalidArgument
  end.

Definition TimerCount (s : State) : Z := len (timers s).
Definition RetainedBytes (s : State) : Z := retained s.

(** ** The timing thread *)

Inductive Action : Type := ActSignal (k : Z) | ActDispatch (k : Z) | ActRetire (k : Z) (code : ErrorCode).

(** A task that has ended, as the scan finds it: the timer is armed again or left to retire. *)
Definition Rearm (now : Z) (t : TimerState) : TimerState :=
  if inFlight t && published t && completionReady t then
    let t := set_flight false (published t) (completionReady t) t in
    if negb (cancelled t) && bool_decide (completionCode t = ErrorCode_Ok) && (0 <? repeatInterval (options t)) then
      set_due (if bool_decide (repeatMode (options t) = FixedRate) then NextSlot (due t) (repeatInterval (options t)) now
               else After now (repeatInterval (options t)))
        (set_flight (inFlight t) (published t) false t)
    else t
  else t.

Definition FinalCode (t : TimerState) : ErrorCode := if cancelled t then Cancelled else completionCode t.

(** The earliest due timer so far and the next time to wake, after a timer that is not in flight. *)
Definition Consider (now : Z) (t : TimerState) (earliest : option (Z * Z)) (nextWake : Z) : option (Z * Z) * Z :=
  if inFlight t then (earliest, nextWake)
  else if due t <=? now then
    (match earliest with Some (k, d) => if due t <? d then Some (key t, due t) else earliest | None => Some (key t, due t) end, nextWake)
  else (earliest, Z.min nextWake (due t)).

(** The loop over the list: it stops at the first timer to signal or to retire. *)
Fixpoint ScanLoop (now : Z) (l : list TimerState) (earliest : option (Z * Z)) (nextWake : Z)
  : list TimerState * option Action * option (Z * Z) * Z :=
  match l with
  | [] => ([], None, earliest, nextWake)
  | t :: l =>
      if cancelled t && negb (signalSent t) then (set_signal t :: l, Some (ActSignal (key t)), earliest, nextWake)
      else
        let t := Rearm now t in
        if negb (inFlight t) && (cancelled t || completionReady t) then
          (set_retiring t :: l, Some (ActRetire (key t) (FinalCode t)), earliest, nextWake)
        else
          let '(earliest, nextWake) := Consider now t earliest nextWake in
          let '(l, action, earliest, nextWake) := ScanLoop now l earliest nextWake in
          (t :: l, action, earliest, nextWake)
  end.

(** What the section leaves with: an action, or the time until which it waits. *)
Definition Scan (now : Z) (s : State) : (Action + Z) * State :=
  let '(l, action, earliest, nextWake) := ScanLoop now (timers s) None TIME_MAX in
  let s := set_timers l s in
  match action, earliest with
  | Some a, _ => (inl a, s)
  | None, Some (k, _) =>
      if now <? saturatedUntil s then (inr (Z.min nextWake (saturatedUntil s)), s)
      else (inl (ActDispatch k), on_timer k (set_flight true false false) s)
  | None, None => (inr nextWake, s)
  end.

(** The section of [Dispatch] after [Submit], from what the executor returned. *)
Definition DispatchResult (k now : Z) (submitted : ErrorCode) (s : State) : State :=
  if bool_decide (submitted = ErrorCode_Ok) then
    on_timer k (fun t => set_flight (inFlight t) true (completionReady t) t) s
  else if bool_decide (submitted = WouldBlock) then
    set_saturated (After now 1000000) (on_timer k (fun t => set_code ErrorCode_Ok (set_flight false (published t) (completionReady t) t)) s)
  else on_timer k (fun t => set_code submitted (set_flight false (published t) true t)) s.

(** The callback of the task's completion. *)
Definition TaskEnded (k : Z) (code : ErrorCode) (s : State) : State :=
  on_timer k (fun t => set_code code (set_flight (inFlight t) (published t) true t)) s.

Definition Retire (k : Z) (code : ErrorCode) (s : State) : State :=
  match find_timer k (timers s) with
  | None => s
  | Some t =>
      MkState (maxTimers s) (maxRetainedBytes s) (filter (fun x => key x <> k) (timers s)) (gone s ++ [set_result code t])
        (retained s - retainedBytes (options t)) (saturatedUntil s) (started s) (ready s) (stopping s) (executor s)
  end.

(** ** Threads *)

(** Where the timing thread is: before a scan; in [Dispatch] before [executor->Submit], after it returned [code], and after the
    section that handles the result; in the other actions; out of the loop. *)
Inductive Worker : Type :=
| WorkerNone | WorkerScan | WorkerSignal (k : Z) | WorkerSubmit (k : Z) | WorkerReturned (k : Z) (code : ErrorCode) | WorkerObserve (k : Z) | WorkerRetire (k : Z) (code : ErrorCode) | WorkerExit.

(** [Accepted]: [RequestCancel] returned true; [Chosen]: a scan chose the timer for dispatch; [Submitted]: the executor took its
    task; [Refused]: the section of [Dispatch] found that it did not. *)
Inductive Event : Type :=
| Accepted (k : Z) | Chosen (k due now : Z) | Submitted (k : Z) | Refused (k : Z) (code : ErrorCode) | Ended (k : Z) (code : ErrorCode) | Signalled (k : Z) | Retired (k : Z) (code : ErrorCode).

(** The tasks that have been submitted and whose completion is observed; the next timer to be made; what happened, the
    cancellations that were accepted included. *)
Record World : Type := MkWorld {
  state : State;
  worker : Worker;
  running : gset Z;
  nextKey : Z;
  trace : list Event
}.

Definition NewWorld : World := MkWorld NewState WorkerNone ∅ 0 [].

Definition act (a : Action) : Worker :=
  match a with ActSignal k => WorkerSignal k | ActDispatch k => WorkerSubmit k | ActRetire k code => WorkerRetire k code end.

Definition chosen (a : Action) (now : Z) (s : State) : list Event :=
  match a with
  | ActDispatch k => match find_timer k (timers s) with Some t => [Chosen k (due t) now] | None => [] end
  | _ => []
  end.

(** What [executor->Submit] does, by what it returns. *)
Definition submitted (k : Z) (code : ErrorCode) : list Event := if bool_decide (code = ErrorCode_Ok) then [Submitted k] else [].

(** The steps of the timing thread. *)
Inductive WorkerStep : World -> World -> Prop :=
| StepScan (s s' : State) (ru : gset Z) (n : Z) (tr : list Event) (now : Z) (a : Action) :
    stopping s && (len (timers s) =? 0) = false -> Scan now s = (inl a, s') ->
    WorkerStep (MkWorld s WorkerScan ru n tr) (MkWorld s' (act a) ru n (tr ++ chosen a now s'))
| StepSleep (s s' : State) (ru : gset Z) (n : Z) (tr : list Event) (now until : Z) :
    stopping s && (len (timers s) =? 0) = false -> Scan now s = (inr until, s') ->
    WorkerStep (MkWorld s WorkerScan ru n tr) (MkWorld s' WorkerScan ru n tr)
| StepExit (s : State) (ru : gset Z) (n : Z) (tr : list Event) : stopping s && (len (timers s) =? 0) = true ->
    WorkerStep (MkWorld s WorkerScan ru n tr) (MkWorld s WorkerExit ru n tr)
| StepSignal (s : State) (ru : gset Z) (n : Z) (tr : list Event) (k : Z) :
    WorkerStep (MkWorld s (WorkerSignal k) ru n tr) (MkWorld s WorkerScan ru n (tr ++ [Signalled k]))
| StepSubmit (s : State) (ru : gset Z) (n : Z) (tr : list Event) (k : Z) (code : ErrorCode) :
    WorkerStep (MkWorld s (WorkerSubmit k) ru n tr) (MkWorld s (WorkerReturned k code) ru n (tr ++ submitted k code))
| StepSubmitted (s : State) (ru : gset Z) (n : Z) (tr : list Event) (k now : Z) :
    WorkerStep (MkWorld s (WorkerReturned k ErrorCode_Ok) ru n tr) (MkWorld (DispatchResult k now ErrorCode_Ok s) (WorkerObserve k) ru n tr)
| StepRefused (s : State) (ru : gset Z) (n : Z) (tr : list Event) (k now : Z) (code : ErrorCode) : code <> ErrorCode_Ok ->
    WorkerStep (MkWorld s (WorkerReturned k code) ru n tr) (MkWorld (DispatchResult k now code s) WorkerScan ru n (tr ++ [Refused k code]))
| StepObserve (s : State) (ru : gset Z) (n : Z) (tr : list Event) (k : Z) :
    WorkerStep (MkWorld s (WorkerObserve k) ru n tr) (MkWorld s WorkerScan ({[k]} ∪ ru) n tr)
| StepRetire (s : State) (ru : gset Z) (n : Z) (tr : list Event) (k : Z) (code : ErrorCode) :
    WorkerStep (MkWorld s (WorkerRetire k code) ru n tr) (MkWorld (Retire k code s) WorkerScan ru n (tr ++ [Retired k code])).

(** The steps of the others. *)
Inductive CallStep : World -> World -> Prop :=
| CallStart (s s' : State) (wo : Worker) (ru : gset Z) (n : Z) (tr : list Event) (maxT maxB : Z) : 0 <= maxT -> 0 <= maxB ->
    StartBegin maxT maxB s = (Status.Ok, s') -> CallStep (MkWorld s wo ru n tr) (MkWorld s' wo ru n tr)
| CallStartFailed (s : State) (ru : gset Z) (n : Z) (tr : list Event) : started s = true ->
    CallStep (MkWorld s WorkerNone ru n tr) (MkWorld (StartFailed s) WorkerExit ru n tr)
| CallSpawned (s : State) (ru : gset Z) (n : Z) (tr : list Event) : started s = true ->
    CallStep (MkWorld s WorkerNone ru n tr) (MkWorld s WorkerScan ru n tr)
| CallReady (s : State) (wo : Worker) (ru : gset Z) (n : Z) (tr : list Event) : wo <> WorkerNone -> executor s = true ->
    CallStep (MkWorld s wo ru n tr) (MkWorld (StartReady s) wo ru n tr)
| CallSchedule (s s' : State) (wo : Worker) (ru : gset Z) (n : Z) (tr : list Event) (callback stopped : bool) (o : TimerOptions) : 0 <= retainedBytes o ->
    Schedule n callback stopped o s = (FromValue n, s') -> CallStep (MkWorld s wo ru n tr) (MkWorld s' wo ru (n + 1) tr)
| CallCancel (s : State) (wo : Worker) (ru : gset Z) (n : Z) (tr : list Event) (k : Z) :
    CallStep (MkWorld s wo ru n tr) (MkWorld (Cancel k s).2 wo ru n (if (Cancel k s).1 then tr ++ [Accepted k] else tr))
| CallReschedule (s : State) (wo : Worker) (ru : gset Z) (n : Z) (tr : list Event) (k d : Z) :
    CallStep (MkWorld s wo ru n tr) (MkWorld (Reschedule k d s).2 wo ru n tr)
| CallRequestStop (s : State) (wo : Worker) (ru : gset Z) (n : Z) (tr : list Event) :
    CallStep (MkWorld s wo ru n tr) (MkWorld (RequestStop s) wo ru n tr)
| CallStopJoined (s : State) (wo : Worker) (ru : gset Z) (n : Z) (tr : list Event) : (wo = WorkerNone /\ started s = false) \/ wo = WorkerExit -> stopping s = true ->
    CallStep (MkWorld s wo ru n tr) (MkWorld (StopJoined s) wo ru n tr)
| CallTaskEnded (s : State) (wo : Worker) (ru : gset Z) (n : Z) (tr : list Event) (k : Z) (code : ErrorCode) : k ∈ ru ->
    CallStep (MkWorld s wo ru n tr) (MkWorld (TaskEnded k code s) wo (ru ∖ {[k]}) n (tr ++ [Ended k code])).

Inductive Run : World -> Prop :=
| RunStart : Run NewWorld
| RunWorker (w w' : World) : Run w -> WorkerStep w w' -> Run w'
| RunCall (w w' : World) : Run w -> CallStep w w' -> Run w'.

End TimerScheduler.
Import TimerScheduler.

(** ** The grid *)

Lemma after_spec (now interval : Z) : 0 <= now <= TIME_MAX -> 0 <= interval -> After now interval = Z.min TIME_MAX (now + interval).
Proof. unfold After, TIME_MAX. intros. case_if; lia. Qed.

Lemma next_slot_spec (served interval now : Z) : 0 <= served <= TIME_MAX -> 0 < interval <= TIME_MAX -> 0 <= now <= TIME_MAX ->
  let d := NextSlot served interval now in
  (d = TIME_MAX \/ exists k, 1 <= k /\ d = served + k * interval)
  /\ served <= d <= TIME_MAX
  /\ (now < d -> d = Z.min TIME_MAX (served + interval))
  /\ (d <= now -> d = TIME_MAX \/ now < d + interval).
Proof.
  intros Hs Hi Hn. unfold NextSlot. cbn zeta. rewrite after_spec by lia.
  destruct (_ || _) eqn:E.
  - split_and!; [|lia|lia|done|].
    + destruct (decide (TIME_MAX <= served + interval)); [left; lia|right; exists 1; lia].
    + intros Hd. left. lia.
  - assert (Hle : served + interval <= now) by lia. rewrite Z.quot_div_nonneg by lia.
    pose proof (Z.div_mod (now - served) interval ltac:(lia)) as D. pose proof (Z.mod_pos_bound (now - served) interval ltac:(lia)) as B.
    assert (1 <= (now - served) / interval) by (apply Z.div_le_lower_bound; lia).
    split_and!; [right; exists ((now - served) / interval); lia|nia|nia|nia|nia].
Qed.

(** The dues of a timer that repeats at a fixed rate, from the times at which its ends are handled. *)
Definition slots (first interval : Z) (nows : list Z) : Z := foldl (fun d now => NextSlot d interval now) first nows.

(** ** The scan *)

(** A timer that the scan passes by. *)
Definition quiet (now : Z) (t : TimerState) : Prop :=
  (cancelled t = true -> signalSent t = true) /\ (inFlight (Rearm now t) = false -> cancelled t = false /\ completionReady (Rearm now t) = false).

Fixpoint considered (now : Z) (l : list TimerState) (earliest : option (Z * Z)) (nextWake : Z) : option (Z * Z) * Z :=
  match l with
  | [] => (earliest, nextWake)
  | t :: l => let '(earliest, nextWake) := Consider now t earliest nextWake in considered now l earliest nextWake
  end.

Lemma rearm_fields (now : Z) (t : TimerState) : key (Rearm now t) = key t /\ options (Rearm now t) = options t /\ cancelled (Rearm now t) = cancelled t
  /\ signalSent (Rearm now t) = signalSent t /\ published (Rearm now t) = published t /\ retiring (Rearm now t) = retiring t /\ terminal (Rearm now t) = terminal t
  /\ completionCode (Rearm now t) = completionCode t.
Proof. unfold Rearm. case_if; [|done]. cbn zeta. by case_if. Qed.

Lemma rearm_flight (now : Z) (t : TimerState) : inFlight (Rearm now t) = inFlight t && negb (published t && completionReady t).
Proof.
  unfold Rearm. destruct (inFlight t) eqn:E1; [|done]. cbn [andb]. destruct (published t && completionReady t) eqn:E2; [|done].
  cbn zeta. by case_if.
Qed.

Lemma scan_loop_spec (now : Z) (l l' : list TimerState) (a : option Action) (e e' : option (Z * Z)) (nw nw' : Z) :
  ScanLoop now l e nw = (l', a, e', nw') ->
  match a with
  | Some (ActSignal k) => exists l1 t l2, l = l1 ++ t :: l2 /\ l' = map (Rearm now) l1 ++ set_signal t :: l2 /\ Forall (quiet now) l1
      /\ key t = k /\ cancelled t = true /\ signalSent t = false
  | Some (ActRetire k code) => exists l1 t l2, l = l1 ++ t :: l2 /\ l' = map (Rearm now) l1 ++ set_retiring (Rearm now t) :: l2 /\ Forall (quiet now) l1
      /\ key t = k /\ code = FinalCode t /\ (cancelled t = true -> signalSent t = true) /\ inFlight (Rearm now t) = false
      /\ (cancelled t = true \/ completionReady (Rearm now t) = true)
  | Some (ActDispatch _) => False
  | None => l' = map (Rearm now) l /\ Forall (quiet now) l /\ considered now l' e nw = (e', nw')
  end.
Proof.
  revert l' e nw. induction l as [|t l IH]; intros l' e nw; cbn [ScanLoop].
  - by intros [= <- <- <- <-].
  - destruct (rearm_fields now t) as (Ek & _ & Ec & Es & _ & _ & _ & Ecc). destruct (cancelled t && negb (signalSent t)) eqn:E1.
    { intros [= <- <- <- <-]. apply andb_true_iff in E1 as [E1 E2%negb_true_iff]. by exists [], t, l. }
    assert (Hsig : cancelled t = true -> signalSent t = true) by (destruct (cancelled t), (signalSent t); naive_solver).
    cbn zeta. rewrite Ek, Ec. destruct (negb _ && _) eqn:E2.
    { intros [= <- <- <- <-]. apply andb_true_iff in E2 as [E2%negb_true_iff E3%orb_true_iff]. exists [], t, l. split_and!; try done.
      unfold FinalCode. by rewrite Ec, Ecc. }
    assert (Hq : quiet now t).
    { split; [done|]. intros Hf. rewrite Hf in E2. cbn [negb andb] in E2. by apply orb_false_iff in E2. }
    destruct (Consider now (Rearm now t) e nw) as [e1 nw1] eqn:E3. destruct (ScanLoop now l e1 nw1) as [[[l1 a1] e2] nw2] eqn:E4.
    intros [= <- <- <- <-]. apply IH in E4. destruct a1 as [[k|k|k code]|].
    + destruct E4 as (m1 & x & m2 & -> & -> & Hm & R). exists (t :: m1), x, m2. split_and!; try done; [by constructor|apply R..].
    + done.
    + destruct E4 as (m1 & x & m2 & -> & -> & Hm & R). exists (t :: m1), x, m2. split_and!; try done; [by constructor|apply R..].
    + destruct E4 as (-> & Hl & Hc). split_and!; [done|by constructor|]. cbn [map considered]. by rewrite E3.
Qed.

(** The candidate that a scan ends with: the first of the earliest. *)
Definition first_earliest (now : Z) (l : list TimerState) (k d : Z) : Prop :=
  exists l1 t l2, l = l1 ++ t :: l2 /\ key t = k /\ due t = d /\ inFlight t = false /\ d <= now
    /\ Forall (fun t' => inFlight t' = false -> d < due t') l1 /\ Forall (fun t' => inFlight t' = false -> d <= due t') l2.

Definition earlier (d : Z) (e : option (Z * Z)) : Prop := match e with Some (_, d0) => d < d0 | None => True end.

Lemma considered_wake (now : Z) (l : list TimerState) (e e' : option (Z * Z)) (nw nw' : Z) : considered now l e nw = (e', nw') ->
  nw' <= nw /\ Forall (fun t => inFlight t = false -> now < due t -> nw' <= due t) l
  /\ (nw' = nw \/ exists t, t ∈ l /\ inFlight t = false /\ now < due t /\ nw' = due t).
Proof.
  revert e nw. induction l as [|t l IH]; intros e nw; cbn [considered]; [intros [= <- <-]; split_and!; [lia|constructor|by left]|].
  unfold Consider. destruct (inFlight t) eqn:Ef; [|destruct (due t <=? now) eqn:Ed]; intros H; destruct (IH _ _ H) as (A & B & C).
  - split_and!; [done|by constructor; [rewrite Ef|]|]. destruct C as [C|(x & Hx & C)]; [by left|right]. exists x. split; [by right|done].
  - split_and!; [done|constructor; [lia|done]|]. destruct C as [C|(x & Hx & C)]; [by left|right]. exists x. split; [by right|done].
  - split_and!; [lia|constructor; [lia|done]|]. destruct C as [C|(x & Hx & C)].
    + destruct (decide (nw' = nw)); [by left|right]. exists t. split_and!; [by left|done|lia|lia].
    + right. exists x. split; [by right|done].
Qed.

Lemma considered_earliest (now : Z) (l : list TimerState) (e e' : option (Z * Z)) (nw nw' : Z) : considered now l e nw = (e', nw') ->
  match e' with
  | None => e = None /\ Forall (fun t => inFlight t = false -> now < due t) l
  | Some (k, d) =>
      (e = Some (k, d) /\ Forall (fun t => inFlight t = false -> due t <= now -> d <= due t) l) \/ (first_earliest now l k d /\ earlier d e)
  end.
Proof.
  revert e nw. induction l as [|t l IH]; intros e nw; cbn [considered].
  - intros [= <- <-]. destruct e as [[k d]|]; [left|]; by split.
  - unfold Consider. destruct (inFlight t) eqn:Ef; [|destruct (due t <=? now) eqn:Ed].
    + intros H. specialize (IH _ _ H). destruct e' as [[k d]|].
      * destruct IH as [[-> B]|[(l1 & x & l2 & -> & R1 & R2 & R3 & R4 & R5 & R6) B]]; [left; split; [done|by constructor; [rewrite Ef|]]|right].
        split; [|done]. exists (t :: l1), x, l2. split_and!; try done. by constructor; [rewrite Ef|].
      * destruct IH as [-> B]. split; [done|]. by constructor; [rewrite Ef|].
    + set (e1 := match e with Some (k, d) => _ | None => _ end). intros H. specialize (IH _ _ H). destruct e' as [[k d]|].
      * assert (He1 : (e1 = Some (key t, due t) /\ earlier (due t) e) \/ (e1 = e /\ exists k0 d0, e = Some (k0, d0) /\ d0 <= due t)).
        { subst e1. destruct e as [[k0 d0]|]; [|left; done]. destruct (due t <? d0) eqn:E; [left|right]; (split; [done|]); [cbn; lia|].
          exists k0, d0. split; [done|lia]. }
        destruct IH as [[E B]|[(l1 & x & l2 & -> & R1 & R2 & R3 & R4 & R5 & R6) B]].
        { destruct He1 as [[E1 L]|[E1 (k0 & d0 & E0 & L)]].
          - rewrite E1 in E. injection E as <- <-. right. split; [|done]. exists [], t, l. split_and!; try done; [lia|].
            eapply Forall_impl; [exact B|]. cbn. intros x Hx Hf. destruct (decide (due x <= now)); [auto|lia].
          - left. rewrite E1 in E. split; [done|]. constructor; [|done]. intros _ _. rewrite E0 in E. injection E as -> ->. lia. }
        right. destruct He1 as [[E1 L]|[E1 (k0 & d0 & E0 & L)]]; rewrite E1 in B.
        { cbn [earlier] in B. split; [|destruct e as [[k0 d0]|]; cbn [earlier] in *; [lia|done]].
          exists (t :: l1), x, l2. split_and!; try done. by constructor. }
        { rewrite E0 in B |- *. cbn [earlier] in B. split; [|cbn [earlier]; lia]. exists (t :: l1), x, l2. split_and!; try done. constructor; [lia|done]. }
      * exfalso. destruct IH as [IH _]. subst e1. destruct e as [[k0 d0]|]; [by destruct (due t <? d0)|done].
    + intros H. specialize (IH _ _ H). destruct e' as [[k d]|].
      * destruct IH as [[-> B]|[(l1 & x & l2 & -> & R1 & R2 & R3 & R4 & R5 & R6) B]]; [left; split; [done|constructor; [lia|done]]|right].
        split; [|done]. exists (t :: l1), x, l2. split_and!; try done. constructor; [lia|done].
      * destruct IH as [-> B]. split; [done|]. constructor; [lia|done].
Qed.

Definition until_exact (now until saturated : Z) (l : list TimerState) : Prop :=
  Forall (fun t => inFlight t = true \/ (now < due t /\ until <= due t) \/ (due t <= now /\ now < saturated /\ until <= saturated)) l
  /\ (until = TIME_MAX \/ (now < until /\ (until = saturated \/ exists t, t ∈ l /\ inFlight t = false /\ until = due t))).

Lemma timer_scan_spec (now : Z) (s s' : State) (r : Action + Z) : Scan now s = (r, s') ->
  match r with
  | inl (ActSignal k) => exists l1 t l2, timers s = l1 ++ t :: l2 /\ s' = set_timers (map (Rearm now) l1 ++ set_signal t :: l2) s
      /\ Forall (quiet now) l1 /\ key t = k /\ cancelled t = true /\ signalSent t = false
  | inl (ActRetire k code) => exists l1 t l2, timers s = l1 ++ t :: l2 /\ s' = set_timers (map (Rearm now) l1 ++ set_retiring (Rearm now t) :: l2) s
      /\ Forall (quiet now) l1 /\ key t = k /\ code = FinalCode t /\ (cancelled t = true -> signalSent t = true) /\ inFlight (Rearm now t) = false
      /\ (cancelled t = true \/ completionReady (Rearm now t) = true)
  | inl (ActDispatch k) => exists d, s' = set_timers (update_timer k (set_flight true false false) (map (Rearm now) (timers s))) s
      /\ Forall (quiet now) (timers s) /\ saturatedUntil s <= now /\ first_earliest now (map (Rearm now) (timers s)) k d
  | inr until => s' = set_timers (map (Rearm now) (timers s)) s /\ Forall (quiet now) (timers s)
      /\ until_exact now until (saturatedUntil s) (map (Rearm now) (timers s))
  end.
Proof.
  unfold Scan. destruct (ScanLoop now (timers s) None TIME_MAX) as [[[l a] e] nw] eqn:E. apply scan_loop_spec in E.
  destruct a as [[k|k|k code]|].
  - intros [= <- <-]. destruct E as (l1 & t & l2 & E1 & -> & R). exists l1, t, l2. split_and!; try done; apply R.
  - done.
  - intros [= <- <-]. destruct E as (l1 & t & l2 & E1 & -> & R). exists l1, t, l2. split_and!; try done; apply R.
  - destruct E as (-> & Hq & Hc). set (l := map (Rearm now) (timers s)) in *. pose proof (considered_wake _ _ _ _ _ _ Hc) as (W1 & W2 & W3).
    apply considered_earliest in Hc. cbn [saturatedUntil set_timers]. destruct e as [[k d]|].
    + destruct Hc as [[? _]|[Hf _]]; [done|]. destruct (now <? saturatedUntil s) eqn:Es; intros [= <- <-].
      * split_and!; try done. split.
        -- apply Forall_forall. intros t Ht. pose proof (proj1 (Forall_forall _ _) W2 t Ht) as Wt. cbn beta in Wt.
           destruct (inFlight t) eqn:Ef; [by left|right]. destruct (decide (due t <= now)); [right; lia|left; specialize (Wt eq_refl ltac:(lia)); lia].
        -- destruct W3 as [->|(t & Ht & Hf' & Hd & ->)].
           ++ destruct (decide (saturatedUntil s <= TIME_MAX)); [right; split; [lia|left; lia]|left; lia].
           ++ right. split; [lia|]. destruct (decide (saturatedUntil s <= due t)); [left; lia|right; exists t; split_and!; try done; lia].
      * exists d. split_and!; try done. lia.
    + intros [= <- <-]. destruct Hc as [_ Hc]. split_and!; try done. split.
      * apply Forall_forall. intros t Ht. pose proof (proj1 (Forall_forall _ _) W2 t Ht) as Wt. pose proof (proj1 (Forall_forall _ _) Hc t Ht) as Ct. cbn beta in Wt, Ct.
        destruct (inFlight t) eqn:Ef; [by left|right]. left. auto.
      * destruct W3 as [->|(t & Ht & Hf' & Hd & ->)]; [by left|right]. split; [done|right]. by exists t.
Qed.

(** ** The account *)

Definition bytes_of (l : list TimerState) : Z := fold_right (fun t n => retainedBytes (options t) + n) 0 l.

(** What every section but [Schedule] and [Retire] keeps. *)
Definition same_timers (l l' : list TimerState) : Prop := map key l' = map key l /\ map options l' = map options l.

Lemma bytes_of_options (l l' : list TimerState) : map options l' = map options l -> bytes_of l' = bytes_of l.
Proof.
  revert l'. induction l as [|t l IH]; intros [|t' l']; try done. cbn [map bytes_of fold_right]. intros [= E1 E2]. rewrite E1. f_equal. by apply IH.
Qed.

Lemma same_map (f : TimerState -> TimerState) (l : list TimerState) : (forall t, key (f t) = key t /\ options (f t) = options t) -> same_timers l (map f l).
Proof. intros H. split; rewrite map_map; apply map_ext; intros t; apply H. Qed.

Lemma same_update (k : Z) (f : TimerState -> TimerState) (l : list TimerState) : (forall t, key (f t) = key t /\ options (f t) = options t) ->
  same_timers l (update_timer k f l).
Proof. intros H. apply same_map. intros t. by destruct (key t =? k). Qed.

Lemma timers_same_trans (a b c : list TimerState) : same_timers a b -> same_timers b c -> same_timers a c.
Proof. intros [A1 A2] [B1 B2]. split; congruence. Qed.

Lemma same_middle (f g : TimerState -> TimerState) (l1 l2 : list TimerState) (t : TimerState) :
  (forall t, key (f t) = key t /\ options (f t) = options t) -> (forall t, key (g t) = key t /\ options (g t) = options t) ->
  same_timers (l1 ++ t :: l2) (map f l1 ++ g t :: l2).
Proof.
  intros Hf Hg. destruct (same_map f l1 Hf) as [A1 A2]. destruct (Hg t) as [B1 B2]. split; rewrite !map_app; cbn [map]; congruence.
Qed.

Lemma rearm_same (now : Z) (t : TimerState) : key (Rearm now t) = key t /\ options (Rearm now t) = options t.
Proof. split; apply rearm_fields. Qed.

(** A scan changes the list only. *)
Lemma scan_same (now : Z) (s s' : State) (r : Action + Z) : Scan now s = (r, s') -> s' = set_timers (timers s') s /\ same_timers (timers s) (timers s').
Proof.
  intros H. apply timer_scan_spec in H. destruct r as [[k|k|k code]|until].
  - destruct H as (l1 & t & l2 & E & -> & _). split; [done|]. cbn [timers set_timers]. rewrite E. by apply same_middle; [apply rearm_same|].
  - destruct H as (d & -> & _). split; [done|]. cbn [timers set_timers]. eapply timers_same_trans; [apply (same_map (Rearm now)), rearm_same|by apply same_update].
  - destruct H as (l1 & t & l2 & E & -> & _). split; [done|]. cbn [timers set_timers]. rewrite E. apply (same_middle (Rearm now) (fun t => set_retiring (Rearm now t))); [apply rearm_same|].
    intros x. apply (rearm_same now x).
  - destruct H as (-> & _). split; [done|]. cbn [timers set_timers]. apply same_map, rearm_same.
Qed.

Record account_ok (n : Z) (s : State) : Prop := MkAccountOk {
  a_keys : NoDup (map key (timers s ++ gone s));
  a_fresh : Forall (fun k => k < n) (map key (timers s ++ gone s));
  a_retained : retained s = bytes_of (timers s);
  a_bytes : retained s <= maxRetainedBytes s;
  a_count : len (timers s) <= maxTimers s;
  a_positive : Forall (fun o => 0 <= retainedBytes o) (map options (timers s));
  a_start : started s = false -> timers s = [] /\ ready s = false
}.

(** The state of the list apart, two states with the same account. *)
Lemma account_same (n : Z) (s s' : State) : account_ok n s -> same_timers (timers s) (timers s') -> gone s' = gone s -> retained s' = retained s ->
  maxTimers s' = maxTimers s -> maxRetainedBytes s' = maxRetainedBytes s -> (started s' = false -> started s = false /\ ready s' = false) -> account_ok n s'.
Proof.
  intros [H1 H2 H3 H4 H5 H6 H7] [S1 S2] E1 E2 E3 E4 E5. assert (L : len (timers s') = len (timers s)).
  { unfold len. by rewrite <-(length_map key (timers s')), S1, length_map. }
  constructor; rewrite ?E1, ?E2, ?E3, ?E4, ?S2, ?L, ?map_app, ?S1, <-?map_app; try done.
  - by rewrite (bytes_of_options _ _ S2).
  - intros Hs. destruct (E5 Hs) as [A B]. destruct (H7 A) as [C _]. split; [|done]. rewrite C in S1. by destruct (timers s').
Qed.

(** ** Where a timer is *)

Inductive Stage : Type := Elsewhere | Submitting | Returned (code : ErrorCode) | Observing | Executing | Retiring (code : ErrorCode).

Definition stage (wo : Worker) (ru : gset Z) (k : Z) : Stage :=
  let rest := if bool_decide (k ∈ ru) then Executing else Elsewhere in
  match wo with
  | WorkerSubmit j => if k =? j then Submitting else rest
  | WorkerReturned j code => if k =? j then Returned code else rest
  | WorkerObserve j => if k =? j then Observing else rest
  | WorkerRetire j code => if k =? j then Retiring code else rest
  | _ => rest
  end.

(** The flags of a timer, from where it is. *)
Definition timer_ok (g : Stage) (t : TimerState) : Prop :=
  terminal t = false /\
  match g with
  | Submitting | Returned _ => inFlight t = true /\ published t = false /\ completionReady t = false /\ retiring t = false
  | Observing | Executing => inFlight t = true /\ published t = true /\ completionReady t = false /\ retiring t = false
  | Retiring code => inFlight t = false /\ retiring t = true
  | Elsewhere => retiring t = false /\ (inFlight t = true -> published t = true /\ completionReady t = true)
  end.

Definition worker_key (wo : Worker) : option Z :=
  match wo with WorkerSubmit k | WorkerReturned k _ | WorkerObserve k | WorkerRetire k _ => Some k | _ => None end.

Record places_ok (w : World) : Prop := MkPlacesOk {
  p_timer : Forall (fun t => timer_ok (stage (worker w) (running w) (key t)) t) (timers (state w));
  p_worker : forall k, worker_key (worker w) = Some k -> k ∈ map key (timers (state w)) /\ k ∉ running w;
  p_running : forall k, k ∈ running w -> k ∈ map key (timers (state w));
  p_alive : worker w <> WorkerNone -> worker w <> WorkerExit -> executor (state w) = true;
  p_none : worker w = WorkerNone -> timers (state w) = [] /\ ready (state w) = false /\ (started (state w) = true -> executor (state w) = true);
  p_started : worker w <> WorkerNone -> started (state w) = true;
  p_exit : worker w = WorkerExit -> stopping (state w) = true /\ timers (state w) = [];
  p_gone : Forall (fun t => terminal t = true /\ retiring t = true) (gone (state w))
}.

Lemma stage_rest (wo : Worker) (ru : gset Z) (k : Z) : worker_key wo <> Some k -> stage wo ru k = if bool_decide (k ∈ ru) then Executing else Elsewhere.
Proof. destruct wo; cbn [worker_key stage]; try done; intros H; (destruct (k =? _) eqn:E; [|done]); apply Z.eqb_eq in E; congruence. Qed.

Lemma find_timer_spec (k : Z) (l : list TimerState) : match find_timer k l with Some t => t ∈ l /\ key t = k | None => k ∉ map key l end.
Proof.
  induction l as [|t l IH]; cbn [find_timer find map]; [by intros ?%elem_of_nil|]. destruct (key t =? k) eqn:E.
  - split; [by left|lia].
  - fold (find_timer k l). destruct (find_timer k l) as [x|]; [destruct IH; split; [by right|done]|]. intros [->|H]%elem_of_cons; [lia|done].
Qed.

Lemma update_other (k : Z) (f : TimerState -> TimerState) (l : list TimerState) : k ∉ map key l -> update_timer k f l = l.
Proof.
  induction l as [|t l IH]; [done|]. cbn [map update_timer]. intros H. destruct (key t =? k) eqn:E; [apply Z.eqb_eq in E; subst k; exfalso; apply H; left|].
  f_equal. apply IH. intros H'. apply H. by right.
Qed.

(** An update of one timer keeps what holds of each, if it does at that timer. *)
Lemma update_forall (P Q : TimerState -> Prop) (k : Z) (f : TimerState -> TimerState) (l : list TimerState) : Forall P l ->
  (forall t, t ∈ l -> key t = k -> P t -> Q (f t)) -> (forall t, t ∈ l -> key t <> k -> P t -> Q t) -> Forall Q (update_timer k f l).
Proof.
  intros H H1 H2. unfold update_timer. apply Forall_map, Forall_forall. intros t Ht. pose proof (proj1 (Forall_forall _ _) H t Ht).
  destruct (key t =? k) eqn:E; [apply H1|apply H2]; try done; lia.
Qed.

Lemma update_keys (k : Z) (f : TimerState -> TimerState) (l : list TimerState) : (forall t, key (f t) = key t) -> map key (update_timer k f l) = map key l.
Proof. intros H. unfold update_timer. rewrite map_map. apply map_ext. intros t. by destruct (key t =? k). Qed.

(** The worker goes from one place to another; the timers at other keys stay where they were. *)
Lemma timer_moves (wo wo' : Worker) (ru ru' : gset Z) (k : Z) (l : list TimerState) (f : TimerState -> TimerState) :
  Forall (fun t => timer_ok (stage wo ru (key t)) t) l -> (forall t, key (f t) = key t) ->
  (forall j, j <> k -> stage wo' ru' j = stage wo ru j) ->
  (forall t, t ∈ l -> key t = k -> timer_ok (stage wo ru k) t -> timer_ok (stage wo' ru' k) (f t)) ->
  Forall (fun t => timer_ok (stage wo' ru' (key t)) t) (update_timer k f l).
Proof.
  intros H Hk Hj Hf. eapply update_forall; [exact H| |].
  - intros t Ht E Ho. cbn beta in *. rewrite Hk, E in *. by apply Hf.
  - intros t _ E Ho. cbn beta in *. by rewrite Hj.
Qed.

(** A scan from a list where each timer is in its place. *)
Lemma rearm_ok (now : Z) (t : TimerState) (ru : gset Z) : timer_ok (stage WorkerScan ru (key t)) t -> timer_ok (stage WorkerScan ru (key t)) (Rearm now t).
Proof.
  destruct (rearm_fields now t) as (_ & _ & _ & _ & Ep & Er & Et & _). pose proof (rearm_flight now t) as Ef. cbn [stage].
  case_bool_decide as Hr; unfold timer_ok; rewrite Er, Et, Ep, Ef.
  - intros (A & B & C & D & E). assert (R : Rearm now t = t) by (unfold Rearm; by rewrite B, C, D). by rewrite R, B, C, D.
  - intros (A & B & C). split_and!; try done; destruct (inFlight t) eqn:E1; try done; destruct (C eq_refl) as [-> ->]; done.
Qed.

Lemma stage_scan (ru : gset Z) (wo : Worker) (j : Z) : worker_key wo <> Some j -> stage wo ru j = stage WorkerScan ru j.
Proof. intros H. by rewrite (stage_rest wo). Qed.

Lemma scan_places (now : Z) (s s' : State) (r : Action + Z) (ru : gset Z) : NoDup (map key (timers s)) ->
  Forall (fun t => timer_ok (stage WorkerScan ru (key t)) t) (timers s) -> Scan now s = (r, s') ->
  let wo := match r with inl a => act a | inr _ => WorkerScan end in
  Forall (fun t => timer_ok (stage wo ru (key t)) t) (timers s')
  /\ (forall k, worker_key wo = Some k -> k ∈ map key (timers s') /\ k ∉ ru).
Proof.
  intros Hn Ho Hs. destruct (scan_same _ _ _ _ Hs) as [_ [Sk _]]. apply timer_scan_spec in Hs.
  assert (Hre : forall l, Forall (fun t => timer_ok (stage WorkerScan ru (key t)) t) l -> Forall (fun t => timer_ok (stage WorkerScan ru (key t)) t) (map (Rearm now) l)).
  { intros l Hl. apply Forall_map. eapply Forall_impl; [exact Hl|]. intros t Ht. cbn beta. destruct (rearm_fields now t) as (-> & _). by apply rearm_ok. }
  destruct r as [[k|k|k code]|until]; cbn [act].
  - split; [|done]. destruct Hs as (l1 & t & l2 & E & -> & _). cbn [timers set_timers]. rewrite E in Ho. apply Forall_app in Ho as [H1 H2].
    inversion H2 as [|? ? H3 H4]; subst. apply Forall_app. split; [by apply Hre|]. by constructor.
  - destruct Hs as (d & -> & Hq & _ & (l1 & t & l2 & E & Ek & Ed & Ef & _)). cbn [timers set_timers] in *. set (l := map (Rearm now) (timers s)) in *.
    assert (Hl : Forall (fun t => timer_ok (stage WorkerScan ru (key t)) t) l) by by apply Hre.
    assert (Hin : k ∈ map key l) by (rewrite E, map_app; cbn [map]; subst k; set_solver).
    assert (Hk : timer_ok (stage WorkerScan ru k) t) by (rewrite E in Hl; apply Forall_app in Hl as [_ Hl]; inversion Hl; by subst).
    assert (Hr : k ∉ ru).
    { intros Hr. cbn [stage] in Hk. rewrite bool_decide_true in Hk by done. destruct Hk as (_ & Hk & _). congruence. }
    split; [|intros j [= <-]; split; [by rewrite update_keys|done]].
    apply (timer_moves WorkerScan (WorkerSubmit k) ru ru k l); try done.
    + intros j Hj. cbn [stage]. destruct (j =? k) eqn:E'; [lia|done].
    + intros x _ _. cbn [stage]. rewrite bool_decide_false by done. rewrite Z.eqb_refl. by intros (A & B & _).
  - destruct Hs as (l1 & t & l2 & E & -> & _ & Ek & _ & _ & Ef & _). cbn [timers set_timers] in *.
    rewrite E in Ho, Hn. apply Forall_app in Ho as [H1 H2]. inversion H2 as [|? ? H3 H4]; subst. rewrite map_app in Hn. cbn [map] in Hn.
    assert (Hr : key t ∉ ru).
    { intros Hr. cbn [stage] in H3. rewrite bool_decide_true in H3 by done. destruct H3 as (_ & A & B & C & _).
      rewrite rearm_flight, A, B, C in Ef. done. }
    assert (Hother : forall l, key t ∉ map key l -> Forall (fun t => timer_ok (stage WorkerScan ru (key t)) t) l ->
      Forall (fun x => timer_ok (stage (WorkerRetire (key t) code) ru (key x)) x) l).
    { intros l Hl H. apply Forall_forall. intros x Hx. rewrite stage_scan; [exact (proj1 (Forall_forall _ _) H x Hx)|].
      cbn [worker_key]. intros [= E']. apply Hl. rewrite E'. by apply list_elem_of_fmap_2. }
    apply NoDup_app in Hn as (_ & Hd & [Hn2 _]%NoDup_cons). split.
    + apply Forall_app. split; [apply Hother; [|by apply Hre]|constructor; [|by apply Hother]].
      * rewrite map_map. rewrite (map_ext _ key); [|apply rearm_same]. intros Hk. apply (Hd _ Hk). by left.
      * cbn [key set_retiring]. destruct (rearm_fields now t) as (-> & _ & _ & _ & _ & _ & Et & _). cbn [stage]. rewrite Z.eqb_refl.
        split; [|split; done]. cbn [terminal set_retiring]. rewrite Et. apply H3.
    + intros k [= <-]. split; [|done]. rewrite Sk, E, map_app. cbn [map]. set_solver.
  - split; [|done]. destruct Hs as (-> & _). by apply Hre.
Qed.

(** ** Every step keeps the account and the places *)

Definition same_rest (s s' : State) : Prop :=
  gone s' = gone s /\ retained s' = retained s /\ maxTimers s' = maxTimers s /\ maxRetainedBytes s' = maxRetainedBytes s
  /\ started s' = started s /\ ready s' = ready s /\ executor s' = executor s.

Definition alive (wo : Worker) : Prop := wo <> WorkerNone /\ wo <> WorkerExit.

(** The list is changed timer by timer, and the timing thread goes on in its loop or stands still. *)
Lemma places_list (s s' : State) (wo wo' : Worker) (ru ru' : gset Z) (n n' : Z) (tr tr' : list Event) :
  places_ok (MkWorld s wo ru n tr) -> same_rest s s' -> same_timers (timers s) (timers s') -> (stopping s = true -> stopping s' = true) ->
  (wo' = wo \/ (alive wo /\ alive wo')) ->
  Forall (fun t => timer_ok (stage wo' ru' (key t)) t) (timers s') ->
  (forall k, worker_key wo' = Some k -> k ∈ map key (timers s) /\ k ∉ ru') -> (forall k, k ∈ ru' -> k ∈ map key (timers s)) ->
  places_ok (MkWorld s' wo' ru' n' tr').
Proof.
  intros [H1 H2 H3 H4 H5 H6 H7 H8] (R1 & R2 & R3 & R4 & R5 & R6 & R7) [S1 S2] Hst Hw Ho Hk Hr.
  cbn [state worker running] in *.
  assert (Hnil : timers s = [] -> timers s' = []) by (intros E; rewrite E in S1; by destruct (timers s')).
  constructor; cbn [state worker running]; rewrite ?R1, ?R2, ?R3, ?R4, ?R5, ?R6, ?R7, ?S1; try done;
    destruct Hw as [->|[[A1 A2] [A3 A4]]]; naive_solver.
Qed.

Definition timers_ok (w : World) : Prop := account_ok (nextKey w) (state w) /\ places_ok w.

Lemma account_rest (n : Z) (s s' : State) : account_ok n s -> same_rest s s' -> same_timers (timers s) (timers s') -> account_ok n s'.
Proof.
  intros H (R1 & R2 & R3 & R4 & R5 & R6 & R7) S. apply (account_same n s); try done. intros E. split; [by rewrite <-R5|].
  rewrite R6. apply (a_start _ _ H). by rewrite <-R5.
Qed.

(** One timer changes, with its place. *)
Lemma ok_timer (s s' : State) (wo wo' : Worker) (ru ru' : gset Z) (n : Z) (tr tr' : list Event) (k : Z) (f : TimerState -> TimerState) :
  timers_ok (MkWorld s wo ru n tr) -> same_rest s s' -> timers s' = update_timer k f (timers s) -> stopping s' = stopping s ->
  (wo' = wo \/ (alive wo /\ alive wo')) -> (forall t, key (f t) = key t /\ options (f t) = options t) ->
  (forall j, j <> k -> stage wo' ru' j = stage wo ru j) ->
  (forall t, timer_ok (stage wo ru k) t -> timer_ok (stage wo' ru' k) (f t)) ->
  (forall j, worker_key wo' = Some j -> j ∈ map key (timers s) /\ j ∉ ru') -> (forall j, j ∈ ru' -> j ∈ map key (timers s)) ->
  timers_ok (MkWorld s' wo' ru' n tr').
Proof.
  intros [Ha Hp] Hr Ht Hst Hw Hf Hj Hk H1 H2. cbn [nextKey state] in *. assert (S : same_timers (timers s) (timers s')) by (rewrite Ht; by apply same_update).
  split; cbn [nextKey state]; [by apply (account_rest n s)|]. apply (places_list s s' wo wo' ru ru' n n tr tr'); try done; [congruence|].
  rewrite Ht. apply (timer_moves wo wo' ru ru'); try done; [apply (p_timer _ Hp)|intros t; apply Hf|]. intros t _ _. apply Hk.
Qed.

Lemma update_id (k : Z) (l : list TimerState) : update_timer k (fun t => t) l = l.
Proof. unfold update_timer. rewrite <-(map_id l) at 2. apply map_ext. intros t. by destruct (key t =? k). Qed.

(** The worker moves, the state does not. *)
Lemma ok_worker (s : State) (wo wo' : Worker) (ru ru' : gset Z) (n : Z) (tr tr' : list Event) (k : Z) :
  timers_ok (MkWorld s wo ru n tr) -> (alive wo /\ alive wo') -> (forall j, j <> k -> stage wo' ru' j = stage wo ru j) ->
  (forall t, timer_ok (stage wo ru k) t -> timer_ok (stage wo' ru' k) t) ->
  (forall j, worker_key wo' = Some j -> j ∈ map key (timers s) /\ j ∉ ru') -> (forall j, j ∈ ru' -> j ∈ map key (timers s)) ->
  timers_ok (MkWorld s wo' ru' n tr').
Proof.
  intros Ho Hw Hj Hk H1 H2. apply (ok_timer s s wo wo' ru ru' n tr tr' k (fun t => t)); try done; [by rewrite update_id|by right].
Qed.

Lemma stage_at (wo : Worker) (ru : gset Z) (k : Z) : worker_key wo = Some k ->
  stage wo ru k = match wo with WorkerSubmit _ => Submitting | WorkerReturned _ code => Returned code | WorkerObserve _ => Observing | WorkerRetire _ code => Retiring code | _ => Elsewhere end.
Proof. destruct wo; try done; cbn [worker_key stage]; intros [= ->]; by rewrite Z.eqb_refl. Qed.

Lemma stage_free (ru : gset Z) (k : Z) : k ∉ ru -> stage WorkerScan ru k = Elsewhere.
Proof. intros H. cbn [stage]. by rewrite bool_decide_false. Qed.

Lemma stage_run (wo : Worker) (ru : gset Z) (k : Z) : worker_key wo <> Some k -> k ∈ ru -> stage wo ru k = Executing.
Proof. intros H1 H2. rewrite stage_rest by done. by rewrite bool_decide_true. Qed.

Lemma stage_other (wo wo' : Worker) (ru ru' : gset Z) (j : Z) : worker_key wo <> Some j -> worker_key wo' <> Some j -> (j ∈ ru' <-> j ∈ ru) ->
  stage wo' ru' j = stage wo ru j.
Proof. intros H1 H2 H3. rewrite !stage_rest by done. by rewrite (bool_decide_ext _ _ H3). Qed.

Ltac same_stage :=
  lazymatch goal with
  | |- forall j, j <> _ -> stage _ _ _ = _ => intros j Hj; apply stage_other; [cbn [worker_key]; congruence..|set_solver]
  end.

Lemma scan_ok (s s' : State) (ru : gset Z) (n : Z) (tr tr' : list Event) (now : Z) (r : Action + Z) :
  timers_ok (MkWorld s WorkerScan ru n tr) -> Scan now s = (r, s') ->
  timers_ok (MkWorld s' (match r with inl a => act a | inr _ => WorkerScan end) ru n tr').
Proof.
  intros [Ha Hp] Hs. cbn [nextKey state] in *. destruct (scan_same _ _ _ _ Hs) as [E S]. pose proof (a_keys _ _ Ha) as Hn. rewrite map_app in Hn.
  apply NoDup_app in Hn as [Hn _]. destruct (scan_places now s s' r ru Hn (p_timer _ Hp) Hs) as [P1 P2].
  assert (R : same_rest s s') by (rewrite E; done). split; cbn [nextKey state]; [by apply (account_rest n s)|].
  apply (places_list s s' WorkerScan _ ru ru n n tr tr'); try done; [by rewrite E|right; split; [done|destruct r as [[]|]; done]|by destruct S as [<- _]|].
  apply (p_running _ Hp).
Qed.

Lemma refused_ok (s : State) (ru : gset Z) (n : Z) (tr tr' : list Event) (k now : Z) (code : ErrorCode) : code <> ErrorCode_Ok ->
  timers_ok (MkWorld s (WorkerReturned k code) ru n tr) -> timers_ok (MkWorld (DispatchResult k now code s) WorkerScan ru n tr').
Proof.
  intros Hc Ho. destruct (p_worker _ (proj2 Ho) k eq_refl) as [Hk Hr]; cbn [state running] in Hk, Hr. unfold DispatchResult. rewrite (bool_decide_false (code = _)) by done.
  destruct (bool_decide _).
  all: eapply (ok_timer s _ (WorkerReturned k code) WorkerScan ru ru n tr tr' k); try done; try (by right); try same_stage; try apply (p_running _ (proj2 Ho)).
  all: intros t; rewrite stage_at, stage_free by done; unfold timer_ok; cbn; naive_solver.
Qed.

Lemma submit_ok (s : State) (ru : gset Z) (n : Z) (tr tr' : list Event) (k : Z) (code : ErrorCode) :
  timers_ok (MkWorld s (WorkerSubmit k) ru n tr) -> timers_ok (MkWorld s (WorkerReturned k code) ru n tr').
Proof.
  intros Ho. destruct (p_worker _ (proj2 Ho) k eq_refl) as [Hk Hr]; cbn [state running] in Hk, Hr.
  eapply (ok_worker s (WorkerSubmit k) (WorkerReturned k code) ru ru n tr tr' k); try done; try same_stage; try apply (p_running _ (proj2 Ho)).
  - intros t. by rewrite !stage_at by done.
  - by intros j [= <-].
Qed.

Lemma submitted_ok (s : State) (ru : gset Z) (n : Z) (tr : list Event) (k now : Z) :
  timers_ok (MkWorld s (WorkerReturned k ErrorCode_Ok) ru n tr) -> timers_ok (MkWorld (DispatchResult k now ErrorCode_Ok s) (WorkerObserve k) ru n tr).
Proof.
  intros Ho. destruct (p_worker _ (proj2 Ho) k eq_refl) as [Hk Hr]; cbn [state running] in Hk, Hr.
  eapply (ok_timer s _ (WorkerReturned k ErrorCode_Ok) (WorkerObserve k) ru ru n tr tr k); try done; try (by right); try same_stage; try apply (p_running _ (proj2 Ho)).
  - intros t. rewrite !stage_at by done. unfold timer_ok; cbn; naive_solver.
  - by intros j [= <-].
Qed.

Lemma observe_ok (s : State) (ru : gset Z) (n : Z) (tr : list Event) (k : Z) :
  timers_ok (MkWorld s (WorkerObserve k) ru n tr) -> timers_ok (MkWorld s WorkerScan ({[k]} ∪ ru) n tr).
Proof.
  intros Ho. destruct (p_worker _ (proj2 Ho) k eq_refl) as [Hk Hr]; cbn [state running] in Hk, Hr.
  eapply (ok_worker s (WorkerObserve k) WorkerScan ru _ n tr tr k); try done; try same_stage.
  - intros t. rewrite stage_at, stage_run by (done || set_solver). done.
  - intros j [->%elem_of_singleton|Hj]%elem_of_union; [done|]. by apply (p_running _ (proj2 Ho)).
Qed.

Lemma signal_ok (s : State) (ru : gset Z) (n : Z) (tr tr' : list Event) (k : Z) :
  timers_ok (MkWorld s (WorkerSignal k) ru n tr) -> timers_ok (MkWorld s WorkerScan ru n tr').
Proof.
  intros Ho. eapply (ok_worker s (WorkerSignal k) WorkerScan ru ru n tr tr' k); try done. apply (p_running _ (proj2 Ho)).
Qed.

Lemma ended_ok (s : State) (wo : Worker) (ru : gset Z) (n : Z) (tr tr' : list Event) (k : Z) (code : ErrorCode) : k ∈ ru ->
  timers_ok (MkWorld s wo ru n tr) -> timers_ok (MkWorld (TaskEnded k code s) wo (ru ∖ {[k]}) n tr').
Proof.
  intros Hk Ho. assert (Hw : worker_key wo <> Some k) by (intros E; by destruct (p_worker _ (proj2 Ho) k E)).
  eapply (ok_timer s _ wo wo ru _ n tr tr' k); try done; try (by left).
  - intros j Hj. destruct wo; cbn [stage]; rewrite (bool_decide_ext (j ∈ ru ∖ {[k]}) (j ∈ ru)) by set_solver; done.
  - intros t. rewrite stage_run by done. rewrite stage_rest by done. rewrite bool_decide_false by set_solver. unfold timer_ok; cbn; naive_solver.
  - intros j E. destruct (p_worker _ (proj2 Ho) j E) as [A B]. split; [exact A|]. cbn [running] in B. set_solver.
  - intros j Hj. apply (p_running _ (proj2 Ho)). cbn [running]. set_solver.
Qed.

Lemma filter_key (l1 l2 : list TimerState) (t : TimerState) : NoDup (map key (l1 ++ t :: l2)) -> filter (fun x => key x <> key t) (l1 ++ t :: l2) = l1 ++ l2.
Proof.
  intros Hn. assert (Hid : forall l, key t ∉ map key l -> filter (fun x => key x <> key t) l = l).
  { induction l as [|x l IH]; [done|]. cbn [map]. intros [H1 H2]%not_elem_of_cons. rewrite filter_cons_True by done. by rewrite IH. }
  rewrite map_app in Hn. cbn [map] in Hn. apply NoDup_app in Hn as (_ & Hd & [Hn _]%NoDup_cons).
  rewrite filter_app, filter_cons_False by tauto. rewrite !Hid; [done|done|]. intros Hk. apply (Hd _ Hk). by left.
Qed.

(** The timer of a key, and what is around it. *)
Lemma find_split (k : Z) (l : list TimerState) : k ∈ map key l -> exists l1 t l2, l = l1 ++ t :: l2 /\ key t = k /\ find_timer k l = Some t.
Proof.
  intros Hk. induction l as [|x l IH]; [by apply elem_of_nil in Hk|]. cbn [find_timer find]. destruct (key x =? k) eqn:E.
  - exists [], x, l. split_and!; try done. lia.
  - cbn [map] in Hk. apply elem_of_cons in Hk as [->|Hk]; [lia|]. destruct (IH Hk) as (l1 & t & l2 & -> & E1 & E2). by exists (x :: l1), t, l2.
Qed.

Lemma retire_split (k : Z) (code : ErrorCode) (s : State) : NoDup (map key (timers s)) -> k ∈ map key (timers s) ->
  exists l1 t l2, timers s = l1 ++ t :: l2 /\ key t = k /\ timers (Retire k code s) = l1 ++ l2 /\ gone (Retire k code s) = gone s ++ [set_result code t]
    /\ retained (Retire k code s) = retained s - retainedBytes (options t) /\ maxTimers (Retire k code s) = maxTimers s
    /\ maxRetainedBytes (Retire k code s) = maxRetainedBytes s /\ started (Retire k code s) = started s /\ ready (Retire k code s) = ready s
    /\ stopping (Retire k code s) = stopping s /\ executor (Retire k code s) = executor s.
Proof.
  intros Hn Hk. destruct (find_split k _ Hk) as (l1 & t & l2 & E & Ek & Ef). exists l1, t, l2. unfold Retire. rewrite Ef.
  cbn [timers gone retained maxTimers maxRetainedBytes started ready stopping executor]. split_and!; try done. rewrite E in Hn |- *. subst k. by apply filter_key.
Qed.

Lemma bytes_app (a b : list TimerState) : bytes_of (a ++ b) = bytes_of a + bytes_of b.
Proof. unfold bytes_of. induction a as [|t a IH]; [done|]. cbn [app fold_right]. lia. Qed.

Lemma retire_account (n k : Z) (code : ErrorCode) (s : State) : account_ok n s -> k ∈ map key (timers s) -> account_ok n (Retire k code s).
Proof.
  intros [H1 H2 H3 H4 H5 H6 H7] Hk. assert (Hn : NoDup (map key (timers s))) by (rewrite map_app in H1; by apply NoDup_app in H1 as [? _]).
  destruct (retire_split k code s Hn Hk) as (l1 & t & l2 & E & Ek & E1 & E2 & E3 & E4 & E5 & E6 & E7 & _).
  assert (P : map key (timers (Retire k code s) ++ gone (Retire k code s)) ≡ₚ map key (timers s ++ gone s)).
  { rewrite E1, E2, E, !map_app. cbn [map key set_result]. rewrite <-!(assoc_L app). apply Permutation_app_head. cbn [app].
    rewrite (assoc_L app). symmetry. apply Permutation_cons_append. }
  rewrite E, map_app in H6. cbn [map] in H6. apply Forall_app in H6 as [F1 F2]. inversion F2 as [|? ? F3 F4]; subst.
  rewrite E, bytes_app in H3. cbn [bytes_of fold_right] in H3. fold (bytes_of l2) in H3.
  rewrite E, len_app in H5. constructor; rewrite ?P, ?E1, ?E3, ?E4, ?E5, ?E6, ?E7; try done.
  - rewrite bytes_app. lia.
  - lia.
  - rewrite len_app. unfold len in *. cbn [length] in H5. lia.
  - rewrite map_app. by apply Forall_app.
  - intros Hs. destruct (H7 Hs) as [A B]. rewrite E in A. by destruct l1.
Qed.

Lemma account_active (n : Z) (s : State) : account_ok n s -> NoDup (map key (timers s)).
Proof. intros [H _ _ _ _ _ _]. rewrite map_app in H. by apply NoDup_app in H as [? _]. Qed.

Lemma retire_ok (s : State) (ru : gset Z) (n : Z) (tr tr' : list Event) (k : Z) (code : ErrorCode) :
  timers_ok (MkWorld s (WorkerRetire k code) ru n tr) -> timers_ok (MkWorld (Retire k code s) WorkerScan ru n tr').
Proof.
  intros Ho. destruct (p_worker _ (proj2 Ho) k eq_refl) as [Hk Hr]; cbn [state running] in Hk, Hr. destruct Ho as [Ha [P1 P2 P3 P4 P5 P6 P7 P8]].
  cbn [nextKey state worker running] in *. pose proof (account_active _ _ Ha) as Hn. split; [by apply retire_account|].
  destruct (retire_split k code s Hn Hk) as (l1 & t & l2 & E & Ek & E1 & E2 & E3 & E4 & E5 & E6 & E7 & E8 & E9).
  assert (Hother : Forall (fun x => key x <> k) (l1 ++ l2)).
  { rewrite E, map_app in Hn. cbn [map] in Hn. subst k. apply NoDup_app in Hn as (_ & Hd & [Hn _]%NoDup_cons).
    apply Forall_app. split; apply Forall_forall; intros x Hx Ex.
    - apply (Hd (key x)); [by apply list_elem_of_fmap_2|]. rewrite Ex. by left.
    - apply Hn. rewrite <-Ex. by apply list_elem_of_fmap_2. }
  constructor; cbn [state worker running]; rewrite ?E1, ?E2, ?E6, ?E7, ?E8, ?E9; try done.
  - rewrite E in P1. apply Forall_app in P1 as [F1 F2]. inversion F2 as [|? ? F3 F4]; subst. apply Forall_forall. intros x Hx.
    pose proof (proj1 (Forall_forall _ _) Hother x Hx) as Hne. cbn beta in Hne. rewrite (stage_other (WorkerRetire (key t) code) WorkerScan ru ru) by (cbn [worker_key]; (done || congruence)).
    apply elem_of_app in Hx as [Hx|Hx]; [exact (proj1 (Forall_forall _ _) F1 x Hx)|exact (proj1 (Forall_forall _ _) F4 x Hx)].
  - intros j Hj. pose proof (P3 j Hj) as Hj'. rewrite E, map_app in Hj'. cbn [map] in Hj'. rewrite map_app. subst k. set_solver.
  - intros _ _. by apply P4.
  - intros _. by apply P6.
  - apply Forall_app. split; [done|]. constructor; [|constructor]. cbn [terminal retiring set_result]. split; [done|].
    rewrite E in P1. apply Forall_app in P1 as [_ F2]. inversion F2 as [|? ? F3 F4]; subst. rewrite stage_at in F3 by done. apply F3.
Qed.

Lemma schedule_ok (s s' : State) (wo : Worker) (ru : gset Z) (n : Z) (tr tr' : list Event) (callback stopped : bool) (o : TimerOptions) : 0 <= retainedBytes o ->
  Schedule n callback stopped o s = (FromValue n, s') -> timers_ok (MkWorld s wo ru n tr) -> timers_ok (MkWorld s' wo ru (n + 1) tr').
Proof.
  intros Hb. unfold Schedule. case_if; [done|]. case_if; [done|]. case_if; [done|]. case_if; [done|]. intros [= <-].
  intros [[A1 A2 A3 A4 A5 A6 A7] [P1 P2 P3 P4 P5 P6 P7 P8]]. cbn [nextKey state worker running] in *.
  assert (Hnew : n ∉ map key (timers s ++ gone s)) by (intros Hn; pose proof (proj1 (Forall_forall _ _) A2 n Hn); cbn beta in *; lia).
  rewrite map_app in Hnew. apply not_elem_of_app in Hnew as [N1 N2].
  assert (Hstage : stage wo ru n = Elsewhere).
  { rewrite stage_rest; [by rewrite bool_decide_false; [|intros Hn; apply N1, P3]|]. intros Hw. by apply N1, P2. }
  assert (Ht : key (NewTimer n o stopped) = n) by done.
  split; constructor; cbn [nextKey state worker running maxTimers maxRetainedBytes timers gone retained saturatedUntil started ready stopping executor]; try done.
  - rewrite map_app in A1. rewrite !map_app. apply NoDup_app in A1 as (B1 & B2 & B3). apply NoDup_app. split_and!; [|set_solver|done].
    apply NoDup_app. split_and!; [done|set_solver|apply NoDup_singleton].
  - rewrite !map_app in A2. rewrite !map_app. apply Forall_app in A2 as [B1 B2]. assert (W : forall l, Forall (fun k => k < n) l -> Forall (fun k => k < n + 1) l).
    { intros l Hl. eapply Forall_impl; [exact Hl|]. cbn. lia. }
    apply Forall_app. split; [apply Forall_app; split; [by apply W|]|by apply W]. constructor; [cbn; lia|constructor].
  - rewrite bytes_app. cbn [bytes_of fold_right options NewTimer]. lia.
  - lia.
  - rewrite len_app. change (len [NewTimer n o stopped]) with 1. lia.
  - rewrite map_app. apply Forall_app. split; [done|]. constructor; [done|constructor].
  - intros Hs. destruct (A7 Hs) as [_ Hr]. rewrite Hr in E0. done.
  - apply Forall_app. split; [done|]. constructor; [|constructor]. rewrite Ht, Hstage. done.
  - intros k Hk. destruct (P2 k Hk). rewrite map_app. set_solver.
  - intros k Hk. pose proof (P3 k Hk). rewrite map_app. set_solver.
  - intros Hw. destruct (P5 Hw) as (_ & Hr & _). rewrite Hr in E0. done.
  - intros Hw. destruct (P7 Hw) as [Hs _]. rewrite Hs in E0. by destruct (ready s).
Qed.

Lemma worker_ok (w w' : World) : WorkerStep w w' -> timers_ok w -> timers_ok w'.
Proof.
  destruct 1 as [s s' ru n tr now a Hx Hs|s s' ru n tr now until Hx Hs|s ru n tr Hx|s ru n tr k|s ru n tr k code|s ru n tr k now|s ru n tr k now code Hc|s ru n tr k|s ru n tr k code];
    intros Ho.
  - by apply (scan_ok s s' ru n tr _ now (inl a)).
  - by apply (scan_ok s s' ru n tr _ now (inr until)).
  - apply andb_true_iff in Hx as [Hst Hl]. assert (Hnil : timers s = []) by (destruct (timers s) as [|x l]; [done|unfold len in Hl; cbn [length] in Hl; lia]).
    destruct Ho as [Ha [P1 P2 P3 P4 P5 P6 P7 P8]]. split; [done|]. cbn [nextKey state worker running] in *. constructor; cbn [state worker running]; try done.
    intros _. by apply P6.
  - by apply (signal_ok s ru n tr _ k).
  - by apply (submit_ok s ru n tr).
  - by apply submitted_ok.
  - by apply (refused_ok s ru n tr).
  - by apply observe_ok.
  - by apply (retire_ok s ru n tr).
Qed.

(** A flag or the due of one timer changes, nothing that says where it is. *)
Lemma touch_ok (s : State) (wo : Worker) (ru : gset Z) (n : Z) (tr tr' : list Event) (k : Z) (f : TimerState -> TimerState) :
  (forall t, key (f t) = key t /\ options (f t) = options t) -> (forall g t, timer_ok g t -> timer_ok g (f t)) ->
  timers_ok (MkWorld s wo ru n tr) -> timers_ok (MkWorld (on_timer k f s) wo ru n tr').
Proof.
  intros Hf Hg Ho. eapply (ok_timer s _ wo wo ru ru n tr tr' k f); try done; [by left|intros t; apply Hg|apply (p_worker _ (proj2 Ho))|apply (p_running _ (proj2 Ho))].
Qed.

Lemma cancel_state (k : Z) (s : State) : (Cancel k s).2 = s \/ (Cancel k s).2 = on_timer k set_cancelled s.
Proof. unfold Cancel. destruct (handle k s) as [t|]; [|by left]. case_if; [by left|by right]. Qed.

Lemma reschedule_state (k d : Z) (s : State) : (Reschedule k d s).2 = s \/ (Reschedule k d s).2 = on_timer k (set_due d) s.
Proof. unfold Reschedule. destruct (handle k s) as [t|]; [|by left]. case_if; [by left|]. case_if; [by left|by right]. Qed.

(** The trace does not count for the account and the places. *)
Lemma retrace (s : State) (wo : Worker) (ru : gset Z) (n : Z) (tr tr' : list Event) : timers_ok (MkWorld s wo ru n tr) -> timers_ok (MkWorld s wo ru n tr').
Proof. intros [Ha [P1 P2 P3 P4 P5 P6 P7 P8]]. split; [done|]. by constructor. Qed.

Lemma request_stop_ok (s : State) (wo : Worker) (ru : gset Z) (n : Z) (tr : list Event) :
  timers_ok (MkWorld s wo ru n tr) -> timers_ok (MkWorld (RequestStop s) wo ru n tr).
Proof.
  intros [Ha Hp]. cbn [nextKey state] in *. assert (S : same_timers (timers s) (timers (RequestStop s))) by by apply same_map.
  split; cbn [nextKey state]; [by apply (account_rest n s)|]. apply (places_list s _ wo wo ru ru n n tr tr); try done; [by left| |apply (p_worker _ Hp)|apply (p_running _ Hp)].
  cbn [timers RequestStop set_flags set_timers]. apply Forall_map. eapply Forall_impl; [apply (p_timer _ Hp)|]. by intros t Ht.
Qed.

Lemma call_ok (w w' : World) : CallStep w w' -> timers_ok w -> timers_ok w'.
Proof.
  destruct 1 as [s s' wo ru n tr maxT maxB Ht Hb Hs|s ru n tr Hs|s ru n tr Hs|s wo ru n tr Hw He|s s' wo ru n tr callback stopped o Hb Hs|s wo ru n tr k|s wo ru n tr k d
    |s wo ru n tr|s wo ru n tr Hw Hst|s wo ru n tr k code Hk]; intros Ho.
  - unfold StartBegin in Hs. destruct (_ || _); [done|]. destruct (started s || stopping s) eqn:E; [done|]. injection Hs as <-. apply orb_false_iff in E as [E1 E2].
    destruct Ho as [[A1 A2 A3 A4 A5 A6 A7] [P1 P2 P3 P4 P5 P6 P7 P8]]. cbn [nextKey state worker running] in *. destruct (A7 E1) as [Hnil Hr].
    rewrite Hnil in *. split; constructor; cbn [nextKey state worker running maxTimers maxRetainedBytes timers gone retained started ready stopping executor]; rewrite ?Hnil, ?A3; try done.
  - destruct Ho as [[A1 A2 A3 A4 A5 A6 A7] [P1 P2 P3 P4 P5 P6 P7 P8]]. cbn [nextKey state worker running] in *. destruct (P5 eq_refl) as (Hnil & Hr & _).
    split; constructor; cbn [nextKey state worker running maxTimers maxRetainedBytes timers gone retained started ready stopping executor StartFailed set_flags]; try done.
  - destruct Ho as [[A1 A2 A3 A4 A5 A6 A7] [P1 P2 P3 P4 P5 P6 P7 P8]]. cbn [nextKey state worker running] in *. destruct (P5 eq_refl) as (Hnil & Hr & He).
    split; constructor; cbn [nextKey state worker running]; try done. by intros _ _; apply He.
  - destruct Ho as [[A1 A2 A3 A4 A5 A6 A7] [P1 P2 P3 P4 P5 P6 P7 P8]]. cbn [nextKey state worker running] in *.
    split; constructor; cbn [nextKey state worker running maxTimers maxRetainedBytes timers gone retained started ready stopping executor StartReady set_flags]; try done.
    intros Hs. rewrite (P6 Hw) in Hs. done.
  - by eapply schedule_ok.
  - apply (retrace _ _ _ _ tr). destruct (cancel_state k s) as [->| ->]; [done|]. by eapply touch_ok.
  - destruct (reschedule_state k d s) as [->| ->]; [done|]. by eapply touch_ok.
  - by apply request_stop_ok.
  - destruct Ho as [[A1 A2 A3 A4 A5 A6 A7] [P1 P2 P3 P4 P5 P6 P7 P8]]. cbn [nextKey state worker running] in *.
    split; constructor; cbn [nextKey state worker running maxTimers maxRetainedBytes timers gone retained started ready stopping executor StopJoined set_flags]; try done.
    + intros Hs. split; [by apply A7|done].
    + intros H1 H2. by destruct Hw as [[-> _]| ->].
    + intros ->. destruct (P5 eq_refl) as (B1 & B2 & B3). split_and!; try done. destruct Hw as [[_ Hs]|?]; [congruence|done].
  - by eapply ended_ok.
Qed.

Lemma run_ok (w : World) : Run w -> timers_ok w.
Proof.
  induction 1 as [|w w' _ IH Hs|w w' _ IH Hs]; [|by eapply worker_ok|by eapply call_ok]. split; constructor; cbn; try done; try lia; apply NoDup_nil_2.
Qed.

(** ** The life of a timer *)

(** A timer waits, was chosen by a scan and not yet submitted, has a task on the executor, or is retired. *)
Inductive Life : Type := Waiting | Picked | Flying | Over.

#[global] Instance Life_eq_dec : EqDecision Life.
Proof. solve_decision. Defined.

(** What may come next for the timer [j], and where it leads; the second part tells whether a cancellation was accepted.  A timer
    is chosen when it waits and is due, and never once its cancellation was accepted; its task is submitted once for each time it
    was chosen, or refused; it is retired once, as cancelled if that was promised, and nothing comes after. *)
Definition next_life (j : Z) (p : Life * bool) (e : Event) : option (Life * bool) :=
  match e with
  | Accepted k => if k =? j then (if p.2 || bool_decide (p.1 = Over) then None else Some (p.1, true)) else Some p
  | Chosen k d now =>
      if k =? j then (if bool_decide (p = (Waiting, false)) && (d <=? now) then Some (Picked, false) else None) else Some p
  | Submitted k => if k =? j then (if bool_decide (p.1 = Picked) then Some (Flying, p.2) else None) else Some p
  | Refused k _ => if k =? j then (if bool_decide (p.1 = Picked) then Some (Waiting, p.2) else None) else Some p
  | Ended k _ => if k =? j then (if bool_decide (p.1 = Flying) then Some (Waiting, p.2) else None) else Some p
  | Signalled _ => Some p
  | Retired k code =>
      if k =? j then (if bool_decide (p.1 = Waiting) && (negb p.2 || bool_decide (code = Cancelled)) then Some (Over, p.2) else None) else Some p
  end.

Definition replay (j : Z) (l : list Event) : option (Life * bool) := foldl (fun p e => p ≫= fun p => next_life j p e) (Some (Waiting, false)) l.

Lemma replay_snoc (j : Z) (l : list Event) (e : Event) : replay j (l ++ [e]) = replay j l ≫= fun p => next_life j p e.
Proof. unfold replay. by rewrite foldl_app. Qed.

Definition life (w : World) (j : Z) : Life :=
  match stage (worker w) (running w) j with
  | Submitting => Picked
  | Returned code => if bool_decide (code = ErrorCode_Ok) then Flying else Picked
  | Observing | Executing => Flying
  | _ => if bool_decide (j ∈ map key (gone (state w))) then Over else Waiting
  end.

(** What an accepted cancellation of [j] promises. *)
Definition promised (w : World) (j : Z) : Prop :=
  j < nextKey w /\ (forall t, t ∈ timers (state w) -> key t = j -> cancelled t = true) /\ (forall code, worker w = WorkerRetire j code -> code = Cancelled).

Definition lives_ok (w : World) : Prop :=
  forall j, exists accepted, replay j (trace w) = Some (life w j, accepted) /\ (accepted = true -> promised w j).

(** Nothing happens. *)
Lemma lives_keep (w w' : World) : trace w' = trace w -> (forall j, life w' j = life w j) -> (forall j, promised w j -> promised w' j) ->
  lives_ok w -> lives_ok w'.
Proof. intros Ht Hl Hp Ho j. destruct (Ho j) as (a & R & P). exists a. rewrite Ht, Hl. auto. Qed.

(** Something happens to the timer [k]. *)
Lemma lives_event (w w' : World) (e : Event) (k : Z) : trace w' = trace w ++ [e] -> (forall j, j <> k -> life w' j = life w j) ->
  (forall j, promised w j -> promised w' j) -> (forall j p, j <> k -> next_life j p e = Some p) ->
  (forall a, (a = true -> promised w k) -> exists a', next_life k (life w k, a) e = Some (life w' k, a') /\ (a' = true -> a = true \/ promised w' k)) ->
  lives_ok w -> lives_ok w'.
Proof.
  intros Ht Hl Hp Hn Hk Ho j. destruct (Ho j) as (a & R & P). rewrite Ht, replay_snoc, R. cbn [mbind option_bind]. destruct (decide (j = k)) as [->|Hj].
  - destruct (Hk a P) as (a' & -> & Ha). exists a'. split; [done|]. intros E. destruct (Ha E); auto.
  - rewrite Hn by done. exists a. rewrite Hl by done. auto.
Qed.

Lemma life_stage (w w' : World) (j : Z) : stage (worker w') (running w') j = stage (worker w) (running w) j ->
  map key (gone (state w')) = map key (gone (state w)) -> life w' j = life w j.
Proof. intros E1 E2. unfold life. by rewrite E1, E2. Qed.

(** A scan keeps what the timers have been promised. *)
Lemma scan_cancelled (now : Z) (s s' : State) (r : Action + Z) (j : Z) : Scan now s = (r, s') ->
  (forall t, t ∈ timers s -> key t = j -> cancelled t = true) -> forall t, t ∈ timers s' -> key t = j -> cancelled t = true.
Proof.
  intros Hs H. assert (Hm : forall l, (forall t, t ∈ l -> key t = j -> cancelled t = true) -> forall t, t ∈ map (Rearm now) l -> key t = j -> cancelled t = true).
  { intros l Hl t (x & -> & Hx)%list_elem_of_fmap Hk. destruct (rearm_fields now x) as (Ek & _ & -> & _). apply Hl; congruence. }
  apply timer_scan_spec in Hs. destruct r as [[k|k|k code]|until].
  - destruct Hs as (l1 & t & l2 & E & -> & _). rewrite E in H. cbn [timers set_timers]. intros x [Hx|[->|Hx]%elem_of_cons]%elem_of_app.
    + revert x Hx. apply Hm. intros y Hy. apply H. set_solver.
    + apply (H t). set_solver.
    + apply (H x). set_solver.
  - destruct Hs as (d & -> & _). cbn [timers set_timers]. unfold update_timer. intros x (y & -> & Hy)%list_elem_of_fmap.
    destruct (key y =? k); exact (Hm _ H y Hy).
  - destruct Hs as (l1 & t & l2 & E & -> & _). rewrite E in H. cbn [timers set_timers]. intros x [Hx|[->|Hx]%elem_of_cons]%elem_of_app.
    + revert x Hx. apply Hm. intros y Hy. apply H. set_solver.
    + cbn [key cancelled set_retiring]. destruct (rearm_fields now t) as (-> & _ & -> & _). apply (H t). set_solver.
    + apply (H x). set_solver.
  - destruct Hs as (-> & _). by apply Hm.
Qed.

Lemma active_not_gone (n : Z) (s : State) (j : Z) : account_ok n s -> j ∈ map key (timers s) -> j ∉ map key (gone s).
Proof. intros [H _ _ _ _ _ _]. rewrite map_app in H. apply NoDup_app in H as (_ & H & _). auto. Qed.

Lemma life_waiting (n : Z) (s : State) (ru : gset Z) (wo : Worker) (tr : list Event) (j : Z) : account_ok n s -> j ∈ map key (timers s) ->
  (forall g, stage wo ru j = g -> g = Elsewhere \/ exists code, g = Retiring code) -> life (MkWorld s wo ru n tr) j = Waiting.
Proof.
  intros Ha Hj Hg. unfold life. cbn [worker running state]. rewrite bool_decide_false by by eapply active_not_gone.
  by destruct (Hg _ eq_refl) as [-> |[code ->]].
Qed.

Lemma scan_promised (now : Z) (s s' : State) (r : Action + Z) (ru : gset Z) (n : Z) (tr tr' : list Event) (j : Z) : Scan now s = (r, s') ->
  promised (MkWorld s WorkerScan ru n tr) j -> promised (MkWorld s' (match r with inl a => act a | inr _ => WorkerScan end) ru n tr') j.
Proof.
  intros Hs (P1 & P2 & _). split_and!; [done|by eapply scan_cancelled|]. cbn [worker]. intros code Hc. apply timer_scan_spec in Hs.
  destruct r as [[k|k|k code']|until]; try done. injection Hc as -> ->. destruct Hs as (l1 & t & l2 & E & _ & _ & Ek & -> & _).
  unfold FinalCode. rewrite (P2 t); [done|cbn [state]; rewrite E; set_solver|done].
Qed.

Lemma find_unique (l : list TimerState) (x : TimerState) : NoDup (map key l) -> x ∈ l -> find_timer (key x) l = Some x.
Proof.
  intros Hn Hx. induction l as [|t l IH]; [by apply elem_of_nil in Hx|]. cbn [map] in Hn. apply NoDup_cons in Hn as [Hn1 Hn2]. cbn [find_timer find].
  apply elem_of_cons in Hx as [->|Hx]; [by rewrite Z.eqb_refl|]. destruct (key t =? key x) eqn:E; [|by apply IH].
  apply Z.eqb_eq in E. exfalso. apply Hn1. rewrite E. by apply list_elem_of_fmap_2.
Qed.

Lemma find_update (k : Z) (f : TimerState -> TimerState) (l : list TimerState) : (forall t, key (f t) = key t) ->
  find_timer k (update_timer k f l) = option_map f (find_timer k l).
Proof.
  intros Hf. induction l as [|t l IH]; [done|]. unfold find_timer in *. cbn [update_timer map find]. destruct (key t =? k) eqn:E; [by rewrite Hf, E|by rewrite E].
Qed.

Lemma scan_lives (s s' : State) (ru : gset Z) (n : Z) (tr : list Event) (now : Z) (a : Action) :
  timers_ok (MkWorld s WorkerScan ru n tr) -> Scan now s = (inl a, s') -> lives_ok (MkWorld s WorkerScan ru n tr) ->
  lives_ok (MkWorld s' (act a) ru n (tr ++ chosen a now s')).
Proof.
  intros Ho Hs Hl. pose proof (scan_ok s s' ru n tr tr now (inl a) Ho Hs) as Ho'. destruct (scan_same _ _ _ _ Hs) as [Eg [Sk _]].
  assert (Hg : gone s' = gone s) by by rewrite Eg. pose proof (account_active _ _ (proj1 Ho)) as Hn. cbn [state] in Hn.
  pose proof (fun tr' j => scan_promised now s s' (inl a) ru n tr tr' j Hs) as Hpr. destruct a as [k|k|k code]; cbn [chosen act] in *.
  - rewrite app_nil_r. revert Hl. apply lives_keep; [done| |apply Hpr]. intros j. apply life_stage; cbn [state worker running]; [done|by rewrite Hg].
  - destruct (p_worker _ (proj2 Ho') k eq_refl) as [Hk Hr]; cbn [state running] in Hk, Hr. rewrite Sk in Hk.
    destruct (timer_scan_spec _ _ _ _ Hs) as (d & E' & Hq & _ & (l1 & x & l2 & E & Ek & Ed & Ef & Hd & _)).
    assert (Hf : find_timer k (timers s') = Some (set_flight true false false x)).
    { rewrite E'. cbn [timers set_timers]. rewrite find_update by done. rewrite <-Ek, find_unique; [done| |rewrite E; set_solver].
      rewrite map_map. rewrite (map_ext _ key); [done|]. apply rearm_same. }
    rewrite Hf. change (due (set_flight true false false x)) with (due x). revert Hl. apply (lives_event _ _ (Chosen k (due x) now) k); try done.
    + intros j Hj. apply life_stage; cbn [state worker running]; [by apply stage_other; cbn [worker_key]; (done || congruence)|by rewrite Hg].
    + apply Hpr.
    + intros j p Hj. cbn [next_life]. destruct (k =? j) eqn:E1; [lia|done].
    + intros acc Hacc. exists false. split; [|done]. cbn [next_life]. rewrite Z.eqb_refl.
      rewrite (life_waiting n s ru WorkerScan tr k (proj1 Ho) Hk) by (intros g <-; left; by apply stage_free).
      unfold life at 1. cbn [worker running state]. rewrite stage_at by done. assert (acc = false) as ->; [|by rewrite (proj2 (Z.leb_le (due x) now)) by lia].
      destruct acc; [|done]. destruct (Hacc eq_refl) as (_ & C & _). cbn [state] in C. exfalso.
      assert (Hx : x ∈ map (Rearm now) (timers s)) by (rewrite E; set_solver). apply list_elem_of_fmap in Hx as (y & -> & Hy).
      destruct (rearm_fields now y) as (Eky & _). destruct (proj1 (Forall_forall _ _) Hq y Hy) as [_ Q]. destruct (Q Ef) as [Q1 _]. rewrite (C y) in Q1; congruence.
  - destruct (p_worker _ (proj2 Ho') k eq_refl) as [Hk Hr]; cbn [state running] in Hk, Hr. rewrite app_nil_r. revert Hl. apply lives_keep; [done| |apply Hpr].
    intros j. unfold life. cbn [state worker running]. rewrite Hg. destruct (decide (j = k)) as [->|Hj].
    + by rewrite (stage_at (WorkerRetire k code)), stage_free.
    + by rewrite (stage_other WorkerScan (WorkerRetire k code) ru ru) by (cbn [worker_key]; (done || congruence)).
Qed.

(** The worker leaves an action: what its timer goes through, the others as they were. *)
Lemma leave_lives (s s' : State) (wo wo' : Worker) (ru ru' : gset Z) (n : Z) (tr : list Event) (k : Z) :
  lives_ok (MkWorld s wo ru n tr) -> (forall j, life (MkWorld s' wo' ru' n tr) j = life (MkWorld s wo ru n tr) j) ->
  (forall j, (forall t, t ∈ timers s -> key t = j -> cancelled t = true) -> forall t, t ∈ timers s' -> key t = j -> cancelled t = true) ->
  (forall j code, wo' = WorkerRetire j code -> wo = WorkerRetire j code) -> lives_ok (MkWorld s' wo' ru' n tr).
Proof.
  intros Hl Hj Hc Hw. revert Hl. apply lives_keep; try done. intros j (P1 & P2 & P3). split_and!; cbn [nextKey state worker] in *; [done|by apply Hc|].
  intros code E. apply P3. by apply Hw.
Qed.

Lemma update_cancelled (k j : Z) (f : TimerState -> TimerState) (l : list TimerState) : (forall t, key (f t) = key t /\ (cancelled t = true -> cancelled (f t) = true)) ->
  (forall t, t ∈ l -> key t = j -> cancelled t = true) -> forall t, t ∈ update_timer k f l -> key t = j -> cancelled t = true.
Proof.
  intros Hf H t (x & -> & Hx)%list_elem_of_fmap Hk. destruct (key x =? k); [|by apply H]. destruct (Hf x) as [E1 E2]. apply E2, H; [done|congruence].
Qed.

Lemma promised_leave (s s' : State) (wo wo' : Worker) (ru ru' : gset Z) (n : Z) (tr tr' : list Event) (j : Z) :
  (forall j, (forall t, t ∈ timers s -> key t = j -> cancelled t = true) -> forall t, t ∈ timers s' -> key t = j -> cancelled t = true) ->
  (forall j code, wo' = WorkerRetire j code -> wo = WorkerRetire j code) -> promised (MkWorld s wo ru n tr) j -> promised (MkWorld s' wo' ru' n tr') j.
Proof.
  intros Hc Hw (P1 & P2 & P3). split_and!; cbn [nextKey state worker] in *; [done|by apply Hc|]. intros code E. by apply P3, Hw.
Qed.

Lemma dispatch_cancelled (k now : Z) (code : ErrorCode) (s : State) (j : Z) : (forall t, t ∈ timers s -> key t = j -> cancelled t = true) ->
  forall t, t ∈ timers (DispatchResult k now code s) -> key t = j -> cancelled t = true.
Proof. unfold DispatchResult. case_if; [|case_if]; cbn [timers on_timer set_timers set_saturated]; by apply update_cancelled. Qed.

Lemma dispatch_gone (k now : Z) (code : ErrorCode) (s : State) : gone (DispatchResult k now code s) = gone s.
Proof. unfold DispatchResult. by case_if; [|case_if]. Qed.

(** An end or a refusal: the timer goes back to wait. *)
Lemma landed_lives (s s' : State) (wo wo' : Worker) (ru ru' : gset Z) (n : Z) (tr : list Event) (k : Z) (e : Event) :
  timers_ok (MkWorld s wo ru n tr) -> k ∈ map key (timers s) -> gone s' = gone s ->
  (forall j p, j <> k -> next_life j p e = Some p) -> (forall acc, next_life k (life (MkWorld s wo ru n tr) k, acc) e = Some (Waiting, acc)) ->
  (forall j, j <> k -> stage wo' ru' j = stage wo ru j) -> stage wo' ru' k = Elsewhere ->
  (forall j, (forall t, t ∈ timers s -> key t = j -> cancelled t = true) -> forall t, t ∈ timers s' -> key t = j -> cancelled t = true) ->
  (forall j code, wo' = WorkerRetire j code -> wo = WorkerRetire j code) ->
  lives_ok (MkWorld s wo ru n tr) -> lives_ok (MkWorld s' wo' ru' n (tr ++ [e])).
Proof.
  intros Ho Hk Hg He Hf Hj Hk' Hc Hw. apply (lives_event _ _ e k); try done.
  - intros j Hne. apply life_stage; cbn [state worker running]; [by apply Hj|by rewrite Hg].
  - intros j. by apply promised_leave.
  - intros acc _. exists acc. split; [|by left]. rewrite Hf. unfold life. cbn [worker running state]. rewrite Hk', Hg.
    by rewrite bool_decide_false by (eapply active_not_gone; [apply Ho|done]).
Qed.

(** The executor takes the task of a chosen timer, or does not. *)
Lemma submit_lives (s : State) (ru : gset Z) (n : Z) (tr : list Event) (k : Z) (code : ErrorCode) : timers_ok (MkWorld s (WorkerSubmit k) ru n tr) ->
  lives_ok (MkWorld s (WorkerSubmit k) ru n tr) -> lives_ok (MkWorld s (WorkerReturned k code) ru n (tr ++ submitted k code)).
Proof.
  intros Ho Hl. assert (Hs : forall j, j <> k -> stage (WorkerReturned k code) ru j = stage (WorkerSubmit k) ru j).
  { intros j Hj. apply stage_other; cbn [worker_key]; (done || congruence). }
  unfold submitted. case_bool_decide as Hc.
  - revert Hl. apply (lives_event _ _ (Submitted k) k); try done.
    + intros j Hj. apply life_stage; cbn [state worker running]; [by apply Hs|done].
    + intros j. by apply promised_leave.
    + intros j p Hj. cbn [next_life]. destruct (k =? j) eqn:E1; [lia|done].
    + intros acc _. exists acc. split; [|by left]. unfold life. cbn [worker running state]. rewrite !stage_at by done. cbn [next_life].
      by rewrite Z.eqb_refl, Hc.
  - rewrite app_nil_r. apply (leave_lives s s (WorkerSubmit k) (WorkerReturned k code) ru ru n tr k); try done.
    intros j. unfold life. cbn [worker running state]. destruct (decide (j = k)) as [->|Hj]; [|by rewrite Hs].
    rewrite !stage_at by done. by rewrite bool_decide_false by done.
Qed.

Lemma retire_lives (s : State) (ru : gset Z) (n : Z) (tr : list Event) (k : Z) (code : ErrorCode) : timers_ok (MkWorld s (WorkerRetire k code) ru n tr) ->
  lives_ok (MkWorld s (WorkerRetire k code) ru n tr) -> lives_ok (MkWorld (Retire k code s) WorkerScan ru n (tr ++ [Retired k code])).
Proof.
  intros Ho. destruct (p_worker _ (proj2 Ho) k eq_refl) as [Hk Hr]; cbn [state running] in Hk, Hr.
  destruct (retire_split k code s (account_active _ _ (proj1 Ho)) Hk) as (l1 & t & l2 & E & Ek & E1 & E2 & _).
  apply (lives_event _ _ (Retired k code) k); try done.
  - intros j Hj. unfold life. cbn [worker running state]. rewrite (stage_other (WorkerRetire k code) WorkerScan ru ru) by (cbn [worker_key]; (done || congruence)).
    rewrite E2, map_app. cbn [map key set_result]. rewrite Ek. by rewrite (bool_decide_ext (j ∈ map key (gone s) ++ [k]) (j ∈ map key (gone s))) by set_solver.
  - intros j. apply promised_leave; [|done]. rewrite E1, E. intros i H x Hx. apply H. set_solver.
  - intros j p Hj. cbn [next_life]. destruct (k =? j) eqn:E3; [lia|done].
  - intros acc Hacc. exists acc. split; [|by left]. rewrite (life_waiting n s ru _ tr k (proj1 Ho) Hk) by (intros g <-; right; exists code; by apply stage_at).
    unfold life. cbn [worker running state]. rewrite stage_free by done. rewrite E2, map_app. cbn [map key set_result]. rewrite Ek, bool_decide_true by set_solver.
    cbn [next_life]. rewrite Z.eqb_refl. cbn [fst snd]. destruct acc; [|done]. destruct (Hacc eq_refl) as (_ & _ & C). by rewrite (C code eq_refl).
Qed.

Lemma worker_lives (w w' : World) : WorkerStep w w' -> timers_ok w -> lives_ok w -> lives_ok w'.
Proof.
  destruct 1 as [s s' ru n tr now a Hx Hs|s s' ru n tr now until Hx Hs|s ru n tr Hx|s ru n tr k|s ru n tr k code|s ru n tr k now|s ru n tr k now code Hc|s ru n tr k|s ru n tr k code];
    intros Ho.
  - by apply scan_lives.
  - destruct (scan_same _ _ _ _ Hs) as [Eg _]. apply lives_keep; [done| |intros j; by apply (scan_promised now s s' (inr until))].
    intros j. apply life_stage; cbn [state worker running]; [done|by rewrite Eg].
  - intros Hl. by apply (leave_lives s s WorkerScan WorkerExit ru ru n tr 0).
  - apply (lives_event _ _ (Signalled k) k); try done; [intros j; by apply promised_leave|]. intros acc Ha. exists acc. split; [done|by left].
  - by apply submit_lives.
  - destruct (p_worker _ (proj2 Ho) k eq_refl) as [Hk Hr]; cbn [state running] in Hk, Hr. intros Hl.
    apply (leave_lives s _ (WorkerReturned k ErrorCode_Ok) (WorkerObserve k) ru ru n tr k); try done; [|by apply dispatch_cancelled].
    intros j. unfold life. cbn [worker running state]. rewrite dispatch_gone. destruct (decide (j = k)) as [->|Hj]; [by rewrite !stage_at by done|].
    by rewrite (stage_other (WorkerReturned k ErrorCode_Ok) (WorkerObserve k) ru ru) by (cbn [worker_key]; (done || congruence)).
  - destruct (p_worker _ (proj2 Ho) k eq_refl) as [Hk Hr]; cbn [state running] in Hk, Hr.
    apply (landed_lives s _ (WorkerReturned k code) WorkerScan ru ru n tr k); try done; [apply dispatch_gone| | |same_stage|by apply stage_free|by apply dispatch_cancelled].
    + intros j p Hj. cbn [next_life]. destruct (k =? j) eqn:E1; [lia|done].
    + intros acc. unfold life. cbn [worker running state]. rewrite stage_at by done. rewrite bool_decide_false by done. cbn [next_life]. by rewrite Z.eqb_refl.
  - destruct (p_worker _ (proj2 Ho) k eq_refl) as [Hk Hr]; cbn [state running] in Hk, Hr. intros Hl.
    apply (leave_lives s s (WorkerObserve k) WorkerScan ru ({[k]} ∪ ru) n tr k); try done.
    intros j. unfold life. cbn [worker running state]. destruct (decide (j = k)) as [->|Hj]; [by rewrite (stage_at (WorkerObserve k)), stage_run by (done || set_solver)|].
    by rewrite (stage_other (WorkerObserve k) WorkerScan ru ({[k]} ∪ ru)) by (cbn [worker_key]; (set_solver || congruence)).
  - by apply retire_lives.
Qed.

Lemma cancel_true (k : Z) (s : State) (wo : Worker) (ru : gset Z) (n : Z) (tr : list Event) : timers_ok (MkWorld s wo ru n tr) -> (Cancel k s).1 = true ->
  (Cancel k s).2 = on_timer k set_cancelled s /\ k ∈ map key (timers s) /\ (forall code, wo <> WorkerRetire k code)
  /\ exists t, t ∈ timers s /\ key t = k /\ cancelled t = false.
Proof.
  intros Ho. unfold Cancel, handle. pose proof (find_timer_spec k (timers s)) as Ht. destruct (find_timer k (timers s)) as [t|].
  - destruct Ht as [Ht Ek]. destruct (_ || _) eqn:E; [done|]. intros _. apply orb_false_iff in E as [[E1 E2]%orb_false_iff _]. split_and!; try done.
    + rewrite <-Ek. by apply list_elem_of_fmap_2.
    + intros code ->. pose proof (proj1 (Forall_forall _ _) (p_timer _ (proj2 Ho)) t Ht) as Hp. cbn [worker running] in Hp.
      rewrite stage_at in Hp by (cbn; congruence). destruct Hp as (_ & _ & Hp). congruence.
    + by exists t.
  - pose proof (find_timer_spec k (gone s)) as Hg. destruct (find_timer k (gone s)) as [t|]; [|done]. destruct Hg as [Hg _].
    destruct (proj1 (Forall_forall _ _) (p_gone _ (proj2 Ho)) t Hg) as [A B]. by rewrite A, orb_true_r.
Qed.

Lemma cancel_lives (s : State) (wo : Worker) (ru : gset Z) (n : Z) (tr : list Event) (k : Z) : timers_ok (MkWorld s wo ru n tr) ->
  lives_ok (MkWorld s wo ru n tr) -> lives_ok (MkWorld (Cancel k s).2 wo ru n (if (Cancel k s).1 then tr ++ [Accepted k] else tr)).
Proof.
  intros Ho. destruct (Cancel k s).1 eqn:E.
  - destruct (cancel_true k s wo ru n tr Ho E) as (-> & Hk & Hw & (t & Ht & Ek & Hc)). apply (lives_event _ _ (Accepted k) k); try done.
    + intros j. apply promised_leave; [|done]. intros i. by apply update_cancelled.
    + intros j p Hj. cbn [next_life]. destruct (k =? j) eqn:E1; [lia|done].
    + intros acc Hacc. exists true. assert (acc = false) as ->.
      { destruct acc; [|done]. destruct (Hacc eq_refl) as (_ & C & _). rewrite (C t Ht Ek) in Hc. done. }
      split.
      * cbn [next_life fst snd]. rewrite Z.eqb_refl. cbn [orb]. rewrite bool_decide_false; [done|]. unfold life. cbn [worker running state].
        rewrite bool_decide_false by (eapply active_not_gone; [apply Ho|done]). by destruct (stage wo ru k); try case_bool_decide.
      * intros _. right. split_and!; cbn [nextKey state worker].
        -- pose proof (a_fresh _ _ (proj1 Ho)) as Hf. cbn [state nextKey] in Hf. rewrite map_app in Hf. apply Forall_app in Hf as [Hf _].
           exact (proj1 (Forall_forall _ _) Hf k Hk).
        -- cbn [on_timer timers set_timers]. intros x (y & -> & Hy)%list_elem_of_fmap. destruct (key y =? k) eqn:E2; [done|intros Hky; lia].
        -- intros code Hco. by destruct (Hw code).
  - intros Hl. apply (leave_lives s _ wo wo ru ru n tr k); try done.
    + intros j. apply life_stage; [done|]. cbn [state]. by destruct (cancel_state k s) as [->| ->].
    + intros j. destruct (cancel_state k s) as [->| ->]; [done|]. by apply update_cancelled.
Qed.

Lemma schedule_lives (s s' : State) (wo : Worker) (ru : gset Z) (n : Z) (tr : list Event) (callback stopped : bool) (o : TimerOptions) :
  Schedule n callback stopped o s = (FromValue n, s') -> lives_ok (MkWorld s wo ru n tr) -> lives_ok (MkWorld s' wo ru (n + 1) tr).
Proof.
  unfold Schedule. case_if; [done|]. case_if; [done|]. case_if; [done|]. case_if; [done|]. intros [= <-]. apply lives_keep; try done.
  intros j (P1 & P2 & P3). cbn [nextKey state worker] in *. split_and!; cbn [nextKey state worker timers]; [lia| |done].
  intros t [Ht| ->%list_elem_of_singleton]%elem_of_app; [by apply P2|]. cbn [key NewTimer]. lia.
Qed.

Lemma call_lives (w w' : World) : CallStep w w' -> timers_ok w -> lives_ok w -> lives_ok w'.
Proof.
  destruct 1 as [s s' wo ru n tr maxT maxB Ht Hb Hs|s ru n tr Hs|s ru n tr Hs|s wo ru n tr Hw He|s s' wo ru n tr callback stopped o Hb Hs|s wo ru n tr k|s wo ru n tr k d
    |s wo ru n tr|s wo ru n tr Hw Hst|s wo ru n tr k code Hk]; intros Ho Hl.
  - unfold StartBegin in Hs. case_if_in Hs; [done|]. case_if_in Hs; [done|]. injection Hs as <-. by apply (leave_lives s _ wo wo ru ru n tr 0).
  - by apply (leave_lives s _ WorkerNone WorkerExit ru ru n tr 0).
  - by apply (leave_lives s _ WorkerNone WorkerScan ru ru n tr 0).
  - by apply (leave_lives s _ wo wo ru ru n tr 0).
  - by eapply schedule_lives.
  - by apply cancel_lives.
  - apply (leave_lives s _ wo wo ru ru n tr k); try done.
    + intros j. apply life_stage; [done|]. cbn [state]. by destruct (reschedule_state k d s) as [->| ->].
    + intros j. destruct (reschedule_state k d s) as [->| ->]; [done|]. by apply update_cancelled.
  - apply (leave_lives s _ wo wo ru ru n tr 0); try done. intros j _ t. cbn [RequestStop set_flags set_timers timers]. by intros (x & -> & _)%list_elem_of_fmap.
  - by apply (leave_lives s _ wo wo ru ru n tr 0).
  - pose proof (p_running _ (proj2 Ho) k Hk) as Hin. cbn [state] in Hin.
    assert (Hw : worker_key wo <> Some k) by (intros E; by destruct (p_worker _ (proj2 Ho) k E)).
    revert Hl. apply (landed_lives s _ wo wo ru (ru ∖ {[k]}) n tr k); try done.
    + intros j p Hj. cbn [next_life]. destruct (k =? j) eqn:E1; [lia|done].
    + intros acc. unfold life. cbn [worker running state]. rewrite stage_run by done. cbn [next_life]. by rewrite Z.eqb_refl.
    + intros j Hj. destruct wo; cbn [stage]; rewrite (bool_decide_ext (j ∈ ru ∖ {[k]}) (j ∈ ru)) by set_solver; done.
    + rewrite stage_rest by done. by rewrite bool_decide_false by set_solver.
    + intros j. by apply update_cancelled.
Qed.

Lemma run_lives (w : World) : Run w -> lives_ok w.
Proof.
  induction 1 as [|w w' Hr IH Hs|w w' Hr IH Hs]; [|by eapply worker_lives; [|apply run_ok|]|by eapply call_lives; [|apply run_ok|]].
  intros j. exists false. done.
Qed.

(** ** Stopping *)

Definition stopped_ok (s : State) : Prop := stopping s = true -> forall t, t ∈ timers s -> cancelled t = true.

Lemma stopped_keep (s s' : State) : (stopping s' = true -> stopping s = true) ->
  (forall j, (forall t, t ∈ timers s -> key t = j -> cancelled t = true) -> forall t, t ∈ timers s' -> key t = j -> cancelled t = true) ->
  stopped_ok s -> stopped_ok s'.
Proof. intros Hs Hc Ho E t Ht. apply (Hc (key t)); [|done|done]. intros x Hx _. by apply Ho; [apply Hs|]. Qed.

Lemma dispatch_stopping (k now : Z) (code : ErrorCode) (s : State) : stopping (DispatchResult k now code s) = stopping s.
Proof. unfold DispatchResult. by case_if; [|case_if]. Qed.

Lemma retire_sub (k : Z) (code : ErrorCode) (s : State) : stopping (Retire k code s) = stopping s /\ forall t, t ∈ timers (Retire k code s) -> t ∈ timers s.
Proof.
  unfold Retire. destruct (find_timer k (timers s)); [|done]. split; [done|]. cbn [timers]. intros x Hx. by apply list_elem_of_filter in Hx as [_ ?].
Qed.

Lemma worker_stopped (w w' : World) : WorkerStep w w' -> stopped_ok (state w) -> stopped_ok (state w').
Proof.
  destruct 1 as [s s' ru n tr now a Hx Hs|s s' ru n tr now until Hx Hs|s ru n tr Hx|s ru n tr k|s ru n tr k code|s ru n tr k now|s ru n tr k now code Hc|s ru n tr k|s ru n tr k code];
    cbn [state]; try done.
  - destruct (scan_same _ _ _ _ Hs) as [E _]. apply stopped_keep; [by rewrite E|]. intros j. by apply (scan_cancelled now s s' (inl a)).
  - destruct (scan_same _ _ _ _ Hs) as [E _]. apply stopped_keep; [by rewrite E|]. intros j. by apply (scan_cancelled now s s' (inr until)).
  - apply stopped_keep; [by rewrite dispatch_stopping|]. intros j. apply dispatch_cancelled.
  - apply stopped_keep; [by rewrite dispatch_stopping|]. intros j. apply dispatch_cancelled.
  - destruct (retire_sub k code s) as [E H]. apply stopped_keep; [by rewrite E|]. intros j Hc t Ht. apply Hc. auto.
Qed.

Lemma call_stopped (w w' : World) : CallStep w w' -> timers_ok w -> stopped_ok (state w) -> stopped_ok (state w').
Proof.
  destruct 1 as [s s' wo ru n tr maxT maxB Ht Hb Hs|s ru n tr Hs|s ru n tr Hs|s wo ru n tr Hw He|s s' wo ru n tr callback stopped o Hb Hs|s wo ru n tr k|s wo ru n tr k d
    |s wo ru n tr|s wo ru n tr Hw Hst|s wo ru n tr k code Hk]; intros Ho; cbn [state]; try done.
  - unfold StartBegin in Hs. case_if_in Hs; [done|]. case_if_in Hs; [done|]. by injection Hs as <-.
  - intros _ _ t. cbn [StartFailed set_flags timers]. destruct (p_none _ (proj2 Ho) eq_refl) as [Hnil _]. cbn [state] in Hnil. rewrite Hnil. by intros ?%elem_of_nil.
  - unfold Schedule in Hs. case_if_in Hs; [done|]. case_if_in Hs; [done|]. case_if_in Hs; [done|]. case_if_in Hs; [done|]. injection Hs as <-.
    intros _ E'. cbn [stopping] in E'. rewrite E', orb_true_r in E0. done.
  - destruct (cancel_state k s) as [->| ->]; [done|]. apply stopped_keep; [done|]. intros j. by apply update_cancelled.
  - destruct (reschedule_state k d s) as [->| ->]; [done|]. apply stopped_keep; [done|]. intros j. by apply update_cancelled.
  - intros _ _ t. cbn [RequestStop set_flags set_timers timers]. by intros (x & -> & _)%list_elem_of_fmap.
  - apply stopped_keep; [done|]. intros j. by apply update_cancelled.
Qed.

Lemma run_stopped (w : World) : Run w -> stopped_ok (state w).
Proof.
  induction 1 as [|w w' Hr IH Hs|w w' Hr IH Hs]; [done|by eapply worker_stopped|by eapply call_stopped; [|apply run_ok|]].
Qed.

(** A stopped scheduler whose timing thread is at its scan, and whose tasks have ended. *)
Definition resting (w : World) (l g : list TimerState) : Prop :=
  Run w /\ worker w = WorkerScan /\ running w = ∅ /\ stopping (state w) = true /\ timers (state w) = l /\ gone (state w) = g.

Lemma resting_head (w : World) (t : TimerState) (l g : list TimerState) : resting w (t :: l) g ->
  cancelled t = true /\ retiring t = false /\ (inFlight t = true -> published t = true /\ completionReady t = true)
  /\ stopping (state w) && (len (timers (state w)) =? 0) = false.
Proof.
  intros (Hr & Hw & Hu & Hs & Ht & _). pose proof (run_stopped _ Hr Hs t) as Hc. rewrite Ht in Hc. pose proof (p_timer _ (proj2 (run_ok _ Hr))) as Hp.
  rewrite Ht, Hw, Hu in Hp. inversion Hp as [|? ? H1 _]; subst. cbn [stage] in H1. rewrite bool_decide_false in H1 by set_solver. destruct H1 as (_ & H2 & H3).
  split_and!; try done; [apply Hc; by left|]. rewrite Ht, Hs. unfold len. cbn [length andb]. lia.
Qed.

Lemma resting_signal (w : World) (t : TimerState) (l g : list TimerState) : resting w (t :: l) g -> signalSent t = false ->
  exists w', rtc WorkerStep w w' /\ resting w' (set_signal t :: l) g.
Proof.
  intros Hw Hn. destruct (resting_head _ _ _ _ Hw) as (Hc & _ & _ & Hx). destruct Hw as (Hr & Hw & Hu & Hs & Ht & Hg).
  assert (E : Scan 0 (state w) = (inl (ActSignal (key t)), set_timers (set_signal t :: l) (state w))).
  { unfold Scan. rewrite Ht. cbn [ScanLoop]. by rewrite Hc, Hn. }
  destruct w as [s wo ru n tr]. cbn [state worker running] in *. subst wo ru.
  assert (S1 := StepScan s _ ∅ n tr 0 _ Hx E). assert (S2 := StepSignal (set_timers (set_signal t :: l) s) ∅ n (tr ++ []) (key t)).
  eexists. split; [eapply rtc_l; [exact S1|]; eapply rtc_l; [exact S2|apply rtc_refl]|].
  unfold resting. split_and!; try done. eapply RunWorker; [|exact S2]. by eapply RunWorker.
Qed.

Lemma resting_retire (w : World) (t : TimerState) (l g : list TimerState) : resting w (t :: l) g -> signalSent t = true ->
  exists w' t', rtc WorkerStep w w' /\ resting w' l (g ++ [t']) /\ key t' = key t /\ terminal t' = true /\ result t' = Cancelled.
Proof.
  intros Hw Hn. destruct (resting_head _ _ _ _ Hw) as (Hc & _ & Hf & Hx). destruct Hw as (Hr & Hw & Hu & Hs & Ht & Hg).
  destruct (rearm_fields 0 t) as (Ek & Eo & Ec & _).
  assert (Hfl : inFlight (Rearm 0 t) = false) by (rewrite rearm_flight; destruct (inFlight t); [destruct (Hf eq_refl) as [-> ->]|]; done).
  assert (E : Scan 0 (state w) = (inl (ActRetire (key t) Cancelled), set_timers (set_retiring (Rearm 0 t) :: l) (state w))).
  { unfold Scan. rewrite Ht. cbn [ScanLoop]. rewrite Hc, Hn. cbn [negb andb]. cbn zeta. unfold FinalCode. by rewrite Hfl, Ec, Ek, Hc. }
  destruct w as [s wo ru n tr]. cbn [state worker running] in *. subst wo ru.
  assert (S1 := StepScan s _ ∅ n tr 0 _ Hx E). set (s1 := set_timers _ s) in *. assert (R1 := RunWorker _ _ Hr S1).
  assert (S2 := StepRetire s1 ∅ n (tr ++ []) (key t) Cancelled). exists (MkWorld (Retire (key t) Cancelled s1) WorkerScan ∅ n ((tr ++ []) ++ [Retired (key t) Cancelled])).
  exists (set_result Cancelled (set_retiring (Rearm 0 t))). split; [eapply rtc_l; [exact S1|]; eapply rtc_l; [exact S2|apply rtc_refl]|].
  assert (Hkeys : NoDup (map key (timers s1))) by apply (account_active _ _ (proj1 (run_ok _ R1))).
  assert (F : filter (fun x => key x <> key t) (timers s1) = l).
  { change (timers s1) with ([] ++ set_retiring (Rearm 0 t) :: l) in *. replace (key t) with (key (set_retiring (Rearm 0 t))) by done. by apply filter_key. }
  assert (Fi : find_timer (key t) (timers s1) = Some (set_retiring (Rearm 0 t))) by (unfold s1, find_timer; cbn [timers set_timers find key set_retiring]; by rewrite Ek, Z.eqb_refl).
  split; [|done]. unfold resting. split_and!; [exact (RunWorker _ _ R1 S2)|done|done|..]; cbn [state]; unfold Retire; rewrite Fi; cbn [stopping timers gone]; try done.
  by rewrite <-Hg.
Qed.

(** ** What the scheduler promises *)

Lemma slots_grid (first interval : Z) (nows : list Z) : 0 <= first <= TIME_MAX -> 0 < interval <= TIME_MAX -> Forall (fun now => 0 <= now <= TIME_MAX) nows ->
  first <= slots first interval nows <= TIME_MAX /\ (slots first interval nows = TIME_MAX \/ exists k, 0 <= k /\ slots first interval nows = first + k * interval).
Proof.
  intros Hf Hi Hn. unfold slots. induction nows as [|now nows IH] using rev_ind; [cbn; split; [lia|right; exists 0; lia]|].
  apply Forall_app in Hn as [Hn1 Hn2]. inversion Hn2 as [|? ? Hnow _]; subst. specialize (IH Hn1) as [B G]. rewrite foldl_app. cbn [foldl].
  set (d := foldl _ first nows) in *. destruct (next_slot_spec d interval now ltac:(lia) Hi Hnow) as (A1 & A2 & _). split; [lia|].
  destruct A1 as [->|(k & Hk & E)]; [by left|]. destruct G as [G|(m & Hm & G)]; [left; lia|]. right. exists (m + k). lia.
Qed.

(** A timer that repeats at a fixed rate stays on the grid of its first due, however late its ends are handled, until the clock's largest value: the next due
    is the slot right after the one that was served if that is still to come, and otherwise the last slot that has passed, so that the slots that were missed
    come together as one dispatch, and none is run ahead of its time. *)
Theorem timer_grid (first interval now : Z) (nows : list Z) (Hf : 0 <= first <= TIME_MAX) (Hi : 0 < interval <= TIME_MAX) (Hn : 0 <= now <= TIME_MAX)
  (Hns : Forall (fun now => 0 <= now <= TIME_MAX) nows) :
  let served := slots first interval nows in
  let d := NextSlot served interval now in
  (d = TIME_MAX \/ exists k, 1 <= k /\ d = first + k * interval)
  /\ served <= d <= TIME_MAX
  /\ (now < d -> d = Z.min TIME_MAX (served + interval))
  /\ (d <= now -> d = TIME_MAX \/ now < d + interval).
Proof.
  intros served d. destruct (slots_grid first interval nows Hf Hi Hns) as [B G]. fold served in B, G.
  destruct (next_slot_spec served interval now ltac:(lia) Hi Hn) as (A1 & A2 & A3 & A4). fold d in A1, A2, A3, A4. split; [|done].
  destruct A1 as [->|(k & Hk & E)]; [by left|]. destruct G as [G|(m & Hm & G)]; [left; lia|]. right. exists (m + k). lia.
Qed.

Lemma timer_grid_witness :
  slots 100 10 [105; 147] = 140 /\ NextSlot 140 10 149 = 150 /\ NextSlot 140 10 178 = 170
  /\ (let d := NextSlot (slots 100 10 [105; 147]) 10 178 in
      (d = TIME_MAX \/ exists k, 1 <= k /\ d = 100 + k * 10)
      /\ slots 100 10 [105; 147] <= d <= TIME_MAX
      /\ (178 < d -> d = Z.min TIME_MAX (slots 100 10 [105; 147] + 10))
      /\ (d <= 178 -> d = TIME_MAX \/ 178 < d + 10)).
Proof.
  split; [reflexivity|]. split; [reflexivity|]. split; [reflexivity|].
  apply (timer_grid 100 10 178 [105; 147]); [unfold TIME_MAX; lia..|]. repeat constructor; unfold TIME_MAX; lia.
Defined.

(** A scan does exactly one thing that is due.  It signals a timer that was cancelled and not signalled; it retires one that is not in flight and was cancelled or
    has ended for good, and the code is Cancelled if it was cancelled; it submits the first of the timers with the earliest due, if that is not after now and the
    executor is not saturated; or it sleeps, and then no timer wants anything before the time it sleeps until, which is no later than need be. *)
Theorem timer_scan_exact (now : Z) (s s' : State) (r : Action + Z) (Hs : Scan now s = (r, s')) :
  s' = set_timers (timers s') s /\ same_timers (timers s) (timers s')
  /\ match r with
     | inl (ActSignal k) => exists t, t ∈ timers s /\ key t = k /\ cancelled t = true /\ signalSent t = false
     | inl (ActRetire k code) => exists t, t ∈ timers s /\ key t = k /\ (cancelled t = true -> signalSent t = true) /\ inFlight (Rearm now t) = false
         /\ (cancelled t = true \/ completionReady (Rearm now t) = true) /\ code = (if cancelled t then Cancelled else completionCode t)
     | inl (ActDispatch k) => saturatedUntil s <= now /\ exists d, first_earliest now (map (Rearm now) (timers s)) k d
         /\ Forall (fun t => cancelled t = true -> signalSent t = true /\ inFlight (Rearm now t) = true) (timers s)
     | inr until => until_exact now until (saturatedUntil s) (timers s')
         /\ Forall (fun t => inFlight t = false -> cancelled t = false /\ completionReady t = false) (timers s')
     end.
Proof.
  destruct (scan_same _ _ _ _ Hs) as [E S]. split; [done|]. split; [done|]. apply timer_scan_spec in Hs. destruct r as [[k|k|k code]|until].
  - destruct Hs as (l1 & t & l2 & El & _ & _ & R). exists t. rewrite El. split; [set_solver|done].
  - destruct Hs as (d & _ & Hq & Hsat & Hf). split; [done|]. exists d. split; [done|]. eapply Forall_impl; [exact Hq|]. intros t [Q1 Q2] Hc. split; [auto|].
    destruct (inFlight (Rearm now t)); [done|]. destruct (Q2 eq_refl). congruence.
  - destruct Hs as (l1 & t & l2 & El & _ & _ & Ek & Ec & R1 & R2 & R3). exists t. rewrite El. split_and!; try done. set_solver.
  - destruct Hs as (-> & Hq & Hu). split; [done|]. cbn [timers set_timers]. apply Forall_map. eapply Forall_impl; [exact Hq|]. intros t [Q1 Q2] Hf. cbn beta in Hf.
    destruct (rearm_fields now t) as (_ & _ & -> & _). by apply Q2.
Qed.

(** How often the task of the timer [j] was submitted, and how often a scan chose it. *)
Definition submissions (j : Z) (l : list Event) : Z := len (List.filter (fun e => match e with Submitted k => k =? j | _ => false end) l).
Definition choices (j : Z) (l : list Event) : Z := len (List.filter (fun e => match e with Chosen k _ _ => k =? j | _ => false end) l).

Lemma replay_none (j : Z) (l : list Event) (q : Life * bool) : foldl (fun p e => p ≫= fun p => next_life j p e) None l <> Some q.
Proof. induction l as [|e l IH]; [done|exact IH]. Qed.

Lemma replay_from (j : Z) (p : Life * bool) (l1 l2 : list Event) (q : Life * bool) :
  foldl (fun p e => p ≫= fun p => next_life j p e) (Some p) (l1 ++ l2) = Some q ->
  exists r, foldl (fun p e => p ≫= fun p => next_life j p e) (Some p) l1 = Some r
    /\ foldl (fun p e => p ≫= fun p => next_life j p e) (Some r) l2 = Some q.
Proof.
  rewrite foldl_app. destruct (foldl _ (Some p) l1) as [r|] eqn:E; [by exists r|]. by intros ?%replay_none.
Qed.

(** What can still happen once a cancellation was accepted. *)
Lemma next_life_cancelled (j : Z) (g : Life) (e : Event) (p : Life * bool) : next_life j (g, true) e = Some p ->
  p.2 = true /\ (forall d now, e <> Chosen j d now) /\ (e = Submitted j -> g = Picked /\ p.1 = Flying)
  /\ (p.1 = Picked -> g = Picked) /\ (forall code, e = Retired j code -> code = Cancelled).
Proof.
  destruct e as [k|k d now|k|k code|k code|k|k code]; cbn [next_life fst snd orb negb]; try (destruct (k =? j) eqn:Ek; [apply Z.eqb_eq in Ek; subst k|apply Z.eqb_neq in Ek]);
    repeat (case_bool_decide; cbn [andb]); intros Hx; simplify_eq; cbn [fst snd] in *; split_and!; naive_solver.
Qed.

(** After an accepted cancellation only the dispatch that was chosen before it can still be submitted. *)
Lemma replay_cancelled (j : Z) (l : list Event) (g : Life) (q : Life * bool) :
  foldl (fun p e => p ≫= fun p => next_life j p e) (Some (g, true)) l = Some q ->
  choices j l = 0 /\ submissions j l <= (if bool_decide (g = Picked) then 1 else 0) /\ (forall code, Retired j code ∈ l -> code = Cancelled).
Proof.
  revert g. induction l as [|e l IH]; intros g; [intros _; split_and!; [done|by case_bool_decide|by intros ? ?%elem_of_nil]|].
  cbn [foldl mbind option_bind]. destruct (next_life j (g, true) e) as [[g' b]|] eqn:E; [|by intros ?%replay_none].
  destruct (next_life_cancelled j g e _ E) as (Hb & Hch & Hsub & Hp & Hret). cbn [fst snd] in *. subst b. intros (A & B & C)%IH.
  assert (Hc : forall f : Event -> bool, len (List.filter f (e :: l)) = (if f e then 1 else 0) + len (List.filter f l)).
  { intros f. unfold len. cbn [List.filter]. destruct (f e); cbn [length]; lia. }
  unfold choices, submissions in *. rewrite !Hc. split_and!.
  - destruct e; try lia. destruct (k =? j) eqn:Ek; [|lia]. apply Z.eqb_eq in Ek. subst k. by edestruct Hch.
  - assert (Hle : (if bool_decide (g' = Picked) then 1 else 0) <= if bool_decide (g = Picked) then 1 else 0).
    { repeat case_bool_decide; try lia. exfalso. auto. }
    destruct e; try lia. destruct (k =? j) eqn:Ek; [|lia]. apply Z.eqb_eq in Ek. subst k. destruct (Hsub eq_refl) as [-> ->]. rewrite (bool_decide_false (Flying = Picked)) in B by done. rewrite bool_decide_true by done. lia.
  - intros code [<-|?]%elem_of_cons; [by apply Hret|by apply C].
Qed.

(** C24. Over every interleaving of the callers, the tasks and the timing thread, each timer lives its life in order: a scan chooses it only when it is due and waits,
    its task is submitted at most once for each choice, so that its callback never runs twice at once, and it is retired once and nothing comes after.  Once
    RequestCancel has returned true no scan chooses it again, at most the one dispatch that was already chosen and not yet submitted is still submitted, and it ends as
    Cancelled. *)
Theorem timer_lives (w : World) (Hr : Run w) (j : Z) :
  (exists accepted, replay j (trace w) = Some (life w j, accepted))
  /\ (forall before after, trace w = before ++ Accepted j :: after ->
       choices j after = 0 /\ (exists g, replay j before = Some (g, false) /\ submissions j after <= if bool_decide (g = Picked) then 1 else 0)
       /\ (forall code, Retired j code ∈ after -> code = Cancelled)).
Proof.
  destruct (run_lives w Hr j) as (a & E & _). split; [by exists a|]. intros before after Ht. unfold replay in E. rewrite Ht in E.
  apply replay_from in E as ([g b] & E1 & E2). cbn [foldl mbind option_bind next_life] in E2. rewrite Z.eqb_refl in E2. cbn [fst snd] in E2.
  destruct (b || bool_decide (g = Over)) eqn:Eb; [by apply replay_none in E2|]. apply orb_false_iff in Eb as [-> _].
  destruct (replay_cancelled j after g _ E2) as (A & B & C). split_and!; [done|by exists g|done].
Qed.

(** The scheduler stays within its limits: the retained bytes are those of the timers that are not retired, at most the limit, and so is their number; what is
    submitted is a timer in the list, with the executor there; a timing thread that has left its loop leaves no timer behind. *)
Theorem timer_budget (w : World) (Hr : Run w) :
  retained (state w) = bytes_of (timers (state w)) /\ 0 <= retained (state w) <= maxRetainedBytes (state w) /\ len (timers (state w)) <= maxTimers (state w)
  /\ NoDup (map key (timers (state w)))
  /\ (forall k, worker w = WorkerSubmit k -> executor (state w) = true /\ k ∈ map key (timers (state w)))
  /\ (worker w = WorkerExit -> timers (state w) = [] /\ retained (state w) = 0).
Proof.
  destruct (run_ok w Hr) as [Ha Hp]. pose proof (account_active _ _ Ha) as Hn. destruct Ha as [A1 A2 A3 A4 A5 A6 A7].
  assert (Hpos : 0 <= bytes_of (timers (state w))).
  { clear -A6. induction (timers (state w)) as [|t l IH]; [done|]. cbn [map] in A6. inversion A6; subst. specialize (IH ltac:(done)). cbn [bytes_of fold_right]. fold (bytes_of l). lia. }
  split_and!; try done; try lia.
  - intros k Hk. split; [apply (p_alive _ Hp); by rewrite Hk|]. apply (p_worker _ Hp). by rewrite Hk.
  - intros Hw. destruct (p_exit _ Hp Hw) as [_ Hnil]. split; [done|]. by rewrite A3, Hnil.
Qed.

(** A stop comes to its end: once the tasks that were running have ended, the timing thread, at its scan, retires every timer that was left as Cancelled and leaves
    its loop, by its own steps alone, with nothing retained. *)
Theorem timer_stop_drains (w : World) (Hr : Run w) (Hw : worker w = WorkerScan) (Hu : running w = ∅) (Hs : stopping (state w) = true) :
  exists w', rtc WorkerStep w w' /\ worker w' = WorkerExit /\ timers (state w') = [] /\ retained (state w') = 0
    /\ forall t, t ∈ timers (state w) -> exists t', t' ∈ gone (state w') /\ key t' = key t /\ terminal t' = true /\ result t' = Cancelled.
Proof.
  assert (H : resting w (timers (state w)) (gone (state w))) by by unfold resting.
  assert (D : forall l g w, resting w l g -> exists w' g', rtc WorkerStep w w' /\ resting w' [] (g ++ g')
    /\ forall t, t ∈ l -> exists t', t' ∈ g' /\ key t' = key t /\ terminal t' = true /\ result t' = Cancelled).
  { clear. intros l. induction l as [|t l IH]; intros g w Hw; [exists w, []; rewrite app_nil_r; split_and!; [done|done|set_solver]|].
    assert (S : exists w1 t1, rtc WorkerStep w w1 /\ resting w1 (t1 :: l) g /\ key t1 = key t /\ signalSent t1 = true).
    { destruct (signalSent t) eqn:E; [by exists w, t|]. destruct (resting_signal w t l g Hw E) as (w1 & S1 & R1). by exists w1, (set_signal t). }
    destruct S as (w1 & t1 & S1 & R1 & K1 & E1). destruct (resting_retire w1 t1 l g R1 E1) as (w2 & t2 & S2 & R2 & K2 & T2).
    destruct (IH _ _ R2) as (w3 & g3 & S3 & R3 & H3). exists w3, (t2 :: g3). rewrite <-(assoc_L app) in R3. split_and!; [by etrans; [|etrans]|done|].
    intros x [->|Hx]%elem_of_cons; [exists t2; split; [by left|split; [congruence|done]]|]. destruct (H3 x Hx) as (y & Hy & R). exists y. split; [by right|done]. }
  destruct (D _ _ _ H) as (w1 & g1 & S1 & (R1 & R2 & R3 & R4 & R5 & R6) & L). destruct w1 as [s1 wo1 ru1 n1 tr1]. cbn [state worker running] in *. subst wo1.
  exists (MkWorld s1 WorkerExit ru1 n1 tr1). split_and!; cbn [state worker]; try done.
  - eapply rtc_r; [exact S1|]. constructor. by rewrite R4, R5.
  - pose proof (a_retained _ _ (proj1 (run_ok _ R1))) as E. cbn [state] in E. by rewrite E, R5.
  - intros t Ht. destruct (L t Ht) as (t' & Ht' & R). exists t'. split; [|done]. rewrite R6. set_solver.
Qed.

(** A run: a timer every ten ticks at a fixed rate, chosen at 12, cancelled before it is submitted, submitted and ended, and a second one that waits; then the stop. *)
Definition example_options (due interval : Z) : TimerOptions := MkTimerOptions due interval 8 FixedRate.

Definition example_state : State :=
  MkState 4 64 [MkTimer 0 (example_options 10 10) 10 true false true true true false ErrorCode_Ok false WouldBlock;
    MkTimer 1 (example_options 500 0) 500 true false false false false false ErrorCode_Ok false WouldBlock] [] 16 0 true true true true.

Definition example_trace : list Event := [Chosen 0 10 12; Accepted 0; Submitted 0; Ended 0 ErrorCode_Ok].

Lemma example_run_timers : exists ru, ru = ∅ /\ Run (MkWorld example_state WorkerScan ru 2 example_trace).
Proof.
  pose proof RunStart as R.
  eapply RunCall in R; [|eapply (CallStart _ _ _ _ _ _ 4 64); [lia|lia|reflexivity]].
  eapply RunCall in R; [|by eapply CallSpawned].
  eapply RunCall in R; [|by eapply CallReady].
  eapply RunCall in R; [|eapply (CallSchedule _ _ _ _ _ _ true false (example_options 10 10)); [done|vm_compute; reflexivity]].
  eapply RunCall in R; [|eapply (CallSchedule _ _ _ _ _ _ true false (example_options 500 0)); [done|vm_compute; reflexivity]].
  eapply RunWorker in R; [|eapply (StepScan _ _ _ _ _ 12); vm_compute; reflexivity].
  eapply RunCall in R; [|eapply (CallCancel _ _ _ _ _ 0)].
  eapply RunWorker in R; [|eapply (StepSubmit _ _ _ _ _ ErrorCode_Ok)].
  eapply RunWorker in R; [|eapply (StepSubmitted _ _ _ _ _ 12)].
  eapply RunWorker in R; [|eapply StepObserve].
  eapply RunCall in R; [|eapply (CallTaskEnded _ _ _ _ _ 0 ErrorCode_Ok); set_solver].
  eapply RunCall in R; [|eapply CallRequestStop].
  eexists. split; [|exact R]. set_solver.
Qed.

Lemma timer_lives_witness : exists ru, Run (MkWorld example_state WorkerScan ru 2 example_trace)
  /\ (exists accepted, replay 0 example_trace = Some (life (MkWorld example_state WorkerScan ru 2 example_trace) 0, accepted))
  /\ submissions 0 [Submitted 0; Ended 0 ErrorCode_Ok] = 1
  /\ exists g, replay 0 [Chosen 0 10 12] = Some (g, false) /\ submissions 0 [Submitted 0; Ended 0 ErrorCode_Ok] <= if bool_decide (g = Picked) then 1 else 0.
Proof.
  destruct example_run_timers as (ru & Hru & R). exists ru. split; [exact R|].
  destruct (timer_lives (MkWorld example_state WorkerScan ru 2 example_trace) R 0) as [A B]. split; [exact A|]. split; [reflexivity|].
  exact (proj1 (proj2 (B [Chosen 0 10 12] [Submitted 0; Ended 0 ErrorCode_Ok] eq_refl))).
Defined.

Lemma timer_budget_witness : exists ru, Run (MkWorld example_state WorkerScan ru 2 example_trace)
  /\ retained example_state = bytes_of (timers example_state) /\ 0 <= retained example_state <= maxRetainedBytes example_state.
Proof.
  destruct example_run_timers as (ru & Hru & R). exists ru. split; [exact R|].
  destruct (timer_budget (MkWorld example_state WorkerScan ru 2 example_trace) R) as (A & B & _). split; [exact A|exact B].
Defined.

Lemma timer_stop_drains_witness : exists ru, Run (MkWorld example_state WorkerScan ru 2 example_trace)
  /\ exists w', rtc WorkerStep (MkWorld example_state WorkerScan ru 2 example_trace) w' /\ worker w' = WorkerExit /\ timers (state w') = [] /\ retained (state w') = 0
      /\ forall t, t ∈ timers example_state -> exists t', t' ∈ gone (state w') /\ key t' = key t /\ terminal t' = true /\ result t' = Cancelled.
Proof.
  destruct example_run_timers as (ru & Hru & R). exists ru. split; [exact R|].
  exact (timer_stop_drains (MkWorld example_state WorkerScan ru 2 example_trace) R eq_refl Hru eq_refl).
Defined.

(** Three timers: the second is in flight, the third is due before the first. *)
Definition example_scan : State :=
  MkState 4 64 [NewTimer 0 (example_options 30 10) false; MkTimer 1 (example_options 10 10) 10 false false true true false false ErrorCode_Ok false WouldBlock;
    NewTimer 2 (example_options 20 0) false] [] 24 0 true true false true.

Lemma timer_scan_exact_witness :
  (Scan 35 example_scan).1 = inl (ActDispatch 2)
  /\ (Scan 15 example_scan).1 = inr 20
  /\ (saturatedUntil example_scan <= 35 /\ exists d, first_earliest 35 (map (Rearm 35) (timers example_scan)) 2 d
       /\ Forall (fun t => cancelled t = true -> signalSent t = true /\ inFlight (Rearm 35 t) = true) (timers example_scan)).
Proof.
  split; [vm_compute; reflexivity|]. split; [vm_compute; reflexivity|].
  exact (proj2 (proj2 (timer_scan_exact 35 example_scan (Scan 35 example_scan).2 (inl (ActDispatch 2)) ltac:(vm_compute; reflexivity)))).
Defined.
