(* ===== verification/JobRunner.v ===== *)
(** * Runtime: the serial job runner.

    [Runtime/JobRunner.cpp|h].  Jobs posted from any thread run one after the other on the thread that entered
    [RunUntilStopped]; two lanes with limits of their own admit them, for the callers' jobs and for control work, and a
    reservation holds a place for a job that comes later.  The sections of the mutex are functions of the state, and threads
    interleave at them.  Metrics are left out; a failed allocation leaves no trace. *)

From stdpp Require Import gmap.
From S2P Require Import Prelude CoreError.

Module JobRunner.

Definition SIZE_MAX : Z := 2 ^ 64 - 1.

Record JobRunnerOptions : Type := MkOptions {
  maxOutstandingJobs : Z;
  maxRetainedBytes : Z;
  maxControlJobs : Z;
  maxControlBytes : Z
}.

#[global] Instance JobRunnerOptions_eq_dec : EqDecision JobRunnerOptions.
Proof. solve_decision. Defined.

Definition DefaultOptions : JobRunnerOptions := MkOptions 4096 (16 * 1024 * 1024) 1024 (4 * 1024 * 1024).

Record QueuedJob : Type := MkJob { callback : Z; bytes : Z; control : bool }.

Record SharedState : Type := MkState {
  mOptions : JobRunnerOptions;
  mQueue : list QueuedJob;
  mCount : Z;
  mBytes : Z;
  mControlCount : Z;
  mControlBytes : Z;
  mAdmissionClosed : bool;
  mStopRequested : bool;
  mRunActive : bool;
  mUsed : bool
}.

Definition NewState : SharedState := MkState DefaultOptions [] 0 0 0 0 false false false false.

Definition OptionsOk (o : JobRunnerOptions) : bool :=
  negb ((maxOutstandingJobs o =? 0) || (maxRetainedBytes o =? 0) || (maxControlJobs o =? 0) || (maxControlBytes o =? 0)
    || (SIZE_MAX - maxOutstandingJobs o <? maxControlJobs o) || (SIZE_MAX - maxRetainedBytes o <? maxControlBytes o)).

Definition Configure (o : JobRunnerOptions) (s : SharedState) : Status * SharedState :=
  if negb (OptionsOk o) then (Status.FailWithoutMessage InvalidArgument, s)
  else if bool_decide (mOptions s = o) then (Status.Ok, s)
  else if mUsed s || mRunActive s || mAdmissionClosed s || mStopRequested s then (Status.FailWithoutMessage Closed, s)
  else
    (Status.Ok, MkState o (mQueue s) (mCount s) (mBytes s) (mControlCount s) (mControlBytes s) (mAdmissionClosed s) (mStopRequested s) (mRunActive s) (mUsed s)).

Definition Admission (bytes : Z) (control : bool) (s : SharedState) : Status :=
  if mStopRequested s || (negb control && mAdmissionClosed s) then Status.FailWithoutMessage Closed
  else
    let limit := if control then maxControlBytes (mOptions s) else maxRetainedBytes (mOptions s) in
    if limit <? bytes then Status.FailWithoutMessage TooLarge
    else if ((if control then maxControlJobs (mOptions s) else maxOutstandingJobs (mOptions s)) <=? (if control then mControlCount s else mCount s))
         || (limit - (if control then mControlBytes s else mBytes s) <? bytes) then Status.FailWithoutMessage WouldBlock
    else Status.Ok.

(** Both counts of a lane, by a job more or less. *)
Definition Charge (bytes : Z) (control : bool) (s : SharedState) : SharedState :=
  if control then MkState (mOptions s) (mQueue s) (mCount s) (mBytes s) (mControlCount s + 1) (mControlBytes s + bytes) (mAdmissionClosed s) (mStopRequested s) (mRunActive s) true
  else MkState (mOptions s) (mQueue s) (mCount s + 1) (mBytes s + bytes) (mControlCount s) (mControlBytes s) (mAdmissionClosed s) (mStopRequested s) (mRunActive s) true.

Definition Release (bytes : Z) (control : bool) (s : SharedState) : SharedState :=
  if control then MkState (mOptions s) (mQueue s) (mCount s) (mBytes s) (mControlCount s - 1) (mControlBytes s - bytes) (mAdmissionClosed s) (mStopRequested s) (mRunActive s) (mUsed s)
  else MkState (mOptions s) (mQueue s) (mCount s - 1) (mBytes s - bytes) (mControlCount s) (mControlBytes s) (mAdmissionClosed s) (mStopRequested s) (mRunActive s) (mUsed s).

Definition Enqueue (j : QueuedJob) (s : SharedState) : SharedState :=
  MkState (mOptions s) (mQueue s ++ [j]) (mCount s) (mBytes s) (mControlCount s) (mControlBytes s) (mAdmissionClosed s) (mStopRequested s) (mRunActive s) (mUsed s).

(** [job] is empty where the callback is. *)
Definition Post (job : option Z) (bytes : Z) (control : bool) (s : SharedState) : Status * SharedState :=
  match job with
  | None => (Status.FailWithoutMessage InvalidArgument, s)
  | Some callback =>
      let admitted := Admission bytes control s in
      if negb (Status.IsOk admitted) then (admitted, s)
      else (Status.Ok, Enqueue (MkJob callback bytes control) (Charge bytes control s))
  end.

Definition Reserve (bytes : Z) (s : SharedState) : Status * SharedState :=
  let admitted := Admission bytes false s in
  if negb (Status.IsOk admitted) then (admitted, s) else (Status.Ok, Charge bytes false s).

(** A reservation whose node is there; [true]: the node went to the queue. *)
Definition PostReserved (job : option Z) (bytes : Z) (s : SharedState) : Status * bool * SharedState :=
  match job with
  | None => (Status.FailWithoutMessage InvalidArgument, false, s)
  | Some callback =>
      if mStopRequested s then (Status.FailWithoutMessage Closed, false, s)
      else (Status.Ok, true, Enqueue (MkJob callback bytes false) s)
  end.

(** The first section of [RunUntilStopped]; a second consumer is a failed assertion. *)
Definition RunEnter (s : SharedState) : option SharedState :=
  if mRunActive s then None
  else Some (MkState (mOptions s) (mQueue s) (mCount s) (mBytes s) (mControlCount s) (mControlBytes s) (mAdmissionClosed s) (mStopRequested s) true true).

(** The section of the loop, once its wait is over: the job it takes, or that it returns; [None]: it waits. *)
Definition RunTake (s : SharedState) : option (option QueuedJob * SharedState) :=
  if negb (mStopRequested s || negb (len (mQueue s) =? 0)) then None
  else
    match mQueue s with
    | [] => Some (None, MkState (mOptions s) (mQueue s) (mCount s) (mBytes s) (mControlCount s) (mControlBytes s) (mAdmissionClosed s) (mStopRequested s) false (mUsed s))
    | j :: queue =>
        Some (Some j, MkState (mOptions s) queue (mCount s) (mBytes s) (mControlCount s) (mControlBytes s) (mAdmissionClosed s) (mStopRequested s) (mRunActive s) (mUsed s))
    end.

Definition CloseAdmission (s : SharedState) : SharedState :=
  MkState (mOptions s) (mQueue s) (mCount s) (mBytes s) (mControlCount s) (mControlBytes s) true (mStopRequested s) (mRunActive s) (mUsed s).
Definition RequestStop (s : SharedState) : SharedState :=
  MkState (mOptions s) (mQueue s) (mCount s) (mBytes s) (mControlCount s) (mControlBytes s) true true (mRunActive s) (mUsed s).

Definition IsStopRequested (control : bool) (s : SharedState) : bool := if control then mStopRequested s else mAdmissionClosed s.
Definition PendingCount (s : SharedState) : Z := len (mQueue s).
Definition OutstandingCount (s : SharedState) : Z := wrap64 (mCount s + mControlCount s).
Definition RetainedBytes (s : SharedState) : Z := wrap64 (mBytes s + mControlBytes s).

(** ** Threads *)

(** The thread of [RunUntilStopped]: outside, at the head of its loop, in a job. *)
Inductive Runner : Type := Outside | Loop | InJob (j : QueuedJob).

(** The reservations that are held, by their bytes; the jobs accepted, started and finished, in the order in which they were. *)
Record World : Type := MkWorld {
  state : SharedState;
  runner : Runner;
  reserved : list Z;
  accepted : list QueuedJob;
  started : list QueuedJob;
  finished : list QueuedJob
}.

Definition NewWorld : World := MkWorld NewState Outside [] [] [] [].

Inductive Step : World -> World -> Prop :=
| StepConfigure (s s' : SharedState) (ru : Runner) (re : list Z) (ac st fi : list QueuedJob) (o : JobRunnerOptions) (r : Status) :
    0 <= maxOutstandingJobs o -> 0 <= maxRetainedBytes o -> 0 <= maxControlJobs o -> 0 <= maxControlBytes o -> Configure o s = (r, s') ->
    Step (MkWorld s ru re ac st fi) (MkWorld s' ru re ac st fi)
| StepPost (s s' : SharedState) (ru : Runner) (re : list Z) (ac st fi : list QueuedJob) (j : QueuedJob) : 0 <= bytes j ->
    Post (Some (callback j)) (bytes j) (control j) s = (Status.Ok, s') -> Step (MkWorld s ru re ac st fi) (MkWorld s' ru re (ac ++ [j]) st fi)
| StepReserve (s s' : SharedState) (ru : Runner) (re : list Z) (ac st fi : list QueuedJob) (n : Z) : 0 <= n ->
    Reserve n s = (Status.Ok, s') -> Step (MkWorld s ru re ac st fi) (MkWorld s' ru (n :: re) ac st fi)
| StepPostReserved (s s' : SharedState) (ru : Runner) (l r : list Z) (ac st fi : list QueuedJob) (n job : Z) (x : Status) :
    PostReserved (Some job) n s = (x, true, s') ->
    Step (MkWorld s ru (l ++ n :: r) ac st fi) (MkWorld s' ru (l ++ r) (ac ++ [MkJob job n false]) st fi)
| StepDrop (s : SharedState) (ru : Runner) (l r : list Z) (ac st fi : list QueuedJob) (n : Z) :
    Step (MkWorld s ru (l ++ n :: r) ac st fi) (MkWorld (Release n false s) ru (l ++ r) ac st fi)
| StepEnter (s s' : SharedState) (re : list Z) (ac st fi : list QueuedJob) : RunEnter s = Some s' ->
    Step (MkWorld s Outside re ac st fi) (MkWorld s' Loop re ac st fi)
| StepTake (s s' : SharedState) (re : list Z) (ac st fi : list QueuedJob) (j : QueuedJob) : RunTake s = Some (Some j, s') ->
    Step (MkWorld s Loop re ac st fi) (MkWorld s' (InJob j) re ac (st ++ [j]) fi)
| StepReturn (s s' : SharedState) (re : list Z) (ac st fi : list QueuedJob) : RunTake s = Some (None, s') ->
    Step (MkWorld s Loop re ac st fi) (MkWorld s' Outside re ac st fi)
| StepFinish (s : SharedState) (re : list Z) (ac st fi : list QueuedJob) (j : QueuedJob) :
    Step (MkWorld s (InJob j) re ac st fi) (MkWorld (Release (bytes j) (control j) s) Loop re ac st (fi ++ [j]))
| StepClose (s : SharedState) (ru : Runner) (re : list Z) (ac st fi : list QueuedJob) :
    Step (MkWorld s ru re ac st fi) (MkWorld (CloseAdmission s) ru re ac st fi)
| StepStop (s : SharedState) (ru : Runner) (re : list Z) (ac st fi : list QueuedJob) :
    Step (MkWorld s ru re ac st fi) (MkWorld (RequestStop s) ru re ac st fi).

Inductive Run : World -> Prop :=
| RunStart : Run NewWorld
| RunStep (w w' : World) : Run w -> Step w w' -> Run w'.

End JobRunner.
Import JobRunner.

(** ** The lanes *)

(** The jobs that are queued or run, and those of one lane. *)
Definition pending (w : World) : list QueuedJob := mQueue (state w) ++ match runner w with InJob j => [j] | _ => [] end.
Definition lane (c : bool) (l : list QueuedJob) : list QueuedJob := filter (fun j => control j = c) l.

Definition lane_bytes (l : list QueuedJob) : Z := fold_right (fun j n => bytes j + n) 0 l.
Definition total (l : list Z) : Z := fold_right Z.add 0 l.

Lemma lane_bytes_app (a b : list QueuedJob) : lane_bytes (a ++ b) = lane_bytes a + lane_bytes b.
Proof. unfold lane_bytes. induction a as [|j a IH]; [done|]. cbn [app fold_right]. lia. Qed.

Lemma reserved_total_app (a b : list Z) : total (a ++ b) = total a + total b.
Proof. unfold total. induction a as [|j a IH]; [done|]. cbn [app fold_right]. lia. Qed.

Lemma options_spec (o : JobRunnerOptions) : OptionsOk o = true -> 0 <= maxOutstandingJobs o -> 0 <= maxRetainedBytes o -> 0 <= maxControlJobs o -> 0 <= maxControlBytes o ->
  0 < maxOutstandingJobs o /\ 0 < maxRetainedBytes o /\ 0 < maxControlJobs o /\ 0 < maxControlBytes o
  /\ maxOutstandingJobs o + maxControlJobs o <= SIZE_MAX /\ maxRetainedBytes o + maxControlBytes o <= SIZE_MAX.
Proof. unfold OptionsOk. lia. Qed.

(** How many jobs a lane has, and how many bytes. *)
Definition jobs_in (c : bool) (l : list QueuedJob) : Z := len (lane c l).
Definition bytes_in (c : bool) (l : list QueuedJob) : Z := lane_bytes (lane c l).

Lemma jobs_cons (c : bool) (j : QueuedJob) (l : list QueuedJob) : jobs_in c (j :: l) = (if Bool.eqb (control j) c then 1 else 0) + jobs_in c l.
Proof. unfold jobs_in, lane. rewrite filter_cons. destruct (control j), c; case_decide; try done; unfold len; cbn [length Bool.eqb]; lia. Qed.

Lemma bytes_cons (c : bool) (j : QueuedJob) (l : list QueuedJob) : bytes_in c (j :: l) = (if Bool.eqb (control j) c then bytes j else 0) + bytes_in c l.
Proof. unfold bytes_in, lane. rewrite filter_cons. destruct (control j), c; case_decide; done. Qed.

Lemma jobs_perm (c : bool) (a b : list QueuedJob) : a ≡ₚ b -> jobs_in c a = jobs_in c b.
Proof. intros H. induction H; rewrite ?jobs_cons; lia. Qed.

Lemma bytes_perm (c : bool) (a b : list QueuedJob) : a ≡ₚ b -> bytes_in c a = bytes_in c b.
Proof. intros H. induction H; rewrite ?bytes_cons; lia. Qed.

Record lanes_ok (w : World) : Prop := MkLanesOk {
  l_options : 0 < maxOutstandingJobs (mOptions (state w)) /\ 0 < maxRetainedBytes (mOptions (state w)) /\ 0 < maxControlJobs (mOptions (state w))
    /\ 0 < maxControlBytes (mOptions (state w)) /\ maxOutstandingJobs (mOptions (state w)) + maxControlJobs (mOptions (state w)) <= SIZE_MAX
    /\ maxRetainedBytes (mOptions (state w)) + maxControlBytes (mOptions (state w)) <= SIZE_MAX;
  l_count : mCount (state w) = jobs_in false (pending w) + len (reserved w);
  l_bytes : mBytes (state w) = bytes_in false (pending w) + total (reserved w);
  l_control : mControlCount (state w) = jobs_in true (pending w);
  l_controlbytes : mControlBytes (state w) = bytes_in true (pending w);
  l_limits : mCount (state w) <= maxOutstandingJobs (mOptions (state w)) /\ mBytes (state w) <= maxRetainedBytes (mOptions (state w))
    /\ mControlCount (state w) <= maxControlJobs (mOptions (state w)) /\ mControlBytes (state w) <= maxControlBytes (mOptions (state w));
  l_positive : Forall (fun j => 0 <= bytes j) (pending w) /\ Forall (fun n => 0 <= n) (reserved w);
  l_unused : mUsed (state w) = false -> mCount (state w) = 0 /\ mBytes (state w) = 0 /\ mControlCount (state w) = 0 /\ mControlBytes (state w) = 0
}.

Lemma admission_ok (n : Z) (c : bool) (s : SharedState) : Admission n c s = Status.Ok <->
  mStopRequested s = false /\ (c = false -> mAdmissionClosed s = false)
  /\ (if c then mControlCount s < maxControlJobs (mOptions s) /\ n <= maxControlBytes (mOptions s) /\ mControlBytes s + n <= maxControlBytes (mOptions s)
      else mCount s < maxOutstandingJobs (mOptions s) /\ n <= maxRetainedBytes (mOptions s) /\ mBytes s + n <= maxRetainedBytes (mOptions s)).
Proof.
  unfold Admission. destruct (mStopRequested s); cbn [orb]; [split; [done|naive_solver]|].
  destruct c; cbn [negb andb].
  - case_if; [split; [done|lia]|]. case_if; split; try done; lia.
  - destruct (mAdmissionClosed s); [split; [done|naive_solver]|]. case_if; [split; [done|lia]|]. case_if; split; try done; lia.
Qed.

Lemma admission_true (n : Z) (c : bool) (s : SharedState) : Status.IsOk (Admission n c s) = true -> Admission n c s = Status.Ok.
Proof. unfold Admission. case_if; [done|]. cbn zeta. case_if; [done|]. by case_if. Qed.

Lemma post_ok (j : QueuedJob) (s s' : SharedState) : Post (Some (callback j)) (bytes j) (control j) s = (Status.Ok, s') <->
  Admission (bytes j) (control j) s = Status.Ok /\ s' = Enqueue j (Charge (bytes j) (control j) s).
Proof.
  unfold Post. destruct j as [cb n c]. cbn [callback bytes control]. destruct (Status.IsOk (Admission n c s)) eqn:E; cbn [negb].
  - rewrite (admission_true _ _ _ E). naive_solver.
  - split; [intros [= E' _]; by rewrite E' in E|intros [E' _]; by rewrite E' in E].
Qed.

Lemma reserve_ok (n : Z) (s s' : SharedState) : Reserve n s = (Status.Ok, s') <-> Admission n false s = Status.Ok /\ s' = Charge n false s.
Proof.
  unfold Reserve. destruct (Status.IsOk (Admission n false s)) eqn:E; cbn [negb].
  - rewrite (admission_true _ _ _ E). naive_solver.
  - split; [intros [= E' _]; by rewrite E' in E|intros [E' _]; by rewrite E' in E].
Qed.

Lemma reserved_total_nonneg (l : list Z) : Forall (fun n => 0 <= n) l -> 0 <= total l.
Proof. induction 1; [done|]. cbn [total fold_right]. fold (total l). lia. Qed.

(** Room for a job more, and the job. *)
Lemma lanes_more (w w' : World) (j : QueuedJob) : lanes_ok w -> 0 <= bytes j -> Admission (bytes j) (control j) (state w) = Status.Ok ->
  pending w' ≡ₚ j :: pending w -> reserved w' = reserved w -> state w' = Enqueue j (Charge (bytes j) (control j) (state w)) -> lanes_ok w'.
Proof.
  intros [H1 H2 H3 H4 H5 H6 [H7 H7'] H8] Hb Ha Hp Hr Hs. apply admission_ok in Ha as (_ & _ & Ha). unfold Enqueue, Charge in Hs.
  constructor; rewrite ?Hr, ?(jobs_perm _ _ _ Hp), ?(bytes_perm _ _ _ Hp), ?jobs_cons, ?bytes_cons, ?Hs.
  7: { split; [|done]. rewrite Hp. by constructor. }
  all: destruct (control j); cbn [mOptions mCount mBytes mControlCount mControlBytes mUsed Bool.eqb]; try done; lia.
Qed.

(** The queue and the job that runs are as they were, or lose one job that is given back. *)
Lemma lanes_same (w w' : World) : lanes_ok w -> pending w' ≡ₚ pending w -> reserved w' = reserved w -> mOptions (state w') = mOptions (state w) ->
  mCount (state w') = mCount (state w) -> mBytes (state w') = mBytes (state w) -> mControlCount (state w') = mControlCount (state w) ->
  mControlBytes (state w') = mControlBytes (state w) -> (mUsed (state w') = false -> mUsed (state w) = false) -> lanes_ok w'.
Proof.
  intros [H1 H2 H3 H4 H5 H6 [H7 H7'] H8] Hp Hr E1 E2 E3 E4 E5 E6.
  constructor; rewrite ?Hr, ?(jobs_perm _ _ _ Hp), ?(bytes_perm _ _ _ Hp), ?E1, ?E2, ?E3, ?E4, ?E5; try done; [by rewrite Hp|auto].
Qed.

Lemma lanes_less (w w' : World) (j : QueuedJob) : lanes_ok w -> j :: pending w' ≡ₚ pending w -> reserved w' = reserved w ->
  state w' = Release (bytes j) (control j) (state w) -> mUsed (state w) = true -> lanes_ok w'.
Proof.
  intros [H1 H2 H3 H4 H5 H6 [H7 H7'] H8] Hp Hr Hs Hu. symmetry in Hp. rewrite Hp in H7. inversion H7 as [|? ? Hb H9]; subst.
  rewrite (jobs_perm _ _ _ Hp), jobs_cons in H2. rewrite (jobs_perm _ _ _ Hp), jobs_cons in H4.
  rewrite (bytes_perm _ _ _ Hp), bytes_cons in H3. rewrite (bytes_perm _ _ _ Hp), bytes_cons in H5. unfold Release in Hs.
  constructor; rewrite ?Hr, ?Hs; try done; destruct (control j); cbn [mOptions mCount mBytes mControlCount mControlBytes mUsed Bool.eqb] in *; try done; try congruence; lia.
Qed.

Lemma lanes_step (w w' : World) : Step w w' -> lanes_ok w -> (runner w <> Outside -> mUsed (state w) = true) ->
  (reserved w <> [] -> mUsed (state w) = true) -> lanes_ok w'.
Proof.
  destruct 1 as [s s' ru re ac st fi o r O1 O2 O3 O4 Hs|s s' ru re ac st fi j Hb Hs|s s' ru re ac st fi n Hb Hs|s s' ru l r ac st fi n job x Hs|s ru l r ac st fi n
    |s s' re ac st fi Hs|s s' re ac st fi j Hs|s s' re ac st fi Hs|s re ac st fi j|s ru re ac st fi|s ru re ac st fi]; intros Ho Hu Hv; cbn [runner reserved state] in *.
  - unfold Configure in Hs. case_if_in Hs; [by injection Hs as <- <-|]. case_bool_decide; [by injection Hs as <- <-|]. case_if_in Hs; [by injection Hs as <- <-|].
    injection Hs as <- <-. destruct (mUsed s) eqn:Eu; [done|]. apply negb_false_iff in E. pose proof (options_spec o E O1 O2 O3 O4) as P.
    destruct Ho as [H1 H2 H3 H4 H5 H6 H7 H8]. cbn [state] in *. destruct (H8 Eu) as (Z1 & Z2 & Z3 & Z4). constructor; cbn; try done. lia.
  - apply post_ok in Hs as [Ha ->]. eapply (lanes_more _ _ j); try done. unfold pending. cbn [state runner mQueue Enqueue].
    replace (mQueue (Charge (bytes j) (control j) s)) with (mQueue s) by (unfold Charge; by destruct (control j)).
    rewrite <-(assoc_L app). cbn [app]. symmetry. apply Permutation_middle.
  - apply reserve_ok in Hs as [Ha ->]. apply admission_ok in Ha as (_ & _ & Ha). destruct Ho as [H1 H2 H3 H4 H5 H6 [H7 H7'] H8].
    unfold pending in *. constructor; unfold pending; cbn [state reserved runner Charge mOptions mQueue mCount mBytes mControlCount mControlBytes mUsed] in *; try done.
    + unfold len in *. cbn [length]. lia.
    + cbn [total fold_right]. fold (total re). lia.
    + lia.
    + split; [done|by constructor].
  - unfold PostReserved in Hs. case_if_in Hs; [done|]. injection Hs as <- <-. destruct Ho as [H1 H2 H3 H4 H5 H6 [H7 H7'] H8].
    assert (Hp : pending (MkWorld (Enqueue (MkJob job n false) s) ru (l ++ r) (ac ++ [MkJob job n false]) st fi) ≡ₚ MkJob job n false :: pending (MkWorld s ru (l ++ n :: r) ac st fi)).
    { unfold pending. cbn [state runner mQueue Enqueue]. rewrite <-(assoc_L app). cbn [app]. symmetry. apply Permutation_middle. }
    apply Forall_app in H7' as [F1 F2]. inversion F2 as [|? ? F3 F4]; subst.
    cbn [state reserved] in *. rewrite reserved_total_app in H3. rewrite len_app in H2. cbn [total fold_right] in H3. fold (total r) in H3.
    constructor; rewrite ?(jobs_perm _ _ _ Hp), ?(bytes_perm _ _ _ Hp), ?jobs_cons, ?bytes_cons;
      cbn [state reserved Enqueue mOptions mCount mBytes mControlCount mControlBytes mUsed control bytes Bool.eqb] in *; rewrite ?len_app, ?reserved_total_app; try done.
    + unfold len in *. cbn [length] in *. lia.
    + lia.
    + split; [|by apply Forall_app]. rewrite Hp. by constructor.
  - destruct Ho as [H1 H2 H3 H4 H5 H6 [H7 H7'] H8]. apply Forall_app in H7' as [F1 F2]. inversion F2 as [|? ? F3 F4]; subst. unfold pending in *.
    assert (mUsed s = true) as U by (apply Hv; by destruct l). constructor; unfold pending; cbn [state reserved runner Release mOptions mQueue mCount mBytes mControlCount mControlBytes mUsed] in *;
      rewrite ?reserved_total_app, ?len_app in *; cbn [total fold_right] in *; try fold (total r) in *; try done.
    + unfold len in *. cbn [length] in *. lia.
    + lia.
    + lia.
    + split; [done|by apply Forall_app].
    + congruence.
  - unfold RunEnter in Hs. case_if_in Hs; [done|]. injection Hs as <-. by eapply lanes_same.
  - unfold RunTake in Hs. case_if_in Hs; [done|]. destruct (mQueue s) as [|y q] eqn:Eq; [done|]. injection Hs as <- <-. eapply lanes_same; try done.
    unfold pending. cbn [state runner mQueue]. rewrite Eq, app_nil_r. symmetry. apply Permutation_cons_append.
  - unfold RunTake in Hs. case_if_in Hs; [done|]. destruct (mQueue s) as [|y q] eqn:Eq; [|done]. injection Hs as <-. eapply lanes_same; try done.
    unfold pending. cbn [state runner mQueue]. by rewrite Eq.
  - eapply (lanes_less _ _ j); try done; [|by apply Hu]. unfold pending. cbn [state runner]. unfold Release. destruct (control j); cbn [mQueue]; rewrite app_nil_r; apply Permutation_cons_append.
  - by eapply lanes_same.
  - by eapply lanes_same.
Qed.

(** ** The order *)

Definition current (w : World) : list QueuedJob := match runner w with InJob j => [j] | _ => [] end.

Record order_ok (w : World) : Prop := MkOrderOk {
  o_accepted : accepted w = started w ++ mQueue (state w);
  o_started : started w = finished w ++ current w;
  o_active : mRunActive (state w) = true <-> runner w <> Outside;
  o_used : runner w <> Outside \/ reserved w <> [] -> mUsed (state w) = true
}.

Lemma charge_fields (n : Z) (c : bool) (s : SharedState) : mQueue (Charge n c s) = mQueue s /\ mRunActive (Charge n c s) = mRunActive s /\ mUsed (Charge n c s) = true.
Proof. by destruct c. Qed.

Lemma release_fields (n : Z) (c : bool) (s : SharedState) : mQueue (Release n c s) = mQueue s /\ mRunActive (Release n c s) = mRunActive s /\ mUsed (Release n c s) = mUsed s
  /\ mStopRequested (Release n c s) = mStopRequested s.
Proof. by destruct c. Qed.

Lemma configure_fields (o : JobRunnerOptions) (s s' : SharedState) (r : Status) : Configure o s = (r, s') ->
  mQueue s' = mQueue s /\ mRunActive s' = mRunActive s /\ mUsed s' = mUsed s /\ mStopRequested s' = mStopRequested s.
Proof. unfold Configure. case_if; [by intros [= <- <-]|]. case_if; [by intros [= <- <-]|]. case_if; by intros [= <- <-]. Qed.

Lemma order_step (w w' : World) : Step w w' -> order_ok w -> order_ok w'.
Proof.
  destruct 1 as [s s' ru re ac st fi o r O1 O2 O3 O4 Hs|s s' ru re ac st fi j Hb Hs|s s' ru re ac st fi n Hb Hs|s s' ru l r ac st fi n job x Hs|s ru l r ac st fi n
    |s s' re ac st fi Hs|s s' re ac st fi j Hs|s s' re ac st fi Hs|s re ac st fi j|s ru re ac st fi|s ru re ac st fi]; intros [H1 H2 H3 H4];
    unfold current in *; cbn [state runner reserved accepted started finished] in *.
  - destruct (configure_fields _ _ _ _ Hs) as (E1 & E2 & E3 & _). constructor; unfold current; cbn [state runner reserved accepted started finished]; rewrite ?E1, ?E2, ?E3; done.
  - apply post_ok in Hs as [_ ->]. destruct (charge_fields (bytes j) (control j) s) as (E1 & E2 & E3).
    constructor; unfold current; cbn [state runner reserved accepted started finished mQueue mRunActive mUsed Enqueue]; rewrite ?E1, ?E2, ?E3, ?H1, <-?(assoc_L app); done.
  - apply reserve_ok in Hs as [_ ->]. destruct (charge_fields n false s) as (E1 & E2 & E3).
    constructor; unfold current; cbn [state runner reserved accepted started finished]; rewrite ?E1, ?E2, ?E3; done.
  - unfold PostReserved in Hs. case_if_in Hs; [done|]. injection Hs as <- <-.
    constructor; unfold current; cbn [state runner reserved accepted started finished mQueue mRunActive mUsed Enqueue]; rewrite ?H1, <-?(assoc_L app); try done.
    intros _. apply H4. right. by destruct l.
  - destruct (release_fields n false s) as (E1 & E2 & E3 & _). constructor; unfold current; cbn [state runner reserved accepted started finished]; rewrite ?E1, ?E2, ?E3; try done.
    intros _. apply H4. right. by destruct l.
  - unfold RunEnter in Hs. case_if_in Hs; [done|]. injection Hs as <-. by constructor.
  - unfold RunTake in Hs. case_if_in Hs; [done|]. destruct (mQueue s) as [|y q] eqn:Eq; [done|]. injection Hs as <- <-.
    constructor; unfold current; cbn [state runner reserved accepted started finished mQueue mRunActive mUsed]; [by rewrite H1, <-(assoc_L app)|by rewrite H2, app_nil_r| |].
    + rewrite H3. done.
    + intros _. apply H4. by left.
  - unfold RunTake in Hs. case_if_in Hs; [done|]. destruct (mQueue s) as [|y q] eqn:Eq; [|done]. injection Hs as <-.
    constructor; unfold current; cbn [state runner reserved accepted started finished mQueue mRunActive mUsed]; try done. intros _. apply H4. by left.
  - destruct (release_fields (bytes j) (control j) s) as (E1 & E2 & E3 & _). constructor; unfold current; cbn [state runner reserved accepted started finished]; rewrite ?E1, ?E2, ?E3; try done.
    + by rewrite H2, app_nil_r.
    + rewrite H3. done.
    + intros _. apply H4. by left.
  - by constructor.
  - by constructor.
Qed.

Lemma job_run_ok (w : World) : Run w -> lanes_ok w /\ order_ok w.
Proof.
  induction 1 as [|w w' _ [IH1 IH2] Hs].
  - split; constructor; cbn; try done; try lia. by intros [?|?].
  - split; [|by eapply order_step]. eapply lanes_step; try done; intros H; apply (o_used _ IH2); auto.
Qed.

(** A stopped runner with nothing left accepts nothing any more. *)
Definition closed (w : World) : Prop := mStopRequested (state w) = true /\ mQueue (state w) = [] /\ forall j, runner w <> InJob j.

Lemma closed_step (w w' : World) : Step w w' -> closed w -> closed w' /\ accepted w' = accepted w /\ finished w' = finished w.
Proof.
  destruct 1 as [s s' ru re ac st fi o r O1 O2 O3 O4 Hs|s s' ru re ac st fi j Hb Hs|s s' ru re ac st fi n Hb Hs|s s' ru l r ac st fi n job x Hs|s ru l r ac st fi n
    |s s' re ac st fi Hs|s s' re ac st fi j Hs|s s' re ac st fi Hs|s re ac st fi j|s ru re ac st fi|s ru re ac st fi]; intros (C1 & C2 & C3);
    unfold closed; cbn [state runner accepted finished] in *.
  - destruct (configure_fields _ _ _ _ Hs) as (E1 & _ & _ & E4). by rewrite E1, E4.
  - apply post_ok in Hs as [Ha _]. apply admission_ok in Ha as [Ha _]. congruence.
  - apply reserve_ok in Hs as [Ha _]. apply admission_ok in Ha as [Ha _]. congruence.
  - unfold PostReserved in Hs. by rewrite C1 in Hs.
  - destruct (release_fields n false s) as (E1 & _ & _ & E4). by rewrite E1, E4.
  - unfold RunEnter in Hs. case_if_in Hs; [done|]. by injection Hs as <-.
  - unfold RunTake in Hs. rewrite C2 in Hs. by case_if_in Hs.
  - unfold RunTake in Hs. case_if_in Hs; [done|]. rewrite C2 in Hs. by injection Hs as <-.
  - by destruct (C3 j).
  - done.
  - done.
Qed.

Lemma closed_steps (w w' : World) : rtc Step w w' -> closed w -> accepted w' = accepted w /\ finished w' = finished w.
Proof.
  induction 1 as [|w w1 w2 Hs _ IH]; [done|]. intros Hc. destruct (closed_step _ _ Hs Hc) as (Hc1 & E1 & E2). destruct (IH Hc1) as [F1 F2]. split; congruence.
Qed.

(** C25. The jobs run one at a time, on the thread that entered RunUntilStopped and in the order in which they were accepted, on whichever lane and from whichever
    thread, none twice and none left out: what was accepted is what has finished, the one that runs, and the queue.  The runner waits only while there is nothing
    to do and no stop was asked for; when it returns, every job that was ever accepted has finished, and nothing is accepted afterwards. *)
Theorem job_runner_serial (w : World) (Hr : Run w) :
  accepted w = finished w ++ current w ++ mQueue (state w)
  /\ (mRunActive (state w) = true <-> runner w <> Outside)
  /\ (RunTake (state w) = None <-> mStopRequested (state w) = false /\ mQueue (state w) = [])
  /\ (forall s', runner w = Loop -> RunTake (state w) = Some (None, s') ->
        finished w = accepted w
        /\ forall w', rtc Step (MkWorld s' Outside (reserved w) (accepted w) (started w) (finished w)) w' -> accepted w' = accepted w /\ finished w' = accepted w).
Proof.
  destruct (job_run_ok w Hr) as [_ [H1 H2 H3 H4]]. split_and!; try done.
  - by rewrite H1, H2, <-(assoc_L app).
  - unfold RunTake. destruct (mStopRequested (state w)), (mQueue (state w)) as [|j q]; cbn [orb negb]; [by split; intros H; destruct_and?..|done|].
    unfold len. cbn [length]. destruct (_ =? 0) eqn:E; [lia|]. cbn [negb]. split; [done|by intros [_ ?]].
  - intros s' Hl Ht. unfold RunTake in Ht. case_if_in Ht; [done|]. destruct (mQueue (state w)) as [|j q] eqn:Eq; [|done]. injection Ht as <-.
    assert (Hf : finished w = accepted w) by (rewrite H1, H2, app_nil_r; unfold current; by rewrite Hl, app_nil_r). split; [done|].
    intros w' Hs. apply closed_steps in Hs as [-> E2]; [cbn [accepted finished] in *; by rewrite E2|].
    split; [|done]. cbn [state mStopRequested]. by destruct (mStopRequested (state w)).
Qed.

(** The two lanes keep their limits apart.  Each counts exactly its jobs that are queued or run, with the reservations on the side of the callers, and stays within
    its own limits; the totals do not overflow; and a job is accepted exactly when its own lane is open and has room for it, however full the other one is. *)
Theorem job_runner_lanes (w : World) (Hr : Run w) :
  (mCount (state w) = jobs_in false (pending w) + len (reserved w) /\ mBytes (state w) = bytes_in false (pending w) + total (reserved w))
  /\ (mControlCount (state w) = jobs_in true (pending w) /\ mControlBytes (state w) = bytes_in true (pending w))
  /\ (mCount (state w) <= maxOutstandingJobs (mOptions (state w)) /\ mBytes (state w) <= maxRetainedBytes (mOptions (state w)))
  /\ (mControlCount (state w) <= maxControlJobs (mOptions (state w)) /\ mControlBytes (state w) <= maxControlBytes (mOptions (state w)))
  /\ OutstandingCount (state w) = mCount (state w) + mControlCount (state w) /\ RetainedBytes (state w) = mBytes (state w) + mControlBytes (state w)
  /\ forall j, 0 <= bytes j ->
       (exists s', Post (Some (callback j)) (bytes j) (control j) (state w) = (Status.Ok, s'))
       <-> mStopRequested (state w) = false
           /\ if control j then mControlCount (state w) < maxControlJobs (mOptions (state w)) /\ mControlBytes (state w) + bytes j <= maxControlBytes (mOptions (state w))
              else mAdmissionClosed (state w) = false /\ mCount (state w) < maxOutstandingJobs (mOptions (state w)) /\ mBytes (state w) + bytes j <= maxRetainedBytes (mOptions (state w)).
Proof.
  destruct (job_run_ok w Hr) as [[H1 H2 H3 H4 H5 H6 [H7 H7'] H8] _].
  assert (N1 : forall c, 0 <= jobs_in c (pending w)) by (intros c; apply len_nonneg).
  assert (N2 : forall c, 0 <= bytes_in c (pending w)).
  { clear -H7. intros c. induction H7 as [|j l Hj Hl IH]; [done|]. rewrite bytes_cons. destruct (Bool.eqb _ _); lia. }
  pose proof (N1 true). pose proof (N1 false). pose proof (N2 true). pose proof (N2 false). pose proof (reserved_total_nonneg _ H7'). pose proof (len_nonneg (reserved w)).
  unfold SIZE_MAX in *. split_and!; try done; try tauto.
  - unfold OutstandingCount. apply Z.mod_small. lia.
  - unfold RetainedBytes. apply Z.mod_small. lia.
  - intros j Hb. assert (E : (exists s', Post (Some (callback j)) (bytes j) (control j) (state w) = (Status.Ok, s')) <-> Admission (bytes j) (control j) (state w) = Status.Ok).
    { split; [intros [s' Hp]; by apply post_ok in Hp as [? _]|]. intros Ha. eexists. by apply post_ok. }
    rewrite E, admission_ok. destruct (control j); split; intros; destruct_and?; split_and!; try done; try tauto; lia.
Qed.

(** A job, a control job and a reservation; the first job runs, and a stop is asked for. *)
Definition example_world : World :=
  MkWorld (MkState DefaultOptions [MkJob 2 5 true] 2 100 1 5 true true true true) (InJob (MkJob 1 70 false)) [30]
    [MkJob 1 70 false; MkJob 2 5 true] [MkJob 1 70 false] [].

(** The same, when both have run and the runner is about to return. *)
Definition example_end : World :=
  MkWorld (MkState DefaultOptions [] 1 30 0 0 true true true true) Loop [30]
    [MkJob 1 70 false; MkJob 2 5 true] [MkJob 1 70 false; MkJob 2 5 true] [MkJob 1 70 false; MkJob 2 5 true].

Lemma example_jobs : Run example_world.
Proof.
  pose proof RunStart as R.
  eapply RunStep in R; [|eapply (StepPost _ _ _ _ _ _ _ (MkJob 1 70 false)); [done|vm_compute; reflexivity]].
  eapply RunStep in R; [|eapply (StepPost _ _ _ _ _ _ _ (MkJob 2 5 true)); [done|vm_compute; reflexivity]].
  eapply RunStep in R; [|eapply (StepReserve _ _ _ _ _ _ _ 30); [done|vm_compute; reflexivity]].
  eapply RunStep in R; [|eapply StepEnter; vm_compute; reflexivity].
  eapply RunStep in R; [|eapply StepTake; vm_compute; reflexivity].
  eapply RunStep in R; [|eapply StepStop]. exact R.
Qed.

Lemma example_jobs_end : Run example_end.
Proof.
  pose proof example_jobs as R.
  eapply RunStep in R; [|eapply StepFinish].
  eapply RunStep in R; [|eapply StepTake; vm_compute; reflexivity].
  eapply RunStep in R; [|eapply StepFinish]. exact R.
Qed.

Lemma job_runner_serial_witness : exists s', RunTake (state example_end) = Some (None, s')
  /\ finished example_end = accepted example_end
  /\ forall w', rtc Step (MkWorld s' Outside (reserved example_end) (accepted example_end) (started example_end) (finished example_end)) w' ->
       accepted w' = accepted example_end /\ finished w' = accepted example_end.
Proof.
  eexists. split; [vm_compute; reflexivity|].
  destruct (job_runner_serial example_end example_jobs_end) as (_ & _ & _ & H). apply H; [reflexivity|vm_compute; reflexivity].
Defined.

Lemma job_runner_lanes_witness :
  mCount (state example_world) = jobs_in false (pending example_world) + len (reserved example_world)
  /\ OutstandingCount (state example_world) = 3
  /\ OutstandingCount (state example_world) = mCount (state example_world) + mControlCount (state example_world).
Proof.
  destruct (job_runner_lanes example_world example_jobs) as ([A _] & _ & _ & _ & B & _). split; [exact A|]. split; [vm_compute; reflexivity|exact B].
Defined.
