(* ===== verification/HostOptions.v ===== *)
(** * Runtime: the options of the server host.

    [Runtime/ServerHostOptions.cpp]: what a host checks before it takes options over, and how the keys of a configuration become
    options.  The numbers of [ServerHostOptions] are a function of their names, milliseconds included; [Configure] composes the
    configuration of [Config.v] and the job runner of [JobRunner.v].  Failures of allocation are left out. *)

From stdpp Require Import gmap.
From S2P Require Import Prelude CoreError Utf8 Charconv Config JobRunner.
Import Utf8 Charconv Config JobRunner.

Module HostOptions.

(** ** Options *)

Inductive Field : Type :=
| port | ioWorkerThreadCount | parseWorkerThreadCount | acceptBacklog | idleSessionTimeout | maxBodySize | maxConcurrentSessions
| maxPendingReceiveBytes | maxTotalPendingReceiveBytes | maxPendingParseBytes | maxTotalPendingParseBytes | maxPendingParseTasks
| maxTotalPendingParseTasks | maxTotalSendQueueCapacityBytes | gracefulCloseTimeout | frameCompletionTimeout | authenticationTimeout
| maxInputBytesPerSecond | maxInputFramesPerSecond | maxPendingReceiveChunks | maxMessageFailureLogsPerSecond | maxJsonValuesPerMessage.

#[global] Instance Field_eq_dec : EqDecision Field.
Proof. solve_decision. Defined.

Inductive PayloadMode : Type := JsonMode | BinaryMode | OtherMode.

#[global] Instance PayloadMode_eq_dec : EqDecision PayloadMode.
Proof. solve_decision. Defined.

Record ServerHostOptions : Type := MkHostOptions {
  num : Field -> Z;
  listenAddress : list Z;
  payloadMode : PayloadMode;
  jobRunner : JobRunnerOptions
}.

Definition DefaultMaxBodySize : Z := 64 * 1024.

Definition DefaultNum (f : Field) : Z :=
  match f with
  | port | parseWorkerThreadCount | idleSessionTimeout | frameCompletionTimeout | authenticationTimeout | maxInputBytesPerSecond
  | maxInputFramesPerSecond | maxJsonValuesPerMessage => 0
  | ioWorkerThreadCount => 1
  | acceptBacklog => 16
  | maxBodySize => DefaultMaxBodySize
  | maxConcurrentSessions => 256
  | maxPendingReceiveBytes | maxPendingParseBytes => 4 * DefaultMaxBodySize
  | maxTotalPendingReceiveBytes | maxTotalPendingParseBytes => 128 * DefaultMaxBodySize
  | maxPendingParseTasks => 64
  | maxTotalPendingParseTasks => 4096
  | maxTotalSendQueueCapacityBytes => 256 * 1024 * 1024
  | gracefulCloseTimeout => 5000
  | maxPendingReceiveChunks => 1024
  | maxMessageFailureLogsPerSecond => 10
  end.

Definition DefaultHostOptions : ServerHostOptions := MkHostOptions DefaultNum (txt "127.0.0.1") JsonMode DefaultOptions.

Definition set_num (f : Field) (v : Z) (o : ServerHostOptions) : ServerHostOptions :=
  MkHostOptions (fun g => if bool_decide (g = f) then v else num o g) (listenAddress o) (payloadMode o) (jobRunner o).
Definition set_address (a : list Z) (o : ServerHostOptions) : ServerHostOptions := MkHostOptions (num o) a (payloadMode o) (jobRunner o).
Definition set_mode (m : PayloadMode) (o : ServerHostOptions) : ServerHostOptions := MkHostOptions (num o) (listenAddress o) m (jobRunner o).

(** ** Limits *)

Definition MaximumHostBodySize : Z := 16 * 1024 * 1024.
Definition MaximumHostPendingReceiveBytes : Z := 16 * 1024 * 1024.
Definition MaximumHostConcurrentSessions : Z := 65536.
Definition MaximumHostTotalPendingReceiveBytes : Z := 64 * 1024 * 1024.
Definition MaximumHostPendingParseBytes : Z := 16 * 1024 * 1024.
Definition MaximumHostTotalPendingParseBytes : Z := 64 * 1024 * 1024.
Definition MaximumHostPendingParseTasks : Z := 4096.
Definition MaximumHostTotalPendingParseTasks : Z := 65536.
Definition MaximumHostFrameReaderStorageBytes : Z := 1024 * 1024 * 1024.
Definition MaximumHostTotalSendQueueCapacityBytes : Z := 512 * 1024 * 1024.
Definition MinimumSessionTimeoutScanPeriod : Z := 10.
Definition MaximumSessionTimeoutScanPeriod : Z := 1000.
Definition MaximumServerHostWorkerThreadCount : Z := 64.
Definition SendQueueLimitBytes : Z := 1024 * 1024.
Definition MaximumReceiveChunkBytes : Z := 16 * 1024.
Definition HeaderSize : Z := 4.
Definition BinaryMessageHeaderSize : Z := 4.

Definition RequiredHostControlJobs (o : ServerHostOptions) : Z :=
  let parseCompletions := if num o parseWorkerThreadCount =? 0 then 0 else num o maxTotalPendingParseTasks in
  wrap64 (3 * num o maxConcurrentSessions + parseCompletions + 2).

Definition Invalid (message : string) : Status := Status.Fail InvalidArgument message.
Definition Large (message : string) : Status := Status.Fail TooLarge message.

(** The part of [ValidateOptions] for a host with parse workers. *)
Definition ValidateParse (o : ServerHostOptions) : Status :=
  if (num o maxPendingParseBytes =? 0) || (num o maxTotalPendingParseBytes =? 0) then Invalid "ServerHost parse byte limits must be positive"
  else if (MaximumHostPendingParseBytes <? num o maxPendingParseBytes) || (MaximumHostTotalPendingParseBytes <? num o maxTotalPendingParseBytes) then
    Large "ServerHost parse byte limit exceeds the host safety limit"
  else if (num o maxPendingParseBytes <? num o maxBodySize) || (num o maxTotalPendingParseBytes <? num o maxBodySize) then
    Invalid "ServerHost parse byte limits must fit one maximum-size frame body"
  else if num o maxTotalPendingParseBytes <? num o maxPendingParseBytes then
    Invalid "ServerHost total parse byte limit cannot be smaller than the per-session limit"
  else if (num o maxPendingParseTasks =? 0) || (num o maxTotalPendingParseTasks =? 0) then Invalid "ServerHost parse task limits must be positive"
  else if (MaximumHostPendingParseTasks <? num o maxPendingParseTasks) || (MaximumHostTotalPendingParseTasks <? num o maxTotalPendingParseTasks) then
    Large "ServerHost parse task limit exceeds the host safety limit"
  else if num o maxTotalPendingParseTasks <? num o maxPendingParseTasks then
    Invalid "ServerHost total parse task limit cannot be smaller than the per-session limit"
  else Status.Ok.

Definition ValidateOptions (o : ServerHostOptions) : Status :=
  if (num o maxPendingReceiveChunks =? 0) || (65536 <? num o maxPendingReceiveChunks) then Status.FailWithoutMessage InvalidArgument
  else if (num o frameCompletionTimeout <? 0) || (num o authenticationTimeout <? 0) || bool_decide (payloadMode o = OtherMode)
       || (bool_decide (payloadMode o = BinaryMode) && negb (num o parseWorkerThreadCount =? 0))
       || (bool_decide (payloadMode o = BinaryMode) && (num o maxBodySize <? BinaryMessageHeaderSize)) then Status.FailWithoutMessage InvalidArgument
  else if num o port =? 0 then Invalid "ServerHost port must not be zero"
  else if num o ioWorkerThreadCount <=? 0 then Invalid "ServerHost I/O worker thread count must be positive"
  else if MaximumServerHostWorkerThreadCount <? num o ioWorkerThreadCount then Large "ServerHost I/O worker thread count exceeds the host safety limit"
  else if num o parseWorkerThreadCount <? 0 then Invalid "ServerHost parse worker thread count cannot be negative"
  else if MaximumServerHostWorkerThreadCount <? num o parseWorkerThreadCount then Large "ServerHost parse worker thread count exceeds the host safety limit"
  else if num o acceptBacklog <=? 0 then Invalid "ServerHost accept backlog must be positive"
  else if num o idleSessionTimeout <? 0 then Invalid "ServerHost idle session timeout cannot be negative"
  else if num o gracefulCloseTimeout <=? 0 then Invalid "ServerHost graceful close timeout must be positive"
  else if num o maxBodySize =? 0 then Invalid "ServerHost frame body limit must be positive"
  else if MaximumHostBodySize <? num o maxBodySize then Large "ServerHost frame body limit exceeds the host safety limit"
  else if SendQueueLimitBytes - HeaderSize <? num o maxBodySize then Large "ServerHost frame body limit cannot fit in one Connection send queue entry"
  else if num o maxConcurrentSessions =? 0 then Invalid "ServerHost concurrent session limit must be positive"
  else if MaximumHostConcurrentSessions <? num o maxConcurrentSessions then Large "ServerHost concurrent session limit exceeds the host safety limit"
  else if num o maxTotalSendQueueCapacityBytes =? 0 then Invalid "ServerHost total send queue capacity must be positive"
  else if num o maxTotalSendQueueCapacityBytes <? SendQueueLimitBytes then Invalid "ServerHost total send queue capacity must fit one Connection send queue"
  else if MaximumHostTotalSendQueueCapacityBytes <? num o maxTotalSendQueueCapacityBytes then Large "ServerHost total send queue capacity exceeds the host safety limit"
  else if MaximumHostFrameReaderStorageBytes / (HeaderSize + num o maxBodySize) <? num o maxConcurrentSessions then
    Large "ServerHost FrameReader storage exceeds the aggregate host safety limit"
  else if num o maxPendingReceiveBytes =? 0 then Invalid "ServerHost pending receive byte limit must be positive"
  else if MaximumHostPendingReceiveBytes <? num o maxPendingReceiveBytes then Large "ServerHost pending receive byte limit exceeds the host safety limit"
  else if (num o maxPendingReceiveBytes <? MaximumReceiveChunkBytes) || (num o maxTotalPendingReceiveBytes <? MaximumReceiveChunkBytes) then
    Invalid "ServerHost pending receive byte limits must fit one transport receive"
  else if negb (num o maxInputBytesPerSecond =? 0) && (num o maxInputBytesPerSecond <? num o maxBodySize + HeaderSize) then
    Invalid "ServerHost input byte rate must fit one maximum-size frame"
  else if num o maxTotalPendingReceiveBytes =? 0 then Invalid "ServerHost total pending receive byte limit must be positive"
  else if MaximumHostTotalPendingReceiveBytes <? num o maxTotalPendingReceiveBytes then Large "ServerHost total pending receive byte limit exceeds the host safety limit"
  else if negb (num o parseWorkerThreadCount =? 0) then ValidateParse o
  else Status.Ok.

Definition SessionTimeoutScanPeriod (o : ServerHostOptions) : Z :=
  let timeout := if num o idleSessionTimeout =? 0 then num o gracefulCloseTimeout else Z.min (num o idleSessionTimeout) (num o gracefulCloseTimeout) in
  let timeout := fold_left (fun timeout extra => if negb (extra =? 0) then Z.min timeout extra else timeout) [num o frameCompletionTimeout; num o authenticationTimeout] timeout in
  Z.min (Z.max (Z.quot timeout 4) MinimumSessionTimeoutScanPeriod) MaximumSessionTimeoutScanPeriod.

Definition HostJsonParseLimits (o : ServerHostOptions) : Z :=
  if negb (num o maxJsonValuesPerMessage =? 0) then num o maxJsonValuesPerMessage else Z.max 1024 (num o maxBodySize / 8).

(** ** The host *)

Inductive Lifecycle : Type := Ready | Starting | Running | Stopping | Stopped.

#[global] Instance Lifecycle_eq_dec : EqDecision Lifecycle.
Proof. solve_decision. Defined.

Record Host : Type := MkHost {
  mLifecycle : Lifecycle;
  mConfigured : bool;
  mHostOptions : ServerHostOptions;
  mJobRunner : SharedState
}.

Definition NewHost : Host := MkHost Ready false DefaultHostOptions NewState.

Definition RunnerOptions (o : ServerHostOptions) : JobRunnerOptions :=
  MkOptions (maxOutstandingJobs (jobRunner o)) (maxRetainedBytes (jobRunner o)) (Z.max (maxControlJobs (jobRunner o)) (RequiredHostControlJobs o))
    (maxControlBytes (jobRunner o)).

(** [Configure] of options. *)
Definition ConfigureOptions (o : ServerHostOptions) (h : Host) : Status * Host :=
  let valid := ValidateOptions o in
  if negb (Status.IsOk valid) then (valid, h)
  else if negb (bool_decide (mLifecycle h = Ready)) then (Status.Fail Closed "ServerHost cannot be configured after startup has begun", h)
  else if maxControlJobs (jobRunner o) =? 0 then (Status.FailWithoutMessage InvalidArgument, h)
  else
    let '(configured, runner) := JobRunner.Configure (RunnerOptions o) (mJobRunner h) in
    if negb (Status.IsOk configured) then (configured, MkHost (mLifecycle h) (mConfigured h) (mHostOptions h) runner)
    else (Status.Ok, MkHost (mLifecycle h) true o runner).

(** ** From a configuration *)

Definition key (f : Field) : list Z :=
  txt "servercore.host." ++
  match f with
  | port => txt "port"
  | ioWorkerThreadCount => txt "io-worker-thread-count"
  | parseWorkerThreadCount => txt "parse-worker-thread-count"
  | acceptBacklog => txt "accept-backlog"
  | idleSessionTimeout => txt "idle-session-timeout-ms"
  | maxBodySize => txt "max-body-size"
  | maxConcurrentSessions => txt "max-concurrent-sessions"
  | maxPendingReceiveBytes => txt "max-pending-receive-bytes"
  | maxTotalPendingReceiveBytes => txt "max-total-pending-receive-bytes"
  | maxPendingParseBytes => txt "max-pending-parse-bytes"
  | maxTotalPendingParseBytes => txt "max-total-pending-parse-bytes"
  | maxPendingParseTasks => txt "max-pending-parse-tasks"
  | maxTotalPendingParseTasks => txt "max-total-pending-parse-tasks"
  | maxTotalSendQueueCapacityBytes => txt "max-total-send-queue-capacity-bytes"
  | gracefulCloseTimeout => txt "graceful-close-timeout-ms"
  | frameCompletionTimeout => txt "frame-completion-timeout-ms"
  | authenticationTimeout => txt "authentication-timeout-ms"
  | maxInputBytesPerSecond => txt "max-input-bytes-per-second"
  | maxInputFramesPerSecond => txt "max-input-frames-per-second"
  | maxPendingReceiveChunks => txt "max-pending-receive-chunks"
  | maxMessageFailureLogsPerSecond => txt "max-message-failure-logs-per-second"
  | maxJsonValuesPerMessage => txt "max-json-values-per-message"
  end.

Definition AddressKey : list Z := txt "servercore.host.listen-address".
Definition ModeKey : list Z := txt "servercore.host.payload-mode".

Definition text_of (l : list Z) : string := String.string_of_list_ascii (map (fun z => Ascii.ascii_of_N (Z.to_N z)) l).

Definition WithConfigKeyContext (k : list Z) (s : Status) : Status :=
  Status.Fail (Status.Code s) ("ServerHost config '" +:+ text_of k +:+ "': " +:+ Status.Message s).

Definition NegativeValue (k : list Z) : Status := Status.Fail InvalidArgument ("ServerHost config '" +:+ text_of k +:+ "' cannot be negative").

(** How a number is taken over: an [int] or a duration, with the key in the message; an unsigned number; a duration without. *)
Inductive Kind : Type := KindInt | KindUint32 | KindPlain.

Definition ApplyOptional (storage : option Values) (k : Kind) (f : Field) (o : ServerHostOptions) : Status * ServerHostOptions :=
  match GetInt storage (key f) with
  | FromStatus s =>
      if bool_decide (Status.Code s = NotFound) then (Status.Ok, o)
      else match k with KindPlain => (s, o) | _ => (WithConfigKeyContext (key f) s, o) end
  | FromValue v =>
      match k with
      | KindUint32 => if v <? 0 then (NegativeValue (key f), o) else (Status.Ok, set_num f v o)
      | _ => (Status.Ok, set_num f v o)
      end
  end.

Fixpoint ApplyAll (storage : option Values) (l : list (Kind * Field)) (o : ServerHostOptions) : Status * ServerHostOptions :=
  match l with
  | [] => (Status.Ok, o)
  | (k, f) :: l =>
      let '(s, o) := ApplyOptional storage k f o in
      if negb (Status.IsOk s) then (s, o) else ApplyAll storage l o
  end.

Definition ApplyOptionalString (storage : option Values) (k : list Z) (v : list Z) : Status * list Z :=
  match GetString storage k with
  | FromStatus s => if bool_decide (Status.Code s = NotFound) then (Status.Ok, v) else (WithConfigKeyContext k s, v)
  | FromValue v => (Status.Ok, v)
  end.

(** The numbers but the port, in the order in which they are read. *)
Definition FieldOrder : list (Kind * Field) :=
  [(KindInt, ioWorkerThreadCount); (KindInt, parseWorkerThreadCount); (KindInt, acceptBacklog); (KindInt, idleSessionTimeout); (KindInt, gracefulCloseTimeout);
   (KindUint32, maxBodySize); (KindUint32, maxConcurrentSessions); (KindUint32, maxTotalSendQueueCapacityBytes); (KindUint32, maxPendingReceiveBytes);
   (KindUint32, maxTotalPendingReceiveBytes); (KindUint32, maxPendingParseBytes); (KindUint32, maxTotalPendingParseBytes); (KindUint32, maxPendingParseTasks);
   (KindUint32, maxTotalPendingParseTasks); (KindPlain, frameCompletionTimeout); (KindPlain, authenticationTimeout); (KindUint32, maxInputBytesPerSecond);
   (KindUint32, maxInputFramesPerSecond); (KindUint32, maxPendingReceiveChunks); (KindUint32, maxMessageFailureLogsPerSecond); (KindUint32, maxJsonValuesPerMessage)].

(** What [Configure] reads, before it hands the options on. *)
Definition ReadOptions (storage : option Values) : Status * ServerHostOptions :=
  let o := DefaultHostOptions in
  match GetInt storage (key port) with
  | FromStatus s => (WithConfigKeyContext (key port) s, o)
  | FromValue p =>
      if (p <? 0) || (65535 <? p) then (Invalid "ServerHost config 'servercore.host.port' must fit a TCP port number", o)
      else
        let o := set_num port p o in
        let '(s, address) := ApplyOptionalString storage AddressKey (listenAddress o) in
        if negb (Status.IsOk s) then (s, o)
        else
          let '(s, o) := ApplyAll storage FieldOrder (set_address address o) in
          if negb (Status.IsOk s) then (s, o)
          else
            let '(s, mode) := ApplyOptionalString storage ModeKey (txt "json") in
            if negb (Status.IsOk s) then (s, o)
            else if bool_decide (mode = txt "binary") then (Status.Ok, set_mode BinaryMode o)
            else if negb (bool_decide (mode = txt "json")) then (Status.FailWithoutMessage InvalidArgument, o)
            else (Status.Ok, o)
  end.

(** [Configure] of a configuration. *)
Definition Configure (storage : option Values) (h : Host) : Status * Host :=
  let '(s, o) := ReadOptions storage in
  if negb (Status.IsOk s) then (s, h) else ConfigureOptions o h.

End HostOptions.
Import HostOptions.

(** ** What is accepted *)

(** The types of the fields: unsigned numbers are not negative, a port has 16 bits. *)
Definition unsigned (f : Field) : bool :=
  match f with
  | ioWorkerThreadCount | parseWorkerThreadCount | acceptBacklog | idleSessionTimeout | gracefulCloseTimeout | frameCompletionTimeout | authenticationTimeout => false
  | _ => true
  end.
Definition typed (o : ServerHostOptions) : Prop := (forall f, unsigned f = true -> 0 <= num o f < 2 ^ 32) /\ num o port < 2 ^ 16.

Definition acceptable_parse (o : ServerHostOptions) : Prop :=
  num o maxBodySize <= num o maxPendingParseBytes <= num o maxTotalPendingParseBytes /\ num o maxPendingParseBytes <= MaximumHostPendingParseBytes
  /\ num o maxTotalPendingParseBytes <= MaximumHostTotalPendingParseBytes
  /\ 0 < num o maxPendingParseTasks <= num o maxTotalPendingParseTasks /\ num o maxPendingParseTasks <= MaximumHostPendingParseTasks
  /\ num o maxTotalPendingParseTasks <= MaximumHostTotalPendingParseTasks.

Definition acceptable (o : ServerHostOptions) : Prop :=
  0 < num o port
  /\ 0 < num o ioWorkerThreadCount <= MaximumServerHostWorkerThreadCount /\ 0 <= num o parseWorkerThreadCount <= MaximumServerHostWorkerThreadCount
  /\ 0 < num o acceptBacklog
  /\ 0 <= num o idleSessionTimeout /\ 0 < num o gracefulCloseTimeout /\ 0 <= num o frameCompletionTimeout /\ 0 <= num o authenticationTimeout
  /\ 0 < num o maxBodySize /\ num o maxBodySize + HeaderSize <= SendQueueLimitBytes
  /\ 0 < num o maxConcurrentSessions <= MaximumHostConcurrentSessions
  /\ (num o maxBodySize + HeaderSize) * num o maxConcurrentSessions <= MaximumHostFrameReaderStorageBytes
  /\ SendQueueLimitBytes <= num o maxTotalSendQueueCapacityBytes <= MaximumHostTotalSendQueueCapacityBytes
  /\ MaximumReceiveChunkBytes <= num o maxPendingReceiveBytes <= MaximumHostPendingReceiveBytes
  /\ MaximumReceiveChunkBytes <= num o maxTotalPendingReceiveBytes <= MaximumHostTotalPendingReceiveBytes
  /\ 0 < num o maxPendingReceiveChunks <= 65536
  /\ (num o maxInputBytesPerSecond = 0 \/ num o maxBodySize + HeaderSize <= num o maxInputBytesPerSecond)
  /\ (num o parseWorkerThreadCount = 0 \/ acceptable_parse o)
  /\ (payloadMode o = JsonMode \/ (payloadMode o = BinaryMode /\ num o parseWorkerThreadCount = 0 /\ BinaryMessageHeaderSize <= num o maxBodySize)).

Ltac limits := unfold MaximumHostBodySize, MaximumHostPendingReceiveBytes, MaximumHostConcurrentSessions, MaximumHostTotalPendingReceiveBytes, MaximumHostPendingParseBytes,
  MaximumHostTotalPendingParseBytes, MaximumHostPendingParseTasks, MaximumHostTotalPendingParseTasks, MaximumHostFrameReaderStorageBytes, MaximumHostTotalSendQueueCapacityBytes,
  MinimumSessionTimeoutScanPeriod, MaximumSessionTimeoutScanPeriod, MaximumServerHostWorkerThreadCount, SendQueueLimitBytes, MaximumReceiveChunkBytes, HeaderSize,
  BinaryMessageHeaderSize in *.

Lemma validate_parse_iff (o : ServerHostOptions) : typed o -> 0 < num o maxBodySize -> ValidateParse o = Status.Ok <-> acceptable_parse o.
Proof.
  intros [T _] Hb. pose proof (T maxPendingParseTasks eq_refl). pose proof (T maxTotalPendingParseTasks eq_refl).
  unfold ValidateParse, acceptable_parse. limits. split.
  - do 7 (case_if; [done|]). lia.
  - intros H1. do 7 (case_if; [exfalso; lia|]). done.
Qed.

Lemma storage_fits (size sessions limit : Z) : 0 < size -> (limit / size <? sessions) = negb (size * sessions <=? limit).
Proof.
  intros Hs. destruct (limit / size <? sessions) eqn:E; symmetry; [apply negb_true_iff|apply negb_false_iff].
  - apply Z.leb_gt. apply Z.ltb_lt in E. pose proof (Z.mul_succ_div_gt limit size Hs). nia.
  - apply Z.leb_le. apply Z.ltb_ge in E. pose proof (Z.mul_div_le limit size Hs). nia.
Qed.

Lemma validate_iff (o : ServerHostOptions) : typed o -> ValidateOptions o = Status.Ok <-> acceptable o.
Proof.
  intros T. pose proof T as [U V]. pose proof (U port eq_refl). pose proof (U maxBodySize eq_refl). pose proof (U maxConcurrentSessions eq_refl).
  pose proof (U maxPendingReceiveChunks eq_refl). pose proof (U maxInputBytesPerSecond eq_refl).
  unfold ValidateOptions. rewrite storage_fits by (unfold HeaderSize; lia). limits.
  pose proof (validate_parse_iff o T) as P. unfold acceptable. limits. split.
  - destruct (payloadMode o); cbn [bool_decide]; repeat (first [rewrite bool_decide_true by done|rewrite bool_decide_false by done]); cbn [andb orb]; rewrite ?orb_false_r.
    all: repeat (case_if; [done|]); intros HP; split_and!; try lia; try (by left); try tauto; try (right; lia).
    + case_if_in HP; [right; apply P; [lia|done]|left; lia].
    + right. split; [done|lia].
  - intros Ha. destruct Ha as (A1 & A2 & A3 & A4 & A5 & A6 & A7 & A8 & A9 & A10 & A11 & A12 & A13 & A14 & A15 & A16 & A17 & A18 & A19).
    assert (M : (num o frameCompletionTimeout <? 0) || (num o authenticationTimeout <? 0) || bool_decide (payloadMode o = OtherMode)
       || (bool_decide (payloadMode o = BinaryMode) && negb (num o parseWorkerThreadCount =? 0))
       || (bool_decide (payloadMode o = BinaryMode) && (num o maxBodySize <? 4)) = false).
    { destruct A19 as [->|(-> & B1 & B2)]; rewrite (bool_decide_false (_ = OtherMode)) by done; [rewrite bool_decide_false by done|rewrite bool_decide_true by done]; lia. }
    rewrite M. repeat (case_if; [exfalso; lia|]). case_if; [|done]. apply P; [lia|]. destruct A18; [lia|done].
Qed.

(** ** What a host that was configured can count on *)

Lemma validate_code (o : ServerHostOptions) : Status.IsOk (ValidateOptions o) = true <-> ValidateOptions o = Status.Ok.
Proof.
  split; [|by intros ->]. unfold ValidateOptions, ValidateParse. repeat (case_if; [done|]). case_if; [|done]. by repeat (case_if; [done|]).
Qed.

Lemma runner_configure_ok (o : JobRunnerOptions) (s s' : SharedState) (r : Status) : JobRunner.Configure o s = (r, s') -> Status.IsOk r = true -> r = Status.Ok /\ mOptions s' = o.
Proof.
  unfold JobRunner.Configure. case_if; [by intros [= <- <-]|]. case_bool_decide; [intros [= <- <-]; by subst|]. case_if; by intros [= <- <-].
Qed.

Lemma control_jobs (o : ServerHostOptions) : typed o -> acceptable o ->
  RequiredHostControlJobs o = 3 * num o maxConcurrentSessions + (if num o parseWorkerThreadCount =? 0 then 0 else num o maxTotalPendingParseTasks) + 2.
Proof.
  intros [U _] Ha. unfold RequiredHostControlJobs. apply Z.mod_small. pose proof (U maxTotalPendingParseTasks eq_refl). pose proof (U maxConcurrentSessions eq_refl).
  case_if; lia.
Qed.

(** The shortest of the time-outs that are on. *)
Definition enabled (o : ServerHostOptions) (f : Field) : Prop :=
  f = gracefulCloseTimeout \/ ((f = idleSessionTimeout \/ f = frameCompletionTimeout \/ f = authenticationTimeout) /\ num o f <> 0).

Lemma scan_period (o : ServerHostOptions) : acceptable o ->
  MinimumSessionTimeoutScanPeriod <= SessionTimeoutScanPeriod o <= MaximumSessionTimeoutScanPeriod
  /\ forall f, enabled o f -> SessionTimeoutScanPeriod o <= Z.max MinimumSessionTimeoutScanPeriod (num o f / 4).
Proof.
  intros Ha. destruct Ha as (_ & _ & _ & _ & A5 & A6 & A7 & A8 & _). unfold SessionTimeoutScanPeriod. cbn [fold_left]. limits. cbn zeta.
  set (t := if negb (num o authenticationTimeout =? 0) then _ else _).
  assert (Ht : 0 < t /\ forall f, enabled o f -> t <= num o f).
  { subst t. split; [repeat case_if; lia|]. intros f [->|[[->|[->| ->]] Hf]]; repeat case_if; lia. }
  destruct Ht as [Ht Hf]. rewrite Z.quot_div_nonneg by lia. split; [lia|]. intros f He. pose proof (Z.div_le_mono t (num o f) 4 ltac:(lia) (Hf f He)). lia.
Qed.

(** C29. A host takes options over exactly when they are acceptable, it has not started, and its job runner takes the limits; otherwise its options are as they were.  A
    host that was configured can count on it: the storage of the frame readers of all its sessions is at most a gibibyte, a frame of the largest size fits the send
    queue of a connection and the budgets of reading and parsing, the control lane has room for all the work that the sessions can have outstanding, and the period
    of the time-out scan is within its bounds and not longer than a quarter of the shortest time-out. *)
Theorem host_options_safe (o : ServerHostOptions) (h : Host) (r : Status) (h' : Host) (Ht : typed o) (Hc : ConfigureOptions o h = (r, h')) :
  (r = Status.Ok <-> acceptable o /\ mLifecycle h = Ready /\ maxControlJobs (jobRunner o) <> 0 /\ Status.IsOk (JobRunner.Configure (RunnerOptions o) (mJobRunner h)).1 = true)
  /\ (r <> Status.Ok -> mHostOptions h' = mHostOptions h /\ mConfigured h' = mConfigured h)
  /\ (r = Status.Ok ->
       mHostOptions h' = o /\ mConfigured h' = true
       /\ (num o maxBodySize + HeaderSize) * num o maxConcurrentSessions <= 2 ^ 30
       /\ num o maxBodySize + HeaderSize <= SendQueueLimitBytes <= num o maxTotalSendQueueCapacityBytes
       /\ (num o parseWorkerThreadCount = 0 \/ num o maxBodySize <= num o maxPendingParseBytes <= num o maxTotalPendingParseBytes)
       /\ 3 * num o maxConcurrentSessions + (if num o parseWorkerThreadCount =? 0 then 0 else num o maxTotalPendingParseTasks) + 2 <= maxControlJobs (mOptions (mJobRunner h'))
       /\ MinimumSessionTimeoutScanPeriod <= SessionTimeoutScanPeriod o <= MaximumSessionTimeoutScanPeriod
       /\ forall f, enabled o f -> SessionTimeoutScanPeriod o <= Z.max MinimumSessionTimeoutScanPeriod (num o f / 4)).
Proof.
  unfold ConfigureOptions in Hc. pose proof (validate_iff o Ht) as V. pose proof (validate_code o) as C. cbn zeta in Hc.
  destruct (Status.IsOk (ValidateOptions o)) eqn:Ev; cbn [negb] in Hc.
  2: { injection Hc as <- <-. split_and!; try done; [|by intros E; rewrite E in Ev]. split; [by intros E; rewrite E in Ev|]. intros [A _]. apply V in A. by rewrite A in Ev. }
  assert (Ha : acceptable o) by tauto. clear V C.
  case_bool_decide as El; cbn [negb] in Hc; [|by injection Hc as <- <-; split_and!; [split; [done|tauto]|done|done]].
  destruct (maxControlJobs (jobRunner o) =? 0) eqn:Ec; [injection Hc as <- <-; split_and!; [split; [done|lia]|done|done]|].
  destruct (JobRunner.Configure (RunnerOptions o) (mJobRunner h)) as [r1 s1] eqn:Er. cbn [fst].
  destruct (Status.IsOk r1) eqn:Eo; cbn [negb] in Hc; injection Hc as <- <-.
  - destruct (runner_configure_ok _ _ _ _ Er Eo) as [-> Eop]. destruct (scan_period o Ha) as [S1 S2]. pose proof (control_jobs o Ht Ha) as J.
    split; [split; [intros _|done]; split_and!; try done; lia|]. split; [done|]. intros _. cbn [mHostOptions mConfigured mJobRunner]. rewrite Eop.
    unfold RunnerOptions. cbn [maxControlJobs]. rewrite J. pose proof Ha as Hb. unfold acceptable, acceptable_parse in Hb. limits. split_and!; try done; lia.
  - split_and!; try done; [split; [intros ->; done|naive_solver]|]. intros ->. done.
Qed.

(** ** From text to options *)

Definition same_options (o o' : ServerHostOptions) : Prop :=
  (forall f, num o f = num o' f) /\ listenAddress o = listenAddress o' /\ payloadMode o = payloadMode o' /\ jobRunner o = jobRunner o'.

#[global] Instance same_options_equiv : Equivalence same_options.
Proof. split; [done|intros o o' (A & B & C & D)|intros a b c (A & B & C & D) (A' & B' & C' & D')]; split_and!; try congruence; intros f; congruence. Qed.

#[global] Instance ValidateOptions_proper : Proper (same_options ==> eq) ValidateOptions.
Proof. intros o o' (A & B & C & D). unfold ValidateOptions, ValidateParse. by rewrite !A, !C. Qed.

#[global] Instance RunnerOptions_proper : Proper (same_options ==> eq) RunnerOptions.
Proof. intros o o' (A & B & C & D). unfold RunnerOptions, RequiredHostControlJobs. by rewrite !A, !D. Qed.

#[global] Instance typed_proper : Proper (same_options ==> iff) typed.
Proof. intros o o' (A & _). unfold typed. rewrite A. split; intros [H1 H2]; (split; [|done]); intros f Hf; specialize (H1 f Hf); rewrite A in *; done. Qed.

(** The decimal text of a number. *)
Definition decimal (n : Z) : list Z := if n <? 0 then char_code "-" :: Digits (- n) else Digits n.

Lemma from_chars_decimal (n : Z) : INT_MIN <= n <= INT_MAX -> from_chars_integer INT_MIN INT_MAX (decimal n) = (errc_ok, [], n).
Proof.
  unfold INT_MIN, INT_MAX, decimal, from_chars_integer. intros Hn. change (- 2 ^ 31 <? 0) with true. destruct (n <? 0) eqn:E.
  - rewrite Z.eqb_refl. cbn [andb]. rewrite span_digits_all by (apply digits_all; lia). rewrite digits_value_digits by lia.
    destruct (digits_spec (- n) ltac:(lia)) as (c & cs & -> & _). replace (len (c :: cs) =? 0) with false by (unfold len; cbn; lia).
    replace (- - n) with n by lia. case_if; [lia|done].
  - pose proof (digits_value_digits n ltac:(lia)) as Hv. destruct (digits_spec n ltac:(lia)) as (c & cs & Ed & Hd & _). rewrite Ed in *.
    assert (c <> char_code "-") by (inversion Hd as [|? ? Hc _]; subst; unfold isdigit in Hc; change (char_code "-") with 45; change (char_code "0") with 48 in Hc; lia).
    destruct (c =? char_code "-") eqn:E1; [lia|]. cbn [andb]. rewrite span_digits_all by done. rewrite Hv.
    replace (len (c :: cs) =? 0) with false by (unfold len; cbn; lia). case_if; [lia|done].
Qed.

Lemma key_valid (f : Field) : IsValidKey (key f) = true.
Proof. by destruct f. Qed.

Lemma get_int (storage : option Values) (f : Field) :
  match FindValue storage (key f) with
  | None => GetInt storage (key f) = FromStatus MissingKey
  | Some v => match GetInt storage (key f) with
              | FromValue n => from_chars_integer INT_MIN INT_MAX v = (errc_ok, [], n)
              | FromStatus s => Status.Code s = InvalidFormat
              end
  end.
Proof.
  unfold GetInt. rewrite key_valid. cbn [negb]. destruct (FindValue storage (key f)) as [v|]; [|done].
  destruct (from_chars_integer INT_MIN INT_MAX v) as [[[] rest] n]; [destruct rest|..]; done.
Qed.

(** The number of a field, from the configuration and what it was before. *)
Definition taken (storage : option Values) (f : Field) (before after : Z) : Prop :=
  match FindValue storage (key f) with
  | None => after = before
  | Some v => from_chars_integer INT_MIN INT_MAX v = (errc_ok, [], after)
  end.

Definition same_rest_options (o o' : ServerHostOptions) : Prop := listenAddress o' = listenAddress o /\ payloadMode o' = payloadMode o /\ jobRunner o' = jobRunner o.

Lemma apply_optional_spec (storage : option Values) (k : Kind) (f : Field) (o o' : ServerHostOptions) (s : Status) :
  ApplyOptional storage k f o = (s, o') -> Status.IsOk s = true ->
  taken storage f (num o f) (num o' f) /\ (forall g, g <> f -> num o' g = num o g) /\ same_rest_options o o'
  /\ (k = KindUint32 -> 0 <= num o f -> 0 <= num o' f).
Proof.
  unfold ApplyOptional, taken. pose proof (get_int storage f) as G.
  assert (Hset : forall v, num (set_num f v o) f = v /\ (forall g, g <> f -> num (set_num f v o) g = num o g) /\ same_rest_options o (set_num f v o)).
  { intros v. split_and!; cbn; [by rewrite bool_decide_true|intros g Hg; by rewrite bool_decide_false|done..]. }
  destruct (FindValue storage (key f)) as [v|].
  - destruct (GetInt storage (key f)) as [n|st].
    + destruct (Hset n) as (E1 & E2 & E3). destruct k; [|destruct (n <? 0) eqn:En|]; intros [= <- <-] Hs; try done; rewrite E1; split_and!; try done; lia.
    + intros E Hs. assert (Status.IsOk st = false) as Hf by (unfold Status.IsOk; apply bool_decide_eq_false; unfold Status.Code in G; congruence).
      case_bool_decide; [congruence|]. unfold Status.IsOk in *. destruct k; injection E as <- <-; cbn in Hs; unfold Status.Code in *; rewrite G in Hs; done.
  - rewrite G. intros [= <- <-] _. done.
Qed.

Lemma apply_all_spec (storage : option Values) (l : list (Kind * Field)) (o o' : ServerHostOptions) (s : Status) : NoDup (map snd l) ->
  ApplyAll storage l o = (s, o') -> Status.IsOk s = true ->
  (forall k f, (k, f) ∈ l -> taken storage f (num o f) (num o' f) /\ (k = KindUint32 -> 0 <= num o f -> 0 <= num o' f))
  /\ (forall g, g ∉ map snd l -> num o' g = num o g) /\ same_rest_options o o'.
Proof.
  revert o. induction l as [|[k f] l IH]; intros o Hn; cbn [ApplyAll].
  - intros [= <- <-] _. split_and!; try done. intros k f ?%elem_of_nil. done.
  - cbn [map snd] in Hn. apply NoDup_cons in Hn as [Hf Hn]. destruct (ApplyOptional storage k f o) as [s1 o1] eqn:E. destruct (Status.IsOk s1) eqn:E1; cbn [negb]; [|intros [= <- <-]; congruence].
    intros Hl Hs. destruct (apply_optional_spec _ _ _ _ _ _ E E1) as (A1 & A2 & (A3 & A4 & A5) & A6). destruct (IH o1 Hn Hl Hs) as (B1 & B2 & (B3 & B4 & B5)).
    split_and!; [| |split_and!; congruence].
    + intros k' f' [[= -> ->]|H]%elem_of_cons; [by rewrite (B2 f Hf)|].
      assert (f' <> f) by (intros ->; apply Hf; by apply (list_elem_of_fmap_2 snd l (k', f))). destruct (B1 k' f' H) as [C1 C2]. rewrite A2 in C1, C2 by done. done.
    + intros g [Hg1 Hg2]%not_elem_of_cons. rewrite (B2 g Hg2). auto.
Qed.

Definition AllFields : list Field := port :: map snd FieldOrder.

Lemma all_fields (f : Field) : f ∈ AllFields.
Proof. apply list_elem_of_In. destruct f; cbn; tauto. Qed.

Lemma order_nodup : NoDup (map snd FieldOrder).
Proof. apply (bool_decide_eq_true_1 (NoDup (map snd FieldOrder))). by vm_compute. Qed.

Lemma apply_string_spec (storage : option Values) (k v v' : list Z) (s : Status) : IsValidKey k = true -> ApplyOptionalString storage k v = (s, v') ->
  s = Status.Ok /\ v' = default v (FindValue storage k).
Proof.
  intros Hk. unfold ApplyOptionalString, GetString. rewrite Hk. cbn [negb]. destruct (FindValue storage k); by intros [= <- <-].
Qed.

(** What was read from a configuration without an error. *)
Definition read_from (storage : option Values) (o : ServerHostOptions) : Prop :=
  (forall f, taken storage f (DefaultNum f) (num o f)) /\ is_Some (FindValue storage (key port))
  /\ listenAddress o = default (txt "127.0.0.1") (FindValue storage AddressKey)
  /\ ((payloadMode o = JsonMode /\ default (txt "json") (FindValue storage ModeKey) = txt "json") \/ (payloadMode o = BinaryMode /\ FindValue storage ModeKey = Some (txt "binary")))
  /\ jobRunner o = DefaultOptions.

Lemma read_options_spec (storage : option Values) (s : Status) (o : ServerHostOptions) : ReadOptions storage = (s, o) -> Status.IsOk s = true ->
  s = Status.Ok /\ read_from storage o /\ (forall f, unsigned f = true -> 0 <= num o f) /\ num o port < 2 ^ 16.
Proof.
  unfold ReadOptions. pose proof (get_int storage port) as G. destruct (GetInt storage (key port)) as [p|st].
  2: { intros [= <- <-] Hs. exfalso. unfold Status.IsOk in Hs. apply bool_decide_eq_true in Hs. cbn in Hs. destruct (FindValue storage (key port)); unfold Status.Code in *; [congruence|].
       injection G as ->. done. }
  destruct (FindValue storage (key port)) as [pv|] eqn:Ep; [|done].
  destruct (_ || _) eqn:Er; [intros [= <- <-]; done|]. destruct (ApplyOptionalString storage AddressKey _) as [s1 a] eqn:Ea. apply apply_string_spec in Ea as [-> Ea]; [|done].
  cbn [negb]. change (negb (Status.IsOk Status.Ok)) with false. cbv iota.
  destruct (ApplyAll storage FieldOrder _) as [s2 o2] eqn:E2. destruct (Status.IsOk s2) eqn:Es2; cbn [negb]; [|intros [= <- <-]; congruence].
  destruct (apply_all_spec _ _ _ _ _ order_nodup E2 Es2) as (A1 & A2 & (A3 & A4 & A5)).
  destruct (ApplyOptionalString storage ModeKey _) as [s3 m] eqn:Em. apply apply_string_spec in Em as [-> Em]; [|done].
  change (negb (Status.IsOk Status.Ok)) with false. cbv iota.
  assert (Hport : num o2 port = p) by (rewrite A2; [done|apply (bool_decide_eq_true_1 (port ∉ map snd FieldOrder)); by vm_compute]).
  assert (Hnum : forall f, taken storage f (DefaultNum f) (num o2 f) /\ (unsigned f = true -> 0 <= num o2 f)).
  { intros f. pose proof (all_fields f) as Hf. unfold AllFields in Hf. apply elem_of_cons in Hf as [->|([k g] & -> & Hk)%list_elem_of_fmap].
    - unfold taken. rewrite Ep, Hport. split; [done|]. intros _. lia.
    - cbn [snd]. destruct (A1 k g Hk) as [B1 B2].
      assert (Hd : num (set_address a (set_num port p DefaultHostOptions)) g = DefaultNum g).
      { cbn. rewrite bool_decide_false; [done|]. intros ->. apply (bool_decide_eq_true_1 (port ∉ map snd FieldOrder)); [by vm_compute|]. by apply (list_elem_of_fmap_2 snd FieldOrder (k, port)). }
      rewrite Hd in B1, B2. split; [done|]. intros Hu. apply B2; [|by destruct g]. clear -Hk Hu. apply list_elem_of_In in Hk. cbn in Hk.
      repeat (destruct Hk as [[= <- <-]|Hk]; [done|]). done. }
  assert (Hrest : forall m', payloadMode (set_mode m' o2) = m' /\ listenAddress (set_mode m' o2) = default (txt "127.0.0.1") (FindValue storage AddressKey)
    /\ jobRunner (set_mode m' o2) = DefaultOptions) by (intros m'; cbn; split_and!; [done|by rewrite A3|by rewrite A5]).
  intros E Hs. case_bool_decide as Eb; [|case_bool_decide as Ej]; cbn [negb] in E; injection E as <- <-; try done.
  - split; [done|]. destruct (Hrest BinaryMode) as (R1 & R2 & R3). split; [|split; [intros f; apply Hnum|cbn; rewrite Hport; lia]].
    split_and!; try done; [intros f; apply Hnum|]. right. split; [done|]. destruct (FindValue storage ModeKey); cbn in Em; subst; done.
  - split; [done|]. destruct (Hrest JsonMode) as (R1 & R2 & R3). split; [|split; [intros f; apply Hnum|rewrite Hport; lia]].
    split_and!; try done; [intros f; apply Hnum|]. left. rewrite A4. split; [done|]. by rewrite <-Em.
Qed.

Lemma taken_range (storage : option Values) (f : Field) (n : Z) : taken storage f (DefaultNum f) n -> INT_MIN <= n <= INT_MAX.
Proof.
  unfold taken, INT_MIN, INT_MAX. destruct (FindValue storage (key f)) as [v|]; [|intros ->; destruct f; vm_compute; split; congruence].
  unfold from_chars_integer. destruct (match v with [] => _ | _ => _ end) as [negative body]. destruct (span_digits body) as [ds rest].
  case_if; [done|]. cbn zeta. case_if; [done|]. intros [= _ <-]. lia.
Qed.

(** ** The text of options *)

Definition mode_text (m : PayloadMode) : list Z := match m with BinaryMode => txt "binary" | _ => txt "json" end.

Definition entries_of (o : ServerHostOptions) : list (list Z * list Z) :=
  (AddressKey, listenAddress o) :: (ModeKey, mode_text (payloadMode o)) :: map (fun f => (key f, decimal (num o f))) AllFields.
Definition values_of (o : ServerHostOptions) : Values := list_to_map (entries_of o).

Definition entry_keys : list (list Z) := AddressKey :: ModeKey :: map key AllFields.

Lemma entry_keys_nodup : NoDup entry_keys.
Proof. apply (bool_decide_eq_true_1 (NoDup entry_keys)). by vm_compute. Qed.

Lemma values_lookup (o : ServerHostOptions) (k v : list Z) : (k, v) ∈ entries_of o -> values_of o !! k = Some v.
Proof.
  intros H. apply elem_of_list_to_map_1; [|done]. assert ((entries_of o).*1 = entry_keys) as ->; [|apply entry_keys_nodup].
  unfold entries_of, entry_keys. rewrite !fmap_cons. cbn [fst]. by do 2 f_equal.
Qed.

Lemma values_number (o : ServerHostOptions) (f : Field) : FindValue (Some (values_of o)) (key f) = Some (decimal (num o f)).
Proof. cbn [FindValue]. apply values_lookup. unfold entries_of. right. right. apply list_elem_of_fmap. exists f. split; [done|apply all_fields]. Qed.

(** Options that a configuration can express. *)
Definition expressible (o : ServerHostOptions) : Prop :=
  (forall f, INT_MIN <= num o f <= INT_MAX /\ (unsigned f = true -> 0 <= num o f)) /\ num o port < 2 ^ 16 /\ payloadMode o <> OtherMode
  /\ printable (listenAddress o) /\ jobRunner o = DefaultOptions.

Lemma values_int (o : ServerHostOptions) (f : Field) : expressible o -> GetInt (Some (values_of o)) (key f) = FromValue (num o f).
Proof.
  intros (H & _). unfold GetInt. rewrite key_valid. cbn [negb]. rewrite values_number, from_chars_decimal; [done|apply H].
Qed.

Lemma apply_values (o : ServerHostOptions) (l : list (Kind * Field)) : expressible o -> Forall (fun x => x.1 = KindUint32 -> unsigned x.2 = true) l ->
  forall o1, Status.IsOk (ApplyAll (Some (values_of o)) l o1).1 = true.
Proof.
  intros Ho Hl. induction Hl as [|[k f] l Hk _ IH]; intros o1; cbn [ApplyAll]; [done|]. unfold ApplyOptional. rewrite values_int by done. cbn [fst snd] in Hk.
  destruct k; [apply IH| |apply IH]. pose proof (proj2 (proj1 Ho f) (Hk eq_refl)). case_if; [lia|apply IH].
Qed.

Lemma read_values (o : ServerHostOptions) : expressible o -> exists o', ReadOptions (Some (values_of o)) = (Status.Ok, o') /\ same_options o o'.
Proof.
  intros Ho. pose proof Ho as (H1 & H2 & H3 & H4 & H5).
  assert (Ea : FindValue (Some (values_of o)) AddressKey = Some (listenAddress o)) by (apply values_lookup; left).
  assert (Em : FindValue (Some (values_of o)) ModeKey = Some (mode_text (payloadMode o))) by (apply values_lookup; right; left).
  assert (Hok : Status.IsOk (ReadOptions (Some (values_of o))).1 = true).
  { unfold ReadOptions. rewrite values_int by done. pose proof (proj2 (H1 port) eq_refl). destruct (_ || _) eqn:E; [lia|].
    destruct (ApplyOptionalString _ AddressKey _) as [s1 a] eqn:E1. apply apply_string_spec in E1 as [-> _]; [|done]. change (negb (Status.IsOk Status.Ok)) with false. cbv iota.
    match goal with |- context [ApplyAll ?st ?l ?x] => pose proof (apply_values o l Ho ltac:(repeat constructor; done) x) as Hall; destruct (ApplyAll st l x) as [s2 o2] end.
    cbn [fst] in Hall. rewrite Hall. cbn [negb].
    destruct (ApplyOptionalString _ ModeKey _) as [s3 m] eqn:E3. apply apply_string_spec in E3 as [-> E3]; [|done]. change (negb (Status.IsOk Status.Ok)) with false. cbv iota.
    rewrite Em in E3. cbn in E3. subst m. by destruct (payloadMode o). }
  destruct (ReadOptions (Some (values_of o))) as [s o'] eqn:E. cbn [fst] in Hok. destruct (read_options_spec _ _ _ E Hok) as (-> & (R1 & _ & R3 & R4 & R5) & _ & _).
  exists o'. split; [done|]. split_and!.
  - intros f. specialize (R1 f). unfold taken in R1. rewrite values_number, from_chars_decimal in R1 by apply H1. by injection R1.
  - rewrite R3, Ea. done.
  - destruct R4 as [[-> Hm]|[-> Hm]]; rewrite Em in Hm; destruct (payloadMode o); solve [reflexivity|discriminate Hm|by destruct H3].
  - by rewrite R5.
Qed.

Lemma decimal_printable (n : Z) : printable (decimal n).
Proof.
  assert (Hd : Forall (fun c => isdigit c = true \/ c = 45) (decimal n)).
  { assert (W : forall m, 0 <= m -> Forall (fun c => isdigit c = true \/ c = 45) (Digits m)) by (intros m Hm; eapply Forall_impl; [apply (digits_all m Hm)|]; tauto).
    unfold decimal. destruct (n <? 0) eqn:E; [constructor; [by right|]|]; apply W; lia. }
  assert (Hc : Forall (fun c => 45 <= c <= 57) (decimal n)).
  { eapply Forall_impl; [exact Hd|]. intros c [Hc| ->]; [|lia]. unfold isdigit in Hc. change (char_code "0") with 48 in Hc. change (char_code "9") with 57 in Hc. lia. }
  assert (Hw : forall c, 45 <= c <= 57 -> IsHorizontalWhitespace c = false) by (intros c Hr; unfold IsHorizontalWhitespace; change (char_code " ") with 32; lia).
  rewrite Forall_forall in Hc. split_and!.
  - split; intros c H; apply Hw, Hc; [apply head_Some_elem_of in H|apply last_Some_elem_of in H]; done.
  - apply utf8_ascii, Forall_forall. intros c Hx. specialize (Hc c Hx). unfold ascii_byte. lia.
  - intros H. specialize (Hc _ H). lia.
  - intros H. specialize (Hc _ H). lia.
  - intros H. specialize (Hc _ H). lia.
Qed.

Lemma values_printable (o : ServerHostOptions) (k v : list Z) : expressible o -> values_of o !! k = Some v -> IsValidKey k = true /\ printable v.
Proof.
  intros (_ & _ & H3 & H4 & _) H. apply elem_of_list_to_map_2 in H. unfold entries_of in H. apply elem_of_cons in H as [[= -> ->]|H]; [by split|].
  apply elem_of_cons in H as [[= -> ->]|(f & [= -> ->] & _)%list_elem_of_fmap]; [|split; [apply key_valid|apply decimal_printable]].
  split; [done|]. destruct (payloadMode o); [| |done]; (split_and!; [split; intros c [= <-]; reflexivity|apply utf8_ascii; by repeat constructor|..]);
    intros Hin; vm_compute in Hin; repeat (apply elem_of_cons in Hin as [Hin|Hin]; [discriminate Hin|]); by apply elem_of_nil in Hin.
Qed.

(** What a configuration says is what the host takes over, and nothing else: when it configures, every number is the decimal value at its key, or the default where the
    key is missing, which the port may not be; the address and the mode likewise.  The numbers are within their types, the options are acceptable, and when the
    configuration fails the options of the host are as they were. *)
Theorem host_config_exact (storage : option Values) (h : Host) (r : Status) (h' : Host) (Hc : Configure storage h = (r, h')) :
  (r = Status.Ok -> read_from storage (mHostOptions h') /\ typed (mHostOptions h') /\ acceptable (mHostOptions h') /\ mLifecycle h = Ready /\ mConfigured h' = true)
  /\ (r <> Status.Ok -> mHostOptions h' = mHostOptions h /\ mConfigured h' = mConfigured h).
Proof.
  unfold Configure in Hc. destruct (ReadOptions storage) as [s o] eqn:Er. destruct (Status.IsOk s) eqn:Es; cbn [negb] in Hc.
  2: { injection Hc as <- <-. split; [intros ->; done|done]. }
  destruct (read_options_spec _ _ _ Er Es) as (_ & R & U & P). assert (T : typed o).
  { split; [|done]. intros f Hf. split; [by apply U|]. destruct R as [R _]. pose proof (taken_range _ _ _ (R f)) as B. unfold INT_MAX in B. lia. }
  unfold ConfigureOptions in Hc. cbn zeta in Hc. destruct (Status.IsOk (ValidateOptions o)) eqn:Ev; cbn [negb] in Hc.
  2: { injection Hc as <- <-. split; [intros E; by rewrite E in Ev|done]. }
  apply validate_code, validate_iff in Ev; [|done].
  case_bool_decide; cbn [negb] in Hc; [|by injection Hc as <- <-]. case_if_in Hc; [by injection Hc as <- <-|].
  destruct (JobRunner.Configure (RunnerOptions o) (mJobRunner h)) as [r1 s1]. destruct (Status.IsOk r1) eqn:E1; cbn [negb] in Hc; injection Hc as <- <-.
  - split; [intros _; by cbn|done].
  - split; [intros ->; done|done].
Qed.

(** C28. Options come back from their text: the options that a configuration can express, written key by key with either line ending, loaded from a file that is read in
    any pieces and with any interruptions, configure a host as the options themselves would. *)
Theorem host_config_round_trip (path : list Z) (crlf : bool) (o : ServerHostOptions) (opens : list (SystemCall unit)) (reads : list (SystemCall (list Z))) (h : Host)
  (Hp : path <> [] /\ 0 ∉ path /\ IsValidUtf8 path = true) (Ho : expressible o) (Hopen : opened opens) (Hread : delivered reads (print crlf (values_of o))) :
  exists values o', LoadFromFile path opens reads = Some (FromValue values) /\ same_options o o' /\ Configure (Some values) h = ConfigureOptions o' h
    /\ (ConfigureOptions o' h).1 = (ConfigureOptions o h).1 /\ mJobRunner (ConfigureOptions o' h).2 = mJobRunner (ConfigureOptions o h).2.
Proof.
  destruct Hp as (P1 & P2 & P3). destruct (read_values o Ho) as (o' & E & S). exists (values_of o), o'. split; [|split; [done|]].
  - apply (config_round_trip path crlf (values_of o) opens reads P1 P2 P3); [|exact Hopen|exact Hread]. intros k v. apply values_printable. exact Ho.
  - unfold Configure. rewrite E. split; [reflexivity|]. assert (V : ValidateOptions o' = ValidateOptions o) by (by rewrite S).
    assert (R : RunnerOptions o' = RunnerOptions o) by (by rewrite S). destruct S as (_ & _ & _ & S4). unfold ConfigureOptions. rewrite V, R, <-S4.
    destruct (Status.IsOk (ValidateOptions o)); [|split; reflexivity]. destruct (bool_decide (mLifecycle h = Ready)); [|split; reflexivity].
    destruct (maxControlJobs (jobRunner o) =? 0); [split; reflexivity|]. destruct (JobRunner.Configure (RunnerOptions o) (mJobRunner h)) as [r s].
    destruct (Status.IsOk r); split; reflexivity.
Qed.

(** ** Examples *)

Definition example_options : ServerHostOptions := set_mode BinaryMode (set_num maxConcurrentSessions 1000 (set_num port 7777 DefaultHostOptions)).

Lemma example_typed : typed example_options.
Proof. split; [intros f; destruct f; intros [=]; vm_compute; split; congruence|done]. Qed.

Lemma host_options_safe_witness :
  (ConfigureOptions example_options NewHost).1 = Status.Ok
  /\ mHostOptions (ConfigureOptions example_options NewHost).2 = example_options
  /\ (num example_options maxBodySize + HeaderSize) * num example_options maxConcurrentSessions <= 2 ^ 30
  /\ maxControlJobs (mOptions (mJobRunner (ConfigureOptions example_options NewHost).2)) = 3002.
Proof.
  destruct (host_options_safe example_options NewHost (ConfigureOptions example_options NewHost).1 (ConfigureOptions example_options NewHost).2 example_typed ltac:(vm_compute; reflexivity))
    as (_ & _ & H). split; [vm_compute; reflexivity|]. destruct (H ltac:(vm_compute; reflexivity)) as (A & _ & B & _). split; [exact A|]. split; [exact B|vm_compute; reflexivity].
Defined.

Definition example_config : option Values := Some {[ key port := txt "7777"; key maxConcurrentSessions := txt "1000"; ModeKey := txt "binary" ]}.

Lemma host_config_exact_witness :
  (Configure example_config NewHost).1 = Status.Ok
  /\ num (mHostOptions (Configure example_config NewHost).2) port = 7777
  /\ read_from example_config (mHostOptions (Configure example_config NewHost).2) /\ typed (mHostOptions (Configure example_config NewHost).2).
Proof.
  destruct (host_config_exact example_config NewHost (Configure example_config NewHost).1 (Configure example_config NewHost).2 ltac:(vm_compute; reflexivity)) as [H _].
  split; [vm_compute; reflexivity|]. split; [vm_compute; reflexivity|]. destruct (H ltac:(vm_compute; reflexivity)) as (A & B & _). split; [exact A|exact B].
Defined.

Lemma delivered_whole (text : list Z) : text <> [] -> delivered [Returned text; Returned []] text.
Proof. destruct text as [|c t]; [done|]. intros _. rewrite <-(app_nil_r (c :: t)) at 2. apply delivered_piece, delivered_end. Qed.

Lemma example_expressible : expressible example_options.
Proof.
  split; [intros f; split; [destruct f; vm_compute; split; congruence|intros _; destruct f; vm_compute; congruence]|].
  split; [done|]. split; [done|]. split; [|done]. split_and!.
  - split; intros c [= <-]; reflexivity.
  - apply utf8_ascii. by repeat constructor.
  - by apply (bool_decide_eq_true_1 (0 ∉ listenAddress example_options)).
  - by apply (bool_decide_eq_true_1 (10 ∉ listenAddress example_options)).
  - by apply (bool_decide_eq_true_1 (13 ∉ listenAddress example_options)).
Qed.

Lemma host_config_round_trip_witness :
  exists values o', LoadFromFile (txt "server.conf") [Returned ()] [Returned (print false (values_of example_options)); Returned []] = Some (FromValue values)
    /\ same_options example_options o' /\ Configure (Some values) NewHost = ConfigureOptions o' NewHost
    /\ (ConfigureOptions o' NewHost).1 = (ConfigureOptions example_options NewHost).1 /\ mJobRunner (ConfigureOptions o' NewHost).2 = mJobRunner (ConfigureOptions example_options NewHost).2.
Proof.
  apply (host_config_round_trip (txt "server.conf") false example_options).
  - split; [done|]. split; [|reflexivity]. by apply (bool_decide_eq_true_1 (0 ∉ txt "server.conf")).
  - exact example_expressible.
  - constructor.
  - apply delivered_whole. vm_compute. congruence.
Defined.
