(* ===== verification/TaskExecutor.v ===== *)
(** * Runtime: the task executor.

    [Runtime/TaskExecutor.cpp|h].  Workers take tasks from a list in the order of their submission; a coordinator signals the
    tasks that were cancelled or are past their deadline, and drops those that had not started; either publishes a task when it is
    over.  The sections of the mutex are functions of the state, and threads interleave at them ([World], [Run]); [Waits] and [Reach]
    add the condition variable: threads that wait sleep until they are notified, and a notification is a step of its own after the
    section that calls for it.  What a job returns, what a parent token says, and the clock are arguments.  Metrics, completion
    callbacks and the waits of a handle are left out. *)

From Stdlib Require Import Sorted.
From stdpp Require Import gmap.
From S2P Require Import Prelude CoreError.

Module TaskExecutor.

Inductive TaskPhase : Type := Queued | Running | Completing | Terminal.

#[global] Instance TaskPhase_eq_dec : EqDecision TaskPhase.
Proof. solve_decision. Defined.

Record TaskOptions : Type := MkTaskOptions { retainedBytes : Z; deadline : option Z }.

Record TaskState : Type := MkTask {
  key : Z;
  options : TaskOptions;
  phase : TaskPhase;
  cancelReason : ErrorCode;
  signalSent : bool
}.

Definition set_phase (p : TaskPhase) (t : TaskState) : TaskState := MkTask (key t) (options t) p (cancelReason t) (signalSent t).
Definition set_reason (c : ErrorCode) (t : TaskState) : TaskState := MkTask (key t) (options t) (phase t) c (signalSent t).
Definition set_signal (t : TaskState) : TaskState := MkTask (key t) (options t) (phase t) (cancelReason t) true.

Record State : Type := MkState {
  workerCount : Z;
  maxPendingTasks : Z;
  maxRetainedBytes : Z;
  tasks : list TaskState;
  started : bool;
  ready : bool;
  stopping : bool;
  joined : bool;
  pending : Z;
  running : Z;
  retained : Z
}.

Definition NewState : State := MkState 2 128 (4 * 1024 * 1024) [] false false false false 0 0 0.

Definition set_tasks (l : list TaskState) (pending running : Z) (s : State) : State :=
  MkState (workerCount s) (maxPendingTasks s) (maxRetainedBytes s) l (started s) (ready s) (stopping s) (joined s) pending running (retained s).
Definition set_retained (n : Z) (s : State) : State :=
  MkState (workerCount s) (maxPendingTasks s) (maxRetainedBytes s) (tasks s) (started s) (ready s) (stopping s) (joined s) (pending s) (running s) n.
Definition set_flags (ready stopping joined : bool) (s : State) : State :=
  MkState (workerCount s) (maxPendingTasks s) (maxRetainedBytes s) (tasks s) (started s) ready stopping joined (pending s) (running s) (retained s).

(** Whether a deadline has come. *)
Definition Late (now : Z) (t : TaskState) : bool := match deadline (options t) with Some d => d <=? now | None => false end.

(** [parents]: the tasks whose parent token was stopped. *)
Definition ObserveCancellation (parents : Z -> bool) (now : Z) (t : TaskState) : TaskState :=
  if negb (bool_decide (cancelReason t = ErrorCode_Ok)) then t
  else if Late now t then set_reason Timeout t
  else if parents (key t) then set_reason Cancelled t
  else t.

(** ** The calls *)

Definition StartBegin (workers maxTasks maxBytes : Z) (s : State) : Status * State :=
  if (workers =? 0) || (maxTasks =? 0) || (maxBytes =? 0) then (Status.FailWithoutMessage InvalidArgument, s)
  else if started s || stopping s then (Status.FailWithoutMessage Closed, s)
  else (Status.Ok, MkState workers maxTasks maxBytes (tasks s) true (ready s) (stopping s) (joined s) (pending s) (running s) (retained s)).
Definition StartReady (s : State) : State := set_flags true (stopping s) (joined s) s.

(** The first section of [Submit], and the second for the task that was made: [early] is the reason a parent token has left. *)
Definition SubmitCheck (o : TaskOptions) (s : State) : Status :=
  if maxRetainedBytes s <? retainedBytes o then Status.FailWithoutMessage TooLarge
  else if negb (ready s) || stopping s then Status.FailWithoutMessage Closed
  else if (maxPendingTasks s <=? pending s) || (maxRetainedBytes s - retained s <? retainedBytes o) then Status.FailWithoutMessage WouldBlock
  else Status.Ok.

Definition SubmitCommit (k : Z) (o : TaskOptions) (early : ErrorCode) (parents : Z -> bool) (now : Z) (s : State) : Status * State :=
  if negb (ready s) || stopping s then (Status.FailWithoutMessage Closed, s)
  else if (maxPendingTasks s <=? pending s) || (maxRetainedBytes s - retained s <? retainedBytes o) then (Status.FailWithoutMessage WouldBlock, s)
  else
    (Status.Ok,
     MkState (workerCount s) (maxPendingTasks s) (maxRetainedBytes s) (tasks s ++ [ObserveCancellation parents now (MkTask k o Queued early false)])
       (started s) (ready s) (stopping s) (joined s) (pending s + 1) (running s) (retained s + retainedBytes o)).

Definition find_task (k : Z) (l : list TaskState) : option TaskState := find (fun t => key t =? k) l.
Definition update_task (k : Z) (f : TaskState -> TaskState) (l : list TaskState) : list TaskState := map (fun t => if key t =? k then f t else t) l.
Definition remove_task (k : Z) (l : list TaskState) : list TaskState := filter (fun t => key t <> k) l.

(** A task that is not in the list is completing or terminal. *)
Definition Cancel (k now : Z) (s : State) : bool * State :=
  match find_task k (tasks s) with
  | None => (false, s)
  | Some t =>
      if bool_decide (phase t = Completing) || bool_decide (phase t = Terminal) || negb (bool_decide (cancelReason t = ErrorCode_Ok)) then (false, s)
      else (true, set_tasks (update_task k (set_reason (if Late now t then Timeout else Cancelled)) (tasks s)) (pending s) (running s) s)
  end.

Definition StopTask (parents : Z -> bool) (now : Z) (t : TaskState) : TaskState :=
  let t := ObserveCancellation parents now t in
  if bool_decide (cancelReason t = ErrorCode_Ok) then set_reason Cancelled t else t.

Definition RequestStop (parents : Z -> bool) (now : Z) (s : State) : State :=
  set_flags (ready s) true (joined s) (set_tasks (map (StopTask parents now) (tasks s)) (pending s) (running s) s).

Definition JoinEnd (s : State) : State := set_flags (ready s) (stopping s) true s.

(** ** Workers *)

(** The loop over the list: the first task that is queued and not cancelled starts. *)
Fixpoint Pick (parents : Z -> bool) (now : Z) (l : list TaskState) : list TaskState * option Z :=
  match l with
  | [] => ([], None)
  | t :: l =>
      if negb (bool_decide (phase t = Queued)) then let '(l, r) := Pick parents now l in (t :: l, r)
      else
        let t := ObserveCancellation parents now t in
        if negb (bool_decide (cancelReason t = ErrorCode_Ok)) then let '(l, r) := Pick parents now l in (t :: l, r)
        else (set_phase Running t :: l, Some (key t))
  end.

(** A worker at the head of its loop: it returns, takes a task, or waits. *)
Inductive Taken : Type := TakenExit | TakenTask (k : Z) | TakenWait.

Definition WorkerTake (parents : Z -> bool) (now : Z) (s : State) : Taken * State :=
  if stopping s then (TakenExit, s)
  else if ready s then
    match Pick parents now (tasks s) with
    | (l, Some k) => (TakenTask k, set_tasks l (pending s - 1) (running s + 1) s)
    | (l, None) => (TakenWait, set_tasks l (pending s) (running s) s)
    end
  else (TakenWait, s).

(** The section after the job: the reason that overrides its result. *)
Definition WorkerFinish (k : Z) (parents : Z -> bool) (now : Z) (s : State) : option (TaskState * State) :=
  match find_task k (tasks s) with
  | None => None
  | Some t => Some (ObserveCancellation parents now t, set_tasks (remove_task k (tasks s)) (pending s) (running s - 1) s)
  end.

Definition FinalCode (t : TaskState) (result : ErrorCode) : ErrorCode := if bool_decide (cancelReason t = ErrorCode_Ok) then result else cancelReason t.

(** The first section of [Publish]. *)
Definition PublishAccount (bytes : Z) (s : State) : State := set_retained (retained s - bytes) s.

(** ** The coordinator *)

(** The loop over the list: the first task to signal, whether it was queued, and the next deadline. *)
Fixpoint CoordinateLoop (parents : Z -> bool) (now : Z) (l : list TaskState) (next : option Z) : list TaskState * option (TaskState * bool) * option Z :=
  match l with
  | [] => ([], None, next)
  | t :: l =>
      let t := ObserveCancellation parents now t in
      if negb (bool_decide (cancelReason t = ErrorCode_Ok)) && negb (signalSent t) then
        let t := set_signal t in
        let queued := bool_decide (phase t = Queued) in
        ((if queued then set_phase Completing t else t) :: l, Some (t, queued), next)
      else
        let next :=
          if bool_decide (cancelReason t = ErrorCode_Ok) then
            match deadline (options t), next with
            | Some d, Some n => if d <? n then Some d else next
            | Some d, None => Some d
            | None, _ => next
            end
          else next in
        let '(l, r, next) := CoordinateLoop parents now l next in (t :: l, r, next)
  end.

Inductive Coordinated : Type := CoordSignal (t : TaskState) | CoordDrop (t : TaskState) | CoordExit | CoordWait (next : option Z).

Definition Coordinate (parents : Z -> bool) (now : Z) (s : State) : Coordinated * State :=
  match CoordinateLoop parents now (tasks s) None with
  | (l, Some (t, true), _) => (CoordDrop t, set_tasks (remove_task (key t) l) (pending s - 1) (running s) s)
  | (l, Some (t, false), _) => (CoordSignal t, set_tasks l (pending s) (running s) s)
  | (l, None, next) =>
      let s := set_tasks l (pending s) (running s) s in
      if stopping s && (len (tasks s) =? 0) then (CoordExit, s) else (CoordWait next, s)
  end.

(** ** Threads *)

Inductive Owner : Type := ByWorker | ByCoordinator.

(** A task that a thread publishes: [accounted] after the first section. *)
Record Publishing : Type := MkPub { pubKey : Z; pubBytes : Z; pubCode : ErrorCode; accounted : bool; owner : Owner }.

Inductive Coordinator : Type := CoordNone | CoordLoop | CoordSignalling (k : Z) | CoordPublishing | CoordOut.

Inductive Event : Type :=
| Submitted (k : Z) | CancelAccepted (k : Z) | Started (k : Z) | Signalled (k : Z) | Ended (k : Z) (code : ErrorCode) | Dropped (k : Z) (code : ErrorCode)
| Finished (k : Z) (code : ErrorCode).

(** The workers at the head of their loop and those that have returned; the jobs that run, each on a worker of its own; what is being published, and what was. *)
Record World : Type := MkWorld {
  state : State;
  idle : Z;
  out : Z;
  jobs : list Z;
  coordinator : Coordinator;
  publishing : list Publishing;
  done : list (Z * ErrorCode);
  nextKey : Z;
  trace : list Event
}.

Definition NewWorld : World := MkWorld NewState 0 0 [] CoordNone [] [] 0 [].

(** The steps of the executor's own threads. *)
Inductive ThreadStep : World -> World -> Prop :=
| StepTake (s s' : State) (i o : Z) (j : list Z) (c : Coordinator) (p : list Publishing) (d : list (Z * ErrorCode)) (n : Z) (tr : list Event) (parents : Z -> bool) (now k : Z) :
    0 < i -> WorkerTake parents now s = (TakenTask k, s') -> ThreadStep (MkWorld s i o j c p d n tr) (MkWorld s' (i - 1) o (k :: j) c p d n (tr ++ [Started k]))
| StepWait (s s' : State) (i o : Z) (j : list Z) (c : Coordinator) (p : list Publishing) (d : list (Z * ErrorCode)) (n : Z) (tr : list Event) (parents : Z -> bool) (now : Z) :
    0 < i -> WorkerTake parents now s = (TakenWait, s') -> ThreadStep (MkWorld s i o j c p d n tr) (MkWorld s' i o j c p d n tr)
| StepWorkerExit (s : State) (i o : Z) (j : list Z) (c : Coordinator) (p : list Publishing) (d : list (Z * ErrorCode)) (n : Z) (tr : list Event) :
    0 < i -> stopping s = true -> ThreadStep (MkWorld s i o j c p d n tr) (MkWorld s (i - 1) (o + 1) j c p d n tr)
| StepDrop (s s' : State) (i o : Z) (j : list Z) (p : list Publishing) (d : list (Z * ErrorCode)) (n : Z) (tr : list Event) (parents : Z -> bool) (now : Z) (t : TaskState) :
    Coordinate parents now s = (CoordDrop t, s') ->
    ThreadStep (MkWorld s i o j CoordLoop p d n tr)
      (MkWorld s' i o j CoordPublishing (MkPub (key t) (retainedBytes (options t)) (cancelReason t) false ByCoordinator :: p) d n (tr ++ [Dropped (key t) (cancelReason t)]))
| StepSelect (s s' : State) (i o : Z) (j : list Z) (p : list Publishing) (d : list (Z * ErrorCode)) (n : Z) (tr : list Event) (parents : Z -> bool) (now : Z) (t : TaskState) :
    Coordinate parents now s = (CoordSignal t, s') -> ThreadStep (MkWorld s i o j CoordLoop p d n tr) (MkWorld s' i o j (CoordSignalling (key t)) p d n tr)
| StepSignal (s : State) (i o : Z) (j : list Z) (p : list Publishing) (d : list (Z * ErrorCode)) (n : Z) (tr : list Event) (k : Z) :
    ThreadStep (MkWorld s i o j (CoordSignalling k) p d n tr) (MkWorld s i o j CoordLoop p d n (tr ++ [Signalled k]))
| StepCoordinateWait (s s' : State) (i o : Z) (j : list Z) (p : list Publishing) (d : list (Z * ErrorCode)) (n : Z) (tr : list Event) (parents : Z -> bool) (now : Z) (next : option Z) :
    Coordinate parents now s = (CoordWait next, s') -> ThreadStep (MkWorld s i o j CoordLoop p d n tr) (MkWorld s' i o j CoordLoop p d n tr)
| StepCoordinateExit (s s' : State) (i o : Z) (j : list Z) (p : list Publishing) (d : list (Z * ErrorCode)) (n : Z) (tr : list Event) (parents : Z -> bool) (now : Z) :
    Coordinate parents now s = (CoordExit, s') -> ThreadStep (MkWorld s i o j CoordLoop p d n tr) (MkWorld s' i o j CoordOut p d n tr)
| StepAccount (s : State) (i o : Z) (j : list Z) (c : Coordinator) (l r : list Publishing) (d : list (Z * ErrorCode)) (n : Z) (tr : list Event) (k b : Z) (code : ErrorCode) (w : Owner) :
    ThreadStep (MkWorld s i o j c (l ++ MkPub k b code false w :: r) d n tr) (MkWorld (PublishAccount b s) i o j c (l ++ MkPub k b code true w :: r) d n tr)
| StepFinish (s : State) (i o : Z) (j : list Z) (c : Coordinator) (l r : list Publishing) (d : list (Z * ErrorCode)) (n : Z) (tr : list Event) (k b : Z) (code : ErrorCode) (w : Owner) :
    ThreadStep (MkWorld s i o j c (l ++ MkPub k b code true w :: r) d n tr)
      (MkWorld s (match w with ByWorker => i + 1 | ByCoordinator => i end) o j (match w with ByWorker => c | ByCoordinator => CoordLoop end) (l ++ r) (d ++ [(k, code)]) n (tr ++ [Finished k code])).

(** The steps of the callers and of the jobs.  [Start] may fail to make all its threads, and then stops what it has. *)
Inductive CallStep : World -> World -> Prop :=
| CallStart (s s' : State) (i o : Z) (j : list Z) (c : Coordinator) (p : list Publishing) (d : list (Z * ErrorCode)) (n : Z) (tr : list Event) (workers maxT maxB spawned : Z) (c' : Coordinator) :
    0 <= maxT -> 0 <= maxB -> 0 <= spawned <= workers -> c' = CoordLoop \/ (c' = CoordNone /\ spawned = 0) -> StartBegin workers maxT maxB s = (Status.Ok, s') ->
    CallStep (MkWorld s i o j c p d n tr) (MkWorld s' spawned o j c' p d n tr)
| CallReady (s : State) (i o : Z) (j : list Z) (c : Coordinator) (p : list Publishing) (d : list (Z * ErrorCode)) (n : Z) (tr : list Event) :
    started s = true -> ready s = false -> i + o = workerCount s -> c <> CoordNone -> CallStep (MkWorld s i o j c p d n tr) (MkWorld (StartReady s) i o j c p d n tr)
| CallSubmit (s s' : State) (i o : Z) (j : list Z) (c : Coordinator) (p : list Publishing) (d : list (Z * ErrorCode)) (n : Z) (tr : list Event) (opt : TaskOptions) (early : ErrorCode) (parents : Z -> bool) (now : Z) :
    0 <= retainedBytes opt -> early = ErrorCode_Ok \/ early = Cancelled \/ early = Timeout -> SubmitCommit n opt early parents now s = (Status.Ok, s') ->
    CallStep (MkWorld s i o j c p d n tr) (MkWorld s' i o j c p d (n + 1) (tr ++ [Submitted n]))
| CallCancel (s s' : State) (i o : Z) (j : list Z) (c : Coordinator) (p : list Publishing) (d : list (Z * ErrorCode)) (n : Z) (tr : list Event) (k now : Z) :
    Cancel k now s = (true, s') -> CallStep (MkWorld s i o j c p d n tr) (MkWorld s' i o j c p d n (tr ++ [CancelAccepted k]))
| CallRequestStop (s : State) (i o : Z) (j : list Z) (c : Coordinator) (p : list Publishing) (d : list (Z * ErrorCode)) (n : Z) (tr : list Event) (parents : Z -> bool) (now : Z) :
    CallStep (MkWorld s i o j c p d n tr) (MkWorld (RequestStop parents now s) i o j c p d n tr)
| CallJoined (s : State) (o : Z) (c : Coordinator) (d : list (Z * ErrorCode)) (n : Z) (tr : list Event) : c = CoordNone \/ c = CoordOut -> stopping s = true ->
    CallStep (MkWorld s 0 o [] c [] d n tr) (MkWorld (JoinEnd s) 0 o [] c [] d n tr)
| CallJobEnds (s s' : State) (i o : Z) (l r : list Z) (c : Coordinator) (p : list Publishing) (d : list (Z * ErrorCode)) (n : Z) (tr : list Event) (k : Z) (parents : Z -> bool) (now : Z) (t : TaskState) (result : ErrorCode) :
    WorkerFinish k parents now s = Some (t, s') ->
    CallStep (MkWorld s i o (l ++ k :: r) c p d n tr)
      (MkWorld s' i o (l ++ r) c (MkPub k (retainedBytes (options t)) (FinalCode t result) false ByWorker :: p) d n (tr ++ [Ended k (FinalCode t result)])).

Inductive Run : World -> Prop :=
| RunStart : Run NewWorld
| RunThread (w w' : World) : Run w -> ThreadStep w w' -> Run w'
| RunCall (w w' : World) : Run w -> CallStep w w' -> Run w'.

(** ** Waits and notifications *)

(** Whether the loop of a worker over the list calls [wake.notify_all]: it does for each cancelled task it passes by. *)
Fixpoint PickNotifies (parents : Z -> bool) (now : Z) (l : list TaskState) : bool :=
  match l with
  | [] => false
  | t :: l =>
      if negb (bool_decide (phase t = Queued)) then PickNotifies parents now l
      else negb (bool_decide (cancelReason (ObserveCancellation parents now t) = ErrorCode_Ok))
  end.

Definition WorkerNotifies (parents : Z -> bool) (now : Z) (s : State) : bool := negb (stopping s) && ready s && PickNotifies parents now (tasks s).

(** A world in which waiting threads sleep: how many of the workers at the head of their loop are in [wake.wait], whether the
    coordinator is, and how many threads have left a section after which they call [wake.notify_all] and have not called it yet. *)
Record Waits : Type := MkWaits { world : World; asleep : Z; coordAsleep : bool; notifying : Z }.

Definition NewWaits : Waits := MkWaits NewWorld 0 false 0.

Implicit Types (s : State) (i o n m a k b now : Z) (j : list Z) (c : Coordinator) (p : list Publishing) (d : list (Z * ErrorCode)) (tr : list Event) (ca : bool) (w : World) (t : TaskState)
  (code result : ErrorCode) (parents : Z -> bool).

(** The steps of the executor's own threads and of the jobs that run.  Only a thread that is awake moves; a notification wakes all
    that sleep.  A worker that has published is counted at the head of its loop before it has notified, which only adds
    interleavings to those of the code. *)
Inductive OwnStep : Waits -> Waits -> Prop :=
| OwnTake s s' i o j c p d n tr a ca m parents now k : 0 <= a < i -> WorkerTake parents now s = (TakenTask k, s') ->
    OwnStep (MkWaits (MkWorld s i o j c p d n tr) a ca m)
      (MkWaits (MkWorld s' (i - 1) o (k :: j) c p d n (tr ++ [Started k])) (if WorkerNotifies parents now s then 0 else a) (ca && negb (WorkerNotifies parents now s)) m)
| OwnWait s s' i o j c p d n tr a ca m parents now : 0 <= a < i -> WorkerTake parents now s = (TakenWait, s') ->
    OwnStep (MkWaits (MkWorld s i o j c p d n tr) a ca m)
      (MkWaits (MkWorld s' i o j c p d n tr) ((if WorkerNotifies parents now s then 0 else a) + 1) (ca && negb (WorkerNotifies parents now s)) m)
| OwnExit s i o j c p d n tr a ca m : 0 <= a < i -> stopping s = true ->
    OwnStep (MkWaits (MkWorld s i o j c p d n tr) a ca m) (MkWaits (MkWorld s (i - 1) (o + 1) j c p d n tr) a ca m)
| OwnDrop s s' i o j p d n tr a m parents now t : Coordinate parents now s = (CoordDrop t, s') ->
    OwnStep (MkWaits (MkWorld s i o j CoordLoop p d n tr) a false m)
      (MkWaits (MkWorld s' i o j CoordPublishing (MkPub (key t) (retainedBytes (options t)) (cancelReason t) false ByCoordinator :: p) d n (tr ++ [Dropped (key t) (cancelReason t)])) a false m)
| OwnSelect s s' i o j p d n tr a m parents now t : Coordinate parents now s = (CoordSignal t, s') ->
    OwnStep (MkWaits (MkWorld s i o j CoordLoop p d n tr) a false m) (MkWaits (MkWorld s' i o j (CoordSignalling (key t)) p d n tr) a false m)
| OwnSignal s i o j p d n tr a m k :
    OwnStep (MkWaits (MkWorld s i o j (CoordSignalling k) p d n tr) a false m) (MkWaits (MkWorld s i o j CoordLoop p d n (tr ++ [Signalled k])) a false m)
| OwnCoordinateWait s s' i o j p d n tr a m parents now (next : option Z) : Coordinate parents now s = (CoordWait next, s') ->
    OwnStep (MkWaits (MkWorld s i o j CoordLoop p d n tr) a false m) (MkWaits (MkWorld s' i o j CoordLoop p d n tr) a true m)
| OwnCoordinateExit s s' i o j p d n tr a m parents now : Coordinate parents now s = (CoordExit, s') ->
    OwnStep (MkWaits (MkWorld s i o j CoordLoop p d n tr) a false m) (MkWaits (MkWorld s' i o j CoordOut p d n tr) a false m)
| OwnAccount s i o j c (l r : list Publishing) d n tr a ca m k b code (w : Owner) :
    OwnStep (MkWaits (MkWorld s i o j c (l ++ MkPub k b code false w :: r) d n tr) a ca m) (MkWaits (MkWorld (PublishAccount b s) i o j c (l ++ MkPub k b code true w :: r) d n tr) a ca m)
| OwnFinish s i o j c (l r : list Publishing) d n tr a ca m k b code (w : Owner) :
    OwnStep (MkWaits (MkWorld s i o j c (l ++ MkPub k b code true w :: r) d n tr) a ca m)
      (MkWaits (MkWorld s (match w with ByWorker => i + 1 | ByCoordinator => i end) o j (match w with ByWorker => c | ByCoordinator => CoordLoop end) (l ++ r) (d ++ [(k, code)]) n
         (tr ++ [Finished k code])) a ca (m + 1))
| OwnJobEnds s s' i o (l r : list Z) c p d n tr a ca m k parents now t result : WorkerFinish k parents now s = Some (t, s') ->
    OwnStep (MkWaits (MkWorld s i o (l ++ k :: r) c p d n tr) a ca m)
      (MkWaits (MkWorld s' i o (l ++ r) c (MkPub k (retainedBytes (options t)) (FinalCode t result) false ByWorker :: p) d n (tr ++ [Ended k (FinalCode t result)])) a ca m)
| OwnNotify w a ca m : 0 < m -> OwnStep (MkWaits w a ca m) (MkWaits w 0 false (m - 1)).

(** The callers, and waits that end without a notification. *)
Inductive OutsideStep : Waits -> Waits -> Prop :=
| OutStart s s' i o j c p d n tr a ca m (workers maxT maxB spawned : Z) (c' : Coordinator) :
    0 <= maxT -> 0 <= maxB -> 0 <= spawned <= workers -> c' = CoordLoop \/ (c' = CoordNone /\ spawned = 0) -> StartBegin workers maxT maxB s = (Status.Ok, s') ->
    OutsideStep (MkWaits (MkWorld s i o j c p d n tr) a ca m) (MkWaits (MkWorld s' spawned o j c' p d n tr) 0 false m)
| OutReady s i o j c p d n tr a ca m : started s = true -> ready s = false -> i + o = workerCount s -> c <> CoordNone ->
    OutsideStep (MkWaits (MkWorld s i o j c p d n tr) a ca m) (MkWaits (MkWorld (StartReady s) i o j c p d n tr) a ca (m + 1))
| OutSubmit s s' i o j c p d n tr a ca m (opt : TaskOptions) (early : ErrorCode) parents now :
    0 <= retainedBytes opt -> early = ErrorCode_Ok \/ early = Cancelled \/ early = Timeout -> SubmitCommit n opt early parents now s = (Status.Ok, s') ->
    OutsideStep (MkWaits (MkWorld s i o j c p d n tr) a ca m) (MkWaits (MkWorld s' i o j c p d (n + 1) (tr ++ [Submitted n])) a ca (m + 1))
| OutCancel s s' i o j c p d n tr a ca m k now : Cancel k now s = (true, s') ->
    OutsideStep (MkWaits (MkWorld s i o j c p d n tr) a ca m) (MkWaits (MkWorld s' i o j c p d n (tr ++ [CancelAccepted k])) a ca (m + 1))
| OutRequestStop s i o j c p d n tr a ca m parents now :
    OutsideStep (MkWaits (MkWorld s i o j c p d n tr) a ca m) (MkWaits (MkWorld (RequestStop parents now s) i o j c p d n tr) a ca (m + 1))
| OutJoined s o c d n tr a ca m : c = CoordNone \/ c = CoordOut -> stopping s = true ->
    OutsideStep (MkWaits (MkWorld s 0 o [] c [] d n tr) a ca m) (MkWaits (MkWorld (JoinEnd s) 0 o [] c [] d n tr) a ca m)
| OutWakeWorker w a ca m : 0 < a -> OutsideStep (MkWaits w a ca m) (MkWaits w (a - 1) ca m)
| OutWakeCoordinator w a m : OutsideStep (MkWaits w a true m) (MkWaits w a false m).

Inductive Reach : Waits -> Prop :=
| ReachStart : Reach NewWaits
| ReachOwn (x y : Waits) : Reach x -> OwnStep x y -> Reach y
| ReachOutside (x y : Waits) : Reach x -> OutsideStep x y -> Reach y.

End TaskExecutor.
Import TaskExecutor.

(** ** The scans *)

Definition shape (t : TaskState) : Z * TaskOptions * TaskPhase := (key t, options t, phase t).

Lemma observe_shape (parents : Z -> bool) (now : Z) (t : TaskState) : shape (ObserveCancellation parents now t) = shape t /\ signalSent (ObserveCancellation parents now t) = signalSent t.
Proof. unfold ObserveCancellation. repeat case_if; done. Qed.

Lemma observe_reason (parents : Z -> bool) (now : Z) (t : TaskState) :
  (cancelReason t <> ErrorCode_Ok -> ObserveCancellation parents now t = t)
  /\ (cancelReason (ObserveCancellation parents now t) = ErrorCode_Ok -> ObserveCancellation parents now t = t /\ cancelReason t = ErrorCode_Ok).
Proof.
  unfold ObserveCancellation. case_bool_decide as E; cbn [negb]; [|done]. split; [done|]. do 2 (case_if; [done|]). done.
Qed.

Lemma shape_fields (a b : TaskState) : shape a = shape b -> key a = key b /\ options a = options b /\ phase a = phase b.
Proof. unfold shape. by intros [= -> -> ->]. Qed.

Lemma observe_fields (parents : Z -> bool) (now : Z) (t : TaskState) : key (ObserveCancellation parents now t) = key t /\ options (ObserveCancellation parents now t) = options t
  /\ phase (ObserveCancellation parents now t) = phase t.
Proof. apply shape_fields, observe_shape. Qed.

(** What a worker does to the tasks it passes by. *)
Definition passed (parents : Z -> bool) (now : Z) (t : TaskState) : TaskState := if bool_decide (phase t = Queued) then ObserveCancellation parents now t else t.

Lemma pick_spec (parents : Z -> bool) (now : Z) (l l' : list TaskState) (r : option Z) : Pick parents now l = (l', r) ->
  match r with
  | None => l' = map (passed parents now) l /\ Forall (fun t => phase t = Queued -> cancelReason t <> ErrorCode_Ok) l'
  | Some k => exists l1 t l2, l = l1 ++ t :: l2 /\ l' = map (passed parents now) l1 ++ set_phase Running t :: l2 /\ key t = k /\ phase t = Queued /\ cancelReason t = ErrorCode_Ok
      /\ Late now t = false /\ parents k = false /\ Forall (fun t => phase t = Queued -> cancelReason t <> ErrorCode_Ok) (map (passed parents now) l1)
  end.
Proof.
  revert l' r. induction l as [|t l IH]; intros l' r; cbn [Pick]; [by intros [= <- <-]|]. pose proof (observe_fields parents now t) as (F1 & F2 & F3).
  assert (Hstep : forall x, passed parents now t = x -> (phase x = Queued -> cancelReason x <> ErrorCode_Ok) -> (let '(l, r) := Pick parents now l in (x :: l, r)) = (l', r) ->
    match r with
    | None => l' = map (passed parents now) (t :: l) /\ Forall (fun t => phase t = Queued -> cancelReason t <> ErrorCode_Ok) l'
    | Some k => exists l1 t0 l2, t :: l = l1 ++ t0 :: l2 /\ l' = map (passed parents now) l1 ++ set_phase Running t0 :: l2 /\ key t0 = k /\ phase t0 = Queued /\ cancelReason t0 = ErrorCode_Ok
        /\ Late now t0 = false /\ parents k = false /\ Forall (fun t => phase t = Queued -> cancelReason t <> ErrorCode_Ok) (map (passed parents now) l1)
    end).
  { intros x Hx Hq. destruct (Pick parents now l) as [l1 r1] eqn:E. intros [= <- <-]. specialize (IH _ _ eq_refl). destruct r1 as [k|].
    - destruct IH as (m1 & t0 & m2 & -> & -> & R1 & R2 & R3 & R4 & R5 & R6). exists (t :: m1), t0, m2. cbn [app map]. rewrite Hx. split_and!; try done. by constructor.
    - destruct IH as [-> R]. cbn [map]. rewrite Hx. split; [done|]. by constructor. }
  case_bool_decide as Ep; cbn [negb]; [|intros H; apply (Hstep t); [unfold passed; by rewrite bool_decide_false|done|done]].
  cbn zeta. case_bool_decide as Ec; cbn [negb].
  - intros [= <- <-]. destruct (proj2 (observe_reason parents now t) Ec) as [Eo Er]. rewrite Eo in *. exists [], t, l. split_and!; try done.
    + unfold ObserveCancellation in Eo. rewrite bool_decide_true in Eo by done. cbn [negb] in Eo. destruct (Late now t); [|done]. rewrite <-Eo in Er. done.
    + unfold ObserveCancellation in Eo. rewrite bool_decide_true in Eo by done. cbn [negb] in Eo. destruct (Late now t); [rewrite <-Eo in Er; done|].
      destruct (parents (key t)); [rewrite <-Eo in Er|]; done.
  - intros H. apply (Hstep (ObserveCancellation parents now t)); [unfold passed; by rewrite bool_decide_true|done|done].
Qed.

Lemma coordinate_loop_spec (parents : Z -> bool) (now : Z) (l l' : list TaskState) (r : option (TaskState * bool)) (next next' : option Z) :
  CoordinateLoop parents now l next = (l', r, next') ->
  match r with
  | None => l' = map (ObserveCancellation parents now) l /\ Forall (fun t => cancelReason t <> ErrorCode_Ok -> signalSent t = true) l'
  | Some (t', queued) => exists l1 t l2, l = l1 ++ t :: l2 /\ t' = set_signal (ObserveCancellation parents now t) /\ queued = bool_decide (phase t = Queued)
      /\ l' = map (ObserveCancellation parents now) l1 ++ (if queued then set_phase Completing t' else t') :: l2
      /\ cancelReason t' <> ErrorCode_Ok /\ signalSent t = false
  end.
Proof.
  revert l' next. induction l as [|t l IH]; intros l' next; cbn [CoordinateLoop]; [by intros [= <- <- <-]|]. cbn zeta.
  pose proof (observe_fields parents now t) as (F1 & F2 & F3). pose proof (proj2 (observe_shape parents now t)) as F4.
  destruct (negb _ && negb _) eqn:E.
  - apply andb_true_iff in E as [E1%negb_true_iff E2%negb_true_iff]. apply bool_decide_eq_false in E1. intros [= <- <- <-]. exists [], t, l.
    cbn [set_signal phase cancelReason]. rewrite F3. split_and!; try done. by rewrite <-F4.
  - destruct (CoordinateLoop parents now l _) as [[l1 r1] n1] eqn:El. intros [= <- <- <-]. specialize (IH _ _ El). destruct r1 as [[t' q]|].
    + destruct IH as (m1 & t0 & m2 & -> & R1 & R2 & -> & R3). by exists (t :: m1), t0, m2.
    + destruct IH as [-> R]. split; [done|]. constructor; [|done]. intros Hr. rewrite bool_decide_false in E by done. by destruct (signalSent _).
Qed.

(** ** The account *)

Definition queued (l : list TaskState) : Z := fold_right (fun t n => (if bool_decide (phase t = Queued) then 1 else 0) + n) 0 l.
Definition task_bytes (l : list TaskState) : Z := fold_right (fun t n => retainedBytes (options t) + n) 0 l.
Definition in_jobs (l : list TaskState) : list Z := map key (filter (fun t => phase t = Running) l).
Definition pub_bytes (l : list Publishing) : Z := fold_right (fun p n => (if accounted p then 0 else pubBytes p) + n) 0 l.
Definition owned (w : Owner) (l : list Publishing) : Z :=
  fold_right (fun p n => (match w, owner p with ByWorker, ByWorker | ByCoordinator, ByCoordinator => 1 | _, _ => 0 end) + n) 0 l.

Lemma queued_app (a b : list TaskState) : queued (a ++ b) = queued a + queued b.
Proof. unfold queued. induction a as [|t a IH]; [done|]. cbn [app fold_right]. lia. Qed.
Lemma task_bytes_app (a b : list TaskState) : task_bytes (a ++ b) = task_bytes a + task_bytes b.
Proof. unfold task_bytes. induction a as [|t a IH]; [done|]. cbn [app fold_right]. lia. Qed.
Lemma in_jobs_app (a b : list TaskState) : in_jobs (a ++ b) = in_jobs a ++ in_jobs b.
Proof. unfold in_jobs. by rewrite filter_app, map_app. Qed.
Lemma in_jobs_cons (t : TaskState) (l : list TaskState) : in_jobs (t :: l) = (if bool_decide (phase t = Running) then [key t] else []) ++ in_jobs l.
Proof. unfold in_jobs. rewrite filter_cons. case_bool_decide; case_decide; done. Qed.
Lemma pub_bytes_app (a b : list Publishing) : pub_bytes (a ++ b) = pub_bytes a + pub_bytes b.
Proof. unfold pub_bytes. induction a as [|t a IH]; [done|]. cbn [app fold_right]. lia. Qed.
Lemma owned_app (w : Owner) (a b : list Publishing) : owned w (a ++ b) = owned w a + owned w b.
Proof. unfold owned. induction a as [|t a IH]; [done|]. cbn [app fold_right]. lia. Qed.
Lemma owned_nonneg (w : Owner) (l : list Publishing) : 0 <= owned w l.
Proof. unfold owned. induction l as [|p l IH]; [done|]. cbn [fold_right]. destruct w, (owner p); lia. Qed.

(** These are functions of the shapes. *)
Lemma shape_same (l l' : list TaskState) : map shape l' = map shape l ->
  map key l' = map key l /\ queued l' = queued l /\ task_bytes l' = task_bytes l /\ in_jobs l' = in_jobs l
  /\ map options l' = map options l /\ map phase l' = map phase l.
Proof.
  revert l'. induction l as [|t l IH]; intros [|t' l']; try done. cbn [map]. intros [= E1 E2 E3 E]. destruct (IH _ E) as (A1 & A2 & A3 & A4 & A5 & A6).
  cbn [queued task_bytes fold_right]. fold (queued l') (queued l) (task_bytes l') (task_bytes l). rewrite !in_jobs_cons, E1, E2, E3. split_and!; congruence.
Qed.

Definition all_keys (w : World) : list Z := map key (tasks (state w)) ++ map pubKey (publishing w) ++ map fst (done w).

Record account_ok (w : World) : Prop := MkAccountOk {
  a_keys : NoDup (all_keys w);
  a_fresh : Forall (fun k => k < nextKey w) (all_keys w);
  a_phase : Forall (fun p => p = Queued \/ p = Running) (map phase (tasks (state w)));
  a_pending : pending (state w) = queued (tasks (state w));
  a_jobs : jobs w ≡ₚ in_jobs (tasks (state w));
  a_running : running (state w) = len (jobs w);
  a_retained : retained (state w) = task_bytes (tasks (state w)) + pub_bytes (publishing w);
  a_limits : pending (state w) <= maxPendingTasks (state w) /\ retained (state w) <= maxRetainedBytes (state w);
  a_positive : Forall (fun o => 0 <= retainedBytes o) (map options (tasks (state w))) /\ Forall (fun p => 0 <= pubBytes p) (publishing w);
  a_threads : 0 <= idle w /\ 0 <= out w /\ idle w + out w + len (jobs w) + owned ByWorker (publishing w) <= workerCount (state w);
  a_coordinator : owned ByCoordinator (publishing w) = match coordinator w with CoordPublishing => 1 | _ => 0 end;
  a_unstarted : started (state w) = false -> tasks (state w) = [] /\ publishing w = [] /\ jobs w = [] /\ idle w = 0 /\ out w = 0 /\ ready (state w) = false /\ coordinator w = CoordNone
}.

(** The limits and the flags a step leaves alone. *)
Definition same_setup (s s' : State) : Prop :=
  workerCount s' = workerCount s /\ maxPendingTasks s' = maxPendingTasks s /\ maxRetainedBytes s' = maxRetainedBytes s /\ started s' = started s
  /\ (started s' = false -> ready s' = ready s).

(** A step that changes reasons and signals only, and perhaps moves the coordinator. *)
Lemma account_shapes (s s' : State) (i o : Z) (j : list Z) (c c' : Coordinator) (p : list Publishing) (d : list (Z * ErrorCode)) (n : Z) (tr tr' : list Event) :
  account_ok (MkWorld s i o j c p d n tr) -> same_setup s s' -> map shape (tasks s') = map shape (tasks s) -> pending s' = pending s -> running s' = running s ->
  retained s' = retained s -> (c' = c \/ (c <> CoordPublishing /\ c' <> CoordPublishing /\ c <> CoordNone)) -> account_ok (MkWorld s' i o j c' p d n tr').
Proof.
  intros [H1 H2 H3 H4 H5 H6 H7 H8 H9 H10 H11 H12] (S1 & S2 & S3 & S4 & S5) Hs P1 P2 P3 Hc. destruct (shape_same _ _ Hs) as (K1 & K2 & K3 & K4 & K5 & K6).
  unfold all_keys in *. cbn [state idle out jobs coordinator publishing done nextKey] in *.
  constructor; unfold all_keys; cbn [state idle out jobs coordinator publishing done nextKey]; rewrite ?K1, ?K2, ?K3, ?K4, ?K5, ?K6, ?P1, ?P2, ?P3, ?S1, ?S2, ?S3; try done.
  - destruct Hc as [->|(C1 & C2 & _)]; [done|]. rewrite H11. destruct c, c'; done.
  - intros Hst. rewrite S4 in Hst. destruct (H12 Hst) as (U1 & U2 & U3 & U4 & U5 & U6 & U7). split_and!; try done.
    + rewrite U1 in K1. by destruct (tasks s').
    + rewrite S5; [done|by rewrite S4].
    + destruct Hc as [->|(_ & _ & C3)]; [done|]. by destruct C3.
Qed.

Lemma observed_shapes (f : TaskState -> TaskState) (l : list TaskState) : (forall t, shape (f t) = shape t) -> map shape (map f l) = map shape l.
Proof. intros H. rewrite map_map. by apply map_ext. Qed.

Lemma passed_shape (parents : Z -> bool) (now : Z) (t : TaskState) : shape (passed parents now t) = shape t.
Proof. unfold passed. case_if; [apply observe_shape|done]. Qed.

Lemma remove_middle (l1 l2 : list TaskState) (x : TaskState) : NoDup (map key (l1 ++ x :: l2)) -> remove_task (key x) (l1 ++ x :: l2) = l1 ++ l2.
Proof.
  intros Hn. assert (Hid : forall l, key x ∉ map key l -> remove_task (key x) l = l).
  { induction l as [|t l IH]; [done|]. cbn [map]. intros [H1 H2]%not_elem_of_cons. unfold remove_task in *. rewrite filter_cons_True by done. by rewrite IH. }
  rewrite map_app in Hn. cbn [map] in Hn. apply NoDup_app in Hn as (_ & Hd & [Hn _]%NoDup_cons). unfold remove_task in *.
  rewrite filter_app, filter_cons_False by tauto. rewrite !Hid; [done|done|]. intros Hk. apply (Hd _ Hk). by left.
Qed.

Lemma keys_swap (a b p : list Z) (k : Z) : a ++ k :: b ++ p ≡ₚ a ++ b ++ k :: p.
Proof. apply Permutation_app_head. apply (Permutation_middle b p k). Qed.

(** A task leaves the list and is to be published. *)
Lemma account_leave (s s' : State) (i o : Z) (j j' : list Z) (c c' : Coordinator) (p : list Publishing) (d : list (Z * ErrorCode)) (n : Z) (tr tr' : list Event)
  (l1 l2 m1 : list TaskState) (t : TaskState) (code : ErrorCode) (ow : Owner) :
  account_ok (MkWorld s i o j c p d n tr) -> same_setup s s' -> tasks s = l1 ++ t :: l2 -> tasks s' = m1 ++ l2 -> map shape m1 = map shape l1 -> retained s' = retained s ->
  match ow with
  | ByCoordinator => phase t = Queued /\ c = CoordLoop /\ c' = CoordPublishing /\ pending s' = pending s - 1 /\ running s' = running s /\ j' = j
  | ByWorker => phase t = Running /\ c' = c /\ pending s' = pending s /\ running s' = running s - 1 /\ exists a b, j = a ++ key t :: b /\ j' = a ++ b
  end ->
  account_ok (MkWorld s' i o j' c' (MkPub (key t) (retainedBytes (options t)) code false ow :: p) d n tr').
Proof.
  intros [H1 H2 H3 H4 H5 H6 H7 H8 H9 H10 H11 H12] (S1 & S2 & S3 & S4 & S5) El El' Em Er Ho. unfold all_keys in *. cbn [state idle out jobs coordinator publishing done nextKey] in *.
  destruct (shape_same _ _ Em) as (K1 & K2 & K3 & K4 & K5 & K6).
  assert (Hp : all_keys (MkWorld s' i o j' c' (MkPub (key t) (retainedBytes (options t)) code false ow :: p) d n tr') ≡ₚ map key (tasks s) ++ map pubKey p ++ map fst d).
  { unfold all_keys. cbn [state publishing done map pubKey]. rewrite El, El', !map_app. cbn [map]. rewrite K1, <-!(assoc_L app). cbn [app]. symmetry. apply keys_swap. }
  rewrite El, map_app in H3. cbn [map] in H3. apply Forall_app in H3 as [Q1 Q2]. inversion Q2 as [|? ? Q3 Q4]; subst.
  rewrite El, queued_app in H4. rewrite El, in_jobs_app, in_jobs_cons in H5. rewrite El, task_bytes_app in H7. cbn [queued task_bytes fold_right] in H4, H7. fold (queued l2) in H4. fold (task_bytes l2) in H7.
  destruct H9 as [G1 G2]. rewrite El, map_app in G1. cbn [map] in G1. apply Forall_app in G1 as [G3 G4]. inversion G4 as [|? ? G5 G6]; subst.
  constructor; rewrite ?Hp; try done; cbn [state idle out jobs coordinator publishing done nextKey]; rewrite ?El', ?map_app, ?K5, ?K6, ?queued_app, ?in_jobs_app, ?task_bytes_app, ?K2, ?K3, ?K4, ?S1, ?S2, ?S3, ?Er.
  - by apply Forall_app.
  - destruct ow as [|]; destruct Ho as (P & Ho); rewrite P in H4; [rewrite bool_decide_false in H4 by done|rewrite bool_decide_true in H4 by done]; destruct_and?; lia.
  - destruct ow as [|]; destruct Ho as (P & Ho); rewrite P in H5.
    + rewrite bool_decide_true in H5 by done. destruct Ho as (_ & _ & _ & a & b & -> & ->). cbn [app] in H5. rewrite <-!Permutation_middle in H5. by apply Permutation_cons_inv in H5.
    + rewrite bool_decide_false in H5 by done. by destruct Ho as (_ & _ & _ & _ & ->).
  - destruct ow as [|]; destruct Ho as (P & Ho); [destruct Ho as (_ & _ & E & a & b & -> & ->)|destruct Ho as (_ & _ & _ & -> & ->); done].
    rewrite E, H6. rewrite !len_app. unfold len. cbn [length]. lia.
  - cbn [pub_bytes fold_right accounted pubBytes]. fold (pub_bytes p). lia.
  - destruct ow; destruct_and?; lia.
  - split; [by apply Forall_app|]. by constructor.
  - cbn [owned fold_right owner]. fold (owned ByWorker p). destruct ow as [|]; destruct Ho as (P & Ho); [destruct Ho as (_ & _ & E & a & b & -> & ->)|destruct Ho as (_ & _ & _ & _ & ->); lia].
    rewrite !len_app in *. unfold len in *. cbn [length] in *. lia.
  - cbn [owned fold_right owner]. fold (owned ByCoordinator p). destruct ow as [|]; destruct Ho as (P & Ho); destruct Ho as (C1 & C2 & Ho); subst; rewrite H11; done.
  - intros Hst. rewrite S4 in Hst. destruct (H12 Hst) as (U1 & _). rewrite U1 in El. by destruct l1.
Qed.

(** A worker takes the first task it may. *)
Lemma account_take (s s' : State) (i o : Z) (j : list Z) (c : Coordinator) (p : list Publishing) (d : list (Z * ErrorCode)) (n : Z) (tr tr' : list Event) (parents : Z -> bool) (now k : Z) :
  account_ok (MkWorld s i o j c p d n tr) -> 0 < i -> WorkerTake parents now s = (TakenTask k, s') -> account_ok (MkWorld s' (i - 1) o (k :: j) c p d n tr').
Proof.
  intros [H1 H2 H3 H4 H5 H6 H7 H8 H9 H10 H11 H12] Hi Ht. unfold WorkerTake in Ht. destruct (stopping s); [done|]. destruct (ready s); [|done].
  destruct (Pick parents now (tasks s)) as [l [k'|]] eqn:Ep; [|done]. injection Ht as -> <-. apply pick_spec in Ep as (l1 & t & l2 & El & -> & <- & Pt & _).
  destruct (shape_same _ _ (observed_shapes _ l1 (passed_shape parents now))) as (K1 & K2 & K3 & K4 & K5 & K6). unfold all_keys in *. cbn [state idle out jobs coordinator publishing done nextKey] in *.
  rewrite El, ?map_app, ?queued_app, ?task_bytes_app, ?in_jobs_app, ?in_jobs_cons in *. cbn [map queued task_bytes fold_right] in *. rewrite Pt in *.
  constructor; unfold all_keys; cbn [state idle out jobs coordinator publishing done nextKey set_tasks tasks pending running retained workerCount maxPendingTasks maxRetainedBytes started ready];
    rewrite ?map_app, ?queued_app, ?task_bytes_app, ?in_jobs_app, ?in_jobs_cons; cbn [map queued task_bytes fold_right set_phase key options phase];
    rewrite ?K1, ?K2, ?K3, ?K4, ?K5, ?K6; try done.
  - apply Forall_app in H3 as [Q1 Q2]. inversion Q2; subst. apply Forall_app. split; [done|]. constructor; [by right|done].
  - rewrite bool_decide_true in H4 by done. fold (queued l2) in *. rewrite bool_decide_false by done. lia.
  - rewrite bool_decide_false in H5 by done. cbn [app] in H5. rewrite bool_decide_true by done. cbn [app]. rewrite H5. apply Permutation_middle.
  - unfold len in *. cbn [length]. lia.
  - lia.
  - unfold len in *. cbn [length]. lia.
  - intros Hst. destruct (H12 Hst) as (U & _). by destruct l1.
Qed.

(** A task is admitted. *)
Lemma account_submit (s s' : State) (i o : Z) (j : list Z) (c : Coordinator) (p : list Publishing) (d : list (Z * ErrorCode)) (n : Z) (tr tr' : list Event) (opt : TaskOptions) (early : ErrorCode)
  (parents : Z -> bool) (now : Z) : account_ok (MkWorld s i o j c p d n tr) -> 0 <= retainedBytes opt -> SubmitCommit n opt early parents now s = (Status.Ok, s') ->
  account_ok (MkWorld s' i o j c p d (n + 1) tr').
Proof.
  intros [H1 H2 H3 H4 H5 H6 H7 H8 H9 H10 H11 H12] Hb Hs. unfold SubmitCommit in Hs. destruct (negb (ready s) || stopping s) eqn:E1; [done|]. destruct (_ || _) eqn:E2 in Hs; [done|].
  injection Hs as <-. apply orb_false_iff in E1 as [E1%negb_false_iff _]. apply orb_false_iff in E2 as [E2%Z.leb_gt E3%Z.ltb_ge].
  destruct (observe_fields parents now (MkTask n opt Queued early false)) as (F1 & F2 & F3). cbn [key options phase] in F1, F2, F3.
  unfold all_keys in *. cbn [state idle out jobs coordinator publishing done nextKey] in *.
  assert (Hp : (map key (tasks s) ++ [n]) ++ map pubKey p ++ map fst d ≡ₚ n :: map key (tasks s) ++ map pubKey p ++ map fst d).
  { rewrite <-(assoc_L app). cbn [app]. symmetry. apply Permutation_middle. }
  constructor; unfold all_keys; cbn [state idle out jobs coordinator publishing done nextKey tasks pending running retained workerCount maxPendingTasks maxRetainedBytes started ready];
    rewrite ?map_app, ?queued_app, ?task_bytes_app, ?in_jobs_app, ?in_jobs_cons; cbn [map queued task_bytes fold_right]; rewrite ?F1, ?F2, ?F3, ?Hp; try done.
  - apply NoDup_cons. split; [|done]. intros Hin. rewrite Forall_forall in H2. specialize (H2 _ Hin). lia.
  - constructor; [lia|]. eapply Forall_impl; [exact H2|]. cbn. intros. lia.
  - apply Forall_app. split; [done|]. constructor; [by left|done].
  - rewrite bool_decide_true by done. lia.
  - rewrite bool_decide_false by done. cbn [app in_jobs filter]. by rewrite app_nil_r.
  - lia.
  - lia.
  - destruct H9. split; [|done]. apply Forall_app. split; [done|]. by constructor.
  - intros Hst. destruct (H12 Hst) as (_ & _ & _ & _ & _ & U & _). congruence.
Qed.

(** The two sections that publish a task. *)
Lemma account_publish (s : State) (i o : Z) (j : list Z) (c : Coordinator) (l r : list Publishing) (d : list (Z * ErrorCode)) (n : Z) (tr tr' : list Event) (k b : Z) (code : ErrorCode) (w : Owner) :
  account_ok (MkWorld s i o j c (l ++ MkPub k b code false w :: r) d n tr) -> account_ok (MkWorld (PublishAccount b s) i o j c (l ++ MkPub k b code true w :: r) d n tr').
Proof.
  intros [H1 H2 H3 H4 H5 H6 H7 H8 H9 H10 H11 H12]. unfold all_keys in *. cbn [state idle out jobs coordinator publishing done nextKey] in *.
  rewrite ?map_app, ?pub_bytes_app, ?owned_app in *. cbn [map pubKey pub_bytes owned fold_right accounted pubBytes owner] in *. fold (pub_bytes r) in *.
  assert (0 <= b). { destruct H9 as [_ G]. apply Forall_app in G as [_ G]. by inversion G. }
  constructor; unfold all_keys; cbn [state idle out jobs coordinator publishing done nextKey PublishAccount set_retained tasks pending running retained workerCount maxPendingTasks maxRetainedBytes started ready];
    rewrite ?map_app, ?pub_bytes_app, ?owned_app; cbn [map pubKey pub_bytes owned fold_right accounted pubBytes owner]; try done.
  - fold (pub_bytes r). lia.
  - lia.
  - destruct H9 as [G1 G2]. split; [done|]. apply Forall_app in G2 as [G2 G3]. inversion G3. apply Forall_app. split; [done|]. by constructor.
  - intros Hst. destruct (H12 Hst) as (_ & U & _). by destruct l.
Qed.

Lemma account_finish (s : State) (i o : Z) (j : list Z) (c : Coordinator) (l r : list Publishing) (d : list (Z * ErrorCode)) (n : Z) (tr tr' : list Event) (k b : Z) (code : ErrorCode) (w : Owner) :
  account_ok (MkWorld s i o j c (l ++ MkPub k b code true w :: r) d n tr) ->
  account_ok (MkWorld s (match w with ByWorker => i + 1 | ByCoordinator => i end) o j (match w with ByWorker => c | ByCoordinator => CoordLoop end) (l ++ r) (d ++ [(k, code)]) n tr').
Proof.
  intros [H1 H2 H3 H4 H5 H6 H7 H8 H9 H10 H11 H12]. unfold all_keys in *. cbn [state idle out jobs coordinator publishing done nextKey] in *.
  rewrite ?map_app, ?pub_bytes_app, ?owned_app in *. cbn [map pubKey] in *.
  assert (Hp : map key (tasks s) ++ (map pubKey l ++ map pubKey r) ++ map fst d ++ [k] ≡ₚ map key (tasks s) ++ (map pubKey l ++ k :: map pubKey r) ++ map fst d).
  { apply Permutation_app_head. rewrite (Permutation_app_comm (map fst d) [k]). cbn [app]. rewrite <-!Permutation_middle. cbn [app]. done. }
  pose proof (owned_nonneg ByCoordinator l). pose proof (owned_nonneg ByCoordinator r).
  constructor; unfold all_keys; cbn [state idle out jobs coordinator publishing done nextKey]; rewrite ?map_app; cbn [map fst]; rewrite ?Hp, ?pub_bytes_app, ?owned_app; try done.
  - destruct H9 as [G1 G2]. split; [done|]. apply Forall_app in G2 as [G2 G3]. inversion G3. by apply Forall_app.
  - cbn [owned fold_right owner] in H10. destruct w; fold (owned ByWorker r) in H10; lia.
  - cbn [owned fold_right owner] in H11. fold (owned ByCoordinator r) in H11. destruct w; [lia|]. destruct c; lia.
  - intros Hst. destruct (H12 Hst) as (_ & U & _). by destruct l.
Qed.

Lemma find_task_split (k : Z) (l : list TaskState) (t : TaskState) : find_task k l = Some t -> exists l1 l2, l = l1 ++ t :: l2 /\ key t = k.
Proof.
  induction l as [|u l IH]; [done|]. cbn [find_task find]. destruct (Z.eqb_spec (key u) k) as [E|E].
  - intros [= ->]. by exists [], l.
  - intros H. destruct (IH H) as (l1 & l2 & -> & Hk). by exists (u :: l1), l2.
Qed.

Lemma running_task (l1 l2 : list TaskState) (t : TaskState) : NoDup (map key (l1 ++ t :: l2)) -> key t ∈ in_jobs (l1 ++ t :: l2) -> phase t = Running.
Proof.
  intros Hn Hin. unfold in_jobs in Hin. apply list_elem_of_fmap in Hin as (u & Hk & [Hr Hu]%list_elem_of_filter).
  rewrite map_app in Hn. cbn [map] in Hn. apply NoDup_app in Hn as (_ & Hd & [Hn _]%NoDup_cons).
  apply elem_of_app in Hu as [Hu|Hu].
  - exfalso. apply (Hd (key t)); [|by left]. rewrite Hk. by apply list_elem_of_fmap_2.
  - apply elem_of_cons in Hu as [->|Hu]; [done|]. exfalso. apply Hn. rewrite Hk. by apply list_elem_of_fmap_2.
Qed.

Lemma same_setup_tasks (s : State) (l : list TaskState) (a b : Z) : same_setup s (set_tasks l a b s).
Proof. done. Qed.

Lemma stop_task_shape (parents : Z -> bool) (now : Z) (t : TaskState) : shape (StopTask parents now t) = shape t.
Proof. unfold StopTask. cbn zeta. case_if; [|apply observe_shape]. transitivity (shape (ObserveCancellation parents now t)); [done|apply observe_shape]. Qed.

Lemma update_shape (k : Z) (f : TaskState -> TaskState) (l : list TaskState) : (forall t, shape (f t) = shape t) -> map shape (update_task k f l) = map shape l.
Proof. intros H. apply observed_shapes. intros t. by case_if. Qed.

(** What each step of the coordinator does to the list. *)
Lemma coordinate_cases (parents : Z -> bool) (now : Z) (s s' : State) (r : Coordinated) : Coordinate parents now s = (r, s') -> NoDup (map key (tasks s)) ->
  match r with
  | CoordDrop t' => exists l1 t l2, tasks s = l1 ++ t :: l2 /\ phase t = Queued /\ t' = set_signal (ObserveCancellation parents now t) /\ cancelReason t' <> ErrorCode_Ok
      /\ s' = set_tasks (map (ObserveCancellation parents now) l1 ++ l2) (pending s - 1) (running s) s
  | CoordSignal t' => exists l1 t l2, tasks s = l1 ++ t :: l2 /\ phase t <> Queued /\ t' = set_signal (ObserveCancellation parents now t) /\ cancelReason t' <> ErrorCode_Ok
      /\ signalSent t = false /\ s' = set_tasks (map (ObserveCancellation parents now) l1 ++ t' :: l2) (pending s) (running s) s
  | CoordExit => stopping s = true /\ tasks s = [] /\ s' = set_tasks [] (pending s) (running s) s
  | CoordWait _ => s' = set_tasks (map (ObserveCancellation parents now) (tasks s)) (pending s) (running s) s
      /\ Forall (fun t => cancelReason t <> ErrorCode_Ok -> signalSent t = true) (tasks s') /\ (stopping s = true -> tasks s' <> [])
  end.
Proof.
  intros Hc Hn. unfold Coordinate in Hc. destruct (CoordinateLoop parents now (tasks s) None) as [[l r'] next] eqn:E. apply coordinate_loop_spec in E. destruct r' as [[t' q]|].
  - destruct E as (l1 & t & l2 & El & -> & Hq & -> & Hr & Hs). destruct (observe_fields parents now t) as (F1 & F2 & F3). case_bool_decide as Eq; subst q; injection Hc as <- <-; exists l1, t, l2; split_and!; try done.
    f_equal. rewrite El in Hn. destruct (shape_same _ _ (observed_shapes _ l1 (fun t => proj1 (observe_shape parents now t)))) as (K1 & _).
    apply (remove_middle (map (ObserveCancellation parents now) l1) l2 (set_phase Completing (set_signal (ObserveCancellation parents now t)))).
    rewrite map_app in *. cbn [map set_phase set_signal key] in *. by rewrite K1, F1.
  - destruct E as [-> Hf]. cbn [set_tasks stopping tasks] in Hc. destruct (stopping s && _) eqn:Ex; injection Hc as <- <-.
    + apply andb_true_iff in Ex as [Ex1 Ex2%Z.eqb_eq]. destruct (tasks s) as [|t l]; [done|]. unfold len in Ex2. cbn [map length] in Ex2. lia.
    + cbn [set_tasks tasks]. split_and!; try done. intros Hst E0. rewrite Hst, E0 in Ex. done.
Qed.

Lemma worker_wait (parents : Z -> bool) (now : Z) (s s' : State) : WorkerTake parents now s = (TakenWait, s') ->
  s' = s \/ s' = set_tasks (map (passed parents now) (tasks s)) (pending s) (running s) s.
Proof.
  unfold WorkerTake. destruct (stopping s); [done|]. destruct (ready s); [|intros [= <-]; by left].
  destruct (Pick parents now (tasks s)) as [l [k|]] eqn:E; [done|]. intros [= <-]. apply pick_spec in E as [-> _]. by right.
Qed.

Lemma task_keys_nodup (w : World) : account_ok w -> NoDup (map key (tasks (state w))).
Proof. intros H. pose proof (a_keys _ H) as Hk. unfold all_keys in Hk. by apply NoDup_app in Hk as (Hk & _). Qed.

Lemma account_thread (w w' : World) : ThreadStep w w' -> account_ok w -> account_ok w'.
Proof.
  intros Hs Hok. pose proof (task_keys_nodup _ Hok) as Hn. destruct Hs; cbn [state] in Hn.
  - by eapply account_take.
  - destruct (worker_wait _ _ _ _ H0) as [->| ->]; [done|]. eapply account_shapes; [done|done| |done|done|done|by left]. apply observed_shapes, passed_shape.
  - destruct Hok as [H1 H2 H3 H4 H5 H6 H7 H8 H9 H10 H11 H12]. constructor; try done; cbn [state idle out jobs publishing coordinator] in *; [lia|].
    intros Hst. destruct (H12 Hst) as (_ & _ & _ & U & _). lia.
  - apply coordinate_cases in H; [|done]. destruct H as (l1 & u & l2 & El & Hq & -> & Hr & ->). destruct (observe_fields parents now u) as (F1 & F2 & F3). cbn [set_signal key options]. rewrite F1, F2.
    eapply (account_leave _ _ _ _ _ _ _ _ _ _ _ _ _ l1 l2 (map (ObserveCancellation parents now) l1) u _ ByCoordinator); try done. apply observed_shapes. intros. apply observe_shape.
  - apply coordinate_cases in H; [|done]. destruct H as (l1 & u & l2 & El & Hq & -> & Hr & Hsg & ->). eapply account_shapes; [done|done| |done|done|done|right; done].
    cbn [set_tasks tasks]. rewrite El, !(map_app shape). cbn [map].
    rewrite observed_shapes by (intros; apply observe_shape). do 2 f_equal. transitivity (shape (ObserveCancellation parents now u)); [done|apply observe_shape].
  - eapply account_shapes; try done. by right.
  - apply coordinate_cases in H; [|done]. destruct H as (-> & _). eapply account_shapes; [done|done| |done|done|done|by left]. apply observed_shapes. intros. apply observe_shape.
  - apply coordinate_cases in H; [|done]. destruct H as (_ & El & ->). eapply account_shapes; [done|done| |done|done|done|by right]. cbn. by rewrite El.
  - by eapply account_publish.
  - by eapply account_finish.
Qed.

Lemma task_call_account (w w' : World) : CallStep w w' -> account_ok w -> account_ok w'.
Proof.
  intros Hs Hok. pose proof (task_keys_nodup _ Hok) as Hn. destruct Hs; cbn [state] in Hn.
  - unfold StartBegin in *. destruct (_ || _) eqn:E0 in H3; [done|]. destruct (started s) eqn:Es; [done|]. destruct (stopping s); [done|]. cbn [orb] in H3. injection H3 as <-.
    destruct Hok as [A1 A2 A3 A4 A5 A6 A7 A8 A9 A10 A11 A12]. destruct (A12 Es) as (U1 & U2 & U3 & U4 & U5 & U6 & U7). unfold all_keys in *.
    cbn [state idle out jobs publishing coordinator done nextKey] in *. subst. rewrite U1 in *. cbn [owned pub_bytes fold_right queued task_bytes in_jobs map] in *.
    constructor; unfold all_keys; cbn [state idle out jobs publishing coordinator done nextKey tasks pending running retained workerCount maxPendingTasks maxRetainedBytes started]; rewrite ?U1; try done.
    + rewrite A4, A7. cbn. lia.
    + change (len (@nil Z)) with 0. cbn [owned fold_right]. lia.
    + cbn. by destruct H2 as [->|[-> _]].
  - eapply account_shapes; try done; [|by left]. split_and!; try done. cbn. intros Hf. congruence.
  - by eapply account_submit.
  - unfold Cancel in H. destruct (find_task k (tasks s)) as [t|]; [|done]. destruct (_ || _) in H; [done|]. injection H as <-. eapply account_shapes; [done|done| |done|done|done|by left].
    by apply update_shape.
  - eapply account_shapes; [done|done| |done|done|done|by left]. apply observed_shapes, stop_task_shape.
  - eapply account_shapes; try done. by left.
  - unfold WorkerFinish in H. destruct (find_task k (tasks s)) as [u|] eqn:Ef; [|done]. injection H as <- <-. destruct (find_task_split _ _ _ Ef) as (l1 & l2 & El & <-).
    destruct (observe_fields parents now u) as (F1 & F2 & F3). rewrite F2.
    eapply (account_leave _ _ _ _ _ _ _ _ _ _ _ _ _ l1 l2 l1 u _ ByWorker); try done.
    + cbn [set_tasks tasks]. rewrite El in *. by apply remove_middle.
    + split_and!; try done; [|by exists l, r]. rewrite El in Hn. eapply running_task; [exact Hn|]. pose proof (a_jobs _ Hok) as Hj. cbn [jobs state] in Hj. rewrite <-El, <-Hj. set_solver.
Qed.

Lemma run_account (w : World) : Run w -> account_ok w.
Proof.
  induction 1; [|by eapply account_thread|by eapply task_call_account]. constructor; try done; cbn; try (constructor || lia). all: by repeat constructor.
Qed.

(** ** The life of a task *)

Inductive Life : Type := Fresh | Waiting (cancelled : bool) | Active (cancelled : bool) | Over (code : ErrorCode) | Gone (code : ErrorCode).

#[global] Instance Life_eq_dec : EqDecision Life.
Proof. solve_decision. Defined.

Definition is_cancel (code : ErrorCode) : bool := bool_decide (code = Cancelled) || bool_decide (code = Timeout).

Definition event_key (e : Event) : Z :=
  match e with Submitted k | CancelAccepted k | Started k | Signalled k | Ended k _ | Dropped k _ | Finished k _ => k end.

(** What may happen to a task next: a cancelled task never starts, and never ends with a code other than the two of a cancellation. *)
Definition advance (k : Z) (l : option Life) (e : Event) : option Life :=
  match l with
  | None => None
  | Some l =>
      if negb (event_key e =? k) then Some l
      else
        match l, e with
        | Fresh, Submitted _ => Some (Waiting false)
        | Waiting false, CancelAccepted _ => Some (Waiting true)
        | Waiting false, Started _ => Some (Active false)
        | Waiting _, Dropped _ code => if is_cancel code then Some (Over code) else None
        | Active false, CancelAccepted _ => Some (Active true)
        | Active c, Ended _ code => if negb c || is_cancel code then Some (Over code) else None
        | Over code, Finished _ code' => if bool_decide (code = code') then Some (Gone code) else None
        | (Active _ | Over _ | Gone _), Signalled _ => Some l
        | _, _ => None
        end
  end.

Definition life (k : Z) (tr : list Event) : option Life := fold_left (advance k) tr (Some Fresh).

Lemma life_snoc (k : Z) (tr : list Event) (e : Event) : life k (tr ++ [e]) = advance k (life k tr) e.
Proof. unfold life. by rewrite fold_left_app. Qed.

(** Where a world holds a task at each point of its life. *)
Definition fits (k : Z) (w : World) (l : Life) : Prop :=
  match l with
  | Fresh => k ∉ all_keys w
  | Waiting c => exists t, t ∈ tasks (state w) /\ key t = k /\ phase t = Queued /\ (c = true -> cancelReason t <> ErrorCode_Ok)
  | Active c => exists t, t ∈ tasks (state w) /\ key t = k /\ phase t = Running /\ (c = true -> cancelReason t <> ErrorCode_Ok)
  | Over code => exists p, p ∈ publishing w /\ pubKey p = k /\ pubCode p = code
  | Gone code => (k, code) ∈ done w
  end.

Definition steady (f : TaskState -> TaskState) (t : TaskState) : Prop := shape (f t) = shape t /\ (cancelReason t <> ErrorCode_Ok -> cancelReason (f t) = cancelReason t).

Lemma observe_steady (parents : Z -> bool) (now : Z) (t : TaskState) : steady (ObserveCancellation parents now) t.
Proof. split; [apply observe_shape|]. intros H. by rewrite (proj1 (observe_reason parents now t) H). Qed.
Lemma passed_steady (parents : Z -> bool) (now : Z) (t : TaskState) : steady (passed parents now) t.
Proof. split; [apply passed_shape|]. unfold passed. case_if; [apply observe_steady|done]. Qed.
Lemma stop_steady (parents : Z -> bool) (now : Z) (t : TaskState) : steady (StopTask parents now) t.
Proof.
  split; [apply stop_task_shape|]. intros H. unfold StopTask. cbn zeta. rewrite (proj1 (observe_reason parents now t) H). by rewrite bool_decide_false.
Qed.

(** The tasks of a key are still there. *)
Definition kept (k : Z) (l l' : list TaskState) : Prop :=
  forall t, t ∈ l -> key t = k -> exists t', t' ∈ l' /\ shape t' = shape t /\ (cancelReason t <> ErrorCode_Ok -> cancelReason t' = cancelReason t).

Lemma kept_refl (k : Z) (l : list TaskState) : kept k l l.
Proof. intros t Ht _. by exists t. Qed.
Lemma kept_map (k : Z) (f : TaskState -> TaskState) (l : list TaskState) : (forall t, t ∈ l -> key t = k -> steady f t) -> kept k l (map f l).
Proof. intros H t Ht Hk. exists (f t). split; [by apply list_elem_of_fmap_2|]. by apply H. Qed.
Lemma kept_middle (k : Z) (l1 m1 l2 : list TaskState) (t : TaskState) (o : list TaskState) : key t <> k -> kept k l1 m1 -> kept k (l1 ++ t :: l2) (m1 ++ o ++ l2).
Proof.
  intros Hk H1 u [Hu|[->|Hu]%elem_of_cons]%elem_of_app Ek; [|done|].
  - destruct (H1 u Hu Ek) as (u' & Hu' & R). exists u'. split; [set_solver|done].
  - exists u. split; [set_solver|done].
Qed.

(** A step that leaves a key alone. *)
Lemma fits_other (k : Z) (w w' : World) (l : Life) : fits k w l -> kept k (tasks (state w)) (tasks (state w')) ->
  (forall p, p ∈ publishing w -> pubKey p = k -> exists p', p' ∈ publishing w' /\ pubKey p' = k /\ pubCode p' = pubCode p) ->
  (forall code, (k, code) ∈ done w -> (k, code) ∈ done w') -> (k ∈ all_keys w' -> k ∈ all_keys w) -> fits k w' l.
Proof.
  intros Hf Hk Hp Hd Ha. destruct l as [|c|c|code|code]; cbn [fits] in *; [auto| | | |auto].
  1,2: destruct Hf as (t & Ht & Ek & Et & Hc); destruct (Hk t Ht Ek) as (t' & Ht' & (S1 & S2 & S3)%shape_fields & Hr); exists t'; split_and!; try congruence; try done;
    intros Hc'; rewrite Hr by auto; auto.
  destruct Hf as (p & Hpp & Ek & <-). destruct (Hp p Hpp Ek) as (p' & R1 & R2 & R3). by exists p'.
Qed.

Lemma fits_keys (k : Z) (w : World) (l : Life) : fits k w l -> l <> Fresh -> k ∈ all_keys w.
Proof.
  unfold all_keys. intros Hf Hl. rewrite !elem_of_app. destruct l as [|c|c|code|code]; cbn [fits] in Hf; [done| | | |].
  - destruct Hf as (t & Ht & <- & _). left. by apply list_elem_of_fmap_2.
  - destruct Hf as (t & Ht & <- & _). left. by apply list_elem_of_fmap_2.
  - destruct Hf as (p & Hp & <- & _). right. left. by apply list_elem_of_fmap_2.
  - right. right. apply list_elem_of_fmap. by exists (k, code).
Qed.

(** A task of the list is waiting or active, one that is published is over. *)
Lemma key_unique (l : list TaskState) (t u : TaskState) : NoDup (map key l) -> t ∈ l -> u ∈ l -> key t = key u -> t = u.
Proof.
  intros Hn Ht Hu Hk. apply list_elem_of_lookup in Ht as [a Ha]. apply list_elem_of_lookup in Hu as [b Hb].
  assert (a = b); [|congruence]. apply (NoDup_lookup (map key l) a b (key t) Hn); rewrite list_lookup_fmap; [by rewrite Ha|by rewrite Hb, Hk].
Qed.

Lemma fits_task (w : World) (l : Life) (t : TaskState) : account_ok w -> t ∈ tasks (state w) -> fits (key t) w l ->
  exists c, (c = true -> cancelReason t <> ErrorCode_Ok) /\ ((phase t = Queued /\ l = Waiting c) \/ (phase t = Running /\ l = Active c)).
Proof.
  intros Hok Ht Hf. pose proof (task_keys_nodup _ Hok) as Hn. pose proof (a_keys _ Hok) as Ha. unfold all_keys in Ha. apply NoDup_app in Ha as (_ & Ha & _).
  specialize (Ha (key t) (list_elem_of_fmap_2 key _ _ Ht)). destruct l as [|c|c|code|code]; cbn [fits] in Hf.
  - destruct Hf. unfold all_keys. apply elem_of_app. left. by apply list_elem_of_fmap_2.
  - destruct Hf as (u & Hu & Hk & Hp & Hc). rewrite (key_unique _ _ _ Hn Hu Ht Hk) in *. exists c. auto.
  - destruct Hf as (u & Hu & Hk & Hp & Hc). rewrite (key_unique _ _ _ Hn Hu Ht Hk) in *. exists c. auto.
  - destruct Hf as (p & Hp & Hk & _). destruct Ha. apply elem_of_app. left. rewrite <-Hk. by apply list_elem_of_fmap_2.
  - destruct Ha. apply elem_of_app. right. apply list_elem_of_fmap. by exists (key t, code).
Qed.

Lemma fits_published (w : World) (l : Life) (p : Publishing) : account_ok w -> p ∈ publishing w -> fits (pubKey p) w l -> l = Over (pubCode p).
Proof.
  intros Hok Hp Hf. pose proof (a_keys _ Hok) as Ha. unfold all_keys in Ha. apply NoDup_app in Ha as (_ & Ha & (Hb & Hc & _)%NoDup_app).
  assert (Hin : pubKey p ∈ map pubKey (publishing w)) by by apply list_elem_of_fmap_2. destruct l as [|c|c|code|code]; cbn [fits] in Hf.
  - destruct Hf. unfold all_keys. set_solver.
  - destruct Hf as (u & Hu & Hk & _). destruct (Ha (key u)); [by apply list_elem_of_fmap_2|]. rewrite Hk. set_solver.
  - destruct Hf as (u & Hu & Hk & _). destruct (Ha (key u)); [by apply list_elem_of_fmap_2|]. rewrite Hk. set_solver.
  - destruct Hf as (q & Hq & Hk & <-). f_equal. apply list_elem_of_lookup in Hp as [a Ea]. apply list_elem_of_lookup in Hq as [b Eb].
    assert (a = b); [|congruence]. apply (NoDup_lookup _ a b (pubKey p) Hb); rewrite list_lookup_fmap; [by rewrite Ea|by rewrite Eb, <-Hk].
  - destruct (Hc _ Hin). apply list_elem_of_fmap. by exists (pubKey p, code).
Qed.

Definition reason_ok (t : TaskState) : Prop := cancelReason t = ErrorCode_Ok \/ is_cancel (cancelReason t) = true.
Definition lives (w : World) : Prop := forall k, exists l, life k (trace w) = Some l /\ fits k w l.

Lemma lives_silent (w w' : World) : lives w -> trace w' = trace w -> (forall k l, fits k w l -> fits k w' l) -> lives w'.
Proof. intros H Ht Hf k. destruct (H k) as (l & El & Hl). exists l. rewrite Ht. auto. Qed.

Lemma task_life_event (w w' : World) (e : Event) : lives w -> trace w' = trace w ++ [e] -> (forall k l, k <> event_key e -> fits k w l -> fits k w' l) ->
  (forall l, fits (event_key e) w l -> exists l', advance (event_key e) (Some l) e = Some l' /\ fits (event_key e) w' l') -> lives w'.
Proof.
  intros H Ht Ho He k. destruct (H k) as (l & El & Hl). rewrite Ht, life_snoc, El. destruct (Z.eq_dec k (event_key e)) as [->|Hk]; [by apply He|].
  exists l. split; [|auto]. cbn [advance]. rewrite (proj2 (Z.eqb_neq _ _)) by done. done.
Qed.

Lemma advance_here (k : Z) (l : Life) (e : Event) : event_key e = k -> advance k (Some l) e =
  match l, e with
  | Fresh, Submitted _ => Some (Waiting false)
  | Waiting false, CancelAccepted _ => Some (Waiting true)
  | Waiting false, Started _ => Some (Active false)
  | Waiting _, Dropped _ code => if is_cancel code then Some (Over code) else None
  | Active false, CancelAccepted _ => Some (Active true)
  | Active c, Ended _ code => if negb c || is_cancel code then Some (Over code) else None
  | Over code, Finished _ code' => if bool_decide (code = code') then Some (Gone code) else None
  | (Active _ | Over _ | Gone _), Signalled _ => Some l
  | _, _ => None
  end.
Proof. intros <-. cbn [advance]. by rewrite Z.eqb_refl. Qed.

(** A step that changes reasons and signals only. *)
Lemma fits_tasks (f : TaskState -> TaskState) (s s' : State) (i i' o o' : Z) (j j' : list Z) (c c' : Coordinator) (p : list Publishing) (d : list (Z * ErrorCode)) (n n' : Z) (tr tr' : list Event) (k : Z) (l : Life) :
  tasks s' = map f (tasks s) -> (forall t, shape (f t) = shape t) -> (forall t, t ∈ tasks s -> key t = k -> steady f t) ->
  fits k (MkWorld s i o j c p d n tr) l -> fits k (MkWorld s' i' o' j' c' p d n' tr') l.
Proof.
  intros Et Hs Hf. intros H. apply (fits_other _ _ _ _ H); cbn [state publishing done]; [|eauto|done|].
  - rewrite Et. by apply kept_map.
  - unfold all_keys. cbn [state publishing done]. destruct (shape_same _ _ (observed_shapes _ (tasks s) Hs)) as (K & _). by rewrite Et, K.
Qed.

(** The reasons that may be left. *)
Lemma observe_reason_ok (parents : Z -> bool) (now : Z) (t : TaskState) : reason_ok t -> reason_ok (ObserveCancellation parents now t).
Proof. unfold ObserveCancellation, reason_ok. intros H. repeat case_if; cbn [set_reason cancelReason]; auto. Qed.
Lemma passed_reason_ok (parents : Z -> bool) (now : Z) (t : TaskState) : reason_ok t -> reason_ok (passed parents now t).
Proof. unfold passed. case_if; [apply observe_reason_ok|done]. Qed.
Lemma stop_reason_ok (parents : Z -> bool) (now : Z) (t : TaskState) : reason_ok t -> reason_ok (StopTask parents now t).
Proof. intros H%(observe_reason_ok parents now). unfold StopTask. cbn zeta. case_if; [by right|done]. Qed.

(** ** What every world keeps *)

(** A reason is one of a cancellation, a queued task was not signalled, and after the stop every task has a reason. *)
Definition mark (st : bool) (t : TaskState) : Prop := reason_ok t /\ (phase t = Queued -> signalSent t = false) /\ (st = true -> cancelReason t <> ErrorCode_Ok).

Lemma observe_mark (parents : Z -> bool) (now : Z) (st : bool) (t : TaskState) : mark st t -> mark st (ObserveCancellation parents now t).
Proof.
  intros (H1 & H2 & H3). destruct (observe_fields parents now t) as (_ & _ & F). split_and!; [by apply observe_reason_ok|by rewrite F, (proj2 (observe_shape _ _ _))|].
  intros Hst. rewrite (proj1 (observe_reason parents now t)); auto.
Qed.
Lemma passed_mark (parents : Z -> bool) (now : Z) (st : bool) (t : TaskState) : mark st t -> mark st (passed parents now t).
Proof. unfold passed. case_if; [apply observe_mark|done]. Qed.
Lemma stop_mark (parents : Z -> bool) (now : Z) (st : bool) (t : TaskState) : mark st t -> mark true (StopTask parents now t).
Proof.
  intros H%(observe_mark parents now). unfold StopTask. cbn zeta. destruct H as (H1 & H2 & _). case_bool_decide as E; [|by split_and!]. split_and!; [by right|done|done].
Qed.

Definition marks_ok (s : State) : Prop := Forall (mark (stopping s)) (tasks s).

Definition coordinator_ok (w : World) : Prop :=
  (ready (state w) = false -> tasks (state w) = [] /\ publishing w = []) /\ (coordinator w = CoordNone -> ready (state w) = false)
  /\ (coordinator w = CoordOut -> stopping (state w) = true /\ tasks (state w) = []).

Lemma take_cases (parents : Z -> bool) (now : Z) (s s' : State) (k : Z) : WorkerTake parents now s = (TakenTask k, s') ->
  stopping s = false /\ ready s = true /\ exists l1 t l2, tasks s = l1 ++ t :: l2 /\ key t = k /\ phase t = Queued /\ cancelReason t = ErrorCode_Ok
    /\ s' = set_tasks (map (passed parents now) l1 ++ set_phase Running t :: l2) (pending s - 1) (running s + 1) s.
Proof.
  unfold WorkerTake. destruct (stopping s); [done|]. destruct (ready s); [|done]. destruct (Pick parents now (tasks s)) as [l [k'|]] eqn:E; [|done].
  intros [= -> <-]. apply pick_spec in E as (l1 & t & l2 & El & -> & R1 & R2 & R3 & _). split_and!; [done|done|]. by exists l1, t, l2.
Qed.

Lemma submit_cases (k : Z) (o : TaskOptions) (early : ErrorCode) (parents : Z -> bool) (now : Z) (s s' : State) : SubmitCommit k o early parents now s = (Status.Ok, s') ->
  ready s = true /\ stopping s = false /\ ready s' = true /\ stopping s' = false /\ tasks s' = tasks s ++ [ObserveCancellation parents now (MkTask k o Queued early false)].
Proof.
  unfold SubmitCommit. destruct (negb (ready s) || stopping s) eqn:E1; [done|]. 
 intros Hs. destruct (_ || _) eqn:E2 in Hs; [done|]. injection Hs as <-. apply orb_false_iff in E1 as [E1%negb_false_iff E3]. done.
Qed.

(** The sections agree: what the first one lets pass is admitted if nothing happens in between, and what it finds too large never is. *)
Lemma submit_sections (k : Z) (o : TaskOptions) (early : ErrorCode) (parents : Z -> bool) (now : Z) (s : State) :
  (SubmitCheck o s = Status.Ok -> (SubmitCommit k o early parents now s).1 = Status.Ok)
  /\ (SubmitCheck o s = Status.FailWithoutMessage TooLarge -> 0 <= retained s -> (SubmitCommit k o early parents now s).1 <> Status.Ok).
Proof.
  unfold SubmitCheck, SubmitCommit. destruct (Z.ltb_spec (maxRetainedBytes s) (retainedBytes o)) as [E|E]; (split; [|intros H Hr]).
  - done.
  - destruct (negb (ready s) || stopping s); [done|]. destruct (Z.leb_spec (maxPendingTasks s) (pending s)); [done|]. by rewrite (proj2 (Z.ltb_lt _ _)) by lia.
  - destruct (negb (ready s) || stopping s); [done|]. by destruct (_ || _).
  - destruct (negb (ready s) || stopping s); [done|]. by destruct (_ || _).
Qed.

Lemma cancel_cases (k now : Z) (s s' : State) : Cancel k now s = (true, s') ->
  exists t l1 l2 r, tasks s = l1 ++ t :: l2 /\ key t = k /\ cancelReason t = ErrorCode_Ok /\ is_cancel r = true
    /\ s' = set_tasks (map (fun t => if key t =? k then set_reason r t else t) (tasks s)) (pending s) (running s) s.
Proof.
  unfold Cancel. destruct (find_task k (tasks s)) as [t|] eqn:E; [|done]. destruct (_ || _) eqn:E1; [done|]. intros [= <-]. apply orb_false_iff in E1 as [_ E1%negb_false_iff].
  apply bool_decide_eq_true in E1. destruct (find_task_split _ _ _ E) as (l1 & l2 & El & Ek). exists t, l1, l2, (if Late now t then Timeout else Cancelled). split_and!; try done. by destruct (Late now t).
Qed.

Lemma finish_cases (k : Z) (parents : Z -> bool) (now : Z) (s s' : State) (t' : TaskState) : NoDup (map key (tasks s)) -> WorkerFinish k parents now s = Some (t', s') ->
  exists l1 t l2, tasks s = l1 ++ t :: l2 /\ key t = k /\ t' = ObserveCancellation parents now t /\ s' = set_tasks (l1 ++ l2) (pending s) (running s - 1) s.
Proof.
  intros Hn. unfold WorkerFinish. destruct (find_task k (tasks s)) as [t|] eqn:E; [|done]. intros [= <- <-]. destruct (find_task_split _ _ _ E) as (l1 & l2 & El & <-).
  exists l1, t, l2. split_and!; try done. f_equal. rewrite El in *. by apply remove_middle.
Qed.

Lemma marks_thread (w w' : World) : ThreadStep w w' -> account_ok w -> marks_ok (state w) -> marks_ok (state w').
Proof.
  intros Hs Hok Hm. pose proof (task_keys_nodup _ Hok) as Hn. unfold marks_ok in *. destruct Hs; cbn [state] in *; try done.
  - destruct (take_cases _ _ _ _ _ H0) as (_ & _ & l1 & t & l2 & El & _ & Hq & _ & ->). rewrite El in Hm. apply Forall_app in Hm as [M1 M2]. inversion M2 as [|? ? M3 M4]; subst.
    cbn [set_tasks tasks stopping]. apply Forall_app. split; [apply Forall_mapped; [apply passed_mark|done]|]. constructor; [|done]. by destruct M3 as (? & ? & ?).
  - destruct (worker_wait _ _ _ _ H0) as [->| ->]; [done|]. apply Forall_mapped; [apply passed_mark|done].
  - apply coordinate_cases in H; [|done]. destruct H as (l1 & u & l2 & El & _ & _ & _ & ->). rewrite El in Hm. apply Forall_app in Hm as [M1 M2]. inversion M2; subst.
    cbn [set_tasks tasks stopping]. apply Forall_app. split; [apply Forall_mapped; [apply observe_mark|done]|done].
  - apply coordinate_cases in H; [|done]. destruct H as (l1 & u & l2 & El & Hq & -> & _ & _ & ->). rewrite El in Hm. apply Forall_app in Hm as [M1 M2]. inversion M2 as [|? ? M3 M4]; subst.
    cbn [set_tasks tasks stopping]. apply Forall_app. split; [apply Forall_mapped; [apply observe_mark|done]|]. constructor; [|done].
    destruct (observe_mark parents now _ _ M3) as (R1 & R2 & R3). split_and!; [done| |done]. cbn [set_signal phase]. destruct (observe_fields parents now u) as (_ & _ & ->). done.
  - apply coordinate_cases in H; [|done]. destruct H as (-> & _). apply Forall_mapped; [apply observe_mark|done].
  - apply coordinate_cases in H; [|done]. destruct H as (_ & _ & ->). constructor.
Qed.

Lemma marks_call (w w' : World) : CallStep w w' -> account_ok w -> marks_ok (state w) -> marks_ok (state w').
Proof.
  intros Hs Hok Hm. pose proof (task_keys_nodup _ Hok) as Hn. unfold marks_ok in *. destruct Hs; cbn [state] in *; try done.
  - unfold StartBegin in H3. do 2 (destruct (_ || _) in H3; [done|]). by injection H3 as <-.
  - destruct (submit_cases _ _ _ _ _ _ _ H1) as (_ & E1 & _ & E2 & ->). rewrite E1 in Hm. rewrite E2. apply Forall_app. split; [done|]. constructor; [|done].
    apply observe_mark. split_and!; [|done|done]. unfold reason_ok. cbn [cancelReason]. destruct H0 as [->|[->| ->]]; auto.
  - destruct (cancel_cases _ _ _ _ H) as (t & l1 & l2 & r & _ & _ & _ & Hr & ->). cbn [set_tasks tasks stopping]. apply Forall_mapped; [|done].
    intros x (R1 & R2 & R3). case_if; [|done]. split_and!; [by right|done|]. intros _ Ec. cbn [set_reason cancelReason] in Ec. by rewrite Ec in Hr.
  - unfold RequestStop. cbn [set_flags set_tasks tasks stopping]. apply Forall_fmap. eapply Forall_impl; [exact Hm|]. intros x Hx. by eapply stop_mark.
  - destruct (finish_cases _ _ _ _ _ _ Hn H) as (l1 & u & l2 & El & _ & _ & ->). rewrite El in Hm. apply Forall_app in Hm as [M1 M2]. inversion M2; subst. by apply Forall_app.
Qed.

Lemma coordinator_thread (w w' : World) : ThreadStep w w' -> account_ok w -> coordinator_ok w -> coordinator_ok w'.
Proof.
  intros Hs Hok (Hr & Hc & Ho). pose proof (task_keys_nodup _ Hok) as Hn. unfold coordinator_ok. destruct Hs; cbn [state coordinator publishing] in *; try done.
  - destruct (take_cases _ _ _ _ _ H0) as (Es & Er & l1 & t & l2 & El & _ & _ & _ & ->). cbn [set_tasks ready stopping tasks]. split_and!; [congruence|done|].
    intros E. destruct (Ho E) as [Hs _]. congruence.
  - destruct (worker_wait _ _ _ _ H0) as [->| ->]; [done|]. cbn [set_tasks ready stopping tasks]. split_and!; [|done|].
    + intros E. destruct (Hr E) as [-> ->]. done.
    + intros E. destruct (Ho E) as [-> ->]. done.
  - apply coordinate_cases in H; [|done]. destruct H as (l1 & u & l2 & El & _ & _ & _ & ->). cbn [set_tasks ready stopping tasks]. split_and!; try done.
    intros E. destruct (Hr E) as [E0 _]. rewrite E0 in El. by destruct l1.
  - apply coordinate_cases in H; [|done]. destruct H as (l1 & u & l2 & El & _ & _ & _ & _ & ->). cbn [set_tasks ready stopping tasks]. split_and!; try done.
    intros E. destruct (Hr E) as [E0 _]. rewrite E0 in El. by destruct l1.
  - apply coordinate_cases in H; [|done]. destruct H as (-> & _). cbn [set_tasks ready stopping tasks]. split_and!; try done. intros E. by destruct (Hr E) as [-> ->].
  - apply coordinate_cases in H; [|done]. destruct H as (Es & El & ->). cbn [set_tasks ready stopping tasks]. split_and!; try done. intros E. by destruct (Hr E) as [_ ->].
  - split_and!; try done. intros E. destruct (Hr E) as [_ E0]. by destruct l.
  - split_and!; [|by destruct w|by destruct w]. intros E. destruct (Hr E) as [_ E0]. by destruct l.
Qed.

Lemma coordinator_call (w w' : World) : CallStep w w' -> account_ok w -> coordinator_ok w -> coordinator_ok w'.
Proof.
  intros Hs Hok (Hr & Hc & Ho). pose proof (task_keys_nodup _ Hok) as Hn. unfold coordinator_ok. destruct Hs; cbn [state coordinator publishing] in *; try done.
  - unfold StartBegin in H3. destruct (_ || _) in H3; [done|]. destruct (started s) eqn:Es; [done|]. destruct (stopping s); [done|]. injection H3 as <-. cbn [ready stopping tasks].
    destruct (a_unstarted _ Hok Es) as (_ & _ & _ & _ & _ & E & _). cbn [state] in E. split_and!; [done|done|]. destruct H2 as [->|[-> _]]; done.
  - destruct (submit_cases _ _ _ _ _ _ _ H1) as (E1 & E2 & E3 & E4 & ->). split_and!; [congruence|intros E; by rewrite (Hc E) in E1|]. intros E. destruct (Ho E) as [Hs _]. congruence.
  - destruct (cancel_cases _ _ _ _ H) as (t & l1 & l2 & r & El & _ & _ & _ & ->). cbn [set_tasks ready stopping tasks]. split_and!; [|done|].
    + intros E. destruct (Hr E) as [E0 _]. rewrite E0 in El. by destruct l1.
    + intros E. destruct (Ho E) as [_ E0]. rewrite E0 in El. by destruct l1.
  - cbn [RequestStop set_flags set_tasks ready stopping tasks]. split_and!; [|done|].
    + intros E. by destruct (Hr E) as [-> ->].
    + intros E. by destruct (Ho E) as [_ ->].
  - destruct (finish_cases _ _ _ _ _ _ Hn H) as (l1 & u & l2 & El & _ & _ & ->). cbn [set_tasks ready stopping tasks]. split_and!; [|done|].
    + intros E. destruct (Hr E) as [E0 _]. rewrite E0 in El. by destruct l1.
    + intros E. destruct (Ho E) as [_ E0]. rewrite E0 in El. by destruct l1.
Qed.

(** A task that was started, perhaps long ago. *)
Definition was_started (l : Life) : bool := match l with Fresh | Waiting _ => false | _ => true end.
Definition signal_ok (w : World) : Prop := forall k, coordinator w = CoordSignalling k -> exists l, life k (trace w) = Some l /\ was_started l = true.

Lemma advance_started (k : Z) (l l' : Life) (e : Event) : advance k (Some l) e = Some l' -> was_started l = true -> was_started l' = true.
Proof. cbn [advance]. case_if; [by intros [= <-]|]. destruct l as [|[|]|[|]|code|code], e; try done; try case_if; by intros [= <-]. Qed.

Lemma signalling_step (w w' : World) : lives w' -> signal_ok w -> (coordinator w' = coordinator w \/ forall k, coordinator w' <> CoordSignalling k) -> 
  (trace w' = trace w \/ exists e, trace w' = trace w ++ [e]) -> signal_ok w'.
Proof.
  intros Hl Hs [Hc|Hc] Ht k Ek; [|by destruct (Hc k)]. rewrite Hc in Ek. destruct (Hs k Ek) as (l & El & Hw). destruct Ht as [->|[e Ht]]; [by exists l|].
  destruct (Hl k) as (l' & El' & _). exists l'. split; [done|]. rewrite Ht, life_snoc, El in El'. by eapply advance_started.
Qed.

(** The other tasks, when one is taken, dropped or ends. *)
Lemma fits_leave (w w' : World) (f : TaskState -> TaskState) (l1 o l2 : list TaskState) (t : TaskState) (k : Z) (l : Life) :
  tasks (state w) = l1 ++ t :: l2 -> tasks (state w') = map f l1 ++ o ++ l2 -> (forall u, steady f u) -> (forall u, u ∈ o -> key u = key t) ->
  (publishing w' = publishing w \/ exists p, pubKey p = key t /\ publishing w' = p :: publishing w) -> done w' = done w -> k <> key t -> fits k w l -> fits k w' l.
Proof.
  intros El El' Hf Ho Hp Hd Hk H. apply (fits_other _ _ _ _ H).
  - rewrite El, El'. apply kept_middle; [done|]. apply kept_map. auto.
  - intros p Hin Ep. exists p. split; [|done]. destruct Hp as [->|(q & _ & ->)]; [done|]. by right.
  - by rewrite Hd.
  - unfold all_keys. rewrite El, El', Hd, !map_app. cbn [map]. destruct (shape_same _ _ (observed_shapes f l1 (fun u => proj1 (Hf u)))) as (K & _). rewrite K.
    assert (Hno : k ∉ map key o) by (intros (u & -> & Hu)%list_elem_of_fmap; by rewrite (Ho u Hu) in Hk).
    destruct Hp as [->|(q & Eq & ->)]; cbn [map]; [set_solver|]. rewrite Eq. set_solver.
Qed.

Lemma id_steady (t : TaskState) : steady (fun t => t) t.
Proof. done. Qed.

Lemma lives_thread (w w' : World) : ThreadStep w w' -> account_ok w -> marks_ok (state w) -> signal_ok w -> lives w -> lives w'.
Proof.
  intros Hs Hok Hm Hg Hl. pose proof (task_keys_nodup _ Hok) as Hn. destruct Hs; cbn [state] in *.
  - destruct (take_cases _ _ _ _ _ H0) as (_ & _ & l1 & t & l2 & El & <- & Hq & Hr & ->). eapply task_life_event; [exact Hl|reflexivity| |]; cbn [event_key].
    + intros k0 l Hk. eapply (fits_leave _ _ (passed parents now) l1 [set_phase Running t] l2 t); try done; [apply passed_steady|set_solver|by left].
    + intros l Hf. destruct (fits_task _ l t Hok) as (b & Hb & Hc); [cbn [state]; rewrite El; set_solver|done|]. destruct Hc as [[_ ->]|[Hc _]]; [|congruence].
      destruct b; [by destruct (Hb eq_refl)|]. rewrite advance_here by done. exists (Active false). split; [done|]. exists (set_phase Running t). cbn [state set_tasks tasks]. split_and!; try done. set_solver.
  - destruct (worker_wait _ _ _ _ H0) as [->| ->]; [done|]. eapply lives_silent; [exact Hl|reflexivity|]. intros k l.
    apply (fits_tasks (passed parents now)); [done|apply passed_shape|]. intros. apply passed_steady.
  - by eapply lives_silent; [exact Hl|reflexivity|].
  - apply coordinate_cases in H; [|done]. destruct H as (l1 & u & l2 & El & Hq & -> & Hr & ->). destruct (observe_fields parents now u) as (F1 & F2 & F3). cbn [set_signal key options cancelReason].
    rewrite F1, F2. assert (Hu : u ∈ tasks s) by (rewrite El; set_solver). eapply task_life_event; [exact Hl|reflexivity| |]; cbn [event_key].
    + intros k0 l Hk. eapply (fits_leave _ _ (ObserveCancellation parents now) l1 [] l2 u); try done; [apply observe_steady|by intros ? ?%elem_of_nil|]. right. eexists. split; [|reflexivity]. done.
    + intros l Hf. destruct (fits_task _ l u Hok) as (b & Hb & Hc); [done|done|]. destruct Hc as [[_ ->]|[Hc _]]; [|congruence]. rewrite advance_here by done.
      unfold marks_ok in Hm. rewrite Forall_forall in Hm. destruct (observe_mark parents now _ _ (Hm u Hu)) as ([Hok'|Hok'] & _); [done|].
      exists (Over (cancelReason (ObserveCancellation parents now u))). split; [rewrite Hok'; by destruct b|]. eexists. split; [by left|done].
  - apply coordinate_cases in H; [|done]. destruct H as (l1 & u & l2 & El & Hq & -> & Hr & Hsg & ->). eapply lives_silent; [exact Hl|reflexivity|]. intros k l Hf. apply (fits_other _ _ _ _ Hf); [|eauto|done|].
    + cbn [state set_tasks tasks]. rewrite El. intros x [Hx|[->|Hx]%elem_of_cons]%elem_of_app Ek.
      * exists (ObserveCancellation parents now x). split; [|apply observe_steady]. apply elem_of_app. left. by apply list_elem_of_fmap_2.
      * exists (set_signal (ObserveCancellation parents now u)). split; [set_solver|]. apply (observe_steady parents now u).
      * exists x. split; [set_solver|done].
    + unfold all_keys. cbn [state set_tasks tasks publishing done]. rewrite El, !(map_app key). cbn [map set_signal key]. destruct (observe_fields parents now u) as (-> & _).
      by destruct (shape_same _ _ (observed_shapes _ l1 (fun t => proj1 (observe_shape parents now t)))) as (-> & _).
  - eapply task_life_event; [exact Hl|reflexivity|done|]. cbn [event_key]. intros l Hf. destruct (Hg k eq_refl) as (l' & El & Hw). destruct (Hl k) as (l'' & El' & Hf'). rewrite El in El'. injection El' as <-.
    rewrite advance_here by done. destruct l as [|b|b|code|code]; [ | | destruct b; by eexists|by eexists|by eexists].
    { destruct Hf as []. by apply (fits_keys _ _ _ Hf'); destruct l'. }
    destruct Hf as (t & Ht & <- & Hp & _). destruct (fits_task _ _ t Hok Ht Hf') as (b' & _ & [[_ ->]|[Hc _]]); [done|congruence].
  - apply coordinate_cases in H; [|done]. destruct H as (-> & _). eapply lives_silent; [exact Hl|reflexivity|]. intros k l.
    apply (fits_tasks (ObserveCancellation parents now)); [done|intros; apply observe_shape|intros; apply observe_steady].
  - apply coordinate_cases in H; [|done]. destruct H as (_ & El & ->). eapply lives_silent; [exact Hl|reflexivity|]. intros k l.
    apply (fits_tasks (fun t => t)); [cbn; by rewrite El|done|intros; apply id_steady].
  - eapply lives_silent; [exact Hl|reflexivity|]. intros k0 l0 Hf. apply (fits_other _ _ _ _ Hf); [apply kept_refl| |done|].
    + cbn [publishing]. intros q Hq Ek. apply elem_of_app in Hq as [Hq|[->|Hq]%elem_of_cons]; [exists q|exists (MkPub k b code true w)|exists q]; split; try done; set_solver.
    + unfold all_keys. cbn [state publishing done PublishAccount set_retained tasks]. by rewrite !map_app.
  - eapply task_life_event; [exact Hl|reflexivity| |]; cbn [event_key].
    + intros k0 l0 Hk Hf. apply (fits_other _ _ _ _ Hf); [apply kept_refl| | |].
      * cbn [publishing]. intros q Hq Ek. exists q. split; [|done]. apply elem_of_app in Hq as [Hq|[->|Hq]%elem_of_cons]; [set_solver|by destruct Hk|set_solver].
      * cbn [done]. set_solver.
      * unfold all_keys. cbn [state publishing done]. rewrite !map_app. cbn [map fst pubKey]. set_solver.
    + intros l0 Hf. assert (l0 = Over code) as ->. { apply (fits_published _ _ (MkPub k b code true w) Hok); [cbn [publishing]; set_solver|done]. }
      rewrite advance_here by done. rewrite bool_decide_true by done. exists (Gone code). split; [done|]. cbn [fits done]. set_solver.
Qed.

Lemma final_code (parents : Z -> bool) (now : Z) (st : bool) (t : TaskState) (result : ErrorCode) : mark st t -> cancelReason t <> ErrorCode_Ok ->
  is_cancel (FinalCode (ObserveCancellation parents now t) result) = true.
Proof.
  intros ([H|H] & _) Hr; [done|]. unfold FinalCode. rewrite (proj1 (observe_reason parents now t) Hr). by rewrite bool_decide_false.
Qed.

Lemma lives_submit (s s' : State) (i o : Z) (j : list Z) (c : Coordinator) (p : list Publishing) (d : list (Z * ErrorCode)) (n : Z) (tr : list Event) (opt : TaskOptions) (early : ErrorCode)
  (parents : Z -> bool) (now : Z) : account_ok (MkWorld s i o j c p d n tr) -> lives (MkWorld s i o j c p d n tr) -> SubmitCommit n opt early parents now s = (Status.Ok, s') ->
  lives (MkWorld s' i o j c p d (n + 1) (tr ++ [Submitted n])).
Proof.
  intros Hok Hl Hs. destruct (submit_cases _ _ _ _ _ _ _ Hs) as (_ & _ & _ & _ & Et). destruct (observe_fields parents now (MkTask n opt Queued early false)) as (F1 & _ & F3). cbn [key phase] in F1, F3.
  eapply task_life_event; [exact Hl|reflexivity| |]; cbn [event_key].
  - intros k l Hk Hf. apply (fits_other _ _ _ _ Hf); cbn [state publishing done]; [|eauto|done|].
    + rewrite Et. intros t Ht _. exists t. split; [set_solver|done].
    + unfold all_keys. cbn [state publishing done]. rewrite Et, map_app. cbn [map]. rewrite F1. set_solver.
  - intros l Hf. assert (l = Fresh) as ->.
    { destruct (decide (l = Fresh)) as [|Hne]; [done|]. pose proof (a_fresh _ Hok) as Ha. rewrite Forall_forall in Ha. specialize (Ha _ (fits_keys _ _ _ Hf Hne)). cbn [nextKey] in Ha. lia. }
    rewrite advance_here by done. exists (Waiting false). split; [done|]. exists (ObserveCancellation parents now (MkTask n opt Queued early false)). cbn [state]. rewrite Et. split_and!; try done. set_solver.
Qed.

Lemma lives_cancel (s s' : State) (i o : Z) (j : list Z) (c : Coordinator) (p : list Publishing) (d : list (Z * ErrorCode)) (n : Z) (tr : list Event) (k now : Z) :
  account_ok (MkWorld s i o j c p d n tr) -> lives (MkWorld s i o j c p d n tr) -> Cancel k now s = (true, s') -> lives (MkWorld s' i o j c p d n (tr ++ [CancelAccepted k])).
Proof.
  intros Hok Hl Hs. destruct (cancel_cases _ _ _ _ Hs) as (t & l1 & l2 & r & El & <- & Hr & Hc & ->). eapply task_life_event; [exact Hl|reflexivity| |]; cbn [event_key].
  - intros k l Hk. apply (fits_tasks (fun u => if key u =? key t then set_reason r u else u)); [done|intros u; by case_if|].
    intros u _ Eu. unfold steady. rewrite (proj2 (Z.eqb_neq _ _)) by congruence. done.
  - intros l Hf. assert (Ht : t ∈ tasks s) by (rewrite El; set_solver). destruct (fits_task _ l t Hok Ht Hf) as (b & Hb & Hcase). destruct b; [by destruct (Hb eq_refl)|].
    assert (Hin : set_reason r t ∈ map (fun u => if key u =? key t then set_reason r u else u) (tasks s)). { apply list_elem_of_fmap. exists t. by rewrite Z.eqb_refl. }
    assert (r <> ErrorCode_Ok) by by intros ->.
    destruct Hcase as [[Hp ->]|[Hp ->]]; rewrite advance_here by done; eexists; (split; [reflexivity|]); exists (set_reason r t); split_and!; try done; by intros.
Qed.

Lemma lives_end (s s' : State) (i o : Z) (l r : list Z) (c : Coordinator) (p : list Publishing) (d : list (Z * ErrorCode)) (n : Z) (tr : list Event) (k : Z) (parents : Z -> bool) (now : Z)
  (t : TaskState) (result : ErrorCode) :
  account_ok (MkWorld s i o (l ++ k :: r) c p d n tr) -> marks_ok s -> lives (MkWorld s i o (l ++ k :: r) c p d n tr) -> WorkerFinish k parents now s = Some (t, s') ->
  lives (MkWorld s' i o (l ++ r) c (MkPub k (retainedBytes (options t)) (FinalCode t result) false ByWorker :: p) d n (tr ++ [Ended k (FinalCode t result)])).
Proof.
  intros Hok Hm Hl Hs. pose proof (task_keys_nodup _ Hok) as Hn. cbn [state] in Hn. destruct (finish_cases _ _ _ _ _ _ Hn Hs) as (l1 & u & l2 & El & <- & -> & ->).
  assert (Hu : u ∈ tasks s) by (rewrite El; set_solver).
  assert (Hr : phase u = Running). { rewrite El in Hn. eapply running_task; [exact Hn|]. pose proof (a_jobs _ Hok) as Hj. cbn [jobs state] in Hj. rewrite <-El, <-Hj. set_solver. }
  eapply task_life_event; [exact Hl|reflexivity| |]; cbn [event_key].
  - intros k0 l0 Hk. eapply (fits_leave _ _ (fun t => t) l1 [] l2 u); try done; [cbn; by rewrite map_id|by intros ? ?%elem_of_nil|]. right. eexists. split; [|reflexivity]. done.
  - intros l0 Hf. destruct (fits_task _ l0 u Hok Hu Hf) as (b & Hb & [[Hc _]|[_ ->]]); [congruence|]. rewrite advance_here by done.
    exists (Over (FinalCode (ObserveCancellation parents now u) result)). split; [|eexists; split; [by left|done]].
    destruct b; [|done]. cbn [negb orb]. unfold marks_ok in Hm. rewrite Forall_forall in Hm. by rewrite (final_code parents now _ _ result (Hm u Hu) (Hb eq_refl)).
Qed.

Lemma lives_call (w w' : World) : CallStep w w' -> account_ok w -> marks_ok (state w) -> lives w -> lives w'.
Proof.
  intros Hs Hok Hm Hl. destruct Hs; cbn [state] in *.
  - unfold StartBegin in H3. do 2 (destruct (_ || _) in H3; [done|]). injection H3 as <-. by eapply lives_silent; [exact Hl|reflexivity|].
  - by eapply lives_silent; [exact Hl|reflexivity|].
  - by eapply lives_submit.
  - by eapply lives_cancel.
  - eapply lives_silent; [exact Hl|reflexivity|]. intros k l. apply (fits_tasks (StopTask parents now)); [done|apply stop_task_shape|intros; apply stop_steady].
  - by eapply lives_silent; [exact Hl|reflexivity|].
  - by eapply lives_end.
Qed.

Record world_ok (w : World) : Prop := MkWorldOk { w_account : account_ok w; w_marks : marks_ok (state w); w_coordinator : coordinator_ok w; w_lives : lives w; w_signal : signal_ok w }.

Lemma signal_thread (w w' : World) : ThreadStep w w' -> account_ok w -> lives w -> lives w' -> signal_ok w -> signal_ok w'.
Proof.
  intros Hs Hok Hl Hl' Hg. pose proof (task_keys_nodup _ Hok) as Hn. destruct Hs; cbn [state] in Hn;
    try (eapply signalling_step; [exact Hl'|exact Hg|cbn [coordinator]; by (left + right)|cbn [trace]; by ((left; reflexivity) + (right; eexists))]).
  - apply coordinate_cases in H; [|done]. destruct H as (l1 & u & l2 & El & Hq & -> & _). intros k [= <-]. destruct (observe_fields parents now u) as (F1 & _). cbn [set_signal key trace]. rewrite F1.
    destruct (Hl (key u)) as (l & E & Hf). exists l. split; [done|]. destruct (fits_task _ l u Hok) as (b & _ & [[Hc _]|[_ ->]]); [cbn [state]; rewrite El; set_solver|done|done|done].
  - eapply signalling_step; [exact Hl'|exact Hg| |right; by eexists]. cbn [coordinator]. destruct w; [by left|by right].
Qed.

Lemma signal_call (w w' : World) : CallStep w w' -> lives w' -> signal_ok w -> signal_ok w'.
Proof.
  intros Hs Hl' Hg. destruct Hs; (eapply signalling_step; [exact Hl'|exact Hg| |cbn [trace]; by ((left; reflexivity) + (right; eexists))]); cbn [coordinator]; try by left.
  right. intros k. by destruct H2 as [->|[-> _]].
Qed.

Lemma run_world_ok (w : World) : Run w -> world_ok w.
Proof.
  induction 1 as [|w w' H IH Hs|w w' H IH Hs].
  - constructor; [apply run_account, RunStart|constructor| | |done].
    + split_and!; try done.
    + intros k. exists Fresh. split; [done|]. apply not_elem_of_nil.
  - destruct IH as [I1 I2 I3 I4 I5]. pose proof (lives_thread _ _ Hs I1 I2 I5 I4). constructor;
      [by eapply account_thread|by eapply marks_thread|by eapply coordinator_thread|done|by eapply signal_thread].
  - destruct IH as [I1 I2 I3 I4 I5]. pose proof (lives_call _ _ Hs I1 I2 I4). constructor;
      [by eapply task_call_account|by eapply marks_call|by eapply coordinator_call|done|by eapply signal_call].
Qed.

(** ** The order of the list *)

Definition ordered (w : World) : Prop := StronglySorted Z.lt (map key (tasks (state w))).

Lemma ordered_leave (f : TaskState -> TaskState) (l l1 l2 : list TaskState) (t : TaskState) : StronglySorted Z.lt (map key l) -> l = l1 ++ t :: l2 -> (forall u, shape (f u) = shape u) ->
  StronglySorted Z.lt (map key (map f l1 ++ l2)).
Proof.
  intros H -> Hf. rewrite map_app in *. cbn [map] in H. destruct (shape_same _ _ (observed_shapes f l1 Hf)) as (-> & _). by apply sorted_middle in H as [H _].
Qed.

Lemma ordered_mapped (f : TaskState -> TaskState) (l : list TaskState) : (forall u, shape (f u) = shape u) -> StronglySorted Z.lt (map key l) -> StronglySorted Z.lt (map key (map f l)).
Proof. intros Hf H. by destruct (shape_same _ _ (observed_shapes f l Hf)) as (-> & _). Qed.

Lemma ordered_thread (w w' : World) : ThreadStep w w' -> account_ok w -> ordered w -> ordered w'.
Proof.
  intros Hs Hok Ho. pose proof (task_keys_nodup _ Hok) as Hn. unfold ordered in *. destruct Hs; cbn [state] in *; try done.
  - destruct (take_cases _ _ _ _ _ H0) as (_ & _ & l1 & t & l2 & El & _ & _ & _ & ->). cbn [set_tasks tasks]. rewrite El in Ho. rewrite map_app in *.
    by destruct (shape_same _ _ (observed_shapes _ l1 (passed_shape parents now))) as (-> & _).
  - destruct (worker_wait _ _ _ _ H0) as [->| ->]; [done|]. apply ordered_mapped; [apply passed_shape|done].
  - apply coordinate_cases in H; [|done]. destruct H as (l1 & u & l2 & El & _ & _ & _ & ->). eapply ordered_leave; [done|done|]. intros. apply observe_shape.
  - apply coordinate_cases in H; [|done]. destruct H as (l1 & u & l2 & El & _ & -> & _ & _ & ->). cbn [set_tasks tasks]. rewrite El in Ho. rewrite map_app in *. cbn [map set_signal key] in *.
    destruct (observe_fields parents now u) as (-> & _). by destruct (shape_same _ _ (observed_shapes _ l1 (fun t => proj1 (observe_shape parents now t)))) as (-> & _).
  - apply coordinate_cases in H; [|done]. destruct H as (-> & _). apply ordered_mapped; [|done]. intros. apply observe_shape.
  - apply coordinate_cases in H; [|done]. destruct H as (_ & _ & ->). constructor.
Qed.

Lemma ordered_call (w w' : World) : CallStep w w' -> account_ok w -> ordered w -> ordered w'.
Proof.
  intros Hs Hok Ho. pose proof (task_keys_nodup _ Hok) as Hn. unfold ordered in *. destruct Hs; cbn [state] in *; try done.
  - unfold StartBegin in H3. do 2 (destruct (_ || _) in H3; [done|]). by injection H3 as <-.
  - destruct (submit_cases _ _ _ _ _ _ _ H1) as (_ & _ & _ & _ & ->). rewrite map_app. cbn [map]. destruct (observe_fields parents now (MkTask n opt Queued early false)) as (-> & _).
    apply sorted_append; [done|]. pose proof (a_fresh _ Hok) as Ha. unfold all_keys in Ha. by apply Forall_app in Ha as [Ha _].
  - destruct (cancel_cases _ _ _ _ H) as (t & l1 & l2 & r & _ & _ & _ & _ & ->). apply ordered_mapped; [|done]. intros u. by case_if.
  - apply ordered_mapped; [apply stop_task_shape|done].
  - destruct (finish_cases _ _ _ _ _ _ Hn H) as (l1 & u & l2 & El & _ & _ & ->). cbn [set_tasks tasks]. rewrite <-(map_id l1). by eapply ordered_leave.
Qed.

Lemma run_ordered (w : World) : Run w -> ordered w.
Proof. induction 1 as [|w w' H IH Hs|w w' H IH Hs]; [constructor|eapply ordered_thread; eauto using run_account|eapply ordered_call; eauto using run_account]. Qed.

(** ** Draining *)

(** The steps of sleeping and waking threads are steps of the threads, or only wake. *)
Lemma own_step_run (x y : Waits) : OwnStep x y -> Run (world x) -> Run (world y).
Proof.
  intros Hs Hr. destruct Hs; cbn [world] in *; try (eapply RunThread; [exact Hr|by econstructor; (done || lia)]); [|done].
  eapply RunCall; [exact Hr|]. by econstructor.
Qed.

Lemma outside_step_run (x y : Waits) : OutsideStep x y -> Run (world x) -> Run (world y).
Proof.
  intros Hs Hr. destruct Hs; cbn [world] in *; try done; (eapply RunCall; [exact Hr|]);
    [by eapply (CallStart _ _ _ _ _ _ _ _ _ _ workers maxT maxB)|by apply CallReady|by eapply CallSubmit|by eapply CallCancel|apply CallRequestStop|by apply CallJoined].
Qed.

Lemma reach_run (x : Waits) : Reach x -> Run (world x).
Proof. induction 1; eauto using RunStart, own_step_run, outside_step_run. Qed.

Definition drained (w : World) : Prop :=
  tasks (state w) = [] /\ publishing w = [] /\ jobs w = [] /\ idle w = 0 /\ (coordinator w = CoordNone \/ coordinator w = CoordOut).

(** Who sleeps after a stop will be woken: a notification is still to come, or, for the coordinator, a worker that publishes, or
    running tasks that were signalled. *)
Record waits_ok (x : Waits) : Prop := MkWaitsOk {
  v_asleep : 0 <= asleep x <= idle (world x);
  v_notifying : 0 <= notifying x;
  v_loop : coordAsleep x = true -> coordinator (world x) = CoordLoop;
  v_workers : stopping (state (world x)) = true -> 0 < asleep x -> 0 < notifying x;
  v_coordinator : stopping (state (world x)) = true -> coordAsleep x = true ->
    0 < notifying x \/ 0 < owned ByWorker (publishing (world x)) \/ (tasks (state (world x)) <> [] /\ Forall (fun t => signalSent t = true) (tasks (state (world x))))
}.

Lemma coordinate_stopping (parents : Z -> bool) (now : Z) (s s' : State) (r : Coordinated) : Coordinate parents now s = (r, s') -> stopping s' = stopping s.
Proof. unfold Coordinate. destruct (CoordinateLoop _ _ _ _) as [[l [[t []]|]] next]; [by intros [= _ <-]..|]. cbn zeta. case_if; by intros [= _ <-]. Qed.

Lemma take_stopping (parents : Z -> bool) (now : Z) (s s' : State) (r : Taken) : WorkerTake parents now s = (r, s') -> r <> TakenExit -> stopping s = false /\ stopping s' = false.
Proof.
  unfold WorkerTake. destruct (stopping s) eqn:E; [by intros [= <- <-]|]. destruct (ready s); [|by intros [= <- <-]]. destruct (Pick _ _ _) as [l [k|]]; by intros [= <- <-].
Qed.

Lemma waits_own (x y : Waits) : OwnStep x y -> world_ok (world x) -> world_ok (world y) -> waits_ok x -> waits_ok y.
Proof.
  intros Hs Hw Hw' [V1 V2 V3 V4 V5]. pose proof (task_keys_nodup _ (w_account _ Hw)) as Hn. pose proof (w_marks _ Hw') as Hm.
  destruct Hs; cbn [world asleep coordAsleep notifying state idle coordinator publishing] in *.
  - destruct (take_stopping _ _ _ _ _ H0) as [_ E]; [done|]. constructor; cbn [world asleep coordAsleep notifying state idle coordinator publishing]; rewrite ?E; try done; [case_if; lia|].
    intros [Hc _]%andb_true_iff. by apply V3.
  - destruct (take_stopping _ _ _ _ _ H0) as [_ E]; [done|]. constructor; cbn [world asleep coordAsleep notifying state idle coordinator publishing]; rewrite ?E; try done; [case_if; lia|].
    intros [Hc _]%andb_true_iff. by apply V3.
  - constructor; try done; cbn; lia.
  - pose proof (coordinate_stopping _ _ _ _ _ H) as E. by constructor; cbn [world asleep coordAsleep notifying state idle coordinator publishing]; rewrite ?E.
  - pose proof (coordinate_stopping _ _ _ _ _ H) as E. by constructor; cbn [world asleep coordAsleep notifying state idle coordinator publishing]; rewrite ?E.
  - by constructor.
  - pose proof (coordinate_stopping _ _ _ _ _ H) as E. apply coordinate_cases in H; [|done]. destruct H as (Es & Hf & Ht).
    constructor; cbn [world asleep coordAsleep notifying state idle coordinator publishing]; rewrite ?E; try done. intros Hst _. right; right. split; [by apply Ht|].
    unfold marks_ok in Hm. rewrite E, Hst in Hm. rewrite Forall_forall in *. intros t Hin. apply Hf; [done|]. by apply Hm.
  - pose proof (coordinate_stopping _ _ _ _ _ H) as E. by constructor; cbn [world asleep coordAsleep notifying state idle coordinator publishing]; rewrite ?E.
  - constructor; try done. cbn [world asleep coordAsleep notifying state publishing PublishAccount set_retained stopping tasks]. rewrite owned_app in *. by destruct w.
  - constructor; cbn [world asleep coordAsleep notifying state idle coordinator publishing]; try lia; [destruct w; lia|]. intros Hc. destruct w; [by apply V3|done].
  - destruct (finish_cases _ _ _ _ _ _ Hn H) as (l1 & u & l2 & El & _ & _ & ->). constructor; try done. cbn [world asleep coordAsleep notifying state publishing]. intros _ _. right; left.
    cbn [owned fold_right owner]. fold (owned ByWorker p). pose proof (owned_nonneg ByWorker p). lia.
  - constructor; cbn [world asleep coordAsleep notifying state idle coordinator publishing]; try done; try lia.
Qed.

Lemma waits_outside (x y : Waits) : OutsideStep x y -> waits_ok x -> waits_ok y.
Proof.
  intros Hs [V1 V2 V3 V4 V5]. destruct Hs; cbn [world asleep coordAsleep notifying state idle coordinator publishing] in *;
    try (constructor; cbn [world asleep coordAsleep notifying state idle coordinator publishing]; try done; lia).
Qed.

Lemma reach_waits (x : Waits) : Reach x -> waits_ok x.
Proof.
  induction 1 as [|x y Hr IH Hs|x y Hr IH Hs]; [by constructor| |by eapply waits_outside].
  eapply waits_own; [exact Hs|by apply run_world_ok, reach_run|apply run_world_ok, reach_run; by eapply ReachOwn|done].
Qed.

(** The steps that are left, at most. *)
Definition task_work (l : list TaskState) : Z := fold_right (fun t n => (if signalSent t then 6 else 8) + n) 0 l.
Definition pub_work (l : list Publishing) : Z := fold_right (fun p n => (if accounted p then 4 else 5) + n) 0 l.
Definition coordinator_work (c : Coordinator) (sleeps : bool) : Z :=
  match c with CoordSignalling _ => 2 | CoordPublishing => 1 | CoordLoop => if sleeps then 0 else 1 | CoordNone | CoordOut => 0 end.
Definition work (x : Waits) : Z :=
  task_work (tasks (state (world x))) + pub_work (publishing (world x)) + 2 * notifying x + idle (world x) + asleep x + coordinator_work (coordinator (world x)) (coordAsleep x).

Lemma task_work_app (a b : list TaskState) : task_work (a ++ b) = task_work a + task_work b.
Proof. unfold task_work. induction a as [|t a IH]; [done|]. cbn [app fold_right]. lia. Qed.
Lemma task_work_cons (t : TaskState) (l : list TaskState) : task_work (t :: l) = (if signalSent t then 6 else 8) + task_work l.
Proof. done. Qed.
Lemma task_work_map (f : TaskState -> TaskState) (l : list TaskState) : (forall t, signalSent (f t) = signalSent t) -> task_work (map f l) = task_work l.
Proof. intros Hf. unfold task_work. induction l as [|t l IH]; [done|]. cbn [map fold_right]. rewrite Hf. lia. Qed.
Lemma pub_work_app (a b : list Publishing) : pub_work (a ++ b) = pub_work a + pub_work b.
Proof. unfold pub_work. induction a as [|t a IH]; [done|]. cbn [app fold_right]. lia. Qed.
Lemma work_nonneg (x : Waits) : waits_ok x -> 0 <= work x.
Proof.
  intros [V1 V2 _ _ _]. assert (0 <= task_work (tasks (state (world x)))) by (unfold task_work; induction (tasks _) as [|t l IH]; [done|]; cbn [fold_right]; case_if; lia).
  assert (0 <= pub_work (publishing (world x))) by (unfold pub_work; induction (publishing _) as [|t l IH]; [done|]; cbn [fold_right]; case_if; lia).
  unfold work, coordinator_work. destruct (coordinator (world x)); try case_if; lia.
Qed.

(** Once stopped, every step of the executor's own threads leaves less to do, and the stop stands. *)
Lemma own_step_decreases (x y : Waits) : OwnStep x y -> world_ok (world x) -> waits_ok x -> stopping (state (world x)) = true ->
  work y < work x /\ stopping (state (world y)) = true.
Proof.
  intros Hs Hw [V1 V2 V3 V4 V5] Hst. pose proof (task_keys_nodup _ (w_account _ Hw)) as Hn. pose proof (a_coordinator _ (w_account _ Hw)) as Hco.
  pose proof (fun parents now t => proj2 (observe_shape parents now t)) as Hob.
  destruct Hs; unfold work; cbn [world asleep coordAsleep notifying state idle coordinator publishing tasks coordinator_work] in *.
  - destruct (take_stopping _ _ _ _ _ H0); [done|congruence].
  - destruct (take_stopping _ _ _ _ _ H0); [done|congruence].
  - split; [lia|done].
  - rewrite (coordinate_stopping _ _ _ _ _ H). split; [|done]. apply coordinate_cases in H; [|done]. destruct H as (l1 & u & l2 & El & _ & _ & _ & ->). cbn [set_tasks tasks].
    rewrite El, !task_work_app, task_work_cons, task_work_map by auto. cbn [pub_work fold_right accounted]. fold (pub_work p). case_if; lia.
  - rewrite (coordinate_stopping _ _ _ _ _ H). split; [|done]. apply coordinate_cases in H; [|done]. destruct H as (l1 & u & l2 & El & _ & -> & _ & Hu & ->). cbn [set_tasks tasks].
    rewrite El, !task_work_app, !task_work_cons, task_work_map by auto. cbn [set_signal signalSent]. rewrite Hu. lia.
  - split; [lia|done].
  - rewrite (coordinate_stopping _ _ _ _ _ H). split; [|done]. apply coordinate_cases in H; [|done]. destruct H as (-> & _). cbn [set_tasks tasks]. rewrite task_work_map by auto. lia.
  - rewrite (coordinate_stopping _ _ _ _ _ H). split; [|done]. apply coordinate_cases in H; [|done]. destruct H as (_ & -> & ->). cbn [set_tasks tasks]. lia.
  - split; [|done]. cbn [PublishAccount set_retained tasks]. rewrite !pub_work_app. cbn [pub_work fold_right accounted]. lia.
  - split; [|done]. rewrite !pub_work_app. cbn [pub_work fold_right accounted]. fold (pub_work r). destruct w; [lia|].
    rewrite owned_app in Hco. cbn [owned fold_right owner] in Hco. fold (owned ByCoordinator r) in Hco. pose proof (owned_nonneg ByCoordinator l). pose proof (owned_nonneg ByCoordinator r).
    destruct c; cbn [coordinator_work]; lia.
  - destruct (finish_cases _ _ _ _ _ _ Hn H) as (l1 & u & l2 & El & _ & _ & ->). split; [|done]. cbn [set_tasks tasks pub_work fold_right accounted]. fold (pub_work p).
    rewrite El, !task_work_app, task_work_cons. case_if; lia.
  - split; [|done]. destruct (coordinator w); cbn [coordinator_work]; try case_if; lia.
Qed.

Lemma find_task_in (k : Z) (l : list TaskState) : k ∈ map key l -> exists t, find_task k l = Some t.
Proof.
  intros (t & -> & Hin)%list_elem_of_fmap. unfold find_task. destruct (find _ l) as [u|] eqn:E; [by exists u|]. exfalso.
  apply list_elem_of_In in Hin. pose proof (find_none _ _ E t Hin) as H. cbn in H. by rewrite Z.eqb_refl in H.
Qed.

(** With no worker in a job, every task of the list is queued. *)
Lemma no_jobs_queued (w : World) : account_ok w -> jobs w = [] -> forall t, t ∈ tasks (state w) -> phase t = Queued.
Proof.
  intros Hok Hj t Hin. pose proof (a_phase _ Hok) as Hp. rewrite Forall_forall in Hp. destruct (Hp (phase t)) as [|Hr]; [by apply list_elem_of_fmap_2|done|].
  pose proof (a_jobs _ Hok) as Ha. rewrite Hj in Ha. assert (Hk : key t ∈ in_jobs (tasks (state w))) by (unfold in_jobs; apply list_elem_of_fmap_2, list_elem_of_filter; done).
  rewrite <-Ha in Hk. by apply elem_of_nil in Hk.
Qed.

(** A job that runs can end. *)
Lemma job_can_end (w : World) (a m : Z) (ca : bool) : account_ok w -> jobs w <> [] -> exists y, OwnStep (MkWaits w a ca m) y.
Proof.
  intros Hok Hj. destruct w as [s i o j c p d n tr]. cbn [jobs] in Hj. destruct j as [|k j]; [done|]. destruct (find_task_in k (tasks s)) as [t Ht].
  { pose proof (a_jobs _ Hok) as Ha. cbn [jobs state] in Ha. assert (Hk : k ∈ in_jobs (tasks s)) by (rewrite <-Ha; by left). unfold in_jobs in Hk.
    apply list_elem_of_fmap in Hk as (t & -> & [_ Ht]%list_elem_of_filter). by apply list_elem_of_fmap_2. }
  eexists. eapply (OwnJobEnds s _ i o [] j c p d n tr a ca m k (fun _ => false) 0 _ ErrorCode_Ok). unfold WorkerFinish. by rewrite Ht.
Qed.

(** Something can still move until nothing is left. *)
Lemma stopped_progress (x : Waits) : world_ok (world x) -> waits_ok x -> stopping (state (world x)) = true -> (exists y, OwnStep x y) \/ drained (world x).
Proof.
  intros Hw [V1 V2 V3 V4 V5] Hst. pose proof (w_account _ Hw) as Hok. pose proof (a_coordinator _ Hok) as Hco. pose proof (w_coordinator _ Hw) as (Hr & Hnone & Hout).
  pose proof (w_marks _ Hw) as Hm. unfold marks_ok in Hm. destruct x as [w a ca m]. cbn [world asleep coordAsleep notifying] in *. specialize (V4 Hst). specialize (V5 Hst).
  destruct (Z_lt_dec 0 m) as [Hm0|Hm0]; [left; eexists; by apply OwnNotify|].
  destruct (decide (jobs w = [])) as [Hj|Hj]; [|left; by apply job_can_end]. pose proof (no_jobs_queued w Hok Hj) as Hq.
  destruct w as [s i o j c p d n tr]. cbn [state idle jobs coordinator publishing] in *.
  destruct p as [|[k b code [] ow] p]; [|left; eexists; apply (OwnFinish s i o j c [] p)|left; eexists; apply (OwnAccount s i o j c [] p)].
  destruct (Z_lt_dec 0 i) as [Hi|Hi]; [left; eexists; apply OwnExit; [lia|done]|].
  destruct c as [| |k| |]; [right|left|left|done|right].
  - destruct (Hr (Hnone eq_refl)) as [E _]. unfold drained. cbn. split_and!; auto. lia.
  - destruct ca.
    { exfalso. destruct V5 as [?|[?|[Hne Hf]]]; [done|lia|cbn in *; lia|]. destruct (tasks s) as [|t l]; [done|]. inversion Hf as [|? ? Hs _]; subst. inversion Hm as [|? ? (_ & M & _) _]; subst.
      rewrite M in Hs; [done|apply Hq; by left]. }
    destruct (Coordinate (fun _ => false) 0 s) as [[t|t| |next] s'] eqn:E; eexists; [by eapply OwnSelect|by eapply OwnDrop|by eapply OwnCoordinateExit|by eapply OwnCoordinateWait].
  - destruct ca; [by specialize (V3 eq_refl)|]. eexists. apply OwnSignal.
  - destruct (Hout eq_refl) as [_ E]. unfold drained. cbn. split_and!; auto. lia.
Qed.

(** A drained executor has finished everything. *)
Lemma drained_finished (w : World) : Run w -> drained w -> pending (state w) = 0 /\ running (state w) = 0 /\ retained (state w) = 0
  /\ forall k, life k (trace w) = Some Fresh \/ exists code, life k (trace w) = Some (Gone code) /\ (k, code) ∈ done w.
Proof.
  intros Hrun (D1 & D2 & D3 & _). pose proof (run_world_ok _ Hrun) as [Hok _ _ Hl _]. destruct Hok as [H1 H2 H3 H4 H5 H6 H7 _ _ _ _ _]. rewrite D1, D2 in H7. rewrite D1 in H4. rewrite D3 in H6.
  split_and!; try done. intros k. destruct (Hl k) as (l & El & Hf). destruct l as [|c|c|code|code]; cbn [fits] in Hf; [by left| | | |right; by exists code].
  - destruct Hf as (t & Ht & _). rewrite D1 in Ht. by apply elem_of_nil in Ht.
  - destruct Hf as (t & Ht & _). rewrite D1 in Ht. by apply elem_of_nil in Ht.
  - destruct Hf as (q & Ht & _). rewrite D2 in Ht. by apply elem_of_nil in Ht.
Qed.

(** ** The theorems *)

(** A task starts only if every task submitted before it and still queued was cancelled. *)
Theorem task_order (w : World) (Hrun : Run w) (parents : Z -> bool) (now k : Z) (s' : State) (Ht : WorkerTake parents now (state w) = (TakenTask k, s')) :
  forall u, u ∈ tasks s' -> key u < k -> phase u = Queued -> cancelReason u <> ErrorCode_Ok.
Proof.
  intros u Hu Hk Hq. pose proof (run_ordered _ Hrun) as Ho. unfold ordered in Ho. unfold WorkerTake in Ht. destruct (stopping (state w)); [done|]. destruct (ready (state w)); [|done].
  destruct (Pick parents now (tasks (state w))) as [l [k'|]] eqn:E; [|done]. injection Ht as -> <-. apply pick_spec in E as (l1 & t & l2 & El & -> & Ek & _ & _ & _ & _ & Hf).
  cbn [set_tasks tasks] in Hu. rewrite El, map_app in Ho. cbn [map] in Ho. apply sorted_middle in Ho as [_ Ho]. apply elem_of_app in Hu as [Hu|[->|Hu]%elem_of_cons].
  - rewrite Forall_forall in Hf. by apply Hf.
  - done.
  - rewrite Forall_forall in Ho. specialize (Ho _ (list_elem_of_fmap_2 key _ _ Hu)). lia.
Qed.

(** C34. At every moment of every interleaving of callers, workers and the coordinator: pending is the number of queued tasks, running the number of jobs that run, each of a different task and
    on a worker of its own, and retained the bytes of the tasks of the list and of those not yet accounted by their publisher; all stay between zero and the configured limits. *)
Theorem task_accounting (w : World) (Hrun : Run w) :
  let s := state w in
  pending s = queued (tasks s) /\ 0 <= pending s <= maxPendingTasks s
  /\ running s = len (jobs w) /\ NoDup (jobs w) /\ running s <= workerCount s
  /\ (forall k, k ∈ jobs w <-> exists t, t ∈ tasks s /\ key t = k /\ phase t = Running)
  /\ retained s = task_bytes (tasks s) + pub_bytes (publishing w) /\ 0 <= retained s <= maxRetainedBytes s.
Proof.
  cbn zeta. pose proof (run_account _ Hrun) as Hok. pose proof (task_keys_nodup _ Hok) as Hn. destruct Hok as [H1 H2 H3 H4 H5 H6 H7 [H8 H8'] [H9 H9'] (T1 & T2 & T3) H11 H12].
  assert (Hin : forall k, k ∈ jobs w <-> exists t, t ∈ tasks (state w) /\ key t = k /\ phase t = Running).
  { intros k. rewrite H5. unfold in_jobs. rewrite list_elem_of_fmap. split; [intros (t & -> & [? ?]%list_elem_of_filter); by exists t|].
    intros (t & ? & <- & ?). exists t. split; [done|]. by apply list_elem_of_filter. }
  split_and!; try done.
  - rewrite H4. unfold queued. clear. induction (tasks (state w)) as [|t l IH]; [done|]. cbn [fold_right]. case_bool_decide; lia.
  - rewrite H5. unfold in_jobs. clear -Hn. induction (tasks (state w)) as [|t l IH]; [constructor|]. cbn [map] in Hn. apply NoDup_cons in Hn as [Ha Hb]. rewrite filter_cons. case_decide; [|auto].
    cbn [map]. apply NoDup_cons. split; [|auto]. intros (u & E & [_ Hu]%list_elem_of_filter)%list_elem_of_fmap. apply Ha. rewrite E. by apply list_elem_of_fmap_2.
  - pose proof (owned_nonneg ByWorker (publishing w)). lia.
  - rewrite H7. clear -H9 H9'. assert (0 <= task_bytes (tasks (state w))).
    { unfold task_bytes. induction (tasks (state w)) as [|t l IH]; [done|]. cbn [map] in H9. apply Forall_cons in H9 as [? ?]. cbn [fold_right]. specialize (IH H0). lia. }
    assert (0 <= pub_bytes (publishing w)); [|lia]. unfold pub_bytes. induction (publishing w) as [|p l IH]; [done|]. apply Forall_cons in H9' as [? ?]. cbn [fold_right]. destruct (accounted p); specialize (IH H1); lia.
Qed.

(** C26. Each task lives once.  It is submitted, then either starts on one worker and ends or is dropped unstarted, and is then finished once with the code of that end; a cancellation is accepted
    at most once and only before the end, after it the task never starts, and its code is Cancelled or Timeout; the coordinator drops a task only with such a code, and signals one that it does not drop only if it was started.
    At every moment the executor holds the task where its life says. *)
Theorem task_lives (w : World) (Hrun : Run w) : forall k, exists l, life k (trace w) = Some l /\ fits k w l.
Proof. exact (w_lives _ (run_world_ok _ Hrun)). Qed.

(** C35. After a stop request, however the threads interleave and with workers and coordinator that sleep in their waits until a notification wakes them, the steps of the executor's own threads,
    of their notifications and of the jobs that return come to an end after a bounded number, and they do not stop before everything is done: as long as a worker or the coordinator has not returned
    or a task is left, one of these steps can be taken (so no thread sleeps for ever); and in the end nothing is listed or half published, the counters are zero and every task ever submitted has been finished. *)
Theorem task_stop_drains (x : Waits) (Hrun : Reach x) (Hst : stopping (state (world x)) = true) :
  forall n y, nsteps OwnStep n x y ->
    Z.of_nat n <= work x
    /\ ((exists z, OwnStep y z)
        \/ (drained (world y) /\ pending (state (world y)) = 0 /\ running (state (world y)) = 0 /\ retained (state (world y)) = 0
            /\ forall k, life k (trace (world y)) = Some Fresh \/ exists code, life k (trace (world y)) = Some (Gone code) /\ (k, code) ∈ done (world y))).
Proof.
  intros n y Hn. revert Hrun Hst. induction Hn as [x|n x z y Hs _ IH]; intros Hrun Hst.
  - pose proof (reach_run _ Hrun) as R. pose proof (run_world_ok _ R) as Hw. pose proof (reach_waits _ Hrun) as Hv. split; [by pose proof (work_nonneg _ Hv); lia|].
    destruct (stopped_progress _ Hw Hv Hst) as [?|Hd]; [by left|right]. split; [done|]. by apply drained_finished.
  - destruct (own_step_decreases _ _ Hs (run_world_ok _ (reach_run _ Hrun)) (reach_waits _ Hrun) Hst) as [Hlt Hst']. destruct (IH (ReachOwn _ _ Hrun Hs) Hst') as [Hb Hp].
    split; [lia|done].
Qed.

(** One worker, three tasks: the first runs, the second was cancelled and dropped, and the third is queued when the stop comes. *)
Definition no_parent (k : Z) : bool := false.
Definition example_start : State := StartReady (StartBegin 1 4 100 NewState).2.
Definition example_one : State := (SubmitCommit 0 (MkTaskOptions 10 None) ErrorCode_Ok no_parent 0 example_start).2.
Definition example_two : State := (SubmitCommit 1 (MkTaskOptions 20 (Some 50)) ErrorCode_Ok no_parent 1 example_one).2.
Definition example_three : State := (SubmitCommit 2 (MkTaskOptions 30 None) ErrorCode_Ok no_parent 2 example_two).2.
Definition example_taken : State := (WorkerTake no_parent 3 example_three).2.
Definition example_cancelled : State := (Cancel 1 4 example_taken).2.
Definition example_dropped : State := (Coordinate no_parent 5 example_cancelled).2.
Definition example_world (stop : bool) : World :=
  MkWorld (if stop then RequestStop no_parent 6 example_dropped else example_dropped) 0 0 [0] CoordPublishing [MkPub 1 20 Cancelled false ByCoordinator] [] 3
    [Submitted 0; Submitted 1; Submitted 2; Started 0; CancelAccepted 1; Dropped 1 Cancelled].

Lemma example_run_tasks (stop : bool) : Run (example_world stop).
Proof.
  assert (R : Run (example_world false)).
  { change (example_world false) with (MkWorld example_dropped 0 0 [0] CoordPublishing
      [MkPub (key (MkTask 1 (MkTaskOptions 20 (Some 50)) Queued Cancelled true)) 20 (cancelReason (MkTask 1 (MkTaskOptions 20 (Some 50)) Queued Cancelled true)) false ByCoordinator] [] 3
      ([Submitted 0; Submitted 1; Submitted 2; Started 0; CancelAccepted 1] ++ [Dropped 1 Cancelled])).
    apply (RunThread (MkWorld example_cancelled 0 0 [0] CoordLoop [] [] 3 [Submitted 0; Submitted 1; Submitted 2; Started 0; CancelAccepted 1]));
      [|exact (StepDrop example_cancelled example_dropped 0 0 [0] [] [] 3 _ no_parent 5 (MkTask 1 (MkTaskOptions 20 (Some 50)) Queued Cancelled true) eq_refl)].
    apply (RunCall (MkWorld example_taken 0 0 [0] CoordLoop [] [] 3 [Submitted 0; Submitted 1; Submitted 2; Started 0]));
      [|exact (CallCancel example_taken example_cancelled 0 0 [0] CoordLoop [] [] 3 [Submitted 0; Submitted 1; Submitted 2; Started 0] 1 4 eq_refl)].
    apply (RunThread (MkWorld example_three 1 0 [] CoordLoop [] [] 3 [Submitted 0; Submitted 1; Submitted 2]));
      [|exact (StepTake example_three example_taken 1 0 [] CoordLoop [] [] 3 [Submitted 0; Submitted 1; Submitted 2] no_parent 3 0 eq_refl eq_refl)].
    apply (RunCall (MkWorld example_two 1 0 [] CoordLoop [] [] 2 [Submitted 0; Submitted 1]));
      [|exact (CallSubmit example_two example_three 1 0 [] CoordLoop [] [] 2 [Submitted 0; Submitted 1] (MkTaskOptions 30 None) ErrorCode_Ok no_parent 2 ltac:(done) (or_introl eq_refl) eq_refl)].
    apply (RunCall (MkWorld example_one 1 0 [] CoordLoop [] [] 1 [Submitted 0]));
      [|exact (CallSubmit example_one example_two 1 0 [] CoordLoop [] [] 1 [Submitted 0] (MkTaskOptions 20 (Some 50)) ErrorCode_Ok no_parent 1 ltac:(done) (or_introl eq_refl) eq_refl)].
    apply (RunCall (MkWorld example_start 1 0 [] CoordLoop [] [] 0 []));
      [|exact (CallSubmit example_start example_one 1 0 [] CoordLoop [] [] 0 [] (MkTaskOptions 10 None) ErrorCode_Ok no_parent 0 ltac:(done) (or_introl eq_refl) eq_refl)].
    apply (RunCall (MkWorld (StartBegin 1 4 100 NewState).2 1 0 [] CoordLoop [] [] 0 [])); [|by apply CallReady].
    apply (RunCall NewWorld); [apply RunStart|]. apply (CallStart NewState _ 0 0 [] CoordNone [] [] 0 [] 1 4 100 1 CoordLoop); [lia|lia|lia|by left|done]. }
  destruct stop; [|exact R]. apply (RunCall _ _ R). apply (CallRequestStop example_dropped).
Qed.

Lemma task_order_witness : Run (example_world false) /\ (WorkerTake no_parent 7 (state (example_world false))).1 = TakenTask 2
  /\ forall u, u ∈ tasks (WorkerTake no_parent 7 (state (example_world false))).2 -> key u < 2 -> phase u = Queued -> cancelReason u <> ErrorCode_Ok.
Proof.
  split; [apply example_run_tasks|]. split; [vm_compute; reflexivity|].
  apply (task_order (example_world false) (example_run_tasks false) no_parent 7 2). vm_compute. reflexivity.
Defined.

Lemma task_accounting_witness : Run (example_world false) /\ pending (state (example_world false)) = 1 /\ running (state (example_world false)) = 1
  /\ retained (state (example_world false)) = 60 /\ running (state (example_world false)) <= workerCount (state (example_world false)).
Proof.
  split; [apply example_run_tasks|]. destruct (task_accounting (example_world false) (example_run_tasks false)) as (A & _ & B & _ & C & _ & D & _).
  split; [rewrite A; vm_compute; reflexivity|]. split; [rewrite B; vm_compute; reflexivity|]. split; [rewrite D; vm_compute; reflexivity|exact C].
Defined.

Lemma task_lives_witness : Run (example_world true) /\ (exists l, life 1 (trace (example_world true)) = Some l /\ fits 1 (example_world true) l)
  /\ life 0 (trace (example_world true)) = Some (Active false) /\ life 1 (trace (example_world true)) = Some (Over Cancelled) /\ life 2 (trace (example_world true)) = Some (Waiting false)
  /\ life 1 [Submitted 1; CancelAccepted 1; Started 1] = None.
Proof.
  split; [apply example_run_tasks|]. split; [exact (task_lives (example_world true) (example_run_tasks true) 1)|]. repeat split; vm_compute; reflexivity.
Defined.

(** One worker and the coordinator, both asleep, when the stop is requested and before it is notified. *)
Definition sleeping_world : World := MkWorld example_start 1 0 [] CoordLoop [] [] 0 [].
Definition example_sleeping : Waits := MkWaits (MkWorld (RequestStop no_parent 6 example_start) 1 0 [] CoordLoop [] [] 0 []) 1 true 1.

Lemma example_sleeping_reach : Reach example_sleeping.
Proof.
  apply (ReachOutside (MkWaits sleeping_world 1 true 0)); [|apply (OutRequestStop example_start)].
  apply (ReachOwn (MkWaits sleeping_world 1 false 0)); [|exact (OwnCoordinateWait example_start example_start 1 0 [] [] [] 0 [] 1 0 no_parent 5 None eq_refl)].
  apply (ReachOwn (MkWaits sleeping_world 0 false 0)); [|exact (OwnWait example_start example_start 1 0 [] CoordLoop [] [] 0 [] 0 false 0 no_parent 4 ltac:(lia) eq_refl)].
  apply (ReachOwn (MkWaits sleeping_world 0 false 1)); [|by apply OwnNotify].
  apply (ReachOutside (MkWaits (MkWorld (StartBegin 1 4 100 NewState).2 1 0 [] CoordLoop [] [] 0 []) 0 false 0)); [|by apply OutReady].
  apply (ReachOutside NewWaits); [apply ReachStart|]. apply (OutStart NewState _ 0 0 [] CoordNone [] [] 0 [] 0 false 0 1 4 100 1 CoordLoop); [lia|lia|lia|by left|done].
Qed.

Lemma task_stop_drains_witness : Reach example_sleeping /\ stopping (state (world example_sleeping)) = true /\ work example_sleeping = 4
  /\ forall n y, nsteps OwnStep n example_sleeping y ->
    Z.of_nat n <= work example_sleeping
    /\ ((exists z, OwnStep y z)
        \/ (drained (world y) /\ pending (state (world y)) = 0 /\ running (state (world y)) = 0 /\ retained (state (world y)) = 0
            /\ forall k, life k (trace (world y)) = Some Fresh \/ exists code, life k (trace (world y)) = Some (Gone code) /\ (k, code) ∈ done (world y))).
Proof.
  split; [apply example_sleeping_reach|]. split; [vm_compute; reflexivity|]. split; [vm_compute; reflexivity|].
  exact (task_stop_drains example_sleeping example_sleeping_reach eq_refl).
Defined.
