(* ===== verification/Periodic.v ===== *)
(** * Runtime: periodic callbacks and ticks.

    [Runtime/PeriodicRunner.cpp|h]: a timing thread posts a callback to a job runner once per period, and counts the periods it
    leaves out; [Runtime/TickRunner.cpp|h]: the callback of a fixed-rate timer that turns times into numbered ticks.  The clock,
    what the job runner answers and what the callbacks do are arguments.  Times are numbers of ticks of the steady clock. *)

From Stdlib Require Import Sorted.
From stdpp Require Import gmap.
From S2P Require Import Prelude CoreError TimerScheduler.

Module PeriodicRunner.

Record State : Type := MkState {
  period : Z;
  skippedCount : Z;
  started : bool;
  stopRequested : bool;
  running : bool;
  callbackOutstanding : bool
}.

Definition NewState (period : Z) : State := MkState period 0 false false false false.

Definition set_stop (s : State) : State := MkState (period s) (skippedCount s) (started s) true (running s) (callbackOutstanding s).
Definition set_running (b : bool) (s : State) : State := MkState (period s) (skippedCount s) (started s) (stopRequested s) b (callbackOutstanding s).
Definition set_outstanding (b : bool) (s : State) : State := MkState (period s) (skippedCount s) (started s) (stopRequested s) (running s) b.
Definition add_skipped (n : Z) (s : State) : State := MkState (period s) (wrap64 (skippedCount s + n)) (started s) (stopRequested s) (running s) (callbackOutstanding s).

Definition Hours24 : Z := 24 * 3600 * 10 ^ 9.

(** [closed]: the job runner is gone or was stopped; [made]: what making the thread has come to. *)
Definition Start (closed callback : bool) (made : Status) (s : State) : Status * State :=
  if started s then (Status.Fail AlreadyExists "PeriodicRunner has already been started", s)
  else if stopRequested s || closed then (Status.Fail Closed "PeriodicRunner cannot start with a stopped JobRunner", s)
  else if period s <=? 0 then (Status.Fail InvalidArgument "PeriodicRunner period must be positive", s)
  else if Hours24 <? period s then (Status.Fail InvalidArgument "PeriodicRunner period cannot exceed 24 hours", s)
  else if negb callback then (Status.Fail InvalidArgument "PeriodicRunner callback cannot be empty", s)
  else
    match Status.Code made with
    | ErrorCode_Ok => (Status.Ok, MkState (period s) (skippedCount s) true (stopRequested s) true (callbackOutstanding s))
    | _ => (made, s)
    end.

(** One round of the timing thread after a wait that no stop has ended, at the time [now]: what it posts, and the next time.  [posted] is what [Post] answers. *)
Definition Round (now : Z) (posted : ErrorCode) (nextDue : Z) (s : State) : option Z * Z * State :=
  if now <? nextDue then (None, nextDue, s)
  else
    let lateness := now - nextDue in
    if period s <=? lateness then
      let skipped := Z.quot lateness (period s) + 1 in
      let remainder := Z.rem lateness (period s) in
      (None, now + (if remainder =? 0 then period s else period s - remainder), add_skipped skipped s)
    else
      let due := nextDue in
      let nextDue := nextDue + period s in
      if callbackOutstanding s then (None, nextDue, add_skipped 1 s)
      else if bool_decide (posted = ErrorCode_Ok) then (Some due, nextDue, set_outstanding true s)
      else
        let s := add_skipped 1 s in
        (None, nextDue, if bool_decide (posted = Closed) then set_stop s else s).

(** The end of the thread, the end of a callback, and [Stop]. *)
Definition RunTimerEnd (s : State) : State := set_running false s.
Definition RunCallbackEnd (s : State) : State := set_outstanding false s.
Definition StopBegin (s : State) : State := set_stop s.

Inductive Thread : Type := NotStarted | Timing (nextDue : Z) | Ended.

(** The timing thread, the callback that the job runner holds, the first time, the times that were posted and when, and the periods left out. *)
Record World : Type := MkWorld { state : State; thread : Thread; callbacks : Z; first : Z; postedAt : list (Z * Z); skipped : Z }.

Inductive Step : World -> World -> Prop :=
| StepStart (s s' : State) (f : Z) (now : Z) (closed : bool) :
    Start closed true Status.Ok s = (Status.Ok, s') -> Step (MkWorld s NotStarted 0 f [] 0) (MkWorld s' (Timing (now + period s)) 0 (now + period s) [] 0)
| StepPost (s s' : State) (d d' due c f k now : Z) (p : list (Z * Z)) (code : ErrorCode) :
    stopRequested s = false -> Round now code d s = (Some due, d', s') -> Step (MkWorld s (Timing d) c f p k) (MkWorld s' (Timing d') (c + 1) f (p ++ [(due, now)]) k)
| StepSkip (s s' : State) (d d' c f k now : Z) (p : list (Z * Z)) (code : ErrorCode) :
    stopRequested s = false -> Round now code d s = (None, d', s') -> Step (MkWorld s (Timing d) c f p k) (MkWorld s' (Timing d') c f p (k + (d' - d) / period s))
| StepTimerEnd (s : State) (d c f k : Z) (p : list (Z * Z)) : stopRequested s = true -> Step (MkWorld s (Timing d) c f p k) (MkWorld (RunTimerEnd s) Ended c f p k)
| StepCallback (s : State) (t : Thread) (c f k : Z) (p : list (Z * Z)) : 0 < c -> Step (MkWorld s t c f p k) (MkWorld (RunCallbackEnd s) t (c - 1) f p k)
| StepStop (s : State) (t : Thread) (c f k : Z) (p : list (Z * Z)) : Step (MkWorld s t c f p k) (MkWorld (StopBegin s) t c f p k).

Inductive Run (period : Z) : World -> Prop :=
| RunNew : Run period (MkWorld (NewState period) NotStarted 0 0 [] 0)
| RunStep (w w' : World) : Run period w -> Step w w' -> Run period w'.

End PeriodicRunner.

Module TickRunner.

Inductive TickLagPolicy : Type := Skip | CatchUp | OtherPolicy.

#[global] Instance TickLagPolicy_eq_dec : EqDecision TickLagPolicy.
Proof. solve_decision. Defined.

(** The interval is in milliseconds. *)
Record TickOptions : Type := MkTickOptions { interval : Z; lagPolicy : TickLagPolicy; maxCatchUp : Z; retainedBytes : Z }.

Record TickInfo : Type := MkTickInfo { index : Z; scheduled : Z; actual : Z; lateness : Z; skippedBefore : Z }.

Record TickMetrics : Type := MkTickMetrics { executed : Z; skipped : Z; lastLateness : Z; maxLateness : Z }.

(** What the callback of the timer keeps: the next tick, counted from zero, and the shared metrics. *)
Record TickState : Type := MkTickState { next : Z; metrics : TickMetrics }.
Definition NewTickState : TickState := MkTickState 0 (MkTickMetrics 0 0 0 0).

Definition MillisecondTicks : Z := 10 ^ 6.

(** [stateBytes] is the size of the shared state. *)
Definition ScheduleTicks (k : Z) (callback parentStopped : bool) (stateBytes now : Z) (o : TickOptions) (scheduler : TimerScheduler.State) : Result Z * TimerScheduler.State :=
  let fail code := (FromStatus (Status.FailWithoutMessage code), scheduler) in
  if negb callback || (interval o <=? 0) || (24 * 3600 * 1000 <? interval o) || (maxCatchUp o =? 0) || (1024 <? maxCatchUp o)
     || bool_decide (lagPolicy o = OtherPolicy) then fail InvalidArgument
  else if SIZE_MAX - stateBytes <? retainedBytes o then fail TooLarge
  else
    let interval := interval o * MillisecondTicks in
    if TimerScheduler.TIME_MAX - now <? interval then fail TooLarge
    else TimerScheduler.Schedule k true parentStopped (TimerScheduler.MkTimerOptions (now + interval) interval (retainedBytes o + stateBytes) TimerScheduler.FixedRate) scheduler.

Definition MaxCalls (o : TickOptions) : Z := if bool_decide (lagPolicy o = Skip) then 1 else maxCatchUp o.

(** What one call meets: whether a stop was requested, the clock, and what the work answers. *)
Record Call : Type := MkCall { stopSeen : bool; startedAt : Z; answer : ErrorCode }.

Definition Executed (tick : TickInfo) (m : TickMetrics) : TickMetrics :=
  MkTickMetrics (executed m + 1) (skipped m) (lateness tick) (Z.max (maxLateness m) (lateness tick)).

Fixpoint CallLoop (epoch interval skippedFirst : Z) (calls : list Call) (s : TickState) : ErrorCode * TickState * list TickInfo :=
  match calls with
  | [] => (ErrorCode_Ok, s, [])
  | c :: calls =>
      if stopSeen c then (Cancelled, s, [])
      else
        let logical := epoch + interval * next s in
        let tick := MkTickInfo (next s + 1) logical (startedAt c) (startedAt c - logical) skippedFirst in
        let s := MkTickState (next s + 1) (Executed tick (metrics s)) in
        if negb (bool_decide (answer c = ErrorCode_Ok)) then (answer c, s, [tick])
        else let '(r, s, l) := CallLoop epoch interval 0 calls s in (r, s, tick :: l)
  end.

(** The callback of the timer; [call] gives what its calls meet. *)
Definition Wake (epoch interval maxCalls actual : Z) (call : nat -> Call) (s : TickState) : ErrorCode * TickState * list TickInfo :=
  if actual <? epoch then (ErrorCode_Ok, s, [])
  else
    let due := Z.quot (actual - epoch) interval + 1 in
    if due <=? next s then (ErrorCode_Ok, s, [])
    else
      let count := Z.min (due - next s) maxCalls in
      let skip := due - next s - count in
      let m := metrics s in
      CallLoop epoch interval skip (map call (seq 0 (Z.to_nat count)))
        (MkTickState (next s + skip) (MkTickMetrics (executed m) (skipped m + skip) (lastLateness m) (maxLateness m))).

(** The wakes of a timer, one after the other, until one does not answer Ok. *)
Fixpoint Wakes (epoch interval maxCalls : Z) (wakes : list (Z * (nat -> Call))) (s : TickState) : ErrorCode * TickState * list TickInfo :=
  match wakes with
  | [] => (ErrorCode_Ok, s, [])
  | (actual, call) :: wakes =>
      let '(r, s, l) := Wake epoch interval maxCalls actual call s in
      if bool_decide (r = ErrorCode_Ok) then let '(r, s, l') := Wakes epoch interval maxCalls wakes s in (r, s, l ++ l') else (r, s, l)
  end.

End TickRunner.

(** ** Periods *)

Section Periods.
Import PeriodicRunner.

(** What a round does, in periods: it waits, leaves some out, or posts the one whose time has come. *)
Lemma round_spec (now d d' : Z) (posted : ErrorCode) (s s' : State) (r : option Z) : 0 < period s -> Round now posted d s = (r, d', s') ->
  period s' = period s /\ started s' = started s /\ running s' = running s
  /\ exists k, 0 <= k /\ d' = d + k * period s
     /\ match r with
        | Some due => k = 1 /\ due = d /\ d <= now < d + period s /\ callbackOutstanding s = false /\ callbackOutstanding s' = true /\ skippedCount s' = skippedCount s
            /\ stopRequested s' = stopRequested s
        | None => (k = 0 -> s' = s) /\ (now < d -> k = 0) /\ callbackOutstanding s' = callbackOutstanding s /\ (0 < k -> skippedCount s' = wrap64 (skippedCount s + k))
            /\ (0 < k -> d + (k - 1) * period s <= now < d')
        end.
Proof.
  intros Hp. unfold Round. destruct (Z.ltb_spec now d) as [E1|E1].
  { intros [= <- <- <-]. split_and!; try done. exists 0. split_and!; try done; lia. }
  cbn zeta. destruct (Z.leb_spec (period s) (now - d)) as [E2|E2].
  - intros [= <- <- <-]. split_and!; try done. exists (Z.quot (now - d) (period s) + 1). rewrite Z.quot_div_nonneg, Z.rem_mod_nonneg by lia.
    pose proof (Z.div_mod (now - d) (period s) ltac:(lia)) as Hd. pose proof (Z.mod_pos_bound (now - d) (period s) Hp) as Hm. pose proof (Z.div_le_mono (period s) (now - d) (period s) Hp E2) as Hq.
    rewrite Z.div_same in Hq by lia. set (q := (now - d) / period s) in *. set (m := (now - d) mod period s) in *.
    assert (Hn : now + (if m =? 0 then period s else period s - m) = d + (q + 1) * period s) by (destruct (Z.eqb_spec m 0); nia).
    split_and!; try done; try lia.
  - destruct (callbackOutstanding s) eqn:Eo; [intros [= <- <- <-]; split_and!; try done; exists 1; split_and!; try done; lia|].
    case_bool_decide as Ep; [intros [= <- <- <-]; split_and!; try done; exists 1; split_and!; try done; lia|].
    intros [= <- <- <-]. case_bool_decide; split_and!; try done; exists 1; split_and!; try done; lia.
Qed.

Definition slots (w : World) : list Z := map (fun p => (p.1 - first w) / period (state w)) (postedAt w).

Record periodic_ok (p : Z) (w : World) : Prop := MkPeriodicOk {
  p_period : period (state w) = p;
  p_positive : thread w <> NotStarted -> 0 < p <= Hours24;
  p_new : thread w = NotStarted -> started (state w) = false /\ callbacks w = 0 /\ postedAt w = [] /\ skipped w = 0 /\ skippedCount (state w) = 0 /\ callbackOutstanding (state w) = false;
  p_due : forall d, thread w = Timing d -> d = first w + p * (len (postedAt w) + skipped w) /\ Forall (fun x => x.1 + p <= d) (postedAt w);
  p_skipped : 0 <= skipped w /\ skippedCount (state w) = wrap64 (skipped w);
  p_one : callbacks w = if callbackOutstanding (state w) then 1 else 0;
  p_posted : Forall (fun x => exists k, 0 <= k /\ x.1 = first w + k * p /\ x.1 <= x.2 < x.1 + p) (postedAt w);
  p_order : StronglySorted (fun x y => x.1 + p <= y.1 /\ x.2 < y.2) (postedAt w)
}.

Lemma periodic_post (p : Z) (s s' : State) (d d' due c f k now : Z) (ps : list (Z * Z)) (code : ErrorCode) :
  Round now code d s = (Some due, d', s') -> periodic_ok p (MkWorld s (Timing d) c f ps k) -> periodic_ok p (MkWorld s' (Timing d') (c + 1) f (ps ++ [(due, now)]) k).
Proof.
  intros Hr [H1 H2 H3 H4 H5 H6 H7 H8]. cbn [state thread callbacks first postedAt skipped] in *. destruct (H4 d eq_refl) as [Hd Hf]. destruct (H2 ltac:(done)) as [Hp Hh]. rewrite <-H1 in Hp.
  destruct (round_spec _ _ _ _ _ _ _ Hp Hr) as (R1 & R2 & R3 & j & Hj & Ed & -> & -> & Hn & O1 & O2 & Hs & _). rewrite H1 in *. constructor; cbn [state thread callbacks first postedAt skipped]; try done.
  - intros d0 [= <-]. split; [rewrite len_app; unfold len at 2; cbn [length]; lia|]. apply Forall_app. split; [|constructor; [cbn; lia|done]].
    eapply Forall_impl; [exact Hf|]. cbn. intros x Hx. lia.
  - by rewrite Hs.
  - rewrite O1 in H6. rewrite O2. lia.
  - apply Forall_app. split; [done|]. constructor; [|done]. exists (len ps + k). unfold len in *. cbn [fst snd]. split_and!; lia.
  - apply sorted_append; [done|]. rewrite Forall_forall in *. intros x Hx. specialize (Hf x Hx). destruct (H7 x Hx) as (i & _ & _ & Hb). cbn [fst snd]. lia.
Qed.

Lemma periodic_skip (p : Z) (s s' : State) (d d' c f k now : Z) (ps : list (Z * Z)) (code : ErrorCode) :
  Round now code d s = (None, d', s') -> periodic_ok p (MkWorld s (Timing d) c f ps k) -> periodic_ok p (MkWorld s' (Timing d') c f ps (k + (d' - d) / period s)).
Proof.
  intros Hr [H1 H2 H3 H4 H5 H6 H7 H8]. cbn [state thread callbacks first postedAt skipped] in *. destruct (H4 d eq_refl) as [Hd Hf]. destruct (H2 ltac:(done)) as [Hp Hh]. rewrite <-H1 in Hp.
  destruct (round_spec _ _ _ _ _ _ _ Hp Hr) as (R1 & R2 & R3 & j & Hj & -> & Z0 & Z1 & O & Hs & _).
  replace ((d + j * period s - d) / period s) with j by (rewrite Z.add_simpl_l, Z.div_mul; lia). rewrite H1 in *. constructor; cbn [state thread callbacks first postedAt skipped]; try done.
  - intros d0 [= <-]. split; [lia|]. eapply Forall_impl; [exact Hf|]. cbn. intros x Hx. nia.
  - split; [lia|]. destruct (Z.eq_dec j 0) as [->|Hj0]; [rewrite (Z0 eq_refl), Z.add_0_r; apply H5|]. rewrite Hs by lia. destruct H5 as [_ ->]. apply wrap64_add.
  - by rewrite O.
Qed.

Lemma periodic_step (p : Z) (w w' : World) : Step w w' -> periodic_ok p w -> periodic_ok p w'.
Proof.
  intros Hs Hok. destruct Hs; [|by eapply periodic_post|by eapply periodic_skip| | |].
  - destruct Hok as [H1 H2 H3 H4 H5 H6 H7 H8]. cbn [state thread callbacks first postedAt skipped] in *. destruct (H3 eq_refl) as (N1 & _ & _ & _ & N5 & N6). unfold Start in H. rewrite N1 in H.
    destruct (stopRequested s || closed); [done|]. destruct (Z.leb_spec (period s) 0); [done|]. destruct (Z.ltb_spec Hours24 (period s)); [done|]. injection H as <-.
    constructor; cbn [state thread callbacks first postedAt skipped]; try done; [|intros d [= <-]; change (len (@nil (Z * Z))) with 0; split; [lia|done]]. intros _. lia.
  - destruct Hok as [H1 H2 H3 H4 H5 H6 H7 H8]. constructor; cbn [state thread callbacks first postedAt skipped] in *; try done. intros _. by apply H2.
  - destruct Hok as [H1 H2 H3 H4 H5 H6 H7 H8]. cbn [state thread callbacks first postedAt skipped] in *. constructor; cbn [state thread callbacks first postedAt skipped]; try done.
    + intros E. destruct (H3 E) as (_ & E0 & _). lia.
    + cbn. destruct (callbackOutstanding s); lia.
  - destruct Hok as [H1 H2 H3 H4 H5 H6 H7 H8]. by constructor.
Qed.

Lemma run_periodic (p : Z) (w : World) : Run p w -> periodic_ok p w.
Proof. induction 1 as [|w w' H IH Hs]; [|by eapply periodic_step]. constructor; try done. constructor. Qed.

(** Over every interleaving of the timing thread, the job runner and callers that stop it: the time of the next round is the first plus one period for each callback that was accepted and each
    that was left out, so that a period is never lost and never counted twice; a callback is posted only within its own period, after the callbacks of earlier ones, and only when the one
    before has returned; and the counter holds the number of periods left out, modulo its width. *)
Theorem periodic_grid (p : Z) (w : World) (Hrun : Run p w) :
  (forall d, thread w = Timing d -> d = first w + p * (len (postedAt w) + skipped w))
  /\ skippedCount (state w) = wrap64 (skipped w)
  /\ Forall (fun x => exists k, 0 <= k /\ x.1 = first w + k * p /\ x.1 <= x.2 < x.1 + p) (postedAt w)
  /\ StronglySorted (fun x y => x.1 + p <= y.1 /\ x.2 < y.2) (postedAt w)
  /\ callbacks w = (if callbackOutstanding (state w) then 1 else 0)
  /\ forall w', Step w w' -> stopRequested (state w) = true -> postedAt w' = postedAt w \/ thread w = NotStarted.
Proof.
  destruct (run_periodic _ _ Hrun) as [H1 H2 H3 H4 H5 H6 H7 H8]. split_and!; try done.
  - intros d E. by apply H4.
  - apply H5.
  - intros w' Hs Hst. destruct Hs; cbn [thread postedAt state] in *; auto; congruence.
Qed.

End Periods.

(** ** Ticks *)

Section Ticks.
Import TickRunner.

(** The numbers of the ticks go up, and each tick says how many were left out before it. *)
Fixpoint numbered (n : Z) (l : list TickInfo) : Prop :=
  match l with
  | [] => True
  | t :: l => 0 <= skippedBefore t /\ index t = n + 1 + skippedBefore t /\ numbered (index t) l
  end.

Definition last_index (n : Z) (l : list TickInfo) : Z := match last l with Some t => index t | None => n end.

Lemma numbered_app (n : Z) (a b : list TickInfo) : numbered n a -> numbered (last_index n a) b -> numbered n (a ++ b).
Proof.
  revert n. induction a as [|t a IH]; intros n Ha Hb; [done|]. destruct Ha as (H1 & H2 & H3). cbn [app numbered]. split_and!; try done. apply IH; [done|].
  unfold last_index in *. destruct a as [|u a]; [done|]. cbn [last] in *. by destruct (last (u :: a)) eqn:E; [|apply last_None in E].
Qed.

Definition tick_ok (epoch interval : Z) (t : TickInfo) : Prop := scheduled t = epoch + interval * (index t - 1) /\ lateness t = actual t - scheduled t.

Lemma call_loop_spec (epoch interval sk : Z) (calls : list Call) (s s' : TickState) (r : ErrorCode) (l : list TickInfo) : 0 <= sk -> CallLoop epoch interval sk calls s = (r, s', l) ->
  next s' = next s + len l /\ executed (metrics s') = executed (metrics s) + len l /\ skipped (metrics s') = skipped (metrics s) /\ len l <= len calls
  /\ (r = ErrorCode_Ok -> len l = len calls) /\ numbered (next s - sk) l /\ last_index (next s) l = next s' /\ Forall (tick_ok epoch interval) l
  /\ Forall (fun t => index t <= next s + len calls) l /\ map actual l = map startedAt (take (length l) calls).
Proof.
  revert sk s r s' l. induction calls as [|c calls IH]; intros sk s r s' l Hsk; cbn [CallLoop].
  { intros [= <- <- <-]. unfold len, last_index. cbn. split_and!; try done; lia. }
  destruct (stopSeen c); [intros [= <- <- <-]; unfold len, last_index; cbn; split_and!; try done; lia|]. cbn zeta.
  assert (Hlen : len (c :: calls) = len calls + 1) by (unfold len; cbn [length]; lia). assert (0 <= len calls) by (unfold len; lia).
  set (tick := MkTickInfo (next s + 1) (epoch + interval * next s) (startedAt c) (startedAt c - (epoch + interval * next s)) sk).
  assert (Htick : tick_ok epoch interval tick) by (split; unfold tick; cbn; [f_equal; f_equal; lia|done]).
  case_bool_decide as Ea; cbn [negb].
  - destruct (CallLoop epoch interval 0 calls _) as [[r1 s1] l1] eqn:E. intros [= <- <- <-]. apply IH in E as (H1 & H2 & H3 & H4 & H5 & H6 & H7 & H8 & H9 & H10); [|lia].
    cbn [next metrics Executed executed skipped] in *. assert (Hl : len (tick :: l1) = len l1 + 1) by (unfold len; cbn [length]; lia). rewrite Hl, Hlen. split_and!; try lia.
    + cbn [numbered]. split_and!; [done|unfold tick; cbn; lia|]. change (index tick) with (next s + 1). by rewrite Z.sub_0_r in H6.
    + unfold last_index in *. destruct l1 as [|u l1]; [done|]. cbn [last] in *. by destruct (last (u :: l1)) eqn:El; [|apply last_None in El].
    + by constructor.
    + constructor; [unfold tick; cbn; lia|]. eapply Forall_impl; [exact H9|]. cbn. intros. lia.
    + cbn [map length take]. by rewrite H10.
  - intros [= <- <- <-]. rewrite Hlen. unfold len, last_index, tick. cbn. split_and!; try done; try lia. all: repeat constructor; try done; cbn; lia.
Qed.

(** One wake of the timer. *)
Lemma wake_spec (epoch interval maxCalls now : Z) (call : nat -> Call) (s s' : TickState) (r : ErrorCode) (l : list TickInfo) :
  0 < interval -> 1 <= maxCalls -> 0 <= next s -> Wake epoch interval maxCalls now call s = (r, s', l) ->
  (executed (metrics s') + skipped (metrics s') - next s' = executed (metrics s) + skipped (metrics s) - next s) /\ executed (metrics s') = executed (metrics s) + len l
  /\ len l <= maxCalls /\ numbered (next s) l /\ (r = ErrorCode_Ok -> next s' = last_index (next s) l) /\ next s <= next s' /\ skipped (metrics s) <= skipped (metrics s')
  /\ Forall (tick_ok epoch interval) l /\ Forall (fun t => scheduled t <= now) l
  /\ (epoch <= now -> r = ErrorCode_Ok -> next s' = Z.max (next s) ((now - epoch) / interval + 1)) /\ (epoch <= now -> next s' <= Z.max (next s) ((now - epoch) / interval + 1))
  /\ (now < epoch -> l = [] /\ s' = s) /\ Forall (fun t => exists i, actual t = startedAt (call i)) l.
Proof.
  intros Hi Hm Hn. unfold Wake. destruct (Z.ltb_spec now epoch) as [E1|E1].
  { intros [= <- <- <-]. unfold len, last_index. cbn. split_and!; try done; lia. }
  cbn zeta. rewrite Z.quot_div_nonneg by lia. set (due := (now - epoch) / interval + 1). destruct (Z.leb_spec due (next s)) as [E2|E2].
  { intros [= <- <- <-]. unfold len, last_index. cbn. split_and!; try done; lia. }
  set (count := Z.min (due - next s) maxCalls). assert (Hc : 1 <= count) by lia. assert (Hcd : count <= due - next s) by lia. assert (Hcm : count <= maxCalls) by lia.
  intros E. apply call_loop_spec in E as (H1 & H2 & H3 & H4 & H5 & H6 & H7 & H8 & H9 & H10); [|lia]. cbn [next metrics executed skipped] in *.
  assert (Hlen : len (map call (seq 0 (Z.to_nat count))) = count) by (unfold len; rewrite length_map, length_seq; lia). rewrite Hlen in *. assert (0 <= len l) by (unfold len; lia).
  replace (next s + (due - next s - count) - (due - next s - count)) with (next s) in H6 by lia. split_and!; try done; try lia.
  - intros Hr. specialize (H5 Hr). unfold last_index in *. destruct (last l) as [t|] eqn:El; [done|]. apply last_None in El. subst l. unfold len in H5. cbn in H5. lia.
  - rewrite Forall_forall in *. intros t Ht. destruct (H8 t Ht) as [-> _]. specialize (H9 t Ht). assert (index t <= due) by lia.
    pose proof (Z.mul_div_le (now - epoch) interval Hi). assert (index t - 1 <= (now - epoch) / interval) by lia. nia.
  - assert (Ha : Forall (fun a => exists i, a = startedAt (call i)) (map actual l)); [rewrite H10|apply (proj1 (Forall_fmap _ _ _)) in Ha; exact Ha]. apply Forall_fmap. apply Forall_take. apply Forall_fmap, Forall_forall. intros i _. by exists i.
Qed.

(** The calls of a wake are for consecutive ticks, all of them when the wake answers Ok. *)
Lemma call_loop_indices (epoch interval sk : Z) (calls : list Call) (s s' : TickState) (r : ErrorCode) (l : list TickInfo) :
  CallLoop epoch interval sk calls s = (r, s', l) ->
  map index l = seqZ (next s + 1) (len l) /\ len l <= len calls /\ (r = ErrorCode_Ok -> len l = len calls).
Proof.
  revert sk s s' r l. induction calls as [|c calls IH]; intros sk s s' r l; cbn [CallLoop]; [by intros [= <- <- <-]|].
  assert (Hlen : len (c :: calls) = len calls + 1) by (unfold len; cbn [length]; lia). pose proof (len_nonneg calls).
  destruct (stopSeen c); [intros [= <- <- <-]; split_and!; [done|unfold len; cbn; lia|done]|]. case_bool_decide as Ea; cbn [negb].
  - destruct (CallLoop epoch interval 0 calls _) as [[r1 s1] l1] eqn:E. intros [= <- <- <-]. apply IH in E as (H1 & H2 & H3). cbn [next] in H1.
    set (tick := MkTickInfo _ _ _ _ _). assert (Hl : len (tick :: l1) = len l1 + 1) by (unfold len; cbn [length]; lia). pose proof (len_nonneg l1). rewrite Hl, Hlen.
    split_and!; [|lia|intros Hr; by rewrite (H3 Hr)]. cbn [map]. rewrite H1, (seqZ_cons (next s + 1) (len l1 + 1)) by lia. cbn [index tick]. f_equal. f_equal; lia.
  - intros [= <- <- <-]. rewrite Hlen. split_and!; [done|unfold len; cbn; lia|done].
Qed.

(** The ticks that are due at [now] and were not counted. *)
Definition ticks_due (epoch interval now : Z) (s : TickState) : Z := if now <? epoch then 0 else Z.max 0 ((now - epoch) / interval + 1 - next s).

(** A wake calls the latest of the due ticks: of as many as it may call, the consecutive numbers that end with the last tick due, from the first of
    them on and, unless the work failed or was cancelled, up to the last. *)
Definition latest_due (epoch interval maxCalls now : Z) (s : TickState) (r : ErrorCode) (l : list TickInfo) : Prop :=
  let due := ticks_due epoch interval now s in
  let count := Z.min due maxCalls in
  map index l = seqZ (next s + due - count + 1) (len l) /\ len l <= count /\ (r = ErrorCode_Ok -> len l = count).

Lemma wake_latest (epoch interval maxCalls now : Z) (call : nat -> Call) (s s' : TickState) (r : ErrorCode) (l : list TickInfo) :
  0 < interval -> 1 <= maxCalls -> Wake epoch interval maxCalls now call s = (r, s', l) -> latest_due epoch interval maxCalls now s r l.
Proof.
  intros Hi Hm. unfold Wake, latest_due, ticks_due. destruct (Z.ltb_spec now epoch) as [E1|E1]; [intros [= <- <- <-]; split_and!; [done|unfold len; cbn; lia|intros _; unfold len; cbn; lia]|].
  cbn zeta. rewrite Z.quot_div_nonneg by lia. set (due := (now - epoch) / interval + 1). destruct (Z.leb_spec due (next s)) as [E2|E2].
  { rewrite Z.max_l by lia. intros [= <- <- <-]. split_and!; [done|unfold len; cbn; lia|intros _; unfold len; cbn; lia]. }
  rewrite Z.max_r by lia. intros (H1 & H2 & H3)%call_loop_indices. cbn [next] in H1. unfold len in H2, H3. rewrite length_map, length_seq, Z2Nat.id in H2, H3 by lia.
  split_and!; [|done..]. rewrite H1. f_equal. lia.
Qed.

(** A tick runner that was scheduled has a timer on its grid, and options within their limits. *)
Lemma schedule_ticks_ok (k k' : Z) (callback stopped : bool) (stateBytes now : Z) (o : TickOptions) (sch sch' : TimerScheduler.State) :
  ScheduleTicks k callback stopped stateBytes now o sch = (FromValue k', sch') ->
  0 < interval o <= 24 * 3600 * 1000 /\ maxCatchUp o <> 0 /\ maxCatchUp o <= 1024 /\ now + interval o * MillisecondTicks <= TimerScheduler.TIME_MAX
  /\ TimerScheduler.timers sch' = TimerScheduler.timers sch
       ++ [TimerScheduler.NewTimer k (TimerScheduler.MkTimerOptions (now + interval o * MillisecondTicks) (interval o * MillisecondTicks) (retainedBytes o + stateBytes) TimerScheduler.FixedRate) stopped].
Proof.
  unfold ScheduleTicks. cbn zeta. destruct (_ || bool_decide _) eqn:E; [done|]. apply orb_false_iff in E as [E _]. repeat (apply orb_false_iff in E as [E ?]).
  destruct (_ <? retainedBytes o); [done|]. destruct (Z.ltb_spec (TimerScheduler.TIME_MAX - now) (interval o * MillisecondTicks)); [done|]. intros Hs. unfold TimerScheduler.Schedule in Hs.
  destruct (_ || _ || _) in Hs; [done|]. destruct (_ || _) in Hs; [done|]. destruct (_ <? _) in Hs; [done|]. destruct (_ || _) in Hs; [done|]. injection Hs as _ <-. split_and!; try lia. done.
Qed.

(** C37. Whatever the times at which its timer wakes it, a tick runner calls its work for numbered ticks that go up from 1, each tick says how many were left out since the one before, none is
    called before its time on the grid (so lateness is not negative when the clock does not go back), and every tick up to the last is counted as executed or as left out, once.  A wake calls at
    most maxCatchUp ticks (one, when lag is skipped), consecutive ones that end with the last tick that is due, and calls all of them unless the work failed or was cancelled: only then may due
    ticks stay uncounted. *)
Theorem tick_numbers (o : TickOptions) (epoch : Z) (wakes : list (Z * (nat -> Call))) (s' : TickState) (r : ErrorCode) (l : list TickInfo) :
  let interval := interval o * MillisecondTicks in
  0 < TickRunner.interval o -> 1 <= maxCatchUp o -> Wakes epoch interval (MaxCalls o) wakes NewTickState = (r, s', l) ->
  numbered 0 l /\ Forall (tick_ok epoch interval) l
  /\ Forall (fun t => exists w i, w ∈ wakes /\ scheduled t <= w.1 /\ actual t = startedAt (w.2 i)) l
  /\ ((forall w i, w ∈ wakes -> w.1 <= startedAt (w.2 i)) -> Forall (fun t => 0 <= lateness t) l)
  /\ executed (metrics s') = len l /\ executed (metrics s') + skipped (metrics s') = next s'
  /\ (r = ErrorCode_Ok -> next s' = fold_left (fun n w => if w.1 <? epoch then n else Z.max n ((w.1 - epoch) / interval + 1)) wakes 0)
  /\ (forall w, w ∈ wakes -> forall s, 0 <= next s -> len (Wake epoch interval (MaxCalls o) w.1 w.2 s).2 <= MaxCalls o)
  /\ (forall w, w ∈ wakes -> forall s r1 s1 l1, Wake epoch interval (MaxCalls o) w.1 w.2 s = (r1, s1, l1) -> latest_due epoch interval (MaxCalls o) w.1 s r1 l1).
Proof.
  cbn zeta. intros Hi Hm. assert (Hpos : 0 < interval o * MillisecondTicks) by (unfold MillisecondTicks; lia). set (iv := interval o * MillisecondTicks) in *.
  assert (Hmax : 1 <= MaxCalls o) by (unfold MaxCalls; case_bool_decide; lia).
  assert (G : forall ws s s' r l, 0 <= next s -> Wakes epoch iv (MaxCalls o) ws s = (r, s', l) ->
    numbered (next s) l /\ Forall (tick_ok epoch iv) l /\ Forall (fun t => exists w i, w ∈ ws /\ scheduled t <= w.1 /\ actual t = startedAt (w.2 i)) l /\ executed (metrics s') = executed (metrics s) + len l
    /\ executed (metrics s') + skipped (metrics s') - next s' = executed (metrics s) + skipped (metrics s) - next s
    /\ (r = ErrorCode_Ok -> next s' = fold_left (fun n w => if w.1 <? epoch then n else Z.max n ((w.1 - epoch) / iv + 1)) ws (next s))).
  { clear s' r l. induction ws as [|[now call] ws IH]; intros s s' r l Hs; cbn [Wakes].
    { intros [= <- <- <-]. unfold len. cbn. split_and!; try done; lia. }
    destruct (Wake epoch iv (MaxCalls o) now call s) as [[r1 s1] l1] eqn:E1. apply wake_spec in E1 as (A1 & A2 & _ & A4 & A5 & A6 & _ & A8 & A9 & A10 & _ & A12 & A13); [|done..].
    assert (Hw : Forall (fun t => exists w i, w ∈ (now, call) :: ws /\ scheduled t <= w.1 /\ actual t = startedAt (w.2 i)) l1).
    { rewrite Forall_forall in *. intros t Ht. destruct (A13 t Ht) as [i Hi']. exists (now, call), i. split_and!; [by left|by apply A9|done]. }
    case_bool_decide as Er; [|by intros [= <- <- <-]; split_and!; try done; intros ->].
    destruct (Wakes epoch iv (MaxCalls o) ws s1) as [[r2 s2] l2] eqn:E2. intros [= <- <- <-]. destruct (IH s1 s2 r2 l2 ltac:(lia) E2) as (B1 & B2 & B3 & B4 & B5 & B6).
    rewrite len_app. split_and!; try lia.
    - apply numbered_app; [done|]. by rewrite <-(A5 Er).
    - by apply Forall_app.
    - apply Forall_app. split; [done|]. eapply Forall_impl; [exact B3|]. intros t (w & i & Hw' & Ht). exists w, i. split; [by right|done].
    - intros Hr. rewrite (B6 Hr). cbn [fold_left fst]. destruct (Z.ltb_spec now epoch) as [El|El]; [by destruct (A12 El) as [_ ->]|]. by rewrite (A10 El Er). }
  intros H. destruct (G wakes NewTickState s' r l ltac:(done) H) as (B1 & B2 & B3 & B4 & B5 & B6). cbn [NewTickState next metrics executed skipped] in *. split_and!; try done; try lia.
  { intros Hc. rewrite Forall_forall in *. intros t Ht. destruct (B3 t Ht) as (w & i & Hw & Hs & Ha). destruct (B2 t Ht) as [_ ->]. specialize (Hc w i Hw). lia. }
  2:{ intros w _ s r1 s1 l1. by apply wake_latest. }
  intros [now call] _ s Hs. destruct (Wake epoch iv (MaxCalls o) now call s) as [[r1 s1] l1] eqn:E1. cbn [fst snd]. rewrite E1. cbn [snd]. by apply wake_spec in E1 as (_ & _ & A3 & _).
Qed.

End Ticks.

(** ** Examples *)

(** A period of 10: the callback of 110 is posted at 112, the one of 120 is left out because the first has not returned, and at 155 the thread is two periods late. *)
Definition example_periodic : PeriodicRunner.World :=
  PeriodicRunner.MkWorld (PeriodicRunner.MkState 10 4 true false true true) (PeriodicRunner.Timing 160) 1 110 [(110, 112)] 4.

Lemma example_run_periodic : PeriodicRunner.Run 10 example_periodic.
Proof.
  eapply PeriodicRunner.RunStep; [|apply (PeriodicRunner.StepSkip (PeriodicRunner.MkState 10 1 true false true true) _ 130 160 1 110 1 155 [(110, 112)] ErrorCode_Ok eq_refl eq_refl)].
  eapply PeriodicRunner.RunStep; [|apply (PeriodicRunner.StepSkip (PeriodicRunner.MkState 10 0 true false true true) _ 120 130 1 110 0 121 [(110, 112)] ErrorCode_Ok eq_refl eq_refl)].
  eapply PeriodicRunner.RunStep; [|apply (PeriodicRunner.StepPost (PeriodicRunner.MkState 10 0 true false true false) _ 110 120 110 0 110 0 112 [] ErrorCode_Ok eq_refl eq_refl)].
  eapply PeriodicRunner.RunStep; [|apply (PeriodicRunner.StepStart (PeriodicRunner.NewState 10) _ 0 100 false eq_refl)]. apply PeriodicRunner.RunNew.
Qed.

Lemma periodic_grid_witness : PeriodicRunner.Run 10 example_periodic /\ 160 = 110 + 10 * (1 + 4)
  /\ (forall d, PeriodicRunner.thread example_periodic = PeriodicRunner.Timing d
        -> d = PeriodicRunner.first example_periodic + 10 * (len (PeriodicRunner.postedAt example_periodic) + PeriodicRunner.skipped example_periodic)).
Proof. split; [exact example_run_periodic|]. split; [reflexivity|]. exact (proj1 (periodic_grid 10 example_periodic example_run_periodic)). Defined.

(** Ticks every millisecond from 1000000: on time, then three late with two to catch up, and the work fails at last. *)
Definition example_ticks : TickRunner.TickOptions := TickRunner.MkTickOptions 1 TickRunner.CatchUp 2 0.
Definition example_wakes : list (Z * (nat -> TickRunner.Call)) :=
  [(1000000, fun _ => TickRunner.MkCall false 1000100 ErrorCode_Ok); (4000500, fun _ => TickRunner.MkCall false 4000600 ErrorCode_Ok);
   (5000000, fun _ => TickRunner.MkCall false 5000001 InvalidFormat)].

Lemma tick_numbers_witness :
  let '(r, s', l) := TickRunner.Wakes 1000000 1000000 (TickRunner.MaxCalls example_ticks) example_wakes TickRunner.NewTickState in
  r = InvalidFormat /\ map TickRunner.index l = [1; 3; 4; 5] /\ map TickRunner.skippedBefore l = [0; 1; 0; 0] /\ TickRunner.next s' = 5
  /\ numbered 0 l /\ TickRunner.executed (TickRunner.metrics s') + TickRunner.skipped (TickRunner.metrics s') = TickRunner.next s'.
Proof.
  destruct (TickRunner.Wakes 1000000 1000000 (TickRunner.MaxCalls example_ticks) example_wakes TickRunner.NewTickState) as [[r s'] l] eqn:E.
  pose proof (tick_numbers example_ticks 1000000 example_wakes s' r l ltac:(reflexivity) ltac:(discriminate) E) as (H1 & _ & _ & _ & _ & H2 & _). vm_compute in E. injection E as <- <- <-.
  split; [reflexivity|]. split; [reflexivity|]. split; [reflexivity|]. split; [reflexivity|]. split; [exact H1|exact H2].
Defined.
