(* ===== verification/TaskGroup.v ===== *)
(** * Runtime: task groups.

    [Runtime/CompletionSignalInternal.h]: up to sixteen observers of one completion; [Runtime/TaskGroup.cpp|h]: children of a group
    submitted to a task executor, and the signal that all of them are over.  The sections of the mutexes are functions of the
    state, and threads interleave at them.  What the executor answers, when a child completes and the clock are arguments;
    the refusals that depend on the calling thread are left out, and so are the waits that block. *)

From Stdlib Require Import Sorted.
From stdpp Require Import gmap.
From S2P Require Import Prelude CoreError TaskExecutor.

Module CompletionSignal.

(** A slot holds the source that was stored last, if any. *)
Record Signal : Type := MkSignal { mSources : list (option Z); mReady : bool; mResult : ErrorCode }.

Definition NewSignal : Signal := MkSignal (replicate 16 None) false WouldBlock.

(** [pending]: the sources that are neither completed nor cancelled. *)
Fixpoint StoreFirst (pending : gset Z) (source : Z) (l : list (option Z)) : option (list (option Z)) :=
  match l with
  | [] => None
  | x :: l =>
      if match x with Some k => bool_decide (k ∈ pending) | None => false end then
        match StoreFirst pending source l with Some l => Some (x :: l) | None => None end
      else Some (Some source :: l)
  end.

(** The section of [Observe]: the source is stored, refused, or to be completed at once. *)
Inductive Observed : Type := ObsStored | ObsFull | ObsComplete (code : ErrorCode).

Definition Observe (pending : gset Z) (source : Z) (s : Signal) : Observed * Signal :=
  if negb (mReady s) then
    match StoreFirst pending source (mSources s) with
    | Some l => (ObsStored, MkSignal l (mReady s) (mResult s))
    | None => (ObsFull, s)
    end
  else (ObsComplete (mResult s), s).

(** The section of [Complete]: the sources to complete after it. *)
Definition Complete (result : ErrorCode) (s : Signal) : list (option Z) * Signal :=
  if mReady s then ([], s) else (mSources s, MkSignal (replicate 16 None) true result).

(** The signal, the sources that are pending, those that were accepted, those that a thread is to complete, and what was completed. *)
Record World : Type := MkWorld { signal : Signal; pending : gset Z; accepted : gset Z; firing : list Z; fired : list (Z * ErrorCode); nextSource : Z }.

Inductive Step : World -> World -> Prop :=
| StepCreate (s : Signal) (p a : gset Z) (f : list Z) (d : list (Z * ErrorCode)) (n : Z) : Step (MkWorld s p a f d n) (MkWorld s ({[n]} ∪ p) a f d (n + 1))
| StepCancel (s : Signal) (p a : gset Z) (f : list Z) (d : list (Z * ErrorCode)) (n k : Z) : Step (MkWorld s p a f d n) (MkWorld s (p ∖ {[k]}) a f d n)
| StepStored (s s' : Signal) (p a : gset Z) (f : list Z) (d : list (Z * ErrorCode)) (n k : Z) :
    k < n -> Observe p k s = (ObsStored, s') -> Step (MkWorld s p a f d n) (MkWorld s' p ({[k]} ∪ a) f d n)
| StepInline (s s' : Signal) (p a : gset Z) (f : list Z) (d : list (Z * ErrorCode)) (n k : Z) (code : ErrorCode) :
    k < n -> Observe p k s = (ObsComplete code, s') -> Step (MkWorld s p a f d n) (MkWorld s' p ({[k]} ∪ a) (k :: f) d n)
| StepComplete (s s' : Signal) (p a : gset Z) (f : list Z) (d : list (Z * ErrorCode)) (n : Z) (code : ErrorCode) (l : list (option Z)) :
    Complete code s = (l, s') -> Step (MkWorld s p a f d n) (MkWorld s' p a (omap id l ++ f) d n)
| StepFire (s : Signal) (p a : gset Z) (f1 f2 : list Z) (d : list (Z * ErrorCode)) (n k : Z) :
    Step (MkWorld s p a (f1 ++ k :: f2) d n)
      (if bool_decide (k ∈ p) then MkWorld s (p ∖ {[k]}) a (f1 ++ f2) (d ++ [(k, mResult s)]) n else MkWorld s p a (f1 ++ f2) d n).

Inductive Run : World -> Prop :=
| RunNew : Run (MkWorld NewSignal ∅ ∅ [] [] 0)
| RunStep (w w' : World) : Run w -> Step w w' -> Run w'.

End CompletionSignal.

Module TaskGroup.

Record TaskGroupOptions : Type := MkGroupOptions { maxChildren : Z; maxRetainedBytes : Z; groupDeadline : option Z }.

Record GroupChild : Type := MkChild { id : Z; bytes : Z; published : bool; completed : bool; code : ErrorCode }.

Record State : Type := MkState {
  options : TaskGroupOptions;
  children : list GroupChild;
  started : bool;
  ready : bool;
  closed : bool;
  cancelled : bool;
  retained : Z;
  submitting : Z;
  nextId : Z
}.

Definition NewState : State := MkState (MkGroupOptions 128 (4 * 1024 * 1024) None) [] false false false false 0 0 1.

Definition set_children (l : list GroupChild) (retained submitting : Z) (s : State) : State :=
  MkState (options s) l (started s) (ready s) (closed s) (cancelled s) retained submitting (nextId s).
Definition set_closed (cancelled : bool) (s : State) : State :=
  MkState (options s) (children s) (started s) (ready s) true cancelled (retained s) (submitting s) (nextId s).
Definition set_ready (b : bool) (s : State) : State :=
  MkState (options s) (children s) (started s) b (closed s) (cancelled s) (retained s) (submitting s) (nextId s).

Definition FinishedLocked (s : State) : bool :=
  if negb (closed s) || negb (submitting s =? 0) then false else forallb (fun c => published c && completed c) (children s).

Definition StartBegin (o : TaskGroupOptions) (s : State) : Status * State :=
  if (maxChildren o =? 0) || (maxRetainedBytes o =? 0) then (Status.FailWithoutMessage InvalidArgument, s)
  else if started s then (Status.FailWithoutMessage Closed, s)
  else (Status.Ok, MkState o (children s) true (ready s) (closed s) (cancelled s) (retained s) (submitting s) (nextId s)).
Definition StartFailed (s : State) : State := set_closed (cancelled s) s.
Definition StartReady (s : State) : State := set_ready true s.

Definition CloseAdmission (s : State) : State := set_closed (cancelled s) s.
Definition Cancel (s : State) : State := set_closed true s.
Definition StopEnd (s : State) : State := set_ready false s.

(** The section of [Submit] that admits a child; it gives the number and the deadline of the child. *)
Definition SubmitAdmit (now : Z) (o : TaskExecutor.TaskOptions) (s : State) : Result (Z * option Z) * State :=
  let fail code := (FromStatus (Status.FailWithoutMessage code), s) in
  if negb (ready s) || closed s then fail Closed
  else if match groupDeadline (options s) with Some d => d <=? now | None => false end then fail Timeout
  else if (maxRetainedBytes (options s) <? TaskExecutor.retainedBytes o) || (nextId s =? 0) then fail TooLarge
  else if (maxChildren (options s) <=? len (children s)) || (maxRetainedBytes (options s) - retained s <? TaskExecutor.retainedBytes o) then fail WouldBlock
  else
    let deadline :=
      match groupDeadline (options s), TaskExecutor.deadline o with
      | Some g, Some d => if g <? d then Some g else Some d
      | Some g, None => Some g
      | None, d => d
      end in
    (FromValue (nextId s, deadline),
     MkState (options s) (children s ++ [MkChild (nextId s) (TaskExecutor.retainedBytes o) false false WouldBlock]) (started s) (ready s) (closed s) (cancelled s)
       (retained s + TaskExecutor.retainedBytes o) (submitting s + 1) (wrap64 (nextId s + 1))).

Definition update_child (k : Z) (f : GroupChild -> GroupChild) (l : list GroupChild) : list GroupChild := map (fun c => if id c =? k then f c else c) l.

(** The section after the executor has answered, and the callback of a child's completion. *)
Definition SubmitPublished (k : Z) (s : State) : State :=
  set_children (update_child k (fun c => MkChild (id c) (bytes c) true (completed c) (code c)) (children s)) (retained s) (submitting s - 1) s.
Definition SubmitRefused (k b : Z) (s : State) : State := set_children (filter (fun c => id c <> k) (children s)) (retained s - b) (submitting s - 1) s.
Definition ChildCompleted (k b : Z) (result : ErrorCode) (s : State) : State :=
  set_children (update_child k (fun c => MkChild (id c) (bytes c) (published c) true result) (children s)) (retained s - b) (submitting s) s.

(** [finished]: the handles that say so. *)
Definition Taken (finished : Z -> bool) (c : GroupChild) : bool := published c && completed c && finished (id c).
Definition TakeCompletions (finished : Z -> bool) (s : State) : list (Z * ErrorCode) * State :=
  (map (fun c => (id c, code c)) (filter (fun c => Taken finished c = true) (children s)),
   set_children (filter (fun c => Taken finished c = false) (children s)) (retained s) (submitting s) s).

(** Threads in [NotifyCompletion], before its section and after one that has found the group finished; a thread of [WaitForCompletion] goes on to observe the signal.
    [observing]: those about to; [observed]: those that have; [issued]: the numbers given out; [taken]: what [TakeCompletions] has returned. *)
Record World : Type := MkWorld {
  state : State;
  notifying : list bool;
  completing : list bool;
  signalled : bool;
  observing : Z;
  observed : Z;
  issued : Z;
  taken : list (Z * ErrorCode);
  results : list (Z * ErrorCode)
}.

Inductive Step : World -> World -> Prop :=
| StepStart (s s' : State) (n c : list bool) (g : bool) (a b i : Z) (t r : list (Z * ErrorCode)) (o : TaskGroupOptions) :
    0 <= maxChildren o -> 0 <= maxRetainedBytes o -> StartBegin o s = (Status.Ok, s') -> Step (MkWorld s n c g a b i t r) (MkWorld s' n c g a b i t r)
| StepStartFailed (s : State) (n c : list bool) (g : bool) (a b i : Z) (t r : list (Z * ErrorCode)) : started s = true -> ready s = false -> Step (MkWorld s n c g a b i t r) (MkWorld (StartFailed s) n c g a b i t r)
| StepStartReady (s : State) (n c : list bool) (g : bool) (a b i : Z) (t r : list (Z * ErrorCode)) : started s = true -> Step (MkWorld s n c g a b i t r) (MkWorld (StartReady s) n c g a b i t r)
| StepClose (s : State) (n c : list bool) (g wait : bool) (a b i : Z) (t r : list (Z * ErrorCode)) : Step (MkWorld s n c g a b i t r) (MkWorld (CloseAdmission s) (wait :: n) c g a b i t r)
| StepCancel (s : State) (n c : list bool) (g : bool) (a b i : Z) (t r : list (Z * ErrorCode)) : Step (MkWorld s n c g a b i t r) (MkWorld (Cancel s) (false :: n) c g a b i t r)
| StepAdmit (s s' : State) (n c : list bool) (g : bool) (a b i : Z) (t r : list (Z * ErrorCode)) (now k : Z) (o : TaskExecutor.TaskOptions) (d : option Z) :
    0 <= TaskExecutor.retainedBytes o -> SubmitAdmit now o s = (FromValue (k, d), s') -> Step (MkWorld s n c g a b i t r) (MkWorld s' n c g a b k t r)
| StepPublished (s : State) (n c : list bool) (g : bool) (a b i : Z) (t r : list (Z * ErrorCode)) (x : GroupChild) :
    x ∈ children s -> published x = false -> Step (MkWorld s n c g a b i t r) (MkWorld (SubmitPublished (id x) s) (false :: n) c g a b i t r)
| StepRefused (s : State) (n c : list bool) (g : bool) (a b i : Z) (t r : list (Z * ErrorCode)) (x : GroupChild) :
    x ∈ children s -> published x = false -> Step (MkWorld s n c g a b i t r) (MkWorld (SubmitRefused (id x) (bytes x) s) (false :: n) c g a b i t r)
| StepCompleted (s : State) (n c : list bool) (g : bool) (a b i : Z) (t r : list (Z * ErrorCode)) (x : GroupChild) (result : ErrorCode) :
    x ∈ children s -> published x = true -> completed x = false ->
    Step (MkWorld s n c g a b i t r) (MkWorld (ChildCompleted (id x) (bytes x) result s) (false :: n) c g a b i t (r ++ [(id x, result)]))
| StepTake (s s' : State) (n c : list bool) (g : bool) (a b i : Z) (t r l : list (Z * ErrorCode)) (finished : Z -> bool) :
    TakeCompletions finished s = (l, s') -> Step (MkWorld s n c g a b i t r) (MkWorld s' n c g a b i (t ++ l) r)
| StepStopEnd (s : State) (n c : list bool) (g : bool) (a b i : Z) (t r : list (Z * ErrorCode)) : FinishedLocked s = true -> Step (MkWorld s n c g a b i t r) (MkWorld (StopEnd s) n c g a b i t r)
| StepNotify (s : State) (n1 n2 c : list bool) (g wait : bool) (a b i : Z) (t r : list (Z * ErrorCode)) :
    Step (MkWorld s (n1 ++ wait :: n2) c g a b i t r)
      (if FinishedLocked s then MkWorld s (n1 ++ n2) (wait :: c) g a b i t r else MkWorld s (n1 ++ n2) c g (if wait then a + 1 else a) b i t r)
| StepComplete (s : State) (n c1 c2 : list bool) (g wait : bool) (a b i : Z) (t r : list (Z * ErrorCode)) :
    Step (MkWorld s n (c1 ++ wait :: c2) g a b i t r) (MkWorld s n (c1 ++ c2) true (if wait then a + 1 else a) b i t r)
| StepObserve (s : State) (n c : list bool) (g : bool) (a b i : Z) (t r : list (Z * ErrorCode)) : 0 < a -> Step (MkWorld s n c g a b i t r) (MkWorld s n c g (a - 1) (b + 1) i t r).

Inductive Run : World -> Prop :=
| RunNew : Run (MkWorld NewState [] [] false 0 0 0 [] [])
| RunStep (w w' : World) : Run w -> Step w w' -> Run w'.

End TaskGroup.

(** ** The signal *)

Section Signals.
Import CompletionSignal.

Lemma store_first_spec (p : gset Z) (k : Z) (l : list (option Z)) :
  match StoreFirst p k l with
  | Some l' => length l' = length l /\ Some k ∈ l' /\ forall j, j ∈ p -> Some j ∈ l -> Some j ∈ l'
  | None => Forall (fun x => exists j, x = Some j /\ j ∈ p) l
  end.
Proof.
  induction l as [|x l IH]; cbn [StoreFirst]; [done|]. destruct x as [j|].
  - case_bool_decide as E.
    + destruct (StoreFirst p k l) as [l'|]; [|constructor; [by exists j|done]]. destruct IH as (H1 & H2 & H3). split_and!; [cbn; lia|by right|].
      intros i Hi [->|Hin]%elem_of_cons; [by left|right; auto].
    + split_and!; [done|by left|]. intros i Hi [[= ->]|Hin]%elem_of_cons; [done|by right].
  - split_and!; [done|by left|]. intros i Hi [Hx|Hin]%elem_of_cons; [done|by right].
Qed.

Record signal_ok (w : World) : Prop := MkSignalOk {
  so_slots : length (mSources (signal w)) = 16%nat;
  so_waiting : mReady (signal w) = false -> firing w = [] /\ fired w = [];
  so_once : NoDup (map fst (fired w)) /\ forall k, k ∈ map fst (fired w) -> k ∉ pending w;
  so_code : Forall (fun x => x.2 = mResult (signal w)) (fired w);
  so_kept : forall k, k ∈ accepted w -> k ∈ pending w -> if mReady (signal w) then k ∈ firing w else Some k ∈ mSources (signal w);
  so_fresh : forall k, k ∈ pending w \/ k ∈ accepted w \/ k ∈ map fst (fired w) -> k < nextSource w
}.

Lemma observers_step (w w' : World) : Step w w' -> signal_ok w -> signal_ok w'.
Proof.
  intros Hs [H1 H2 [H3 H3'] H4 H5 H6]. destruct Hs; cbn [signal pending accepted firing fired nextSource] in *.
  - constructor; cbn [signal pending accepted firing fired nextSource]; try done.
    + split; [done|]. intros k Hk Hin. assert (k < n) by (apply H6; auto). destruct (decide (k = n)); [lia|]. apply (H3' k Hk). set_solver.
    + intros k Ha Hin. apply H5; [done|]. assert (k < n) by (apply H6; auto). apply elem_of_union in Hin as [?%elem_of_singleton|?]; [lia|done].
    + intros k [Hk|Hk]; [|specialize (H6 k (or_intror Hk)); lia]. apply elem_of_union in Hk as [?%elem_of_singleton|Hk]; [lia|]. specialize (H6 k (or_introl Hk)). lia.
  - constructor; cbn [signal pending accepted firing fired nextSource]; try done.
    + split; [done|]. intros j Hj Hin. apply (H3' j Hj). set_solver.
    + intros j Ha Hin. apply H5; set_solver.
    + intros j [Hj|Hj]; apply H6; [left; set_solver|by right].
  - unfold Observe in H0. destruct (mReady s) eqn:Er; cbn [negb] in H0; [done|]. pose proof (store_first_spec p k (mSources s)) as Hf. destruct (StoreFirst p k (mSources s)) as [l|]; [|done].
    injection H0 as <-. destruct Hf as (F1 & F2 & F3). constructor; cbn [signal pending accepted firing fired nextSource mSources mReady mResult]; rewrite ?Er; try done.
    + lia.
    + intros j [->%elem_of_singleton|Hj]%elem_of_union Hin; [done|]. apply F3; [done|]. by apply H5.
    + intros j [Hj|[[->%elem_of_singleton|Hj]%elem_of_union|Hj]]; [apply H6; auto|done|apply H6; auto..].
  - unfold Observe in H0. destruct (mReady s) eqn:Er; cbn [negb] in H0; [|by destruct (StoreFirst p k (mSources s))]. injection H0 as <- <-.
    constructor; cbn [signal pending accepted firing fired nextSource]; rewrite ?Er; try done.
    + intros j [->%elem_of_singleton|Hj]%elem_of_union Hin; [by left|right; by apply H5].
    + intros j [Hj|[[->%elem_of_singleton|Hj]%elem_of_union|Hj]]; [apply H6; auto|done|apply H6; auto..].
  - unfold Complete in H. destruct (mReady s) eqn:Er; injection H as <- <-; [by constructor; cbn [signal pending accepted firing fired nextSource app omap list_omap]; rewrite ?Er|].
    destruct (H2 eq_refl) as [-> ->]. constructor; cbn [signal pending accepted firing fired nextSource mSources mReady mResult]; try done.
    + intros j Ha Hin. rewrite app_nil_r. apply list_elem_of_omap. exists (Some j). split; [|done]. by apply H5.
  - assert (Hr : mReady s = true). { destruct (mReady s) eqn:Er; [done|]. destruct (H2 eq_refl) as [E _]. by destruct f1. } rewrite Hr in *.
    case_bool_decide as Ek; constructor; cbn [signal pending accepted firing fired nextSource]; rewrite ?Hr; try done.
    + rewrite map_app. cbn [map fst]. split.
      * apply NoDup_app. split_and!; [done| |by apply NoDup_singleton]. intros j Hj ->%list_elem_of_singleton. by apply (H3' k).
      * intros j [Hj| ->%list_elem_of_singleton]%elem_of_app Hin; [apply (H3' j Hj)|]; set_solver.
    + apply Forall_app. split; [done|]. by constructor.
    + intros j Ha Hin. assert (Hin' : j ∈ f1 ++ k :: f2) by (apply H5; set_solver). assert (j <> k) by set_solver. set_solver.
    + intros j Hj. rewrite map_app in Hj. cbn [map fst] in Hj. destruct Hj as [Hj|[Hj|[Hj| ->%list_elem_of_singleton]%elem_of_app]]; apply H6; [left; set_solver|auto|auto|by left].
    + intros j Ha Hin. assert (Hin' : j ∈ f1 ++ k :: f2) by (by apply H5). assert (j <> k) by (by intros ->). set_solver.
Qed.

Lemma run_signal (w : World) : Run w -> signal_ok w.
Proof. induction 1 as [|w w' H IH Hs]; [|by eapply observers_step]. constructor; cbn; try done; [split; [by apply NoDup_nil|set_solver]|set_solver]. Qed.

(** An observer that was accepted and has not been cancelled is called once, with the result of the completion, and not before it; until then it keeps its slot, or a thread is about to call it; one
    is refused only while sixteen others wait. *)
Theorem signal_once (w : World) (Hrun : Run w) :
  NoDup (map fst (fired w))
  /\ Forall (fun x => mReady (signal w) = true /\ x.2 = mResult (signal w)) (fired w)
  /\ (forall k, k ∈ accepted w -> k ∈ pending w -> if mReady (signal w) then k ∈ firing w else Some k ∈ mSources (signal w))
  /\ (forall k s', Observe (pending w) k (signal w) = (ObsFull, s') -> length (mSources (signal w)) = 16%nat /\ Forall (fun x => exists j, x = Some j /\ j ∈ pending w) (mSources (signal w))).
Proof.
  destruct (run_signal _ Hrun) as [H1 H2 [H3 _] H4 H5 _]. split_and!; try done.
  - destruct (mReady (signal w)); [|by destruct (H2 eq_refl) as [_ ->]]. eapply Forall_impl; [exact H4|]. by intros x Hx.
  - intros k s'. unfold Observe. destruct (mReady (signal w)); [done|]. cbn [negb]. pose proof (store_first_spec (pending w) k (mSources (signal w))) as Hf.
    destruct (StoreFirst (pending w) k (mSources (signal w))); [done|]. intros _. done.
Qed.

End Signals.

(** ** The account of a group *)

Section Groups.
Import TaskGroup.

Definition unpublished (l : list GroupChild) : Z := fold_right (fun c n => (if published c then 0 else 1) + n) 0 l.
Definition live_bytes (l : list GroupChild) : Z := fold_right (fun c n => (if completed c then 0 else bytes c) + n) 0 l.

Lemma unpublished_app (a b : list GroupChild) : unpublished (a ++ b) = unpublished a + unpublished b.
Proof. unfold unpublished. induction a as [|t a IH]; [done|]. cbn [app fold_right]. lia. Qed.
Lemma live_bytes_app (a b : list GroupChild) : live_bytes (a ++ b) = live_bytes a + live_bytes b.
Proof. unfold live_bytes. induction a as [|t a IH]; [done|]. cbn [app fold_right]. lia. Qed.

(** One child among the others. *)
Lemma child_split (x : GroupChild) (l : list GroupChild) : x ∈ l -> NoDup (map id l) ->
  exists l1 l2, l = l1 ++ x :: l2 /\ (forall f, update_child (id x) f l = l1 ++ f x :: l2) /\ filter (fun c => id c <> id x) l = l1 ++ l2.
Proof.
  intros (l1 & l2 & ->)%list_elem_of_split Hn. rewrite map_app in Hn. cbn [map] in Hn. apply NoDup_app in Hn as (_ & Hd & [Hn _]%NoDup_cons).
  assert (H1 : forall c, c ∈ l1 -> id c <> id x) by (intros c Hc E; apply (Hd (id c)); [by apply list_elem_of_fmap_2|rewrite E; by left]).
  assert (H2 : forall c, c ∈ l2 -> id c <> id x) by (intros c Hc E; apply Hn; rewrite <-E; by apply list_elem_of_fmap_2).
  assert (Hu : forall f l, (forall c, c ∈ l -> id c <> id x) -> map (fun c => if id c =? id x then f c else c) l = l).
  { intros f l Hl. induction l as [|c l IH]; [done|]. cbn [map]. rewrite (proj2 (Z.eqb_neq _ _)) by (apply Hl; by left). f_equal. apply IH. intros. apply Hl. by right. }
  exists l1, l2. split; [done|]. split.
  - intros f. unfold update_child. rewrite map_app. cbn [map]. by rewrite Z.eqb_refl, !Hu.
  - rewrite filter_app, filter_cons_False by tauto. assert (Hf : forall l : list GroupChild, (forall c, c ∈ l -> id c <> id x) -> filter (fun c => id c <> id x) l = l); [|by rewrite !Hf].
    intros l Hl. induction l as [|c l IH]; [done|]. rewrite filter_cons_True by (apply Hl; by left). f_equal. apply IH. intros. apply Hl. by right.
Qed.

Record group_ok (w : World) : Prop := MkGroupOk {
  g_ids : StronglySorted Z.lt (map id (children (state w))) /\ Forall (fun c => 1 <= id c <= issued w) (children (state w));
  g_next : 0 <= issued w < 2 ^ 64 /\ nextId (state w) = wrap64 (issued w + 1);
  g_submitting : submitting (state w) = unpublished (children (state w));
  g_order : Forall (fun c => (completed c = true -> published c = true) /\ 0 <= bytes c) (children (state w));
  g_retained : retained (state w) = live_bytes (children (state w));
  g_limits : len (children (state w)) <= maxChildren (options (state w)) /\ retained (state w) <= maxRetainedBytes (options (state w));
  g_unstarted : started (state w) = false -> children (state w) = [] /\ ready (state w) = false;
  g_results : NoDup (map fst (results w)) /\ Forall (fun c => if completed c then (id c, code c) ∈ results w else id c ∉ map fst (results w)) (children (state w))
              /\ forall k, k ∈ map fst (results w) -> k <= issued w;
  g_taken : NoDup (map fst (taken w) ++ map id (children (state w))) /\ forall x, x ∈ taken w -> x ∈ results w
}.

Lemma sorted_filter (P : GroupChild -> Prop) `{!forall c, Decision (P c)} (l : list GroupChild) : StronglySorted Z.lt (map id l) -> StronglySorted Z.lt (map id (filter P l)).
Proof.
  induction l as [|c l IH]; [done|]. cbn [map]. intros Hs. apply StronglySorted_inv in Hs as [H1 H2]. rewrite filter_cons. case_decide; [|auto]. cbn [map]. constructor; [auto|].
  rewrite Forall_forall in *. intros y (u & -> & [_ Hu]%list_elem_of_filter)%list_elem_of_fmap. apply H2. by apply list_elem_of_fmap_2.
Qed.

(** The step that admits a child. *)
Lemma group_admit (s s' : State) (n c : list bool) (g : bool) (a b i : Z) (t r : list (Z * ErrorCode)) (now k : Z) (o : TaskExecutor.TaskOptions) (d : option Z) :
  0 <= TaskExecutor.retainedBytes o -> SubmitAdmit now o s = (FromValue (k, d), s') -> group_ok (MkWorld s n c g a b i t r) -> group_ok (MkWorld s' n c g a b k t r).
Proof.
  intros Hb Hs [[H1 H1'] [H2 H2'] H3 H4 H5 H6 H7 [H8 [H8' H8'']] [H9 H9']]. cbn [state issued results taken] in *. unfold SubmitAdmit in Hs. destruct (negb (ready s) || closed s) eqn:Er; [done|].
  destruct (match groupDeadline (options s) with Some d => d <=? now | None => false end); [done|]. destruct (_ || _) eqn:E1 in Hs; [done|]. destruct (_ || _) eqn:E2 in Hs; [done|]. injection Hs as <- _ <-.
  apply orb_false_iff in Er as [Er%negb_false_iff _]. apply orb_false_iff in E1 as [E1%Z.ltb_ge E1'%Z.eqb_neq]. apply orb_false_iff in E2 as [E2%Z.leb_gt E2'%Z.ltb_ge].
  assert (Hi : nextId s = i + 1 /\ i + 1 < 2 ^ 64). { rewrite H2' in *. unfold wrap64 in *. destruct (Z.eq_dec (i + 1) (2 ^ 64)) as [E|E]; [rewrite E in E1'; done|]. rewrite Z.mod_small by lia. lia. }
  destruct Hi as [Hi Hi']. rewrite Hi. assert (Hfresh : Forall (fun y => y < i + 1) (map id (children s))) by (apply Forall_fmap; eapply Forall_impl; [exact H1'|]; cbn; intros; lia).
  constructor; cbn [state issued results taken children nextId submitting retained options started ready].
  - rewrite map_app. cbn [map id]. split; [by apply sorted_append|]. apply Forall_app. split; [eapply Forall_impl; [exact H1'|]; cbn; intros; lia|]. constructor; [cbn; lia|done].
  - split; [lia|done].
  - rewrite unpublished_app. cbn. lia.
  - apply Forall_app. split; [done|]. by constructor.
  - rewrite live_bytes_app. cbn. lia.
  - rewrite len_app. unfold len at 2. cbn [length]. lia.
  - intros Hst. destruct (H7 Hst) as [_ E]. congruence.
  - split_and!; [done| |intros k Hk; specialize (H8'' k Hk); lia]. apply Forall_app. split; [done|]. constructor; [|done]. cbn [completed id]. intros Hk. specialize (H8'' _ Hk). lia.
  - split; [|done]. rewrite map_app. cbn [map id]. rewrite (assoc_L app). apply NoDup_app. split_and!; [done| |by apply NoDup_singleton]. intros k Hk ->%list_elem_of_singleton.
    apply elem_of_app in Hk as [Hk|Hk]; [|rewrite Forall_forall in Hfresh; specialize (Hfresh _ Hk); lia].
    apply list_elem_of_fmap in Hk as (y & Ey & Hy). assert (i + 1 <= i); [|lia]. apply H8''. rewrite Ey. apply list_elem_of_fmap_2. auto.
Qed.

(** A step that changes no child. *)
Lemma group_same (s s' : State) (n n' c c' : list bool) (g g' : bool) (a a' b b' i : Z) (t r : list (Z * ErrorCode)) : group_ok (MkWorld s n c g a b i t r) ->
  children s' = children s -> nextId s' = nextId s -> submitting s' = submitting s -> retained s' = retained s -> options s' = options s -> started s' = started s ->
  (ready s' = ready s \/ ready s' = false \/ started s = true) -> group_ok (MkWorld s' n' c' g' a' b' i t r).
Proof.
  intros [H1 H2 H3 H4 H5 H6 H7 H8 H9] E1 E2 E3 E4 E5 E6 E7. constructor; cbn [state issued results taken] in *; rewrite ?E1, ?E2, ?E3, ?E4, ?E5, ?E6; try done.
  intros Hst. split; [by apply H7|]. destruct E7 as [->|[->|E7]]; [by apply H7|done|congruence].
Qed.

Lemma group_children (s : State) (x y : GroupChild) (l1 l2 : list GroupChild) (n n' c : list bool) (g : bool) (a b i : Z) (t r r' : list (Z * ErrorCode)) (rt sub : Z) :
  group_ok (MkWorld s n c g a b i t r) -> children s = l1 ++ x :: l2 -> id y = id x -> bytes y = bytes x -> (completed y = true -> published y = true) ->
  sub = submitting s + (if published y then 0 else 1) - (if published x then 0 else 1) -> rt = retained s + (if completed y then 0 else bytes x) - (if completed x then 0 else bytes x) ->
  (r' = r /\ completed y = completed x /\ code y = code x \/ completed x = false /\ completed y = true /\ r' = r ++ [(id x, code y)]) ->
  group_ok (MkWorld (set_children (l1 ++ y :: l2) rt sub s) n' c g a b i t r').
Proof.
  intros [[H1 H1'] H2 H3 H4 H5 [H6 H6'] H7 [H8 [H8' H8'']] [H9 H9']] El Ei Eb Ec Es Er Hr. cbn [state issued results taken] in *. rewrite El in *. rewrite map_app in *. cbn [map] in *.
  apply Forall_app in H1' as [A1 [A2 A3]%Forall_cons]. apply Forall_app in H4 as [B1 [[B2 B2'] B3]%Forall_cons]. apply Forall_app in H8' as [C1 [C2 C3]%Forall_cons].
  rewrite unpublished_app, live_bytes_app in *. cbn [unpublished live_bytes fold_right] in *. fold (unpublished l2) in *. fold (live_bytes l2) in *.
  assert (Hn : id x ∉ map id l1 /\ id x ∉ map id l2). { apply increasing_nodup in H1. apply NoDup_app in H1 as (_ & Hd & [Hx _]%NoDup_cons). split; [|done]. intros Hin. apply (Hd _ Hin). by left. }
  assert (Hother : forall l, id x ∉ map id l -> Forall (fun c => if completed c then (id c, code c) ∈ r else id c ∉ map fst r) l ->
    Forall (fun c => if completed c then (id c, code c) ∈ r' else id c ∉ map fst r') l).
  { intros l Hl HF. destruct Hr as [(-> & _)|(_ & _ & ->)]; [done|]. rewrite Forall_forall in *. intros u Hu. specialize (HF u Hu). destruct (completed u); [set_solver|].
    rewrite map_app. cbn [map fst]. intros [Hk|Hk%list_elem_of_singleton]%elem_of_app; [done|]. apply Hl. rewrite <-Hk. by apply list_elem_of_fmap_2. }
  constructor; cbn [state issued results taken set_children children nextId submitting retained options started ready]; rewrite ?map_app, ?unpublished_app, ?live_bytes_app; cbn [map unpublished live_bytes fold_right];
    rewrite ?Ei, ?Eb; try done.
  - split; [done|]. apply Forall_app. split; [done|]. constructor; [lia|done].
  - fold (unpublished l2). lia.
  - apply Forall_app. split; [done|]. constructor; [|done]. split; [done|lia].
  - fold (live_bytes l2). lia.
  - unfold len in *. rewrite length_app in *. cbn [length] in *. split; [lia|]. rewrite Er. destruct Hr as [(_ & -> & _)|(-> & -> & _)]; [destruct (completed x)|]; lia.
  - intros Hst. destruct (H7 Hst) as [E _]. by destruct l1.
  - split_and!.
    + destruct Hr as [(-> & _)|(Hx & _ & ->)]; [done|]. rewrite map_app. cbn [map fst]. apply NoDup_app. split_and!; [done| |by apply NoDup_singleton]. intros k Hk ->%list_elem_of_singleton. by rewrite Hx in C2.
    + apply Forall_app. split; [apply Hother; tauto|]. constructor; [|apply Hother; tauto]. rewrite Ei. destruct Hr as [(-> & -> & ->)|(_ & -> & ->)]; [done|]. set_solver.
    + intros k Hk. destruct Hr as [(-> & _)|(_ & _ & ->)]; [auto|]. rewrite map_app in Hk. cbn [map fst] in Hk. apply elem_of_app in Hk as [Hk| ->%list_elem_of_singleton]; [auto|lia].
  - split; [done|]. intros z Hz. destruct Hr as [(-> & _)|(_ & _ & ->)]; [auto|]. apply elem_of_app. left. auto.
Qed.

Lemma group_refused (s : State) (x : GroupChild) (n n' c : list bool) (g : bool) (a b i : Z) (t r : list (Z * ErrorCode)) : x ∈ children s -> published x = false ->
  group_ok (MkWorld s n c g a b i t r) -> group_ok (MkWorld (SubmitRefused (id x) (bytes x) s) n' c g a b i t r).
Proof.
  intros Hx Hp [[H1 H1'] H2 H3 H4 H5 [H6 H6'] H7 [H8 [H8' H8'']] [H9 H9']]. cbn [state issued results taken] in *. destruct (child_split x _ Hx (increasing_nodup _ H1)) as (l1 & l2 & El & _ & Ef).
  unfold SubmitRefused. rewrite Ef. rewrite El in *. rewrite map_app in *. cbn [map] in *.
  apply Forall_app in H1' as [A1 [A2 A3]%Forall_cons]. apply Forall_app in H4 as [B1 [[B2 B2'] B3]%Forall_cons]. apply Forall_app in H8' as [C1 [C2 C3]%Forall_cons].
  rewrite unpublished_app, live_bytes_app in *. cbn [unpublished live_bytes fold_right] in *. fold (unpublished l2) in *. fold (live_bytes l2) in *.
  assert (Hc : completed x = false) by (destruct (completed x); [by rewrite B2 in Hp|done]). rewrite Hp in H3. rewrite Hc in H5.
  constructor; cbn [state issued results taken set_children children nextId submitting retained options started ready]; rewrite ?map_app, ?unpublished_app, ?live_bytes_app; try done.
  - split; [by eapply sorted_middle|]. by apply Forall_app.
  - lia.
  - by apply Forall_app.
  - lia.
  - unfold len in *. rewrite length_app in *. cbn [length] in *. lia.
  - intros Hst. destruct (H7 Hst) as [E _]. by destruct l1.
  - split_and!; try done. by apply Forall_app.
  - split; [|done]. rewrite <-Permutation_middle in H9. rewrite <-Permutation_middle in H9. by apply NoDup_cons in H9 as [_ H9].
Qed.

Lemma group_take (s s' : State) (n c : list bool) (g : bool) (a b i : Z) (t r l : list (Z * ErrorCode)) (finished : Z -> bool) : TakeCompletions finished s = (l, s') ->
  group_ok (MkWorld s n c g a b i t r) -> group_ok (MkWorld s' n c g a b i (t ++ l) r).
Proof.
  unfold TakeCompletions. intros [= <- <-] [[H1 H1'] H2 H3 H4 H5 [H6 H6'] H7 [H8 [H8' H8'']] [H9 H9']]. cbn [state issued results taken] in *.
  assert (Hsub : forall (P : GroupChild -> Prop), Forall P (children s) -> Forall P (filter (fun c => Taken finished c = false) (children s))).
  { intros P HP. rewrite Forall_forall in *. intros u [_ Hu]%list_elem_of_filter. auto. }
  constructor; cbn [state issued results taken set_children children nextId submitting retained options started ready]; try done.
  - split; [by apply sorted_filter|auto].
  - rewrite H3. clear. induction (children s) as [|u l IH]; [done|]. rewrite filter_cons. cbn [unpublished fold_right]. fold (unpublished l). case_decide as E.
    + cbn [unpublished fold_right]. unfold unpublished in *. lia.
    + unfold Taken in E. destruct (published u); [|done]. lia.
  - auto.
  - rewrite H5. clear. induction (children s) as [|u l IH]; [done|]. rewrite filter_cons. cbn [live_bytes fold_right]. fold (live_bytes l). case_decide as E.
    + cbn [live_bytes fold_right]. unfold live_bytes in *. lia.
    + unfold Taken in E. destruct (published u), (completed u); done.
  - split; [|done]. unfold len in *. pose proof (length_filter (fun c => Taken finished c = false) (children s)). lia.
  - intros Hst. destruct (H7 Hst) as [-> E]. done.
  - split_and!; try done. auto.
  - split.
    + rewrite map_app, map_map. cbn [fst]. rewrite <-(assoc_L app). revert H9. generalize (map fst t). intros q. clear. induction (children s) as [|u l IH]; [done|]. intros Hn. rewrite !filter_cons.
      cbn [map] in Hn. assert (Hn' : NoDup (q ++ map id l)) by (rewrite <-Permutation_middle in Hn; by apply NoDup_cons in Hn as [_ Hn]). specialize (IH Hn').
      assert (Hu : id u ∉ q ++ map id (filter (fun c => Taken finished c = true) l) ++ map id (filter (fun c => Taken finished c = false) l)).
      { rewrite <-Permutation_middle in Hn. apply NoDup_cons in Hn as [Hn _]. intros [Hq|[(v & E & [_ Hv]%list_elem_of_filter)%list_elem_of_fmap|(v & E & [_ Hv]%list_elem_of_filter)%list_elem_of_fmap]%elem_of_app]%elem_of_app;
          apply Hn, elem_of_app; [by left|right; rewrite E; by apply list_elem_of_fmap_2..]. }
      destruct (Taken finished u); case_decide; try done; case_decide; try done; cbn [map app]; rewrite <-?Permutation_middle; by apply NoDup_cons.
    + intros x [Hx|Hx]%elem_of_app; [auto|]. apply list_elem_of_fmap in Hx as (u & -> & [Hu Hin]%list_elem_of_filter). rewrite Forall_forall in H8'. specialize (H8' u Hin).
      unfold Taken in Hu. apply andb_true_iff in Hu as [[_ Hu]%andb_true_iff _]. by rewrite Hu in H8'.
Qed.

Lemma group_step (w w' : World) : Step w w' -> group_ok w -> group_ok w'.
Proof.
  intros Hs Hok. pose proof (increasing_nodup _ (proj1 (g_ids _ Hok))) as Hn. destruct Hs; cbn [state] in Hn; try (by eapply group_same; [exact Hok|..|auto]).
  - unfold StartBegin in H1. destruct (_ || _) in H1; [done|]. destruct (started s) eqn:Es; [done|]. injection H1 as <-. destruct Hok as [A1 A2 A3 A4 A5 A6 A7 A8 A9]. cbn [state issued results taken] in *.
    destruct (A7 Es) as [E1 E2]. rewrite E1 in *. constructor; cbn [state issued results taken children nextId submitting retained options started ready]; rewrite ?E1; try done. rewrite A5. cbn. unfold len. cbn. lia.
  - by eapply group_admit.
  - destruct (child_split x _ H Hn) as (l1 & l2 & El & Eu & _). unfold SubmitPublished. rewrite Eu. pose proof (g_order _ Hok) as Ho. rewrite Forall_forall in Ho. specialize (Ho x H).
    eapply (group_children s x); try done; [rewrite H0; cbn; lia|cbn; lia|by left].
  - by eapply group_refused.
  - destruct (child_split x _ H Hn) as (l1 & l2 & El & Eu & _). unfold ChildCompleted. rewrite Eu. eapply (group_children s x); try done; [cbn; lia|rewrite H1; cbn; lia|by right].
  - by eapply group_take.
  - destruct (FinishedLocked s); by eapply group_same; [exact Hok|..|auto].
Qed.

Lemma run_group (w : World) : Run w -> group_ok w.
Proof.
  induction 1 as [|w w' H IH Hs]; [|by eapply group_step]. constructor; cbn; try done; try (split_and!; try done; try constructor; lia).
  all: split_and!; try by apply NoDup_nil. all: by intros k Hk%elem_of_nil || done.
Qed.

(** ** The end of a group *)

Lemma finished_spec (s : State) : FinishedLocked s = true <-> closed s = true /\ submitting s = 0 /\ Forall (fun c => published c = true /\ completed c = true) (children s).
Proof.
  unfold FinishedLocked. destruct (closed s); cbn [negb orb]; [|naive_solver]. destruct (Z.eqb_spec (submitting s) 0); cbn [negb]; [|naive_solver]. rewrite forallb_forall, Forall_forall. split.
  - intros H. split_and!; try done. intros c Hc%list_elem_of_In. specialize (H c Hc). by apply andb_true_iff in H.
  - intros (_ & _ & H) c Hc%list_elem_of_In. destruct (H c Hc) as [-> ->]. done.
Qed.

Lemma take_finished (finished : Z -> bool) (s s' : State) (l : list (Z * ErrorCode)) : TakeCompletions finished s = (l, s') -> FinishedLocked s' = FinishedLocked s.
Proof.
  unfold TakeCompletions. intros [= _ <-]. apply eq_bool_prop_intro. rewrite !Is_true_true, !finished_spec. cbn [set_children closed submitting children]. rewrite !Forall_forall.
  split; intros (H1 & H2 & H3); split_and!; try done; intros c Hc.
  - destruct (Taken finished c) eqn:E; [|apply H3, list_elem_of_filter; done]. unfold Taken in E. by apply andb_true_iff in E as [E%andb_true_iff _].
  - apply H3. by apply list_elem_of_filter in Hc as [_ Hc].
Qed.

(** Once finished, always finished. *)
Lemma finished_step (w w' : World) : Step w w' -> FinishedLocked (state w) = true -> FinishedLocked (state w') = true.
Proof.
  intros Hs Hf. apply finished_spec in Hf as Hf'. destruct Hf' as (F1 & F2 & F3). rewrite Forall_forall in F3. destruct Hs; cbn [state] in *; try done.
  - unfold StartBegin in H1. destruct (_ || _) in H1; [done|]. destruct (started s); [done|]. injection H1 as <-. exact Hf.
  - apply finished_spec. rewrite Forall_forall. done.
  - apply finished_spec. rewrite Forall_forall. done.
  - apply finished_spec. rewrite Forall_forall. done.
  - unfold SubmitAdmit in H0. rewrite F1, orb_true_r in H0. done.
  - destruct (F3 x H). congruence.
  - destruct (F3 x H). congruence.
  - destruct (F3 x H). congruence.
  - by rewrite (take_finished _ _ _ _ H).
  - by rewrite Hf.
Qed.

Record notify_ok (w : World) : Prop := MkNotifyOk {
  n_sound : signalled w = true \/ completing w <> [] -> FinishedLocked (state w) = true;
  n_wake : FinishedLocked (state w) = true -> signalled w = true \/ completing w <> [] \/ notifying w <> [] \/ (observing w = 0 /\ observed w = 0);
  n_open : closed (state w) = false -> observing w = 0 /\ observed w = 0 /\ Forall (fun wait => wait = false) (notifying w);
  n_count : 0 <= observing w /\ 0 <= observed w
}.

(** A step that may end the group and that will notify. *)
Lemma notify_push (s s' : State) (n c : list bool) (g wait : bool) (a b i i' : Z) (t t' r r' : list (Z * ErrorCode)) :
  notify_ok (MkWorld s n c g a b i t r) -> (FinishedLocked s = true -> FinishedLocked s' = true) -> (closed s' = false -> closed s = false /\ wait = false) -> notify_ok (MkWorld s' (wait :: n) c g a b i' t' r').
Proof.
  intros [H1 H2 H3 H4] Hf Hc. constructor; cbn [state signalled completing notifying observing observed] in *; auto.
  intros E. destruct (Hc E) as [E1 ->]. destruct (H3 E1) as (? & ? & ?). split_and!; try done. by constructor.
Qed.

(** A step that neither ends the group nor notifies. *)
Lemma notify_same (s s' : State) (n c : list bool) (g : bool) (a b i i' : Z) (t t' r r' : list (Z * ErrorCode)) :
  notify_ok (MkWorld s n c g a b i t r) -> FinishedLocked s' = FinishedLocked s -> closed s' = closed s -> notify_ok (MkWorld s' n c g a b i' t' r').
Proof. intros [H1 H2 H3 H4] Hf Hc. constructor; cbn [state signalled completing notifying observing observed] in *; rewrite ?Hf, ?Hc; auto. Qed.

Lemma notify_step (w w' : World) : Step w w' -> notify_ok w -> notify_ok w'.
Proof.
  intros Hs Hok. pose proof (finished_step _ _ Hs) as Hst. destruct Hs; cbn [state] in Hst; try (by eapply notify_push); try (by eapply notify_same).
  - eapply notify_same; [exact Hok|..]; unfold StartBegin in H1; (destruct (_ || _) in H1; [done|]); (destruct (started s); [done|]); by injection H1 as <-.
  - destruct (closed s) eqn:Ec; [eapply notify_same; [exact Hok|unfold FinishedLocked; cbn [StartFailed set_closed closed submitting children]; by rewrite Ec|by rewrite Ec]|].
    destruct Hok as [H1 H2 H3 H4]. constructor; cbn [state signalled completing notifying observing observed] in *; [auto|intros _; right; right; right|done|done]. by destruct (H3 Ec) as (? & ? & _).
  - unfold SubmitAdmit in H0. destruct (negb (ready s) || closed s) eqn:E1; [done|]. apply orb_false_iff in E1 as [_ E1].
    assert (Hc : closed s' = false /\ FinishedLocked s' = false).
    { destruct (match groupDeadline (options s) with Some d => d <=? now | None => false end); [done|]. do 2 (destruct (_ || _) in H0; [done|]). injection H0 as _ _ <-.
      unfold FinishedLocked. cbn [closed]. by rewrite E1. }
    destruct Hc as [Hc Hf]. eapply notify_same; [exact Hok|unfold FinishedLocked at 2; by rewrite E1|congruence].
  - eapply notify_same; [exact Hok|by eapply take_finished|]. unfold TakeCompletions in H. by injection H as _ <-.
  - destruct Hok as [H1 H2 H3 H4]. cbn [state signalled completing notifying observing observed] in *. destruct (FinishedLocked s) eqn:Ef.
    + constructor; cbn [state signalled completing notifying observing observed]; [done|auto| |done]. intros E. apply finished_spec in Ef as (E' & _). congruence.
    + constructor; cbn [state signalled completing notifying observing observed]; rewrite ?Ef; [done|done| |destruct wait; lia].
      intros E. destruct (H3 E) as (Ha & Hb & [Hn1 [-> Hn2]%Forall_cons]%Forall_app). split_and!; try done. by apply Forall_app.
  - destruct Hok as [H1 H2 H3 H4]. cbn [state signalled completing notifying observing observed] in *. assert (Ef : FinishedLocked s = true) by (apply H1; right; by destruct c1).
    constructor; cbn [state signalled completing notifying observing observed]; [done|auto| |destruct wait; lia]. intros E. apply finished_spec in Ef as (E' & _). congruence.
  - destruct Hok as [H1 H2 H3 H4]. cbn [state signalled completing notifying observing observed] in *. constructor; cbn [state signalled completing notifying observing observed]; [done| | |lia].
    + intros E. destruct (H2 E) as [?|[?|[?|[? _]]]]; auto. lia.
    + intros E. destruct (H3 E) as (? & _). lia.
Qed.

Lemma run_notify (w : World) : Run w -> notify_ok w.
Proof. induction 1 as [|w w' H IH Hs]; [|by eapply notify_step]. constructor; cbn; try done. by intros [?|?]. Qed.

(** At every moment of every interleaving: retained counts the bytes of the children that have not completed, submitting those the executor has not answered for, and children and bytes stay
    within the limits of the group; children have numbers that go up, were all given out, and are never given out again; each completed child has one result, which TakeCompletions returns at most
    once and which is the one the child completed with. *)
Theorem group_accounting (w : World) (Hrun : Run w) :
  retained (state w) = live_bytes (children (state w)) /\ 0 <= retained (state w) <= maxRetainedBytes (options (state w))
  /\ submitting (state w) = unpublished (children (state w)) /\ len (children (state w)) <= maxChildren (options (state w))
  /\ StronglySorted Z.lt (map id (children (state w))) /\ Forall (fun c => 1 <= id c <= issued w) (children (state w)) /\ issued w < 2 ^ 64
  /\ NoDup (map fst (results w)) /\ NoDup (map fst (taken w) ++ map id (children (state w))) /\ (forall x, x ∈ taken w -> x ∈ results w).
Proof.
  destruct (run_group _ Hrun) as [[H1 H1'] [H2 H2'] H3 H4 H5 [H6 H6'] H7 [H8 _] [H9 H9']]. split_and!; try done; [|lia].
  rewrite H5. clear -H4. induction (children (state w)) as [|c l IH]; [done|]. apply Forall_cons in H4 as [[_ ?] ?]. cbn [live_bytes fold_right]. fold (live_bytes l). specialize (IH ltac:(done)). destruct (completed c); lia.
Qed.

(** C36. The completion of a group is signalled only when admission is closed, no submission is in the executor and every child has completed, and from then on no child is ever admitted; and it is
    not missed: when that is so and nobody has signalled it, a thread is about to look or about to signal, or nobody waits for it. *)
Theorem group_completion (w : World) (Hrun : Run w) :
  (signalled w = true \/ completing w <> [] -> FinishedLocked (state w) = true)
  /\ (FinishedLocked (state w) = true <-> closed (state w) = true /\ submitting (state w) = 0 /\ Forall (fun c => published c = true /\ completed c = true) (children (state w)))
  /\ (FinishedLocked (state w) = true -> forall w', rtc Step w w' -> FinishedLocked (state w') = true /\ issued w' = issued w /\ results w' = results w)
  /\ (FinishedLocked (state w) = true -> signalled w = true \/ completing w <> [] \/ notifying w <> [] \/ (observing w = 0 /\ observed w = 0)).
Proof.
  destruct (run_notify _ Hrun) as [H1 H2 _ _]. split_and!; [done|apply finished_spec| |done].
  intros Hf w' Hr. clear -Hf Hr. induction Hr as [w|w w1 w' Hs Hr IH]; [done|]. pose proof (finished_step _ _ Hs Hf) as Hf1. destruct (IH Hf1) as (I1 & -> & ->). split; [done|].
  apply finished_spec in Hf as (F1 & _ & F3). rewrite Forall_forall in F3. destruct Hs; cbn [state issued results] in *; try done.
  - unfold SubmitAdmit in H0. by rewrite F1, orb_true_r in H0.
  - destruct (F3 x H). congruence.
  - by destruct (FinishedLocked s).
Qed.

End Groups.

(** ** Examples *)

Definition example_group : TaskGroup.World :=
  TaskGroup.MkWorld (TaskGroup.MkState (TaskGroup.MkGroupOptions 4 100 None) [TaskGroup.MkChild 1 10 true true Timeout] true true true false 0 0 2)
    [false; false] [] false 1 0 1 [] [(1, Timeout)].

Lemma example_run_group : TaskGroup.Run example_group.
Proof.
  eapply TaskGroup.RunStep; [|apply (TaskGroup.StepCompleted (TaskGroup.MkState (TaskGroup.MkGroupOptions 4 100 None) [TaskGroup.MkChild 1 10 true false WouldBlock] true true true false 10 0 2)
    [false] [] false 1 0 1 [] [] (TaskGroup.MkChild 1 10 true false WouldBlock) Timeout); [by left|done|done]].
  eapply TaskGroup.RunStep; [|apply (TaskGroup.StepNotify (TaskGroup.MkState (TaskGroup.MkGroupOptions 4 100 None) [TaskGroup.MkChild 1 10 true false WouldBlock] true true true false 10 0 2)
    [] [false] [] false true 0 0 1 [] [])].
  eapply TaskGroup.RunStep; [|apply (TaskGroup.StepClose (TaskGroup.MkState (TaskGroup.MkGroupOptions 4 100 None) [TaskGroup.MkChild 1 10 true false WouldBlock] true true false false 10 0 2)
    [false] [] false true 0 0 1 [] [])].
  eapply TaskGroup.RunStep; [|apply (TaskGroup.StepPublished (TaskGroup.MkState (TaskGroup.MkGroupOptions 4 100 None) [TaskGroup.MkChild 1 10 false false WouldBlock] true true false false 10 1 2)
    [] [] false 0 0 1 [] [] (TaskGroup.MkChild 1 10 false false WouldBlock)); [by left|done]].
  eapply TaskGroup.RunStep; [|eapply (TaskGroup.StepAdmit (TaskGroup.MkState (TaskGroup.MkGroupOptions 4 100 None) [] true true false false 0 0 1) _ [] [] false 0 0 0 [] [] 5 1 (TaskExecutor.MkTaskOptions 10 None) None);
    [done|reflexivity]].
  eapply TaskGroup.RunStep; [|apply (TaskGroup.StepStartReady (TaskGroup.MkState (TaskGroup.MkGroupOptions 4 100 None) [] true false false false 0 0 1)); done].
  eapply TaskGroup.RunStep; [|eapply (TaskGroup.StepStart TaskGroup.NewState _ [] [] false 0 0 0 [] [] (TaskGroup.MkGroupOptions 4 100 None)); [done|done|reflexivity]]. apply TaskGroup.RunNew.
Qed.

Lemma group_completion_witness : TaskGroup.Run example_group /\ TaskGroup.FinishedLocked (TaskGroup.state example_group) = true
  /\ (TaskGroup.FinishedLocked (TaskGroup.state example_group) = true -> TaskGroup.signalled example_group = true \/ TaskGroup.completing example_group <> []
       \/ TaskGroup.notifying example_group <> [] \/ (TaskGroup.observing example_group = 0 /\ TaskGroup.observed example_group = 0)).
Proof.
  split; [exact example_run_group|]. split; [vm_compute; reflexivity|]. exact (proj2 (proj2 (proj2 (group_completion example_group example_run_group)))).
Defined.

Lemma group_accounting_witness : TaskGroup.Run example_group /\ TaskGroup.retained (TaskGroup.state example_group) = live_bytes (TaskGroup.children (TaskGroup.state example_group)).
Proof. split; [exact example_run_group|]. exact (proj1 (group_accounting example_group example_run_group)). Defined.
