(* ===== verification/ParseWorkerPool.v ===== *)
(** * Runtime: the pool of parse workers.

    [Runtime/ParseWorkerPool.cpp]: workers that take jobs from one queue, and a stop that throws the queue away.  The sections
    of the mutex are functions of the state, and threads interleave at them.  A null pointer that is followed is [None]. *)

From stdpp Require Import gmap.
From S2P Require Import Prelude CoreError.

Module ParseWorkerPool.

(** [mJobs] is null once the pool was stopped. *)
Record State : Type := MkState { mJobs : option (list Z); mStarted : bool; mAccepting : bool; mStopRequested : bool }.

Definition NewState : State := MkState (Some []) false false false.

(** [Start] holds the mutex while it makes its threads: [made] is what making them has come to. *)
Definition Start (workerThreadCount : Z) (reserved : bool) (made : Status) (s : State) : Status * State :=
  if workerThreadCount <=? 0 then (Status.Fail InvalidArgument "ParseWorkerPool worker thread count must be positive", s)
  else if mStarted s then (Status.Fail AlreadyExists "ParseWorkerPool can be started only once", s)
  else if negb reserved then (Status.AllocationFailure, s)
  else
    match Status.Code made with
    | ErrorCode_Ok => (Status.Ok, MkState (mJobs s) true true (mStopRequested s))
    | _ => (made, MkState (mJobs s) true false true)
    end.

Definition Post (job : Z) (s : State) : option (Status * State) :=
  if negb (mAccepting s) then Some (Status.Fail Closed "ParseWorkerPool no longer accepts jobs after StopAndDiscard", s)
  else
    match mJobs s with
    | Some l => Some (Status.Ok, MkState (Some (l ++ [job])) (mStarted s) (mAccepting s) (mStopRequested s))
    | None => None
    end.

(** The section of [StopAndDiscard], with the jobs it discards. *)
Definition StopAndDiscard (s : State) : list Z * State :=
  if negb (mStarted s) then ([], s) else (default [] (mJobs s), MkState None (mStarted s) false true).

(** A worker at the head of its loop. *)
Inductive Taken : Type := TakenExit | TakenJob (job : Z) | TakenWait.

Definition RunWorker (s : State) : option (Taken * State) :=
  if mStopRequested s then
    match mJobs s with
    | None | Some [] => Some (TakenExit, s)
    | Some (j :: l) => Some (TakenJob j, MkState (Some l) (mStarted s) (mAccepting s) (mStopRequested s))
    end
  else
    match mJobs s with
    | None => None
    | Some [] => Some (TakenWait, s)
    | Some (j :: l) => Some (TakenJob j, MkState (Some l) (mStarted s) (mAccepting s) (mStopRequested s))
    end.

(** The workers at the head of their loop, in a job, and gone; the jobs that were accepted, taken and discarded, in order; and whether a pointer was followed that was null. *)
Record World : Type := MkWorld { state : State; idle : Z; busy : Z; out : Z; accepted : list Z; taken : list Z; discarded : list Z; broken : bool }.

Inductive Step : World -> World -> Prop :=
| StepStart (s s' : State) (a : list Z) (count spawned : Z) (reserved : bool) (made r : Status) : 0 <= spawned <= count -> (Status.Code made = ErrorCode_Ok -> spawned = count) -> mStarted s = false ->
    Start count reserved made s = (r, s') -> mStarted s' = true -> Step (MkWorld s 0 0 0 a [] [] false) (MkWorld s' spawned 0 0 a [] [] false)
| StepPost (s s' : State) (i b o job : Z) (a t d : list Z) : Post job s = Some (Status.Ok, s') -> Step (MkWorld s i b o a t d false) (MkWorld s' i b o (a ++ [job]) t d false)
| StepPostBroken (s : State) (i b o job : Z) (a t d : list Z) : Post job s = None -> Step (MkWorld s i b o a t d false) (MkWorld s i b o a t d true)
| StepTake (s s' : State) (i b o job : Z) (a t d : list Z) : 0 < i -> RunWorker s = Some (TakenJob job, s') -> Step (MkWorld s i b o a t d false) (MkWorld s' (i - 1) (b + 1) o a (t ++ [job]) d false)
| StepTakeBroken (s : State) (i b o : Z) (a t d : list Z) : 0 < i -> RunWorker s = None -> Step (MkWorld s i b o a t d false) (MkWorld s i b o a t d true)
| StepExit (s s' : State) (i b o : Z) (a t d : list Z) : 0 < i -> RunWorker s = Some (TakenExit, s') -> Step (MkWorld s i b o a t d false) (MkWorld s' (i - 1) b (o + 1) a t d false)
| StepJobEnds (s : State) (i b o : Z) (a t d : list Z) : 0 < b -> Step (MkWorld s i b o a t d false) (MkWorld s (i + 1) (b - 1) o a t d false)
| StepStop (s s' : State) (i b o : Z) (a t d l : list Z) : StopAndDiscard s = (l, s') -> Step (MkWorld s i b o a t d false) (MkWorld s' i b o a t (d ++ l) false).

Inductive Run : World -> Prop :=
| RunNew : Run (MkWorld NewState 0 0 0 [] [] [] false)
| RunStep (w w' : World) : Run w -> Step w w' -> Run w'.

End ParseWorkerPool.
Import ParseWorkerPool.

Record pool_ok (w : World) : Prop := MkPoolOk {
  p_order : accepted w = taken w ++ discarded w ++ default [] (mJobs (state w)) /\ (discarded w <> [] -> mJobs (state w) = None);
  p_null : mJobs (state w) = None -> mStopRequested (state w) = true;
  p_stop : mStopRequested (state w) = true -> mAccepting (state w) = false /\ mJobs (state w) ∈ [None; Some []];
  p_new : mStarted (state w) = false -> accepted w = [] /\ mAccepting (state w) = false /\ mStopRequested (state w) = false;
  p_whole : broken w = false;
  p_counts : 0 <= idle w /\ 0 <= busy w /\ 0 <= out w
}.

Lemma pool_step (w w' : World) : Step w w' -> pool_ok w -> pool_ok w'.
Proof.
  intros Hs [[H1 H1'] H2 H3 H4 H5 H6]. destruct Hs; cbn [state idle busy out accepted taken discarded broken] in *.
  - unfold Start in H8. destruct (count <=? 0); [injection H8 as _ <-; congruence|]. rewrite H7 in H8. destruct (H4 H7) as (-> & A1 & A2). destruct reserved; cbn [negb] in H8; [|injection H8 as _ <-; congruence].
    assert (Hn : default [] (mJobs s) = []) by (by destruct (mJobs s)). destruct (Status.Code made); injection H8 as _ <-; constructor; cbn; rewrite ?Hn; try done; try lia.
    all: try (intros E; by rewrite (H2 E) in A2). all: intros _; split; [done|]; destruct (mJobs s) as [l|]; cbn in Hn; subst; set_solver.
  - unfold Post in H. destruct (mAccepting s) eqn:Ea; cbn [negb] in H; [|done]. destruct (mJobs s) as [l|] eqn:El; [|done]. injection H as <-. cbn [default] in *.
    assert (Hd : d = []) by (destruct d; [done|]; by specialize (H1' ltac:(done))). subst d. constructor; cbn; try done.
    + split; [|done]. rewrite H1. cbn. by rewrite (assoc_L app).
    + intros E. destruct (H3 E). congruence.
    + intros E. by destruct (H4 E) as (_ & ? & _).
  - unfold Post in H. destruct (mAccepting s) eqn:Ea; cbn [negb] in H; [|done]. destruct (mJobs s) as [l|] eqn:El; [done|]. destruct (H3 (H2 eq_refl)). congruence.
  - unfold RunWorker in H0. destruct (mStopRequested s) eqn:Es.
    { destruct (H3 eq_refl) as [_ [E|[E|Hx%elem_of_nil]%elem_of_cons]%elem_of_cons]; try rewrite E in H0; done. }
    destruct (mJobs s) as [[|j l]|] eqn:El; [done| |done]. injection H0 as <- <-. assert (Hd : d = []) by (destruct d; [done|]; by specialize (H1' ltac:(done))). subst d. cbn [default] in *.
    constructor; cbn; rewrite ?Es; try done; [|lia]. split; [|done]. rewrite H1. cbn. by rewrite <-(assoc_L app).
  - unfold RunWorker in H0. destruct (mStopRequested s) eqn:Es; [by destruct (mJobs s) as [[|j l]|]|]. destruct (mJobs s) as [[|j l]|] eqn:El; try done. by specialize (H2 eq_refl).
  - unfold RunWorker in H0. destruct (mStopRequested s) eqn:Es; destruct (mJobs s) as [[|j l]|] eqn:El; try done; injection H0 as <-; constructor; cbn; rewrite ?El, ?Es; try done; lia.
  - constructor; cbn; try done. lia.
  - unfold StopAndDiscard in H. destruct (mStarted s) eqn:Em; cbn [negb] in H; injection H as <- <-; [|rewrite app_nil_r; by constructor; cbn; rewrite ?Em].
    constructor; cbn; try done; [|by intros _; split; [done|left]]. rewrite app_nil_r. by rewrite H1.
Qed.

Lemma run_pool (w : World) : Run w -> pool_ok w.
Proof. induction 1 as [|w w' H IH Hs]; [|by eapply pool_step]. constructor; cbn; done. Qed.

(** Over every interleaving of posts, workers and a stop: every accepted job is taken by one worker, in the order in which the jobs were accepted, or is discarded by the stop, or is waiting in
    the queue, and only one of these; no null queue is ever followed; and after the stop no job starts and none is accepted. *)
Theorem pool_serves (w : World) (Hrun : Run w) :
  accepted w = taken w ++ discarded w ++ default [] (mJobs (state w)) /\ broken w = false
  /\ (mStopRequested (state w) = true -> (forall j s', RunWorker (state w) <> Some (TakenJob j, s')) /\ forall j s', Post j (state w) <> Some (Status.Ok, s')).
Proof.
  destruct (run_pool _ Hrun) as [[H1 _] H2 H3 H4 H5 H6]. split_and!; try done. intros Hst. destruct (H3 Hst) as [Ha [E|[E|Hx%elem_of_nil]%elem_of_cons]%elem_of_cons]; [..|done];
    (split; intros j s'; [unfold RunWorker; by rewrite Hst, E|unfold Post; by rewrite Ha]).
Qed.

Definition example_pool : World := MkWorld (MkState None true false true) 1 1 0 [7; 8; 9] [7] [8; 9] false.

Lemma example_run_pool : Run example_pool.
Proof.
  eapply RunStep; [|apply (StepStop (MkState (Some [8; 9]) true true false) _ 1 1 0 [7; 8; 9] [7] [] [8; 9] eq_refl)].
  eapply RunStep; [|apply (StepPost (MkState (Some [8]) true true false) _ 1 1 0 9 [7; 8] [7] [] eq_refl)].
  eapply RunStep; [|apply (StepTake (MkState (Some [7; 8]) true true false) _ 2 0 0 7 [7; 8] [] [] eq_refl eq_refl)].
  eapply RunStep; [|apply (StepPost (MkState (Some [7]) true true false) _ 2 0 0 8 [7] [] [] eq_refl)].
  eapply RunStep; [|apply (StepPost (MkState (Some []) true true false) _ 2 0 0 7 [] [] [] eq_refl)].
  eapply RunStep; [apply RunNew|]. apply (StepStart NewState _ [] 2 2 true Status.Ok Status.Ok); [lia|done|done|reflexivity|reflexivity].
Qed.

Lemma pool_serves_witness : Run example_pool /\ accepted example_pool = taken example_pool ++ discarded example_pool ++ default [] (mJobs (state example_pool)) /\ broken example_pool = false.
Proof.
  split; [exact example_run_pool|]. destruct (pool_serves example_pool example_run_pool) as (H1 & H2 & _). split; [exact H1|exact H2].
Defined.
