(* ===== verification/Prometheus.v ===== *)
(** * Observability: metrics and their text.

    [Observability/MetricsInternal.h]: saturating counters and the bins of a latency; [Observability/Prometheus.cpp]: the text that
    a collector reads.  The reader of the format is a specification: lines, comments, and samples of a name and a decimal
    number, as the text format of the collector defines them for names without spaces. *)

From Stdlib Require Import Sorted.
From stdpp Require Import gmap strings.
From S2P Require Import Prelude CoreError Charconv.
Import Charconv.

Module Prometheus.

(** ** Counters and bins *)

Definition Add (value amount : Z) : Z := if UINT64_MAX - value <? amount then UINT64_MAX else value + amount.

Definition LatencyBucketUpperBoundsNanoseconds : list Z :=
  [100000; 250000; 500000; 1000000; 2500000; 5000000; 10000000; 25000000; 50000000; 100000000; 1000000000].

(** What is left of the bounds, and the index so far. *)
Fixpoint LatencyBucketLoop (bounds : list Z) (nanoseconds : Z) (index : nat) : nat :=
  match bounds with
  | [] => index
  | b :: bounds => if b <? nanoseconds then LatencyBucketLoop bounds nanoseconds (S index) else index
  end.
Definition LatencyBucket (nanoseconds : Z) : nat := LatencyBucketLoop LatencyBucketUpperBoundsNanoseconds nanoseconds 0.

Definition LatencyHistogramSnapshot : Type := list Z.
Definition NewHistogram : LatencyHistogramSnapshot := repeat 0 12.

Definition ObserveLatency (histogram : LatencyHistogramSnapshot) (nanoseconds : Z) : LatencyHistogramSnapshot :=
  let i := LatencyBucket nanoseconds in <[i := Add (nth i histogram 0) 1]> histogram.

Record JobRunnerMetricsSnapshot : Type := MkJobMetrics {
  pendingJobs : Z; outstandingJobs : Z; jobRetainedBytes : Z; acceptedJobs : Z; completedJobs : Z; jobTotalLatencyNanoseconds : Z; jobMaxLatencyNanoseconds : Z;
  jobLatencyHistogram : LatencyHistogramSnapshot
}.

Record TaskExecutorMetricsSnapshot : Type := MkTaskMetrics {
  pendingTasks : Z; runningTasks : Z; taskRetainedBytes : Z; acceptedTasks : Z; completedTasks : Z; failedTasks : Z; cancelledTasks : Z; timedOutTasks : Z; rejectedTasks : Z;
  taskTotalLatencyNanoseconds : Z; taskMaxLatencyNanoseconds : Z; taskLatencyHistogram : LatencyHistogramSnapshot
}.

Record HttpServerMetricsSnapshot : Type := MkHttpMetrics {
  activeConnections : Z; activeRequests : Z; retainedRequestBytes : Z; httpRetainedSendBytes : Z; pendingTraceEvents : Z; acceptedConnections : Z; closedConnections : Z;
  rejectedConnections : Z; acceptedRequests : Z; completedRequests : Z; failedRequests : Z; cancelledRequests : Z; timedOutRequests : Z; rejectedRequests : Z; protocolErrors : Z;
  droppedTraceEvents : Z; traceCallbackErrors : Z; httpTotalLatencyNanoseconds : Z; httpMaxLatencyNanoseconds : Z; handlers : TaskExecutorMetricsSnapshot;
  httpLatencyHistogram : LatencyHistogramSnapshot
}.

Record ServerMetricsSnapshot : Type := MkServerMetrics {
  activeSessionCount : Z; pendingReceiveBytes : Z; pendingParseBytes : Z; pendingParseTaskCount : Z; receivedFrameCount : Z; queuedSendFrameCount : Z; errorCount : Z; skippedPeriodCount : Z;
  serverRetainedSendBytes : Z; jobs : JobRunnerMetricsSnapshot
}.

(** ** The text *)

Definition Number (out : list Z) (value : Z) : list Z := out ++ Digits value.

(** The nine digits are written from the last to the first. *)
Fixpoint FractionLoop (index : nat) (remaining : Z) (digits : list Z) : list Z :=
  match index with
  | O => digits
  | S index => FractionLoop index (remaining / 10) ((char_code "0" + remaining mod 10) :: digits)
  end.

Definition Seconds (out : list Z) (nanoseconds : Z) : list Z :=
  Number out (nanoseconds / 1000000000) ++ txt "." ++ FractionLoop 9 (nanoseconds mod 1000000000) [].

Definition Scalar (out : list Z) (prefix field kind : string) (value : Z) : list Z :=
  Number (out ++ txt "# TYPE " ++ txt prefix ++ txt field ++ txt " " ++ txt kind ++ [10] ++ txt prefix ++ txt field ++ txt " ") value ++ [10].

Fixpoint HistogramLoop (name : list Z) (buckets bounds : list Z) (count : Z) (out : list Z) : list Z * Z :=
  match buckets with
  | [] => (out, count)
  | b :: buckets =>
      let count := Add count b in
      let out := out ++ name ++ txt "_bucket{le=" ++ [34] in
      let out := match bounds with u :: _ => Seconds out u | [] => out ++ txt "+Inf" end in
      HistogramLoop name buckets (tl bounds) count (Number (out ++ [34] ++ txt "} ") count ++ [10])
  end.

Definition Histogram (out : list Z) (prefix : string) (histogram : LatencyHistogramSnapshot) (totalNanoseconds : Z) : list Z :=
  let name := txt prefix ++ txt "latency_seconds" in
  let '(out, count) := HistogramLoop name histogram LatencyBucketUpperBoundsNanoseconds 0 (out ++ txt "# TYPE " ++ name ++ txt " histogram" ++ [10]) in
  let out := Number (out ++ name ++ txt "_count ") count ++ [10] in
  Seconds (out ++ name ++ txt "_sum ") totalNanoseconds ++ [10].

(** A row of scalars, one after the other. *)
Definition Scalars (out : list Z) (prefix : string) (rows : list (string * string * Z)) : list Z :=
  fold_left (fun out r => Scalar out prefix r.1.1 r.1.2 r.2) rows out.

Definition TaskRows (s : TaskExecutorMetricsSnapshot) : list (string * string * Z) :=
  [("pending", "gauge", pendingTasks s); ("running", "gauge", runningTasks s); ("retained_bytes", "gauge", taskRetainedBytes s); ("accepted_total", "counter", acceptedTasks s);
   ("completed_total", "counter", completedTasks s); ("failed_total", "counter", failedTasks s); ("cancelled_total", "counter", cancelledTasks s); ("timed_out_total", "counter", timedOutTasks s);
   ("rejected_total", "counter", rejectedTasks s); ("max_latency_nanoseconds", "gauge", taskMaxLatencyNanoseconds s)]%string.
Definition Tasks (out : list Z) (s : TaskExecutorMetricsSnapshot) (prefix : string) : list Z :=
  Histogram (Scalars out prefix (TaskRows s)) prefix (taskLatencyHistogram s) (taskTotalLatencyNanoseconds s).

Definition JobRows (s : JobRunnerMetricsSnapshot) : list (string * string * Z) :=
  [("pending", "gauge", pendingJobs s); ("outstanding", "gauge", outstandingJobs s); ("retained_bytes", "gauge", jobRetainedBytes s); ("accepted_total", "counter", acceptedJobs s);
   ("completed_total", "counter", completedJobs s); ("max_latency_nanoseconds", "gauge", jobMaxLatencyNanoseconds s)]%string.
Definition Jobs (out : list Z) (s : JobRunnerMetricsSnapshot) : list Z :=
  Histogram (Scalars out "servercore_jobs_" (JobRows s)) "servercore_jobs_" (jobLatencyHistogram s) (jobTotalLatencyNanoseconds s).

Definition HttpRows (s : HttpServerMetricsSnapshot) : list (string * string * Z) :=
  [("active_connections", "gauge", activeConnections s); ("active_requests", "gauge", activeRequests s); ("retained_request_bytes", "gauge", retainedRequestBytes s);
   ("retained_send_bytes", "gauge", httpRetainedSendBytes s); ("pending_trace_events", "gauge", pendingTraceEvents s); ("accepted_connections_total", "counter", acceptedConnections s);
   ("closed_connections_total", "counter", closedConnections s); ("rejected_connections_total", "counter", rejectedConnections s); ("accepted_requests_total", "counter", acceptedRequests s);
   ("completed_requests_total", "counter", completedRequests s); ("failed_requests_total", "counter", failedRequests s); ("cancelled_requests_total", "counter", cancelledRequests s);
   ("timed_out_requests_total", "counter", timedOutRequests s); ("rejected_requests_total", "counter", rejectedRequests s); ("protocol_errors_total", "counter", protocolErrors s);
   ("dropped_trace_events_total", "counter", droppedTraceEvents s); ("trace_callback_errors_total", "counter", traceCallbackErrors s);
   ("max_latency_nanoseconds", "gauge", httpMaxLatencyNanoseconds s)]%string.

Definition ServerRows (s : ServerMetricsSnapshot) : list (string * string * Z) :=
  [("active_sessions", "gauge", activeSessionCount s); ("pending_receive_bytes", "gauge", pendingReceiveBytes s); ("pending_parse_bytes", "gauge", pendingParseBytes s);
   ("pending_parse_tasks", "gauge", pendingParseTaskCount s); ("received_frames_total", "counter", receivedFrameCount s); ("queued_send_frames_total", "counter", queuedSendFrameCount s);
   ("errors_total", "counter", errorCount s); ("skipped_periods_total", "counter", skippedPeriodCount s); ("retained_send_bytes", "gauge", serverRetainedSendBytes s)]%string.

Inductive Snapshot : Type :=
| SnapshotJobs (s : JobRunnerMetricsSnapshot) | SnapshotServer (s : ServerMetricsSnapshot) | SnapshotTasks (s : TaskExecutorMetricsSnapshot) | SnapshotHttp (s : HttpServerMetricsSnapshot).

(** The four overloads; the allocations that may fail leave nothing behind. *)
Definition RenderPrometheus (snapshot : Snapshot) : list Z :=
  match snapshot with
  | SnapshotJobs s => Jobs [] s
  | SnapshotServer s => Jobs (Scalars [] "servercore_game_" (ServerRows s)) (jobs s)
  | SnapshotTasks s => Tasks [] s "servercore_tasks_"
  | SnapshotHttp s =>
      Tasks (Histogram (Scalars [] "servercore_http_" (HttpRows s)) "servercore_http_" (httpLatencyHistogram s) (httpTotalLatencyNanoseconds s)) (handlers s) "servercore_http_handlers_"
  end.

End Prometheus.
Import Prometheus.

(** ** The reader *)

(** The lines of a text, each ended by a line feed. *)
Fixpoint lines_from (line text : list Z) : list (list Z) :=
  match text with
  | [] => match line with [] => [] | _ => [line] end
  | c :: text => if c =? 10 then line :: lines_from [] text else lines_from (line ++ [c]) text
  end.

(** A decimal number, in billionths: an integer, or an integer and nine digits of a fraction. *)
Definition billionths (v : list Z) : option Z :=
  let (a, r) := span_digits v in
  match a, r with
  | [], _ => None
  | _, [] => Some (digits_value a * 10 ^ 9)
  | _, p :: b => if (p =? 46) && forallb isdigit b && (len b =? 9) then Some (digits_value a * 10 ^ 9 + digits_value b) else None
  end.

Fixpoint cut_space (name text : list Z) : option (list Z * list Z) :=
  match text with
  | [] => None
  | c :: text => if c =? 32 then Some (name, text) else cut_space (name ++ [c]) text
  end.

Definition sample (line : list Z) : option (list Z * Z) :=
  match line with
  | [] => None
  | c :: _ => if c =? 35 then None else match cut_space [] line with Some (name, v) => option_map (pair name) (billionths v) | None => None end
  end.

Definition read (text : list Z) : list (list Z * Z) := omap sample (lines_from [] text).

(** What a snapshot says, as samples in billionths. *)
Definition scalar_samples (prefix : string) (rows : list (string * string * Z)) : list (list Z * Z) := map (fun r => (txt prefix ++ txt r.1.1, r.2 * 10 ^ 9)) rows.

Definition bound_label (bounds : list Z) : list Z := match bounds with u :: _ => Seconds [] u | [] => txt "+Inf" end.

Fixpoint bucket_samples (name : list Z) (before : Z) (buckets bounds : list Z) : list (list Z * Z) :=
  match buckets with
  | [] => []
  | b :: buckets =>
      (name ++ txt "_bucket{le=" ++ [34] ++ bound_label bounds ++ [34] ++ txt "}", Z.min UINT64_MAX (before + b) * 10 ^ 9) :: bucket_samples name (before + b) buckets (tl bounds)
  end.

Definition total (buckets : list Z) : Z := fold_right Z.add 0 buckets.

Definition histogram_samples (prefix : string) (h : LatencyHistogramSnapshot) (nanoseconds : Z) : list (list Z * Z) :=
  let name := txt prefix ++ txt "latency_seconds" in
  bucket_samples name 0 h LatencyBucketUpperBoundsNanoseconds ++ [(name ++ txt "_count", Z.min UINT64_MAX (total h) * 10 ^ 9); (name ++ txt "_sum", nanoseconds)].

Definition task_samples (prefix : string) (s : TaskExecutorMetricsSnapshot) : list (list Z * Z) :=
  scalar_samples prefix (TaskRows s) ++ histogram_samples prefix (taskLatencyHistogram s) (taskTotalLatencyNanoseconds s).
Definition job_samples (s : JobRunnerMetricsSnapshot) : list (list Z * Z) :=
  scalar_samples "servercore_jobs_" (JobRows s) ++ histogram_samples "servercore_jobs_" (jobLatencyHistogram s) (jobTotalLatencyNanoseconds s).

Definition samples (snapshot : Snapshot) : list (list Z * Z) :=
  match snapshot with
  | SnapshotJobs s => job_samples s
  | SnapshotServer s => scalar_samples "servercore_game_" (ServerRows s) ++ job_samples (jobs s)
  | SnapshotTasks s => task_samples "servercore_tasks_" s
  | SnapshotHttp s =>
      scalar_samples "servercore_http_" (HttpRows s) ++ histogram_samples "servercore_http_" (httpLatencyHistogram s) (httpTotalLatencyNanoseconds s)
      ++ task_samples "servercore_http_handlers_" (handlers s)
  end.

(** Every number of a snapshot is a number. *)
Definition rows_ok (rows : list (string * string * Z)) : Prop := Forall (fun r => 0 <= r.2) rows.
Definition histogram_ok (h : LatencyHistogramSnapshot) (nanoseconds : Z) : Prop := Forall (fun b => 0 <= b) h /\ 0 <= nanoseconds.
Definition snapshot_ok (snapshot : Snapshot) : Prop :=
  match snapshot with
  | SnapshotJobs s => rows_ok (JobRows s) /\ histogram_ok (jobLatencyHistogram s) (jobTotalLatencyNanoseconds s)
  | SnapshotServer s => rows_ok (ServerRows s) /\ rows_ok (JobRows (jobs s)) /\ histogram_ok (jobLatencyHistogram (jobs s)) (jobTotalLatencyNanoseconds (jobs s))
  | SnapshotTasks s => rows_ok (TaskRows s) /\ histogram_ok (taskLatencyHistogram s) (taskTotalLatencyNanoseconds s)
  | SnapshotHttp s => rows_ok (HttpRows s) /\ histogram_ok (httpLatencyHistogram s) (httpTotalLatencyNanoseconds s) /\ rows_ok (TaskRows (handlers s))
      /\ histogram_ok (taskLatencyHistogram (handlers s)) (taskTotalLatencyNanoseconds (handlers s))
  end.

(** ** Reading lines *)

Lemma lines_line (l a t : list Z) : 10 ∉ a -> lines_from l (a ++ 10 :: t) = (l ++ a) :: lines_from [] t.
Proof.
  revert l. induction a as [|c a IH]; intros l H; cbn [app lines_from]; [by rewrite app_nil_r|]. apply not_elem_of_cons in H as [H1 H2].
  rewrite (proj2 (Z.eqb_neq _ _)) by done. rewrite IH by done. by rewrite <-(assoc_L app).
Qed.

(** A text of whole lines, before another. *)
Definition whole (text : list Z) : Prop := text = [] \/ exists a, text = a ++ [10].

Lemma lines_whole (l a t : list Z) : lines_from l ((a ++ [10]) ++ t) = lines_from l (a ++ [10]) ++ lines_from [] t.
Proof.
  revert l. induction a as [|c a IH]; intros l; cbn [app lines_from]; [done|]. destruct (c =? 10); cbn [app]; [f_equal|]; apply IH.
Qed.

Lemma read_whole (out t : list Z) : whole out -> read (out ++ t) = read out ++ read t.
Proof. intros [->|[a ->]]; [done|]. unfold read. by rewrite lines_whole, omap_app. Qed.

Lemma read_line (a t : list Z) : 10 ∉ a -> read (a ++ 10 :: t) = (match sample a with Some x => [x] | None => [] end) ++ read t.
Proof. intros H. unfold read. rewrite lines_line by done. cbn [app omap list_omap]. by destruct (sample a). Qed.

Lemma whole_end (out a : list Z) : whole (out ++ a ++ [10]).
Proof. right. exists (out ++ a). by rewrite <-(assoc_L app). Qed.

(** The name of a sample. *)
Definition clean (name : list Z) : bool := forallb (fun c => negb (c =? 10) && negb (c =? 32) && negb (c =? 35)) name.

Lemma clean_spec (name : list Z) : clean name = true <-> 10 ∉ name /\ 32 ∉ name /\ 35 ∉ name.
Proof.
  unfold clean. rewrite forallb_forall. split.
  - intros H. split_and!; intros Hin%list_elem_of_In; by specialize (H _ Hin).
  - intros (H1 & H2 & H3) c Hc%list_elem_of_In. destruct (Z.eqb_spec c 10); [by subst|]. destruct (Z.eqb_spec c 32); [by subst|]. destruct (Z.eqb_spec c 35); [by subst|]. done.
Qed.

Lemma clean_app (a b : list Z) : clean (a ++ b) = clean a && clean b.
Proof. apply forallb_app. Qed.

Lemma cut_space_name (l a v : list Z) : 32 ∉ a -> cut_space l (a ++ 32 :: v) = Some (l ++ a, v).
Proof.
  revert l. induction a as [|c a IH]; intros l H; cbn [app cut_space]; [by rewrite app_nil_r|]. apply not_elem_of_cons in H as [H1 H2].
  rewrite (proj2 (Z.eqb_neq _ _)) by done. rewrite IH by done. by rewrite <-(assoc_L app).
Qed.

Lemma sample_line (name v : list Z) (x : Z) : name <> [] -> clean name = true -> billionths v = Some x -> sample (name ++ 32 :: v) = Some (name, x).
Proof.
  intros Hn (H1 & H2 & H3)%clean_spec Hv. destruct name as [|c name]; [done|]. unfold sample. rewrite <-app_comm_cons. rewrite (proj2 (Z.eqb_neq c 35)) by (intros ->; apply H3; by left).
  rewrite app_comm_cons, cut_space_name by done. cbn [app]. by rewrite Hv.
Qed.

(** The two forms of a number. *)
Lemma digit_clean (ds : list Z) : all_digits ds -> 10 ∉ ds.
Proof. intros H Hin. unfold all_digits in H. rewrite Forall_forall in H. by specialize (H _ Hin). Qed.

Lemma billionths_number (n : Z) : 0 <= n -> billionths (Digits n) = Some (n * 10 ^ 9) /\ 10 ∉ Digits n.
Proof.
  intros Hn. pose proof (digits_all n Hn) as Ha. unfold billionths. rewrite span_digits_all by done. destruct (digits_spec n Hn) as (c & cs & E & _).
  split; [|by apply digit_clean]. rewrite <-(digits_value_digits n Hn) at 2. by rewrite E.
Qed.

Lemma fraction_spec (k : nat) (r : Z) (ds : list Z) : 0 <= r < 10 ^ Z.of_nat k -> all_digits ds ->
  exists f, FractionLoop k r ds = f ++ ds /\ all_digits f /\ len f = Z.of_nat k /\ digits_value f = r.
Proof.
  revert r ds. induction k as [|k IH]; intros r ds Hr Hd; cbn [FractionLoop].
  - exists []. split_and!; try done; [constructor|]. cbn in *. unfold digits_value. cbn. lia.
  - assert (Hm : 0 <= r mod 10 < 10) by (apply Z.mod_pos_bound; lia). assert (Hc : isdigit (char_code "0" + r mod 10) = true) by (apply isdigit_spec; eval_chars; lia).
    assert (Hk : 10 ^ Z.of_nat (S k) = 10 * 10 ^ Z.of_nat k) by (rewrite Nat2Z.inj_succ, Z.pow_succ_r by lia; done).
    destruct (IH (r / 10) ((char_code "0" + r mod 10) :: ds)) as (f & E & F1 & F2 & F3); [split; [apply Z.div_pos; lia|apply Z.div_lt_upper_bound; lia]|by constructor|].
    exists (f ++ [char_code "0" + r mod 10]). rewrite E, <-(assoc_L app). split_and!; [done|apply Forall_app; split; [done|by constructor]|rewrite len_app; change (len [char_code "0" + r mod 10]) with 1; lia|].
    rewrite digits_value_snoc, F3. pose proof (Z.div_mod r 10 ltac:(lia)). eval_chars. lia.
Qed.

Lemma seconds_app (out : list Z) (n : Z) : Seconds out n = out ++ Seconds [] n.
Proof. unfold Seconds, Number. by rewrite <-(assoc_L app). Qed.

Lemma billionths_seconds (n : Z) : 0 <= n -> billionths (Seconds [] n) = Some n /\ 10 ∉ Seconds [] n /\ clean (Seconds [] n) = true.
Proof.
  intros Hn. unfold Seconds, Number. cbn [app]. pose proof (Z.mod_pos_bound n 1000000000 ltac:(lia)) as Hm. pose proof (Z.div_pos n 1000000000 Hn ltac:(lia)) as Hq.
  destruct (fraction_spec 9 (n mod 1000000000) []) as (f & E & F1 & F2 & F3); [done|constructor|]. rewrite E, app_nil_r. pose proof (digits_all _ Hq) as Ha.
  assert (Hb : forallb isdigit f = true) by (apply forallb_forall; intros c Hc; unfold all_digits in F1; rewrite Forall_forall in F1; by apply F1, list_elem_of_In).
  assert (Hcl : forall c, c ∈ Digits (n / 1000000000) ++ txt "." ++ f -> 46 <= c <= 57).
  { intros c [Hc|[Hc|Hc]%elem_of_app]%elem_of_app; [unfold all_digits in Ha; rewrite Forall_forall in Ha; apply Ha, isdigit_spec in Hc; lia|cbn in Hc; apply list_elem_of_singleton in Hc; subst; done|].
    unfold all_digits in F1. rewrite Forall_forall in F1. apply F1, isdigit_spec in Hc. lia. }
  split_and!.
  - unfold billionths. rewrite span_digits_app by done. destruct (digits_spec _ Hq) as (c & cs & Ed & _). rewrite Ed at 1.
    change (txt "." ++ f) with (46 :: f). cbn [Z.eqb Pos.eqb andb]. rewrite Hb, F2. cbn [andb]. rewrite F3. f_equal.
    rewrite (digits_value_digits _ Hq). change (10 ^ 9) with 1000000000. pose proof (Z.div_mod n 1000000000 ltac:(lia)). lia.
  - intros Hin%Hcl. lia.
  - apply clean_spec. split_and!; intros Hin%Hcl; lia.
Qed.

(** ** Rendering *)

Lemma comment_line (body : list Z) (t : list Z) : 10 ∉ body -> read (txt "# TYPE " ++ body ++ 10 :: t) = read t.
Proof. intros H. rewrite (assoc_L app). rewrite read_line; [done|]. rewrite not_elem_of_app. split; [|done]. by apply (bool_decide_unpack _). Qed.

Lemma value_line (name v t : list Z) (x : Z) : name <> [] -> clean name = true -> billionths v = Some x -> 10 ∉ v -> read (name ++ 32 :: v ++ 10 :: t) = (name, x) :: read t.
Proof.
  intros Hn Hc Hb Hv. replace (name ++ 32 :: v ++ 10 :: t) with ((name ++ 32 :: v) ++ 10 :: t) by (by rewrite <-(assoc_L app)). rewrite read_line; [by rewrite (sample_line _ _ x)|].
  apply clean_spec in Hc as (H1 & _). intros [?|[?|?]%elem_of_cons]%elem_of_app; done.
Qed.

Lemma scalar_read (out : list Z) (prefix field kind : string) (value : Z) : whole out -> 0 <= value -> txt prefix <> [] -> clean (txt prefix ++ txt field) = true -> clean (txt kind) = true ->
  whole (Scalar out prefix field kind value) /\ read (Scalar out prefix field kind value) = read out ++ [(txt prefix ++ txt field, value * 10 ^ 9)].
Proof.
  intros Hw Hv Hp Hn Hk. destruct (billionths_number value Hv) as [Hb Hd].
  assert (E : Scalar out prefix field kind value = out ++ txt "# TYPE " ++ ((txt prefix ++ txt field) ++ 32 :: txt kind) ++ 10 :: (txt prefix ++ txt field) ++ 32 :: Digits value ++ [10]).
  { unfold Scalar, Number. change (txt " ") with [32]. repeat (rewrite <-(assoc_L app) || cbn [app]). done. }
  split; [right; unfold Scalar; by eexists|]. rewrite E, read_whole by done. f_equal. rewrite comment_line.
  - rewrite (value_line _ _ [] (value * 10 ^ 9)); try done. by destruct (txt prefix).
  - apply clean_spec in Hn as (H1 & _). apply clean_spec in Hk as (H2 & _). intros [?|[?|?]%elem_of_cons]%elem_of_app; done.
Qed.

Definition row_clean (prefix : string) (r : string * string * Z) : bool := clean (txt prefix ++ txt r.1.1) && clean (txt r.1.2).

Lemma scalars_read (prefix : string) (rows : list (string * string * Z)) (out : list Z) : whole out -> txt prefix <> [] -> rows_ok rows -> forallb (row_clean prefix) rows = true ->
  whole (Scalars out prefix rows) /\ read (Scalars out prefix rows) = read out ++ scalar_samples prefix rows.
Proof.
  revert out. induction rows as [|[[f k] v] rows IH]; intros out Hw Hp Hr Hc; [cbn; by rewrite app_nil_r|]. apply Forall_cons in Hr as [Hv Hr]. cbn [forallb] in Hc. apply andb_true_iff in Hc as [Hc Hc'].
  unfold row_clean in Hc. apply andb_true_iff in Hc as [Hc1 Hc2]. cbn [fst snd] in *. destruct (scalar_read out prefix f k v Hw Hv Hp Hc1 Hc2) as [S1 S2].
  destruct (IH (Scalar out prefix f k v) S1 Hp Hr Hc') as [R1 R2]. unfold Scalars in *. cbn [fold_left fst snd]. split; [done|]. rewrite R2, S2, <-(assoc_L app). done.
Qed.

Lemma add_saturates (s b : Z) : 0 <= s -> 0 <= b -> Add (Z.min UINT64_MAX s) b = Z.min UINT64_MAX (s + b).
Proof. intros Hs Hb. unfold Add. destruct (Z.ltb_spec (UINT64_MAX - Z.min UINT64_MAX s) b); lia. Qed.

Lemma bound_label_clean (bounds : list Z) : Forall (fun u => 0 <= u) bounds -> clean (bound_label bounds) = true.
Proof. intros H. destruct bounds as [|u bounds]; [done|]. apply Forall_cons in H as [Hu _]. by apply billionths_seconds. Qed.

Lemma histogram_loop_read (name : list Z) (buckets bounds : list Z) (before : Z) (out : list Z) : whole out -> name <> [] -> clean name = true -> Forall (fun u => 0 <= u) bounds ->
  Forall (fun b => 0 <= b) buckets -> 0 <= before ->
  exists out', HistogramLoop name buckets bounds (Z.min UINT64_MAX before) out = (out', Z.min UINT64_MAX (before + total buckets)) /\ whole out' /\ read out' = read out ++ bucket_samples name before buckets bounds.
Proof.
  revert bounds before out. induction buckets as [|b buckets IH]; intros bounds before out Hw Hn Hc Hu Hb H0; cbn [HistogramLoop].
  { exists out. cbn. rewrite Z.add_0_r, app_nil_r. done. }
  apply Forall_cons in Hb as [Hb0 Hb]. rewrite add_saturates by done. destruct (billionths_number (Z.min UINT64_MAX (before + b))) as [Hd1 Hd2]; [unfold UINT64_MAX; lia|].
  set (label := name ++ txt "_bucket{le=" ++ [34] ++ bound_label bounds ++ [34] ++ txt "}").
  set (line := Number ((match bounds with u :: _ => Seconds (out ++ name ++ txt "_bucket{le=" ++ [34]) u | [] => (out ++ name ++ txt "_bucket{le=" ++ [34]) ++ txt "+Inf" end) ++ [34] ++ txt "} ") (Z.min UINT64_MAX (before + b)) ++ [10]).
  assert (E : line = out ++ label ++ 32 :: Digits (Z.min UINT64_MAX (before + b)) ++ [10]).
  { unfold line, label, Number, bound_label. change (txt "} ") with (txt "}" ++ [32]). destruct bounds as [|u bounds]; [|rewrite (seconds_app (_ ++ _))]; repeat (rewrite <-(assoc_L app) || cbn [app]); done. }
  assert (Hlc : clean label = true). { unfold label. rewrite !clean_app, Hc, (bound_label_clean _ Hu). done. }
  assert (Hr : read line = read out ++ [(label, Z.min UINT64_MAX (before + b) * 10 ^ 9)]).
  { rewrite E, read_whole by done. f_equal. apply (value_line _ _ []); try done. unfold label. by destruct name. }
  assert (Hwl : whole line) by (right; unfold line; by eexists).
  destruct (IH (tl bounds) (before + b) line) as (out' & R1 & R2 & R3); [done|done|done|destruct bounds; [done|by apply Forall_cons in Hu as [_ ?]]|done|lia|].
  exists out'. fold line. rewrite R1. split_and!; [|done|].
  - cbn [total fold_right]. fold (total buckets). by rewrite Z.add_assoc.
  - rewrite R3, Hr, <-(assoc_L app). done.
Qed.

Lemma histogram_read (out : list Z) (prefix : string) (h : LatencyHistogramSnapshot) (nanoseconds : Z) : whole out -> txt prefix <> [] -> clean (txt prefix) = true -> histogram_ok h nanoseconds ->
  whole (Histogram out prefix h nanoseconds) /\ read (Histogram out prefix h nanoseconds) = read out ++ histogram_samples prefix h nanoseconds.
Proof.
  intros Hw Hp Hc [Hh Hn]. unfold Histogram, histogram_samples. set (name := txt prefix ++ txt "latency_seconds").
  assert (Hnc : clean name = true) by (unfold name; by rewrite clean_app, Hc). assert (Hne : name <> []) by (unfold name; by destruct (txt prefix)).
  set (start := out ++ txt "# TYPE " ++ name ++ txt " histogram" ++ [10]).
  assert (Hs : read start = read out /\ whole start).
  { assert (E : start = out ++ txt "# TYPE " ++ (name ++ txt " histogram") ++ 10 :: []) by (unfold start; by rewrite <-!(assoc_L app)). rewrite E. split.
    - rewrite read_whole, comment_line by (done || (apply clean_spec in Hnc as (H1 & _); rewrite not_elem_of_app; split; [done|by apply (bool_decide_unpack _)])). apply app_nil_r.
    - right. exists (out ++ txt "# TYPE " ++ (name ++ txt " histogram")). by rewrite <-!(assoc_L app). }
  destruct Hs as [Hs Hsw]. destruct (histogram_loop_read name h LatencyBucketUpperBoundsNanoseconds 0 start) as (out' & E & Hw' & Hr'); [done|done|done|by repeat constructor|done|done|].
  change (Z.min UINT64_MAX 0) with 0 in E. cbn zeta. rewrite E. rewrite Z.add_0_l.
  destruct (billionths_number (Z.min UINT64_MAX (total h))) as [Hd1 Hd2].
  { assert (0 <= total h); [|unfold UINT64_MAX; lia]. clear -Hh. induction Hh; cbn [total fold_right]; [done|]. fold (total l). lia. }
  destruct (billionths_seconds nanoseconds Hn) as (Hs1 & Hs2 & _). set (cnt := Z.min UINT64_MAX (total h)) in *.
  assert (E2 : Seconds ((Number (out' ++ name ++ txt "_count ") cnt ++ [10]) ++ name ++ txt "_sum ") nanoseconds ++ [10]
    = out' ++ (name ++ txt "_count") ++ 32 :: Digits cnt ++ 10 :: (name ++ txt "_sum") ++ 32 :: Seconds [] nanoseconds ++ [10]).
  { rewrite seconds_app. unfold Number. change (txt "_count ") with (txt "_count" ++ [32]). change (txt "_sum ") with (txt "_sum" ++ [32]). repeat (rewrite <-(assoc_L app) || cbn [app]). done. }
  split; [right; by eexists|]. rewrite E2, read_whole by done. rewrite Hr', Hs, <-(assoc_L app). do 2 f_equal.
  rewrite (value_line _ _ _ (cnt * 10 ^ 9)); [|by unfold name; destruct (txt prefix)|by rewrite clean_app, Hnc|done|done].
  rewrite (value_line _ _ [] nanoseconds); [done|by unfold name; destruct (txt prefix)|by rewrite clean_app, Hnc|done|done].
Qed.

Lemma tasks_read (out : list Z) (s : TaskExecutorMetricsSnapshot) (prefix : string) : whole out -> txt prefix <> [] -> clean (txt prefix) = true -> rows_ok (TaskRows s) ->
  histogram_ok (taskLatencyHistogram s) (taskTotalLatencyNanoseconds s) -> forallb (row_clean prefix) (TaskRows s) = true ->
  whole (Tasks out s prefix) /\ read (Tasks out s prefix) = read out ++ task_samples prefix s.
Proof.
  intros Hw Hp Hc Hr Hh Hrc. destruct (scalars_read prefix (TaskRows s) out Hw Hp Hr Hrc) as [S1 S2]. unfold Tasks, task_samples.
  destruct (histogram_read (Scalars out prefix (TaskRows s)) prefix _ _ S1 Hp Hc Hh) as [R1 R2]. split; [done|]. by rewrite R2, S2, <-(assoc_L app).
Qed.

Lemma jobs_read (out : list Z) (s : JobRunnerMetricsSnapshot) : whole out -> rows_ok (JobRows s) -> histogram_ok (jobLatencyHistogram s) (jobTotalLatencyNanoseconds s) ->
  whole (Jobs out s) /\ read (Jobs out s) = read out ++ job_samples s.
Proof.
  intros Hw Hr Hh. destruct (scalars_read "servercore_jobs_" (JobRows s) out Hw) as [S1 S2]; [done|done|done|]. unfold Jobs, job_samples.
  destruct (histogram_read (Scalars out "servercore_jobs_" (JobRows s)) "servercore_jobs_" (jobLatencyHistogram s) (jobTotalLatencyNanoseconds s) S1) as [R1 R2]; [done|done|done|]. split; [done|]. by rewrite R2, S2, <-(assoc_L app).
Qed.

(** ** The bins of latencies *)

Definition bin_count (ls : list Z) (j : nat) : Z := len (filter (fun l => LatencyBucket l = j) ls).

Lemma latency_loop (bounds : list Z) (n : Z) (k : nat) : (k <= LatencyBucketLoop bounds n k <= k + length bounds)%nat.
Proof. revert k. induction bounds as [|b bounds IH]; intros k; cbn [LatencyBucketLoop length]; [lia|]. case_if; [specialize (IH (S k)); lia|lia]. Qed.

Lemma latency_bucket_lt (n : Z) : (LatencyBucket n < 12)%nat.
Proof. unfold LatencyBucket. pose proof (latency_loop LatencyBucketUpperBoundsNanoseconds n 0) as H. cbn [length LatencyBucketUpperBoundsNanoseconds] in H. lia. Qed.

(** A latency falls in the first bin whose bound it does not exceed. *)
Lemma latency_bucket_bound (bounds : list Z) (n u : Z) (k i : nat) : StronglySorted Z.lt bounds -> bounds !! i = Some u -> (LatencyBucketLoop bounds n k <= k + i)%nat <-> n <= u.
Proof.
  revert k i. induction bounds as [|b bounds IH]; intros k i Hs Hi; [done|]. apply StronglySorted_inv in Hs as [Hs Hb]. cbn [LatencyBucketLoop].
  destruct i as [|i]; cbn in Hi.
  - injection Hi as ->. destruct (Z.ltb_spec u n); [|split; lia]. pose proof (latency_loop bounds n (S k)). split; lia.
  - assert (b < u) by (rewrite Forall_forall in Hb; apply Hb; by apply list_elem_of_lookup_2 in Hi). destruct (Z.ltb_spec b n); [|split; lia].
    rewrite <-(IH (S k) i Hs Hi). split; lia.
Qed.

Lemma bin_count_snoc (ls : list Z) (l : Z) (j : nat) : bin_count (ls ++ [l]) j = bin_count ls j + (if bool_decide (LatencyBucket l = j) then 1 else 0).
Proof. unfold bin_count. rewrite filter_app, len_app. rewrite filter_cons. case_bool_decide; case_decide; try done. Qed.

Lemma histogram_bins (ls : list Z) : len ls <= UINT64_MAX -> fold_left ObserveLatency ls NewHistogram = map (bin_count ls) (seq 0 12).
Proof.
  induction ls as [|l ls IH] using rev_ind; intros Hl; [done|]. rewrite fold_left_app. cbn [fold_left]. rewrite len_app in Hl. change (len [l]) with 1 in Hl. rewrite IH by lia.
  unfold ObserveLatency, LatencyHistogramSnapshot in *. cbn zeta. pose proof (latency_bucket_lt l) as Hj. set (j := LatencyBucket l) in *.
  assert (Hn : nth j (map (bin_count ls) (seq 0 12)) 0 = bin_count ls j). { rewrite (nth_indep _ _ (bin_count ls 0)) by (rewrite length_map, length_seq; lia). rewrite map_nth, seq_nth by lia. done. }
  assert (Hc : 0 <= bin_count ls j <= len ls). { unfold bin_count, len. pose proof (length_filter (fun l => LatencyBucket l = j) ls). lia. }
  rewrite Hn. unfold Add. rewrite (proj2 (Z.ltb_ge _ _)) by lia. apply list_eq. intros i. destruct (decide (i = j)) as [->|Hij].
  - rewrite list_lookup_insert_eq by (rewrite length_map, length_seq; lia). rewrite list_lookup_fmap, lookup_seq_lt by lia. cbn. by rewrite bin_count_snoc, bool_decide_true.
  - rewrite list_lookup_insert_ne by done. rewrite !list_lookup_fmap. destruct (decide (i < 12)%nat) as [Hi|Hi]; [|rewrite lookup_seq_ge by lia; done].
    rewrite lookup_seq_lt by lia. cbn. rewrite bin_count_snoc, bool_decide_false; [f_equal; lia|]. intros E. by destruct Hij.
Qed.

Lemma bins_below (ls : list Z) (i : nat) : total (map (bin_count ls) (seq 0 i)) = len (filter (fun l => (LatencyBucket l < i)%nat) ls).
Proof.
  induction i as [|i IH].
  - cbn. induction ls as [|l ls IH]; [done|]. rewrite filter_cons. case_decide; [lia|done].
  - rewrite seq_S, map_app. assert (Ht : forall a b, total (a ++ b) = total a + total b) by (intros a b; unfold total; induction a; cbn [app fold_right]; lia). rewrite Ht, IH. cbn [map total fold_right Nat.add].
    unfold bin_count, len. clear. induction ls as [|l ls IH]; [done|]. rewrite !filter_cons. repeat case_decide; cbn [length]; lia.
Qed.

(** ** The theorems *)

(** A collector that reads the text of a snapshot gets exactly the numbers of the snapshot, in order and under their names: counters and gauges as they are, each bucket of a histogram as the
    saturating sum of the bins up to it, the count as the sum of all, and the total latency to the nanosecond. *)
Theorem prometheus_round_trip (s : Snapshot) (Hok : snapshot_ok s) : read (RenderPrometheus s) = samples s.
Proof.
  assert (H0 : whole []) by by left. destruct s as [s|s|s|s]; cbn [RenderPrometheus samples snapshot_ok] in *.
  - destruct Hok as [H1 H2]. by destruct (jobs_read [] s H0 H1 H2) as [_ ->].
  - destruct Hok as (H1 & H2 & H3). destruct (scalars_read "servercore_game_" (ServerRows s) [] H0) as [S1 S2]; [done|done|done|]. destruct (jobs_read _ (jobs s) S1 H2 H3) as [_ ->]. by rewrite S2.
  - destruct Hok as [H1 H2]. by destruct (tasks_read [] s "servercore_tasks_" H0) as [_ ->].
  - destruct Hok as (H1 & H2 & H3 & H4). destruct (scalars_read "servercore_http_" (HttpRows s) [] H0) as [S1 S2]; [done|done|done|].
    destruct (histogram_read _ "servercore_http_" (httpLatencyHistogram s) (httpTotalLatencyNanoseconds s) S1) as [R1 R2]; [done|done|done|].
    destruct (tasks_read _ (handlers s) "servercore_http_handlers_" R1) as [_ ->]; [done..|]. rewrite R2, S2. cbn [read lines_from omap list_omap app]. by rewrite <-(assoc_L app).
Qed.

Lemma bucket_samples_lookup (name : list Z) (buckets bounds : list Z) (before : Z) (i : nat) : (i < length buckets)%nat ->
  bucket_samples name before buckets bounds !! i
  = Some (name ++ txt "_bucket{le=" ++ [34] ++ bound_label (drop i bounds) ++ [34] ++ txt "}", Z.min UINT64_MAX (before + total (take (S i) buckets)) * 10 ^ 9).
Proof.
  revert bounds before i. induction buckets as [|b buckets IH]; intros bounds before i Hi; [cbn in Hi; lia|]. cbn [bucket_samples length] in *. destruct i as [|i].
  - cbn [lookup list_lookup drop take total fold_right]. by rewrite Z.add_0_r.
  - cbn [lookup list_lookup]. rewrite IH by lia. cbn [take total fold_right]. fold (total (take i buckets)). rewrite <-Z.add_assoc.
    assert (drop i (tail bounds) = drop (S i) bounds) as -> by (destruct bounds; [cbn [tail]; by rewrite !drop_nil|done]). done.
Qed.

(** A histogram that has observed some latencies reports, for each bound, how many of them do not exceed it, and for infinity how many there were. *)
Theorem histogram_cumulative (ls : list Z) (name : list Z) (Hl : len ls <= UINT64_MAX) :
  let h := fold_left ObserveLatency ls NewHistogram in
  (forall i u, LatencyBucketUpperBoundsNanoseconds !! i = Some u ->
     bucket_samples name 0 h LatencyBucketUpperBoundsNanoseconds !! i
     = Some (name ++ txt "_bucket{le=" ++ [34] ++ Seconds [] u ++ [34] ++ txt "}", len (filter (fun l => l <= u) ls) * 10 ^ 9))
  /\ bucket_samples name 0 h LatencyBucketUpperBoundsNanoseconds !! 11%nat = Some (name ++ txt "_bucket{le=" ++ [34] ++ txt "+Inf" ++ [34] ++ txt "}", len ls * 10 ^ 9).
Proof.
  cbn zeta. rewrite histogram_bins by done.
  assert (G : forall i, (i < 12)%nat -> bucket_samples name 0 (map (bin_count ls) (seq 0 12)) LatencyBucketUpperBoundsNanoseconds !! i
    = Some (name ++ txt "_bucket{le=" ++ [34] ++ bound_label (drop i LatencyBucketUpperBoundsNanoseconds) ++ [34] ++ txt "}", len (filter (fun l => (LatencyBucket l < S i)%nat) ls) * 10 ^ 9)).
  { intros i Hi. rewrite bucket_samples_lookup by (rewrite length_map, length_seq; lia). rewrite firstn_map, take_seq. rewrite Nat.min_l by lia. rewrite bins_below, Z.add_0_l.
    rewrite Z.min_r; [done|]. unfold len in *. pose proof (length_filter (fun l => (LatencyBucket l < S i)%nat) ls). lia. }
  split.
  - intros i u Hi. assert (Hi' : (i < 12)%nat) by (apply lookup_lt_Some in Hi; cbn in Hi; lia). rewrite G by done. rewrite (drop_S _ _ _ Hi). cbn [bound_label]. do 2 f_equal.
    f_equal. f_equal. apply list_filter_iff. intros l. unfold LatencyBucket.
    rewrite <-(latency_bucket_bound LatencyBucketUpperBoundsNanoseconds l u 0 i); [lia|by repeat constructor|done].
  - rewrite G by lia. do 2 f_equal. f_equal. f_equal. clear. induction ls as [|l ls IH]; [done|]. rewrite filter_cons. pose proof (latency_bucket_lt l). case_decide; [by rewrite IH|lia].
Qed.

Definition example_tasks : TaskExecutorMetricsSnapshot :=
  MkTaskMetrics 3 1 512 40 36 2 1 1 7 123456789 2000000001 (fold_left ObserveLatency [100000; 100001; 2000000001] NewHistogram).

Lemma prometheus_round_trip_witness : snapshot_ok (SnapshotTasks example_tasks)
  /\ read (RenderPrometheus (SnapshotTasks example_tasks)) = samples (SnapshotTasks example_tasks)
  /\ In (txt "servercore_tasks_latency_seconds_sum", 123456789) (samples (SnapshotTasks example_tasks)).
Proof.
  assert (H : snapshot_ok (SnapshotTasks example_tasks)) by (split; [repeat constructor; cbn; lia|split; [vm_compute; repeat constructor; discriminate|cbn; lia]]).
  split; [exact H|]. split; [exact (prometheus_round_trip (SnapshotTasks example_tasks) H)|]. vm_compute. tauto.
Defined.

Lemma histogram_cumulative_witness : len [100000; 100001; 2000000001] <= UINT64_MAX
  /\ bucket_samples (txt "x") 0 (fold_left ObserveLatency [100000; 100001; 2000000001] NewHistogram) LatencyBucketUpperBoundsNanoseconds !! 11%nat
     = Some (txt "x" ++ txt "_bucket{le=" ++ [34] ++ txt "+Inf" ++ [34] ++ txt "}", len [100000; 100001; 2000000001] * 10 ^ 9).
Proof.
  split; [vm_compute; discriminate|]. exact (proj2 (histogram_cumulative [100000; 100001; 2000000001] (txt "x") ltac:(vm_compute; discriminate))).
Defined.
